(* ===== verification/_CoqProject ===== *)
-Q . S2P
Prelude.v
IntMath.v
Request.v
MemCmd.v
Packet.v
PacketSpec.v
Blk.v
CacheSet.v
TagTypes.v
LRU.v
PartLRU.v
DynaLRU.v
Tags.v
TagsWf.v
TagsNew.v
Isolation.v
TagsSpec.v
Resize.v
Labels.v
FaLRU.v
FaLRUSpec.v
FaLRUStack.v
MSHR.v
MSHRQueue.v
MSHRSpec.v
PacketQueue.v
Prefetch.v
CacheBase.v
CacheAccess.v
Cache.v
CacheBus.v
DynamicCache.v
CacheSpec.v
DynamicSpec.v
AccessSpec.v
CacheFrame.v
DynamicFlow.v
CacheLogic.v
CacheRun.v
FlushSpec.v
DynamicScrub.v
SnoopSpec.v
ClockedObject.v
Bridge.v
RRBus.v
LayerSpec.v
LayerTrace.v
PortMap.v
CoherentBus.v
CoherentBusSpec.v
EventQ.v
EventQSpec.v
EventQRefine.v
EventQService.v
DramTypes.v
DramQueue.v
DramRank.v
DramController.v
DramQueueSpec.v
DramTurns.v
DramAddr.v
DramBanks.v
DramLanes.v
DramFlow.v
DramPower.v
DramSafe.v
DramIso.v
DramWindow.v
Memory.v
ChunkGen.v
PageTable.v
VirtMem.v
VirtMemSpec.v
VirtMemRun.v
VirtMemSpaces.v
DramAdapter.v
DramJobs.v
DramChannels.v
DramAdapterSpec.v
