(* ===== verification/Prelude.v ===== *)
(** * A partitioned, coherent cache hierarchy

    This library verifies the memory system of a processor simulator whose
    caches are partitioned between security domains ("Low", thread 0, and
    "High", thread 1, or any number of threads for the static partitions), so
    that one domain cannot observe another through the cache, the buses or the
    memory.  Paths below are relative to the directory src/ of the simulator;
    those of the memory simulator are under ext/DRAMSim2.

    ** The program

    A [Request] (mem/request.hh) travels inside [Packet]s (mem/packet.hh,
    packet.cc) with a command and attributes.  A cache (mem/cache/cache_impl.hh
    over mem/cache/base.cc) looks the address of a packet up in its tag store
    (mem/cache/tags), serves a hit from the block, and on a miss allocates a
    miss register (mem/cache/mshr.cc) in a queue (mshr_queue.cc); responses fill
    the block, answer the targets of the register and may evict a victim, whose
    modified data go to the write buffer.  Packets leave through queued ports
    (mem/packet_queue.cc).  Snoops from the memory side may take data from a
    block, from a write buffer or from a register in flight.  When a queue is
    full the CPU side is blocked and later retried.

    What the repository adds: tag stores partitioned by ways ([WPLRU]), by sets
    ([SPLRU]), by two labels ([DCLRU]) and dynamically ([C_DYNALRU] with a
    utility monitor, [F_DYNALRU]); caches with miss queues, write buffers and
    ports split per thread ([SplitMSHRCache], [SplitRPortCache]); caches that
    resize their partitions ([C_DynamicCache], [F_DynamicCache]) or keep both
    labels ([DirtyCache]); a builder that chooses among them; and buses whose
    cycles are dealt out to the threads in turns (mem/rr_bus.cc and the
    coherent and noncoherent buses over it), so that the traffic of one domain
    does not delay another's.

    Behind the buses is a cycle-accurate DRAM simulator, DRAMSim2: a memory
    system ([MemorySystem]) holds a memory controller and its ranks; the
    controller turns transactions into commands, keeps them in command queues,
    and each cycle issues one that the timing of the banks allows.  The
    repository adds command queues that serve the threads in turns
    ([CommandQueueTP], [CommandQueueTPD], [CommandQueueFA]), with a dead time
    at the end of a turn in which no row is opened.

    In system-call emulation a process has a page table (mem/page_table.cc); the
    system hands out the frames, which the repository divides among the threads
    (sim/system.cc), and the simulator reads and writes the process's memory
    through proxies (mem/port_proxy.cc, se_translating_port_proxy.cc).

    ** Conventions of the model

    Integers are [Z]; where the source relies on a width, the wrap-around is
    written out ([u8], [u16], [u32], [u64], [i32]).  Code that may end the
    simulator returns a [result]: [AssertFail], [Panic], [Fatal], [NullDeref] or
    [OutOfBounds] stand for the assertion, the panic, or the undefined behaviour
    the source has there.  Objects the source shares by pointer live in heaps
    (requests, miss registers, blocks), objects it owns are values.  A virtual
    method is a dispatch on the dynamic class that the object carries.  The
    operations of a cache are programs in a state and error monad ([CacheBase.M]).
    Code outside the model (the far ends of the ports, the prefetcher) is an
    [Env], a record of functions that every theorem leaves arbitrary unless it
    names a hypothesis; a bus has a [BusEnv] of the same kind.  A component
    keeps of an event the tick it is scheduled for; the queue that holds all
    events (sim/eventq.cc) is a component of its own.

    ** Files

    - [Prelude]: results, arrays, bounded loops, machine integers, automation.
    - [IntMath]: base/intmath.hh.  [Request]: base/flags.hh, mem/request.hh.
    - [MemCmd], [Packet]: mem/packet.hh and packet.cc; [PacketSpec]: payloads
      byte by byte and [checkFunctional].
    - [Blk], [CacheSet]: mem/cache/blk.hh, tags/cacheset.cc.
    - [TagTypes], [LRU], [PartLRU], [DynaLRU], [Tags]: the tag stores, lru.cc,
      wplru.cc, splru.cc, dclru.cc, c_dynalru.cc, f_dynalru.cc, and the part of
      builder.cc that creates them.
    - [TagsWf], [TagsNew]: the invariant of a tag store and that the builder
      establishes it.  [Isolation]: noninterference.  [TagsSpec]: refinement of
      an abstract LRU stack, and the address split.  [Resize]: growing and
      shrinking.  [Labels]: the two-label lookups.
    - [FaLRU]: the fully associative store, fa_lru.cc; [FaLRUSpec]: its
      list and markers; [FaLRUStack]: its counters.
    - [MSHR], [MSHRQueue]: mshr.cc, mshr_queue.cc; [MSHRSpec]: their theorems.
    - [PacketQueue]: packet_queue.cc.
    - [Prefetch]: prefetch/base.cc, tagged.cc, stride.cc, ghb.cc.
    - [CacheBase]: base.hh, base.cc, split_mshr_cache.hh, split_rport_cache.hh.
      [CacheAccess], [Cache], [CacheBus]: cache_impl.hh (access path and fills;
      requests, responses and snoop handling; atomic and functional accesses,
      the memory side and the constructors).  [DynamicCache]: the resizing
      caches.
    - [CacheSpec]: blocking, and the separation of the threads' buffers;
      [AccessSpec]: hits, evictions, the response loop; [SnoopSpec]: snoops;
      [DynamicSpec]: what a resize leaves behind.  [CacheFrame]: the actions of a
      cache that leave its tag store alone; [DynamicFlow]: what the sizes of
      dynamic partitions depend on; [CacheLogic]: a program logic for the
      handlers, in which every handler keeps an invariant of the tag store;
      [CacheRun]: runs of a whole cache; [FlushSpec]: write-backs on their way out
      of a dynamic cache; [DynamicScrub]: what High's ways hold.
    - [ClockedObject]: sim/clocked_object.hh.  [RRBus]: the turns, the packet
      timing and the layers of mem/rr_bus.cc and bus.cc, and the timing
      against a cycle-by-cycle reference; [LayerSpec]: a layer as one cell per
      thread; [LayerTrace]: its runs.
    - [Bridge]: mem/bridge.hh and bridge.cc, and its runs.
    - [PortMap]: base/range.hh, range_map.hh and the address
      decoding of a bus.
    - [CoherentBus]: rr_coherent_bus.cc, coherent_bus.cc, rr_noncoherent_bus.cc,
      noncoherent_bus.cc, over a class [BusLayer] that both kinds of layer
      implement; [CoherentBusSpec]: their theorems, over its laws.
    - [EventQ]: sim/eventq.hh, eventq.cc; [EventQSpec], [EventQRefine]: the
      linked bins as an agenda sorted by tick and priority; [EventQService]: the
      loop that services it.
    - [DramTypes]: SystemConfiguration.h, BusPacket.h, Transaction.h,
      BankState.h, AddressMapping.cpp.  [DramQueue]: CommandQueue.cpp,
      CommandQueueTP.cpp, CommandQueueTPD.cpp, CommandQueueFA.cpp.  [DramRank]:
      Rank.cpp.  [DramController]: MemoryController.cpp, MemoryControllerTP.cpp,
      MemorySystem.cpp.
    - [DramQueueSpec]: the shape of the queues and what [pop] returns;
      [DramTurns]: the schedule of turns; [DramAddr]: the address map;
      [DramBanks]: the controller's view of the banks against the ranks' own;
      [DramLanes], [DramFlow], [DramPower]: the data buses, the
      steps of a cycle with its transactions, and the power states; [DramSafe]: runs
      of the memory system; [DramIso]: isolation within a turn; [DramWindow]: the
      window of four activates; [DramJobs]: transactions by address and thread.
    - [Memory]: mem/abstract_mem.cc, tport.cc, simple_mem.cc, and a
      memory as bytes and reservations.
    - [ChunkGen]: base/chunk_generator.hh.  [PageTable]:
      mem/page_table.cc, over a class [TlbEntryOps] that the entries of Alpha and
      x86 implement, as a map from pages to frames.
    - [VirtMem]: the frames of sim/system.cc, the pages of sim/process.cc, mremap,
      and the proxies, over a class [FunctionalPort]; [VirtMemSpec]: blobs as loads
      and stores, and [Memory] as such a port; [VirtMemRun]: frames, the
      address space as a specification, and one process against it;
      [VirtMemSpaces]: several that share a memory.
    - [DramAdapter]: mem/DRAMSim2.cc, DRAMSim2Wrapper.cc, and ClockDomain.cpp and
      MultiChannelMemorySystem.cpp of DRAMSim2; [DramChannels]: the rate of the
      clock crossing, and the channels as one memory, behind a class
      [DramContract]; [DramAdapterSpec]: runs of the adapter, over that class.

    ** What is proved

    - Isolation.  For the stores partitioned by ways, by sets, by labels, and
      for the coarse-grained store between resizes, everything a thread observes
      in any interleaving is what it observes when the other threads' operations
      are deleted ([Isolation]); the plain store has no such guarantee.  The
      buffers, registers, port queues and blocked flags of a split cache are
      touched only by their own thread ([CacheSpec]).  A labelled lookup finds a block only
      where its labels allow ([Labels]).  The sizes of dynamic partitions are a
      function of Low's demand accesses and the adjustment events, whatever High
      and the environment do ([DynamicFlow]), and a lookup of High never finds a
      block that Low filled: when a way moves to High, Low's block in it is
      invalidated, and if it was dirty its data wait in Low's write buffer
      ([DynamicScrub]).  On a round-robin layer a thread is
      accepted, delayed and retried exactly as if the other threads sent nothing
      ([LayerTrace]), and a packet ends at the cycle at which the thread has had
      as many cycles of its own as the packet needs ([RRBus]).  During its
      turn at the memory a thread gets the same answers at the same cycles
      whatever the others have queued or send ([DramIso]); a command is taken
      only in the turn of its thread, and an activate only when the worst case
      of the access still fits into the turn ([DramTurns]).  In any window of
      tFAW cycles a rank gets at most four activates ([DramWindow]).  Processes
      have address spaces of their own, even where they share the frames
      ([VirtMemSpaces]).
    - Invariants.  Every store the builder makes is well formed, and stays so
      through any trace of operations ([TagsNew], [Isolation]), through any
      sequence of resizes, which undo each other ([Resize]), and through
      everything a cache of any class handles, in any environment ([CacheRun]).  The lists of a miss
      queue partition its registers and its counters count them ([MSHRSpec]).
      The port is blocked exactly while a cause is set, and no retry is lost
      ([CacheSpec]).  The transmit queue is sorted and a pending packet always
      has an event or a retry to come; its handlers, which the port may re-enter,
      fail only when the port refuses a packet after it handed in one that is due
      first ([PacketQueue]).  No send, release or retry event of a layer trips an
      assertion, whereas the retry of a destination can ([LayerTrace]); the set of
      outstanding requests of a coherent bus holds exactly the requests that a slave
      accepted and no response was delivered for ([CoherentBusSpec]).  A bridge reserves response slots exactly, keeps both
      orders, returns responses to their sources and forgets no requester
      ([Bridge]).  With closed pages no run of the memory system fails:
      no rank gets a command it is not ready for, no bus collides, no queue
      overflows ([DramSafe]), and the transactions accepted are those reported
      finished to their threads and those under way ([DramJobs]).  The adapter
      answers every request exactly once ([DramAdapterSpec]).  The queue of a
      prefetcher is bounded, in the order of time and holds a block once, and a
      notification fails exactly when it needs the ids of a request that has none; a
      walk with a fixed stride is recognised at its third access ([Prefetch]).
    - Data.  A store hit followed by a load hit returns the stored bytes, through
      the whole of [Cache::access]; an eviction sends exactly the victim's bytes
      to the victim's address ([AccessSpec]); a snoop of a modified block is
      answered with its bytes, and the block downgraded or invalidated
      ([SnoopSpec]); payload copies and functional reads are characterised byte
      by byte ([PacketSpec]); load-locked and store-conditional ([Blk]).
    - Refinement.  Lookup, fill and invalidation implement an abstract LRU stack
      of tags, per set and per partition, and leave all other sets alone
      ([TagsSpec]).  The fully associative store keeps its list and markers
      ([FaLRUSpec]) and counts the hits of LRU caches of all sizes at once
      ([FaLRUStack]).  A packet on a bus is a send on one of its layers, or on
      none if it is an express snoop ([CoherentBusSpec]).  The event queue implements a stable agenda
      ([EventQRefine]).  With its cache of recent ports, a bus routes an address
      as its table does ([PortMap]).  The address map of the memory keeps
      distinct transactions apart ([DramAddr]).  A memory behaves as the bytes last
      stored and one reservation per context that any write to its line ends, as
      long as no swap, and no store that begins in another line, writes to a
      reserved line ([Memory]).  The page table with its
      cache is a map from pages to frames ([PageTable]), and a process's memory a
      map from addresses to bytes ([VirtMemSpaces]).  The cached clock edge is the next
      multiple of the period ([ClockedObject]); the clock crossing keeps the ratio of
      its clocks exactly ([DramChannels]).
    - Termination.  The recursive clearing of downstream-pending flags and the
      loop over the targets of a response end; the event loop services events in
      the order of time and ends with nothing due ([EventQService]).
    - Faults the code has, as theorems: see [DynamicSpec] (a grown partition
      shows High's block to Low; the utilities read past the monitor),
      [CacheSpec] (blocking and snoop responses of split caches), [PacketSpec]
      (adjacent values), [IntMath] ([isPrime]), [LayerTrace] (a retry off turn),
      [PacketQueue] (a refusal after re-entry), [Memory] (swaps and block writes
      keep reservations),
      [CoherentBusSpec] (the turns of snoop responses, draining), [PortMap]
      (overlapping ranges), [EventQRefine] ([debugVerify] at tick 0),
      [DramTurns] (the turn after 2^31 cycles, a longer second turn), [DramIso]
      (the low-power mode), [Prefetch]
      (prefetches are issued as thread 0, writebacks have no ids), [FaLRUStack] (no tag is ever
      written, block 0 is forgotten), [Bridge] (requests without a response are lost,
      inhibited ones leak a slot), [PageTable] (pages that are unmapped or moved
      are still translated), [VirtMemSpaces] (uneven parts of the memory overlap,
      the size of the free memory overflows, mremap).

    ** Fuel

    Loops over arrays and lists are recursions on them.  Twenty-four loops take fuel:
    [moveToHead_loop] and [moveToTail_loop] get one round more than the set has
    ways, whose number their assertions bound ([CacheSet.moveToHead_spec] and
    [CacheSet.moveToTail_spec] show that they return);
    [MSHR_clearDownstreamPending] gets the number of registers in the heap, which
    is enough for any pointer graph since every call clears a flag
    ([MSHRSpec.clearDownstreamPending_terminates]); [respond_targets] gets the
    number of targets, which is enough since a round pops one
    ([AccessSpec.respond_targets_terminates]); [isPrime_loop] gets as many rounds
    as the argument, whose square root bounds the loop; [check_loop] gets one round more
    than there are blocks ([FaLRUSpec.check_ok]); [F_victim_scan], a
    loop of the source without an end of its own, gets one round more than there
    are ways, after which it has left the array; [find_bin] and
    [removeItem_loop] get one round more than there are events, enough for a
    well-formed queue ([EventQSpec.bins_fuel]); [debugVerify] takes its fuel as
    an argument and [EventQRefine.debugVerify_exact] says how much is enough;
    and so does [serviceEvents], where it depends on what the events do and
    [EventQService.serviceEvents_causal] bounds it by their measure.  [search],
    [search_open] and [search_PRE] go round the banks of the memory and get as
    many rounds as there are banks; for closed pages
    [DramTurns.tp_pop_work_conserving] and [DramSafe.memory_never_faults] show
    that this is enough; [log2_loop] gets the 32 bits of its argument;
    [crosser_loop] gets one round more than the distance of the two counters,
    which every round shortens ([DramChannels.crosser_exact]); [dram_updates] takes
    its fuel as an argument, and more than the cycles up to the tick is enough
    ([DramAdapterSpec.requests_answered_once]).  [for_chunks] gets one round more than
    the region has bytes ([ChunkGen.chunk_loop_run]); the loops over the pages of a
    region ([map_loop], [remap_loop], [unmap_loop], [isUnmapped_loop]) one more than
    the pages ([PageTable.page_table_refines]); [extend_stack] three more than
    the pages of the largest stack, and [tryReadString] as many as the caller says
    ([VirtMemSpaces.processes_have_own_spaces]).

    ** Not modelled

    The fixed-timing and first-ready command queues, the energy and latency
    statistics of the memory controller, the .ini reader of DRAMSim2, other tag
    stores (the indirect index cache), the simulation
    loop around [serviceOne], serialisation, statistics reporting, printing, and
    the simulator around the memory system.  The miss curve of [C_DynamicCache],
    a table of floats, is restricted to integral values that floats hold
    exactly; the clock period of the memory, a float too, enters as the results
    of the conversions and comparisons made with it.

    Not proved of what is modelled: that every accepted read is answered within a
    bound; the whole of [handleResponse] as a refinement (fill, answers,
    promotion); snoops absorbed by miss registers; and the ways that
    [F_DynamicCache::adjustPartition] frees. *)

From stdpp Require Export base option list list_numbers numbers gmap.
From Stdlib Require Export ZArith Lia.

#[global] Open Scope Z_scope.

(** * Results of C++ code that may fail

    [assert], [panic], [fatal], a null dereference and an out-of-range
    array access end the simulator; a model function returns [Err] where
    the code would end that way.  [OutOfFuel] only marks the fuel of a
    loop that has no structural measure. *)

Inductive cpp_err :=
  | AssertFail
  | Panic
  | Fatal
  | NullDeref
  | OutOfBounds
  | OutOfFuel.

#[global] Instance cpp_err_eq_dec : EqDecision cpp_err.
Proof. solve_decision. Defined.

Inductive result (A : Type) :=
  | Ok (a : A)
  | Err (e : cpp_err).

Arguments Ok {A} a.
Arguments Err {A} e.

#[global] Instance result_ret : MRet result := fun A a => Ok a.
#[global] Instance result_bind : MBind result :=
  fun A B f m => match m with Ok a => f a | Err e => Err e end.

Definition of_option {A} (e : cpp_err) (o : option A) : result A :=
  match o with Some a => Ok a | None => Err e end.

(** [assert(b)] of <cassert>. *)
Definition cassert (b : bool) : result unit :=
  if b then Ok tt else Err AssertFail.

Definition is_ok {A} (r : result A) : bool :=
  match r with Ok _ => true | Err _ => false end.

(** Iterating a fallible body over a list, in order: the shape of the
    [for] loops that run over an index range or a container. *)
Fixpoint foldM {S A} (f : S -> A -> result S) (s : S) (l : list A) : result S :=
  match l with
  | [] => Ok s
  | a :: l' => s' ← f s a; foldM f s' l'
  end.

(** * Arrays: a C array of known length as a list, indexed by a C integer *)

Definition arr_get {A} (l : list A) (i : Z) : result A :=
  if decide (0 <= i) then of_option OutOfBounds (l !! Z.to_nat i)
  else Err OutOfBounds.

Definition arr_set {A} (l : list A) (i : Z) (x : A) : result (list A) :=
  if decide (0 <= i < Z.of_nat (length l)) then Ok (<[Z.to_nat i := x]> l)
  else Err OutOfBounds.

(** [0, 1, ..., n-1] as C integers: the values of a counting loop. *)
Definition zrange (n : Z) : list Z := seqZ 0 n.

(** * Machine integers *)

Definition u8 (z : Z) : Z := z mod 2 ^ 8.
Definition u16 (z : Z) : Z := z mod 2 ^ 16.
Definition u32 (z : Z) : Z := z mod 2 ^ 32.
Definition u64 (z : Z) : Z := z mod 2 ^ 64.

(** Conversion to a 32-bit [int], two's complement. *)
Definition i32 (z : Z) : Z :=
  let m := z mod 2 ^ 32 in if m <? 2 ^ 31 then m else m - 2 ^ 32.

(** [Tick] is a [uint64_t]; [MaxTick] of base/types.hh. *)
Definition MaxTick : Z := 2 ^ 64 - 1.

(** * Automation *)

Create HintDb cpp.

Lemma bind_Ok {A B} (m : result A) (f : A -> result B) (b : B) :
  mbind f m = Ok b <-> exists a, m = Ok a /\ f a = Ok b.
Proof. destruct m; cbn; naive_solver. Qed.

Lemma bind_Ok_l {A B} (a : A) (f : A -> result B) : mbind f (Ok a) = f a.
Proof. reflexivity. Qed.

Lemma bind_Err {A B} (e : cpp_err) (f : A -> result B) :
  mbind f (Err e) = Err e.
Proof. reflexivity. Qed.

Lemma cassert_Ok b u : cassert b = Ok u <-> b = true.
Proof. destruct b, u; cbn; naive_solver. Qed.

Lemma cassert_true b : b = true -> cassert b = Ok tt.
Proof. intros ->. reflexivity. Qed.

Lemma cassert_leb a b : a <= b -> cassert (a <=? b) = Ok tt.
Proof. intros H. apply cassert_true, Z.leb_le, H. Qed.

Lemma is_ok_true {A} (r : result A) : is_ok r = true -> exists a, r = Ok a.
Proof. destruct r; [eauto | done]. Qed.

Lemma of_option_Ok {A} e (o : option A) a : of_option e o = Ok a <-> o = Some a.
Proof. destruct o; cbn; naive_solver. Qed.

#[export] Hint Rewrite @bind_Ok_l @bind_Err : cpp.
#[export] Hint Resolve cassert_true : cpp.

(** [inv_ok] turns every hypothesis that says a monadic computation
    succeeded into the facts about its steps. *)
Ltac inv_ok_step :=
  match goal with
  | H : Ok _ = Ok _ |- _ => injection H; clear H; intros; subst
  | H : Err _ = Ok _ |- _ => discriminate H
  | H : Ok _ = Err _ |- _ => discriminate H
  | H : mbind _ _ = Ok _ |- _ =>
      let a := fresh "x" in let Ha := fresh "Hx" in
      apply bind_Ok in H; destruct H as (a & Ha & H); cbn beta in H
  | H : cassert _ = Ok _ |- _ => apply cassert_Ok in H
  | H : of_option _ _ = Ok _ |- _ => apply of_option_Ok in H
  | p : (_ * _)%type |- _ => destruct p
  | p : unit |- _ => destruct p
  end.
Ltac inv_ok := repeat (inv_ok_step; cbn beta iota in * ).

(** Case analysis on the innermost boolean test or match of a hypothesis. *)
Ltac case_in H :=
  match type of H with
  | context [match ?x with _ => _ end] =>
      lazymatch x with
      | context [match _ with _ => _ end] => fail
      | _ => destruct x eqn:?
      end
  end.

Ltac case_goal :=
  match goal with
  | |- context [match ?x with _ => _ end] =>
      lazymatch x with
      | context [match _ with _ => _ end] => fail
      | _ => destruct x eqn:?
      end
  end.

(** Boolean comparisons on [Z] as propositions. *)
Ltac zb :=
  repeat match goal with
  | H : (_ <? _) = true |- _ => apply Z.ltb_lt in H
  | H : (_ <? _) = false |- _ => apply Z.ltb_ge in H
  | H : (_ <=? _) = true |- _ => apply Z.leb_le in H
  | H : (_ <=? _) = false |- _ => apply Z.leb_gt in H
  | H : (_ =? _) = true |- _ => apply Z.eqb_eq in H
  | H : (_ =? _) = false |- _ => apply Z.eqb_neq in H
  | H : (_ >? _) = _ |- _ => rewrite Z.gtb_ltb in H
  | H : (_ >=? _) = _ |- _ => rewrite Z.geb_leb in H
  | H : andb _ _ = true |- _ => apply andb_true_iff in H; destruct H
  | H : orb _ _ = false |- _ => apply orb_false_iff in H; destruct H
  | H : negb _ = true |- _ => apply negb_true_iff in H
  | H : negb _ = false |- _ => apply negb_false_iff in H
  end.

(** Lengths of lists built from appends and updates. *)
Ltac len :=
  try (first [apply Z.ltb_lt | apply Z.leb_le]);
  repeat first [ rewrite length_app in * | rewrite length_insert in *
               | progress cbn [length] in * ];
  lia.

(** * Lemmas on arrays *)

Lemma arr_get_Ok {A} (l : list A) i x :
  arr_get l i = Ok x <-> 0 <= i /\ l !! Z.to_nat i = Some x.
Proof.
  unfold arr_get. case_decide as Hi.
  - rewrite of_option_Ok. naive_solver.
  - naive_solver.
Qed.

Lemma arr_get_lt {A} (l : list A) i x :
  arr_get l i = Ok x -> 0 <= i < Z.of_nat (length l).
Proof. intros [Hi Hl]%arr_get_Ok. apply lookup_lt_Some in Hl. lia. Qed.

Lemma arr_get_total {A} (l : list A) i :
  0 <= i < Z.of_nat (length l) -> exists x, arr_get l i = Ok x.
Proof.
  intros Hi. destruct (lookup_lt_is_Some_2 l (Z.to_nat i)) as [x Hx]; [lia|].
  exists x. apply arr_get_Ok. split; [lia | done].
Qed.

Lemma arr_set_Ok {A} (l l' : list A) i x :
  arr_set l i x = Ok l' <->
  0 <= i < Z.of_nat (length l) /\ l' = <[Z.to_nat i := x]> l.
Proof. unfold arr_set. case_decide; naive_solver. Qed.

Lemma arr_set_length {A} (l l' : list A) i x :
  arr_set l i x = Ok l' -> length l' = length l.
Proof. intros [_ ->]%arr_set_Ok. apply length_insert. Qed.

Lemma arr_get_set_eq {A} (l l' : list A) i x :
  arr_set l i x = Ok l' -> arr_get l' i = Ok x.
Proof.
  intros [Hi ->]%arr_set_Ok. apply arr_get_Ok. split; [lia|].
  apply list_lookup_insert_eq. lia.
Qed.

Lemma arr_get_set_ne {A} (l l' : list A) i j x :
  i <> j -> arr_set l i x = Ok l' -> arr_get l' j = arr_get l j.
Proof.
  intros Hij [Hi ->]%arr_set_Ok. unfold arr_get.
  case_decide; [|done]. rewrite list_lookup_insert_ne; [done|]. lia.
Qed.

Lemma arr_set_total {A} (l : list A) i x :
  0 <= i < Z.of_nat (length l) -> exists l', arr_set l i x = Ok l'.
Proof. intros Hi. eexists. apply arr_set_Ok. eauto. Qed.

(** * Lemmas on folds *)

Lemma foldM_app {S A} (f : S -> A -> result S) l1 : forall s l2,
  foldM f s (l1 ++ l2) = (s' ← foldM f s l1; foldM f s' l2).
Proof.
  induction l1 as [|a l1 IH]; intros s l2; [reflexivity|].
  cbn. destruct (f s a); cbn; [apply IH | reflexivity].
Qed.

(** An invariant of the body is an invariant of the loop. *)
Lemma foldM_inv {S A} (P : S -> Prop) (f : S -> A -> result S) l : forall s s',
  (forall s a s', a ∈ l -> P s -> f s a = Ok s' -> P s') ->
  P s -> foldM f s l = Ok s' -> P s'.
Proof.
  induction l as [|a l IH]; cbn; intros s s' Hf HP H; [by inv_ok|].
  inv_ok. eapply IH; [|eapply Hf|eassumption].
  - intros ???? . apply Hf. by right.
  - left.
  - exact HP.
  - eassumption.
Qed.

(** A loop whose body succeeds on every state of the invariant succeeds. *)
Lemma foldM_total {S A} (P : S -> Prop) (f : S -> A -> result S) l : forall s,
  (forall s a, a ∈ l -> P s -> exists s', f s a = Ok s' /\ P s') ->
  P s -> exists s', foldM f s l = Ok s' /\ P s'.
Proof.
  induction l as [|a l IH]; cbn; intros s Hf HP; [eauto|].
  destruct (Hf s a) as (s1 & H1 & HP1); [left | done |].
  rewrite H1. cbn. apply IH; [|done]. intros ???. apply Hf. by right.
Qed.

(** * Lemmas on bit masks *)

Lemma land_ones_mod a k : 0 <= k -> Z.land a (2 ^ k - 1) = a mod 2 ^ k.
Proof.
  intros Hk. replace (2 ^ k - 1) with (Z.ones k) by (rewrite Z.ones_equiv; lia).
  by apply Z.land_ones.
Qed.

Lemma ldiff_ones_mul a k : 0 <= k -> Z.ldiff a (2 ^ k - 1) = a / 2 ^ k * 2 ^ k.
Proof.
  intros Hk. replace (2 ^ k - 1) with (Z.ones k) by (rewrite Z.ones_equiv; lia).
  rewrite Z.ldiff_ones_r by done.
  by rewrite Z.shiftl_mul_pow2, Z.shiftr_div_pow2.
Qed.

Lemma land_pow2_testbit a k : 0 <= k -> negb (Z.land a (2 ^ k) =? 0) = Z.testbit a k.
Proof.
  intros Hk. destruct (Z.testbit a k) eqn:E.
  - apply negb_true_iff, Z.eqb_neq. intros H0.
    assert (Z.testbit (Z.land a (2 ^ k)) k = false) as H1 by (rewrite H0; apply Z.bits_0).
    rewrite Z.land_spec, E, Z.pow2_bits_true in H1 by done. done.
  - apply negb_false_iff, Z.eqb_eq. apply Z.bits_inj'. intros n Hn.
    rewrite Z.land_spec, Z.bits_0, Z.pow2_bits_eqb by done.
    destruct (Z.eqb_spec k n) as [->|]; [rewrite E; done | rewrite andb_false_r; done].
Qed.

Lemma lor_mul_pow2 a b k :
  0 <= k -> 0 <= b < 2 ^ k -> Z.lor (a * 2 ^ k) b = a * 2 ^ k + b.
Proof.
  intros Hk Hb. rewrite <- Z.shiftl_mul_pow2 by done.
  rewrite Z.add_nocarry_lxor; [symmetry; apply Z.lxor_lor|];
    apply Z.bits_inj'; intros n Hn; rewrite Z.land_spec, Z.bits_0;
    destruct (decide (n < k)).
  1, 3: rewrite Z.shiftl_spec_low by lia; done.
  all: rewrite <- (Z.mod_small b (2 ^ k)) by lia;
    rewrite Z.mod_pow2_bits_high by lia; apply andb_false_r.
Qed.

Lemma u64_small z : 0 <= z < 2 ^ 64 -> u64 z = z.
Proof. apply Z.mod_small. Qed.

Lemma u32_small z : 0 <= z < 2 ^ 32 -> u32 z = z.
Proof. apply Z.mod_small. Qed.

Lemma i32_small z : - 2 ^ 31 <= z < 2 ^ 31 -> i32 z = z.
Proof.
  intros Hz. unfold i32. cbv zeta. destruct (Z.ltb_spec (z mod 2 ^ 32) (2 ^ 31)).
  - destruct (decide (0 <= z)); [apply Z.mod_small; lia|].
    rewrite <- (Z.mod_add z 1) in * by lia. rewrite Z.mod_small in * by lia. lia.
  - destruct (decide (0 <= z)); [rewrite Z.mod_small in * by lia; lia|].
    rewrite <- (Z.mod_add z 1) in * by lia. rewrite Z.mod_small in * by lia. lia.
Qed.

(** * Lemmas on concatenations of lists *)

Lemma elem_of_concat_lookup {A} (L : list (list A)) i l x :
  L !! i = Some l -> x ∈ l -> x ∈ concat L.
Proof.
  revert i. induction L as [|l' L IH]; intros [|i] Hi Hx; simplify_eq/=; set_solver.
Qed.

Lemma NoDup_concat_lookup {A} (L : list (list A)) i l :
  NoDup (concat L) -> L !! i = Some l -> NoDup l.
Proof.
  revert i. induction L as [|l' L IH]; intros [|i] Hn Hi; simplify_eq/=;
    apply NoDup_app in Hn as (? & ? & ?); eauto.
Qed.

Lemma NoDup_concat_disjoint {A} (L : list (list A)) i j l1 l2 :
  NoDup (concat L) -> L !! i = Some l1 -> L !! j = Some l2 -> i <> j ->
  forall x, x ∈ l1 -> x ∈ l2 -> False.
Proof.
  revert i j. induction L as [|l L IH]; intros [|i] [|j] Hn Hi Hj Hij x H1 H2;
    simplify_eq/=; apply NoDup_app in Hn as (Hl & Hd & Hr).
  - apply (Hd x H1). eauto using elem_of_concat_lookup.
  - apply (Hd x H2). eauto using elem_of_concat_lookup.
  - eapply (IH i j); eauto.
Qed.

Lemma concat_insert_perm {A} (L : list (list A)) i a b :
  L !! i = Some a -> b ≡ₚ a -> concat (<[i := b]> L) ≡ₚ concat L.
Proof.
  revert i. induction L as [|l L IH]; intros [|i] Hi Hp; simplify_eq/=.
  - by rewrite Hp.
  - by rewrite IH.
Qed.

Lemma map_insert {A B} (f : A -> B) (l : list A) i x :
  map f (<[i := x]> l) = <[i := f x]> (map f l).
Proof. apply list_fmap_insert. Qed.

Lemma map_lookup {A B} (f : A -> B) (l : list A) i : map f l !! i = f <$> l !! i.
Proof. apply list_lookup_fmap. Qed.
