(* ===== verification/IntMath.v ===== *)
(** The integer helpers of base/intmath.hh that the caches size
    themselves with, at the 32-bit [unsigned] instance the tag stores use. *)

From S2P Require Import Prelude.

(** [n & ~(n - 1)]; the complement is taken in the type of [n]. *)
Definition leastSigBit (n : Z) : Z := Z.ldiff n (u32 (n - 1)).

Definition isPowerOf2 (n : Z) : bool := negb (n =? 0) && (leastSigBit n =? n).

(** One line [if (x & mask) { y += k; x >>= k; }] of [floorLog2]. *)
Definition log2_step (mask k : Z) (yx : Z * Z) : Z * Z :=
  if negb (Z.land yx.2 mask =? 0) then (yx.1 + k, Z.shiftr yx.2 k) else yx.

Definition floorLog2 (x : Z) : result Z :=
  cassert (0 <? x) ;;
  let s := log2_step 0xffff0000 16 (0, x) in
  let s := log2_step 0x0000ff00 8 s in
  let s := log2_step 0x000000f0 4 s in
  let s := log2_step 0x0000000c 2 s in
  Ok (if negb (Z.land s.2 0x00000002 =? 0) then s.1 + 1 else s.1).

Definition ceilLog2 (n : Z) : result Z :=
  if n =? 1 then Ok 0 else (l ← floorLog2 (u32 (n - 1)); Ok (l + 1)).

Definition floorPow2 (n : Z) : result Z := l ← floorLog2 n; Ok (u32 (Z.shiftl 1 l)).
Definition ceilPow2 (n : Z) : result Z := l ← ceilLog2 n; Ok (u32 (Z.shiftl 1 l)).

Definition divCeil (a b : Z) : Z := u32 (a + b - 1) / b.

Definition roundUp (val align : Z) : Z :=
  let mask := u32 (align - 1) in Z.ldiff (u32 (val + mask)) mask.
Definition roundDown (val align : Z) : Z :=
  let mask := u32 (align - 1) in Z.ldiff val mask.

(** The trial-division loop of [isPrime], for a non-negative [n] small
    enough that [i * i] does not overflow; [i] grows by 6 each round, so
    [n] rounds are enough. *)
Fixpoint isPrime_loop (fuel : nat) (i n : Z) : result bool :=
  match fuel with
  | O => Err OutOfFuel
  | S fuel' =>
      if i * i <=? n then
        if (n mod i =? 0) || (n mod (i + 2) =? 0) then Ok false
        else isPrime_loop fuel' (i + 6) n
      else Ok true
  end.

Definition isPrime (n : Z) : result bool :=
  if (n =? 2) || (n =? 3) then Ok true else isPrime_loop (S (Z.to_nat n)) 5 n.

(** * Correctness *)

Lemma land_high_zero x k :
  0 <= k -> 0 <= x < 2 ^ (2 * k) ->
  (Z.land x (2 ^ (2 * k) - 2 ^ k) =? 0) = (x <? 2 ^ k).
Proof.
  intros Hk Hx.
  assert (Z.land x (2 ^ (2 * k) - 2 ^ k) = Z.shiftl (Z.shiftr x k) k) as ->.
  { apply Z.bits_inj'. intros n Hn.
    replace (2 ^ (2 * k) - 2 ^ k) with (Z.shiftl (Z.ones k) k).
    2:{ rewrite Z.shiftl_mul_pow2, Z.ones_equiv by done.
        replace (2 * k) with (k + k) by lia. rewrite Z.pow_add_r by done. lia. }
    rewrite Z.land_spec. destruct (decide (n < k)) as [Hnk|Hnk].
    - rewrite !(Z.shiftl_spec_low _ _ _ Hnk). apply andb_false_r.
    - rewrite !Z.shiftl_spec, Z.shiftr_spec by lia.
      replace (n - k + k) with n by lia.
      destruct (decide (n - k < k)) as [Hl|Hl].
      + rewrite Z.ones_spec_low by lia. apply andb_true_r.
      + rewrite Z.ones_spec_high by lia. rewrite andb_false_r.
        rewrite <- (Z.mod_small x (2 ^ (2 * k))) by lia.
        symmetry. apply Z.mod_pow2_bits_high. lia. }
  rewrite Z.shiftl_mul_pow2, Z.shiftr_div_pow2 by done.
  pose proof (Z.pow_pos_nonneg 2 k ltac:(lia) Hk) as Hp.
  destruct (Z.ltb_spec x (2 ^ k)) as [Hlt|Hge].
  - rewrite Z.div_small by lia. done.
  - apply Z.eqb_neq. intros H0.
    assert (1 <= x / 2 ^ k) by (apply Z.div_le_lower_bound; lia). nia.
Qed.

(** One step halves the range of [x] and keeps [y + log2 x]. *)
Lemma log2_step_spec k y x :
  0 < k -> 0 < x < 2 ^ (2 * k) ->
  let s := log2_step (2 ^ (2 * k) - 2 ^ k) k (y, x) in
  0 < s.2 < 2 ^ k /\ s.1 + Z.log2 s.2 = y + Z.log2 x.
Proof.
  intros Hk Hx. unfold log2_step. cbn [fst snd].
  rewrite land_high_zero by lia.
  pose proof (Z.pow_pos_nonneg 2 k ltac:(lia) ltac:(lia)) as Hp.
  destruct (Z.ltb_spec x (2 ^ k)) as [Hlt|Hge]; cbn [negb fst snd]; [lia|].
  rewrite Z.shiftr_div_pow2 by lia.
  assert (x / 2 ^ k < 2 ^ k).
  { apply Z.div_lt_upper_bound; [lia|]. rewrite <- Z.pow_add_r by lia.
    replace (k + k) with (2 * k) by lia. lia. }
  assert (1 <= x / 2 ^ k) by (apply Z.div_le_lower_bound; lia).
  split; [lia|]. rewrite <- Z.shiftr_div_pow2, Z.log2_shiftr by lia.
  assert (k <= Z.log2 x) by (apply Z.log2_le_pow2; lia). lia.
Qed.

(** [floorLog2] computes the base-2 logarithm of every positive 32-bit
    number. *)
Lemma floorLog2_spec x : 0 < x < 2 ^ 32 -> floorLog2 x = Ok (Z.log2 x).
Proof.
  intros Hx. unfold floorLog2. rewrite cassert_true by (apply Z.ltb_lt; lia).
  rewrite bind_Ok_l. cbv zeta.
  pose proof (log2_step_spec 16 0 x ltac:(lia) Hx) as S1.
  change (2 ^ (2 * 16) - 2 ^ 16) with 0xffff0000 in S1. cbv zeta in S1.
  destruct (log2_step 0xffff0000 16 (0, x)) as [y1 x1]. cbn [fst snd] in S1.
  pose proof (log2_step_spec 8 y1 x1 ltac:(lia) (proj1 S1)) as S2.
  change (2 ^ (2 * 8) - 2 ^ 8) with 0x0000ff00 in S2. cbv zeta in S2.
  destruct (log2_step 0x0000ff00 8 (y1, x1)) as [y2 x2]. cbn [fst snd] in S2.
  pose proof (log2_step_spec 4 y2 x2 ltac:(lia) (proj1 S2)) as S3.
  change (2 ^ (2 * 4) - 2 ^ 4) with 0x000000f0 in S3. cbv zeta in S3.
  destruct (log2_step 0x000000f0 4 (y2, x2)) as [y3 x3]. cbn [fst snd] in S3.
  pose proof (log2_step_spec 2 y3 x3 ltac:(lia) (proj1 S3)) as S4.
  change (2 ^ (2 * 2) - 2 ^ 2) with 0x0000000c in S4. cbv zeta in S4.
  destruct (log2_step 0x0000000c 2 (y3, x3)) as [y4 x4]. cbn [fst snd] in S4 |- *.
  f_equal. change (2 ^ 2) with 4 in S4.
  assert (x4 = 1 \/ x4 = 2 \/ x4 = 3) as [-> | [-> | ->]] by lia.
  - change (Z.log2 1) with 0 in S4. change (negb (Z.land 1 2 =? 0)) with false.
    cbv iota. lia.
  - change (Z.log2 2) with 1 in S4. change (negb (Z.land 2 2 =? 0)) with true.
    cbv iota. lia.
  - change (Z.log2 3) with 1 in S4. change (negb (Z.land 3 2 =? 0)) with true.
    cbv iota. lia.
Qed.

(** [isPowerOf2] accepts exactly the powers of two. *)
Lemma isPowerOf2_spec n :
  0 <= n < 2 ^ 32 -> isPowerOf2 n = true <-> n = 2 ^ Z.log2 n.
Proof.
  intros Hn. unfold isPowerOf2, leastSigBit. split.
  - intros [Hn0 Hl]%andb_true_iff. apply negb_true_iff, Z.eqb_neq in Hn0.
    apply Z.eqb_eq in Hl. rewrite u32_small in Hl by lia.
    pose proof (Z.log2_spec n ltac:(lia)) as [Hlo Hhi].
    destruct (decide (n = 2 ^ Z.log2 n)) as [|Hne]; [done|]. exfalso.
    assert (Z.testbit (n - 1) (Z.log2 n) = true) as Hb.
    { replace (Z.log2 n) with (Z.log2 (n - 1)).
      - apply Z.bit_log2. pose proof (Z.pow_pos_nonneg 2 (Z.log2 n) ltac:(lia) (Z.log2_nonneg n)). lia.
      - apply Z.log2_unique; [apply Z.log2_nonneg | lia]. }
    assert (Z.testbit n (Z.log2 n) = true) as Hb' by (apply Z.bit_log2; lia).
    rewrite <- Hl, Z.ldiff_spec, Hb in Hb' at 1. rewrite andb_false_r in Hb'. done.
  - intros He. pose proof (Z.log2_nonneg n) as Hk.
    pose proof (Z.pow_pos_nonneg 2 (Z.log2 n) ltac:(lia) Hk) as Hp.
    remember (Z.log2 n) as k eqn:Ek. clear Ek. subst n.
    rewrite u32_small, ldiff_ones_mul, Z.div_same, Z.mul_1_l, Z.eqb_refl by lia.
    rewrite andb_true_r. apply negb_true_iff, Z.eqb_neq. lia.
Qed.

(** The two helpers that size a tag store agree: a positive 32-bit number
    passes [isPowerOf2] exactly when it is two to the power its [floorLog2]
    returns, and [floorLog2] always returns. *)
Theorem pow2_helpers_agree n :
  0 < n < 2 ^ 32 ->
  exists l, floorLog2 n = Ok l /\ 0 <= l < 32 /\ 2 ^ l <= n < 2 ^ (l + 1) /\
            (isPowerOf2 n = true <-> n = 2 ^ l).
Proof.
  intros Hn. exists (Z.log2 n). rewrite floorLog2_spec, isPowerOf2_spec by lia.
  pose proof (Z.log2_spec n ltac:(lia)). pose proof (Z.log2_nonneg n).
  assert (Z.log2 n < 32) by (apply Z.log2_lt_pow2; lia).
  rewrite <- Z.add_1_r in *. repeat split; tauto || lia.
Qed.

Lemma pow2_helpers_agree_witness :
  exists l, floorLog2 48 = Ok l /\ 0 <= l < 32 /\ 2 ^ l <= 48 < 2 ^ (l + 1) /\
            (isPowerOf2 48 = true <-> 48 = 2 ^ l).
Proof. apply (pow2_helpers_agree 48). split; reflexivity. Defined.

(** [isPrime] does not try the divisors 2 and 3, so, against its comment, it
    accepts composite numbers: for instance it calls 9 and 4 prime. *)
Theorem isPrime_accepts_composites :
  isPrime 9 = Ok true /\ isPrime 4 = Ok true /\ isPrime 25 = Ok false.
Proof. vm_compute. auto. Qed.
