(* ===== verification/Request.v ===== *)
(** The bit-flag class of base/flags.hh and the memory request of
    mem/request.hh.

    A [Request] is created by a CPU, a device or (for write-backs) a cache
    and travels by pointer inside every [Packet] made for it, so requests
    live in a heap ([ReqHeap]) and a packet holds a [RequestPtr]: a result
    that one level writes with [setExtraData] is seen by every packet of
    that request. *)

From S2P Require Import Prelude.

(** * base/flags.hh: [Flags<T>], for an unsigned [T] *)

Definition Flags_isSet (f m : Z) : bool := negb (Z.land f m =? 0).
Definition Flags_allSet (f m : Z) : bool := Z.land f m =? m.
Definition Flags_noneSet (f m : Z) : bool := Z.land f m =? 0.
Definition Flags_clear (f m : Z) : Z := Z.ldiff f m.
Definition Flags_set (f m : Z) : Z := Z.lor f m.
Definition Flags_set_val (f m : Z) (val : bool) : Z :=
  Z.lor (Z.ldiff f m) (if val then m else 0).
Definition Flags_update (f fl mask : Z) : Z :=
  Z.lor (Z.ldiff f mask) (Z.land fl mask).

(** * mem/request.hh *)

Definition ASI_BITS : Z := 0x000000FF.
Definition INST_FETCH : Z := 0x00000100.
Definition PHYSICAL : Z := 0x00000200.
Definition VPTE : Z := 0x00000400.
Definition ALTMODE : Z := 0x00000800.
Definition UNCACHEABLE : Z := 0x00001000.
Definition MMAPPED_IPR : Z := 0x00002000.
Definition CLEAR_LL : Z := 0x00004000.
Definition NO_ACCESS : Z := 0x00080000.
Definition LOCKED : Z := 0x00100000.
Definition LLSC : Z := 0x00200000.
Definition MEM_SWAP : Z := 0x00400000.
Definition MEM_SWAP_COND : Z := 0x00800000.
Definition PREFETCH : Z := 0x01000000.
Definition PF_EXCLUSIVE : Z := 0x02000000.
Definition EVICT_NEXT : Z := 0x04000000.
Definition STICKY_FLAGS : Z := INST_FETCH.

Definition wbMasterId : Z := 0.
Definition funcMasterId : Z := 1.
Definition intMasterId : Z := 2.
Definition invldMasterId : Z := 65535.

Definition REQ_VALID_SIZE : Z := 0x01.
Definition VALID_PADDR : Z := 0x02.
Definition VALID_VADDR : Z := 0x04.
Definition VALID_PC : Z := 0x10.
Definition VALID_CONTEXT_ID : Z := 0x20.
Definition VALID_THREAD_ID : Z := 0x40.
Definition VALID_EXTRA_DATA : Z := 0x80.
Definition STICKY_PRIVATE_FLAGS : Z := Z.lor VALID_CONTEXT_ID VALID_THREAD_ID.

Record Request := mkRequest {
  _paddr : Z;
  _size : Z;
  _masterId : Z;
  _flags : Z;
  privateFlags : Z;
  _time : Z;
  _asid : Z;
  _vaddr : Z;
  _extraData : Z;
  _contextId : Z;
  _threadId : Z;
  _pc : Z
}.

Definition with__paddr (v : Z) (r : Request) : Request :=
  mkRequest v (_size r) (_masterId r) (_flags r) (privateFlags r) (_time r)
    (_asid r) (_vaddr r) (_extraData r) (_contextId r) (_threadId r) (_pc r).
Definition with__size (v : Z) (r : Request) : Request :=
  mkRequest (_paddr r) v (_masterId r) (_flags r) (privateFlags r) (_time
    r) (_asid r) (_vaddr r) (_extraData r) (_contextId r) (_threadId r) (_pc
    r).
Definition with__masterId (v : Z) (r : Request) : Request :=
  mkRequest (_paddr r) (_size r) v (_flags r) (privateFlags r) (_time r)
    (_asid r) (_vaddr r) (_extraData r) (_contextId r) (_threadId r) (_pc r).
Definition with__flags (v : Z) (r : Request) : Request :=
  mkRequest (_paddr r) (_size r) (_masterId r) v (privateFlags r) (_time r)
    (_asid r) (_vaddr r) (_extraData r) (_contextId r) (_threadId r) (_pc r).
Definition with_privateFlags (v : Z) (r : Request) : Request :=
  mkRequest (_paddr r) (_size r) (_masterId r) (_flags r) v (_time r)
    (_asid r) (_vaddr r) (_extraData r) (_contextId r) (_threadId r) (_pc r).
Definition with__time (v : Z) (r : Request) : Request :=
  mkRequest (_paddr r) (_size r) (_masterId r) (_flags r) (privateFlags r)
    v (_asid r) (_vaddr r) (_extraData r) (_contextId r) (_threadId r) (_pc
    r).
Definition with__asid (v : Z) (r : Request) : Request :=
  mkRequest (_paddr r) (_size r) (_masterId r) (_flags r) (privateFlags r)
    (_time r) v (_vaddr r) (_extraData r) (_contextId r) (_threadId r) (_pc
    r).
Definition with__vaddr (v : Z) (r : Request) : Request :=
  mkRequest (_paddr r) (_size r) (_masterId r) (_flags r) (privateFlags r)
    (_time r) (_asid r) v (_extraData r) (_contextId r) (_threadId r) (_pc
    r).
Definition with__extraData (v : Z) (r : Request) : Request :=
  mkRequest (_paddr r) (_size r) (_masterId r) (_flags r) (privateFlags r)
    (_time r) (_asid r) (_vaddr r) v (_contextId r) (_threadId r) (_pc r).
Definition with__contextId (v : Z) (r : Request) : Request :=
  mkRequest (_paddr r) (_size r) (_masterId r) (_flags r) (privateFlags r)
    (_time r) (_asid r) (_vaddr r) (_extraData r) v (_threadId r) (_pc r).
Definition with__threadId (v : Z) (r : Request) : Request :=
  mkRequest (_paddr r) (_size r) (_masterId r) (_flags r) (privateFlags r)
    (_time r) (_asid r) (_vaddr r) (_extraData r) (_contextId r) v (_pc r).
Definition with__pc (v : Z) (r : Request) : Request :=
  mkRequest (_paddr r) (_size r) (_masterId r) (_flags r) (privateFlags r)
    (_time r) (_asid r) (_vaddr r) (_extraData r) (_contextId r) (_threadId
    r) v.

(** [Request()]: the flags are cleared, the other fields keep the
    indeterminate values [junk]. *)
Definition Request_new (junk : Request) : Request :=
  with__flags 0 (with_privateFlags 0 junk).

Definition setThreadContext (context_id tid : Z) (r : Request) : Request :=
  with_privateFlags
    (Flags_set (privateFlags r) (Z.lor VALID_CONTEXT_ID VALID_THREAD_ID))
    (with__threadId tid (with__contextId context_id r)).

(** [clear(~STICKY)] keeps exactly the sticky bits. *)
Definition setPhys (paddr size flags mid time : Z) (r : Request) : result Request :=
  cassert (0 <=? size) ;;
  let r := with__masterId mid (with__time time (with__size size (with__paddr paddr r))) in
  let r := with__flags (Flags_set (Z.land (_flags r) STICKY_FLAGS) flags) r in
  Ok (with_privateFlags
        (Flags_set (Z.land (privateFlags r) STICKY_PRIVATE_FLAGS)
                   (Z.lor VALID_PADDR REQ_VALID_SIZE)) r).

Definition setVirt (asid vaddr size flags mid pc curTick : Z) (r : Request)
    : result Request :=
  cassert (0 <=? size) ;;
  let r := with__masterId mid (with__size size (with__vaddr vaddr (with__asid asid r))) in
  let r := with__time curTick (with__pc pc r) in
  let r := with__flags (Flags_set (Z.land (_flags r) STICKY_FLAGS) flags) r in
  Ok (with_privateFlags
        (Flags_set (Z.land (privateFlags r) STICKY_PRIVATE_FLAGS)
                   (Z.lor (Z.lor VALID_VADDR REQ_VALID_SIZE) VALID_PC)) r).

Definition setPaddr (paddr : Z) (r : Request) : result Request :=
  cassert (Flags_isSet (privateFlags r) VALID_VADDR) ;;
  Ok (with_privateFlags (Flags_set (privateFlags r) VALID_PADDR)
                        (with__paddr paddr r)).

(** Both halves start as copies of the whole request. *)
Definition splitOnVaddr (split_addr : Z) (r : Request) : result (Request * Request) :=
  cassert (Flags_isSet (privateFlags r) VALID_VADDR) ;;
  cassert (Flags_noneSet (privateFlags r) VALID_PADDR) ;;
  cassert ((_vaddr r <? split_addr) && (split_addr <? u64 (_vaddr r + _size r))) ;;
  let req1 := with__size (i32 (u64 (split_addr - _vaddr r))) r in
  let req2 := with__vaddr split_addr r in
  Ok (req1, with__size (i32 (_size r - _size req1)) req2).

Definition hasPaddr (r : Request) : bool := Flags_isSet (privateFlags r) VALID_PADDR.
Definition getPaddr (r : Request) : result Z :=
  cassert (Flags_isSet (privateFlags r) VALID_PADDR) ;; Ok (_paddr r).
Definition hasSize (r : Request) : bool := Flags_isSet (privateFlags r) REQ_VALID_SIZE.
Definition req_getSize (r : Request) : result Z :=
  cassert (Flags_isSet (privateFlags r) REQ_VALID_SIZE) ;; Ok (_size r).
Definition req_time (r : Request) : result Z :=
  cassert (Flags_isSet (privateFlags r) (Z.lor VALID_PADDR VALID_VADDR)) ;; Ok (_time r).
Definition getFlags (r : Request) : result Z :=
  cassert (Flags_isSet (privateFlags r) (Z.lor VALID_PADDR VALID_VADDR)) ;; Ok (_flags r).
Definition setFlags (flags : Z) (r : Request) : result Request :=
  cassert (Flags_isSet (privateFlags r) (Z.lor VALID_PADDR VALID_VADDR)) ;;
  Ok (with__flags (Flags_set (_flags r) flags) r).
Definition getVaddr (r : Request) : result Z :=
  cassert (Flags_isSet (privateFlags r) VALID_VADDR) ;; Ok (_vaddr r).
Definition masterId (r : Request) : Z := _masterId r.
Definition getAsi (r : Request) : result Z :=
  cassert (Flags_isSet (privateFlags r) VALID_VADDR) ;; Ok (Z.land (_flags r) ASI_BITS).
Definition extraDataValid (r : Request) : bool :=
  Flags_isSet (privateFlags r) VALID_EXTRA_DATA.
Definition getExtraData (r : Request) : result Z :=
  cassert (Flags_isSet (privateFlags r) VALID_EXTRA_DATA) ;; Ok (_extraData r).
Definition setExtraData (extraData : Z) (r : Request) : Request :=
  with_privateFlags (Flags_set (privateFlags r) VALID_EXTRA_DATA)
                    (with__extraData extraData r).
Definition hasContextId (r : Request) : bool :=
  Flags_isSet (privateFlags r) VALID_CONTEXT_ID.
Definition contextId (r : Request) : result Z :=
  cassert (Flags_isSet (privateFlags r) VALID_CONTEXT_ID) ;; Ok (_contextId r).
Definition threadId (r : Request) : result Z :=
  cassert (Flags_isSet (privateFlags r) VALID_THREAD_ID) ;; Ok (_threadId r).
Definition hasPC (r : Request) : bool := Flags_isSet (privateFlags r) VALID_PC.
Definition getPC (r : Request) : result Z :=
  cassert (Flags_isSet (privateFlags r) VALID_PC) ;; Ok (_pc r).

Definition isUncacheable (r : Request) : bool := Flags_isSet (_flags r) UNCACHEABLE.
Definition isInstFetch (r : Request) : bool := Flags_isSet (_flags r) INST_FETCH.
Definition isPrefetch (r : Request) : bool := Flags_isSet (_flags r) PREFETCH.
Definition req_isLLSC (r : Request) : bool := Flags_isSet (_flags r) LLSC.
Definition isLocked (r : Request) : bool := Flags_isSet (_flags r) LOCKED.
Definition isSwap (r : Request) : bool :=
  Flags_isSet (_flags r) (Z.lor MEM_SWAP MEM_SWAP_COND).
Definition isCondSwap (r : Request) : bool := Flags_isSet (_flags r) MEM_SWAP_COND.
Definition isMmappedIpr (r : Request) : bool := Flags_isSet (_flags r) MMAPPED_IPR.
Definition isClearLL (r : Request) : bool := Flags_isSet (_flags r) CLEAR_LL.

(** * The request heap *)

Definition RequestPtr := Z.
Abbreviation ReqHeap := (gmap Z Request).

Definition req_deref (h : ReqHeap) (p : RequestPtr) : result Request :=
  of_option NullDeref (h !! p).

Definition req_update (h : ReqHeap) (p : RequestPtr) (f : Request -> Request)
    : result ReqHeap :=
  r ← req_deref h p; Ok (<[p := f r]> h).
