(* ===== verification/MemCmd.v ===== *)
(** The command part of mem/packet.hh and mem/packet.cc: [MemCmd], its
    attribute bits and the static table [commandInfo]. *)

From S2P Require Import Prelude.

(** [MemCmd::Command], in the order of the enumeration. *)
Inductive Command :=
  | InvalidCmd
  | ReadReq
  | ReadResp
  | ReadRespWithInvalidate
  | WriteReq
  | WriteResp
  | Writeback
  | SoftPFReq
  | HardPFReq
  | SoftPFResp
  | HardPFResp
  | WriteInvalidateReq
  | WriteInvalidateResp
  | UpgradeReq
  | SCUpgradeReq
  | UpgradeResp
  | SCUpgradeFailReq
  | UpgradeFailResp
  | ReadExReq
  | ReadExResp
  | LoadLockedReq
  | StoreCondReq
  | StoreCondFailReq
  | StoreCondResp
  | SwapReq
  | SwapResp
  | MessageReq
  | MessageResp
  | InvalidDestError
  | BadAddressError
  | FunctionalReadError
  | FunctionalWriteError
  | PrintReq
  | FlushReq
  | InvalidationReq.

#[global] Instance Command_eq_dec : EqDecision Command.
Proof. solve_decision. Defined.

Definition Command_eqb (a b : Command) : bool := bool_decide (a = b).

(** [MemCmd::Attribute], in the order of the enumeration. *)
Inductive Attribute :=
  | IsRead
  | IsWrite
  | IsUpgrade
  | IsInvalidate
  | NeedsExclusive
  | IsRequest
  | IsResponse
  | NeedsResponse
  | IsSWPrefetch
  | IsHWPrefetch
  | IsLlsc
  | HasData
  | IsError
  | IsPrint
  | IsFlush.

Definition attr_bit (a : Attribute) : Z :=
  match a with
  | IsRead => 0 | IsWrite => 1 | IsUpgrade => 2 | IsInvalidate => 3
  | NeedsExclusive => 4 | IsRequest => 5 | IsResponse => 6 | NeedsResponse => 7
  | IsSWPrefetch => 8 | IsHWPrefetch => 9 | IsLlsc => 10 | HasData => 11
  | IsError => 12 | IsPrint => 13 | IsFlush => 14
  end.

(** The [SETn] macros of packet.cc: the bitset with the given bits. *)
Definition SET (l : list Attribute) : Z :=
  foldr (fun a acc => Z.lor (Z.shiftl 1 (attr_bit a)) acc) 0 l.

(** [MemCmd::commandInfo]: attributes and response command of each entry. *)
Definition commandInfo (c : Command) : Z * Command :=
  match c with
  | InvalidCmd => (0, InvalidCmd)
  | ReadReq => (SET [IsRead; IsRequest; NeedsResponse], ReadResp)
  | ReadResp => (SET [IsRead; IsResponse; HasData], InvalidCmd)
  | ReadRespWithInvalidate =>
      (SET [IsRead; IsResponse; HasData; IsInvalidate], InvalidCmd)
  | WriteReq =>
      (SET [IsWrite; NeedsExclusive; IsRequest; NeedsResponse; HasData], WriteResp)
  | WriteResp => (SET [IsWrite; NeedsExclusive; IsResponse], InvalidCmd)
  | Writeback => (SET [IsWrite; NeedsExclusive; IsRequest; HasData], InvalidCmd)
  | SoftPFReq => (SET [IsRead; IsRequest; IsSWPrefetch; NeedsResponse], SoftPFResp)
  | HardPFReq => (SET [IsRead; IsRequest; IsHWPrefetch; NeedsResponse], HardPFResp)
  | SoftPFResp => (SET [IsRead; IsResponse; IsSWPrefetch; HasData], InvalidCmd)
  | HardPFResp => (SET [IsRead; IsResponse; IsHWPrefetch; HasData], InvalidCmd)
  | WriteInvalidateReq =>
      (SET [IsWrite; NeedsExclusive; IsInvalidate; IsRequest; HasData; NeedsResponse],
       WriteInvalidateResp)
  | WriteInvalidateResp => (SET [IsWrite; NeedsExclusive; IsResponse], InvalidCmd)
  | UpgradeReq =>
      (SET [IsInvalidate; NeedsExclusive; IsUpgrade; IsRequest; NeedsResponse], UpgradeResp)
  | SCUpgradeReq =>
      (SET [IsInvalidate; NeedsExclusive; IsUpgrade; IsLlsc; IsRequest; NeedsResponse],
       UpgradeResp)
  | UpgradeResp => (SET [NeedsExclusive; IsUpgrade; IsResponse], InvalidCmd)
  | SCUpgradeFailReq =>
      (SET [IsInvalidate; NeedsExclusive; IsLlsc; IsRequest; NeedsResponse], UpgradeFailResp)
  | UpgradeFailResp => (SET [NeedsExclusive; IsResponse], InvalidCmd)
  | ReadExReq =>
      (SET [IsRead; NeedsExclusive; IsInvalidate; IsRequest; NeedsResponse], ReadExResp)
  | ReadExResp => (SET [IsRead; NeedsExclusive; IsResponse; HasData], InvalidCmd)
  | LoadLockedReq => (SET [IsRead; IsLlsc; IsRequest; NeedsResponse], ReadResp)
  | StoreCondReq =>
      (SET [IsWrite; NeedsExclusive; IsLlsc; IsRequest; NeedsResponse; HasData], StoreCondResp)
  | StoreCondFailReq =>
      (SET [IsWrite; NeedsExclusive; IsLlsc; IsRequest; NeedsResponse; HasData], StoreCondResp)
  | StoreCondResp => (SET [IsWrite; NeedsExclusive; IsLlsc; IsResponse], InvalidCmd)
  | SwapReq =>
      (SET [IsRead; IsWrite; NeedsExclusive; IsRequest; HasData; NeedsResponse], SwapResp)
  | SwapResp => (SET [IsRead; IsWrite; NeedsExclusive; IsResponse; HasData], InvalidCmd)
  | MessageReq => (SET [IsWrite; IsRequest; NeedsResponse; HasData], MessageResp)
  | MessageResp => (SET [IsWrite; IsResponse], InvalidCmd)
  | InvalidDestError => (SET [IsResponse; IsError], InvalidCmd)
  | BadAddressError => (SET [IsResponse; IsError], InvalidCmd)
  | FunctionalReadError => (SET [IsRead; IsResponse; IsError], InvalidCmd)
  | FunctionalWriteError => (SET [IsWrite; IsResponse; IsError], InvalidCmd)
  | PrintReq => (SET [IsRequest; IsPrint], InvalidCmd)
  | FlushReq => (SET [IsRequest; IsFlush; NeedsExclusive], InvalidCmd)
  | InvalidationReq => (SET [NeedsExclusive; IsInvalidate; IsRequest], InvalidCmd)
  end.

Definition testCmdAttrib (c : Command) (a : Attribute) : bool :=
  Z.testbit (commandInfo c).1 (attr_bit a).

Definition cmd_isRead (c : Command) : bool := testCmdAttrib c IsRead.
Definition cmd_isWrite (c : Command) : bool := testCmdAttrib c IsWrite.
Definition cmd_isUpgrade (c : Command) : bool := testCmdAttrib c IsUpgrade.
Definition cmd_isRequest (c : Command) : bool := testCmdAttrib c IsRequest.
Definition cmd_isResponse (c : Command) : bool := testCmdAttrib c IsResponse.
Definition cmd_needsExclusive (c : Command) : bool := testCmdAttrib c NeedsExclusive.
Definition cmd_needsResponse (c : Command) : bool := testCmdAttrib c NeedsResponse.
Definition cmd_isInvalidate (c : Command) : bool := testCmdAttrib c IsInvalidate.
Definition cmd_hasData (c : Command) : bool := testCmdAttrib c HasData.
Definition cmd_isReadWrite (c : Command) : bool := cmd_isRead c && cmd_isWrite c.
Definition cmd_isLLSC (c : Command) : bool := testCmdAttrib c IsLlsc.
Definition cmd_isError (c : Command) : bool := testCmdAttrib c IsError.
Definition cmd_isPrint (c : Command) : bool := testCmdAttrib c IsPrint.
Definition cmd_isFlush (c : Command) : bool := testCmdAttrib c IsFlush.

Definition responseCommand (c : Command) : Command := (commandInfo c).2.

(** [toInt]: the position of the command in the enumeration. *)
Definition toInt (c : Command) : Z :=
  match c with
  | InvalidCmd => 0 | ReadReq => 1 | ReadResp => 2 | ReadRespWithInvalidate => 3
  | WriteReq => 4 | WriteResp => 5 | Writeback => 6 | SoftPFReq => 7
  | HardPFReq => 8 | SoftPFResp => 9 | HardPFResp => 10 | WriteInvalidateReq => 11
  | WriteInvalidateResp => 12 | UpgradeReq => 13 | SCUpgradeReq => 14
  | UpgradeResp => 15 | SCUpgradeFailReq => 16 | UpgradeFailResp => 17
  | ReadExReq => 18 | ReadExResp => 19 | LoadLockedReq => 20 | StoreCondReq => 21
  | StoreCondFailReq => 22 | StoreCondResp => 23 | SwapReq => 24 | SwapResp => 25
  | MessageReq => 26 | MessageResp => 27 | InvalidDestError => 28
  | BadAddressError => 29 | FunctionalReadError => 30 | FunctionalWriteError => 31
  | PrintReq => 32 | FlushReq => 33 | InvalidationReq => 34
  end.

(** * The protocol facts the rest of the memory system relies on *)

(** Every request command that needs a response names a response
    command that is a response, is not itself a request, needs no further
    response, is not an error, and flows data the same way ([isRead] and
    [isWrite] agree); and every command that needs a response is a request. *)
Theorem response_pairing (c : Command) :
  cmd_needsResponse c = true ->
  cmd_isRequest c = true /\
  let r := responseCommand c in
  cmd_isResponse r = true /\ cmd_isRequest r = false /\
  cmd_needsResponse r = false /\ cmd_isError r = false /\
  cmd_isRead r = cmd_isRead c /\
  (cmd_isWrite r = cmd_isWrite c).
Proof. destruct c; intros H; vm_compute in H |- *; try discriminate H; auto 10. Qed.

Lemma response_pairing_witness :
  cmd_needsResponse LoadLockedReq = true /\ responseCommand LoadLockedReq = ReadResp /\
  cmd_isResponse (responseCommand LoadLockedReq) = true.
Proof.
  split; [reflexivity|]. split; [reflexivity|].
  exact (proj1 (proj2 (response_pairing LoadLockedReq eq_refl))).
Defined.

Lemma cmd_request_or_response (c : Command) :
  c <> InvalidCmd -> cmd_isRequest c = negb (cmd_isResponse c).
Proof. destruct c; intros H; vm_compute; congruence. Qed.

Lemma cmd_invalidate_exclusive (c : Command) :
  cmd_isRequest c = true -> cmd_isInvalidate c = true -> cmd_needsExclusive c = true.
Proof. destruct c; vm_compute; congruence. Qed.

Lemma cmd_read_not_exclusive_not_invalidate (c : Command) :
  cmd_isRequest c = true -> cmd_needsExclusive c = false -> cmd_isInvalidate c = false.
Proof. destruct c; vm_compute; congruence. Qed.

Lemma toInt_inj (c d : Command) : toInt c = toInt d -> c = d.
Proof. destruct c, d; vm_compute; congruence. Qed.
