(* ===== verification/Packet.v ===== *)
(** The packet of mem/packet.hh and mem/packet.cc: flags, constructors,
    the request-to-response conversion, payload copies and the functional
    access check.

    A packet's payload is modelled by its bytes ([pkt_data], [None] for a
    null [data] pointer); buffers are values here, so a packet that copies
    another packet's [STATIC_DATA] pointer starts with the same bytes.
    Fields a constructor leaves uninitialised are 0.  Time stamps come from
    the tick [curTick] that the caller passes. *)

From S2P Require Import Prelude Request MemCmd.

Definition SHARED : Z := 0x00000001.
Definition EXPRESS_SNOOP : Z := 0x00000002.
Definition SUPPLY_EXCLUSIVE : Z := 0x00000004.
Definition MEM_INHIBIT : Z := 0x00000008.
Definition COPY_FLAGS : Z := 0x0000000F.
Definition VALID_ADDR : Z := 0x00000100.
Definition VALID_SIZE : Z := 0x00000200.
Definition STATIC_DATA : Z := 0x00001000.
Definition DYNAMIC_DATA : Z := 0x00002000.
Definition ARRAY_DATA : Z := 0x00004000.
Definition SUPPRESS_FUNC_ERROR : Z := 0x00008000.

Definition InvalidPortID : Z := -1.

(** [Packet::SenderState] and the subclasses the memory system casts to: a
    miss register (by its address in the MSHR heap), the record a cache
    pushes when it forwards a snoop upwards, the record a bridge pushes on a
    request, and the state of a print request. *)
Inductive SenderState :=
  | SS_NULL
  | SS_MSHR (mshr : Z)
  | SS_Forward (prevSenderState : SenderState) (prevSrc : Z)
  | SS_RequestState (origSenderState : SenderState) (origSrc : Z)
  | SS_PrintReq
  | SS_Other (id : Z).

Record Packet := mkPacket {
  pkt_flags : Z;
  pkt_cmd : Command;
  pkt_req : RequestPtr;
  pkt_data : option (list Z);
  pkt_addr : Z;
  pkt_size : Z;
  pkt_src : Z;
  pkt_dest : Z;
  pkt_origCmd : Command;
  pkt_bytesValidStart : Z;
  pkt_bytesValidEnd : Z;
  pkt_time : Z;
  pkt_finishTime : Z;
  pkt_firstWordTime : Z;
  pkt_senderState : SenderState;
  pkt_threadID : Z;
  pkt_readLabel : Z;
  pkt_writeLabel : Z
}.

Definition with_pkt_flags (v : Z) (r : Packet) : Packet :=
  mkPacket v (pkt_cmd r) (pkt_req r) (pkt_data r) (pkt_addr r) (pkt_size r)
    (pkt_src r) (pkt_dest r) (pkt_origCmd r) (pkt_bytesValidStart r)
    (pkt_bytesValidEnd r) (pkt_time r) (pkt_finishTime r) (pkt_firstWordTime
    r) (pkt_senderState r) (pkt_threadID r) (pkt_readLabel r) (pkt_writeLabel
    r).
Definition with_pkt_cmd (v : Command) (r : Packet) : Packet :=
  mkPacket (pkt_flags r) v (pkt_req r) (pkt_data r) (pkt_addr r) (pkt_size
    r) (pkt_src r) (pkt_dest r) (pkt_origCmd r) (pkt_bytesValidStart r)
    (pkt_bytesValidEnd r) (pkt_time r) (pkt_finishTime r) (pkt_firstWordTime
    r) (pkt_senderState r) (pkt_threadID r) (pkt_readLabel r) (pkt_writeLabel
    r).
Definition with_pkt_req (v : RequestPtr) (r : Packet) : Packet :=
  mkPacket (pkt_flags r) (pkt_cmd r) v (pkt_data r) (pkt_addr r) (pkt_size
    r) (pkt_src r) (pkt_dest r) (pkt_origCmd r) (pkt_bytesValidStart r)
    (pkt_bytesValidEnd r) (pkt_time r) (pkt_finishTime r) (pkt_firstWordTime
    r) (pkt_senderState r) (pkt_threadID r) (pkt_readLabel r) (pkt_writeLabel
    r).
Definition with_pkt_data (v : option (list Z)) (r : Packet) : Packet :=
  mkPacket (pkt_flags r) (pkt_cmd r) (pkt_req r) v (pkt_addr r) (pkt_size
    r) (pkt_src r) (pkt_dest r) (pkt_origCmd r) (pkt_bytesValidStart r)
    (pkt_bytesValidEnd r) (pkt_time r) (pkt_finishTime r) (pkt_firstWordTime
    r) (pkt_senderState r) (pkt_threadID r) (pkt_readLabel r) (pkt_writeLabel
    r).
Definition with_pkt_addr (v : Z) (r : Packet) : Packet :=
  mkPacket (pkt_flags r) (pkt_cmd r) (pkt_req r) (pkt_data r) v (pkt_size
    r) (pkt_src r) (pkt_dest r) (pkt_origCmd r) (pkt_bytesValidStart r)
    (pkt_bytesValidEnd r) (pkt_time r) (pkt_finishTime r) (pkt_firstWordTime
    r) (pkt_senderState r) (pkt_threadID r) (pkt_readLabel r) (pkt_writeLabel
    r).
Definition with_pkt_size (v : Z) (r : Packet) : Packet :=
  mkPacket (pkt_flags r) (pkt_cmd r) (pkt_req r) (pkt_data r) (pkt_addr r)
    v (pkt_src r) (pkt_dest r) (pkt_origCmd r) (pkt_bytesValidStart r)
    (pkt_bytesValidEnd r) (pkt_time r) (pkt_finishTime r) (pkt_firstWordTime
    r) (pkt_senderState r) (pkt_threadID r) (pkt_readLabel r) (pkt_writeLabel
    r).
Definition with_pkt_src (v : Z) (r : Packet) : Packet :=
  mkPacket (pkt_flags r) (pkt_cmd r) (pkt_req r) (pkt_data r) (pkt_addr r)
    (pkt_size r) v (pkt_dest r) (pkt_origCmd r) (pkt_bytesValidStart r)
    (pkt_bytesValidEnd r) (pkt_time r) (pkt_finishTime r) (pkt_firstWordTime
    r) (pkt_senderState r) (pkt_threadID r) (pkt_readLabel r) (pkt_writeLabel
    r).
Definition with_pkt_dest (v : Z) (r : Packet) : Packet :=
  mkPacket (pkt_flags r) (pkt_cmd r) (pkt_req r) (pkt_data r) (pkt_addr r)
    (pkt_size r) (pkt_src r) v (pkt_origCmd r) (pkt_bytesValidStart r)
    (pkt_bytesValidEnd r) (pkt_time r) (pkt_finishTime r) (pkt_firstWordTime
    r) (pkt_senderState r) (pkt_threadID r) (pkt_readLabel r) (pkt_writeLabel
    r).
Definition with_pkt_origCmd (v : Command) (r : Packet) : Packet :=
  mkPacket (pkt_flags r) (pkt_cmd r) (pkt_req r) (pkt_data r) (pkt_addr r)
    (pkt_size r) (pkt_src r) (pkt_dest r) v (pkt_bytesValidStart r)
    (pkt_bytesValidEnd r) (pkt_time r) (pkt_finishTime r) (pkt_firstWordTime
    r) (pkt_senderState r) (pkt_threadID r) (pkt_readLabel r) (pkt_writeLabel
    r).
Definition with_pkt_bytesValidStart (v : Z) (r : Packet) : Packet :=
  mkPacket (pkt_flags r) (pkt_cmd r) (pkt_req r) (pkt_data r) (pkt_addr r)
    (pkt_size r) (pkt_src r) (pkt_dest r) (pkt_origCmd r) v
    (pkt_bytesValidEnd r) (pkt_time r) (pkt_finishTime r) (pkt_firstWordTime
    r) (pkt_senderState r) (pkt_threadID r) (pkt_readLabel r) (pkt_writeLabel
    r).
Definition with_pkt_bytesValidEnd (v : Z) (r : Packet) : Packet :=
  mkPacket (pkt_flags r) (pkt_cmd r) (pkt_req r) (pkt_data r) (pkt_addr r)
    (pkt_size r) (pkt_src r) (pkt_dest r) (pkt_origCmd r)
    (pkt_bytesValidStart r) v (pkt_time r) (pkt_finishTime r)
    (pkt_firstWordTime r) (pkt_senderState r) (pkt_threadID r) (pkt_readLabel
    r) (pkt_writeLabel r).
Definition with_pkt_time (v : Z) (r : Packet) : Packet :=
  mkPacket (pkt_flags r) (pkt_cmd r) (pkt_req r) (pkt_data r) (pkt_addr r)
    (pkt_size r) (pkt_src r) (pkt_dest r) (pkt_origCmd r)
    (pkt_bytesValidStart r) (pkt_bytesValidEnd r) v (pkt_finishTime r)
    (pkt_firstWordTime r) (pkt_senderState r) (pkt_threadID r) (pkt_readLabel
    r) (pkt_writeLabel r).
Definition with_pkt_finishTime (v : Z) (r : Packet) : Packet :=
  mkPacket (pkt_flags r) (pkt_cmd r) (pkt_req r) (pkt_data r) (pkt_addr r)
    (pkt_size r) (pkt_src r) (pkt_dest r) (pkt_origCmd r)
    (pkt_bytesValidStart r) (pkt_bytesValidEnd r) (pkt_time r) v
    (pkt_firstWordTime r) (pkt_senderState r) (pkt_threadID r) (pkt_readLabel
    r) (pkt_writeLabel r).
Definition with_pkt_firstWordTime (v : Z) (r : Packet) : Packet :=
  mkPacket (pkt_flags r) (pkt_cmd r) (pkt_req r) (pkt_data r) (pkt_addr r)
    (pkt_size r) (pkt_src r) (pkt_dest r) (pkt_origCmd r)
    (pkt_bytesValidStart r) (pkt_bytesValidEnd r) (pkt_time r)
    (pkt_finishTime r) v (pkt_senderState r) (pkt_threadID r) (pkt_readLabel
    r) (pkt_writeLabel r).
Definition with_pkt_senderState (v : SenderState) (r : Packet) : Packet :=
  mkPacket (pkt_flags r) (pkt_cmd r) (pkt_req r) (pkt_data r) (pkt_addr r)
    (pkt_size r) (pkt_src r) (pkt_dest r) (pkt_origCmd r)
    (pkt_bytesValidStart r) (pkt_bytesValidEnd r) (pkt_time r)
    (pkt_finishTime r) (pkt_firstWordTime r) v (pkt_threadID r)
    (pkt_readLabel r) (pkt_writeLabel r).
Definition with_pkt_threadID (v : Z) (r : Packet) : Packet :=
  mkPacket (pkt_flags r) (pkt_cmd r) (pkt_req r) (pkt_data r) (pkt_addr r)
    (pkt_size r) (pkt_src r) (pkt_dest r) (pkt_origCmd r)
    (pkt_bytesValidStart r) (pkt_bytesValidEnd r) (pkt_time r)
    (pkt_finishTime r) (pkt_firstWordTime r) (pkt_senderState r) v
    (pkt_readLabel r) (pkt_writeLabel r).
Definition with_pkt_readLabel (v : Z) (r : Packet) : Packet :=
  mkPacket (pkt_flags r) (pkt_cmd r) (pkt_req r) (pkt_data r) (pkt_addr r)
    (pkt_size r) (pkt_src r) (pkt_dest r) (pkt_origCmd r)
    (pkt_bytesValidStart r) (pkt_bytesValidEnd r) (pkt_time r)
    (pkt_finishTime r) (pkt_firstWordTime r) (pkt_senderState r)
    (pkt_threadID r) v (pkt_writeLabel r).
Definition with_pkt_writeLabel (v : Z) (r : Packet) : Packet :=
  mkPacket (pkt_flags r) (pkt_cmd r) (pkt_req r) (pkt_data r) (pkt_addr r)
    (pkt_size r) (pkt_src r) (pkt_dest r) (pkt_origCmd r)
    (pkt_bytesValidStart r) (pkt_bytesValidEnd r) (pkt_time r)
    (pkt_finishTime r) (pkt_firstWordTime r) (pkt_senderState r)
    (pkt_threadID r) (pkt_readLabel r) v.

(** * Command queries *)

Definition isRead (p : Packet) : bool := cmd_isRead (pkt_cmd p).
Definition isWrite (p : Packet) : bool := cmd_isWrite (pkt_cmd p).
Definition isUpgrade (p : Packet) : bool := cmd_isUpgrade (pkt_cmd p).
Definition isRequest (p : Packet) : bool := cmd_isRequest (pkt_cmd p).
Definition isResponse (p : Packet) : bool := cmd_isResponse (pkt_cmd p).
Definition needsExclusive (p : Packet) : bool := cmd_needsExclusive (pkt_cmd p).
Definition needsResponse (p : Packet) : bool := cmd_needsResponse (pkt_cmd p).
Definition isInvalidate (p : Packet) : bool := cmd_isInvalidate (pkt_cmd p).
Definition hasData (p : Packet) : bool := cmd_hasData (pkt_cmd p).
Definition isReadWrite (p : Packet) : bool := cmd_isReadWrite (pkt_cmd p).
Definition isLLSC (p : Packet) : bool := cmd_isLLSC (pkt_cmd p).
Definition isError (p : Packet) : bool := cmd_isError (pkt_cmd p).
Definition isPrint (p : Packet) : bool := cmd_isPrint (pkt_cmd p).
Definition isFlush (p : Packet) : bool := cmd_isFlush (pkt_cmd p).
Definition cmdToIndex (p : Packet) : Z := toInt (pkt_cmd p).
Definition cmd_is (p : Packet) (c : Command) : bool := Command_eqb (pkt_cmd p) c.

Definition getFirstWordTime (p : Packet) (useFWT : bool) : Z :=
  if useFWT then pkt_firstWordTime p else pkt_finishTime p.

(** * Flags *)

Definition pkt_set (m : Z) (p : Packet) : Packet :=
  with_pkt_flags (Flags_set (pkt_flags p) m) p.
Definition pkt_clear (m : Z) (p : Packet) : Packet :=
  with_pkt_flags (Flags_clear (pkt_flags p) m) p.
Definition pkt_test (m : Z) (p : Packet) : bool := Flags_isSet (pkt_flags p) m.

Definition assertMemInhibit : Packet -> Packet := pkt_set MEM_INHIBIT.
Definition memInhibitAsserted : Packet -> bool := pkt_test MEM_INHIBIT.
Definition assertShared : Packet -> Packet := pkt_set SHARED.
Definition sharedAsserted : Packet -> bool := pkt_test SHARED.
Definition setExpressSnoop : Packet -> Packet := pkt_set EXPRESS_SNOOP.
Definition isExpressSnoop : Packet -> bool := pkt_test EXPRESS_SNOOP.
Definition setSupplyExclusive : Packet -> Packet := pkt_set SUPPLY_EXCLUSIVE.
Definition clearSupplyExclusive : Packet -> Packet := pkt_clear SUPPLY_EXCLUSIVE.
Definition isSupplyExclusive : Packet -> bool := pkt_test SUPPLY_EXCLUSIVE.
Definition setSuppressFuncError : Packet -> Packet := pkt_set SUPPRESS_FUNC_ERROR.
Definition suppressFuncError : Packet -> bool := pkt_test SUPPRESS_FUNC_ERROR.

Definition setBadAddress (p : Packet) : result Packet :=
  cassert (isResponse p) ;; Ok (with_pkt_cmd BadAddressError p).
Definition copyError (p other : Packet) : result Packet :=
  cassert (isError other) ;; Ok (with_pkt_cmd (pkt_cmd other) p).

Definition isSrcValid (p : Packet) : bool := negb (pkt_src p =? InvalidPortID).
Definition getSrc (p : Packet) : result Z := cassert (isSrcValid p) ;; Ok (pkt_src p).
Definition setSrc (s : Z) (p : Packet) : Packet := with_pkt_src s p.
Definition clearSrc (p : Packet) : Packet := with_pkt_src InvalidPortID p.
Definition isDestValid (p : Packet) : bool := negb (pkt_dest p =? InvalidPortID).
Definition getDest (p : Packet) : result Z := cassert (isDestValid p) ;; Ok (pkt_dest p).
Definition setDest (d : Z) (p : Packet) : Packet := with_pkt_dest d p.
Definition clearDest (p : Packet) : Packet := with_pkt_dest InvalidPortID p.

Definition getAddr (p : Packet) : result Z :=
  cassert (pkt_test VALID_ADDR p) ;; Ok (pkt_addr p).
Definition getSize (p : Packet) : result Z :=
  cassert (pkt_test VALID_SIZE p) ;; Ok (pkt_size p).
Definition getOffset (p : Packet) (blkSize : Z) : result Z :=
  a ← getAddr p; Ok (Z.land a (blkSize - 1)).

Definition convertScToWrite (p : Packet) : result Packet :=
  cassert (isLLSC p) ;; cassert (isWrite p) ;; Ok (with_pkt_cmd WriteReq p).
Definition convertLlToRead (p : Packet) : result Packet :=
  cassert (isLLSC p) ;; cassert (isRead p) ;; Ok (with_pkt_cmd ReadReq p).

(** * Constructors *)

Definition Packet_blank (req : RequestPtr) (c : Command) (tid curTick : Z) : Packet :=
  mkPacket 0 c req None 0 0 InvalidPortID InvalidPortID InvalidCmd 0 0 curTick 0 0
    SS_NULL tid tid tid.

(** The body shared by the constructors that take address and size from
    the request. *)
Definition Packet_fromReq (r : Request) (p : Packet) : Packet :=
  let p := if hasPaddr r then pkt_set VALID_ADDR (with_pkt_addr (_paddr r) p) else p in
  if hasSize r then pkt_set VALID_SIZE (with_pkt_size (_size r) p) else p.

(** The body shared by the constructors for a whole block. *)
Definition Packet_forBlk (r : Request) (blkSize : Z) (p : Packet) : Packet :=
  let p := if hasPaddr r
           then pkt_set VALID_ADDR (with_pkt_addr (Z.ldiff (_paddr r) (blkSize - 1)) p)
           else p in
  pkt_set VALID_SIZE (with_pkt_size blkSize p).

(** [Packet(req, cmd)] *)
Definition Packet_new (h : ReqHeap) (req : RequestPtr) (c : Command) (curTick : Z)
    : result Packet :=
  r ← req_deref h req; Ok (Packet_fromReq r (Packet_blank req c 0 curTick)).

(** [Packet(req, cmd, tid, tid1, tid2)]: the last two are ignored. *)
Definition Packet_new_tid (h : ReqHeap) (req : RequestPtr) (c : Command)
    (tid tid1 tid2 curTick : Z) : result Packet :=
  r ← req_deref h req; Ok (Packet_fromReq r (Packet_blank req c tid curTick)).

(** [Packet(req, cmd, blkSize)] *)
Definition Packet_new_blk (h : ReqHeap) (req : RequestPtr) (c : Command)
    (blkSize curTick : Z) : result Packet :=
  r ← req_deref h req; Ok (Packet_forBlk r blkSize (Packet_blank req c 0 curTick)).

(** [Packet(req, cmd, blkSize, tid)] *)
Definition Packet_new_blk_tid (h : ReqHeap) (req : RequestPtr) (c : Command)
    (blkSize tid curTick : Z) : result Packet :=
  r ← req_deref h req; Ok (Packet_forBlk r blkSize (Packet_blank req c tid curTick)).

(** [Packet(pkt, clearFlags)]: both labels are taken from the original's
    thread identifier. *)
Definition Packet_copy (p : Packet) (clearFlags : bool) (curTick : Z) : Packet :=
  let f := 0 in
  let f := if clearFlags then f else Flags_set f (Z.land (pkt_flags p) COPY_FLAGS) in
  let f := Flags_set f (Z.land (pkt_flags p) (Z.lor VALID_ADDR VALID_SIZE)) in
  let f := Flags_set f (Z.land (pkt_flags p) STATIC_DATA) in
  mkPacket f (pkt_cmd p) (pkt_req p)
    (if pkt_test STATIC_DATA p then pkt_data p else None)
    (pkt_addr p) (pkt_size p) (pkt_src p) (pkt_dest p) InvalidCmd
    (pkt_bytesValidStart p) (pkt_bytesValidEnd p) curTick 0 0
    (pkt_senderState p) (pkt_threadID p) (pkt_threadID p) (pkt_threadID p).

(** * Responses *)

Definition makeResponse (p : Packet) : result Packet :=
  cassert (needsResponse p) ;;
  cassert (isRequest p) ;;
  let p := with_pkt_origCmd (pkt_cmd p) p in
  let p := with_pkt_cmd (responseCommand (pkt_cmd p)) p in
  let p := pkt_clear EXPRESS_SNOOP p in
  Ok (clearSrc (with_pkt_dest (pkt_src p) p)).
Definition makeAtomicResponse (p : Packet) : result Packet := makeResponse p.
Definition makeTimingResponse (p : Packet) : result Packet := makeResponse p.

Definition setFunctionalResponseStatus (success : bool) (p : Packet) : Packet :=
  if success then p
  else if isWrite p then with_pkt_cmd FunctionalWriteError p
  else with_pkt_cmd FunctionalReadError p.

Definition pkt_setSize (size : Z) (p : Packet) : result Packet :=
  cassert (negb (pkt_test VALID_SIZE p)) ;;
  Ok (pkt_set VALID_SIZE (with_pkt_size size p)).

(** * Payload *)

(** [memcpy(dst + doff, src + soff, n)] on two byte arrays. *)
Definition memcpy (dst : list Z) (doff : Z) (src : list Z) (soff n : Z)
    : result (list Z) :=
  if decide (0 <= n /\ 0 <= doff /\ 0 <= soff /\
             doff + n <= Z.of_nat (length dst) /\ soff + n <= Z.of_nat (length src))
  then Ok (take (Z.to_nat doff) dst ++ take (Z.to_nat n) (drop (Z.to_nat soff) src)
           ++ drop (Z.to_nat (doff + n)) dst)
  else Err OutOfBounds.

Definition dataStatic (bytes : list Z) (p : Packet) : result Packet :=
  cassert (Flags_noneSet (pkt_flags p)
             (Z.lor (Z.lor STATIC_DATA DYNAMIC_DATA) ARRAY_DATA)) ;;
  Ok (pkt_set STATIC_DATA (with_pkt_data (Some bytes) p)).
Definition dataDynamicArray (bytes : list Z) (p : Packet) : result Packet :=
  cassert (Flags_noneSet (pkt_flags p)
             (Z.lor (Z.lor STATIC_DATA DYNAMIC_DATA) ARRAY_DATA)) ;;
  Ok (pkt_set (Z.lor DYNAMIC_DATA ARRAY_DATA) (with_pkt_data (Some bytes) p)).

(** [getPtr<uint8_t>()], followed by a dereference. *)
Definition getPtr (p : Packet) : result (list Z) :=
  cassert (pkt_test (Z.lor STATIC_DATA DYNAMIC_DATA) p) ;;
  of_option NullDeref (pkt_data p).

(** [setData(src + off)] *)
Definition setData (src : list Z) (off : Z) (p : Packet) : result Packet :=
  d ← getPtr p; n ← getSize p;
  d' ← memcpy d 0 src off n; Ok (with_pkt_data (Some d') p).

Definition setDataFromBlock (blk_data : list Z) (blkSize : Z) (p : Packet)
    : result Packet :=
  off ← getOffset p blkSize; setData blk_data off p.

(** [writeData(dst + off)] *)
Definition writeData (dst : list Z) (off : Z) (p : Packet) : result (list Z) :=
  d ← getPtr p; n ← getSize p; memcpy dst off d 0 n.

Definition writeDataToBlock (blk_data : list Z) (blkSize : Z) (p : Packet)
    : result (list Z) :=
  off ← getOffset p blkSize; writeData blk_data off p.

Definition deleteData (p : Packet) : Packet :=
  with_pkt_data None
    (pkt_clear (Z.lor (Z.lor STATIC_DATA DYNAMIC_DATA) ARRAY_DATA) p).

(** Freshly allocated bytes are 0. *)
Definition allocate (p : Packet) : result Packet :=
  match pkt_data p with
  | Some _ => cassert (pkt_test (Z.lor STATIC_DATA DYNAMIC_DATA) p) ;; Ok p
  | None =>
      cassert (Flags_noneSet (pkt_flags p) (Z.lor STATIC_DATA DYNAMIC_DATA)) ;;
      n ← getSize p;
      Ok (pkt_set (Z.lor DYNAMIC_DATA ARRAY_DATA)
            (with_pkt_data (Some (replicate (Z.to_nat n) 0)) p))
  end.

Definition reinitFromRequest (h : ReqHeap) (p : Packet) : result Packet :=
  r ← req_deref h (pkt_req p);
  cassert (hasPaddr r) ;;
  n ← req_getSize r; t ← req_time r;
  let p := with_pkt_flags 0 p in
  let p := with_pkt_time t (with_pkt_size n (with_pkt_addr (_paddr r) p)) in
  Ok (deleteData (pkt_set (Z.lor VALID_ADDR VALID_SIZE) p)).

(** * [Packet::checkFunctional] *)

(** The offsets and the copy size chosen for a partial overlap:
    [(val_offset, func_offset, overlap_size)]. *)
Definition partial_overlap (func_start func_end val_start val_end size : Z)
    : result (Z * Z * Z) :=
  if (val_start <? func_start) && (val_end <=? func_end) then
    Ok (i32 (func_start - val_start), 0, i32 (val_end - func_start))
  else if (func_start <=? val_start) && (func_end <? val_end) then
    Ok (0, i32 (val_start - func_start), i32 (func_end - val_start))
  else if (func_start <=? val_start) && (val_end <=? func_end) then
    Ok (0, i32 (val_start - func_start), size)
  else Err Panic.

(** The bookkeeping of the bytes found so far.  The result is the packet
    (its valid range updated and, when the found bytes enclose the bytes
    already there, the first of the two copies done) with the offsets and
    the size of the copy that remains. *)
Definition merge_found (p : Packet) (bytes : list Z) (val_offset func_offset overlap_size : Z)
    : result (Packet * Z * Z * Z) :=
  let bvs := pkt_bytesValidStart p in
  let bve := pkt_bytesValidEnd p in
  if (bvs =? 0) && (bve =? 0) then
    Ok (with_pkt_bytesValidEnd (u16 (func_offset + overlap_size))
          (with_pkt_bytesValidStart (u16 func_offset) p),
        val_offset, func_offset, overlap_size)
  else
    let a := func_offset - bvs in
    let b := (func_offset + overlap_size) - bve in
    let c := func_offset - bve in
    let d := (func_offset + overlap_size) - bvs in
    if (0 <=? a) && (b <=? 0) then Ok (p, val_offset, func_offset, 0)
    else if (a <? 0) && (0 <=? d) && (b <=? 0) then
      Ok (with_pkt_bytesValidStart (u16 func_offset) p,
          val_offset, func_offset, bvs - func_offset)
    else if (0 <? b) && (c <=? 0) && (0 <=? a) then
      let n := (func_offset + overlap_size) - bve in
      Ok (with_pkt_bytesValidEnd (u16 (bve + n)) p,
          val_offset + (bve - func_offset), bve, n)
    else if (a <? 0) && (0 <? b) then
      dst ← getPtr p;
      dst ← memcpy dst func_offset bytes val_offset (bvs - func_offset);
      let n := (func_offset + overlap_size) - bve in
      let p := with_pkt_data (Some dst) p in
      Ok (with_pkt_bytesValidEnd (u16 (bve + n))
            (with_pkt_bytesValidStart (u16 func_offset) p),
          val_offset + (bve - func_offset), bve, n)
    else if ((0 <? c) && (0 <? b)) || ((a <? 0) && (d <? 0)) then Err Panic
    else Ok (p, val_offset, func_offset, overlap_size).

(** [pkt->checkFunctional(obj, addr, size, data)]: the answer, the packet
    and the bytes at [data] afterwards.  Printing has no effect here. *)
Definition checkFunctional (p : Packet) (addr size : Z) (data : option (list Z))
    : result (bool * Packet * option (list Z)) :=
  func_start ← getAddr p;
  sz ← getSize p;
  let func_end := u64 (func_start + sz - 1) in
  let val_start := addr in
  let val_end := u64 (val_start + size - 1) in
  if (val_end <? func_start) || (func_end <? val_start) then Ok (false, p, data)
  else if isPrint p then
    match pkt_senderState p with
    | SS_PrintReq => Ok (false, p, data)
    | _ => Err NullDeref
    end
  else match data with
  | None => Ok (false, p, data)
  | Some bytes =>
      let offset := i32 (func_start - val_start) in
      if isRead p then
        if (val_start <=? func_start) && (func_end <=? val_end) then
          p ← allocate p;
          d ← getPtr p;
          d ← memcpy d 0 bytes offset sz;
          Ok (true, with_pkt_data (Some d) p, data)
        else
          '(vo, fo, n) ← partial_overlap func_start func_end val_start val_end size;
          '(p, vo, fo, n) ← merge_found p bytes vo fo n;
          cassert (pkt_bytesValidEnd p <=? sz) ;;
          d ← getPtr p;
          d ← memcpy d fo bytes vo n;
          Ok ((pkt_bytesValidStart p =? 0) && (pkt_bytesValidEnd p =? sz),
              with_pkt_data (Some d) p, data)
      else if isWrite p then
        d ← getPtr p;
        bytes' ← (if 0 <=? offset
                  then memcpy bytes offset d 0 (Z.min func_end val_end - func_start + 1)
                  else memcpy bytes 0 d (- offset) (Z.min func_end val_end - val_start + 1));
        Ok (false, p, Some bytes')
      else Err Panic
  end.

(** [pkt->checkFunctional(other)]: against the payload of another packet. *)
Definition checkFunctional_pkt (p other : Packet) : result (bool * Packet * Packet) :=
  data ← (if hasData other then d ← getPtr other; Ok (Some d) else Ok None);
  a ← getAddr other; n ← getSize other;
  '(b, p, data') ← checkFunctional p a n data;
  Ok (b, p, match data' with Some d => with_pkt_data (Some d) other | None => other end).
