(* ===== verification/PacketSpec.v ===== *)
(** Payloads: copying between packets and blocks (mem/packet.hh), byte by
    byte, and the functional check of mem/packet.cc. *)

From S2P Require Import Prelude Request MemCmd Packet.

(** * [memcpy] byte by byte *)

Lemma memcpy_lookup dst doff src soff n r :
  memcpy dst doff src soff n = Ok r ->
  length r = length dst /\ 0 <= n /\ 0 <= doff /\ 0 <= soff /\
  doff + n <= Z.of_nat (length dst) /\ soff + n <= Z.of_nat (length src) /\
  forall i : nat, r !! i = if decide (doff <= Z.of_nat i < doff + n)
                           then src !! Z.to_nat (soff + (Z.of_nat i - doff)) else dst !! i.
Proof.
  unfold memcpy. case_decide as H; [|done]. intros [= <-]. destruct H as (Hn & Hd & Hs & Hld & Hls).
  assert (length (take (Z.to_nat doff) dst) = Z.to_nat doff) as L1 by (rewrite length_take; lia).
  assert (length (take (Z.to_nat n) (drop (Z.to_nat soff) src)) = Z.to_nat n) as L2
    by (rewrite length_take, length_drop; lia).
  split_and!; [|done..|].
  - rewrite !length_app, L1, L2, length_drop. lia.
  - intros i. destruct (decide (Z.of_nat i < doff)) as [Hi|Hi].
    + rewrite lookup_app_l, lookup_take_lt by lia. by rewrite decide_False by lia.
    + rewrite lookup_app_r, L1 by lia. destruct (decide (Z.of_nat i < doff + n)) as [Hi2|Hi2].
      * rewrite lookup_app_l, lookup_take_lt, lookup_drop by lia. rewrite decide_True by lia. f_equal. lia.
      * rewrite lookup_app_r, L2, lookup_drop by lia. rewrite decide_False by lia. f_equal. lia.
Qed.

Lemma memcpy_total dst doff src soff n :
  0 <= n -> 0 <= doff -> 0 <= soff -> doff + n <= Z.of_nat (length dst) ->
  soff + n <= Z.of_nat (length src) -> exists r, memcpy dst doff src soff n = Ok r.
Proof. intros. unfold memcpy. rewrite decide_True by done. eauto. Qed.

(** * Packets that carry data for a range of addresses *)

Record carries (p : Packet) (addr size : Z) (d : list Z) : Prop := {
  ca_addr : getAddr p = Ok addr;
  ca_size : getSize p = Ok size;
  ca_data : getPtr p = Ok d;
  ca_len : size <= Z.of_nat (length d);
  ca_pos : 0 <= addr /\ 0 <= size
}.

(** The range lies in the block of [2^k] bytes at [base]. *)
Definition in_block (k base addr size : Z) : Prop :=
  base mod 2 ^ k = 0 /\ base <= addr /\ addr + size <= base + 2 ^ k.

Lemma offset_in_block k base addr size :
  0 <= k -> 0 < size -> in_block k base addr size -> Z.land addr (2 ^ k - 1) = addr - base.
Proof.
  intros Hk Hs (Hb & H1 & H2). rewrite land_ones_mod by done.
  assert (0 < 2 ^ k) by (by apply Z.pow_pos_nonneg).
  pose proof (Z.div_mod base (2 ^ k) ltac:(lia)) as E. rewrite Hb in E.
  symmetry. apply (Z.mod_unique_pos _ _ (base / 2 ^ k)); [|rewrite E at 2]; lia.
Qed.

Lemma writeDataToBlock_eq k base blk p a n d :
  0 <= k -> carries p a n d -> in_block k base a n -> 0 < n ->
  writeDataToBlock blk (2 ^ k) p = memcpy blk (a - base) d 0 n.
Proof.
  intros Hk [A S P L Q] B N. unfold writeDataToBlock, writeData, getOffset.
  rewrite A, !bind_Ok_l, (offset_in_block _ _ _ _ Hk N B), P, bind_Ok_l, S, bind_Ok_l. done.
Qed.

Lemma setDataFromBlock_eq k base blk p a n d :
  0 <= k -> carries p a n d -> in_block k base a n -> 0 < n ->
  setDataFromBlock blk (2 ^ k) p = (d' ← memcpy d 0 blk (a - base) n; Ok (with_pkt_data (Some d') p)).
Proof.
  intros Hk [A S P L Q] B N. unfold setDataFromBlock, setData, getOffset.
  rewrite A, !bind_Ok_l, (offset_in_block _ _ _ _ Hk N B), P, bind_Ok_l, S, bind_Ok_l. done.
Qed.

(** A store into a block followed by a load from it: every byte the load
    returns is the byte the store wrote, when the store covered its address,
    and the byte the block held before, when it did not.  Both copies return
    for ranges within the block. *)
Theorem block_store_load k base blk st ld a1 n1 d1 a2 n2 d2 :
  0 <= k -> Z.of_nat (length blk) = 2 ^ k ->
  carries st a1 n1 d1 -> in_block k base a1 n1 -> 0 < n1 ->
  carries ld a2 n2 d2 -> in_block k base a2 n2 -> 0 < n2 ->
  exists blk' ld' d,
    writeDataToBlock blk (2 ^ k) st = Ok blk' /\ length blk' = length blk /\
    setDataFromBlock blk' (2 ^ k) ld = Ok ld' /\ pkt_data ld' = Some d /\
    forall x, a2 <= x < a2 + n2 ->
      d !! Z.to_nat (x - a2) = if decide (a1 <= x < a1 + n1) then d1 !! Z.to_nat (x - a1)
                               else blk !! Z.to_nat (x - base).
Proof.
  intros Hk Hlen C1 B1 N1 C2 B2 N2.
  pose proof (writeDataToBlock_eq k base blk st a1 n1 d1 Hk C1 B1 N1) as E1.
  pose proof (fun blk => setDataFromBlock_eq k base blk ld a2 n2 d2 Hk C2 B2 N2) as E2.
  destruct C1 as [_ _ _ L1 [Q1 _]], C2 as [_ _ _ L2 [Q2 _]].
  destruct B1 as (_ & B1 & B1'), B2 as (_ & B2 & B2').
  destruct (memcpy_total blk (a1 - base) d1 0 n1) as [blk' HW]; [lia..|].
  destruct (memcpy_lookup _ _ _ _ _ _ HW) as (LW & _ & _ & _ & _ & _ & VW).
  destruct (memcpy_total d2 0 blk' (a2 - base) n2) as [d HR]; [lia..|].
  destruct (memcpy_lookup _ _ _ _ _ _ HR) as (_ & _ & _ & _ & _ & _ & VR).
  exists blk', (with_pkt_data (Some d) ld), d. rewrite E1, E2, HR. split_and!; [done..|].
  intros x Hx. rewrite VR, decide_True by lia. rewrite VW.
  destruct (decide (a1 <= x < a1 + n1)).
  - rewrite decide_True by lia. f_equal. lia.
  - rewrite decide_False by lia. f_equal. lia.
Qed.

(** A store of four bytes in the middle of an eight-byte block, and a load
    that overlaps it. *)
Lemma block_store_load_witness :
  exists blk' ld' d,
    writeDataToBlock [0; 1; 2; 3; 4; 5; 6; 7] 8
      (mkPacket (Z.lor (Z.lor VALID_ADDR VALID_SIZE) STATIC_DATA) WriteReq 0 (Some [10; 11; 12; 13])
         0x1002 4 0 0 InvalidCmd 0 0 0 0 0 SS_NULL 0 0 0) = Ok blk' /\
    setDataFromBlock blk' 8
      (mkPacket (Z.lor (Z.lor VALID_ADDR VALID_SIZE) STATIC_DATA) ReadReq 0 (Some [0; 0; 0; 0])
         0x1004 4 0 0 InvalidCmd 0 0 0 0 0 SS_NULL 0 0 0) = Ok ld' /\
    pkt_data ld' = Some d /\ d !! 1%nat = Some 13 /\ d !! 2%nat = Some 6.
Proof.
  destruct (block_store_load 3 0x1000 [0; 1; 2; 3; 4; 5; 6; 7]
    (mkPacket (Z.lor (Z.lor VALID_ADDR VALID_SIZE) STATIC_DATA) WriteReq 0 (Some [10; 11; 12; 13])
       0x1002 4 0 0 InvalidCmd 0 0 0 0 0 SS_NULL 0 0 0)
    (mkPacket (Z.lor (Z.lor VALID_ADDR VALID_SIZE) STATIC_DATA) ReadReq 0 (Some [0; 0; 0; 0])
       0x1004 4 0 0 InvalidCmd 0 0 0 0 0 SS_NULL 0 0 0)
    0x1002 4 [10; 11; 12; 13] 0x1004 4 [0; 0; 0; 0])
    as (blk' & ld' & d & H1 & _ & H2 & H3 & H4);
    try (constructor; vm_compute; (congruence || split; congruence));
    try (vm_compute; repeat split; congruence).
  exists blk', ld', d. split; [exact H1|]. split; [exact H2|]. split; [exact H3|]. split.
  - apply (H4 0x1005). lia.
  - apply (H4 0x1006). lia.
Defined.

(** * The functional check *)

Lemma allocate_carries p a n d : carries p a n d -> allocate p = Ok p.
Proof.
  intros [_ _ P _ _]. unfold getPtr in P. unfold allocate.
  apply bind_Ok in P as ([] & Ht & Hd). apply of_option_Ok in Hd. rewrite Hd, Ht. done.
Qed.

(** C38. [checkFunctional] of a packet against a buffered value that overlaps
    it: a read that the value covers is answered, with exactly the bytes of
    the value at its addresses; a write leaves the request unanswered and
    replaces exactly the bytes of the value that it covers, whichever way the
    two ranges overlap. *)
Theorem checkFunctional_bytes p a n d addr size bytes :
  carries p a n d -> 0 < n -> 0 <= addr -> 0 < size -> Z.of_nat (length bytes) = size ->
  a + n <= 2 ^ 64 -> addr + size <= 2 ^ 64 -> - 2 ^ 31 <= a - addr < 2 ^ 31 ->
  addr < a + n -> a < addr + size -> isPrint p = false ->
  (isRead p = true -> addr <= a -> a + n <= addr + size ->
     exists p' d', checkFunctional p addr size (Some bytes) = Ok (true, p', Some bytes) /\
       pkt_data p' = Some d' /\
       forall x, a <= x < a + n -> d' !! Z.to_nat (x - a) = bytes !! Z.to_nat (x - addr)) /\
  (isRead p = false -> isWrite p = true ->
     exists bytes', checkFunctional p addr size (Some bytes) = Ok (false, p, Some bytes') /\
       length bytes' = length bytes /\
       forall x, addr <= x < addr + size ->
         bytes' !! Z.to_nat (x - addr) = if decide (a <= x < a + n) then d !! Z.to_nat (x - a)
                                         else bytes !! Z.to_nat (x - addr)).
Proof.
  intros C N A0 Sz Hl B1 B2 B3 V1 V2 Hp. pose proof C as [CA CS CP CL [Q _]].
  unfold checkFunctional. rewrite CA, bind_Ok_l, CS, bind_Ok_l. cbv zeta. rewrite !u64_small by lia.
  destruct (Z.ltb_spec (addr + size - 1) a); [lia|]. destruct (Z.ltb_spec (a + n - 1) addr); [lia|].
  cbn [orb]. rewrite Hp, i32_small by lia. split.
  - intros Hr H1 H2. rewrite Hr. destruct (Z.leb_spec addr a); [|lia].
    destruct (Z.leb_spec (a + n - 1) (addr + size - 1)); [|lia]. cbn [andb].
    rewrite (allocate_carries _ _ _ _ C), bind_Ok_l, CP, bind_Ok_l.
    destruct (memcpy_total d 0 bytes (a - addr) n) as [d' HM]; [lia..|].
    destruct (memcpy_lookup _ _ _ _ _ _ HM) as (_ & _ & _ & _ & _ & _ & V). rewrite HM, bind_Ok_l.
    exists (with_pkt_data (Some d') p), d'. split_and!; [done..|].
    intros x Hx. rewrite V, decide_True by lia. f_equal. lia.
  - intros Hr Hw. rewrite Hr, Hw, CP, bind_Ok_l.
    assert (exists bytes', (if 0 <=? a - addr
        then memcpy bytes (a - addr) d 0 (Z.min (a + n - 1) (addr + size - 1) - a + 1)
        else memcpy bytes 0 d (- (a - addr)) (Z.min (a + n - 1) (addr + size - 1) - addr + 1)) = Ok bytes' /\
      length bytes' = length bytes /\
      forall x, addr <= x < addr + size ->
         bytes' !! Z.to_nat (x - addr) = if decide (a <= x < a + n) then d !! Z.to_nat (x - a)
                                         else bytes !! Z.to_nat (x - addr)) as (bytes' & HM & HL & HV).
    { destruct (Z.leb_spec 0 (a - addr)).
      - destruct (memcpy_total bytes (a - addr) d 0 (Z.min (a + n - 1) (addr + size - 1) - a + 1)) as [r HM]; [lia..|].
        destruct (memcpy_lookup _ _ _ _ _ _ HM) as (L & _ & _ & _ & _ & _ & V). exists r. split_and!; [done..|].
        intros x Hx. rewrite V. destruct (decide (a <= x < a + n)).
        + rewrite decide_True by lia. f_equal. lia.
        + rewrite decide_False by lia. done.
      - destruct (memcpy_total bytes 0 d (- (a - addr)) (Z.min (a + n - 1) (addr + size - 1) - addr + 1)) as [r HM]; [lia..|].
        destruct (memcpy_lookup _ _ _ _ _ _ HM) as (L & _ & _ & _ & _ & _ & V). exists r. split_and!; [done..|].
        intros x Hx. rewrite V. destruct (decide (a <= x < a + n)).
        + rewrite decide_True by lia. f_equal. lia.
        + rewrite decide_False by lia. done. }
    rewrite HM, bind_Ok_l. eauto.
Qed.

Definition fpacket (c : Command) (addr : Z) (d : list Z) : Packet :=
  mkPacket (Z.lor (Z.lor VALID_ADDR VALID_SIZE) STATIC_DATA) c 0 (Some d)
    addr (Z.of_nat (length d)) 0 0 InvalidCmd 0 0 0 0 0 SS_NULL 0 0 0.

(** A read of two bytes out of four, and a write that overlaps the front. *)
Lemma checkFunctional_bytes_witness :
  (exists p' d', checkFunctional (fpacket ReadReq 0x102 [0; 0]) 0x101 4 (Some [5; 6; 7; 8])
                 = Ok (true, p', Some [5; 6; 7; 8]) /\ pkt_data p' = Some d' /\ d' !! 0%nat = Some 6) /\
  (exists b', checkFunctional (fpacket WriteReq 0x100 [1; 2]) 0x101 4 (Some [5; 6; 7; 8])
              = Ok (false, fpacket WriteReq 0x100 [1; 2], Some b') /\ b' !! 0%nat = Some 2 /\ b' !! 1%nat = Some 6).
Proof.
  split.
  - destruct (checkFunctional_bytes (fpacket ReadReq 0x102 [0; 0]) 0x102 2 [0; 0] 0x101 4 [5; 6; 7; 8])
      as [H _]; try lia; try reflexivity; [constructor; vm_compute; (congruence || split; congruence)|].
    destruct H as (p' & d' & H1 & H2 & H3); try reflexivity; try lia.
    exists p', d'. split; [exact H1|]. split; [exact H2|]. apply (H3 0x102). lia.
  - destruct (checkFunctional_bytes (fpacket WriteReq 0x100 [1; 2]) 0x100 2 [1; 2] 0x101 4 [5; 6; 7; 8])
      as [_ H]; try lia; try reflexivity; [constructor; vm_compute; (congruence || split; congruence)|].
    destruct H as (b' & H1 & _ & H2); try reflexivity.
    exists b'. split; [exact H1|]. split; [apply (H2 0x101); lia | apply (H2 0x102); lia].
Defined.

(** The bytes of a partial overlap are undercounted by one: a functional
    read of eight bytes whose first half is in a value that starts before it
    and whose second half is in an adjacent value, so that every byte is
    known, ends in the panic for discontiguous bytes. *)
Theorem adjacent_values_panic :
  exists p1 d1,
    checkFunctional (fpacket ReadReq 0x104 [0; 0; 0; 0; 0; 0; 0; 0]) 0x100 8 (Some [1; 2; 3; 4; 5; 6; 7; 8])
      = Ok (false, p1, d1) /\
    checkFunctional p1 0x108 8 (Some [9; 10; 11; 12; 13; 14; 15; 16]) = Err Panic.
Proof. eexists _, _. split; [vm_compute; reflexivity|]. vm_compute. reflexivity. Qed.
