(* ===== verification/Blk.v ===== *)
(** The cache block of mem/cache/blk.hh: its status bits and the
    load-locked / store-conditional record. *)

From S2P Require Import Prelude Request MemCmd Packet.

Definition BlkValid : Z := 0x01.
Definition BlkWritable : Z := 0x02.
Definition BlkReadable : Z := 0x04.
Definition BlkDirty : Z := 0x08.
Definition BlkReferenced : Z := 0x10.
Definition BlkHWPrefetched : Z := 0x20.

(** [CacheBlk]; the lock list holds the context of each lock, most recent
    first. *)
Record CacheBlk := mkCacheBlk {
  blk_asid : Z;
  blk_tag : Z;
  blk_data : list Z;
  blk_size : Z;
  blk_status : Z;
  blk_whenReady : Z;
  blk_set : Z;
  blk_isTouched : bool;
  blk_refCount : Z;
  blk_srcMasterId : Z;
  blk_threadID : Z;
  blk_lockList : list Z
}.

Definition with_blk_asid (v : Z) (r : CacheBlk) : CacheBlk :=
  mkCacheBlk v (blk_tag r) (blk_data r) (blk_size r) (blk_status r)
    (blk_whenReady r) (blk_set r) (blk_isTouched r) (blk_refCount r)
    (blk_srcMasterId r) (blk_threadID r) (blk_lockList r).
Definition with_blk_tag (v : Z) (r : CacheBlk) : CacheBlk :=
  mkCacheBlk (blk_asid r) v (blk_data r) (blk_size r) (blk_status r)
    (blk_whenReady r) (blk_set r) (blk_isTouched r) (blk_refCount r)
    (blk_srcMasterId r) (blk_threadID r) (blk_lockList r).
Definition with_blk_data (v : list Z) (r : CacheBlk) : CacheBlk :=
  mkCacheBlk (blk_asid r) (blk_tag r) v (blk_size r) (blk_status r)
    (blk_whenReady r) (blk_set r) (blk_isTouched r) (blk_refCount r)
    (blk_srcMasterId r) (blk_threadID r) (blk_lockList r).
Definition with_blk_size (v : Z) (r : CacheBlk) : CacheBlk :=
  mkCacheBlk (blk_asid r) (blk_tag r) (blk_data r) v (blk_status r)
    (blk_whenReady r) (blk_set r) (blk_isTouched r) (blk_refCount r)
    (blk_srcMasterId r) (blk_threadID r) (blk_lockList r).
Definition with_blk_status (v : Z) (r : CacheBlk) : CacheBlk :=
  mkCacheBlk (blk_asid r) (blk_tag r) (blk_data r) (blk_size r) v
    (blk_whenReady r) (blk_set r) (blk_isTouched r) (blk_refCount r)
    (blk_srcMasterId r) (blk_threadID r) (blk_lockList r).
Definition with_blk_whenReady (v : Z) (r : CacheBlk) : CacheBlk :=
  mkCacheBlk (blk_asid r) (blk_tag r) (blk_data r) (blk_size r) (blk_status
    r) v (blk_set r) (blk_isTouched r) (blk_refCount r) (blk_srcMasterId r)
    (blk_threadID r) (blk_lockList r).
Definition with_blk_set (v : Z) (r : CacheBlk) : CacheBlk :=
  mkCacheBlk (blk_asid r) (blk_tag r) (blk_data r) (blk_size r) (blk_status
    r) (blk_whenReady r) v (blk_isTouched r) (blk_refCount r)
    (blk_srcMasterId r) (blk_threadID r) (blk_lockList r).
Definition with_blk_isTouched (v : bool) (r : CacheBlk) : CacheBlk :=
  mkCacheBlk (blk_asid r) (blk_tag r) (blk_data r) (blk_size r) (blk_status
    r) (blk_whenReady r) (blk_set r) v (blk_refCount r) (blk_srcMasterId r)
    (blk_threadID r) (blk_lockList r).
Definition with_blk_refCount (v : Z) (r : CacheBlk) : CacheBlk :=
  mkCacheBlk (blk_asid r) (blk_tag r) (blk_data r) (blk_size r) (blk_status
    r) (blk_whenReady r) (blk_set r) (blk_isTouched r) v (blk_srcMasterId r)
    (blk_threadID r) (blk_lockList r).
Definition with_blk_srcMasterId (v : Z) (r : CacheBlk) : CacheBlk :=
  mkCacheBlk (blk_asid r) (blk_tag r) (blk_data r) (blk_size r) (blk_status
    r) (blk_whenReady r) (blk_set r) (blk_isTouched r) (blk_refCount r) v
    (blk_threadID r) (blk_lockList r).
Definition with_blk_threadID (v : Z) (r : CacheBlk) : CacheBlk :=
  mkCacheBlk (blk_asid r) (blk_tag r) (blk_data r) (blk_size r) (blk_status
    r) (blk_whenReady r) (blk_set r) (blk_isTouched r) (blk_refCount r)
    (blk_srcMasterId r) v (blk_lockList r).
Definition with_blk_lockList (v : list Z) (r : CacheBlk) : CacheBlk :=
  mkCacheBlk (blk_asid r) (blk_tag r) (blk_data r) (blk_size r) (blk_status
    r) (blk_whenReady r) (blk_set r) (blk_isTouched r) (blk_refCount r)
    (blk_srcMasterId r) (blk_threadID r) v.

(** [CacheBlk()] *)
Definition CacheBlk_new : CacheBlk :=
  mkCacheBlk (-1) 0 [] 0 0 0 (-1) false 0 invldMasterId 0 [].

(** [operator=]: the fields it leaves alone keep the value they have in
    [lhs]. *)
Definition CacheBlk_assign (lhs rhs : CacheBlk) : CacheBlk :=
  mkCacheBlk (blk_asid rhs) (blk_tag rhs) (blk_data rhs) (blk_size rhs)
    (blk_status rhs) (blk_whenReady rhs) (blk_set rhs) (blk_isTouched lhs)
    (blk_refCount rhs) (blk_srcMasterId lhs) (blk_threadID lhs) (blk_lockList lhs).

Definition isWritable (b : CacheBlk) : bool :=
  let needed_bits := Z.lor BlkWritable BlkValid in
  Z.land (blk_status b) needed_bits =? needed_bits.

Definition isReadable (b : CacheBlk) : bool :=
  let needed_bits := Z.lor BlkReadable BlkValid in
  Z.land (blk_status b) needed_bits =? needed_bits.

Definition isValid (b : CacheBlk) : bool :=
  negb (Z.land (blk_status b) BlkValid =? 0).

Definition isDirty (b : CacheBlk) : bool :=
  negb (Z.land (blk_status b) BlkDirty =? 0).

Definition isReferenced (b : CacheBlk) : bool :=
  negb (Z.land (blk_status b) BlkReferenced =? 0).

Definition wasPrefetched (b : CacheBlk) : bool :=
  negb (Z.land (blk_status b) BlkHWPrefetched =? 0).

(** [blk->status |= bits] and [blk->status &= ~bits]. *)
Definition blk_or (bits : Z) (b : CacheBlk) : CacheBlk :=
  with_blk_status (Z.lor (blk_status b) bits) b.
Definition blk_clr (bits : Z) (b : CacheBlk) : CacheBlk :=
  with_blk_status (Z.ldiff (blk_status b) bits) b.

Definition trackLoadLocked (h : ReqHeap) (p : Packet) (b : CacheBlk) : result CacheBlk :=
  cassert (isLLSC p) ;;
  r ← req_deref h (pkt_req p);
  cid ← contextId r;
  Ok (with_blk_lockList (cid :: blk_lockList b) b).

Definition clearLoadLocks (b : CacheBlk) : CacheBlk := with_blk_lockList [] b.

(** The scan of [checkWrite]: does a lock of this request's context exist?
    [matchesContext] reads the request's context for each lock visited. *)
Fixpoint match_lock (r : Request) (locks : list Z) : result bool :=
  match locks with
  | [] => Ok false
  | l :: locks' =>
      cid ← contextId r;
      if l =? cid then Ok true else match_lock r locks'
  end.

(** [checkWrite]: may the store proceed?  A store conditional records its
    outcome in the request; every store drops the locks of the block. *)
Definition checkWrite (h : ReqHeap) (p : Packet) (b : CacheBlk)
    : result (bool * ReqHeap * CacheBlk) :=
  if isLLSC p then
    r ← req_deref h (pkt_req p);
    success ← match_lock r (blk_lockList b);
    h ← req_update h (pkt_req p) (setExtraData (Z.b2z success));
    Ok (success, h, clearLoadLocks b)
  else Ok (true, h, clearLoadLocks b).

(** * Facts about the status bits *)

Lemma isValid_testbit b : isValid b = Z.testbit (blk_status b) 0.
Proof. unfold isValid. by apply (land_pow2_testbit _ 0). Qed.

Lemma isDirty_testbit b : isDirty b = Z.testbit (blk_status b) 3.
Proof. unfold isDirty. by apply (land_pow2_testbit _ 3). Qed.

Lemma wasPrefetched_testbit b : wasPrefetched b = Z.testbit (blk_status b) 5.
Proof. unfold wasPrefetched. by apply (land_pow2_testbit _ 5). Qed.

Lemma land_two_bits a j k :
  0 <= j -> 0 <= k -> j <> k ->
  (Z.land a (Z.lor (2 ^ j) (2 ^ k)) =? Z.lor (2 ^ j) (2 ^ k))
  = Z.testbit a j && Z.testbit a k.
Proof.
  intros Hj Hk Hjk. destruct (Z.testbit a j && Z.testbit a k) eqn:E.
  - apply andb_true_iff in E as [Ej Ek]. apply Z.eqb_eq, Z.bits_inj'. intros n Hn.
    rewrite Z.land_spec, Z.lor_spec, !Z.pow2_bits_eqb by done.
    destruct (Z.eqb_spec j n), (Z.eqb_spec k n); subst;
      rewrite ?Ej, ?Ek, ?andb_false_r; done.
  - apply Z.eqb_neq. intros H. apply andb_false_iff in E.
    assert (forall i, i = j \/ i = k -> Z.testbit a i = true) as Hi.
    { intros i Hi. assert (Z.testbit (Z.land a (Z.lor (2 ^ j) (2 ^ k))) i = true) as H1.
      { rewrite H, Z.lor_spec, !Z.pow2_bits_eqb by done.
        destruct Hi as [-> | ->]; rewrite Z.eqb_refl; [done | apply orb_true_r]. }
      rewrite Z.land_spec in H1. by apply andb_true_iff in H1 as [? _]. }
    rewrite !Hi in E by auto. destruct E; discriminate.
Qed.

Lemma isWritable_testbit b :
  isWritable b = Z.testbit (blk_status b) 1 && Z.testbit (blk_status b) 0.
Proof. unfold isWritable. by apply (land_two_bits _ 1 0). Qed.

Lemma isReadable_testbit b :
  isReadable b = Z.testbit (blk_status b) 2 && Z.testbit (blk_status b) 0.
Proof. unfold isReadable. by apply (land_two_bits _ 2 0). Qed.

#[export] Hint Rewrite isValid_testbit isDirty_testbit wasPrefetched_testbit
  isWritable_testbit isReadable_testbit : cpp.

Lemma writable_valid b : isWritable b = true -> isValid b = true.
Proof. autorewrite with cpp. rewrite andb_true_iff. tauto. Qed.

Lemma readable_valid b : isReadable b = true -> isValid b = true.
Proof. autorewrite with cpp. rewrite andb_true_iff. tauto. Qed.

#[export] Hint Resolve writable_valid readable_valid : cpp.

(** * Load-locked and store-conditional *)

Lemma match_lock_spec r locks cid :
  contextId r = Ok cid -> match_lock r locks = Ok (bool_decide (cid ∈ locks)).
Proof.
  intros Hc. induction locks as [|l locks IH]; cbn; [done|].
  rewrite Hc. cbn. destruct (Z.eqb_spec l cid) as [->|Hne].
  - rewrite bool_decide_true; [done|]. left.
  - rewrite IH. f_equal. apply bool_decide_ext. rewrite elem_of_cons. naive_solver.
Qed.

(** A store conditional succeeds exactly when its context holds a lock on
    the block, the outcome is what the request carries afterwards, and no
    lock survives. *)
Lemma storeCond_iff_locked h p b r cid :
  isLLSC p = true -> h !! pkt_req p = Some r -> contextId r = Ok cid ->
  checkWrite h p b =
    Ok (bool_decide (cid ∈ blk_lockList b),
        <[pkt_req p := setExtraData (Z.b2z (bool_decide (cid ∈ blk_lockList b))) r]> h,
        clearLoadLocks b).
Proof.
  intros Hl Hr Hc. unfold checkWrite, req_deref, req_update. rewrite Hl.
  unfold req_deref. rewrite Hr. cbn. rewrite (match_lock_spec _ _ _ Hc). done.
Qed.

(** Load-locked and store-conditional: after a load-locked of a
    context, a store conditional of the same context succeeds, whatever other
    locks the block has; once any plain store to the block has passed in
    between it fails; in both cases the outcome is what the request carries
    afterwards and no lock survives. *)
Theorem ll_sc_protocol h ll sc st b b1 b2 h1 ok rl rs cid :
  isLLSC sc = true -> isLLSC st = false ->
  h !! pkt_req ll = Some rl -> contextId rl = Ok cid ->
  h !! pkt_req sc = Some rs -> contextId rs = Ok cid ->
  trackLoadLocked h ll b = Ok b1 ->
  checkWrite h st b1 = Ok (ok, h1, b2) ->
  checkWrite h sc b1 = Ok (true, <[pkt_req sc := setExtraData 1 rs]> h, clearLoadLocks b1) /\
  checkWrite h1 sc b2 = Ok (false, <[pkt_req sc := setExtraData 0 rs]> h1, clearLoadLocks b2).
Proof.
  intros Hsc Hst Hl Hcl Hs Hcs Hll Hcw.
  unfold trackLoadLocked, req_deref in Hll. rewrite Hl in Hll.
  apply bind_Ok in Hll as (? & _ & Hll). cbn in Hll. rewrite Hcl in Hll. cbn in Hll.
  injection Hll as <-. unfold checkWrite in Hcw. rewrite Hst in Hcw. injection Hcw as <- <- <-.
  split; rewrite (storeCond_iff_locked _ _ _ rs cid) by done; cbn.
  - by rewrite bool_decide_true by left.
  - done.
Qed.

(** Two requests of context 3, and a plain write. *)
Definition llsc_request : Request := mkRequest 0x40 8 0 LLSC VALID_CONTEXT_ID 0 0 0 0 3 0 0.
Definition llsc_heap : ReqHeap := {[ 0 := llsc_request; 1 := llsc_request; 2 := llsc_request ]}.
Definition locked_blk : CacheBlk := with_blk_lockList [3] CacheBlk_new.

Lemma ll_sc_protocol_witness :
  checkWrite llsc_heap (Packet_blank 1 StoreCondReq 0 0) locked_blk
    = Ok (true, <[1 := setExtraData 1 llsc_request]> llsc_heap, clearLoadLocks locked_blk) /\
  checkWrite llsc_heap (Packet_blank 1 StoreCondReq 0 0) (clearLoadLocks locked_blk)
    = Ok (false, <[1 := setExtraData 0 llsc_request]> llsc_heap, clearLoadLocks (clearLoadLocks locked_blk)).
Proof.
  apply (ll_sc_protocol llsc_heap (Packet_blank 0 LoadLockedReq 0 0) (Packet_blank 1 StoreCondReq 0 0)
    (Packet_blank 2 WriteReq 0 0) CacheBlk_new locked_blk (clearLoadLocks locked_blk) llsc_heap true
    llsc_request llsc_request 3); vm_compute; reflexivity.
Defined.
