(* ===== verification/CacheSet.v ===== *)
(** One associative set of mem/cache/tags/cacheset.hh and cacheset.cc.

    A set holds pointers into the tag store's block array, most recently
    used first.  [BlkPtr] is the index of a block in that array.  Methods of
    a [CacheSet] that the code returns by value still write through the
    shared [blks] pointer, so an update returns the new pointer array. *)

From S2P Require Import Prelude Request MemCmd Packet Blk.

Abbreviation BlkPtr := nat.
Abbreviation BlkHeap := (list CacheBlk).

Record CacheSet := mkCacheSet { cs_assoc : Z; cs_blks : list BlkPtr }.

Definition blk_deref (heap : BlkHeap) (p : BlkPtr) : result CacheBlk :=
  of_option OutOfBounds (heap !! p).

(** [blks[i]->tag == tag && blks[i]->isValid()] *)
Definition blk_matches (tag : Z) (b : CacheBlk) : bool :=
  (blk_tag b =? tag) && isValid b.

Fixpoint findBlk_loop (heap : BlkHeap) (cs : CacheSet) (tag : Z) (ixs : list Z)
    : result (option BlkPtr) :=
  match ixs with
  | [] => Ok None
  | i :: ixs' =>
      p ← arr_get (cs_blks cs) i;
      b ← blk_deref heap p;
      if blk_matches tag b then Ok (Some p) else findBlk_loop heap cs tag ixs'
  end.

Definition CacheSet_findBlk (heap : BlkHeap) (cs : CacheSet) (tag : Z)
    : result (option BlkPtr) :=
  findBlk_loop heap cs tag (zrange (cs_assoc cs)).

Fixpoint findBlkIndex_loop (heap : BlkHeap) (cs : CacheSet) (tag : Z) (ixs : list Z)
    : result Z :=
  match ixs with
  | [] => Ok 999
  | i :: ixs' =>
      p ← arr_get (cs_blks cs) i;
      b ← blk_deref heap p;
      if blk_matches tag b then Ok i else findBlkIndex_loop heap cs tag ixs'
  end.

Definition CacheSet_findBlkIndex (heap : BlkHeap) (cs : CacheSet) (tag : Z) : result Z :=
  findBlkIndex_loop heap cs tag (zrange (cs_assoc cs)).

Definition CacheSet_hasBlk (heap : BlkHeap) (cs : CacheSet) (tag : Z) : result bool :=
  o ← findBlk_loop heap cs tag (zrange (cs_assoc cs));
  Ok (match o with Some _ => true | None => false end).

(** The do-while loop of [moveToHead]: write [next] into [blks[i]] and carry
    the displaced pointer on, until the displaced pointer is [blk].  The
    assertion bounds [i], so [assoc + 1] rounds are enough fuel. *)
Fixpoint moveToHead_loop (fuel : nat) (assoc i : Z) (blk next : BlkPtr)
    (blks : list BlkPtr) : result (list BlkPtr) :=
  match fuel with
  | O => Err OutOfFuel
  | S fuel' =>
      cassert (i <? assoc) ;;
      tmp ← arr_get blks i;
      blks ← arr_set blks i next;
      if decide (tmp = blk) then Ok blks
      else moveToHead_loop fuel' assoc (i + 1) blk tmp blks
  end.

Definition CacheSet_moveToHead (cs : CacheSet) (blk : BlkPtr) : result CacheSet :=
  h ← arr_get (cs_blks cs) 0;
  if decide (h = blk) then Ok cs
  else
    l ← moveToHead_loop (S (Z.to_nat (cs_assoc cs))) (cs_assoc cs) 0 blk blk (cs_blks cs);
    Ok (mkCacheSet (cs_assoc cs) l).

(** The same loop run from the LRU end. *)
Fixpoint moveToTail_loop (fuel : nat) (i : Z) (blk next : BlkPtr)
    (blks : list BlkPtr) : result (list BlkPtr) :=
  match fuel with
  | O => Err OutOfFuel
  | S fuel' =>
      cassert (0 <=? i) ;;
      tmp ← arr_get blks i;
      blks ← arr_set blks i next;
      if decide (tmp = blk) then Ok blks
      else moveToTail_loop fuel' (i - 1) blk tmp blks
  end.

Definition CacheSet_moveToTail (cs : CacheSet) (blk : BlkPtr) : result CacheSet :=
  t ← arr_get (cs_blks cs) (cs_assoc cs - 1);
  if decide (t = blk) then Ok cs
  else
    l ← moveToTail_loop (S (Z.to_nat (cs_assoc cs))) (cs_assoc cs - 1) blk blk (cs_blks cs);
    Ok (mkCacheSet (cs_assoc cs) l).

(** * Well-formed sets *)

Record cs_wf (n : nat) (cs : CacheSet) : Prop := {
  wf_assoc : cs_assoc cs = Z.of_nat (length (cs_blks cs));
  wf_nodup : NoDup (cs_blks cs);
  wf_inrange : Forall (fun p => (p < n)%nat) (cs_blks cs)
}.

(** * [moveToHead] and [moveToTail] *)

Lemma arr_get_mid {A} (l1 l2 : list A) x :
  arr_get (l1 ++ x :: l2) (Z.of_nat (length l1)) = Ok x.
Proof.
  apply arr_get_Ok. split; [lia|]. rewrite Nat2Z.id.
  by rewrite lookup_app_r, Nat.sub_diag.
Qed.

Lemma arr_get_head {A} (x : A) l : arr_get (x :: l) 0 = Ok x.
Proof. reflexivity. Qed.

Lemma arr_set_mid {A} (l1 l2 : list A) x y :
  arr_set (l1 ++ x :: l2) (Z.of_nat (length l1)) y = Ok (l1 ++ y :: l2).
Proof.
  apply arr_set_Ok. split; [len|].
  rewrite Nat2Z.id, insert_app_r_alt, Nat.sub_diag by done. done.
Qed.

Lemma moveToHead_loop_spec blk l1 l2 : forall fuel assoc pre next,
  blk ∉ l1 -> (length l1 < fuel)%nat ->
  assoc = Z.of_nat (length (pre ++ l1 ++ blk :: l2)) ->
  moveToHead_loop fuel assoc (Z.of_nat (length pre)) blk next (pre ++ l1 ++ blk :: l2)
  = Ok (pre ++ next :: l1 ++ l2).
Proof.
  induction l1 as [|x l1 IH]; intros fuel assoc pre next Hin Hf ->;
    (destruct fuel as [|fuel]; [len|]); cbn [moveToHead_loop app].
  all: rewrite cassert_true by (len); rewrite bind_Ok_l.
  all: rewrite arr_get_mid, bind_Ok_l, arr_set_mid, bind_Ok_l.
  - by rewrite decide_True.
  - apply not_elem_of_cons in Hin as [Hx Hin]. rewrite decide_False by done.
    replace (Z.of_nat (length pre) + 1) with (Z.of_nat (length (pre ++ [next])))
      by (len).
    replace (pre ++ next :: l1 ++ blk :: l2) with ((pre ++ [next]) ++ l1 ++ blk :: l2)
      by (by rewrite <- app_assoc).
    rewrite IH; [by rewrite <- app_assoc | done | len |].
    len.
Qed.

Lemma moveToTail_loop_spec blk l1 l2 : forall fuel suf next,
  blk ∉ l2 -> (length l2 < fuel)%nat ->
  moveToTail_loop fuel (Z.of_nat (length (l1 ++ blk :: l2)) - 1) blk next
    (l1 ++ blk :: l2 ++ suf)
  = Ok (l1 ++ l2 ++ next :: suf).
Proof.
  induction l2 as [|x l2 IH] using rev_ind; intros fuel suf next Hin Hf;
    (destruct fuel as [|fuel]; [len|]);
    cbn [moveToTail_loop app].
  all: rewrite cassert_true by (len); rewrite bind_Ok_l.
  - replace (Z.of_nat (length (l1 ++ [blk])) - 1) with (Z.of_nat (length l1))
      by (len).
    rewrite arr_get_mid, bind_Ok_l, arr_set_mid, bind_Ok_l. by rewrite decide_True.
  - rewrite not_elem_of_app in Hin. destruct Hin as [Hin Hx].
    rewrite list_elem_of_singleton in Hx.
    replace (Z.of_nat (length (l1 ++ blk :: l2 ++ [x])) - 1)
      with (Z.of_nat (length (l1 ++ blk :: l2)))
      by (len).
    replace (l1 ++ blk :: (l2 ++ [x]) ++ suf) with ((l1 ++ blk :: l2) ++ x :: suf)
      by (rewrite <- !app_assoc; reflexivity).
    rewrite arr_get_mid, bind_Ok_l, arr_set_mid, bind_Ok_l.
    rewrite decide_False by congruence.
    replace ((l1 ++ blk :: l2) ++ next :: suf) with (l1 ++ blk :: l2 ++ next :: suf)
      by (rewrite <- app_assoc; done).
    rewrite IH; [by rewrite <- app_assoc | done |].
    len.
Qed.

Definition remove_ptr (blk : BlkPtr) (l : list BlkPtr) : list BlkPtr :=
  filter (fun p => p <> blk) l.

Lemma remove_ptr_notin blk l : blk ∉ l -> remove_ptr blk l = l.
Proof.
  unfold remove_ptr. induction l as [|x l IH]; [done|]. rewrite not_elem_of_cons.
  intros [Hx Hl]. rewrite filter_cons_True by congruence. by rewrite IH.
Qed.

Lemma remove_ptr_mid blk l1 l2 :
  NoDup (l1 ++ blk :: l2) -> remove_ptr blk (l1 ++ blk :: l2) = l1 ++ l2.
Proof.
  intros (Hn1 & Hd & Hn2)%NoDup_app. apply NoDup_cons in Hn2 as [Hb Hn2].
  unfold remove_ptr. rewrite filter_app, filter_cons_False by naive_solver.
  fold (remove_ptr blk l1) (remove_ptr blk l2). rewrite !remove_ptr_notin; [done | done |].
  intros Hl1. apply (Hd blk Hl1). left.
Qed.

(** [moveToHead] puts a block of the set in front and keeps the relative
    order of the others; it never trips its assertion on a block of the
    set. *)
Lemma moveToHead_spec n cs blk :
  cs_wf n cs -> blk ∈ cs_blks cs ->
  CacheSet_moveToHead cs blk =
    Ok (mkCacheSet (cs_assoc cs) (blk :: remove_ptr blk (cs_blks cs))).
Proof.
  intros [Ha Hn _] Hin. destruct cs as [a l]. cbn [cs_blks cs_assoc] in *.
  apply list_elem_of_split_l in Hin as (l1 & l2 & -> & Hl1).
  rewrite remove_ptr_mid by done. unfold CacheSet_moveToHead. cbn [cs_blks cs_assoc].
  destruct l1 as [|x l1]; cbn [app]; rewrite arr_get_head, bind_Ok_l.
  - by rewrite decide_True.
  - rewrite decide_False by set_solver.
    pose proof (moveToHead_loop_spec blk (x :: l1) l2 (S (Z.to_nat a)) a [] blk) as H.
    cbn [app length] in H. change (Z.of_nat 0) with 0 in H. rewrite H; [done | done | len | done].
Qed.

Lemma moveToTail_spec n cs blk :
  cs_wf n cs -> blk ∈ cs_blks cs ->
  CacheSet_moveToTail cs blk =
    Ok (mkCacheSet (cs_assoc cs) (remove_ptr blk (cs_blks cs) ++ [blk])).
Proof.
  intros [Ha Hn _] Hin. destruct cs as [a l]. cbn [cs_blks cs_assoc] in *.
  apply list_elem_of_split_r in Hin as (l1 & l2 & -> & Hl2).
  rewrite remove_ptr_mid by done. unfold CacheSet_moveToTail. cbn [cs_blks cs_assoc].
  subst a. destruct l2 as [|x l2 _] using rev_ind.
  - replace (Z.of_nat (length (l1 ++ [blk])) - 1) with (Z.of_nat (length l1))
      by (len).
    rewrite arr_get_mid, bind_Ok_l, decide_True by done. by rewrite app_nil_r.
  - assert (arr_get (l1 ++ blk :: l2 ++ [x])
              (Z.of_nat (length (l1 ++ blk :: l2 ++ [x])) - 1) = Ok x) as Hg.
    { rewrite <- (arr_get_mid (l1 ++ blk :: l2) [] x). rewrite <- app_assoc.
      f_equal. len. }
    assert (x <> blk) as Hx by (intros ->; apply Hl2, elem_of_app; right; left).
    rewrite Hg, bind_Ok_l, decide_False by done.
    pose proof (moveToTail_loop_spec blk l1 (l2 ++ [x])
      (S (Z.to_nat (Z.of_nat (length (l1 ++ blk :: l2 ++ [x]))))) [] blk) as H.
    rewrite app_nil_r in H. rewrite H; [rewrite bind_Ok_l, <- (app_assoc l1); done | done | len].
Qed.

(** On a pointer that is not in the set both moves run off the end of the
    array and fail their assertion. *)
Lemma moveToTail_loop_missing blk : forall fuel i next blks,
  -1 <= i < Z.of_nat (length blks) -> i + 1 < Z.of_nat fuel ->
  (forall j, 0 <= j <= i -> arr_get blks j <> Ok blk) ->
  moveToTail_loop fuel i blk next blks = Err AssertFail.
Proof.
  induction fuel as [|fuel IH]; intros i next blks Hi Hf Hj; [lia|].
  cbn. destruct (Z.leb_spec 0 i) as [H0|H0]; [|done]. cbn.
  destruct (arr_get_total blks i) as [tmp Htmp]; [lia|]. rewrite Htmp. cbn.
  destruct (arr_set_total blks i next) as [blks' Hset]; [lia|]. rewrite Hset. cbn.
  rewrite decide_False by (intros ->; by apply (Hj i); [lia|]).
  apply IH; [rewrite (arr_set_length _ _ _ _ Hset); lia | lia |].
  intros j Hj'. rewrite (arr_get_set_ne _ _ _ _ _ (ltac:(lia) : i <> j) Hset).
  apply Hj. lia.
Qed.

Lemma moveToHead_loop_missing blk : forall fuel i next blks,
  0 <= i <= Z.of_nat (length blks) -> Z.of_nat (length blks) - i < Z.of_nat fuel ->
  (forall j, i <= j -> arr_get blks j <> Ok blk) ->
  moveToHead_loop fuel (Z.of_nat (length blks)) i blk next blks = Err AssertFail.
Proof.
  induction fuel as [|fuel IH]; intros i next blks Hi Hf Hj; [lia|].
  cbn. destruct (Z.ltb_spec i (Z.of_nat (length blks))) as [H0|H0]; [|done]. cbn.
  destruct (arr_get_total blks i) as [tmp Htmp]; [lia|]. rewrite Htmp. cbn.
  destruct (arr_set_total blks i next) as [blks' Hset]; [lia|]. rewrite Hset. cbn.
  rewrite decide_False by (intros ->; by apply (Hj i); [lia|]).
  rewrite <- (arr_set_length _ _ _ _ Hset).
  apply IH; rewrite ?(arr_set_length _ _ _ _ Hset); [lia | lia |].
  intros j Hj'. rewrite (arr_get_set_ne _ _ _ _ _ (ltac:(lia) : i <> j) Hset).
  apply Hj. lia.
Qed.

Lemma arr_get_elem {A} (l : list A) i x : arr_get l i = Ok x -> x ∈ l.
Proof. intros [_ H]%arr_get_Ok. by eapply list_elem_of_lookup_2. Qed.

Lemma moveToTail_missing n cs blk :
  cs_wf n cs -> cs_blks cs <> [] -> blk ∉ cs_blks cs ->
  CacheSet_moveToTail cs blk = Err AssertFail.
Proof.
  intros [Ha _ _] Hne Hin. unfold CacheSet_moveToTail. rewrite Ha.
  assert (length (cs_blks cs) <> 0%nat) by (by destruct (cs_blks cs)).
  destruct (arr_get_total (cs_blks cs) (Z.of_nat (length (cs_blks cs)) - 1))
    as [t Ht]; [lia|].
  rewrite Ht, bind_Ok_l, decide_False by (intros ->; apply Hin; eauto using arr_get_elem).
  rewrite moveToTail_loop_missing; [done | lia | lia |].
  intros j _ Hj. eauto using arr_get_elem.
Qed.

Lemma moveToHead_missing n cs blk :
  cs_wf n cs -> cs_blks cs <> [] -> blk ∉ cs_blks cs ->
  CacheSet_moveToHead cs blk = Err AssertFail.
Proof.
  intros [Ha _ _] Hne Hin. unfold CacheSet_moveToHead. rewrite Ha.
  assert (length (cs_blks cs) <> 0%nat) by (by destruct (cs_blks cs)).
  destruct (arr_get_total (cs_blks cs) 0) as [t Ht]; [lia|].
  rewrite Ht, bind_Ok_l, decide_False by (intros ->; apply Hin; eauto using arr_get_elem).
  rewrite moveToHead_loop_missing; [done | lia | lia |].
  intros j _ Hj. eauto using arr_get_elem.
Qed.

(** * Well-formedness is kept; moves permute *)

Lemma remove_ptr_Permutation blk l : NoDup l -> blk ∈ l -> blk :: remove_ptr blk l ≡ₚ l.
Proof.
  intros Hn (l1 & l2 & ->)%list_elem_of_split. rewrite remove_ptr_mid by done.
  apply Permutation_middle.
Qed.

Lemma cs_wf_perm n cs l :
  cs_wf n cs -> l ≡ₚ cs_blks cs -> cs_wf n (mkCacheSet (cs_assoc cs) l).
Proof.
  intros [Ha Hn Hr] Hp. split; cbn.
  - by rewrite Hp.
  - by rewrite Hp.
  - by rewrite Hp.
Qed.

Lemma moveToHead_Ok n cs blk cs' :
  cs_wf n cs -> CacheSet_moveToHead cs blk = Ok cs' ->
  blk ∈ cs_blks cs /\ cs' = mkCacheSet (cs_assoc cs) (blk :: remove_ptr blk (cs_blks cs)).
Proof.
  intros Hwf H. destruct (decide (blk ∈ cs_blks cs)) as [Hin|Hin].
  - rewrite (moveToHead_spec n) in H by done. by inv_ok.
  - destruct (decide (cs_blks cs = [])) as [He|He].
    + unfold CacheSet_moveToHead in H. rewrite He in H. discriminate.
    + by rewrite (moveToHead_missing n) in H.
Qed.

Lemma moveToTail_Ok n cs blk cs' :
  cs_wf n cs -> CacheSet_moveToTail cs blk = Ok cs' ->
  blk ∈ cs_blks cs /\ cs' = mkCacheSet (cs_assoc cs) (remove_ptr blk (cs_blks cs) ++ [blk]).
Proof.
  intros Hwf H. destruct (decide (blk ∈ cs_blks cs)) as [Hin|Hin].
  - rewrite (moveToTail_spec n) in H by done. by inv_ok.
  - destruct (decide (cs_blks cs = [])) as [He|He].
    + unfold CacheSet_moveToTail in H. destruct Hwf as [Ha _ _].
      rewrite Ha, He in H. discriminate.
    + by rewrite (moveToTail_missing n) in H.
Qed.

Lemma moveToHead_wf n cs blk cs' :
  cs_wf n cs -> CacheSet_moveToHead cs blk = Ok cs' ->
  cs_wf n cs' /\ cs_blks cs' ≡ₚ cs_blks cs /\ cs_assoc cs' = cs_assoc cs.
Proof.
  intros Hwf H. destruct (moveToHead_Ok _ _ _ _ Hwf H) as [Hin ->].
  pose proof (remove_ptr_Permutation blk (cs_blks cs) (wf_nodup _ _ Hwf) Hin).
  split; [by apply cs_wf_perm | done].
Qed.

Lemma moveToTail_wf n cs blk cs' :
  cs_wf n cs -> CacheSet_moveToTail cs blk = Ok cs' ->
  cs_wf n cs' /\ cs_blks cs' ≡ₚ cs_blks cs /\ cs_assoc cs' = cs_assoc cs.
Proof.
  intros Hwf H. destruct (moveToTail_Ok _ _ _ _ Hwf H) as [Hin ->].
  assert (remove_ptr blk (cs_blks cs) ++ [blk] ≡ₚ cs_blks cs).
  { rewrite Permutation_app_comm.
    apply remove_ptr_Permutation; [apply (wf_nodup _ _ Hwf) | done]. }
  split; [by apply cs_wf_perm | done].
Qed.

(** * Lookups against a reference definition *)

(** The first pointer of the list whose block is valid and has the tag. *)
Fixpoint find_tag (heap : BlkHeap) (tag : Z) (l : list BlkPtr) : option BlkPtr :=
  match l with
  | [] => None
  | p :: l' =>
      match heap !! p with
      | Some b => if blk_matches tag b then Some p else find_tag heap tag l'
      | None => find_tag heap tag l'
      end
  end.

(** Its position, 999 when there is none. *)
Fixpoint index_of_tag (heap : BlkHeap) (tag i : Z) (l : list BlkPtr) : Z :=
  match l with
  | [] => 999
  | p :: l' =>
      match heap !! p with
      | Some b => if blk_matches tag b then i else index_of_tag heap tag (i + 1) l'
      | None => index_of_tag heap tag (i + 1) l'
      end
  end.

Lemma seqZ_S k (x : BlkPtr) l :
  seqZ k (Z.of_nat (length (x :: l))) = k :: seqZ (k + 1) (Z.of_nat (length l)).
Proof.
  rewrite seqZ_cons by (cbn [length]; lia). do 2 f_equal; cbn [length]; lia.
Qed.

Lemma Forall_deref (heap : BlkHeap) p l :
  Forall (fun p => (p < length heap)%nat) (p :: l) ->
  exists b, heap !! p = Some b /\ Forall (fun p => (p < length heap)%nat) l.
Proof.
  intros [Hp Hl]%Forall_cons. destruct (lookup_lt_is_Some_2 heap p Hp) as [b Hb]. eauto.
Qed.

Lemma findBlk_loop_spec heap cs tag : forall l pre,
  cs_blks cs = pre ++ l -> Forall (fun p => (p < length heap)%nat) l ->
  findBlk_loop heap cs tag (seqZ (Z.of_nat (length pre)) (Z.of_nat (length l)))
    = Ok (find_tag heap tag l) /\
  findBlkIndex_loop heap cs tag (seqZ (Z.of_nat (length pre)) (Z.of_nat (length l)))
    = Ok (index_of_tag heap tag (Z.of_nat (length pre)) l).
Proof.
  induction l as [|p l IH]; intros pre Hcs Hr; [done|].
  rewrite seqZ_S. cbn [findBlk_loop findBlkIndex_loop find_tag index_of_tag].
  destruct (Forall_deref _ _ _ Hr) as (b & Hb & Hr').
  rewrite Hcs, arr_get_mid, !bind_Ok_l. unfold blk_deref. rewrite Hb.
  cbn [of_option]. rewrite !bind_Ok_l.
  destruct (blk_matches tag b); [done|].
  replace (Z.of_nat (length pre) + 1) with (Z.of_nat (length (pre ++ [p]))) by len.
  apply IH; [by rewrite <- app_assoc | done].
Qed.

Lemma findBlk_spec heap cs tag :
  cs_wf (length heap) cs -> CacheSet_findBlk heap cs tag = Ok (find_tag heap tag (cs_blks cs)).
Proof.
  intros [Ha _ Hr]. unfold CacheSet_findBlk, zrange. rewrite Ha.
  by apply (findBlk_loop_spec heap cs tag (cs_blks cs) []).
Qed.

Lemma findBlkIndex_spec heap cs tag :
  cs_wf (length heap) cs ->
  CacheSet_findBlkIndex heap cs tag = Ok (index_of_tag heap tag 0 (cs_blks cs)).
Proof.
  intros [Ha _ Hr]. unfold CacheSet_findBlkIndex, zrange. rewrite Ha.
  by apply (findBlk_loop_spec heap cs tag (cs_blks cs) []).
Qed.

Lemma hasBlk_spec heap cs tag :
  cs_wf (length heap) cs ->
  CacheSet_hasBlk heap cs tag
  = Ok (bool_decide (exists p, find_tag heap tag (cs_blks cs) = Some p)).
Proof.
  intros Hwf. unfold CacheSet_hasBlk. fold (CacheSet_findBlk heap cs tag).
  rewrite findBlk_spec by done. cbn. f_equal.
  destruct (find_tag _ _ _); [by rewrite bool_decide_true by eauto|].
  rewrite bool_decide_false; [done|]. naive_solver.
Qed.

Lemma find_tag_Some heap tag l p :
  find_tag heap tag l = Some p ->
  p ∈ l /\ exists b, heap !! p = Some b /\ blk_matches tag b = true.
Proof.
  induction l as [|q l IH]; cbn; [done|]. intros H.
  destruct (heap !! q) as [b|] eqn:Hq; [destruct (blk_matches tag b) eqn:Hm|].
  - injection H as <-. split; [left | eauto].
  - destruct (IH H) as [? ?]. split; [by right | done].
  - destruct (IH H) as [? ?]. split; [by right | done].
Qed.

Lemma find_tag_None heap tag l :
  find_tag heap tag l = None <->
  forall p b, p ∈ l -> heap !! p = Some b -> blk_matches tag b = false.
Proof.
  induction l as [|q l IH]; cbn.
  { split; [|done]. intros _ p b Hp. by apply elem_of_nil in Hp. }
  split.
  - intros H p b Hp Hb.
    destruct (heap !! q) as [b'|] eqn:Hq; [destruct (blk_matches tag b') eqn:Hm|];
      try discriminate; apply elem_of_cons in Hp as [-> | Hp]; try congruence;
      by eapply IH.
  - intros H. destruct (heap !! q) as [b'|] eqn:Hq.
    + rewrite (H q b') by (done || left). apply IH. intros p b Hp. apply H. by right.
    + apply IH. intros p b Hp. apply H. by right.
Qed.

(** The lookup only reads the blocks of the list. *)
Lemma find_tag_ext heap heap' tag l :
  (forall p, p ∈ l -> heap !! p = heap' !! p) -> find_tag heap tag l = find_tag heap' tag l.
Proof.
  induction l as [|q l IH]; cbn; intros H; [done|].
  rewrite <- (H q) by left. rewrite IH; [done|]. intros p Hp. apply H. by right.
Qed.

(** At most one block of a set matches a tag. *)
Definition tags_unique (heap : BlkHeap) (l : list BlkPtr) : Prop :=
  forall p q b c tag, p ∈ l -> q ∈ l -> heap !! p = Some b -> heap !! q = Some c ->
  blk_matches tag b = true -> blk_matches tag c = true -> p = q.

Lemma find_tag_unique heap tag l p b :
  tags_unique heap l -> p ∈ l -> heap !! p = Some b -> blk_matches tag b = true ->
  find_tag heap tag l = Some p.
Proof.
  intros Hu Hp Hb Hm. destruct (find_tag heap tag l) as [q|] eqn:Hf.
  - apply find_tag_Some in Hf as (Hq & c & Hc & Hm'). f_equal. eauto.
  - rewrite find_tag_None in Hf. specialize (Hf p b Hp Hb). congruence.
Qed.

#[export] Hint Resolve moveToHead_wf moveToTail_wf : cpp.
