(* ===== verification/TagTypes.v ===== *)
(** The state of a tag store: class [LRU] of mem/cache/tags/lru.hh with
    the members of its base [BaseTags], and the extra members of the classes
    derived from it.

    The builder keeps every tag store behind an [LRU*], so a store carries
    its dynamic class ([ts_class]); the virtual [get_set] and [assoc_of_tc]
    are matches on it.  The two-dimensional [sets] array that each class
    declares is [ts_sets]; for plain [LRU], whose array is one-dimensional,
    it has one row. *)

From S2P Require Import Prelude Request MemCmd Packet Blk CacheSet.

(** Members of [C_DYNALRU]: the partition sizes and the utility monitor. *)
Record C_Ext := mkC_Ext {
  c_L_assoc : Z;
  c_H_assoc : Z;
  c_H_min : Z;
  c_umon_set : list CacheSet;
  c_umon_blks : BlkHeap;
  c_umon_counters : list Z
}.

Definition with_c_L_assoc (v : Z) (r : C_Ext) : C_Ext :=
  mkC_Ext v (c_H_assoc r) (c_H_min r) (c_umon_set r) (c_umon_blks r)
    (c_umon_counters r).
Definition with_c_H_assoc (v : Z) (r : C_Ext) : C_Ext :=
  mkC_Ext (c_L_assoc r) v (c_H_min r) (c_umon_set r) (c_umon_blks r)
    (c_umon_counters r).
Definition with_c_H_min (v : Z) (r : C_Ext) : C_Ext :=
  mkC_Ext (c_L_assoc r) (c_H_assoc r) v (c_umon_set r) (c_umon_blks r)
    (c_umon_counters r).
Definition with_c_umon_set (v : list CacheSet) (r : C_Ext) : C_Ext :=
  mkC_Ext (c_L_assoc r) (c_H_assoc r) (c_H_min r) v (c_umon_blks r)
    (c_umon_counters r).
Definition with_c_umon_blks (v : BlkHeap) (r : C_Ext) : C_Ext :=
  mkC_Ext (c_L_assoc r) (c_H_assoc r) (c_H_min r) (c_umon_set r) v
    (c_umon_counters r).
Definition with_c_umon_counters (v : list Z) (r : C_Ext) : C_Ext :=
  mkC_Ext (c_L_assoc r) (c_H_assoc r) (c_H_min r) (c_umon_set r)
    (c_umon_blks r) v.

Inductive TagClass :=
  | IsLRU
  | IsWPLRU (num_tcs : Z)
  | IsSPLRU (num_tcs : Z)
  | IsDCLRU
  | IsC_DYNALRU (ext : C_Ext)
  | IsF_DYNALRU (L_assoc H_assoc : Z).

Record TagStore := mkTagStore {
  ts_class : TagClass;
  ts_numSets : Z;
  ts_blkSize : Z;
  ts_assoc : Z;
  ts_hitLatency : Z;
  ts_setShift : Z;
  ts_tagShift : Z;
  ts_setMask : Z;
  ts_blkMask : Z;
  ts_missCounter : list Z;
  ts_blks : BlkHeap;
  ts_sets : list (list CacheSet);
  ts_numBlocks : Z;
  ts_warmupBound : Z;
  ts_warmedUp : bool;
  ts_warmupCycle : Z;
  ts_tagsInUse : Z;
  ts_replacements : Z;
  ts_totalRefs : Z;
  ts_sampledRefs : Z;
  ts_occupancies : list Z;
  ts_maxMasters : Z
}.

Definition with_ts_class (v : TagClass) (r : TagStore) : TagStore :=
  mkTagStore v (ts_numSets r) (ts_blkSize r) (ts_assoc r) (ts_hitLatency r)
    (ts_setShift r) (ts_tagShift r) (ts_setMask r) (ts_blkMask r)
    (ts_missCounter r) (ts_blks r) (ts_sets r) (ts_numBlocks r)
    (ts_warmupBound r) (ts_warmedUp r) (ts_warmupCycle r) (ts_tagsInUse r)
    (ts_replacements r) (ts_totalRefs r) (ts_sampledRefs r) (ts_occupancies
    r) (ts_maxMasters r).
Definition with_ts_numSets (v : Z) (r : TagStore) : TagStore :=
  mkTagStore (ts_class r) v (ts_blkSize r) (ts_assoc r) (ts_hitLatency r)
    (ts_setShift r) (ts_tagShift r) (ts_setMask r) (ts_blkMask r)
    (ts_missCounter r) (ts_blks r) (ts_sets r) (ts_numBlocks r)
    (ts_warmupBound r) (ts_warmedUp r) (ts_warmupCycle r) (ts_tagsInUse r)
    (ts_replacements r) (ts_totalRefs r) (ts_sampledRefs r) (ts_occupancies
    r) (ts_maxMasters r).
Definition with_ts_blkSize (v : Z) (r : TagStore) : TagStore :=
  mkTagStore (ts_class r) (ts_numSets r) v (ts_assoc r) (ts_hitLatency r)
    (ts_setShift r) (ts_tagShift r) (ts_setMask r) (ts_blkMask r)
    (ts_missCounter r) (ts_blks r) (ts_sets r) (ts_numBlocks r)
    (ts_warmupBound r) (ts_warmedUp r) (ts_warmupCycle r) (ts_tagsInUse r)
    (ts_replacements r) (ts_totalRefs r) (ts_sampledRefs r) (ts_occupancies
    r) (ts_maxMasters r).
Definition with_ts_assoc (v : Z) (r : TagStore) : TagStore :=
  mkTagStore (ts_class r) (ts_numSets r) (ts_blkSize r) v (ts_hitLatency r)
    (ts_setShift r) (ts_tagShift r) (ts_setMask r) (ts_blkMask r)
    (ts_missCounter r) (ts_blks r) (ts_sets r) (ts_numBlocks r)
    (ts_warmupBound r) (ts_warmedUp r) (ts_warmupCycle r) (ts_tagsInUse r)
    (ts_replacements r) (ts_totalRefs r) (ts_sampledRefs r) (ts_occupancies
    r) (ts_maxMasters r).
Definition with_ts_hitLatency (v : Z) (r : TagStore) : TagStore :=
  mkTagStore (ts_class r) (ts_numSets r) (ts_blkSize r) (ts_assoc r) v
    (ts_setShift r) (ts_tagShift r) (ts_setMask r) (ts_blkMask r)
    (ts_missCounter r) (ts_blks r) (ts_sets r) (ts_numBlocks r)
    (ts_warmupBound r) (ts_warmedUp r) (ts_warmupCycle r) (ts_tagsInUse r)
    (ts_replacements r) (ts_totalRefs r) (ts_sampledRefs r) (ts_occupancies
    r) (ts_maxMasters r).
Definition with_ts_setShift (v : Z) (r : TagStore) : TagStore :=
  mkTagStore (ts_class r) (ts_numSets r) (ts_blkSize r) (ts_assoc r)
    (ts_hitLatency r) v (ts_tagShift r) (ts_setMask r) (ts_blkMask r)
    (ts_missCounter r) (ts_blks r) (ts_sets r) (ts_numBlocks r)
    (ts_warmupBound r) (ts_warmedUp r) (ts_warmupCycle r) (ts_tagsInUse r)
    (ts_replacements r) (ts_totalRefs r) (ts_sampledRefs r) (ts_occupancies
    r) (ts_maxMasters r).
Definition with_ts_tagShift (v : Z) (r : TagStore) : TagStore :=
  mkTagStore (ts_class r) (ts_numSets r) (ts_blkSize r) (ts_assoc r)
    (ts_hitLatency r) (ts_setShift r) v (ts_setMask r) (ts_blkMask r)
    (ts_missCounter r) (ts_blks r) (ts_sets r) (ts_numBlocks r)
    (ts_warmupBound r) (ts_warmedUp r) (ts_warmupCycle r) (ts_tagsInUse r)
    (ts_replacements r) (ts_totalRefs r) (ts_sampledRefs r) (ts_occupancies
    r) (ts_maxMasters r).
Definition with_ts_setMask (v : Z) (r : TagStore) : TagStore :=
  mkTagStore (ts_class r) (ts_numSets r) (ts_blkSize r) (ts_assoc r)
    (ts_hitLatency r) (ts_setShift r) (ts_tagShift r) v (ts_blkMask r)
    (ts_missCounter r) (ts_blks r) (ts_sets r) (ts_numBlocks r)
    (ts_warmupBound r) (ts_warmedUp r) (ts_warmupCycle r) (ts_tagsInUse r)
    (ts_replacements r) (ts_totalRefs r) (ts_sampledRefs r) (ts_occupancies
    r) (ts_maxMasters r).
Definition with_ts_blkMask (v : Z) (r : TagStore) : TagStore :=
  mkTagStore (ts_class r) (ts_numSets r) (ts_blkSize r) (ts_assoc r)
    (ts_hitLatency r) (ts_setShift r) (ts_tagShift r) (ts_setMask r) v
    (ts_missCounter r) (ts_blks r) (ts_sets r) (ts_numBlocks r)
    (ts_warmupBound r) (ts_warmedUp r) (ts_warmupCycle r) (ts_tagsInUse r)
    (ts_replacements r) (ts_totalRefs r) (ts_sampledRefs r) (ts_occupancies
    r) (ts_maxMasters r).
Definition with_ts_missCounter (v : list Z) (r : TagStore) : TagStore :=
  mkTagStore (ts_class r) (ts_numSets r) (ts_blkSize r) (ts_assoc r)
    (ts_hitLatency r) (ts_setShift r) (ts_tagShift r) (ts_setMask r)
    (ts_blkMask r) v (ts_blks r) (ts_sets r) (ts_numBlocks r) (ts_warmupBound
    r) (ts_warmedUp r) (ts_warmupCycle r) (ts_tagsInUse r) (ts_replacements
    r) (ts_totalRefs r) (ts_sampledRefs r) (ts_occupancies r) (ts_maxMasters
    r).
Definition with_ts_blks (v : BlkHeap) (r : TagStore) : TagStore :=
  mkTagStore (ts_class r) (ts_numSets r) (ts_blkSize r) (ts_assoc r)
    (ts_hitLatency r) (ts_setShift r) (ts_tagShift r) (ts_setMask r)
    (ts_blkMask r) (ts_missCounter r) v (ts_sets r) (ts_numBlocks r)
    (ts_warmupBound r) (ts_warmedUp r) (ts_warmupCycle r) (ts_tagsInUse r)
    (ts_replacements r) (ts_totalRefs r) (ts_sampledRefs r) (ts_occupancies
    r) (ts_maxMasters r).
Definition with_ts_sets (v : list (list CacheSet)) (r : TagStore) : TagStore :=
  mkTagStore (ts_class r) (ts_numSets r) (ts_blkSize r) (ts_assoc r)
    (ts_hitLatency r) (ts_setShift r) (ts_tagShift r) (ts_setMask r)
    (ts_blkMask r) (ts_missCounter r) (ts_blks r) v (ts_numBlocks r)
    (ts_warmupBound r) (ts_warmedUp r) (ts_warmupCycle r) (ts_tagsInUse r)
    (ts_replacements r) (ts_totalRefs r) (ts_sampledRefs r) (ts_occupancies
    r) (ts_maxMasters r).
Definition with_ts_numBlocks (v : Z) (r : TagStore) : TagStore :=
  mkTagStore (ts_class r) (ts_numSets r) (ts_blkSize r) (ts_assoc r)
    (ts_hitLatency r) (ts_setShift r) (ts_tagShift r) (ts_setMask r)
    (ts_blkMask r) (ts_missCounter r) (ts_blks r) (ts_sets r) v
    (ts_warmupBound r) (ts_warmedUp r) (ts_warmupCycle r) (ts_tagsInUse r)
    (ts_replacements r) (ts_totalRefs r) (ts_sampledRefs r) (ts_occupancies
    r) (ts_maxMasters r).
Definition with_ts_warmupBound (v : Z) (r : TagStore) : TagStore :=
  mkTagStore (ts_class r) (ts_numSets r) (ts_blkSize r) (ts_assoc r)
    (ts_hitLatency r) (ts_setShift r) (ts_tagShift r) (ts_setMask r)
    (ts_blkMask r) (ts_missCounter r) (ts_blks r) (ts_sets r) (ts_numBlocks
    r) v (ts_warmedUp r) (ts_warmupCycle r) (ts_tagsInUse r) (ts_replacements
    r) (ts_totalRefs r) (ts_sampledRefs r) (ts_occupancies r) (ts_maxMasters
    r).
Definition with_ts_warmedUp (v : bool) (r : TagStore) : TagStore :=
  mkTagStore (ts_class r) (ts_numSets r) (ts_blkSize r) (ts_assoc r)
    (ts_hitLatency r) (ts_setShift r) (ts_tagShift r) (ts_setMask r)
    (ts_blkMask r) (ts_missCounter r) (ts_blks r) (ts_sets r) (ts_numBlocks
    r) (ts_warmupBound r) v (ts_warmupCycle r) (ts_tagsInUse r)
    (ts_replacements r) (ts_totalRefs r) (ts_sampledRefs r) (ts_occupancies
    r) (ts_maxMasters r).
Definition with_ts_warmupCycle (v : Z) (r : TagStore) : TagStore :=
  mkTagStore (ts_class r) (ts_numSets r) (ts_blkSize r) (ts_assoc r)
    (ts_hitLatency r) (ts_setShift r) (ts_tagShift r) (ts_setMask r)
    (ts_blkMask r) (ts_missCounter r) (ts_blks r) (ts_sets r) (ts_numBlocks
    r) (ts_warmupBound r) (ts_warmedUp r) v (ts_tagsInUse r) (ts_replacements
    r) (ts_totalRefs r) (ts_sampledRefs r) (ts_occupancies r) (ts_maxMasters
    r).
Definition with_ts_tagsInUse (v : Z) (r : TagStore) : TagStore :=
  mkTagStore (ts_class r) (ts_numSets r) (ts_blkSize r) (ts_assoc r)
    (ts_hitLatency r) (ts_setShift r) (ts_tagShift r) (ts_setMask r)
    (ts_blkMask r) (ts_missCounter r) (ts_blks r) (ts_sets r) (ts_numBlocks
    r) (ts_warmupBound r) (ts_warmedUp r) (ts_warmupCycle r) v
    (ts_replacements r) (ts_totalRefs r) (ts_sampledRefs r) (ts_occupancies
    r) (ts_maxMasters r).
Definition with_ts_replacements (v : Z) (r : TagStore) : TagStore :=
  mkTagStore (ts_class r) (ts_numSets r) (ts_blkSize r) (ts_assoc r)
    (ts_hitLatency r) (ts_setShift r) (ts_tagShift r) (ts_setMask r)
    (ts_blkMask r) (ts_missCounter r) (ts_blks r) (ts_sets r) (ts_numBlocks
    r) (ts_warmupBound r) (ts_warmedUp r) (ts_warmupCycle r) (ts_tagsInUse r)
    v (ts_totalRefs r) (ts_sampledRefs r) (ts_occupancies r) (ts_maxMasters
    r).
Definition with_ts_totalRefs (v : Z) (r : TagStore) : TagStore :=
  mkTagStore (ts_class r) (ts_numSets r) (ts_blkSize r) (ts_assoc r)
    (ts_hitLatency r) (ts_setShift r) (ts_tagShift r) (ts_setMask r)
    (ts_blkMask r) (ts_missCounter r) (ts_blks r) (ts_sets r) (ts_numBlocks
    r) (ts_warmupBound r) (ts_warmedUp r) (ts_warmupCycle r) (ts_tagsInUse r)
    (ts_replacements r) v (ts_sampledRefs r) (ts_occupancies r)
    (ts_maxMasters r).
Definition with_ts_sampledRefs (v : Z) (r : TagStore) : TagStore :=
  mkTagStore (ts_class r) (ts_numSets r) (ts_blkSize r) (ts_assoc r)
    (ts_hitLatency r) (ts_setShift r) (ts_tagShift r) (ts_setMask r)
    (ts_blkMask r) (ts_missCounter r) (ts_blks r) (ts_sets r) (ts_numBlocks
    r) (ts_warmupBound r) (ts_warmedUp r) (ts_warmupCycle r) (ts_tagsInUse r)
    (ts_replacements r) (ts_totalRefs r) v (ts_occupancies r) (ts_maxMasters
    r).
Definition with_ts_occupancies (v : list Z) (r : TagStore) : TagStore :=
  mkTagStore (ts_class r) (ts_numSets r) (ts_blkSize r) (ts_assoc r)
    (ts_hitLatency r) (ts_setShift r) (ts_tagShift r) (ts_setMask r)
    (ts_blkMask r) (ts_missCounter r) (ts_blks r) (ts_sets r) (ts_numBlocks
    r) (ts_warmupBound r) (ts_warmedUp r) (ts_warmupCycle r) (ts_tagsInUse r)
    (ts_replacements r) (ts_totalRefs r) (ts_sampledRefs r) v (ts_maxMasters
    r).
Definition with_ts_maxMasters (v : Z) (r : TagStore) : TagStore :=
  mkTagStore (ts_class r) (ts_numSets r) (ts_blkSize r) (ts_assoc r)
    (ts_hitLatency r) (ts_setShift r) (ts_tagShift r) (ts_setMask r)
    (ts_blkMask r) (ts_missCounter r) (ts_blks r) (ts_sets r) (ts_numBlocks
    r) (ts_warmupBound r) (ts_warmedUp r) (ts_warmupCycle r) (ts_tagsInUse r)
    (ts_replacements r) (ts_totalRefs r) (ts_sampledRefs r) (ts_occupancies
    r) v.

(** * The virtual [get_set] *)

(** Which element of the two-dimensional [sets] array the class selects. *)
Definition LRU_set_ix (setnum tid : Z) : Z * Z := (0, setnum).
Definition WPLRU_set_ix (setnum tid : Z) : Z * Z := (tid, setnum).
Definition SPLRU_set_ix (setnum tid : Z) : Z * Z := (setnum, tid).
Definition DCLRU_set_ix (setnum label : Z) : Z * Z := (label, setnum).
Definition C_DYNALRU_set_ix (setnum label : Z) : Z * Z := (label, setnum).
Definition F_DYNALRU_set_ix (setnum label : Z) : Z * Z := (label, setnum).

Definition set_ix (k : TagClass) (setnum tid : Z) : Z * Z :=
  match k with
  | IsLRU => LRU_set_ix setnum tid
  | IsWPLRU _ => WPLRU_set_ix setnum tid
  | IsSPLRU _ => SPLRU_set_ix setnum tid
  | IsDCLRU => DCLRU_set_ix setnum tid
  | IsC_DYNALRU _ => C_DYNALRU_set_ix setnum tid
  | IsF_DYNALRU _ _ => F_DYNALRU_set_ix setnum tid
  end.

Definition sets_get (ss : list (list CacheSet)) (ix : Z * Z) : result CacheSet :=
  row ← arr_get ss ix.1; arr_get row ix.2.

Definition sets_put (ss : list (list CacheSet)) (ix : Z * Z) (cs : CacheSet)
    : result (list (list CacheSet)) :=
  row ← arr_get ss ix.1; row ← arr_set row ix.2 cs; arr_set ss ix.1 row.

(** [get_set(setnum, tid, addr)]: a copy of the set object whose [blks]
    pointer is shared; [put_set] is a write through that pointer. *)
Definition get_set (ts : TagStore) (setnum tid : Z) : result CacheSet :=
  sets_get (ts_sets ts) (set_ix (ts_class ts) setnum tid).

Definition put_set (ts : TagStore) (setnum tid : Z) (cs : CacheSet) : result TagStore :=
  ss ← sets_put (ts_sets ts) (set_ix (ts_class ts) setnum tid) cs;
  Ok (with_ts_sets ss ts).

(** * The virtual [assoc_of_tc] *)

Definition LRU_assoc_of_tc (assoc tcid : Z) : Z := assoc.

Definition WPLRU_assoc_of_tc (assoc num_tcs tcid : Z) : Z :=
  let a := assoc / num_tcs in
  if tcid <? assoc mod num_tcs then a + 1 else a.

Definition DCLRU_assoc_of_tc (assoc tcid : Z) : Z :=
  let a := assoc / 2 in
  if tcid <? assoc mod 2 then a + 1 else a.

Definition C_DYNALRU_assoc_of_tc (e : C_Ext) (tcid : Z) : Z :=
  if tcid =? 0 then c_L_assoc e else c_H_assoc e.

Definition F_DYNALRU_assoc_of_tc (L_assoc H_assoc tcid : Z) : Z :=
  if tcid =? 0 then L_assoc else H_assoc.

Definition assoc_of_tc (ts : TagStore) (tcid : Z) : Z :=
  match ts_class ts with
  | IsLRU => LRU_assoc_of_tc (ts_assoc ts) tcid
  | IsWPLRU n => WPLRU_assoc_of_tc (ts_assoc ts) n tcid
  | IsSPLRU _ => LRU_assoc_of_tc (ts_assoc ts) tcid
  | IsDCLRU => DCLRU_assoc_of_tc (ts_assoc ts) tcid
  | IsC_DYNALRU e => C_DYNALRU_assoc_of_tc e tcid
  | IsF_DYNALRU L H => F_DYNALRU_assoc_of_tc L H tcid
  end.

(** * Blocks of a store *)

Definition ts_blk (ts : TagStore) (p : BlkPtr) : result CacheBlk :=
  blk_deref (ts_blks ts) p.

Definition ts_set_blk (ts : TagStore) (p : BlkPtr) (b : CacheBlk) : TagStore :=
  with_ts_blks (<[p := b]> (ts_blks ts)) ts.

Definition ts_upd_blk (ts : TagStore) (p : BlkPtr) (f : CacheBlk -> CacheBlk)
    : result TagStore :=
  b ← ts_blk ts p; Ok (ts_set_blk ts p (f b)).

(** * Address arithmetic (lru.hh) *)

Definition extractTag (ts : TagStore) (addr : Z) : Z := Z.shiftr addr (ts_tagShift ts).
Definition extractSet (ts : TagStore) (addr : Z) : Z :=
  Z.land (Z.shiftr addr (ts_setShift ts)) (ts_setMask ts).
Definition extractBlkOffset (ts : TagStore) (addr : Z) : Z := Z.land addr (ts_blkMask ts).
Definition blkAlign (ts : TagStore) (addr : Z) : Z := Z.ldiff addr (ts_blkMask ts).
Definition regenerateBlkAddr (ts : TagStore) (tag set : Z) : Z :=
  u64 (Z.lor (Z.shiftl tag (ts_tagShift ts)) (Z.shiftl set (ts_setShift ts))).
Definition getHitLatency (ts : TagStore) : Z := ts_hitLatency ts.
