(* ===== verification/LRU.v ===== *)
(** Class [LRU] of mem/cache/tags/lru.cc: construction and the methods the
    derived stores inherit.  They reach the sets only through [get_set] and
    [assoc_of_tc], so they are written once for every class. *)

From S2P Require Import Prelude Request MemCmd Packet Blk CacheSet IntMath TagTypes.

(** * Construction *)

(** The initialisation of one block; [tid] is the thread identifier that
    the dynamically partitioned stores also set.  The data array is fresh
    memory, 0 here. *)
Definition init_blk (blkSize set j : Z) (tid : option Z) (b : CacheBlk) : CacheBlk :=
  let b := with_blk_data (replicate (Z.to_nat blkSize) 0) b in
  let b := with_blk_tag j (with_blk_status 0 b) in
  let b := with_blk_isTouched false (with_blk_whenReady 0 b) in
  let b := with_blk_set set (with_blk_size blkSize b) in
  match tid with Some t => with_blk_threadID t b | None => b end.

(** The loop over the ways of one set: take the next block of the array,
    initialise it, link it. *)
Definition init_way (blkSize set : Z) (tid : option Z)
    (st : BlkHeap * Z * list BlkPtr) (j : Z) : result (BlkHeap * Z * list BlkPtr) :=
  let '(heap, blkIndex, ptrs) := st in
  b ← arr_get heap blkIndex;
  heap ← arr_set heap blkIndex (init_blk blkSize set j tid b);
  Ok (heap, blkIndex + 1, ptrs ++ [Z.to_nat blkIndex]).

Definition init_set (blkSize set : Z) (tid : option Z) (a : Z) (heap : BlkHeap)
    (blkIndex : Z) : result (BlkHeap * Z * CacheSet) :=
  '(heap, blkIndex, ptrs) ← foldM (init_way blkSize set tid) (heap, blkIndex, []) (zrange a);
  Ok (heap, blkIndex, mkCacheSet a ptrs).

(** A row of [n] sets; [setOf] and [aOf] give the set number and the
    associativity of the element at an index. *)
Definition init_row (blkSize : Z) (setOf aOf : Z -> Z) (tid : option Z)
    (st : BlkHeap * Z * list CacheSet) (i : Z) : result (BlkHeap * Z * list CacheSet) :=
  let '(heap, blkIndex, row) := st in
  '(heap, blkIndex, cs) ← init_set blkSize (setOf i) tid (aOf i) heap blkIndex;
  Ok (heap, blkIndex, row ++ [cs]).

(** [LRU::init_sets] *)
Definition LRU_init_sets (ts : TagStore) : result TagStore :=
  let numBlocks := u32 (ts_numSets ts * ts_assoc ts) in
  let heap := replicate (Z.to_nat numBlocks) CacheBlk_new in
  '(heap, _, row) ← foldM (init_row (ts_blkSize ts) id (fun _ => ts_assoc ts) None)
                          (heap, 0, []) (zrange (ts_numSets ts));
  Ok (with_ts_numBlocks numBlocks (with_ts_sets [row] (with_ts_blks heap ts))).

(** The fields the [LRU] constructor sets before it calls [init_sets];
    [k] is the class under construction. *)
Definition LRU_fields (k : TagClass) (numSets blkSize assoc hit_latency maxMasters : Z)
    : result TagStore :=
  if (blkSize <? 4) || negb (isPowerOf2 blkSize) then Err Fatal
  else if (numSets <=? 0) || negb (isPowerOf2 numSets) then Err Fatal
  else if assoc <=? 0 then Err Fatal
  else if hit_latency <=? 0 then Err Fatal
  else
    setShift ← floorLog2 blkSize;
    setBits ← floorLog2 numSets;
    Ok (mkTagStore k numSets blkSize assoc hit_latency setShift (setShift + setBits)
          (numSets - 1) (blkSize - 1) (replicate (Z.to_nat numSets) 0)
          [] [] 0 (u32 (numSets * assoc)) false 0 0 0 0 0
          (replicate (Z.to_nat maxMasters) 0) maxMasters).

(** [LRU::LRU]: inside a base-class constructor the call of [init_sets]
    is [LRU]'s own. *)
Definition LRU_new (numSets blkSize assoc hit_latency maxMasters : Z) : result TagStore :=
  ts ← LRU_fields IsLRU numSets blkSize assoc hit_latency maxMasters;
  LRU_init_sets ts.

(** [printMisses]: the counters are reported and cleared. *)
Definition LRU_printMisses (ts : TagStore) : list Z * TagStore :=
  (ts_missCounter ts,
   with_ts_missCounter (replicate (Z.to_nat (ts_numSets ts)) 0) ts).

(** * Lookup *)

Definition LRU_findBlock (ts : TagStore) (addr tid : Z) : result (option BlkPtr) :=
  cs ← get_set ts (extractSet ts addr) tid;
  CacheSet_findBlk (ts_blks ts) cs (extractTag ts addr).

(** [get_set(...).moveToHead(blk)] *)
Definition ts_moveToHead (ts : TagStore) (set tid : Z) (p : BlkPtr) : result TagStore :=
  cs ← get_set ts set tid; cs ← CacheSet_moveToHead cs p; put_set ts set tid cs.
Definition ts_moveToTail (ts : TagStore) (set tid : Z) (p : BlkPtr) : result TagStore :=
  cs ← get_set ts set tid; cs ← CacheSet_moveToTail cs p; put_set ts set tid cs.

(** The latency of a hit: the hit latency, or the time the block still
    needs when that is longer. *)
Definition hit_lat (ts : TagStore) (b : CacheBlk) (curTick : Z) : Z :=
  if (curTick <? blk_whenReady b) && (ts_hitLatency ts <? blk_whenReady b - curTick)
  then i32 (blk_whenReady b - curTick) else ts_hitLatency ts.

(** [blk->refCount += 1; blk->isTouched = 1] *)
Definition touch_blk (b : CacheBlk) : CacheBlk :=
  with_blk_isTouched true (with_blk_refCount (i32 (blk_refCount b + 1)) b).

(** [LRU::accessBlock(addr, lat, master_id, tid)]: the store afterwards,
    the block hit and the latency. *)
Definition LRU_accessBlock (ts : TagStore) (addr master_id tid curTick : Z)
    : result (TagStore * option BlkPtr * Z) :=
  let tag := extractTag ts addr in
  let set := extractSet ts addr in
  cs ← get_set ts set tid;
  blk ← CacheSet_findBlk (ts_blks ts) cs tag;
  match blk with
  | Some p =>
      ts ← ts_moveToHead ts set tid p;
      b ← ts_blk ts p;
      let lat := hit_lat ts b curTick in
      ts ← ts_upd_blk ts p touch_blk;
      Ok (ts, Some p, lat)
  | None =>
      n ← arr_get (ts_missCounter ts) set;
      mc ← arr_set (ts_missCounter ts) set (u32 (n + 1));
      Ok (with_ts_missCounter mc ts, None, ts_hitLatency ts)
  end.

(** * Replacement *)

(** [LRU::findVictim]: the last way of the set. *)
Definition LRU_findVictim (ts : TagStore) (addr tid : Z) : result BlkPtr :=
  cs ← get_set ts (extractSet ts addr) tid;
  arr_get (cs_blks cs) (assoc_of_tc ts tid - 1).

Definition occ_add (ts : TagStore) (master d : Z) : result TagStore :=
  cassert (master <? ts_maxMasters ts) ;;
  n ← arr_get (ts_occupancies ts) master;
  l ← arr_set (ts_occupancies ts) master (n + d);
  Ok (with_ts_occupancies l ts).

(** [if (!blk->isTouched) { tagsInUse++; ... }] of [insertBlock]. *)
Definition insert_touch (ts : TagStore) (p : BlkPtr) (b : CacheBlk) (curTick : Z) : TagStore :=
  if blk_isTouched b then ts
  else
    let ts := with_ts_tagsInUse (ts_tagsInUse ts + 1) ts in
    let ts := ts_set_blk ts p (with_blk_isTouched true b) in
    if negb (ts_warmedUp ts) && (ts_warmupBound ts <=? ts_tagsInUse ts)
    then with_ts_warmupCycle curTick (with_ts_warmedUp true ts) else ts.

(** [if (blk->isValid()) { replacements[0]++; ... }] of [insertBlock]. *)
Definition insert_evict (ts : TagStore) (p : BlkPtr) : result TagStore :=
  b ← ts_blk ts p;
  if isValid b then
    let ts := with_ts_replacements (ts_replacements ts + 1) ts in
    let ts := with_ts_totalRefs (ts_totalRefs ts + blk_refCount b) ts in
    let ts := with_ts_sampledRefs (ts_sampledRefs ts + 1) ts in
    let ts := ts_set_blk ts p (with_blk_refCount 0 b) in
    occ_add ts (blk_srcMasterId b) (-1)
  else Ok ts.

(** [LRU::insertBlock] *)
Definition LRU_insertBlock (ts : TagStore) (addr : Z) (p : BlkPtr) (master_id tid curTick : Z)
    : result TagStore :=
  b ← ts_blk ts p;
  let ts := insert_touch ts p b curTick in
  ts ← insert_evict ts p;
  ts ← ts_upd_blk ts p (fun b => with_blk_threadID (i32 tid)
                                   (with_blk_tag (extractTag ts addr) b));
  ts ← occ_add ts master_id 1;
  ts ← ts_upd_blk ts p (with_blk_srcMasterId master_id);
  ts_moveToHead ts (extractSet ts addr) tid p.

(** [status = 0; isTouched = false; clearLoadLocks()] *)
Definition reset_blk (b : CacheBlk) : CacheBlk :=
  clearLoadLocks (with_blk_isTouched false (with_blk_status 0 b)).

(** [LRU::invalidateBlk] on a block of the store; [None] is a null
    pointer. *)
Definition LRU_invalidateBlk (ts : TagStore) (op : option BlkPtr) (tid : Z) : result TagStore :=
  match op with
  | None => Ok ts
  | Some p =>
      b ← ts_blk ts p;
      ts ← (if isValid b then
              let ts := with_ts_tagsInUse (ts_tagsInUse ts - 1) ts in
              ts ← occ_add ts (blk_srcMasterId b) (-1);
              ts ← ts_upd_blk ts p (with_blk_srcMasterId invldMasterId);
              ts_moveToTail ts (blk_set b) tid p
            else Ok ts);
      ts_upd_blk ts p reset_blk
  end.

(** [LRU::clearLocks] *)
Definition LRU_clearLocks (ts : TagStore) : result TagStore :=
  heap ← foldM (fun heap i => b ← arr_get heap i; arr_set heap i (clearLoadLocks b))
               (ts_blks ts) (zrange (ts_numBlocks ts));
  Ok (with_ts_blks heap ts).

(** [LRU::cleanupRefs], over the first [n] blocks of the array. *)
Definition cleanupRefs_n (n : Z) (ts : TagStore) : result TagStore :=
  foldM (fun ts i =>
           b ← arr_get (ts_blks ts) i;
           Ok (if isValid b
               then with_ts_sampledRefs (ts_sampledRefs ts + 1)
                      (with_ts_totalRefs (ts_totalRefs ts + blk_refCount b) ts)
               else ts))
        ts (zrange n).
Definition LRU_cleanupRefs (ts : TagStore) : result TagStore :=
  cleanupRefs_n (u32 (ts_numSets ts * ts_assoc ts)) ts.
