(* ===== verification/PartLRU.v ===== *)
(** The statically partitioned tag stores: way partitioning ([WPLRU],
    mem/cache/tags/wplru.cc), set partitioning ([SPLRU], splru.cc) and the
    two-label store of the dirty cache ([DCLRU], dclru.cc). *)

From S2P Require Import Prelude Request MemCmd Packet Blk CacheSet IntMath TagTypes LRU.

(** The nested loops over the partitions and the sets of a way-partitioned
    store: [sets[tc][i]] gets [assoc_of_tc(tc)] fresh blocks.  [setTid] says
    whether the blocks are also stamped with their partition. *)
Definition init_partitions (numPart numSets blkSize : Z) (aOf : Z -> Z) (setTid : bool)
    (heap : BlkHeap) : result (BlkHeap * list (list CacheSet)) :=
  '(heap, _, rows) ← foldM
    (fun (st : BlkHeap * Z * list (list CacheSet)) tc =>
       let '(heap, blkIndex, rows) := st in
       '(heap, blkIndex, row) ←
         foldM (init_row blkSize id (fun _ => aOf tc) (if setTid then Some tc else None))
               (heap, blkIndex, []) (zrange numSets);
       Ok (heap, blkIndex, rows ++ [row]))
    (heap, 0, []) (zrange numPart);
  Ok (heap, rows).

(** * [WPLRU] *)

Definition WPLRU_init_sets (num_tcs : Z) (ts : TagStore) : result TagStore :=
  let numBlocks := u32 (ts_numSets ts * ts_assoc ts) in
  '(heap, rows) ← init_partitions num_tcs (ts_numSets ts) (ts_blkSize ts)
                    (WPLRU_assoc_of_tc (ts_assoc ts) num_tcs) false
                    (replicate (Z.to_nat numBlocks) CacheBlk_new);
  Ok (with_ts_numBlocks numBlocks (with_ts_sets rows (with_ts_blks heap ts))).

(** The base constructor has already built [LRU]'s own sets; the derived
    class's [sets] and block array replace them. *)
Definition WPLRU_new (numSets blkSize assoc hit_latency num_tcs maxMasters : Z)
    : result TagStore :=
  ts ← LRU_new numSets blkSize assoc hit_latency maxMasters;
  WPLRU_init_sets num_tcs (with_ts_class (IsWPLRU num_tcs) ts).

(** * [SPLRU] *)

Definition SPLRU_init_sets (num_tcs : Z) (ts : TagStore) : result TagStore :=
  let numBlocks := u32 (ts_numSets ts * num_tcs * ts_assoc ts) in
  '(heap, _, rows) ← foldM
    (fun (st : BlkHeap * Z * list (list CacheSet)) i =>
       let '(heap, blkIndex, rows) := st in
       '(heap, blkIndex, row) ←
         foldM (init_row (ts_blkSize ts) (fun _ => i) (fun _ => ts_assoc ts) None)
               (heap, blkIndex, []) (zrange num_tcs);
       Ok (heap, blkIndex, rows ++ [row]))
    (replicate (Z.to_nat numBlocks) CacheBlk_new, 0, []) (zrange (ts_numSets ts));
  Ok (with_ts_numBlocks numBlocks (with_ts_sets rows (with_ts_blks heap ts))).

Definition SPLRU_new (numSets blkSize assoc hit_latency num_tcs maxMasters : Z)
    : result TagStore :=
  ts ← LRU_new (numSets / num_tcs) blkSize assoc hit_latency maxMasters;
  ts ← SPLRU_init_sets num_tcs (with_ts_class (IsSPLRU num_tcs) ts);
  cassert (ts_numSets ts mod num_tcs =? 0) ;;
  Ok (with_ts_warmupBound (u32 (ts_numSets ts * num_tcs * ts_assoc ts)) ts).

Definition SPLRU_cleanupRefs (num_tcs : Z) (ts : TagStore) : result TagStore :=
  cleanupRefs_n (u32 (ts_numSets ts * num_tcs * ts_assoc ts)) ts.

(** * [DCLRU] *)

Definition DCLRU_init_sets (ts : TagStore) : result TagStore :=
  let numBlocks := u32 (ts_numSets ts * ts_assoc ts) in
  '(heap, rows) ← init_partitions 2 (ts_numSets ts) (ts_blkSize ts)
                    (DCLRU_assoc_of_tc (ts_assoc ts)) false
                    (replicate (Z.to_nat numBlocks) CacheBlk_new);
  Ok (with_ts_numBlocks numBlocks (with_ts_sets rows (with_ts_blks heap ts))).

Definition DCLRU_new (numSets blkSize assoc hit_latency maxMasters : Z) : result TagStore :=
  ts ← LRU_new numSets blkSize assoc hit_latency maxMasters;
  DCLRU_init_sets (with_ts_class IsDCLRU ts).

(** [DCLRU::findBlock(addr, readLabel, writeLabel)]: both partitions are
    searched; a low reader only gets a low block, and the four label cases
    of the code are kept apart. *)
Definition DCLRU_findBlock (ts : TagStore) (addr readLabel writeLabel : Z)
    : result (option BlkPtr) :=
  let tag := extractTag ts addr in
  let set := extractSet ts addr in
  csL ← get_set ts set 0;
  blk_L ← CacheSet_findBlk (ts_blks ts) csL tag;
  csH ← get_set ts set 1;
  blk_H ← CacheSet_findBlk (ts_blks ts) csH tag;
  if (readLabel =? 0) && (writeLabel =? 0) then
    match blk_L, blk_H with
    | Some p, _ => Ok (Some p)
    | None, Some _ => Ok None
    | None, None => Ok None
    end
  else if (readLabel =? 1) && (writeLabel =? 1) then
    match blk_L with Some p => Ok (Some p) | None => Ok blk_H end
  else if (readLabel =? 0) && (writeLabel =? 1) then
    match blk_L, blk_H with
    | Some p, _ => Ok (Some p)
    | None, Some _ => Ok None
    | None, None => Ok None
    end
  else match blk_L with Some p => Ok (Some p) | None => Ok blk_H end.

(** [DCLRU::locateBlock]: the partition a block was found in. *)
Definition DCLRU_locateBlock (ts : TagStore) (addr readLabel writeLabel : Z) : result Z :=
  if readLabel =? 1 then
    cs ← get_set ts (extractSet ts addr) 0;
    blk_L ← CacheSet_findBlk (ts_blks ts) cs (extractTag ts addr);
    match blk_L with Some _ => Ok 0 | None => Ok 1 end
  else Ok 0.

(** [DCLRU::accessBlock(addr, lat, master_id, readLabel, writeLabel)] *)
Definition DCLRU_accessBlock (ts : TagStore) (addr master_id readLabel writeLabel curTick : Z)
    : result (TagStore * option BlkPtr * Z) :=
  let set := extractSet ts addr in
  blk ← DCLRU_findBlock ts addr readLabel writeLabel;
  match blk with
  | Some p =>
      locBlk ← DCLRU_locateBlock ts addr readLabel writeLabel;
      ts ← ts_moveToHead ts set locBlk p;
      b ← ts_blk ts p;
      let lat := hit_lat ts b curTick in
      ts ← ts_upd_blk ts p (fun b => with_blk_refCount (i32 (blk_refCount b + 1)) b);
      Ok (ts, Some p, lat)
  | None => Ok (ts, None, ts_hitLatency ts)
  end.
