(* ===== verification/DynaLRU.v ===== *)
(** The dynamically partitioned tag stores: coarse grained ([C_DYNALRU],
    mem/cache/tags/c_dynalru.cc), which moves one way of every set between
    the Low and the High partition and monitors Low's utility with shadow
    tags, and fine grained ([F_DYNALRU], f_dynalru.cc).  Partition 0 is Low,
    partition 1 is High. *)

From S2P Require Import Prelude Request MemCmd Packet Blk CacheSet IntMath TagTypes LRU PartLRU.

(** * [C_DYNALRU] *)

Definition get_ext (ts : TagStore) : result C_Ext :=
  match ts_class ts with IsC_DYNALRU e => Ok e | _ => Err NullDeref end.
Definition put_ext (e : C_Ext) (ts : TagStore) : TagStore :=
  with_ts_class (IsC_DYNALRU e) ts.

(** The shadow tags: one full-associativity set of data-less blocks per
    set of the cache, all stamped with thread 0. *)
Definition init_umon (numSets assoc blkSize : Z) : result (BlkHeap * list CacheSet) :=
  '(heap, _, row) ← foldM
    (init_row blkSize id (fun _ => assoc) (Some 0))
    (replicate (Z.to_nat (u32 (numSets * assoc))) CacheBlk_new, 0, []) (zrange numSets);
  Ok (map (with_blk_data []) heap, row).

Definition C_DYNALRU_init_sets (ts : TagStore) : result TagStore :=
  e ← get_ext ts;
  let numBlocks := u32 (ts_numSets ts * ts_assoc ts) in
  '(heap, rows) ← init_partitions 2 (ts_numSets ts) (ts_blkSize ts)
                    (C_DYNALRU_assoc_of_tc e) true
                    (replicate (Z.to_nat numBlocks) CacheBlk_new);
  '(uheap, urow) ← init_umon (ts_numSets ts) (ts_assoc ts) (ts_blkSize ts);
  let e := with_c_umon_set urow (with_c_umon_blks uheap e) in
  Ok (put_ext e (with_ts_numBlocks numBlocks (with_ts_sets rows (with_ts_blks heap ts)))).

Definition C_DYNALRU_new (numSets blkSize assoc hit_latency L_assoc H_min maxMasters : Z)
    : result TagStore :=
  ts ← LRU_new numSets blkSize assoc hit_latency maxMasters;
  let e := mkC_Ext L_assoc (u32 (assoc - L_assoc)) H_min [] []
             (replicate (Z.to_nat assoc) 0) in
  C_DYNALRU_init_sets (put_ext e ts).

(** [reset_umon] *)
Definition C_DYNALRU_reset_umon (ts : TagStore) : result TagStore :=
  e ← get_ext ts;
  cnt ← foldM (fun l i => arr_set l i 0) (c_umon_counters e) (zrange (ts_assoc ts));
  Ok (put_ext (with_c_umon_counters cnt e) ts).

Definition C_DYNALRU_curr_L_assoc (ts : TagStore) : result Z :=
  e ← get_ext ts; Ok (c_L_assoc e).

(** [lookup_umon(index)]: an unchecked array read. *)
Definition C_DYNALRU_lookup_umon (ts : TagStore) (index : Z) : result Z :=
  e ← get_ext ts; arr_get (c_umon_counters e) index.

(** [for (j = 0; j < n; j++) dst[j] = src[j]] into a fresh array of [n + extra]
    pointers (the extra slots are filled next). *)
Definition copy_ptrs (src : list BlkPtr) (n : Z) : result (list BlkPtr) :=
  foldM (fun dst j => p ← arr_get src j; Ok (dst ++ [p])) [] (zrange n).

(** The body of the loop of [inc_size] for one set, with the new sizes. *)
Definition inc_size_set (L_assoc H_assoc : Z) (ss : list (list CacheSet)) (i : Z)
    : result (list (list CacheSet)) :=
  s0 ← sets_get ss (0, i);
  s1 ← sets_get ss (1, i);
  l0 ← copy_ptrs (cs_blks s0) (L_assoc - 1);
  moved ← arr_get (cs_blks s1) H_assoc;
  ss ← sets_put ss (0, i) (mkCacheSet L_assoc (l0 ++ [moved]));
  l1 ← copy_ptrs (cs_blks s1) H_assoc;
  sets_put ss (1, i) (mkCacheSet H_assoc l1).

(** [C_DYNALRU::inc_size]: grow Low by one way; the answer is 0 when High
    is already at its minimum, the number of sets otherwise. *)
Definition C_DYNALRU_inc_size (ts : TagStore) : result (TagStore * Z) :=
  e ← get_ext ts;
  if c_H_assoc e =? c_H_min e then Ok (ts, 0)
  else
    let L := u32 (c_L_assoc e + 1) in
    let H := u32 (c_H_assoc e - 1) in
    ss ← foldM (inc_size_set L H) (ts_sets ts) (zrange (ts_numSets ts));
    Ok (put_ext (with_c_L_assoc L (with_c_H_assoc H e)) (with_ts_sets ss ts), ts_numSets ts).

(** The body of the loop of [dec_size] for one set, with the new sizes. *)
Definition dec_size_set (L_assoc H_assoc : Z) (ss : list (list CacheSet)) (i : Z)
    : result (list (list CacheSet)) :=
  s1 ← sets_get ss (1, i);
  s0 ← sets_get ss (0, i);
  l1 ← copy_ptrs (cs_blks s1) (H_assoc - 1);
  moved ← arr_get (cs_blks s0) L_assoc;
  ss ← sets_put ss (1, i) (mkCacheSet H_assoc (l1 ++ [moved]));
  l0 ← copy_ptrs (cs_blks s0) L_assoc;
  sets_put ss (0, i) (mkCacheSet L_assoc l0).

(** [C_DYNALRU::dec_size]: shrink Low by one way, never below one. *)
Definition C_DYNALRU_dec_size (ts : TagStore) : result (TagStore * Z) :=
  e ← get_ext ts;
  if c_L_assoc e =? 1 then Ok (ts, 0)
  else
    let L := u32 (c_L_assoc e - 1) in
    let H := u32 (c_H_assoc e + 1) in
    ss ← foldM (dec_size_set L H) (ts_sets ts) (zrange (ts_numSets ts));
    Ok (put_ext (with_c_L_assoc L (with_c_H_assoc H e)) (with_ts_sets ss ts), ts_numSets ts).

(** [C_DYNALRU::get_evictBlk]: the way that just changed sides. *)
Definition C_DYNALRU_get_evictBlk (ts : TagStore) (tcid index : Z) : result BlkPtr :=
  e ← get_ext ts;
  if tcid =? 0 then
    cs ← sets_get (ts_sets ts) (0, index); arr_get (cs_blks cs) (u32 (c_L_assoc e - 1))
  else
    cs ← sets_get (ts_sets ts) (1, index); arr_get (cs_blks cs) (u32 (c_H_assoc e - 1)).

(** The shadow-tag update of [accessBlock] for a Low access: a hit counts
    at its stack position, a miss recycles the LRU shadow block. *)
Definition umon_access (e : C_Ext) (assoc set tag : Z) : result C_Ext :=
  us ← arr_get (c_umon_set e) set;
  umon_blk ← CacheSet_findBlk (c_umon_blks e) us tag;
  index ← CacheSet_findBlkIndex (c_umon_blks e) us tag;
  match umon_blk with
  | Some p =>
      n ← arr_get (c_umon_counters e) index;
      cnt ← arr_set (c_umon_counters e) index (u32 (n + 1));
      us ← CacheSet_moveToHead us p;
      uss ← arr_set (c_umon_set e) set us;
      Ok (with_c_umon_set uss (with_c_umon_counters cnt e))
  | None =>
      p ← arr_get (cs_blks us) (assoc - 1);
      b ← blk_deref (c_umon_blks e) p;
      let b := with_blk_status (Z.lor BlkValid BlkReadable) (with_blk_tag tag b) in
      let heap := <[p := b]> (c_umon_blks e) in
      us ← CacheSet_moveToHead us p;
      uss ← arr_set (c_umon_set e) set us;
      Ok (with_c_umon_set uss (with_c_umon_blks heap e))
  end.

(** [C_DYNALRU::accessBlock] *)
Definition C_DYNALRU_accessBlock (ts : TagStore) (addr master_id tid curTick : Z)
    : result (TagStore * option BlkPtr * Z) :=
  let tag := extractTag ts addr in
  let set := extractSet ts addr in
  '(ts, blk, lat) ← LRU_accessBlock ts addr master_id tid curTick;
  if tid =? 0 then
    e ← get_ext ts;
    e ← umon_access e (ts_assoc ts) set tag;
    Ok (put_ext e ts, blk, lat)
  else Ok (ts, blk, lat).

(** [C_DYNALRU::invalidateBlk] (hides [LRU]'s non-virtual method): a null
    pointer is dereferenced after the guarded part. *)
Definition C_DYNALRU_invalidateBlk (ts : TagStore) (op : option BlkPtr) (tid : Z)
    : result TagStore :=
  ts ← LRU_invalidateBlk ts op tid;
  p ← of_option NullDeref op;
  b ← ts_blk ts p;
  e ← get_ext ts;
  us ← arr_get (c_umon_set e) (blk_set b);
  umon_blk ← CacheSet_findBlk (c_umon_blks e) us (blk_tag b);
  match umon_blk with
  | None => Ok ts
  | Some q =>
      ub ← blk_deref (c_umon_blks e) q;
      us ← (if isValid ub then CacheSet_moveToTail us q else Ok us);
      uss ← arr_set (c_umon_set e) (blk_set b) us;
      let heap := <[q := with_blk_status 0 ub]> (c_umon_blks e) in
      ts_upd_blk (put_ext (with_c_umon_set uss (with_c_umon_blks heap e)) ts) p
        (with_blk_isTouched false)
  end.

(** * [F_DYNALRU] *)

Definition get_LH (ts : TagStore) : result (Z * Z) :=
  match ts_class ts with IsF_DYNALRU L H => Ok (L, H) | _ => Err NullDeref end.

Definition F_DYNALRU_init_sets (ts : TagStore) : result TagStore :=
  '(L, H) ← get_LH ts;
  let numBlocks := u32 (ts_numSets ts * ts_assoc ts) in
  '(heap, rows) ← init_partitions 2 (ts_numSets ts) (ts_blkSize ts)
                    (F_DYNALRU_assoc_of_tc L H) true
                    (replicate (Z.to_nat numBlocks) CacheBlk_new);
  Ok (with_ts_numBlocks numBlocks (with_ts_sets rows (with_ts_blks heap ts))).

Definition F_DYNALRU_new (numSets blkSize assoc hit_latency maxMasters : Z) : result TagStore :=
  ts ← LRU_new numSets blkSize assoc hit_latency maxMasters;
  F_DYNALRU_init_sets (with_ts_class (IsF_DYNALRU (u32 (assoc - 1)) 1) ts).

(** The backward scan of [dec_size] over the ways of one Low set: mark the
    first Low block that is valid and unused since it was marked. *)
Fixpoint mark_unused (ptrs : list BlkPtr) (heap : BlkHeap) (js : list Z) : result BlkHeap :=
  match js with
  | [] => Ok heap
  | j :: js' =>
      p ← arr_get ptrs j;
      b ← blk_deref heap p;
      if (blk_threadID b =? 0) && negb (blk_isTouched b) && isValid b
      then Ok (<[p := with_blk_threadID 1000 b]> heap)
      else mark_unused ptrs heap js'
  end.

Definition F_DYNALRU_dec_size (ts : TagStore) : result (TagStore * Z) :=
  '(L, H) ← get_LH ts;
  heap ← foldM (fun heap i =>
                  cs ← sets_get (ts_sets ts) (0, i);
                  mark_unused (cs_blks cs) heap (rev (zrange L)))
               (ts_blks ts) (zrange (ts_numSets ts));
  Ok (with_ts_blks heap ts, ts_numSets ts).

(** [F_DYNALRU::get_evictBlk]: the marked block of a Low set, unmarked. *)
Fixpoint take_marked (ptrs : list BlkPtr) (heap : BlkHeap) (js : list Z)
    : result (BlkHeap * option BlkPtr) :=
  match js with
  | [] => Ok (heap, None)
  | j :: js' =>
      p ← arr_get ptrs j;
      b ← blk_deref heap p;
      if blk_threadID b =? 1000
      then Ok (<[p := with_blk_threadID 0 b]> heap, Some p)
      else take_marked ptrs heap js'
  end.

Definition F_DYNALRU_get_evictBlk (ts : TagStore) (tcid index : Z)
    : result (TagStore * option BlkPtr) :=
  '(L, H) ← get_LH ts;
  cs ← sets_get (ts_sets ts) (0, index);
  '(heap, op) ← take_marked (cs_blks cs) (ts_blks ts) (zrange L);
  Ok (with_ts_blks heap ts, op).

(** Low searches its own partition; High searches High, then Low. *)
Definition F_DYNALRU_lookup (ts : TagStore) (addr tid : Z) : result (option BlkPtr * bool) :=
  let tag := extractTag ts addr in
  let set := extractSet ts addr in
  if tid =? 0 then
    cs ← get_set ts set 0; o ← CacheSet_findBlk (ts_blks ts) cs tag; Ok (o, false)
  else
    cs ← get_set ts set 1; o ← CacheSet_findBlk (ts_blks ts) cs tag;
    match o with
    | Some p => Ok (Some p, false)
    | None => cs ← get_set ts set 0; o ← CacheSet_findBlk (ts_blks ts) cs tag; Ok (o, true)
    end.

Definition F_DYNALRU_accessBlock (ts : TagStore) (addr master_id tid curTick : Z)
    : result (TagStore * option BlkPtr * Z) :=
  '(blk, inLow) ← (F_DYNALRU_lookup ts addr tid : result (option BlkPtr * bool));
  match blk with
  | Some p =>
      ts ← (if (inLow : bool) then Ok ts else ts_moveToHead ts (extractSet ts addr) tid p);
      b ← ts_blk ts p;
      let lat := hit_lat ts b curTick in
      ts ← ts_upd_blk ts p touch_blk;
      Ok (ts, Some p, lat)
  | None => Ok (ts, None, ts_hitLatency ts)
  end.

Definition F_DYNALRU_findBlock (ts : TagStore) (addr tid : Z) : result (option BlkPtr) :=
  '(blk, _) ← F_DYNALRU_lookup ts addr tid; Ok blk.

(** The search for an invalid High way in [F_DYNALRU::findVictim], an
    [unsigned] counter that counts down while [i >= 0]: it has no end of its
    own, and after way 0 reads the array at [UINT_MAX]. *)
Fixpoint F_victim_scan (fuel : nat) (heap : BlkHeap) (ptrs : list BlkPtr) (i : Z)
    : result BlkPtr :=
  match fuel with
  | O => Err OutOfFuel
  | S fuel' =>
      p ← arr_get ptrs i;
      b ← blk_deref heap p;
      if negb (isValid b) then Ok p else F_victim_scan fuel' heap ptrs (u32 (i - 1))
  end.

(** [F_DYNALRU::findVictim] (hides [LRU]'s non-virtual method).  When the
    scan ends, [blk] is set, so the search of the Low ways is skipped, and
    the last assignment overrides the choice. *)
Definition F_DYNALRU_findVictim (ts : TagStore) (addr tid : Z) : result BlkPtr :=
  '(L, H) ← get_LH ts;
  let set := extractSet ts addr in
  if tid =? 0 then
    cs ← get_set ts set 0; arr_get (cs_blks cs) (F_DYNALRU_assoc_of_tc L H tid - 1)
  else
    cs ← get_set ts set 1;
    _ ← F_victim_scan (S (length (cs_blks cs))) (ts_blks ts) (cs_blks cs) (u32 (H - 1));
    cs ← get_set ts set 1;
    arr_get (cs_blks cs) (F_DYNALRU_assoc_of_tc L H tid - 1).

(** [F_DYNALRU::insertBlock] (hides [LRU]'s): the block moves to the head
    only if its own partition's set finds it. *)
Definition F_DYNALRU_insertBlock (ts : TagStore) (addr : Z) (p : BlkPtr)
    (master_id tid curTick : Z) : result TagStore :=
  b ← ts_blk ts p;
  let ts := insert_touch ts p b curTick in
  ts ← insert_evict ts p;
  ts ← ts_upd_blk ts p (fun b => with_blk_threadID (i32 tid)
                                   (with_blk_tag (extractTag ts addr) b));
  ts ← occ_add ts master_id 1;
  ts ← ts_upd_blk ts p (with_blk_srcMasterId master_id);
  b ← ts_blk ts p;
  cs ← get_set ts (extractSet ts addr) tid;
  tempBlock ← CacheSet_findBlk (ts_blks ts) cs (blk_tag b);
  match tempBlock with
  | Some _ => ts_moveToHead ts (extractSet ts addr) tid p
  | None => Ok ts
  end.

(** [F_DYNALRU::invalidateBlk] (hides [LRU]'s): a High entry that sits in
    the Low partition is not moved. *)
Definition F_DYNALRU_invalidateBlk (ts : TagStore) (op : option BlkPtr) (tid : Z)
    : result TagStore :=
  match op with
  | None => Ok ts
  | Some p =>
      b ← ts_blk ts p;
      ts ← (if isValid b then
              let ts := with_ts_tagsInUse (ts_tagsInUse ts - 1) ts in
              ts ← occ_add ts (blk_srcMasterId b) (-1);
              ts ← ts_upd_blk ts p (with_blk_srcMasterId invldMasterId);
              cs ← get_set ts (blk_set b) tid;
              tempBlock ← CacheSet_findBlk (ts_blks ts) cs (blk_tag b);
              match tempBlock with
              | Some _ => ts_moveToTail ts (blk_set b) tid p
              | None => Ok ts
              end
            else Ok ts);
      ts_upd_blk ts p reset_blk
  end.
