(* ===== verification/Tags.v ===== *)
(** The tag-store interface a cache uses.  The caches are built over an
    [LRU*] (mem/cache/builder.cc), so a virtual method is a dispatch on the
    dynamic class; [findVictim], [insertBlock] and [invalidateBlk] are not
    virtual in [LRU] and are always [LRU]'s own ([LRU_findVictim],
    [LRU_insertBlock], [LRU_invalidateBlk]), whatever the derived class
    declares. *)

From S2P Require Import Prelude Request MemCmd Packet Blk CacheSet IntMath TagTypes LRU PartLRU DynaLRU.

Definition accessBlock (ts : TagStore) (addr master_id tid curTick : Z)
    : result (TagStore * option BlkPtr * Z) :=
  match ts_class ts with
  | IsC_DYNALRU _ => C_DYNALRU_accessBlock ts addr master_id tid curTick
  | IsF_DYNALRU _ _ => F_DYNALRU_accessBlock ts addr master_id tid curTick
  | _ => LRU_accessBlock ts addr master_id tid curTick
  end.

(** The two-label overloads: outside [DCLRU] they find nothing, and leave
    the latency of the caller alone. *)
Definition accessBlock_labels (ts : TagStore) (addr lat master_id readLabel writeLabel curTick : Z)
    : result (TagStore * option BlkPtr * Z) :=
  match ts_class ts with
  | IsDCLRU => DCLRU_accessBlock ts addr master_id readLabel writeLabel curTick
  | _ => Ok (ts, None, lat)
  end.

Definition findBlock (ts : TagStore) (addr tid : Z) : result (option BlkPtr) :=
  match ts_class ts with
  | IsF_DYNALRU _ _ => F_DYNALRU_findBlock ts addr tid
  | _ => LRU_findBlock ts addr tid
  end.

Definition findBlock_labels (ts : TagStore) (addr readLabel writeLabel : Z)
    : result (option BlkPtr) :=
  match ts_class ts with
  | IsDCLRU => DCLRU_findBlock ts addr readLabel writeLabel
  | _ => Ok None
  end.

Definition locateBlock (ts : TagStore) (addr readLabel writeLabel : Z) : result Z :=
  match ts_class ts with
  | IsDCLRU => DCLRU_locateBlock ts addr readLabel writeLabel
  | _ => Ok 0
  end.

Definition reset_umon (ts : TagStore) : result TagStore :=
  match ts_class ts with IsC_DYNALRU _ => C_DYNALRU_reset_umon ts | _ => Ok ts end.
Definition curr_L_assoc (ts : TagStore) : result Z :=
  match ts_class ts with IsC_DYNALRU _ => C_DYNALRU_curr_L_assoc ts | _ => Ok 0 end.
Definition lookup_umon (ts : TagStore) (index : Z) : result Z :=
  match ts_class ts with IsC_DYNALRU _ => C_DYNALRU_lookup_umon ts index | _ => Ok 0 end.
Definition inc_size (ts : TagStore) : result (TagStore * Z) :=
  match ts_class ts with IsC_DYNALRU _ => C_DYNALRU_inc_size ts | _ => Ok (ts, 0) end.
Definition dec_size (ts : TagStore) : result (TagStore * Z) :=
  match ts_class ts with
  | IsC_DYNALRU _ => C_DYNALRU_dec_size ts
  | IsF_DYNALRU _ _ => F_DYNALRU_dec_size ts
  | _ => Ok (ts, 0)
  end.
Definition get_evictBlk (ts : TagStore) (tcid index : Z) : result (TagStore * option BlkPtr) :=
  match ts_class ts with
  | IsC_DYNALRU _ => p ← C_DYNALRU_get_evictBlk ts tcid index; Ok (ts, Some p)
  | IsF_DYNALRU _ _ => F_DYNALRU_get_evictBlk ts tcid index
  | _ => Ok (ts, None)
  end.
Definition clearLocks (ts : TagStore) : result TagStore := LRU_clearLocks ts.
Definition cleanupRefs (ts : TagStore) : result TagStore :=
  match ts_class ts with
  | IsSPLRU n => SPLRU_cleanupRefs n ts
  | _ => LRU_cleanupRefs ts
  end.

(** [BUILD_LRU_CACHE] of mem/cache/builder.cc: the tag store chosen for the
    parameters, in the order of the tests. *)
Record TagParams := mkTagParams {
  tp_c_dynamic_cache : bool;
  tp_f_dynamic_cache : bool;
  tp_dirty_cache : bool;
  tp_use_way_part : bool;
  tp_use_set_part : bool;
  tp_numSets : Z;
  tp_block_size : Z;
  tp_tag_assoc : Z;
  tp_latency : Z;
  tp_L_assoc : Z;
  tp_H_min : Z;
  tp_num_tcs : Z;
  tp_maxMasters : Z
}.

Definition BUILD_LRU_CACHE (p : TagParams) : result TagStore :=
  let n := tp_numSets p in
  let b := tp_block_size p in
  let a := tp_tag_assoc p in
  let l := tp_latency p in
  let m := tp_maxMasters p in
  if tp_c_dynamic_cache p then C_DYNALRU_new n b a l (tp_L_assoc p) (tp_H_min p) m
  else if tp_f_dynamic_cache p then F_DYNALRU_new n b a l m
  else if tp_dirty_cache p then DCLRU_new n b a l m
  else if tp_use_way_part p then WPLRU_new n b a l (tp_num_tcs p) m
  else if tp_use_set_part p then SPLRU_new n b a l (tp_num_tcs p) m
  else LRU_new n b a l m.
