(* ===== verification/TagsWf.v ===== *)
(** Well-formed tag stores: the geometry of the address split, the shape of
    the sets array and the ownership of the block array, which every
    constructor establishes and every operation keeps. *)

From S2P Require Import Prelude Request MemCmd Packet Blk CacheSet IntMath TagTypes LRU PartLRU DynaLRU Tags.

(** * The sets array *)

Definition row_ptrs (row : list CacheSet) : list BlkPtr := concat (map cs_blks row).
Definition all_ptrs (ss : list (list CacheSet)) : list BlkPtr := concat (map row_ptrs ss).

Lemma sets_get_Ok ss i j cs :
  sets_get ss (i, j) = Ok cs <->
  0 <= i /\ 0 <= j /\
  exists row, ss !! Z.to_nat i = Some row /\ row !! Z.to_nat j = Some cs.
Proof.
  unfold sets_get. cbn [fst snd]. rewrite bind_Ok. setoid_rewrite arr_get_Ok. naive_solver.
Qed.

Lemma sets_put_Ok ss ss' i j cs :
  sets_put ss (i, j) cs = Ok ss' ->
  0 <= i /\ 0 <= j /\ exists row old,
    ss !! Z.to_nat i = Some row /\ row !! Z.to_nat j = Some old /\
    ss' = <[Z.to_nat i := <[Z.to_nat j := cs]> row]> ss.
Proof.
  unfold sets_put. cbn [fst snd]. intros H. inv_ok.
  apply arr_get_Ok in Hx as [Hi Hrow]. apply arr_set_Ok in Hx0 as [Hj ->].
  apply arr_set_Ok in H as [Hi' ->].
  destruct (lookup_lt_is_Some_2 x (Z.to_nat j)) as [old Hold]; [lia|]. naive_solver.
Qed.

Lemma sets_put_total ss ix cs old :
  sets_get ss ix = Ok old -> exists ss', sets_put ss ix cs = Ok ss'.
Proof.
  destruct ix as [i j]. rewrite sets_get_Ok. intros (Hi & Hj & row & Hrow & Hcs).
  unfold sets_put. cbn [fst snd].
  assert (arr_get ss i = Ok row) as -> by (apply arr_get_Ok; done).
  rewrite bind_Ok_l. apply lookup_lt_Some in Hcs, Hrow.
  destruct (arr_set_total row j cs) as [row' Hr]; [lia|]. rewrite Hr, bind_Ok_l.
  apply arr_set_total. lia.
Qed.

Lemma sets_get_put_eq ss ss' ix cs : sets_put ss ix cs = Ok ss' -> sets_get ss' ix = Ok cs.
Proof.
  destruct ix as [i j]. intros (Hi & Hj & row & old & Hr & Ho & ->)%sets_put_Ok.
  apply sets_get_Ok. repeat split; [done..|]. exists (<[Z.to_nat j:=cs]> row).
  apply lookup_lt_Some in Hr, Ho. split; apply list_lookup_insert_eq; lia.
Qed.

Lemma sets_get_put_ne ss ss' ix ix' cs :
  ix <> ix' -> sets_put ss ix cs = Ok ss' -> sets_get ss' ix' = sets_get ss ix'.
Proof.
  destruct ix as [i j], ix' as [i' j']. intros Hne (Hi & Hj & row & old & Hr & Ho & ->)%sets_put_Ok.
  unfold sets_get, arr_get. cbn [fst snd]. destruct (decide (0 <= i')); [|reflexivity].
  destruct (decide (i = i')) as [->|Hii].
  - rewrite list_lookup_insert_eq by (by eapply lookup_lt_Some). rewrite Hr. cbn.
    destruct (decide (0 <= j')); [|reflexivity]. rewrite list_lookup_insert_ne; [done|]. intros ?. apply Hne. f_equal. lia.
  - rewrite list_lookup_insert_ne by lia. done.
Qed.

Lemma all_ptrs_put ss ss' ix old cs :
  sets_get ss ix = Ok old -> sets_put ss ix cs = Ok ss' -> cs_blks cs ≡ₚ cs_blks old ->
  all_ptrs ss' ≡ₚ all_ptrs ss.
Proof.
  destruct ix as [i j]. rewrite sets_get_Ok. intros (_ & _ & row & Hr & Ho) Hput Hp.
  apply sets_put_Ok in Hput as (Hi & Hj & row' & old' & Hr' & Ho' & ->). simplify_eq.
  unfold all_ptrs. rewrite map_insert. apply concat_insert_perm with (row_ptrs row).
  - by rewrite map_lookup, Hr.
  - unfold row_ptrs. rewrite map_insert. apply concat_insert_perm with (cs_blks old); [|done].
    by rewrite map_lookup, Ho.
Qed.

Lemma all_ptrs_elem ss ix cs p : sets_get ss ix = Ok cs -> p ∈ cs_blks cs -> p ∈ all_ptrs ss.
Proof.
  destruct ix as [i j]. rewrite sets_get_Ok. intros (_ & _ & row & Hr & Ho) Hp.
  apply elem_of_concat_lookup with (Z.to_nat i) (row_ptrs row); [by rewrite map_lookup, Hr|].
  apply elem_of_concat_lookup with (Z.to_nat j) (cs_blks cs); [by rewrite map_lookup, Ho | done].
Qed.

Lemma all_ptrs_nodup ss ix cs :
  NoDup (all_ptrs ss) -> sets_get ss ix = Ok cs -> NoDup (cs_blks cs).
Proof.
  destruct ix as [i j]. rewrite sets_get_Ok. intros Hn (_ & _ & row & Hr & Ho).
  apply (NoDup_concat_lookup (map cs_blks row) (Z.to_nat j)); [|by rewrite map_lookup, Ho].
  apply (NoDup_concat_lookup (map row_ptrs ss) (Z.to_nat i)); [done|]. by rewrite map_lookup, Hr.
Qed.

(** Two different sets own different blocks. *)
Lemma all_ptrs_disjoint ss ix1 ix2 c1 c2 p :
  NoDup (all_ptrs ss) -> sets_get ss ix1 = Ok c1 -> sets_get ss ix2 = Ok c2 -> ix1 <> ix2 ->
  p ∈ cs_blks c1 -> p ∈ cs_blks c2 -> False.
Proof.
  destruct ix1 as [i1 j1], ix2 as [i2 j2]. rewrite !sets_get_Ok.
  intros Hn (Hi1 & Hj1 & r1 & Hr1 & Ho1) (Hi2 & Hj2 & r2 & Hr2 & Ho2) Hne H1 H2.
  destruct (decide (i1 = i2)) as [->|Hi].
  - assert (r1 = r2) as -> by congruence. assert (j1 <> j2) by congruence.
    apply (NoDup_concat_disjoint (map cs_blks r2) (Z.to_nat j1) (Z.to_nat j2)
             (cs_blks c1) (cs_blks c2)) with p; try done.
    + apply (NoDup_concat_lookup (map row_ptrs ss) (Z.to_nat i2)); [done|]. by rewrite map_lookup, Hr2.
    + by rewrite map_lookup, Ho1.
    + by rewrite map_lookup, Ho2.
    + lia.
  - apply (NoDup_concat_disjoint (map row_ptrs ss) (Z.to_nat i1) (Z.to_nat i2)
             (row_ptrs r1) (row_ptrs r2)) with p; try done.
    + by rewrite map_lookup, Hr1.
    + by rewrite map_lookup, Hr2.
    + lia.
    + apply elem_of_concat_lookup with (Z.to_nat j1) (cs_blks c1); [by rewrite map_lookup, Ho1 | done].
    + apply elem_of_concat_lookup with (Z.to_nat j2) (cs_blks c2); [by rewrite map_lookup, Ho2 | done].
Qed.

(** * Well-formed stores *)

(** The set number that the element of [sets] at an index stands for: the
    rows of [SPLRU] are sets, those of the other classes partitions. *)
Definition ix_set (k : TagClass) (ix : Z * Z) : Z :=
  match k with IsSPLRU _ => ix.1 | _ => ix.2 end.

Lemma ix_set_of k s t : ix_set k (set_ix k s t) = s.
Proof. by destruct k. Qed.

(** The thread identifiers a class accepts. *)
Definition valid_tid (k : TagClass) (tid : Z) : Prop :=
  match k with
  | IsLRU => True
  | IsWPLRU n | IsSPLRU n => 0 <= tid < n
  | _ => 0 <= tid < 2
  end.

(** The address split: powers of two, shifts and masks that agree. *)
Record geom_wf (ts : TagStore) : Prop := {
  g_set_bits : 0 <= ts_setShift ts <= ts_tagShift ts;
  g_blkSize : ts_blkSize ts = 2 ^ ts_setShift ts;
  g_numSets : ts_numSets ts = 2 ^ (ts_tagShift ts - ts_setShift ts);
  g_setMask : ts_setMask ts = ts_numSets ts - 1;
  g_blkMask : ts_blkMask ts = ts_blkSize ts - 1
}.

Record ts_wf (ts : TagStore) : Prop := {
  w_geom : geom_wf ts;
  w_nodup : NoDup (all_ptrs (ts_sets ts));
  w_set : forall ix cs, sets_get (ts_sets ts) ix = Ok cs ->
    cs_assoc cs = Z.of_nat (length (cs_blks cs)) /\
    forall p, p ∈ cs_blks cs ->
      exists b, ts_blks ts !! p = Some b /\ blk_set b = ix_set (ts_class ts) ix;
  w_shape : forall s t, 0 <= s < ts_numSets ts -> valid_tid (ts_class ts) t ->
    exists cs, get_set ts s t = Ok cs /\ cs_assoc cs = assoc_of_tc ts t;
  w_missCounter : Z.of_nat (length (ts_missCounter ts)) = ts_numSets ts;
  w_occupancies : length (ts_occupancies ts) = Z.to_nat (ts_maxMasters ts)
}.

Lemma ts_wf_cs ts ix cs :
  ts_wf ts -> sets_get (ts_sets ts) ix = Ok cs -> cs_wf (length (ts_blks ts)) cs.
Proof.
  intros Hwf Hg. destruct (w_set _ Hwf _ _ Hg) as [Ha Hb]. constructor; [done| |].
  - eapply all_ptrs_nodup; [apply Hwf | done].
  - apply Forall_forall. intros p Hp. destruct (Hb p Hp) as (b & Hl & _).
    by eapply lookup_lt_Some.
Qed.

Lemma extractSet_range ts addr : geom_wf ts -> 0 <= extractSet ts addr < ts_numSets ts.
Proof.
  intros G. unfold extractSet. rewrite (g_setMask _ G), (g_numSets _ G).
  pose proof (g_set_bits _ G). rewrite land_ones_mod by lia. apply Z.mod_pos_bound. lia.
Qed.

(** * What one operation may change

    Everything but the monitor of [C_DYNALRU] and the counters is either
    fixed, or belongs to one set of one partition. *)

(** The class as thread [t] sees it: the utility monitor is Low's. *)
Definition kview (t : Z) (k : TagClass) : TagClass :=
  match k with
  | IsC_DYNALRU e =>
      if t =? 0 then k
      else IsC_DYNALRU (mkC_Ext (c_L_assoc e) (c_H_assoc e) (c_H_min e) [] [] [])
  | _ => k
  end.

(** Two stores that differ at most in sets, blocks and counters, as thread
    [t] sees them. *)
Record core_eq (t : Z) (a b : TagStore) : Prop := {
  e_class : kview t (ts_class a) = kview t (ts_class b);
  e_numSets : ts_numSets a = ts_numSets b;
  e_blkSize : ts_blkSize a = ts_blkSize b;
  e_assoc : ts_assoc a = ts_assoc b;
  e_hitLatency : ts_hitLatency a = ts_hitLatency b;
  e_setShift : ts_setShift a = ts_setShift b;
  e_tagShift : ts_tagShift a = ts_tagShift b;
  e_setMask : ts_setMask a = ts_setMask b;
  e_blkMask : ts_blkMask a = ts_blkMask b;
  e_missCounter : length (ts_missCounter a) = length (ts_missCounter b);
  e_occupancies : length (ts_occupancies a) = length (ts_occupancies b);
  e_maxMasters : ts_maxMasters a = ts_maxMasters b
}.

#[global] Instance core_eq_refl t : Reflexive (core_eq t).
Proof. by constructor. Qed.
#[global] Instance core_eq_sym t : Symmetric (core_eq t).
Proof. intros a b []. by constructor. Qed.
#[global] Instance core_eq_trans t : Transitive (core_eq t).
Proof. intros a b c [] []. constructor; congruence. Qed.

Lemma kview_set_ix t k k' s u : kview t k = kview t k' -> set_ix k s u = set_ix k' s u.
Proof. destruct k, k'; cbn; try destruct (t =? 0); naive_solver. Qed.
Lemma kview_ix_set t k k' ix : kview t k = kview t k' -> ix_set k ix = ix_set k' ix.
Proof. destruct k, k'; cbn; try destruct (t =? 0); naive_solver. Qed.
Lemma kview_valid t k k' u : kview t k = kview t k' -> valid_tid k u <-> valid_tid k' u.
Proof. destruct k, k'; cbn; try destruct (t =? 0); naive_solver. Qed.
Lemma core_assoc t a b u : core_eq t a b -> assoc_of_tc a u = assoc_of_tc b u.
Proof.
  intros [Hk _ _ Ha _ _ _ _ _ _ _ _]. unfold assoc_of_tc. rewrite Ha.
  destruct (ts_class a), (ts_class b); cbn in *; try destruct (t =? 0); try naive_solver.
  unfold C_DYNALRU_assoc_of_tc. injection Hk as HL HH _. by rewrite HL, HH.
Qed.

Lemma core_geom t a b : core_eq t a b -> geom_wf a -> geom_wf b.
Proof. intros [] []. constructor; congruence. Qed.

Lemma core_extractSet t a b addr : core_eq t a b -> extractSet a addr = extractSet b addr.
Proof. intros []. unfold extractSet. congruence. Qed.
Lemma core_extractTag t a b addr : core_eq t a b -> extractTag a addr = extractTag b addr.
Proof. intros []. unfold extractTag. congruence. Qed.

(** Thread [u] worked on the set at [ix] only: its pointers are permuted,
    its blocks keep their set number, all else is untouched; only Low may have
    moved the monitor. *)
Record local_step (u : Z) (ix : Z * Z) (a b : TagStore) : Prop := {
  l_core : forall t, t <> 0 \/ u <> 0 -> core_eq t a b;
  l_sets : exists cs cs',
    sets_get (ts_sets a) ix = Ok cs /\ sets_get (ts_sets b) ix = Ok cs' /\
    cs_blks cs' ≡ₚ cs_blks cs /\ cs_assoc cs' = cs_assoc cs /\
    (forall ix', ix' <> ix -> sets_get (ts_sets b) ix' = sets_get (ts_sets a) ix') /\
    all_ptrs (ts_sets b) ≡ₚ all_ptrs (ts_sets a) /\
    (forall p, p ∉ cs_blks cs -> ts_blks b !! p = ts_blks a !! p) /\
    (forall p x, ts_blks a !! p = Some x ->
       exists y, ts_blks b !! p = Some y /\ blk_set y = blk_set x)
}.

Lemma local_step_refl u ix ts cs : sets_get (ts_sets ts) ix = Ok cs -> local_step u ix ts ts.
Proof. intros H. constructor; [done|]. exists cs, cs. naive_solver. Qed.

Lemma local_step_trans u ix a b c :
  local_step u ix a b -> local_step u ix b c -> local_step u ix a c.
Proof.
  intros [Hc1 (cs1 & cs2 & A1 & A2 & A3 & A4 & A5 & A6 & A7 & A8)]
    [Hc2 (cs2' & cs3 & B1 & B2 & B3 & B4 & B5 & B6 & B7 & B8)].
  assert (cs2' = cs2) as -> by congruence.
  constructor; [intros; etransitivity; eauto|]. exists cs1, cs3. repeat split; [done | done | | | | | |].
  - by rewrite B3.
  - congruence.
  - intros ix' Hne. rewrite B5, A5; done.
  - by rewrite B6.
  - intros p Hp. rewrite B7, A7; [done | done |]. by rewrite A3.
  - intros p x Hx. destruct (A8 _ _ Hx) as (y & Hy & <-). by apply B8.
Qed.

(** A well-formed store stays so. *)
Lemma local_step_wf u ix a b : local_step u ix a b -> ts_wf a -> ts_wf b.
Proof.
  intros [Hc (cs & cs' & A1 & A2 & A3 & A4 & A5 & A6 & A7 & A8)] Hwf.
  specialize (Hc 1 ltac:(by left)).
  assert (forall ix0 c, sets_get (ts_sets b) ix0 = Ok c -> exists c0,
    sets_get (ts_sets a) ix0 = Ok c0 /\ cs_blks c ≡ₚ cs_blks c0 /\ cs_assoc c = cs_assoc c0) as Hsets.
  { intros ix0 c Hg. destruct (decide (ix0 = ix)) as [->|Hne].
    - assert (c = cs') as -> by congruence. eauto.
    - rewrite A5 in Hg by done. eauto. }
  constructor.
  - by eapply core_geom; [|apply Hwf].
  - rewrite A6. apply Hwf.
  - intros ix0 c Hg. destruct (Hsets _ _ Hg) as (c0 & Hg0 & Hp & Ha).
    destruct (w_set _ Hwf _ _ Hg0) as [Hl Hb]. split; [by rewrite Ha, Hp|].
    intros p Hin. rewrite Hp in Hin. destruct (Hb p Hin) as (x & Hx & Hs).
    destruct (A8 _ _ Hx) as (y & Hy & Hys). exists y. split; [done|].
    rewrite Hys, Hs. apply (kview_ix_set 1), Hc.
  - intros s t Hs Ht. rewrite <- (e_numSets _ _ _ Hc) in Hs.
    apply (kview_valid 1 _ _ t (e_class _ _ _ Hc)) in Ht.
    destruct (w_shape _ Hwf s t Hs Ht) as (c & Hg & Ha). unfold get_set in *.
    rewrite (kview_set_ix 1 _ _ s t (e_class _ _ _ Hc)) in Hg.
    rewrite <- (core_assoc 1 _ _ t Hc).
    destruct (decide (set_ix (ts_class b) s t = ix)) as [Heq|Hne].
    + exists cs'. rewrite Heq in *. assert (c = cs) as -> by congruence. split; [done | congruence].
    + exists c. by rewrite A5.
  - rewrite <- (e_missCounter _ _ _ Hc), <- (e_numSets _ _ _ Hc). apply Hwf.
  - rewrite <- (e_occupancies _ _ _ Hc), <- (e_maxMasters _ _ _ Hc). apply Hwf.
Qed.

(** * Every operation is a local step *)

(** Counters and statistics only. *)
Lemma ls_counters u ix a b cs :
  sets_get (ts_sets a) ix = Ok cs -> ts_sets b = ts_sets a -> ts_blks b = ts_blks a ->
  (forall t, t <> 0 \/ u <> 0 -> core_eq t a b) -> local_step u ix a b.
Proof.
  intros Hg Hs Hb Hc. constructor; [done|]. exists cs, cs. rewrite Hs, Hb. naive_solver.
Qed.

Lemma ls_set_blk u ix ts cs p b b' :
  sets_get (ts_sets ts) ix = Ok cs -> p ∈ cs_blks cs -> ts_blks ts !! p = Some b ->
  blk_set b' = blk_set b -> local_step u ix ts (ts_set_blk ts p b').
Proof.
  intros Hg Hp Hb Hs. constructor; [intros; by constructor|]. exists cs, cs.
  repeat split; [done..| |].
  - intros q Hq. cbn. rewrite list_lookup_insert_ne; [done | by intros ->].
  - intros q x Hx. cbn. destruct (decide (p = q)) as [->|Hne].
    + rewrite list_lookup_insert_eq by (by eapply lookup_lt_Some).
      exists b'. split; [done|]. congruence.
    + rewrite list_lookup_insert_ne by done. eauto.
Qed.

Lemma ls_upd_blk u ix ts ts' cs p f :
  sets_get (ts_sets ts) ix = Ok cs -> p ∈ cs_blks cs -> (forall b, blk_set (f b) = blk_set b) ->
  ts_upd_blk ts p f = Ok ts' -> local_step u ix ts ts'.
Proof.
  intros Hg Hp Hf H. unfold ts_upd_blk, ts_blk, blk_deref in H. inv_ok.
  by eapply ls_set_blk.
Qed.

Lemma ls_put u ix ts cs cs' ts' s t :
  set_ix (ts_class ts) s t = ix ->
  get_set ts s t = Ok cs -> cs_blks cs' ≡ₚ cs_blks cs -> cs_assoc cs' = cs_assoc cs ->
  put_set ts s t cs' = Ok ts' -> local_step u ix ts ts'.
Proof.
  unfold get_set, put_set. intros -> Hg Hp Ha H. inv_ok.
  constructor; [intros; by constructor|]. exists cs, cs'.
  repeat split; [done | by eapply sets_get_put_eq | done | done | | | eauto].
  - intros ix' Hne. by eapply sets_get_put_ne.
  - by eapply all_ptrs_put.
Qed.

Lemma ls_moveToHead u ix ts ts' s t p :
  set_ix (ts_class ts) s t = ix -> ts_wf ts ->
  ts_moveToHead ts s t p = Ok ts' -> local_step u ix ts ts'.
Proof.
  intros Hix Hwf H. unfold ts_moveToHead in H. inv_ok.
  destruct (moveToHead_wf _ _ _ _ (ts_wf_cs _ _ _ Hwf Hx) Hx0) as (_ & ? & ?).
  by eapply ls_put.
Qed.

Lemma ls_moveToTail u ix ts ts' s t p :
  set_ix (ts_class ts) s t = ix -> ts_wf ts ->
  ts_moveToTail ts s t p = Ok ts' -> local_step u ix ts ts'.
Proof.
  intros Hix Hwf H. unfold ts_moveToTail in H. inv_ok.
  destruct (moveToTail_wf _ _ _ _ (ts_wf_cs _ _ _ Hwf Hx) Hx0) as (_ & ? & ?).
  by eapply ls_put.
Qed.

Lemma ls_occ_add u ix ts ts' cs m d :
  sets_get (ts_sets ts) ix = Ok cs -> occ_add ts m d = Ok ts' -> local_step u ix ts ts'.
Proof.
  intros Hg H. unfold occ_add in H. inv_ok. apply arr_set_length in Hx1.
  eapply ls_counters; [done..|]. intros t _. by constructor.
Qed.

(** A step can be followed by another on the same set. *)
Lemma ls_then u ix a b c :
  local_step u ix a b -> ts_wf a ->
  (forall cs, ts_wf b -> sets_get (ts_sets b) ix = Ok cs ->
     (forall p cs0, sets_get (ts_sets a) ix = Ok cs0 -> p ∈ cs_blks cs0 -> p ∈ cs_blks cs) ->
     local_step u ix b c) ->
  local_step u ix a c.
Proof.
  intros Hab Hwf Hk. eapply local_step_trans; [exact Hab|].
  pose proof (local_step_wf _ _ _ _ Hab Hwf) as Hwfb.
  destruct Hab as [_ (cs & cs' & A1 & A2 & A3 & _)].
  apply (Hk cs' Hwfb A2). intros p cs0 Hg Hp. assert (cs0 = cs) as -> by congruence. by rewrite A3.
Qed.


Lemma core_eq_class t a b : core_eq t a b -> t = 0 -> ts_class a = ts_class b.
Proof. intros [Hk _ _ _ _ _ _ _ _ _ _ _] ->. destruct (ts_class a), (ts_class b); cbn in Hk; congruence. Qed.

(** The set a step works on is the same set before and after it. *)
Lemma ls_same_ix u ix a b s t :
  local_step u ix a b -> set_ix (ts_class b) s t = set_ix (ts_class a) s t.
Proof. intros [Hc _]. symmetry. apply (kview_set_ix 1), Hc. by left. Qed.

Lemma ls_get_set u ix a b s t cs :
  set_ix (ts_class a) s t = ix -> local_step u ix a b -> get_set a s t = Ok cs ->
  exists cs', get_set b s t = Ok cs' /\ cs_blks cs' ≡ₚ cs_blks cs.
Proof.
  intros Hix Hl Hg. pose proof (ls_same_ix _ _ _ _ s t Hl) as He. unfold get_set in *.
  destruct Hl as [_ (c & c' & A1 & A2 & A3 & _)]. rewrite He, Hix in *.
  assert (c = cs) as -> by congruence. eauto.
Qed.

Lemma findBlk_elem ts s t cs tag p :
  ts_wf ts -> get_set ts s t = Ok cs -> CacheSet_findBlk (ts_blks ts) cs tag = Ok (Some p) ->
  p ∈ cs_blks cs.
Proof.
  intros Hwf Hg H. rewrite findBlk_spec in H by (by eapply ts_wf_cs). inv_ok.
  match goal with H : find_tag _ _ _ = Some _ |- _ => by apply find_tag_Some in H as [? _] end.
Qed.

Lemma ls_LRU_access u ts addr m t now ts' o lat :
  ts_wf ts -> LRU_accessBlock ts addr m t now = Ok (ts', o, lat) ->
  local_step u (set_ix (ts_class ts) (extractSet ts addr) t) ts ts'.
Proof.
  intros Hwf H. unfold LRU_accessBlock in H. inv_ok. rename x into cs, Hx into Hg.
  destruct x0 as [p|]; inv_ok.
  - pose proof (findBlk_elem _ _ _ _ _ _ Hwf Hg Hx0) as Hp.
    eapply ls_then; [by eapply ls_moveToHead | done |].
    intros cs' Hwf' Hg' Hin. eapply ls_upd_blk; [done | | | done]; [by eapply Hin | done].
  - apply arr_set_length in Hx1. eapply ls_counters; [done..|]. intros. by constructor.
Qed.

Lemma findVictim_elem ts addr t p :
  LRU_findVictim ts addr t = Ok p ->
  exists cs, get_set ts (extractSet ts addr) t = Ok cs /\ p ∈ cs_blks cs.
Proof. intros H. unfold LRU_findVictim in H. inv_ok. eauto using arr_get_elem. Qed.

Lemma ls_insert_touch u ix ts cs p b now :
  sets_get (ts_sets ts) ix = Ok cs -> p ∈ cs_blks cs -> ts_blks ts !! p = Some b ->
  local_step u ix ts (insert_touch ts p b now).
Proof.
  intros Hg Hp Hb. unfold insert_touch. case_goal; [by eapply local_step_refl|].
  eapply local_step_trans; [by apply (ls_set_blk u _ ts cs p b (with_blk_isTouched true b))|].
  case_goal; (eapply ls_counters; [done..|]; intros; by constructor).
Qed.

Lemma ls_insert_evict u ix ts ts' cs p :
  ts_wf ts -> sets_get (ts_sets ts) ix = Ok cs -> p ∈ cs_blks cs ->
  insert_evict ts p = Ok ts' -> local_step u ix ts ts'.
Proof.
  intros Hwf Hg Hp H. unfold insert_evict, ts_blk, blk_deref in H. inv_ok.
  case_in H; [|inv_ok; by eapply local_step_refl].
  eapply local_step_trans; [by apply (ls_set_blk u _ ts cs p x (with_blk_refCount 0 x))|].
  eapply local_step_trans; [|by eapply ls_occ_add; [|exact H]].
  eapply ls_counters; [done..|]. intros. by constructor.
Qed.

(** The last step of an operation, on the set it has worked on all along. *)
Lemma ls_final u a b c addr t (step : TagStore -> Z -> Z -> result TagStore) :
  local_step u (set_ix (ts_class a) (extractSet a addr) t) a b -> ts_wf a ->
  (forall ix, set_ix (ts_class b) (extractSet b addr) t = ix -> ts_wf b ->
     step b (extractSet b addr) t = Ok c -> local_step u ix b c) ->
  step b (extractSet b addr) t = Ok c ->
  local_step u (set_ix (ts_class a) (extractSet a addr) t) a c.
Proof.
  intros Hab Hwf Hk Hs. eapply local_step_trans; [exact Hab|].
  apply Hk; [|by eapply local_step_wf | done].
  rewrite (ls_same_ix _ _ _ _ _ _ Hab). f_equal. destruct Hab as [Hc _]. symmetry.
  apply (core_extractSet 1), Hc. by left.
Qed.

Lemma ls_insertBlock u ts addr p m t now cs ts' :
  ts_wf ts -> get_set ts (extractSet ts addr) t = Ok cs -> p ∈ cs_blks cs ->
  LRU_insertBlock ts addr p m t now = Ok ts' ->
  local_step u (set_ix (ts_class ts) (extractSet ts addr) t) ts ts'.
Proof.
  intros Hwf Hg Hp H. unfold LRU_insertBlock in H. inv_ok.
  unfold ts_blk, blk_deref in Hx. inv_ok.
  eapply (ls_final u ts x3 ts' addr t (fun b s t => ts_moveToHead b s t p)); [|done| |exact H].
  2: { intros ix Hix W. by apply ls_moveToHead. }
  eapply ls_then; [by eapply ls_insert_touch | done |]. intros c1 W1 G1 I1.
  eapply ls_then; [eapply ls_insert_evict; eauto | done |]. intros c2 W2 G2 I2.
  eapply ls_then; [eapply ls_upd_blk; [done | eauto | | exact Hx1]; done | done |]. intros c3 W3 G3 I3.
  eapply ls_then; [by eapply ls_occ_add | done |]. intros c4 W4 G4 I4.
  eapply ls_upd_blk; [done | eauto 10 | | exact Hx3]. done.
Qed.

Lemma ls_invalidate u ts p t cs s ts' :
  ts_wf ts -> get_set ts s t = Ok cs -> p ∈ cs_blks cs ->
  LRU_invalidateBlk ts (Some p) t = Ok ts' ->
  local_step u (set_ix (ts_class ts) s t) ts ts'.
Proof.
  intros Hwf Hg Hp H. cbn in H. unfold ts_blk, blk_deref in H. inv_ok.
  destruct (w_set _ Hwf _ _ Hg) as [_ Hb]. destruct (Hb p Hp) as (b & Hb' & Hs).
  rewrite ix_set_of in Hs. assert (x = b) as -> by congruence.
  apply ls_then with x0; [|done|].
  - case_in Hx0; [|inv_ok; by eapply local_step_refl]. inv_ok.
    eapply ls_then with x;
      [eapply local_step_trans; [|eapply ls_occ_add; [|exact Hx1]; done];
       eapply ls_counters; [done..|]; intros; by constructor | done |].
    intros c1 W1 G1 I1.
    eapply ls_then; [eapply ls_upd_blk; [done | eauto | | exact Hx2]; done | done |].
    intros c2 W2 G2 I2. rewrite Hs in Hx0. eapply ls_moveToTail; [|done | exact Hx0].
    unfold occ_add in Hx1. unfold ts_upd_blk, ts_blk, blk_deref in Hx2. inv_ok. done.
  - intros c1 W1 G1 I1. eapply ls_upd_blk; [done | eauto | | exact H]. done.
Qed.

(** The monitor of [C_DYNALRU] moves only for Low. *)
Lemma ls_umon ts e e' cs ix :
  ts_class ts = IsC_DYNALRU e -> sets_get (ts_sets ts) ix = Ok cs ->
  c_L_assoc e' = c_L_assoc e -> c_H_assoc e' = c_H_assoc e -> c_H_min e' = c_H_min e ->
  local_step 0 ix ts (put_ext e' ts).
Proof.
  intros Hk Hg HL HH Hm. eapply ls_counters; [done..|]. intros t [Ht|]; [|done].
  constructor; try done. cbn. rewrite Hk. cbn.
  destruct (Z.eqb_spec t 0); [done|]. congruence.
Qed.

Lemma umon_access_sizes e assoc set tag e' :
  umon_access e assoc set tag = Ok e' ->
  c_L_assoc e' = c_L_assoc e /\ c_H_assoc e' = c_H_assoc e /\ c_H_min e' = c_H_min e.
Proof.
  unfold umon_access. intros H. inv_ok. case_in H; inv_ok; done.
Qed.

(** [accessBlock] of every class but [F_DYNALRU], whose High accesses reach
    into Low's sets. *)
Definition partition_local (k : TagClass) : Prop :=
  match k with IsF_DYNALRU _ _ => False | _ => True end.

Lemma ls_access ts addr m t now ts' o lat :
  partition_local (ts_class ts) -> ts_wf ts ->
  accessBlock ts addr m t now = Ok (ts', o, lat) ->
  local_step t (set_ix (ts_class ts) (extractSet ts addr) t) ts ts'.
Proof.
  unfold accessBlock. intros Hk Hwf H. destruct (ts_class ts) eqn:Ek; try done;
    rewrite <- Ek; try (by eapply ls_LRU_access).
  unfold C_DYNALRU_accessBlock in H. inv_ok.
  pose proof (ls_LRU_access t _ _ _ _ _ _ _ _ Hwf Hx) as Hl.
  destruct (Z.eqb_spec t 0) as [->|]; inv_ok; [|done].
  eapply local_step_trans; [exact Hl|].
  destruct Hl as [_ (_ & cs' & _ & G & _)].
  unfold get_ext in Hx0. destruct (ts_class t0) eqn:Ek'; inv_ok.
  apply umon_access_sizes in Hx1 as (? & ? & ?). by eapply ls_umon.
Qed.
