(* ===== verification/TagsNew.v ===== *)
(** The constructors of the tag stores build well-formed stores: the blocks
    are handed out consecutively, each to one way of one set. *)

From S2P Require Import Prelude Request MemCmd Packet Blk CacheSet IntMath TagTypes LRU PartLRU DynaLRU Tags TagsWf.

(** Sum of a function over a list of indices. *)
Definition zsum {A} (f : A -> Z) (l : list A) : Z := foldr (fun i acc => f i + acc) 0 l.

Lemma zsum_app {A} (f : A -> Z) l1 l2 : zsum f (l1 ++ l2) = zsum f l1 + zsum f l2.
Proof. induction l1; cbn; unfold zsum in *; lia. Qed.

Lemma zsum_const {A} (c : Z) (l : list A) : zsum (fun _ => c) l = c * Z.of_nat (length l).
Proof. induction l; cbn [zsum foldr length] in *; unfold zsum in *; lia. Qed.

Lemma zsum_cons {A} (f : A -> Z) x l : zsum f (x :: l) = f x + zsum f l.
Proof. reflexivity. Qed.

Lemma zsum_rows {A B} (f : A -> Z) (inner : list B) xs :
  zsum (fun x => zsum (fun _ => f x) inner) xs = Z.of_nat (length inner) * zsum f xs.
Proof.
  induction xs as [|x xs IH]; [unfold zsum; cbn; lia|].
  rewrite !zsum_cons, IH, zsum_const. lia.
Qed.

Lemma zsum_nonneg {A} (f : A -> Z) l : (forall i, i ∈ l -> 0 <= f i) -> 0 <= zsum f l.
Proof.
  induction l as [|a l IH]; cbn; [lia|]. intros H. unfold zsum in *.
  pose proof (H a ltac:(left)). enough (0 <= foldr (fun i acc => f i + acc) 0 l) by lia.
  apply IH. intros i Hi. apply H. by right.
Qed.

Lemma zrange_snoc k : zrange (Z.of_nat (S k)) = zrange (Z.of_nat k) ++ [Z.of_nat k].
Proof.
  unfold zrange. replace (Z.of_nat (S k)) with (Z.of_nat k + 1) by lia.
  rewrite seqZ_app by lia. f_equal.
Qed.

Lemma zrange_lookup n i : 0 <= i < n -> zrange n !! Z.to_nat i = Some i.
Proof. intros H. unfold zrange. apply lookup_seqZ. lia. Qed.

Lemma length_zrange n : length (zrange n) = Z.to_nat n.
Proof. apply length_seqZ. Qed.

(** The heap above [idx] is free, below it is as in [h]. *)
Record heap_ext (idx : Z) (h h' : BlkHeap) : Prop := {
  he_length : length h' = length h;
  he_below : forall p, Z.of_nat p < idx -> h' !! p = h !! p
}.

Lemma heap_ext_trans i j h1 h2 h3 :
  i <= j -> heap_ext i h1 h2 -> heap_ext j h2 h3 -> heap_ext i h1 h3.
Proof.
  intros Hij [L1 B1] [L2 B2]. constructor; [congruence|].
  intros p Hp. rewrite B2, B1 by lia. done.
Qed.

(** A set just built: [a] ways, all invalid, all numbered [s]. *)
Definition set_built (h : BlkHeap) (s a : Z) (cs : CacheSet) : Prop :=
  cs_assoc cs = a /\ a = Z.of_nat (length (cs_blks cs)) /\
  forall p, p ∈ cs_blks cs -> exists b, h !! p = Some b /\ blk_set b = s /\ blk_status b = 0.

Lemma set_built_ext idx h h' s a cs :
  heap_ext idx h h' -> (forall p, p ∈ cs_blks cs -> Z.of_nat p < idx) ->
  set_built h s a cs -> set_built h' s a cs.
Proof.
  intros [_ B] Hlt (Ha & Hl & Hb). repeat split; [done..|]. intros p Hp.
  rewrite B by auto. auto.
Qed.

Lemma init_way_spec bs s tid js : forall h idx ptrs,
  0 <= idx -> idx + Z.of_nat (length js) <= Z.of_nat (length h) ->
  exists h', foldM (init_way bs s tid) (h, idx, ptrs) js
             = Ok (h', idx + Z.of_nat (length js), ptrs ++ seq (Z.to_nat idx) (length js)) /\
    heap_ext idx h h' /\
    forall p, idx <= Z.of_nat p < idx + Z.of_nat (length js) ->
      exists b, h' !! p = Some b /\ blk_set b = s /\ blk_status b = 0.
Proof.
  induction js as [|j js IH]; intros h idx ptrs H0 Hl; cbn [foldM length] in *.
  { exists h. split; [by rewrite Z.add_0_r, app_nil_r|]. split; [by constructor | lia]. }
  destruct (arr_get_total h idx) as [b Hb]; [lia|].
  destruct (arr_set_total h idx (init_blk bs s j tid b)) as [h1 Hs]; [lia|].
  unfold init_way at 2. cbn beta iota. rewrite Hb, bind_Ok_l, Hs, !bind_Ok_l.
  pose proof (arr_set_length _ _ _ _ Hs) as Hlen.
  destruct (IH h1 (idx + 1) (ptrs ++ [Z.to_nat idx])) as (h' & HF & [HE1 HE2] & HB); [lia..|].
  exists h'. split; [|split].
  - rewrite HF. f_equal. f_equal; [f_equal; lia|]. rewrite <- app_assoc. cbn [app seq].
    do 3 f_equal. lia.
  - constructor; [congruence|]. intros p Hp. rewrite HE2 by lia.
    apply arr_set_Ok in Hs as [_ ->]. rewrite list_lookup_insert_ne; [done | lia].
  - intros p Hp. destruct (decide (Z.of_nat p = idx)) as [He|Hne].
    + rewrite HE2 by lia. apply arr_set_Ok in Hs as [Hr ->].
      replace p with (Z.to_nat idx) by lia. rewrite list_lookup_insert_eq by lia.
      eexists. split; [done|]. by destruct tid.
    + apply HB. lia.
Qed.

Lemma init_set_spec bs s tid a h idx :
  0 <= idx -> 0 <= a -> idx + a <= Z.of_nat (length h) ->
  exists h' cs, init_set bs s tid a h idx = Ok (h', idx + a, cs) /\ heap_ext idx h h' /\
    cs_blks cs = seq (Z.to_nat idx) (Z.to_nat a) /\ set_built h' s a cs.
Proof.
  intros H0 Ha Hl. unfold init_set.
  assert (Z.of_nat (length (zrange a)) = a) as Hlen by (rewrite length_zrange; lia).
  destruct (init_way_spec bs s tid (zrange a) h idx []) as (h' & HF & HE & HB); [lia..|].
  rewrite HF, bind_Ok_l, Hlen, length_zrange. eexists _, _. split; [done|]. split; [done|].
  split; [done|]. repeat split; cbn; [rewrite length_seq; lia|].
  intros p Hp%elem_of_seq. apply HB. lia.
Qed.

Lemma init_row_spec bs setOf aOf tid js : forall h idx row,
  0 <= idx -> (forall i, i ∈ js -> 0 <= aOf i) -> idx + zsum aOf js <= Z.of_nat (length h) ->
  exists h' row', foldM (init_row bs setOf aOf tid) (h, idx, row) js
                  = Ok (h', idx + zsum aOf js, row ++ row') /\
    heap_ext idx h h' /\ row_ptrs row' = seq (Z.to_nat idx) (Z.to_nat (zsum aOf js)) /\
    Forall2 (fun i cs => set_built h' (setOf i) (aOf i) cs) js row'.
Proof.
  induction js as [|j js IH]; intros h idx row H0 Ha Hl; cbn [foldM].
  { exists h, []. cbn. rewrite Z.add_0_r, app_nil_r. repeat split; constructor. }
  cbn [zsum foldr] in *. fold (zsum aOf js) in *.
  pose proof (Ha j ltac:(left)) as Hj.
  pose proof (zsum_nonneg aOf js ltac:(intros i Hi; apply Ha; by right)) as Hs.
  destruct (init_set_spec bs (setOf j) tid (aOf j) h idx) as (h1 & cs & H1 & E1 & P1 & B1); [lia..|].
  unfold init_row at 2. cbn beta iota. rewrite H1, !bind_Ok_l.
  destruct (IH h1 (idx + aOf j) (row ++ [cs])) as (h' & row' & HF & HE & HP & HB);
    [lia | intros i Hi; apply Ha; by right | destruct E1; lia |].
  exists h', (cs :: row'). split; [|split; [|split]].
  - rewrite HF. rewrite <- app_assoc. cbn [app]. do 2 f_equal. f_equal. lia.
  - eapply heap_ext_trans; [|done|done]. lia.
  - cbn. unfold row_ptrs in HP. rewrite HP, P1. rewrite !Z2Nat.inj_add by lia.
    by rewrite seq_app.
  - constructor; [|done]. eapply set_built_ext; [done | | done].
    rewrite P1. intros p Hp%elem_of_seq. lia.
Qed.

Lemma row_built_ext idx h h' (setOf aOf : Z -> Z) js row :
  heap_ext idx h h' -> (forall p, p ∈ row_ptrs row -> Z.of_nat p < idx) ->
  Forall2 (fun i cs => set_built h (setOf i) (aOf i) cs) js row ->
  Forall2 (fun i cs => set_built h' (setOf i) (aOf i) cs) js row.
Proof.
  intros HE Hlt HB. induction HB as [|i cs il row Hb HB IH]; constructor.
  - eapply set_built_ext; [done | | done]. intros p Hp. apply Hlt.
    unfold row_ptrs. cbn. apply elem_of_app. by left.
  - apply IH. intros p Hp. apply Hlt. unfold row_ptrs. cbn. apply elem_of_app. by right.
Qed.

(** The outer loop of the partitioned stores, over rows. *)
Lemma init_rows_spec bs (setOf aOf : Z -> Z -> Z) (tid : Z -> option Z) inner xs : forall h idx rows,
  0 <= idx -> (forall x i, x ∈ xs -> i ∈ inner -> 0 <= aOf x i) ->
  idx + zsum (fun x => zsum (aOf x) inner) xs <= Z.of_nat (length h) ->
  exists h' rows',
    foldM (fun (st : BlkHeap * Z * list (list CacheSet)) x =>
             let '(heap, blkIndex, rows) := st in
             '(heap, blkIndex, row) ←
               foldM (init_row bs (setOf x) (aOf x) (tid x)) (heap, blkIndex, []) inner;
             Ok (heap, blkIndex, rows ++ [row])) (h, idx, rows) xs
    = Ok (h', idx + zsum (fun x => zsum (aOf x) inner) xs, rows ++ rows') /\
    heap_ext idx h h' /\
    all_ptrs rows' = seq (Z.to_nat idx) (Z.to_nat (zsum (fun x => zsum (aOf x) inner) xs)) /\
    Forall2 (fun x row => Forall2 (fun i cs => set_built h' (setOf x i) (aOf x i) cs) inner row)
            xs rows'.
Proof.
  induction xs as [|x xs IH]; intros h idx rows H0 Ha Hl; cbn [foldM].
  { exists h, []. cbn. rewrite Z.add_0_r, app_nil_r. repeat split; constructor. }
  cbn [zsum foldr] in *. fold (zsum (fun x => zsum (aOf x) inner) xs) in *.
  pose proof (zsum_nonneg (aOf x) inner ltac:(intros i Hi; apply Ha; [left | done])) as Hx.
  pose proof (zsum_nonneg (fun x => zsum (aOf x) inner) xs) as Hs.
  assert (0 <= zsum (fun x => zsum (aOf x) inner) xs).
  { apply Hs. intros y Hy. apply zsum_nonneg. intros i Hi. apply Ha; [by right | done]. }
  destruct (init_row_spec bs (setOf x) (aOf x) (tid x) inner h idx [])
    as (h1 & row & H1 & E1 & P1 & B1); [lia | intros i Hi; apply Ha; [left | done] | lia |].
  rewrite H1, !bind_Ok_l.
  destruct (IH h1 (idx + zsum (aOf x) inner) (rows ++ [row])) as (h' & rows' & HF & HE & HP & HB);
    [lia | intros y i Hy Hi; apply Ha; [by right | done] | destruct E1; lia |].
  exists h', (row :: rows'). split; [|split; [|split]].
  - cbn [app]. rewrite HF, <- app_assoc. cbn [app]. do 2 f_equal. f_equal. lia.
  - eapply heap_ext_trans; [|done|done]. lia.
  - cbn. unfold all_ptrs in HP. rewrite HP, P1. rewrite !Z2Nat.inj_add by lia. by rewrite seq_app.
  - constructor; [|done].
    assert (forall p, p ∈ row_ptrs row -> Z.of_nat p < idx + zsum (aOf x) inner) as Hlt.
    { rewrite P1. intros p Hp%elem_of_seq. lia. }
    by eapply row_built_ext.
Qed.

(** * From the loops to well-formed stores *)

Lemma Forall2_lookup_zrange {B} (P : Z -> B -> Prop) n l i x :
  Forall2 P (zrange n) l -> l !! Z.to_nat i = Some x -> 0 <= i -> 0 <= i < n /\ P i x.
Proof.
  intros HF Hl Hi. destruct (Forall2_lookup_r _ _ _ _ _ HF Hl) as (y & Hy & HP).
  unfold zrange in Hy. apply lookup_seqZ in Hy as [-> Hlt].
  replace (0 + Z.of_nat (Z.to_nat i)) with i in HP by lia. split; [lia | done].
Qed.

Lemma Forall2_zrange_lookup {B} (P : Z -> B -> Prop) n l i :
  Forall2 P (zrange n) l -> 0 <= i < n -> exists x, l !! Z.to_nat i = Some x /\ P i x.
Proof. intros HF Hi. by eapply Forall2_lookup_l, zrange_lookup. Qed.

Lemma built_wf ts rows nx ni (setOf aOf : Z -> Z -> Z) h m :
  geom_wf ts ->
  Z.of_nat (length (ts_missCounter ts)) = ts_numSets ts ->
  length (ts_occupancies ts) = Z.to_nat (ts_maxMasters ts) ->
  all_ptrs rows = seq 0 m ->
  Forall2 (fun x row => Forall2 (fun i cs => set_built h (setOf x i) (aOf x i) cs) (zrange ni) row)
          (zrange nx) rows ->
  (forall x i, setOf x i = ix_set (ts_class ts) (x, i)) ->
  (forall s t, 0 <= s < ts_numSets ts -> valid_tid (ts_class ts) t ->
     exists x i, set_ix (ts_class ts) s t = (x, i) /\ 0 <= x < nx /\ 0 <= i < ni /\
                 aOf x i = assoc_of_tc ts t) ->
  ts_sets ts = rows -> ts_blks ts = h -> ts_wf ts.
Proof.
  intros G Hmc Hoc Hp HB Hset Hshape <- <-. constructor; [done | | | | done | done].
  - rewrite Hp. apply NoDup_seq.
  - intros [x i] cs Hg. apply sets_get_Ok in Hg as (Hx & Hi & row & Hr & Hc).
    destruct (Forall2_lookup_zrange _ _ _ _ _ HB Hr Hx) as [_ HB'].
    destruct (Forall2_lookup_zrange _ _ _ _ _ HB' Hc Hi) as [_ (Ha & Hl & Hb)].
    split; [congruence|]. intros p Hin. destruct (Hb p Hin) as (b & ? & ? & _).
    exists b. split; [done|]. by rewrite <- Hset.
  - intros s t Hs Ht. destruct (Hshape s t Hs Ht) as (x & i & Hix & Hx & Hi & Ha).
    destruct (Forall2_zrange_lookup _ _ _ _ HB Hx) as (row & Hr & HB').
    destruct (Forall2_zrange_lookup _ _ _ _ HB' Hi) as (cs & Hc & Hcs & _).
    exists cs. unfold get_set. rewrite Hix, sets_get_Ok. split; [|congruence].
    repeat split; [lia..|eauto].
Qed.

(** The parameters the [LRU] constructor accepts, within 32 bits. *)
Record legal (numSets blkSize assoc hit_latency maxMasters : Z) : Prop := {
  lg_sets : isPowerOf2 numSets = true;
  lg_blk : isPowerOf2 blkSize = true;
  lg_sets_pos : 0 < numSets;
  lg_blk_pos : 4 <= blkSize < 2 ^ 32;
  lg_assoc : 0 < assoc;
  lg_lat : 0 < hit_latency;
  lg_size : numSets * assoc < 2 ^ 32;
  lg_masters : 0 <= maxMasters
}.

Lemma legal_sets n b a l m : legal n b a l m -> 0 < n < 2 ^ 32.
Proof. intros []. nia. Qed.

(** What the constructor of [LRU] has set up when it calls [init_sets]. *)
Record fresh_store (k : TagClass) (n b a l m : Z) (ts : TagStore) : Prop := {
  f_class : ts_class ts = k;
  f_geom : geom_wf ts;
  f_numSets : ts_numSets ts = n;
  f_blkSize : ts_blkSize ts = b;
  f_assoc : ts_assoc ts = a;
  f_mc : Z.of_nat (length (ts_missCounter ts)) = n;
  f_oc : length (ts_occupancies ts) = Z.to_nat (ts_maxMasters ts)
}.

Lemma LRU_fields_spec k n b a l m :
  legal n b a l m -> exists ts, LRU_fields k n b a l m = Ok ts /\ fresh_store k n b a l m ts.
Proof.
  intros Hl. pose proof (legal_sets _ _ _ _ _ Hl) as Hn. destruct Hl as [Hps Hpb _ Hb Ha Hlat Hsz Hm].
  unfold LRU_fields. rewrite Hps, Hpb.
  destruct (Z.ltb_spec b 4); [lia|]. destruct (Z.leb_spec n 0); [lia|].
  destruct (Z.leb_spec a 0); [lia|]. destruct (Z.leb_spec l 0); [lia|]. cbn [orb negb].
  rewrite !floorLog2_spec, !bind_Ok_l by lia. eexists. split; [done|].
  apply isPowerOf2_spec in Hps, Hpb; [|lia..].
  constructor; cbn; try done.
  - constructor; cbn; try done.
    + pose proof (Z.log2_nonneg b). pose proof (Z.log2_nonneg n). lia.
    + rewrite Hps at 1. f_equal. lia.
  - rewrite length_replicate. lia.
  - apply length_replicate.
Qed.

Lemma fresh_class k k' n b a l m ts :
  fresh_store k n b a l m ts -> fresh_store k' n b a l m (with_ts_class k' ts).
Proof. intros [? [] ? ? ? ? ?]. constructor; cbn; done || by constructor. Qed.

Lemma LRU_init_sets_spec n b a l m ts :
  legal n b a l m -> fresh_store IsLRU n b a l m ts ->
  exists ts', LRU_init_sets ts = Ok ts' /\ ts_wf ts' /\ fresh_store IsLRU n b a l m ts'.
Proof.
  intros Hl F. pose proof (legal_sets _ _ _ _ _ Hl) as Hn.
  destruct F as [Hk G Hns Hbs Has Hmc Hoc]. destruct Hl.
  unfold LRU_init_sets. rewrite Hns, Hbs, Has, u32_small by nia.
  assert (zsum (fun _ : Z => a) (zrange n) = n * a) as Hsum
    by (rewrite zsum_const, length_zrange; lia).
  destruct (init_row_spec b id (fun _ => a) None (zrange n)
              (replicate (Z.to_nat (n * a)) CacheBlk_new) 0 [])
    as (h' & row & HF & _ & HP & HB); [lia | intros; lia | rewrite Hsum, length_replicate; lia |].
  rewrite HF, bind_Ok_l. cbn [app]. eexists. split; [done|]. split.
  - eapply (built_wf _ [row] 1 n (fun _ i => i) (fun _ _ => a) h'); cbn; try done.
    + by destruct G.
    + lia.
    + rewrite app_nil_r. exact HP.
    + change (zrange 1) with [0]. constructor; [done|constructor].
    + by rewrite Hk.
    + rewrite Hns, Hk. intros s t Hs _. exists 0, s. cbn. repeat split; try lia. unfold assoc_of_tc. cbn. by rewrite Hk.
  - by constructor; cbn; [| destruct G | ..].
Qed.

Lemma LRU_new_spec n b a l m :
  legal n b a l m ->
  exists ts, LRU_new n b a l m = Ok ts /\ ts_wf ts /\ fresh_store IsLRU n b a l m ts.
Proof.
  intros Hl. unfold LRU_new. destruct (LRU_fields_spec IsLRU _ _ _ _ _ Hl) as (ts & -> & F).
  rewrite bind_Ok_l. by apply LRU_init_sets_spec.
Qed.

(** The classes whose rows are partitions. *)
Lemma init_partitions_spec np n b (aOf : Z -> Z) setTid h :
  0 <= n -> 0 <= np -> (forall t, 0 <= t < np -> 0 <= aOf t) ->
  n * zsum aOf (zrange np) <= Z.of_nat (length h) ->
  exists h' rows, init_partitions np n b aOf setTid h = Ok (h', rows) /\
    all_ptrs rows = seq 0 (Z.to_nat (n * zsum aOf (zrange np))) /\
    Forall2 (fun t row => Forall2 (fun i cs => set_built h' i (aOf t) cs) (zrange n) row)
            (zrange np) rows.
Proof.
  intros Hn Hnp Ha Hl.
  assert (zsum (fun x => zsum (fun _ : Z => aOf x) (zrange n)) (zrange np)
          = n * zsum aOf (zrange np)) as Hsum.
  { rewrite zsum_rows, length_zrange, Z2Nat.id by lia. done. }
  destruct (init_rows_spec b (fun _ i => i) (fun t _ => aOf t)
              (fun tc => if setTid then Some tc else None) (zrange n) (zrange np) h 0 [])
    as (h' & rows & HF & _ & HP & HB); [lia | | rewrite Hsum; lia |].
  { intros x i Hx%elem_of_seqZ _. apply Ha. lia. }
  unfold init_partitions, id. cbn beta in *. rewrite HF, bind_Ok_l. exists h', rows. split; [done|].
  rewrite Hsum in HP. split; [exact HP | exact HB].
Qed.

Lemma partitions_wf k n b a l m ts np aOf h rows c :
  fresh_store k n b a l m ts ->
  (forall s t, set_ix k s t = (t, s)) -> (forall x i, ix_set k (x, i) = i) ->
  (forall t, valid_tid k t <-> 0 <= t < np) ->
  (forall t, aOf t = assoc_of_tc ts t) ->
  all_ptrs rows = seq 0 c ->
  Forall2 (fun t row => Forall2 (fun i cs => set_built h i (aOf t) cs) (zrange n) row)
          (zrange np) rows ->
  forall nb, ts_wf (with_ts_numBlocks nb (with_ts_sets rows (with_ts_blks h ts))).
Proof.
  intros [Hk G Hns Hbs Has Hmc Hoc] Hix Hset Hv Ha HP HB nb.
  eapply (built_wf _ rows np n (fun _ i => i) (fun t _ => aOf t) h); cbn; try done.
  - by destruct G.
  - lia.
  - intros x i. by rewrite Hk, Hset.
  - rewrite Hk, Hns. intros s t Hs Ht%Hv. exists t, s. rewrite Hix. repeat split; try lia.
    rewrite Ha. by unfold assoc_of_tc.
Qed.

(** * Way partitioning hands out every way exactly once *)

Lemma zsum_way_split q r k :
  0 <= r -> zsum (fun t => if t <? r then q + 1 else q) (zrange (Z.of_nat k))
            = Z.of_nat k * q + Z.min (Z.of_nat k) r.
Proof.
  intros Hr. induction k as [|k IH]; [change (zrange (Z.of_nat 0)) with (@nil Z); unfold zsum; cbn [foldr]; lia|].
  rewrite zrange_snoc, zsum_app, IH. unfold zsum. cbn [foldr].
  destruct (Z.ltb_spec (Z.of_nat k) r); nia.
Qed.

Lemma WPLRU_ways_sum assoc n :
  0 <= assoc -> 0 < n -> zsum (WPLRU_assoc_of_tc assoc n) (zrange n) = assoc.
Proof.
  intros Ha Hn. pose proof (Z.mod_pos_bound assoc n Hn) as Hr.
  pose proof (zsum_way_split (assoc / n) (assoc mod n) (Z.to_nat n) ltac:(lia)) as Hw.
  rewrite Z2Nat.id, Z.min_r in Hw by lia. etransitivity; [exact Hw|].
  symmetry. apply Z.div_mod. lia.
Qed.

Lemma WPLRU_ways_nonneg assoc n t : 0 <= assoc -> 0 < n -> 0 <= WPLRU_assoc_of_tc assoc n t.
Proof.
  intros Ha Hn. unfold WPLRU_assoc_of_tc. cbv zeta.
  pose proof (Z.div_pos assoc n Ha Hn). case_goal; lia.
Qed.

Lemma DCLRU_as_WPLRU assoc t : DCLRU_assoc_of_tc assoc t = WPLRU_assoc_of_tc assoc 2 t.
Proof. reflexivity. Qed.

(** * The constructors of the partitioned classes *)

(** The common end of the way-partitioned constructors: [init_partitions]
    over all blocks, on a store whose class has been set. *)
Lemma way_partitioned_new k n b a l m ts np aOf setTid :
  legal n b a l m -> fresh_store k n b a l m ts ->
  (forall s t, set_ix k s t = (t, s)) -> (forall x i, ix_set k (x, i) = i) ->
  (forall t, valid_tid k t <-> 0 <= t < np) ->
  (forall t, aOf t = assoc_of_tc ts t) -> 0 <= np ->
  (forall t, 0 <= t < np -> 0 <= aOf t) -> zsum aOf (zrange np) = a ->
  exists heap rows,
    init_partitions np (ts_numSets ts) (ts_blkSize ts) aOf setTid
      (replicate (Z.to_nat (u32 (ts_numSets ts * ts_assoc ts))) CacheBlk_new) = Ok (heap, rows) /\
    forall nb, ts_wf (with_ts_numBlocks nb (with_ts_sets rows (with_ts_blks heap ts))).
Proof.
  intros Hl F Hix Hset Hv Ha Hnp Hpos Hsum. pose proof (legal_sets _ _ _ _ _ Hl) as Hn.
  rewrite (f_numSets _ _ _ _ _ _ _ F), (f_blkSize _ _ _ _ _ _ _ F), (f_assoc _ _ _ _ _ _ _ F).
  destruct Hl. rewrite u32_small by nia.
  destruct (init_partitions_spec np n b aOf setTid (replicate (Z.to_nat (n * a)) CacheBlk_new))
    as (heap & rows & HF & HP & HB); [lia | lia | done | rewrite Hsum, length_replicate; lia |].
  exists heap, rows. split; [done|]. by eapply partitions_wf.
Qed.

Lemma WPLRU_new_spec n b a l tcs m :
  legal n b a l m -> 0 < tcs ->
  exists ts, WPLRU_new n b a l tcs m = Ok ts /\ ts_wf ts.
Proof.
  intros Hl Ht. unfold WPLRU_new. destruct (LRU_new_spec _ _ _ _ _ Hl) as (ts & -> & _ & F).
  rewrite bind_Ok_l. apply (fresh_class _ (IsWPLRU tcs)) in F.
  pose proof (lg_assoc _ _ _ _ _ Hl). pose proof (f_assoc _ _ _ _ _ _ _ F) as Hfa.
  destruct (way_partitioned_new _ _ _ _ _ _ _ tcs (WPLRU_assoc_of_tc a tcs) false Hl F)
    as (heap & rows & HF & Hwf); try done.
  - intros t. unfold assoc_of_tc. cbn. cbn in Hfa. by rewrite Hfa.
  - lia.
  - intros t _. apply WPLRU_ways_nonneg; lia.
  - apply WPLRU_ways_sum; lia.
  - unfold WPLRU_init_sets. rewrite Hfa. rewrite Hfa in HF. rewrite HF, bind_Ok_l. eauto.
Qed.

Lemma DCLRU_new_spec n b a l m :
  legal n b a l m -> exists ts, DCLRU_new n b a l m = Ok ts /\ ts_wf ts.
Proof.
  intros Hl. unfold DCLRU_new. destruct (LRU_new_spec _ _ _ _ _ Hl) as (ts & -> & _ & F).
  rewrite bind_Ok_l. apply (fresh_class _ IsDCLRU) in F.
  pose proof (lg_assoc _ _ _ _ _ Hl). pose proof (f_assoc _ _ _ _ _ _ _ F) as Hfa.
  destruct (way_partitioned_new _ _ _ _ _ _ _ 2 (DCLRU_assoc_of_tc a) false Hl F)
    as (heap & rows & HF & Hwf); try done.
  - intros t. unfold assoc_of_tc. cbn. cbn in Hfa. by rewrite Hfa.
  - intros t _. apply (WPLRU_ways_nonneg a 2); lia.
  - apply (WPLRU_ways_sum a 2); lia.
  - unfold DCLRU_init_sets. rewrite Hfa. rewrite Hfa in HF. rewrite HF, bind_Ok_l. eauto.
Qed.

Lemma F_DYNALRU_new_spec n b a l m :
  legal n b a l m -> exists ts, F_DYNALRU_new n b a l m = Ok ts /\ ts_wf ts.
Proof.
  intros Hl. unfold F_DYNALRU_new. destruct (LRU_new_spec _ _ _ _ _ Hl) as (ts & -> & _ & F).
  rewrite bind_Ok_l. apply (fresh_class _ (IsF_DYNALRU (u32 (a - 1)) 1)) in F.
  assert (0 < a < 2 ^ 32) as Ha by (pose proof (legal_sets _ _ _ _ _ Hl); destruct Hl; nia).
  rewrite u32_small in * by lia. pose proof (f_assoc _ _ _ _ _ _ _ F) as Hfa.
  destruct (way_partitioned_new _ _ _ _ _ _ _ 2 (F_DYNALRU_assoc_of_tc (a - 1) 1) true Hl F)
    as (heap & rows & HF & Hwf); try done.
  - intros t _. unfold F_DYNALRU_assoc_of_tc. case_goal; lia.
  - change (zrange 2) with [0; 1]. unfold zsum, F_DYNALRU_assoc_of_tc. cbn [foldr Z.eqb]. lia.
  - unfold F_DYNALRU_init_sets. cbn [get_LH ts_class with_ts_class]. rewrite bind_Ok_l. cbn beta iota.
    rewrite HF, bind_Ok_l. eauto.
Qed.

Lemma init_umon_total n b a l m :
  legal n b a l m -> exists h row, init_umon n a b = Ok (h, row).
Proof.
  intros Hl. pose proof (legal_sets _ _ _ _ _ Hl) as Hn. destruct Hl. unfold init_umon.
  assert (zsum (fun _ : Z => a) (zrange n) = n * a) as Hsum
    by (rewrite zsum_const, length_zrange, Z2Nat.id; lia).
  rewrite u32_small by nia.
  destruct (init_row_spec b id (fun _ => a) (Some 0) (zrange n)
              (replicate (Z.to_nat (n * a)) CacheBlk_new) 0 [])
    as (h' & row & HF & _); [lia | intros; lia | rewrite Hsum, length_replicate; lia |].
  rewrite HF, bind_Ok_l. eauto.
Qed.

(** Replacing the monitor does not matter for well-formedness. *)
Lemma put_ext_wf ts e e' :
  ts_class ts = IsC_DYNALRU e ->
  c_L_assoc e' = c_L_assoc e -> c_H_assoc e' = c_H_assoc e -> c_H_min e' = c_H_min e ->
  ts_wf ts -> ts_wf (put_ext e' ts).
Proof.
  intros Hk HL HH Hm Hwf.
  destruct (w_shape _ Hwf 0 0) as (cs & Hg & _).
  - split; [done|]. rewrite (g_numSets _ (w_geom _ Hwf)).
    pose proof (g_set_bits _ (w_geom _ Hwf)). apply Z.pow_pos_nonneg; lia.
  - rewrite Hk. cbn. lia.
  - eapply local_step_wf; [by eapply ls_umon|done].
Qed.

Lemma C_DYNALRU_new_spec n b a l L Hm m :
  legal n b a l m -> 0 <= L <= a ->
  exists ts, C_DYNALRU_new n b a l L Hm m = Ok ts /\ ts_wf ts.
Proof.
  intros Hl HL. unfold C_DYNALRU_new. destruct (LRU_new_spec _ _ _ _ _ Hl) as (ts & -> & _ & F).
  rewrite bind_Ok_l. assert (0 < a < 2 ^ 32) as Ha by (pose proof (legal_sets _ _ _ _ _ Hl); destruct Hl; nia).
  rewrite u32_small by lia.
  apply (fresh_class _ (IsC_DYNALRU (mkC_Ext L (a - L) Hm [] [] (replicate (Z.to_nat a) 0)))) in F.
  set (e := mkC_Ext L (a - L) Hm [] [] (replicate (Z.to_nat a) 0)) in *.
  destruct (way_partitioned_new _ _ _ _ _ _ _ 2 (C_DYNALRU_assoc_of_tc e) true Hl F)
    as (heap & rows & HF & Hwf); try done.
  - intros t _. unfold C_DYNALRU_assoc_of_tc. case_goal; cbn; lia.
  - change (zrange 2) with [0; 1]. unfold zsum, C_DYNALRU_assoc_of_tc. cbn. lia.
  - unfold C_DYNALRU_init_sets. cbn [get_ext put_ext ts_class with_ts_class]. rewrite bind_Ok_l.
    change (put_ext e ts) with (with_ts_class (IsC_DYNALRU e) ts).
    rewrite HF, bind_Ok_l. cbn beta iota.
    destruct (init_umon_total _ _ _ _ _ Hl) as (uh & ur & HU).
    pose proof (f_numSets _ _ _ _ _ _ _ F) as Hfn. pose proof (f_blkSize _ _ _ _ _ _ _ F) as Hfb.
    pose proof (f_assoc _ _ _ _ _ _ _ F) as Hfa. cbn in Hfn, Hfb, Hfa.
    cbn [ts_numSets ts_assoc ts_blkSize put_ext with_ts_class].
    rewrite Hfn, Hfb, Hfa, HU, bind_Ok_l. eexists. split; [reflexivity|].
    eapply put_ext_wf; [| | | | apply Hwf]; done.
Qed.

Lemma SPLRU_new_spec n b a l tcs m :
  legal (n / tcs) b a l m -> 0 < tcs -> (n / tcs) mod tcs = 0 -> n / tcs * tcs * a < 2 ^ 32 ->
  exists ts, SPLRU_new n b a l tcs m = Ok ts /\ ts_wf ts.
Proof.
  intros Hl Ht Hmod Hsz. unfold SPLRU_new. set (k := n / tcs) in *.
  destruct (LRU_new_spec _ _ _ _ _ Hl) as (ts & -> & _ & F). rewrite bind_Ok_l.
  apply (fresh_class _ (IsSPLRU tcs)) in F. pose proof (legal_sets _ _ _ _ _ Hl) as Hn.
  destruct F as [Hk G Hns Hbs Has Hmc Hoc]. destruct Hl. unfold SPLRU_init_sets.
  rewrite Hns, Hbs, Has, u32_small by nia.
  assert (zsum (fun _ : Z => zsum (fun _ : Z => a) (zrange tcs)) (zrange k) = k * tcs * a) as Hsum.
  { rewrite !zsum_const, !length_zrange, !Z2Nat.id; lia. }
  destruct (init_rows_spec b (fun i _ => i) (fun _ _ => a) (fun _ => None) (zrange tcs) (zrange k)
              (replicate (Z.to_nat (k * tcs * a)) CacheBlk_new) 0 [])
    as (h' & rows & HF & _ & HP & HB); [lia | intros; lia | rewrite Hsum, length_replicate; lia |].
  cbn beta in HF. rewrite HF, !bind_Ok_l. cbn [app ts_numSets with_ts_numBlocks with_ts_sets with_ts_blks].
  rewrite Hns, Hmod. cbn [Z.eqb cassert]. rewrite bind_Ok_l. eexists. split; [done|].
  cbn in Hns, Has, Hmc, Hoc.
  eapply (built_wf _ rows k tcs (fun i _ => i) (fun _ _ => a) h'); cbn; try done.
  - by destruct G.
  - lia.
  - rewrite Hns. intros s t Hs Hv. exists s, t. unfold assoc_of_tc. cbn. by rewrite Has.
Qed.

(** * The builder *)

(** Parameters for which the chosen constructor accepts its arguments. *)
Definition buildable (p : TagParams) : Prop :=
  let n := tp_numSets p in
  let ok := legal n (tp_block_size p) (tp_tag_assoc p) (tp_latency p) (tp_maxMasters p) in
  if tp_c_dynamic_cache p then ok /\ 0 <= tp_L_assoc p <= tp_tag_assoc p
  else if tp_f_dynamic_cache p then ok
  else if tp_dirty_cache p then ok
  else if tp_use_way_part p then ok /\ 0 < tp_num_tcs p
  else if tp_use_set_part p then
    let k := n / tp_num_tcs p in
    legal k (tp_block_size p) (tp_tag_assoc p) (tp_latency p) (tp_maxMasters p) /\
    0 < tp_num_tcs p /\ k mod tp_num_tcs p = 0 /\
    k * tp_num_tcs p * tp_tag_assoc p < 2 ^ 32
  else ok.

Lemma BUILD_LRU_CACHE_wf p :
  buildable p -> exists ts, BUILD_LRU_CACHE p = Ok ts /\ ts_wf ts.
Proof.
  unfold buildable, BUILD_LRU_CACHE. cbv zeta. intros H.
  repeat case_goal.
  - destruct H. by apply C_DYNALRU_new_spec.
  - by apply F_DYNALRU_new_spec.
  - by apply DCLRU_new_spec.
  - destruct H. by apply WPLRU_new_spec.
  - destruct H as (? & ? & ? & ?). by apply SPLRU_new_spec.
  - destruct (LRU_new_spec _ _ _ _ _ H) as (ts & ? & ? & _). eauto.
Qed.

(** C5. Every tag store the builder can make from legal parameters is
    built (no constructor check fires, no array is overrun) and is well
    formed: the address split is consistent, and the block array is dealt out
    so that every way of every set of every partition owns one block that no
    other way owns, with each partition as wide as [assoc_of_tc] says. *)
Theorem builder_wf p :
  buildable p -> exists ts, BUILD_LRU_CACHE p = Ok ts /\ ts_wf ts.
Proof. apply BUILD_LRU_CACHE_wf. Qed.

(** A set-partitioned store: 16 sets of 4 ways shared by 4 threads. *)
Lemma builder_wf_witness :
  exists ts, BUILD_LRU_CACHE (mkTagParams false false false false true 16 64 4 2 1 1 4 8) = Ok ts
             /\ ts_wf ts.
Proof.
  apply builder_wf. cbn. repeat split; try reflexivity; vm_compute; congruence.
Defined.
