(* ===== verification/Isolation.v ===== *)
(** Isolation of the partitioned tag stores: what one thread can observe of
    a store does not depend on what the other threads did to it.

    The property is noninterference by purging: take any interleaving of
    lookups, accesses, fills, block updates and invalidations by any threads;
    delete everything thread [t] did not do; thread [t] observes the same hits,
    latencies, victims and block contents.  It holds for the way-partitioned,
    the set-partitioned, the two-label and the coarse-grained store between
    resizes.  It fails for the plain [LRU] store, and is not claimed for
    [F_DYNALRU], where High looks into Low's partition. *)

From S2P Require Import Prelude Request MemCmd Packet Blk CacheSet IntMath TagTypes LRU PartLRU DynaLRU Tags TagsWf TagsNew.

(** * What a class must promise *)

(** The operations of a thread stay in the sets [get_set] selects for it,
    and no two threads share a set. *)
Class Isolating (k : TagClass) : Prop := {
  iso_local : partition_local k;
  iso_disjoint : forall s s' t u, set_ix k s t = set_ix k s' u -> t = u
}.

#[export] Instance WPLRU_isolating n : Isolating (IsWPLRU n).
Proof. split; [done|]. cbn. unfold WPLRU_set_ix. congruence. Qed.
#[export] Instance SPLRU_isolating n : Isolating (IsSPLRU n).
Proof. split; [done|]. cbn. unfold SPLRU_set_ix. congruence. Qed.
#[export] Instance DCLRU_isolating : Isolating IsDCLRU.
Proof. split; [done|]. cbn. unfold DCLRU_set_ix. congruence. Qed.
#[export] Instance C_DYNALRU_isolating e : Isolating (IsC_DYNALRU e).
Proof. split; [done|]. cbn. unfold C_DYNALRU_set_ix. congruence. Qed.

Lemma isolating_kview t k k' : kview t k = kview t k' -> Isolating k -> Isolating k'.
Proof.
  intros Hk [Hl Hd]. split.
  - destruct k, k'; cbn in *; try destruct (t =? 0); naive_solver.
  - intros s s' t1 t2. rewrite <- !(kview_set_ix t _ _ _ _ Hk). apply Hd.
Qed.

Lemma set_ix_inj_set k s s' t : set_ix k s t = set_ix k s' t -> s = s'.
Proof. destruct k; cbn; unfold LRU_set_ix, WPLRU_set_ix, SPLRU_set_ix, DCLRU_set_ix, C_DYNALRU_set_ix, F_DYNALRU_set_ix; congruence. Qed.

(** * Relating the results of two runs *)

Definition rres {A B} (R : A -> B -> Prop) (r1 : result A) (r2 : result B) : Prop :=
  match r1, r2 with
  | Ok a, Ok b => R a b
  | Err e, Err e' => e = e'
  | _, _ => False
  end.

Lemma rres_bind {A B A' B'} (R : A -> B -> Prop) (S : A' -> B' -> Prop) m1 m2 f g :
  rres R m1 m2 -> (forall a b, R a b -> rres S (f a) (g b)) ->
  rres S (m1 ≫= f) (m2 ≫= g).
Proof. destruct m1, m2; cbn; naive_solver. Qed.

Lemma rres_eq {A} (r : result A) : rres eq r r.
Proof. by destruct r. Qed.

Lemma rres_mono {A B} (R S : A -> B -> Prop) r1 r2 :
  rres R r1 r2 -> (forall a b, R a b -> S a b) -> rres S r1 r2.
Proof. destruct r1, r2; cbn; naive_solver. Qed.

(** * Stores that look the same to one thread *)

Record eqv (t : Z) (a b : TagStore) : Prop := {
  q_core : core_eq t a b;
  q_wf_l : ts_wf a;
  q_wf_r : ts_wf b;
  q_tid : valid_tid (ts_class a) t;
  q_sets : forall s, 0 <= s < ts_numSets a -> get_set a s t = get_set b s t;
  q_blks : forall s cs p, 0 <= s < ts_numSets a -> get_set a s t = Ok cs -> p ∈ cs_blks cs ->
    ts_blks a !! p = ts_blks b !! p
}.

(** Block [p] is in a set of thread [t]. *)
Definition own (t : Z) (ts : TagStore) (p : BlkPtr) : Prop :=
  exists s cs, 0 <= s < ts_numSets ts /\ get_set ts s t = Ok cs /\ p ∈ cs_blks cs.

Section Eqv.
Context (t : Z).
Implicit Types a b : TagStore.

Lemma eqv_refl a : ts_wf a -> valid_tid (ts_class a) t -> eqv t a a.
Proof. by constructor. Qed.

Lemma own_lookup a b p : eqv t a b -> own t a p -> ts_blks a !! p = ts_blks b !! p.
Proof. intros E (s & cs & Hs & Hg & Hp). by eapply q_blks. Qed.

Lemma own_get a p : ts_wf a -> own t a p -> exists x, ts_blks a !! p = Some x.
Proof.
  intros Hwf (s & cs & Hs & Hg & Hp). destruct (w_set _ Hwf _ _ Hg) as [_ H].
  destruct (H p Hp) as (x & Hx & _). eauto.
Qed.

Lemma own_eqv a b p : eqv t a b -> own t a p -> own t b p.
Proof.
  intros E (s & cs & Hs & Hg & Hp). exists s, cs.
  rewrite <- (e_numSets _ _ _ (q_core _ _ _ E)), <- (q_sets _ _ _ E) by done. done.
Qed.

Lemma numSets_pos a : ts_wf a -> 0 < ts_numSets a.
Proof.
  intros Hwf. rewrite (g_numSets _ (w_geom _ Hwf)).
  pose proof (g_set_bits _ (w_geom _ Hwf)). apply Z.pow_pos_nonneg; lia.
Qed.

(** Changes that leave sets and blocks alone. *)
Lemma wf_same a a' :
  ts_wf a -> ts_sets a' = ts_sets a -> ts_blks a' = ts_blks a ->
  valid_tid (ts_class a) t -> (forall u, core_eq u a a') -> ts_wf a'.
Proof.
  intros Hwf Hs Hb Hv Hc. destruct (w_shape _ Hwf 0 t) as (cs & Hg & _);
    [pose proof (numSets_pos _ Hwf); lia | done |].
  eapply local_step_wf; [eapply (ls_counters 0); eauto | done].
Qed.

Lemma get_set_same a a' s :
  ts_sets a' = ts_sets a -> core_eq t a a' -> get_set a' s t = get_set a s t.
Proof.
  intros Hs Hc. unfold get_set. rewrite Hs. f_equal. symmetry.
  apply (kview_set_ix t), Hc.
Qed.

Lemma eqv_same a b a' b' :
  eqv t a b -> ts_sets a' = ts_sets a -> ts_blks a' = ts_blks a ->
  ts_sets b' = ts_sets b -> ts_blks b' = ts_blks b ->
  (forall u, core_eq u a a') -> (forall u, core_eq u b b') -> eqv t a' b'.
Proof.
  intros [Hc W1 W2 Hv Hs Hb] S1 B1 S2 B2 C1 C2.
  assert (valid_tid (ts_class b) t) by (eapply (kview_valid t); [symmetry; apply Hc | done]).
  constructor.
  - rewrite <- (C1 t), <- (C2 t). done.
  - eauto using wf_same.
  - eauto using wf_same.
  - eapply (kview_valid t); [symmetry; apply C1 | done].
  - intros s Hr. rewrite <- (e_numSets _ _ _ (C1 t)) in Hr.
    rewrite !(get_set_same a a'), !(get_set_same b b'); auto.
  - intros s cs p Hr Hg Hp. rewrite <- (e_numSets _ _ _ (C1 t)) in Hr.
    rewrite (get_set_same a a') in Hg by auto. rewrite B1, B2. eauto.
Qed.

(** A block of the thread gets the same new contents on both sides. *)
Lemma eqv_set_blk a b p x y :
  eqv t a b -> own t a p -> ts_blks a !! p = Some x -> blk_set y = blk_set x ->
  eqv t (ts_set_blk a p y) (ts_set_blk b p y).
Proof.
  intros E Ho Hx Hy. pose proof (own_lookup _ _ _ E Ho) as Hl.
  pose proof (own_eqv _ _ _ E Ho) as Hob. destruct E as [Hc W1 W2 Hv Hs Hb].
  destruct Ho as (s0 & cs0 & Hr0 & Hg0 & Hp0). destruct Hob as (s1 & cs1 & Hr1 & Hg1 & Hp1).
  constructor.
  - destruct Hc. by constructor.
  - eapply local_step_wf; [by eapply (ls_set_blk 0) | done].
  - eapply local_step_wf; [|done]. eapply (ls_set_blk 0); [exact Hg1 | done | by rewrite <- Hl | done].
  - done.
  - exact Hs.
  - intros s cs q Hr Hg Hq. cbn in *. destruct (decide (p = q)) as [->|Hne].
    + rewrite !list_lookup_insert_eq; [done | | by eapply lookup_lt_Some].
      rewrite Hl in Hx. by eapply lookup_lt_Some.
    + rewrite !list_lookup_insert_ne by done. eapply Hb; eauto.
Qed.

Lemma own_set_blk a p y q : own t a q -> own t (ts_set_blk a p y) q.
Proof. done. Qed.

Lemma r_upd_blk a b p f :
  eqv t a b -> own t a p -> (forall x, blk_set (f x) = blk_set x) ->
  rres (fun a' b' => eqv t a' b' /\ (forall q, own t a q -> own t a' q))
       (ts_upd_blk a p f) (ts_upd_blk b p f).
Proof.
  intros E Ho Hf. unfold ts_upd_blk, ts_blk, blk_deref. rewrite <- (own_lookup _ _ _ E Ho).
  destruct (ts_blks a !! p) as [x|] eqn:Hx; [|done]. cbn. split; [|done].
  by eapply eqv_set_blk.
Qed.

Lemma perm_put a s cs cs' a' :
  ts_wf a -> get_set a s t = Ok cs -> cs_blks cs' ≡ₚ cs_blks cs -> cs_assoc cs' = cs_assoc cs ->
  put_set a s t cs' = Ok a' -> ts_wf a' /\ forall q, own t a q -> own t a' q.
Proof.
  intros Hwf Hg Hp Ha H. pose proof (ls_put 0 _ _ _ _ _ _ _ eq_refl Hg Hp Ha H) as L.
  split; [by eapply local_step_wf|]. intros q (s1 & c1 & Hr & Hg1 & Hq).
  destruct (decide (s1 = s)) as [->|Hne].
  - destruct (ls_get_set _ _ _ _ _ _ _ eq_refl L Hg) as (c & Hc & Hpc).
    assert (c1 = cs) as -> by congruence. exists s, c. rewrite Hpc.
    unfold put_set in H. inv_ok. done.
  - exists s1, c1. unfold put_set in H. inv_ok. unfold get_set in *. cbn.
    rewrite (sets_get_put_ne _ _ _ _ _ ltac:(intros Hq'; apply Hne; symmetry; by eapply set_ix_inj_set) Hx).
    done.
Qed.

Lemma get_put_set a s cs a' s' :
  put_set a s t cs = Ok a' ->
  get_set a' s' t = if decide (s' = s) then Ok cs else get_set a s' t.
Proof.
  unfold put_set, get_set. intros H. inv_ok. cbn. case_decide as Hs.
  - subst. by eapply sets_get_put_eq.
  - eapply sets_get_put_ne; [|done]. intros He. apply Hs. symmetry. by eapply set_ix_inj_set.
Qed.

Lemma r_put a b s cs cs' :
  eqv t a b -> 0 <= s < ts_numSets a -> get_set a s t = Ok cs ->
  cs_blks cs' ≡ₚ cs_blks cs -> cs_assoc cs' = cs_assoc cs ->
  rres (fun a' b' => eqv t a' b' /\ (forall q, own t a q -> own t a' q))
       (put_set a s t cs') (put_set b s t cs').
Proof.
  intros E Hr Hg Hp Ha. pose proof Hg as Hgb. rewrite (q_sets _ _ _ E) in Hgb by done.
  assert (forall x, get_set x s t = Ok cs -> exists x', put_set x s t cs' = Ok x') as Htot.
  { intros x Hx. destruct (sets_put_total _ _ cs' _ Hx) as [ss Hss].
    unfold put_set. rewrite Hss. eexists. reflexivity. }
  destruct (Htot a Hg) as [a' HA], (Htot b Hgb) as [b' HB]. rewrite HA, HB. cbn.
  destruct (perm_put _ _ _ _ _ (q_wf_l _ _ _ E) Hg Hp Ha HA) as [WA OA].
  destruct (perm_put _ _ _ _ _ (q_wf_r _ _ _ E) Hgb Hp Ha HB) as [WB _].
  split; [|done].
  assert (ts_class a' = ts_class a /\ ts_numSets a' = ts_numSets a /\ ts_blks a' = ts_blks a /\
          ts_blks b' = ts_blks b /\ core_eq t a' b') as (K1 & K2 & K3 & K4 & K5).
  { unfold put_set in HA, HB. inv_ok. cbn. repeat split; try done; apply E. }
  constructor; [done..| | |].
  - rewrite K1. apply E.
  - intros s' Hr'. rewrite (get_put_set _ _ _ _ _ HA), (get_put_set _ _ _ _ _ HB). case_decide; [done|].
    apply E. congruence.
  - intros s' c p Hr' Hc Hpc. rewrite K3, K4. rewrite (get_put_set _ _ _ _ _ HA) in Hc.
    rewrite K2 in Hr'. case_decide.
    + inv_ok. rewrite Hp in Hpc. by eapply q_blks.
    + by eapply q_blks.
Qed.

(** The relation that the steps of an operation keep. *)
Definition keeps (a a' b' : TagStore) : Prop :=
  eqv t a' b' /\ (forall q, own t a q -> own t a' q) /\ ts_numSets a' = ts_numSets a.

Lemma eqv_extractSet a b addr : eqv t a b -> extractSet b addr = extractSet a addr.
Proof. intros E. symmetry. apply (core_extractSet t), E. Qed.

Lemma eqv_extractTag a b addr : eqv t a b -> extractTag b addr = extractTag a addr.
Proof. intros E. symmetry. apply (core_extractTag t), E. Qed.

Lemma eqv_set_range a b addr : eqv t a b -> 0 <= extractSet a addr < ts_numSets a.
Proof. intros E. apply extractSet_range, (q_wf_l _ _ _ E). Qed.

(** The set an address selects, the same on both sides. *)
Lemma eqv_get_set a b s :
  eqv t a b -> 0 <= s < ts_numSets a ->
  exists cs, get_set a s t = Ok cs /\ get_set b s t = Ok cs /\ cs_assoc cs = assoc_of_tc a t /\
    forall p, p ∈ cs_blks cs -> own t a p.
Proof.
  intros E Hr. destruct (w_shape _ (q_wf_l _ _ _ E) s t Hr (q_tid _ _ _ E)) as (cs & Hg & Ha).
  exists cs. rewrite <- (q_sets _ _ _ E) by done. repeat split; [done..|].
  intros p Hp. by exists s, cs.
Qed.

Lemma eqv_findBlk a b s cs tag :
  eqv t a b -> 0 <= s < ts_numSets a -> get_set a s t = Ok cs ->
  CacheSet_findBlk (ts_blks b) cs tag = CacheSet_findBlk (ts_blks a) cs tag.
Proof.
  intros E Hr Hg. pose proof Hg as Hgb. rewrite (q_sets _ _ _ E) in Hgb by done.
  rewrite !findBlk_spec.
  - f_equal. symmetry. apply find_tag_ext. intros p Hp. by eapply q_blks.
  - exact (ts_wf_cs _ _ _ (q_wf_l _ _ _ E) Hg).
  - exact (ts_wf_cs _ _ _ (q_wf_r _ _ _ E) Hgb).
Qed.

Lemma r_move (mv : CacheSet -> BlkPtr -> result CacheSet) a b s p :
  (forall n cs cs', cs_wf n cs -> mv cs p = Ok cs' ->
     cs_blks cs' ≡ₚ cs_blks cs /\ cs_assoc cs' = cs_assoc cs) ->
  eqv t a b -> 0 <= s < ts_numSets a ->
  rres (keeps a) (cs ← get_set a s t; cs ← mv cs p; put_set a s t cs)
                 (cs ← get_set b s t; cs ← mv cs p; put_set b s t cs).
Proof.
  intros Hmv E Hr. destruct (eqv_get_set _ _ _ E Hr) as (cs & HA & HB & _).
  rewrite HA, HB, !bind_Ok_l. destruct (mv cs p) as [cs'|] eqn:Hm; [|done].
  rewrite !bind_Ok_l. destruct (Hmv _ _ _ (ts_wf_cs _ _ _ (q_wf_l _ _ _ E) HA) Hm) as [Hp Ha].
  pose proof (r_put _ _ _ _ _ E Hr HA Hp Ha) as HR.
  destruct (put_set a s t cs') eqn:HP, (put_set b s t cs'); cbn in *; try done.
  destruct HR. unfold keeps. split_and!; [done..|]. unfold put_set in HP. by inv_ok.
Qed.

Lemma r_moveToHead a b s p :
  eqv t a b -> 0 <= s < ts_numSets a ->
  rres (keeps a) (ts_moveToHead a s t p) (ts_moveToHead b s t p).
Proof. apply (r_move CacheSet_moveToHead). intros n cs cs' W H. by apply (moveToHead_wf _ _ _ _ W) in H as [_ H]. Qed.

Lemma r_moveToTail a b s p :
  eqv t a b -> 0 <= s < ts_numSets a ->
  rres (keeps a) (ts_moveToTail a s t p) (ts_moveToTail b s t p).
Proof. apply (r_move CacheSet_moveToTail). intros n cs cs' W H. by apply (moveToTail_wf _ _ _ _ W) in H as [_ H]. Qed.

Lemma r_upd a b p f :
  eqv t a b -> own t a p -> (forall x, blk_set (f x) = blk_set x) ->
  rres (keeps a) (ts_upd_blk a p f) (ts_upd_blk b p f).
Proof.
  intros E Ho Hf. pose proof (r_upd_blk _ _ _ _ E Ho Hf) as HR.
  unfold ts_upd_blk in *. destruct (ts_blk a p), (ts_blk b p); cbn in *; try done.
  destruct HR. by unfold keeps; split_and!.
Qed.

Lemma r_occ_add a b m d :
  eqv t a b -> rres (keeps a) (occ_add a m d) (occ_add b m d).
Proof.
  intros E. unfold occ_add. rewrite <- (e_maxMasters _ _ _ (q_core _ _ _ E)).
  pose proof (e_occupancies _ _ _ (q_core _ _ _ E)) as Hl.
  eapply rres_bind; [apply rres_eq | intros _ _ _].
  destruct (decide (0 <= m < Z.of_nat (length (ts_occupancies a)))) as [Hm|Hm].
  - destruct (arr_get_total (ts_occupancies a) m) as [x ->]; [lia|].
    destruct (arr_get_total (ts_occupancies b) m) as [y ->]; [lia|]. rewrite !bind_Ok_l.
    destruct (arr_set_total (ts_occupancies a) m (x + d)) as [la HA]; [lia|].
    destruct (arr_set_total (ts_occupancies b) m (y + d)) as [lb HB]; [lia|].
    rewrite HA, HB, !bind_Ok_l. apply arr_set_length in HA, HB. cbn. unfold keeps. split_and!; [|done..].
    eapply eqv_same; [done..| |]; intros; by constructor.
  - assert (forall (l : list Z), length l = length (ts_occupancies a) -> arr_get l m = Err OutOfBounds)
      as Hoob.
    { intros l Hll. unfold arr_get. case_decide; [|done].
      rewrite lookup_ge_None_2; [done | lia]. }
    rewrite !Hoob by done. done.
Qed.

Lemma keeps_eqv a a' b' : keeps a a' b' -> eqv t a' b'.
Proof. by intros [? _]. Qed.

Lemma keeps_refl a b : eqv t a b -> keeps a a b.
Proof. intros E. unfold keeps. by split_and!. Qed.

Lemma keeps_trans a a1 b1 a2 b2 : keeps a a1 b1 -> keeps a1 a2 b2 -> keeps a a2 b2.
Proof. intros (_ & O1 & N1) (E2 & O2 & N2). unfold keeps. split_and!; [done | auto | congruence]. Qed.

(** Sequencing: the second step starts from related stores. *)
Lemma r_then a m1 m2 f g :
  rres (keeps a) m1 m2 ->
  (forall a1 b1, keeps a a1 b1 -> rres (keeps a1) (f a1) (g b1)) ->
  rres (keeps a) (m1 ≫= f) (m2 ≫= g).
Proof.
  intros H1 H2. eapply rres_bind; [exact H1|]. intros a1 b1 K.
  eapply rres_mono; [by apply H2|]. intros a2 b2. by eapply keeps_trans.
Qed.

(** The result of an access: related stores, the same block and latency. *)
Definition same_access (x y : TagStore * option BlkPtr * Z) : Prop :=
  eqv t x.1.1 y.1.1 /\ x.1.2 = y.1.2 /\ x.2 = y.2 /\
  match x.1.2 with Some p => own t x.1.1 p | None => True end.

Lemma r_LRU_access a b addr m now :
  eqv t a b -> rres same_access (LRU_accessBlock a addr m t now) (LRU_accessBlock b addr m t now).
Proof.
  intros E. unfold LRU_accessBlock. cbv zeta.
  rewrite (eqv_extractSet _ _ _ E), (eqv_extractTag _ _ _ E).
  pose proof (eqv_set_range _ _ addr E) as Hr.
  destruct (eqv_get_set _ _ _ E Hr) as (cs & HA & HB & _ & Hown). rewrite HA, HB, !bind_Ok_l.
  rewrite (eqv_findBlk _ _ _ _ _ E Hr HA).
  destruct (CacheSet_findBlk (ts_blks a) cs (extractTag a addr)) as [[p|]|] eqn:Hf; [| |done];
    rewrite !bind_Ok_l.
  - pose proof (Hown p (findBlk_elem _ _ _ _ _ _ (q_wf_l _ _ _ E) HA Hf)) as Hp.
    eapply rres_bind; [by apply r_moveToHead|]. intros a1 b1 (E1 & O1 & N1).
    unfold ts_blk, blk_deref at 1 2. rewrite <- (own_lookup _ _ _ E1 (O1 _ Hp)).
    destruct (ts_blks a1 !! p) as [x|] eqn:Hx; [|done]. cbn [of_option]. rewrite !bind_Ok_l.
    eapply rres_bind; [by apply r_upd; auto|]. intros a2 b2 (E2 & O2 & _).
    cbn. unfold same_access. cbn. split_and!; [done | done | | auto].
    unfold hit_lat. by rewrite (e_hitLatency _ _ _ (q_core _ _ _ E1)).
  - pose proof (w_missCounter _ (q_wf_l _ _ _ E)). pose proof (w_missCounter _ (q_wf_r _ _ _ E)).
    pose proof (e_numSets _ _ _ (q_core _ _ _ E)) as Hn.
    destruct (arr_get_total (ts_missCounter a) (extractSet a addr)) as [x ->]; [lia|].
    destruct (arr_get_total (ts_missCounter b) (extractSet a addr)) as [y ->]; [lia|].
    rewrite !bind_Ok_l.
    destruct (arr_set_total (ts_missCounter a) (extractSet a addr) (u32 (x + 1))) as [la HLa]; [lia|].
    destruct (arr_set_total (ts_missCounter b) (extractSet a addr) (u32 (y + 1))) as [lb HLb]; [lia|].
    rewrite HLa, HLb, !bind_Ok_l. apply arr_set_length in HLa, HLb.
    cbn. unfold same_access. cbn. split_and!; [|done|apply (q_core _ _ _ E)|done].
    eapply eqv_same; [done..| |]; intros; by constructor.
Qed.

Lemma eqv_put_ext a b e e' :
  eqv t a b -> ts_class a = IsC_DYNALRU e -> ts_class b = IsC_DYNALRU e ->
  c_L_assoc e' = c_L_assoc e -> c_H_assoc e' = c_H_assoc e -> c_H_min e' = c_H_min e ->
  eqv t (put_ext e' a) (put_ext e' b).
Proof.
  intros [[] W1 W2 Hv Hs Hb] KA KB HL HH Hm.
  constructor; [by constructor | by eapply put_ext_wf | by eapply put_ext_wf | | |].
  - rewrite KA in Hv. done.
  - unfold get_set in *. rewrite KA, KB in Hs. exact Hs.
  - unfold get_set in *. rewrite KA in Hb. exact Hb.
Qed.

Lemma r_umon a b addr o lat :
  eqv t a b -> t = 0 -> match o with Some p => own t a p | None => True end ->
  rres same_access
    (e ← get_ext a; e ← umon_access e (ts_assoc a) (extractSet a addr) (extractTag a addr);
     Ok (put_ext e a, o, lat))
    (e ← get_ext b; e ← umon_access e (ts_assoc b) (extractSet a addr) (extractTag a addr);
     Ok (put_ext e b, o, lat)).
Proof.
  intros E Ht Hw. pose proof (core_eq_class _ _ _ (q_core _ _ _ E) Ht) as Hc.
  unfold get_ext. rewrite <- Hc, <- (e_assoc _ _ _ (q_core _ _ _ E)).
  destruct (ts_class a) eqn:K1; try done. rewrite !bind_Ok_l.
  destruct (umon_access _ _ _ _) as [e'|] eqn:HU; [|done].
  rewrite !bind_Ok_l. apply umon_access_sizes in HU as (? & ? & ?).
  cbn. unfold same_access. cbn. split_and!; [by eapply eqv_put_ext | done | done |].
  destruct o; [|done]. destruct Hw as (s & cs & Hw). exists s, cs.
  unfold get_set in *. by rewrite K1 in Hw.
Qed.

Lemma r_C_access a b addr m now :
  eqv t a b ->
  rres same_access (C_DYNALRU_accessBlock a addr m t now) (C_DYNALRU_accessBlock b addr m t now).
Proof.
  intros E. unfold C_DYNALRU_accessBlock. cbv zeta.
  destruct (LRU_accessBlock a addr m t now) as [[[a1 o1] l1]|] eqn:HA;
    pose proof (r_LRU_access _ _ addr m now E) as HR; rewrite HA in HR;
    (destruct (LRU_accessBlock b addr m t now) as [[[b1 o2] l2]|]; cbn in HR; try done).
  - destruct HR as (E1 & Ho & Hl & Hw). cbn in *. subst.
    destruct (Z.eqb_spec t 0) as [Ht|]; [|unfold same_access; by split_and!].
    pose proof (ls_LRU_access t _ _ _ _ _ _ _ _ (q_wf_l _ _ _ E) HA) as [L _].
    specialize (L 1 ltac:(by left)).
    rewrite (eqv_extractSet _ _ _ E), (eqv_extractTag _ _ _ E).
    rewrite (core_extractSet 1 _ _ addr L), (core_extractTag 1 _ _ addr L). by apply r_umon.
Qed.

Lemma r_access a b addr m now :
  partition_local (ts_class a) -> eqv t a b ->
  rres same_access (accessBlock a addr m t now) (accessBlock b addr m t now).
Proof.
  intros Hk E. pose proof (e_class _ _ _ (q_core _ _ _ E)) as Hkv. unfold accessBlock.
  destruct (ts_class a), (ts_class b); cbn in Hkv; try destruct (t =? 0); try discriminate;
    try done; by apply r_LRU_access || apply r_C_access.
Qed.

(** Lookups. *)
Lemma r_findBlock a b addr :
  partition_local (ts_class a) -> eqv t a b ->
  rres (fun o o' => o = o' /\ match o with Some p => own t a p | None => True end)
       (findBlock a addr t) (findBlock b addr t).
Proof.
  intros Hk E. assert (findBlock a addr t = LRU_findBlock a addr t /\
                       findBlock b addr t = LRU_findBlock b addr t) as [-> ->].
  { pose proof (e_class _ _ _ (q_core _ _ _ E)) as Hkv. unfold findBlock.
    destruct (ts_class a), (ts_class b); cbn in Hkv; try destruct (t =? 0); done. }
  unfold LRU_findBlock. rewrite (eqv_extractSet _ _ _ E), (eqv_extractTag _ _ _ E).
  pose proof (eqv_set_range _ _ addr E) as Hr.
  destruct (eqv_get_set _ _ _ E Hr) as (cs & HA & HB & _ & Hown). rewrite HA, HB, !bind_Ok_l.
  rewrite (eqv_findBlk _ _ _ _ _ E Hr HA).
  destruct (CacheSet_findBlk _ _ _) as [[p|]|] eqn:Hf; cbn; try done. split; [done|].
  apply Hown. by eapply findBlk_elem; [apply E | |].
Qed.

Lemma r_findVictim a b addr :
  eqv t a b ->
  rres (fun p p' => p = p' /\ own t a p) (LRU_findVictim a addr t) (LRU_findVictim b addr t).
Proof.
  intros E. unfold LRU_findVictim. rewrite (eqv_extractSet _ _ _ E).
  pose proof (eqv_set_range _ _ addr E) as Hr.
  destruct (eqv_get_set _ _ _ E Hr) as (cs & HA & HB & _ & Hown). rewrite HA, HB, !bind_Ok_l.
  rewrite (core_assoc t _ _ t (q_core _ _ _ E)).
  destruct (arr_get _ _) as [p|] eqn:Hp; cbn; [|done]. eauto using arr_get_elem.
Qed.

(** Replacement. *)
Lemma r_insert_touch a b p x now :
  eqv t a b -> own t a p -> ts_blks a !! p = Some x ->
  keeps a (insert_touch a p x now) (insert_touch b p x now).
Proof.
  intros E Ho Hx. unfold insert_touch. destruct (blk_isTouched x); [by apply keeps_refl|].
  pose proof (eqv_set_blk _ _ p x (with_blk_isTouched true x) E Ho Hx eq_refl) as E1.
  unfold keeps. split_and!; [|by case_goal..].
  repeat case_goal; (eapply eqv_same; [exact E1|..]; try done; intros; by constructor).
Qed.

Lemma r_insert_evict a b p :
  eqv t a b -> own t a p -> rres (keeps a) (insert_evict a p) (insert_evict b p).
Proof.
  intros E Ho. unfold insert_evict, ts_blk, blk_deref. rewrite <- (own_lookup _ _ _ E Ho).
  destruct (ts_blks a !! p) as [x|] eqn:Hx; [|done]. cbn [of_option]. rewrite !bind_Ok_l.
  destruct (isValid x); [|by apply keeps_refl].
  pose proof (eqv_set_blk _ _ p x (with_blk_refCount 0 x) E Ho Hx eq_refl) as E1.
  match goal with |- rres _ (occ_add ?c _ _) (occ_add ?d _ _) => assert (eqv t c d) as E2 end.
  { eapply eqv_same; [exact E1|..]; try done; intros; by constructor. }
  eapply rres_mono; [by apply r_occ_add|]. intros a2 b2 (E3 & O3 & N3).
  unfold keeps. by split_and!.
Qed.

Lemma r_insertBlock a b addr p m now :
  eqv t a b -> own t a p ->
  rres (keeps a) (LRU_insertBlock a addr p m t now) (LRU_insertBlock b addr p m t now).
Proof.
  intros E Ho. unfold LRU_insertBlock. unfold ts_blk, blk_deref at 1 2.
  rewrite <- (own_lookup _ _ _ E Ho).
  destruct (ts_blks a !! p) as [x|] eqn:Hx; [|done]. cbn [of_option]. rewrite !bind_Ok_l.
  cbv zeta. pose proof (r_insert_touch _ _ _ _ now E Ho Hx) as K1.
  eapply (rres_mono (keeps (insert_touch a p x now))); [|intros ??; by apply keeps_trans with (b1 := insert_touch b p x now)].
  destruct K1 as (E1 & O1 & N1). specialize (O1 _ Ho).
  eapply r_then; [by apply r_insert_evict|]. intros a2 b2 (E2 & O2 & N2). specialize (O2 _ O1).
  rewrite (eqv_extractTag _ _ _ E2).
  eapply r_then; [by apply r_upd|]. intros a3 b3 (E3 & O3 & N3). specialize (O3 _ O2).
  eapply r_then; [by apply r_occ_add|]. intros a4 b4 (E4 & O4 & N4). specialize (O4 _ O3).
  eapply r_then; [by apply r_upd|]. intros a5 b5 (E5 & O5 & N5).
  rewrite (eqv_extractSet _ _ _ E5). apply r_moveToHead; [done|]. by eapply eqv_set_range.
Qed.

Lemma r_invalidate a b p :
  eqv t a b -> own t a p ->
  rres (keeps a) (LRU_invalidateBlk a (Some p) t) (LRU_invalidateBlk b (Some p) t).
Proof.
  intros E Ho. cbn. unfold ts_blk, blk_deref at 1 2. rewrite <- (own_lookup _ _ _ E Ho).
  destruct (ts_blks a !! p) as [x|] eqn:Hx; [|done]. cbn [of_option]. rewrite !bind_Ok_l.
  assert (0 <= blk_set x < ts_numSets a) as Hr.
  { destruct Ho as (s & cs & Hs & Hg & Hp). destruct (w_set _ (q_wf_l _ _ _ E) _ _ Hg) as [_ Hw].
    destruct (Hw p Hp) as (y & Hy & Hset). rewrite ix_set_of in Hset. congruence. }
  eapply r_then.
  - destruct (isValid x); [|by apply keeps_refl].
    match goal with |- rres _ (occ_add ?c _ _ ≫= _) (occ_add ?d _ _ ≫= _) => assert (eqv t c d) as E1 end.
    { eapply eqv_same; [exact E|..]; try done; intros; by constructor. }
    eapply rres_bind; [by apply r_occ_add|]. intros a2 b2 (E2 & O2 & N2). pose proof (O2 _ Ho).
    cbn in N2. eapply (rres_mono (keeps a2)).
    + eapply r_then; [by apply r_upd|]. intros a3 b3 (E3 & O3 & N3).
      apply r_moveToTail; [done | lia].
    + intros a3 b3 (E3 & O3 & N3). unfold keeps. split_and!; [done | | lia].
      intros q Hq. apply O3, O2. exact Hq.
  - intros a1 b1 (E1 & O1 & N1). apply r_upd; [done | by apply O1 | done].
Qed.

End Eqv.

(** * Traces of operations *)

(** What a cache does to a tag store on behalf of a thread: look a block up,
    access it, change the contents of a block that hits, replace the victim
    of an address (find it, insert, set the new contents), invalidate. *)
Inductive TagOp :=
  | OpFind (addr tid : Z)
  | OpAccess (addr master tid now : Z)
  | OpUpdate (addr tid : Z) (f : CacheBlk -> CacheBlk)
  | OpFill (addr master tid now : Z) (f : CacheBlk -> CacheBlk)
  | OpInval (addr tid : Z).

Definition op_tid (op : TagOp) : Z :=
  match op with
  | OpFind _ t | OpAccess _ _ t _ | OpUpdate _ t _ | OpFill _ _ t _ _ | OpInval _ t => t
  end.

(** What the thread sees: the block and its contents, and a latency. *)
Record TagObs := mkTagObs { obs_blk : option (BlkPtr * CacheBlk); obs_lat : Z }.

Definition observe (ts : TagStore) (o : option BlkPtr) (lat : Z) : result TagObs :=
  match o with
  | Some p => b ← ts_blk ts p; Ok (mkTagObs (Some (p, b)) lat)
  | None => Ok (mkTagObs None lat)
  end.

(** A change of contents leaves the set number of the block alone. *)
Definition in_place (f : CacheBlk -> CacheBlk) (b : CacheBlk) : CacheBlk :=
  with_blk_set (blk_set b) (f b).

Definition tag_step (ts : TagStore) (op : TagOp) : result (TagStore * TagObs) :=
  match op with
  | OpFind addr tid =>
      o ← findBlock ts addr tid; ob ← observe ts o 0; Ok (ts, ob)
  | OpAccess addr m tid now =>
      '(ts, o, lat) ← accessBlock ts addr m tid now; ob ← observe ts o lat; Ok (ts, ob)
  | OpUpdate addr tid f =>
      o ← findBlock ts addr tid; ob ← observe ts o 0;
      ts ← (match o with Some p => ts_upd_blk ts p (in_place f) | None => Ok ts end);
      Ok (ts, ob)
  | OpFill addr m tid now f =>
      p ← LRU_findVictim ts addr tid; ob ← observe ts (Some p) 0;
      ts ← LRU_insertBlock ts addr p m tid now;
      ts ← ts_upd_blk ts p (in_place f);
      Ok (ts, ob)
  | OpInval addr tid =>
      o ← findBlock ts addr tid; ob ← observe ts o 0;
      ts ← LRU_invalidateBlk ts o tid; Ok (ts, ob)
  end.

Fixpoint tag_run (ts : TagStore) (ops : list TagOp) : result (TagStore * list (Z * TagObs)) :=
  match ops with
  | [] => Ok (ts, [])
  | op :: ops' =>
      '(ts, ob) ← tag_step ts op;
      '(ts, tr) ← tag_run ts ops';
      Ok (ts, (op_tid op, ob) :: tr)
  end.

(** * Unwinding *)


(** Every operation of [u] is a step on one set of [u]. *)
Lemma tag_step_local ts op ts' ob :
  partition_local (ts_class ts) -> ts_wf ts -> tag_step ts op = Ok (ts', ob) ->
  exists s, local_step (op_tid op) (set_ix (ts_class ts) s (op_tid op)) ts ts'.
Proof.
  intros Hk Hwf H.
  assert (forall addr tid, findBlock ts addr tid = LRU_findBlock ts addr tid) as Hfb
    by (intros; unfold findBlock; by destruct (ts_class ts)).
  assert (forall addr tid o, LRU_findBlock ts addr tid = Ok o ->
            exists cs, get_set ts (extractSet ts addr) tid = Ok cs /\
              forall p, o = Some p -> p ∈ cs_blks cs) as Hfind.
  { intros addr tid o Ho. unfold LRU_findBlock in Ho. inv_ok. exists x. split; [done|].
    intros p ->. by eapply findBlk_elem. }
  destruct op as [addr tid|addr m tid now|addr tid f|addr m tid now f|addr tid];
    cbn [tag_step op_tid] in *; rewrite ?Hfb in H; inv_ok.
  - destruct (Hfind _ _ _ Hx) as (cs & Hg & _). eexists. by eapply local_step_refl.
  - eexists. by eapply ls_access.
  - destruct (Hfind _ _ _ Hx) as (cs & Hg & Hin). exists (extractSet ts addr).
    destruct x as [p|]; inv_ok; [|by eapply local_step_refl].
    eapply ls_upd_blk; [exact Hg | by apply Hin | | exact Hx1]. done.
  - destruct (findVictim_elem _ _ _ _ Hx) as (cs & Hg & Hp). exists (extractSet ts addr).
    eapply ls_then; [by eapply ls_insertBlock | done |]. intros c1 W1 G1 I1.
    eapply ls_upd_blk; [done | by eapply I1 | | exact Hx2]. done.
  - destruct (Hfind _ _ _ Hx) as (cs & Hg & Hin). exists (extractSet ts addr).
    destruct x as [p|]; [|cbn in Hx1; inv_ok; by eapply local_step_refl].
    eapply ls_invalidate; eauto.
Qed.

Lemma tag_step_wf ts op ts' ob :
  partition_local (ts_class ts) -> ts_wf ts -> tag_step ts op = Ok (ts', ob) ->
  partition_local (ts_class ts') /\ ts_wf ts'.
Proof.
  intros Hk Hwf H. destruct (tag_step_local _ _ _ _ Hk Hwf H) as [s L].
  split; [|by eapply local_step_wf]. destruct L as [C _]. specialize (C 1 ltac:(by left)).
  pose proof (e_class _ _ _ C). destruct (ts_class ts), (ts_class ts'); naive_solver.
Qed.

Lemma tag_run_inv ops : forall ts ts' tr,
  partition_local (ts_class ts) -> ts_wf ts -> tag_run ts ops = Ok (ts', tr) -> ts_wf ts'.
Proof.
  induction ops as [|op ops IH]; intros ts ts' tr Hk Hwf H; cbn in H; inv_ok; [done|].
  destruct (tag_step_wf _ _ _ _ Hk Hwf Hx). by eapply IH.
Qed.

(** Another thread's step is invisible. *)
Lemma local_respect t u s a b :
  Isolating (ts_class a) -> t <> u -> ts_wf a -> valid_tid (ts_class a) t ->
  local_step u (set_ix (ts_class a) s u) a b -> eqv t a b.
Proof.
  intros Hiso Hne Hwf Hv L. pose proof (local_step_wf _ _ _ _ L Hwf) as Hwf'.
  pose proof (fun s t => ls_same_ix _ _ _ _ s t L) as Hix.
  destruct L as [Hc (cs & cs' & A1 & A2 & A3 & A4 & A5 & A6 & A7 & A8)].
  assert (forall s', set_ix (ts_class a) s' t <> set_ix (ts_class a) s u) as Hdis.
  { intros s' He. apply Hne. by eapply iso_disjoint. }
  constructor; [apply Hc; lia | done | done | done | |].
  - intros s' _. unfold get_set. rewrite Hix. symmetry. by apply A5.
  - intros s' c p _ Hg Hp. symmetry. apply A7. intros Hp'.
    eapply (all_ptrs_disjoint (ts_sets a)); [apply Hwf | exact Hg | exact A1 | apply Hdis | done | done].
Qed.

Lemma r_observe t a b o lat :
  eqv t a b -> match o with Some p => own t a p | None => True end ->
  rres eq (observe a o lat) (observe b o lat).
Proof.
  intros E Ho. destruct o as [p|]; [|done]. cbn. unfold ts_blk, blk_deref.
  rewrite (own_lookup t _ _ _ E Ho). apply rres_eq.
Qed.

(** The thread's own step does the same on both sides. *)
Lemma r_tag_step t a b op :
  partition_local (ts_class a) -> eqv t a b -> op_tid op = t ->
  rres (fun x y => eqv t x.1 y.1 /\ x.2 = y.2) (tag_step a op) (tag_step b op).
Proof.
  intros Hk E <-.
  destruct op as [addr t|addr m t now|addr t f|addr m t now f|addr t]; cbn [tag_step op_tid] in *.
  - eapply rres_bind; [by apply r_findBlock|]. intros o _ [<- Ho].
    eapply rres_bind; [by eapply r_observe|]. by intros ob _ <-.
  - eapply rres_bind; [by apply r_access|]. intros [[a1 o] l] [[b1 ?] ?] (E1 & Heq & Hl & Ho).
    cbn in *. subst. eapply rres_bind; [by eapply r_observe|]. by intros ob _ <-.
  - eapply rres_bind; [by apply r_findBlock|]. intros o _ [<- Ho].
    eapply rres_bind; [by eapply r_observe|]. intros ob _ <-.
    destruct o as [p|]; [|done].
    eapply rres_bind; [by apply r_upd|]. by intros a1 b1 [E1 _].
  - eapply rres_bind; [by apply r_findVictim|]. intros p _ [<- Ho].
    eapply rres_bind; [by eapply (r_observe t _ _ (Some p))|]. intros ob _ <-.
    eapply rres_bind; [by apply r_insertBlock|]. intros a1 b1 (E1 & O1 & _).
    eapply rres_bind; [by apply r_upd; auto|]. by intros a2 b2 [E2 _].
  - eapply rres_bind; [by apply r_findBlock|]. intros o _ [<- Ho].
    eapply rres_bind; [by eapply r_observe|]. intros ob _ <-.
    destruct o as [p|]; [|done].
    eapply rres_bind; [by apply r_invalidate|]. by intros a1 b1 [E1 _].
Qed.

Lemma eqv_sym t a b : eqv t a b -> eqv t b a.
Proof.
  intros [Hc W1 W2 Hv Hs Hb]. pose proof (e_numSets _ _ _ Hc) as Hn. constructor; [done..| | |].
  - by eapply (kview_valid t); [symmetry; apply Hc|].
  - intros s Hr. symmetry. apply Hs. lia.
  - intros s cs p Hr Hg Hp. rewrite <- Hs in Hg by lia. symmetry. eapply Hb; eauto. lia.
Qed.

Lemma eqv_trans t a b c : eqv t a b -> eqv t b c -> eqv t a c.
Proof.
  intros [Hc W1 W2 Hv Hs Hb] [Hc' _ W3 _ Hs' Hb']. pose proof (e_numSets _ _ _ Hc) as Hn.
  constructor; [by etransitivity | done..| |].
  - intros s Hr. rewrite Hs by done. apply Hs'. lia.
  - intros s cs p Hr Hg Hp. rewrite (Hb s cs p) by done. apply (Hb' s cs); [lia | | done].
    by rewrite <- Hs.
Qed.

Lemma eqv_isolating t a b : eqv t a b -> Isolating (ts_class a) -> Isolating (ts_class b).
Proof. intros E. eapply isolating_kview, E. Qed.

Lemma purge_run t ops : forall a b a' tr,
  Isolating (ts_class a) -> eqv t a b -> tag_run a ops = Ok (a', tr) ->
  exists b', tag_run b (filter (fun op => op_tid op = t) ops)
             = Ok (b', filter (fun x => x.1 = t) tr) /\ eqv t a' b'.
Proof.
  induction ops as [|op ops IH]; intros a b a' tr Hiso E H; cbn [tag_run] in H; inv_ok.
  { exists b. by split. }
  rename t0 into a1, t1 into ob, l into tr'.
  destruct (tag_step_local _ _ _ _ iso_local (q_wf_l _ _ _ E) Hx) as [s L].
  assert (Isolating (ts_class a1)) as Hiso1.
  { eapply (isolating_kview 1); [|done]. destruct L as [L _]. apply L. by left. }
  rewrite !filter_cons. cbn [fst]. destruct (decide (op_tid op = t)) as [Ht|Ht].
  - pose proof (r_tag_step _ _ _ _ iso_local E Ht) as HR. rewrite Hx in HR.
    cbn [tag_run]. destruct (tag_step b op) as [[b1 ob']|] eqn:Hb; cbn in HR; [|done].
    destruct HR as [E1 <-]. destruct (IH _ _ _ _ Hiso1 E1 Hx0) as (b' & Hrun & E').
    exists b'. rewrite bind_Ok_l. cbn beta iota. rewrite Hrun. done.
  - apply (IH a1 b a' tr' Hiso1); [|done]. eapply eqv_trans; [|exact E]. apply eqv_sym.
    eapply local_respect; [done | | apply E | apply E | exact L]. congruence.
Qed.

(** C1. Noninterference of the partitioned tag stores.  On a well-formed
    store of an isolating class, for any interleaving of operations by any
    threads that runs to its end, a thread observes exactly what it would have
    observed had it run alone on the same store: the same hits and misses, the
    same blocks with the same contents, the same latencies and the same
    victims; and the two final stores look the same to it. *)
Theorem partition_noninterference ts t ops ts' tr :
  Isolating (ts_class ts) -> ts_wf ts -> valid_tid (ts_class ts) t ->
  tag_run ts ops = Ok (ts', tr) ->
  exists ts'', tag_run ts (filter (fun op => op_tid op = t) ops)
               = Ok (ts'', filter (fun x => x.1 = t) tr) /\ eqv t ts' ts''.
Proof. intros Hiso Hwf Hv H. eapply purge_run; [done | by apply eqv_refl | done]. Qed.

(** * Instances of the theorem on built stores *)

Definition built (r : result TagStore) : TagStore :=
  match r with
  | Ok ts => ts
  | Err _ => mkTagStore IsLRU 0 0 0 0 0 0 0 0 [] [] [] 0 0 false 0 0 0 0 0 [] 0
  end.

Lemma built_Ok r (P : TagStore -> Prop) : (exists ts, r = Ok ts /\ P ts) -> P (built r).
Proof. by intros (ts & -> & ?). Qed.

(** Make the block valid and readable, as a fill does. *)
Definition fill_valid (b : CacheBlk) : CacheBlk :=
  with_blk_status (Z.lor BlkValid BlkReadable) b.

(** Two threads with colliding addresses: thread 1 fills its ways and reads
    them back while thread 0 streams through the same set. *)
Definition colliding_ops : list TagOp :=
  [OpFill 0x00 0 1 0 fill_valid; OpFill 0x40 0 0 1 fill_valid;
   OpFill 0x80 0 0 2 fill_valid; OpFill 0xc0 0 0 3 fill_valid; OpFill 0x100 0 0 4 fill_valid;
   OpAccess 0x00 0 1 5; OpInval 0x40 0; OpAccess 0x40 0 1 6].

Definition way_store : TagStore := built (WPLRU_new 4 4 4 2 2 8).

Lemma way_store_wf : ts_wf way_store.
Proof. apply (built_Ok _ ts_wf), WPLRU_new_spec; [by repeat split | done]. Qed.

Lemma partition_noninterference_witness :
  exists ts'' tr,
    tag_run way_store (filter (fun op => op_tid op = 1) colliding_ops)
      = Ok (ts'', filter (fun x => x.1 = 1) tr) /\
    length (filter (fun x => x.1 = 1) tr) = 3%nat.
Proof.
  destruct (tag_run way_store colliding_ops) as [[ts' tr]|] eqn:H;
    [|vm_compute in H; discriminate].
  destruct (partition_noninterference way_store 1 colliding_ops ts' tr)
    as (ts'' & Hrun & _); [exact (WPLRU_isolating 2) | exact way_store_wf | vm_compute; split; congruence | exact H |].
  exists ts'', tr. split; [exact Hrun|]. vm_compute in H. injection H as <- <-. reflexivity.
Defined.

(** Well-formedness is an invariant of a store: from a store the builder
    made, of any class but [F_DYNALRU], every trace of operations by any threads
    leads only to well-formed stores (consistent address split, each block owned
    by one way of one set and stamped with that set, partitions of their size,
    counters in range). *)
Theorem builder_traces_wf p ts ops ts' tr :
  buildable p -> BUILD_LRU_CACHE p = Ok ts -> partition_local (ts_class ts) ->
  tag_run ts ops = Ok (ts', tr) -> ts_wf ts'.
Proof.
  intros Hb HB Hk H. destruct (BUILD_LRU_CACHE_wf p Hb) as (ts0 & HB0 & Hwf).
  eapply tag_run_inv; [done | | exact H]. congruence.
Qed.

Lemma builder_traces_wf_witness :
  exists ts ts' tr, BUILD_LRU_CACHE (mkTagParams true false false false false 4 4 4 2 2 1 2 8) = Ok ts /\
    tag_run ts colliding_ops = Ok (ts', tr) /\ ts_wf ts'.
Proof.
  set (p := mkTagParams true false false false false 4 4 4 2 2 1 2 8).
  destruct (BUILD_LRU_CACHE p) as [ts|] eqn:HB; [|vm_compute in HB; discriminate].
  destruct (tag_run ts colliding_ops) as [[ts' tr]|] eqn:HR.
  - exists ts, ts', tr. split; [reflexivity|]. split; [exact HR|].
    apply (builder_traces_wf p ts colliding_ops ts' tr); [|exact HB| |exact HR].
    + cbn. repeat split; try reflexivity; vm_compute; congruence.
    + vm_compute in HB. injection HB as <-. exact I.
  - vm_compute in HB. injection HB as <-. vm_compute in HR. discriminate.
Defined.

(** The plain LRU store does not isolate: thread 0's fills change what
    thread 1 sees.  The same interleaving that the partitioned stores hide is
    visible on a well-formed plain store, so the partitioning is what the
    isolation theorem rests on. *)
Theorem plain_LRU_interferes :
  exists ts ts' tr,
    ts_class ts = IsLRU /\ ts_wf ts /\ tag_run ts colliding_ops = Ok (ts', tr) /\
    forall ts'' tr'', tag_run ts (filter (fun op => op_tid op = 1) colliding_ops) = Ok (ts'', tr'') ->
      tr'' <> filter (fun x => x.1 = 1) tr.
Proof.
  assert (ts_wf (built (LRU_new 4 4 4 2 8))) as Hwf.
  { apply built_Ok. destruct (LRU_new_spec 4 4 4 2 8) as (ts & ? & ? & _); [by repeat split|]. eauto. }
  destruct (tag_run (built (LRU_new 4 4 4 2 8)) colliding_ops) as [[ts' tr]|] eqn:H;
    [|vm_compute in H; discriminate].
  exists (built (LRU_new 4 4 4 2 8)), ts', tr. split_and!; [by vm_compute | done | done |].
  intros ts'' tr'' H'. vm_compute in H, H'. injection H as <- <-. injection H' as <- <-.
  vm_compute. congruence.
Qed.
