(* ===== verification/TagsSpec.v ===== *)
(** What a tag store promises its cache: every set of every partition is an
    LRU stack of tags.  The methods of [LRU], which the partitioned classes
    inherit, refine the operations of that stack; the address split is
    lossless. *)

From S2P Require Import Prelude Request MemCmd Packet Blk CacheSet IntMath TagTypes LRU PartLRU DynaLRU Tags TagsWf TagsNew Isolation.

(** * The abstract LRU stack

    Most recently used first; [None] is an invalid way. *)

Definition Stack : Type := list (option Z).

Definition stack_hit (tag : Z) (l : Stack) : bool := bool_decide (Some tag ∈ l).

Fixpoint stack_remove (tag : Z) (l : Stack) : Stack :=
  match l with
  | [] => []
  | x :: l' => if decide (x = Some tag) then l' else x :: stack_remove tag l'
  end.

Definition stack_access (tag : Z) (l : Stack) : Stack :=
  if stack_hit tag l then Some tag :: stack_remove tag l else l.
Definition stack_fill (tag : Z) (l : Stack) : Stack := Some tag :: removelast l.
Definition stack_inval (tag : Z) (l : Stack) : Stack :=
  if stack_hit tag l then stack_remove tag l ++ [None] else l.

Lemma stack_remove_mid tag l1 l2 :
  Some tag ∉ l1 -> stack_remove tag (l1 ++ Some tag :: l2) = l1 ++ l2.
Proof.
  induction l1 as [|x l1 IH]; cbn; intros H.
  - by rewrite decide_True.
  - apply not_elem_of_cons in H as [Hx H]. rewrite decide_False by congruence. by rewrite IH.
Qed.

(** * The stack a set of the store holds *)

Definition way_view (heap : BlkHeap) (p : BlkPtr) : option Z :=
  match heap !! p with
  | Some b => if isValid b then Some (blk_tag b) else None
  | None => None
  end.

Definition set_view (ts : TagStore) (s t : Z) : Stack :=
  match get_set ts s t with
  | Ok cs => map (way_view (ts_blks ts)) (cs_blks cs)
  | Err _ => []
  end.

Lemma way_view_matches heap p b tag :
  heap !! p = Some b -> way_view heap p = Some tag <-> blk_matches tag b = true.
Proof.
  intros Hb. unfold way_view, blk_matches. rewrite Hb, andb_true_iff, Z.eqb_eq.
  destruct (isValid b); naive_solver.
Qed.

Lemma find_tag_split heap tag l p :
  (forall q, q ∈ l -> exists b, heap !! q = Some b) ->
  find_tag heap tag l = Some p ->
  exists l1 l2, l = l1 ++ p :: l2 /\ way_view heap p = Some tag /\
                Some tag ∉ map (way_view heap) l1.
Proof.
  induction l as [|q l IH]; cbn; [done|]. intros Hl H.
  destruct (Hl q) as [b Hb]; [left|]. rewrite Hb in H. destruct (blk_matches tag b) eqn:Hm.
  - injection H as <-. exists [], l. split; [done|]. split; [by eapply way_view_matches|].
    apply not_elem_of_nil.
  - destruct IH as (l1 & l2 & -> & Hp & Hn); [intros; apply Hl; by right | done |].
    exists (q :: l1), l2. split; [done|]. split; [done|]. cbn. apply not_elem_of_cons. split; [|done].
    intros He. symmetry in He. rewrite (way_view_matches _ _ _ _ Hb) in He. congruence.
Qed.

Lemma find_tag_miss heap tag l :
  (forall q, q ∈ l -> exists b, heap !! q = Some b) ->
  find_tag heap tag l = None -> Some tag ∉ map (way_view heap) l.
Proof.
  intros Hl H Hin. rewrite find_tag_None in H. apply list_elem_of_fmap in Hin as (q & He & Hq).
  destruct (Hl q Hq) as [b Hb]. specialize (H q b Hq Hb).
  symmetry in He. rewrite (way_view_matches _ _ _ _ Hb) in He. congruence.
Qed.

(** Updates that keep tag and status are invisible. *)
Lemma way_view_insert_same heap p b b' :
  heap !! p = Some b -> blk_tag b' = blk_tag b -> blk_status b' = blk_status b ->
  forall q, way_view (<[p := b']> heap) q = way_view heap q.
Proof.
  intros Hb Ht Hs q. unfold way_view. destruct (decide (p = q)) as [<-|Hne].
  - rewrite list_lookup_insert_eq by (by eapply lookup_lt_Some). rewrite Hb.
    unfold isValid. by rewrite Ht, Hs.
  - by rewrite list_lookup_insert_ne.
Qed.

Lemma way_view_insert_ne heap p b' q : p <> q -> way_view (<[p := b']> heap) q = way_view heap q.
Proof. intros H. unfold way_view. by rewrite list_lookup_insert_ne. Qed.

Lemma map_way_view_insert_notin heap p b' l :
  p ∉ l -> map (way_view (<[p := b']> heap)) l = map (way_view heap) l.
Proof.
  intros Hp. apply list_fmap_ext. intros i q Hq. apply way_view_insert_ne.
  intros ->. apply Hp. by eapply list_elem_of_lookup_2.
Qed.

(** A step on one set leaves the stacks of the others alone. *)
Lemma local_step_views u ts ts' ix s t :
  ts_wf ts -> local_step u ix ts ts' -> set_ix (ts_class ts) s t <> ix ->
  set_view ts' s t = set_view ts s t.
Proof.
  intros Hwf L Hne. pose proof (ls_same_ix _ _ _ _ s t L) as Hix.
  destruct L as [_ (cs & cs' & A1 & A2 & A3 & A4 & A5 & A6 & A7 & A8)].
  unfold set_view, get_set. rewrite Hix, A5 by done.
  destruct (sets_get (ts_sets ts) (set_ix (ts_class ts) s t)) as [c|] eqn:Hg; [|done].
  apply list_fmap_ext. intros i q Hq. unfold way_view. rewrite A7; [done|].
  intros Hin. eapply all_ptrs_disjoint; [apply Hwf | exact Hg | exact A1 | done | | exact Hin].
  by eapply list_elem_of_lookup_2.
Qed.

Lemma ways_allocated ts s t cs :
  ts_wf ts -> get_set ts s t = Ok cs -> forall q, q ∈ cs_blks cs -> exists b, ts_blks ts !! q = Some b.
Proof. intros Hwf Hg q Hq. destruct (w_set _ Hwf _ _ Hg) as [_ H]. destruct (H q Hq) as (b & ? & _). eauto. Qed.

Lemma ways_nodup ts s t cs : ts_wf ts -> get_set ts s t = Ok cs -> NoDup (cs_blks cs).
Proof. intros Hwf Hg. eapply all_ptrs_nodup; [apply Hwf | exact Hg]. Qed.

Lemma put_set_total ts s t cs cs' :
  get_set ts s t = Ok cs -> exists ts', put_set ts s t cs' = Ok ts' /\ ts_blks ts' = ts_blks ts /\
    ts_class ts' = ts_class ts /\ get_set ts' s t = Ok cs'.
Proof.
  unfold get_set, put_set. intros Hg. destruct (sets_put_total _ _ cs' _ Hg) as [ss Hss].
  rewrite Hss. eexists. split; [reflexivity|]. cbn. split_and!; [done..|]. by eapply sets_get_put_eq.
Qed.

(** Moving a block of the set to the front. *)
Lemma moveToHead_total ts s t cs l1 p l2 :
  ts_wf ts -> get_set ts s t = Ok cs -> cs_blks cs = l1 ++ p :: l2 ->
  exists ts' cs', ts_moveToHead ts s t p = Ok ts' /\ ts_blks ts' = ts_blks ts /\
    ts_class ts' = ts_class ts /\ get_set ts' s t = Ok cs' /\ cs_blks cs' = p :: l1 ++ l2.
Proof.
  intros Hwf Hg Hl. pose proof (ways_nodup _ _ _ _ Hwf Hg) as Hn. rewrite Hl in Hn.
  unfold ts_moveToHead. rewrite Hg, bind_Ok_l.
  rewrite (moveToHead_spec _ _ _ (ts_wf_cs _ _ _ Hwf Hg)) by (rewrite Hl; set_solver).
  rewrite bind_Ok_l, Hl, remove_ptr_mid by done.
  destruct (put_set_total ts s t cs (mkCacheSet (cs_assoc cs) (p :: l1 ++ l2)) Hg)
    as (ts' & HP & HB & HK & HG). eauto 10.
Qed.

Lemma moveToTail_total ts s t cs l1 p l2 :
  ts_wf ts -> get_set ts s t = Ok cs -> cs_blks cs = l1 ++ p :: l2 ->
  exists ts' cs', ts_moveToTail ts s t p = Ok ts' /\ ts_blks ts' = ts_blks ts /\
    ts_class ts' = ts_class ts /\ get_set ts' s t = Ok cs' /\ cs_blks cs' = (l1 ++ l2) ++ [p].
Proof.
  intros Hwf Hg Hl. pose proof (ways_nodup _ _ _ _ Hwf Hg) as Hn. rewrite Hl in Hn.
  unfold ts_moveToTail. rewrite Hg, bind_Ok_l.
  rewrite (moveToTail_spec _ _ _ (ts_wf_cs _ _ _ Hwf Hg)) by (rewrite Hl; set_solver).
  rewrite bind_Ok_l, Hl, remove_ptr_mid by done.
  destruct (put_set_total ts s t cs (mkCacheSet (cs_assoc cs) ((l1 ++ l2) ++ [p])) Hg)
    as (ts' & HP & HB & HK & HG). eauto 10.
Qed.

Lemma set_view_eq ts s t cs : get_set ts s t = Ok cs ->
  set_view ts s t = map (way_view (ts_blks ts)) (cs_blks cs).
Proof. intros H. unfold set_view. by rewrite H. Qed.

Lemma upd_blk_eq ts p f b :
  ts_blks ts !! p = Some b -> ts_upd_blk ts p f = Ok (ts_set_blk ts p (f b)).
Proof. intros H. unfold ts_upd_blk, ts_blk, blk_deref. by rewrite H. Qed.

Lemma ts_blk_eq ts p b : ts_blks ts !! p = Some b -> ts_blk ts p = Ok b.
Proof. intros H. unfold ts_blk, blk_deref. by rewrite H. Qed.

(** The set of a valid thread at an address. *)
Lemma addr_set ts addr t :
  ts_wf ts -> valid_tid (ts_class ts) t ->
  exists cs, get_set ts (extractSet ts addr) t = Ok cs /\ cs_assoc cs = assoc_of_tc ts t.
Proof. intros Hwf Hv. apply (w_shape _ Hwf); [apply extractSet_range, Hwf | done]. Qed.

Lemma LRU_access_view ts addr m t now :
  ts_wf ts -> valid_tid (ts_class ts) t ->
  let tag := extractTag ts addr in
  let s := extractSet ts addr in
  exists ts' o lat, LRU_accessBlock ts addr m t now = Ok (ts', o, lat) /\
    set_view ts' s t = stack_access tag (set_view ts s t) /\
    match o with
    | Some p => stack_hit tag (set_view ts s t) = true /\ way_view (ts_blks ts) p = Some tag
    | None => stack_hit tag (set_view ts s t) = false
    end.
Proof.
  intros Hwf Hv tag s. destruct (addr_set ts addr t Hwf Hv) as (cs & Hg & _).
  unfold LRU_accessBlock. fold tag s. fold s in Hg. cbv zeta. rewrite Hg, bind_Ok_l.
  rewrite findBlk_spec, bind_Ok_l by (by eapply ts_wf_cs). unfold stack_access.
  pose proof (ways_allocated _ _ _ _ Hwf Hg) as Hall.
  rewrite (set_view_eq _ _ _ _ Hg).
  destruct (find_tag (ts_blks ts) tag (cs_blks cs)) as [p|] eqn:Hf.
  - destruct (find_tag_split _ _ _ _ Hall Hf) as (l1 & l2 & Hl & Hp & Hn).
    destruct (moveToHead_total _ _ _ _ _ _ _ Hwf Hg Hl) as (ts1 & cs1 & -> & HB & HK & Hg1 & Hl1).
    destruct (Hall p) as [b Hb]; [rewrite Hl; set_solver|].
    rewrite bind_Ok_l, (ts_blk_eq _ _ b), bind_Ok_l by congruence.
    rewrite (upd_blk_eq _ _ _ b), bind_Ok_l by congruence.
    assert (stack_hit tag (map (way_view (ts_blks ts)) (cs_blks cs)) = true) as Hhit.
    { apply bool_decide_true. rewrite <- Hp. apply list_elem_of_fmap_2. rewrite Hl. set_solver. }
    eexists _, _, _. split; [reflexivity|]. rewrite Hhit. split; [|done].
    rewrite (set_view_eq _ s t cs1) by exact Hg1. cbn. rewrite HB, Hl1, Hl.
    rewrite !map_app. cbn [map]. rewrite Hp, stack_remove_mid by done. rewrite <- map_app. f_equal.
    + by rewrite (way_view_insert_same _ _ b).
    + apply list_fmap_ext. intros i q _. by apply way_view_insert_same with b.
  - pose proof (find_tag_miss _ _ _ Hall Hf) as Hm.
    pose proof (w_missCounter _ Hwf). pose proof (extractSet_range ts addr (w_geom _ Hwf)).
    destruct (arr_get_total (ts_missCounter ts) s) as [x ->]; [unfold s; lia|]. rewrite bind_Ok_l.
    destruct (arr_set_total (ts_missCounter ts) s (u32 (x + 1))) as [mc ->]; [unfold s; lia|].
    rewrite bind_Ok_l. eexists _, _, _. split; [reflexivity|].
    unfold stack_hit. rewrite bool_decide_false by done. split; [|done].
    by rewrite (set_view_eq _ s t cs) by exact Hg.
Qed.

(** C22. [accessBlock] of the classes that inherit [LRU]'s implements the
    abstract LRU stack: on a well-formed store and a thread the class accepts it
    returns; it reports a hit exactly when the tag of the address is in the
    stack of the thread's set, with a block that holds that tag; a hit moves
    the tag to the front and a miss leaves the stack alone; no other set of any
    thread changes. *)
Theorem accessBlock_refines_stack ts addr m t now :
  ts_wf ts -> valid_tid (ts_class ts) t ->
  let tag := extractTag ts addr in
  let s := extractSet ts addr in
  exists ts' o lat, LRU_accessBlock ts addr m t now = Ok (ts', o, lat) /\ ts_wf ts' /\
    set_view ts' s t = stack_access tag (set_view ts s t) /\
    (is_Some o <-> stack_hit tag (set_view ts s t) = true) /\
    (forall p, o = Some p -> way_view (ts_blks ts) p = Some tag) /\
    (forall s' u, set_ix (ts_class ts) s' u <> set_ix (ts_class ts) s t ->
       set_view ts' s' u = set_view ts s' u).
Proof.
  intros Hwf Hv tag s.
  destruct (LRU_access_view ts addr m t now Hwf Hv) as (ts' & o & lat & H & Hs & Ho).
  fold tag s in Hs, Ho. pose proof (ls_LRU_access t _ _ _ _ _ _ _ _ Hwf H) as L.
  exists ts', o, lat. split_and!; [done | by eapply local_step_wf | done | | |].
  - destruct o as [p|]; [destruct Ho as [-> _]; by eauto|].
    rewrite Ho. split; [by intros [? [=]] | done].
  - intros p ->. by destruct Ho.
  - intros s' u Hne. by eapply local_step_views.
Qed.

(** * Replacement *)

Lemma removelast_snoc {A} (l : list A) x : removelast (l ++ [x]) = l.
Proof. apply removelast_last. Qed.

(** The victim is the last way of the stack. *)
Lemma findVictim_last ts addr t :
  ts_wf ts -> valid_tid (ts_class ts) t -> 0 < assoc_of_tc ts t ->
  exists cs l p, get_set ts (extractSet ts addr) t = Ok cs /\ cs_blks cs = l ++ [p] /\
    LRU_findVictim ts addr t = Ok p.
Proof.
  intros Hwf Hv Ha. destruct (addr_set ts addr t Hwf Hv) as (cs & Hg & Hca).
  destruct (w_set _ Hwf _ _ Hg) as [Hl _]. destruct (cs_blks cs) as [|p l _] eqn:Hb using rev_ind.
  - cbn in Hl. lia.
  - exists cs, l, p. split_and!; [done..|]. unfold LRU_findVictim. rewrite Hg, bind_Ok_l, Hb.
    rewrite length_app in Hl. cbn in Hl.
    replace (assoc_of_tc ts t - 1) with (Z.of_nat (length l)) by lia. apply arr_get_mid.
Qed.

Lemma occ_add_total ts m d :
  length (ts_occupancies ts) = Z.to_nat (ts_maxMasters ts) -> 0 <= m < ts_maxMasters ts ->
  exists l, occ_add ts m d = Ok (with_ts_occupancies l ts) /\ length l = length (ts_occupancies ts).
Proof.
  intros Ho Hm. unfold occ_add.
  rewrite cassert_true, bind_Ok_l by (apply Z.ltb_lt; lia).
  destruct (arr_get_total (ts_occupancies ts) m) as [x ->]; [lia|]. rewrite bind_Ok_l.
  destruct (arr_set_total (ts_occupancies ts) m (x + d)) as [l Hl]; [lia|]. rewrite Hl, bind_Ok_l.
  exists l. split; [done|]. by eapply arr_set_length.
Qed.

(** A step that changes at most block [p] and the counters. *)
Record only_blk (p : BlkPtr) (a b : TagStore) : Prop := {
  o_core : forall t, core_eq t a b;
  o_sets : ts_sets b = ts_sets a;
  o_class : ts_class b = ts_class a;
  o_blks : forall q, q <> p -> ts_blks b !! q = ts_blks a !! q;
  o_blk : forall x, ts_blks a !! p = Some x -> exists y, ts_blks b !! p = Some y /\ blk_set y = blk_set x
}.

Lemma only_blk_trans p a b c : only_blk p a b -> only_blk p b c -> only_blk p a c.
Proof.
  intros [C1 S1 K1 B1 X1] [C2 S2 K2 B2 X2]. constructor.
  - intros t. by rewrite (C1 t).
  - congruence.
  - congruence.
  - intros q Hq. by rewrite B2, B1.
  - intros x Hx. destruct (X1 x Hx) as (y & Hy & <-). by apply X2.
Qed.

Lemma only_blk_get p a b s t : only_blk p a b -> get_set b s t = get_set a s t.
Proof. intros O. unfold get_set. by rewrite (o_sets _ _ _ O), (o_class _ _ _ O). Qed.

Lemma only_blk_wf p a b s t cs :
  ts_wf a -> get_set a s t = Ok cs -> p ∈ cs_blks cs -> only_blk p a b -> ts_wf b.
Proof.
  intros Hwf Hg Hp O. apply (local_step_wf 0 (set_ix (ts_class a) s t) a b); [|done].
  constructor; [intros; apply O|]. exists cs, cs. rewrite (o_sets _ _ _ O).
  split_and!; try done.
  - intros q Hq. apply O. by intros ->.
  - intros q x Hx. destruct (decide (q = p)) as [->|Hne]; [by apply O|].
    rewrite (o_blks _ _ _ O) by done. eauto.
Qed.

Lemma only_blk_set p ts b b' :
  ts_blks ts !! p = Some b -> blk_set b' = blk_set b -> only_blk p ts (ts_set_blk ts p b').
Proof.
  intros Hb Hs. constructor; try done; cbn.
  - intros q Hq. by rewrite list_lookup_insert_ne.
  - intros x Hx. rewrite list_lookup_insert_eq by (by eapply lookup_lt_Some). naive_solver.
Qed.

Lemma only_blk_counters p a b :
  (forall t, core_eq t a b) -> ts_sets b = ts_sets a -> ts_class b = ts_class a ->
  ts_blks b = ts_blks a -> only_blk p a b.
Proof. intros C S K B. constructor; try done; rewrite B; eauto. Qed.

Lemma insert_touch_only ts p b now :
  ts_blks ts !! p = Some b ->
  only_blk p ts (insert_touch ts p b now) /\
  exists b', ts_blks (insert_touch ts p b now) !! p = Some b' /\
    blk_status b' = blk_status b /\ blk_srcMasterId b' = blk_srcMasterId b.
Proof.
  intros Hb. unfold insert_touch. destruct (blk_isTouched b).
  { split; [by apply only_blk_counters | eauto]. }
  pose proof (only_blk_set p ts b (with_blk_isTouched true b) Hb eq_refl) as O.
  assert (<[p := with_blk_isTouched true b]> (ts_blks ts) !! p = Some (with_blk_isTouched true b)) as Hl.
  { apply list_lookup_insert_eq. by eapply lookup_lt_Some. }
  split.
  - eapply only_blk_trans; [exact O|].
    repeat case_goal; (apply only_blk_counters; [by constructor | done..]).
  - exists (with_blk_isTouched true b). split; [|done]. by repeat case_goal.
Qed.

Lemma insert_evict_only ts p b :
  ts_wf ts -> ts_blks ts !! p = Some b ->
  (isValid b = true -> 0 <= blk_srcMasterId b < ts_maxMasters ts) ->
  exists ts', insert_evict ts p = Ok ts' /\ only_blk p ts ts'.
Proof.
  intros Hwf Hb Hm. unfold insert_evict. rewrite (ts_blk_eq _ _ _ Hb), bind_Ok_l.
  destruct (isValid b); [|exists ts; split; [done | by apply only_blk_counters]].
  match goal with |- context [occ_add ?x ?m ?d] =>
    destruct (occ_add_total x m d (w_occupancies _ Hwf) (Hm eq_refl)) as (l & -> & Hl) end.
  eexists. split; [reflexivity|].
  eapply only_blk_trans; [by apply (only_blk_set p ts b (with_blk_refCount 0 b))|].
  apply only_blk_counters; [by constructor | done..].
Qed.

Lemma core_addr a b addr :
  (forall t, core_eq t a b) -> extractSet b addr = extractSet a addr /\ extractTag b addr = extractTag a addr.
Proof. intros C. split; symmetry; [eapply core_extractSet | eapply core_extractTag]; apply (C 0). Qed.

(** [insertBlock] of a block of the thread's set at an address: it returns,
    the block holds the new tag and is the most recently used, the others keep
    their contents and order. *)
Lemma insertBlock_total ts addr m t now cs l1 p l2 b :
  ts_wf ts -> get_set ts (extractSet ts addr) t = Ok cs -> cs_blks cs = l1 ++ p :: l2 ->
  ts_blks ts !! p = Some b -> 0 <= m < ts_maxMasters ts ->
  (isValid b = true -> 0 <= blk_srcMasterId b < ts_maxMasters ts) ->
  exists ts' cs' b', LRU_insertBlock ts addr p m t now = Ok ts' /\
    get_set ts' (extractSet ts addr) t = Ok cs' /\ cs_blks cs' = p :: l1 ++ l2 /\
    ts_blks ts' !! p = Some b' /\ blk_tag b' = extractTag ts addr /\ blk_srcMasterId b' = m /\
    blk_threadID b' = i32 t /\
    (forall q, q <> p -> ts_blks ts' !! q = ts_blks ts !! q).
Proof.
  intros Hwf Hg Hl Hb Hm Hv. assert (p ∈ cs_blks cs) as Hin by (rewrite Hl; set_solver).
  unfold LRU_insertBlock. rewrite (ts_blk_eq _ _ _ Hb), bind_Ok_l. cbv zeta.
  destruct (insert_touch_only ts p b now Hb) as (O1 & b1 & Hb1 & St1 & Ms1).
  set (ts1 := insert_touch ts p b now) in *.
  pose proof (only_blk_wf _ _ _ _ _ _ Hwf Hg Hin O1) as W1.
  pose proof (e_maxMasters _ _ _ (o_core _ _ _ O1 0)) as M1.
  destruct (insert_evict_only ts1 p b1 W1 Hb1) as (ts2 & -> & O2).
  { unfold isValid. rewrite St1, Ms1, <- M1. exact Hv. }
  rewrite bind_Ok_l. pose proof (only_blk_trans _ _ _ _ O1 O2) as O12.
  destruct (o_blk _ _ _ O12 _ Hb) as (b2 & Hb2 & Hs2).
  rewrite (upd_blk_eq _ _ _ _ Hb2), bind_Ok_l.
  match goal with |- context [occ_add ?x _ _] => set (ts3 := x) end.
  assert (only_blk p ts ts3) as O3 by (eapply only_blk_trans; [exact O12 | by eapply only_blk_set]).
  pose proof (only_blk_wf _ _ _ _ _ _ Hwf Hg Hin O3) as W3.
  pose proof (e_maxMasters _ _ _ (o_core _ _ _ O3 0)) as M3.
  destruct (occ_add_total ts3 m 1 (w_occupancies _ W3)) as (l & -> & Hlen); [lia|].
  rewrite bind_Ok_l. destruct (core_addr _ _ addr (o_core _ _ _ O12)) as [_ HT].
  assert (ts_blks ts3 !! p = Some (with_blk_threadID (i32 t) (with_blk_tag (extractTag ts2 addr) b2)))
    as Hb3 by (apply list_lookup_insert_eq; by eapply lookup_lt_Some).
  rewrite (upd_blk_eq (with_ts_occupancies l ts3) _ _ _ Hb3), bind_Ok_l.
  match goal with |- context [ts_moveToHead ?x _ _ _] => set (ts5 := x) end.
  assert (only_blk p ts ts5) as O5.
  { eapply only_blk_trans; [exact O3|]. eapply only_blk_trans; [|by eapply only_blk_set].
    apply only_blk_counters; [by constructor | done..]. }
  pose proof (only_blk_wf _ _ _ _ _ _ Hwf Hg Hin O5) as W5.
  destruct (core_addr _ _ addr (o_core _ _ _ O5)) as [HS _]. rewrite HS.
  destruct (moveToHead_total ts5 (extractSet ts addr) t cs l1 p l2 W5) as (ts6 & cs' & HM & HB6 & _ & Hg6 & Hl6);
    [by rewrite (only_blk_get _ _ _ _ _ O5) | done |].
  eexists ts6, cs', _. split_and!; [exact HM | exact Hg6 | exact Hl6 | | | | |].
  - rewrite HB6. apply list_lookup_insert_eq. by eapply lookup_lt_Some.
  - cbn. exact HT.
  - done.
  - done.
  - intros q Hq. rewrite HB6. by apply (o_blks _ _ _ O5).
Qed.

Lemma isValid_or b : isValid (blk_or BlkValid b) = true.
Proof.
  rewrite isValid_testbit. unfold blk_or, with_blk_status, BlkValid. cbn [blk_status].
  by rewrite Z.lor_spec, orb_true_r.
Qed.

Lemma mid_notin {A} (l1 l2 : list A) p : NoDup (l1 ++ p :: l2) -> p ∉ l1 ++ l2.
Proof.
  intros (H1 & Hd & H2)%NoDup_app. apply NoDup_cons in H2 as [Hp H2].
  rewrite elem_of_app. intros [H|H]; [|done]. apply (Hd p H). left.
Qed.

(** A fill (find the victim, insert, mark valid) pushes the tag of the
    address on the stack of the thread's set and drops the least recently used
    way; nothing in it fails when the master identifiers are in range; the new
    block is the one later lookups return, and no other set of any thread
    changes. *)
Theorem fill_refines_stack ts addr m t now :
  ts_wf ts -> valid_tid (ts_class ts) t -> 0 < assoc_of_tc ts t -> 0 <= m < ts_maxMasters ts ->
  (forall p b, LRU_findVictim ts addr t = Ok p -> ts_blks ts !! p = Some b -> isValid b = true ->
     0 <= blk_srcMasterId b < ts_maxMasters ts) ->
  let tag := extractTag ts addr in
  let s := extractSet ts addr in
  exists p ts1 ts2, LRU_findVictim ts addr t = Ok p /\
    LRU_insertBlock ts addr p m t now = Ok ts1 /\ ts_upd_blk ts1 p (blk_or BlkValid) = Ok ts2 /\
    ts_wf ts2 /\ set_view ts2 s t = stack_fill tag (set_view ts s t) /\
    LRU_findBlock ts2 addr t = Ok (Some p) /\
    (forall s' u, set_ix (ts_class ts) s' u <> set_ix (ts_class ts) s t ->
       set_view ts2 s' u = set_view ts s' u).
Proof.
  intros Hwf Hv Ha Hm Hsrc tag s.
  destruct (findVictim_last ts addr t Hwf Hv Ha) as (cs & l & p & Hg & Hl & Hvic). fold s in Hg.
  pose proof (ways_nodup _ _ _ _ Hwf Hg) as Hn. rewrite Hl in Hn.
  assert (p ∈ cs_blks cs) as Hin by (rewrite Hl; set_solver).
  destruct (ways_allocated _ _ _ _ Hwf Hg p Hin) as [b Hb].
  destruct (insertBlock_total ts addr m t now cs l p [] b)
    as (ts1 & cs' & b' & HI & Hg1 & Hl1 & Hb1 & Htag & _ & _ & Hoth); eauto. fold s in Hg1; fold tag in Htag.
  rewrite app_nil_r in Hl1. pose proof (upd_blk_eq ts1 p (blk_or BlkValid) _ Hb1) as HU.
  pose proof (ls_insertBlock t _ _ _ _ _ _ _ _ Hwf Hg Hin HI) as L1.
  pose proof (local_step_wf _ _ _ _ L1 Hwf) as W1.
  assert (local_step t (set_ix (ts_class ts) s t) ts (ts_set_blk ts1 p (blk_or BlkValid b'))) as L2.
  { eapply local_step_trans; [exact L1|]. rewrite <- (ls_same_ix _ _ _ _ s t L1).
    eapply (ls_set_blk _ _ _ cs' p b'); [exact Hg1 | rewrite Hl1; set_solver | done | done]. }
  set (ts2 := ts_set_blk ts1 p (blk_or BlkValid b')) in *.
  assert (set_view ts2 s t = stack_fill tag (set_view ts s t)) as HV.
  { rewrite (set_view_eq ts s t cs Hg), (set_view_eq ts2 s t cs') by exact Hg1.
    rewrite Hl1, Hl, map_app. unfold stack_fill. cbn [map]. rewrite removelast_snoc. f_equal.
    - unfold way_view, ts2. cbn. rewrite list_lookup_insert_eq by (by eapply lookup_lt_Some).
      rewrite isValid_or. cbn. by rewrite Htag.
    - apply list_fmap_ext. intros i q Hq. apply list_elem_of_lookup_2 in Hq.
      assert (q <> p) by (intros ->; apply (mid_notin l [] p Hn); by rewrite app_nil_r).
      unfold way_view, ts2. cbn. rewrite list_lookup_insert_ne by done. by rewrite Hoth. }
  exists p, ts1, ts2. split_and!; [done..| by eapply local_step_wf | done | |].
  - pose proof (local_step_wf _ _ _ _ L2 Hwf) as W2. unfold LRU_findBlock.
    destruct L2 as [C2 _]. specialize (C2 1 ltac:(by left)).
    rewrite <- (core_extractSet 1 _ _ addr C2), <- (core_extractTag 1 _ _ addr C2).
    fold s tag. change (get_set ts2 s t) with (get_set ts1 s t). rewrite Hg1, bind_Ok_l.
    rewrite findBlk_spec by (by eapply (ts_wf_cs ts2)). rewrite Hl1. cbn.
    rewrite list_lookup_insert_eq by (by eapply lookup_lt_Some).
    unfold blk_matches. rewrite isValid_or, andb_true_r. cbn. by rewrite Htag, Z.eqb_refl.
  - intros s' u Hne. by eapply local_step_views.
Qed.

(** [invalidateBlk] of a valid block of the thread's set. *)
Lemma invalidate_total ts s t cs l1 p l2 b :
  ts_wf ts -> get_set ts s t = Ok cs -> cs_blks cs = l1 ++ p :: l2 -> ts_blks ts !! p = Some b ->
  isValid b = true -> 0 <= blk_srcMasterId b < ts_maxMasters ts ->
  exists ts' cs' b', LRU_invalidateBlk ts (Some p) t = Ok ts' /\
    get_set ts' s t = Ok cs' /\ cs_blks cs' = (l1 ++ l2) ++ [p] /\
    ts_blks ts' !! p = Some b' /\ blk_status b' = 0 /\
    (forall q, q <> p -> ts_blks ts' !! q = ts_blks ts !! q).
Proof.
  intros Hwf Hg Hl Hb Hvb Hm. assert (p ∈ cs_blks cs) as Hin by (rewrite Hl; set_solver).
  assert (blk_set b = s) as Hbs.
  { destruct (w_set _ Hwf _ _ Hg) as [_ Hw]. destruct (Hw p Hin) as (b0 & Hb0 & Hs0).
    rewrite ix_set_of in Hs0. congruence. }
  cbn [LRU_invalidateBlk]. rewrite (ts_blk_eq _ _ _ Hb), bind_Ok_l, Hvb, Hbs. cbv zeta.
  match goal with |- context [occ_add ?x ?m ?d] =>
    destruct (occ_add_total x m d (w_occupancies _ Hwf) Hm) as (l & -> & Hlen) end.
  set (ts1 := with_ts_occupancies l (with_ts_tagsInUse (ts_tagsInUse ts - 1) ts)).
  rewrite bind_Ok_l, (upd_blk_eq ts1 p _ b Hb), bind_Ok_l.
  set (ts3 := ts_set_blk ts1 p (with_blk_srcMasterId invldMasterId b)).
  assert (only_blk p ts ts3) as O3.
  { eapply (only_blk_trans p _ ts1); [|by eapply only_blk_set].
    apply only_blk_counters; [by constructor | done..]. }
  pose proof (only_blk_wf _ _ _ _ _ _ Hwf Hg Hin O3) as W3.
  destruct (moveToTail_total ts3 s t cs l1 p l2 W3) as (ts4 & cs' & HM & HB4 & HK4 & Hg4 & Hl4);
    [by rewrite (only_blk_get _ _ _ _ _ O3) | done |].
  assert (ts_blks ts4 !! p = Some (with_blk_srcMasterId invldMasterId b)) as Hb4.
  { rewrite HB4. apply list_lookup_insert_eq. by eapply lookup_lt_Some. }
  rewrite HM, bind_Ok_l, (upd_blk_eq ts4 p _ _ Hb4). eexists _, cs', _.
  split_and!; [reflexivity | exact Hg4 | exact Hl4 | | |].
  - apply list_lookup_insert_eq. by eapply lookup_lt_Some.
  - done.
  - intros q Hq. cbn. rewrite list_lookup_insert_ne by done. rewrite HB4. by apply (o_blks _ _ _ O3).
Qed.

(** Invalidating the block a lookup found takes its tag out of the stack
    of the thread's set and leaves an invalid way at the least recently used
    end; no other set changes. *)
Theorem invalidate_refines_stack ts addr t p b :
  ts_wf ts -> valid_tid (ts_class ts) t ->
  LRU_findBlock ts addr t = Ok (Some p) -> ts_blks ts !! p = Some b ->
  0 <= blk_srcMasterId b < ts_maxMasters ts ->
  let tag := extractTag ts addr in
  let s := extractSet ts addr in
  exists ts', LRU_invalidateBlk ts (Some p) t = Ok ts' /\ ts_wf ts' /\
    set_view ts' s t = stack_inval tag (set_view ts s t) /\
    (forall s' u, set_ix (ts_class ts) s' u <> set_ix (ts_class ts) s t ->
       set_view ts' s' u = set_view ts s' u).
Proof.
  intros Hwf Hv HF Hb Hm tag s. unfold LRU_findBlock in HF. fold s tag in HF.
  apply bind_Ok in HF as (cs & Hg & HF). rewrite findBlk_spec in HF by (by eapply ts_wf_cs).
  injection HF as HF. pose proof (ways_allocated _ _ _ _ Hwf Hg) as Hall.
  destruct (find_tag_split _ _ _ _ Hall HF) as (l1 & l2 & Hl & Hp & Hnt).
  pose proof (ways_nodup _ _ _ _ Hwf Hg) as Hn. rewrite Hl in Hn.
  assert (isValid b = true) as Hvb
    by (unfold way_view in Hp; rewrite Hb in Hp; by destruct (isValid b)).
  destruct (invalidate_total ts s t cs l1 p l2 b Hwf Hg Hl Hb Hvb Hm)
    as (ts' & cs' & b' & HI & Hg' & Hl' & Hb' & Hst & Hoth).
  pose proof (ls_invalidate t _ _ _ _ _ _ Hwf Hg ltac:(rewrite Hl; apply elem_of_app; right; left) HI) as L.
  exists ts'. split_and!; [done | by eapply local_step_wf | |].
  - rewrite (set_view_eq ts' s t cs' Hg'), (set_view_eq ts s t cs Hg), Hl', Hl.
    unfold stack_inval, stack_hit. rewrite !map_app. cbn [map]. rewrite Hp.
    rewrite bool_decide_true by set_solver. rewrite stack_remove_mid by done.
    rewrite <- !map_app. f_equal.
    + apply list_fmap_ext. intros i q Hq. apply list_elem_of_lookup_2 in Hq.
      unfold way_view. rewrite Hoth; [done|]. intros ->. by apply (mid_notin l1 l2 p Hn).
    + unfold way_view. rewrite Hb'. unfold isValid. by rewrite Hst.
  - intros s' u Hne. by eapply local_step_views.
Qed.

(** * Witnesses on a way-partitioned store with a filled way *)

Definition filled_store : TagStore :=
  match tag_run way_store [OpFill 0x40 0 1 0 fill_valid; OpFill 0x80 0 1 1 fill_valid] with
  | Ok (ts, _) => ts
  | Err _ => way_store
  end.

Lemma filled_store_wf : ts_wf filled_store.
Proof.
  unfold filled_store. destruct (tag_run way_store _) as [[ts tr]|] eqn:H; [|apply way_store_wf].
  eapply tag_run_inv; [| apply way_store_wf | exact H]. exact I.
Qed.

Lemma filled_valid_tid : valid_tid (ts_class filled_store) 1.
Proof. vm_compute. split; congruence. Qed.

Lemma accessBlock_refines_stack_witness :
  exists ts' o lat, LRU_accessBlock filled_store 0x40 0 1 5 = Ok (ts', o, lat) /\
    set_view filled_store 0 1 = [Some 8; Some 4] /\ set_view ts' 0 1 = [Some 4; Some 8].
Proof.
  destruct (accessBlock_refines_stack filled_store 0x40 0 1 5 filled_store_wf filled_valid_tid)
    as (ts' & o & lat & H & _ & Hv & _).
  exists ts', o, lat. split; [exact H|]. split; [vm_compute; reflexivity|].
  etransitivity; [exact Hv|]. vm_compute. reflexivity.
Defined.

Lemma fill_refines_stack_witness :
  exists p ts1 ts2, LRU_findVictim filled_store 0xc0 1 = Ok p /\
    LRU_insertBlock filled_store 0xc0 p 0 1 5 = Ok ts1 /\
    ts_upd_blk ts1 p (blk_or BlkValid) = Ok ts2 /\
    set_view filled_store 0 1 = [Some 8; Some 4] /\ set_view ts2 0 1 = [Some 12; Some 8].
Proof.
  destruct (fill_refines_stack filled_store 0xc0 0 1 5 filled_store_wf filled_valid_tid)
    as (p & ts1 & ts2 & H1 & H2 & H3 & _ & Hv & _).
  - vm_compute. reflexivity.
  - vm_compute. split; congruence.
  - intros p b Hp Hb _. vm_compute in Hp. injection Hp as <-. vm_compute in Hb. injection Hb as <-.
    vm_compute. split; congruence.
  - exists p, ts1, ts2. do 3 (split; [assumption|]). split; [vm_compute; reflexivity|].
    etransitivity; [exact Hv|]. vm_compute. reflexivity.
Defined.

Lemma invalidate_refines_stack_witness :
  exists p ts', LRU_findBlock filled_store 0x80 1 = Ok (Some p) /\
    LRU_invalidateBlk filled_store (Some p) 1 = Ok ts' /\ set_view ts' 0 1 = [Some 4; None].
Proof.
  destruct (LRU_findBlock filled_store 0x80 1) as [[p|]|] eqn:HF; try (vm_compute in HF; discriminate).
  destruct (ts_blks filled_store !! p) as [b|] eqn:Hb.
  - destruct (invalidate_refines_stack filled_store 0x80 1 p b filled_store_wf filled_valid_tid HF Hb)
      as (ts' & H & _ & Hv & _).
    { vm_compute in HF. injection HF as <-. vm_compute in Hb. injection Hb as <-.
      vm_compute. split; congruence. }
    exists p, ts'. split; [reflexivity|]. split; [exact H|].
    etransitivity; [exact Hv|]. vm_compute. reflexivity.
  - vm_compute in HF. injection HF as <-. vm_compute in Hb. discriminate.
Defined.

(** * The address split *)

Lemma regenerate_split ts addr :
  geom_wf ts -> 0 <= addr < 2 ^ 64 ->
  regenerateBlkAddr ts (extractTag ts addr) (extractSet ts addr) = blkAlign ts addr /\
  blkAlign ts addr + extractBlkOffset ts addr = addr.
Proof.
  intros Hwf Ha. destruct Hwf as [Hs Hbs Hns Hsm Hbm].
  unfold regenerateBlkAddr, blkAlign, extractBlkOffset, extractTag, extractSet.
  rewrite Hsm, Hbm, Hbs, Hns, ldiff_ones_mul, !land_ones_mod by lia.
  rewrite !Z.shiftr_div_pow2, !Z.shiftl_mul_pow2 by lia.
  set (k := ts_setShift ts) in *. set (j := ts_tagShift ts) in *.
  assert (0 < 2 ^ k) by (apply Z.pow_pos_nonneg; lia).
  assert (0 < 2 ^ (j - k)) by (apply Z.pow_pos_nonneg; lia).
  assert (2 ^ j = 2 ^ k * 2 ^ (j - k)) as Hj by (rewrite <- Z.pow_add_r by lia; f_equal; lia).
  pose proof (Z.mod_pos_bound (addr / 2 ^ k) (2 ^ (j - k)) ltac:(lia)) as Hm.
  assert (addr / 2 ^ j * 2 ^ j + (addr / 2 ^ k) mod 2 ^ (j - k) * 2 ^ k = addr / 2 ^ k * 2 ^ k) as Hsum.
  { rewrite Hj, <- Z.div_div by lia.
    rewrite (Z.div_mod (addr / 2 ^ k) (2 ^ (j - k))) at 3 by lia. ring. }
  pose proof (Z.mul_div_le addr (2 ^ k) ltac:(lia)).
  pose proof (Z.div_pos addr (2 ^ k) ltac:(lia) ltac:(lia)). split.
  - rewrite lor_mul_pow2 by nia. rewrite Hsum. apply u64_small. nia.
  - rewrite Z.mul_comm. symmetry. apply Z.div_mod. lia.
Qed.

(** Splitting an address into tag and set and putting the block address
    together again gives the aligned address, for every 64-bit address of a
    well-formed store; the offset within the block is what alignment drops. *)
Theorem regenerate_extract ts addr :
  ts_wf ts -> 0 <= addr < 2 ^ 64 ->
  regenerateBlkAddr ts (extractTag ts addr) (extractSet ts addr) = blkAlign ts addr /\
  blkAlign ts addr + extractBlkOffset ts addr = addr.
Proof. intros Hwf. apply regenerate_split, Hwf. Qed.

Lemma regenerate_extract_witness :
  regenerateBlkAddr way_store (extractTag way_store 0x1237) (extractSet way_store 0x1237) = 0x1234.
Proof.
  destruct (regenerate_extract way_store 0x1237 way_store_wf) as [H _]; [lia|].
  etransitivity; [exact H|]. vm_compute. reflexivity.
Defined.
