(* ===== verification/Resize.v ===== *)
(** Moving ways between the Low and the High partition of [C_DYNALRU]
    (mem/cache/tags/c_dynalru.cc): growing and shrinking keep the store well
    formed, respect the bounds and undo each other. *)

From S2P Require Import Prelude Request MemCmd Packet Blk CacheSet IntMath TagTypes LRU PartLRU DynaLRU Tags TagsWf TagsNew Isolation TagsSpec.

(** * Copies and writes *)

Lemma copy_ptrs_take src n :
  0 <= n <= Z.of_nat (length src) -> copy_ptrs src n = Ok (take (Z.to_nat n) src).
Proof.
  intros Hn. unfold copy_ptrs. assert (forall k, (k <= length src)%nat ->
    foldM (fun dst j => p ← arr_get src j; Ok (dst ++ [p])) [] (zrange (Z.of_nat k))
    = Ok (take k src)) as H.
  { induction k as [|k IH]; intros Hk; [done|].
    rewrite zrange_snoc, foldM_app, IH, bind_Ok_l by lia. cbn [foldM].
    destruct (arr_get_total src (Z.of_nat k)) as [p Hp]; [lia|]. rewrite Hp, !bind_Ok_l.
    apply arr_get_Ok in Hp as [_ Hp]. rewrite Nat2Z.id in Hp. by rewrite (take_S_r _ _ _ Hp). }
  rewrite <- (Z2Nat.id n) at 1 by lia. apply H. lia.
Qed.

Lemma concat_insert_app {A} (L : list (list A)) i a b :
  L !! i = Some a -> concat (<[i := b]> L) ++ a ≡ₚ concat L ++ b.
Proof.
  revert i. induction L as [|l L IH]; intros [|i] Hi; simplify_eq/=.
  - solve_Permutation.
  - rewrite <- !app_assoc. by rewrite IH.
Qed.

Lemma all_ptrs_put_app ss ss' ix old cs :
  sets_get ss ix = Ok old -> sets_put ss ix cs = Ok ss' ->
  all_ptrs ss' ++ cs_blks old ≡ₚ all_ptrs ss ++ cs_blks cs.
Proof.
  destruct ix as [i j]. rewrite sets_get_Ok. intros (_ & _ & row & Hr & Ho) Hput.
  apply sets_put_Ok in Hput as (Hi & Hj & row' & old' & Hr' & Ho' & ->). simplify_eq.
  unfold all_ptrs. rewrite map_insert.
  assert (row_ptrs (<[Z.to_nat j := cs]> row) ++ cs_blks old ≡ₚ row_ptrs row ++ cs_blks cs) as H1.
  { unfold row_ptrs. rewrite map_insert. apply concat_insert_app. by rewrite map_lookup, Ho. }
  assert (concat (<[Z.to_nat i := row_ptrs (<[Z.to_nat j := cs]> row)]> (map row_ptrs ss)) ++ row_ptrs row
          ≡ₚ concat (map row_ptrs ss) ++ row_ptrs (<[Z.to_nat j := cs]> row)) as H2.
  { apply concat_insert_app. by rewrite map_lookup, Hr. }
  apply (Permutation_app_inv_r (row_ptrs row)).
  rewrite <- !app_assoc, (Permutation_app_comm (cs_blks old)), app_assoc, H2, <- app_assoc.
  rewrite H1. by rewrite (Permutation_app_comm (cs_blks cs)).
Qed.

Definition dims (ss : list (list CacheSet)) : list nat := map length ss.

Lemma sets_put_dims ss ss' ix cs : sets_put ss ix cs = Ok ss' -> dims ss' = dims ss.
Proof.
  destruct ix as [i j]. intros (Hi & Hj & row & old & Hr & Ho & ->)%sets_put_Ok.
  unfold dims. rewrite map_insert, length_insert. apply list_insert_id. by rewrite map_lookup, Hr.
Qed.

(** Arrays of sets with the same shape and the same elements are equal. *)
Lemma sets_ext ss ss' :
  dims ss = dims ss' -> (forall ix, sets_get ss ix = sets_get ss' ix) -> ss = ss'.
Proof.
  intros Hd Hg. apply list_eq. intros i.
  assert (length <$> ss !! i = length <$> ss' !! i) as Hi by (by rewrite <- !map_lookup; unfold dims in Hd; rewrite Hd).
  destruct (ss !! i) as [r|] eqn:Hr, (ss' !! i) as [r'|] eqn:Hr'; cbn in Hi; try done.
  f_equal. injection Hi as Hi. apply list_eq. intros j.
  specialize (Hg (Z.of_nat i, Z.of_nat j)). unfold sets_get, arr_get in Hg. cbn [fst snd] in Hg.
  rewrite !decide_True, !Nat2Z.id, Hr, Hr' in Hg by lia. cbn [of_option] in Hg.
  rewrite !bind_Ok_l, !decide_True in Hg by lia.
  destruct (r !! j), (r' !! j); cbn in Hg; congruence.
Qed.

(** * Exchanging ways between two partitions of every set *)

(** What one round of a resize loop does to the two halves of set [i]. *)
Record exchanged (new0 new1 : CacheSet -> CacheSet -> CacheSet) (i : Z)
    (ss ss' : list (list CacheSet)) : Prop := {
  x_new : forall c0 c1, sets_get ss (0, i) = Ok c0 -> sets_get ss (1, i) = Ok c1 ->
    sets_get ss' (0, i) = Ok (new0 c0 c1) /\ sets_get ss' (1, i) = Ok (new1 c0 c1);
  x_old : forall ix, ix <> (0, i) -> ix <> (1, i) -> sets_get ss' ix = sets_get ss ix;
  x_ptrs : all_ptrs ss' ≡ₚ all_ptrs ss;
  x_dims : dims ss' = dims ss
}.

Lemma put_both ss i j k c0 c1 d0 d1 :
  (j, k) = (0, 1) \/ (j, k) = (1, 0) ->
  sets_get ss (j, i) = Ok c0 -> sets_get ss (k, i) = Ok c1 ->
  cs_blks d0 ++ cs_blks d1 ≡ₚ cs_blks c0 ++ cs_blks c1 ->
  exists ss', (ss1 ← sets_put ss (j, i) d0; sets_put ss1 (k, i) d1) = Ok ss' /\
    sets_get ss' (j, i) = Ok d0 /\ sets_get ss' (k, i) = Ok d1 /\
    (forall ix, ix <> (j, i) -> ix <> (k, i) -> sets_get ss' ix = sets_get ss ix) /\
    all_ptrs ss' ≡ₚ all_ptrs ss /\ dims ss' = dims ss.
Proof.
  intros Hjk H0 H1 Hp. assert ((j, i) <> (k, i)) as Hne by (destruct Hjk; intros [=]; congruence).
  destruct (sets_put_total ss (j, i) d0 _ H0) as [ss1 HP1]. rewrite HP1, bind_Ok_l.
  assert (sets_get ss1 (k, i) = Ok c1) as H1' by (by rewrite (sets_get_put_ne _ _ _ _ _ Hne HP1)).
  destruct (sets_put_total ss1 (k, i) d1 _ H1') as [ss2 HP2]. rewrite HP2.
  exists ss2. split_and!; [done | | | | |].
  - rewrite (sets_get_put_ne _ _ _ _ _ (not_eq_sym Hne) HP2). by eapply sets_get_put_eq.
  - by eapply sets_get_put_eq.
  - intros ix Hj Hk. rewrite (sets_get_put_ne _ _ _ _ _ (not_eq_sym Hk) HP2).
    by rewrite (sets_get_put_ne _ _ _ _ _ (not_eq_sym Hj) HP1).
  - pose proof (all_ptrs_put_app _ _ _ _ _ H0 HP1) as A1.
    pose proof (all_ptrs_put_app _ _ _ _ _ H1' HP2) as A2.
    apply (Permutation_app_inv_r (cs_blks c0 ++ cs_blks c1)).
    rewrite <- Hp at 2. rewrite !app_assoc. rewrite <- A1, <- app_assoc.
    rewrite (Permutation_app_comm (cs_blks c0)), app_assoc, A2, <- !app_assoc.
    by rewrite (Permutation_app_comm (cs_blks c0)).
  - by rewrite (sets_put_dims _ _ _ _ HP2), (sets_put_dims _ _ _ _ HP1).
Qed.

Section Fold.
Context (step : list (list CacheSet) -> Z -> result (list (list CacheSet))).
Context (new0 new1 : CacheSet -> CacheSet -> CacheSet) (good : CacheSet -> CacheSet -> Prop).
Hypothesis step_spec : forall ss i c0 c1,
  sets_get ss (0, i) = Ok c0 -> sets_get ss (1, i) = Ok c1 -> good c0 c1 ->
  exists ss', step ss i = Ok ss' /\ exchanged new0 new1 i ss ss'.

(** The loop over all sets. *)
Lemma resize_fold ss k :
  (forall i, 0 <= i < Z.of_nat k -> exists c0 c1,
     sets_get ss (0, i) = Ok c0 /\ sets_get ss (1, i) = Ok c1 /\ good c0 c1) ->
  exists ss', foldM step ss (zrange (Z.of_nat k)) = Ok ss' /\
    (forall i c0 c1, 0 <= i < Z.of_nat k ->
       sets_get ss (0, i) = Ok c0 -> sets_get ss (1, i) = Ok c1 ->
       sets_get ss' (0, i) = Ok (new0 c0 c1) /\ sets_get ss' (1, i) = Ok (new1 c0 c1)) /\
    (forall x i, ~ (0 <= x <= 1 /\ 0 <= i < Z.of_nat k) -> sets_get ss' (x, i) = sets_get ss (x, i)) /\
    all_ptrs ss' ≡ₚ all_ptrs ss /\ dims ss' = dims ss.
Proof.
  induction k as [|k IH]; intros Hg.
  { exists ss. split_and!; try done. lia. }
  destruct IH as (ss1 & HF & HN & HO & HP & HD); [intros i Hi; apply Hg; lia|].
  destruct (Hg (Z.of_nat k)) as (c0 & c1 & H0 & H1 & Hgd); [lia|].
  destruct (step_spec ss1 (Z.of_nat k) c0 c1) as (ss2 & HS & X);
    [rewrite HO by lia; done.. | done |].
  rewrite zrange_snoc, foldM_app, HF, bind_Ok_l. cbn [foldM]. rewrite HS, bind_Ok_l.
  exists ss2. split; [done|]. destruct X as [XN XO XP XD]. split_and!.
  - intros i d0 d1 Hi G0 G1. destruct (decide (i = Z.of_nat k)) as [->|Hne].
    + apply XN; rewrite HO by lia; done.
    + rewrite !XO by congruence. apply HN; [lia | done..].
  - intros x i Hxi. rewrite XO by (intros [=]; lia). apply HO. lia.
  - by rewrite XP.
  - by rewrite XD.
Qed.
End Fold.

(** * The sizes *)

Record c_wf (ts : TagStore) (e : C_Ext) : Prop := {
  c_ts : ts_wf ts;
  c_class : ts_class ts = IsC_DYNALRU e;
  c_total : c_L_assoc e + c_H_assoc e = ts_assoc ts;
  c_low : 1 <= c_L_assoc e;
  c_high : 0 <= c_H_min e <= c_H_assoc e;
  c_bound : ts_assoc ts < 2 ^ 32
}.

(** The two halves of set [i]. *)
Lemma c_halves ts e i :
  c_wf ts e -> 0 <= i < ts_numSets ts ->
  exists c0 c1, sets_get (ts_sets ts) (0, i) = Ok c0 /\ sets_get (ts_sets ts) (1, i) = Ok c1 /\
    cs_assoc c0 = c_L_assoc e /\ Z.of_nat (length (cs_blks c0)) = c_L_assoc e /\
    cs_assoc c1 = c_H_assoc e /\ Z.of_nat (length (cs_blks c1)) = c_H_assoc e.
Proof.
  intros [Hwf Hk _ _ _ _] Hi.
  destruct (w_shape _ Hwf i 0 Hi) as (c0 & H0 & A0); [rewrite Hk; cbn; lia|].
  destruct (w_shape _ Hwf i 1 Hi) as (c1 & H1 & A1); [rewrite Hk; cbn; lia|].
  unfold get_set in H0, H1. unfold assoc_of_tc in A0, A1. rewrite Hk in *. cbn in *.
  destruct (w_set _ Hwf _ _ H0) as [L0 _], (w_set _ Hwf _ _ H1) as [L1 _].
  exists c0, c1. split_and!; [done | done | done | lia | done | lia].
Qed.

(** A resize that exchanges ways within every set keeps the store well
    formed. *)
Lemma resize_wf ts e e' ss' new0 new1 :
  c_wf ts e ->
  (forall i c0 c1, 0 <= i < ts_numSets ts ->
     sets_get (ts_sets ts) (0, i) = Ok c0 -> sets_get (ts_sets ts) (1, i) = Ok c1 ->
     sets_get ss' (0, i) = Ok (new0 c0 c1) /\ sets_get ss' (1, i) = Ok (new1 c0 c1) /\
     cs_blks (new0 c0 c1) ++ cs_blks (new1 c0 c1) ≡ₚ cs_blks c0 ++ cs_blks c1 /\
     (cs_assoc (new0 c0 c1) = c_L_assoc e' /\ Z.of_nat (length (cs_blks (new0 c0 c1))) = c_L_assoc e') /\
     (cs_assoc (new1 c0 c1) = c_H_assoc e' /\ Z.of_nat (length (cs_blks (new1 c0 c1))) = c_H_assoc e')) ->
  (forall x i, ~ (0 <= x <= 1 /\ 0 <= i < ts_numSets ts) ->
     sets_get ss' (x, i) = sets_get (ts_sets ts) (x, i)) ->
  all_ptrs ss' ≡ₚ all_ptrs (ts_sets ts) ->
  ts_wf (put_ext e' (with_ts_sets ss' ts)).
Proof.
  intros C Hnew Hold Hp. pose proof C as [Hwf Hk _ _ _ _]. constructor.
  - by destruct (w_geom _ Hwf).
  - cbn. rewrite Hp. apply Hwf.
  - cbn. intros [x i] cs Hg.
    destruct (decide (0 <= x <= 1 /\ 0 <= i < ts_numSets ts)) as [[Hx Hi]|Hno].
    + destruct (c_halves _ _ _ C Hi) as (c0 & c1 & H0 & H1 & _).
      destruct (Hnew i c0 c1 Hi H0 H1) as (G0 & G1 & HP & [A0 L0] & [A1 L1]).
      assert (forall p, p ∈ cs_blks c0 ++ cs_blks c1 ->
                exists b, ts_blks ts !! p = Some b /\ blk_set b = i) as Hb.
      { intros p [Hp0|Hp1]%elem_of_app; [destruct (w_set _ Hwf _ _ H0) as [_ W]
                                        | destruct (w_set _ Hwf _ _ H1) as [_ W]];
          destruct (W p ltac:(done)) as (b & ? & Hs); rewrite Hk in Hs; eauto. }
      assert (x = 0 \/ x = 1) as [-> | ->] by lia.
      * rewrite G0 in Hg. injection Hg as <-. split; [lia|]. intros p Hin. apply Hb.
        rewrite <- HP. apply elem_of_app. by left.
      * rewrite G1 in Hg. injection Hg as <-. split; [lia|]. intros p Hin. apply Hb.
        rewrite <- HP. apply elem_of_app. by right.
    + rewrite Hold in Hg by done. destruct (w_set _ Hwf _ _ Hg) as [A W]. split; [done|].
      rewrite Hk in W. exact W.
  - cbn. intros s t Hs Ht. destruct (c_halves _ _ _ C Hs) as (c0 & c1 & H0 & H1 & _).
    destruct (Hnew s c0 c1 Hs H0 H1) as (G0 & G1 & _ & [A0 _] & [A1 _]).
    unfold get_set, assoc_of_tc, C_DYNALRU_assoc_of_tc. cbn.
    assert (t = 0 \/ t = 1) as [-> | ->] by lia; cbn; eauto.
  - apply Hwf.
  - apply Hwf.
Qed.

(** * Growing and shrinking Low *)

Definition inc_low (L H : Z) (c0 c1 : CacheSet) : CacheSet :=
  mkCacheSet L (cs_blks c0 ++ drop (Z.to_nat H) (cs_blks c1)).
Definition inc_high (H : Z) (c0 c1 : CacheSet) : CacheSet :=
  mkCacheSet H (take (Z.to_nat H) (cs_blks c1)).
Definition dec_high (L H : Z) (c0 c1 : CacheSet) : CacheSet :=
  mkCacheSet H (cs_blks c1 ++ drop (Z.to_nat L) (cs_blks c0)).
Definition dec_low (L : Z) (c0 c1 : CacheSet) : CacheSet :=
  mkCacheSet L (take (Z.to_nat L) (cs_blks c0)).

(** The last way, read by the loops at the new size of the donor. *)
Lemma drop_last {A} (l : list A) n x :
  Z.of_nat (length l) = n + 1 -> arr_get l n = Ok x -> drop (Z.to_nat n) l = [x].
Proof.
  intros Hl [Hn Hx]%arr_get_Ok. rewrite (drop_S _ _ _ Hx). f_equal.
  apply nil_length_inv. rewrite length_drop. lia.
Qed.

Lemma inc_step L H ss i c0 c1 :
  sets_get ss (0, i) = Ok c0 -> sets_get ss (1, i) = Ok c1 -> 0 <= H ->
  Z.of_nat (length (cs_blks c0)) = L - 1 -> Z.of_nat (length (cs_blks c1)) = H + 1 ->
  exists ss', inc_size_set L H ss i = Ok ss' /\ exchanged (inc_low L H) (inc_high H) i ss ss'.
Proof.
  intros H0 H1 HH L0 L1. unfold inc_size_set. rewrite H0, bind_Ok_l, H1, bind_Ok_l.
  rewrite (copy_ptrs_take (cs_blks c0) (L - 1)), bind_Ok_l by lia. destruct (arr_get_total (cs_blks c1) H) as [p Hp]; [lia|].
  rewrite Hp, bind_Ok_l, (copy_ptrs_take (cs_blks c1) H) by lia. rewrite (take_ge (cs_blks c0)) by lia.
  rewrite <- (drop_last _ _ _ L1 Hp).
  destruct (put_both ss i 0 1 c0 c1 (inc_low L H c0 c1) (inc_high H c0 c1))
    as (ss' & HP & G0 & G1 & GO & GP & GD); [by left | done | done | |].
  { cbn. rewrite <- app_assoc, (Permutation_app_comm (drop _ _)), take_drop. done. }
  exists ss'. split.
  - rewrite <- HP. unfold inc_low, inc_high. destruct (sets_put ss (0, i) _); done.
  - constructor; [|done..]. intros d0 d1 D0 D1. assert (d0 = c0) as -> by congruence. by assert (d1 = c1) as -> by congruence.
Qed.

Lemma dec_step L H ss i c0 c1 :
  sets_get ss (0, i) = Ok c0 -> sets_get ss (1, i) = Ok c1 -> 0 <= L ->
  Z.of_nat (length (cs_blks c1)) = H - 1 -> Z.of_nat (length (cs_blks c0)) = L + 1 ->
  exists ss', dec_size_set L H ss i = Ok ss' /\ exchanged (dec_low L) (dec_high L H) i ss ss'.
Proof.
  intros H0 H1 HL L1 L0. unfold dec_size_set. rewrite H1, bind_Ok_l, H0, bind_Ok_l.
  rewrite (copy_ptrs_take (cs_blks c1) (H - 1)), bind_Ok_l by lia. destruct (arr_get_total (cs_blks c0) L) as [p Hp]; [lia|].
  rewrite Hp, bind_Ok_l, (copy_ptrs_take (cs_blks c0) L) by lia. rewrite (take_ge (cs_blks c1)) by lia.
  rewrite <- (drop_last _ _ _ L0 Hp).
  destruct (put_both ss i 1 0 c1 c0 (dec_high L H c0 c1) (dec_low L c0 c1))
    as (ss' & HP & G1 & G0 & GO & GP & GD); [by right | done | done | |].
  { cbn. rewrite <- app_assoc, (Permutation_app_comm (drop _ _)), take_drop. done. }
  exists ss'. split.
  - rewrite <- HP. unfold dec_low, dec_high. destruct (sets_put ss (1, i) _); done.
  - constructor; [| |done..].
    + intros d0 d1 D0 D1. assert (d0 = c0) as -> by congruence. by assert (d1 = c1) as -> by congruence.
    + intros ix ? ?. by apply GO.
Qed.

(** What a resize of the store does, with the new sizes in [e']. *)
Record resized (new0 new1 : CacheSet -> CacheSet -> CacheSet) (ts ts' : TagStore) (e' : C_Ext) : Prop := {
  z_wf : c_wf ts' e';
  z_sets : forall i c0 c1, 0 <= i < ts_numSets ts ->
    sets_get (ts_sets ts) (0, i) = Ok c0 -> sets_get (ts_sets ts) (1, i) = Ok c1 ->
    sets_get (ts_sets ts') (0, i) = Ok (new0 c0 c1) /\ sets_get (ts_sets ts') (1, i) = Ok (new1 c0 c1);
  z_other : forall x i, ~ (0 <= x <= 1 /\ 0 <= i < ts_numSets ts) ->
    sets_get (ts_sets ts') (x, i) = sets_get (ts_sets ts) (x, i);
  z_dims : dims (ts_sets ts') = dims (ts_sets ts);
  z_rest : ts' = put_ext e' (with_ts_sets (ts_sets ts') ts)
}.

Lemma inc_size_spec ts e :
  c_wf ts e -> c_H_min e < c_H_assoc e ->
  let L := c_L_assoc e + 1 in let H := c_H_assoc e - 1 in
  exists ts', C_DYNALRU_inc_size ts = Ok (ts', ts_numSets ts) /\
    resized (inc_low L H) (inc_high H) ts ts' (with_c_L_assoc L (with_c_H_assoc H e)).
Proof.
  intros C Hlt L H. pose proof C as [Hwf Hk Ht HL HH Hb].
  unfold C_DYNALRU_inc_size, get_ext. rewrite Hk, bind_Ok_l.
  destruct (Z.eqb_spec (c_H_assoc e) (c_H_min e)); [lia|]. rewrite !u32_small by lia. fold L H.
  pose proof (numSets_pos _ Hwf) as Hn.
  destruct (resize_fold (inc_size_set L H) (inc_low L H) (inc_high H)
    (fun c0 c1 => Z.of_nat (length (cs_blks c0)) = L - 1 /\ Z.of_nat (length (cs_blks c1)) = H + 1)
    ltac:(intros ss i c0 c1 H0 H1 [? ?]; eapply inc_step; [exact H0 | exact H1 | lia..])
    (ts_sets ts) (Z.to_nat (ts_numSets ts))) as (ss' & HF & HN & HO & HP & HD).
  { intros i Hi. destruct (c_halves _ _ i C) as (c0 & c1 & H0 & H1 & _ & L0 & _ & L1); [lia|].
    exists c0, c1. split_and!; [done | done | lia | lia]. }
  rewrite Z2Nat.id in * by lia. rewrite HF, bind_Ok_l. eexists. split; [done|].
  constructor; cbn; try done. constructor; cbn; try done; [|lia..].
  eapply resize_wf; [done | | done | done].
  intros i c0 c1 Hi H0 H1. destruct (HN i c0 c1 Hi H0 H1) as [G0 G1].
  destruct (c_halves _ _ i C Hi) as (d0 & d1 & D0 & D1 & _ & L0 & _ & L1).
  assert (d0 = c0) as -> by congruence. assert (d1 = c1) as -> by congruence.
  split_and!; [done | done | | done | | done |]; cbn.
  - rewrite <- app_assoc, (Permutation_app_comm (drop _ _)), take_drop. done.
  - rewrite length_app, length_drop. lia.
  - rewrite length_take. lia.
Qed.

Lemma dec_size_spec ts e :
  c_wf ts e -> 1 < c_L_assoc e ->
  let L := c_L_assoc e - 1 in let H := c_H_assoc e + 1 in
  exists ts', C_DYNALRU_dec_size ts = Ok (ts', ts_numSets ts) /\
    resized (dec_low L) (dec_high L H) ts ts' (with_c_L_assoc L (with_c_H_assoc H e)).
Proof.
  intros C Hlt L H. pose proof C as [Hwf Hk Ht HL HH Hb].
  unfold C_DYNALRU_dec_size, get_ext. rewrite Hk, bind_Ok_l.
  destruct (Z.eqb_spec (c_L_assoc e) 1); [lia|]. rewrite !u32_small by lia. fold L H.
  pose proof (numSets_pos _ Hwf) as Hn.
  destruct (resize_fold (dec_size_set L H) (dec_low L) (dec_high L H)
    (fun c0 c1 => Z.of_nat (length (cs_blks c0)) = L + 1 /\ Z.of_nat (length (cs_blks c1)) = H - 1)
    ltac:(intros ss i c0 c1 H0 H1 [? ?]; eapply dec_step; [exact H0 | exact H1 | lia..])
    (ts_sets ts) (Z.to_nat (ts_numSets ts))) as (ss' & HF & HN & HO & HP & HD).
  { intros i Hi. destruct (c_halves _ _ i C) as (c0 & c1 & H0 & H1 & _ & L0 & _ & L1); [lia|].
    exists c0, c1. split_and!; [done | done | lia | lia]. }
  rewrite Z2Nat.id in * by lia. rewrite HF, bind_Ok_l. eexists. split; [done|].
  constructor; cbn; try done. constructor; cbn; try done; [|lia..].
  eapply resize_wf; [done | | done | done].
  intros i c0 c1 Hi H0 H1. destruct (HN i c0 c1 Hi H0 H1) as [G0 G1].
  destruct (c_halves _ _ i C Hi) as (d0 & d1 & D0 & D1 & _ & L0 & _ & L1).
  assert (d0 = c0) as -> by congruence. assert (d1 = c1) as -> by congruence.
  split_and!; [done | done | | done | | done |]; cbn.
  - rewrite (Permutation_app_comm (take _ _)), <- app_assoc, (Permutation_app_comm (drop _ _)), take_drop.
    apply Permutation_app_comm.
  - rewrite length_take. lia.
  - rewrite length_app, length_drop. lia.
Qed.

(** * Resizing never fails and stays within bounds *)

Inductive ResizeCmd := Grow | Shrink.

Definition resize (ts : TagStore) (c : ResizeCmd) : result (TagStore * Z) :=
  match c with Grow => inc_size ts | Shrink => dec_size ts end.

Definition resize_run (ts : TagStore) (cs : list ResizeCmd) : result TagStore :=
  foldM (fun ts c => '(ts, _) ← resize ts c; Ok ts) ts cs.

Lemma inc_size_total ts e :
  c_wf ts e ->
  exists ts' e' r, inc_size ts = Ok (ts', r) /\ c_wf ts' e' /\
    ts_assoc ts' = ts_assoc ts /\ c_H_min e' = c_H_min e /\
    (if c_H_assoc e =? c_H_min e then ts' = ts /\ r = 0
     else c_L_assoc e' = c_L_assoc e + 1 /\ c_H_assoc e' = c_H_assoc e - 1 /\ r = ts_numSets ts).
Proof.
  intros C. unfold inc_size. rewrite (c_class _ _ C).
  destruct (Z.eqb_spec (c_H_assoc e) (c_H_min e)) as [He|Hne].
  - exists ts, e, 0. split_and!; [|done..]. unfold C_DYNALRU_inc_size, get_ext.
    rewrite (c_class _ _ C), bind_Ok_l. by rewrite (proj2 (Z.eqb_eq _ _) He).
  - destruct (inc_size_spec ts e C) as (ts' & H & Z); [pose proof (c_high _ _ C); lia|].
    destruct Z as [Zw _ _ _ Zr].
    eexists ts', _, _. split_and!; [exact H | exact Zw | by rewrite Zr | done..].
Qed.

Lemma dec_size_total ts e :
  c_wf ts e ->
  exists ts' e' r, dec_size ts = Ok (ts', r) /\ c_wf ts' e' /\
    ts_assoc ts' = ts_assoc ts /\ c_H_min e' = c_H_min e /\
    (if c_L_assoc e =? 1 then ts' = ts /\ r = 0
     else c_L_assoc e' = c_L_assoc e - 1 /\ c_H_assoc e' = c_H_assoc e + 1 /\ r = ts_numSets ts).
Proof.
  intros C. unfold dec_size. rewrite (c_class _ _ C).
  destruct (Z.eqb_spec (c_L_assoc e) 1) as [He|Hne].
  - exists ts, e, 0. split_and!; [|done..]. unfold C_DYNALRU_dec_size, get_ext.
    rewrite (c_class _ _ C), bind_Ok_l. by rewrite (proj2 (Z.eqb_eq _ _) He).
  - destruct (dec_size_spec ts e C) as (ts' & H & Z); [pose proof (c_low _ _ C); lia|].
    destruct Z as [Zw _ _ _ Zr].
    eexists ts', _, _. split_and!; [exact H | exact Zw | by rewrite Zr | done..].
Qed.

(** Any sequence of resizes of a well-formed coarse-grained store runs
    to its end without an assertion or an array overrun, and leaves a
    well-formed store: Low keeps at least one way, High at least its minimum,
    together they own every way, and each partition is as wide as its size
    says. *)
Theorem resize_run_safe ts e cs :
  c_wf ts e -> exists ts' e', resize_run ts cs = Ok ts' /\ c_wf ts' e' /\
    ts_assoc ts' = ts_assoc ts /\ c_H_min e' = c_H_min e.
Proof.
  revert ts e. induction cs as [|c cs IH]; intros ts e C; unfold resize_run; cbn [foldM].
  { exists ts, e. by split_and!. }
  assert (exists ts1 e1 r, resize ts c = Ok (ts1, r) /\ c_wf ts1 e1 /\
            ts_assoc ts1 = ts_assoc ts /\ c_H_min e1 = c_H_min e) as (ts1 & e1 & r & H & C1 & A1 & M1).
  { destruct c; cbn [resize];
      [destruct (inc_size_total _ _ C) as (? & ? & ? & ? & ? & ? & ? & _)
      |destruct (dec_size_total _ _ C) as (? & ? & ? & ? & ? & ? & ? & _)]; eauto 10. }
  rewrite H, bind_Ok_l. cbn beta iota. rewrite bind_Ok_l.
  destruct (IH ts1 e1 C1) as (ts' & e' & HR & C' & A' & M'). exists ts', e'.
  split_and!; [exact HR | done | congruence | congruence].
Qed.

(** Growing Low by a way and shrinking it again gives back the store
    that was there before, to the last pointer. *)
Theorem inc_dec_inverse ts e :
  c_wf ts e -> c_H_min e < c_H_assoc e ->
  exists ts1 r1 r2, inc_size ts = Ok (ts1, r1) /\ dec_size ts1 = Ok (ts, r2).
Proof.
  intros C Hlt. destruct (inc_size_spec ts e C Hlt) as (ts1 & H1 & [W1 S1 O1 D1 R1]).
  pose proof (c_low _ _ C).
  destruct (dec_size_spec ts1 _ W1 ltac:(cbn; lia)) as (ts2 & H2 & [W2 S2 O2 D2 R2]). cbn in *.
  assert (ts_numSets ts1 = ts_numSets ts) as Hn by (by rewrite R1).
  rewrite Hn in *. assert (ts_sets ts2 = ts_sets ts) as Hs.
  { apply sets_ext; [congruence|]. intros [x i].
    destruct (decide (0 <= x <= 1 /\ 0 <= i < ts_numSets ts)) as [[Hx Hi]|Hno];
      [|rewrite O2, O1 by done; done].
    destruct (c_halves _ _ i C Hi) as (c0 & c1 & G0 & G1 & A0 & L0 & A1 & L1).
    destruct (S1 i c0 c1 Hi G0 G1) as [G0' G1']. destruct (S2 i _ _ Hi G0' G1') as [G0'' G1''].
    assert (dec_low (c_L_assoc e + 1 - 1) (inc_low (c_L_assoc e + 1) (c_H_assoc e - 1) c0 c1)
              (inc_high (c_H_assoc e - 1) c0 c1) = c0) as E0.
    { destruct c0 as [a0 b0]. unfold dec_low, inc_low. cbn in *. rewrite take_app_length'; [|lia].
      f_equal. lia. }
    assert (dec_high (c_L_assoc e + 1 - 1) (c_H_assoc e - 1 + 1)
              (inc_low (c_L_assoc e + 1) (c_H_assoc e - 1) c0 c1)
              (inc_high (c_H_assoc e - 1) c0 c1) = c1) as E1.
    { destruct c1 as [a1 b1]. unfold dec_high, inc_low, inc_high. cbn in *.
      rewrite drop_app_length'; [|lia]. rewrite take_drop. f_equal. lia. }
    rewrite E0 in G0''. rewrite E1 in G1''.
    assert (x = 0 \/ x = 1) as [-> | ->] by lia; congruence. }
  exists ts1, (ts_numSets ts), (ts_numSets ts).
  unfold inc_size, dec_size. rewrite (c_class _ _ C), (c_class _ _ W1). split; [done|].
  rewrite H2. do 2 f_equal. rewrite R2, Hs, R1. unfold put_ext, with_ts_sets, with_ts_class. cbn.
  destruct ts, e. cbn in *. f_equal. destruct C as [_ Hk _ _ _ _]. cbn in Hk. rewrite Hk.
  unfold with_c_L_assoc, with_c_H_assoc. cbn. f_equal. f_equal; lia.
Qed.

(** * On a built store *)

Definition coarse_store : TagStore := built (C_DYNALRU_new 4 4 4 2 2 1 8).
Definition coarse_ext : C_Ext :=
  match ts_class coarse_store with IsC_DYNALRU e => e | _ => mkC_Ext 0 0 0 [] [] [] end.

Lemma coarse_store_wf : c_wf coarse_store coarse_ext.
Proof.
  constructor; [|vm_compute; repeat split; congruence..].
  apply (built_Ok _ ts_wf), C_DYNALRU_new_spec; [by repeat split | lia].
Qed.

Lemma resize_run_safe_witness :
  exists ts' e', resize_run coarse_store [Grow; Grow; Shrink; Shrink; Shrink; Grow] = Ok ts' /\ c_wf ts' e'.
Proof.
  destruct (resize_run_safe coarse_store coarse_ext [Grow; Grow; Shrink; Shrink; Shrink; Grow]
              coarse_store_wf) as (ts' & e' & H & C & _).
  exists ts', e'. split; [exact H | exact C].
Defined.

Lemma inc_dec_inverse_witness :
  exists ts1 r1 r2, inc_size coarse_store = Ok (ts1, r1) /\ dec_size ts1 = Ok (coarse_store, r2).
Proof. apply (inc_dec_inverse coarse_store coarse_ext coarse_store_wf). vm_compute. reflexivity. Defined.
