(* ===== verification/Labels.v ===== *)
(** The two-label lookups of the dirty cache's store ([DCLRU],
    mem/cache/tags/dclru.cc): where a labelled access may find a block. *)

From S2P Require Import Prelude Request MemCmd Packet Blk CacheSet IntMath TagTypes LRU PartLRU DynaLRU Tags TagsWf TagsNew Isolation TagsSpec.

(** * Lookups *)

(** The lookup of one partition. *)
Definition part_lookup (ts : TagStore) (addr label : Z) : option BlkPtr :=
  match get_set ts (extractSet ts addr) label with
  | Ok cs => find_tag (ts_blks ts) (extractTag ts addr) (cs_blks cs)
  | Err _ => None
  end.

Definition label (l : Z) : Prop := l = 0 \/ l = 1.

Lemma part_findBlk ts addr l :
  ts_wf ts -> ts_class ts = IsDCLRU -> label l ->
  exists cs, get_set ts (extractSet ts addr) l = Ok cs /\
    CacheSet_findBlk (ts_blks ts) cs (extractTag ts addr) = Ok (part_lookup ts addr l) /\
    forall p, part_lookup ts addr l = Some p -> p ∈ cs_blks cs.
Proof.
  intros Hwf Hk Hl. destruct (addr_set ts addr l Hwf) as (cs & Hg & _).
  { rewrite Hk. cbn. destruct Hl; lia. }
  exists cs. unfold part_lookup. rewrite Hg. split_and!; [done | |].
  - apply findBlk_spec. by eapply ts_wf_cs.
  - intros p Hp. by apply find_tag_Some in Hp as [? _].
Qed.

(** What a labelled reader gets: a Low block first; a High one only a High
    reader. *)
Definition labelled_lookup (ts : TagStore) (addr readLabel : Z) : option BlkPtr :=
  match part_lookup ts addr 0 with
  | Some p => Some p
  | None => if readLabel =? 0 then None else part_lookup ts addr 1
  end.

Lemma DCLRU_find_spec ts addr r w :
  ts_wf ts -> ts_class ts = IsDCLRU -> label r -> label w ->
  DCLRU_findBlock ts addr r w = Ok (labelled_lookup ts addr r).
Proof.
  intros Hwf Hk Hr Hw. unfold DCLRU_findBlock. cbv zeta.
  destruct (part_findBlk ts addr 0 Hwf Hk (or_introl eq_refl)) as (c0 & G0 & F0 & _).
  destruct (part_findBlk ts addr 1 Hwf Hk (or_intror eq_refl)) as (c1 & G1 & F1 & _).
  rewrite G0, bind_Ok_l, F0, bind_Ok_l, G1, bind_Ok_l, F1, bind_Ok_l. unfold labelled_lookup.
  destruct Hr as [-> | ->], Hw as [-> | ->]; cbn; repeat case_goal; congruence.
Qed.

Lemma DCLRU_locate_spec ts addr r w :
  ts_wf ts -> ts_class ts = IsDCLRU -> label r ->
  DCLRU_locateBlock ts addr r w
  = Ok (if r =? 1 then (match part_lookup ts addr 0 with Some _ => 0 | None => 1 end) else 0).
Proof.
  intros Hwf Hk Hr. unfold DCLRU_locateBlock.
  destruct (part_findBlk ts addr 0 Hwf Hk (or_introl eq_refl)) as (c0 & -> & Hf & _).
  destruct (r =? 1); [|done]. rewrite bind_Ok_l, Hf, bind_Ok_l. by case_goal.
Qed.

(** The partition that [locateBlock] names holds the block [findBlock]
    returned. *)
Lemma located_owns ts addr r p :
  ts_wf ts -> ts_class ts = IsDCLRU -> label r -> labelled_lookup ts addr r = Some p ->
  exists loc cs, label loc /\ (r = 0 -> loc = 0) /\
    (forall w, DCLRU_locateBlock ts addr r w = Ok loc) /\
    get_set ts (extractSet ts addr) loc = Ok cs /\ p ∈ cs_blks cs.
Proof.
  intros Hwf Hk Hr Hp. unfold labelled_lookup in Hp.
  destruct (part_findBlk ts addr 0 Hwf Hk (or_introl eq_refl)) as (c0 & G0 & _ & I0).
  destruct (part_findBlk ts addr 1 Hwf Hk (or_intror eq_refl)) as (c1 & G1 & _ & I1).
  destruct (part_lookup ts addr 0) as [q|] eqn:H0.
  - exists 0, c0. split_and!; [by left | done | | done | naive_solver].
    intros w. rewrite DCLRU_locate_spec, H0 by done. by case_goal.
  - destruct Hr as [-> | ->]; [done|]. exists 1, c1. split_and!; [by right | done | | done | eauto].
    intros w. by rewrite DCLRU_locate_spec, H0 by (done || by right).
Qed.

(** * Accesses *)

Lemma DCLRU_access_step ts addr m r w now :
  ts_wf ts -> ts_class ts = IsDCLRU -> label r -> label w ->
  exists ts' lat loc, DCLRU_accessBlock ts addr m r w now = Ok (ts', labelled_lookup ts addr r, lat) /\
    label loc /\ (r = 0 -> loc = 0) /\
    local_step r (loc, extractSet ts addr) ts ts'.
Proof.
  intros Hwf Hk Hr Hw. unfold DCLRU_accessBlock. rewrite DCLRU_find_spec, bind_Ok_l by done.
  destruct (labelled_lookup ts addr r) as [p|] eqn:Hp.
  - destruct (located_owns _ _ _ _ Hwf Hk Hr Hp) as (loc & cs & Hl & Hl0 & HL & Hg & Hin).
    rewrite HL, bind_Ok_l. apply list_elem_of_split in Hin as (l1 & l2 & Hs).
    destruct (moveToHead_total _ _ _ _ _ _ _ Hwf Hg Hs) as (ts1 & cs1 & HM & HB & HK & Hg1 & Hl1).
    assert (p ∈ cs_blks cs) as Hin by (rewrite Hs; set_solver).
    destruct (ways_allocated _ _ _ _ Hwf Hg p Hin) as [b Hb].
    rewrite HM, bind_Ok_l, (ts_blk_eq _ _ b), bind_Ok_l by congruence.
    rewrite (upd_blk_eq _ _ _ b), bind_Ok_l by congruence.
    eexists _, _, loc. split_and!; [reflexivity | done | done |].
    eapply local_step_trans; [eapply ls_moveToHead; [|done | exact HM]; by rewrite Hk|].
    eapply ls_set_blk; [| | by rewrite HB | done].
    + unfold get_set in Hg1. rewrite HK, Hk in Hg1. exact Hg1.
    + rewrite Hl1. set_solver.
  - destruct (part_findBlk ts addr 0 Hwf Hk (or_introl eq_refl)) as (c0 & G0 & _).
    eexists _, _, 0. split_and!; [reflexivity | by left | done |].
    unfold get_set in G0. rewrite Hk in G0. by eapply local_step_refl.
Qed.

(** C34. Label confinement of the dirty cache's store.  On a well-formed
    [DCLRU] store and for any labels, [accessBlock] returns (the move to the
    head finds the block in the partition that [locateBlock] names); a reader
    labelled Low gets a block of the Low partition or nothing, whatever High
    holds, and leaves every High set as it was; a reader labelled High gets the
    Low block first and the High one only when Low misses. *)
Theorem DCLRU_label_confinement ts addr m r w now :
  ts_wf ts -> ts_class ts = IsDCLRU -> label r -> label w ->
  exists ts' o lat, DCLRU_accessBlock ts addr m r w now = Ok (ts', o, lat) /\ ts_wf ts' /\
    o = labelled_lookup ts addr r /\
    (r = 0 -> o = part_lookup ts addr 0 /\ forall s, set_view ts' s 1 = set_view ts s 1).
Proof.
  intros Hwf Hk Hr Hw.
  destruct (DCLRU_access_step ts addr m r w now Hwf Hk Hr Hw) as (ts' & lat & loc & H & Hl & Hl0 & L).
  eexists ts', _, lat. split_and!; [exact H | by eapply local_step_wf | done |].
  intros ->. split.
  - unfold labelled_lookup. by case_goal.
  - intros s. eapply local_step_views; [done | exact L |]. rewrite Hk. cbn. rewrite (Hl0 eq_refl).
    unfold DCLRU_set_ix. intros [=].
Qed.

Definition label_store : TagStore := built (DCLRU_new 4 4 4 2 8).

Definition labelled_store : TagStore :=
  match tag_run label_store [OpFill 0x40 0 1 0 fill_valid; OpFill 0x80 0 0 1 fill_valid] with
  | Ok (ts, _) => ts
  | Err _ => label_store
  end.

Lemma labelled_store_wf : ts_wf labelled_store.
Proof.
  unfold labelled_store. assert (ts_wf label_store) as Hwf.
  { apply (built_Ok _ ts_wf), DCLRU_new_spec. by repeat split. }
  destruct (tag_run label_store _) as [[ts tr]|] eqn:H; [|done].
  eapply tag_run_inv; [| exact Hwf | exact H]. exact I.
Qed.

(** The same address: High's reader hits, Low's does not. *)
Lemma DCLRU_label_confinement_witness :
  (exists ts' o lat, DCLRU_accessBlock labelled_store 0x40 0 0 1 5 = Ok (ts', o, lat) /\ o = None) /\
  (exists ts' o lat, DCLRU_accessBlock labelled_store 0x40 0 1 1 5 = Ok (ts', o, lat) /\ o <> None).
Proof.
  assert (ts_class labelled_store = IsDCLRU) as Hk by (vm_compute; reflexivity). split.
  - destruct (DCLRU_label_confinement labelled_store 0x40 0 0 1 5 labelled_store_wf Hk
                (or_introl eq_refl) (or_intror eq_refl)) as (ts' & o & lat & H & _ & Ho & _).
    exists ts', o, lat. split; [exact H|]. rewrite Ho. vm_compute. reflexivity.
  - destruct (DCLRU_label_confinement labelled_store 0x40 0 1 1 5 labelled_store_wf Hk
                (or_intror eq_refl) (or_intror eq_refl)) as (ts' & o & lat & H & _ & Ho & _).
    exists ts', o, lat. split; [exact H|]. rewrite Ho. vm_compute. discriminate.
Defined.
