(* ===== verification/FaLRU.v ===== *)
(** The fully associative tag store: mem/cache/tags/fa_lru.hh and fa_lru.cc.
    All blocks hang on one doubly linked list in the order of their last use.
    Markers into the list tell, for every power of two from 128K up to the size of
    the cache, which blocks a cache of that size would hold, so that one run counts
    the hits and misses of all sizes.  Blocks live in an array, and a pointer to a
    block is its index, [None] where it is null. *)

From S2P Require Import Prelude IntMath Request MemCmd Packet Blk.

(** [FALRUBlk]; [isTouched] hides the member of the base class. *)
Record FALRUBlk := mkFALRUBlk {
  fb_blk : CacheBlk;
  fb_prev : option nat;
  fb_next : option nat;
  fb_isTouched : bool;
  fb_inCache : Z
}.

Definition with_fb_blk (v : CacheBlk) (b : FALRUBlk) : FALRUBlk :=
  mkFALRUBlk v (fb_prev b) (fb_next b) (fb_isTouched b) (fb_inCache b).
Definition with_fb_prev (v : option nat) (b : FALRUBlk) : FALRUBlk :=
  mkFALRUBlk (fb_blk b) v (fb_next b) (fb_isTouched b) (fb_inCache b).
Definition with_fb_next (v : option nat) (b : FALRUBlk) : FALRUBlk :=
  mkFALRUBlk (fb_blk b) (fb_prev b) v (fb_isTouched b) (fb_inCache b).
Definition with_fb_isTouched (v : bool) (b : FALRUBlk) : FALRUBlk :=
  mkFALRUBlk (fb_blk b) (fb_prev b) (fb_next b) v (fb_inCache b).
Definition with_fb_inCache (v : Z) (b : FALRUBlk) : FALRUBlk :=
  mkFALRUBlk (fb_blk b) (fb_prev b) (fb_next b) (fb_isTouched b) v.

(** What the constructor fixes. *)
Record FACfg := mkFACfg {
  fa_blkSize : Z;
  fa_hitLatency : Z;
  fa_numCaches : Z;
  fa_cacheMask : Z;
  fa_numBlocks : Z
}.

Record FALRU := mkFALRU {
  fa_cfg : FACfg;
  fa_blks : list FALRUBlk;
  fa_head : option nat;
  fa_tail : option nat;
  fa_boundaries : list (option nat);
  fa_tagHash : gmap Z nat;
  fa_hits : list Z;
  fa_misses : list Z;
  fa_accesses : Z;
  fa_replacements : Z;
  fa_tagsInUse : Z;
  fa_warmedUp : bool;
  fa_warmupCycle : Z
}.

Definition with_fa_blks (v : list FALRUBlk) (t : FALRU) : FALRU :=
  mkFALRU (fa_cfg t) v (fa_head t) (fa_tail t) (fa_boundaries t) (fa_tagHash t) (fa_hits t) (fa_misses t)
    (fa_accesses t) (fa_replacements t) (fa_tagsInUse t) (fa_warmedUp t) (fa_warmupCycle t).
Definition with_fa_head (v : option nat) (t : FALRU) : FALRU :=
  mkFALRU (fa_cfg t) (fa_blks t) v (fa_tail t) (fa_boundaries t) (fa_tagHash t) (fa_hits t) (fa_misses t)
    (fa_accesses t) (fa_replacements t) (fa_tagsInUse t) (fa_warmedUp t) (fa_warmupCycle t).
Definition with_fa_tail (v : option nat) (t : FALRU) : FALRU :=
  mkFALRU (fa_cfg t) (fa_blks t) (fa_head t) v (fa_boundaries t) (fa_tagHash t) (fa_hits t) (fa_misses t)
    (fa_accesses t) (fa_replacements t) (fa_tagsInUse t) (fa_warmedUp t) (fa_warmupCycle t).
Definition with_fa_boundaries (v : list (option nat)) (t : FALRU) : FALRU :=
  mkFALRU (fa_cfg t) (fa_blks t) (fa_head t) (fa_tail t) v (fa_tagHash t) (fa_hits t) (fa_misses t)
    (fa_accesses t) (fa_replacements t) (fa_tagsInUse t) (fa_warmedUp t) (fa_warmupCycle t).
Definition with_fa_tagHash (v : gmap Z nat) (t : FALRU) : FALRU :=
  mkFALRU (fa_cfg t) (fa_blks t) (fa_head t) (fa_tail t) (fa_boundaries t) v (fa_hits t) (fa_misses t)
    (fa_accesses t) (fa_replacements t) (fa_tagsInUse t) (fa_warmedUp t) (fa_warmupCycle t).
Definition with_fa_counts (hits misses : list Z) (t : FALRU) : FALRU :=
  mkFALRU (fa_cfg t) (fa_blks t) (fa_head t) (fa_tail t) (fa_boundaries t) (fa_tagHash t) hits misses
    (fa_accesses t) (fa_replacements t) (fa_tagsInUse t) (fa_warmedUp t) (fa_warmupCycle t).
Definition with_fa_accesses (v : Z) (t : FALRU) : FALRU :=
  mkFALRU (fa_cfg t) (fa_blks t) (fa_head t) (fa_tail t) (fa_boundaries t) (fa_tagHash t) (fa_hits t) (fa_misses t)
    v (fa_replacements t) (fa_tagsInUse t) (fa_warmedUp t) (fa_warmupCycle t).
Definition with_fa_replacements (v : Z) (t : FALRU) : FALRU :=
  mkFALRU (fa_cfg t) (fa_blks t) (fa_head t) (fa_tail t) (fa_boundaries t) (fa_tagHash t) (fa_hits t) (fa_misses t)
    (fa_accesses t) v (fa_tagsInUse t) (fa_warmedUp t) (fa_warmupCycle t).
Definition with_fa_tagsInUse (v : Z) (t : FALRU) : FALRU :=
  mkFALRU (fa_cfg t) (fa_blks t) (fa_head t) (fa_tail t) (fa_boundaries t) (fa_tagHash t) (fa_hits t) (fa_misses t)
    (fa_accesses t) (fa_replacements t) v (fa_warmedUp t) (fa_warmupCycle t).
Definition with_fa_warmedUp (v : bool) (cycle : Z) (t : FALRU) : FALRU :=
  mkFALRU (fa_cfg t) (fa_blks t) (fa_head t) (fa_tail t) (fa_boundaries t) (fa_tagHash t) (fa_hits t) (fa_misses t)
    (fa_accesses t) (fa_replacements t) (fa_tagsInUse t) v cycle.

(** Reading and writing through a pointer. *)
Definition fa_deref (p : option nat) (t : FALRU) : result FALRUBlk :=
  match p with
  | None => Err NullDeref
  | Some i => of_option OutOfBounds (fa_blks t !! i)
  end.
Definition fa_update (p : option nat) (f : FALRUBlk -> FALRUBlk) (t : FALRU) : result FALRU :=
  match p with
  | None => Err NullDeref
  | Some i => b ← of_option OutOfBounds (fa_blks t !! i); Ok (with_fa_blks (<[i := f b]> (fa_blks t)) t)
  end.

Definition fa_blkAlign (addr : Z) (c : FACfg) : Z := Z.ldiff addr (fa_blkSize c - 1).
Definition fa_extractTag (addr : Z) (c : FACfg) : Z := fa_blkAlign addr c.
Definition fa_extractSet (addr : Z) (c : FACfg) : Z := 0.
Definition fa_extractBlkOffset (addr : Z) (c : FACfg) : Z := i32 (Z.land addr (fa_blkSize c - 1)).
Definition fa_regenerateBlkAddr (tag set : Z) (c : FACfg) : Z := tag.

(** * Construction *)

(** One round of the loop of the constructor: [blks[i]], with the next boundary,
    its number and the flags of the blocks from here on. *)
Record FAInit := mkFAInit {
  in_blks : list FALRUBlk;
  in_boundaries : list (option nat);
  in_index : Z;
  in_j : Z;
  in_flags : Z
}.

Definition init_round (s : FAInit) (i : Z) : result FAInit :=
  let n := Z.to_nat i in
  blks ← arr_set (in_blks s) i (mkFALRUBlk CacheBlk_new (Some (n - 1)%nat) (Some (n + 1)%nat) false (in_flags s));
  if i =? u32 (in_index s - 1) then
    bs ← arr_set (in_boundaries s) (in_j s) (Some n);
    Ok (mkFAInit blks bs (u32 (Z.shiftl (in_index s) 1)) (in_j s + 1)
          (Z.ldiff (in_flags s) (Z.shiftl 1 (in_j s))))
  else Ok (mkFAInit blks (in_boundaries s) (in_index s) (in_j s) (in_flags s)).

(** The constructor.  [numCaches] is [unsigned]: for a cache of less than 128K it
    wraps around, and no array of that length can be allocated.  A store of a
    single block would point before its array. *)
Definition FALRU_new (blkSize size hitLatency : Z) : result FALRU :=
  if negb (isPowerOf2 blkSize) then Err Fatal else
  if negb (0 <? hitLatency) then Err Fatal else
  if negb (isPowerOf2 size) then Err Fatal else
  l ← floorLog2 size;
  let numCaches := u32 (l - 17) in
  if 31 <? numCaches then Err Fatal else
  let cacheMask := if 0 <? numCaches then Z.shiftl 1 numCaches - 1 else 0 in
  let numBlocks := size / blkSize in
  if numBlocks <? 2 then Err OutOfBounds else
  let n := Z.to_nat numBlocks in
  let blks := replicate n (mkFALRUBlk CacheBlk_new None None false 0) in
  blks ← arr_set blks 0 (mkFALRUBlk CacheBlk_new None (Some 1%nat) false cacheMask);
  blks ← arr_set blks (numBlocks - 1) (mkFALRUBlk CacheBlk_new (Some (n - 2)%nat) None false 0);
  s ← foldM init_round
        (mkFAInit blks (replicate (Z.to_nat numCaches) None) (Z.shiftl 1 17 / blkSize) 0 cacheMask)
        (seqZ 1 (numBlocks - 2));
  cassert (in_j s =? numCaches) ;;
  cassert (in_index s =? numBlocks) ;;
  let zeros := replicate (S (Z.to_nat numCaches)) 0 in
  Ok (mkFALRU (mkFACfg blkSize hitLatency numCaches cacheMask numBlocks) (in_blks s) (Some 0%nat)
        (Some (n - 1)%nat) (in_boundaries s) ∅ zeros zeros 0 0 0 false 0).

(** * Operations *)

Definition hashLookup (addr : Z) (t : FALRU) : option nat := fa_tagHash t !! addr.

Definition fa_invalidateBlk (blk : option nat) (t : FALRU) : result FALRU :=
  match blk with
  | None => Ok t
  | Some _ =>
      t ← fa_update blk (fun b => with_fb_isTouched false (with_fb_blk (with_blk_status 0 (fb_blk b)) b)) t;
      Ok (with_fa_tagsInUse (fa_tagsInUse t - 1) t)
  end.

(** One round of the loop of [moveToHead]: the marker of cache size [i]. *)
Definition boundary_round (blk : option nat) (updateMask : Z) (t : FALRU) (i : Z) : result FALRU :=
  m ← arr_get (fa_boundaries t) i;
  if negb (Z.land (Z.shiftl 1 i) updateMask =? 0) then
    t ← fa_update m (fun b => with_fb_inCache (Z.ldiff (fb_inCache b) (Z.shiftl 1 i)) b) t;
    b ← fa_deref m t;
    bs ← arr_set (fa_boundaries t) i (fb_prev b);
    Ok (with_fa_boundaries bs t)
  else if bool_decide (m = blk) then
    b ← fa_deref blk t;
    bs ← arr_set (fa_boundaries t) i (fb_prev b);
    Ok (with_fa_boundaries bs t)
  else Ok t.

(** Taking a block that is not the first out of the list, and putting it first. *)
Definition unlink (blk : option nat) (t : FALRU) : result FALRU :=
  b ← fa_deref blk t;
  if bool_decide (blk = fa_tail t) then
    cassert (bool_decide (fb_next b = None)) ;;
    let t := with_fa_tail (fb_prev b) t in
    fa_update (fa_tail t) (with_fb_next None) t
  else
    t ← fa_update (fb_prev b) (with_fb_next (fb_next b)) t;
    b ← fa_deref blk t;
    fa_update (fb_next b) (with_fb_prev (fb_prev b)) t.

Definition relink (blk : option nat) (t : FALRU) : result FALRU :=
  t ← unlink blk t;
  t ← fa_update blk (with_fb_next (fa_head t)) t;
  t ← fa_update blk (with_fb_prev None) t;
  t ← fa_update (fa_head t) (with_fb_prev blk) t;
  Ok (with_fa_head blk t).

Definition fa_moveToHead (blk : option nat) (t : FALRU) : result FALRU :=
  b ← fa_deref blk t;
  let updateMask := Z.lxor (fb_inCache b) (fa_cacheMask (fa_cfg t)) in
  t ← foldM (boundary_round blk updateMask) t (zrange (fa_numCaches (fa_cfg t)));
  t ← fa_update blk (with_fb_inCache (fa_cacheMask (fa_cfg t))) t;
  if bool_decide (blk = fa_head t) then Ok t else relink blk t.

(** The counters of a hit: the sizes whose bit is set hit, and so does the whole
    cache, the last; the others miss. *)
Definition size_hits (numCaches inCache i : Z) : bool :=
  (i =? numCaches) || negb (Z.land (Z.shiftl 1 i) inCache =? 0).
Definition count_hits (numCaches inCache : Z) (hits : list Z) : list Z :=
  imap (fun i h => if size_hits numCaches inCache (Z.of_nat i) then h + 1 else h) hits.
Definition count_misses (numCaches inCache : Z) (misses : list Z) : list Z :=
  imap (fun i m => if size_hits numCaches inCache (Z.of_nat i) then m else m + 1) misses.

(** [accessBlock]: the block, if the access hits, and the latency. *)
Definition fa_accessBlock (addr : Z) (t : FALRU) : result (option nat * Z * FALRU) :=
  let t := with_fa_accesses (fa_accesses t + 1) t in
  let blkAddr := fa_blkAlign addr (fa_cfg t) in
  let miss := Ok (None, fa_hitLatency (fa_cfg t), with_fa_counts (fa_hits t) ((fun m => m + 1) <$> fa_misses t) t) in
  match hashLookup blkAddr t with
  | None => miss
  | Some i =>
      b ← fa_deref (Some i) t;
      if isValid (fb_blk b) then
        cassert (blk_tag (fb_blk b) =? blkAddr) ;;
        let n := fa_numCaches (fa_cfg t) in
        let t := with_fa_counts (count_hits n (fb_inCache b) (fa_hits t))
                   (count_misses n (fb_inCache b) (fa_misses t)) t in
        t ← (if bool_decide (Some i = fa_head t) then Ok t else fa_moveToHead (Some i) t);
        Ok (Some i, fa_hitLatency (fa_cfg t), t)
      else miss
  end.

Definition fa_findBlock (addr : Z) (t : FALRU) : result (option nat) :=
  let blkAddr := fa_blkAlign addr (fa_cfg t) in
  match hashLookup blkAddr t with
  | None => Ok None
  | Some i =>
      b ← fa_deref (Some i) t;
      if isValid (fb_blk b) then cassert (blk_tag (fb_blk b) =? blkAddr) ;; Ok (Some i) else Ok None
  end.

(** [findVictim]: the last block of the list, moved to the front and entered under
    the new address.  Its tag, which names the entry that goes, is left to the
    caller. *)
Definition fa_findVictim (addr curTick : Z) (t : FALRU) : result (option nat * FALRU) :=
  let blk := fa_tail t in
  b ← fa_deref blk t;
  cassert (fb_inCache b =? 0) ;;
  t ← fa_moveToHead blk t;
  b ← fa_deref blk t;
  i ← of_option NullDeref blk;
  let t := with_fa_tagHash (delete (blk_tag (fb_blk b)) (fa_tagHash t)) t in
  let t := with_fa_tagHash (<[fa_blkAlign addr (fa_cfg t) := i]> (fa_tagHash t)) t in
  if isValid (fb_blk b) then Ok (blk, with_fa_replacements (fa_replacements t + 1) t)
  else
    let t := with_fa_tagsInUse (fa_tagsInUse t + 1) t in
    t ← fa_update blk (with_fb_isTouched true) t;
    let t := if negb (fa_warmedUp t) && (fa_numBlocks (fa_cfg t) <=? fa_tagsInUse t)
             then with_fa_warmedUp true curTick t else t in
    Ok (blk, t).

(** [insertBlock] does nothing. *)
Definition fa_insertBlock (addr : Z) (blk : option nat) (t : FALRU) : FALRU := t.

Definition fa_clearLocks (t : FALRU) : FALRU :=
  with_fa_blks ((fun b => with_fb_blk (clearLoadLocks (fb_blk b)) b) <$> fa_blks t) t.

(** [check]: walking the list from its head; a list of at most [fuel] blocks is
    walked to its end. *)
Fixpoint check_loop (fuel : nat) (t : FALRU) (blk : option nat) (size boundary j flags : Z) : result bool :=
  match blk with
  | None => Ok true
  | Some _ =>
      match fuel with
      | O => Err OutOfFuel
      | S fuel' =>
          b ← fa_deref blk t;
          let size := i32 (size + fa_blkSize (fa_cfg t)) in
          if negb (fb_inCache b =? flags) then Ok false
          else if (size =? boundary) && negb (bool_decide (blk = fa_tail t)) then
            m ← arr_get (fa_boundaries t) j;
            if negb (bool_decide (m = blk)) then Ok false
            else check_loop fuel' t (fb_next b) size (i32 (Z.shiftl boundary 1)) (j + 1)
                   (Z.ldiff flags (Z.shiftl 1 j))
          else check_loop fuel' t (fb_next b) size boundary j flags
      end
  end.
Definition fa_check (t : FALRU) : result bool :=
  check_loop (S (length (fa_blks t))) t (fa_head t) 0 (Z.shiftl 1 17) 0 (fa_cacheMask (fa_cfg t)).
