(* ===== verification/FaLRUSpec.v ===== *)
(** The fully associative tag store against the plain list of its blocks in the
    order of their last use: the links and the size markers always describe that
    list, and the counters of all sizes are those of separate LRU caches. *)

From S2P Require Import Prelude IntMath Request MemCmd Packet Blk FaLRU.

#[local] Open Scope nat_scope.

(** Case analysis on comparisons of [nat], from the inside. *)
Ltac no_match a := lazymatch a with context [match _ with _ => _ end] => fail | _ => idtac end.
Ltac nb :=
  repeat (match goal with
  | |- context [?a =? ?b] => no_match a; no_match b; destruct (Nat.eqb_spec a b)
  | |- context [?a <? ?b] => no_match a; no_match b; destruct (Nat.ltb_spec a b)
  | |- context [?a <=? ?b] => no_match a; no_match b; destruct (Nat.leb_spec a b)
  end; cbn [andb negb orb]; try lia; try done).

(** * Order *)

(** The block before position [p]. *)
Definition prev_at {A} (l : list A) (p : nat) : option A := match p with O => None | S q => l !! q end.

Lemma prev_at_pos {A} (l : list A) p : 0 < p -> prev_at l p = l !! (p - 1).
Proof. destruct p; [lia|]. intros _. cbn. by rewrite Nat.sub_0_r. Qed.

(** The order after the block at position [p] has been used. *)
Definition touch {A} (x : A) (p : nat) (l : list A) : list A := x :: delete p l.

(** Where the block at position [q] was. *)
Definition old_pos (p q : nat) : nat := if q =? 0 then p else if q <=? p then q - 1 else q.
(** Where the block at position [q] goes. *)
Definition new_pos (p q : nat) : nat := if q <? p then S q else if q =? p then 0 else q.

Lemma touch_lookup {A} (l : list A) p x q : l !! p = Some x -> touch x p l !! q = l !! old_pos p q.
Proof.
  intros H. unfold touch. destruct q as [|q]; [done|].
  change (delete p l !! q = l !! old_pos p (S q)). unfold old_pos. cbn [Nat.eqb]. destruct (Nat.leb_spec (S q) p).
  - rewrite list_lookup_delete_lt by lia. f_equal. lia.
  - rewrite list_lookup_delete_ge by lia. done.
Qed.

Lemma old_new p q : old_pos p (new_pos p q) = q.
Proof. unfold new_pos. nb; unfold old_pos; nb; lia. Qed.
Lemma new_old p q : new_pos p (old_pos p q) = q.
Proof. unfold old_pos. nb; unfold new_pos; nb; lia. Qed.

Lemma touch_Permutation {A} (l : list A) p x : l !! p = Some x -> touch x p l ≡ₚ l.
Proof. intros H. symmetry. by apply delete_Permutation. Qed.

Lemma touch_first {A} (l : list A) x : l !! 0 = Some x -> touch x 0 l = l.
Proof. destruct l; cbn; by intros [= ->]. Qed.

(** * Sizes *)

Section Sizes.

(** The smallest size tracked holds [base] blocks; there are [nc] sizes below the
    full one. *)
Context (base nc : nat).

Definition bound (i : nat) : nat := base * 2 ^ i.

(** The flags of the block at position [q]. *)
Definition mask_ok (q : nat) (m : Z) : Prop :=
  forall i : nat, Z.testbit m (Z.of_nat i) = (i <? nc) && (q <? bound i).

Record cfg_ok (c : FACfg) : Prop := {
  k_base : 2 <= base;
  k_sizes : nc <= 13;
  k_numCaches : fa_numCaches c = Z.of_nat nc;
  k_mask : fa_cacheMask c = (2 ^ Z.of_nat nc - 1)%Z;
  k_blkSize : exists b, (0 <= b)%Z /\ fa_blkSize c = (2 ^ b)%Z;
  k_bytes : (Z.of_nat base * fa_blkSize c = 2 ^ 17)%Z;
  k_numBlocks : fa_numBlocks c = Z.of_nat (bound nc)
}.

(** The store holds the blocks [order], last used first. *)
Record fa_inv (t : FALRU) (order : list nat) : Prop := {
  fi_cfg : cfg_ok (fa_cfg t);
  fi_perm : order ≡ₚ seq 0 (bound nc);
  fi_len : length (fa_blks t) = bound nc;
  fi_head : fa_head t = order !! 0;
  fi_tail : fa_tail t = order !! (bound nc - 1);
  fi_node : forall p i, order !! p = Some i -> exists b, fa_blks t !! i = Some b /\
    fb_prev b = prev_at order p /\ fb_next b = order !! S p /\ mask_ok p (fb_inCache b);
  fi_boundaries : length (fa_boundaries t) = nc;
  fi_boundary : forall i, i < nc -> fa_boundaries t !! i = Some (order !! (bound i - 1));
  fi_hash : forall a i, fa_tagHash t !! a = Some i -> i < bound nc
}.

Lemma bound_le i j : i <= j -> bound i <= bound j.
Proof. intros H. unfold bound. apply Nat.mul_le_mono_l, Nat.pow_le_mono_r; lia. Qed.

Lemma bound_lt i j : 1 <= base -> i < j -> bound i < bound j.
Proof. intros Hb H. unfold bound. apply Nat.mul_lt_mono_pos_l; [lia|]. apply Nat.pow_lt_mono_r; lia. Qed.

Lemma bound_ge i : base <= bound i.
Proof. unfold bound. pose proof (Nat.pow_nonzero 2 i). nia. Qed.

(** ** Reading and writing blocks *)

Lemma fa_deref_eq t i b : fa_blks t !! i = Some b -> fa_deref (Some i) t = Ok b.
Proof. intros H. unfold fa_deref. by rewrite H. Qed.

Lemma fa_update_eq t i b f :
  fa_blks t !! i = Some b -> fa_update (Some i) f t = Ok (with_fa_blks (alter f i (fa_blks t)) t).
Proof.
  intros H. unfold fa_update. rewrite H. cbn. do 2 f_equal. apply list_eq. intros j.
  destruct (decide (i = j)) as [<-|].
  - rewrite list_lookup_alter_eq, H, list_lookup_insert_eq; [done|]. by eapply lookup_lt_Some.
  - by rewrite list_lookup_alter_ne, list_lookup_insert_ne.
Qed.

(** Everything but the blocks' links and flags and the markers. *)
Record same_store (t t' : FALRU) : Prop := {
  ss_cfg : fa_cfg t' = fa_cfg t;
  ss_hash : fa_tagHash t' = fa_tagHash t;
  ss_hits : fa_hits t' = fa_hits t;
  ss_misses : fa_misses t' = fa_misses t;
  ss_len : length (fa_blks t') = length (fa_blks t);
  ss_blk : forall i, fb_blk <$> fa_blks t' !! i = fb_blk <$> fa_blks t !! i
}.

#[local] Instance same_store_refl : Reflexive same_store.
Proof. by intros t. Qed.
#[local] Instance same_store_trans : Transitive same_store.
Proof. intros t1 t2 t3 [] []. split; try congruence; intros; etrans; eauto. Qed.

Lemma same_store_alter t f i :
  (forall b, fb_blk (f b) = fb_blk b) -> same_store t (with_fa_blks (alter f i (fa_blks t)) t).
Proof.
  intros Hf. split; cbn; try done; [apply length_alter|]. intros j. destruct (decide (i = j)) as [<-|].
  - rewrite list_lookup_alter_eq. destruct (fa_blks t !! i); cbn; by rewrite ?Hf.
  - by rewrite list_lookup_alter_ne.
Qed.

(** ** The markers *)

(** While the block at position [p] is being moved: the markers and flags of the
    first [k] sizes are those of the new order, the others those of the old; the
    links are the old ones. *)
Record moving (order : list nat) (p x k : nat) (t : FALRU) : Prop := {
  mv_cfg : cfg_ok (fa_cfg t);
  mv_node : forall q i, order !! q = Some i -> exists b, fa_blks t !! i = Some b /\
    fb_prev b = prev_at order q /\ fb_next b = order !! S q /\
    forall j : nat, Z.testbit (fb_inCache b) (Z.of_nat j) =
      (j <? nc) && ((if (j <? k) && negb (q =? p) then new_pos p q else q) <? bound j);
  mv_boundaries : length (fa_boundaries t) = nc;
  mv_boundary : forall i, i < nc ->
    fa_boundaries t !! i = Some ((if i <? k then touch x p order else order) !! (bound i - 1))
}.

Lemma bit_test (i : nat) m : negb (Z.land (Z.shiftl 1 (Z.of_nat i)) m =? 0)%Z = Z.testbit m (Z.of_nat i).
Proof. rewrite Z.shiftl_1_l, Z.land_comm. apply land_pow2_testbit. lia. Qed.

Lemma arr_get_nat {A} (l : list A) (i : nat) x : l !! i = Some x -> arr_get l (Z.of_nat i) = Ok x.
Proof. intros H. apply arr_get_Ok. split; [lia|]. by rewrite Nat2Z.id. Qed.

Lemma arr_set_nat {A} (l : list A) (i : nat) x : i < length l -> arr_set l (Z.of_nat i) x = Ok (<[i := x]> l).
Proof. intros H. apply arr_set_Ok. split; [lia|]. by rewrite Nat2Z.id. Qed.

(** A size that held the block: its marker moves only if it stood on the block. *)
Lemma moving_kept order p x k t :
  2 <= base -> NoDup order -> order !! p = Some x -> p < bound k -> k < nc -> p <> bound k - 1 ->
  moving order p x k t -> moving order p x (S k) t.
Proof.
  intros Hb Hnd Hp Hlt Hk Hne []. split; try done.
  - intros q i Hq. destruct (mv_node0 q i Hq) as (b & Hi & Hpr & Hn & Hm). exists b. split_and!; try done.
    intros j. rewrite Hm. destruct (decide (j = k)) as [->|].
    + unfold new_pos. nb.
    + nb.
  - intros i Hi. rewrite mv_boundary0 by done. destruct (decide (i = k)) as [->|].
    + nb; try lia. rewrite (touch_lookup _ _ _ _ Hp). unfold old_pos.
      pose proof (bound_ge k). nb.
    + nb.
Qed.

(** Writing a marker. *)
Lemma moving_set_boundary order p x k t m :
  k < nc -> m = touch x p order !! (bound k - 1) ->
  (forall q i, order !! q = Some i -> exists b, fa_blks t !! i = Some b /\
    fb_prev b = prev_at order q /\ fb_next b = order !! S q /\
    forall j : nat, Z.testbit (fb_inCache b) (Z.of_nat j) =
      (j <? nc) && ((if (j <? S k) && negb (q =? p) then new_pos p q else q) <? bound j)) ->
  cfg_ok (fa_cfg t) -> length (fa_boundaries t) = nc ->
  (forall i, i < nc ->
    fa_boundaries t !! i = Some ((if i <? k then touch x p order else order) !! (bound i - 1))) ->
  moving order p x (S k) (with_fa_boundaries (<[k := m]> (fa_boundaries t)) t).
Proof.
  intros Hk -> Hn Hc Hl Hbd. split; try done.
  - cbn. by rewrite length_insert.
  - intros i Hi. cbn. destruct (decide (i = k)) as [->|].
    + rewrite list_lookup_insert_eq by lia. nb.
    + rewrite list_lookup_insert_ne, Hbd by done. nb.
Qed.

Lemma boundary_step order p x k t um :
  2 <= base -> NoDup order -> length order = bound nc -> order !! p = Some x -> k < nc ->
  (forall j : nat, j < nc -> Z.testbit um (Z.of_nat j) = negb (p <? bound j)) ->
  moving order p x k t ->
  exists t', boundary_round (Some x) um t (Z.of_nat k) = Ok t' /\ moving order p x (S k) t' /\
    same_store t t' /\ fa_head t' = fa_head t /\ fa_tail t' = fa_tail t.
Proof.
  intros Hb Hnd Hlen Hp Hk Hum M. pose proof M as [].
  pose proof (bound_ge k). pose proof (bound_lt k nc ltac:(lia) Hk).
  destruct (lookup_lt_is_Some_2 order (bound k - 1)) as [ib Hib]; [lia|].
  destruct (mv_node0 _ _ Hib) as (b & Hbk & Hpr & Hn & Hm).
  unfold boundary_round. erewrite arr_get_nat by (apply mv_boundary0; done). rewrite bind_Ok_l, bit_test, Hum by done.
  replace (k <? k) with false by (by nb; lia). rewrite Hib.
  assert (prev_at order (bound k - 1) = order !! (bound k - 2)) as Hprev.
  { destruct (bound k - 1) eqn:E; [lia|]. cbn. f_equal. lia. }
  destruct (Nat.ltb_spec p (bound k)) as [Hlt|Hge]; cbn [negb].
  - case_bool_decide as E.
    + injection E as ->. assert (p = bound k - 1) as ->; [by eapply NoDup_lookup|].
      rewrite (fa_deref_eq _ _ _ Hbk), bind_Ok_l, arr_set_nat, bind_Ok_l by lia. eexists. split; [done|].
      split; [|done]. apply moving_set_boundary; try done.
      * rewrite Hpr, Hprev, (touch_lookup _ _ _ _ Hp). unfold old_pos. nb; try lia. f_equal. lia.
      * intros q i Hq. destruct (mv_node0 q i Hq) as (b' & Hi & Hpr' & Hn' & Hm'). exists b'. split_and!; try done.
        intros j. rewrite Hm'. unfold new_pos. destruct (decide (j = k)) as [->|]; nb.
    + exists t. split; [done|]. split; [|done]. apply moving_kept; try done. intros ->. congruence.
  - rewrite (fa_update_eq _ _ _ _ Hbk), bind_Ok_l.
    set (f := fun b => with_fb_inCache _ b). set (t1 := with_fa_blks _ t).
    assert (fa_blks t1 !! ib = Some (f b)) as Ht1 by (cbn; by rewrite list_lookup_alter_eq, Hbk).
    rewrite (fa_deref_eq _ _ _ Ht1), bind_Ok_l, arr_set_nat, bind_Ok_l by (cbn; lia). eexists. split; [done|].
    split; [|split; [|done]].
    2:{ transitivity t1; [by apply same_store_alter|]. done. }
    apply moving_set_boundary; try done.
    + cbn. rewrite Hpr, Hprev, (touch_lookup _ _ _ _ Hp). unfold old_pos. nb; try lia. f_equal. lia.
    + intros q i Hq. destruct (mv_node0 q i Hq) as (b' & Hi & Hpr' & Hn' & Hm'). destruct (decide (i = ib)) as [->|Hne].
      * assert (q = bound k - 1) as -> by (by eapply NoDup_lookup). exists (f b). split; [done|].
        rewrite Hbk in Hi. injection Hi as <-. split_and!; try done. intros j. unfold f. cbn [fb_inCache with_fb_inCache].
        rewrite Z.ldiff_spec, Hm', Z.shiftl_1_l, Z.pow2_bits_eqb by lia.
        destruct (decide (j = k)) as [->|].
        -- unfold new_pos. rewrite Z.eqb_refl, andb_false_r. nb.
        -- replace (Z.of_nat k =? Z.of_nat j)%Z with false by (symmetry; apply Z.eqb_neq; lia).
           unfold new_pos. rewrite andb_true_r. nb.
      * exists b'. unfold t1. cbn [fa_blks with_fa_blks]. rewrite list_lookup_alter_ne by done. split_and!; try done. intros j. rewrite Hm'.
        assert (q <> bound k - 1) by (intros ->; congruence).
        unfold new_pos. destruct (decide (j = k)) as [->|]; nb.
Qed.

Lemma boundary_loop order p x um n t :
  2 <= base -> NoDup order -> length order = bound nc -> order !! p = Some x -> n <= nc ->
  (forall j : nat, j < nc -> Z.testbit um (Z.of_nat j) = negb (p <? bound j)) ->
  moving order p x 0 t ->
  exists t', foldM (boundary_round (Some x) um) t (zrange (Z.of_nat n)) = Ok t' /\ moving order p x n t' /\
    same_store t t' /\ fa_head t' = fa_head t /\ fa_tail t' = fa_tail t.
Proof.
  intros Hb Hnd Hl Hp Hn Hum M. induction n as [|n IH]; [by exists t|].
  destruct IH as (t1 & E1 & M1 & S1 & H1 & T1); [lia|].
  destruct (boundary_step _ _ _ n _ um Hb Hnd Hl Hp ltac:(lia) Hum M1) as (t2 & E2 & M2 & S2 & H2 & T2).
  exists t2. unfold zrange in *. replace (Z.of_nat (S n)) with (Z.of_nat n + 1)%Z by lia.
  rewrite seqZ_app by lia. replace (seqZ (0 + Z.of_nat n) 1) with [Z.of_nat n] by (cbn; f_equal; lia).
  rewrite foldM_app, E1, bind_Ok_l. cbn [foldM]. rewrite E2. split; [done|]. split; [done|].
  split; [by etrans|]. split; congruence.
Qed.

(** ** The links *)

(** The links of the list [order], the block at position [p] taken out and put
    first. *)
Record links (order : list nat) (t : FALRU) : Prop := {
  ln_head : fa_head t = order !! 0;
  ln_tail : fa_tail t = order !! (bound nc - 1);
  ln_node : forall q i, order !! q = Some i -> exists b, fa_blks t !! i = Some b /\
    fb_prev b = prev_at order q /\ fb_next b = order !! S q
}.

(** Only the links of the blocks change. *)
Definition same_flags (t t' : FALRU) : Prop :=
  fa_boundaries t' = fa_boundaries t /\ same_store t t' /\
  forall i, fb_inCache <$> fa_blks t' !! i = fb_inCache <$> fa_blks t !! i.

Lemma same_flags_alter t f i :
  (forall b, fb_blk (f b) = fb_blk b /\ fb_inCache (f b) = fb_inCache b) ->
  same_flags t (with_fa_blks (alter f i (fa_blks t)) t).
Proof.
  intros Hf. split; [done|]. split; [apply same_store_alter; intros b; apply Hf|]. intros j. cbn.
  destruct (decide (i = j)) as [<-|].
  - rewrite list_lookup_alter_eq. destruct (fa_blks t !! i) as [b|]; [|done]. cbn. f_equal. apply Hf.
  - by rewrite list_lookup_alter_ne.
Qed.

Lemma same_flags_head t t' v : same_flags t t' -> same_flags t (with_fa_head v t').
Proof. intros (? & [] & ?). by split_and!. Qed.
Lemma same_flags_tail t t' v : same_flags (with_fa_tail v t) t' -> same_flags t t'.
Proof. intros (? & [] & ?). by split_and!. Qed.

#[local] Instance same_flags_trans : Transitive same_flags.
Proof. intros t1 t2 t3 (? & ? & H) (? & ? & H'). split; [congruence|]. split; [by etrans|]. intros i. by rewrite H', H. Qed.

(** The links of the blocks by their position in [order]. *)
Definition nodes (order : list nat) (t : FALRU) (P N : nat -> option nat) : Prop :=
  forall q i, order !! q = Some i -> exists b, fa_blks t !! i = Some b /\ fb_prev b = P q /\ fb_next b = N q.

(** The rest of the store during the surgery. *)
Definition kept (t t' : FALRU) : Prop := same_flags t t' /\ fa_head t' = fa_head t /\ fa_tail t' = fa_tail t.

Lemma alter_node order t r x f q i b :
  NoDup order -> order !! r = Some x -> order !! q = Some i -> fa_blks t !! i = Some b ->
  alter f x (fa_blks t) !! i = Some (if q =? r then f b else b).
Proof.
  intros Hnd Hr Hq Hb. destruct (Nat.eqb_spec q r) as [->|Hne].
  - replace i with x by congruence. rewrite list_lookup_alter_eq. replace x with i by congruence. by rewrite Hb.
  - rewrite list_lookup_alter_ne; [done|]. intros ->. apply Hne. by eapply NoDup_lookup.
Qed.

Lemma write_next order t P N r x v :
  NoDup order -> nodes order t P N -> order !! r = Some x ->
  exists t', fa_update (Some x) (with_fb_next v) t = Ok t' /\
    nodes order t' P (fun q => if q =? r then v else N q) /\ kept t t'.
Proof.
  intros Hnd Hn Hr. destruct (Hn r x Hr) as (b & Hb & _). rewrite (fa_update_eq _ _ _ _ Hb). eexists. split; [done|].
  split; [|by split; [apply same_flags_alter|]].
  intros q i Hq. destruct (Hn q i Hq) as (bi & Hi & Hp & Hx). eexists. split; [by eapply alter_node|].
  destruct (q =? r); done.
Qed.

Lemma write_prev order t P N r x v :
  NoDup order -> nodes order t P N -> order !! r = Some x ->
  exists t', fa_update (Some x) (with_fb_prev v) t = Ok t' /\
    nodes order t' (fun q => if q =? r then v else P q) N /\ kept t t'.
Proof.
  intros Hnd Hn Hr. destruct (Hn r x Hr) as (b & Hb & _). rewrite (fa_update_eq _ _ _ _ Hb). eexists. split; [done|].
  split; [|by split; [apply same_flags_alter|]].
  intros q i Hq. destruct (Hn q i Hq) as (bi & Hi & Hp & Hx). eexists. split; [by eapply alter_node|].
  destruct (q =? r); done.
Qed.

#[local] Instance kept_trans : Transitive kept.
Proof. intros t1 t2 t3 (? & ? & ?) (? & ? & ?). split; [by etrans|]. split; congruence. Qed.

(** Putting the block at position [p] first, once it has been taken out. *)
Lemma push_front order p x t P N :
  NoDup order -> order !! p = Some x -> 0 < p -> fa_head t = order !! 0 -> nodes order t P N ->
  exists t', (t ← fa_update (Some x) (with_fb_next (fa_head t)) t;
              t ← fa_update (Some x) (with_fb_prev None) t;
              t ← fa_update (fa_head t) (with_fb_prev (Some x)) t;
              Ok (with_fa_head (Some x) t)) = Ok t' /\
    nodes order t' (fun q => if q =? 0 then Some x else if q =? p then None else P q)
                   (fun q => if q =? p then order !! 0 else N q) /\
    same_flags t t' /\ fa_head t' = Some x /\ fa_tail t' = fa_tail t.
Proof.
  intros Hnd Hp H0 Hh Hn. pose proof (lookup_lt_Some _ _ _ Hp).
  destruct (lookup_lt_is_Some_2 order 0) as [hd Hhd]; [lia|].
  destruct (write_next _ _ _ _ p x (order !! 0) Hnd Hn Hp) as (t1 & E1 & N1 & K1).
  destruct (write_prev _ _ _ _ p x None Hnd N1 Hp) as (t2 & E2 & N2 & K2).
  destruct (write_prev _ _ _ _ 0 hd (Some x) Hnd N2 Hhd) as (t3 & E3 & N3 & K3).
  assert (kept t t3) as (F & H3 & T3) by exact (transitivity K1 (transitivity K2 K3)).
  assert (fa_head t2 = Some hd) as H2 by (destruct K1 as (_ & HA & _), K2 as (_ & HB & _); congruence).
  rewrite Hh, E1, bind_Ok_l, E2, bind_Ok_l, H2, E3, bind_Ok_l. exists (with_fa_head (Some x) t3).
  split; [reflexivity|]. split; [exact N3|]. split; [by apply same_flags_head|]. split; [reflexivity | exact T3].
Qed.

(** Taking it out: the neighbours are joined. *)
Lemma take_out order p x t :
  NoDup order -> length order = bound nc -> order !! p = Some x -> 0 < p -> links order t ->
  exists t', unlink (Some x) t = Ok t' /\
    nodes order t' (fun q => if q =? S p then order !! (p - 1) else prev_at order q)
                   (fun q => if q =? p - 1 then order !! S p else order !! S q) /\
    same_flags t t' /\ fa_head t' = fa_head t /\
    fa_tail t' = if p =? bound nc - 1 then order !! (p - 1) else fa_tail t.
Proof.
  intros Hnd Hl Hp H0 []. pose proof (lookup_lt_Some _ _ _ Hp) as Hpl.
  assert (nodes order t (prev_at order) (fun q => order !! S q)) as Hn by exact ln_node0.
  destruct (ln_node0 p x Hp) as (b & Hb & Hpr & Hnx).
  destruct (lookup_lt_is_Some_2 order (p - 1)) as [y Hy]; [lia|].
  assert (prev_at order p = Some y) as Hpp by (destruct p; [lia|]; cbn; by rewrite <- Hy; f_equal; lia).
  unfold unlink. rewrite (fa_deref_eq _ _ _ Hb), bind_Ok_l, ln_tail0, Hpr, Hnx, Hpp.
  destruct (lookup_lt_is_Some_2 order (bound nc - 1)) as [z Hz]; [lia|]. rewrite Hz.
  case_bool_decide as Et.
  - injection Et as <-. assert (p = bound nc - 1) as Ep by (by eapply NoDup_lookup).
    assert (order !! S p = None) as Hnone by (apply lookup_ge_None_2; lia).
    rewrite bool_decide_true by done. cbn [cassert]. rewrite bind_Ok_l. cbn zeta. cbn [fa_tail with_fa_tail].
    destruct (write_next order (with_fa_tail (Some y) t) _ _ (p - 1) y None Hnd Hn Hy) as (t1 & E1 & N1 & F & H1 & T1).
    exists t1. split; [exact E1|]. split; [|split; [by eapply same_flags_tail|split; [done|]]].
    + intros q i Hq. destruct (N1 q i Hq) as (bi & Hi & HP & HN). exists bi. split; [done|]. rewrite HP, HN.
      pose proof (lookup_lt_Some _ _ _ Hq). rewrite Hnone. split; [nb | done].
    + rewrite T1. replace (p =? bound nc - 1) with true by nb. done.
  - assert (p <> bound nc - 1) as Ep by (intros ->; congruence).
    destruct (lookup_lt_is_Some_2 order (S p)) as [w Hw]; [lia|].
    destruct (write_next _ _ _ _ (p - 1) y (order !! S p) Hnd Hn Hy) as (t1 & E1 & N1 & K1).
    rewrite E1, bind_Ok_l. destruct (N1 p x Hp) as (b1 & Hb1 & HP1 & HN1).
    rewrite (fa_deref_eq _ _ _ Hb1), bind_Ok_l, HP1, HN1.
    replace (p =? p - 1) with false by nb. rewrite Hw, Hpp.
    destruct (write_prev _ _ _ _ (S p) w (Some y) Hnd N1 Hw) as (t2 & E2 & N2 & K2).
    destruct (transitivity K1 K2) as (F & H2 & T2).
    exists t2. split; [exact E2|]. split_and!; try done.
    + intros q i Hq. rewrite Hy, <- Hw. exact (N2 q i Hq).
    + rewrite T2, ln_tail0, Hz. nb.
Qed.

Lemma fa_relink_spec order p x t :
  NoDup order -> length order = bound nc -> order !! p = Some x -> 0 < p -> links order t ->
  exists t', relink (Some x) t = Ok t' /\ links (touch x p order) t' /\ same_flags t t'.
Proof.
  intros Hnd Hl Hp H0 L. pose proof (lookup_lt_Some _ _ _ Hp) as Hpl.
  destruct (take_out _ _ _ _ Hnd Hl Hp H0 L) as (t1 & E1 & N1 & F1 & H1 & T1).
  assert (fa_head t1 = order !! 0) as Hh by (rewrite H1; apply L).
  destruct (push_front _ _ _ t1 _ _ Hnd Hp H0 Hh N1) as (t2 & E2 & N2 & F2 & H2 & T2).
  exists t2. split; [|split; [|by etrans]].
  { unfold relink. rewrite E1, bind_Ok_l. exact E2. }
  assert (forall q, touch x p order !! q = order !! old_pos p q) as Hlk by (intros q; by apply touch_lookup).
  split.
  - by rewrite H2.
  - rewrite T2, T1, Hlk. unfold old_pos. nb; rewrite ?(ln_tail _ _ L); try done; f_equal; lia.
  - intros q i Hq. rewrite Hlk in Hq. destruct (N2 _ _ Hq) as (b & Hb & HP & HN). exists b. split; [done|].
    rewrite HP, HN, Hlk. destruct q as [|q]; cbn [prev_at]; rewrite ?Hlk; unfold old_pos in *.
    + split; nb.
    + split; nb; try (rewrite <- Hp; f_equal; lia); try (f_equal; lia);
        rewrite prev_at_pos by lia; f_equal; lia.
Qed.

(** ** [moveToHead] *)

Lemma mask_bits c (j : nat) : cfg_ok c -> Z.testbit (fa_cacheMask c) (Z.of_nat j) = (j <? nc).
Proof.
  intros []. rewrite k_mask0. replace (2 ^ Z.of_nat nc - 1)%Z with (Z.ones (Z.of_nat nc)) by (rewrite Z.ones_equiv; lia).
  rewrite Z.testbit_ones_nonneg by lia. destruct (Z.ltb_spec (Z.of_nat j) (Z.of_nat nc)); nb.
Qed.

Lemma inv_NoDup t order : fa_inv t order -> NoDup order /\ length order = bound nc.
Proof.
  intros []. split; [rewrite fi_perm0; apply NoDup_seq|]. by rewrite fi_perm0, length_seq.
Qed.

(** The links are old, everything else is new. *)
Record flagged (order : list nat) (p x : nat) (t : FALRU) : Prop := {
  fl_links : links order t;
  fl_mask : forall q i, order !! q = Some i -> exists b, fa_blks t !! i = Some b /\ mask_ok (new_pos p q) (fb_inCache b);
  fl_boundary : forall i, i < nc -> fa_boundaries t !! i = Some (touch x p order !! (bound i - 1));
  fl_boundaries : length (fa_boundaries t) = nc
}.

Lemma move_flags t order p x :
  fa_inv t order -> order !! p = Some x ->
  exists b t1 t2, fa_deref (Some x) t = Ok b /\
    foldM (boundary_round (Some x) (Z.lxor (fb_inCache b) (fa_cacheMask (fa_cfg t)))) t
      (zrange (fa_numCaches (fa_cfg t))) = Ok t1 /\
    fa_update (Some x) (with_fb_inCache (fa_cacheMask (fa_cfg t1))) t1 = Ok t2 /\
    flagged order p x t2 /\ same_store t t2.
Proof.
  intros I Hp. destruct (inv_NoDup _ _ I) as [Hnd Hl]. pose proof I as [].
  destruct (fi_node0 p x Hp) as (b & Hb & Hpr & Hn & Hm). exists b.
  destruct (boundary_loop order p x (Z.lxor (fb_inCache b) (fa_cacheMask (fa_cfg t))) nc t) as (t1 & E1 & M1 & S1 & H1 & T1);
    try done.
  - apply fi_cfg0.
  - intros j Hj. rewrite Z.lxor_spec, Hm, (mask_bits _ _ fi_cfg0). nb.
  - exists t1. destruct M1. destruct (mv_node0 p x Hp) as (b1 & Hb1 & Hpr1 & Hn1 & Hm1).
    rewrite (k_numCaches _ fi_cfg0), (fa_deref_eq _ _ _ Hb), (fa_update_eq _ _ _ _ Hb1). eexists.
    split; [done|]. split; [exact E1|]. split; [done|].
    split; [|etrans; [exact S1|]; by apply same_store_alter].
    assert (forall q i, order !! q = Some i -> exists b, alter (with_fb_inCache (fa_cacheMask (fa_cfg t1))) x (fa_blks t1) !! i = Some b /\
      fb_prev b = prev_at order q /\ fb_next b = order !! S q /\ mask_ok (new_pos p q) (fb_inCache b)) as Hnode.
    { intros q i Hq. destruct (mv_node0 q i Hq) as (bi & Hi & Hpi & Hni & Hmi). eexists. split; [by eapply alter_node|].
      destruct (Nat.eqb_spec q p) as [->|Hne]; (split; [done|]; split; [done|]); intros j; cbn [fb_inCache with_fb_inCache].
      - rewrite (mask_bits _ _ mv_cfg0). pose proof (bound_ge j). pose proof (k_base _ fi_cfg0). unfold new_pos. nb.
      - rewrite Hmi. nb. }
    split; try done.
    + split; cbn; [by rewrite H1, fi_head0 | by rewrite T1, fi_tail0 |].
      intros q i Hq. destruct (Hnode q i Hq) as (bi & ? & ? & ? & ?). eauto.
    + intros q i Hq. destruct (Hnode q i Hq) as (bi & ? & ? & ? & ?). eauto.
    + intros i Hi. cbn. rewrite mv_boundary0 by done. nb.
Qed.

Lemma flagged_inv t t' order p x :
  fa_inv t order -> order !! p = Some x -> links (touch x p order) t' ->
  (forall q i, order !! q = Some i -> exists b, fa_blks t' !! i = Some b /\ mask_ok (new_pos p q) (fb_inCache b)) ->
  (forall i, i < nc -> fa_boundaries t' !! i = Some (touch x p order !! (bound i - 1))) ->
  length (fa_boundaries t') = nc -> same_store t t' -> fa_inv t' (touch x p order).
Proof.
  intros [] Hp [] Hm Hb Hbl []. split; try done.
  - by rewrite ss_cfg0.
  - by rewrite touch_Permutation.
  - by rewrite ss_len0.
  - intros q i Hq. destruct (ln_node0 q i Hq) as (b & Hi & ? & ?). exists b. split_and!; try done.
    rewrite (touch_lookup _ _ _ _ Hp) in Hq. destruct (Hm _ _ Hq) as (b' & Hi' & Hmb). rewrite new_old in Hmb.
    by replace b with b' by congruence.
  - intros a i. rewrite ss_hash0. apply fi_hash0.
Qed.

Lemma fa_moveToHead_spec t order p x :
  fa_inv t order -> order !! p = Some x ->
  exists t', fa_moveToHead (Some x) t = Ok t' /\ fa_inv t' (touch x p order) /\ same_store t t'.
Proof.
  intros I Hp. destruct (inv_NoDup _ _ I) as [Hnd Hl].
  destruct (move_flags _ _ _ _ I Hp) as (b & t1 & t2 & Eb & E1 & E2 & [L M B BL] & S2).
  unfold fa_moveToHead. rewrite Eb, bind_Ok_l. cbn zeta. rewrite E1, bind_Ok_l, E2, bind_Ok_l.
  rewrite (ln_head _ _ L). case_bool_decide as Eh.
  - assert (p = 0) as -> by (by eapply NoDup_lookup). exists t2. split; [done|]. split; [|done].
    eapply flagged_inv; try done. by rewrite touch_first.
  - assert (0 < p) as H0 by (destruct p; [congruence | lia]).
    destruct (fa_relink_spec _ _ _ _ Hnd Hl Hp H0 L) as (t3 & E3 & L3 & (B3 & S3 & F3)).
    exists t3. split; [done|]. split; [|by etrans]. eapply flagged_inv; try done.
    + intros q i Hq. destruct (M q i Hq) as (b' & Hb' & Hm). specialize (F3 i). rewrite Hb' in F3.
      destruct (fa_blks t3 !! i) as [b3|]; [|done]. injection F3 as F3. exists b3. by rewrite F3.
    + intros i Hi. rewrite B3. by apply B.
    + by rewrite B3.
    + by etrans.
Qed.

(** ** [check] *)

Lemma mask_unique q m m' : mask_ok q m -> mask_ok q m' -> m = m'.
Proof.
  intros Hm Hm'. apply Z.bits_inj'. intros n Hn. specialize (Hm (Z.to_nat n)). specialize (Hm' (Z.to_nat n)).
  rewrite Z2Nat.id in * by done. congruence.
Qed.

Lemma fa_i32_small z : (0 <= z < 2 ^ 31)%Z -> i32 z = z.
Proof. intros H. unfold i32. rewrite Z.mod_small by lia. destruct (Z.ltb_spec z (2 ^ 31)); lia. Qed.

(** The bytes of [bound i] blocks. *)
Lemma bound_bytes c i : cfg_ok c -> (Z.of_nat (bound i) * fa_blkSize c = 2 ^ (17 + Z.of_nat i))%Z.
Proof.
  intros []. unfold bound. rewrite Nat2Z.inj_mul, Nat2Z.inj_pow, Z.pow_add_r by lia. nia.
Qed.

Lemma bytes_lt c q r : cfg_ok c -> (Z.of_nat q * fa_blkSize c = Z.of_nat r * fa_blkSize c)%Z -> q = r.
Proof. intros [] H. assert (fa_blkSize c <> 0)%Z by lia. apply Z.mul_reg_r in H; lia. Qed.

(** The flags one position further down: they change only at a marker. *)
Lemma mask_next j q m :
  1 <= base -> (forall i, i < j -> bound i <= q) -> S q < bound j -> mask_ok q m -> mask_ok (S q) m.
Proof.
  intros Hb Hge Hlt Hm j'. rewrite Hm. destruct (Nat.lt_ge_cases j' j) as [Hj'|Hj'].
  - specialize (Hge j' Hj'). nb.
  - pose proof (bound_le j j' Hj'). nb.
Qed.

Lemma mask_cross j q m :
  1 <= base -> (forall i, i < j -> bound i <= q) -> S q = bound j -> mask_ok q m ->
  mask_ok (S q) (Z.ldiff m (Z.shiftl 1 (Z.of_nat j))).
Proof.
  intros Hb Hge Hlt Hm j'. rewrite Z.ldiff_spec, Hm, Z.shiftl_1_l, Z.pow2_bits_eqb by lia.
  destruct (decide (j' = j)) as [->|]; [rewrite Z.eqb_refl, andb_false_r; nb|].
  replace (Z.of_nat j =? Z.of_nat j')%Z with false by (symmetry; apply Z.eqb_neq; lia). rewrite andb_true_r.
  destruct (Nat.lt_ge_cases j' j) as [Hj'|Hj'].
  - specialize (Hge j' Hj'). nb.
  - pose proof (bound_lt j j' ltac:(lia) ltac:(lia)). nb.
Qed.

Lemma double_boundary j : j < 13 -> i32 (Z.shiftl (2 ^ (17 + Z.of_nat j)) 1) = (2 ^ (17 + Z.of_nat (S j)))%Z.
Proof.
  intros Hj. rewrite Z.shiftl_mul_pow2 by lia. rewrite <- Z.pow_add_r by lia.
  replace (17 + Z.of_nat j + 1)%Z with (17 + Z.of_nat (S j))%Z by lia. apply fa_i32_small.
  split; [apply Z.pow_nonneg; lia|]. apply (Z.le_lt_trans _ (2 ^ 30)); [apply Z.pow_le_mono_r; lia | lia].
Qed.

Lemma check_loop_ok t order fuel : forall q j flags,
  fa_inv t order -> q <= bound nc -> bound nc - q < fuel -> j <= nc -> (q < bound j \/ q = bound nc) -> (forall i, i < j -> bound i <= q) ->
  mask_ok q flags ->
  check_loop fuel t (order !! q) (Z.of_nat q * fa_blkSize (fa_cfg t)) (2 ^ (17 + Z.of_nat j)) (Z.of_nat j) flags = Ok true.
Proof.
  induction fuel as [|fuel IH]; intros q j flags I Hq Hf Hj Hlt Hge Hm; [lia|].
  destruct (inv_NoDup _ _ I) as [Hnd Hl]. pose proof I as [].
  destruct (order !! q) as [i|] eqn:Ei; [|done]. pose proof (lookup_lt_Some _ _ _ Ei) as Hql.
  destruct (fi_node0 q i Ei) as (b & Hb & _ & Hn & Hmb). cbn [check_loop]. rewrite (fa_deref_eq _ _ _ Hb), bind_Ok_l.
  rewrite (mask_unique q (fb_inCache b) flags), Z.eqb_refl by done.
  cbn [negb]. pose proof (bound_bytes (fa_cfg t) nc fi_cfg0) as Hbn. pose proof (k_sizes _ fi_cfg0). pose proof (k_base _ fi_cfg0).
  assert (2 ^ (17 + Z.of_nat nc) <= 2 ^ 30)%Z as Hmax by (apply Z.pow_le_mono_r; lia).
  assert (0 < fa_blkSize (fa_cfg t))%Z as Hbs by (destruct fi_cfg0; lia).
  rewrite fa_i32_small by nia. replace (Z.of_nat q * fa_blkSize (fa_cfg t) + fa_blkSize (fa_cfg t))%Z
    with (Z.of_nat (S q) * fa_blkSize (fa_cfg t))%Z by lia.
  rewrite fi_tail0, Hn. rewrite <- (bound_bytes _ j fi_cfg0).
  destruct (Z.eqb_spec (Z.of_nat (S q) * fa_blkSize (fa_cfg t)) (Z.of_nat (bound j) * fa_blkSize (fa_cfg t))) as [E|E].
  - apply (bytes_lt _ _ _ fi_cfg0) in E. destruct (decide (j = nc)) as [->|Hjn].
    + rewrite bool_decide_true by (rewrite <- Ei; f_equal; lia). cbn [andb negb]. rewrite (bound_bytes _ nc fi_cfg0).
      apply IH; try done; try lia; [intros i' Hi'; specialize (Hge i' Hi'); lia|].
      intros j'. rewrite Hm. destruct (Nat.ltb_spec j' nc) as [Hj'|]; [|done]. pose proof (bound_lt j' nc ltac:(lia) Hj'). nb.
    + rewrite bool_decide_false.
      2:{ intros Et. symmetry in Et. pose proof (NoDup_lookup _ _ _ _ Hnd Ei Et). pose proof (bound_lt j nc). lia. }
      cbn [andb negb]. erewrite arr_get_nat by (apply fi_boundary0; lia). rewrite bind_Ok_l.
      replace (bound j - 1) with q by lia. rewrite Ei, bool_decide_true by done. cbn [negb].
      rewrite (bound_bytes _ j fi_cfg0), double_boundary by lia.
      replace (Z.of_nat j + 1)%Z with (Z.of_nat (S j)) by lia.
      apply IH; try done; try lia.
      * left. rewrite E. apply bound_lt; lia.
      * intros i' Hi'. destruct (decide (i' = j)) as [->|]; [lia|]. specialize (Hge i'). lia.
      * apply mask_cross; try done; lia.
  - cbn [andb]. rewrite (bound_bytes _ j fi_cfg0). apply IH; try done; try lia.
    + left. destruct Hlt; [|lia]. assert (S q <> bound j) by (intros E'; apply E; by rewrite E'). lia.
    + intros i' Hi'. specialize (Hge i' Hi'). lia.
    + destruct Hlt; [|lia]. assert (S q <> bound j) by (intros E'; apply E; by rewrite E').
      apply (mask_next j); try done; lia.
Qed.

Lemma check_ok t order : fa_inv t order -> fa_check t = Ok true.
Proof.
  intros I. pose proof I as []. unfold fa_check. rewrite fi_head0, fi_len0.
  apply (check_loop_ok t order (S (bound nc)) 0 0); try lia; try done.
  - left. pose proof (bound_ge 0). pose proof (k_base _ fi_cfg0). lia.
  - intros j. rewrite (mask_bits _ _ fi_cfg0). pose proof (bound_ge j). pose proof (k_base _ fi_cfg0). nb.
Qed.

End Sizes.

(** * Theorems

    Runs of the fully associative tag store, from its construction: the links
    and markers never break, and one run counts the hits of LRU caches of all the
    sizes it tracks. *)

#[local] Open Scope nat_scope.

(** * Construction *)

Lemma seqZ_one m : seqZ m 1 = [m].
Proof. rewrite seqZ_cons by lia. by rewrite seqZ_nil by lia. Qed.

Section Build.

Context (base nc : nat).
Hypothesis Hbase : 2 <= base.
Hypothesis Hnc : nc <= 13.
Hypothesis Hbytes : exists b, (0 <= b)%Z /\ (Z.of_nat base * 2 ^ b = 2 ^ 17)%Z.

#[local] Notation bound := (bound base).
#[local] Notation mask_ok := (mask_ok base nc).
#[local] Notation n := (bound nc).

Definition cacheMask_of : Z := (2 ^ Z.of_nat nc - 1)%Z.

(** The blocks after [k] rounds of the loop. *)
Definition node_built (k q : nat) (b : FALRUBlk) : Prop :=
  fb_blk b = CacheBlk_new /\
  (q <= k \/ q = n - 1 ->
   fb_prev b = prev_at (seq 0 n) q /\ fb_next b = seq 0 n !! S q /\ mask_ok q (fb_inCache b)).

Record built (k : nat) (s : FAInit) : Prop := {
  bu_len : length (in_blks s) = n;
  bu_node : forall q, q < n -> exists b, in_blks s !! q = Some b /\ node_built k q b;
  bu_blen : length (in_boundaries s) = nc;
  bu_j : exists j, in_j s = Z.of_nat j /\ j <= nc /\ in_index s = Z.of_nat (bound j) /\
    k + 1 < bound j /\ (forall i, i < j -> bound i <= k + 1) /\
    (forall i, i < j -> in_boundaries s !! i = Some (seq 0 n !! (bound i - 1)));
  bu_flags : mask_ok (k + 1) (in_flags s)
}.

Lemma n_small : (Z.of_nat n <= 2 ^ 30)%Z.
Proof.
  destruct Hbytes as (b & Hb & E). pose proof (Z.pow_pos_nonneg 2 b ltac:(lia) Hb).
  unfold FaLRUSpec.bound. rewrite Nat2Z.inj_mul, Nat2Z.inj_pow.
  assert (Z.of_nat 2 ^ Z.of_nat nc <= 2 ^ 13)%Z by (apply Z.pow_le_mono_r; lia).
  assert (Z.of_nat base <= 2 ^ 17)%Z by nia. nia.
Qed.

Lemma n_pos : 2 <= n.
Proof. pose proof (bound_ge base nc). lia. Qed.

Lemma init_round_ok k s :
  built k s -> k + 1 < n - 1 -> exists s', init_round s (Z.of_nat (k + 1)) = Ok s' /\ built (S k) s'.
Proof.
  intros [] Hk. destruct bu_j0 as (j & Ej & Hj & Ei & Hlt & Hge & Hbd). pose proof n_small.
  unfold init_round. rewrite Nat2Z.id, arr_set_nat, bind_Ok_l by lia.
  pose proof (bound_le base j nc Hj). pose proof (bound_ge base j).
  rewrite Ei, u32_small by lia.
  assert (forall q, q < n -> exists b,
    <[k + 1 := mkFALRUBlk CacheBlk_new (Some (k + 1 - 1)) (Some (k + 1 + 1)) false (in_flags s)]> (in_blks s) !! q = Some b /\
    node_built (S k) q b) as Hnode.
  { intros q Hq. destruct (decide (q = k + 1)) as [->|Hne].
    - rewrite list_lookup_insert_eq by lia. eexists. split; [done|]. split; [done|]. intros _. cbn [fb_prev fb_next fb_inCache].
      rewrite prev_at_pos, !lookup_seq_lt by lia. split_and!; [done | f_equal; lia | done].
    - rewrite list_lookup_insert_ne by done. destruct (bu_node0 q Hq) as (b & Hb & Hn & Hi). exists b. split; [done|].
      split; [done|]. intros Hor. apply Hi. lia. }
  destruct (Z.eqb_spec (Z.of_nat (k + 1)) (Z.of_nat (bound j) - 1)) as [E|E].
  - assert (j <> nc) by (intros ->; lia).
    rewrite Ej, arr_set_nat, bind_Ok_l by lia. eexists. split; [done|].
    assert (bound (S j) = 2 * bound j) as Hd by (unfold FaLRUSpec.bound; cbn; lia).
    split; cbn [in_blks in_boundaries in_j in_index in_flags].
    + by rewrite length_insert.
    + done.
    + by rewrite length_insert.
    + pose proof (bound_le base (S j) nc). exists (S j). split_and!; try lia.
      * rewrite Z.shiftl_mul_pow2, u32_small by lia. lia.
      * intros i Hi. destruct (decide (i = j)) as [->|]; [lia|]. specialize (Hge i). lia.
      * intros i Hi. destruct (decide (i = j)) as [->|].
        -- rewrite list_lookup_insert_eq, lookup_seq_lt by lia. do 2 f_equal. lia.
        -- rewrite list_lookup_insert_ne by done. apply Hbd. lia.
    + replace (S k + 1) with (S (k + 1)) by lia. apply mask_cross; try done; lia.
  - eexists. split; [done|]. split; cbn [in_blks in_boundaries in_j in_index in_flags]; try done.
    + by rewrite length_insert.
    + exists j. split_and!; try done; try lia. intros i Hi. specialize (Hge i Hi). lia.
    + replace (S k + 1) with (S (k + 1)) by lia. apply (mask_next base nc j); try done; lia.
Qed.

Lemma init_loop_ok k s :
  built 0 s -> k + 1 < n -> exists s', foldM init_round s (seqZ 1 (Z.of_nat k)) = Ok s' /\ built k s'.
Proof.
  intros B Hk. induction k as [|k IH]; [by exists s|]. destruct IH as (s1 & E1 & B1); [lia|].
  destruct (init_round_ok k s1 B1) as (s2 & E2 & B2); [lia|]. exists s2. split; [|done].
  replace (Z.of_nat (S k)) with (Z.of_nat k + 1)%Z by lia. rewrite seqZ_app, foldM_app, E1, bind_Ok_l by lia.
  rewrite seqZ_one. replace (1 + Z.of_nat k)%Z with (Z.of_nat (k + 1)) by lia. cbn [foldM]. by rewrite E2.
Qed.

Lemma full_mask q : q < base -> mask_ok q cacheMask_of.
Proof.
  intros Hq j. unfold cacheMask_of. replace (2 ^ Z.of_nat nc - 1)%Z with (Z.ones (Z.of_nat nc)) by (rewrite Z.ones_equiv; lia).
  rewrite Z.testbit_ones_nonneg by lia. pose proof (bound_ge base j).
  destruct (Z.ltb_spec (Z.of_nat j) (Z.of_nat nc)); nb.
Qed.

Definition b0 : FALRUBlk := mkFALRUBlk CacheBlk_new None None false 0.

Lemma built_start :
  built 0 (mkFAInit
    (<[n - 1 := mkFALRUBlk CacheBlk_new (Some (n - 2)) None false 0]>
      (<[0 := mkFALRUBlk CacheBlk_new None (Some 1) false cacheMask_of]> (replicate n b0)))
    (replicate nc None) (Z.of_nat base) 0 cacheMask_of).
Proof.
  pose proof n_pos. split; cbn [in_blks in_boundaries in_j in_index in_flags].
  - by rewrite !length_insert, length_replicate.
  - intros q Hq. destruct (decide (q = n - 1)) as [->|].
    { rewrite list_lookup_insert_eq by (rewrite length_insert, length_replicate; lia). eexists. split; [done|].
      split; [done|]. intros _. cbn [fb_prev fb_next fb_inCache]. rewrite prev_at_pos, lookup_seq_lt by lia.
      split_and!; [f_equal; lia | symmetry; apply lookup_ge_None_2; rewrite length_seq; lia |].
      intros j. rewrite Z.bits_0. destruct (Nat.ltb_spec j nc) as [Hj|]; [|done].
      pose proof (bound_lt base j nc ltac:(lia) Hj). nb. }
    rewrite list_lookup_insert_ne by done. destruct (decide (q = 0)) as [->|].
    { rewrite list_lookup_insert_eq by (rewrite length_replicate; lia). eexists. split; [done|].
      split; [done|]. intros _. split; [done|]. split; [|apply full_mask; lia]. cbn [fb_next]. by rewrite lookup_seq_lt by lia. }
    rewrite list_lookup_insert_ne by done. exists b0. rewrite lookup_replicate_2 by done. split; [done|].
    split; [done|]. lia.
  - apply length_replicate.
  - exists 0. unfold FaLRUSpec.bound. cbn. split_and!; try lia.
  - apply full_mask. lia.
Qed.

Lemma built_end s : built (n - 2) s -> in_j s = Z.of_nat nc /\ in_index s = Z.of_nat n /\
  forall i, i < nc -> in_boundaries s !! i = Some (seq 0 n !! (bound i - 1)).
Proof.
  pose proof n_pos. intros []. destruct bu_j0 as (j & Ej & Hj & Ei & Hlt & _ & Hbd).
  assert (j = nc) as ->; [|done]. destruct (decide (j = nc)); [done|].
  pose proof (bound_lt base j nc ltac:(lia) ltac:(lia)). lia.
Qed.

(** The store the constructor returns, its blocks in the order of the array. *)
Lemma FALRU_new_ok blkSize lat :
  (Z.of_nat base * blkSize = 2 ^ 17)%Z -> isPowerOf2 blkSize = true -> (0 < lat)%Z ->
  exists t, FALRU_new blkSize (2 ^ (17 + Z.of_nat nc)) lat = Ok t /\ fa_inv base nc t (seq 0 n) /\
    fa_blkSize (fa_cfg t) = blkSize /\ fa_tagHash t = ∅ /\ fa_hits t = replicate (S nc) 0%Z /\
    fa_misses t = replicate (S nc) 0%Z /\ forall i b, fa_blks t !! i = Some b -> fb_blk b = CacheBlk_new.
Proof.
  intros Hbs Hp2 Hlat. pose proof n_small. pose proof n_pos. unfold FALRU_new. rewrite Hp2. cbn [negb].
  assert (0 <? lat = true)%Z as -> by (apply Z.ltb_lt; lia). cbn [negb].
  assert (2 ^ (17 + Z.of_nat nc) <= 2 ^ 30)%Z by (apply Z.pow_le_mono_r; lia).
  pose proof (Z.pow_pos_nonneg 2 (17 + Z.of_nat nc) ltac:(lia) ltac:(lia)).
  assert (isPowerOf2 (2 ^ (17 + Z.of_nat nc)) = true) as ->.
  { apply isPowerOf2_spec; [lia|]. by rewrite Z.log2_pow2 by lia. }
  cbn [negb]. rewrite floorLog2_spec, Z.log2_pow2, bind_Ok_l by lia.
  replace (17 + Z.of_nat nc - 17)%Z with (Z.of_nat nc) by lia. rewrite u32_small by lia.
  replace (31 <? Z.of_nat nc)%Z with false by (symmetry; apply Z.ltb_ge; lia).
  assert (0 < blkSize)%Z as Hb0 by nia.
  assert (2 ^ (17 + Z.of_nat nc) / blkSize = Z.of_nat n)%Z as ->.
  { symmetry. rewrite Z.pow_add_r by lia. apply Z.div_unique_exact; [lia|].
    unfold FaLRUSpec.bound. rewrite Nat2Z.inj_mul, Nat2Z.inj_pow. nia. }
  replace (Z.of_nat n <? 2)%Z with false by (symmetry; apply Z.ltb_ge; lia).
  assert (2 ^ 17 / blkSize = Z.of_nat base)%Z as Hq by (symmetry; apply Z.div_unique_exact; lia).
  assert ((if 0 <? Z.of_nat nc then Z.shiftl 1 (Z.of_nat nc) - 1 else 0)%Z = cacheMask_of) as ->.
  { unfold cacheMask_of. rewrite Z.shiftl_1_l. by destruct nc. }
  rewrite !Nat2Z.id, (arr_set_nat _ 0), bind_Ok_l by (rewrite length_replicate; lia).
  replace (Z.of_nat n - 1)%Z with (Z.of_nat (n - 1)) by lia.
  rewrite arr_set_nat, bind_Ok_l by (rewrite length_insert, length_replicate; lia).
  replace (Z.of_nat n - 2)%Z with (Z.of_nat (n - 2)) by lia.
  change (Z.shiftl 1 17) with (2 ^ 17)%Z. rewrite Hq.
  destruct (init_loop_ok (n - 2) _ built_start) as (s & E & B); [lia|]. unfold b0 in E. rewrite E, bind_Ok_l.
  destruct (built_end _ B) as (Ej & Ei & Hbd). rewrite Ej, Ei, !Z.eqb_refl. cbn [cassert]. rewrite !bind_Ok_l.
  eexists. split; [done|]. destruct B. split; [|split_and!; try done].
  - split; cbn [fa_cfg fa_blks fa_head fa_tail fa_boundaries fa_tagHash]; try done.
    + split; try done. exists (Z.log2 blkSize). split; [apply Z.log2_nonneg|]. apply isPowerOf2_spec; [nia | done].
    + by rewrite lookup_seq_lt by lia.
    + by rewrite lookup_seq_lt by lia.
    + intros p i Hi. apply lookup_seq in Hi as [-> Hp]. destruct (bu_node0 (0 + p)) as (b & Hb & _ & Hn); [lia|].
      exists b. split; [done|]. apply Hn. lia.
  - intros i b Hb. cbn in Hb. destruct (bu_node0 i) as (b' & Hb' & Hn & _); [rewrite <- bu_len0; by eapply lookup_lt_Some|].
    congruence.
Qed.

(** * Operations *)

#[local] Notation fa_inv := (fa_inv base nc).

(** What a store is worth does not depend on the contents of its blocks. *)
Definition same_links (t t' : FALRU) : Prop :=
  fa_cfg t' = fa_cfg t /\ fa_head t' = fa_head t /\ fa_tail t' = fa_tail t /\ fa_boundaries t' = fa_boundaries t /\
  length (fa_blks t') = length (fa_blks t) /\
  (forall i b, fa_blks t !! i = Some b -> exists b', fa_blks t' !! i = Some b' /\ fb_prev b' = fb_prev b /\
    fb_next b' = fb_next b /\ fb_inCache b' = fb_inCache b).

Lemma fa_same_links_inv t t' order :
  same_links t t' -> (forall a i, fa_tagHash t' !! a = Some i -> i < n) -> fa_inv t order -> fa_inv t' order.
Proof.
  intros (Hc & Hh & Ht & Hb & Hl & Hn) Hhash []. split; rewrite ?Hc, ?Hh, ?Ht, ?Hb, ?Hl; try done.
  intros p i Hi. destruct (fi_node0 p i Hi) as (b & Hbk & ? & ? & ?). destruct (Hn i b Hbk) as (b' & ? & Hp & Hx & Hm).
  exists b'. by rewrite Hp, Hx, Hm.
Qed.

Lemma same_links_alter t f i :
  (forall b, fb_prev (f b) = fb_prev b /\ fb_next (f b) = fb_next b /\ fb_inCache (f b) = fb_inCache b) ->
  same_links t (with_fa_blks (alter f i (fa_blks t)) t).
Proof.
  intros Hf. repeat (split; [try done; apply length_alter|]). intros j b Hb. cbn.
  destruct (decide (i = j)) as [<-|].
  - rewrite list_lookup_alter_eq, Hb. eexists. split; [done|]. apply Hf.
  - rewrite list_lookup_alter_ne by done. eauto.
Qed.

Lemma inv_pos t order i : fa_inv t order -> i < n -> exists p, order !! p = Some i.
Proof. intros [] Hi. apply list_elem_of_lookup. rewrite fi_perm0. apply elem_of_seq. lia. Qed.

Lemma inv_blk t order i : fa_inv t order -> i < n -> exists b, fa_blks t !! i = Some b.
Proof. intros [] Hi. apply lookup_lt_is_Some_2. lia. Qed.

Lemma inv_idx t order p i : fa_inv t order -> order !! p = Some i -> i < n.
Proof.
  intros [] Hi. apply list_elem_of_lookup_2 in Hi. rewrite fi_perm0 in Hi. apply elem_of_seq in Hi. lia.
Qed.

Lemma invalidate_ok t order i :
  fa_inv t order -> i < n -> exists t', fa_invalidateBlk (Some i) t = Ok t' /\ fa_inv t' order.
Proof.
  intros I Hi. destruct (inv_blk _ _ _ I Hi) as (b & Hb). unfold fa_invalidateBlk.
  rewrite (fa_update_eq _ _ _ _ Hb), bind_Ok_l. eexists. split; [done|].
  eapply fa_same_links_inv; [|apply I|exact I].
  destruct (same_links_alter t (fun b => with_fb_isTouched false (with_fb_blk (with_blk_status 0 (fb_blk b)) b)) i)
    as (? & ? & ? & ? & ? & ?); [done|]. by split_and!.
Qed.

Lemma clearLocks_ok t order : fa_inv t order -> fa_inv (fa_clearLocks t) order.
Proof.
  intros I. eapply fa_same_links_inv; [|apply I|exact I]. unfold fa_clearLocks. split_and!; try done.
  - cbn. by rewrite length_fmap.
  - intros i b Hb. cbn. rewrite list_lookup_fmap, Hb. eexists. split; [reflexivity|]. done.
Qed.

(** What an operation leaves alone: the configuration, the contents of the blocks. *)
Definition same_contents (t t' : FALRU) : Prop :=
  fa_cfg t' = fa_cfg t /\ forall i, fb_blk <$> fa_blks t' !! i = fb_blk <$> fa_blks t !! i.

(** Counting leaves everything but the counters alone. *)
Lemma counts_inv t order a h m : fa_inv t order -> fa_inv (with_fa_counts h m (with_fa_accesses a t)) order.
Proof. intros I. eapply fa_same_links_inv; [|apply I|exact I]. split_and!; try done. eauto. Qed.

Lemma fa_access_hit t order addr i b p :
  fa_inv t order -> fa_tagHash t !! fa_blkAlign addr (fa_cfg t) = Some i -> fa_blks t !! i = Some b ->
  isValid (fb_blk b) = true -> blk_tag (fb_blk b) = fa_blkAlign addr (fa_cfg t) -> order !! p = Some i ->
  exists t', fa_accessBlock addr t = Ok (Some i, fa_hitLatency (fa_cfg t), t') /\ fa_inv t' (touch i p order) /\
    same_contents t t' /\ fa_tagHash t' = fa_tagHash t /\
    fa_hits t' = count_hits (Z.of_nat nc) (fb_inCache b) (fa_hits t) /\
    fa_misses t' = count_misses (Z.of_nat nc) (fb_inCache b) (fa_misses t).
Proof.
  intros I Hh Hb Hv Ht Hp. unfold fa_accessBlock, hashLookup. cbn [fa_cfg fa_tagHash with_fa_accesses]. rewrite Hh.
  rewrite (fa_deref_eq _ _ b), bind_Ok_l, Hv, Ht, Z.eqb_refl by done. cbn [cassert]. rewrite bind_Ok_l.
  cbn [fa_hits fa_misses with_fa_accesses]. rewrite (k_numCaches _ _ _ (fi_cfg _ _ _ _ I)).
  set (h := count_hits _ _ _). set (m := count_misses _ _ _).
  set (t1 := with_fa_counts h m (with_fa_accesses (fa_accesses t + 1) t)).
  pose proof (counts_inv t order (fa_accesses t + 1) h m I) as I1. fold t1 in I1.
  rewrite (fi_head _ _ _ _ I1). case_bool_decide as E.
  - destruct (inv_NoDup _ _ _ _ I) as [Hnd _].
    assert (p = 0) as -> by (by eapply NoDup_lookup). rewrite bind_Ok_l. exists t1. split; [done|].
    rewrite touch_first by done. by split_and!.
  - destruct (fa_moveToHead_spec _ _ _ _ _ _ I1 Hp) as (t2 & E2 & I2 & S2). rewrite E2, bind_Ok_l.
    destruct S2. exists t2. rewrite ss_cfg0. split; [done|]. split; [done|]. split; [by split|]. by split_and!.
Qed.

Lemma access_miss t addr :
  (fa_tagHash t !! fa_blkAlign addr (fa_cfg t) = None) ->
  fa_accessBlock addr t = Ok (None, fa_hitLatency (fa_cfg t),
    with_fa_counts (fa_hits t) ((fun m => (m + 1)%Z) <$> fa_misses t) (with_fa_accesses (fa_accesses t + 1) t)).
Proof. intros H. unfold fa_accessBlock, hashLookup. cbn [fa_cfg fa_tagHash with_fa_accesses]. by rewrite H. Qed.

Lemma last_mask m : mask_ok (n - 1) m -> m = 0%Z.
Proof.
  intros H. apply (mask_unique base nc (n - 1)); [done|]. intros j. rewrite Z.bits_0.
  destruct (Nat.ltb_spec j nc) as [Hj|]; [|done]. pose proof (bound_lt base j nc ltac:(lia) Hj). nb.
Qed.

Lemma victim_ok t order addr tick :
  fa_inv t order ->
  exists x b t', order !! (n - 1) = Some x /\ fa_blks t !! x = Some b /\
    fa_findVictim addr tick t = Ok (Some x, t') /\ fa_inv t' (touch x (n - 1) order) /\ same_contents t t' /\
    fa_tagHash t' = <[fa_blkAlign addr (fa_cfg t) := x]> (delete (blk_tag (fb_blk b)) (fa_tagHash t)) /\
    fa_hits t' = fa_hits t /\ fa_misses t' = fa_misses t.
Proof.
  intros I. pose proof n_pos. destruct (inv_NoDup _ _ _ _ I) as [Hnd Hl].
  destruct (lookup_lt_is_Some_2 order (n - 1)) as [x Hx]; [lia|].
  destruct (fi_node _ _ _ _ I _ _ Hx) as (b & Hb & _ & _ & Hm).
  exists x, b. unfold fa_findVictim. rewrite (fi_tail _ _ _ _ I), Hx, (fa_deref_eq _ _ _ Hb), bind_Ok_l.
  rewrite (last_mask _ Hm), Z.eqb_refl. cbn [cassert]. rewrite bind_Ok_l.
  destruct (fa_moveToHead_spec _ _ _ _ _ _ I Hx) as (t1 & E1 & I1 & []). rewrite E1, bind_Ok_l.
  pose proof (ss_blk0 x) as Hbx. rewrite Hb in Hbx. destruct (fa_blks t1 !! x) as [b1|] eqn:Hb1; [|done]. injection Hbx as Hbx.
  rewrite (fa_deref_eq _ _ _ Hb1), bind_Ok_l. cbn [of_option]. rewrite bind_Ok_l, Hbx.
  cbn [fa_cfg fa_tagHash with_fa_tagHash]. rewrite ss_cfg0, ss_hash0.
  pose proof (inv_idx _ _ _ _ I Hx) as Hxn.
  set (t2 := with_fa_tagHash _ _).
  assert (fa_inv t2 (touch x (n - 1) order)) as I2.
  { eapply fa_same_links_inv; [|..|exact I1]; [split_and!; try done; eauto|].
    intros a i. cbn. rewrite lookup_insert_Some, lookup_delete_Some. intros [[_ <-]|(_ & _ & Ha)]; [done|].
    by eapply (fi_hash _ _ _ _ I). }
  assert (same_contents t t2) as C2 by done.
  destruct (isValid (fb_blk b)).
  - eexists. split; [done|]. split; [done|]. split; [done|].
    split; [eapply fa_same_links_inv; [|..|exact I2]; [split_and!; try done; eauto | apply I2]|]. by split_and!.
  - cbn [fa_tagsInUse with_fa_tagHash]. rewrite (fa_update_eq _ _ b1), bind_Ok_l by done. eexists.
    split; [done|]. split; [done|]. split; [done|].
    set (t3 := with_fa_blks _ _).
    assert (fa_inv t3 (touch x (n - 1) order)) as I3.
    { eapply fa_same_links_inv; [|..|exact I2]; [|apply I2].
      destruct (same_links_alter t2 (with_fb_isTouched true) x) as (? & ? & ? & ? & ? & ?); [done|]. by split_and!. }
    assert (same_contents t t3) as C3.
    { split; [done|]. intros i. cbn. destruct (decide (x = i)) as [<-|].
      - rewrite list_lookup_alter_eq. rewrite <- (ss_blk0 x), Hb1. done.
      - by rewrite list_lookup_alter_ne. }
    case_match; [|by split_and!].
    split; [eapply fa_same_links_inv; [|..|exact I3]; [split_and!; try done; eauto | apply I3]|]. by split_and!.
Qed.

(** ** Any client *)

(** The client reads and writes the blocks it is given pointers to: [FaWrite] is
    any change it makes to the cache block [i]. *)
Inductive FaOp :=
  | FaAccess (addr : Z)
  | FaFind (addr : Z)
  | FaVictim (addr tick : Z)
  | FaInvalidate (i : nat)
  | FaClearLocks
  | FaWrite (i : nat) (f : CacheBlk -> CacheBlk).

Definition fa_do (t : FALRU) (op : FaOp) : result FALRU :=
  match op with
  | FaAccess addr => r ← fa_accessBlock addr t; Ok r.2
  | FaFind addr => _ ← fa_findBlock addr t; Ok t
  | FaVictim addr tick => r ← fa_findVictim addr tick t; Ok r.2
  | FaInvalidate i => fa_invalidateBlk (Some i) t
  | FaClearLocks => Ok (fa_clearLocks t)
  | FaWrite i f => fa_update (Some i) (fun b => with_fb_blk (f (fb_blk b)) b) t
  end.

Definition fa_legal (blocks : nat) (op : FaOp) : Prop :=
  match op with FaInvalidate i | FaWrite i _ => i < blocks | _ => True end.

(** The entry of the address is a valid block that carries another tag. *)
Definition wrong_tag (op : FaOp) (t : FALRU) : bool :=
  match op with
  | FaAccess addr | FaFind addr =>
      let a := fa_blkAlign addr (fa_cfg t) in
      match fa_tagHash t !! a with
      | Some i => match fa_blks t !! i with
                  | Some b => isValid (fb_blk b) && negb (blk_tag (fb_blk b) =? a)%Z
                  | None => false
                  end
      | None => false
      end
  | _ => false
  end.

Lemma access_invalid t addr i b :
  fa_tagHash t !! fa_blkAlign addr (fa_cfg t) = Some i -> fa_blks t !! i = Some b -> isValid (fb_blk b) = false ->
  fa_accessBlock addr t = Ok (None, fa_hitLatency (fa_cfg t),
    with_fa_counts (fa_hits t) ((fun m => (m + 1)%Z) <$> fa_misses t) (with_fa_accesses (fa_accesses t + 1) t)).
Proof.
  intros H Hb Hv. unfold fa_accessBlock, hashLookup. cbn [fa_cfg fa_tagHash with_fa_accesses].
  by rewrite H, (fa_deref_eq _ _ b), bind_Ok_l, Hv by done.
Qed.

Lemma do_step t order op :
  fa_inv t order -> fa_legal n op ->
  if wrong_tag op t then fa_do t op = Err AssertFail
  else exists t' order', fa_do t op = Ok t' /\ fa_inv t' order'.
Proof.
  intros I L. destruct op as [addr | addr | addr tick | i | | i f]; cbn [wrong_tag fa_do].
  - destruct (fa_tagHash t !! _) as [i|] eqn:Hh.
    2:{ rewrite access_miss by done. eexists _, order. split; [done|]. by apply counts_inv. }
    destruct (inv_blk _ _ _ I (fi_hash _ _ _ _ I _ _ Hh)) as (b & Hb). rewrite Hb.
    destruct (inv_pos _ _ _ I (fi_hash _ _ _ _ I _ _ Hh)) as (p & Hp).
    destruct (isValid (fb_blk b)) eqn:Hv; cbn [andb].
    + destruct (Z.eqb_spec (blk_tag (fb_blk b)) (fa_blkAlign addr (fa_cfg t))) as [Ht|Ht]; cbn [negb].
      * destruct (fa_access_hit _ _ _ _ _ _ I Hh Hb Hv Ht Hp) as (t' & -> & I' & _). eauto.
      * unfold fa_accessBlock, hashLookup. cbn [fa_cfg fa_tagHash with_fa_accesses].
        rewrite Hh, (fa_deref_eq _ _ b), bind_Ok_l, Hv by done. by apply Z.eqb_neq in Ht as ->.
    + erewrite access_invalid by done. eexists _, order. split; [done|]. by apply counts_inv.
  - unfold fa_findBlock, hashLookup.
    destruct (fa_tagHash t !! _) as [i|] eqn:Hh; [|rewrite bind_Ok_l; eauto].
    destruct (inv_blk _ _ _ I (fi_hash _ _ _ _ I _ _ Hh)) as (b & Hb).
    rewrite Hb, (fa_deref_eq _ _ b), bind_Ok_l by done.
    destruct (isValid (fb_blk b)); cbn [andb]; [|rewrite bind_Ok_l; eauto].
    destruct (_ =? _)%Z; cbn [negb cassert]; [rewrite !bind_Ok_l; eauto | done].
  - destruct (victim_ok t order addr tick I) as (x & b & t' & _ & _ & -> & I' & _). eauto.
  - destruct (invalidate_ok _ _ _ I L) as (t' & -> & I'). eauto.
  - eexists _, order. split; [done|]. by apply clearLocks_ok.
  - destruct (inv_blk _ _ _ I L) as (b & Hb). rewrite (fa_update_eq _ _ _ _ Hb). eexists _, order. split; [done|].
    eapply fa_same_links_inv; [by apply same_links_alter | apply I | exact I].
Qed.

Lemma fa_run_inv t order ops t' :
  fa_inv t order -> Forall (fa_legal n) ops -> foldM fa_do t ops = Ok t' -> exists order', fa_inv t' order'.
Proof.
  intros I L. revert t order I. induction L as [|op ops Hop L IH]; cbn; intros t order I E; inv_ok; [eauto|].
  pose proof (do_step _ _ _ I Hop) as D. destruct (wrong_tag op t); [congruence|].
  destruct D as (t1 & order1 & E1 & I1). replace x with t1 in * by congruence. eauto.
Qed.

End Build.

(** The number of blocks of the smallest cache tracked. *)
Definition base_of (b : Z) : nat := Z.to_nat (2 ^ (17 - b)).

Lemma geometry b :
  (0 <= b <= 16)%Z -> 2 <= base_of b /\ (Z.of_nat (base_of b) * 2 ^ b = 2 ^ 17)%Z /\ isPowerOf2 (2 ^ b) = true.
Proof.
  intros Hb. unfold base_of. pose proof (Z.pow_le_mono_r 2 1 (17 - b) ltac:(lia) ltac:(lia)).
  rewrite Z2Nat.id by lia. rewrite <- Z.pow_add_r by lia. split_and!; [lia | f_equal; lia |].
  apply isPowerOf2_spec; [|by rewrite Z.log2_pow2 by lia].
  split; [apply Z.pow_nonneg; lia|]. apply (Z.le_lt_trans _ (2 ^ 16)); [apply Z.pow_le_mono_r; lia | lia].
Qed.

(** C35. The list and the markers of the fully associative store never break.
    For any block size below 128K and any cache from 128K to 1G, whatever a client
    does with the store (accesses, lookups by [findBlock], victims, invalidations,
    clearing the locks) and writes into its blocks, the consistency check that the
    source runs only under a commented-out assertion answers yes after every
    operation.  An access or a lookup fails exactly when it finds, under its
    address, a valid block with another tag; no other operation can fail. *)
Theorem falru_check_holds b (nc : nat) lat :
  (0 <= b <= 16)%Z -> nc <= 13 -> (0 < lat)%Z ->
  exists t, FALRU_new (2 ^ b) (2 ^ (17 + Z.of_nat nc)) lat = Ok t /\
    forall ops t', Forall (fa_legal (length (fa_blks t))) ops -> foldM fa_do t ops = Ok t' ->
      fa_check t' = Ok true /\
      forall op, fa_legal (length (fa_blks t)) op -> is_ok (fa_do t' op) = negb (wrong_tag op t').
Proof.
  intros Hb Hnc Hlat. destruct (geometry b Hb) as (Hbase & Hbytes & Hp2). set (base := base_of b) in *.
  assert (exists b, 0 <= b /\ Z.of_nat base * 2 ^ b = 2 ^ 17)%Z as Hex by (exists b; lia).
  destruct (FALRU_new_ok base nc Hbase Hnc Hex (2 ^ b) lat Hbytes Hp2 Hlat) as (t & E & I & _).
  exists t. split; [done|]. rewrite (fi_len _ _ _ _ I). intros ops t' L R.
  assert (exists order', fa_inv base nc t' order') as (order' & I') by (by eapply fa_run_inv).
  split; [by eapply check_ok|]. intros op Lop.
  assert (if wrong_tag op t' then fa_do t' op = Err AssertFail
          else exists t'' order'', fa_do t' op = Ok t'' /\ fa_inv base nc t'' order'') as D by (by eapply do_step).
  destruct (wrong_tag op t'); [by rewrite D|]. by destruct D as (t'' & ? & -> & _).
Qed.

(** A 256K cache with blocks of 64K, filled and used. *)
Definition demo_fa_ops : list FaOp :=
  [FaVictim 0x30000 5; FaWrite 3 (fun b => with_blk_tag 0x30000 (with_blk_status 5 b)); FaAccess 0x30123;
   FaFind 0x30040; FaVictim 0x50000 6; FaInvalidate 3; FaAccess 0x30000].

Lemma falru_check_holds_witness :
  exists t t', FALRU_new (2 ^ 16) (2 ^ 18) 2 = Ok t /\ foldM fa_do t demo_fa_ops = Ok t' /\ fa_check t' = Ok true.
Proof.
  destruct (falru_check_holds 16 1 2) as (t & E & H); [lia.. |].
  assert ((t ← FALRU_new (2 ^ 16) (2 ^ 18) 2; Ok (length (fa_blks t))) = Ok 4) as Hl by (vm_compute; reflexivity).
  assert (is_ok (t ← FALRU_new (2 ^ 16) (2 ^ 18) 2; foldM fa_do t demo_fa_ops) = true) as Hok by (vm_compute; reflexivity).
  change (2 ^ (17 + Z.of_nat 1))%Z with (2 ^ 18)%Z in E. rewrite E in Hl, Hok. cbn [mbind result_bind] in Hl, Hok.
  injection Hl as Hl. apply is_ok_true in Hok as (t' & R).
  exists t, t'. split; [exact E|]. split; [exact R|]. eapply H; [|exact R]. rewrite Hl. repeat constructor; cbn; lia.
Defined.
