(* ===== verification/FaLRUStack.v ===== *)
(** The counters of the fully associative store against separate LRU caches, one
    per size, fed with the same addresses. *)

From S2P Require Import Prelude IntMath Request MemCmd Packet Blk FaLRU FaLRUSpec.

#[local] Open Scope nat_scope.

(** * The reference: an LRU cache of [k] blocks *)

(** The addresses it holds, last used first, and the hits so far. *)
Definition lru_step (k : nat) (s : list Z * Z) (a : Z) : list Z * Z :=
  (take k (a :: filter (fun x => x <> a) s.1), if decide (a ∈ s.1) then (s.2 + 1)%Z else s.2).
Definition lru_run (k : nat) (l : list Z) : list Z * Z := foldl (lru_step k) ([], 0%Z) l.
Definition lru_hits (k : nat) (l : list Z) : Z := (lru_run k l).2.

Lemma lru_run_snoc k l a : lru_run k (l ++ [a]) = lru_step k (lru_run k l) a.
Proof. unfold lru_run. by rewrite foldl_app. Qed.

Lemma filter_absent (a : Z) (l : list Z) : a ∉ l -> filter (fun x => x <> a) l = l.
Proof.
  induction l as [|x l IH]; [done|]. intros [Hx Hl]%not_elem_of_cons. rewrite filter_cons_True by done. by rewrite IH.
Qed.

(** A cache of [k] blocks holds the first [k] of the addresses in the order of
    their last use: a use of the address at position [q], and of a new one. *)
Lemma take_touch k (l : list Z) q a :
  NoDup l -> l !! q = Some a -> take k (a :: filter (fun x => x <> a) (take k l)) = take k (touch a q l).
Proof.
  intros Hnd Hq. destruct k as [|k]; [done|]. unfold touch. rewrite !firstn_cons. f_equal.
  pose proof (take_drop_middle l q a Hq) as E. rewrite <- E in Hnd.
  assert (length (take q l) = q) as Hlen by (rewrite length_take; apply lookup_lt_Some in Hq; lia).
  apply NoDup_app in Hnd as (_ & Hdis & Hnd2). apply NoDup_cons in Hnd2 as [Ha2 _].
  assert (a ∉ take q l) as Ha1 by (intros H; eapply (Hdis a); [done|left]).
  assert (forall m, a ∉ take m (take q l)) as Ht by (intros m H; apply Ha1; apply elem_of_take in H as (? & ? & _); by eapply list_elem_of_lookup_2).
  rewrite delete_take_drop. rewrite <- E at 1. rewrite take_app, filter_app, Hlen.
  rewrite (filter_absent _ (take (S k) (take q l))) by done.
  destruct (decide (k < q)) as [Hk|Hk].
  - replace (S k - q) with 0 by lia. cbn. rewrite app_nil_r, (take_app_le (take q l)), !take_take by lia.
    f_equal. lia.
  - replace (S k - q) with (S (k - q)) by lia. rewrite firstn_cons, filter_cons_False by naive_solver.
    rewrite filter_absent by (intros H; apply Ha2; apply elem_of_take in H as (? & ? & _); by eapply list_elem_of_lookup_2).
    rewrite (take_ge (take q l)) by lia. rewrite !take_app, !take_take, Hlen. f_equal; f_equal; lia.
Qed.

Lemma take_new k m (l : list Z) a :
  a ∉ l -> k <= m -> take k (a :: filter (fun x => x <> a) (take k l)) = take k (take m (a :: l)).
Proof.
  intros Ha Hk. rewrite filter_absent by (intros H; apply Ha; apply elem_of_take in H as (? & ? & _); by eapply list_elem_of_lookup_2).
  rewrite take_take, Nat.min_l by done. destruct k as [|k]; [done|]. rewrite !firstn_cons. f_equal. rewrite take_take. f_equal. lia.
Qed.

(** * The simulation *)

(** A reference by a client that fills on a miss and names the block it fills; the
    tags this store shares the cache with do that in [insertBlock]. *)
Definition fa_reference (t : FALRU) (addr : Z) : result FALRU :=
  r ← fa_accessBlock addr t;
  match r with
  | (Some _, _, t) => Ok t
  | (None, _, t) =>
      v ← fa_findVictim addr 0 t;
      fa_update v.1 (fun b => with_fb_blk (with_blk_tag (fa_blkAlign addr (fa_cfg v.2))
        (with_blk_status (Z.lor BlkValid BlkReadable) (fb_blk b))) b) v.2
  end.

Section Stack.

Context (base nc : nat).
Hypothesis Hbase : 2 <= base.
Hypothesis Hnc : nc <= 13.
Hypothesis Hbytes : exists b, (0 <= b)%Z /\ (Z.of_nat base * 2 ^ b = 2 ^ 17)%Z.

#[local] Notation bound := (bound base).
#[local] Notation n := (bound nc).
#[local] Notation fa_inv := (fa_inv base nc).

(** The addresses in the order of their last use are the tags of the first blocks;
    the other blocks have never been used. *)
Record stacked (t : FALRU) (order : list nat) (stack : list Z) : Prop := {
  st_inv : fa_inv t order;
  st_nd : NoDup stack;
  st_len : length stack <= n;
  st_valid : forall q a, stack !! q = Some a -> exists i b, order !! q = Some i /\ fa_blks t !! i = Some b /\
    isValid (fb_blk b) = true /\ blk_tag (fb_blk b) = a /\ fa_tagHash t !! a = Some i;
  st_cold : forall q i b, length stack <= q -> order !! q = Some i -> fa_blks t !! i = Some b -> fb_blk b = CacheBlk_new;
  st_dom : forall a i, fa_tagHash t !! a = Some i -> a ∈ stack;
  st_nz : 0%Z ∉ stack
}.

(** The counters after the references [l]. *)
Definition counted (t : FALRU) (l stack : list Z) : Prop :=
  forall j, j <= nc -> exists h, lru_run (bound j) l = (take (bound j) stack, h) /\
    fa_hits t !! j = Some h /\ fa_misses t !! j = Some (Z.of_nat (length l) - h)%Z.

(** What the flags of the block at position [q] say of size [j]. *)
Lemma size_hits_pos q m j :
  mask_ok base nc q m -> q < n -> j <= nc -> size_hits (Z.of_nat nc) m (Z.of_nat j) = (q <? bound j).
Proof.
  intros Hm Hq Hj. unfold size_hits. rewrite (bit_test j m), Hm.
  destruct (Z.eqb_spec (Z.of_nat j) (Z.of_nat nc)) as [E|E].
  - assert (j = nc) as -> by lia. cbn [orb]. nb.
  - cbn [orb]. nb.
Qed.

Lemma in_take (l : list Z) q a k : NoDup l -> l !! q = Some a -> a ∈ take k l <-> q < k.
Proof.
  intros Hnd Hq. rewrite elem_of_take. split.
  - intros (i & Hi & ?). assert (i = q) as -> by (by eapply NoDup_lookup). done.
  - eauto.
Qed.

(** A hit. *)
Lemma stack_hit t order stack l addr q :
  stacked t order stack -> counted t l stack -> stack !! q = Some (fa_blkAlign addr (fa_cfg t)) ->
  exists t' order', fa_reference t addr = Ok t' /\ fa_cfg t' = fa_cfg t /\
    stacked t' order' (touch (fa_blkAlign addr (fa_cfg t)) q stack) /\
    counted t' (l ++ [fa_blkAlign addr (fa_cfg t)]) (touch (fa_blkAlign addr (fa_cfg t)) q stack).
Proof.
  intros [] C Hq. set (a := fa_blkAlign addr (fa_cfg t)) in *.
  destruct (st_valid0 q a Hq) as (i & b & Hi & Hb & Hv & Ht & Hh).
  assert (exists m, m = fb_inCache b /\ mask_ok base nc q m) as (m & Hm & Hmask).
  { destruct (fi_node _ _ _ _ st_inv0 _ _ Hi) as (b' & Hb' & _ & _ & ?). exists (fb_inCache b'). split; [congruence | done]. }
  destruct (fa_access_hit base nc t order addr i b q) as (t' & E & I' & (Cc & Cb) & Hh' & Hhits & Hmiss); try done.
  exists t', (touch i q order). unfold fa_reference. rewrite E, bind_Ok_l. split; [done|]. split; [done|]. split.
  - assert (forall r, touch a q stack !! r = stack !! old_pos q r) as Hs by (intros r; by apply touch_lookup).
    assert (forall r, touch i q order !! r = order !! old_pos q r) as Ho by (intros r; by apply touch_lookup).
    assert (touch a q stack ≡ₚ stack) as Hp by (by apply touch_Permutation).
    split; rewrite ?Hp; try done.
    + intros r a' Hr. rewrite Hs in Hr. destruct (st_valid0 _ _ Hr) as (i' & b' & ? & Hb' & ? & ? & ?).
      specialize (Cb i'). rewrite Hb' in Cb. destruct (fa_blks t' !! i') as [b2|] eqn:Hb2; [|done]. injection Cb as Cb.
      exists i', b2. rewrite Ho, Cb, Hh'. done.
    + intros r i' b' Hr Hi' Hb'. rewrite Hp in Hr. rewrite Ho in Hi'. specialize (Cb i'). rewrite Hb' in Cb.
      destruct (fa_blks t !! i') as [b2|] eqn:Hb2; [|done]. injection Cb as Cb. rewrite Cb.
      eapply st_cold0; [|exact Hi'|done]. pose proof (lookup_lt_Some _ _ _ Hq). unfold old_pos. nb.
    + intros a' i'. rewrite Hh', Hp. apply st_dom0.
  - intros j Hj. destruct (C j Hj) as (h & Hrun & Hhj & Hmj).
    rewrite lru_run_snoc, Hrun. unfold lru_step. cbn [fst snd].
    rewrite (take_touch (bound j) stack q a st_nd0 Hq). eexists. split; [reflexivity|].
    rewrite Hhits, Hmiss. unfold count_hits, count_misses. rewrite !list_lookup_imap, Hhj, Hmj. cbn [fmap option_fmap option_map].
    pose proof (lookup_lt_Some _ _ _ Hq).
    rewrite <- Hm, (size_hits_pos q m j) by (done || lia). rewrite length_app. cbn [length].
    destruct (decide (a ∈ take (bound j) stack)) as [Hin|Hin]; rewrite (in_take _ _ _ _ st_nd0 Hq) in Hin; nb; split; f_equal; lia.
Qed.

(** The blocks after a fill: the last block of the order, now first, carries the
    new address. *)
Lemma fill_stacked t order stack a x b t2 :
  stacked t order stack -> a ∉ stack -> a <> 0%Z -> order !! (n - 1) = Some x -> fa_blks t !! x = Some b ->
  fa_inv t2 (touch x (n - 1) order) ->
  (forall i, fb_blk <$> fa_blks t2 !! i = if decide (x = i)
     then Some (with_blk_tag a (with_blk_status (Z.lor BlkValid BlkReadable) (fb_blk b))) else fb_blk <$> fa_blks t !! i) ->
  fa_tagHash t2 = <[a := x]> (delete (blk_tag (fb_blk b)) (fa_tagHash t)) ->
  stacked t2 (touch x (n - 1) order) (take n (a :: stack)).
Proof.
  intros [] Ha Hz Hx Hb I2 Hblk Hhash. pose proof (n_pos base nc Hbase) as Hn.
  destruct (inv_NoDup _ _ _ _ st_inv0) as [Hnd Hl].
  assert (forall r, touch x (n - 1) order !! r = order !! old_pos (n - 1) r) as Ho by (intros r; by apply touch_lookup).
  assert (forall r a', take n (a :: stack) !! S r = Some a' -> stack !! r = Some a' /\ r < n - 1) as Hs.
  { intros r a' Hr. apply lookup_take_Some in Hr as [Hr ?]. split; [exact Hr | lia]. }
  (* the tag that goes is that of the last block, or none *)
  assert (forall r a' i, stack !! r = Some a' -> r < n - 1 -> fa_tagHash t !! a' = Some i ->
    fa_tagHash t2 !! a' = Some i) as Hkeep.
  { intros r a' i Hr Hrn Hi. rewrite Hhash, lookup_insert_ne, lookup_delete_ne; [done| |].
    - intros Et. destruct (decide (length stack = n)) as [Hfull|Hnf].
      + destruct (lookup_lt_is_Some_2 stack (n - 1)) as [al Hal]; [lia|].
        destruct (st_valid0 _ _ Hal) as (x' & b' & Hx' & Hb' & _ & Ht' & _).
        assert (al = a') as -> by congruence. pose proof (NoDup_lookup _ _ _ _ st_nd0 Hr Hal). lia.
      + rewrite (st_cold0 (n - 1) x b) in Et by (done || lia). apply st_nz0. cbn in Et. rewrite Et.
        by eapply list_elem_of_lookup_2.
    - intros ->. apply Ha. by eapply list_elem_of_lookup_2. }
  split; try done.
  - eapply sublist_NoDup; [|apply sublist_take]. by apply NoDup_cons.
  - rewrite length_take. lia.
  - intros [|r] a' Hr.
    + destruct n as [|n'] eqn:En; [lia|]. injection Hr as <-. pose proof (Hblk x) as Hbx. rewrite decide_True in Hbx by done.
      destruct (fa_blks t2 !! x) as [b2|] eqn:Hb2; [|done]. injection Hbx as Hbx. exists x, b2. rewrite Hbx.
      split_and!; try done. by rewrite Hhash, lookup_insert_eq.
    + destruct (Hs _ _ Hr) as [Hr' Hrn]. destruct (st_valid0 _ _ Hr') as (i & b' & Hi & Hb' & Hv & Ht & Hh).
      assert (x <> i) as Hne by (intros ->; pose proof (NoDup_lookup _ _ _ _ Hnd Hi Hx); lia).
      pose proof (Hblk i) as Hbi. rewrite decide_False, Hb' in Hbi by done.
      destruct (fa_blks t2 !! i) as [b2|] eqn:Hb2; [|done]. injection Hbi as Hbi. exists i, b2. rewrite Hbi, Ho.
      split_and!; try done; [|by eapply Hkeep]. rewrite <- Hi. f_equal. unfold old_pos. nb.
  - intros r i b' Hr Hi Hb'. rewrite length_take in Hr. cbn [length] in Hr. rewrite Ho in Hi.
    assert (r < n) by (pose proof (lookup_lt_Some _ _ _ Hi) as Hlt; revert Hlt; rewrite Hl; unfold old_pos; nb).
    assert (old_pos (n - 1) r = r - 1) as Hop by (unfold old_pos; nb).
    rewrite Hop in Hi. assert (x <> i) as Hne by (intros ->; pose proof (NoDup_lookup _ _ _ _ Hnd Hi Hx); lia).
    pose proof (Hblk i) as Hbi. rewrite decide_False, Hb' in Hbi by done.
    destruct (fa_blks t !! i) as [b2|] eqn:Hb2; [|done]. injection Hbi as Hbi. rewrite Hbi. eapply st_cold0; [|exact Hi|done]. lia.
  - intros a' i. rewrite Hhash, lookup_insert_Some, lookup_delete_Some, elem_of_take.
    intros [[<- _]|(Hne & Ht & Hi)]; [exists 0; split; [done | lia]|].
    apply st_dom0, list_elem_of_lookup in Hi as (r & Hr). exists (S r). split; [done|].
    pose proof (lookup_lt_Some _ _ _ Hr). destruct (decide (r = n - 1)) as [->|]; [|lia].
    destruct (st_valid0 _ _ Hr) as (x' & b' & Hx' & Hb' & _ & Ht' & _). exfalso. apply Ht. congruence.
  - rewrite elem_of_take. intros ([|r] & Hr & _); [by injection Hr|]. apply st_nz0. by eapply list_elem_of_lookup_2.
Qed.

(** A miss. *)
Lemma stack_miss t order stack l addr :
  stacked t order stack -> counted t l stack -> fa_blkAlign addr (fa_cfg t) ∉ stack -> fa_blkAlign addr (fa_cfg t) <> 0%Z ->
  exists t' order' stack', fa_reference t addr = Ok t' /\ fa_cfg t' = fa_cfg t /\
    stacked t' order' stack' /\ counted t' (l ++ [fa_blkAlign addr (fa_cfg t)]) stack'.
Proof.
  intros St C Ha Hz. pose proof St as []. set (a := fa_blkAlign addr (fa_cfg t)) in *.
  unfold fa_reference. rewrite access_miss, bind_Ok_l.
  2:{ destruct (fa_tagHash t !! _) eqn:E; [|done]. apply st_dom0 in E. done. }
  set (t1 := with_fa_counts _ _ _).
  assert (fa_inv t1 order) as I1 by (by apply counts_inv).
  destruct (victim_ok base nc Hbase Hnc t1 order addr 0 I1) as (x & b & t2 & Hx & Hb & -> & I2 & (Cc & Cb) & Hh & Hhits & Hmiss).
  rewrite bind_Ok_l. cbn [fst snd]. pose proof (Cb x) as Hbx. rewrite Hb in Hbx.
  destruct (fa_blks t2 !! x) as [b2|] eqn:Hb2; [|done]. injection Hbx as Hbx. rewrite (fa_update_eq _ _ _ _ Hb2), Cc.
  change (fa_blkAlign addr (fa_cfg t1)) with a in *.
  eexists _, (touch x (n - 1) order), (take n (a :: stack)). split; [done|]. split; [done|]. split.
  - eapply (fill_stacked t order stack a x b); try done.
    + eapply fa_same_links_inv; [by apply same_links_alter | apply I2 | exact I2].
    + intros i. cbn. case_decide as E.
      * subst i. rewrite list_lookup_alter_eq, Hb2. cbn. by rewrite Hbx.
      * rewrite list_lookup_alter_ne by done. apply Cb.
  - intros j Hj. destruct (C j Hj) as (h & Hrun & Hhj & Hmj). exists h. cbn [fa_hits fa_misses with_fa_blks].
    rewrite lru_run_snoc, Hrun, Hhits, Hmiss. unfold lru_step. cbn [fst snd fa_hits fa_misses t1 with_fa_counts].
    rewrite (take_new _ n) by (done || by apply bound_le).
    rewrite decide_False by (intros H; apply Ha; apply elem_of_take in H as (? & ? & _); by eapply list_elem_of_lookup_2).
    rewrite list_lookup_fmap, Hmj, length_app. cbn. split_and!; try done. f_equal. lia.
Qed.

Lemma stack_run t order stack l addrs :
  stacked t order stack -> counted t l stack -> Forall (fun a => fa_blkAlign a (fa_cfg t) <> 0%Z) addrs ->
  exists t' order' stack', foldM fa_reference t addrs = Ok t' /\ fa_cfg t' = fa_cfg t /\
    stacked t' order' stack' /\ counted t' (l ++ map (fun a => fa_blkAlign a (fa_cfg t)) addrs) stack'.
Proof.
  revert t order stack l. induction addrs as [|a addrs IH]; intros t order stack l St C Hz.
  { exists t, order, stack. cbn. by rewrite app_nil_r. }
  inv Hz. assert (exists t1 order1 stack1, fa_reference t a = Ok t1 /\ fa_cfg t1 = fa_cfg t /\
    stacked t1 order1 stack1 /\ counted t1 (l ++ [fa_blkAlign a (fa_cfg t)]) stack1) as (t1 & o1 & s1 & E1 & Hc & St1 & C1).
  { destruct (decide (fa_blkAlign a (fa_cfg t) ∈ stack)) as [Hin|Hin].
    - apply list_elem_of_lookup in Hin as (q & Hq). destruct (stack_hit _ _ _ _ _ _ St C Hq) as (t1 & o1 & ?). eauto.
    - by eapply stack_miss. }
  destruct (IH t1 o1 s1 (l ++ [fa_blkAlign a (fa_cfg t)]) St1 C1) as (t2 & o2 & s2 & E2 & Hc2 & St2 & C2); [by rewrite Hc|].
  exists t2, o2, s2. cbn [foldM]. rewrite E1, bind_Ok_l. split; [done|]. split; [congruence|]. split; [done|].
  rewrite Hc, <- app_assoc in C2. exact C2.
Qed.

End Stack.

(** * The theorem *)

(** C39. C42: one run of the fully associative store counts, for the whole cache and
    for every smaller size it tracks, from 128K in powers of two, the hits and the
    misses of a separate LRU cache of that size fed with the same addresses.  The
    client names the blocks it fills; block 0, the tag of a block that was never
    used, is left out. *)
Theorem falru_counts_all_sizes b (nc : nat) lat addrs :
  (0 <= b <= 16)%Z -> nc <= 13 -> (0 < lat)%Z -> Forall (fun a => Z.ldiff a (2 ^ b - 1) <> 0)%Z addrs ->
  exists t t', FALRU_new (2 ^ b) (2 ^ (17 + Z.of_nat nc)) lat = Ok t /\ foldM fa_reference t addrs = Ok t' /\
    forall j, j <= nc ->
      let hits := lru_hits (Z.to_nat (2 ^ (17 + Z.of_nat j) / 2 ^ b)) (map (fun a => Z.ldiff a (2 ^ b - 1)) addrs) in
      fa_hits t' !! j = Some hits /\ fa_misses t' !! j = Some (Z.of_nat (length addrs) - hits)%Z.
Proof.
  intros Hb Hnc Hlat Hz. destruct (geometry b Hb) as (Hbase & Hbytes & Hp2). set (base := base_of b) in *.
  assert (exists b, 0 <= b /\ Z.of_nat base * 2 ^ b = 2 ^ 17)%Z as Hex by (exists b; lia).
  destruct (FALRU_new_ok base nc Hbase Hnc Hex (2 ^ b) lat Hbytes Hp2 Hlat) as (t & E & I & Hbs & Hh & Hhits & Hmiss & Hblk).
  assert (stacked base nc t (seq 0 (bound base nc)) []) as St.
  { split; try done; rewrite ?Hh; try set_solver; try (cbn; lia). constructor. }
  assert (counted base nc t [] []) as C.
  { intros j Hj. exists 0%Z. rewrite Hhits, Hmiss, !lookup_replicate_2 by lia. cbn. by rewrite take_nil. }
  destruct (stack_run base nc Hbase Hnc t _ _ [] addrs St C) as (t' & o' & s' & R & _ & _ & C').
  { unfold fa_blkAlign. by rewrite Hbs. }
  exists t, t'. split; [done|]. split; [done|]. intros j Hj hits. destruct (C' j Hj) as (h & Hrun & Hhj & Hmj).
  assert (hits = h) as ->.
  { unfold hits, lru_hits. replace (Z.to_nat _) with (bound base j).
    - unfold fa_blkAlign in Hrun. rewrite Hbs, app_nil_l in Hrun. by rewrite Hrun.
    - rewrite Z.pow_add_r, <- Hbytes by lia. unfold bound.
      replace (Z.of_nat base * 2 ^ b * 2 ^ Z.of_nat j)%Z with (Z.of_nat base * 2 ^ Z.of_nat j * 2 ^ b)%Z by lia.
      rewrite Z.div_mul by (pose proof (Z.pow_pos_nonneg 2 b); lia).
      rewrite <- (Nat2Z.id (base * 2 ^ j)). f_equal. rewrite Nat2Z.inj_mul, Nat2Z.inj_pow. done. }
  rewrite app_nil_l, length_map in Hmj. done.
Qed.

(** Blocks of 64K, sizes of two and of four blocks: the third block pushes the
    first out of the smaller cache, which misses where the larger one hits. *)
Definition demo_addrs : list Z := [0x10000; 0x20000; 0x30000; 0x10008; 0x10010]%Z.

Lemma falru_counts_all_sizes_witness :
  exists t t', FALRU_new (2 ^ 16) (2 ^ 18) 2 = Ok t /\ foldM fa_reference t demo_addrs = Ok t' /\
    fa_hits t' !! 0 = Some 1%Z /\ fa_hits t' !! 1 = Some 2%Z.
Proof.
  destruct (falru_counts_all_sizes 16 1 2 demo_addrs) as (t & t' & E & R & H); [lia | lia | lia | |].
  { repeat constructor; vm_compute; discriminate. }
  exists t, t'. split; [exact E|]. split; [exact R|]. split; [apply (H 0); lia | apply (H 1); lia].
Defined.

(** * What the store gets wrong *)

(** [insertBlock] does nothing, and nothing else writes the tag of a block of this
    store: the first hit on a filled block trips the assertion on the tag. *)
Theorem falru_first_hit_asserts :
  (t ← FALRU_new (2 ^ 16) (2 ^ 18) 2;
   v ← fa_findVictim 0x10000 0 t;
   t ← fa_update v.1 (fun b => with_fb_blk (with_blk_status (Z.lor BlkValid BlkReadable) (fb_blk b)) b)
         (fa_insertBlock 0x10000 v.1 v.2);
   r ← fa_accessBlock 0x10000 t; Ok (fa_hits r.2)) = Err AssertFail.
Proof. vm_compute. reflexivity. Qed.

(** A block that was never used has tag 0: taking it for another address erases
    the entry of block 0, which is then missed although it is still there. *)
Theorem falru_forgets_block_zero :
  (t ← FALRU_new (2 ^ 16) (2 ^ 17) 2; t ← foldM fa_reference t [0; 0x10000; 0]%Z; Ok (fa_hits t)) = Ok [0%Z] /\
  lru_hits 2 [0; 0x10000; 0]%Z = 1%Z.
Proof. split; vm_compute; reflexivity. Qed.
