(* ===== verification/MSHR.v ===== *)
(** Miss status holding registers: mem/cache/mshr.hh and mshr.cc.

    A register is reached through pointers: the queue that owns it, the
    packets it sent (their [senderState]) and so the caches downstream of
    it.  Registers live in one heap, [MSHRHeap], shared by all the caches of a
    system; [MSHRPtr] is an address in it.  The packet of a target belongs to
    that target, so it is a value. *)

From S2P Require Import Prelude Request MemCmd Packet.

(** [MSHR::Target::Source] *)
Inductive Source := FromCPU | FromSnoop | FromPrefetcher.

#[global] Instance Source_eq_dec : EqDecision Source.
Proof. solve_decision. Defined.

Record Target := mkTarget {
  tgt_recvTime : Z;
  tgt_readyTime : Z;
  tgt_order : Z;
  tgt_pkt : Packet;
  tgt_source : Source;
  tgt_markedPending : bool
}.

Definition with_tgt_recvTime (v : Z) (r : Target) : Target :=
  mkTarget v (tgt_readyTime r) (tgt_order r) (tgt_pkt r) (tgt_source r)
    (tgt_markedPending r).
Definition with_tgt_readyTime (v : Z) (r : Target) : Target :=
  mkTarget (tgt_recvTime r) v (tgt_order r) (tgt_pkt r) (tgt_source r)
    (tgt_markedPending r).
Definition with_tgt_order (v : Z) (r : Target) : Target :=
  mkTarget (tgt_recvTime r) (tgt_readyTime r) v (tgt_pkt r) (tgt_source r)
    (tgt_markedPending r).
Definition with_tgt_pkt (v : Packet) (r : Target) : Target :=
  mkTarget (tgt_recvTime r) (tgt_readyTime r) (tgt_order r) v (tgt_source
    r) (tgt_markedPending r).
Definition with_tgt_source (v : Source) (r : Target) : Target :=
  mkTarget (tgt_recvTime r) (tgt_readyTime r) (tgt_order r) (tgt_pkt r) v
    (tgt_markedPending r).
Definition with_tgt_markedPending (v : bool) (r : Target) : Target :=
  mkTarget (tgt_recvTime r) (tgt_readyTime r) (tgt_order r) (tgt_pkt r)
    (tgt_source r) v.

Record TargetList := mkTargetList {
  tl_list : list Target;
  tl_needsExclusive : bool;
  tl_hasUpgrade : bool
}.

Definition with_tl_list (v : list Target) (r : TargetList) : TargetList :=
  mkTargetList v (tl_needsExclusive r) (tl_hasUpgrade r).
Definition with_tl_needsExclusive (v : bool) (r : TargetList) : TargetList :=
  mkTargetList (tl_list r) v (tl_hasUpgrade r).
Definition with_tl_hasUpgrade (v : bool) (r : TargetList) : TargetList :=
  mkTargetList (tl_list r) (tl_needsExclusive r) v.

(** The list iterators [readyIter] and [allocIter] are the positions of the
    register in the lists of its queue, which hold it at most once; they are
    not stored.  The [data] buffer is never anything but null. *)
Record MSHR := mkMSHR {
  mshr_queue : Z;
  mshr_readyTime : Z;
  mshr_order : Z;
  mshr_addr : Z;
  mshr_size : Z;
  mshr_inService : bool;
  mshr_isForward : bool;
  mshr_isUncacheable : bool;
  mshr_downstreamPending : bool;
  mshr_pendingDirty : bool;
  mshr_postInvalidate : bool;
  mshr_postDowngrade : bool;
  mshr_threadNum : Z;
  mshr_ntargets : Z;
  mshr_targets : TargetList;
  mshr_deferredTargets : TargetList
}.

Definition with_mshr_queue (v : Z) (r : MSHR) : MSHR :=
  mkMSHR v (mshr_readyTime r) (mshr_order r) (mshr_addr r) (mshr_size r)
    (mshr_inService r) (mshr_isForward r) (mshr_isUncacheable r)
    (mshr_downstreamPending r) (mshr_pendingDirty r) (mshr_postInvalidate r)
    (mshr_postDowngrade r) (mshr_threadNum r) (mshr_ntargets r) (mshr_targets
    r) (mshr_deferredTargets r).
Definition with_mshr_readyTime (v : Z) (r : MSHR) : MSHR :=
  mkMSHR (mshr_queue r) v (mshr_order r) (mshr_addr r) (mshr_size r)
    (mshr_inService r) (mshr_isForward r) (mshr_isUncacheable r)
    (mshr_downstreamPending r) (mshr_pendingDirty r) (mshr_postInvalidate r)
    (mshr_postDowngrade r) (mshr_threadNum r) (mshr_ntargets r) (mshr_targets
    r) (mshr_deferredTargets r).
Definition with_mshr_order (v : Z) (r : MSHR) : MSHR :=
  mkMSHR (mshr_queue r) (mshr_readyTime r) v (mshr_addr r) (mshr_size r)
    (mshr_inService r) (mshr_isForward r) (mshr_isUncacheable r)
    (mshr_downstreamPending r) (mshr_pendingDirty r) (mshr_postInvalidate r)
    (mshr_postDowngrade r) (mshr_threadNum r) (mshr_ntargets r) (mshr_targets
    r) (mshr_deferredTargets r).
Definition with_mshr_addr (v : Z) (r : MSHR) : MSHR :=
  mkMSHR (mshr_queue r) (mshr_readyTime r) (mshr_order r) v (mshr_size r)
    (mshr_inService r) (mshr_isForward r) (mshr_isUncacheable r)
    (mshr_downstreamPending r) (mshr_pendingDirty r) (mshr_postInvalidate r)
    (mshr_postDowngrade r) (mshr_threadNum r) (mshr_ntargets r) (mshr_targets
    r) (mshr_deferredTargets r).
Definition with_mshr_size (v : Z) (r : MSHR) : MSHR :=
  mkMSHR (mshr_queue r) (mshr_readyTime r) (mshr_order r) (mshr_addr r) v
    (mshr_inService r) (mshr_isForward r) (mshr_isUncacheable r)
    (mshr_downstreamPending r) (mshr_pendingDirty r) (mshr_postInvalidate r)
    (mshr_postDowngrade r) (mshr_threadNum r) (mshr_ntargets r) (mshr_targets
    r) (mshr_deferredTargets r).
Definition with_mshr_inService (v : bool) (r : MSHR) : MSHR :=
  mkMSHR (mshr_queue r) (mshr_readyTime r) (mshr_order r) (mshr_addr r)
    (mshr_size r) v (mshr_isForward r) (mshr_isUncacheable r)
    (mshr_downstreamPending r) (mshr_pendingDirty r) (mshr_postInvalidate r)
    (mshr_postDowngrade r) (mshr_threadNum r) (mshr_ntargets r) (mshr_targets
    r) (mshr_deferredTargets r).
Definition with_mshr_isForward (v : bool) (r : MSHR) : MSHR :=
  mkMSHR (mshr_queue r) (mshr_readyTime r) (mshr_order r) (mshr_addr r)
    (mshr_size r) (mshr_inService r) v (mshr_isUncacheable r)
    (mshr_downstreamPending r) (mshr_pendingDirty r) (mshr_postInvalidate r)
    (mshr_postDowngrade r) (mshr_threadNum r) (mshr_ntargets r) (mshr_targets
    r) (mshr_deferredTargets r).
Definition with_mshr_isUncacheable (v : bool) (r : MSHR) : MSHR :=
  mkMSHR (mshr_queue r) (mshr_readyTime r) (mshr_order r) (mshr_addr r)
    (mshr_size r) (mshr_inService r) (mshr_isForward r) v
    (mshr_downstreamPending r) (mshr_pendingDirty r) (mshr_postInvalidate r)
    (mshr_postDowngrade r) (mshr_threadNum r) (mshr_ntargets r) (mshr_targets
    r) (mshr_deferredTargets r).
Definition with_mshr_downstreamPending (v : bool) (r : MSHR) : MSHR :=
  mkMSHR (mshr_queue r) (mshr_readyTime r) (mshr_order r) (mshr_addr r)
    (mshr_size r) (mshr_inService r) (mshr_isForward r) (mshr_isUncacheable
    r) v (mshr_pendingDirty r) (mshr_postInvalidate r) (mshr_postDowngrade r)
    (mshr_threadNum r) (mshr_ntargets r) (mshr_targets r)
    (mshr_deferredTargets r).
Definition with_mshr_pendingDirty (v : bool) (r : MSHR) : MSHR :=
  mkMSHR (mshr_queue r) (mshr_readyTime r) (mshr_order r) (mshr_addr r)
    (mshr_size r) (mshr_inService r) (mshr_isForward r) (mshr_isUncacheable
    r) (mshr_downstreamPending r) v (mshr_postInvalidate r)
    (mshr_postDowngrade r) (mshr_threadNum r) (mshr_ntargets r) (mshr_targets
    r) (mshr_deferredTargets r).
Definition with_mshr_postInvalidate (v : bool) (r : MSHR) : MSHR :=
  mkMSHR (mshr_queue r) (mshr_readyTime r) (mshr_order r) (mshr_addr r)
    (mshr_size r) (mshr_inService r) (mshr_isForward r) (mshr_isUncacheable
    r) (mshr_downstreamPending r) (mshr_pendingDirty r) v (mshr_postDowngrade
    r) (mshr_threadNum r) (mshr_ntargets r) (mshr_targets r)
    (mshr_deferredTargets r).
Definition with_mshr_postDowngrade (v : bool) (r : MSHR) : MSHR :=
  mkMSHR (mshr_queue r) (mshr_readyTime r) (mshr_order r) (mshr_addr r)
    (mshr_size r) (mshr_inService r) (mshr_isForward r) (mshr_isUncacheable
    r) (mshr_downstreamPending r) (mshr_pendingDirty r) (mshr_postInvalidate
    r) v (mshr_threadNum r) (mshr_ntargets r) (mshr_targets r)
    (mshr_deferredTargets r).
Definition with_mshr_threadNum (v : Z) (r : MSHR) : MSHR :=
  mkMSHR (mshr_queue r) (mshr_readyTime r) (mshr_order r) (mshr_addr r)
    (mshr_size r) (mshr_inService r) (mshr_isForward r) (mshr_isUncacheable
    r) (mshr_downstreamPending r) (mshr_pendingDirty r) (mshr_postInvalidate
    r) (mshr_postDowngrade r) v (mshr_ntargets r) (mshr_targets r)
    (mshr_deferredTargets r).
Definition with_mshr_ntargets (v : Z) (r : MSHR) : MSHR :=
  mkMSHR (mshr_queue r) (mshr_readyTime r) (mshr_order r) (mshr_addr r)
    (mshr_size r) (mshr_inService r) (mshr_isForward r) (mshr_isUncacheable
    r) (mshr_downstreamPending r) (mshr_pendingDirty r) (mshr_postInvalidate
    r) (mshr_postDowngrade r) (mshr_threadNum r) v (mshr_targets r)
    (mshr_deferredTargets r).
Definition with_mshr_targets (v : TargetList) (r : MSHR) : MSHR :=
  mkMSHR (mshr_queue r) (mshr_readyTime r) (mshr_order r) (mshr_addr r)
    (mshr_size r) (mshr_inService r) (mshr_isForward r) (mshr_isUncacheable
    r) (mshr_downstreamPending r) (mshr_pendingDirty r) (mshr_postInvalidate
    r) (mshr_postDowngrade r) (mshr_threadNum r) (mshr_ntargets r) v
    (mshr_deferredTargets r).
Definition with_mshr_deferredTargets (v : TargetList) (r : MSHR) : MSHR :=
  mkMSHR (mshr_queue r) (mshr_readyTime r) (mshr_order r) (mshr_addr r)
    (mshr_size r) (mshr_inService r) (mshr_isForward r) (mshr_isUncacheable
    r) (mshr_downstreamPending r) (mshr_pendingDirty r) (mshr_postInvalidate
    r) (mshr_postDowngrade r) (mshr_threadNum r) (mshr_ntargets r)
    (mshr_targets r) v.

Abbreviation MSHRPtr := Z (only parsing).
Abbreviation MSHRHeap := (gmap Z MSHR).

Definition mshr_deref (mh : MSHRHeap) (m : MSHRPtr) : result MSHR :=
  of_option NullDeref (mh !! m).
Definition mshr_update (mh : MSHRHeap) (m : MSHRPtr) (f : MSHR -> MSHR) : result MSHRHeap :=
  r ← mshr_deref mh m; Ok (<[m := f r]> mh).

(** * Target lists *)

Definition TargetList_new : TargetList := mkTargetList [] false false.
Definition resetFlags (tl : TargetList) : TargetList :=
  mkTargetList (tl_list tl) false false.
Definition isReset (tl : TargetList) : bool :=
  negb (tl_needsExclusive tl) && negb (tl_hasUpgrade tl).
Definition tl_empty (tl : TargetList) : bool :=
  match tl_list tl with [] => true | _ => false end.

(** The part of [add] that reaches the upstream register of the packet,
    if its sender state is one. *)
Definition mark_upstream (mh : MSHRHeap) (pkt : Packet) : result MSHRHeap :=
  match pkt_senderState pkt with
  | SS_MSHR u =>
      r ← mshr_deref mh u;
      cassert (negb (mshr_downstreamPending r)) ;;
      Ok (<[u := with_mshr_downstreamPending true r]> mh)
  | _ => Ok mh
  end.

(** [TargetList::add] *)
Definition TargetList_add (mh : MSHRHeap) (tl : TargetList) (pkt : Packet)
    (readyTime order : Z) (source : Source) (markPending : bool) (curTick : Z)
    : result (MSHRHeap * TargetList) :=
  let tl :=
    if decide (source = FromSnoop) then tl
    else
      let tl := if needsExclusive pkt then with_tl_needsExclusive true tl else tl in
      if isUpgrade pkt || cmd_is pkt StoreCondReq then with_tl_hasUpgrade true tl else tl in
  mh ← (if markPending then mark_upstream mh pkt else Ok mh);
  Ok (mh, with_tl_list
            (tl_list tl ++ [mkTarget curTick readyTime order pkt source markPending]) tl).

Definition replaceUpgrade (pkt : Packet) : Packet :=
  if cmd_is pkt UpgradeReq then with_pkt_cmd ReadExReq pkt
  else if cmd_is pkt SCUpgradeReq then with_pkt_cmd SCUpgradeFailReq pkt
  else if cmd_is pkt StoreCondReq then with_pkt_cmd StoreCondFailReq pkt
  else pkt.

Definition replaceUpgrades (tl : TargetList) : TargetList :=
  if negb (tl_hasUpgrade tl) then tl
  else with_tl_hasUpgrade false
         (with_tl_list (map (fun t => with_tgt_pkt (replaceUpgrade (tgt_pkt t)) t)
                            (tl_list tl)) tl).

(** [MSHR::clearDownstreamPending] and [TargetList::clearDownstreamPending],
    which call each other up the hierarchy.  Each register visited had its
    flag set and has it cleared, so the number of registers in the heap is
    enough fuel. *)
Fixpoint MSHR_clearDownstreamPending (fuel : nat) (mh : MSHRHeap) (m : MSHRPtr)
    : result MSHRHeap :=
  match fuel with
  | O => Err OutOfFuel
  | S fuel' =>
      r ← mshr_deref mh m;
      cassert (mshr_downstreamPending r) ;;
      let mh := <[m := with_mshr_downstreamPending false r]> mh in
      foldM (fun mh t =>
               if tgt_markedPending t then
                 match pkt_senderState (tgt_pkt t) with
                 | SS_MSHR u => MSHR_clearDownstreamPending fuel' mh u
                 | _ => Ok mh
                 end
               else Ok mh)
            mh (tl_list (mshr_targets r))
  end.

Definition TargetList_clearDownstreamPending (mh : MSHRHeap) (tl : TargetList)
    : result MSHRHeap :=
  foldM (fun mh t =>
           if tgt_markedPending t then
             match pkt_senderState (tgt_pkt t) with
             | SS_MSHR u => MSHR_clearDownstreamPending (S (size mh)) mh u
             | _ => Ok mh
             end
           else Ok mh)
        mh (tl_list tl).

(** [TargetList::checkFunctional]: the packet and the targets' packets are
    both written. *)
Fixpoint check_targets (pkt : Packet) (ts : list Target) : result (bool * Packet * list Target) :=
  match ts with
  | [] => Ok (false, pkt, [])
  | t :: ts' =>
      '(b, pkt, other) ← (checkFunctional_pkt pkt (tgt_pkt t) : result (bool * Packet * Packet));
      let t := with_tgt_pkt other t in
      if (b : bool) then Ok (true, pkt, t :: ts')
      else '(b, pkt, ts') ← check_targets pkt ts'; Ok (b, pkt, t :: ts')
  end.

Definition TargetList_checkFunctional (pkt : Packet) (tl : TargetList)
    : result (bool * Packet * TargetList) :=
  '(b, pkt, l) ← check_targets pkt (tl_list tl); Ok (b, pkt, with_tl_list l tl).

(** * Registers *)

Definition InvalidThreadID : Z := -1.

Definition MSHR_new (queue : Z) : MSHR :=
  mkMSHR queue 0 0 0 0 false false false false false false false
    InvalidThreadID 0 TargetList_new TargetList_new.

Definition mshr_needsExclusive (r : MSHR) : bool := tl_needsExclusive (mshr_targets r).
Definition isPendingDirty (r : MSHR) : result bool :=
  cassert (mshr_inService r) ;; Ok (mshr_pendingDirty r).
Definition hasPostInvalidate (r : MSHR) : result bool :=
  cassert (mshr_inService r) ;; Ok (mshr_postInvalidate r).
Definition hasPostDowngrade (r : MSHR) : result bool :=
  cassert (mshr_inService r) ;; Ok (mshr_postDowngrade r).
Definition getNumTargets (r : MSHR) : Z := mshr_ntargets r.
Definition hasTargets (r : MSHR) : bool := negb (tl_empty (mshr_targets r)).
Definition getTarget (r : MSHR) : result Target :=
  match tl_list (mshr_targets r) with t :: _ => Ok t | [] => Err AssertFail end.

(** [popTarget]: [ntargets] is an [unsigned short]; popping an empty list
    is undefined. *)
Definition popTarget (r : MSHR) : result MSHR :=
  match tl_list (mshr_targets r) with
  | [] => Err OutOfBounds
  | _ :: l => Ok (with_mshr_targets (with_tl_list l (mshr_targets r))
                    (with_mshr_ntargets (u16 (mshr_ntargets r - 1)) r))
  end.

(** A write to the packet of the first target, through its pointer. *)
Definition upd_front_pkt (f : Packet -> Packet) (r : MSHR) : result MSHR :=
  match tl_list (mshr_targets r) with
  | [] => Err OutOfBounds
  | t :: l => Ok (with_mshr_targets
                    (with_tl_list (with_tgt_pkt (f (tgt_pkt t)) t :: l) (mshr_targets r)) r)
  end.

Definition isForwardNoResponse (r : MSHR) : result bool :=
  if negb (getNumTargets r =? 1) then Ok false
  else t ← getTarget r;
       Ok (bool_decide (tgt_source t = FromCPU) && negb (needsResponse (tgt_pkt t))).

(** [MSHR::allocate] *)
Definition MSHR_allocate (h : ReqHeap) (mh : MSHRHeap) (m : MSHRPtr) (addr size : Z)
    (target : Packet) (whenReady order curTick : Z) : result MSHRHeap :=
  r ← mshr_deref mh m;
  let r := with_mshr_size size (with_mshr_addr addr r) in
  let r := with_mshr_order order (with_mshr_readyTime whenReady r) in
  rq ← req_deref h (pkt_req target);
  let r := with_mshr_isUncacheable (isUncacheable rq) (with_mshr_isForward false r) in
  let r := with_mshr_downstreamPending false (with_mshr_inService false r) in
  let r := with_mshr_ntargets 1 (with_mshr_threadNum 0 r) in
  cassert (isReset (mshr_targets r)) ;;
  let source := if cmd_is target HardPFReq then FromPrefetcher else FromCPU in
  '(mh, tl) ← TargetList_add (<[m := r]> mh) (mshr_targets r) target whenReady order
                source true curTick;
  cassert (isReset (mshr_deferredTargets r)) ;;
  mshr_update mh m (with_mshr_targets tl).

(** [MSHR::markInService]: [true] when no response will come and the
    register can be freed.  The packet pointer may be null; it is read only
    when a response is expected and no target needs the block exclusive. *)
Definition MSHR_markInService (mh : MSHRHeap) (m : MSHRPtr) (opkt : option Packet)
    : result (MSHRHeap * bool) :=
  r ← mshr_deref mh m;
  cassert (negb (mshr_inService r)) ;;
  fnr ← isForwardNoResponse r;
  match fnr with
  | true =>
      cassert (getNumTargets r =? 1) ;;
      r ← popTarget r; Ok (<[m := r]> mh, true)
  | false =>
      let r := with_mshr_inService true r in
      dirty ← (if tl_needsExclusive (mshr_targets r) then Ok true
               else pkt ← of_option NullDeref opkt;
                    Ok (negb (sharedAsserted pkt) && memInhibitAsserted pkt));
      let r := with_mshr_pendingDirty dirty r in
      let r := with_mshr_postDowngrade false (with_mshr_postInvalidate false r) in
      let mh := <[m := r]> mh in
      mh ← (if negb (mshr_downstreamPending r)
            then TargetList_clearDownstreamPending mh (mshr_targets r) else Ok mh);
      Ok (mh, false)
  end.

(** [MSHR::deallocate] *)
Definition MSHR_deallocate (r : MSHR) : result MSHR :=
  cassert (tl_empty (mshr_targets r)) ;;
  let r := with_mshr_targets (resetFlags (mshr_targets r)) r in
  cassert (isReset (mshr_deferredTargets r)) ;;
  cassert (mshr_ntargets r =? 0) ;;
  Ok (with_mshr_inService false r).

(** The condition under which [allocateTarget] defers a target; the
    disjuncts are evaluated left to right. *)
Definition must_defer (r : MSHR) (pkt : Packet) : result bool :=
  if negb (mshr_inService r) then Ok false
  else if negb (tl_empty (mshr_deferredTargets r)) then Ok true
  else
    pi ← hasPostInvalidate r;
    if (pi : bool) then Ok true
    else if negb (needsExclusive pkt) then Ok false
    else
      pd ← isPendingDirty r;
      if negb pd then Ok true
      else pg ← hasPostDowngrade r; Ok (pg || mshr_isForward r).

(** [MSHR::allocateTarget] *)
Definition MSHR_allocateTarget (mh : MSHRHeap) (m : MSHRPtr) (pkt : Packet)
    (whenReady order curTick : Z) : result MSHRHeap :=
  cassert (negb (cmd_is pkt HardPFReq)) ;;
  r ← mshr_deref mh m;
  defer ← must_defer r pkt;
  mh ← match defer with
       | true =>
           pi ← hasPostInvalidate r;
           let pkt := if (pi : bool) then replaceUpgrade pkt else pkt in
           '(mh, tl) ← TargetList_add mh (mshr_deferredTargets r) pkt whenReady order
                         FromCPU true curTick;
           mshr_update mh m (with_mshr_deferredTargets tl)
       | false =>
           '(mh, tl) ← TargetList_add mh (mshr_targets r) pkt whenReady order
                         FromCPU (negb (mshr_inService r)) curTick;
           mshr_update mh m (with_mshr_targets tl)
       end;
  mshr_update mh m (fun r => with_mshr_ntargets (u16 (mshr_ntargets r + 1)) r).

(** [MSHR::handleSnoop]: whether the register absorbs the snoop, and the
    snooped packet with the flags the register raised on it. *)
Definition MSHR_handleSnoop (mh : MSHRHeap) (m : MSHRPtr) (pkt : Packet) (order curTick : Z)
    : result (MSHRHeap * Packet * bool) :=
  r ← mshr_deref mh m;
  if negb (mshr_inService r) || (isExpressSnoop pkt && mshr_downstreamPending r) then
    let r := if needsExclusive pkt
             then with_mshr_deferredTargets (replaceUpgrades (mshr_deferredTargets r))
                    (with_mshr_targets (replaceUpgrades (mshr_targets r)) r)
             else r in
    Ok (<[m := r]> mh, pkt, false)
  else
    let r := if needsExclusive pkt
             then with_mshr_deferredTargets (replaceUpgrades (mshr_deferredTargets r)) r
             else r in
    let mh := <[m := r]> mh in
    pi ← hasPostInvalidate r;
    if (pi : bool) then Ok (mh, pkt, true)
    else
      pd ← isPendingDirty r;
      '(mh, pkt) ←
        (if pd || isInvalidate pkt then
           '(mh, tl) ← TargetList_add mh (mshr_targets r) (Packet_copy pkt true curTick)
                         curTick order FromSnoop
                         (mshr_downstreamPending r && tl_needsExclusive (mshr_targets r))
                         curTick;
           mh ← mshr_update mh m (with_mshr_targets tl);
           mh ← mshr_update mh m (fun r => with_mshr_ntargets (u16 (mshr_ntargets r + 1)) r);
           let pkt := if (pd : bool) then setSupplyExclusive (assertMemInhibit pkt) else pkt in
           mh ← (if needsExclusive pkt
                 then mshr_update mh m (with_mshr_postInvalidate true) else Ok mh);
           Ok (mh, pkt)
         else Ok (mh, pkt));
      if negb (needsExclusive pkt) then
        mh ← mshr_update mh m (with_mshr_postDowngrade true);
        Ok (mh, assertShared pkt, true)
      else Ok (mh, pkt, true).

(** [MSHR::promoteDeferredTargets] *)
Definition promoteDeferredTargets (r : MSHR) (curTick : Z) : result (MSHR * bool) :=
  cassert (tl_empty (mshr_targets r)) ;;
  match tl_list (mshr_deferredTargets r) with
  | [] => Ok (r, false)
  | t :: _ =>
      let tmp := mshr_targets r in
      let r := with_mshr_targets (mshr_deferredTargets r) r in
      let r := with_mshr_deferredTargets tmp r in
      cassert (Z.of_nat (length (tl_list (mshr_targets r))) =? mshr_ntargets r) ;;
      let r := with_mshr_deferredTargets (resetFlags (mshr_deferredTargets r)) r in
      let r := with_mshr_order (tgt_order t) r in
      Ok (with_mshr_readyTime (Z.max curTick (tgt_readyTime t)) r, true)
  end.

(** [MSHR::handleFill]; the conjuncts of the test are evaluated left to
    right. *)
Definition MSHR_handleFill (mh : MSHRHeap) (m : MSHRPtr) (pkt : Packet) : result MSHRHeap :=
  r ← mshr_deref mh m;
  go ← (if sharedAsserted pkt then Ok false
        else
          pi ← hasPostInvalidate r;
          if (pi : bool) then Ok false
          else pg ← hasPostDowngrade r;
               Ok (negb pg && tl_needsExclusive (mshr_deferredTargets r)));
  match go with
  | false => Ok mh
  | true =>
      cassert (negb (tl_needsExclusive (mshr_targets r))) ;;
      mh ← mshr_update mh m
             (fun r => with_mshr_targets (with_tl_needsExclusive true (mshr_targets r)) r);
      cassert (negb (mshr_downstreamPending r)) ;;
      mh ← TargetList_clearDownstreamPending mh (mshr_deferredTargets r);
      mshr_update mh m
        (fun r =>
           let spliced := tl_list (mshr_targets r) ++ tl_list (mshr_deferredTargets r) in
           with_mshr_deferredTargets (resetFlags (with_tl_list [] (mshr_deferredTargets r)))
             (with_mshr_targets (with_tl_list spliced (mshr_targets r)) r))
  end.

(** [MSHR::checkFunctional] *)
Definition MSHR_checkFunctional (pkt : Packet) (r : MSHR) : result (bool * Packet * MSHR) :=
  if isPrint pkt then
    '(_, pkt, _) ← checkFunctional pkt (mshr_addr r) (mshr_size r) None;
    Ok (false, pkt, r)
  else
    '(b, pkt, tl) ← (TargetList_checkFunctional pkt (mshr_targets r)
                     : result (bool * Packet * TargetList));
    let r := with_mshr_targets tl r in
    if (b : bool) then Ok (true, pkt, r)
    else
      '(b, pkt, tl) ← TargetList_checkFunctional pkt (mshr_deferredTargets r);
      Ok (b, pkt, with_mshr_deferredTargets tl r).
