(* ===== verification/MSHRQueue.v ===== *)
(** The queue of miss registers: mem/cache/mshr_queue.hh and
    mshr_queue.cc.  The registers themselves are in the shared heap; the
    queue holds their addresses. *)

From S2P Require Import Prelude Request MemCmd Packet MSHR.

Record MSHRQueue := mkMSHRQueue {
  mq_registers : list MSHRPtr;
  mq_allocatedList : list MSHRPtr;
  mq_readyList : list MSHRPtr;
  mq_freeList : list MSHRPtr;
  mq_numEntries : Z;
  mq_numReserve : Z;
  mq_allocated : Z;
  mq_inServiceEntries : Z;
  mq_index : Z
}.

Definition with_mq_registers (v : list MSHRPtr) (r : MSHRQueue) : MSHRQueue :=
  mkMSHRQueue v (mq_allocatedList r) (mq_readyList r) (mq_freeList r)
    (mq_numEntries r) (mq_numReserve r) (mq_allocated r) (mq_inServiceEntries
    r) (mq_index r).
Definition with_mq_allocatedList (v : list MSHRPtr) (r : MSHRQueue) : MSHRQueue :=
  mkMSHRQueue (mq_registers r) v (mq_readyList r) (mq_freeList r)
    (mq_numEntries r) (mq_numReserve r) (mq_allocated r) (mq_inServiceEntries
    r) (mq_index r).
Definition with_mq_readyList (v : list MSHRPtr) (r : MSHRQueue) : MSHRQueue :=
  mkMSHRQueue (mq_registers r) (mq_allocatedList r) v (mq_freeList r)
    (mq_numEntries r) (mq_numReserve r) (mq_allocated r) (mq_inServiceEntries
    r) (mq_index r).
Definition with_mq_freeList (v : list MSHRPtr) (r : MSHRQueue) : MSHRQueue :=
  mkMSHRQueue (mq_registers r) (mq_allocatedList r) (mq_readyList r) v
    (mq_numEntries r) (mq_numReserve r) (mq_allocated r) (mq_inServiceEntries
    r) (mq_index r).
Definition with_mq_numEntries (v : Z) (r : MSHRQueue) : MSHRQueue :=
  mkMSHRQueue (mq_registers r) (mq_allocatedList r) (mq_readyList r)
    (mq_freeList r) v (mq_numReserve r) (mq_allocated r) (mq_inServiceEntries
    r) (mq_index r).
Definition with_mq_numReserve (v : Z) (r : MSHRQueue) : MSHRQueue :=
  mkMSHRQueue (mq_registers r) (mq_allocatedList r) (mq_readyList r)
    (mq_freeList r) (mq_numEntries r) v (mq_allocated r) (mq_inServiceEntries
    r) (mq_index r).
Definition with_mq_allocated (v : Z) (r : MSHRQueue) : MSHRQueue :=
  mkMSHRQueue (mq_registers r) (mq_allocatedList r) (mq_readyList r)
    (mq_freeList r) (mq_numEntries r) (mq_numReserve r) v
    (mq_inServiceEntries r) (mq_index r).
Definition with_mq_inServiceEntries (v : Z) (r : MSHRQueue) : MSHRQueue :=
  mkMSHRQueue (mq_registers r) (mq_allocatedList r) (mq_readyList r)
    (mq_freeList r) (mq_numEntries r) (mq_numReserve r) (mq_allocated r) v
    (mq_index r).
Definition with_mq_index (v : Z) (r : MSHRQueue) : MSHRQueue :=
  mkMSHRQueue (mq_registers r) (mq_allocatedList r) (mq_readyList r)
    (mq_freeList r) (mq_numEntries r) (mq_numReserve r) (mq_allocated r)
    (mq_inServiceEntries r) v.

(** [new MSHR[n]]: [n] fresh registers at consecutive addresses from
    [base]; [self] names the queue within its cache ([registers[i].queue =
    this]). *)
Definition alloc_registers (base n self : Z) (mh : MSHRHeap) : MSHRHeap :=
  foldr (fun a mh => <[a := MSHR_new self]> mh) mh (seqZ base n).

Definition MSHRQueue_new (mh : MSHRHeap) (base self num_entries reserve index : Z)
    : MSHRHeap * MSHRQueue :=
  let n := num_entries + reserve - 1 in
  (alloc_registers base n self mh,
   mkMSHRQueue (seqZ base n) [] [] (seqZ base n) n reserve 0 0 index).

(** [list.erase(it)] where [it] is the position of [m]; with no such
    position the iterator is invalid. *)
Definition erase (m : MSHRPtr) (l : list MSHRPtr) : result (list MSHRPtr) :=
  if decide (m ∈ l) then Ok (filter (fun x => x <> m) l) else Err OutOfBounds.

Fixpoint findMatch_loop (mh : MSHRHeap) (addr : Z) (l : list MSHRPtr)
    : result (option MSHRPtr) :=
  match l with
  | [] => Ok None
  | m :: l' =>
      r ← mshr_deref mh m;
      if mshr_addr r =? addr then Ok (Some m) else findMatch_loop mh addr l'
  end.
Definition findMatch (mh : MSHRHeap) (q : MSHRQueue) (addr : Z) : result (option MSHRPtr) :=
  findMatch_loop mh addr (mq_allocatedList q).

(** [findMatches]: the vector filled, and whether it is non-empty. *)
Definition findMatches (mh : MSHRHeap) (q : MSHRQueue) (addr : Z) (matches : list MSHRPtr)
    : result (list MSHRPtr * bool) :=
  cassert (match matches with [] => true | _ => false end) ;;
  foldM (fun '(ms, retval) m =>
           r ← mshr_deref mh m;
           if mshr_addr r =? addr then Ok (ms ++ [m], true) else Ok (ms, retval))
        (matches, false) (mq_allocatedList q).

(** [MSHRQueue::checkFunctional]; the labels only affect printing. *)
Fixpoint queue_check_loop (mh : MSHRHeap) (pkt : Packet) (blk_addr : Z) (l : list MSHRPtr)
    : result (bool * Packet * MSHRHeap) :=
  match l with
  | [] => Ok (false, pkt, mh)
  | m :: l' =>
      r ← mshr_deref mh m;
      if mshr_addr r =? blk_addr then
        '(b, pkt, r) ← (MSHR_checkFunctional pkt r : result (bool * Packet * MSHR));
        let mh := <[m := r]> mh in
        if (b : bool) then Ok (true, pkt, mh) else queue_check_loop mh pkt blk_addr l'
      else queue_check_loop mh pkt blk_addr l'
  end.
Definition MSHRQueue_checkFunctional (mh : MSHRHeap) (q : MSHRQueue) (pkt : Packet)
    (blk_addr : Z) : result (bool * Packet * MSHRHeap) :=
  queue_check_loop mh pkt blk_addr (mq_allocatedList q).

(** [findPending]: the first ready entry whose bytes overlap
    [addr, addr + size). *)
Fixpoint findPending_loop (mh : MSHRHeap) (addr size : Z) (l : list MSHRPtr)
    : result (option MSHRPtr) :=
  match l with
  | [] => Ok None
  | m :: l' =>
      r ← mshr_deref mh m;
      if mshr_addr r <? addr then
        if addr <? u64 (mshr_addr r + mshr_size r) then Ok (Some m)
        else findPending_loop mh addr size l'
      else
        if mshr_addr r <? u64 (addr + size) then Ok (Some m)
        else findPending_loop mh addr size l'
  end.
Definition findPending (mh : MSHRHeap) (q : MSHRQueue) (addr size : Z)
    : result (option MSHRPtr) :=
  findPending_loop mh addr size (mq_readyList q).

(** The search of [addToReadyList] for the first entry that is ready later;
    running off the end is the [assert(false)]. *)
Fixpoint insert_ready (mh : MSHRHeap) (m : MSHRPtr) (t : Z) (l : list MSHRPtr)
    : result (list MSHRPtr) :=
  match l with
  | [] => Err AssertFail
  | x :: l' =>
      r ← mshr_deref mh x;
      if t <? mshr_readyTime r then Ok (m :: l)
      else l'' ← insert_ready mh m t l'; Ok (x :: l'')
  end.
Definition addToReadyList (mh : MSHRHeap) (q : MSHRQueue) (m : MSHRPtr) : result MSHRQueue :=
  r ← mshr_deref mh m;
  append ← match last (mq_readyList q) with
           | None => Ok true
           | Some b => rb ← mshr_deref mh b; Ok (mshr_readyTime rb <=? mshr_readyTime r)
           end;
  match append with
  | true => Ok (with_mq_readyList (mq_readyList q ++ [m]) q)
  | false => l ← insert_ready mh m (mshr_readyTime r) (mq_readyList q);
             Ok (with_mq_readyList l q)
  end.

(** [MSHRQueue::allocate] *)
Definition MSHRQueue_allocate (h : ReqHeap) (mh : MSHRHeap) (q : MSHRQueue)
    (addr size : Z) (pkt : Packet) (when order curTick : Z)
    : result (MSHRHeap * MSHRQueue * MSHRPtr) :=
  match mq_freeList q with
  | [] => Err AssertFail
  | m :: free =>
      r ← mshr_deref mh m;
      cassert (getNumTargets r =? 0) ;;
      let q := with_mq_freeList free q in
      mh ← MSHR_allocate h mh m addr size pkt when order curTick;
      let q := with_mq_allocatedList (mq_allocatedList q ++ [m]) q in
      q ← addToReadyList mh q m;
      Ok (mh, with_mq_allocated (mq_allocated q + 1) q, m)
  end.

(** [deallocateOne] and [deallocate] *)
Definition deallocateOne (mh : MSHRHeap) (q : MSHRQueue) (m : MSHRPtr)
    : result (MSHRHeap * MSHRQueue) :=
  al ← erase m (mq_allocatedList q);
  let q := with_mq_freeList (m :: mq_freeList q) (with_mq_allocatedList al q) in
  let q := with_mq_allocated (mq_allocated q - 1) q in
  r ← mshr_deref mh m;
  q ← (if mshr_inService r
       then Ok (with_mq_inServiceEntries (mq_inServiceEntries q - 1) q)
       else rl ← erase m (mq_readyList q); Ok (with_mq_readyList rl q));
  r ← MSHR_deallocate r;
  Ok (<[m := r]> mh, q).
Definition MSHRQueue_deallocate := deallocateOne.

(** [moveToFront] *)
Definition moveToFront (mh : MSHRHeap) (q : MSHRQueue) (m : MSHRPtr) : result MSHRQueue :=
  r ← mshr_deref mh m;
  if negb (mshr_inService r) then
    rl ← erase m (mq_readyList q); Ok (with_mq_readyList (m :: rl) q)
  else Ok q.

(** [MSHRQueue::markInService] *)
Definition MSHRQueue_markInService (mh : MSHRHeap) (q : MSHRQueue) (m : MSHRPtr)
    (pkt : option Packet)
    : result (MSHRHeap * MSHRQueue) :=
  '(mh, done) ← (MSHR_markInService mh m pkt : result (MSHRHeap * bool));
  if (done : bool) then MSHRQueue_deallocate mh q m
  else
    rl ← erase m (mq_readyList q);
    let q := with_mq_readyList rl q in
    Ok (mh, with_mq_inServiceEntries (mq_inServiceEntries q + 1) q).

(** [MSHRQueue::markPending] *)
Definition markPending (mh : MSHRHeap) (q : MSHRQueue) (m : MSHRPtr)
    : result (MSHRHeap * MSHRQueue) :=
  r ← mshr_deref mh m;
  cassert (mshr_inService r) ;;
  let mh := <[m := with_mshr_inService false r]> mh in
  let q := with_mq_inServiceEntries (mq_inServiceEntries q - 1) q in
  q ← addToReadyList mh q m;
  Ok (mh, q).

(** The inner loop of [squash]: pop every target; the assertion compares
    the literal 0 with the thread. *)
Fixpoint squash_targets (threadNum : Z) (n : nat) (r : MSHR) : result MSHR :=
  match n with
  | O => Ok r
  | S n' => r ← popTarget r; cassert (0 =? threadNum) ;; squash_targets threadNum n' r
  end.

(** [squash]: one entry of the allocated list. *)
Definition squash_one (threadNum : Z) (st : MSHRHeap * MSHRQueue) (m : MSHRPtr)
    : result (MSHRHeap * MSHRQueue) :=
  let '(mh, q) := st in
  r ← mshr_deref mh m;
  if mshr_threadNum r =? threadNum then
    r ← squash_targets threadNum (length (tl_list (mshr_targets r))) r;
    cassert (negb (hasTargets r)) ;;
    cassert (mshr_ntargets r =? 0) ;;
    let mh := <[m := r]> mh in
    if negb (mshr_inService r) then deallocateOne mh q m else Ok (mh, q)
  else Ok (mh, q).
Definition squash (mh : MSHRHeap) (q : MSHRQueue) (threadNum : Z)
    : result (MSHRHeap * MSHRQueue) :=
  foldM (squash_one threadNum) (mh, q) (mq_allocatedList q).

Definition havePending (q : MSHRQueue) : bool :=
  match mq_readyList q with [] => false | _ => true end.
Definition isFull (q : MSHRQueue) : bool :=
  mq_numEntries q - mq_numReserve q <? mq_allocated q.

Definition MSHRQueue_getNextMSHR (mh : MSHRHeap) (q : MSHRQueue) (curTick : Z)
    : result (option MSHRPtr) :=
  match mq_readyList q with
  | [] => Ok None
  | m :: _ => r ← mshr_deref mh m;
              Ok (if curTick <? mshr_readyTime r then None else Some m)
  end.

Definition MSHRQueue_nextMSHRReadyTime (mh : MSHRHeap) (q : MSHRQueue) : result Z :=
  match mq_readyList q with
  | [] => Ok MaxTick
  | m :: _ => r ← mshr_deref mh m; Ok (mshr_readyTime r)
  end.
