(* ===== verification/MSHRSpec.v ===== *)
(** Miss registers and their queue: the recursion up the hierarchy ends, the
    target counts are right, and the lists of a queue stay a partition of its
    registers. *)

From S2P Require Import Prelude Request MemCmd Packet MSHR MSHRQueue.

(** * [clearDownstreamPending] terminates *)

Definition is_pending (x : Z * MSHR) : Prop := mshr_downstreamPending x.2 = true.
#[global] Instance is_pending_dec x : Decision (is_pending x).
Proof. unfold is_pending. apply _. Defined.

(** The number of registers with the flag set. *)
Definition pending_count (mh : MSHRHeap) : nat := size (filter is_pending mh).

Lemma pending_count_le mh : (pending_count mh <= size mh)%nat.
Proof. apply map_size_filter. Qed.

Lemma pending_count_clear mh m r :
  mh !! m = Some r -> mshr_downstreamPending r = true ->
  (pending_count (<[m := with_mshr_downstreamPending false r]> mh) < pending_count mh)%nat.
Proof.
  intros Hm Hp. unfold pending_count. rewrite map_filter_insert_False by done.
  rewrite map_filter_delete.
  assert (filter is_pending mh !! m = Some r) as Hf by (by apply map_lookup_filter_Some).
  rewrite map_size_delete_Some by eauto.
  assert (size (filter is_pending mh) <> 0%nat); [|lia].
  rewrite map_size_non_empty_iff. intros He. by rewrite He in Hf.
Qed.

(** Registers up to the flag. *)
Definition np (r : MSHR) : MSHR := with_mshr_downstreamPending false r.
Definition heap_np (mh : MSHRHeap) : MSHRHeap := np <$> mh.

Lemma heap_np_flag mh m r b :
  mh !! m = Some r -> heap_np (<[m := with_mshr_downstreamPending b r]> mh) = heap_np mh.
Proof.
  intros Hm. unfold heap_np. rewrite fmap_insert. apply insert_id.
  by rewrite lookup_fmap, Hm.
Qed.

(** One visit of a target on the way up. *)
Definition clear_target (fuel : nat) (mh : MSHRHeap) (t : Target) : result MSHRHeap :=
  if tgt_markedPending t then
    match pkt_senderState (tgt_pkt t) with
    | SS_MSHR u => MSHR_clearDownstreamPending fuel mh u
    | _ => Ok mh
    end
  else Ok mh.

(** The result of a walk: out of fuel never, and only flags cleared. *)
Definition walk_ok (mh : MSHRHeap) (r : result MSHRHeap) : Prop :=
  match r with
  | Ok mh' => (pending_count mh' <= pending_count mh)%nat /\ heap_np mh' = heap_np mh
  | Err e => e <> OutOfFuel
  end.

Lemma walk_fold (f : MSHRHeap -> Target -> result MSHRHeap) l : forall n mh,
  (forall mh t, (pending_count mh < n)%nat -> walk_ok mh (f mh t)) ->
  (pending_count mh < n)%nat -> walk_ok mh (foldM f mh l).
Proof.
  induction l as [|t l IH]; intros n mh Hf Hn; [done|]. cbn [foldM].
  specialize (Hf mh t Hn) as H1. destruct (f mh t) as [mh1|e]; [|done]. rewrite bind_Ok_l.
  destruct H1 as [Hc He]. pose proof (IH n mh1 Hf ltac:(lia)) as H2.
  unfold walk_ok in *. destruct (foldM f mh1 l); [|done]. destruct H2. split; [lia | congruence].
Qed.

Lemma clear_walk fuel : forall mh m,
  (pending_count mh < fuel)%nat -> walk_ok mh (MSHR_clearDownstreamPending fuel mh m).
Proof.
  induction fuel as [|fuel IH]; intros mh m Hc; [lia|]. cbn [MSHR_clearDownstreamPending].
  unfold mshr_deref. destruct (mh !! m) as [r|] eqn:Hm; [|done]. cbn [of_option]. rewrite bind_Ok_l.
  destruct (mshr_downstreamPending r) eqn:Hp; [|done]. cbn [cassert]. rewrite bind_Ok_l.
  pose proof (pending_count_clear _ _ _ Hm Hp) as Hlt.
  pose proof (heap_np_flag _ _ _ false Hm) as He.
  set (mh1 := <[m := with_mshr_downstreamPending false r]> mh) in *.
  assert (walk_ok mh1 (foldM (clear_target fuel) mh1 (tl_list (mshr_targets r)))) as W.
  { apply (walk_fold _ _ fuel); [|lia].
    intros mh2 t H2. unfold clear_target. repeat case_goal; try done. by apply IH. }
  unfold walk_ok, clear_target in *. destruct (foldM _ _ _); [|done]. destruct W. split; [lia | congruence].
Qed.

Lemma targets_walk mh tl : walk_ok mh (TargetList_clearDownstreamPending mh tl).
Proof.
  unfold TargetList_clearDownstreamPending.
  apply (walk_fold _ _ (S (pending_count mh))); [|lia].
  intros mh1 t H1. repeat case_goal; try done. apply clear_walk.
  pose proof (pending_count_le mh1). lia.
Qed.

(** Clearing the downstream-pending flags up the hierarchy terminates,
    whatever the registers point to (cycles included): the number of
    registers is always enough fuel.  When it succeeds it has changed nothing
    but those flags, and their number has not grown. *)
Theorem clearDownstreamPending_terminates mh tl :
  TargetList_clearDownstreamPending mh tl <> Err OutOfFuel /\
  forall mh', TargetList_clearDownstreamPending mh tl = Ok mh' ->
    heap_np mh' = heap_np mh /\ (pending_count mh' <= pending_count mh)%nat.
Proof.
  pose proof (targets_walk mh tl) as W. unfold walk_ok in W. split.
  - intros H. by rewrite H in W.
  - intros mh' H. rewrite H in W. naive_solver.
Qed.

(** * Counting targets *)

Definition tl_len (tl : TargetList) : Z := Z.of_nat (length (tl_list tl)).

(** [ntargets], an unsigned short, counts both lists. *)
Definition reg_ok (r : MSHR) : Prop :=
  mshr_ntargets r = u16 (tl_len (mshr_targets r) + tl_len (mshr_deferredTargets r)).

(** A register on the free list. *)
Record reg_free (r : MSHR) : Prop := {
  rf_targets : tl_list (mshr_targets r) = [];
  rf_ntargets : mshr_ntargets r = 0;
  rf_inService : mshr_inService r = false;
  rf_reset : isReset (mshr_targets r) = true;
  rf_reset_deferred : isReset (mshr_deferredTargets r) = true
}.

Lemma u16_add a b : u16 (u16 a + b) = u16 (a + b).
Proof. unfold u16. apply Zplus_mod_idemp_l. Qed.

Lemma np_np r : np (np r) = np r.
Proof. done. Qed.

Lemma heap_np_lookup mh m r : mh !! m = Some r -> heap_np mh !! m = Some (np r).
Proof. intros H. unfold heap_np. by rewrite lookup_fmap, H. Qed.

Lemma heap_np_lookup_inv mh m r : heap_np mh !! m = Some r -> exists r0, mh !! m = Some r0 /\ r = np r0.
Proof. unfold heap_np. rewrite lookup_fmap. destruct (mh !! m); cbn; naive_solver. Qed.

Lemma heap_np_insert mh m r : heap_np (<[m := r]> mh) = <[m := np r]> (heap_np mh).
Proof. apply fmap_insert. Qed.

(** Marking the upstream register touches a flag only. *)
Lemma mark_upstream_np mh pkt mh' : mark_upstream mh pkt = Ok mh' -> heap_np mh' = heap_np mh.
Proof.
  unfold mark_upstream, mshr_deref. intros H. destruct (pkt_senderState pkt); inv_ok; try done.
  by apply heap_np_flag.
Qed.

Lemma TargetList_add_np mh tl pkt rt o src mp now mh' tl' :
  TargetList_add mh tl pkt rt o src mp now = Ok (mh', tl') ->
  heap_np mh' = heap_np mh /\ tl_len tl' = tl_len tl + 1.
Proof.
  unfold TargetList_add. intros H. inv_ok. split.
  - destruct mp; [by eapply mark_upstream_np | by inv_ok].
  - unfold tl_len. cbn. rewrite length_app. cbn. repeat case_goal; cbn; lia.
Qed.

Lemma TargetList_add_list mh tl pkt rt o src mp now mh' tl' :
  TargetList_add mh tl pkt rt o src mp now = Ok (mh', tl') ->
  tl_list tl' = tl_list tl ++ [mkTarget now rt o pkt src mp].
Proof. unfold TargetList_add. intros H. inv_ok. cbn. by repeat case_goal. Qed.

Lemma mshr_update_np mh m f mh' r :
  mshr_update mh m f = Ok mh' -> heap_np mh !! m = Some r ->
  (forall r, np (f r) = np (f (np r))) -> heap_np mh' = <[m := np (f r)]> (heap_np mh).
Proof.
  unfold mshr_update, mshr_deref. intros H Hr Hf. inv_ok. rewrite heap_np_insert.
  apply heap_np_lookup in Hx. rewrite Hf. congruence.
Qed.

(** * Operations on one register *)

(** A step on register [m] that keeps its place in the queue. *)
Definition reg_step (m : MSHRPtr) (mh mh' : MSHRHeap) : Prop :=
  exists r r', heap_np mh !! m = Some r /\ heap_np mh' = <[m := r']> (heap_np mh) /\
    mshr_inService r' = mshr_inService r /\ (reg_ok r -> reg_ok r').

Lemma add_update mh m r (w : TargetList -> MSHR -> MSHR) tl0 pkt rt o src mp now mh2 :
  (forall tl r, np (w tl r) = np (w tl (np r))) -> mh !! m = Some r ->
  ('(mh1, tl) ← TargetList_add mh tl0 pkt rt o src mp now; mshr_update mh1 m (w tl)) = Ok mh2 ->
  exists tl, heap_np mh2 = <[m := np (w tl r)]> (heap_np mh) /\ tl_len tl = tl_len tl0 + 1.
Proof.
  intros Hw Hr H. apply bind_Ok in H as ([mh1 tl] & Ha & Hu).
  apply TargetList_add_np in Ha as [E1 L1]. exists tl. split; [|done].
  apply heap_np_lookup in Hr. rewrite <- E1 in Hr.
  rewrite (mshr_update_np _ _ _ _ _ Hu Hr (Hw tl)), E1. by rewrite <- Hw.
Qed.

(** Counting one more target. *)
Lemma count_target mh mh2 mh' m r r2 :
  heap_np mh !! m = Some (np r) -> heap_np mh2 = <[m := np r2]> (heap_np mh) ->
  mshr_inService r2 = mshr_inService r -> mshr_ntargets r2 = mshr_ntargets r ->
  tl_len (mshr_targets r2) + tl_len (mshr_deferredTargets r2)
    = tl_len (mshr_targets r) + tl_len (mshr_deferredTargets r) + 1 ->
  mshr_update mh2 m (fun r => with_mshr_ntargets (u16 (mshr_ntargets r + 1)) r) = Ok mh' ->
  reg_step m mh mh'.
Proof.
  intros Hr E2 Hs Hn Hl H.
  assert (heap_np mh2 !! m = Some (np r2)) as Hr2 by (rewrite E2; apply lookup_insert_eq).
  pose proof (mshr_update_np mh2 m _ mh' (np r2) H Hr2 (fun _ => eq_refl)) as E.
  eexists (np r), _. split; [done|]. split; [rewrite E, E2; by rewrite insert_insert_eq|].
  split; [exact Hs|]. unfold reg_ok. cbn. rewrite Hn. intros ->. rewrite u16_add, Hl. done.
Qed.

Lemma allocateTarget_reg_step mh m pkt t o now mh' :
  MSHR_allocateTarget mh m pkt t o now = Ok mh' -> reg_step m mh mh'.
Proof.
  unfold MSHR_allocateTarget, mshr_deref. intros H. inv_ok. apply heap_np_lookup in Hx0 as Hr.
  destruct x1.
  - apply bind_Ok in Hx2 as (pi & _ & Hx2).
    destruct (add_update _ _ _ with_mshr_deferredTargets _ _ _ _ _ _ _ _ (fun _ _ => eq_refl) Hx0 Hx2) as (tl & E & L).
    eapply count_target; [exact Hr | exact E | done | done | cbn; lia | done].
  - destruct (add_update _ _ _ with_mshr_targets _ _ _ _ _ _ _ _ (fun _ _ => eq_refl) Hx0 Hx2) as (tl & E & L).
    eapply count_target; [exact Hr | exact E | done | done | cbn; lia | done].
Qed.

Lemma popTarget_reg_step mh m r r' :
  mh !! m = Some r -> popTarget r = Ok r' -> reg_step m mh (<[m := r']> mh).
Proof.
  intros Hr H. unfold popTarget in H. destruct (tl_list (mshr_targets r)) as [|t l] eqn:Hl; inv_ok.
  apply heap_np_lookup in Hr. eexists _, _. split; [exact Hr|]. split; [apply heap_np_insert|].
  split; [done|]. unfold reg_ok, tl_len. cbn. rewrite Hl. cbn [length]. intros ->.
  change (u16 (u16 (Z.of_nat (S (length l)) + Z.of_nat (length (tl_list (mshr_deferredTargets r)))) + - 1) =
          u16 (Z.of_nat (length l) + Z.of_nat (length (tl_list (mshr_deferredTargets r))))).
  rewrite u16_add. f_equal. lia.
Qed.

Lemma promote_reg_step mh m r now r' b :
  mh !! m = Some r -> promoteDeferredTargets r now = Ok (r', b) -> reg_step m mh (<[m := r']> mh).
Proof.
  intros Hr H. unfold promoteDeferredTargets in H. inv_ok. apply heap_np_lookup in Hr.
  assert (tl_list (mshr_targets r) = []) as Ht by (unfold tl_empty in Hx; by destruct (tl_list _)).
  destruct (tl_list (mshr_deferredTargets r)) eqn:Hd; inv_ok;
    (eexists _, _; split; [exact Hr|]; split; [apply heap_np_insert|]; split; [done|]);
    unfold reg_ok, tl_len; cbn; rewrite ?Ht, ?Hd; cbn [length]; intros ->; f_equal; lia.
Qed.

(** A write to the register that leaves the counts alone. *)
Lemma plain_reg_step mh m r r' :
  heap_np mh !! m = Some (np r) -> mshr_inService r' = mshr_inService r -> mshr_ntargets r' = mshr_ntargets r ->
  tl_len (mshr_targets r') + tl_len (mshr_deferredTargets r')
    = tl_len (mshr_targets r) + tl_len (mshr_deferredTargets r) ->
  forall mh', heap_np mh' = <[m := np r']> (heap_np mh) -> reg_step m mh mh'.
Proof.
  intros Hr Hs Hn Hl mh' E. exists (np r), (np r'). split; [done|]. split; [done|].
  split; [exact Hs|]. unfold reg_ok. cbn. by rewrite Hn, Hl.
Qed.

Lemma reg_step_trans m a b c : reg_step m a b -> reg_step m b c -> reg_step m a c.
Proof.
  intros (r & r' & Hr & E & Hs & Ho) (r1 & r2 & Hr1 & E1 & Hs1 & Ho1).
  assert (r1 = r') as -> by (rewrite E, lookup_insert_eq in Hr1; congruence).
  exists r, r2. split; [done|]. split; [rewrite E1, E; by rewrite insert_insert_eq|].
  split; [congruence | auto].
Qed.

Lemma reg_step_refl m mh r : mh !! m = Some r -> reg_step m mh mh.
Proof.
  intros Hr. apply heap_np_lookup in Hr. exists (np r), (np r). split; [done|].
  split; [|done]. symmetry. by apply insert_id.
Qed.

Lemma mshr_update_reg_step mh m r f mh' :
  mh !! m = Some r -> mshr_update mh m f = Ok mh' ->
  (forall r, mshr_inService (f r) = mshr_inService r /\ mshr_ntargets (f r) = mshr_ntargets r /\
     tl_len (mshr_targets (f r)) + tl_len (mshr_deferredTargets (f r))
     = tl_len (mshr_targets r) + tl_len (mshr_deferredTargets r)) -> reg_step m mh mh'.
Proof.
  intros Hr H Hf. unfold mshr_update, mshr_deref in H. rewrite Hr in H. cbn in H. inv_ok.
  destruct (Hf r) as (A & B & C). apply heap_np_lookup in Hr.
  eapply plain_reg_step; [exact Hr | done | done | done | apply heap_np_insert].
Qed.

Lemma handleFill_reg_step mh m pkt mh' :
  MSHR_handleFill mh m pkt = Ok mh' -> reg_step m mh mh'.
Proof.
  unfold MSHR_handleFill, mshr_deref. intros H. inv_ok. rename Hx into Hr.
  destruct x0; [|inv_ok; by eapply reg_step_refl]. inv_ok.
  eapply reg_step_trans; [eapply mshr_update_reg_step; [exact Hr | eassumption | done]|].
  match goal with HC : TargetList_clearDownstreamPending ?a ?t = Ok ?b,
                  HU : mshr_update ?b m _ = Ok mh' |- reg_step m ?a mh' =>
    pose proof (targets_walk a t) as W; rewrite HC in W; destruct W as [_ W];
    unfold mshr_update, mshr_deref in HU; inv_ok;
    match goal with HB : b !! m = Some ?r |- _ => apply heap_np_lookup in HB; rewrite W in HB;
      eapply plain_reg_step; [exact HB | | | | rewrite heap_np_insert, W; reflexivity]; try done end
  end.
  unfold tl_len. cbn. rewrite length_app. lia.
Qed.

Lemma replaceUpgrades_len tl : tl_len (replaceUpgrades tl) = tl_len tl.
Proof. unfold replaceUpgrades, tl_len. case_goal; [done|]. cbn. by rewrite length_map. Qed.

Lemma reg_step_lookup m a b : reg_step m a b -> exists r', b !! m = Some r'.
Proof.
  intros (r0 & r' & _ & E & _). destruct (b !! m) as [x|] eqn:Hb; [by eauto|].
  assert (heap_np b !! m = Some r') as Hc by (rewrite E; apply lookup_insert_eq).
  unfold heap_np in Hc. rewrite lookup_fmap, Hb in Hc. done.
Qed.

Lemma flag_reg_step m a b c f :
  reg_step m a b -> (forall r, mshr_inService (f r) = mshr_inService r /\ mshr_ntargets (f r) = mshr_ntargets r /\
     tl_len (mshr_targets (f r)) + tl_len (mshr_deferredTargets (f r))
     = tl_len (mshr_targets r) + tl_len (mshr_deferredTargets r)) ->
  mshr_update b m f = Ok c -> reg_step m a c.
Proof.
  intros Hab Hf H. eapply reg_step_trans; [exact Hab|].
  destruct (reg_step_lookup _ _ _ Hab) as [r' Hr']. by eapply mshr_update_reg_step.
Qed.

Lemma handleSnoop_reg_step mh m pkt o now mh' pkt' b :
  MSHR_handleSnoop mh m pkt o now = Ok (mh', pkt', b) -> reg_step m mh mh'.
Proof.
  unfold MSHR_handleSnoop, mshr_deref. intros H. apply bind_Ok in H as (r0 & Hr & H).
  apply of_option_Ok in Hr. case_in H.
  - inv_ok. apply heap_np_lookup in Hr. eapply plain_reg_step; [exact Hr | | | | apply heap_np_insert];
      case_goal; try done. cbn. by rewrite !replaceUpgrades_len.
  - set (r := if needsExclusive pkt then with_mshr_deferredTargets (replaceUpgrades (mshr_deferredTargets r0)) r0
              else r0) in *.
    assert (reg_step m mh (<[m := r]> mh)) as S1.
    { apply heap_np_lookup in Hr. eapply plain_reg_step; [exact Hr | | | | apply heap_np_insert];
        unfold r; case_goal; try done. cbn. by rewrite !replaceUpgrades_len. }
    set (mh1 := <[m := r]> mh) in *. assert (mh1 !! m = Some r) as Hr1 by apply lookup_insert_eq.
    apply bind_Ok in H as (pi & _ & H). destruct pi; [by inv_ok|].
    apply bind_Ok in H as (pd & _ & H). apply bind_Ok in H as ([mh2 pkt2] & H2 & H).
    assert (reg_step m mh mh2) as S2.
    { eapply reg_step_trans; [exact S1|]. case_in H2; [|inv_ok; by eapply reg_step_refl].
      apply bind_Ok in H2 as ([mhA tl] & HA & H2). apply bind_Ok in H2 as (mhB & HB & H2).
      apply bind_Ok in H2 as (mhC & HC & H2). apply bind_Ok in H2 as (mhD & HD & H2). inv_ok.
      destruct (add_update mh1 m r with_mshr_targets _ _ _ _ _ _ _ mhB (fun _ _ => eq_refl) Hr1
        ltac:(rewrite HA; exact HB)) as (tl' & E & L).
      assert (reg_step m mh1 mhC) as SC.
      { apply heap_np_lookup in Hr1.
        eapply count_target; [exact Hr1 | exact E | done | done | cbn; lia | exact HC]. }
      match type of HD with (if ?c then _ else _) = _ => destruct c end; [|by inv_ok].
      eapply flag_reg_step; [exact SC | | exact HD]. done. }
    case_in H; inv_ok; [|done]. eapply flag_reg_step; [exact S2 | | eassumption]. done.
Qed.

(** * The queue *)

Record mq_inv (hp : MSHRHeap) (q : MSHRQueue) : Prop := {
  v_part : mq_allocatedList q ++ mq_freeList q ≡ₚ mq_registers q;
  v_nodup : NoDup (mq_registers q);
  v_regs : forall m, m ∈ mq_registers q -> exists r, hp !! m = Some r /\ reg_ok r;
  v_free : forall m r, m ∈ mq_freeList q -> hp !! m = Some r -> reg_free r;
  v_ready_nodup : NoDup (mq_readyList q);
  v_ready : forall m, m ∈ mq_readyList q <->
    m ∈ mq_allocatedList q /\ exists r, hp !! m = Some r /\ mshr_inService r = false;
  v_count : mq_allocated q = Z.of_nat (length (mq_allocatedList q));
  v_inService : mq_inServiceEntries q
    = Z.of_nat (length (mq_allocatedList q)) - Z.of_nat (length (mq_readyList q));
  v_size : mq_numEntries q = Z.of_nat (length (mq_registers q))
}.

Lemma mq_alloc_not_free hp q m : mq_inv hp q -> m ∈ mq_allocatedList q -> m ∈ mq_freeList q -> False.
Proof.
  intros I Ha Hf. pose proof (v_nodup _ _ I) as Hn. rewrite <- (v_part _ _ I) in Hn.
  apply NoDup_app in Hn as (_ & Hd & _). by apply (Hd m).
Qed.

Lemma mq_alloc_nodup hp q : mq_inv hp q -> NoDup (mq_allocatedList q) /\ NoDup (mq_freeList q).
Proof.
  intros I. pose proof (v_nodup _ _ I) as Hn. rewrite <- (v_part _ _ I) in Hn.
  apply NoDup_app in Hn. tauto.
Qed.

Lemma mq_alloc_reg hp q m : mq_inv hp q -> m ∈ mq_allocatedList q -> m ∈ mq_registers q.
Proof. intros I H. rewrite <- (v_part _ _ I). apply elem_of_app. by left. Qed.

(** Only the flags and the counts of registers matter. *)
Lemma mq_inv_reg_step mh mh' q m :
  mq_inv (heap_np mh) q -> m ∈ mq_allocatedList q -> reg_step m mh mh' -> mq_inv (heap_np mh') q.
Proof.
  intros I Hm (r & r' & Hr & E & Hs & Ho). pose proof I as [P N R F RN RD C SV ZN]. rewrite E.
  constructor; try done.
  - intros x Hx. destruct (decide (x = m)) as [->|Hne].
    + exists r'. rewrite lookup_insert_eq. split; [done|]. destruct (R m Hx) as (r0 & Hr0 & ?).
      apply Ho. congruence.
    + rewrite lookup_insert_ne by done. auto.
  - intros x y Hx. assert (x <> m) by (intros ->; by eapply mq_alloc_not_free).
    rewrite lookup_insert_ne by done. by apply F.
  - intros x. rewrite RD. destruct (decide (x = m)) as [->|Hne].
    + rewrite lookup_insert_eq, Hr. split; intros [? (? & [= <-] & ?)]; split; try done; eexists; split; try done; congruence.
    + by rewrite lookup_insert_ne.
Qed.

Lemma insert_ready_perm mh m t l : forall l', insert_ready mh m t l = Ok l' -> l' ≡ₚ m :: l.
Proof.
  induction l as [|x l IH]; intros l' H; cbn in H; [done|]. inv_ok. case_in H; inv_ok; [done|].
  rewrite (IH _ Hx0). constructor.
Qed.

Lemma addToReadyList_perm mh q m q' :
  addToReadyList mh q m = Ok q' ->
  exists l, q' = with_mq_readyList l q /\ l ≡ₚ m :: mq_readyList q.
Proof.
  unfold addToReadyList. intros H. inv_ok. destruct x0; inv_ok.
  - eexists. split; [done|]. by rewrite Permutation_app_comm.
  - eexists. split; [done|]. by eapply insert_ready_perm.
Qed.

(** The insertion always finds its place: when the last entry is ready later,
    some entry is. *)
Lemma addToReadyList_total mh q m r :
  mh !! m = Some r -> (forall x, x ∈ mq_readyList q -> exists y, mh !! x = Some y) ->
  exists q', addToReadyList mh q m = Ok q'.
Proof.
  intros Hm Hd. unfold addToReadyList, mshr_deref. rewrite Hm. cbn [of_option]. rewrite bind_Ok_l.
  destruct (last (mq_readyList q)) as [b|] eqn:Hl; [|cbn; eauto].
  destruct (Hd b) as [rb Hb]; [by apply last_Some_elem_of|]. rewrite Hb. cbn [of_option]. rewrite !bind_Ok_l.
  destruct (Z.leb_spec (mshr_readyTime rb) (mshr_readyTime r)) as [|Hlt]; [eauto|].
  assert (forall l, last l = Some b -> (forall x, x ∈ l -> exists y, mh !! x = Some y) ->
            exists l', insert_ready mh m (mshr_readyTime r) l = Ok l') as Hins.
  { induction l as [|x l IH]; intros Hll Hdl; [done|]. cbn [insert_ready]. unfold mshr_deref.
    destruct (Hdl x) as [rx Hx]; [left|]. rewrite Hx. cbn [of_option]. rewrite bind_Ok_l.
    destruct (Z.ltb_spec (mshr_readyTime r) (mshr_readyTime rx)) as [|Hge]; [eauto|].
    destruct l as [|y l]; [injection Hll as <-; assert (rx = rb) as -> by congruence; lia|].
    destruct IH as [l' Hl']; [done | intros z Hz; apply Hdl; by right |]. unfold mshr_deref in Hl'. rewrite Hl'. cbn. eauto. }
  destruct (Hins _ Hl Hd) as [l' ->]. cbn. eauto.
Qed.

Lemma erase_Ok m l l' : erase m l = Ok l' -> NoDup l -> m :: l' ≡ₚ l /\ l' = filter (fun x => x <> m) l.
Proof.
  unfold erase. case_decide as Hin; [|done]. intros [= <-] Hn. split; [|done].
  apply list_elem_of_split in Hin as (l1 & l2 & ->).
  apply NoDup_app in Hn as (N1 & D & N2). apply NoDup_cons in N2 as [Nm N2].
  rewrite filter_app, filter_cons_False by naive_solver.
  assert (forall l : list Z, m ∉ l -> filter (fun x => x <> m) l = l) as Hf.
  { induction l as [|x l IH]; intros Hnin; [done|]. apply not_elem_of_cons in Hnin as [Hx Hnin].
    rewrite filter_cons_True by congruence. by rewrite IH. }
  rewrite (Hf l2 Nm), (Hf l1); [apply Permutation_middle|]. intros Hl1. apply (D m Hl1). left.
Qed.

(** A register taken from the free list. *)
Lemma MSHR_allocate_np h mh m addr size pkt t o now mh' r :
  mh !! m = Some r -> reg_ok r -> reg_free r ->
  MSHR_allocate h mh m addr size pkt t o now = Ok mh' ->
  exists r', heap_np mh' = <[m := r']> (heap_np mh) /\ reg_ok r' /\ mshr_inService r' = false /\
    mshr_addr r' = addr /\ mshr_size r' = size /\ mshr_readyTime r' = t /\
    map tgt_pkt (tl_list (mshr_targets r')) = [pkt].
Proof.
  intros Hr Ho [Ft Fn Fi _ _] H. unfold MSHR_allocate, mshr_deref in H.
  rewrite Hr in H. cbn [of_option] in H. rewrite bind_Ok_l in H. cbv zeta in H. inv_ok.
  set (r1 := with_mshr_ntargets 1 _) in *.
  match goal with HA : TargetList_add _ _ _ _ _ _ _ _ = Ok (?a, ?tl), HU : mshr_update ?a m _ = Ok mh' |- _ =>
    pose proof (TargetList_add_list _ _ _ _ _ _ _ _ _ _ HA) as HL; apply TargetList_add_np in HA as [E1 _];
    rewrite heap_np_insert in E1;
    assert (heap_np a !! m = Some (np r1)) as Hr1 by (rewrite E1; apply lookup_insert_eq);
    pose proof (mshr_update_np a m _ mh' (np r1) HU Hr1 (fun _ => eq_refl)) as E2 end.
  rewrite E1, insert_insert_eq in E2. eexists. split; [exact E2|].
  cbn in HL. unfold reg_ok, tl_len in *. cbn. rewrite HL. rewrite Ft, Fn in *. cbn [app length map tgt_pkt] in *.
  split_and!; try done.
  rewrite Z.add_0_l in Ho. rewrite Z.add_comm, <- u16_add, <- Ho. done.
Qed.

Lemma reg_free_np r : reg_free (np r) -> reg_free r.
Proof. intros []. by constructor. Qed.

Lemma mq_inv_allocate h mh q addr size pkt t o now mh' q' m :
  mq_inv (heap_np mh) q -> MSHRQueue_allocate h mh q addr size pkt t o now = Ok (mh', q', m) ->
  mq_inv (heap_np mh') q'.
Proof.
  intros I H. unfold MSHRQueue_allocate in H. destruct (mq_freeList q) as [|m0 free] eqn:Hf; [done|].
  apply bind_Ok in H as (r & Hx & H). apply bind_Ok in H as ([] & _ & H).
  apply bind_Ok in H as (mhA & Hx1 & H). apply bind_Ok in H as (qA & HQ & H).
  unfold mshr_deref in Hx. apply of_option_Ok in Hx. injection H as <- <- ->.
  pose proof I as [P N R F RN RD C SV ZN]. destruct (mq_alloc_nodup _ _ I) as [NA NF].
  rewrite Hf in *. apply NoDup_cons in NF as [Nm NF].
  assert (m ∉ mq_allocatedList q) as Hna by (intros Ha; eapply (mq_alloc_not_free _ q m); [done..|rewrite Hf; left]).
  assert (heap_np mh !! m = Some (np r)) as Hr by (by apply heap_np_lookup).
  assert (m ∈ mq_registers q) as Hreg by (rewrite <- P; set_solver).
  destruct (R m Hreg) as (r0 & Hr0 & Hok). assert (r0 = np r) as -> by congruence.
  destruct (MSHR_allocate_np _ _ _ _ _ _ _ _ _ _ _ Hx Hok (reg_free_np _ (F m _ ltac:(left) Hr)) Hx1)
    as (r' & E & Ho & Hi & _).
  match goal with HR : addToReadyList _ _ _ = Ok _ |- _ => apply addToReadyList_perm in HR as (l & -> & Hl) end.
  cbn in Hl. rewrite E. constructor; cbn; try done.
  - rewrite <- P. rewrite <- app_assoc. apply Permutation_app_head. done.
  - intros x Hxr. destruct (decide (x = m)) as [->|Hne]; [rewrite lookup_insert_eq; eauto|].
    rewrite lookup_insert_ne by done. auto.
  - intros x y Hxf. rewrite lookup_insert_ne by (by intros ->). apply F. by right.
  - rewrite Hl. apply NoDup_cons. split; [|done]. rewrite RD. tauto.
  - intros x. rewrite Hl, elem_of_cons, RD, elem_of_app, list_elem_of_singleton.
    destruct (decide (x = m)) as [->|Hne]; [rewrite lookup_insert_eq; naive_solver|].
    rewrite lookup_insert_ne by done. naive_solver.
  - rewrite length_app, C. cbn. lia.
  - rewrite Hl, SV, length_app. cbn. lia.
Qed.

Lemma mq_inv_deallocateOne mh q m mh' q' :
  mq_inv (heap_np mh) q -> deallocateOne mh q m = Ok (mh', q') -> mq_inv (heap_np mh') q'.
Proof.
  intros I H. unfold deallocateOne in H. apply bind_Ok in H as (al & Hx & H). cbv zeta in H.
  apply bind_Ok in H as (r & Hx0 & H). apply bind_Ok in H as (q1 & Hx1 & H).
  apply bind_Ok in H as (r2 & Hx2 & H). unfold mshr_deref in Hx0. apply of_option_Ok in Hx0.
  injection H as <- <-.
  pose proof I as [P N R F RN RD C SV ZN]. destruct (mq_alloc_nodup _ _ I) as [NA NF].
  destruct (erase_Ok _ _ _ Hx NA) as [Pa _].
  assert (m ∈ mq_allocatedList q) as Hma by (rewrite <- Pa; left).
  assert (m ∉ al) as Hmal by (rewrite <- Pa in NA; by apply NoDup_cons in NA as [? _]).
  assert (heap_np mh !! m = Some (np r)) as Hr by (by apply heap_np_lookup).
  destruct (R m (mq_alloc_reg _ _ _ I Hma)) as (r0 & Hr0 & Hok). assert (r0 = np r) as -> by congruence.
  unfold MSHR_deallocate in Hx2. inv_ok.
  assert (tl_list (mshr_targets r) = []) as Ht
    by (match goal with HE : tl_empty _ = true |- _ => unfold tl_empty in HE; by destruct (tl_list (mshr_targets r)) end).
  assert (mshr_ntargets r = 0) as Hn by (zb; done).
  assert (exists rl, mq_readyList q1 = rl /\ NoDup rl /\ (forall x, x ∈ rl <-> x ∈ mq_readyList q /\ x <> m) /\
            mq_inServiceEntries q1 = Z.of_nat (length al) - Z.of_nat (length rl) /\
            q1 = with_mq_inServiceEntries (mq_inServiceEntries q1) (with_mq_readyList rl
                   (with_mq_allocated (mq_allocated q - 1)
                     (with_mq_freeList (m :: mq_freeList q) (with_mq_allocatedList al q)))))
    as (rl & Hrl & RN' & RD' & S' & Hq1).
  { apply Permutation_length in Pa as La. cbn in La. destruct (mshr_inService r) eqn:Hi; inv_ok; cbn.
    - exists (mq_readyList q). split_and!; [done | done | | rewrite SV; lia | by destruct q].
      intros x. split; [|tauto]. intros Hxr. split; [done|]. intros ->.
      apply RD in Hxr as [_ (r0 & Hr0' & Hi')]. rewrite Hr in Hr0'. injection Hr0' as <-. cbn in Hi'. congruence.
    - match goal with HE : erase _ _ = Ok ?rl |- _ => destruct (erase_Ok _ _ _ HE RN) as [Pr Fr]; exists rl end.
      apply Permutation_length in Pr as Lr. cbn in Lr. split_and!; [done | | | rewrite SV; lia | done].
      + rewrite <- Pr in RN. by apply NoDup_cons in RN as [_ ?].
      + intros y. rewrite Fr. rewrite list_elem_of_filter. tauto. }
  rewrite heap_np_insert. rewrite Hq1. constructor; cbn; try done.
  - rewrite <- P, <- Pa. cbn. apply Permutation_sym, Permutation_middle.
  - intros x Hxr. destruct (decide (x = m)) as [->|Hne]; [rewrite lookup_insert_eq|rewrite lookup_insert_ne by done; auto].
    eexists. split; [done|]. unfold reg_ok, tl_len in *. cbn in *. by rewrite Ht in *.
  - intros x y [->|Hxf]%elem_of_cons.
    + rewrite lookup_insert_eq. intros [= <-]. by constructor; cbn.
    + rewrite lookup_insert_ne; [by apply F|]. intros <-. by eapply mq_alloc_not_free.
  - intros x. rewrite RD', RD. destruct (decide (x = m)) as [->|Hne]; [naive_solver|].
    rewrite lookup_insert_ne by done. assert (x ∈ al <-> x ∈ mq_allocatedList q) as ->; [|tauto].
    rewrite <- Pa, elem_of_cons. naive_solver.
  - rewrite C, <- Pa. cbn. lia.
Qed.

(** A register that changes sides between ready and in service. *)
Lemma mq_inv_service mh mh' q m r r' rl n b :
  mq_inv (heap_np mh) q -> m ∈ mq_allocatedList q -> heap_np mh !! m = Some r ->
  heap_np mh' = <[m := r']> (heap_np mh) -> (reg_ok r -> reg_ok r') ->
  mshr_inService r' = b -> NoDup rl ->
  (forall x, x ∈ rl <-> (if b then x ∈ mq_readyList q /\ x <> m else x = m \/ x ∈ mq_readyList q)) ->
  n = Z.of_nat (length (mq_allocatedList q)) - Z.of_nat (length rl) ->
  mq_inv (heap_np mh') (with_mq_inServiceEntries n (with_mq_readyList rl q)).
Proof.
  intros I Hm Hr E Ho Hb HN HR Hn. pose proof I as [P N R F RN RD C SV ZN]. rewrite E.
  constructor; cbn; try done.
  - intros x Hx. destruct (decide (x = m)) as [->|Hne]; [|rewrite lookup_insert_ne by done; auto].
    exists r'. rewrite lookup_insert_eq. split; [done|]. destruct (R m Hx) as (r0 & Hr0 & ?).
    apply Ho. congruence.
  - intros x y Hx. assert (x <> m) by (intros ->; by eapply mq_alloc_not_free).
    rewrite lookup_insert_ne by done. by apply F.
  - intros x. rewrite HR. destruct (decide (x = m)) as [->|Hne].
    + rewrite lookup_insert_eq. destruct b.
      * split; [by intros [_ []]|]. intros [_ (r0 & [= <-] & Hf)]. congruence.
      * split; [eauto | by left].
    + rewrite lookup_insert_ne by done. destruct b; rewrite RD; tauto.
Qed.

Lemma MSHR_markInService_np mh m op mh' b :
  MSHR_markInService mh m op = Ok (mh', b) ->
  exists r r', mh !! m = Some r /\ heap_np mh' = <[m := np r']> (heap_np mh) /\ (reg_ok r -> reg_ok r') /\
    mshr_inService r = false /\ mshr_inService r' = negb b.
Proof.
  unfold MSHR_markInService, mshr_deref. intros H. apply bind_Ok in H as (r & Hr & H).
  apply of_option_Ok in Hr. apply bind_Ok in H as ([] & Hs & H). apply cassert_Ok, negb_true_iff in Hs.
  apply bind_Ok in H as (fnr & _ & H). exists r. destruct fnr; inv_ok.
  - match goal with HP : popTarget r = Ok ?r1 |- _ =>
      pose proof (popTarget_reg_step _ _ _ _ Hr HP) as (r0 & r2 & Hr0 & E & Hi & Ho); exists r1 end.
    rewrite (heap_np_lookup _ _ _ Hr) in Hr0. injection Hr0 as <-. rewrite heap_np_insert in *.
    split_and!; [done | done | | done |].
    + intros Hok. specialize (Ho Hok). apply (f_equal (lookup m)) in E.
      rewrite !lookup_insert_eq in E. injection E as <-. exact Ho.
    + apply (f_equal (lookup m)) in E. rewrite !lookup_insert_eq in E. injection E as <-.
      cbn in Hi |- *. congruence.
  - match goal with HD : (if negb (mshr_downstreamPending ?r1) then _ else _) = Ok _ |- _ => exists r1 end.
    split_and!; [done | | done | done | done].
    match goal with HD : (if ?c then TargetList_clearDownstreamPending ?a ?t else _) = Ok _ |- _ =>
      rewrite <- heap_np_insert; destruct c; [|by inv_ok];
      pose proof (targets_walk a t) as W; rewrite HD in W; apply W end.
Qed.

Lemma mq_inv_markInService mh q m op mh' q' :
  mq_inv (heap_np mh) q -> MSHRQueue_markInService mh q m op = Ok (mh', q') -> mq_inv (heap_np mh') q'.
Proof.
  intros I H. unfold MSHRQueue_markInService in H. apply bind_Ok in H as ([mh1 b] & HM & H).
  destruct (MSHR_markInService_np _ _ _ _ _ HM) as (r & r' & Hr & E & Ho & Hi & Hi').
  apply heap_np_lookup in Hr. destruct b.
  - assert (m ∈ mq_allocatedList q) as Hm.
    { unfold MSHRQueue_deallocate, deallocateOne, erase in H. by case_decide. }
    eapply mq_inv_deallocateOne; [|exact H]. eapply mq_inv_reg_step; [exact I | exact Hm |].
    exists (np r), (np r'). split_and!; [done | done | | exact Ho]. cbn in *. congruence.
  - apply bind_Ok in H as (rl & HE & H). injection H as <- <-.
    destruct (erase_Ok _ _ _ HE (v_ready_nodup _ _ I)) as [Pr Fr].
    assert (m ∈ mq_readyList q) as Hm by (rewrite <- Pr; left). apply (v_ready _ _ I) in Hm as [Hm _].
    pose proof (v_ready_nodup _ _ I) as RN. rewrite <- Pr in RN. apply NoDup_cons in RN as [_ RN].
    apply (mq_inv_service mh mh1 q m (np r) (np r') rl (mq_inServiceEntries q + 1) true); try done.
    + intros x. rewrite Fr, list_elem_of_filter. tauto.
    + rewrite (v_inService _ _ I). apply Permutation_length in Pr. cbn in Pr. lia.
Qed.

Lemma mq_inv_markPending mh q m mh' q' :
  mq_inv (heap_np mh) q -> m ∈ mq_allocatedList q -> markPending mh q m = Ok (mh', q') ->
  mq_inv (heap_np mh') q'.
Proof.
  intros I Hm H. unfold markPending, mshr_deref in H. apply bind_Ok in H as (r & Hr & H).
  apply of_option_Ok in Hr. apply bind_Ok in H as ([] & Hs & H). apply cassert_Ok in Hs.
  apply bind_Ok in H as (q1 & HA & H). injection H as <- <-. apply heap_np_lookup in Hr.
  apply addToReadyList_perm in HA as (l & -> & Hl). cbn in Hl.
  assert (m ∉ mq_readyList q) as Hnr.
  { rewrite (v_ready _ _ I). intros [_ (r0 & Hr0 & Hi)]. rewrite Hr in Hr0. injection Hr0 as <-.
    cbn in Hi. congruence. }
  apply (mq_inv_service mh _ q m (np r) (np (with_mshr_inService false r)) l
           (mq_inServiceEntries q - 1) false); try done.
  - apply heap_np_insert.
  - rewrite Hl. apply NoDup_cons. split; [done | apply I].
  - intros x. rewrite Hl, elem_of_cons. done.
  - rewrite (v_inService _ _ I), Hl. cbn. lia.
Qed.

Lemma mq_inv_moveToFront mh q m q' :
  mq_inv (heap_np mh) q -> moveToFront mh q m = Ok q' -> mq_inv (heap_np mh) q'.
Proof.
  intros I H. unfold moveToFront in H. apply bind_Ok in H as (r & _ & H). case_in H; [|by inv_ok].
  apply bind_Ok in H as (rl & HE & H). injection H as <-.
  destruct (erase_Ok _ _ _ HE (v_ready_nodup _ _ I)) as [Pr _].
  pose proof I as [P N R F RN RD C SV ZN]. constructor; cbn; try done.
  - by rewrite Pr.
  - intros x. rewrite <- RD, <- Pr. done.
  - rewrite SV. apply Permutation_length in Pr. cbn in *. lia.
Qed.

(** * The queue as a state machine *)

(** The calls the cache makes: on the queue, or on a register the queue has
    allocated. *)
Inductive mq_step (h : ReqHeap) : MSHRHeap * MSHRQueue -> MSHRHeap * MSHRQueue -> Prop :=
  | mq_allocate mh q addr size pkt t o now mh' q' m :
      MSHRQueue_allocate h mh q addr size pkt t o now = Ok (mh', q', m) ->
      mq_step h (mh, q) (mh', q')
  | mq_deallocate mh q m mh' q' :
      MSHRQueue_deallocate mh q m = Ok (mh', q') -> mq_step h (mh, q) (mh', q')
  | mq_markInService mh q m op mh' q' :
      MSHRQueue_markInService mh q m op = Ok (mh', q') -> mq_step h (mh, q) (mh', q')
  | mq_markPending mh q m mh' q' :
      m ∈ mq_allocatedList q -> markPending mh q m = Ok (mh', q') -> mq_step h (mh, q) (mh', q')
  | mq_moveToFront mh q m q' :
      moveToFront mh q m = Ok q' -> mq_step h (mh, q) (mh, q')
  | mq_allocateTarget mh q m pkt t o now mh' :
      m ∈ mq_allocatedList q -> MSHR_allocateTarget mh m pkt t o now = Ok mh' ->
      mq_step h (mh, q) (mh', q)
  | mq_popTarget mh q m r r' :
      m ∈ mq_allocatedList q -> mh !! m = Some r -> popTarget r = Ok r' ->
      mq_step h (mh, q) (<[m := r']> mh, q)
  | mq_promote mh q m r r' now b :
      m ∈ mq_allocatedList q -> mh !! m = Some r -> promoteDeferredTargets r now = Ok (r', b) ->
      mq_step h (mh, q) (<[m := r']> mh, q)
  | mq_handleFill mh q m pkt mh' :
      m ∈ mq_allocatedList q -> MSHR_handleFill mh m pkt = Ok mh' -> mq_step h (mh, q) (mh', q)
  | mq_handleSnoop mh q m pkt o now mh' pkt' b :
      m ∈ mq_allocatedList q -> MSHR_handleSnoop mh m pkt o now = Ok (mh', pkt', b) ->
      mq_step h (mh, q) (mh', q).

Lemma mq_step_inv h a b : mq_step h a b -> mq_inv (heap_np a.1) a.2 -> mq_inv (heap_np b.1) b.2.
Proof.
  intros Hs I. destruct Hs; cbn in *.
  - by eapply mq_inv_allocate.
  - by eapply mq_inv_deallocateOne.
  - by eapply mq_inv_markInService.
  - by eapply mq_inv_markPending.
  - by eapply mq_inv_moveToFront.
  - eapply mq_inv_reg_step; [done..|]. by eapply allocateTarget_reg_step.
  - eapply mq_inv_reg_step; [done..|]. by eapply popTarget_reg_step.
  - eapply mq_inv_reg_step; [done..|]. by eapply promote_reg_step.
  - eapply mq_inv_reg_step; [done..|]. by eapply handleFill_reg_step.
  - eapply mq_inv_reg_step; [done..|]. by eapply handleSnoop_reg_step.
Qed.

Lemma alloc_registers_lookup base n self mh m :
  base <= m < base + n -> alloc_registers base n self mh !! m = Some (MSHR_new self).
Proof.
  intros Hm. unfold alloc_registers. assert (m ∈ seqZ base n) as Hin by (apply elem_of_seqZ; lia).
  induction (seqZ base n) as [|x l IH]; [by apply elem_of_nil in Hin|]. cbn.
  destruct (decide (x = m)) as [->|Hne]; [apply lookup_insert_eq|]. rewrite lookup_insert_ne by done.
  apply IH. by apply elem_of_cons in Hin as [?|?].
Qed.

Lemma MSHRQueue_new_inv mh base self n reserve ix mh' q :
  1 <= n + reserve -> MSHRQueue_new mh base self n reserve ix = (mh', q) -> mq_inv (heap_np mh') q.
Proof.
  intros Hn [= <- <-].
  assert (forall m, m ∈ seqZ base (n + reserve - 1) ->
    heap_np (alloc_registers base (n + reserve - 1) self mh) !! m = Some (MSHR_new self)) as HR.
  { intros m Hm%elem_of_seqZ. erewrite heap_np_lookup; [|apply alloc_registers_lookup; lia]. done. }
  constructor; cbn; try done.
  - apply NoDup_ListNoDup, NoDup_ListNoDup, NoDup_seqZ.
  - intros m Hm. exists (MSHR_new self). split; [by apply HR | done].
  - intros m r Hm. rewrite HR by done. intros [= <-]. by constructor.
  - constructor.
  - intros m. split; [by intros ?%elem_of_nil | by intros [?%elem_of_nil _]].
  - rewrite length_seqZ. lia.
Qed.

(** States the cache can bring a new queue to. *)
Definition mq_reachable (h : ReqHeap) (st : MSHRHeap * MSHRQueue) : Prop :=
  exists mh base self n reserve ix,
    1 <= n + reserve /\ rtc (mq_step h) (MSHRQueue_new mh base self n reserve ix) st.

Lemma mq_reachable_inv h st : mq_reachable h st -> mq_inv (heap_np st.1) st.2.
Proof.
  intros (mh & base & self & n & res & ix & Hn & H).
  destruct (MSHRQueue_new mh base self n res ix) as [mh0 q0] eqn:E0.
  apply MSHRQueue_new_inv in E0; [|done]. change (mq_inv (heap_np (mh0, q0).1) (mh0, q0).2) in E0.
  induction H as [st|a b c Hs H IH]; [done|]. apply IH. by eapply mq_step_inv.
Qed.

(** C24. The bookkeeping of a miss queue, in every state reachable through
    its operations and those of its registers: the allocated and the free list
    are disjoint and together are all registers; [allocated] and
    [inServiceEntries] count what they say; the ready list holds, once each,
    exactly the allocated registers that are not in service; free registers have
    no targets; every register's [ntargets] is the number of its targets and
    deferred targets (as an unsigned short). *)
Theorem mshr_queue_invariant h mh q : mq_reachable h (mh, q) -> mq_inv (heap_np mh) q.
Proof. apply (mq_reachable_inv h (mh, q)). Qed.

Lemma MSHR_allocate_total h mh m addr size pkt t o now r rq :
  mh !! m = Some r -> reg_free r -> h !! pkt_req pkt = Some rq ->
  (forall u, pkt_senderState pkt <> SS_MSHR u) ->
  exists mh', MSHR_allocate h mh m addr size pkt t o now = Ok mh'.
Proof.
  intros Hr [_ _ _ Ht Hd] Hrq Hss. unfold MSHR_allocate, mshr_deref, req_deref.
  rewrite Hr, Hrq. cbn [of_option]. rewrite !bind_Ok_l. cbv zeta.
  match goal with |- context [isReset (mshr_targets ?x)] =>
    change (isReset (mshr_targets x)) with (isReset (mshr_targets r)) end.
  match goal with |- context [isReset (mshr_deferredTargets ?x)] =>
    change (isReset (mshr_deferredTargets x)) with (isReset (mshr_deferredTargets r)) end.
  rewrite Ht, Hd. cbn [cassert]. rewrite bind_Ok_l. unfold TargetList_add.
  assert (forall mh0 : MSHRHeap, mark_upstream mh0 pkt = Ok mh0) as HM.
  { intros mh0. unfold mark_upstream. destruct (pkt_senderState pkt) eqn:E; try done. by destruct (Hss mshr). }
  rewrite HM, !bind_Ok_l.
  unfold mshr_update, mshr_deref. rewrite lookup_insert_eq. cbn. eauto.
Qed.

(** A queue with a reserve that does not call itself full has a free
    register, and [allocate] gets as far as filling it: for a request it can
    read and a packet that no upstream register waits on, it returns. *)
Theorem not_full_allocates h mh q addr size pkt t o now rq :
  mq_reachable h (mh, q) -> 1 <= mq_numReserve q -> isFull q = false ->
  h !! pkt_req pkt = Some rq -> (forall u, pkt_senderState pkt <> SS_MSHR u) ->
  exists mh' q' m, MSHRQueue_allocate h mh q addr size pkt t o now = Ok (mh', q', m) /\
    mq_allocated q' = mq_allocated q + 1.
Proof.
  intros Hreach Hres Hfull Hrq Hss. pose proof (mq_reachable_inv _ _ Hreach) as I. cbn in I.
  pose proof I as [P N R F RN RD C SV ZN].
  unfold isFull in Hfull. zb. destruct (mq_freeList q) as [|m free] eqn:Hf.
  { rewrite app_nil_r in P. apply Permutation_length in P. lia. }
  assert (m ∈ mq_registers q) as Hm by (rewrite <- P; set_solver).
  destruct (R m Hm) as (r0 & Hr0 & Hok). pose proof (F m r0 ltac:(left) Hr0) as Hfree.
  apply heap_np_lookup_inv in Hr0 as (r & Hr & ->). apply reg_free_np in Hfree.
  unfold MSHRQueue_allocate. rewrite Hf. unfold mshr_deref. rewrite Hr. cbn [of_option]. rewrite bind_Ok_l.
  unfold getNumTargets. rewrite (rf_ntargets _ Hfree). cbn [Z.eqb cassert]. rewrite bind_Ok_l. cbv zeta.
  destruct (MSHR_allocate_total h mh m addr size pkt t o now r rq Hr Hfree Hrq Hss) as [mh1 HA].
  rewrite HA, bind_Ok_l.
  destruct (MSHR_allocate_np _ _ _ _ _ _ _ _ _ _ _ Hr Hok Hfree HA) as (r' & E & _).
  assert (forall x, x ∈ mq_registers q -> exists y, mh1 !! x = Some y) as Hall.
  { intros x Hx. destruct (R x Hx) as (y & Hy & _).
    assert (is_Some (heap_np mh1 !! x)) as Hs.
    { rewrite E. destruct (decide (x = m)) as [->|Hne]; [rewrite lookup_insert_eq; eauto|].
      rewrite lookup_insert_ne by done. eauto. }
    destruct Hs as [z Hz]. apply heap_np_lookup_inv in Hz as (z0 & ? & _). eauto. }
  destruct (Hall m Hm) as [rm Hrm].
  destruct (addToReadyList_total mh1 (with_mq_allocatedList
    (mq_allocatedList (with_mq_freeList free q) ++ [m]) (with_mq_freeList free q)) m rm Hrm) as [q1 HQ].
  { cbn. intros x Hx. apply Hall. apply RD in Hx as [Hx _]. by eapply mq_alloc_reg. }
  rewrite HQ, bind_Ok_l. eexists _, _, _. split; [reflexivity|].
  apply addToReadyList_perm in HQ as (l & -> & _). done.
Qed.

(** * Witnesses: a queue of five registers with one miss outstanding *)

Definition one_request : ReqHeap := {[ 0 := mkRequest 0x40 8 0 0 0 0 0 0 0 0 0 0 ]}.
Definition miss_packet : Packet := Packet_blank 0 ReadReq 0 0.
Definition five_registers : MSHRHeap * MSHRQueue := MSHRQueue_new ∅ 100 0 4 2 0.
Definition one_miss : MSHRHeap * MSHRQueue :=
  match MSHRQueue_allocate one_request five_registers.1 five_registers.2 0x40 64 miss_packet 7 0 0 with
  | Ok (mh, q, _) => (mh, q)
  | Err _ => five_registers
  end.

Lemma one_miss_reachable : mq_reachable one_request (one_miss.1, one_miss.2).
Proof.
  exists ∅, 100, 0, 4, 2, 0. split; [done|]. eapply rtc_l; [|apply rtc_refl].
  eapply (mq_allocate one_request five_registers.1 five_registers.2 0x40 64 miss_packet 7 0 0).
  vm_compute. reflexivity.
Qed.

Lemma mshr_queue_invariant_witness :
  mq_inv (heap_np one_miss.1) one_miss.2 /\ mq_allocatedList one_miss.2 = [100].
Proof.
  split; [|vm_compute; reflexivity].
  exact (mshr_queue_invariant one_request one_miss.1 one_miss.2 one_miss_reachable).
Defined.

Lemma not_full_allocates_witness :
  exists mh' q' m, MSHRQueue_allocate one_request one_miss.1 one_miss.2 0x80 64 miss_packet 5 1 2
                   = Ok (mh', q', m) /\ mq_allocated q' = 2.
Proof.
  destruct (not_full_allocates one_request one_miss.1 one_miss.2 0x80 64 miss_packet 5 1 2
              (mkRequest 0x40 8 0 0 0 0 0 0 0 0 0 0) one_miss_reachable)
    as (mh' & q' & m & H & Hc); [vm_compute; congruence | vm_compute; reflexivity.. | |].
  - intros u. vm_compute. discriminate.
  - exists mh', q', m. split; [exact H|]. rewrite Hc. vm_compute. reflexivity.
Defined.
