(* ===== verification/PacketQueue.v ===== *)
(** The transmit queue of a queued port: mem/packet_queue.hh and
    packet_queue.cc.  The send event is the tick it is scheduled for, if it
    is; the far end of the port ([sendTiming]) is a parameter, which may
    come back to the queue before it answers. *)

From Stdlib Require Import Sorted.
From S2P Require Import Prelude Request MemCmd Packet.

(** * Events: [EventQueue::schedule] and [reschedule] of sim/eventq.hh, as
    they bear on one event *)

Definition ev_schedule (curTick when : Z) (ev : option Z) : result (option Z) :=
  cassert (curTick <=? when) ;;
  cassert (match ev with None => true | Some _ => false end) ;;
  Ok (Some when).

Definition ev_reschedule (curTick when : Z) (ev : option Z) : result (option Z) :=
  cassert (curTick <=? when) ;;
  cassert (match ev with None => false | Some _ => true end) ;;
  Ok (Some when).

Definition scheduled (ev : option Z) : bool :=
  match ev with Some _ => true | None => false end.

(** * The queue *)

Record DeferredPacket := mkDeferredPacket {
  dp_tick : Z;
  dp_pkt : Packet;
  dp_sendAsSnoop : bool
}.

Definition with_dp_tick (v : Z) (r : DeferredPacket) : DeferredPacket :=
  mkDeferredPacket v (dp_pkt r) (dp_sendAsSnoop r).
Definition with_dp_pkt (v : Packet) (r : DeferredPacket) : DeferredPacket :=
  mkDeferredPacket (dp_tick r) v (dp_sendAsSnoop r).
Definition with_dp_sendAsSnoop (v : bool) (r : DeferredPacket) : DeferredPacket :=
  mkDeferredPacket (dp_tick r) (dp_pkt r) v.

Record PacketQueue := mkPacketQueue {
  pq_transmitList : list DeferredPacket;
  pq_sendEvent : option Z;
  pq_drainEvent : option Z;
  pq_ID : Z;
  pq_waitingOnRetry : bool
}.

Definition with_pq_transmitList (v : list DeferredPacket) (r : PacketQueue) : PacketQueue :=
  mkPacketQueue v (pq_sendEvent r) (pq_drainEvent r) (pq_ID r)
    (pq_waitingOnRetry r).
Definition with_pq_sendEvent (v : option Z) (r : PacketQueue) : PacketQueue :=
  mkPacketQueue (pq_transmitList r) v (pq_drainEvent r) (pq_ID r)
    (pq_waitingOnRetry r).
Definition with_pq_drainEvent (v : option Z) (r : PacketQueue) : PacketQueue :=
  mkPacketQueue (pq_transmitList r) (pq_sendEvent r) v (pq_ID r)
    (pq_waitingOnRetry r).
Definition with_pq_ID (v : Z) (r : PacketQueue) : PacketQueue :=
  mkPacketQueue (pq_transmitList r) (pq_sendEvent r) (pq_drainEvent r) v
    (pq_waitingOnRetry r).
Definition with_pq_waitingOnRetry (v : bool) (r : PacketQueue) : PacketQueue :=
  mkPacketQueue (pq_transmitList r) (pq_sendEvent r) (pq_drainEvent r)
    (pq_ID r) v.

Definition PacketQueue_new (ID : Z) : PacketQueue := mkPacketQueue [] None None ID false.

(** [PacketQueue::checkFunctional] *)
Fixpoint check_deferred (pkt : Packet) (l : list DeferredPacket)
    : result (bool * Packet * list DeferredPacket) :=
  match l with
  | [] => Ok (false, pkt, [])
  | d :: l' =>
      '(found, pkt, other) ← (checkFunctional_pkt pkt (dp_pkt d)
                              : result (bool * Packet * Packet));
      let d := with_dp_pkt other d in
      if (found : bool) then Ok (true, pkt, d :: l')
      else '(found, pkt, l') ← check_deferred pkt l'; Ok (found, pkt, d :: l')
  end.
Definition PacketQueue_checkFunctional (pkt : Packet) (pq : PacketQueue)
    : result (bool * Packet * PacketQueue) :=
  '(found, pkt, l) ← check_deferred pkt (pq_transmitList pq);
  Ok (found, pkt, with_pq_transmitList l pq).

Definition deferredPacketReady (curTick : Z) (pq : PacketQueue) : bool :=
  match pq_transmitList pq with [] => false | d :: _ => dp_tick d <=? curTick end.

Definition deferredPacketReadyTime (pq : PacketQueue) : Z :=
  match pq_transmitList pq with [] => MaxTick | d :: _ => dp_tick d end.

(** [schedSendEvent] *)
Definition schedSendEvent (curTick when : Z) (pq : PacketQueue) : result PacketQueue :=
  if pq_waitingOnRetry pq then
    cassert (negb (scheduled (pq_sendEvent pq))) ;; Ok pq
  else
    match pq_sendEvent pq with
    | None => ev ← ev_schedule curTick when None; Ok (with_pq_sendEvent ev pq)
    | Some t =>
        if when <? t then
          ev ← ev_reschedule curTick when (Some t); Ok (with_pq_sendEvent ev pq)
        else Ok pq
    end.

(** The insertion sort of [schedSendTiming]: skip the entries that are not
    later. *)
Fixpoint insert_deferred (d : DeferredPacket) (l : list DeferredPacket)
    : list DeferredPacket :=
  match l with
  | [] => [d]
  | x :: l' => if dp_tick x <=? dp_tick d then x :: insert_deferred d l' else d :: l
  end.

Definition schedSendTiming (curTick : Z) (pkt : Packet) (when : Z) (send_as_snoop : bool)
    (pq : PacketQueue) : result PacketQueue :=
  cassert (curTick <=? when) ;;
  cassert (negb (isExpressSnoop pkt)) ;;
  let d := mkDeferredPacket when pkt send_as_snoop in
  match pq_transmitList pq with
  | [] => schedSendEvent curTick when (with_pq_transmitList [d] pq)
  | front :: rest =>
      if when <? dp_tick front then
        schedSendEvent curTick when (with_pq_transmitList (d :: front :: rest) pq)
      else
        back ← of_option OutOfBounds (last (front :: rest));
        if dp_tick back <=? when then
          Ok (with_pq_transmitList ((front :: rest) ++ [d]) pq)
        else Ok (with_pq_transmitList (front :: insert_deferred d rest) pq)
  end.

(** [scheduleSend]: the second component is the drain event processed, if
    the queue has finished draining. *)
Definition scheduleSend (curTick time : Z) (pq : PacketQueue)
    : result (PacketQueue * option Z) :=
  let nextReady := Z.min (deferredPacketReadyTime pq) time in
  if negb (nextReady =? MaxTick) then
    if negb (scheduled (pq_sendEvent pq)) then
      ev ← ev_schedule curTick (Z.max nextReady (curTick + 1)) (pq_sendEvent pq);
      Ok (with_pq_sendEvent ev pq, None)
    else Ok (pq, None)
  else
    match pq_drainEvent pq, pq_transmitList pq, pq_sendEvent pq with
    | Some de, [], None => Ok (with_pq_drainEvent None pq, Some de)
    | _, _, _ => Ok (pq, None)
    end.

(** [drain] *)
Definition PacketQueue_drain (de : Z) (pq : PacketQueue) : PacketQueue * Z :=
  match pq_transmitList pq, pq_sendEvent pq with
  | [], None => (pq, 0)
  | _, _ => (with_pq_drainEvent (Some de) pq, 1)
  end.

Section Sending.

(** [sendTiming] of the port behind the queue: the queue afterwards (the
    far end may have called it back) and whether the packet was accepted. *)
Variable sendTiming : Packet -> bool -> PacketQueue -> result (PacketQueue * bool).

Definition trySendTiming (curTick : Z) (pq : PacketQueue) : result PacketQueue :=
  cassert (deferredPacketReady curTick pq) ;;
  match pq_transmitList pq with
  | [] => Err OutOfBounds
  | dp :: rest =>
      '(pq, accepted) ← (sendTiming (dp_pkt dp) (dp_sendAsSnoop dp)
                           (with_pq_transmitList rest pq) : result (PacketQueue * bool));
      let pq := with_pq_waitingOnRetry (negb accepted) pq in
      if negb accepted then
        cassert (negb (scheduled (pq_sendEvent pq))) ;;
        Ok (with_pq_transmitList (dp :: pq_transmitList pq) pq)
      else Ok pq
  end.

(** [PacketQueue::sendDeferredPacket], [processSendEvent] (the event has
    fired and is no longer scheduled) and [retry]. *)
Definition sendDeferredPacket (curTick : Z) (pq : PacketQueue)
    : result (PacketQueue * option Z) :=
  if negb (deferredPacketReady curTick pq) then Ok (pq, None)
  else
    pq ← trySendTiming curTick pq;
    if negb (pq_waitingOnRetry pq) then scheduleSend curTick MaxTick pq
    else Ok (pq, None).

Definition processSendEvent (curTick : Z) (pq : PacketQueue)
    : result (PacketQueue * option Z) :=
  cassert (negb (pq_waitingOnRetry pq)) ;; sendDeferredPacket curTick pq.

Definition PacketQueue_retry (curTick : Z) (pq : PacketQueue)
    : result (PacketQueue * option Z) :=
  sendDeferredPacket curTick pq.

End Sending.

(** * Theorems

    The transmit queue as a state machine: order of the packets, and the
    guarantee that a pending packet is never forgotten. *)

Lemma filter_none {A} (P : A -> Prop) `{Hd : forall x, Decision (P x)} (l : list A) :
  (forall x, x ∈ l -> ~ P x) -> filter P l = [].
Proof.
  induction l as [|x l IH]; intros HP; [done|]. rewrite filter_cons_False by (apply HP; left).
  apply IH. intros y Hy. apply HP. by right.
Qed.

Lemma filter_every {A} (P : A -> Prop) `{Hd : forall x, Decision (P x)} (l : list A) :
  (forall x, x ∈ l -> P x) -> filter P l = l.
Proof.
  induction l as [|x l IH]; intros HP; [done|]. rewrite filter_cons_True by (apply HP; left).
  f_equal. apply IH. intros y Hy. apply HP. by right.
Qed.

(** * Order *)

Definition dp_le (a b : DeferredPacket) : Prop := dp_tick a <= dp_tick b.

(** The entries in the order of their ticks. *)
Definition pq_sorted (l : list DeferredPacket) : Prop := StronglySorted dp_le l.

Lemma insert_deferred_elem d x l : x ∈ insert_deferred d l <-> x = d \/ x ∈ l.
Proof.
  induction l as [|y l IH]; cbn; [set_solver|].
  case_goal; rewrite !elem_of_cons, ?IH; set_solver.
Qed.

Lemma insert_deferred_sorted d l : pq_sorted l -> pq_sorted (insert_deferred d l).
Proof.
  unfold pq_sorted. induction l as [|x l IH]; cbn; intros Hs; [by repeat constructor|].
  apply StronglySorted_inv in Hs as [Hs Hx]. rewrite Forall_forall in Hx.
  case_goal; zb; (constructor; [|rewrite Forall_forall]).
  - by apply IH.
  - intros y [->|Hy]%insert_deferred_elem; [done | auto].
  - by constructor; [|apply Forall_forall].
  - intros y [->|Hy]%elem_of_cons; unfold dp_le; [lia|]. specialize (Hx y Hy). unfold dp_le in Hx. lia.
Qed.

(** The place of a new entry: after all that are not later, so entries of
    the same tick stay first come, first served. *)
Lemma insert_deferred_split d l :
  pq_sorted l ->
  insert_deferred d l = filter (fun x => dp_tick x <= dp_tick d) l ++ d ::
                        filter (fun x => dp_tick d < dp_tick x) l.
Proof.
  unfold pq_sorted. induction l as [|x l IH]; cbn [insert_deferred]; intros Hs; [done|].
  apply StronglySorted_inv in Hs as [Hs Hx]. rewrite Forall_forall in Hx.
  rewrite !filter_cons. case_goal; zb.
  - rewrite decide_True, decide_False by lia. cbn. by rewrite IH.
  - rewrite decide_False, decide_True by lia.
    assert (filter (fun y => dp_tick y <= dp_tick d) l = []) as ->.
    { apply filter_none. intros y Hy. specialize (Hx y Hy).
      unfold dp_le in Hx. lia. }
    assert (filter (fun y => dp_tick d < dp_tick y) l = l) as ->; [|done].
    apply filter_every. intros y Hy. specialize (Hx y Hy).
    unfold dp_le in Hx. lia.
Qed.

Lemma insert_deferred_last d l b :
  pq_sorted l -> last l = Some b -> dp_tick b <= dp_tick d -> insert_deferred d l = l ++ [d].
Proof.
  unfold pq_sorted. induction l as [|x l IH]; cbn [insert_deferred]; intros Hs Hl Hb; [done|].
  apply StronglySorted_inv in Hs as [Hs Hx]. rewrite Forall_forall in Hx. destruct l as [|y l].
  - injection Hl as ->. cbn. by rewrite (proj2 (Z.leb_le _ _) Hb).
  - assert (dp_tick x <= dp_tick d).
    { assert (b ∈ y :: l) as Hin by (by apply last_Some_elem_of).
      specialize (Hx b Hin). unfold dp_le in Hx. lia. }
    rewrite (proj2 (Z.leb_le _ _)) by done. cbn [app]. f_equal. by apply IH.
Qed.

(** The three cases of [schedSendTiming] are one insertion. *)
Lemma schedSendTiming_list now pkt when sn pq pq' :
  pq_sorted (pq_transmitList pq) -> schedSendTiming now pkt when sn pq = Ok pq' ->
  pq_transmitList pq' = insert_deferred (mkDeferredPacket when pkt sn) (pq_transmitList pq).
Proof.
  intros Hs H. unfold schedSendTiming in H. inv_ok. set (d := mkDeferredPacket when pkt sn) in *.
  assert (forall l q q', schedSendEvent now when (with_pq_transmitList l q) = Ok q' ->
            pq_transmitList q' = l) as Hev.
  { intros l q q' He. unfold schedSendEvent in He. repeat case_in He; inv_ok; done. }
  destruct (pq_transmitList pq) as [|f r] eqn:Hl; [by apply Hev in H|].
  case_in H.
  - apply Hev in H. rewrite H. zb. cbn. by rewrite (proj2 (Z.leb_gt _ _)).
  - inv_ok. case_in H; inv_ok; zb; cbn [pq_transmitList with_pq_transmitList].
    + symmetry. by eapply insert_deferred_last.
    + cbn. by rewrite (proj2 (Z.leb_le _ _)).
Qed.

(** [schedSendTiming], with its front, back and middle cases, is a
    stable insertion by tick: the queue stays sorted and the new packet is
    placed after every packet that is due no later and before every packet that
    is due later. *)
Theorem schedSendTiming_stable now pkt when sn pq pq' :
  pq_sorted (pq_transmitList pq) -> schedSendTiming now pkt when sn pq = Ok pq' ->
  let l := pq_transmitList pq in
  pq_sorted (pq_transmitList pq') /\
  pq_transmitList pq' = filter (fun x => dp_tick x <= when) l ++ mkDeferredPacket when pkt sn ::
                        filter (fun x => when < dp_tick x) l.
Proof.
  intros Hs H l. rewrite (schedSendTiming_list _ _ _ _ _ _ Hs H). fold l.
  split; [by apply insert_deferred_sorted|]. by apply (insert_deferred_split (mkDeferredPacket when pkt sn)).
Qed.

(** * The queue as a state machine *)

(** A port that, before it answers, comes back to the queue and hands in the
    packets [calls], each with its tick ("we might return to ourselves through the
    sendTiming call below"); it does not call back when [calls] is empty. *)
Record Call := mkCall { cl_pkt : Packet; cl_when : Z; cl_snoop : bool }.

Definition hand_in (now : Z) (pq : PacketQueue) (cl : Call) : result PacketQueue :=
  schedSendTiming now (cl_pkt cl) (cl_when cl) (cl_snoop cl) pq.

Definition reentrant_port (now : Z) (calls : list Call) (acc : Packet -> bool -> bool)
    (p : Packet) (snoop : bool) (pq : PacketQueue) : result (PacketQueue * bool) :=
  pq ← foldM (hand_in now) pq calls; Ok (pq, acc p snoop).

(** What may be handed in at [now]. *)
Definition call_ok (now : Z) (cl : Call) : Prop := now <= cl_when cl < MaxTick /\ isExpressSnoop (cl_pkt cl) = false.

(** Time passes up to the scheduled event; packets are handed in; the event
    fires at its tick (and is then no longer scheduled); the port calls back
    after a refusal.  The port may come back during a send. *)
Inductive pq_step : Z * PacketQueue -> Z * PacketQueue -> Prop :=
  | step_time now now' pq :
      now <= now' -> (forall t, pq_sendEvent pq = Some t -> now' <= t) ->
      pq_step (now, pq) (now', pq)
  | step_send now pkt when sn pq pq' :
      now <= when < MaxTick -> isExpressSnoop pkt = false ->
      schedSendTiming now pkt when sn pq = Ok pq' -> pq_step (now, pq) (now, pq')
  | step_fire now pq pq' calls acc dr :
      pq_sendEvent pq = Some now -> Forall (call_ok now) calls ->
      processSendEvent (reentrant_port now calls acc) now (with_pq_sendEvent None pq) = Ok (pq', dr) ->
      pq_step (now, pq) (now, pq')
  | step_retry now pq pq' calls acc dr :
      pq_waitingOnRetry pq = true -> Forall (call_ok now) calls ->
      PacketQueue_retry (reentrant_port now calls acc) now pq = Ok (pq', dr) -> pq_step (now, pq) (now, pq').

Definition pq_reachable (st : Z * PacketQueue) : Prop :=
  exists now ID, rtc pq_step (now, PacketQueue_new ID) st.

(** The wake-up of the queue: an event at the tick of the front entry, or at
    the next tick when that has passed; or the port's promise to call back. *)
Definition covered (now : Z) (pq : PacketQueue) : Prop :=
  match pq_transmitList pq with
  | [] => pq_sendEvent pq = None /\ pq_waitingOnRetry pq = false
  | d :: _ =>
      if pq_waitingOnRetry pq then pq_sendEvent pq = None /\ dp_tick d <= now
      else exists t, pq_sendEvent pq = Some t /\ now <= t /\
                     dp_tick d <= t <= Z.max (dp_tick d) (now + 1)
  end.

Record pq_inv (now : Z) (pq : PacketQueue) : Prop := {
  i_sorted : pq_sorted (pq_transmitList pq);
  i_ticks : forall d, d ∈ pq_transmitList pq -> dp_tick d < MaxTick;
  i_covered : covered now pq
}.

Lemma schedSendTiming_total now pkt when sn pq :
  pq_inv now pq -> now <= when < MaxTick -> isExpressSnoop pkt = false ->
  exists pq', schedSendTiming now pkt when sn pq = Ok pq' /\ covered now pq'.
Proof.
  intros [Hs _ Hc] Hw Hx. unfold schedSendTiming, covered in *. rewrite Hx.
  rewrite cassert_leb, bind_Ok_l by lia. cbn [negb cassert]. rewrite bind_Ok_l.
  destruct (pq_transmitList pq) as [|f r] eqn:Hl.
  - destruct Hc as [He Hwt]. unfold schedSendEvent. cbn. rewrite Hwt, He. unfold ev_schedule.
    rewrite cassert_leb, bind_Ok_l by lia. cbn. eexists. split; [done|].
    cbn. rewrite Hwt. exists when. split; [done|]. lia.
  - destruct (Z.ltb_spec when (dp_tick f)).
    + destruct (pq_waitingOnRetry pq) eqn:Hwt; [lia|]. destruct Hc as (t & He & Ht & Ht').
      unfold schedSendEvent. cbn. rewrite Hwt, He. destruct (Z.ltb_spec when t); [|lia].
      unfold ev_reschedule. rewrite cassert_leb, bind_Ok_l by lia. cbn.
      eexists. split; [done|]. cbn. rewrite Hwt. exists when. split; [done|]. lia.
    + destruct (last_is_Some (f :: r)) as [_ [b Hb]]; [done|]. rewrite Hb. cbn [of_option].
      rewrite bind_Ok_l. case_goal; eexists; (split; [done|]); exact Hc.
Qed.

(** The next wake-up after a send: an event that is scheduled already, at the
    front packet, stays. *)
Lemma scheduleSend_total now pq :
  match pq_sendEvent pq with
  | None => True
  | Some t => now <= t /\ exists d r, pq_transmitList pq = d :: r /\ dp_tick d = t
  end -> pq_waitingOnRetry pq = false ->
  (forall d, d ∈ pq_transmitList pq -> dp_tick d < MaxTick) ->
  exists pq' dr, scheduleSend now MaxTick pq = Ok (pq', dr) /\ covered now pq' /\
    pq_transmitList pq' = pq_transmitList pq.
Proof.
  intros He Hw Ht. unfold scheduleSend, deferredPacketReadyTime, covered.
  destruct (pq_transmitList pq) as [|d r] eqn:Hl; cbn.
  - destruct (pq_sendEvent pq) eqn:Hev; [by destruct He as (_ & ? & ? & ? & _)|].
    destruct (pq_drainEvent pq); eexists _, _; (split; [done|]); cbn; by rewrite Hl.
  - specialize (Ht d ltac:(left)). rewrite Z.min_l by lia.
    destruct (Z.eqb_spec (dp_tick d) MaxTick); [lia|]. cbn. destruct (pq_sendEvent pq) as [t|] eqn:Hev; cbn.
    + destruct He as (Hn & d' & r' & [= <- <-] & Hd). eexists _, _. split; [done|]. rewrite Hl. split; [|done].
      rewrite Hw. exists t. split; [done|]. lia.
    + unfold ev_schedule. rewrite cassert_leb, bind_Ok_l by lia. cbn.
      eexists _, _. split; [done|]. cbn. rewrite Hl. split; [|done].
      rewrite Hw. exists (Z.max (dp_tick d) (now + 1)). split; [done|]. lia.
Qed.

(** ** What comes in during a send *)

Definition dp_of (cl : Call) : DeferredPacket := mkDeferredPacket (cl_when cl) (cl_pkt cl) (cl_snoop cl).
Definition insert_calls (calls : list Call) (l : list DeferredPacket) : list DeferredPacket :=
  foldl (fun l cl => insert_deferred (dp_of cl) l) l calls.

(** Some packet handed in becomes the front of the queue [l]. *)
Definition overtakes (calls : list Call) (l : list DeferredPacket) : bool :=
  existsb (fun cl => match l with [] => true | d :: _ => cl_when cl <? dp_tick d end) calls.

Lemma insert_calls_sorted calls : forall l, pq_sorted l -> pq_sorted (insert_calls calls l).
Proof. induction calls as [|cl calls IH]; intros l Hs; [done|]. by apply IH, insert_deferred_sorted. Qed.

Lemma insert_calls_elem calls d : forall l, d ∈ insert_calls calls l <-> d ∈ map dp_of calls \/ d ∈ l.
Proof.
  induction calls as [|cl calls IH]; intros l; cbn; [set_solver|].
  fold (insert_calls calls (insert_deferred (dp_of cl) l)). rewrite IH, insert_deferred_elem. set_solver.
Qed.

#[local] Ltac answered := eexists; split_and!; [done | cbn; solve [auto | congruence]..].

(** One packet handed in between the removal of the front packet and the answer.
    While the queue waits for a retry no event is scheduled; otherwise the event is
    scheduled exactly when the packet goes to the front. *)
Lemma hand_in_ok now pq cl :
  call_ok now cl -> pq_sorted (pq_transmitList pq) ->
  (pq_waitingOnRetry pq = true -> pq_sendEvent pq = None) ->
  (forall t, pq_sendEvent pq = Some t -> head (dp_tick <$> pq_transmitList pq) = Some t) ->
  exists pq', hand_in now pq cl = Ok pq' /\
    pq_transmitList pq' = insert_deferred (dp_of cl) (pq_transmitList pq) /\
    pq_waitingOnRetry pq' = pq_waitingOnRetry pq /\
    pq_sendEvent pq' =
      (if negb (pq_waitingOnRetry pq) && match pq_transmitList pq with [] => true | d :: _ => cl_when cl <? dp_tick d end
       then Some (cl_when cl) else pq_sendEvent pq).
Proof.
  intros [Hw Hx] Hs Hr He. unfold hand_in.
  assert (exists pq', schedSendTiming now (cl_pkt cl) (cl_when cl) (cl_snoop cl) pq = Ok pq' /\
    pq_waitingOnRetry pq' = pq_waitingOnRetry pq /\
    pq_sendEvent pq' =
      (if negb (pq_waitingOnRetry pq) && match pq_transmitList pq with [] => true | d :: _ => cl_when cl <? dp_tick d end
       then Some (cl_when cl) else pq_sendEvent pq)) as (pq' & E & Hw' & He').
  2:{ exists pq'. split; [done|]. split; [by eapply schedSendTiming_list|done]. }
  unfold schedSendTiming. rewrite Hx, cassert_leb, bind_Ok_l by lia. cbn [negb cassert]. rewrite bind_Ok_l.
  destruct (pq_transmitList pq) as [|f r] eqn:Hl.
  - unfold schedSendEvent. cbn. destruct (pq_waitingOnRetry pq) eqn:Hwt; cbn.
    + rewrite Hr by done. cbn. answered.
    + destruct (pq_sendEvent pq) as [t|] eqn:Hev; [by specialize (He t eq_refl)|].
      unfold ev_schedule. rewrite cassert_leb, bind_Ok_l by lia. cbn. answered.
  - destruct (Z.ltb_spec (cl_when cl) (dp_tick f)).
    + unfold schedSendEvent. cbn. destruct (pq_waitingOnRetry pq) eqn:Hwt; cbn.
      * rewrite Hr by done. cbn. answered.
      * destruct (pq_sendEvent pq) as [t|] eqn:Hev.
        -- specialize (He t eq_refl). cbn in He. injection He as <-. rewrite (proj2 (Z.ltb_lt _ _)) by done.
           unfold ev_reschedule. rewrite cassert_leb, bind_Ok_l by lia. cbn. answered.
        -- unfold ev_schedule. rewrite cassert_leb, bind_Ok_l by lia. cbn. answered.
    + destruct (last_is_Some (f :: r)) as [_ [b Hb]]; [done|]. rewrite Hb. cbn [of_option].
      rewrite bind_Ok_l. rewrite andb_false_r. case_goal; answered.
Qed.

(** All of them: no call fails, and an event is scheduled exactly when some packet
    overtakes those that were waiting (or the queue waits for no retry and had one). *)
Lemma hand_in_all now calls : forall pq,
  Forall (call_ok now) calls -> pq_sorted (pq_transmitList pq) ->
  (pq_waitingOnRetry pq = true -> pq_sendEvent pq = None) ->
  (forall t, pq_sendEvent pq = Some t -> now <= t /\ head (dp_tick <$> pq_transmitList pq) = Some t) ->
  exists pq', foldM (hand_in now) pq calls = Ok pq' /\
    pq_transmitList pq' = insert_calls calls (pq_transmitList pq) /\
    pq_waitingOnRetry pq' = pq_waitingOnRetry pq /\
    scheduled (pq_sendEvent pq') =
      scheduled (pq_sendEvent pq) || negb (pq_waitingOnRetry pq) && overtakes calls (pq_transmitList pq) /\
    (forall t, pq_sendEvent pq' = Some t -> now <= t /\ head (dp_tick <$> pq_transmitList pq') = Some t).
Proof.
  induction calls as [|cl calls IH]; intros pq F Hs Hr He.
  - exists pq. cbn. rewrite andb_false_r, orb_false_r. done.
  - inv F. destruct (hand_in_ok now pq cl) as (pq1 & E1 & L1 & W1 & V1); [done..| |]; [intros t Ht; by apply He|].
    set (front := match pq_transmitList pq with [] => true | d :: _ => cl_when cl <? dp_tick d end) in *.
    assert (Hhd : front = false -> head (pq_transmitList pq1) = head (pq_transmitList pq) /\ pq_transmitList pq <> []).
    { unfold front. rewrite L1. destruct (pq_transmitList pq) as [|d l]; [done|]. cbn. intros ?. zb.
      by rewrite (proj2 (Z.leb_le _ _)). }
    assert (Hhd' : front = true -> exists r, pq_transmitList pq1 = dp_of cl :: r).
    { unfold front. rewrite L1. destruct (pq_transmitList pq) as [|d l]; [by eexists|]. cbn. intros ?. zb.
      rewrite (proj2 (Z.leb_gt _ _)) by done. by eexists. }
    destruct (IH pq1) as (pq2 & E2 & L2 & W2 & V2 & T2); [done | rewrite L1; by apply insert_deferred_sorted | | |].
    + intros Hwt. rewrite V1, W1 in *. rewrite Hwt. cbn. by apply Hr.
    + intros t. rewrite V1. destruct (negb (pq_waitingOnRetry pq) && front) eqn:Hf.
      * intros [= <-]. apply andb_true_iff in Hf as [_ Hf]. destruct (Hhd' Hf) as (r & ->). destruct H1. split; [lia|done].
      * intros Ht. destruct (He t Ht) as [Hn Hh]. split; [done|]. apply andb_false_iff in Hf as [Hf|Hf].
        -- apply negb_false_iff in Hf. by rewrite Hr in Ht.
        -- destruct (Hhd Hf) as [Hh' Hne]. destruct (pq_transmitList pq1), (pq_transmitList pq); cbn in *; congruence.
    + exists pq2. cbn [foldM]. rewrite E1, bind_Ok_l. split; [done|]. split; [by rewrite L2, L1|]. split; [congruence|]. split; [|done].
      rewrite V2, V1, W1. cbn [overtakes existsb]. fold front. fold (overtakes calls (pq_transmitList pq)).
      destruct (pq_waitingOnRetry pq) eqn:Hwt; cbn [negb andb]; [done|].
      destruct front eqn:Hf; cbn [scheduled orb]; [by rewrite orb_true_r|]. f_equal.
      destruct (Hhd eq_refl) as [Hh Hne]. unfold overtakes.
      destruct (pq_transmitList pq1), (pq_transmitList pq); cbn in *; [done..|]. by injection Hh as ->.
Qed.

(** A send attempt on a ready front entry [d].  It fails exactly when the port
    refuses the packet after it has handed in one that became the front of the
    rest, and so had the event scheduled.  Otherwise the packets handed in are
    in their places; refused, the front entry is as it was and the queue waits;
    accepted, it is gone and the next wake-up is set. *)
Lemma sendDeferredPacket_total now calls acc pq d r :
  pq_transmitList pq = d :: r -> dp_tick d <= now -> pq_sendEvent pq = None -> Forall (call_ok now) calls ->
  pq_sorted (pq_transmitList pq) -> (forall d, d ∈ pq_transmitList pq -> dp_tick d < MaxTick) ->
  if negb (pq_waitingOnRetry pq) && overtakes calls r && negb (acc (dp_pkt d) (dp_sendAsSnoop d))
  then sendDeferredPacket (reentrant_port now calls acc) now pq = Err AssertFail
  else exists pq' dr, sendDeferredPacket (reentrant_port now calls acc) now pq = Ok (pq', dr) /\ covered now pq' /\
    pq_transmitList pq' = if acc (dp_pkt d) (dp_sendAsSnoop d) then insert_calls calls r else d :: insert_calls calls r.
Proof.
  intros Hl Hd He Hcs Hs Ht. unfold sendDeferredPacket, trySendTiming, deferredPacketReady, reentrant_port.
  rewrite Hl. rewrite (proj2 (Z.leb_le _ _) Hd). cbn [negb cassert]. rewrite !bind_Ok_l.
  rewrite Hl in Hs, Ht. apply StronglySorted_inv in Hs as [Hs _].
  destruct (hand_in_all now calls (with_pq_transmitList r pq)) as (pq1 & -> & L1 & W1 & V1 & T1);
    [done | done | done | cbn; congruence |].
  cbn [pq_transmitList pq_waitingOnRetry pq_sendEvent with_pq_transmitList] in *. rewrite He in V1. cbn [scheduled orb] in V1.
  rewrite !bind_Ok_l. destruct (acc _ _); cbn [negb].
  - rewrite andb_false_r, bind_Ok_l. cbn [negb pq_waitingOnRetry with_pq_waitingOnRetry].
    destruct (scheduleSend_total now (with_pq_waitingOnRetry false pq1)) as (pq' & dr & H & Hc & Hl'); cbn; [| done | |].
    + destruct (pq_sendEvent pq1) as [t|]; [|done]. destruct (T1 t eq_refl) as [Hn Hh]. split; [done|].
      destruct (pq_transmitList pq1) as [|x l]; [done|]. cbn in Hh. injection Hh as <-. eauto.
    + intros x. rewrite L1, insert_calls_elem. intros [(cl & -> & Hcl)%list_elem_of_fmap|Hx]; [|apply Ht; by right].
      rewrite Forall_forall in Hcs. destruct (Hcs cl Hcl). cbn. lia.
    + exists pq', dr. split; [done|]. split; [done|]. rewrite Hl'. cbn. done.
  - rewrite andb_true_r. cbn [with_pq_waitingOnRetry pq_sendEvent]. rewrite V1.
    destruct (negb (pq_waitingOnRetry pq) && overtakes calls r) eqn:Ho; cbn [negb cassert]; [done|].
    rewrite !bind_Ok_l. cbn [negb pq_waitingOnRetry with_pq_waitingOnRetry with_pq_transmitList]. eexists _, _. split; [done|].
    unfold covered. cbn. split; [|by rewrite L1]. split; [|done].
    destruct (pq_sendEvent pq1); [done|done].
Qed.

(** The queue with the entry [d] that is due, at the front or gone. *)
Lemma after_send_inv now d r calls (b : bool) pq' :
  pq_sorted (d :: r) -> dp_tick d <= now -> (forall x, x ∈ d :: r -> dp_tick x < MaxTick) -> Forall (call_ok now) calls ->
  covered now pq' -> pq_transmitList pq' = (if b then insert_calls calls r else d :: insert_calls calls r) -> pq_inv now pq'.
Proof.
  intros Hs Hd Ht Hcs Hc HL. apply StronglySorted_inv in Hs as [Hs Hdr]. rewrite Forall_forall in Hcs. rewrite Forall_forall in Hdr.
  assert (forall x, x ∈ insert_calls calls r -> dp_le d x /\ dp_tick x < MaxTick) as Hin.
  { intros x [(cl & -> & Hcl)%list_elem_of_fmap|Hx]%insert_calls_elem.
    - destruct (Hcs cl Hcl). unfold dp_le. cbn. lia.
    - split; [by apply Hdr | apply Ht; by right]. }
  constructor; [| |done]; rewrite HL.
  - destruct b; [by apply insert_calls_sorted|]. constructor; [by apply insert_calls_sorted|].
    apply Forall_forall. intros x Hx. by apply Hin.
  - destruct b; [intros x Hx; by apply Hin|]. intros x [->|Hx]%elem_of_cons; [apply Ht; left | by apply Hin].
Qed.

(** What the invariant says of a queue whose event is due or that waits. *)
Lemma due_front now pq :
  pq_inv now pq -> pq_sendEvent pq = Some now \/ pq_waitingOnRetry pq = true ->
  exists d r, pq_transmitList pq = d :: r /\ dp_tick d <= now /\
    (pq_waitingOnRetry pq = true -> pq_sendEvent pq = None).
Proof.
  intros [_ _ Hc] Hev. unfold covered in Hc.
  destruct (pq_transmitList pq) as [|d r]; [destruct Hc, Hev; congruence|]. exists d, r. split; [done|].
  destruct (pq_waitingOnRetry pq); [by destruct Hc|]. destruct Hev as [Hev|]; [|done].
  destruct Hc as (t & He & ?). assert (t = now) as -> by congruence. split; [lia|done].
Qed.

(** The event handler with its event taken off. *)
Definition fire (port : Packet -> bool -> PacketQueue -> result (PacketQueue * bool)) (now : Z) (pq : PacketQueue)
    : result (PacketQueue * option Z) :=
  if pq_waitingOnRetry pq then PacketQueue_retry port now pq
  else processSendEvent port now (with_pq_sendEvent None pq).

Lemma fire_total now calls acc pq :
  pq_inv now pq -> pq_sendEvent pq = Some now \/ pq_waitingOnRetry pq = true -> Forall (call_ok now) calls ->
  exists d r, pq_transmitList pq = d :: r /\
    let ok := acc (dp_pkt d) (dp_sendAsSnoop d) in
    if negb (pq_waitingOnRetry pq) && overtakes calls r && negb ok
    then fire (reentrant_port now calls acc) now pq = Err AssertFail
    else exists pq' dr, fire (reentrant_port now calls acc) now pq = Ok (pq', dr) /\ pq_inv now pq' /\
      pq_transmitList pq' = if ok then insert_calls calls r else d :: insert_calls calls r.
Proof.
  intros I Hev Hcs. destruct (due_front now pq I Hev) as (d & r & Hl & Hd & Hr). destruct I as [Hs Ht _].
  exists d, r. split; [done|]. cbn zeta. unfold fire, PacketQueue_retry, processSendEvent. rewrite Hl in Hs, Ht.
  destruct (pq_waitingOnRetry pq) eqn:Hw.
  - pose proof (sendDeferredPacket_total now calls acc pq d r) as S. rewrite Hl, Hw in S.
    destruct S as (pq' & dr & E & Hc & HL); [auto..|]. exists pq', dr. split; [done|]. split; [|done]. by eapply after_send_inv.
  - cbn [pq_waitingOnRetry with_pq_sendEvent]. rewrite Hw. cbn [negb cassert]. rewrite bind_Ok_l.
    pose proof (sendDeferredPacket_total now calls acc (with_pq_sendEvent None pq) d r) as S. cbn [pq_waitingOnRetry pq_transmitList with_pq_sendEvent] in S.
    rewrite Hl, Hw in S. cbn [negb] in S. destruct (true && overtakes calls r && _); [by apply S|].
    destruct S as (pq' & dr & E & Hc & HL); [auto..|]. exists pq', dr. split; [done|]. split; [|done]. by eapply after_send_inv.
Qed.

Lemma fire_inv now calls acc pq pq' dr :
  pq_inv now pq -> pq_sendEvent pq = Some now \/ pq_waitingOnRetry pq = true -> Forall (call_ok now) calls ->
  fire (reentrant_port now calls acc) now pq = Ok (pq', dr) -> pq_inv now pq'.
Proof.
  intros I Hev Hcs E. destruct (fire_total now calls acc pq I Hev Hcs) as (d & r & _ & S). cbn zeta in S.
  destruct (_ && _ && _); [congruence|]. destruct S as (q & dr' & E' & Iq & _). congruence.
Qed.

Lemma pq_step_inv st st' : pq_step st st' -> pq_inv st.1 st.2 -> pq_inv st'.1 st'.2.
Proof.
  intros Hst I. destruct Hst as [now now' pq Hn Hev|now pkt when sn pq pq' Hw Hx H
    |now pq pq' calls acc dr He Hcs H|now pq pq' calls acc dr Hw Hcs H]; cbn in *.
  - destruct I as [Hs Ht Hc]. constructor; [done..|]. unfold covered in *. destruct (pq_transmitList pq); [done|].
    case_goal; [destruct Hc; split; [done | lia]|]. destruct Hc as (t & Het & ?).
    exists t. specialize (Hev t Het). split; [done|]. lia.
  - destruct (schedSendTiming_total now pkt when sn pq I Hw Hx) as (q & Hq & Hcov). destruct I as [Hs Ht Hc].
    assert (q = pq') as -> by congruence. pose proof (schedSendTiming_list _ _ _ _ _ _ Hs H) as HL.
    constructor; [rewrite HL; by apply insert_deferred_sorted | | done].
    intros d. rewrite HL, insert_deferred_elem. intros [->|Hd]; [cbn; lia | auto].
  - destruct (due_front now pq I) as (d & r & _ & _ & Hr); [by left|].
    apply (fire_inv now calls acc pq pq' dr); try done; [by left|]. unfold fire.
    destruct (pq_waitingOnRetry pq); [|done]. specialize (Hr eq_refl). congruence.
  - apply (fire_inv now calls acc pq pq' dr); try done; [by right|]. unfold fire. by rewrite Hw.
Qed.

Lemma pq_reachable_inv st : pq_reachable st -> pq_inv st.1 st.2.
Proof.
  intros (now & ID & H). remember (now, PacketQueue_new ID) as st0 eqn:E0.
  assert (pq_inv st0.1 st0.2) as I.
  { subst. constructor; cbn; [constructor | by intros d Hd%elem_of_nil | done]. }
  clear E0. induction H as [st|a b c Hs H IH]; [done|]. apply IH. by eapply pq_step_inv.
Qed.

(** No lost wake-up: in every reachable state of the queue a pending
    packet is either refused and waiting for the port's retry, with no event
    scheduled, or the send event is scheduled, no earlier than the packet is
    due and no later than that or the next tick; the queue is sorted, and an
    empty queue is at rest. *)
Theorem pq_no_lost_wakeup now pq :
  pq_reachable (now, pq) -> pq_sorted (pq_transmitList pq) /\ covered now pq.
Proof. intros H. by destruct (pq_reachable_inv _ H). Qed.


(** * Witnesses *)

Definition a_packet : Packet := Packet_blank 0 ReadReq 0 0.

(** A packet due at 20, then one due at 10. *)
Definition two_packets : PacketQueue :=
  match (pq ← schedSendTiming 0 a_packet 20 false (PacketQueue_new 0);
         schedSendTiming 0 a_packet 10 true pq) with
  | Ok pq => pq
  | Err _ => PacketQueue_new 0
  end.

Lemma two_packets_reachable : pq_reachable (10, two_packets).
Proof.
  exists 0, 0.
  eapply rtc_l; [apply (step_send 0 a_packet 20 false); [unfold MaxTick; lia | reflexivity | reflexivity]|].
  eapply rtc_l; [eapply (step_send 0 a_packet 10 true); [unfold MaxTick; lia | reflexivity | vm_compute; reflexivity]|].
  eapply rtc_l; [apply (step_time 0 10); [lia|]|].
  - intros t. vm_compute. intros [= <-]. discriminate.
  - apply rtc_refl.
Qed.

Lemma pq_no_lost_wakeup_witness : pq_sorted (pq_transmitList two_packets) /\ covered 10 two_packets.
Proof. apply (pq_no_lost_wakeup 10 two_packets). exact two_packets_reachable. Defined.


(** The port hands in a packet that is due before the one that waits, and refuses:
    the assertion that no send event is scheduled fails. *)
Theorem refusal_after_reentry_fails :
  pq_reachable (10, two_packets) /\ pq_sendEvent two_packets = Some 10 /\
  processSendEvent (reentrant_port 10 [mkCall a_packet 15 false] (fun _ _ => false)) 10 (with_pq_sendEvent None two_packets)
    = Err AssertFail.
Proof. split; [exact two_packets_reachable|]. split; vm_compute; reflexivity. Qed.

Lemma schedSendTiming_stable_witness :
  exists pq', schedSendTiming 0 a_packet 15 false two_packets = Ok pq' /\
    pq_sorted (pq_transmitList pq') /\ map dp_tick (pq_transmitList pq') = [10; 15; 20].
Proof.
  destruct (schedSendTiming 0 a_packet 15 false two_packets) as [pq'|] eqn:H; [|vm_compute in H; discriminate].
  destruct (schedSendTiming_stable 0 a_packet 15 false two_packets pq') as [Hs Hl]; [|exact H|].
  - repeat constructor; vm_compute; congruence.
  - exists pq'. split; [reflexivity|]. split; [exact Hs|]. rewrite Hl. vm_compute. reflexivity.
Defined.
