(* ===== verification/Prefetch.v ===== *)
(** The prefetchers: mem/cache/prefetch/base.cc, tagged.cc, stride.cc and ghb.cc.
    A prefetcher is told of the accesses of its cache, computes addresses that may
    be wanted next and queues requests for them, from which the cache takes one
    when its memory side is idle.  What the cache answers ([inCache],
    [inMissQueue]) are arguments; the request it is asked to withdraw
    ([deassertMemSideBusRequest]) is an output. *)

From Stdlib Require Import Sorted.
From S2P Require Import Prelude IntMath Request MemCmd Packet.

(** The parameters, with the page size of the instruction set. *)
Record PfCfg := mkPfCfg {
  pf_size : Z;
  pf_blkSize : Z;
  pf_latency : Z;
  pf_degree : Z;
  pf_useMasterId : bool;
  pf_pageStop : bool;
  pf_serialSquash : bool;
  pf_onlyData : bool;
  pf_masterId : Z;
  pf_pageSize : Z
}.

(** [StridePrefetcher::StrideEntry] *)
Record StrideEntry := mkStrideEntry {
  se_instAddr : Z;
  se_missAddr : Z;
  se_stride : Z;
  se_confidence : Z
}.

(** What the three classes remember.  The arrays of [GHBPrefetcher] are not
    initialised. *)
Inductive PfMemory :=
  | PfTagged
  | PfStride (table : list (list StrideEntry))
  | PfGHB (secondLastMissAddr lastMissAddr : list Z).

Definition Max_Contexts : Z := 64.
Definition Max_Masters : Z := 64.
Definition Max_Conf : Z := 2 ^ 31 - 1.
Definition Min_Conf : Z := - 2 ^ 31.

Definition StridePrefetcher_new : PfMemory := PfStride (replicate (Z.to_nat Max_Contexts) []).
Definition GHBPrefetcher_new (junk junk' : list Z) : PfMemory := PfGHB junk junk'.

(** The queue, and the requests its packets point to. *)
Record Prefetcher := mkPrefetcher {
  pf_queue : list Packet;
  pf_memory : PfMemory;
  pf_reqs : ReqHeap;
  pf_nextReq : Z
}.

Definition with_pf_queue (v : list Packet) (p : Prefetcher) : Prefetcher :=
  mkPrefetcher v (pf_memory p) (pf_reqs p) (pf_nextReq p).
Definition with_pf_memory (v : PfMemory) (p : Prefetcher) : Prefetcher :=
  mkPrefetcher (pf_queue p) v (pf_reqs p) (pf_nextReq p).
Definition with_pf_reqs (v : ReqHeap) (p : Prefetcher) : Prefetcher :=
  mkPrefetcher (pf_queue p) (pf_memory p) v (pf_nextReq p).
Definition with_pf_nextReq (v : Z) (p : Prefetcher) : Prefetcher :=
  mkPrefetcher (pf_queue p) (pf_memory p) (pf_reqs p) v.

(** [cache->deassertMemSideBusRequest(Request_PF)], by number of calls. *)
Abbreviation Deasserts := nat (only parsing).

Section Prefetcher.

Context (c : PfCfg).

Definition blkAddr (addr : Z) : Z := Z.ldiff addr (pf_blkSize c - 1).

Definition samePage (a b : Z) : bool :=
  Z.ldiff a (u64 (pf_pageSize c - 1)) =? Z.ldiff b (u64 (pf_pageSize c - 1)).

(** * Addresses *)

(** The loop all three classes share: [degree] steps from the block, up to the end
    of its page. *)
Fixpoint ahead (n : nat) (d : Z) (blk stride : Z) : list Z :=
  match n with
  | O => []
  | S n' =>
      let new_addr := u64 (blk + i32 (d * stride)) in
      if pf_pageStop c && negb (samePage blk new_addr) then [] else new_addr :: ahead n' (d + 1) blk stride
  end.
Definition candidates (blk stride : Z) : list Z := ahead (Z.to_nat (pf_degree c)) 1 blk stride.

(** [TaggedPrefetcher::calculatePrefetch]: the next blocks. *)
Definition tagged_prefetch (addr : Z) : list Z := candidates (blkAddr addr) (pf_blkSize c).

(** [StridePrefetcher::calculatePrefetch].  An access to the entry of its
    instruction: the entry, and whether to prefetch. *)
Definition stride_hit (e : StrideEntry) (blk : Z) : StrideEntry * list Z :=
  let new_stride := i32 (blk - se_missAddr e) in
  let stride_match := new_stride =? se_stride e in
  let '(stride, confidence) :=
    if stride_match && negb (new_stride =? 0)
    then (se_stride e, if se_confidence e <? Max_Conf then se_confidence e + 1 else se_confidence e)
    else (new_stride, if Min_Conf <? se_confidence e then 0 else se_confidence e) in
  let e := mkStrideEntry (se_instAddr e) blk stride confidence in
  (e, if confidence <=? 0 then [] else candidates blk new_stride).

(** The entry of lowest confidence, the first of them. *)
Fixpoint min_pos (l : list StrideEntry) : option (nat * Z) :=
  match l with
  | [] => None
  | e :: l' => match min_pos l' with
               | Some (i, conf) => if conf <? se_confidence e then Some (S i, conf) else Some (O, se_confidence e)
               | None => Some (O, se_confidence e)
               end
  end.

Definition stride_miss (tab : list StrideEntry) (pc blk : Z) : list StrideEntry :=
  let tab := if 256 <=? Z.of_nat (length tab) then
               match min_pos tab with Some (i, _) => delete i tab | None => tab end
             else tab in
  tab ++ [mkStrideEntry pc blk 0 0].

(** The scan of the table for the instruction. *)
Fixpoint find_entry (pc : Z) (l : list StrideEntry) : option (nat * StrideEntry) :=
  match l with
  | [] => None
  | e :: l' => if se_instAddr e =? pc then Some (O, e)
               else match find_entry pc l' with Some (i, e') => Some (S i, e') | None => None end
  end.

Definition stride_table (tab : list StrideEntry) (pc blk : Z) : list StrideEntry * list Z :=
  match find_entry pc tab with
  | Some (i, e) => let '(e, addrs) := stride_hit e blk in (<[i := e]> tab, addrs)
  | None => (stride_miss tab pc blk, [])
  end.

Definition stride_prefetch (r : Request) (addr : Z) (table : list (list StrideEntry))
    : result (list (list StrideEntry) * list Z) :=
  if negb (hasPC r) then Ok (table, []) else
  let master_id := if pf_useMasterId c then masterId r else 0 in
  pc ← getPC r;
  cassert (master_id <? Max_Contexts) ;;
  tab ← arr_get table master_id;
  let '(tab, addrs) := stride_table tab pc (blkAddr addr) in
  table ← arr_set table master_id tab;
  Ok (table, addrs).

(** [GHBPrefetcher::calculatePrefetch] *)
Definition ghb_prefetch (r : Request) (addr : Z) (second last : list Z) : result (list Z * list Z * list Z) :=
  let blk := blkAddr addr in
  let master_id := if pf_useMasterId c then masterId r else 0 in
  cassert (master_id <? Max_Masters) ;;
  l ← arr_get last master_id;
  s ← arr_get second master_id;
  let new_stride := i32 (blk - l) in
  let old_stride := i32 (l - s) in
  second ← arr_set second master_id l;
  last ← arr_set last master_id blk;
  Ok (second, last, if new_stride =? old_stride then candidates blk new_stride else []).

(** The virtual call; every address comes with the delay [latency]. *)
Definition calculatePrefetch (r : Request) (addr : Z) (m : PfMemory) : result (PfMemory * list Z) :=
  match m with
  | PfTagged => Ok (PfTagged, tagged_prefetch addr)
  | PfStride table => '(table, addrs) ← stride_prefetch r addr table; Ok (PfStride table, addrs)
  | PfGHB second last => '(second, last, addrs) ← ghb_prefetch r addr second last; Ok (PfGHB second last, addrs)
  end.

(** * The queue *)

(** [inPrefetch]: the first packet for the block [address]. *)
Fixpoint inPrefetch (address : Z) (l : list Packet) : result (option nat) :=
  match l with
  | [] => Ok None
  | p :: l' =>
      a ← getAddr p;
      if blkAddr a =? address then Ok (Some O)
      else i ← inPrefetch address l'; Ok (option_map S i)
  end.

(** [delete pkt->req; delete pkt] *)
Definition free_req (pkt : Packet) (p : Prefetcher) : Prefetcher :=
  with_pf_reqs (delete (pkt_req pkt) (pf_reqs p)) p.

(** The end of the queue that is not older than [time], last packet first; what
    is left is in reverse, too. *)
Fixpoint pf_squash (time : Z) (l : list Packet) (p : Prefetcher) : list Packet * Prefetcher :=
  match l with
  | [] => ([], p)
  | pkt :: l' => if time <=? pkt_time pkt then pf_squash time l' (free_req pkt p) else (l, p)
  end.

(** One address: a request for it, unless it is queued already; the oldest request
    makes room.  The fields the constructor of a request leaves alone are [junk]; [pop_front] of an empty queue is undefined. *)
Definition queue_prefetch (junk : Request) (curTick time : Z) (trigger : Request) (p : Prefetcher) (addr : Z) : result Prefetcher :=
  i ← inPrefetch addr (pf_queue p);
  match i with
  | Some _ => Ok p
  | None =>
      let ptr := pf_nextReq p in
      r ← setPhys addr (pf_blkSize c) 0 (pf_masterId c) curTick (Request_new junk);
      ctx ← contextId trigger;
      tid ← threadId trigger;
      let h := <[ptr := r]> (pf_reqs p) in
      pkt ← Packet_new h ptr HardPFReq curTick;
      pkt ← allocate pkt;
      let h := <[ptr := setThreadContext ctx tid r]> h in
      let pkt := with_pkt_time (u64 (time + pf_latency c)) pkt in
      let p := with_pf_nextReq (ptr + 1) (with_pf_reqs h p) in
      p ← (if Z.of_nat (length (pf_queue p)) =? pf_size c then
             match pf_queue p with
             | [] => Err OutOfBounds
             | old :: l => Ok (with_pf_queue l (free_req old p))
             end
           else Ok p);
      Ok (with_pf_queue (pf_queue p ++ [pkt]) p)
  end.

Definition nextPrefetchReadyTime (p : Prefetcher) : Z :=
  match pf_queue p with [] => MaxTick | pkt :: _ => pkt_time pkt end.
Definition pf_havePending (p : Prefetcher) : bool := negb (bool_decide (pf_queue p = [])).

Definition if_empty (p : Prefetcher) : Deasserts := if bool_decide (pf_queue p = []) then 1%nat else O.

(** [notify]; [r] is the request of [pkt].  The time of the first prefetch, 0 if
    there is none, and the withdrawals. *)
Definition notify (junk : Request) (curTick : Z) (pkt : Packet) (r : Request) (time : Z) (p : Prefetcher)
    : result (Z * Prefetcher * Deasserts) :=
  s ← (if negb (isUncacheable r) && negb (isInstFetch r && pf_onlyData c) then
         addr ← getAddr pkt;
         i ← inPrefetch (blkAddr addr) (pf_queue p);
         s ← match i with
             | None => Ok (p, O)
             | Some i =>
                 old ← of_option OutOfBounds (pf_queue p !! i);
                 let p := with_pf_queue (delete i (pf_queue p)) (free_req old p) in
                 Ok (p, if_empty p)
             end;
         let '(p, n) := s in
         let '(p, n) :=
           if pf_serialSquash c then
             let '(l, p) := pf_squash time (rev (pf_queue p)) p in
             let p := with_pf_queue (rev l) p in (p, (n + if_empty p)%nat)
           else (p, n) in
         m ← calculatePrefetch r addr (pf_memory p);
         let p := with_pf_memory m.1 p in
         p ← foldM (queue_prefetch junk curTick time r) p m.2;
         Ok (p, n)
       else Ok (p, O));
  let '(p, n) := s in
  Ok (match pf_queue p with [] => 0 | pkt :: _ => pkt_time pkt end, p, n).

(** [getPacket]: the first packet whose block is neither in the cache nor being
    fetched; the others are dropped. *)
Fixpoint get_packet (inCache inMissQueue : Z -> bool) (l : list Packet) (p : Prefetcher)
    : result (option Packet * Prefetcher * Deasserts) :=
  match l with
  | [] => Ok (None, p, O)
  | pkt :: l' =>
      let p := with_pf_queue l' p in
      addr ← getAddr pkt;
      let blk := blkAddr addr in
      if negb (inCache blk) && negb (inMissQueue blk) then Ok (Some pkt, p, O)
      else
        let p := free_req pkt p in
        match l' with
        | [] => Ok (None, p, 1%nat)
        | _ => get_packet inCache inMissQueue l' p
        end
  end.
Definition getPacket (inCache inMissQueue : Z -> bool) (p : Prefetcher) : result (option Packet * Prefetcher * Deasserts) :=
  get_packet inCache inMissQueue (pf_queue p) p.

End Prefetcher.

(** * Theorems

    Runs of a prefetcher: its queue is bounded, holds a block at most once and is
    in the order of time; every prefetch stays on the page it should; a strided
    access pattern is recognised at its third access. *)

Lemma find_entry_spec pc l :
  match find_entry pc l with
  | Some (i, e) => l !! i = Some e /\ se_instAddr e = pc
  | None => pc ∉ map se_instAddr l
  end.
Proof.
  induction l as [|e l IH]; cbn; [set_solver|]. destruct (Z.eqb_spec (se_instAddr e) pc) as [->|Hne]; [done|].
  destruct (find_entry pc l) as [[i e']|]; [done|]. set_solver.
Qed.

(** * Alignment *)

Section Spec.

Context (c : PfCfg) (k : Z).

Record pf_cfg_ok : Prop := {
  pc_k : 0 <= k < 31;
  pc_blk : pf_blkSize c = 2 ^ k;
  pc_size : 0 < pf_size c;
  pc_latency : 0 <= pf_latency c
}.

Hypothesis Hc : pf_cfg_ok.

Definition aligned (a : Z) : Prop := (2 ^ k | a).
Definition block_addr (a : Z) : Prop := 0 <= a < 2 ^ 64 /\ aligned a.

Lemma k_pos : 0 < 2 ^ k.
Proof. apply Z.pow_pos_nonneg; [lia | apply Hc]. Qed.

Lemma blkAddr_eq a : blkAddr c a = a / 2 ^ k * 2 ^ k.
Proof. unfold blkAddr. rewrite (pc_blk Hc). apply ldiff_ones_mul, Hc. Qed.

Lemma blkAddr_block a : 0 <= a < 2 ^ 64 -> block_addr (blkAddr c a).
Proof.
  intros Ha. pose proof k_pos. rewrite blkAddr_eq. split; [|apply Z.divide_factor_r].
  pose proof (Z.mul_div_le a (2 ^ k) ltac:(lia)). pose proof (Z.div_pos a (2 ^ k)). nia.
Qed.

Lemma blkAddr_aligned a : aligned a -> blkAddr c a = a.
Proof. intros [q ->]. pose proof k_pos. rewrite blkAddr_eq, Z.div_mul by lia. done. Qed.

Lemma aligned_mod a m : aligned a -> (2 ^ k | m) -> m <> 0 -> aligned (a mod m).
Proof. intros Ha Hm H0. rewrite Z.mod_eq by done. apply Z.divide_sub_r; [done|]. by apply Z.divide_mul_l. Qed.

Lemma pow_divide m : k <= m -> (2 ^ k | 2 ^ m).
Proof. intros H. pose proof (pc_k Hc). exists (2 ^ (m - k)). rewrite <- Z.pow_add_r by lia. f_equal. lia. Qed.

Lemma aligned_i32 a : aligned a -> aligned (i32 a).
Proof.
  intros Ha. pose proof (pc_k Hc). unfold i32.
  assert (aligned (a mod 2 ^ 32)) by (apply aligned_mod; [done | apply pow_divide; lia | lia]).
  case_match; [done|]. apply Z.divide_sub_r; [done | apply pow_divide; lia].
Qed.

Lemma u64_block a : aligned a -> block_addr (u64 a).
Proof.
  intros Ha. pose proof (pc_k Hc). split; [apply Z.mod_pos_bound; lia|].
  apply aligned_mod; [done | apply pow_divide; lia | lia].
Qed.

Lemma ahead_blocks n : forall d blk stride,
  aligned blk -> aligned stride -> Forall block_addr (ahead c n d blk stride).
Proof.
  induction n as [|n IH]; intros d blk stride Hb Hs; cbn; [constructor|]. case_match; [constructor|].
  constructor; [|by apply IH]. apply u64_block, Z.divide_add_r; [done|]. by apply aligned_i32, Z.divide_mul_r.
Qed.

(** With page stops, a prefetch is on the page of the access. *)
Lemma ahead_page n : forall d blk stride,
  pf_pageStop c = true -> Forall (fun a => samePage c blk a = true) (ahead c n d blk stride).
Proof.
  induction n as [|n IH]; intros d blk stride Hp; cbn; [constructor|]. rewrite Hp. cbn.
  destruct (samePage c blk _) eqn:E; cbn; [|constructor]. constructor; [done | by apply IH].
Qed.

Lemma ahead_length n : forall d blk stride, (length (ahead c n d blk stride) <= n)%nat.
Proof. induction n as [|n IH]; intros; cbn; [lia|]. case_match; cbn; [lia|]. specialize (IH (d + 1) blk stride). lia. Qed.

(** * What is remembered *)

Definition entry_ok (e : StrideEntry) : Prop :=
  block_addr (se_missAddr e) /\ aligned (se_stride e) /\ Min_Conf <= se_confidence e <= Max_Conf.

Definition memory_ok (m : PfMemory) : Prop :=
  match m with
  | PfTagged => True
  | PfStride table => length table = 64%nat /\
      Forall (fun tab => (length tab <= 256)%nat /\ NoDup (map se_instAddr tab) /\ Forall entry_ok tab) table
  | PfGHB second last => length second = 64%nat /\ length last = 64%nat /\ Forall aligned second /\ Forall aligned last
  end.

Lemma stride_hit_ok e blk : entry_ok e -> block_addr blk ->
  se_instAddr (stride_hit c e blk).1 = se_instAddr e /\ entry_ok (stride_hit c e blk).1 /\
  Forall block_addr (stride_hit c e blk).2.
Proof.
  intros (Hm & Hs & Hconf) Hb. unfold stride_hit.
  set (s := i32 (blk - se_missAddr e)).
  assert (aligned s) as Hals by (apply aligned_i32, Z.divide_sub_r; [apply Hb | apply Hm]).
  destruct (_ && _); cbn [fst snd]; (split; [done|]); (split; [split; [done|]|]).
  - split; [done|]. cbn. unfold Min_Conf, Max_Conf in *. case_match; zb; lia.
  - case_match; [constructor|]. apply ahead_blocks; [apply Hb | done].
  - split; [done|]. cbn. unfold Min_Conf, Max_Conf in *. case_match; zb; lia.
  - case_match; [constructor|]. apply ahead_blocks; [apply Hb | done].
Qed.

Definition table_ok (tab : list StrideEntry) : Prop :=
  (length tab <= 256)%nat /\ NoDup (map se_instAddr tab) /\ Forall entry_ok tab.

Lemma min_pos_lt l i conf : min_pos l = Some (i, conf) -> (i < length l)%nat.
Proof.
  revert i conf. induction l as [|e l IH]; cbn; intros i conf; [done|].
  destruct (min_pos l) as [[j cj]|]; [|intros [= <- <-]; lia].
  case_match; intros [= <- <-]; [|lia]. specialize (IH j cj eq_refl). lia.
Qed.

Lemma min_pos_some l : l <> [] -> exists i conf, min_pos l = Some (i, conf).
Proof. destruct l as [|e l]; [done|]. intros _. cbn. destruct (min_pos l) as [[j cj]|]; [case_match|]; eauto. Qed.

Lemma delete_sublist {A} i (l : list A) : delete i l `sublist_of` l.
Proof. revert i. induction l as [|x l IH]; intros [|i]; cbn; try (by constructor); try done; by constructor. Qed.

Lemma stride_miss_ok tab pc blk :
  table_ok tab -> pc ∉ map se_instAddr tab -> block_addr blk -> table_ok (stride_miss tab pc blk).
Proof.
  intros (Hl & Hnd & Hf) Hpc Hb. unfold stride_miss.
  set (t := if 256 <=? _ then _ else _).
  assert (t `sublist_of` tab /\ (length t <= 255)%nat) as [Hsub Hlen].
  { unfold t. destruct (Z.leb_spec 256 (Z.of_nat (length tab))) as [Hge|]; [|split; [done | lia]].
    destruct (min_pos_some tab) as (i & conf & E); [by intros ->|]. rewrite E. apply min_pos_lt in E.
    split; [apply delete_sublist|]. rewrite length_delete by (by apply lookup_lt_is_Some). lia. }
  split_and!.
  - rewrite length_app. cbn. lia.
  - rewrite map_app. apply NoDup_app. split_and!.
    + eapply sublist_NoDup; [done|]. by apply (fmap_sublist se_instAddr).
    + intros x Hx. cbn. rewrite list_elem_of_singleton. intros ->. apply Hpc.
      eapply elem_of_sublist; [done|]. by apply (fmap_sublist se_instAddr).
    + apply NoDup_singleton.
  - apply Forall_app. split; [rewrite Forall_forall in *; intros x Hx; eapply Hf, elem_of_sublist; done|]. apply Forall_singleton.
    split; [done|]. split; [apply Z.divide_0_r|]. cbn. unfold Min_Conf, Max_Conf. lia.
Qed.

Lemma stride_table_ok tab pc blk :
  table_ok tab -> block_addr blk ->
  table_ok (stride_table c tab pc blk).1 /\ Forall block_addr (stride_table c tab pc blk).2.
Proof.
  intros T Hb. unfold stride_table. pose proof (find_entry_spec pc tab) as F.
  destruct (find_entry pc tab) as [[i e]|].
  - destruct F as [Hi Hpc]. pose proof T as (Hl & Hnd & Hf).
    destruct (stride_hit_ok e blk) as (Hpc' & He & Ha); [by eapply Forall_lookup_1 | done|].
    destruct (stride_hit c e blk) as [e' addrs]. cbn [fst snd] in *. split; [|done]. split_and!.
    + by rewrite length_insert.
    + replace (map se_instAddr (<[i := e']> tab)) with (map se_instAddr tab); [done|].
      change (se_instAddr <$> tab = se_instAddr <$> <[i := e']> tab). rewrite list_fmap_insert, Hpc'.
      symmetry. apply list_insert_id. by rewrite list_lookup_fmap, Hi.
    + by apply Forall_insert.
  - split; [by apply stride_miss_ok | constructor].
Qed.

(** A request the prefetcher can be told of: its master has a table. *)
Definition trigger_ok (r : Request) : Prop := 0 <= masterId r < 64.

(** The requests of a CPU carry the ids of its context and thread; those a cache
    makes for its writebacks carry none. *)
Definition has_ids (r : Request) : bool := hasContextId r && Flags_isSet (privateFlags r) VALID_THREAD_ID.

Lemma arr_get_Forall {A} (P : A -> Prop) (l : list A) i :
  Forall P l -> 0 <= i < Z.of_nat (length l) -> exists x, arr_get l i = Ok x /\ P x.
Proof.
  intros HP Hi. destruct (arr_get_total l i Hi) as [x Hx]. exists x. split; [done|].
  apply arr_get_Ok in Hx as [_ Hx]. by eapply Forall_lookup_1.
Qed.

Lemma arr_set_Forall {A} (P : A -> Prop) (l : list A) i x :
  Forall P l -> P x -> 0 <= i < Z.of_nat (length l) ->
  exists l', arr_set l i x = Ok l' /\ length l' = length l /\ Forall P l'.
Proof.
  intros HP Hx Hi. exists (<[Z.to_nat i := x]> l). split; [by apply arr_set_Ok|].
  split; [apply length_insert | by apply Forall_insert].
Qed.

Lemma calculatePrefetch_ok r addr m :
  memory_ok m -> trigger_ok r -> 0 <= addr < 2 ^ 64 ->
  exists m' addrs, calculatePrefetch c r addr m = Ok (m', addrs) /\ memory_ok m' /\ Forall block_addr addrs.
Proof.
  unfold trigger_ok. intros M Hid Ha. pose proof (blkAddr_block addr Ha) as Hb.
  set (mid := if pf_useMasterId c then masterId r else 0).
  assert (0 <= mid < 64) as Hmid by (unfold mid; case_match; lia).
  destruct m as [|table|second last]; cbn [calculatePrefetch].
  - eexists _, _. split; [done|]. split; [done|]. apply ahead_blocks; [apply Hb|].
    rewrite (pc_blk Hc). apply Z.divide_refl.
  - destruct M as [Hl Ht]. unfold stride_prefetch. destruct (hasPC r) eqn:Hpc; cbn [negb].
    2:{ rewrite bind_Ok_l. eexists _, _. split; [done|]. done. }
    unfold getPC. unfold hasPC in Hpc. rewrite Hpc. cbn [cassert]. rewrite !bind_Ok_l. fold mid.
    assert (mid <? Max_Contexts = true) as -> by (apply Z.ltb_lt; unfold Max_Contexts; lia). cbn [cassert]. rewrite bind_Ok_l.
    destruct (arr_get_Forall _ _ mid Ht) as (tab & -> & Htab); [lia|]. rewrite bind_Ok_l.
    destruct (stride_table_ok tab (_pc r) (blkAddr c addr) Htab Hb) as [T' A'].
    destruct (stride_table c tab _ _) as [tab' addrs]. cbn [fst snd] in *.
    destruct (arr_set_Forall _ table mid tab' Ht T') as (table' & -> & Hl' & Ht'); [lia|]. rewrite !bind_Ok_l.
    eexists _, _. split; [done|]. split; [split; [congruence | done] | done].
  - destruct M as (Hs & Hl & Has & Hal). unfold ghb_prefetch. fold mid.
    assert (mid <? Max_Masters = true) as -> by (apply Z.ltb_lt; unfold Max_Masters; lia). cbn [cassert]. rewrite bind_Ok_l.
    destruct (arr_get_Forall _ last mid Hal) as (l & -> & Hal'); [lia|].
    destruct (arr_get_Forall _ second mid Has) as (s' & -> & Has'); [lia|]. rewrite !bind_Ok_l.
    destruct (arr_set_Forall _ second mid l Has Hal') as (second' & -> & Hl1 & Hf1); [lia|].
    destruct (arr_set_Forall _ last mid (blkAddr c addr) Hal) as (last' & -> & Hl2 & Hf2); [apply Hb | lia|].
    rewrite !bind_Ok_l. eexists _, _. split; [done|]. split; [split_and!; congruence|].
    case_match; [|constructor]. apply ahead_blocks; [apply Hb|]. apply aligned_i32, Z.divide_sub_r; [apply Hb | done].
Qed.

(** * The queue *)

(** A packet of the queue, with its request. *)
Record pf_entry (h : ReqHeap) (next : Z) (pkt : Packet) : Prop := {
  pe_cmd : pkt_cmd pkt = HardPFReq;
  pe_valid : pkt_test VALID_ADDR pkt = true;
  pe_addr : block_addr (pkt_addr pkt);
  pe_size : pkt_size pkt = pf_blkSize c;
  pe_thread : pkt_threadID pkt = 0;
  pe_req : exists r, h !! pkt_req pkt = Some r /\ _paddr r = pkt_addr pkt /\ masterId r = pf_masterId c;
  pe_next : pkt_req pkt < next
}.

(** Everything queued up to time [T]. *)
Record pf_inv (T : Z) (p : Prefetcher) : Prop := {
  pi_entries : Forall (pf_entry (pf_reqs p) (pf_nextReq p)) (pf_queue p);
  pi_blocks : NoDup (map pkt_addr (pf_queue p));
  pi_reqs : NoDup (map pkt_req (pf_queue p));
  pi_size : Z.of_nat (length (pf_queue p)) <= pf_size c;
  pi_sorted : StronglySorted Z.le (map pkt_time (pf_queue p));
  pi_time : Forall (fun pkt => pkt_time pkt <= T + pf_latency c) (pf_queue p);
  pi_memory : memory_ok (pf_memory p)
}.

Lemma sorted_sublist l l' : StronglySorted Z.le l -> l' `sublist_of` l -> StronglySorted Z.le l'.
Proof.
  intros S H. induction H as [|x l1 l2 H IH|x l1 l2 H IH]; [done| |].
  - inv S. constructor; [by apply IH|]. rewrite Forall_forall in *. intros y Hy. eauto using elem_of_sublist.
  - inv S. by apply IH.
Qed.

Lemma sorted_snoc l x : StronglySorted Z.le l -> Forall (fun y => y <= x) l -> StronglySorted Z.le (l ++ [x]).
Proof.
  intros S F. induction S as [|y l S IH H]; [repeat constructor|]. inv F. cbn. constructor; [by apply IH|].
  apply Forall_app. split; [done | by apply Forall_singleton].
Qed.

Lemma inv_sublist T p p' :
  pf_inv T p -> pf_queue p' `sublist_of` pf_queue p -> pf_memory p' = pf_memory p -> pf_nextReq p' = pf_nextReq p ->
  (forall pkt, pkt ∈ pf_queue p' -> pf_reqs p' !! pkt_req pkt = pf_reqs p !! pkt_req pkt) -> pf_inv T p'.
Proof.
  intros [] Hs Hm Hn Hr. split.
  - rewrite Forall_forall in *. intros pkt Hp. destruct (pi_entries0 pkt) as []; [by eapply elem_of_sublist|].
    split; try done; [by rewrite Hr | by rewrite Hn].
  - eapply sublist_NoDup; [exact pi_blocks0|]. by apply (fmap_sublist pkt_addr).
  - eapply sublist_NoDup; [exact pi_reqs0|]. by apply (fmap_sublist pkt_req).
  - apply sublist_length in Hs. lia.
  - eapply sorted_sublist; [done|]. by apply (fmap_sublist pkt_time).
  - rewrite Forall_forall in *. intros pkt Hp. eapply pi_time0, elem_of_sublist; done.
  - by rewrite Hm.
Qed.

(** Dropping the packet at position [i] and its request. *)
Lemma inv_drop T p i pkt :
  pf_inv T p -> pf_queue p !! i = Some pkt -> pf_inv T (with_pf_queue (delete i (pf_queue p)) (free_req pkt p)).
Proof.
  intros I Hi. eapply inv_sublist; [done | apply delete_sublist | done..|].
  intros q Hq. cbn in *. rewrite lookup_delete_ne; [done|]. intros E. pose proof (pi_reqs _ _ I) as Hnd.
  pose proof (delete_Permutation _ _ _ Hi) as Hp. rewrite (Permutation_map pkt_req Hp) in Hnd. cbn in Hnd.
  apply NoDup_cons in Hnd as [Hnd _]. apply Hnd. rewrite E. by apply (list_elem_of_fmap_2 pkt_req).
Qed.

Lemma inv_later T T' p : T <= T' -> pf_inv T p -> pf_inv T' p.
Proof. intros H []. split; try done. eapply Forall_impl; [done|]. intros x Hx. cbn in *. lia. Qed.

Lemma getAddr_eq pkt : pkt_test VALID_ADDR pkt = true -> getAddr pkt = Ok (pkt_addr pkt).
Proof. intros H. unfold getAddr. by rewrite H. Qed.

Lemma inPrefetch_spec h n a l :
  Forall (pf_entry h n) l ->
  exists oi, inPrefetch c a l = Ok oi /\
    match oi with
    | Some i => exists pkt, l !! i = Some pkt /\ pkt_addr pkt = a
    | None => a ∉ map pkt_addr l
    end.
Proof.
  induction 1 as [|pkt l [] Hl IH]; [exists None; set_solver|]. cbn [inPrefetch].
  rewrite getAddr_eq, bind_Ok_l, blkAddr_aligned by (done || apply pe_addr0).
  destruct (Z.eqb_spec (pkt_addr pkt) a) as [E|E].
  - exists (Some O). split; [done|]. by exists pkt.
  - destruct IH as (oi & -> & Ho). rewrite bind_Ok_l. exists (option_map S oi). split; [done|].
    destruct oi as [i|]; cbn; [done|]. set_solver.
Qed.

(** The request and the packet of a prefetch. *)
Definition pf_request (junk : Request) (curTick addr : Z) : Request :=
  with_privateFlags (Z.lor VALID_PADDR REQ_VALID_SIZE) (with__flags 0
    (with__masterId (pf_masterId c) (with__time curTick (with__size (pf_blkSize c) (with__paddr addr (Request_new junk)))))).
Definition pf_packet (curTick addr ptr : Z) : Packet :=
  pkt_set (Z.lor DYNAMIC_DATA ARRAY_DATA) (with_pkt_data (Some (replicate (Z.to_nat (pf_blkSize c)) 0))
    (pkt_set VALID_SIZE (with_pkt_size (pf_blkSize c) (pkt_set VALID_ADDR (with_pkt_addr addr
      (Packet_blank ptr HardPFReq 0 curTick)))))).

Lemma make_prefetch junk curTick addr (h : ReqHeap) (ptr : Z) :
  setPhys addr (pf_blkSize c) 0 (pf_masterId c) curTick (Request_new junk) = Ok (pf_request junk curTick addr) /\
  (pkt ← Packet_new (<[ptr := pf_request junk curTick addr]> h) ptr HardPFReq curTick; allocate pkt)
    = Ok (pf_packet curTick addr ptr).
Proof.
  pose proof k_pos. split.
  - unfold setPhys. rewrite cassert_leb by (rewrite (pc_blk Hc); lia). reflexivity.
  - unfold Packet_new, req_deref. rewrite lookup_insert_eq. reflexivity.
Qed.

Lemma pf_packet_entry junk curTick addr (h : ReqHeap) (ptr ctx tid time : Z) :
  block_addr addr ->
  pf_entry (<[ptr := setThreadContext ctx tid (pf_request junk curTick addr)]> h) (ptr + 1)
    (with_pkt_time time (pf_packet curTick addr ptr)).
Proof.
  intros Ha. split; try done.
  - eexists. split; [apply lookup_insert_eq|]. done.
  - cbn. lia.
Qed.

(** The queue with a new packet at its end. *)
Lemma inv_push time p h addr pkt :
  pf_inv time p -> Z.of_nat (length (pf_queue p)) < pf_size c -> addr ∉ map pkt_addr (pf_queue p) ->
  pf_entry h (pf_nextReq p + 1) pkt -> pkt_addr pkt = addr -> pkt_req pkt = pf_nextReq p ->
  pkt_time pkt = time + pf_latency c -> (forall ptr, ptr <> pf_nextReq p -> h !! ptr = pf_reqs p !! ptr) ->
  pf_inv time (with_pf_queue (pf_queue p ++ [pkt]) (with_pf_nextReq (pf_nextReq p + 1) (with_pf_reqs h p))).
Proof.
  intros [] Hl Hna He Ha Hr Ht Hh.
  assert (forall q, q ∈ pf_queue p -> pkt_req q < pf_nextReq p) as Hlt.
  { intros q Hq. rewrite Forall_forall in pi_entries0. apply pi_entries0. done. }
  split; cbn.
  - apply Forall_app. split; [|by apply Forall_singleton]. rewrite Forall_forall in *. intros q Hq.
    destruct (pi_entries0 q Hq). split; try done; [|specialize (Hlt q Hq); lia]. rewrite Hh; [done|]. specialize (Hlt q Hq). lia.
  - rewrite map_app. apply NoDup_app. split_and!; [done| |apply NoDup_singleton].
    intros x Hx Hx'. apply list_elem_of_singleton in Hx' as ->. congruence.
  - rewrite map_app. apply NoDup_app. split_and!; [done| |apply NoDup_singleton].
    intros x Hx Hx'. apply list_elem_of_singleton in Hx' as ->. apply list_elem_of_fmap in Hx as (q & E & Hq).
    specialize (Hlt q Hq). lia.
  - rewrite length_app. cbn. lia.
  - rewrite map_app. apply sorted_snoc; [done|]. rewrite Ht. apply Forall_map. exact pi_time0.
  - apply Forall_app. split; [done|]. apply Forall_singleton. lia.
  - done.
Qed.

Lemma trigger_ids r : has_ids r = true -> contextId r = Ok (_contextId r) /\ threadId r = Ok (_threadId r).
Proof.
  unfold has_ids, hasContextId, contextId, threadId. intros [H1 H2]%andb_true_iff. by rewrite H1, H2.
Qed.

Lemma no_ids r {A} (f : Z -> Z -> result A) :
  has_ids r = false -> (ctx ← contextId r; tid ← threadId r; f ctx tid) = Err AssertFail.
Proof.
  unfold has_ids, hasContextId, contextId, threadId. intros H.
  destruct (Flags_isSet _ VALID_CONTEXT_ID); [|done]. cbn in H |- *. by rewrite H.
Qed.

Lemma queue_prefetch_ok junk curTick time r p addr :
  pf_inv time p -> has_ids r = true -> block_addr addr -> 0 <= time -> time + pf_latency c < 2 ^ 64 ->
  exists p', queue_prefetch c junk curTick time r p addr = Ok p' /\ pf_inv time p'.
Proof.
  intros I Hr Ha Ht Hb. pose proof (pc_latency Hc). unfold queue_prefetch.
  destruct (inPrefetch_spec _ _ addr _ (pi_entries _ _ I)) as (oi & -> & Ho). rewrite bind_Ok_l.
  destruct oi as [i|]; [by exists p|].
  destruct (trigger_ids r Hr) as [-> ->]. destruct (make_prefetch junk curTick addr (pf_reqs p) (pf_nextReq p)) as [-> Hpk].
  rewrite !bind_Ok_l. apply bind_Ok in Hpk as (pk & -> & Hpk). rewrite bind_Ok_l, Hpk, bind_Ok_l, u64_small by lia.
  rewrite insert_insert_eq.
  set (pkt := with_pkt_time _ _). set (h := <[_ := setThreadContext _ _ _]> _).
  assert (pf_entry h (pf_nextReq p + 1) pkt) as He by (by apply pf_packet_entry).
  cbn [pf_queue with_pf_nextReq with_pf_reqs].
  destruct (Z.eqb_spec (Z.of_nat (length (pf_queue p))) (pf_size c)) as [El|El].
  - destruct (pf_queue p) as [|old l] eqn:Eq; [pose proof (pc_size Hc); cbn in El; lia|]. rewrite bind_Ok_l.
    pose proof (inv_drop _ _ 0 old I) as I1. rewrite Eq in I1. specialize (I1 eq_refl). cbn [delete list_delete] in I1.
    set (p1 := with_pf_queue l (free_req old p)) in *.
    eexists. split; [done|].
    assert (pkt_req old < pf_nextReq p) as Hold.
    { pose proof (pi_entries _ _ I) as Hent. rewrite Eq in Hent. inv Hent. by eapply pe_next. }
    pose proof (inv_push time p1 (delete (pkt_req old) h) addr pkt I1) as P. cbn in P. eapply P; try done.
    + cbn in El. lia.
    + cbn in Ho. set_solver.
    + destruct He. split; try done. rewrite lookup_delete_ne; [done|]. cbn. lia.
    + intros ptr Hne. destruct (decide (ptr = pkt_req old)) as [->|]; [by rewrite !lookup_delete_eq|].
      rewrite !lookup_delete_ne by done. unfold h. by rewrite lookup_insert_ne.
  - rewrite bind_Ok_l. eexists. split; [done|]. pose proof (pi_size _ _ I).
    apply (inv_push time p h addr pkt); try done; [lia|]. intros ptr Hne. unfold h. by rewrite lookup_insert_ne.
Qed.

(** What happens to a candidate of a request without ids: nothing if it is queued
    already, and otherwise the assertion of [contextId] or of [threadId] fails. *)
Definition queued (p : Prefetcher) (a : Z) : bool := bool_decide (a ∈ map pkt_addr (pf_queue p)).

Lemma queue_prefetch_no_ids junk curTick time r p addr :
  pf_inv time p -> has_ids r = false ->
  queue_prefetch c junk curTick time r p addr = if queued p addr then Ok p else Err AssertFail.
Proof.
  intros I Hr. unfold queue_prefetch, queued.
  destruct (inPrefetch_spec _ _ addr _ (pi_entries _ _ I)) as (oi & -> & Ho). rewrite bind_Ok_l. destruct oi as [i|].
  - destruct Ho as (pkt & Hi & <-). rewrite bool_decide_eq_true_2; [done|].
    apply (list_elem_of_fmap_2 pkt_addr). by eapply list_elem_of_lookup_2.
  - rewrite bool_decide_eq_false_2 by done.
    destruct (make_prefetch junk curTick addr (pf_reqs p) (pf_nextReq p)) as [-> _]. rewrite bind_Ok_l.
    by apply no_ids.
Qed.

Lemma queue_all_no_ids junk curTick time r p addrs :
  pf_inv time p -> has_ids r = false ->
  foldM (queue_prefetch c junk curTick time r) p addrs = if forallb (queued p) addrs then Ok p else Err AssertFail.
Proof.
  intros I Hr. induction addrs as [|a l IH]; [done|]. cbn [foldM forallb].
  rewrite queue_prefetch_no_ids by done. destruct (queued p a); [by rewrite bind_Ok_l|done].
Qed.

(** ** Squashing *)

Lemma squash_spec time l : forall p, exists l1 l2,
  l = l1 ++ l2 /\ pf_squash time l p = (l2, with_pf_reqs (foldl (fun h q => delete (pkt_req q) h) (pf_reqs p) l1) p) /\
  Forall (fun q => time <= pkt_time q) l1 /\ (forall q, head l2 = Some q -> pkt_time q < time).
Proof.
  induction l as [|q l IH]; intros p; cbn [pf_squash].
  - exists [], []. split; [done|]. split; [by destruct p|]. done.
  - destruct (Z.leb_spec time (pkt_time q)) as [Hle|Hgt].
    + destruct (IH (free_req q p)) as (l1 & l2 & -> & -> & Hl & Hh). exists (q :: l1), l2.
      split; [done|]. split; [done|]. split; [by constructor | done].
    + exists [], (q :: l). split; [done|]. split; [by destruct p|]. split; [done|]. by intros ? [= <-].
Qed.

Lemma delete_all (l : list Packet) : forall (h : ReqHeap) (ptr : Z),
  ptr ∉ map pkt_req l -> foldl (fun h q => delete (pkt_req q) h) h l !! ptr = h !! ptr.
Proof.
  induction l as [|q l IH]; intros h ptr Hp; [done|]. cbn in *. apply not_elem_of_cons in Hp as [Hne Hp].
  rewrite IH, lookup_delete_ne by done. done.
Qed.

Lemma squash_inv T time p :
  pf_inv T p -> let '(l, p') := pf_squash time (rev (pf_queue p)) p in pf_inv T (with_pf_queue (rev l) p').
Proof.
  intros I. destruct (squash_spec time (rev (pf_queue p)) p) as (l1 & l2 & E & -> & _).
  assert (pf_queue p = rev l2 ++ rev l1) as Eq by (by rewrite <- (rev_involutive (pf_queue p)), E, rev_app_distr).
  eapply inv_sublist; [exact I | | done..|].
  - cbn. rewrite Eq. apply sublist_inserts_r. done.
  - intros q Hq. cbn in *. apply delete_all. intros Hin. pose proof (pi_reqs _ _ I) as Hnd. rewrite Eq, map_app in Hnd.
    apply NoDup_app in Hnd as (_ & Hd & _). apply (Hd (pkt_req q)); [by apply (list_elem_of_fmap_2 pkt_req)|].
    rewrite map_rev, <- Permutation_rev. done.
Qed.

Lemma sorted_later (l1 l2 : list Packet) x y :
  StronglySorted Z.le (map pkt_time (l1 ++ l2)) -> x ∈ l1 -> y ∈ l2 -> pkt_time x <= pkt_time y.
Proof.
  intros S Hx Hy. induction l1 as [|z l1 IH]; [by apply elem_of_nil in Hx|]. cbn in S.
  apply StronglySorted_inv in S as [S F]. apply elem_of_cons in Hx as [->|Hx]; [|by apply IH].
  rewrite Forall_forall in F. apply F, list_elem_of_fmap_2. apply elem_of_app. by right.
Qed.

(** Squashing drops the packets that are not older than [time], no other: the
    search from the end is enough. *)
Lemma squash_elem T time p q :
  pf_inv T p -> q ∈ rev (pf_squash time (rev (pf_queue p)) p).1 <-> q ∈ pf_queue p /\ pkt_time q < time.
Proof.
  intros I. destruct (squash_spec time (rev (pf_queue p)) p) as (l1 & l2 & E & -> & Hl & Hh). cbn [fst].
  assert (pf_queue p = rev l2 ++ rev l1) as Eq by (by rewrite <- (rev_involutive (pf_queue p)), E, rev_app_distr).
  pose proof (pi_sorted _ _ I) as S. rewrite Eq in *. rewrite elem_of_app. split.
  - intros Hq. split; [by left|]. destruct l2 as [|x l2]; [by apply elem_of_nil in Hq|]. specialize (Hh x eq_refl).
    cbn [rev] in *. apply elem_of_app in Hq as [Hq|Hq%list_elem_of_singleton]; [|by subst].
    rewrite map_app, <- map_app, <- app_assoc in S.
    pose proof (sorted_later (rev l2) ([x] ++ rev l1) q x S Hq ltac:(by left)). lia.
  - intros [[Hq|Hq] Ht]; [done|]. rewrite Forall_forall in Hl. rewrite list_elem_of_In, <- in_rev, <- list_elem_of_In in Hq.
    specialize (Hl q Hq). cbn in Hl. lia.
Qed.

Lemma drop_elem T p i old q :
  pf_inv T p -> pf_queue p !! i = Some old -> q ∈ delete i (pf_queue p) <-> q ∈ pf_queue p /\ pkt_addr q <> pkt_addr old.
Proof.
  intros I Hi. pose proof (delete_Permutation _ _ _ Hi) as Hp. pose proof (pi_blocks _ _ I) as Hnd.
  rewrite (Permutation_map pkt_addr Hp) in Hnd. cbn in Hnd. apply NoDup_cons in Hnd as [Hnd _].
  rewrite Hp at 2. rewrite elem_of_cons. split.
  - intros Hq. split; [by right|]. intros E. apply Hnd. rewrite <- E. by apply list_elem_of_fmap_2.
  - by intros [[->|Hq] Hne].
Qed.

(** ** The two calls *)

(** The requests [notify] acts on. *)
Definition listens (r : Request) : bool := negb (isUncacheable r) && negb (isInstFetch r && pf_onlyData c).

(** The block [a] waits and will still when the candidates of [pkt] are queued: it is
    not the block of [pkt], and a serial prefetcher has not taken it back. *)
Definition still_queued (p : Prefetcher) (pkt : Packet) (time a : Z) : bool :=
  existsb (fun q => (pkt_addr q =? a) && negb (pkt_addr q =? blkAddr c (pkt_addr pkt)) &&
                    (negb (pf_serialSquash c) || (pkt_time q <? time))) (pf_queue p).

(** A call that asks for the ids of a request that has none. *)
Definition lacks_ids (p : Prefetcher) (pkt : Packet) (r : Request) (time : Z) : bool :=
  listens r && negb (has_ids r) &&
  match calculatePrefetch c r (pkt_addr pkt) (pf_memory p) with
  | Ok (_, addrs) => negb (forallb (still_queued p pkt time) addrs)
  | Err _ => false
  end.

(** The queue before the candidates are queued: the block of the access is out, and
    the squashed packets are. *)
Lemma notify_prepare T p pkt time :
  pf_inv T p -> exists i p1 n1 p2 n2,
    inPrefetch c (blkAddr c (pkt_addr pkt)) (pf_queue p) = Ok i /\
    match i with
    | None => Ok (p, O)
    | Some i => old ← of_option OutOfBounds (pf_queue p !! i);
        Ok (with_pf_queue (delete i (pf_queue p)) (free_req old p),
            if_empty (with_pf_queue (delete i (pf_queue p)) (free_req old p)))
    end = Ok (p1, n1) /\
    (if pf_serialSquash c
     then let '(l, p) := pf_squash time (rev (pf_queue p1)) p1 in
          (with_pf_queue (rev l) p, (n1 + if_empty (with_pf_queue (rev l) p))%nat) else (p1, n1)) = (p2, n2) /\
    pf_inv T p2 /\ pf_memory p2 = pf_memory p /\ forall a, queued p2 a = still_queued p pkt time a.
Proof.
  intros I. destruct (inPrefetch_spec _ _ (blkAddr c (pkt_addr pkt)) _ (pi_entries _ _ I)) as (oi & -> & Ho).
  exists oi.
  assert (exists p1 n1, match oi with
    | None => Ok (p, O)
    | Some i => old ← of_option OutOfBounds (pf_queue p !! i);
        Ok (with_pf_queue (delete i (pf_queue p)) (free_req old p),
            if_empty (with_pf_queue (delete i (pf_queue p)) (free_req old p)))
    end = Ok (p1, n1) /\ pf_inv T p1 /\ pf_memory p1 = pf_memory p /\
    forall q, q ∈ pf_queue p1 <-> q ∈ pf_queue p /\ pkt_addr q <> blkAddr c (pkt_addr pkt)) as (p1 & n1 & E1 & I1 & M1 & Q1).
  { destruct oi as [i|].
    - destruct Ho as (old & Hi & <-). rewrite Hi. cbn [of_option]. rewrite bind_Ok_l.
      eexists _, _. split; [done|]. split; [by apply inv_drop|]. split; [done|]. intros q. by eapply drop_elem.
    - eexists _, _. split; [done|]. split; [done|]. split; [done|]. intros q. split; [|by intros []].
      intros Hq. split; [done|]. intros E. apply Ho. rewrite <- E. by apply list_elem_of_fmap_2. }
  exists p1, n1. rewrite E1.
  assert (exists p2 n2, (if pf_serialSquash c
    then let '(l, p) := pf_squash time (rev (pf_queue p1)) p1 in
         (with_pf_queue (rev l) p, (n1 + if_empty (with_pf_queue (rev l) p))%nat) else (p1, n1)) = (p2, n2) /\
    pf_inv T p2 /\ pf_memory p2 = pf_memory p1 /\
    forall q, q ∈ pf_queue p2 <-> q ∈ pf_queue p1 /\ negb (pf_serialSquash c) || (pkt_time q <? time) = true)
    as (p2 & n2 & E2 & I2 & M2 & Q2).
  { destruct (pf_serialSquash c); cbn [negb orb].
    - pose proof (squash_inv T time p1 I1) as S. pose proof (squash_elem T time p1) as Q.
      destruct (squash_spec time (rev (pf_queue p1)) p1) as (l1 & l2 & _ & E & _). rewrite E in *. cbn [fst] in Q.
      eexists _, _. split; [done|]. split; [exact S|]. split; [done|]. intros q. cbn [pf_queue with_pf_queue].
      rewrite Q by done. by rewrite Z.ltb_lt.
    - eexists _, _. split; [done|]. split; [done|]. split; [done|]. intros q. tauto. }
  exists p2, n2. split; [done|]. split; [done|]. split; [exact E2|]. split; [done|]. split; [congruence|]. intros a.
  unfold queued, still_queued. apply Bool.eq_iff_eq_true. rewrite bool_decide_eq_true, existsb_exists. split.
  - intros (q & -> & Hq)%list_elem_of_fmap. apply Q2 in Hq as [Hq Ht]. apply Q1 in Hq as [Hq Hne].
    exists q. split; [by apply list_elem_of_In|]. rewrite Z.eqb_refl, Ht. apply Z.eqb_neq in Hne as ->. done.
  - intros (q & Hq & Hc'). apply list_elem_of_In in Hq. rewrite !andb_true_iff in Hc'. destruct Hc' as [[<-%Z.eqb_eq Hne] Ht].
    apply list_elem_of_fmap_2, Q2. split; [|done]. apply Q1. split; [done|]. zb. done.
Qed.

(** A call of [notify] fails exactly when it asks for ids that are not there. *)
Lemma notify_ok junk curTick pkt r T time p :
  pf_inv T p -> T <= time -> 0 <= time -> time + pf_latency c < 2 ^ 64 -> trigger_ok r ->
  pkt_test VALID_ADDR pkt = true -> 0 <= pkt_addr pkt < 2 ^ 64 ->
  if lacks_ids p pkt r time then notify c junk curTick pkt r time p = Err AssertFail
  else exists t p' n, notify c junk curTick pkt r time p = Ok (t, p', n) /\ pf_inv time p'.
Proof.
  intros I HT Ht Hb Hr Hv Ha. apply (inv_later T time) in I; [|done]. unfold lacks_ids, notify. fold (listens r).
  destruct (listens r); cbn [andb]; [|rewrite bind_Ok_l; eauto 10]. rewrite getAddr_eq, bind_Ok_l by done.
  destruct (notify_prepare time p pkt time I) as (i & p1 & n1 & p2 & n2 & -> & E1 & E2 & I2 & M2 & Q2). rewrite bind_Ok_l.
  cbn zeta. rewrite E1, bind_Ok_l. cbn zeta in E2. rewrite E2, M2.
  destruct (calculatePrefetch_ok r (pkt_addr pkt) (pf_memory p)) as (m & addrs & -> & Hm & Hadr); [apply I | done..|].
  rewrite bind_Ok_l. cbn [fst snd]. set (p3 := with_pf_memory m p2).
  assert (pf_inv time p3) as I3 by (destruct I2; by split).
  destruct (has_ids r) eqn:Hi; cbn [negb andb].
  - destruct (foldM_total (pf_inv time) (queue_prefetch c junk curTick time r) addrs p3) as (p4 & -> & I4); [|done|].
    { intros s a Hin Is. rewrite Forall_forall in Hadr. apply queue_prefetch_ok; try done. by apply Hadr. }
    rewrite !bind_Ok_l. eauto 10.
  - rewrite queue_all_no_ids by done.
    assert (forallb (queued p3) addrs = forallb (still_queued p pkt time) addrs) as ->.
    { clear Hadr. induction addrs as [|a l IH]; [done|]. cbn [forallb]. rewrite IH. f_equal. apply Q2. }
    destruct (forallb _ _); cbn [negb]; [|done]. rewrite !bind_Ok_l. eauto 10.
Qed.

Lemma get_packet_ok inCache inMissQueue T l : forall p,
  pf_inv T p -> pf_queue p = l ->
  exists r p' n, get_packet c inCache inMissQueue l p = Ok (r, p', n) /\ pf_inv T p' /\
    forall pkt, r = Some pkt -> inCache (pkt_addr pkt) = false /\ inMissQueue (pkt_addr pkt) = false /\
      pkt_cmd pkt = HardPFReq /\ pkt ∈ l.
Proof.
  induction l as [|q l IH]; intros p I E; cbn [get_packet]; [eexists _, _, _; by split_and!|].
  pose proof (pi_entries _ _ I) as He. rewrite E in He. inv He. destruct H1.
  rewrite getAddr_eq, bind_Ok_l, blkAddr_aligned by (done || apply pe_addr0).
  pose proof (inv_drop _ _ O q I) as D. rewrite E in D. specialize (D eq_refl). cbn [delete list_delete] in D.
  destruct (negb (inCache (pkt_addr q)) && _) eqn:Et.
  - eexists _, _, _. split; [done|]. split.
    + eapply inv_sublist; [exact I | cbn; rewrite E; by constructor | done..].
    + zb. intros ? [= <-]. by split_and!; [..|left].
  - destruct l as [|q' l]; [eexists _, _, _; by split_and!|].
    destruct (IH _ D eq_refl) as (r & p' & n & Er & I' & Hr). eexists _, _, _. split; [exact Er|]. split; [done|].
    intros pkt Hp. destruct (Hr pkt Hp) as (? & ? & ? & ?). split_and!; try done. by right.
Qed.

(** * Runs *)

Inductive PfOp :=
  | PfNotify (curTick : Z) (pkt : Packet) (r : Request) (time : Z)
  | PfGet (inCache inMissQueue : Z -> bool).

(** What the cache may call after time [T], and the time afterwards. *)
Definition pf_legal (T : Z) (op : PfOp) : Prop :=
  match op with
  | PfNotify _ pkt r time => T <= time /\ time + pf_latency c < 2 ^ 64 /\ trigger_ok r /\
      pkt_test VALID_ADDR pkt = true /\ 0 <= pkt_addr pkt < 2 ^ 64
  | PfGet _ _ => True
  end.
Definition pf_time (T : Z) (op : PfOp) : Z := match op with PfNotify _ _ _ time => time | PfGet _ _ => T end.

Definition pf_do (junk : Request) (p : Prefetcher) (op : PfOp) : result Prefetcher :=
  match op with
  | PfNotify curTick pkt r time => x ← notify c junk curTick pkt r time p; Ok x.1.2
  | PfGet inCache inMissQueue => x ← getPacket c inCache inMissQueue p; Ok x.1.2
  end.

(** The calls that fail: [contextId] of a request without ids. *)
Definition pf_fails (p : Prefetcher) (op : PfOp) : bool :=
  match op with PfNotify _ pkt r time => lacks_ids p pkt r time | PfGet _ _ => false end.

Fixpoint pf_legals (T : Z) (ops : list PfOp) : Prop :=
  match ops with [] => True | op :: ops' => pf_legal T op /\ pf_legals (pf_time T op) ops' end.

Fixpoint pf_end (T : Z) (ops : list PfOp) : Z := match ops with [] => T | op :: ops' => pf_end (pf_time T op) ops' end.

Lemma pf_do_ok junk T p op :
  0 <= T -> pf_inv T p -> pf_legal T op ->
  if pf_fails p op then pf_do junk p op = Err AssertFail
  else exists p', pf_do junk p op = Ok p' /\ pf_inv (pf_time T op) p' /\ 0 <= pf_time T op.
Proof.
  intros HT I L. destruct op as [cur pkt r time | ic im]; cbn in *.
  - destruct L as (? & ? & ? & ? & ?). pose proof (notify_ok junk cur pkt r T time p) as N.
    destruct (lacks_ids p pkt r time); [by rewrite N by (done || lia)|].
    destruct N as (t & p1 & n & -> & I1); try done; try lia. exists p1. split; [done|]. split; [done | lia].
  - destruct (get_packet_ok ic im T (pf_queue p) p I eq_refl) as (r & p1 & n & E & I1 & _).
    unfold getPacket. rewrite E. exists p1. done.
Qed.

Lemma pf_run_inv junk ops : forall T p p',
  0 <= T -> pf_inv T p -> pf_legals T ops -> foldM (pf_do junk) p ops = Ok p' ->
  pf_inv (pf_end T ops) p' /\ 0 <= pf_end T ops.
Proof.
  induction ops as [|op ops IH]; intros T p p' HT I L E; [cbn in *; by injection E as <-|].
  destruct L as [L Ls]. cbn [foldM] in E. pose proof (pf_do_ok junk T p op HT I L) as D.
  destruct (pf_fails p op); [by rewrite D in E|]. destruct D as (p1 & E1 & I1 & T1). rewrite E1, bind_Ok_l in E. by eapply IH.
Qed.

End Spec.


(** ** An example *)

Definition demo_pf : PfCfg := mkPfCfg 2 64 10 2 false true true false 7 4096.
Definition demo_trigger : Request :=
  setThreadContext 3 1 (with_privateFlags (Z.lor VALID_PC VALID_PADDR)
    (mkRequest 0 64 5 0 0 0 0 0 0 0 0 0x400)).
Definition demo_access (addr : Z) : Packet :=
  pkt_set VALID_ADDR (with_pkt_addr addr (Packet_blank 0 ReadReq 1 0)).
Definition demo_pf_ops : list PfOp :=
  [PfNotify 5 (demo_access 0x1008) demo_trigger 5; PfNotify 9 (demo_access 0x1108) demo_trigger 9;
   PfNotify 12 (demo_access 0x1208) demo_trigger 12; PfGet (fun _ => false) (fun a => a =? 0x1300)].

(** The request of a writeback, as the cache makes it: a physical address, no ids. *)
Definition demo_wb_request : Request := with_privateFlags VALID_PADDR (mkRequest 0 64 0 0 0 0 0 0 0 0 0 0).

Definition demo_writeback : PfOp := PfNotify 13 (with_pkt_cmd Writeback (demo_access 0x1240)) demo_wb_request 13.


(** A writeback that reaches a cache with a tagged prefetcher and misses, or hits
    there when the prefetcher is told of every access: the prefetcher is told of
    it, and fails. *)
Theorem writeback_fails_prefetcher :
  let p := mkPrefetcher [] PfTagged ∅ 0 in
  pf_cfg_ok demo_pf 6 /\ pf_legal demo_pf 0 (PfNotify 5 (with_pkt_cmd Writeback (demo_access 0x1240)) demo_wb_request 5) /\
  pf_do demo_pf demo_trigger p (PfNotify 5 (with_pkt_cmd Writeback (demo_access 0x1240)) demo_wb_request 5) = Err AssertFail.
Proof. split; [by split|]. split; [|vm_compute; reflexivity]. unfold pf_legal, trigger_ok. by split_and!. Qed.

(** * Strides *)

(** The steps ahead of a block, and how far they go. *)
Definition steps (blk stride : Z) (n : nat) : list Z := map (fun d => blk + d * stride) (seqZ 1 (Z.of_nat n)).
Fixpoint take_while (f : Z -> bool) (l : list Z) : list Z :=
  match l with [] => [] | x :: l' => if f x then x :: take_while f l' else [] end.
Definition page_cut (c : PfCfg) (blk : Z) (l : list Z) : list Z :=
  if pf_pageStop c then take_while (samePage c blk) l else l.

Lemma i32_id z : - 2 ^ 31 <= z < 2 ^ 31 -> i32 z = z.
Proof.
  intros H. unfold i32. destruct (decide (0 <= z)).
  - rewrite Z.mod_small by lia. case_match; zb; lia.
  - replace (z mod 2 ^ 32) with (z + 2 ^ 32) by (apply Z.mod_unique with (q := -1); lia). case_match; zb; lia.
Qed.

Lemma ahead_steps c n : forall d blk stride,
  (forall e, d <= e < d + Z.of_nat n -> - 2 ^ 31 <= e * stride < 2 ^ 31 /\ 0 <= blk + e * stride < 2 ^ 64) ->
  ahead c n d blk stride = page_cut c blk (map (fun e => blk + e * stride) (seqZ d (Z.of_nat n))).
Proof.
  unfold page_cut. induction n as [|n IH]; intros d blk stride H; [by destruct (pf_pageStop c)|].
  rewrite seqZ_cons by lia. cbn [ahead map]. replace (Z.pred (Z.of_nat (S n))) with (Z.of_nat n) by lia.
  destruct (H d) as [H1 H2]; [lia|]. rewrite i32_id, u64_small by done.
  rewrite (IH (d + 1)) by (intros e He; apply H; lia). unfold Z.succ.
  destruct (pf_pageStop c); cbn; [|done]. by destruct (samePage c blk _).
Qed.

(** The table after accesses by other instructions. *)
Definition table_run (c : PfCfg) (tab : list StrideEntry) (l : list (Z * Z)) : list StrideEntry :=
  foldl (fun t x => (stride_table c t x.1 x.2).1) tab l.

Definition entry_of (pc : Z) (tab : list StrideEntry) : option StrideEntry := snd <$> find_entry pc tab.

Lemma find_entry_app pc l x :
  find_entry pc (l ++ [x]) = match find_entry pc l with
                             | Some r => Some r
                             | None => if se_instAddr x =? pc then Some (length l, x) else None
                             end.
Proof.
  induction l as [|e l IH]; cbn; [done|]. destruct (se_instAddr e =? pc); [done|]. rewrite IH.
  destruct (find_entry pc l) as [[i e']|]; [done|]. by destruct (se_instAddr x =? pc).
Qed.

Lemma entry_insert pc l i e e' :
  find_entry (se_instAddr e) l = Some (i, e) -> se_instAddr e' = se_instAddr e ->
  entry_of pc (<[i := e']> l) = if se_instAddr e =? pc then Some e' else entry_of pc l.
Proof.
  unfold entry_of. revert i. induction l as [|x l IH]; intros i; cbn; [done|].
  destruct (Z.eqb_spec (se_instAddr x) (se_instAddr e)) as [Ex|Ex].
  - intros [= <- ->] E'. cbn. rewrite E'. by destruct (se_instAddr e =? pc).
  - destruct (find_entry (se_instAddr e) l) as [[j ej]|] eqn:Ef; [|done]. intros [= <- ->] E'. cbn.
    specialize (IH j eq_refl E'). destruct (Z.eqb_spec (se_instAddr x) pc) as [<-|Hx].
    + apply Z.eqb_neq in Ex. by rewrite Z.eqb_sym, Ex.
    + destruct (find_entry pc (<[j:=e']> l)) as [[? ?]|], (find_entry pc l) as [[? ?]|]; cbn in *; done.
Qed.

Lemma stride_table_entry c tab pc blk pc' :
  (length tab < 256)%nat ->
  let t := (stride_table c tab pc blk).1 in
  (length t <= S (length tab))%nat /\
  entry_of pc' t = if pc =? pc' then Some match entry_of pc tab with
                                          | Some e => (stride_hit c e blk).1
                                          | None => mkStrideEntry pc blk 0 0
                                          end
                   else entry_of pc' tab.
Proof.
  intros Hl. unfold stride_table. pose proof (find_entry_spec pc tab) as F.
  destruct (find_entry pc tab) as [[i e]|] eqn:Ef.
  - destruct F as [Hi <-]. assert (se_instAddr (stride_hit c e blk).1 = se_instAddr e) as Hs.
    { unfold stride_hit. by destruct (_ && _). }
    pose proof (entry_insert pc' tab i e (stride_hit c e blk).1 Ef Hs) as Ei.
    unfold entry_of at 2. rewrite Ef. cbn [fmap option_fmap option_map snd].
    destruct (stride_hit c e blk) as [e' addrs]. cbn [fst] in *. split; [rewrite length_insert; lia | done].
  - cbn [fst]. unfold stride_miss. replace (256 <=? Z.of_nat (length tab)) with false by (symmetry; apply Z.leb_gt; lia).
    split; [rewrite length_app; cbn; lia|]. unfold entry_of. rewrite find_entry_app, Ef. cbn [fmap option_fmap option_map se_instAddr].
    destruct (Z.eqb_spec pc pc') as [<-|Hne]; [by rewrite Ef|].
    by destruct (find_entry pc' tab).
Qed.

Lemma table_run_entry c l : forall tab pc,
  Forall (fun x => x.1 <> pc) l -> (length tab + length l <= 256)%nat ->
  (length (table_run c tab l) <= length tab + length l)%nat /\ entry_of pc (table_run c tab l) = entry_of pc tab.
Proof.
  induction l as [|x l IH]; intros tab pc F Hl; [cbn; split; [lia | done]|]. inv F. cbn [length] in *.
  change (table_run c tab (x :: l)) with (table_run c (stride_table c tab x.1 x.2).1 l).
  destruct (stride_table_entry c tab x.1 x.2 pc) as [L1 E1]; [lia|].
  destruct (IH (stride_table c tab x.1 x.2).1 pc) as [L2 E2]; [done | lia|].
  split; [lia|]. rewrite E2, E1.
  by replace (x.1 =? pc) with false by (symmetry; by apply Z.eqb_neq).
Qed.

(** C12. C44: an instruction that walks through memory with a fixed stride is
    recognised at its third access, whatever other instructions access in between
    as long as the table has room: from there the prefetcher asks for the next
    [degree] steps of the walk, up to the end of the page if it stops there. *)
Theorem stride_recognised c tab pc a s l1 l2 :
  entry_of pc tab = None -> s <> 0 ->
  Forall (fun x => x.1 <> pc) l1 -> Forall (fun x => x.1 <> pc) l2 ->
  (length tab + length l1 + length l2 < 253)%nat ->
  (forall e, 0 <= e <= pf_degree c -> - 2 ^ 31 <= e * s < 2 ^ 31 /\ 0 <= a + 2 * s + e * s < 2 ^ 64) -> - 2 ^ 31 <= s < 2 ^ 31 ->
  let t1 := table_run c (stride_table c tab pc a).1 l1 in
  let t2 := table_run c (stride_table c t1 pc (a + s)).1 l2 in
  (stride_table c t2 pc (a + 2 * s)).2 = page_cut c (a + 2 * s) (steps (a + 2 * s) s (Z.to_nat (pf_degree c))).
Proof.
  intros H0 Hs F1 F2 Hl Hr Hs32 t1 t2.
  destruct (stride_table_entry c tab pc a pc) as [L0 E0]; [lia|]. rewrite Z.eqb_refl, H0 in E0.
  destruct (table_run_entry c l1 (stride_table c tab pc a).1 pc F1) as [L1 E1]; [lia|]. fold t1 in L1, E1.
  destruct (stride_table_entry c t1 pc (a + s) pc) as [L2 E2]; [lia|]. rewrite Z.eqb_refl, E1, E0 in E2.
  destruct (table_run_entry c l2 (stride_table c t1 pc (a + s)).1 pc F2) as [L3 E3]; [lia|]. fold t2 in L3, E3.
  rewrite E2 in E3. unfold stride_hit in E3. cbn [se_missAddr se_stride se_confidence se_instAddr] in E3.
  replace (a + s - a) with s in E3 by lia. rewrite i32_id in E3 by done.
  replace ((s =? 0) && negb (s =? 0)) with false in E3 by (by destruct (s =? 0)). cbn [fst] in E3.
  unfold entry_of in E3. unfold stride_table.
  destruct (find_entry pc t2) as [[i e]|]; [|done]. injection E3 as ->.
  unfold stride_hit. cbn [se_missAddr se_stride se_confidence se_instAddr].
  replace (a + 2 * s - (a + s)) with s by lia. rewrite i32_id, Z.eqb_refl by done.
  replace (s =? 0) with false by (symmetry; by apply Z.eqb_neq). cbn.
  unfold candidates, steps. apply ahead_steps. intros e He. apply Hr. lia.
Qed.

Lemma stride_recognised_witness :
  (stride_table demo_pf (table_run demo_pf (stride_table demo_pf
      (table_run demo_pf (stride_table demo_pf [] 0x400 0x1000).1 [(0x500, 0x9000)]) 0x400 0x1100).1 [])
    0x400 0x1200).2 = [0x1300; 0x1400].
Proof.
  pose proof (stride_recognised demo_pf [] 0x400 0x1000 0x100 [(0x500, 0x9000)] []) as H.
  cbn zeta in H. change (0x1000 + 2 * 0x100) with 0x1200 in H. change (0x1000 + 0x100) with 0x1100 in H. rewrite H.
  - vm_compute. reflexivity.
  - reflexivity.
  - lia.
  - repeat constructor. cbn. lia.
  - constructor.
  - cbn. lia.
  - intros e He. cbn in He. lia.
  - lia.
Defined.

(** A prefetch is built with the constructor that sets no thread: whatever thread
    caused it, it is issued, and fills the cache, as thread 0. *)
Theorem prefetch_loses_thread :
  map (fun op => match op with PfNotify _ pkt _ _ => pkt_threadID pkt | _ => 1 end) demo_pf_ops = [1; 1; 1; 1] /\
  (p ← foldM (pf_do demo_pf demo_trigger) (mkPrefetcher [] StridePrefetcher_new ∅ 0) (take 3 demo_pf_ops);
   Ok (map (fun pkt => (pkt_addr pkt, pkt_threadID pkt)) (pf_queue p))) = Ok [(0x1300, 0); (0x1400, 0)].
Proof. split; vm_compute; reflexivity. Qed.
