(* ===== verification/CacheBase.v ===== *)
(** The state of a cache and the operations of its base classes:
    mem/cache/base.hh and base.cc ([BaseCache] and its ports), with the
    members that [Cache], [SplitMSHRCache], [SplitRPortCache] and the dynamic
    and dirty caches add (cache.hh, split_mshr_cache.hh, split_rport_cache.hh).

    One cache object is a [CState]; its dynamic class is [cp_kind], on which
    the virtual methods dispatch.  The operations are written in a state and
    error monad [M].  Requests and miss registers are shared with the other
    caches ([Shared]); what the cache hands to its neighbours is recorded in
    [sh_trace], most recent first. *)

From S2P Require Import Prelude Request MemCmd Packet Blk CacheSet IntMath TagTypes LRU PartLRU DynaLRU Tags MSHR MSHRQueue PacketQueue.

(** The classes of mem/cache that derive from [Cache<LRU>]. *)
Inductive CacheKind :=
  | KCache
  | KSplitMSHR
  | KSplitRPort
  | KDirty
  | KC_Dynamic
  | KF_Dynamic.

#[global] Instance CacheKind_eq_dec : EqDecision CacheKind.
Proof. solve_decision. Defined.

(** [SplitMSHRCache] and the classes derived from it; [SplitRPortCache] and
    the classes derived from it. *)
Definition is_split (k : CacheKind) : bool :=
  match k with KCache => false | _ => true end.
Definition is_split_rport (k : CacheKind) : bool :=
  match k with KCache | KSplitMSHR => false | _ => true end.

(** The constants of a cache.  [cp_curve] holds the static miss curve of a
    coarse-grained dynamic cache; the source reads it into [float]s, which hold
    the integral values below [2^24] used here, and their differences,
    exactly. *)
Record CacheParams := mkCacheParams {
  cp_kind : CacheKind;
  cp_num_tcs : Z;
  cp_blkSize : Z;
  cp_hitLatency : Z;
  cp_numTarget : Z;
  cp_forwardSnoops : bool;
  cp_isTopLevel : bool;
  cp_maxMasters : Z;
  cp_prefetcher : bool;
  cp_prefetchOnAccess : bool;
  cp_cw_first : bool;
  cp_interval : Z;
  cp_assoc : Z;
  cp_curve : list Z
}.

(** What the cache hands to its neighbours. *)
Inductive Output :=
  | OTimingReq (pkt : Packet)
  | OTimingSnoopReq (pkt : Packet)
  | OTimingSnoopResp (pkt : Packet)
  | OAtomic (pkt : Packet)
  | OAtomicSnoop (pkt : Packet)
  | OFunctional (pkt : Packet)
  | OFunctionalSnoop (pkt : Packet)
  | OPrefetchNotify (pkt : Packet) (time : Z)
  | OPrefetchGet
  | OPrefetchNextReady
  | ODrained (event : Z)
  | OExitSimLoop.

(** Statistics events; a counter is the number (or the sum) of its
    events. *)
Inductive Stat :=
  | St_hits (cmd master : Z)
  | St_misses (cmd master : Z)
  | St_mshr_hits (cmd master : Z)
  | St_mshr_misses (cmd master : Z)
  | St_missLatency (cmd master lat : Z)
  | St_mshr_miss_latency (cmd master lat : Z)
  | St_mshr_uncacheable_lat (cmd master lat : Z)
  | St_blocked_causes (cause : Z)
  | St_blocked_cycles (cause cycles : Z)
  | St_writebacks (master : Z).

Record Shared := mkShared {
  sh_reqs : ReqHeap;
  sh_nextReq : Z;
  sh_mshrs : MSHRHeap;
  sh_trace : list Output
}.

Definition with_sh_reqs (v : ReqHeap) (r : Shared) : Shared :=
  mkShared v (sh_nextReq r) (sh_mshrs r) (sh_trace r).
Definition with_sh_nextReq (v : Z) (r : Shared) : Shared :=
  mkShared (sh_reqs r) v (sh_mshrs r) (sh_trace r).
Definition with_sh_mshrs (v : MSHRHeap) (r : Shared) : Shared :=
  mkShared (sh_reqs r) (sh_nextReq r) v (sh_trace r).
Definition with_sh_trace (v : list Output) (r : Shared) : Shared :=
  mkShared (sh_reqs r) (sh_nextReq r) (sh_mshrs r) v.

Record CState := mkCState {
  cc_par : CacheParams;
  cc_now : Z;
  cc_sh : Shared;
  cc_tags : TagStore;
  cc_tempBlock : CacheBlk;
  cc_queues : list MSHRQueue;
  cc_blocked : Z;
  cc_blocked_array : option (list Z);
  cc_order : Z;
  cc_blockedCycle : Z;
  cc_noTargetMSHR : option MSHRPtr;
  cc_missCount : Z;
  cc_missCounter : Z;
  cc_pendingDelete : list Packet;
  cc_cpu_blocked : bool;
  cc_cpu_mustSendRetry : bool;
  cc_cpu_blocked_array : list bool;
  cc_sendRetryEvent : option Z;
  cc_cpu_queue : PacketQueue;
  cc_respQueues : list PacketQueue;
  cc_mem_queue : PacketQueue;
  cc_reqQueues : list PacketQueue;
  cc_adjustEvent : option Z;
  cc_stats : list Stat
}.

Definition with_cc_par (v : CacheParams) (r : CState) : CState :=
  mkCState v (cc_now r) (cc_sh r) (cc_tags r) (cc_tempBlock r) (cc_queues
    r) (cc_blocked r) (cc_blocked_array r) (cc_order r) (cc_blockedCycle r)
    (cc_noTargetMSHR r) (cc_missCount r) (cc_missCounter r) (cc_pendingDelete
    r) (cc_cpu_blocked r) (cc_cpu_mustSendRetry r) (cc_cpu_blocked_array r)
    (cc_sendRetryEvent r) (cc_cpu_queue r) (cc_respQueues r) (cc_mem_queue r)
    (cc_reqQueues r) (cc_adjustEvent r) (cc_stats r).
Definition with_cc_now (v : Z) (r : CState) : CState :=
  mkCState (cc_par r) v (cc_sh r) (cc_tags r) (cc_tempBlock r) (cc_queues
    r) (cc_blocked r) (cc_blocked_array r) (cc_order r) (cc_blockedCycle r)
    (cc_noTargetMSHR r) (cc_missCount r) (cc_missCounter r) (cc_pendingDelete
    r) (cc_cpu_blocked r) (cc_cpu_mustSendRetry r) (cc_cpu_blocked_array r)
    (cc_sendRetryEvent r) (cc_cpu_queue r) (cc_respQueues r) (cc_mem_queue r)
    (cc_reqQueues r) (cc_adjustEvent r) (cc_stats r).
Definition with_cc_sh (v : Shared) (r : CState) : CState :=
  mkCState (cc_par r) (cc_now r) v (cc_tags r) (cc_tempBlock r) (cc_queues
    r) (cc_blocked r) (cc_blocked_array r) (cc_order r) (cc_blockedCycle r)
    (cc_noTargetMSHR r) (cc_missCount r) (cc_missCounter r) (cc_pendingDelete
    r) (cc_cpu_blocked r) (cc_cpu_mustSendRetry r) (cc_cpu_blocked_array r)
    (cc_sendRetryEvent r) (cc_cpu_queue r) (cc_respQueues r) (cc_mem_queue r)
    (cc_reqQueues r) (cc_adjustEvent r) (cc_stats r).
Definition with_cc_tags (v : TagStore) (r : CState) : CState :=
  mkCState (cc_par r) (cc_now r) (cc_sh r) v (cc_tempBlock r) (cc_queues r)
    (cc_blocked r) (cc_blocked_array r) (cc_order r) (cc_blockedCycle r)
    (cc_noTargetMSHR r) (cc_missCount r) (cc_missCounter r) (cc_pendingDelete
    r) (cc_cpu_blocked r) (cc_cpu_mustSendRetry r) (cc_cpu_blocked_array r)
    (cc_sendRetryEvent r) (cc_cpu_queue r) (cc_respQueues r) (cc_mem_queue r)
    (cc_reqQueues r) (cc_adjustEvent r) (cc_stats r).
Definition with_cc_tempBlock (v : CacheBlk) (r : CState) : CState :=
  mkCState (cc_par r) (cc_now r) (cc_sh r) (cc_tags r) v (cc_queues r)
    (cc_blocked r) (cc_blocked_array r) (cc_order r) (cc_blockedCycle r)
    (cc_noTargetMSHR r) (cc_missCount r) (cc_missCounter r) (cc_pendingDelete
    r) (cc_cpu_blocked r) (cc_cpu_mustSendRetry r) (cc_cpu_blocked_array r)
    (cc_sendRetryEvent r) (cc_cpu_queue r) (cc_respQueues r) (cc_mem_queue r)
    (cc_reqQueues r) (cc_adjustEvent r) (cc_stats r).
Definition with_cc_queues (v : list MSHRQueue) (r : CState) : CState :=
  mkCState (cc_par r) (cc_now r) (cc_sh r) (cc_tags r) (cc_tempBlock r) v
    (cc_blocked r) (cc_blocked_array r) (cc_order r) (cc_blockedCycle r)
    (cc_noTargetMSHR r) (cc_missCount r) (cc_missCounter r) (cc_pendingDelete
    r) (cc_cpu_blocked r) (cc_cpu_mustSendRetry r) (cc_cpu_blocked_array r)
    (cc_sendRetryEvent r) (cc_cpu_queue r) (cc_respQueues r) (cc_mem_queue r)
    (cc_reqQueues r) (cc_adjustEvent r) (cc_stats r).
Definition with_cc_blocked (v : Z) (r : CState) : CState :=
  mkCState (cc_par r) (cc_now r) (cc_sh r) (cc_tags r) (cc_tempBlock r)
    (cc_queues r) v (cc_blocked_array r) (cc_order r) (cc_blockedCycle r)
    (cc_noTargetMSHR r) (cc_missCount r) (cc_missCounter r) (cc_pendingDelete
    r) (cc_cpu_blocked r) (cc_cpu_mustSendRetry r) (cc_cpu_blocked_array r)
    (cc_sendRetryEvent r) (cc_cpu_queue r) (cc_respQueues r) (cc_mem_queue r)
    (cc_reqQueues r) (cc_adjustEvent r) (cc_stats r).
Definition with_cc_blocked_array (v : option (list Z)) (r : CState) : CState :=
  mkCState (cc_par r) (cc_now r) (cc_sh r) (cc_tags r) (cc_tempBlock r)
    (cc_queues r) (cc_blocked r) v (cc_order r) (cc_blockedCycle r)
    (cc_noTargetMSHR r) (cc_missCount r) (cc_missCounter r) (cc_pendingDelete
    r) (cc_cpu_blocked r) (cc_cpu_mustSendRetry r) (cc_cpu_blocked_array r)
    (cc_sendRetryEvent r) (cc_cpu_queue r) (cc_respQueues r) (cc_mem_queue r)
    (cc_reqQueues r) (cc_adjustEvent r) (cc_stats r).
Definition with_cc_order (v : Z) (r : CState) : CState :=
  mkCState (cc_par r) (cc_now r) (cc_sh r) (cc_tags r) (cc_tempBlock r)
    (cc_queues r) (cc_blocked r) (cc_blocked_array r) v (cc_blockedCycle r)
    (cc_noTargetMSHR r) (cc_missCount r) (cc_missCounter r) (cc_pendingDelete
    r) (cc_cpu_blocked r) (cc_cpu_mustSendRetry r) (cc_cpu_blocked_array r)
    (cc_sendRetryEvent r) (cc_cpu_queue r) (cc_respQueues r) (cc_mem_queue r)
    (cc_reqQueues r) (cc_adjustEvent r) (cc_stats r).
Definition with_cc_blockedCycle (v : Z) (r : CState) : CState :=
  mkCState (cc_par r) (cc_now r) (cc_sh r) (cc_tags r) (cc_tempBlock r)
    (cc_queues r) (cc_blocked r) (cc_blocked_array r) (cc_order r) v
    (cc_noTargetMSHR r) (cc_missCount r) (cc_missCounter r) (cc_pendingDelete
    r) (cc_cpu_blocked r) (cc_cpu_mustSendRetry r) (cc_cpu_blocked_array r)
    (cc_sendRetryEvent r) (cc_cpu_queue r) (cc_respQueues r) (cc_mem_queue r)
    (cc_reqQueues r) (cc_adjustEvent r) (cc_stats r).
Definition with_cc_noTargetMSHR (v : option MSHRPtr) (r : CState) : CState :=
  mkCState (cc_par r) (cc_now r) (cc_sh r) (cc_tags r) (cc_tempBlock r)
    (cc_queues r) (cc_blocked r) (cc_blocked_array r) (cc_order r)
    (cc_blockedCycle r) v (cc_missCount r) (cc_missCounter r)
    (cc_pendingDelete r) (cc_cpu_blocked r) (cc_cpu_mustSendRetry r)
    (cc_cpu_blocked_array r) (cc_sendRetryEvent r) (cc_cpu_queue r)
    (cc_respQueues r) (cc_mem_queue r) (cc_reqQueues r) (cc_adjustEvent r)
    (cc_stats r).
Definition with_cc_missCount (v : Z) (r : CState) : CState :=
  mkCState (cc_par r) (cc_now r) (cc_sh r) (cc_tags r) (cc_tempBlock r)
    (cc_queues r) (cc_blocked r) (cc_blocked_array r) (cc_order r)
    (cc_blockedCycle r) (cc_noTargetMSHR r) v (cc_missCounter r)
    (cc_pendingDelete r) (cc_cpu_blocked r) (cc_cpu_mustSendRetry r)
    (cc_cpu_blocked_array r) (cc_sendRetryEvent r) (cc_cpu_queue r)
    (cc_respQueues r) (cc_mem_queue r) (cc_reqQueues r) (cc_adjustEvent r)
    (cc_stats r).
Definition with_cc_missCounter (v : Z) (r : CState) : CState :=
  mkCState (cc_par r) (cc_now r) (cc_sh r) (cc_tags r) (cc_tempBlock r)
    (cc_queues r) (cc_blocked r) (cc_blocked_array r) (cc_order r)
    (cc_blockedCycle r) (cc_noTargetMSHR r) (cc_missCount r) v
    (cc_pendingDelete r) (cc_cpu_blocked r) (cc_cpu_mustSendRetry r)
    (cc_cpu_blocked_array r) (cc_sendRetryEvent r) (cc_cpu_queue r)
    (cc_respQueues r) (cc_mem_queue r) (cc_reqQueues r) (cc_adjustEvent r)
    (cc_stats r).
Definition with_cc_pendingDelete (v : list Packet) (r : CState) : CState :=
  mkCState (cc_par r) (cc_now r) (cc_sh r) (cc_tags r) (cc_tempBlock r)
    (cc_queues r) (cc_blocked r) (cc_blocked_array r) (cc_order r)
    (cc_blockedCycle r) (cc_noTargetMSHR r) (cc_missCount r) (cc_missCounter
    r) v (cc_cpu_blocked r) (cc_cpu_mustSendRetry r) (cc_cpu_blocked_array r)
    (cc_sendRetryEvent r) (cc_cpu_queue r) (cc_respQueues r) (cc_mem_queue r)
    (cc_reqQueues r) (cc_adjustEvent r) (cc_stats r).
Definition with_cc_cpu_blocked (v : bool) (r : CState) : CState :=
  mkCState (cc_par r) (cc_now r) (cc_sh r) (cc_tags r) (cc_tempBlock r)
    (cc_queues r) (cc_blocked r) (cc_blocked_array r) (cc_order r)
    (cc_blockedCycle r) (cc_noTargetMSHR r) (cc_missCount r) (cc_missCounter
    r) (cc_pendingDelete r) v (cc_cpu_mustSendRetry r) (cc_cpu_blocked_array
    r) (cc_sendRetryEvent r) (cc_cpu_queue r) (cc_respQueues r) (cc_mem_queue
    r) (cc_reqQueues r) (cc_adjustEvent r) (cc_stats r).
Definition with_cc_cpu_mustSendRetry (v : bool) (r : CState) : CState :=
  mkCState (cc_par r) (cc_now r) (cc_sh r) (cc_tags r) (cc_tempBlock r)
    (cc_queues r) (cc_blocked r) (cc_blocked_array r) (cc_order r)
    (cc_blockedCycle r) (cc_noTargetMSHR r) (cc_missCount r) (cc_missCounter
    r) (cc_pendingDelete r) (cc_cpu_blocked r) v (cc_cpu_blocked_array r)
    (cc_sendRetryEvent r) (cc_cpu_queue r) (cc_respQueues r) (cc_mem_queue r)
    (cc_reqQueues r) (cc_adjustEvent r) (cc_stats r).
Definition with_cc_cpu_blocked_array (v : list bool) (r : CState) : CState :=
  mkCState (cc_par r) (cc_now r) (cc_sh r) (cc_tags r) (cc_tempBlock r)
    (cc_queues r) (cc_blocked r) (cc_blocked_array r) (cc_order r)
    (cc_blockedCycle r) (cc_noTargetMSHR r) (cc_missCount r) (cc_missCounter
    r) (cc_pendingDelete r) (cc_cpu_blocked r) (cc_cpu_mustSendRetry r) v
    (cc_sendRetryEvent r) (cc_cpu_queue r) (cc_respQueues r) (cc_mem_queue r)
    (cc_reqQueues r) (cc_adjustEvent r) (cc_stats r).
Definition with_cc_sendRetryEvent (v : option Z) (r : CState) : CState :=
  mkCState (cc_par r) (cc_now r) (cc_sh r) (cc_tags r) (cc_tempBlock r)
    (cc_queues r) (cc_blocked r) (cc_blocked_array r) (cc_order r)
    (cc_blockedCycle r) (cc_noTargetMSHR r) (cc_missCount r) (cc_missCounter
    r) (cc_pendingDelete r) (cc_cpu_blocked r) (cc_cpu_mustSendRetry r)
    (cc_cpu_blocked_array r) v (cc_cpu_queue r) (cc_respQueues r)
    (cc_mem_queue r) (cc_reqQueues r) (cc_adjustEvent r) (cc_stats r).
Definition with_cc_cpu_queue (v : PacketQueue) (r : CState) : CState :=
  mkCState (cc_par r) (cc_now r) (cc_sh r) (cc_tags r) (cc_tempBlock r)
    (cc_queues r) (cc_blocked r) (cc_blocked_array r) (cc_order r)
    (cc_blockedCycle r) (cc_noTargetMSHR r) (cc_missCount r) (cc_missCounter
    r) (cc_pendingDelete r) (cc_cpu_blocked r) (cc_cpu_mustSendRetry r)
    (cc_cpu_blocked_array r) (cc_sendRetryEvent r) v (cc_respQueues r)
    (cc_mem_queue r) (cc_reqQueues r) (cc_adjustEvent r) (cc_stats r).
Definition with_cc_respQueues (v : list PacketQueue) (r : CState) : CState :=
  mkCState (cc_par r) (cc_now r) (cc_sh r) (cc_tags r) (cc_tempBlock r)
    (cc_queues r) (cc_blocked r) (cc_blocked_array r) (cc_order r)
    (cc_blockedCycle r) (cc_noTargetMSHR r) (cc_missCount r) (cc_missCounter
    r) (cc_pendingDelete r) (cc_cpu_blocked r) (cc_cpu_mustSendRetry r)
    (cc_cpu_blocked_array r) (cc_sendRetryEvent r) (cc_cpu_queue r) v
    (cc_mem_queue r) (cc_reqQueues r) (cc_adjustEvent r) (cc_stats r).
Definition with_cc_mem_queue (v : PacketQueue) (r : CState) : CState :=
  mkCState (cc_par r) (cc_now r) (cc_sh r) (cc_tags r) (cc_tempBlock r)
    (cc_queues r) (cc_blocked r) (cc_blocked_array r) (cc_order r)
    (cc_blockedCycle r) (cc_noTargetMSHR r) (cc_missCount r) (cc_missCounter
    r) (cc_pendingDelete r) (cc_cpu_blocked r) (cc_cpu_mustSendRetry r)
    (cc_cpu_blocked_array r) (cc_sendRetryEvent r) (cc_cpu_queue r)
    (cc_respQueues r) v (cc_reqQueues r) (cc_adjustEvent r) (cc_stats r).
Definition with_cc_reqQueues (v : list PacketQueue) (r : CState) : CState :=
  mkCState (cc_par r) (cc_now r) (cc_sh r) (cc_tags r) (cc_tempBlock r)
    (cc_queues r) (cc_blocked r) (cc_blocked_array r) (cc_order r)
    (cc_blockedCycle r) (cc_noTargetMSHR r) (cc_missCount r) (cc_missCounter
    r) (cc_pendingDelete r) (cc_cpu_blocked r) (cc_cpu_mustSendRetry r)
    (cc_cpu_blocked_array r) (cc_sendRetryEvent r) (cc_cpu_queue r)
    (cc_respQueues r) (cc_mem_queue r) v (cc_adjustEvent r) (cc_stats r).
Definition with_cc_adjustEvent (v : option Z) (r : CState) : CState :=
  mkCState (cc_par r) (cc_now r) (cc_sh r) (cc_tags r) (cc_tempBlock r)
    (cc_queues r) (cc_blocked r) (cc_blocked_array r) (cc_order r)
    (cc_blockedCycle r) (cc_noTargetMSHR r) (cc_missCount r) (cc_missCounter
    r) (cc_pendingDelete r) (cc_cpu_blocked r) (cc_cpu_mustSendRetry r)
    (cc_cpu_blocked_array r) (cc_sendRetryEvent r) (cc_cpu_queue r)
    (cc_respQueues r) (cc_mem_queue r) (cc_reqQueues r) v (cc_stats r).
Definition with_cc_stats (v : list Stat) (r : CState) : CState :=
  mkCState (cc_par r) (cc_now r) (cc_sh r) (cc_tags r) (cc_tempBlock r)
    (cc_queues r) (cc_blocked r) (cc_blocked_array r) (cc_order r)
    (cc_blockedCycle r) (cc_noTargetMSHR r) (cc_missCount r) (cc_missCounter
    r) (cc_pendingDelete r) (cc_cpu_blocked r) (cc_cpu_mustSendRetry r)
    (cc_cpu_blocked_array r) (cc_sendRetryEvent r) (cc_cpu_queue r)
    (cc_respQueues r) (cc_mem_queue r) (cc_reqQueues r) (cc_adjustEvent r) v.

(** * The monad *)

Definition M (A : Type) : Type := CState -> result (A * CState).
#[global] Instance M_ret : MRet M := fun A a s => Ok (a, s).
#[global] Instance M_bind : MBind M :=
  fun A B f m s => match m s with Ok (a, s') => f a s' | Err e => Err e end.

Definition ret {A} (a : A) : M A := fun s => Ok (a, s).
Definition fail {A} (e : cpp_err) : M A := fun s => Err e.
Definition lift {A} (r : result A) : M A :=
  fun s => match r with Ok a => Ok (a, s) | Err e => Err e end.
Definition gets {A} (f : CState -> A) : M A := fun s => Ok (f s, s).
Definition modify (f : CState -> CState) : M unit := fun s => Ok (tt, f s).
Definition massert (b : bool) : M unit := lift (cassert b).
Definition when (b : bool) (m : M unit) : M unit := if b then m else ret tt.

Fixpoint forM {A} (l : list A) (f : A -> M unit) : M unit :=
  match l with [] => ret tt | a :: l' => f a ;; forM l' f end.

Definition par {A} (f : CacheParams -> A) : M A := gets (fun s => f (cc_par s)).
Definition curTick : M Z := gets cc_now.
Definition stat (x : Stat) : M unit := modify (fun s => with_cc_stats (x :: cc_stats s) s).

Definition emit (o : Output) : M unit :=
  modify (fun s => with_cc_sh (with_sh_trace (o :: sh_trace (cc_sh s)) (cc_sh s)) s).

(** The request behind a packet, and writes to it. *)
Definition request (pkt : Packet) : M Request :=
  fun s => lift (req_deref (sh_reqs (cc_sh s)) (pkt_req pkt)) s.
Definition set_reqs (h : ReqHeap) : M unit :=
  modify (fun s => with_cc_sh (with_sh_reqs h (cc_sh s)) s).
Definition upd_request (pkt : Packet) (f : Request -> Request) : M unit :=
  h ← gets (fun s => sh_reqs (cc_sh s));
  h ← lift (req_update h (pkt_req pkt) f); set_reqs h.
(** [delete pkt->req] *)
Definition delete_request (pkt : Packet) : M unit :=
  h ← gets (fun s => sh_reqs (cc_sh s)); set_reqs (base.delete (pkt_req pkt) h).
(** [new Request(...)] *)
Definition new_request (r : Request) : M RequestPtr :=
  s ← gets cc_sh;
  let a := sh_nextReq s in
  modify (with_cc_sh (with_sh_reqs (<[a := r]> (sh_reqs s)) (with_sh_nextReq (a + 1) s))) ;;
  ret a.

(** Miss registers. *)
Definition mshr (m : MSHRPtr) : M MSHR :=
  fun s => lift (mshr_deref (sh_mshrs (cc_sh s)) m) s.
Definition set_mshrs (mh : MSHRHeap) : M unit :=
  modify (fun s => with_cc_sh (with_sh_mshrs mh (cc_sh s)) s).
Definition upd_mshr (m : MSHRPtr) (f : MSHR -> result MSHR) : M unit :=
  r ← mshr m; r ← lift (f r);
  mh ← gets (fun s => sh_mshrs (cc_sh s)); set_mshrs (<[m := r]> mh).

(** The tag store. *)
Definition tags {A} (f : TagStore -> result A) : M A :=
  fun s => lift (f (cc_tags s)) s.
Definition set_tags (ts : TagStore) : M unit := modify (with_cc_tags ts).
Definition upd_tags (f : TagStore -> result TagStore) : M unit := ts ← tags f; set_tags ts.

(** A block pointer of the cache: a block of the tag store, or
    [tempBlock]. *)
Inductive BlkRef := InTags (p : BlkPtr) | TempBlk.
#[global] Instance BlkRef_eq_dec : EqDecision BlkRef.
Proof. solve_decision. Defined.

Definition blk_get (r : BlkRef) : M CacheBlk :=
  match r with
  | InTags p => tags (fun ts => ts_blk ts p)
  | TempBlk => gets cc_tempBlock
  end.
Definition blk_put (r : BlkRef) (b : CacheBlk) : M unit :=
  match r with
  | InTags p => upd_tags (fun ts => Ok (ts_set_blk ts p b))
  | TempBlk => modify (with_cc_tempBlock b)
  end.
Definition blk_mod (r : BlkRef) (f : CacheBlk -> CacheBlk) : M unit :=
  b ← blk_get r; blk_put r (f b).

(** [tags->invalidateBlk(blk, tid)].  For a valid [tempBlock], which is in
    no set, [moveToTail] runs off the set and its assertion fails. *)
Definition invalidateBlk (r : BlkRef) (tid : Z) : M unit :=
  match r with
  | InTags p => upd_tags (fun ts => LRU_invalidateBlk ts (Some p) tid)
  | TempBlk =>
      b ← gets cc_tempBlock;
      if isValid b then fail AssertFail else modify (with_cc_tempBlock (reset_blk b))
  end.

(** * Queues *)

(** [getMSHRQueue(threadID)] and [getWriteBuffer(threadID)] as positions in
    [cc_queues]: the queues of [BaseCache] come first, then the pair of each
    thread of a split cache. *)
Definition getMSHRQueue (threadID : Z) : M Z :=
  k ← par cp_kind; n ← par cp_num_tcs;
  if is_split k then
    if (0 <=? threadID) && (threadID <? n) then ret (2 + 2 * threadID) else fail OutOfBounds
  else ret 0.
Definition getWriteBuffer (threadID : Z) : M Z :=
  k ← par cp_kind; n ← par cp_num_tcs;
  if is_split k then
    if (0 <=? threadID) && (threadID <? n) then ret (3 + 2 * threadID) else fail OutOfBounds
  else ret 1.

Definition queue (qid : Z) : M MSHRQueue :=
  fun s => lift (arr_get (cc_queues s) qid) s.
Definition set_queue (qid : Z) (q : MSHRQueue) : M unit :=
  qs ← gets cc_queues; qs ← lift (arr_set qs qid q); modify (with_cc_queues qs).
(** An operation of a queue on the shared registers. *)
Definition on_queue {A} (qid : Z) (f : MSHRHeap -> MSHRQueue -> result A) : M A :=
  q ← queue qid; mh ← gets (fun s => sh_mshrs (cc_sh s)); lift (f mh q).
Definition queue_op (qid : Z) (f : MSHRHeap -> MSHRQueue -> result (MSHRHeap * MSHRQueue))
    : M unit :=
  '(mh, q) ← on_queue qid f; set_mshrs mh ;; set_queue qid q.

(** * Blocking: [setBlocked] and [clearBlocked] *)

(** Of the CPU-side port: [CacheSlavePort] and [SRCpuSidePort]. *)
Definition CacheSlavePort_setBlocked : M unit :=
  b ← gets cc_cpu_blocked;
  massert (negb b) ;; modify (with_cc_cpu_blocked true).

Definition retry_if_owed : M unit :=
  r ← gets cc_cpu_mustSendRetry;
  when r (modify (with_cc_cpu_mustSendRetry false) ;;
          t ← curTick; ev ← gets cc_sendRetryEvent;
          ev ← lift (ev_schedule t (t + 1) ev);
          modify (with_cc_sendRetryEvent ev)).

Definition CacheSlavePort_clearBlocked : M unit :=
  b ← gets cc_cpu_blocked;
  massert b ;; modify (with_cc_cpu_blocked false) ;; retry_if_owed.

Definition SRCpuSidePort_setBlocked (threadID : Z) : M unit :=
  l ← gets cc_cpu_blocked_array;
  b ← lift (arr_get l threadID);
  massert (negb b) ;;
  l ← lift (arr_set l threadID true); modify (with_cc_cpu_blocked_array l).

Definition SRCpuSidePort_clearBlocked (threadID : Z) : M unit :=
  l ← gets cc_cpu_blocked_array;
  b ← lift (arr_get l threadID);
  massert b ;;
  l ← lift (arr_set l threadID false); modify (with_cc_cpu_blocked_array l) ;;
  retry_if_owed.

Definition port_setBlocked (threadID : Z) : M unit :=
  k ← par cp_kind;
  if is_split_rport k then SRCpuSidePort_setBlocked threadID else CacheSlavePort_setBlocked.
Definition port_clearBlocked (threadID : Z) : M unit :=
  k ← par cp_kind;
  if is_split_rport k then SRCpuSidePort_clearBlocked threadID else CacheSlavePort_clearBlocked.

(** [BlockedCause]: the indices of the queues, then "no targets". *)
Definition Blocked_NoMSHRs : Z := 0.
Definition Blocked_NoWBBuffers : Z := 1.
Definition Blocked_NoTargets : Z := 2.
Definition NUM_BLOCKED_CAUSES : Z := 3.
Definition Request_MSHR : Z := 0.
Definition Request_WB : Z := 1.
Definition Request_PF : Z := 2.

Definition BaseCache_setBlocked (cause threadID : Z) : M unit :=
  let flag := u8 (Z.shiftl 1 cause) in
  b ← gets cc_blocked; t ← curTick;
  when (b =? 0) (stat (St_blocked_causes cause) ;;
                 modify (with_cc_blockedCycle t) ;;
                 port_setBlocked threadID) ;;
  modify (fun s => with_cc_blocked (Z.lor (cc_blocked s) flag) s).

Definition BaseCache_clearBlocked (cause threadID : Z) : M unit :=
  let flag := u8 (Z.shiftl 1 cause) in
  modify (fun s => with_cc_blocked (Z.ldiff (cc_blocked s) flag) s) ;;
  b ← gets cc_blocked; t ← curTick; bc ← gets cc_blockedCycle;
  when (b =? 0) (stat (St_blocked_cycles cause (t - bc)) ;; port_clearBlocked threadID).

(** [SplitRPortCache]: one word of causes per thread, behind a pointer. *)
Definition SplitRPortCache_setBlocked (cause threadID : Z) : M unit :=
  let flag := u8 (Z.shiftl 1 cause) in
  oa ← gets cc_blocked_array;
  a ← lift (of_option NullDeref oa);
  b ← lift (arr_get a threadID); t ← curTick;
  when (b =? 0) (stat (St_blocked_causes cause) ;;
                 modify (with_cc_blockedCycle t) ;;
                 port_setBlocked threadID) ;;
  a ← lift (arr_set a threadID (Z.lor b flag));
  modify (with_cc_blocked_array (Some a)).

Definition SplitRPortCache_clearBlocked (cause threadID : Z) : M unit :=
  let flag := u8 (Z.shiftl 1 cause) in
  oa ← gets cc_blocked_array;
  a ← lift (of_option NullDeref oa);
  b ← lift (arr_get a threadID);
  a ← lift (arr_set a threadID (Z.ldiff b flag));
  modify (with_cc_blocked_array (Some a)) ;;
  t ← curTick; bc ← gets cc_blockedCycle;
  when (Z.ldiff b flag =? 0)
       (stat (St_blocked_cycles cause (t - bc)) ;; port_clearBlocked threadID).

Definition setBlocked (cause threadID : Z) : M unit :=
  k ← par cp_kind;
  if is_split_rport k then SplitRPortCache_setBlocked cause threadID
  else BaseCache_setBlocked cause threadID.
Definition clearBlocked (cause threadID : Z) : M unit :=
  k ← par cp_kind;
  if is_split_rport k then SplitRPortCache_clearBlocked cause threadID
  else BaseCache_clearBlocked cause threadID.

(** * Ports *)

(** [requestMemSideBus]: the send event of the memory-side queue, or of the
    thread's own queue in a split cache. *)
Definition requestMemSideBus (cause time threadID : Z) : M unit :=
  k ← par cp_kind; t ← curTick;
  if is_split k then
    l ← gets cc_reqQueues;
    q ← lift (arr_get l threadID);
    q ← lift (schedSendEvent t time q);
    l ← lift (arr_set l threadID q); modify (with_cc_reqQueues l)
  else
    q ← gets cc_mem_queue;
    q ← lift (schedSendEvent t time q); modify (with_cc_mem_queue q).

(** [cpuSidePort->schedTimingResp(pkt, when, threadID)] *)
Definition schedTimingResp (pkt : Packet) (time threadID : Z) : M unit :=
  k ← par cp_kind; t ← curTick;
  if is_split_rport k then
    l ← gets cc_respQueues;
    q ← lift (arr_get l threadID);
    q ← lift (schedSendTiming t pkt time false q);
    l ← lift (arr_set l threadID q); modify (with_cc_respQueues l)
  else
    q ← gets cc_cpu_queue;
    q ← lift (schedSendTiming t pkt time false q); modify (with_cc_cpu_queue q).

(** [memSidePort->schedTimingSnoopResp(pkt, when)] *)
Definition schedTimingSnoopResp (pkt : Packet) (time : Z) : M unit :=
  t ← curTick; q ← gets cc_mem_queue;
  q ← lift (schedSendTiming t pkt time true q); modify (with_cc_mem_queue q).

(** * Buffers *)

Definition blockAlign (addr : Z) : M Z := b ← par cp_blkSize; ret (Z.ldiff addr (b - 1)).

(** [order++] *)
Definition next_order : M Z :=
  o ← gets cc_order; modify (with_cc_order (u64 (o + 1))) ;; ret o.

Definition allocateBufferInternal (qid addr size : Z) (pkt : Packet) (time : Z)
    (requestBus : bool) : M MSHRPtr :=
  o ← next_order; t ← curTick;
  h ← gets (fun s => sh_reqs (cc_sh s));
  '(mh, q, m) ← on_queue qid (fun mh q => MSHRQueue_allocate h mh q addr size pkt time o t);
  set_mshrs mh ;; set_queue qid q ;;
  when (isFull q) (setBlocked (mq_index q) (pkt_threadID pkt)) ;;
  when requestBus (requestMemSideBus (mq_index q) time (pkt_threadID pkt)) ;;
  ret m.

Definition allocateMissBuffer (pkt : Packet) (time : Z) (requestBus : bool) : M MSHRPtr :=
  r ← request pkt;
  massert (negb (isUncacheable r)) ;;
  qid ← getMSHRQueue (pkt_threadID pkt);
  a ← lift (getAddr pkt); a ← blockAlign a; b ← par cp_blkSize;
  allocateBufferInternal qid a b pkt time requestBus.

Definition allocateWriteBuffer (pkt : Packet) (time : Z) (requestBus : bool) : M MSHRPtr :=
  massert (isWrite pkt && negb (isRead pkt)) ;;
  qid ← getWriteBuffer (pkt_threadID pkt);
  a ← lift (getAddr pkt); n ← lift (getSize pkt);
  allocateBufferInternal qid a n pkt time requestBus.

Definition allocateUncachedReadBuffer (pkt : Packet) (time : Z) (requestBus : bool)
    : M MSHRPtr :=
  r ← request pkt;
  massert (isUncacheable r) ;;
  massert (isRead pkt) ;;
  qid ← getMSHRQueue (pkt_threadID pkt);
  a ← lift (getAddr pkt); n ← lift (getSize pkt);
  allocateBufferInternal qid a n pkt time requestBus.

(** [markInService(mshr, pkt)] with [markInServiceInternal]; the packet
    pointer defaults to null. *)
Definition markInService (m : MSHRPtr) (opkt : option Packet) : M unit :=
  r ← mshr m;
  let qid := mshr_queue r in
  q0 ← queue qid;
  queue_op qid (fun mh q => MSHRQueue_markInService mh q m opkt) ;;
  q ← queue qid;
  when (isFull q0 && negb (isFull q))
       (pkt ← lift (of_option NullDeref opkt);
        clearBlocked (mq_index q) (pkt_threadID pkt)).

(** * Counters *)

Definition incHitCount (pkt : Packet) : M unit :=
  r ← request pkt; n ← par cp_maxMasters;
  massert (masterId r <? n) ;; stat (St_hits (cmdToIndex pkt) (masterId r)).

Definition BaseCache_incMissCount (pkt : Packet) : M unit :=
  r ← request pkt; n ← par cp_maxMasters;
  massert (masterId r <? n) ;; stat (St_misses (cmdToIndex pkt) (masterId r)) ;;
  c ← gets cc_missCount;
  when (negb (c =? 0))
       (modify (with_cc_missCount (c - 1)) ;;
        when (c - 1 =? 0) (emit OExitSimLoop)) ;;
  modify (fun s => with_cc_missCounter (u64 (cc_missCounter s + 1)) s).

(** The override of the dynamic caches counts Low's misses only. *)
Definition Dynamic_incMissCount (pkt : Packet) : M unit :=
  when (pkt_threadID pkt =? 0)
       (modify (fun s => with_cc_missCounter (u64 (cc_missCounter s + 1)) s)).

Definition incMissCount (pkt : Packet) : M unit :=
  k ← par cp_kind;
  match k with
  | KC_Dynamic | KF_Dynamic => Dynamic_incMissCount pkt
  | _ => BaseCache_incMissCount pkt
  end.

(** [printMisses]: reports the counter, clears it and reschedules itself;
    the tick of the next report is the answer. *)
Definition BaseCache_printMisses : M Z :=
  modify (with_cc_missCounter 0) ;;
  i ← par cp_interval; t ← curTick; ret (t + i).

(** [drain]: the ports drained, the number of events still expected. *)
Definition BaseCache_drain (de : Z) : M Z :=
  mq ← gets cc_mem_queue; cq ← gets cc_cpu_queue;
  let '(mq, a) := PacketQueue_drain de mq in
  let '(cq, b) := PacketQueue_drain de cq in
  modify (with_cc_mem_queue mq) ;; modify (with_cc_cpu_queue cq) ;; ret (a + b).
