(* ===== verification/CacheAccess.v ===== *)
(** The access path of mem/cache/cache_impl.hh: requests from the CPU side,
    in [Cache] and in [DirtyCache].  The neighbours of the cache (the CPU-side
    and memory-side ports' peers and the prefetcher) are an [Env]; they reach
    the cache's state only through [Shared]. *)

From S2P Require Import Prelude Request MemCmd Packet Blk CacheSet IntMath TagTypes LRU PartLRU DynaLRU Tags MSHR MSHRQueue PacketQueue CacheBase.

(** What the cache calls and waits for.  A call may read the trace in
    [Shared], so an environment may depend on everything sent before. *)
Record Env := mkEnv {
  env_sendTimingReq : Shared -> Packet -> result (Shared * bool);
  env_sendTimingSnoopResp : Shared -> Packet -> result (Shared * bool);
  env_sendTimingSnoopReq : Shared -> Packet -> result (Shared * Packet);
  env_sendAtomic : Shared -> Packet -> result (Shared * Packet * Z);
  env_sendAtomicSnoop : Shared -> Packet -> result (Shared * Packet * Z);
  env_sendFunctional : Shared -> Packet -> result (Shared * Packet);
  env_sendFunctionalSnoop : Shared -> Packet -> result (Shared * Packet);
  env_isSnooping : bool;
  env_notify : Shared -> Packet -> Z -> result (Shared * Z);
  env_getPacket : Shared -> result (Shared * option Packet);
  env_nextPrefetchReadyTime : Shared -> Z
}.

(** A call of the environment. *)
Definition call {A} (o : Output) (f : Shared -> result (Shared * A)) : M A :=
  emit o ;;
  sh ← gets cc_sh;
  '(sh, a) ← lift (f sh);
  modify (with_cc_sh sh) ;; ret a.

(** * [cmpAndSwap] *)

(** The bytes of an [n]-byte unsigned integer on a little-endian host. *)
Fixpoint le_bytes (n : nat) (v : Z) : list Z :=
  match n with O => [] | S n' => v mod 256 :: le_bytes n' (v / 256) end.

(** [memcmp(a, data + off, n) == 0] *)
Definition memcmp_eq (a data : list Z) (off n : Z) : result bool :=
  if decide (0 <= off /\ off + n <= Z.of_nat (length data)) then
    Ok (bool_decide (take (Z.to_nat n) a = take (Z.to_nat n) (drop (Z.to_nat off) data)))
  else Err OutOfBounds.

(** Whether the swap writes: always, or when memory equals the condition
    of a conditional swap. *)
Definition swap_condition (r : Request) (size offset : Z) (data : list Z) : result bool :=
  if isCondSwap r then
    if size =? 8 then
      c ← getExtraData r; memcmp_eq (le_bytes 8 (u64 c)) data offset 8
    else if size =? 4 then
      c ← getExtraData r; memcmp_eq (le_bytes 4 (u32 c)) data offset 4
    else Err Panic
  else Ok true.

Definition cmpAndSwap (r : BlkRef) (pkt : Packet) : M Packet :=
  a ← lift (getAddr pkt);
  offset ← tags (fun ts => Ok (extractBlkOffset ts a));
  size ← lift (getSize pkt);
  massert (size <=? 8) ;;
  b ← blk_get r;
  overwrite_val ← lift (writeData (replicate 8 0) 0 pkt);
  pkt ← lift (setData (blk_data b) offset pkt);
  rq ← request pkt;
  overwrite_mem ← lift (swap_condition rq size offset (blk_data b));
  when overwrite_mem
       (d ← lift (memcpy (blk_data b) offset overwrite_val 0 size);
        blk_put r (blk_or BlkDirty (with_blk_data d b))) ;;
  ret pkt.

(** * [satisfyCpuSideRequest] *)

(** The coherence part for a block-sized read. *)
Definition satisfy_block_read (pkt : Packet) (r : BlkRef)
    (deferred_response pending_downgrade : bool) : M Packet :=
  b ← blk_get r;
  if needsExclusive pkt then
    let pkt := if isDirty b then assertMemInhibit pkt else pkt in
    invalidateBlk r (pkt_threadID pkt) ;; ret pkt
  else
    give ← (if isWritable b && negb pending_downgrade && negb (sharedAsserted pkt)
            then rq ← request pkt; ret (negb (isInstFetch rq)) else ret false);
    if (give : bool) then
      if isDirty b then
        top ← par cp_isTopLevel;
        if negb deferred_response && negb top then
          blk_put r (blk_clr BlkDirty b) ;; ret (assertMemInhibit pkt)
        else ret (assertShared pkt)
      else ret pkt
    else ret (assertShared pkt).

Definition satisfyCpuSideRequest (pkt : Packet) (r : BlkRef)
    (deferred_response pending_downgrade : bool) : M Packet :=
  blkSize ← par cp_blkSize;
  off ← lift (getOffset pkt blkSize); size ← lift (getSize pkt);
  massert (off + size <=? blkSize) ;;
  if cmd_is pkt SwapReq then cmpAndSwap r pkt
  else if isWrite pkt then
    b ← blk_get r;
    h ← gets (fun s => sh_reqs (cc_sh s));
    '(ok, h, b) ← lift (checkWrite h pkt b);
    set_reqs h ;; blk_put r b ;;
    when ok (d ← lift (writeDataToBlock (blk_data b) blkSize pkt);
             blk_put r (blk_or BlkDirty (with_blk_data d b))) ;;
    ret pkt
  else if isRead pkt then
    b ← blk_get r;
    h ← gets (fun s => sh_reqs (cc_sh s));
    b ← (if isLLSC pkt then lift (trackLoadLocked h pkt b) else ret b);
    blk_put r b ;;
    pkt ← lift (setDataFromBlock (blk_data b) blkSize pkt);
    if size =? blkSize then satisfy_block_read pkt r deferred_response pending_downgrade
    else ret pkt
  else
    massert (isUpgrade pkt) ;;
    invalidateBlk r (pkt_threadID pkt) ;; ret pkt.

(** The same with a pointer that may be null: the access paths through the
    block fault, an upgrade's [invalidateBlk] ignores it. *)
Definition satisfy_ptr (pkt : Packet) (o : option BlkRef)
    (deferred_response pending_downgrade : bool) : M Packet :=
  match o with
  | Some r => satisfyCpuSideRequest pkt r deferred_response pending_downgrade
  | None =>
      blkSize ← par cp_blkSize;
      off ← lift (getOffset pkt blkSize); size ← lift (getSize pkt);
      massert (off + size <=? blkSize) ;;
      if cmd_is pkt SwapReq || isWrite pkt || isRead pkt then fail NullDeref
      else massert (isUpgrade pkt) ;; ret pkt
  end.

(** * [writebackBlk] and [allocateBlock] *)

Definition blank_request : Request := Request_new (mkRequest 0 0 0 0 0 0 0 0 0 0 0 0).

Definition writebackBlk (r : BlkRef) (threadID : Z) : M Packet :=
  b ← blk_get r;
  massert (isValid b && isDirty b) ;;
  stat (St_writebacks wbMasterId) ;;
  blkSize ← par cp_blkSize; t ← curTick;
  a ← tags (fun ts => Ok (regenerateBlkAddr ts (blk_tag b) (blk_set b)));
  rq ← lift (setPhys a blkSize 0 wbMasterId t blank_request);
  rp ← new_request rq;
  h ← gets (fun s => sh_reqs (cc_sh s));
  wb ← lift (Packet_new_tid h rp Writeback threadID threadID threadID t);
  let wb := if isWritable b then setSupplyExclusive wb else wb in
  wb ← lift (allocate wb);
  d ← lift (getPtr wb);
  d ← lift (memcpy d 0 (blk_data b) 0 blkSize);
  blk_put r (blk_clr BlkDirty b) ;;
  ret (with_pkt_data (Some d) wb).

(** The victim frame, or nothing when the victim has an outstanding
    upgrade; a dirty victim leaves a writeback packet. *)
Definition allocateBlock (addr tid : Z) (wbs : list Packet) : M (option BlkRef * list Packet) :=
  p ← tags (fun ts => LRU_findVictim ts addr tid);
  b ← blk_get (InTags p);
  if isValid b then
    repl_addr ← tags (fun ts => Ok (regenerateBlkAddr ts (blk_tag b) (blk_set b)));
    qid ← getMSHRQueue (blk_threadID b);
    repl ← on_queue qid (fun mh q => findMatch mh q repl_addr);
    match repl with
    | Some m =>
        rm ← mshr m;
        massert (negb (isWritable b)) ;;
        massert (mshr_needsExclusive rm) ;;
        ret (None, wbs)
    | None =>
        if isDirty b then
          wb ← writebackBlk (InTags p) (blk_threadID b);
          ret (Some (InTags p), wbs ++ [wb])
        else ret (Some (InTags p), wbs)
    end
  else ret (Some (InTags p), wbs).

(** * [handleFill] *)

(** Taking a frame for a fill: the victim, tagged with the address, or
    [tempBlock]; [part] is the partition charged. *)
Definition fill_frame (pkt : Packet) (part : Z) (wbs : list Packet)
    : M (BlkRef * list Packet) :=
  addr ← lift (getAddr pkt);
  '(ob, wbs) ← allocateBlock addr part wbs;
  r ← match ob with
      | None =>
          tb ← gets cc_tempBlock;
          massert (negb (isValid tb)) ;;
          s ← tags (fun ts => Ok (extractSet ts addr));
          tg ← tags (fun ts => Ok (extractTag ts addr));
          modify (with_cc_tempBlock (with_blk_tag tg (with_blk_set s tb))) ;; ret TempBlk
      | Some (InTags p) =>
          rq ← request pkt; t ← curTick;
          upd_tags (fun ts => LRU_insertBlock ts addr p (masterId rq) part t) ;;
          ret (InTags p)
      | Some TempBlk => ret TempBlk
      end;
  blk_mod r (with_blk_status 0) ;; ret (r, wbs).

(** The asserts for a fill of a block that is already there. *)
Definition fill_existing (pkt : Packet) (r : BlkRef) : M unit :=
  addr ← lift (getAddr pkt);
  b ← blk_get r;
  tg ← tags (fun ts => Ok (extractTag ts addr));
  massert (blk_tag b =? tg) ;;
  massert (hasData pkt || isValid b).

(** The state bits granted by the response. *)
Definition fill_status (bits : Z) (pkt : Packet) (b : CacheBlk) : CacheBlk :=
  let b := blk_or bits b in
  if negb (sharedAsserted pkt) then
    let b := blk_or BlkWritable b in
    if memInhibitAsserted pkt then blk_or BlkDirty b else b
  else b.

Definition Cache_handleFill (pkt : Packet) (ob : option BlkRef) (wbs : list Packet)
    : M (BlkRef * list Packet) :=
  '(r, wbs) ← match ob with
              | None => massert (hasData pkt) ;; fill_frame pkt (pkt_threadID pkt) wbs
              | Some r => fill_existing pkt r ;; ret (r, wbs)
              end;
  blk_mod r (fill_status (Z.lor BlkValid BlkReadable) pkt) ;;
  blkSize ← par cp_blkSize;
  when (isRead pkt)
       (d ← lift (getPtr pkt); b ← blk_get r;
        d ← lift (memcpy (blk_data b) 0 d 0 blkSize); blk_mod r (with_blk_data d)) ;;
  blk_mod r (with_blk_whenReady (pkt_finishTime pkt)) ;;
  ret (r, wbs).

(** [DirtyCache::handleFill]: every filled block is dirty; on a "fake miss"
    the data of the High copy move to the new frame and the High copy is
    invalidated. *)
Definition DirtyCache_handleFill (pkt : Packet) (ob : option BlkRef) (wbs : list Packet)
    : M (BlkRef * list Packet) :=
  addr ← lift (getAddr pkt);
  '(r, wbs, blk_H) ←
    match ob with
    | None =>
        massert (hasData pkt) ;;
        blk_H ← tags (fun ts => findBlock_labels ts addr 1 1);
        '(r, wbs) ← fill_frame pkt (pkt_writeLabel pkt) wbs; ret (r, wbs, blk_H)
    | Some r => fill_existing pkt r ;; ret (r, wbs, None)
    end;
  blk_mod r (fill_status (Z.lor (Z.lor BlkValid BlkReadable) BlkDirty) pkt) ;;
  blkSize ← par cp_blkSize;
  when (isRead pkt)
       (match blk_H with
        | Some ph =>
            bh ← blk_get (InTags ph); b ← blk_get r;
            d ← lift (memcpy (blk_data b) 0 (blk_data bh) 0 blkSize);
            blk_mod r (with_blk_data d) ;;
            invalidateBlk (InTags ph) 1
        | None =>
            d ← lift (getPtr pkt); b ← blk_get r;
            d ← lift (memcpy (blk_data b) 0 d 0 blkSize); blk_mod r (with_blk_data d)
        end) ;;
  blk_mod r (with_blk_whenReady (pkt_finishTime pkt)) ;;
  ret (r, wbs).

Definition handleFill (pkt : Packet) (ob : option BlkRef) (wbs : list Packet)
    : M (BlkRef * list Packet) :=
  k ← par cp_kind;
  match k with
  | KDirty => DirtyCache_handleFill pkt ob wbs
  | _ => Cache_handleFill pkt ob wbs
  end.

(** * [access] *)

(** How [Cache] and [DirtyCache] address the tag store: by the thread of a
    packet, or by its two labels. *)
Record LabelOps := mkLabelOps {
  lo_find : TagStore -> Packet -> Z -> result (option BlkPtr);
  lo_where : TagStore -> Packet -> Z -> result Z;
  lo_access : TagStore -> Packet -> Z -> Z -> Z -> Z -> result (TagStore * option BlkPtr * Z);
  lo_part : Packet -> Z
}.

Definition thread_ops : LabelOps :=
  mkLabelOps (fun ts pkt addr => findBlock ts addr (pkt_threadID pkt))
    (fun ts pkt addr => Ok (pkt_threadID pkt))
    (fun ts pkt addr lat id t => accessBlock ts addr id (pkt_threadID pkt) t)
    pkt_threadID.

Definition label_ops : LabelOps :=
  mkLabelOps
    (fun ts pkt addr => findBlock_labels ts addr (pkt_readLabel pkt) (pkt_writeLabel pkt))
    (fun ts pkt addr => locateBlock ts addr (pkt_readLabel pkt) (pkt_writeLabel pkt))
    (fun ts pkt addr lat id t =>
       accessBlock_labels ts addr lat id (pkt_readLabel pkt) (pkt_writeLabel pkt) t)
    pkt_writeLabel.

(** The tag-store side of an uncacheable request. *)
Definition uncacheable_tags (ops : LabelOps) (pkt : Packet) : M unit :=
  rq ← request pkt;
  if isClearLL rq then upd_tags clearLocks
  else when (isWrite pkt)
         (a ← lift (getAddr pkt);
          o ← tags (fun ts => lo_find ops ts pkt a);
          match o with
          | Some p => w ← tags (fun ts => lo_where ops ts pkt a); invalidateBlk (InTags p) w
          | None => ret tt
          end).

(** A writeback from above that the cache cannot satisfy as a hit. *)
Definition access_writeback (ops : LabelOps) (pkt : Packet) (ob : option BlkPtr)
    (wbs : list Packet) : M (bool * option BlkRef * list Packet) :=
  blkSize ← par cp_blkSize;
  size ← lift (getSize pkt);
  massert (blkSize =? size) ;;
  a ← lift (getAddr pkt);
  '(or, wbs) ← match ob with
               | Some p => ret (Some (InTags p), wbs)
               | None =>
                   '(or, wbs) ← allocateBlock a (lo_part ops pkt) wbs;
                   match or with
                   | Some (InTags p) =>
                       rq ← request pkt; t ← curTick;
                       upd_tags (fun ts => LRU_insertBlock ts a p (masterId rq)
                                             (lo_part ops pkt) t) ;;
                       blk_mod (InTags p) (with_blk_status (Z.lor BlkValid BlkReadable)) ;;
                       ret (or, wbs)
                   | _ => ret (None, wbs)
                   end
               end;
  match or with
  | None => incMissCount pkt ;; ret (false, None, wbs)
  | Some r =>
      d ← lift (getPtr pkt);
      b ← blk_get r;
      d ← lift (memcpy (blk_data b) 0 d 0 blkSize);
      blk_put r (blk_or BlkDirty (with_blk_data d b)) ;;
      when (isSupplyExclusive pkt) (blk_mod r (blk_or BlkWritable)) ;;
      massert (negb (needsResponse pkt)) ;;
      incHitCount pkt ;;
      ret (true, Some r, wbs)
  end.

(** [access]: whether the request is satisfied, with the packet, the
    block, the latency and the writebacks. *)
Definition access_with (ops : LabelOps) (pkt : Packet) (lat : Z) (wbs : list Packet)
    : M (bool * Packet * option BlkRef * Z * list Packet) :=
  rq ← request pkt;
  hitLatency ← par cp_hitLatency;
  if isUncacheable rq then
    uncacheable_tags ops pkt ;; ret (false, pkt, None, hitLatency, wbs)
  else
    id ← (if hasContextId rq then lift (contextId rq) else ret (-1));
    a ← lift (getAddr pkt); t ← curTick;
    '(ts, ob, lat) ← tags (fun ts => lo_access ops ts pkt a lat id t);
    set_tags ts ;;
    hit ← match ob with
          | Some p => b ← blk_get (InTags p);
                      ret (if needsExclusive pkt then isWritable b else isReadable b)
          | None => ret false
          end;
    match hit, ob with
    | true, Some p =>
        incHitCount pkt ;;
        pkt ← satisfyCpuSideRequest pkt (InTags p) false false;
        ret (true, pkt, Some (InTags p), lat, wbs)
    | _, _ =>
        if cmd_is pkt Writeback then
          '(sat, or, wbs) ← access_writeback ops pkt ob wbs;
          ret (sat, pkt, or, lat, wbs)
        else
          incMissCount pkt ;;
          match ob with
          | None =>
              if isLLSC pkt && isWrite pkt then
                upd_request pkt (setExtraData 0) ;; ret (true, pkt, None, lat, wbs)
              else ret (false, pkt, None, lat, wbs)
          | Some p => ret (false, pkt, Some (InTags p), lat, wbs)
          end
    end.

Definition Cache_access := access_with thread_ops.
Definition DirtyCache_access := access_with label_ops.

Definition access (pkt : Packet) (lat : Z) (wbs : list Packet)
    : M (bool * Packet * option BlkRef * Z * list Packet) :=
  k ← par cp_kind;
  match k with
  | KDirty => DirtyCache_access pkt lat wbs
  | _ => Cache_access pkt lat wbs
  end.

(** * [getBusPacket] *)

Definition getBusPacket (cpu_pkt : Packet) (or : option BlkRef) (needsExcl : bool)
    : M (option Packet) :=
  ob ← match or with Some r => b ← blk_get r; ret (Some b) | None => ret None end;
  let blkValid := match ob with Some b => isValid b | None => false end in
  let blkWritable := match ob with Some b => isWritable b | None => false end in
  rq ← request cpu_pkt;
  if isUncacheable rq then ret None
  else if negb blkValid && (cmd_is cpu_pkt Writeback || isUpgrade cpu_pkt) then ret None
  else
    massert (needsResponse cpu_pkt) ;;
    cmd ← (if blkValid then
             massert (needsExcl && negb blkWritable) ;;
             ret (if isLLSC cpu_pkt then SCUpgradeReq else UpgradeReq)
           else ret (if needsExcl then ReadExReq else ReadReq));
    blkSize ← par cp_blkSize; t ← curTick;
    h ← gets (fun s => sh_reqs (cc_sh s));
    pkt ← lift (Packet_new_blk_tid h (pkt_req cpu_pkt) cmd blkSize (pkt_threadID cpu_pkt) t);
    pkt ← lift (allocate pkt);
    ret (Some pkt).
