(* ===== verification/Cache.v ===== *)
(** The request, response and snoop handlers of mem/cache/cache_impl.hh:
    [Cache<TagStore>] and the overrides of [DirtyCache]. *)

From S2P Require Import Prelude Request MemCmd Packet Blk CacheSet IntMath TagTypes LRU PartLRU DynaLRU Tags MSHR MSHRQueue PacketQueue CacheBase CacheAccess.

Section Handlers.

Variable env : Env.

(** * Snoop path: helpers shared with responses *)

Definition doTimingSupplyResponse (req_pkt : Packet) (blk_data : list Z)
    (already_copied pending_inval : bool) : M unit :=
  t ← curTick; hitLatency ← par cp_hitLatency; blkSize ← par cp_blkSize;
  let pkt := if already_copied then req_pkt else Packet_copy req_pkt false t in
  massert (isInvalidate req_pkt || sharedAsserted pkt) ;;
  pkt ← lift (allocate pkt);
  pkt ← lift (makeTimingResponse pkt);
  pkt ← (if isRead pkt then lift (setDataFromBlock blk_data blkSize pkt) else ret pkt);
  let pkt := if cmd_is pkt ReadResp && pending_inval
             then with_pkt_cmd ReadRespWithInvalidate pkt else pkt in
  schedTimingSnoopResp pkt (t + hitLatency).

(** The forwarding part of [handleSnoop]: the packet with what the caches
    above answered. *)
Definition forward_snoop (pkt : Packet) (is_timing : bool) : M Packet :=
  let alreadyResponded := memInhibitAsserted pkt in
  if is_timing then
    t ← curTick;
    src ← lift (getSrc pkt);
    let snoopPkt := setExpressSnoop (Packet_copy pkt true t) in
    let snoopPkt := with_pkt_senderState (SS_Forward (pkt_senderState pkt) src) snoopPkt in
    snoopPkt ← call (OTimingSnoopReq snoopPkt) (fun sh => env_sendTimingSnoopReq env sh snoopPkt);
    pkt ← (if memInhibitAsserted snoopPkt
           then massert (negb alreadyResponded) ;; ret (assertMemInhibit pkt) else ret pkt);
    ret (if sharedAsserted snoopPkt then assertShared pkt else pkt)
  else
    '(pkt, _) ← call (OAtomicSnoop pkt)
                  (fun sh => '(sh, p, l) ← env_sendAtomicSnoop env sh pkt; Ok (sh, (p, l)));
    when (negb alreadyResponded && memInhibitAsserted pkt) (massert (isResponse pkt)) ;;
    ret pkt.

(** [handleSnoop]; the packet is the answer. *)
Definition handleSnoop (pkt : Packet) (or : option BlkRef)
    (is_timing is_deferred pending_inval : bool) : M Packet :=
  massert (negb (is_deferred && negb is_timing)) ;;
  massert (negb (pending_inval && negb is_deferred)) ;;
  massert (isRequest pkt) ;;
  let invalidate := isInvalidate pkt in
  let needs_exclusive := needsExclusive pkt in
  fwd ← par cp_forwardSnoops;
  pkt ← (if (fwd : bool) then forward_snoop pkt is_timing else ret pkt);
  match or with
  | None => ret pkt
  | Some r =>
      b ← blk_get r;
      if negb (isValid b) then ret pkt
      else
        let respond := isDirty b && needsResponse pkt in
        let have_exclusive := isWritable b in
        pkt ← (if isRead pkt && negb invalidate then
                 massert (negb needs_exclusive) ;;
                 blk_put r (blk_clr BlkWritable b) ;; ret (assertShared pkt)
               else ret pkt);
        pkt ← (if respond then
                 massert (negb (memInhibitAsserted pkt)) ;;
                 let pkt := assertMemInhibit pkt in
                 let pkt := if have_exclusive then setSupplyExclusive pkt else pkt in
                 if is_timing then
                   doTimingSupplyResponse pkt (blk_data b) is_deferred pending_inval ;; ret pkt
                 else
                   blkSize ← par cp_blkSize;
                   pkt ← lift (makeAtomicResponse pkt);
                   lift (setDataFromBlock (blk_data b) blkSize pkt)
               else ret pkt);
        when invalidate (invalidateBlk r (pkt_threadID pkt)) ;;
        ret pkt
  end.

(** * Responses from the memory side *)

(** Completion of one CPU target; the packet is handed to the CPU-side
    port. *)
Definition respond_cpu (pkt : Packet) (m : MSHRPtr) (or : option BlkRef) (is_fill is_error : bool)
    (initial_offset : Z) (tgt : Target) : M unit :=
  let tpkt := tgt_pkt tgt in
  blkSize ← par cp_blkSize;
  lat ← tags (fun ts => Ok (getHitLatency ts));
  '(tpkt, completion_time) ←
    (if is_fill then
       r ← mshr m; pd ← lift (hasPostDowngrade r);
       tpkt ← satisfy_ptr tpkt or true pd;
       off ← lift (getOffset tpkt blkSize);
       let transfer_offset := off - initial_offset in
       let transfer_offset :=
         if transfer_offset <? 0 then transfer_offset + blkSize else transfer_offset in
       cw ← par cp_cw_first;
       let time := lat + (if negb (transfer_offset =? 0) then pkt_finishTime pkt
                          else getFirstWordTime pkt cw) in
       rq ← request tpkt; n ← par cp_maxMasters;
       massert (negb (isUncacheable rq)) ;;
       massert (masterId rq <? n) ;;
       stat (St_missLatency (cmdToIndex tpkt) (masterId rq) (time - tgt_recvTime tgt)) ;;
       ret (tpkt, time)
     else if cmd_is pkt UpgradeFailResp then
       massert (cmd_is tpkt StoreCondReq || cmd_is tpkt StoreCondFailReq
                || cmd_is tpkt SCUpgradeFailReq) ;;
       upd_request tpkt (setExtraData 0) ;;
       ret (tpkt, lat + pkt_finishTime pkt)
     else
       tpkt ← (if isRead pkt && negb is_error
               then d ← lift (getPtr pkt); lift (setData d 0 tpkt) else ret tpkt);
       ret (tpkt, lat + pkt_finishTime pkt));
  tpkt ← lift (makeTimingResponse tpkt);
  tpkt ← (if is_error then lift (copyError tpkt pkt) else ret tpkt);
  tpkt ← (if cmd_is tpkt ReadResp then
            inv ← (if isInvalidate pkt then ret true
                   else r ← mshr m; lift (hasPostInvalidate r));
            ret (if (inv : bool) then with_pkt_cmd ReadRespWithInvalidate tpkt else tpkt)
          else ret tpkt);
  schedTimingResp tpkt completion_time (pkt_threadID tpkt).

(** One round of the loop over the targets. *)
Definition respond_target (pkt : Packet) (m : MSHRPtr) (or : option BlkRef)
    (is_fill is_error : bool) (initial_offset : Z) : M unit :=
  r ← mshr m;
  tgt ← lift (getTarget r);
  match tgt_source tgt with
  | FromCPU => respond_cpu pkt m or is_fill is_error initial_offset tgt
  | FromPrefetcher =>
      massert (cmd_is (tgt_pkt tgt) HardPFReq) ;;
      match or with Some b => blk_mod b (blk_or BlkHWPrefetched) | None => ret tt end ;;
      delete_request (tgt_pkt tgt)
  | FromSnoop =>
      massert (negb is_error) ;;
      pi ← lift (hasPostInvalidate r);
      massert (negb (isInvalidate pkt && negb pi)) ;;
      _ ← handleSnoop (tgt_pkt tgt) or true true pi;
      ret tt
  end ;;
  upd_mshr m popTarget.

(** [while (mshr->hasTargets())]: every round pops a target and no round
    adds one to this register, so its length is enough fuel. *)
Fixpoint respond_targets (fuel : nat) (pkt : Packet) (m : MSHRPtr) (or : option BlkRef)
    (is_fill is_error : bool) (initial_offset : Z) : M unit :=
  r ← mshr m;
  if hasTargets r then
    match fuel with
    | O => fail OutOfFuel
    | S fuel' =>
        respond_target pkt m or is_fill is_error initial_offset ;;
        respond_targets fuel' pkt m or is_fill is_error initial_offset
    end
  else ret tt.

(** The end of [handleResponse] for the block: a pending invalidation or
    downgrade takes effect. *)
Definition apply_pending (ops : LabelOps) (pkt : Packet) (m : MSHRPtr) (or : option BlkRef)
    : M unit :=
  match or with
  | None => ret tt
  | Some b =>
      r ← mshr m;
      inv ← (if isInvalidate pkt then ret true else lift (hasPostInvalidate r));
      if (inv : bool) then invalidateBlk b (lo_part ops pkt)
      else dg ← lift (hasPostDowngrade r); when dg (blk_mod b (blk_clr BlkWritable))
  end.

(** The register is promoted or freed. *)
Definition finish_mshr (pkt : Packet) (m : MSHRPtr) (or : option BlkRef) (wasFull : bool)
    : M unit :=
  r ← mshr m; t ← curTick;
  let qid := mshr_queue r in
  '(r, promoted) ← lift (promoteDeferredTargets r t);
  mh ← gets (fun s => sh_mshrs (cc_sh s)); set_mshrs (<[m := r]> mh) ;;
  if (promoted : bool) then
    match or with Some b => blk_mod b (blk_clr BlkReadable) | None => ret tt end ;;
    queue_op qid (fun mh q => markPending mh q m) ;;
    q ← queue qid;
    requestMemSideBus (mq_index q) (pkt_finishTime pkt) (pkt_threadID pkt)
  else
    queue_op qid (fun mh q => MSHRQueue_deallocate mh q m) ;;
    q ← queue qid;
    when (wasFull && negb (isFull q)) (clearBlocked (mq_index q) (pkt_threadID pkt)).

Definition handleResponse_with (ops : LabelOps) (pkt : Packet) : M unit :=
  t ← curTick; hitLatency ← par cp_hitLatency; blkSize ← par cp_blkSize;
  let time := t + hitLatency in
  let is_error := isError pkt in
  m ← match pkt_senderState pkt with SS_MSHR m => ret m | _ => fail AssertFail end;
  r ← mshr m;
  q ← queue (mshr_queue r);
  let wasFull := isFull q in
  nt ← gets cc_noTargetMSHR;
  when (bool_decide (nt = Some m))
       (clearBlocked Blocked_NoTargets (pkt_threadID pkt) ;;
        modify (with_cc_noTargetMSHR None)) ;;
  initial_tgt ← lift (getTarget r);
  a ← lift (getAddr pkt);
  ob ← tags (fun ts => lo_find ops ts pkt a);
  rq ← request pkt; n ← par cp_maxMasters;
  massert (masterId rq <? n) ;;
  let idx := cmdToIndex (tgt_pkt initial_tgt) in
  let miss_latency := t - tgt_recvTime initial_tgt in
  stat (if isUncacheable rq then St_mshr_uncacheable_lat idx (masterId rq) miss_latency
        else St_mshr_miss_latency idx (masterId rq) miss_latency) ;;
  let is_fill := negb (mshr_isForward r) && (isRead pkt || cmd_is pkt UpgradeResp) in
  '(or, wbs) ← (if is_fill && negb is_error then
                  mh ← gets (fun s => sh_mshrs (cc_sh s));
                  mh ← lift (MSHR_handleFill mh m pkt); set_mshrs mh ;;
                  '(b, wbs) ← handleFill pkt (InTags <$> ob) []; ret (Some b, wbs)
                else ret (InTags <$> ob, []));
  r ← mshr m;
  initial_offset ← (if hasTargets r
                    then tg ← lift (getTarget r); lift (getOffset (tgt_pkt tg) blkSize)
                    else ret 0);
  respond_targets (length (tl_list (mshr_targets r))) pkt m or is_fill is_error initial_offset ;;
  apply_pending ops pkt m or ;;
  finish_mshr pkt m or wasFull ;;
  forM wbs (fun wb => _ ← allocateWriteBuffer wb time true; ret tt) ;;
  when (bool_decide (or = Some TempBlk))
       (tb ← gets cc_tempBlock;
        when (isDirty tb)
             (wb ← writebackBlk TempBlk (blk_threadID tb);
              _ ← allocateWriteBuffer wb time true; ret tt) ;;
        blk_mod TempBlk (blk_clr BlkValid) ;;
        invalidateBlk TempBlk (lo_part ops pkt)).

Definition Cache_handleResponse := handleResponse_with thread_ops.
Definition DirtyCache_handleResponse := handleResponse_with label_ops.

Definition handleResponse (pkt : Packet) : M unit :=
  k ← par cp_kind;
  match k with
  | KDirty => DirtyCache_handleResponse pkt
  | _ => Cache_handleResponse pkt
  end.

(** * Timing requests from the CPU side *)

(** A request that a cache above has promised to answer. *)
Definition inhibited_request (pkt : Packet) : M unit :=
  rq ← request pkt; t ← curTick;
  massert (negb (isUncacheable rq)) ;;
  when (needsExclusive pkt && negb (isSupplyExclusive pkt))
       (let snoopPkt := assertMemInhibit (setExpressSnoop (Packet_copy pkt true t)) in
        _ ← call (OTimingReq snoopPkt) (fun sh => env_sendTimingReq env sh snoopPkt); ret tt) ;;
  modify (fun s => with_cc_pendingDelete (cc_pendingDelete s ++ [pkt]) s).

Definition notify_prefetcher (pkt : Packet) (time : Z) : M Z :=
  call (OPrefetchNotify pkt time) (fun sh => env_notify env sh pkt time).

(** The miss part of [timingAccess]; the answer is [next_pf_time]. *)
Definition timing_miss (pkt : Packet) (or : option BlkRef) (time : Z) : M Z :=
  a ← lift (getAddr pkt); blk_addr ← blockAlign a;
  qid ← getMSHRQueue (pkt_threadID pkt);
  om ← on_queue qid (fun mh q => findMatch mh q blk_addr);
  rq ← request pkt; n ← par cp_maxMasters; t ← curTick;
  massert (masterId rq <? n) ;;
  match om with
  | Some m =>
      stat (St_mshr_hits (cmdToIndex pkt) (masterId rq)) ;;
      upd_mshr m (fun r => Ok (if negb (mshr_threadNum r =? 0)
                               then with_mshr_threadNum (-1) r else r)) ;;
      o ← next_order;
      mh ← gets (fun s => sh_mshrs (cc_sh s));
      mh ← lift (MSHR_allocateTarget mh m pkt time o t); set_mshrs mh ;;
      r ← mshr m; numTarget ← par cp_numTarget;
      when (getNumTargets r =? numTarget)
           (modify (with_cc_noTargetMSHR (Some m)) ;;
            setBlocked Blocked_NoTargets (pkt_threadID pkt)) ;;
      ret 0
  | None =>
      stat (St_mshr_misses (cmdToIndex pkt) (masterId rq)) ;;
      (if cmd_is pkt Writeback then
         _ ← allocateWriteBuffer pkt time true; ret tt
       else
         match or with
         | Some r =>
             b ← blk_get r;
             when (isValid b)
                  (massert (needsExclusive pkt && negb (isWritable b)) ;;
                   blk_put r (blk_clr BlkReadable b))
         | None => ret tt
         end ;;
         _ ← allocateMissBuffer pkt time true; ret tt) ;;
      pf ← par cp_prefetcher;
      if (pf : bool) then notify_prefetcher pkt time else ret 0
  end.

(** The hit part; the answer is [next_pf_time]. *)
Definition timing_hit (pkt : Packet) (or : option BlkRef) (lat time : Z) (needsResp : bool)
    : M Z :=
  pf ← par cp_prefetcher; onAccess ← par cp_prefetchOnAccess; t ← curTick;
  wasPf ← match or with Some r => b ← blk_get r; ret (wasPrefetched b) | None => ret false end;
  next ← (if pf && (onAccess || wasPf) then
            match or with Some r => blk_mod r (blk_clr BlkHWPrefetched) | None => ret tt end ;;
            notify_prefetcher pkt time
          else ret 0);
  (if needsResp then
     pkt ← lift (makeTimingResponse pkt);
     schedTimingResp pkt (t + lat) (pkt_threadID pkt)
   else modify (fun s => with_cc_pendingDelete (cc_pendingDelete s ++ [pkt]) s)) ;;
  ret next.

Definition timingAccess_with (ops : LabelOps) (pkt : Packet) : M bool :=
  modify (with_cc_pendingDelete []) ;;
  t ← curTick; hitLatency ← par cp_hitLatency;
  let time := t + hitLatency in
  if isResponse pkt then
    match pkt_senderState pkt with
    | SS_Forward prev src =>
        schedTimingSnoopResp (setDest src (with_pkt_senderState prev pkt)) time ;; ret true
    | _ => massert (cmd_is pkt HardPFResp) ;; handleResponse pkt ;; ret true
    end
  else
    massert (isRequest pkt) ;;
    if memInhibitAsserted pkt then inhibited_request pkt ;; ret true
    else
      rq ← request pkt;
      if isUncacheable rq then
        uncacheable_tags ops pkt ;;
        _ ← (if isWrite pkt && negb (isRead pkt) then allocateWriteBuffer pkt time true
             else allocateUncachedReadBuffer pkt time true);
        massert (needsResponse pkt) ;; ret true
      else
        '(satisfied, pkt, or, lat, wbs) ← access pkt hitLatency [];
        let needsResp := needsResponse pkt in
        next_pf_time ← (if (satisfied : bool) then timing_hit pkt or lat time needsResp
                        else timing_miss pkt or time);
        when (negb (next_pf_time =? 0))
             (requestMemSideBus Request_PF (Z.max time next_pf_time) (pkt_threadID pkt)) ;;
        forM wbs (fun wb => _ ← allocateWriteBuffer wb time true; ret tt) ;;
        ret true.

Definition Cache_timingAccess := timingAccess_with thread_ops.
Definition DirtyCache_timingAccess := timingAccess_with label_ops.

Definition timingAccess (pkt : Packet) : M bool :=
  k ← par cp_kind;
  match k with
  | KDirty => DirtyCache_timingAccess pkt
  | _ => Cache_timingAccess pkt
  end.

End Handlers.
