(* ===== verification/CacheBus.v ===== *)
(** The rest of mem/cache/cache_impl.hh: atomic and functional accesses,
    snoops from the memory side, the choice of the next request to send, the
    memory-side packet queue and the port entry points. *)

From S2P Require Import Prelude Request MemCmd Packet Blk CacheSet IntMath TagTypes LRU PartLRU DynaLRU Tags MSHR MSHRQueue PacketQueue CacheBase CacheAccess Cache.

Section Handlers.

Variable env : Env.

(** * Atomic accesses *)

Definition sendAtomic (pkt : Packet) : M (Packet * Z) :=
  call (OAtomic pkt) (fun sh => '(sh, p, l) ← env_sendAtomic env sh pkt; Ok (sh, (p, l))).

(** The miss part of [atomicAccess]: the packet, the latency and the
    writebacks afterwards. *)
Definition atomic_miss (pkt : Packet) (or : option BlkRef) (lat : Z) (wbs : list Packet)
    : M (Packet * Z * list Packet) :=
  bus ← getBusPacket pkt or (needsExclusive pkt);
  match bus with
  | None => '(pkt, l) ← sendAtomic pkt; ret (pkt, i32 (lat + l), wbs)
  | Some bus_pkt =>
      '(bus_pkt, l) ← sendAtomic bus_pkt;
      let lat := i32 (lat + l) in
      if needsResponse pkt then
        massert (isResponse bus_pkt) ;;
        if isError bus_pkt then
          pkt ← lift (makeAtomicResponse pkt);
          pkt ← lift (copyError pkt bus_pkt); ret (pkt, lat, wbs)
        else if isRead bus_pkt || cmd_is bus_pkt UpgradeResp then
          '(r, wbs) ← handleFill bus_pkt or wbs;
          pkt ← satisfyCpuSideRequest pkt r false false; ret (pkt, lat, wbs)
        else pkt ← lift (makeAtomicResponse pkt); ret (pkt, lat, wbs)
      else ret (pkt, lat, wbs)
  end.

Definition atomicAccess (pkt : Packet) : M (Packet * Z) :=
  hitLatency ← par cp_hitLatency;
  if memInhibitAsserted pkt then
    rq ← request pkt;
    massert (negb (isUncacheable rq)) ;;
    if isInvalidate pkt then
      a ← lift (getAddr pkt);
      ob ← tags (fun ts => findBlock ts a (pkt_threadID pkt));
      match ob with
      | Some p => b ← blk_get (InTags p);
                  when (isValid b) (invalidateBlk (InTags p) (pkt_threadID pkt))
      | None => ret tt
      end ;;
      '(pkt, l) ← sendAtomic pkt; ret (pkt, i32 (hitLatency + l))
    else ret (pkt, hitLatency)
  else
    '(satisfied, pkt, or, lat, wbs) ← access pkt hitLatency [];
    '(pkt, lat, wbs) ← (if (satisfied : bool) then ret (pkt, lat, wbs)
                        else atomic_miss pkt or lat wbs);
    forM wbs (fun wb => _ ← sendAtomic wb; ret tt) ;;
    pkt ← (if needsResponse pkt then lift (makeAtomicResponse pkt) else ret pkt);
    ret (pkt, lat).

(** * Functional accesses *)

(** A functional check of one place: once a place has answered, the later
    ones are not asked. *)
Definition or_else (r : bool * Packet) (m : Packet -> M (bool * Packet)) : M (bool * Packet) :=
  let '(found, pkt) := r in if found then ret (true, pkt) else m pkt.

Definition check_cpu_port (pkt : Packet) : M (bool * Packet) :=
  q ← gets cc_cpu_queue;
  '(f, pkt, q) ← lift (PacketQueue_checkFunctional pkt q);
  modify (with_cc_cpu_queue q) ;; ret (f, pkt).
Definition check_mem_port (pkt : Packet) : M (bool * Packet) :=
  q ← gets cc_mem_queue;
  '(f, pkt, q) ← lift (PacketQueue_checkFunctional pkt q);
  modify (with_cc_mem_queue q) ;; ret (f, pkt).
Definition check_queue (qid blk_addr : Z) (pkt : Packet) : M (bool * Packet) :=
  '(f, pkt, mh) ← on_queue qid (fun mh q => MSHRQueue_checkFunctional mh q pkt blk_addr);
  set_mshrs mh ;; ret (f, pkt).

Definition functionalAccess (pkt : Packet) (fromCpuSide : bool) : M Packet :=
  a ← lift (getAddr pkt); blk_addr ← blockAlign a; blkSize ← par cp_blkSize;
  ob ← tags (fun ts => findBlock ts a (pkt_threadID pkt));
  qid ← getMSHRQueue (pkt_threadID pkt);
  om ← on_queue qid (fun mh q => findMatch mh q blk_addr);
  '(have_data, pkt) ←
    match ob with
    | Some p =>
        b ← blk_get (InTags p);
        if isValid b then
          '(f, pkt, d) ← lift (checkFunctional pkt blk_addr blkSize (Some (blk_data b)));
          match d with Some d => blk_put (InTags p) (with_blk_data d b) | None => ret tt end ;;
          ret (f, pkt)
        else ret (false, pkt)
    | None => ret (false, pkt)
    end;
  have_dirty ←
    match have_data, ob with
    | true, Some p =>
        b ← blk_get (InTags p);
        if isDirty b then ret true
        else match om with
             | Some m => r ← mshr m;
                         if mshr_inService r then lift (isPendingDirty r) else ret false
             | None => ret false
             end
    | _, _ => ret false
    end;
  wid ← getWriteBuffer (pkt_threadID pkt);
  st ← or_else (have_dirty, pkt) check_cpu_port;
  st ← or_else st (check_queue qid blk_addr);
  st ← or_else st (check_queue wid blk_addr);
  '(done, pkt) ← or_else st check_mem_port;
  if (done : bool) then lift (makeResponse pkt)
  else
    fwd ← par cp_forwardSnoops;
    if fromCpuSide then
      call (OFunctional pkt) (fun sh => env_sendFunctional env sh pkt)
    else if fwd && env_isSnooping env then
      call (OFunctionalSnoop pkt) (fun sh => env_sendFunctionalSnoop env sh pkt)
    else ret pkt.

(** * Snoops from the memory side *)

(** The snoop of a buffered writeback, for the one register that matches. *)
Definition snoop_writeback (pkt : Packet) (m : MSHRPtr) : M Packet :=
  r ← mshr m;
  massert (negb (mshr_isUncacheable r)) ;;
  massert (getNumTargets r =? 1) ;;
  tgt ← lift (getTarget r);
  massert (cmd_is (tgt_pkt tgt) Writeback) ;;
  massert (negb (memInhibitAsserted pkt)) ;;
  let pkt := assertMemInhibit pkt in
  pkt ← (if negb (needsExclusive pkt) then
           upd_mshr m (upd_front_pkt clearSupplyExclusive) ;;
           ret (assertShared pkt)
         else massert (isInvalidate pkt) ;; ret pkt);
  d ← lift (getPtr (tgt_pkt tgt));
  doTimingSupplyResponse pkt d false false ;;
  when (isInvalidate pkt) (markInService m None) ;;
  ret pkt.

Definition snoopTiming (pkt : Packet) : M Packet :=
  orq ← gets (fun s => sh_reqs (cc_sh s) !! pkt_req pkt);
  if match orq with Some rq => isUncacheable rq | None => false end || cmd_is pkt Writeback
  then ret pkt
  else
    a ← lift (getAddr pkt); blk_addr ← blockAlign a; t ← curTick;
    ob ← tags (fun ts => findBlock ts a (pkt_threadID pkt));
    qid ← getMSHRQueue (pkt_threadID pkt);
    om ← on_queue qid (fun mh q => findMatch mh q blk_addr);
    '(absorbed, pkt) ←
      match om with
      | Some m =>
          o ← next_order;
          mh ← gets (fun s => sh_mshrs (cc_sh s));
          '(mh, pkt, b) ← lift (MSHR_handleSnoop mh m pkt o t);
          set_mshrs mh ;; ret (b, pkt)
      | None => ret (false, pkt)
      end;
    if (absorbed : bool) then ret pkt
    else
      wid ← getWriteBuffer (pkt_threadID pkt);
      '(ms, found) ← on_queue wid (fun mh q => findMatches mh q blk_addr []);
      pkt ← (if (found : bool) then
               match ms with
               | [] => ret pkt
               | [m] => snoop_writeback pkt m
               | _ => fail AssertFail
               end
             else ret pkt);
      handleSnoop env pkt (InTags <$> ob) true false false.

Definition snoopAtomic (pkt : Packet) : M (Packet * Z) :=
  rq ← request pkt; hitLatency ← par cp_hitLatency;
  if isUncacheable rq || cmd_is pkt Writeback then ret (pkt, hitLatency)
  else
    a ← lift (getAddr pkt);
    ob ← tags (fun ts => findBlock ts a (pkt_threadID pkt));
    pkt ← handleSnoop env pkt (InTags <$> ob) false false false;
    ret (pkt, hitLatency).

(** * Requests to the memory side *)

(** The last resort of [getNextMSHR]: a prefetch. *)
Definition try_prefetch (qid wid : Z) : M (option MSHRPtr) :=
  pf ← par cp_prefetcher; q ← queue qid;
  if pf && negb (isFull q) then
    op ← call OPrefetchGet (env_getPacket env);
    match op with
    | None => ret None
    | Some pkt =>
        a ← lift (getAddr pkt); pf_addr ← blockAlign a; t ← curTick;
        ob ← tags (fun ts => findBlock ts pf_addr (pkt_threadID pkt));
        om ← match ob with
             | Some _ => ret true
             | None =>
                 om ← on_queue qid (fun mh q => findMatch mh q pf_addr);
                 match om with
                 | Some _ => ret true
                 | None => ow ← on_queue wid (fun mh q => findMatch mh q pf_addr);
                           ret (match ow with Some _ => true | None => false end)
                 end
             end;
        if negb om then
          rq ← request pkt; n ← par cp_maxMasters;
          massert (masterId rq <? n) ;;
          stat (St_mshr_misses (cmdToIndex pkt) (masterId rq)) ;;
          m ← allocateMissBuffer pkt t false; ret (Some m)
        else delete_request pkt ;; ret None
    end
  else ret None.

Definition getNextMSHR (threadID : Z) : M (option MSHRPtr) :=
  qid ← getMSHRQueue threadID; wid ← getWriteBuffer threadID; t ← curTick;
  miss ← on_queue qid (fun mh q => MSHRQueue_getNextMSHR mh q t);
  write ← on_queue wid (fun mh q => MSHRQueue_getNextMSHR mh q t);
  match miss, write with
  | Some m, None => ret (Some m)
  | None, Some w => ret (Some w)
  | Some m, Some w =>
      rm ← mshr m; rw ← mshr w; wq ← queue wid;
      if isFull wq && (mq_inServiceEntries wq =? 0) then
        oc ← on_queue qid (fun mh q => findPending mh q (mshr_addr rw) (mshr_size rw));
        match oc with
        | Some c => rc ← mshr c;
                    ret (Some (if mshr_order rc <? mshr_order rw then c else w))
        | None => ret (Some w)
        end
      else
        oc ← on_queue wid (fun mh q => findPending mh q (mshr_addr rm) (mshr_size rm));
        ret (Some (match oc with Some c => c | None => m end))
  | None, None => try_prefetch qid wid
  end.

(** The check of the caches above before a hardware prefetch goes out:
    [true] when one of them answers. *)
Definition prefetch_snoop (tgt_pkt : Packet) (m : MSHRPtr) : M bool :=
  t ← curTick;
  let sp := setExpressSnoop (Packet_copy tgt_pkt true t) in
  let sp := with_pkt_senderState (SS_MSHR m) sp in
  sp ← call (OTimingSnoopReq sp) (fun sh => env_sendTimingSnoopReq env sh sp);
  if memInhibitAsserted sp then markInService m (Some sp) ;; ret true else ret false.

Definition getTimingPacket (threadID : Z) : M (option Packet) :=
  om ← getNextMSHR threadID;
  match om with
  | None => ret None
  | Some m =>
      r ← mshr m; t ← curTick;
      tgt ← lift (getTarget r);
      let tp := tgt_pkt tgt in
      if cmd_is tp SCUpgradeFailReq || cmd_is tp StoreCondFailReq then
        let pkt := with_pkt_cmd UpgradeFailResp (Packet_copy tp false t) in
        let pkt := with_pkt_senderState (SS_MSHR m) pkt in
        let pkt := with_pkt_firstWordTime t (with_pkt_finishTime t pkt) in
        handleResponse env pkt ;; ret None
      else
        fnr ← lift (isForwardNoResponse r);
        if (fnr : bool) then
          upd_mshr m (upd_front_pkt (with_pkt_senderState (SS_MSHR m))) ;;
          ret (Some (with_pkt_senderState (SS_MSHR m) tp))
        else
          ob ← tags (fun ts => findBlock ts (mshr_addr r) (pkt_threadID tp));
          answered ← (if cmd_is tp HardPFReq then
                        massert (match ob with None => true | Some _ => false end) ;;
                        prefetch_snoop tp m
                      else ret false);
          if (answered : bool) then ret None
          else
            r ← mshr m;
            bus ← getBusPacket tp (InTags <$> ob) (mshr_needsExclusive r);
            upd_mshr m (fun r => Ok (with_mshr_isForward
                                       (match bus with None => true | Some _ => false end) r)) ;;
            pkt ← match bus with
                  | Some pkt => ret pkt
                  | None =>
                      pkt ← lift (allocate (Packet_copy tp false t));
                      if isWrite pkt then d ← lift (getPtr tp); lift (setData d 0 pkt)
                      else ret pkt
                  end;
            ret (Some (with_pkt_senderState (SS_MSHR m) pkt))
  end.

Definition nextMSHRReadyTime (threadID : Z) : M Z :=
  qid ← getMSHRQueue threadID; wid ← getWriteBuffer threadID;
  a ← on_queue qid MSHRQueue_nextMSHRReadyTime;
  b ← on_queue wid MSHRQueue_nextMSHRReadyTime;
  pf ← par cp_prefetcher; sh ← gets cc_sh;
  ret (if (pf : bool) then Z.min (Z.min a b) (env_nextPrefetchReadyTime env sh) else Z.min a b).

(** * [MemSidePacketQueue] *)

(** The queue of the memory-side port ([None], built with identifier 5), or
    a thread's own queue of a split cache. *)
Definition mem_pq (which : option Z) : M PacketQueue :=
  match which with
  | None => gets cc_mem_queue
  | Some i => fun s => lift (arr_get (cc_reqQueues s) i) s
  end.
Definition set_mem_pq (which : option Z) (pq : PacketQueue) : M unit :=
  match which with
  | None => modify (with_cc_mem_queue pq)
  | Some i => l ← gets cc_reqQueues; l ← lift (arr_set l i pq); modify (with_cc_reqQueues l)
  end.

(** [MasterPacketQueue::sendTiming] *)
Definition sendTiming (pkt : Packet) (send_as_snoop : bool) : M bool :=
  if negb send_as_snoop then call (OTimingReq pkt) (fun sh => env_sendTimingReq env sh pkt)
  else call (OTimingSnoopResp pkt) (fun sh => env_sendTimingSnoopResp env sh pkt).

(** [trySendTiming] of this queue. *)
Definition mem_trySendTiming (which : option Z) : M unit :=
  t ← curTick; pq ← mem_pq which;
  massert (deferredPacketReady t pq) ;;
  match pq_transmitList pq with
  | [] => fail OutOfBounds
  | dp :: rest =>
      set_mem_pq which (with_pq_transmitList rest pq) ;;
      accepted ← sendTiming (dp_pkt dp) (dp_sendAsSnoop dp);
      pq ← mem_pq which;
      let pq := with_pq_waitingOnRetry (negb accepted) pq in
      if negb accepted then
        massert (negb (scheduled (pq_sendEvent pq))) ;;
        set_mem_pq which (with_pq_transmitList (dp :: pq_transmitList pq) pq)
      else set_mem_pq which pq
  end.

Definition mem_waiting (which : option Z) (b : bool) : M unit :=
  pq ← mem_pq which; set_mem_pq which (with_pq_waitingOnRetry b pq).

Definition MemSidePacketQueue_sendDeferredPacket (which : option Z) : M unit :=
  t ← curTick; pq ← mem_pq which;
  (if deferredPacketReady t pq then mem_trySendTiming which
   else
     op ← getTimingPacket (pq_ID pq);
     match op with
     | None => mem_waiting which false
     | Some pkt =>
         m ← match pkt_senderState pkt with SS_MSHR m => ret m | _ => fail NullDeref end;
         accepted ← call (OTimingReq pkt) (fun sh => env_sendTimingReq env sh pkt);
         mem_waiting which (negb accepted) ;;
         if negb accepted then r ← mshr m; _ ← lift (isForwardNoResponse r); ret tt
         else markInService m (Some pkt)
     end) ;;
  pq ← mem_pq which;
  when (negb (pq_waitingOnRetry pq))
       (next ← nextMSHRReadyTime (pq_ID pq);
        pq ← mem_pq which;
        '(pq, drained) ← lift (scheduleSend t next pq);
        set_mem_pq which pq ;;
        match drained with Some de => emit (ODrained de) | None => ret tt end).

(** * [squash] *)

Definition Cache_squash (threadNum : Z) : M unit :=
  nt ← gets cc_noTargetMSHR;
  cause ← match nt with
          | Some m => r ← mshr m;
                      if mshr_threadNum r =? threadNum then
                        modify (with_cc_noTargetMSHR None) ;; ret (Some Blocked_NoTargets)
                      else ret None
          | None => ret None
          end;
  q ← queue 0;
  let cause := if isFull q then Some Blocked_NoMSHRs else cause in
  queue_op 0 (fun mh q => MSHRQueue.squash mh q threadNum) ;;
  q ← queue 0;
  match cause with
  | Some c => when (negb (isFull q)) (clearBlocked c threadNum)
  | None => ret tt
  end.

(** * Ports *)

(** [CpuSidePort::recvTimingReq] and the override of [SRCpuSidePort]; the
    answer is whether the request was accepted. *)
Definition CpuSidePort_recvTimingReq (pkt : Packet) : M bool :=
  b ← gets cc_cpu_blocked;
  if negb (memInhibitAsserted pkt) && b then
    modify (with_cc_cpu_mustSendRetry true) ;; ret false
  else _ ← timingAccess env pkt; ret true.

Definition SRCpuSidePort_recvTimingReq (pkt : Packet) : M bool :=
  b ← (if negb (memInhibitAsserted pkt) then
         l ← gets cc_cpu_blocked_array; lift (arr_get l (pkt_threadID pkt))
       else ret false);
  if (b : bool) then modify (with_cc_cpu_mustSendRetry true) ;; ret false
  else _ ← timingAccess env pkt; ret true.

Definition recvTimingReq (pkt : Packet) : M bool :=
  k ← par cp_kind;
  if is_split_rport k then SRCpuSidePort_recvTimingReq pkt else CpuSidePort_recvTimingReq pkt.

Definition recvTimingSnoopResp (pkt : Packet) : M bool := _ ← timingAccess env pkt; ret true.
Definition recvAtomic (pkt : Packet) : M (Packet * Z) := atomicAccess pkt.
Definition recvFunctional (pkt : Packet) : M Packet := functionalAccess pkt true.
Definition recvTimingResp (pkt : Packet) : M bool := handleResponse env pkt ;; ret true.
Definition recvTimingSnoopReq (pkt : Packet) : M Packet := snoopTiming pkt.
Definition recvAtomicSnoop (pkt : Packet) : M (Packet * Z) := snoopAtomic pkt.
Definition recvFunctionalSnoop (pkt : Packet) : M Packet := functionalAccess pkt false.

(** [SplitMemSidePort::recvRetry()]: every thread's queue retries. *)
Definition SplitMemSidePort_recvRetry (threadID : Z) : M unit :=
  MemSidePacketQueue_sendDeferredPacket (Some threadID).
Definition SplitMemSidePort_recvRetry_all : M unit :=
  n ← par cp_num_tcs; forM (zrange n) SplitMemSidePort_recvRetry.

End Handlers.

(** * Construction *)

(** [BaseCache] and [Cache] constructors, over a tag store; [base] is where
    the registers of the first queue are allocated, [reqs] and [mh] the
    shared heaps.  [order] is not initialised by the code; it starts at 0
    here. *)
Definition num_mshrs (mshrs : Z) : Z := mshrs + 4 - 1.
Definition num_wbs (mshrs write_buffers : Z) : Z := write_buffers + (mshrs + 1000) - 1.

Definition add_queue_pair (mshrs write_buffers : Z)
    (st : MSHRHeap * Z * list MSHRQueue) (i : Z) : MSHRHeap * Z * list MSHRQueue :=
  let '(mh, base, qs) := st in
  let '(mh, q1) := MSHRQueue_new mh base (2 * i) mshrs 4 0 in
  let base := base + num_mshrs mshrs in
  let '(mh, q2) := MSHRQueue_new mh base (2 * i + 1) write_buffers (mshrs + 1000) 1 in
  (mh, base + num_wbs mshrs write_buffers, qs ++ [q1; q2]).

(** Every class of cache: [Cache], then [SplitMSHRCache]'s queues and
    memory-side port, then [SplitRPortCache]'s CPU-side port.  The loop of
    [SplitRPortCache] that should clear [blocked_array[i]] clears the pointer
    instead. *)
Definition Cache_new (p : CacheParams) (ts : TagStore) (sh : Shared) (base mshrs write_buffers
    max_miss_count : Z) : CState :=
  let n := cp_num_tcs p in
  let '(mh, base, qs) := add_queue_pair mshrs write_buffers (sh_mshrs sh, base, []) 0 in
  let '(mh, base, qs) :=
    if is_split (cp_kind p)
    then foldl (add_queue_pair mshrs write_buffers) (mh, base, qs) (map (Z.add 1) (zrange n))
    else (mh, base, qs) in
  let temp := with_blk_data (replicate (Z.to_nat (cp_blkSize p)) 0) CacheBlk_new in
  mkCState p 0 (with_sh_mshrs mh sh) ts temp qs 0
    (if is_split_rport (cp_kind p) then
       if 0 <? n then None else Some (replicate (Z.to_nat n) 0)
     else None)
    0 0 None max_miss_count 0 []
    false false
    (if is_split_rport (cp_kind p) then replicate (Z.to_nat n) false else [])
    None (PacketQueue_new 0)
    (if is_split_rport (cp_kind p) then map PacketQueue_new (zrange n) else [])
    (PacketQueue_new 5)
    (if is_split (cp_kind p) then map PacketQueue_new (zrange n) else [])
    None [].

(** [BUILD_CACHE] of mem/cache/builder.cc: the class of cache chosen, in the
    order of the tests. *)
Definition BUILD_CACHE (split_rport split_mshrq dirty_cache c_dynamic_cache f_dynamic_cache : bool)
    : CacheKind :=
  if split_rport then KSplitRPort
  else if split_mshrq then KSplitMSHR
  else if dirty_cache then KDirty
  else if c_dynamic_cache then KC_Dynamic
  else if f_dynamic_cache then KF_Dynamic
  else KCache.
