(* ===== verification/DynamicCache.v ===== *)
(** The dynamically partitioned caches: [C_DynamicCache] and
    [F_DynamicCache] (mem/cache/cache_impl.hh, c_dynamic_cache.hh and
    f_dynamic_cache.hh). *)

From S2P Require Import Prelude Request MemCmd Packet Blk CacheSet IntMath TagTypes LRU PartLRU DynaLRU Tags MSHR MSHRQueue PacketQueue CacheBase CacheAccess Cache CacheBus.

(** * History helpers of [C_DynamicCache] *)

Definition array_avg (array : list Z) (count : Z) : result Z :=
  cassert (negb (count =? 0)) ;;
  sum ← foldM (fun sum i => x ← arr_get array i; Ok (u64 (sum + x))) 0 (zrange count);
  Ok (sum / count).

Definition update_history (array : list Z) (count curr_misses : Z) : result (list Z) :=
  cassert (negb (count =? 0)) ;;
  array ← foldM (fun array i => x ← arr_get array (i + 1); arr_set array i x)
                array (zrange (count - 1));
  arr_set array (count - 1) curr_misses.

(** * [C_DynamicCache] *)

(** [if (blk->isDirty() && blk->isValid())] the block goes to the write
    buffer of [tid]. *)
Definition flush_blk (p : BlkPtr) (tid : Z) : M unit :=
  b ← blk_get (InTags p); t ← curTick;
  when (isDirty b && isValid b)
       (wb ← writebackBlk (InTags p) tid; _ ← allocateWriteBuffer wb t true; ret tt).

Definition get_evict (tcid i : Z) : M (option BlkPtr) :=
  '(ts, op) ← tags (fun ts => get_evictBlk ts tcid i); set_tags ts ;; ret op.

Definition C_DynamicCache_inc_size : M unit :=
  '(ts, numSets) ← tags inc_size; set_tags ts ;;
  forM (zrange numSets)
    (fun i => op ← get_evict 0 i;
              p ← lift (of_option NullDeref op);
              flush_blk p 1).

(** The body of the loop of [dec_size], for the way of set [i] that moved to
    High. *)
Definition scrub_way (i : Z) : M unit :=
  op ← get_evict 1 i;
  p ← lift (of_option NullDeref op);
  b ← blk_get (InTags p);
  when (blk_threadID b =? 0)
       (flush_blk p 0 ;;
        invalidateBlk (InTags p) 1 ;;
        blk_mod (InTags p) (with_blk_threadID 1)).

Definition C_DynamicCache_dec_size : M unit :=
  '(ts, numSets) ← tags dec_size; set_tags ts ;; forM (zrange numSets) scrub_way.

(** [adjustPartition]: [Uinc] and [Udec] are [int]s; the difference of two
    points of the miss curve is truncated to [int]. *)
Definition curve_diff (curve : list Z) (i j : Z) : result Z :=
  a ← arr_get curve i; b ← arr_get curve j; Ok (a - b).

Definition adjust_utilities (assoc L_assoc : Z) (curve : list Z) (ts : TagStore) : result (Z * Z) :=
  let H_assoc := u32 (assoc - L_assoc) in
  Uinc ← (if L_assoc =? assoc then Ok 0
          else u ← lookup_umon ts (L_assoc + 1);
               d ← curve_diff curve H_assoc (u32 (H_assoc - 1)); Ok (i32 (u + d)));
  Udec ← (if L_assoc =? 0 then Ok 0
          else u ← lookup_umon ts L_assoc;
               d ← curve_diff curve H_assoc (u32 (H_assoc + 1)); Ok (i32 (0 - u + d)));
  Ok (Uinc, Udec).

(** The event reschedules itself. *)
Definition reschedule_adjust : M unit :=
  t ← curTick; i ← par cp_interval;
  ev ← lift (ev_schedule t (t + i) None); modify (with_cc_adjustEvent ev).

Definition C_DynamicCache_adjustPartition : M unit :=
  L_assoc ← tags curr_L_assoc;
  assoc ← par cp_assoc; curve ← par cp_curve;
  '(Uinc, Udec) ← tags (adjust_utilities assoc L_assoc curve);
  (if (0 <? Uinc) && (Udec <=? Uinc) then C_DynamicCache_inc_size
   else when ((0 <? Udec) && (Uinc <=? Udec)) C_DynamicCache_dec_size) ;;
  upd_tags reset_umon ;;
  reschedule_adjust.

(** * [F_DynamicCache] *)

Definition F_DynamicCache_adjustPartition : M unit :=
  '(ts, numSets) ← tags dec_size; set_tags ts ;;
  forM (zrange numSets)
    (fun i => op ← get_evict 0 i;
              match op with
              | None => ret tt
              | Some p => flush_blk p 0 ;; invalidateBlk (InTags p) 0
              end) ;;
  modify (with_cc_missCounter 0) ;;
  reschedule_adjust.

(** * Construction *)

(** The constructors: a split cache whose first adjustment is scheduled 52
    ticks after one interval, unless a coarse-grained cache is static. *)
Definition first_adjust (s : CState) : CState :=
  with_cc_adjustEvent (Some (52 + cp_interval (cc_par s))) s.
Definition C_DynamicCache_new (static_cache : bool) (p : CacheParams) (ts : TagStore) (sh : Shared)
    (base mshrs write_buffers max_miss_count : Z) : CState :=
  let s := Cache_new p ts sh base mshrs write_buffers max_miss_count in
  if static_cache then s else first_adjust s.
Definition F_DynamicCache_new (p : CacheParams) (ts : TagStore) (sh : Shared)
    (base mshrs write_buffers max_miss_count : Z) : CState :=
  first_adjust (Cache_new p ts sh base mshrs write_buffers max_miss_count).

(** The event that both classes declare runs the [adjustPartition] of its
    own class; the other caches have no such event. *)
Definition adjustPartition : M unit :=
  k ← par cp_kind;
  match k with
  | KC_Dynamic => C_DynamicCache_adjustPartition
  | KF_Dynamic => F_DynamicCache_adjustPartition
  | _ => ret tt
  end.
