(* ===== verification/CacheSpec.v ===== *)
(** Blocking and buffers: the blocking protocol of the CPU side, the
    separation of the buffers of the threads of a split cache, and the faults
    of the split caches. *)

From S2P Require Import Prelude Request MemCmd Packet PacketSpec Blk CacheSet IntMath TagTypes LRU PartLRU DynaLRU Tags TagsWf TagsNew Isolation TagsSpec MSHR MSHRQueue PacketQueue CacheBase CacheAccess Cache CacheBus.

(** * Reasoning in the monad *)

Lemma mbind_Ok {A B} (m : M A) (f : A -> M B) s b s' :
  (m ≫= f) s = Ok (b, s') <-> exists a s1, m s = Ok (a, s1) /\ f a s1 = Ok (b, s').
Proof.
  unfold mbind, M_bind. destruct (m s) as [[a s1]|e]; [|naive_solver].
  split; [eauto | by intros (? & ? & [= <- <-] & ?)].
Qed.

Lemma mbind_eq {A B} (m : M A) (f : A -> M B) s a s1 :
  m s = Ok (a, s1) -> (m ≫= f) s = f a s1.
Proof. intros H. unfold mbind, M_bind. by rewrite H. Qed.

Lemma lift_eq {A} (r : result A) (a : A) s : r = Ok a -> lift r s = Ok (a, s).
Proof. by intros ->. Qed.

Lemma lift_Ok {A} (r : result A) s (a : A) s' : lift r s = Ok (a, s') <-> r = Ok a /\ s' = s.
Proof. unfold lift. destruct r; naive_solver. Qed.

(** [step_M H] splits off the first action of a run that succeeded. *)
Ltac step_M H :=
  apply mbind_Ok in H;
  let a := fresh "a" in let s1 := fresh "s1" in let H1 := fresh "Hs" in
  destruct H as (a & s1 & H1 & H); cbn beta in H.

(** * Blocking *)

(** The port is blocked exactly while some cause is set, and a retry that is
    owed has not been scheduled. *)
Record block_inv (s : CState) : Prop := {
  b_port : cc_cpu_blocked s = negb (cc_blocked s =? 0);
  b_bits : 0 <= cc_blocked s < 8;
  b_retry : cc_cpu_mustSendRetry s = true -> cc_sendRetryEvent s = None
}.

Definition cause_ok (cause : Z) : Prop := 0 <= cause < NUM_BLOCKED_CAUSES.

Lemma cause_flag cause : cause_ok cause -> u8 (Z.shiftl 1 cause) = 2 ^ cause.
Proof.
  intros H. unfold cause_ok, NUM_BLOCKED_CAUSES in H.
  assert (cause = 0 \/ cause = 1 \/ cause = 2) as [->|[->| ->]] by lia; done.
Qed.

(** Bit sets of three causes, by cases. *)
Lemma bits3 b cause : 0 <= b < 8 -> cause_ok cause ->
  0 <= Z.lor b (2 ^ cause) < 8 /\ Z.lor b (2 ^ cause) <> 0 /\ 0 <= Z.ldiff b (2 ^ cause) < 8 /\
  (Z.testbit b cause = true -> b <> 0).
Proof.
  intros Hb Hc. unfold cause_ok, NUM_BLOCKED_CAUSES in Hc.
  assert (cause = 0 \/ cause = 1 \/ cause = 2) as Hcc by lia.
  assert (b = 0 \/ b = 1 \/ b = 2 \/ b = 3 \/ b = 4 \/ b = 5 \/ b = 6 \/ b = 7) as Hbb by lia.
  destruct Hcc as [->|[->| ->]]; destruct Hbb as [->|[->|[->|[->|[->|[->|[->| ->]]]]]]];
    vm_compute; split_and!; intros; congruence.
Qed.

Lemma setBlocked_spec cause t s :
  is_split_rport (cp_kind (cc_par s)) = false -> block_inv s -> cause_ok cause ->
  exists s', setBlocked cause t s = Ok (tt, s') /\ block_inv s' /\
    cc_blocked s' = Z.lor (cc_blocked s) (2 ^ cause) /\ cc_cpu_blocked s' = true /\
    cc_cpu_mustSendRetry s' = cc_cpu_mustSendRetry s /\ cc_sendRetryEvent s' = cc_sendRetryEvent s.
Proof.
  intros Hk [Hp Hb Hr] Hc. destruct (bits3 (cc_blocked s) cause Hb Hc) as (H1 & H2 & _).
  unfold setBlocked, BaseCache_setBlocked. rewrite (cause_flag _ Hc).
  unfold mbind, M_bind, par, gets. cbn. rewrite Hk. cbn.
  destruct (Z.eqb_spec (cc_blocked s) 0) as [He|Hne]; cbn.
  - unfold port_setBlocked, mbind, M_bind, par, gets, stat, modify. cbn. rewrite Hk.
    unfold CacheSlavePort_setBlocked, mbind, M_bind, gets, massert, lift. cbn. rewrite Hp. cbn.
    eexists. split; [reflexivity|]. cbn. split_and!; try done.
    constructor; cbn; [|done|done]. by destruct (Z.eqb_spec (Z.lor (cc_blocked s) (2 ^ cause)) 0).
  - eexists. split; [reflexivity|]. cbn. split_and!; try done.
    constructor; cbn; [|done|done]. rewrite Hp. by destruct (Z.eqb_spec (Z.lor (cc_blocked s) (2 ^ cause)) 0).
Qed.

Lemma clearBlocked_spec cause t s :
  is_split_rport (cp_kind (cc_par s)) = false -> block_inv s -> cause_ok cause ->
  Z.testbit (cc_blocked s) cause = true ->
  exists s', clearBlocked cause t s = Ok (tt, s') /\ block_inv s' /\
    cc_blocked s' = Z.ldiff (cc_blocked s) (2 ^ cause) /\
    (cc_blocked s' = 0 -> cc_cpu_mustSendRetry s = true ->
       cc_sendRetryEvent s' = Some (cc_now s + 1) /\ cc_cpu_mustSendRetry s' = false).
Proof.
  intros Hk [Hp Hb Hr] Hc Ht. destruct (bits3 (cc_blocked s) cause Hb Hc) as (_ & _ & H3 & H4).
  specialize (H4 Ht). unfold clearBlocked, BaseCache_clearBlocked. rewrite (cause_flag _ Hc).
  unfold mbind, M_bind, par, gets, modify. cbn. rewrite Hk. cbn.
  destruct (Z.eqb_spec (Z.ldiff (cc_blocked s) (2 ^ cause)) 0) as [He|Hne]; cbn.
  - unfold port_clearBlocked, mbind, M_bind, par, gets. cbn. rewrite Hk.
    unfold CacheSlavePort_clearBlocked, mbind, M_bind, gets, massert, lift, modify. cbn.
    assert (cc_cpu_blocked s = true) as -> by (rewrite Hp; by destruct (Z.eqb_spec (cc_blocked s) 0)). cbn.
    unfold retry_if_owed, mbind, M_bind, gets. cbn.
    destruct (cc_cpu_mustSendRetry s) eqn:Hm; cbn.
    + rewrite (Hr eq_refl). unfold ev_schedule, lift. rewrite cassert_leb, bind_Ok_l by lia. cbn.
      eexists. split; [reflexivity|]. cbn. split_and!; try done.
      constructor; cbn; [by rewrite He | done | done].
    + eexists. split; [reflexivity|]. cbn. split_and!; try done.
      constructor; cbn; [by rewrite He | done | by rewrite Hm].
  - eexists. split; [reflexivity|]. cbn. split_and!; try done.
    constructor; cbn; [|done|done]. rewrite Hp.
    destruct (Z.eqb_spec (cc_blocked s) 0), (Z.eqb_spec (Z.ldiff (cc_blocked s) (2 ^ cause)) 0); done.
Qed.

(** C32. The blocking protocol of a cache with one CPU-side port: while the
    port is blocked exactly when a cause is set and no owed retry is already
    scheduled, [setBlocked] and [clearBlocked] (of a cause that is set) never
    trip the port's assertions, set and clear exactly the bit of their cause,
    and keep the protocol; when the last cause goes, the port opens and a
    requester that was turned away gets a retry at the next tick. *)
Theorem blocking_protocol s cause t :
  is_split_rport (cp_kind (cc_par s)) = false -> block_inv s -> cause_ok cause ->
  (exists s', setBlocked cause t s = Ok (tt, s') /\ block_inv s' /\
     cc_blocked s' = Z.lor (cc_blocked s) (2 ^ cause) /\ cc_cpu_blocked s' = true) /\
  (Z.testbit (cc_blocked s) cause = true ->
   exists s', clearBlocked cause t s = Ok (tt, s') /\ block_inv s' /\
     cc_blocked s' = Z.ldiff (cc_blocked s) (2 ^ cause) /\
     (cc_blocked s' = 0 -> cc_cpu_mustSendRetry s = true -> cc_sendRetryEvent s' = Some (cc_now s + 1))).
Proof.
  intros Hk Hi Hc. split.
  - destruct (setBlocked_spec cause t s Hk Hi Hc) as (s' & ? & ? & ? & ? & _). eauto.
  - intros Ht. destruct (clearBlocked_spec cause t s Hk Hi Hc Ht) as (s' & H & Hi' & Hb & Hr).
    exists s'. split_and!; [done..|]. intros H0 Hm. by destruct (Hr H0 Hm).
Qed.

(** * Caches to try things on *)

Definition cache_params (k : CacheKind) (n : Z) : CacheParams :=
  mkCacheParams k n 4 2 8 false true 8 false false false 100 4 [].
Definition empty_shared : Shared := mkShared ∅ 0 ∅ [].
Definition new_cache (k : CacheKind) (n : Z) (ts : TagStore) : CState :=
  Cache_new (cache_params k n) ts empty_shared 0 2 2 0.

(** A plain cache with one cause set and a requester turned away. *)
Definition blocked_cache : CState :=
  with_cc_cpu_mustSendRetry true
    (with_cc_cpu_blocked true (with_cc_blocked 4 (new_cache KCache 1 (built (LRU_new 4 4 4 2 8))))).

Lemma blocking_protocol_witness :
  exists s', clearBlocked 2 0 blocked_cache = Ok (tt, s') /\ cc_blocked s' = 0 /\
             cc_sendRetryEvent s' = Some 1.
Proof.
  destruct (blocking_protocol blocked_cache 2 0) as [_ H].
  - vm_compute. reflexivity.
  - constructor; vm_compute; [reflexivity | split; congruence | reflexivity].
  - vm_compute. split; congruence.
  - destruct H as (s' & Hc & _ & Hb & Hr); [vm_compute; reflexivity|].
    assert (cc_blocked s' = 0) as H0 by (rewrite Hb; vm_compute; reflexivity).
    exists s'. split; [exact Hc|]. split; [exact H0|].
    etransitivity; [apply Hr; [exact H0 | vm_compute; reflexivity] | vm_compute; reflexivity].
Defined.

(** A cache with split response ports cannot block: its constructor
    clears the pointer [blocked_array] instead of the entries it points to, so
    the first [setBlocked] or [clearBlocked] of any thread dereferences a null
    pointer. *)
Theorem split_rport_blocking_faults p ts sh base mshrs wbufs misses cause t :
  is_split_rport (cp_kind p) = true -> 0 < cp_num_tcs p ->
  let s := Cache_new p ts sh base mshrs wbufs misses in
  setBlocked cause t s = Err NullDeref /\ clearBlocked cause t s = Err NullDeref.
Proof.
  intros Hk Hn s. assert (cp_kind (cc_par s) = cp_kind p /\ cc_blocked_array s = None) as [Hp Ha].
  { unfold s, Cache_new. destruct (add_queue_pair _ _ _ _) as [[mh b] qs].
    destruct (if is_split _ then _ else _) as [[mh' b'] qs']. cbn. rewrite Hk.
    by rewrite (proj2 (Z.ltb_lt _ _) Hn). }
  clearbody s. unfold setBlocked, clearBlocked, SplitRPortCache_setBlocked, SplitRPortCache_clearBlocked.
  unfold mbind, M_bind, par, gets. cbn. rewrite Hp, Hk. cbn. by rewrite Ha.
Qed.

Lemma split_rport_blocking_faults_witness :
  setBlocked 0 1 (new_cache KSplitRPort 2 (built (WPLRU_new 4 4 4 2 2 8))) = Err NullDeref.
Proof.
  apply (split_rport_blocking_faults (cache_params KSplitRPort 2) (built (WPLRU_new 4 4 4 2 2 8))
           empty_shared 0 2 2 0 0 1); vm_compute; reflexivity.
Defined.

(** * The memory-side queue of a split cache *)

Lemma split_queue_out_of_range t s :
  is_split (cp_kind (cc_par s)) = true -> cp_num_tcs (cc_par s) <= t ->
  getMSHRQueue t s = Err OutOfBounds.
Proof.
  intros Hk Hn. unfold getMSHRQueue, mbind, M_bind, par, gets. cbn. rewrite Hk.
  assert (t <? cp_num_tcs (cc_par s) = false) as -> by (by apply Z.ltb_ge). by rewrite andb_false_r.
Qed.

Lemma call_par {A} o (f : Shared -> result (Shared * A)) s a s' :
  call o f s = Ok (a, s') -> cc_par s' = cc_par s /\ cc_mem_queue s' = cc_mem_queue s.
Proof.
  unfold call. intros H. step_M H. injection Hs as <- <-. step_M H. injection Hs as <- <-.
  step_M H. destruct a0 as [sh a']. apply lift_Ok in Hs as [_ ->]. step_M H. injection Hs as <- <-.
  injection H as <- <-. done.
Qed.

(** The base memory-side queue of a split cache is built with identifier
    5, which is no thread of a cache with up to five: its send handler cannot
    complete a round.  Whenever it returns at all, the port has refused the
    packet; as soon as a packet is accepted, or there is none, looking up the
    miss queue of thread 5 is out of range. *)
Theorem split_mem_queue_faults env s u s' :
  is_split (cp_kind (cc_par s)) = true -> cp_num_tcs (cc_par s) <= 5 ->
  pq_ID (cc_mem_queue s) = 5 ->
  MemSidePacketQueue_sendDeferredPacket env None s = Ok (u, s') ->
  pq_waitingOnRetry (cc_mem_queue s') = true.
Proof.
  intros Hk Hn Hid H. unfold MemSidePacketQueue_sendDeferredPacket in H.
  step_M H. injection Hs as <- <-. step_M H. injection Hs as <- <-. step_M H.
  assert (cc_par s1 = cc_par s /\ pq_ID (cc_mem_queue s1) = 5) as [Hp1 Hid1].
  { destruct (deferredPacketReady (cc_now s) (cc_mem_queue s)).
    - unfold mem_trySendTiming in Hs. step_M Hs. injection Hs0 as <- <-. step_M Hs. injection Hs0 as <- <-.
      step_M Hs. apply lift_Ok in Hs0 as [_ ->]. destruct (pq_transmitList (cc_mem_queue s)) as [|d r]; [done|].
      step_M Hs. injection Hs0 as <- <-. step_M Hs.
      assert (cc_par s0 = cc_par s /\ pq_ID (cc_mem_queue s0) = 5) as [Hp0 Hid0].
      { unfold sendTiming in Hs0. case_in Hs0; apply call_par in Hs0 as [-> ->]; by split. }
      step_M Hs. injection Hs1 as <- <-. destruct a1; cbn in Hs.
      + injection Hs as <- <-. by split.
      + step_M Hs. apply lift_Ok in Hs1 as [_ ->]. injection Hs as <- <-. by split.
    - step_M Hs. unfold getTimingPacket, getNextMSHR in Hs0. step_M Hs0. step_M Hs1.
      rewrite split_queue_out_of_range in Hs2 by (done || lia). discriminate. }
  step_M H. injection Hs0 as <- <-. unfold when in H.
  destruct (pq_waitingOnRetry (cc_mem_queue s1)) eqn:Hw; cbn in H; [injection H as <- <-; done|].
  step_M H. unfold nextMSHRReadyTime in Hs0. step_M Hs0.
  rewrite split_queue_out_of_range in Hs1 by (rewrite ?Hp1, ?Hid1; done || lia). discriminate.
Qed.

(** Neighbours that accept everything or nothing and never answer. *)
Definition mute_env (accept : bool) : Env :=
  mkEnv (fun sh _ => Ok (sh, accept)) (fun sh _ => Ok (sh, accept)) (fun sh p => Ok (sh, p))
    (fun sh p => Ok (sh, p, 0)) (fun sh p => Ok (sh, p, 0)) (fun sh p => Ok (sh, p))
    (fun sh p => Ok (sh, p)) false (fun sh _ _ => Ok (sh, 0)) (fun sh => Ok (sh, None)) (fun _ => 0).

(** A split cache that owes a snoop response: refused, it waits; accepted,
    the handler faults. *)
Definition snooped_cache : CState :=
  let s := new_cache KSplitMSHR 2 (built (WPLRU_new 4 4 4 2 2 8)) in
  with_cc_mem_queue
    (with_pq_transmitList [mkDeferredPacket 0 (Packet_blank 0 ReadResp 0 0) true] (cc_mem_queue s)) s.

Lemma split_mem_queue_faults_witness :
  (exists u s', MemSidePacketQueue_sendDeferredPacket (mute_env false) None snooped_cache = Ok (u, s') /\
     pq_waitingOnRetry (cc_mem_queue s') = true) /\
  MemSidePacketQueue_sendDeferredPacket (mute_env true) None snooped_cache = Err OutOfBounds.
Proof.
  split; [|vm_compute; reflexivity].
  assert (is_ok (MemSidePacketQueue_sendDeferredPacket (mute_env false) None snooped_cache) = true) as H
    by (vm_compute; reflexivity).
  apply is_ok_true in H as [[u s'] H]. exists u, s'. split; [exact H|].
  apply (split_mem_queue_faults (mute_env false) snooped_cache u s');
    [vm_compute; reflexivity | vm_compute; congruence | vm_compute; reflexivity | exact H].
Defined.

(** * The buffers of the threads of a split cache *)

(** At most the queues, port queues and flags of thread [t] differ (and what all
    threads share: the registers, the blocked word, the CPU-side queue). *)
Record thread_frame (t : Z) (s s' : CState) : Prop := {
  tf_par : cc_par s' = cc_par s;
  tf_tags : cc_tags s' = cc_tags s;
  tf_queues : forall i, i <> 2 + 2 * t -> i <> 3 + 2 * t ->
    arr_get (cc_queues s') i = arr_get (cc_queues s) i;
  tf_req : forall i, i <> t -> arr_get (cc_reqQueues s') i = arr_get (cc_reqQueues s) i;
  tf_resp : forall i, i <> t -> arr_get (cc_respQueues s') i = arr_get (cc_respQueues s) i;
  tf_blocked : forall i, i <> t ->
    arr_get (cc_cpu_blocked_array s') i = arr_get (cc_cpu_blocked_array s) i;
  tf_reqs : sh_reqs (cc_sh s') = sh_reqs (cc_sh s)
}.

#[global] Instance thread_frame_refl t : Reflexive (thread_frame t).
Proof. by constructor. Qed.
#[global] Instance thread_frame_trans t : Transitive (thread_frame t).
Proof.
  intros a b c [P T Q R S B H] [P' T' Q' R' S' B' H']. constructor; try congruence; intros.
  - rewrite Q', Q; done.
  - rewrite R', R; done.
  - rewrite S', S; done.
  - rewrite B', B; done.
Qed.

(** And no register differs either. *)
Record quiet_frame (t : Z) (s s' : CState) : Prop := {
  qf_frame : thread_frame t s s';
  qf_mshrs : sh_mshrs (cc_sh s') = sh_mshrs (cc_sh s)
}.

#[global] Instance quiet_frame_refl t : Reflexive (quiet_frame t).
Proof. by constructor. Qed.
#[global] Instance quiet_frame_trans t : Transitive (quiet_frame t).
Proof. intros a b c [F M] [F' M']. constructor; [by transitivity b | congruence]. Qed.

(** The state [s'] only has the component of thread [t] of one of its arrays set. *)
#[local] Ltac quiet := constructor; [constructor; try done; cbn | done].

(** An action of a split cache that keeps to the frame and to the registers. *)
Definition framed {A} (t : Z) (m : M A) : Prop :=
  forall s a s', is_split (cp_kind (cc_par s)) = true -> m s = Ok (a, s') -> quiet_frame t s s'.

Lemma framed_bind {A B} t (m : M A) (f : A -> M B) :
  framed t m -> (forall a, framed t (f a)) -> framed t (m ≫= f).
Proof.
  intros Hm Hf s b s' Hk H. apply mbind_Ok in H as (a & s1 & H1 & H2).
  pose proof (Hm _ _ _ Hk H1) as F1. transitivity s1; [done|]. eapply Hf; [|done].
  by rewrite (tf_par _ _ _ (qf_frame _ _ _ F1)).
Qed.

Lemma framed_when t b m : framed t m -> framed t (when b m).
Proof. intros Hm. destruct b; [done|]. intros s a s' _ H. by injection H as <- <-. Qed.

(** Reads change nothing. *)
Definition reads {A} (m : M A) : Prop := forall s a s', m s = Ok (a, s') -> s' = s.

Lemma framed_reads {A} t (m : M A) : reads m -> framed t m.
Proof. intros H s a s' _ Hs. by rewrite (H _ _ _ Hs). Qed.

Lemma reads_lift {A} (r : result A) : reads (lift r).
Proof. intros s a s' H. by apply lift_Ok in H as [_ ->]. Qed.
Lemma reads_gets {A} (f : CState -> A) : reads (gets f).
Proof. intros s a s' H. by injection H as <- <-. Qed.
Lemma reads_ret {A} (a : A) : reads (ret a).
Proof. intros s x s' H. by injection H as <- <-. Qed.
Lemma reads_fail {A} e : reads (@fail A e).
Proof. intros s x s' H. discriminate. Qed.
Lemma reads_state {A} (f : CState -> result A) : reads (fun s => lift (f s) s).
Proof. intros s x s' H. by apply lift_Ok in H as [_ ->]. Qed.
Lemma reads_bind {A B} (m : M A) (f : A -> M B) :
  reads m -> (forall a, reads (f a)) -> reads (m ≫= f).
Proof.
  intros Hm Hf s b s' H. apply mbind_Ok in H as (a & s1 & H1 & H2).
  rewrite (Hf _ _ _ _ H2). by eapply Hm.
Qed.

Create HintDb frame.
#[export] Hint Resolve framed_bind framed_when framed_reads reads_lift reads_gets reads_ret reads_fail
  reads_bind : frame.

Lemma framed_modify t f : (forall s, quiet_frame t s (f s)) -> framed t (modify f).
Proof. intros H s a s' _ Hs. injection Hs as <- <-. apply H. Qed.

Lemma framed_next_order t : framed t next_order.
Proof.
  unfold next_order. apply framed_bind; [eauto with frame|]. intros o. apply framed_bind; [|eauto with frame].
  apply framed_modify. intros s. by constructor.
Qed.

Lemma framed_set_queue t qid q : qid = 2 + 2 * t \/ qid = 3 + 2 * t -> framed t (set_queue qid q).
Proof.
  intros Hq s a s' _ H. unfold set_queue in H. step_M H. injection Hs as <- <-. step_M H.
  apply lift_Ok in Hs as [Hs ->]. injection H as <- <-. quiet.
  intros i H1 H2. eapply arr_get_set_ne; [|exact Hs]. lia.
Qed.

Lemma framed_requestMemSideBus t cause time : framed t (requestMemSideBus cause time t).
Proof.
  intros s a s' Hk H. unfold requestMemSideBus in H. step_M H. injection Hs as <- <-.
  step_M H. injection Hs as <- <-.
  rewrite Hk in H. step_M H. injection Hs as <- <-. step_M H. apply lift_Ok in Hs as [_ ->].
  step_M H. apply lift_Ok in Hs as [_ ->]. step_M H. apply lift_Ok in Hs as [Hs ->].
  injection H as <- <-. quiet. intros i Hi. by eapply arr_get_set_ne; [|exact Hs].
Qed.

Lemma framed_retry t : framed t retry_if_owed.
Proof.
  unfold retry_if_owed. apply framed_bind; [eauto with frame|]. intros r. apply framed_when.
  apply framed_bind; [apply framed_modify; intros s; by constructor|]. intros _.
  apply framed_bind; [unfold curTick; eauto with frame|]. intros tk.
  apply framed_bind; [eauto with frame|]. intros ev. apply framed_bind; [eauto with frame|]. intros ev'.
  apply framed_modify. intros s. by constructor.
Qed.

Lemma framed_SRCpuSidePort_setBlocked t : framed t (SRCpuSidePort_setBlocked t).
Proof.
  intros s a s' _ H. unfold SRCpuSidePort_setBlocked in H. step_M H. injection Hs as <- <-.
  step_M H. apply lift_Ok in Hs as [_ ->]. step_M H. apply lift_Ok in Hs as [_ ->].
  step_M H. apply lift_Ok in Hs as [Hs ->]. injection H as <- <-.
  quiet. intros i Hi. by eapply arr_get_set_ne; [|exact Hs].
Qed.

Lemma framed_port_setBlocked t : framed t (port_setBlocked t).
Proof.
  unfold port_setBlocked. apply framed_bind; [unfold par; eauto with frame|]. intros k.
  destruct (is_split_rport k); [apply framed_SRCpuSidePort_setBlocked|].
  unfold CacheSlavePort_setBlocked, massert. apply framed_bind; [eauto with frame|]. intros b.
  apply framed_bind; [eauto with frame|]. intros _. apply framed_modify. intros s. by constructor.
Qed.

Lemma framed_stat t x : framed t (stat x).
Proof. apply framed_modify. intros s. by constructor. Qed.

Lemma framed_setBlocked t cause : framed t (setBlocked cause t).
Proof.
  unfold setBlocked. apply framed_bind; [unfold par; eauto with frame|]. intros k.
  assert (forall tk, framed t (stat (St_blocked_causes cause) ;; modify (with_cc_blockedCycle tk) ;;
                               port_setBlocked t)) as Hport.
  { intros tk. apply framed_bind; [apply framed_stat|]. intros _.
    apply framed_bind; [apply framed_modify; intros s; by constructor|]. intros _. apply framed_port_setBlocked. }
  destruct (is_split_rport k); unfold SplitRPortCache_setBlocked, BaseCache_setBlocked, curTick; cbv zeta.
  - do 4 (apply framed_bind; [eauto with frame|]; intros ?).
    apply framed_bind; [apply framed_when, Hport|]. intros _.
    apply framed_bind; [eauto with frame|]. intros ?. apply framed_modify. intros s. by constructor.
  - do 2 (apply framed_bind; [eauto with frame|]; intros ?).
    apply framed_bind; [apply framed_when, Hport|]. intros _.
    apply framed_modify. intros s. by constructor.
Qed.

(** The upstream register of the packet, whose downstream flag is raised. *)
Definition upstream (pkt : Packet) (x : MSHRPtr) : bool :=
  match pkt_senderState pkt with SS_MSHR u => bool_decide (u = x) | _ => false end.

(** Of the registers only [m] differs, and the flag of the upstream register. *)
Definition only_register (m : MSHRPtr) (pkt : Packet) (mh mh' : MSHRHeap) : Prop :=
  forall x, x <> m -> mh' !! x = (if upstream pkt x then with_mshr_downstreamPending true <$> mh !! x else mh !! x).

Lemma mark_upstream_only m pkt mh mh' :
  mark_upstream mh pkt = Ok mh' -> only_register m pkt mh mh'.
Proof.
  unfold mark_upstream, only_register, upstream, mshr_deref. intros H x Hx.
  destruct (pkt_senderState pkt) as [|u|p1 p2|p1 p2| |p1] eqn:E; try by injection H as <-. inv_ok.
  destruct (bool_decide_reflect (u = x)) as [->|Hne]; [|by rewrite lookup_insert_ne].
  rewrite lookup_insert_eq. match goal with Hy : mh !! x = Some _ |- _ => by rewrite Hy end.
Qed.

Lemma MSHR_allocate_only h mh m addr size pkt t o now mh' :
  MSHR_allocate h mh m addr size pkt t o now = Ok mh' -> only_register m pkt mh mh'.
Proof.
  intros H x Hx. unfold MSHR_allocate, TargetList_add, mshr_update, mshr_deref in H. inv_ok.
  match goal with HM : mark_upstream _ _ = Ok _ |- _ => apply (mark_upstream_only m) in HM; specialize (HM x Hx) end.
  rewrite lookup_insert_ne in * by done. done.
Qed.

Lemma MSHRQueue_allocate_only h mh q addr size pkt t o now mh' q' m :
  MSHRQueue_allocate h mh q addr size pkt t o now = Ok (mh', q', m) ->
  m ∈ mq_freeList q /\ only_register m pkt mh mh'.
Proof.
  unfold MSHRQueue_allocate. destruct (mq_freeList q) as [|m0 free]; [done|]. intros H. inv_ok.
  split; [by left|]. by eapply MSHR_allocate_only.
Qed.

(** What allocating a buffer of thread [t] does with the registers: it takes one
    from the free list of a queue of the thread. *)
Definition took (t : Z) (pkt : Packet) (m : MSHRPtr) (s s' : CState) : Prop :=
  (exists i q, (i = 2 + 2 * t \/ i = 3 + 2 * t) /\ arr_get (cc_queues s) i = Ok q /\ m ∈ mq_freeList q) /\
  only_register m pkt (sh_mshrs (cc_sh s)) (sh_mshrs (cc_sh s')).

Lemma framed_after_allocation t qid q time rb (m : MSHRPtr) :
  qid = 2 + 2 * t \/ qid = 3 + 2 * t ->
  framed t (set_queue qid q ;; when (isFull q) (setBlocked (mq_index q) t) ;;
            when rb (requestMemSideBus (mq_index q) time t) ;; ret m).
Proof.
  intros Hq. apply framed_bind; [by apply framed_set_queue|]. intros _.
  apply framed_bind; [apply framed_when, framed_setBlocked|]. intros _.
  apply framed_bind; [apply framed_when, framed_requestMemSideBus|]. intros _. eauto with frame.
Qed.

Lemma allocateBuffer_frame t qid addr size pkt time rb s m s' :
  is_split (cp_kind (cc_par s)) = true -> pkt_threadID pkt = t -> qid = 2 + 2 * t \/ qid = 3 + 2 * t ->
  allocateBufferInternal qid addr size pkt time rb s = Ok (m, s') -> thread_frame t s s' /\ took t pkt m s s'.
Proof.
  intros Hk <- Hq H. unfold allocateBufferInternal in H. step_M H.
  assert (cc_queues s1 = cc_queues s) as Eq.
  { unfold next_order in Hs. step_M Hs. injection Hs0 as <- <-. step_M Hs. injection Hs0 as <- <-. by injection Hs as <- <-. }
  apply (framed_next_order (pkt_threadID pkt)) in Hs as [F0 M0]; [|done].
  do 2 (step_M H; injection Hs as <- <-). step_M H. unfold on_queue, queue in Hs.
  step_M Hs. apply lift_Ok in Hs0 as [Hqueue ->]. step_M Hs. injection Hs0 as <- <-. apply lift_Ok in Hs as [HA ->].
  destruct a0 as [[mh q] m']. apply MSHRQueue_allocate_only in HA as [Hfree Honly].
  step_M H. injection Hs as <- <-.
  assert (m' = m) as ->.
  { clear -H. do 3 (step_M H; clear Hs). by injection H. }
  apply (framed_after_allocation (pkt_threadID pkt)) in H as [F1 M1]; [|done|cbn; by rewrite (tf_par _ _ _ F0)].
  split.
  - transitivity s1; [done|]. transitivity (with_cc_sh (with_sh_mshrs mh (cc_sh s1)) s1); [by constructor | done].
  - split; [exists qid; eexists; rewrite <- Eq; by split_and!|]. rewrite <- M0, M1. exact Honly.
Qed.

Lemma split_queue_pos t s qid s' :
  is_split (cp_kind (cc_par s)) = true ->
  (getMSHRQueue t s = Ok (qid, s') -> qid = 2 + 2 * t /\ s' = s) /\
  (getWriteBuffer t s = Ok (qid, s') -> qid = 3 + 2 * t /\ s' = s).
Proof.
  intros Hk. unfold getMSHRQueue, getWriteBuffer, mbind, M_bind, par, gets. cbn. rewrite Hk.
  destruct (_ && _); split; try discriminate; by intros [= <- <-].
Qed.

Lemma framed_schedTimingResp t pkt time : framed t (schedTimingResp pkt time t).
Proof.
  intros s a s' _ H. unfold schedTimingResp in H. do 2 (step_M H; injection Hs as <- <-).
  destruct (is_split_rport _).
  - step_M H. injection Hs as <- <-. do 2 (step_M H; apply lift_Ok in Hs as [_ ->]).
    step_M H. apply lift_Ok in Hs as [Hs ->]. injection H as <- <-. quiet.
    intros i Hi. by eapply arr_get_set_ne; [|exact Hs].
  - step_M H. injection Hs as <- <-. step_M H. apply lift_Ok in Hs as [_ ->]. injection H as <- <-. by quiet.
Qed.

(** C33. The buffers of a split cache are per thread.  Allocating a miss buffer,
    a write buffer or an uncached read buffer for a packet takes a register from
    the free list of a queue of its own thread and changes no other register
    (but for the flag of the packet's upstream register, in the cache above);
    neither it nor queueing a response of a thread touches a miss queue, write
    buffer, request queue, response queue or blocked flag of any other thread, the
    tags or the requests; and a response changes no register.  (The blocked word of
    a split cache, and the CPU-side queue of one without response ports per
    thread, are shared by all threads in the source.) *)
Theorem split_buffers_isolated pkt time rb s :
  is_split (cp_kind (cc_par s)) = true ->
  (forall m s', allocateMissBuffer pkt time rb s = Ok (m, s') \/ allocateWriteBuffer pkt time rb s = Ok (m, s') \/
     allocateUncachedReadBuffer pkt time rb s = Ok (m, s') ->
     thread_frame (pkt_threadID pkt) s s' /\ took (pkt_threadID pkt) pkt m s s') /\
  (forall t s', schedTimingResp pkt time t s = Ok (tt, s') ->
     thread_frame t s s' /\ sh_mshrs (cc_sh s') = sh_mshrs (cc_sh s)).
Proof.
  intros Hk. split; [|intros t s' H; by apply framed_schedTimingResp in H as []]. intros m s' [H|[H|H]].
  - unfold allocateMissBuffer, request in H. step_M H. apply lift_Ok in Hs as [_ ->].
    step_M H. apply lift_Ok in Hs as [_ ->]. step_M H. apply split_queue_pos in Hs as [-> ->]; [|done].
    step_M H. apply lift_Ok in Hs as [_ ->]. step_M H. injection Hs as <- <-. step_M H. injection Hs as <- <-.
    eapply allocateBuffer_frame; [exact Hk | done | by left | exact H].
  - unfold allocateWriteBuffer in H. step_M H. apply lift_Ok in Hs as [_ ->].
    step_M H. apply split_queue_pos in Hs as [-> ->]; [|done].
    do 2 (step_M H; apply lift_Ok in Hs as [_ ->]).
    eapply allocateBuffer_frame; [exact Hk | done | by right | exact H].
  - unfold allocateUncachedReadBuffer, request in H.
    do 3 (step_M H; apply lift_Ok in Hs as [_ ->]). step_M H. apply split_queue_pos in Hs as [-> ->]; [|done].
    do 2 (step_M H; apply lift_Ok in Hs as [_ ->]).
    eapply allocateBuffer_frame; [exact Hk | done | by left | exact H].
Qed.

(** A request in the heap, the packet for it, and a cache that shares the
    heap. *)
Definition small_request (addr size : Z) : Request :=
  match setPhys addr size 0 0 0 blank_request with Ok r => r | Err _ => blank_request end.
Definition small_packet (addr size : Z) (c : Command) (t : Z) : Packet :=
  Packet_fromReq (small_request addr size) (Packet_blank 1 c t 0).
Definition cache_with_request (k : CacheKind) (n : Z) (ts : TagStore) (addr size : Z) : CState :=
  Cache_new (cache_params k n) ts (mkShared {[ 1 := small_request addr size ]} 2 ∅ []) 0 2 2 0.

(** In a cache without response ports per thread, a miss of thread 1 leaves the miss
    queue of thread 0, which is queue 2, its request queue and its first register,
    number 0, untouched. *)
Lemma split_buffers_isolated_witness :
  let s := cache_with_request KSplitMSHR 2 (built (WPLRU_new 4 4 4 2 2 8)) 64 4 in
  exists m s', allocateMissBuffer (small_packet 64 4 ReadReq 1) 5 true s = Ok (m, s') /\
    arr_get (cc_queues s') 2 = arr_get (cc_queues s) 2 /\
    arr_get (cc_reqQueues s') 0 = arr_get (cc_reqQueues s) 0 /\
    sh_mshrs (cc_sh s') !! 0 = sh_mshrs (cc_sh s) !! 0.
Proof.
  intros s. assert (match allocateMissBuffer (small_packet 64 4 ReadReq 1) 5 true s with
                    | Ok (m, _) => negb (m =? 0) | Err _ => false end = true) as C by (vm_compute; reflexivity).
  destruct (allocateMissBuffer _ _ _ s) as [[m s']|] eqn:H; [|discriminate].
  destruct (split_buffers_isolated (small_packet 64 4 ReadReq 1) 5 true s) as [P _]; [vm_compute; reflexivity|].
  destruct (P m s' (or_introl H)) as [F [_ R]]. exists m, s'. split; [reflexivity|].
  split; [apply (tf_queues _ _ _ F); discriminate|]. split; [apply (tf_req _ _ _ F); discriminate|].
  assert (upstream (small_packet 64 4 ReadReq 1) 0 = false) as U by (vm_compute; reflexivity).
  specialize (R 0). rewrite U in R. apply R. intros <-. discriminate C.
Defined.
