(* ===== verification/DynamicSpec.v ===== *)
(** The coarse-grained dynamic cache: what a resize leaves behind, and the
    utilities it is decided by. *)

From S2P Require Import Prelude Request MemCmd Packet Blk CacheSet IntMath TagTypes LRU PartLRU DynaLRU Tags TagsWf TagsNew Isolation Resize MSHR MSHRQueue PacketQueue CacheBase CacheAccess Cache CacheBus DynamicCache CacheSpec.

(** * Growing Low *)

(** A dynamic cache in which High filled its two ways of set 0, the block
    at 0x40 first. *)
Definition high_tags : TagStore :=
  match tag_run coarse_store [OpFill 0x40 0 1 0 fill_valid; OpFill 0x80 0 1 1 fill_valid] with
  | Ok (ts, _) => ts
  | Err _ => coarse_store
  end.
Definition high_cache : CState := new_cache KC_Dynamic 2 high_tags.
Definition grown_cache : CState :=
  match C_DynamicCache_inc_size high_cache with Ok (_, s) => s | Err _ => high_cache end.

(** A way that [C_DynamicCache::inc_size] hands from High to Low keeps
    its tag, its valid bit and its contents: High fills its ways, the cache
    grows Low by one way, and a Low lookup of High's address, a miss before the
    resize, hits High's block, still stamped with High's thread identifier. *)
Theorem grown_way_shows_high_block :
  findBlock (cc_tags high_cache) 0x40 0 = Ok None /\
  C_DynamicCache_inc_size high_cache = Ok (tt, grown_cache) /\
  exists p b, findBlock (cc_tags grown_cache) 0x40 0 = Ok (Some p) /\
    ts_blks (cc_tags grown_cache) !! p = Some b /\ isReadable b = true /\ blk_threadID b = 1.
Proof.
  split; [vm_compute; reflexivity|]. split.
  - assert (is_ok (C_DynamicCache_inc_size high_cache) = true) as H by (vm_compute; reflexivity).
    unfold grown_cache. apply is_ok_true in H as [[[] s'] ->]. reflexivity.
  - eexists _, _. split; [vm_compute; reflexivity|]. split; [vm_compute; reflexivity|].
    split; vm_compute; reflexivity.
Qed.

(** * The utility of a way *)

Lemma curve_diff_total curve i j :
  0 <= i < Z.of_nat (length curve) -> 0 <= j < Z.of_nat (length curve) -> exists d, curve_diff curve i j = Ok d.
Proof.
  intros Hi Hj. unfold curve_diff. destruct (arr_get_total curve i Hi) as [a ->].
  destruct (arr_get_total curve j Hj) as [b ->]. cbn. eauto.
Qed.

(** The utilities that decide a resize are computed exactly when Low
    has fewer than [assoc - 1] ways: with [assoc - 1] ways [adjustPartition]
    reads the monitor at index [assoc], one past the end of its [assoc]
    counters, although such a partition is legal when High may shrink to one
    way. *)
Theorem adjust_utilities_iff ts e curve :
  c_wf ts e -> Z.of_nat (length (c_umon_counters e)) = ts_assoc ts ->
  Z.of_nat (length curve) = ts_assoc ts + 1 ->
  is_ok (adjust_utilities (ts_assoc ts) (c_L_assoc e) curve ts) = true <-> c_L_assoc e < ts_assoc ts - 1.
Proof.
  intros [_ Hk Ht HL HH Hb] Hl Hc. unfold adjust_utilities, lookup_umon. rewrite Hk.
  unfold C_DYNALRU_lookup_umon, get_ext. rewrite Hk, !bind_Ok_l.
  rewrite (u32_small (ts_assoc ts - c_L_assoc e)) by lia.
  replace (c_L_assoc e =? 0) with false by lia. split.
  - intros H. apply is_ok_true in H as [r H]. apply bind_Ok in H as (Uinc & H1 & H).
    apply bind_Ok in H as (Udec & H2 & _). apply bind_Ok in H2 as (u & H2 & _).
    apply arr_get_lt in H2. destruct (Z.eqb_spec (c_L_assoc e) (ts_assoc ts)); [lia|].
    apply bind_Ok in H1 as (v & H1 & _). apply arr_get_lt in H1. lia.
  - intros Hlt. replace (c_L_assoc e =? ts_assoc ts) with false by lia.
    destruct (arr_get_total (c_umon_counters e) (c_L_assoc e + 1)) as [u ->]; [lia|]. rewrite bind_Ok_l.
    rewrite !u32_small by lia.
    destruct (curve_diff_total curve (ts_assoc ts - c_L_assoc e) (ts_assoc ts - c_L_assoc e - 1)) as [d ->];
      [lia..|]. rewrite !bind_Ok_l.
    destruct (arr_get_total (c_umon_counters e) (c_L_assoc e)) as [v ->]; [lia|]. rewrite bind_Ok_l.
    destruct (curve_diff_total curve (ts_assoc ts - c_L_assoc e) (ts_assoc ts - c_L_assoc e + 1)) as [d' ->];
      [lia..|]. done.
Qed.

(** Four ways, of which Low has three after one step, as High may shrink to
    one. *)
Definition grown_store : TagStore :=
  match inc_size coarse_store with Ok (ts, _) => ts | Err _ => coarse_store end.
Definition grown_ext : C_Ext :=
  match ts_class grown_store with IsC_DYNALRU e => e | _ => coarse_ext end.

Lemma grown_store_wf : c_wf grown_store grown_ext.
Proof.
  destruct (inc_size_total _ _ coarse_store_wf) as (ts' & e' & r & H & C & _).
  assert (grown_store = ts') as E by (unfold grown_store; by rewrite H).
  unfold grown_ext. rewrite E, (c_class _ _ C). done.
Qed.

(** The utilities of the initial partition, and the fault after one
    step. *)
Lemma adjust_utilities_iff_witness :
  is_ok (adjust_utilities 4 2 [90; 50; 30; 20; 10] coarse_store) = true /\
  is_ok (adjust_utilities 4 3 [90; 50; 30; 20; 10] grown_store) <> true.
Proof.
  split.
  - apply (adjust_utilities_iff coarse_store coarse_ext [90; 50; 30; 20; 10] coarse_store_wf);
      vm_compute; reflexivity.
  - intros H. assert (3 < 4 - 1) as F; [|lia].
    apply (adjust_utilities_iff grown_store grown_ext [90; 50; 30; 20; 10] grown_store_wf);
      [vm_compute; reflexivity | vm_compute; reflexivity | exact H].
Defined.
