(* ===== verification/AccessSpec.v ===== *)
(** What a cache does with the data: hits, writebacks, evictions, and the
    loop that answers the targets of a miss. *)

From S2P Require Import Prelude Request MemCmd Packet PacketSpec Blk CacheSet IntMath TagTypes LRU PartLRU DynaLRU Tags TagsWf TagsNew Isolation TagsSpec MSHR MSHRQueue PacketQueue CacheBase CacheAccess Cache CacheBus CacheSpec.

(** * Running the monad forwards *)

(** [run_M] executes the first action of the goal's program; its result is
    computed, or found among the hypotheses. *)
Ltac run_M :=
  erewrite mbind_eq; [|first [reflexivity | eassumption | apply lift_eq; (reflexivity || eassumption)]];
  cbn beta iota.

(** The state with block [p] replaced. *)
Definition put_blk (s : CState) (p : BlkPtr) (b : CacheBlk) : CState :=
  with_cc_tags (ts_set_blk (cc_tags s) p b) s.

Lemma blk_get_tags s p b : ts_blks (cc_tags s) !! p = Some b -> blk_get (InTags p) s = Ok (b, s).
Proof. intros H. unfold blk_get, tags. by rewrite (ts_blk_eq _ _ _ H). Qed.

Lemma put_blk_lookup s p b b' :
  ts_blks (cc_tags s) !! p = Some b -> ts_blks (cc_tags (put_blk s p b')) !! p = Some b'.
Proof. intros H. apply list_lookup_insert_eq. by eapply lookup_lt_Some. Qed.

Lemma put_put_blk s p b b' : put_blk (put_blk s p b) p b' = put_blk s p b'.
Proof. unfold put_blk, ts_set_blk. cbn. by rewrite list_insert_insert_eq. Qed.

Lemma set_same_reqs s : with_cc_sh (with_sh_reqs (sh_reqs (cc_sh s)) (cc_sh s)) s = s.
Proof. by destruct s as [? ? []]. Qed.

(** * Hits *)

(** A cache whose blocks hold [2^k] bytes, and its block [p]. *)
Record holds (k : Z) (s : CState) (p : BlkPtr) (b : CacheBlk) : Prop := {
  h_k : 0 <= k;
  h_blkSize : cp_blkSize (cc_par s) = 2 ^ k;
  h_blk : ts_blks (cc_tags s) !! p = Some b;
  h_len : Z.of_nat (length (blk_data b)) = 2 ^ k
}.

Lemma offset_fits k base a n : 0 <= k -> 0 < n -> in_block k base a n ->
  cassert (Z.land a (2 ^ k - 1) + n <=? 2 ^ k) = Ok tt.
Proof.
  intros Hk Hn Hb. rewrite (offset_in_block k base a n) by done. destruct Hb as (_ & ? & ?).
  apply cassert_leb. lia.
Qed.

(** A plain store: the bytes go into the block, which becomes dirty and
    loses its locks. *)
Lemma satisfy_store k base s p b st a n d dr pd :
  holds k s p b -> cmd_is st SwapReq = false -> isWrite st = true -> isLLSC st = false ->
  carries st a n d -> in_block k base a n -> 0 < n ->
  exists d', memcpy (blk_data b) (a - base) d 0 n = Ok d' /\
    satisfyCpuSideRequest st (InTags p) dr pd s =
    Ok (st, put_blk s p (blk_or BlkDirty (with_blk_data d' (clearLoadLocks b)))).
Proof.
  intros [Hk Hbs Hb Hl] Hsw Hw Hll C B Hn.
  pose proof (writeDataToBlock_eq k base (blk_data b) st a n d Hk C B Hn) as HW.
  destruct C as [CA CS CD CL CP]. pose proof B as (_ & B1 & B2).
  destruct (memcpy_total (blk_data b) (a - base) d 0 n) as [d' Hd]; [lia..|].
  exists d'. split; [done|]. unfold satisfyCpuSideRequest.
  run_M. rewrite Hbs. erewrite mbind_eq by (apply lift_eq; unfold getOffset; by rewrite CA).
  cbn beta. erewrite mbind_eq by (by apply lift_eq). cbn beta.
  erewrite mbind_eq by (apply lift_eq; by eapply offset_fits). cbn beta. rewrite Hsw, Hw.
  erewrite mbind_eq by (by apply blk_get_tags). cbn beta. run_M.
  unfold checkWrite. rewrite Hll. run_M. run_M.
  rewrite set_same_reqs. run_M.
  erewrite mbind_eq; [reflexivity|]. cbn [when].
  erewrite mbind_eq by (apply lift_eq; cbn; by rewrite HW). cbn beta.
  change (blk_put (InTags p) ?x ?y) with (Ok (tt, put_blk y p x)). do 2 f_equal.
  apply (put_put_blk s p).
Qed.

(** A plain load of less than a block: the bytes of the block go to the
    packet, the cache does not change. *)
Lemma satisfy_load k base s p b ld a n d dr pd :
  holds k s p b -> cmd_is ld SwapReq = false -> isWrite ld = false -> isRead ld = true ->
  isLLSC ld = false -> carries ld a n d -> in_block k base a n -> 0 < n < 2 ^ k ->
  exists d', memcpy d 0 (blk_data b) (a - base) n = Ok d' /\
    satisfyCpuSideRequest ld (InTags p) dr pd s = Ok (with_pkt_data (Some d') ld, s).
Proof.
  intros [Hk Hbs Hb Hl] Hsw Hw Hr Hll C B Hn.
  pose proof (setDataFromBlock_eq k base (blk_data b) ld a n d Hk C B ltac:(lia)) as HW.
  destruct C as [CA CS CD CL CP]. pose proof B as (_ & B1 & B2).
  destruct (memcpy_total d 0 (blk_data b) (a - base) n) as [d' Hd]; [lia..|].
  exists d'. split; [done|]. unfold satisfyCpuSideRequest.
  run_M. rewrite Hbs. erewrite mbind_eq by (apply lift_eq; unfold getOffset; by rewrite CA).
  cbn beta. erewrite mbind_eq by (by apply lift_eq). cbn beta.
  erewrite mbind_eq by (apply lift_eq; eapply offset_fits; [done | lia | done]). cbn beta.
  rewrite Hsw, Hw, Hr. erewrite mbind_eq by (by apply blk_get_tags). cbn beta. run_M. rewrite Hll. run_M.
  change (blk_put (InTags p) b) with (fun y : CState => Ok (tt, put_blk y p b)).
  run_M. rewrite Hd in HW. erewrite mbind_eq by (apply lift_eq; exact HW). cbn beta.
  rewrite (proj2 (Z.eqb_neq n (2 ^ k))) by lia.
  unfold put_blk, ts_set_blk. rewrite list_insert_id by done. unfold ret. do 2 f_equal.
  by destruct s as [? ? ? []].
Qed.

(** * Hits through the tag store *)

(** The set of thread [t] for [addr], with [p] in front. *)
Definition mru_front (ts : TagStore) (addr t : Z) (p : BlkPtr) : Prop :=
  exists cs l, get_set ts (extractSet ts addr) t = Ok cs /\ cs_blks cs = p :: l.

(** A block in front that matches is found. *)
Lemma front_found ts addr t p b :
  ts_wf ts -> mru_front ts addr t p -> ts_blks ts !! p = Some b ->
  blk_matches (extractTag ts addr) b = true -> LRU_findBlock ts addr t = Ok (Some p).
Proof.
  intros Hwf (cs & l & Hg & Hl) Hb Hm. unfold LRU_findBlock.
  rewrite Hg, bind_Ok_l, findBlk_spec, Hl by (by eapply ts_wf_cs). cbn. by rewrite Hb, Hm.
Qed.

Lemma find_Some ts addr t p :
  ts_wf ts -> LRU_findBlock ts addr t = Ok (Some p) ->
  exists cs l1 l2 b, get_set ts (extractSet ts addr) t = Ok cs /\ cs_blks cs = l1 ++ p :: l2 /\
    find_tag (ts_blks ts) (extractTag ts addr) (cs_blks cs) = Some p /\
    ts_blks ts !! p = Some b /\ blk_matches (extractTag ts addr) b = true.
Proof.
  intros Hwf H. unfold LRU_findBlock in H. apply bind_Ok in H as (cs & Hg & H).
  rewrite findBlk_spec in H by (by eapply ts_wf_cs). injection H as Hf.
  pose proof (ways_allocated _ _ _ _ Hwf Hg) as Hall.
  destruct (find_tag_split _ _ _ _ Hall Hf) as (l1 & l2 & Hl & Hp & _).
  destruct (Hall p) as [b Hb]; [rewrite Hl; set_solver|].
  exists cs, l1, l2, b. split_and!; [done..|]. by eapply way_view_matches.
Qed.

(** A hit of [LRU::accessBlock] brings the block to the front and touches
    it. *)
Lemma LRU_access_hit ts addr m t now p b :
  ts_wf ts -> LRU_findBlock ts addr t = Ok (Some p) -> ts_blks ts !! p = Some b ->
  exists ts' lat, LRU_accessBlock ts addr m t now = Ok (ts', Some p, lat) /\
    ts_wf ts' /\ core_eq 1 ts ts' /\ mru_front ts' addr t p /\ ts_blks ts' !! p = Some (touch_blk b).
Proof.
  intros Hwf HF Hb. destruct (find_Some _ _ _ _ Hwf HF) as (cs & l1 & l2 & b' & Hg & Hl & Hf & Hb' & _).
  assert (exists ts' lat, LRU_accessBlock ts addr m t now = Ok (ts', Some p, lat) /\
            (exists cs', get_set ts' (extractSet ts addr) t = Ok cs' /\ cs_blks cs' = p :: l1 ++ l2) /\
            ts_blks ts' !! p = Some (touch_blk b)) as (ts' & lat & HA & (cs' & Hg' & Hl') & Hb1).
  { unfold LRU_accessBlock. rewrite Hg, bind_Ok_l, findBlk_spec, bind_Ok_l, Hf by (by eapply ts_wf_cs).
    destruct (moveToHead_total _ _ _ _ _ _ _ Hwf Hg Hl) as (ts1 & cs1 & -> & HB & HK & Hg1 & Hl1).
    rewrite bind_Ok_l, (ts_blk_eq _ _ b), bind_Ok_l by congruence.
    rewrite (upd_blk_eq _ _ _ b), bind_Ok_l by congruence. eexists _, _. split; [reflexivity|].
    split; [by exists cs1|]. cbn. rewrite HB. apply list_lookup_insert_eq. by eapply lookup_lt_Some. }
  pose proof (ls_LRU_access 0 _ _ _ _ _ _ _ _ Hwf HA) as L.
  assert (core_eq 1 ts ts') as HC by (apply (l_core _ _ _ _ L); by left).
  exists ts', lat. split_and!; [done | by eapply local_step_wf | done | | done].
  exists cs', (l1 ++ l2). by rewrite <- (core_extractSet _ _ _ _ HC).
Qed.

(** Changing a block of a set, its set number kept. *)
Lemma set_blk_wf ts addr t p b b' :
  ts_wf ts -> mru_front ts addr t p -> ts_blks ts !! p = Some b -> blk_set b' = blk_set b ->
  ts_wf (ts_set_blk ts p b').
Proof.
  intros Hwf (cs & l & Hg & Hl) Hb Hs. eapply local_step_wf; [|exact Hwf].
  eapply (ls_set_blk 0); [exact Hg | rewrite Hl; left | exact Hb | done].
Qed.

(** The classes whose lookups are [LRU]'s own. *)
Definition LRU_lookup (ts : TagStore) : bool :=
  match ts_class ts with IsC_DYNALRU _ | IsF_DYNALRU _ _ => false | _ => true end.

Lemma LRU_lookup_core ts ts' : core_eq 1 ts ts' -> LRU_lookup ts' = LRU_lookup ts.
Proof.
  intros [H _]. unfold LRU_lookup.
  destruct (ts_class ts), (ts_class ts'); cbn in H; try done; by destruct (_ : bool).
Qed.

(** A cacheable request of thread [t] that names no swap and no lock. *)
Record plain (s : CState) (t : Z) (pkt : Packet) (rq : Request) : Prop := {
  pl_req : sh_reqs (cc_sh s) !! pkt_req pkt = Some rq;
  pl_cacheable : isUncacheable rq = false;
  pl_master : masterId rq < cp_maxMasters (cc_par s);
  pl_tid : pkt_threadID pkt = t;
  pl_swap : cmd_is pkt SwapReq = false;
  pl_llsc : isLLSC pkt = false
}.

Lemma request_plain s t pkt rq : plain s t pkt rq -> request pkt s = Ok (rq, s).
Proof. intros H. unfold request, req_deref. by rewrite (pl_req _ _ _ _ H). Qed.

(** A hit is an access of the tag store, a count, and the request served
    from the block. *)
Lemma access_hit s t pkt rq a p b lat wbs :
  plain s t pkt rq -> getAddr pkt = Ok a -> LRU_lookup (cc_tags s) = true -> ts_wf (cc_tags s) ->
  LRU_findBlock (cc_tags s) a t = Ok (Some p) -> ts_blks (cc_tags s) !! p = Some b ->
  isReadable b = true -> (needsExclusive pkt = true -> isWritable b = true) ->
  exists ts' lat', ts_wf ts' /\ core_eq 1 (cc_tags s) ts' /\ mru_front ts' a t p /\
    ts_blks ts' !! p = Some (touch_blk b) /\
    Cache_access pkt lat wbs s =
    (pkt' ← satisfyCpuSideRequest pkt (InTags p) false false;
     ret (true, pkt', Some (InTags p), lat', wbs))
      (with_cc_stats (St_hits (cmdToIndex pkt) (masterId rq) :: cc_stats s) (with_cc_tags ts' s)).
Proof.
  intros Hp Ha HL Hwf HF Hb Hr Hw.
  assert (exists id, (if hasContextId rq then lift (contextId rq) else ret (-1)) s = Ok (id, s)) as [id Hid].
  { unfold contextId. destruct (hasContextId rq) eqn:E; [|eauto]. unfold hasContextId in E. rewrite E. eauto. }
  destruct (LRU_access_hit _ a id t (cc_now s) _ _ Hwf HF Hb) as (ts' & lat' & HA & W & C & F & B).
  assert (accessBlock (cc_tags s) a id t (cc_now s) = Ok (ts', Some p, lat')) as HA'.
  { unfold accessBlock. unfold LRU_lookup in HL. by destruct (ts_class (cc_tags s)). }
  exists ts', lat'. split_and!; [done..|]. unfold Cache_access, access_with.
  erewrite mbind_eq by (by eapply request_plain). cbn beta. run_M. rewrite (pl_cacheable _ _ _ _ Hp).
  erewrite mbind_eq by exact Hid. cbn beta. run_M. run_M. cbn [lo_access thread_ops].
  rewrite (pl_tid _ _ _ _ Hp).
  erewrite mbind_eq by (unfold tags; by rewrite HA'). cbn beta iota. run_M.
  set (s1 := with_cc_tags ts' s).
  erewrite (mbind_eq _ _ s1 true s1).
  - cbn iota. erewrite mbind_eq; [reflexivity|]. unfold incHitCount.
    erewrite mbind_eq by (eapply (request_plain s1); by destruct Hp). cbn beta. run_M.
    unfold massert. rewrite (mbind_eq _ _ s1 tt s1); [reflexivity|].
    apply lift_eq, cassert_true, Z.ltb_lt. apply (pl_master _ _ _ _ Hp).
  - erewrite mbind_eq by (by apply blk_get_tags). cbn beta. unfold ret. do 2 f_equal.
    assert (isReadable (touch_blk b) = isReadable b /\ isWritable (touch_blk b) = isWritable b) as [-> ->]
      by done.
    destruct (needsExclusive pkt); auto.
Qed.

(** The range of a packet lies in the block the address split assigns. *)
Lemma in_block_same ts base a1 n1 a2 n2 :
  geom_wf ts -> in_block (ts_setShift ts) base a1 n1 -> in_block (ts_setShift ts) base a2 n2 ->
  0 < n1 -> 0 < n2 -> extractTag ts a1 = extractTag ts a2 /\ extractSet ts a1 = extractSet ts a2.
Proof.
  intros G (B0 & B1 & B2) (_ & B3 & B4) N1 N2. pose proof (g_set_bits _ G).
  set (k := ts_setShift ts) in *. assert (0 < 2 ^ k) by (apply Z.pow_pos_nonneg; lia).
  assert (forall a, base <= a < base + 2 ^ k -> a / 2 ^ k = base / 2 ^ k) as Hd.
  { intros a Ha. pose proof (Z.div_mod base (2 ^ k) ltac:(lia)) as E. rewrite B0 in E.
    symmetry. apply (Z.div_unique_pos _ _ _ (a - base)); lia. }
  assert (a1 / 2 ^ k = a2 / 2 ^ k) as E by (transitivity (base / 2 ^ k); [|symmetry]; apply Hd; lia).
  unfold extractTag, extractSet. fold k. rewrite !Z.shiftr_div_pow2, E by lia. split; [|done].
  replace (ts_tagShift ts) with (k + (ts_tagShift ts - k)) by lia.
  rewrite Z.pow_add_r, <- !Z.div_div by lia. by rewrite E.
Qed.

(** C18. A store hit followed by a load hit, through the whole of
    [Cache::access]: on a block the tag store finds, writable and readable, both
    requests are satisfied from that block, and every byte the load returns is
    the byte the store wrote, when the store covered its address, and the byte
    the block held before, when it did not; the block is dirty afterwards. *)
Theorem access_store_load s t p b st ld rs rl base a1 n1 d1 a2 n2 d2 lat wbs :
  let k := ts_setShift (cc_tags s) in
  ts_wf (cc_tags s) -> LRU_lookup (cc_tags s) = true -> holds k s p b ->
  LRU_findBlock (cc_tags s) a1 t = Ok (Some p) -> isReadable b = true -> isWritable b = true ->
  plain s t st rs -> isWrite st = true -> carries st a1 n1 d1 -> in_block k base a1 n1 -> 0 < n1 ->
  plain s t ld rl -> isRead ld = true -> isWrite ld = false -> carries ld a2 n2 d2 ->
  in_block k base a2 n2 -> 0 < n2 < 2 ^ k ->
  exists s1 s2 lat1 lat2 ld' d b2,
    Cache_access st lat wbs s = Ok (true, st, Some (InTags p), lat1, wbs, s1) /\
    Cache_access ld lat wbs s1 = Ok (true, ld', Some (InTags p), lat2, wbs, s2) /\
    ts_blks (cc_tags s2) !! p = Some b2 /\ isDirty b2 = true /\ pkt_data ld' = Some d /\
    forall x, a2 <= x < a2 + n2 ->
      d !! Z.to_nat (x - a2) = if decide (a1 <= x < a1 + n1) then d1 !! Z.to_nat (x - a1)
                               else blk_data b !! Z.to_nat (x - base).
Proof.
  intros k Hwf HL Hh HF Hr Hw Ps Ws Cs Bs Ns Pl Rl Wl Cl Bl Nl.
  destruct (in_block_same _ _ _ _ _ _ (w_geom _ Hwf) Bs Bl Ns ltac:(lia)) as [ET ES].
  destruct (access_hit s t st rs a1 p b lat wbs) as (ts1 & lat1 & W1 & C1 & F1 & B1 & H1);
    [done | apply Cs | done | done | done | apply Hh | done.. |].
  set (s0 := with_cc_stats _ (with_cc_tags ts1 s)) in H1.
  assert (holds k s0 p (touch_blk b)) as Hh0 by (destruct Hh; by constructor).
  destruct (satisfy_store k base s0 p (touch_blk b) st a1 n1 d1 false false) as (dw & HD & HS);
    [done | apply Ps | done | apply Ps | done.. |].
  set (bw := blk_or BlkDirty _) in HS. set (s1 := put_blk s0 p bw) in HS.
  destruct (memcpy_lookup _ _ _ _ _ _ HD) as (LD & _ & _ & _ & _ & _ & VD).
  assert (ts_blks (cc_tags s1) !! p = Some bw) as Bw by (by eapply put_blk_lookup).
  assert (isReadable bw = true /\ isWritable bw = true) as [Rw Ww].
  { revert Hr Hw. autorewrite with cpp. change (blk_status bw) with (Z.lor (blk_status b) BlkDirty).
    rewrite !Z.lor_spec, !andb_true_iff. intros [-> ->] [-> _].
    done. }
  assert (LRU_findBlock (cc_tags s1) a2 t = Ok (Some p)) as HF2.
  { pose proof (core_extractTag _ _ _ a2 C1) as XT. pose proof (core_extractSet _ _ _ a2 C1) as XS.
    pose proof (core_extractSet _ _ _ a1 C1) as XS1.
    eapply front_found; [by eapply set_blk_wf | | exact Bw |].
    - destruct F1 as (cs & l & Hg & Hl). exists cs, l. split; [|done]. rewrite <- Hg.
      change (get_set ts1 (extractSet ts1 a2) t = get_set ts1 (extractSet ts1 a1) t). congruence.
    - destruct (find_Some _ _ _ _ Hwf HF) as (_ & _ & _ & b' & _ & _ & _ & Hb' & Hm).
      assert (b' = b) as -> by (rewrite (h_blk _ _ _ _ Hh) in Hb'; congruence).
      revert Hm. unfold blk_matches. rewrite !andb_true_iff. intros [Ht _]. split.
      + change (blk_tag b =? extractTag ts1 a2 = true). by rewrite <- XT, <- ET.
      + by apply readable_valid. }
  destruct (access_hit s1 t ld rl a2 p bw lat wbs) as (ts2 & lat2 & W2 & C2 & F2 & B2 & H2);
    [by destruct Pl | apply Cl | | by eapply set_blk_wf | done.. |].
  { rewrite <- HL. by apply (LRU_lookup_core (cc_tags s) ts1). }
  set (s1' := with_cc_stats _ (with_cc_tags ts2 s1)) in H2.
  destruct (satisfy_load k base s1' p (touch_blk bw) ld a2 n2 d2 false false) as (dr & HR & HS2);
    [| apply Pl | done | done | apply Pl | done.. |].
  { destruct Hh as [? ? ? Hlen]. constructor; [done | done | done |]. cbn. by rewrite LD. }
  destruct (memcpy_lookup _ _ _ _ _ _ HR) as (_ & _ & _ & _ & _ & _ & VR).
  exists s1, s1', lat1, lat2, (with_pkt_data (Some dr) ld), dr, (touch_blk bw). split_and!.
  - by rewrite H1, (mbind_eq _ _ _ _ _ HS).
  - by rewrite H2, (mbind_eq _ _ _ _ _ HS2).
  - done.
  - autorewrite with cpp. change (blk_status (touch_blk bw)) with (Z.lor (blk_status b) BlkDirty).
    by rewrite Z.lor_spec, orb_true_r.
  - done.
  - destruct Bs as (_ & ? & ?), Bl as (_ & ? & ?). intros x Hx. rewrite VR, decide_True by lia.
    cbn [blk_data touch_blk with_blk_isTouched with_blk_refCount bw blk_or with_blk_status with_blk_data].
    rewrite VD. destruct (decide (a1 <= x < a1 + n1)).
    + rewrite decide_True by lia. f_equal. lia.
    + rewrite decide_False by lia. cbn. f_equal. lia.
Qed.

(** A way-partitioned cache in which thread 1 filled the block at 0x40 with
    four bytes, and two requests in the heap. *)
Definition warm_tags : TagStore :=
  match tag_run way_store
          [OpFill 0x40 0 1 0 (fun b => with_blk_data [1; 2; 3; 4] (blk_or (Z.lor BlkValid (Z.lor BlkReadable BlkWritable)) b))] with
  | Ok (ts, _) => ts
  | Err _ => way_store
  end.
Definition warm_cache : CState :=
  Cache_new (cache_params KCache 2) warm_tags
    (mkShared {[ 1 := small_request 0x41 2; 2 := small_request 0x40 3 ]} 3 ∅ []) 0 2 2 0.
Definition warm_store : Packet :=
  pkt_set STATIC_DATA (with_pkt_data (Some [8; 9]) (Packet_fromReq (small_request 0x41 2) (Packet_blank 1 WriteReq 1 0))).
Definition warm_load : Packet :=
  pkt_set STATIC_DATA (with_pkt_data (Some [0; 0; 0]) (Packet_fromReq (small_request 0x40 3) (Packet_blank 2 ReadReq 1 0))).

Lemma warm_tags_wf : ts_wf warm_tags.
Proof.
  unfold warm_tags. destruct (tag_run way_store _) as [[ts tr]|] eqn:H; [|apply way_store_wf].
  eapply tag_run_inv; [| apply way_store_wf | exact H]. exact I.
Qed.

Lemma warm_carries : carries warm_store 0x41 2 [8; 9] /\ carries warm_load 0x40 3 [0; 0; 0].
Proof. split; constructor; vm_compute; try reflexivity; try congruence; split; congruence. Qed.

(** The load of 0x40..0x42 sees the stored bytes behind the old one. *)
Lemma access_store_load_witness :
  exists s1 s2 lat1 lat2 ld' d,
    Cache_access warm_store 2 [] warm_cache = Ok (true, warm_store, Some (InTags 9%nat), lat1, [], s1) /\
    Cache_access warm_load 2 [] s1 = Ok (true, ld', Some (InTags 9%nat), lat2, [], s2) /\
    pkt_data ld' = Some d /\ d !! 0%nat = Some 1 /\ d !! 1%nat = Some 8 /\ d !! 2%nat = Some 9.
Proof.
  destruct (access_store_load warm_cache 1 9 (match ts_blks warm_tags !! 9%nat with Some b => b | _ => CacheBlk_new end)
    warm_store warm_load (small_request 0x41 2) (small_request 0x40 3) 0x40 0x41 2 [8; 9] 0x40 3 [0; 0; 0] 2 [])
    as (s1 & s2 & lat1 & lat2 & ld' & d & b2 & H1 & H2 & _ & _ & H3 & H4).
  - exact warm_tags_wf.
  - vm_compute. reflexivity.
  - constructor; vm_compute; [discriminate | reflexivity..].
  - vm_compute. reflexivity.
  - vm_compute. reflexivity.
  - vm_compute. reflexivity.
  - constructor; vm_compute; reflexivity.
  - vm_compute. reflexivity.
  - exact (proj1 warm_carries).
  - vm_compute. split; [reflexivity | split; discriminate].
  - reflexivity.
  - constructor; vm_compute; reflexivity.
  - vm_compute. reflexivity.
  - vm_compute. reflexivity.
  - exact (proj2 warm_carries).
  - vm_compute. split; [reflexivity | split; discriminate].
  - vm_compute. split; reflexivity.
  - exists s1, s2, lat1, lat2, ld', d. do 3 (split; [assumption|]).
    split_and!; [apply (H4 0x40) | apply (H4 0x41) | apply (H4 0x42)]; lia.
Defined.

(** * Writebacks and evictions *)

Lemma memcpy_all dst src n :
  length dst = length src -> n = Z.of_nat (length src) -> memcpy dst 0 src 0 n = Ok src.
Proof.
  intros Hl ->. unfold memcpy. rewrite decide_True by lia. rewrite Z.add_0_l, Nat2Z.id.
  change (Z.to_nat 0) with 0%nat. rewrite drop_0, take_0, drop_ge, app_nil_r, take_ge by lia. done.
Qed.

(** The packet [writebackBlk] makes carries the block to its address. *)
Record writes_back (wb : Packet) (t addr : Z) (b : CacheBlk) : Prop := {
  wb_cmd : pkt_cmd wb = Writeback;
  wb_tid : pkt_threadID wb = t;
  wb_data : carries wb addr (Z.of_nat (length (blk_data b))) (blk_data b);
  wb_excl : isSupplyExclusive wb = isWritable b
}.

Lemma setPhys_blank a n m t : 0 <= n ->
  exists r, setPhys a n 0 m t blank_request = Ok r /\ hasPaddr r = true /\ hasSize r = true /\
            _paddr r = a /\ _size r = n.
Proof. intros Hn. unfold setPhys. rewrite cassert_leb by done. by eexists. Qed.

(** The packet of a writeback before the data are copied into it. *)
Lemma writeback_packet r rp t now (excl : bool) data :
  hasPaddr r = true -> hasSize r = true -> 0 <= _paddr r -> _size r = Z.of_nat (length data) ->
  let wb := Packet_fromReq r (Packet_blank rp Writeback t now) in
  exists wb', allocate (if excl then setSupplyExclusive wb else wb) = Ok wb' /\
    getPtr wb' = Ok (replicate (length data) 0) /\
    pkt_cmd wb' = Writeback /\ pkt_threadID wb' = t /\ isSupplyExclusive wb' = excl /\
    carries (with_pkt_data (Some data) wb') (_paddr r) (Z.of_nat (length data)) data.
Proof.
  intros Hp Hs Ha Hz wb. unfold wb, Packet_fromReq. rewrite Hp, Hs. generalize (_paddr r) Ha. intros a Ha'.
  rewrite Hz. remember (Z.of_nat (length data)) as n eqn:Hn.
  assert (Z.to_nat n = length data) as <- by lia.
  destruct excl; (eexists; split; [reflexivity|]);
    (split_and!; [reflexivity.. |]); constructor; first [reflexivity | lia].
Qed.

Lemma new_request_eq r s :
  new_request r s =
  Ok (sh_nextReq (cc_sh s),
      with_cc_sh (with_sh_reqs (<[sh_nextReq (cc_sh s) := r]> (sh_reqs (cc_sh s)))
                    (with_sh_nextReq (sh_nextReq (cc_sh s) + 1) (cc_sh s))) s).
Proof. done. Qed.

Lemma writebackBlk_spec k s p b t :
  holds k s p b -> isValid b = true -> isDirty b = true ->
  exists wb s', writebackBlk (InTags p) t s = Ok (wb, s') /\
    writes_back wb t (regenerateBlkAddr (cc_tags s) (blk_tag b) (blk_set b)) b /\
    cc_tags s' = ts_set_blk (cc_tags s) p (blk_clr BlkDirty b) /\
    cc_queues s' = cc_queues s /\ cc_par s' = cc_par s /\ cc_now s' = cc_now s /\
    sh_mshrs (cc_sh s') = sh_mshrs (cc_sh s).
Proof.
  intros [Hk Hbs Hb Hl] Hv Hd. unfold writebackBlk.
  erewrite mbind_eq by (by apply blk_get_tags). cbn beta. rewrite Hv, Hd. do 5 run_M.
  set (a := regenerateBlkAddr _ _ _). cbn [cc_par with_cc_stats]. rewrite Hbs.
  destruct (setPhys_blank a (2 ^ k) wbMasterId
              (cc_now (with_cc_stats (St_writebacks wbMasterId :: cc_stats s) s)))
    as (r & Hr & Hp & Hs & Hpa & Hsz); [apply Z.pow_nonneg; lia|].
  erewrite mbind_eq by (apply lift_eq; exact Hr). cbn beta.
  erewrite mbind_eq by apply new_request_eq. cbn beta. run_M.
  unfold Packet_new_tid, req_deref. cbn [sh_reqs cc_sh with_cc_sh with_sh_reqs]. rewrite lookup_insert_eq. run_M.
  match goal with |- context [Packet_fromReq r (Packet_blank ?rp Writeback t ?now)] =>
    destruct (writeback_packet r rp t now (isWritable b) (blk_data b))
      as (wb & Hal & Hpt & Hc & Ht & He & Hca) end; [done | done | | congruence |].
  { rewrite Hpa. apply Z.mod_pos_bound. lia. }
  erewrite mbind_eq by (apply lift_eq; exact Hal). cbn beta.
  erewrite mbind_eq by (apply lift_eq; exact Hpt). cbn beta.
  erewrite mbind_eq by (apply lift_eq; apply memcpy_all; [by rewrite length_replicate | done]). cbn beta.
  erewrite mbind_eq by reflexivity. cbn beta. eexists _, _. split; [reflexivity|].
  split; [|done]. constructor; [done | done | by rewrite <- Hpa | done].
Qed.

(** The miss register of a thread's queue for a block address. *)
Definition pending_at (tid addr : Z) : M (option MSHRPtr) :=
  qid ← getMSHRQueue tid; on_queue qid (fun mh q => findMatch mh q addr).

Lemma pending_at_reads tid addr : reads (pending_at tid addr).
Proof.
  unfold pending_at, getMSHRQueue, on_queue, queue, par. apply reads_bind.
  - apply reads_bind; [apply reads_gets|]. intros k. apply reads_bind; [apply reads_gets|]. intros n.
    repeat case_match; auto using reads_ret, reads_fail.
  - intros qid. apply reads_bind; [apply reads_state|]. intros q.
    apply reads_bind; [apply reads_gets|]. intros mh. apply reads_lift.
Qed.

(** The answer of an action that only reads determines the run. *)
Lemma reads_answer {A} (x : M A) s a :
  reads x -> match x s with Ok (b, _) => Some b | Err _ => None end = Some a -> x s = Ok (a, s).
Proof.
  intros Hx. destruct (x s) as [[b s']|] eqn:E; [|done]. intros [= ->]. by rewrite (Hx _ _ _ E).
Qed.

Lemma mbind_assoc {A B C} (m : M A) (f : A -> M B) (g : B -> M C) s :
  (m ≫= fun a => f a ≫= g) s = ((m ≫= f) ≫= g) s.
Proof. unfold mbind, M_bind. by destruct (m s) as [[? ?]|]. Qed.

(** C19. Evicting a block never drops modified data: a victim that no miss
    register refers to is given up, and if it is valid and dirty exactly one
    packet is added to the writebacks, which carries all of its bytes to the
    aligned address the block was filled for; the frame is then clean.  A victim
    with an upgrade outstanding is not given up and nothing changes. *)
Theorem eviction_keeps_data k s addr t p b x om wbs :
  ts_wf (cc_tags s) -> LRU_findVictim (cc_tags s) addr t = Ok p -> holds k s p b ->
  0 <= x < 2 ^ 64 -> blk_tag b = extractTag (cc_tags s) x -> blk_set b = extractSet (cc_tags s) x ->
  pending_at (blk_threadID b) (blkAlign (cc_tags s) x) s = Ok (om, s) ->
  match om with
  | None =>
      exists wbs' s', allocateBlock addr t wbs s = Ok (Some (InTags p), wbs', s') /\
        if isValid b && isDirty b then
          exists wb, wbs' = wbs ++ [wb] /\
            writes_back wb (blk_threadID b) (blkAlign (cc_tags s) x) b /\
            cc_tags s' = ts_set_blk (cc_tags s) p (blk_clr BlkDirty b)
        else wbs' = wbs /\ s' = s
  | Some m =>
      isValid b = true -> isWritable b = false ->
      (exists r, mshr m s = Ok (r, s) /\ mshr_needsExclusive r = true) ->
      allocateBlock addr t wbs s = Ok (None, wbs, s)
  end.
Proof.
  intros Hwf HV Hh Hx Ht Hs HP.
  destruct (regenerate_split _ x (w_geom _ Hwf) Hx) as [HR _].
  unfold allocateBlock. erewrite (mbind_eq _ _ s p s) by (unfold tags; by rewrite HV).
  erewrite (mbind_eq _ _ s b s) by (by apply blk_get_tags, Hh). cbn beta.
  destruct (isValid b) eqn:Hv; [|by destruct om; [|eexists _, s]].
  erewrite (mbind_eq (tags _)) by reflexivity. cbn beta. rewrite mbind_assoc, Ht, Hs, HR.
  fold (pending_at (blk_threadID b) (blkAlign (cc_tags s) x)).
  rewrite (mbind_eq _ _ _ _ _ HP). destruct om as [m|].
  - intros _ -> (r & Hm & Hn). rewrite (mbind_eq _ _ _ _ _ Hm), Hn. done.
  - destruct (isDirty b) eqn:Hd; [|by eexists _, s].
    destruct (writebackBlk_spec k s p b (blk_threadID b) Hh Hv Hd) as (wb & s' & HW & HC & HT & _).
    rewrite Ht, Hs, HR in HC. rewrite (mbind_eq _ _ _ _ _ HW). eexists _, s'.
    split; [reflexivity|]. by exists wb.
Qed.

(** The set of thread 1 with two dirty blocks: the older one, filled for
    0x42, is the victim of a fill for 0xc0. *)
Definition dirty_fill (d : list Z) (b : CacheBlk) : CacheBlk :=
  with_blk_data d (blk_or (Z.lor BlkValid (Z.lor BlkReadable BlkDirty)) b).
Definition dirty_tags : TagStore :=
  match tag_run way_store [OpFill 0x42 0 1 0 (dirty_fill [1; 2; 3; 4]);
                           OpFill 0x80 0 1 1 (dirty_fill [5; 6; 7; 8])] with
  | Ok (ts, _) => ts
  | Err _ => way_store
  end.
Definition dirty_cache : CState := new_cache KCache 2 dirty_tags.

Lemma dirty_tags_wf : ts_wf dirty_tags.
Proof.
  unfold dirty_tags. destruct (tag_run way_store _) as [[ts tr]|] eqn:H; [|apply way_store_wf].
  eapply tag_run_inv; [| apply way_store_wf | exact H]. exact I.
Qed.

Definition dirty_victim : CacheBlk :=
  match ts_blks (cc_tags dirty_cache) !! 9%nat with Some b => b | None => CacheBlk_new end.

Lemma dirty_cache_facts :
  ts_wf (cc_tags dirty_cache) /\ holds 2 dirty_cache 9 dirty_victim /\
  LRU_findVictim (cc_tags dirty_cache) 0xc0 1 = Ok 9%nat /\
  blk_tag dirty_victim = extractTag (cc_tags dirty_cache) 0x42 /\
  blk_set dirty_victim = extractSet (cc_tags dirty_cache) 0x42 /\
  pending_at (blk_threadID dirty_victim) (blkAlign (cc_tags dirty_cache) 0x42) dirty_cache
    = Ok (None, dirty_cache) /\
  blkAlign (cc_tags dirty_cache) 0x42 = 0x40 /\ blk_threadID dirty_victim = 1 /\
  isValid dirty_victim && isDirty dirty_victim = true /\ blk_data dirty_victim = [1; 2; 3; 4].
Proof.
  assert (cc_tags dirty_cache = dirty_tags) as E by (vm_compute; reflexivity).
  split; [rewrite E; apply dirty_tags_wf|].
  split; [constructor; [lia | vm_compute; reflexivity..]|].
  do 3 (split; [vm_compute; reflexivity|]). split; [|split_and!; vm_compute; reflexivity].
  apply reads_answer; [apply pending_at_reads | vm_compute; reflexivity].
Qed.

Lemma eviction_keeps_data_witness :
  exists wb s', blk_data dirty_victim = [1; 2; 3; 4] /\
    allocateBlock 0xc0 1 [] dirty_cache = Ok (Some (InTags 9%nat), [wb], s') /\
    writes_back wb 1 0x40 dirty_victim.
Proof.
  destruct dirty_cache_facts as (Hwf & Hh & HV & Ht & Hs & HP & HA & HT & Hd & HD).
  pose proof (eviction_keeps_data 2 dirty_cache 0xc0 1 9 dirty_victim 0x42 None [] Hwf HV Hh
                ltac:(lia) Ht Hs HP) as (wbs' & s' & HB & HW).
  rewrite Hd, HA, HT in HW. destruct HW as (wb & -> & HC & _).
  exists wb, s'. split; [exact HD|]. split; [exact HB | exact HC].
Defined.

(** * Answering the targets of a miss *)

(** An action that leaves register [m] alone. *)
Definition leaves {A} (m : MSHRPtr) (act : M A) : Prop :=
  forall s a s', act s = Ok (a, s') -> sh_mshrs (cc_sh s') !! m = sh_mshrs (cc_sh s) !! m.

Lemma leaves_bind {A B} m (x : M A) (f : A -> M B) :
  leaves m x -> (forall a, leaves m (f a)) -> leaves m (x ≫= f).
Proof. intros Hx Hf s b s' H. apply mbind_Ok in H as (a & s1 & H1 & H2). rewrite (Hf _ _ _ _ H2). by eapply Hx. Qed.

Lemma leaves_reads {A} m (x : M A) : reads x -> leaves m x.
Proof. intros H s a s' Hs. by rewrite (H _ _ _ Hs). Qed.

Lemma leaves_modify m f : (forall s, sh_mshrs (cc_sh (f s)) = sh_mshrs (cc_sh s)) -> leaves m (modify f).
Proof. intros H s a s' Hs. injection Hs as <- <-. by rewrite H. Qed.

Lemma leaves_when m b x : leaves m x -> leaves m (when b x).
Proof. intros H. destruct b; [done|]. by apply leaves_reads, reads_ret. Qed.

Create HintDb leaves.
#[export] Hint Resolve leaves_reads reads_lift reads_gets reads_ret reads_fail reads_state : leaves.
#[export] Hint Extern 1 (leaves _ (modify _)) => (apply leaves_modify; intros; reflexivity) : leaves.
#[export] Hint Extern 1 (reads (tags _)) => (apply reads_state) : leaves.
#[export] Hint Extern 1 (reads (request _)) => (apply reads_state) : leaves.
#[export] Hint Extern 1 (reads (mshr _)) => (apply reads_state) : leaves.
#[export] Hint Extern 1 (reads (massert _)) => (apply reads_lift) : leaves.
#[export] Hint Extern 1 (reads (par _)) => (apply reads_gets) : leaves.
#[export] Hint Extern 1 (reads curTick) => (apply reads_gets) : leaves.

(** [leave] follows the structure of a program, by cases where it
    branches. *)
Ltac leave :=
  repeat first
    [ solve [eauto 3 with leaves]
    | match goal with |- leaves _ (_ ≫= _) => apply leaves_bind; [|intros ?] end
    | match goal with |- leaves _ (when _ _) => apply leaves_when end
    | match goal with |- leaves _ (match ?x with _ => _ end) => destruct x end
    | match goal with |- leaves _ (let _ := _ in _) => cbv zeta end ].

Lemma leaves_blk_get m r : leaves m (blk_get r).
Proof. destruct r; cbn; leave. Qed.
Lemma leaves_blk_put m r b : leaves m (blk_put r b).
Proof. destruct r; cbn; [unfold upd_tags, set_tags|]; leave. Qed.
#[export] Hint Resolve leaves_blk_get leaves_blk_put : leaves.
Lemma leaves_blk_mod m r f : leaves m (blk_mod r f).
Proof. unfold blk_mod. leave. Qed.
Lemma leaves_invalidateBlk m r t : leaves m (invalidateBlk r t).
Proof. destruct r; cbn; [unfold upd_tags, set_tags|]; leave. Qed.
Lemma leaves_set_reqs m h : leaves m (set_reqs h).
Proof. apply leaves_modify. done. Qed.
Lemma leaves_stat m x : leaves m (stat x).
Proof. apply leaves_modify. done. Qed.
#[export] Hint Resolve leaves_blk_mod leaves_invalidateBlk leaves_set_reqs leaves_stat : leaves.
Lemma leaves_upd_request m p f : leaves m (upd_request p f).
Proof. unfold upd_request. leave. Qed.
Lemma leaves_delete_request m p : leaves m (delete_request p).
Proof. unfold delete_request. leave. Qed.
Lemma leaves_schedTimingResp m p t u : leaves m (schedTimingResp p t u).
Proof. unfold schedTimingResp. leave. Qed.
Lemma leaves_schedTimingSnoopResp m p t : leaves m (schedTimingSnoopResp p t).
Proof. unfold schedTimingSnoopResp. leave. Qed.
Lemma leaves_cmpAndSwap m r p : leaves m (cmpAndSwap r p).
Proof. unfold cmpAndSwap. leave. Qed.
Lemma leaves_satisfy_block_read m p r d g : leaves m (satisfy_block_read p r d g).
Proof. unfold satisfy_block_read. leave. Qed.
#[export] Hint Resolve leaves_upd_request leaves_delete_request leaves_schedTimingResp
  leaves_schedTimingSnoopResp leaves_cmpAndSwap leaves_satisfy_block_read : leaves.
Lemma leaves_satisfy m p r d g : leaves m (satisfyCpuSideRequest p r d g).
Proof. unfold satisfyCpuSideRequest. leave. Qed.
#[export] Hint Resolve leaves_satisfy : leaves.
Lemma leaves_satisfy_ptr m p r d g : leaves m (satisfy_ptr p r d g).
Proof. unfold satisfy_ptr. leave. Qed.
Lemma leaves_doTimingSupplyResponse m p d a i : leaves m (doTimingSupplyResponse p d a i).
Proof. unfold doTimingSupplyResponse. leave. Qed.
#[export] Hint Resolve leaves_satisfy_ptr leaves_doTimingSupplyResponse : leaves.

(** The caches above do not touch register [m] when they are snooped. *)
Definition snoops_leave (env : Env) (m : MSHRPtr) : Prop :=
  forall sh p sh' p', env_sendTimingSnoopReq env sh p = Ok (sh', p') -> sh_mshrs sh' !! m = sh_mshrs sh !! m.

Lemma leaves_snoop_call env m p : snoops_leave env m ->
  leaves m (call (OTimingSnoopReq p) (fun sh => env_sendTimingSnoopReq env sh p)).
Proof.
  intros He s a s' H. unfold call in H. step_M H. injection Hs as <- <-. step_M H. injection Hs as <- <-.
  step_M H. apply lift_Ok in Hs as [Hs ->]. destruct a0 as [sh a0]. injection H as <- <-.
  apply He in Hs. exact Hs.
Qed.

Lemma leaves_forward_snoop env m p : snoops_leave env m -> leaves m (forward_snoop env p true).
Proof.
  intros He. unfold forward_snoop. leave. all: by apply leaves_snoop_call.
Qed.

Lemma leaves_handleSnoop env m p r d i : snoops_leave env m -> leaves m (handleSnoop env p r true d i).
Proof.
  intros He. pose proof (fun p => leaves_forward_snoop env m p He) as Hf. unfold handleSnoop. leave.
Qed.

Lemma leaves_respond_cpu m p r f e o t : leaves m (respond_cpu p m r f e o t).
Proof. unfold respond_cpu. leave. Qed.

(** A round pops the front target and changes the register in no other
    way. *)
Lemma respond_target_pops env pkt m or f e off s u s' r :
  snoops_leave env m -> sh_mshrs (cc_sh s) !! m = Some r ->
  respond_target env pkt m or f e off s = Ok (u, s') ->
  exists r', sh_mshrs (cc_sh s') !! m = Some r' /\ popTarget r = Ok r'.
Proof.
  intros He Hr H. unfold respond_target in H. step_M H.
  unfold mshr, mshr_deref in Hs. rewrite Hr in Hs. injection Hs as <- <-.
  step_M H. apply lift_Ok in Hs as [Hg ->]. step_M H.
  assert (sh_mshrs (cc_sh s1) !! m = Some r) as H1.
  { rewrite <- Hr. revert Hs.
    match goal with |- ?x s = _ -> _ => assert (leaves m x) as HL; [|apply HL] end.
    destruct (tgt_source a); [apply leaves_respond_cpu | | ]; leave. by apply leaves_handleSnoop. }
  clear Hs. unfold upd_mshr in H. step_M H. unfold mshr, mshr_deref in Hs. rewrite H1 in Hs.
  injection Hs as <- <-. step_M H. apply lift_Ok in Hs as [Hp ->]. step_M H. injection Hs as <- <-.
  injection H as <- <-. exists a1. split; [|done]. cbn. by rewrite lookup_insert_eq.
Qed.

Lemma mshr_eq m s r : sh_mshrs (cc_sh s) !! m = Some r -> mshr m s = Ok (r, s).
Proof. intros H. unfold mshr, mshr_deref. by rewrite H. Qed.

Lemma popTarget_length r r' : popTarget r = Ok r' ->
  length (tl_list (mshr_targets r)) = S (length (tl_list (mshr_targets r'))).
Proof. unfold popTarget. destruct (tl_list (mshr_targets r)); [done|]. by intros [= <-]. Qed.

(** C21. The loop of [handleResponse] over the targets of a miss terminates:
    it makes at most as many rounds as the register has targets, whatever the
    rounds do (more fuel never changes its outcome), and when it ends no target
    is left. *)
Theorem respond_targets_terminates env pkt m or is_fill is_error off s r k :
  snoops_leave env m -> sh_mshrs (cc_sh s) !! m = Some r ->
  let n := length (tl_list (mshr_targets r)) in
  respond_targets env (n + k) pkt m or is_fill is_error off s =
  respond_targets env n pkt m or is_fill is_error off s /\
  forall u s', respond_targets env n pkt m or is_fill is_error off s = Ok (u, s') ->
    exists r', sh_mshrs (cc_sh s') !! m = Some r' /\ hasTargets r' = false.
Proof.
  intros He Hr n. remember n as j eqn:Hj. revert s r Hr n Hj.
  induction j as [|j IH]; intros s r Hr n Hj; subst n.
  - assert (hasTargets r = false) as Ht
      by (unfold hasTargets, tl_empty; by destruct (tl_list (mshr_targets r))).
    destruct k; cbn; rewrite !(mbind_eq _ _ _ _ _ (mshr_eq _ _ _ Hr)), Ht;
      (split; [done|]); intros u s' [= <- <-]; eauto.
  - cbn. rewrite !(mbind_eq _ _ _ _ _ (mshr_eq _ _ _ Hr)). destruct (hasTargets r) eqn:Ht.
    + destruct (respond_target env pkt m or is_fill is_error off s) as [[v s1]|e] eqn:H1.
      * rewrite !(mbind_eq _ _ _ _ _ H1).
        destruct (respond_target_pops _ _ _ _ _ _ _ _ _ _ _ He Hr H1) as (r1 & Hr1 & Hp).
        apply popTarget_length in Hp. apply (IH s1 r1 Hr1). lia.
      * unfold mbind, M_bind. rewrite H1. done.
    + split; [done|]. intros u s' [= <- <-]. eauto.
Qed.

(** A cache waiting for a store that missed: the loop answers the one
    target, however much fuel it gets. *)
Definition missed_cache : CState :=
  let s := cache_with_request KCache 1 way_store 64 4 in
  match allocateMissBuffer (small_packet 64 4 WriteReq 0) 5 true s with
  | Ok (_, s') => s'
  | Err _ => s
  end.

Lemma mute_env_leaves b m : snoops_leave (mute_env b) m.
Proof. intros sh p sh' p' H. by injection H as <- <-. Qed.

Definition missed_loop (fuel : nat) : result (unit * CState) :=
  respond_targets (mute_env true) fuel (small_packet 64 4 WriteResp 0) 0 None false false 0 missed_cache.

Lemma missed_facts :
  (exists r, sh_mshrs (cc_sh missed_cache) !! 0 = Some r /\ length (tl_list (mshr_targets r)) = 1%nat) /\
  is_ok (missed_loop 1) = true.
Proof.
  split; [|vm_compute; reflexivity].
  eexists. split; vm_compute; reflexivity.
Qed.

Lemma respond_targets_terminates_witness :
  exists u s', missed_loop 4 = Ok (u, s') /\
    exists r', sh_mshrs (cc_sh s') !! 0 = Some r' /\ hasTargets r' = false.
Proof.
  destruct missed_facts as [(r & Hr & Hn) Hok].
  destruct (respond_targets_terminates (mute_env true) (small_packet 64 4 WriteResp 0) 0 None false false 0
              missed_cache r 3 (mute_env_leaves true 0) Hr) as [H1 H2].
  rewrite Hn in H1, H2. fold (missed_loop (1 + 3)) (missed_loop 1) in H1. fold (missed_loop 1) in H2.
  change (1 + 3)%nat with 4%nat in H1. rewrite H1. apply is_ok_true in Hok as [[u s'] H].
  exists u, s'. split; [exact H|]. exact (H2 u s' H).
Defined.
