(* ===== verification/CacheFrame.v ===== *)
(** The actions of a cache that never touch its tag store or its
    parameters: everything that works on requests, registers, queues, ports and
    counters.  The logics of the later files take them as they are. *)

From S2P Require Import Prelude Request MemCmd Packet PacketSpec Blk CacheSet IntMath TagTypes LRU PartLRU DynaLRU Tags MSHR MSHRQueue PacketQueue CacheBase CacheAccess Cache CacheBus CacheSpec.

Definition tagless {A} (act : M A) : Prop :=
  forall s a s', act s = Ok (a, s') -> cc_tags s' = cc_tags s /\ cc_par s' = cc_par s.

Lemma tagless_bind {A B} (x : M A) (f : A -> M B) :
  tagless x -> (forall a, tagless (f a)) -> tagless (x ≫= f).
Proof.
  intros Hx Hf s b s' H. apply mbind_Ok in H as (a & s1 & H1 & H2). destruct (Hx _ _ _ H1) as [<- <-].
  by eapply Hf.
Qed.

Lemma tagless_reads {A} (x : M A) : reads x -> tagless x.
Proof. intros H s a s' Hs. by rewrite (H _ _ _ Hs). Qed.

Lemma tagless_modify f :
  (forall s, cc_tags (f s) = cc_tags s /\ cc_par (f s) = cc_par s) -> tagless (modify f).
Proof. intros H s a s' Hs. injection Hs as <- <-. apply H. Qed.

Lemma tagless_when b x : tagless x -> tagless (when b x).
Proof. intros H. destruct b; [done|]. by apply tagless_reads, reads_ret. Qed.

Create HintDb tagless.
#[export] Hint Resolve tagless_reads reads_lift reads_gets reads_ret reads_fail reads_state : tagless.
#[export] Hint Extern 1 (tagless (modify _)) => (apply tagless_modify; intros; split; reflexivity) : tagless.
#[export] Hint Extern 1 (reads (tags _)) => (apply reads_state) : tagless.
#[export] Hint Extern 1 (reads (request _)) => (apply reads_state) : tagless.
#[export] Hint Extern 1 (reads (mshr _)) => (apply reads_state) : tagless.
#[export] Hint Extern 1 (reads (queue _)) => (apply reads_state) : tagless.
#[export] Hint Extern 1 (reads (massert _)) => (apply reads_lift) : tagless.
#[export] Hint Extern 1 (reads (par _)) => (apply reads_gets) : tagless.
#[export] Hint Extern 1 (reads curTick) => (apply reads_gets) : tagless.

(** [frame] follows the structure of a program, by cases where it
    branches. *)
Ltac frame :=
  repeat first
    [ solve [eauto 3 with tagless]
    | match goal with |- tagless (_ ≫= _) => apply tagless_bind; [|intros ?] end
    | match goal with |- tagless (when _ _) => apply tagless_when end
    | match goal with |- tagless (match ?x with _ => _ end) => destruct x end
    | match goal with |- tagless (let _ := _ in _) => cbv zeta end ].

(** * The base cache *)

Lemma tagless_stat x : tagless (stat x).
Proof. by apply tagless_modify. Qed.
Lemma tagless_emit x : tagless (emit x).
Proof. by apply tagless_modify. Qed.
Lemma tagless_set_reqs h : tagless (set_reqs h).
Proof. by apply tagless_modify. Qed.
Lemma tagless_set_mshrs h : tagless (set_mshrs h).
Proof. by apply tagless_modify. Qed.
#[export] Hint Resolve tagless_stat tagless_emit tagless_set_reqs tagless_set_mshrs : tagless.
Lemma tagless_call {A} o (f : Shared -> result (Shared * A)) : tagless (call o f).
Proof. unfold call. frame. Qed.
Lemma tagless_upd_request p f : tagless (upd_request p f).
Proof. unfold upd_request. frame. Qed.
Lemma tagless_delete_request p : tagless (delete_request p).
Proof. unfold delete_request. frame. Qed.
Lemma tagless_new_request r : tagless (new_request r).
Proof. unfold new_request. frame. Qed.
Lemma tagless_upd_mshr m f : tagless (upd_mshr m f).
Proof. unfold upd_mshr. frame. Qed.
Lemma tagless_set_queue i q : tagless (set_queue i q).
Proof. unfold set_queue. frame. Qed.
Lemma tagless_on_queue {A} i (f : MSHRHeap -> MSHRQueue -> result A) : tagless (on_queue i f).
Proof. unfold on_queue. frame. Qed.
#[export] Hint Resolve tagless_call tagless_upd_request tagless_delete_request tagless_new_request tagless_upd_mshr
  tagless_set_queue tagless_on_queue : tagless.
Lemma tagless_queue_op i f : tagless (queue_op i f).
Proof. unfold queue_op. frame. Qed.
Lemma tagless_getMSHRQueue t : tagless (getMSHRQueue t).
Proof. unfold getMSHRQueue. frame. Qed.
Lemma tagless_getWriteBuffer t : tagless (getWriteBuffer t).
Proof. unfold getWriteBuffer. frame. Qed.
Lemma tagless_retry : tagless retry_if_owed.
Proof. unfold retry_if_owed. frame. Qed.
#[export] Hint Resolve tagless_queue_op tagless_getMSHRQueue tagless_getWriteBuffer tagless_retry : tagless.
Lemma tagless_setBlocked c t : tagless (setBlocked c t).
Proof.
  unfold setBlocked, SplitRPortCache_setBlocked, BaseCache_setBlocked, port_setBlocked, SRCpuSidePort_setBlocked,
    CacheSlavePort_setBlocked. frame.
Qed.
Lemma tagless_clearBlocked c t : tagless (clearBlocked c t).
Proof.
  unfold clearBlocked, SplitRPortCache_clearBlocked, BaseCache_clearBlocked, port_clearBlocked,
    SRCpuSidePort_clearBlocked, CacheSlavePort_clearBlocked. frame.
Qed.
Lemma tagless_requestMemSideBus c t u : tagless (requestMemSideBus c t u).
Proof. unfold requestMemSideBus. frame. Qed.
Lemma tagless_schedTimingResp p t u : tagless (schedTimingResp p t u).
Proof. unfold schedTimingResp. frame. Qed.
Lemma tagless_schedTimingSnoopResp p t : tagless (schedTimingSnoopResp p t).
Proof. unfold schedTimingSnoopResp. frame. Qed.
Lemma tagless_blockAlign a : tagless (blockAlign a).
Proof. unfold blockAlign. frame. Qed.
Lemma tagless_next_order : tagless next_order.
Proof. unfold next_order. frame. Qed.
#[export] Hint Resolve tagless_setBlocked tagless_clearBlocked tagless_requestMemSideBus tagless_schedTimingResp
  tagless_schedTimingSnoopResp tagless_blockAlign tagless_next_order : tagless.
Lemma tagless_allocateBufferInternal q a n p t b : tagless (allocateBufferInternal q a n p t b).
Proof. unfold allocateBufferInternal. frame. Qed.
#[export] Hint Resolve tagless_allocateBufferInternal : tagless.
Lemma tagless_allocateMissBuffer p t b : tagless (allocateMissBuffer p t b).
Proof. unfold allocateMissBuffer. frame. Qed.
Lemma tagless_allocateWriteBuffer p t b : tagless (allocateWriteBuffer p t b).
Proof. unfold allocateWriteBuffer. frame. Qed.
Lemma tagless_allocateUncachedReadBuffer p t b : tagless (allocateUncachedReadBuffer p t b).
Proof. unfold allocateUncachedReadBuffer. frame. Qed.
Lemma tagless_markInService m o : tagless (markInService m o).
Proof. unfold markInService. frame. Qed.
Lemma tagless_incHitCount p : tagless (incHitCount p).
Proof. unfold incHitCount. frame. Qed.
Lemma tagless_incMissCount p : tagless (incMissCount p).
Proof. unfold incMissCount, Dynamic_incMissCount, BaseCache_incMissCount. frame. Qed.
#[export] Hint Resolve tagless_allocateMissBuffer tagless_allocateWriteBuffer tagless_allocateUncachedReadBuffer
  tagless_markInService tagless_incHitCount tagless_incMissCount : tagless.

(** * Calls and ports *)

Lemma tagless_doTimingSupplyResponse p d a i : tagless (doTimingSupplyResponse p d a i).
Proof. unfold doTimingSupplyResponse. frame. Qed.
#[export] Hint Resolve tagless_doTimingSupplyResponse : tagless.
Lemma tagless_forward_snoop env p b : tagless (forward_snoop env p b).
Proof. unfold forward_snoop. frame. Qed.
Lemma tagless_notify env p t : tagless (notify_prefetcher env p t).
Proof. unfold notify_prefetcher. frame. Qed.
Lemma tagless_inhibited env p : tagless (inhibited_request env p).
Proof. unfold inhibited_request. frame. Qed.
Lemma tagless_sendAtomic env p : tagless (sendAtomic env p).
Proof. unfold sendAtomic. frame. Qed.
Lemma tagless_check_cpu_port p : tagless (check_cpu_port p).
Proof. unfold check_cpu_port. frame. Qed.
Lemma tagless_check_mem_port p : tagless (check_mem_port p).
Proof. unfold check_mem_port. frame. Qed.
Lemma tagless_check_queue q a p : tagless (check_queue q a p).
Proof. unfold check_queue. frame. Qed.
Lemma tagless_snoop_writeback p m : tagless (snoop_writeback p m).
Proof. unfold snoop_writeback. frame. Qed.
Lemma tagless_getNextMSHR env t : tagless (getNextMSHR env t).
Proof. unfold getNextMSHR, try_prefetch. frame. Qed.
Lemma tagless_prefetch_snoop env p m : tagless (prefetch_snoop env p m).
Proof. unfold prefetch_snoop. frame. Qed.
Lemma tagless_nextMSHRReadyTime env t : tagless (nextMSHRReadyTime env t).
Proof. unfold nextMSHRReadyTime. frame. Qed.
Lemma tagless_mem_pq w : tagless (mem_pq w).
Proof. unfold mem_pq. frame. Qed.
Lemma tagless_set_mem_pq w q : tagless (set_mem_pq w q).
Proof. unfold set_mem_pq. frame. Qed.
#[export] Hint Resolve tagless_forward_snoop tagless_notify tagless_inhibited tagless_sendAtomic
  tagless_check_cpu_port tagless_check_mem_port tagless_check_queue tagless_snoop_writeback
  tagless_getNextMSHR tagless_prefetch_snoop tagless_nextMSHRReadyTime tagless_mem_pq tagless_set_mem_pq : tagless.
Lemma tagless_mem_trySendTiming env w : tagless (mem_trySendTiming env w).
Proof. unfold mem_trySendTiming, sendTiming. frame. Qed.
Lemma tagless_mem_waiting w b : tagless (mem_waiting w b).
Proof. unfold mem_waiting. frame. Qed.
Lemma tagless_squash t : tagless (Cache_squash t).
Proof. unfold Cache_squash. frame. Qed.
Lemma tagless_drain e : tagless (BaseCache_drain e).
Proof. unfold BaseCache_drain. frame. Qed.
#[export] Hint Resolve tagless_mem_trySendTiming tagless_mem_waiting tagless_squash tagless_drain : tagless.
