(* ===== verification/DynamicFlow.v ===== *)
(** What decides the sizes of the partitions of a coarse-grained dynamic
    cache: the state the decision reads, the machine that drives it, and the
    proof that the whole cache, whatever it handles and whatever its
    neighbours do, moves that state only as the machine does, that is, on
    Low's demand accesses and on the adjustment event. *)

From S2P Require Import Prelude Request MemCmd Packet PacketSpec Blk CacheSet IntMath TagTypes LRU PartLRU DynaLRU Tags TagsWf TagsNew Isolation TagsSpec Resize MSHR MSHRQueue PacketQueue CacheBase CacheAccess Cache CacheBus DynamicCache CacheSpec AccessSpec DynamicSpec CacheFrame.

(** * The state that decides *)

(** The parameters of the cache, and of its tag store the class, which holds
    the sizes of the partitions and the utility monitor, and the geometry. *)
Record Decider := mkDecider {
  dz_par : CacheParams;
  dz_class : TagClass;
  dz_numSets : Z;
  dz_assoc : Z;
  dz_setShift : Z;
  dz_setMask : Z;
  dz_tagShift : Z
}.
Definition tag_decider (p : CacheParams) (ts : TagStore) : Decider :=
  mkDecider p (ts_class ts) (ts_numSets ts) (ts_assoc ts) (ts_setShift ts) (ts_setMask ts) (ts_tagShift ts).
Definition decider (s : CState) : Decider := tag_decider (cc_par s) (cc_tags s).
Definition with_dz_ext (e : C_Ext) (d : Decider) : Decider :=
  mkDecider (dz_par d) (IsC_DYNALRU e) (dz_numSets d) (dz_assoc d) (dz_setShift d) (dz_setMask d)
    (dz_tagShift d).

(** * The machine *)

(** A demand access of Low at an address: the utility monitor counts it. *)
Definition mon_demand (d : Decider) (addr : Z) : result Decider :=
  match dz_class d with
  | IsC_DYNALRU e =>
      e ← umon_access e (dz_assoc d) (Z.land (Z.shiftr addr (dz_setShift d)) (dz_setMask d))
            (Z.shiftr addr (dz_tagShift d));
      Ok (with_dz_ext e d)
  | _ => Ok d
  end.

(** The benefit of one more way for Low, and of one way less, from the
    counters of Low's monitor and the static curve of High's misses. *)
Definition mon_gain (assoc L : Z) (counters curve : list Z) : result Z :=
  if L =? assoc then Ok 0
  else u ← arr_get counters (L + 1);
       a ← arr_get curve (u32 (assoc - L)); b ← arr_get curve (u32 (u32 (assoc - L) - 1));
       Ok (i32 (u + (a - b))).
Definition mon_loss (assoc L : Z) (counters curve : list Z) : result Z :=
  if L =? 0 then Ok 0
  else u ← arr_get counters L;
       a ← arr_get curve (u32 (assoc - L)); b ← arr_get curve (u32 (u32 (assoc - L) + 1));
       Ok (i32 (0 - u + (a - b))).

(** The sizes after the decision: one way moves to the side that benefits
    more, unless the other is at its minimum. *)
Definition mon_sizes (gain loss : Z) (e : C_Ext) : C_Ext :=
  let L := c_L_assoc e in let H := c_H_assoc e in
  if (0 <? gain) && (loss <=? gain) then
    if H =? c_H_min e then e else with_c_L_assoc (u32 (L + 1)) (with_c_H_assoc (u32 (H - 1)) e)
  else if (0 <? loss) && (gain <=? loss) then
    if L =? 1 then e else with_c_L_assoc (u32 (L - 1)) (with_c_H_assoc (u32 (H + 1)) e)
  else e.

Definition mon_reset (n : Z) (e : C_Ext) : C_Ext :=
  with_c_umon_counters (replicate (Z.to_nat n) 0 ++ drop (Z.to_nat n) (c_umon_counters e)) e.

Definition mon_adjust (d : Decider) : result Decider :=
  match dz_class d with
  | IsC_DYNALRU e =>
      let p := dz_par d in
      gain ← mon_gain (cp_assoc p) (c_L_assoc e) (c_umon_counters e) (cp_curve p);
      loss ← mon_loss (cp_assoc p) (c_L_assoc e) (c_umon_counters e) (cp_curve p);
      Ok (with_dz_ext (mon_reset (dz_assoc d) (mon_sizes gain loss e)) d)
  | _ => Ok d
  end.

(** What drives it. *)
Inductive MonEvent := Demand (addr : Z) | Adjust.

Definition mon_step (d : Decider) (ev : MonEvent) : result Decider :=
  match ev with Demand a => mon_demand d a | Adjust => mon_adjust d end.
Definition mon_run (d : Decider) (evs : list MonEvent) : result Decider := foldM mon_step d evs.

(** * Actions that leave the state alone *)

(** An action that leaves that state alone. *)
Definition keeps {A} (act : M A) : Prop :=
  forall s a s', act s = Ok (a, s') -> decider s' = decider s.

Lemma keeps_bind {A B} (x : M A) (f : A -> M B) : keeps x -> (forall a, keeps (f a)) -> keeps (x ≫= f).
Proof. intros Hx Hf s b s' H. apply mbind_Ok in H as (a & s1 & H1 & H2). rewrite (Hf _ _ _ _ H2). by eapply Hx. Qed.

Lemma keeps_reads {A} (x : M A) : reads x -> keeps x.
Proof. intros H s a s' Hs. by rewrite (H _ _ _ Hs). Qed.

Lemma keeps_tagless {A} (x : M A) : tagless x -> keeps x.
Proof.
  intros H s a s' Hs. destruct (H _ _ _ Hs) as [Ht Hp]. unfold decider. by rewrite Ht, Hp.
Qed.

Lemma keeps_modify f : (forall s, decider (f s) = decider s) -> keeps (modify f).
Proof. intros H s a s' Hs. injection Hs as <- <-. apply H. Qed.

Lemma keeps_when b x : keeps x -> keeps (when b x).
Proof. intros H. destruct b; [done|]. by apply keeps_reads, reads_ret. Qed.

Lemma keeps_forM {A} (l : list A) f : (forall a, keeps (f a)) -> keeps (forM l f).
Proof. intros H. induction l as [|a l IH]; cbn; [apply keeps_reads, reads_ret|]. by apply keeps_bind. Qed.

(** An operation of the tag store that leaves it alone. *)
Definition tkeeps (f : TagStore -> result TagStore) : Prop :=
  forall p ts ts', f ts = Ok ts' -> tag_decider p ts' = tag_decider p ts.

Lemma keeps_upd_tags f : tkeeps f -> keeps (upd_tags f).
Proof.
  intros Hf s a s' H. unfold upd_tags in H. step_M H. unfold tags in Hs.
  apply lift_Ok in Hs as [Hs ->]. injection H as <- <-. by apply Hf.
Qed.

Create HintDb keeps.
#[export] Hint Resolve keeps_tagless keeps_upd_tags : keeps.

(** [keep] follows the structure of a program, by cases where it
    branches. *)
Ltac keep :=
  repeat first
    [ solve [eauto 4 with keeps tagless]
    | match goal with |- keeps (_ ≫= _) => apply keeps_bind; [|intros ?] end
    | match goal with |- keeps (when _ _) => apply keeps_when end
    | match goal with |- keeps (forM _ _) => apply keeps_forM; intros ? end
    | match goal with |- keeps (match ?x with _ => _ end) => destruct x end
    | match goal with |- keeps (let _ := _ in _) => cbv zeta end ].

(** The rest of a run that leaves the state alone. *)
Ltac by_keep H :=
  revert H;
  match goal with
  | |- ?x _ = Ok _ -> _ => let K := fresh in assert (keeps x) as K; [solve [keep] | apply K]
  end.

(** * The tag store *)

Lemma tkeeps_blk p b : tkeeps (fun ts => Ok (ts_set_blk ts p b)).
Proof. intros q ts ts' H. by injection H as <-. Qed.

Lemma upd_blk_keeps p f : tkeeps (fun ts => ts_upd_blk ts p f).
Proof. intros q ts ts' H. unfold ts_upd_blk in H. by inv_ok. Qed.

Lemma occ_add_keeps m d : tkeeps (fun ts => occ_add ts m d).
Proof. intros q ts ts' H. unfold occ_add in H. by inv_ok. Qed.

Lemma put_set_keeps s t cs : tkeeps (fun ts => put_set ts s t cs).
Proof. intros q ts ts' H. unfold put_set in H. by inv_ok. Qed.

Lemma moveToHead_keeps s t p : tkeeps (fun ts => ts_moveToHead ts s t p).
Proof. intros q ts ts' H. unfold ts_moveToHead in H. inv_ok. by eapply put_set_keeps. Qed.

Lemma moveToTail_keeps s t p : tkeeps (fun ts => ts_moveToTail ts s t p).
Proof. intros q ts ts' H. unfold ts_moveToTail in H. inv_ok. by eapply put_set_keeps. Qed.

Lemma insert_touch_keeps q ts p b t : tag_decider q (insert_touch ts p b t) = tag_decider q ts.
Proof. unfold insert_touch. cbv zeta. by repeat case_match. Qed.

Lemma insert_evict_keeps p : tkeeps (fun ts => insert_evict ts p).
Proof.
  intros q ts ts' H. unfold insert_evict in H. inv_ok. destruct (isValid x); [|by inv_ok].
  cbv zeta in H. apply (occ_add_keeps _ _ q) in H. by rewrite H.
Qed.

Lemma insertBlock_keeps a p m t now : tkeeps (fun ts => LRU_insertBlock ts a p m t now).
Proof.
  intros q ts ts' H. unfold LRU_insertBlock in H. inv_ok.
  apply (moveToHead_keeps _ _ _ q) in H. apply (upd_blk_keeps _ _ q) in Hx3. apply (occ_add_keeps _ _ q) in Hx2.
  apply (upd_blk_keeps _ _ q) in Hx1. apply (insert_evict_keeps _ q) in Hx0.
  rewrite H, Hx3, Hx2, Hx1, Hx0. apply insert_touch_keeps.
Qed.

Lemma invalidateBlk_keeps o t : tkeeps (fun ts => LRU_invalidateBlk ts o t).
Proof.
  intros q ts ts' H. unfold LRU_invalidateBlk in H. destruct o as [p|]; inv_ok; [|done].
  apply (upd_blk_keeps _ _ q) in H. rewrite H. destruct (isValid x); inv_ok; [|done].
  apply (moveToTail_keeps _ _ _ q) in Hx0. apply (upd_blk_keeps _ _ q) in Hx2. apply (occ_add_keeps _ _ q) in Hx1.
  by rewrite Hx0, Hx2, Hx1.
Qed.

Lemma clearLocks_keeps : tkeeps clearLocks.
Proof. intros q ts ts' H. unfold clearLocks, LRU_clearLocks in H. by inv_ok. Qed.

Lemma accessBlock_keeps q ts a m t now ts' o lat :
  LRU_accessBlock ts a m t now = Ok (ts', o, lat) -> tag_decider q ts' = tag_decider q ts.
Proof.
  unfold LRU_accessBlock. cbv zeta. intros H. inv_ok. destruct x0 as [p|]; inv_ok; [|done].
  apply (moveToHead_keeps _ _ _ q) in Hx1. apply (upd_blk_keeps _ _ q) in Hx3. congruence.
Qed.
#[export] Hint Resolve tkeeps_blk insertBlock_keeps invalidateBlk_keeps clearLocks_keeps : keeps.

(** * The cache *)

Lemma keeps_blk_get r : keeps (blk_get r).
Proof. destruct r; cbn; keep. Qed.
Lemma keeps_blk_put r b : keeps (blk_put r b).
Proof. destruct r; cbn; keep. Qed.
#[export] Hint Resolve keeps_blk_get keeps_blk_put : keeps.
Lemma keeps_blk_mod r f : keeps (blk_mod r f).
Proof. unfold blk_mod. keep. Qed.
Lemma keeps_invalidateBlk r t : keeps (invalidateBlk r t).
Proof. destruct r; cbn [invalidateBlk]; keep. Qed.
#[export] Hint Resolve keeps_blk_mod keeps_invalidateBlk : keeps.

Lemma keeps_cmpAndSwap r p : keeps (cmpAndSwap r p).
Proof. unfold cmpAndSwap. keep. Qed.
Lemma keeps_satisfy_block_read p r d g : keeps (satisfy_block_read p r d g).
Proof. unfold satisfy_block_read. keep. Qed.
#[export] Hint Resolve keeps_cmpAndSwap keeps_satisfy_block_read : keeps.
Lemma keeps_satisfy p r d g : keeps (satisfyCpuSideRequest p r d g).
Proof. unfold satisfyCpuSideRequest. keep. Qed.
#[export] Hint Resolve keeps_satisfy : keeps.
Lemma keeps_satisfy_ptr p r d g : keeps (satisfy_ptr p r d g).
Proof. unfold satisfy_ptr. keep. Qed.
Lemma keeps_writebackBlk r t : keeps (writebackBlk r t).
Proof. unfold writebackBlk. keep. Qed.
#[export] Hint Resolve keeps_satisfy_ptr keeps_writebackBlk : keeps.
Lemma keeps_allocateBlock a t w : keeps (allocateBlock a t w).
Proof. unfold allocateBlock. keep. Qed.
#[export] Hint Resolve keeps_allocateBlock : keeps.
Lemma keeps_handleFill p o w : keeps (handleFill p o w).
Proof.
  unfold handleFill, Cache_handleFill, DirtyCache_handleFill, fill_frame, fill_existing. keep.
Qed.
Lemma keeps_uncacheable ops p : keeps (uncacheable_tags ops p).
Proof. unfold uncacheable_tags. keep. Qed.
Lemma keeps_access_writeback ops p o w : keeps (access_writeback ops p o w).
Proof. unfold access_writeback. keep. Qed.
Lemma keeps_getBusPacket p o b : keeps (getBusPacket p o b).
Proof. unfold getBusPacket. keep. Qed.
#[export] Hint Resolve keeps_handleFill keeps_uncacheable keeps_access_writeback keeps_getBusPacket : keeps.

Lemma get_evictBlk_keeps q ts t i ts' o : get_evictBlk ts t i = Ok (ts', o) -> tag_decider q ts' = tag_decider q ts.
Proof.
  unfold get_evictBlk, F_DYNALRU_get_evictBlk. intros H. by destruct (ts_class ts); inv_ok.
Qed.
Lemma keeps_get_evict t i : keeps (get_evict t i).
Proof.
  intros s a s' H. unfold get_evict in H. step_M H. apply lift_Ok in Hs as [Hs ->]. destruct a0 as [ts op].
  step_M H. injection Hs0 as <- <-. injection H as <- <-. by eapply get_evictBlk_keeps.
Qed.
Lemma keeps_flush_blk p t : keeps (flush_blk p t).
Proof. unfold flush_blk. keep. Qed.
Lemma keeps_reschedule : keeps reschedule_adjust.
Proof. unfold reschedule_adjust. keep. Qed.
#[export] Hint Resolve keeps_get_evict keeps_flush_blk keeps_reschedule : keeps.
Lemma keeps_scrub_way i : keeps (scrub_way i).
Proof. unfold scrub_way. keep. Qed.
#[export] Hint Resolve keeps_scrub_way : keeps.

Section Handlers.

Variable env : Env.

Lemma keeps_handleSnoop p r t d i : keeps (handleSnoop env p r t d i).
Proof. unfold handleSnoop. keep. Qed.
Lemma keeps_respond_cpu p m r f e o t : keeps (respond_cpu p m r f e o t).
Proof. unfold respond_cpu. keep. Qed.
#[local] Hint Resolve keeps_handleSnoop keeps_respond_cpu : keeps.
Lemma keeps_respond_target p m r f e o : keeps (respond_target env p m r f e o).
Proof. unfold respond_target. keep. Qed.
#[local] Hint Resolve keeps_respond_target : keeps.
Lemma keeps_respond_targets n p m r f e o : keeps (respond_targets env n p m r f e o).
Proof. induction n; cbn [respond_targets]; keep. Qed.
Lemma keeps_apply_pending ops p m r : keeps (apply_pending ops p m r).
Proof. unfold apply_pending. keep. Qed.
Lemma keeps_finish_mshr p m r b : keeps (finish_mshr p m r b).
Proof. unfold finish_mshr. keep. Qed.
#[local] Hint Resolve keeps_respond_targets keeps_apply_pending keeps_finish_mshr : keeps.
Lemma keeps_handleResponse p : keeps (handleResponse env p).
Proof. unfold handleResponse, Cache_handleResponse, DirtyCache_handleResponse, handleResponse_with. keep. Qed.
#[local] Hint Resolve keeps_handleResponse : keeps.
Lemma keeps_timing_miss p r t : keeps (timing_miss env p r t).
Proof. unfold timing_miss. keep. Qed.
Lemma keeps_timing_hit p r l t b : keeps (timing_hit env p r l t b).
Proof. unfold timing_hit. keep. Qed.
#[local] Hint Resolve keeps_timing_miss keeps_timing_hit : keeps.
Lemma keeps_atomic_miss p r l w : keeps (atomic_miss env p r l w).
Proof. unfold atomic_miss. keep. Qed.
Lemma keeps_functionalAccess p b : keeps (functionalAccess env p b).
Proof. unfold functionalAccess, or_else, check_cpu_port, check_mem_port, check_queue. keep. Qed.
Lemma keeps_snoopTiming p : keeps (snoopTiming env p).
Proof. unfold snoopTiming, snoop_writeback. keep. Qed.
Lemma keeps_snoopAtomic p : keeps (snoopAtomic env p).
Proof. unfold snoopAtomic. keep. Qed.
#[local] Hint Resolve keeps_atomic_miss : keeps.
Lemma keeps_getTimingPacket t : keeps (getTimingPacket env t).
Proof. unfold getTimingPacket, prefetch_snoop. keep. Qed.
#[local] Hint Resolve keeps_getTimingPacket : keeps.
Lemma keeps_sendDeferredPacket w : keeps (MemSidePacketQueue_sendDeferredPacket env w).
Proof. unfold MemSidePacketQueue_sendDeferredPacket, mem_trySendTiming, sendTiming, mem_waiting. keep. Qed.
#[local] Hint Resolve keeps_functionalAccess keeps_snoopTiming keeps_snoopAtomic keeps_sendDeferredPacket
  : keeps.

(** * Low's demand accesses *)

(** A coarse-grained dynamic cache. *)
Definition is_dynamic (d : Decider) : Prop :=
  cp_kind (dz_par d) = KC_Dynamic /\ exists e, dz_class d = IsC_DYNALRU e.

(** The address of a demand access of Low: a request of thread 0 that is
    not uncacheable. *)
Definition low_demand (s : CState) (pkt : Packet) : option Z :=
  if pkt_threadID pkt =? 0 then
    match sh_reqs (cc_sh s) !! pkt_req pkt, getAddr pkt with
    | Some rq, Ok a => if isUncacheable rq then None else Some a
    | _, _ => None
    end
  else None.

Definition events (o : option Z) : list MonEvent := match o with Some a => [Demand a] | None => [] end.

Lemma mon_run_nil d : mon_run d [] = Ok d.
Proof. done. Qed.
Lemma mon_run_one d ev : mon_run d [ev] = mon_step d ev.
Proof. unfold mon_run. cbn. by destruct (mon_step d ev). Qed.

(** The access of the tag store drives the machine exactly when Low
    accesses it. *)
Lemma accessBlock_drives q ts e a m t now ts' o lat :
  ts_class ts = IsC_DYNALRU e -> accessBlock ts a m t now = Ok (ts', o, lat) ->
  (if t =? 0 then mon_demand (tag_decider q ts) a else Ok (tag_decider q ts)) = Ok (tag_decider q ts').
Proof.
  intros Hk H. unfold accessBlock in H. rewrite Hk in H. unfold C_DYNALRU_accessBlock in H. cbv zeta in H. inv_ok.
  pose proof (accessBlock_keeps q _ _ _ _ _ _ _ _ Hx) as K. destruct (t =? 0); inv_ok; [|by rewrite K].
  assert (x = e) as ->.
  { apply (f_equal dz_class) in K. cbn in K. unfold get_ext in Hx0. rewrite K, Hk in Hx0. by injection Hx0. }
  apply (f_equal (with_dz_ext x0)) in K. unfold with_dz_ext, tag_decider in K. cbn in K.
  unfold mon_demand. cbn. rewrite Hk. unfold extractSet, extractTag in Hx1. injection K as E1 E2 E3 E4 E5.
  rewrite E2 in Hx1. rewrite Hx1, bind_Ok_l. unfold with_dz_ext, tag_decider. cbn. by rewrite E1, E2, E3, E4, E5.
Qed.

Lemma access_drives pkt lat wbs s r s' :
  is_dynamic (decider s) -> access pkt lat wbs s = Ok (r, s') ->
  mon_run (decider s) (events (low_demand s pkt)) = Ok (decider s').
Proof.
  intros [Hk [e He]] H. unfold access in H. step_M H. injection Hs as <- <-. cbn in Hk. rewrite Hk in H.
  unfold Cache_access, access_with in H. step_M H. unfold request in Hs. apply lift_Ok in Hs as [Hs ->].
  unfold req_deref in Hs. apply of_option_Ok in Hs. unfold low_demand. rewrite Hs. step_M H. injection Hs0 as <- <-.
  destruct (isUncacheable a).
  { assert (decider s' = decider s) as ->; [|by repeat case_match].
    by_keep H. }
  step_M H. assert (s1 = s) as ->.
  { destruct (hasContextId a); [apply lift_Ok in Hs0 as [_ ->]; done | by injection Hs0]. }
  step_M H. apply lift_Ok in Hs1 as [Hs1 ->]. step_M H. injection Hs2 as <- <-. step_M H.
  unfold tags in Hs2. apply lift_Ok in Hs2 as [Hs2 ->]. destruct a2 as [[ts ob] lat'].
  step_M H. injection Hs3 as <- <-. rewrite Hs1.
  pose proof (accessBlock_drives (cc_par s) _ e _ _ _ _ _ _ _ He Hs2) as D. fold (decider s) in D.
  assert (decider s' = decider (with_cc_tags ts s)) as ->.
  { by_keep H. }
  change (decider (with_cc_tags ts s)) with (tag_decider (cc_par s) ts).
  destruct (pkt_threadID pkt =? 0); cbn [events]; [|exact D]. by rewrite mon_run_one.
Qed.

(** A timing request that the cache serves itself. *)
Definition timing_demand (s : CState) (pkt : Packet) : option Z :=
  if isResponse pkt || memInhibitAsserted pkt then None else low_demand s pkt.

Lemma timingAccess_drives pkt s r s' :
  is_dynamic (decider s) -> timingAccess env pkt s = Ok (r, s') ->
  mon_run (decider s) (events (timing_demand s pkt)) = Ok (decider s').
Proof.
  intros Hd H. pose proof Hd as [Hk _]. unfold timingAccess in H. step_M H. injection Hs as <- <-. cbn in Hk.
  rewrite Hk in H. unfold Cache_timingAccess, timingAccess_with in H. step_M H. injection Hs as <- <-.
  step_M H. injection Hs as <- <-. step_M H. injection Hs as <- <-. unfold timing_demand.
  change (low_demand s pkt) with (low_demand (with_cc_pendingDelete [] s) pkt).
  change (decider s) with (decider (with_cc_pendingDelete [] s)) in Hd |- *.
  set (s0 := with_cc_pendingDelete [] s) in *. clearbody s0. cbv zeta in H.
  destruct (isResponse pkt); cbn [orb events].
  { rewrite mon_run_nil. f_equal. symmetry. by_keep H. }
  step_M H. apply lift_Ok in Hs as [_ ->]. destruct (memInhibitAsserted pkt); cbn [events].
  { rewrite mon_run_nil. f_equal. symmetry. by_keep H. }
  step_M H. unfold request in Hs. apply lift_Ok in Hs as [Hs ->]. unfold req_deref in Hs. apply of_option_Ok in Hs.
  destruct (isUncacheable a0) eqn:Hu.
  { assert (low_demand s0 pkt = None) as ->
      by (unfold low_demand; rewrite Hs, Hu; by repeat case_match).
    cbn [events]. rewrite mon_run_nil. f_equal. symmetry. by_keep H. }
  step_M H. rewrite (access_drives _ _ _ _ _ _ Hd Hs0). destruct a1 as [[[[sat pk] o] lat] wbs]. f_equal. symmetry.
  by_keep H.
Qed.

Lemma atomicAccess_drives pkt s r s' :
  is_dynamic (decider s) -> atomicAccess env pkt s = Ok (r, s') ->
  mon_run (decider s) (events (if memInhibitAsserted pkt then None else low_demand s pkt)) = Ok (decider s').
Proof.
  intros Hd H. unfold atomicAccess in H. step_M H. injection Hs as <- <-. destruct (memInhibitAsserted pkt).
  { cbn [events]. rewrite mon_run_nil. f_equal. symmetry. by_keep H. }
  step_M H. rewrite (access_drives _ _ _ _ _ _ Hd Hs). destruct a as [[[[sat pk] o] lat] wbs]. f_equal. symmetry.
  by_keep H.
Qed.

(** * The adjustment *)

Lemma utilities_machine ts e p L curve :
  ts_class ts = IsC_DYNALRU e -> L = c_L_assoc e ->
  adjust_utilities p L curve ts =
    (gain ← mon_gain p L (c_umon_counters e) curve; loss ← mon_loss p L (c_umon_counters e) curve; Ok (gain, loss)).
Proof.
  intros Hk ->. unfold adjust_utilities, mon_gain, mon_loss, lookup_umon. cbv zeta. rewrite Hk.
  unfold C_DYNALRU_lookup_umon, get_ext, curve_diff. rewrite Hk, !bind_Ok_l.
  repeat case_match; rewrite ?bind_Ok_l; try done; repeat (destruct (arr_get _ _); rewrite ?bind_Ok_l; try done).
Qed.

Lemma zeros_fold n : forall l l',
  foldM (fun l i => arr_set l i 0) l (zrange n) = Ok l' -> l' = replicate (Z.to_nat n) 0 ++ drop (Z.to_nat n) l.
Proof.
  destruct (Z.le_gt_cases 0 n) as [Hn|Hn].
  2: { intros l l' H. replace (Z.to_nat n) with 0%nat by lia. replace (zrange n) with (@nil Z) in H; [cbn in H; by inv_ok|].
       unfold zrange, seqZ. by replace (Z.to_nat n) with 0%nat by lia. }
  rewrite <- (Z2Nat.id n) by lia. generalize (Z.to_nat n). clear n Hn. intros n. rewrite Nat2Z.id.
  induction n as [|n IH]; intros l l' H; [change (zrange (Z.of_nat 0)) with (@nil Z) in H; cbn in H; by inv_ok|].
  rewrite zrange_snoc, foldM_app in H. apply bind_Ok in H as (l1 & H1 & H). apply IH in H1 as ->. cbn in H. inv_ok.
  apply arr_set_Ok in Hx as [Hi ->]. rewrite Nat2Z.id, length_app, length_replicate, length_drop in *.
  rewrite insert_app_r_alt, length_replicate, Nat.sub_diag by (rewrite length_replicate; lia).
  rewrite replicate_S_end, <- app_assoc. f_equal. cbn.
  destruct (drop n l) as [|x r] eqn:E; [apply (f_equal length) in E; rewrite length_drop in E; cbn in E; lia|].
  cbn. f_equal. change (S n) with (1 + n)%nat. rewrite Nat.add_comm, <- drop_drop, E. done.
Qed.

Lemma reset_umon_machine ts e ts' q :
  ts_class ts = IsC_DYNALRU e -> reset_umon ts = Ok ts' ->
  tag_decider q ts' = with_dz_ext (mon_reset (ts_assoc ts) e) (tag_decider q ts).
Proof.
  intros Hk H. unfold reset_umon in H. rewrite Hk in H. unfold C_DYNALRU_reset_umon, get_ext in H. rewrite Hk in H.
  inv_ok. by apply zeros_fold in Hx as ->.
Qed.

(** The two branches of the adjustment: the sizes change as the tag store
    says, the flushes of the moved ways change nothing else. *)
Lemma inc_size_machine s e r s' :
  ts_class (cc_tags s) = IsC_DYNALRU e -> C_DynamicCache_inc_size s = Ok (r, s') ->
  decider s' = with_dz_ext (if c_H_assoc e =? c_H_min e then e
                            else with_c_L_assoc (u32 (c_L_assoc e + 1)) (with_c_H_assoc (u32 (c_H_assoc e - 1)) e))
                 (decider s).
Proof.
  intros Hk H. unfold C_DynamicCache_inc_size in H. step_M H. unfold tags in Hs. apply lift_Ok in Hs as [Hs ->].
  destruct a as [ts n]. step_M H. injection Hs0 as <- <-.
  transitivity (decider (with_cc_tags ts s)); [by_keep H|].
  unfold inc_size in Hs. rewrite Hk in Hs. unfold C_DYNALRU_inc_size, get_ext in Hs. rewrite Hk, bind_Ok_l in Hs.
  destruct (c_H_assoc e =? c_H_min e); inv_ok; [|done].
  unfold decider, tag_decider, with_dz_ext. cbn. by rewrite Hk.
Qed.

Lemma dec_size_machine s e r s' :
  ts_class (cc_tags s) = IsC_DYNALRU e -> C_DynamicCache_dec_size s = Ok (r, s') ->
  decider s' = with_dz_ext (if c_L_assoc e =? 1 then e
                            else with_c_L_assoc (u32 (c_L_assoc e - 1)) (with_c_H_assoc (u32 (c_H_assoc e + 1)) e))
                 (decider s).
Proof.
  intros Hk H. unfold C_DynamicCache_dec_size in H. step_M H. unfold tags in Hs. apply lift_Ok in Hs as [Hs ->].
  destruct a as [ts n]. step_M H. injection Hs0 as <- <-.
  transitivity (decider (with_cc_tags ts s)); [by_keep H|].
  unfold dec_size in Hs. rewrite Hk in Hs. unfold C_DYNALRU_dec_size, get_ext in Hs. rewrite Hk, bind_Ok_l in Hs.
  destruct (c_L_assoc e =? 1); inv_ok; [|done].
  unfold decider, tag_decider, with_dz_ext. cbn. by rewrite Hk.
Qed.

Lemma adjustPartition_drives s r s' :
  is_dynamic (decider s) -> C_DynamicCache_adjustPartition s = Ok (r, s') ->
  mon_adjust (decider s) = Ok (decider s').
Proof.
  intros [_ [e He]] H. cbn in He. unfold C_DynamicCache_adjustPartition in H. step_M H.
  unfold tags in Hs. apply lift_Ok in Hs as [Hs ->]. unfold curr_L_assoc, C_DYNALRU_curr_L_assoc, get_ext in Hs.
  rewrite He in Hs. injection Hs as <-. step_M H. injection Hs as <- <-. step_M H. injection Hs as <- <-.
  step_M H. unfold tags in Hs. apply lift_Ok in Hs as [Hs ->].
  rewrite (utilities_machine _ e _ _ _ He eq_refl) in Hs. destruct a as [gain loss]. inv_ok.
  unfold mon_adjust. cbn. rewrite He, Hx, bind_Ok_l, Hx0, bind_Ok_l. f_equal.
  step_M H. assert (decider s1 = with_dz_ext (mon_sizes gain loss e) (decider s)) as D.
  { unfold mon_sizes. cbv zeta. destruct ((0 <? gain) && (loss <=? gain)); [by eapply inc_size_machine|].
    destruct ((0 <? loss) && (gain <=? loss)); cbn [when] in Hs; [by eapply dec_size_machine|].
    injection Hs as <- <-. unfold with_dz_ext, decider, tag_decider. cbn. by rewrite He. }
  assert (ts_class (cc_tags s1) = IsC_DYNALRU (mon_sizes gain loss e) /\ ts_assoc (cc_tags s1) = ts_assoc (cc_tags s))
    as [K A] by (split; [apply (f_equal dz_class) in D | apply (f_equal dz_assoc) in D]; exact D).
  step_M H. unfold upd_tags, tags in Hs0. step_M Hs0. apply lift_Ok in Hs1 as [Hs1 ->]. injection Hs0 as <- <-.
  apply (reset_umon_machine _ _ _ (cc_par s1) K) in Hs1. transitivity (decider (with_cc_tags a1 s1)); [|symmetry; by_keep H].
  change (decider (with_cc_tags a1 s1)) with (tag_decider (cc_par s1) a1). rewrite Hs1, A.
  change (tag_decider (cc_par s1) (cc_tags s1)) with (decider s1). by rewrite D.
Qed.

(** * Runs of the cache *)

(** What the rest of the system can make the cache do. *)
Inductive DynOp :=
  | DynTimingReq (pkt : Packet)
  | DynTimingResp (pkt : Packet)
  | DynTimingSnoopReq (pkt : Packet)
  | DynTimingSnoopResp (pkt : Packet)
  | DynAtomic (pkt : Packet)
  | DynAtomicSnoop (pkt : Packet)
  | DynFunctional (pkt : Packet)
  | DynFunctionalSnoop (pkt : Packet)
  | DynSend (which : option Z)
  | DynRetry
  | DynSquash (threadNum : Z)
  | DynDrain (event : Z)
  | DynWait (ticks : Z)
  | DynAdjust.

Definition dyn_step (op : DynOp) : M unit :=
  match op with
  | DynTimingReq pkt => _ ← recvTimingReq env pkt; ret tt
  | DynTimingResp pkt => _ ← recvTimingResp env pkt; ret tt
  | DynTimingSnoopReq pkt => _ ← recvTimingSnoopReq env pkt; ret tt
  | DynTimingSnoopResp pkt => _ ← recvTimingSnoopResp env pkt; ret tt
  | DynAtomic pkt => _ ← recvAtomic env pkt; ret tt
  | DynAtomicSnoop pkt => _ ← recvAtomicSnoop env pkt; ret tt
  | DynFunctional pkt => _ ← recvFunctional env pkt; ret tt
  | DynFunctionalSnoop pkt => _ ← recvFunctionalSnoop env pkt; ret tt
  | DynSend which => MemSidePacketQueue_sendDeferredPacket env which
  | DynRetry => SplitMemSidePort_recvRetry_all env
  | DynSquash threadNum => Cache_squash threadNum
  | DynDrain event => _ ← BaseCache_drain event; ret tt
  | DynWait ticks => modify (fun s => with_cc_now (cc_now s + ticks) s)
  | DynAdjust => adjustPartition
  end.

(** Whether the CPU-side port turns a request away. *)
Definition turned_away (s : CState) (pkt : Packet) : bool :=
  negb (memInhibitAsserted pkt) &&
  match arr_get (cc_cpu_blocked_array s) (pkt_threadID pkt) with Ok b => b | Err _ => false end.

(** The events of a step: Low's demand access, or the adjustment. *)
Definition step_events (s : CState) (op : DynOp) : list MonEvent :=
  match op with
  | DynTimingReq pkt => if turned_away s pkt then [] else events (timing_demand s pkt)
  | DynTimingSnoopResp pkt => events (timing_demand s pkt)
  | DynAtomic pkt => events (if memInhibitAsserted pkt then None else low_demand s pkt)
  | DynAdjust => [Adjust]
  | _ => []
  end.

Fixpoint dyn_run (ops : list DynOp) (s : CState) : result (list MonEvent * CState) :=
  match ops with
  | [] => Ok ([], s)
  | op :: ops' =>
      '(_, s1) ← dyn_step op s;
      '(evs, s2) ← dyn_run ops' s1;
      Ok (step_events s op ++ evs, s2)
  end.

Lemma recvTimingReq_drives pkt s r s' :
  is_dynamic (decider s) -> recvTimingReq env pkt s = Ok (r, s') ->
  mon_run (decider s) (if turned_away s pkt then [] else events (timing_demand s pkt)) = Ok (decider s').
Proof.
  intros Hd H. pose proof Hd as [Hk _]. unfold recvTimingReq in H. step_M H. injection Hs as <- <-. cbn in Hk.
  rewrite Hk in H. cbn [is_split_rport] in H. unfold SRCpuSidePort_recvTimingReq in H. step_M H.
  assert (s1 = s /\ a = turned_away s pkt) as [-> ->].
  { unfold turned_away. destruct (memInhibitAsserted pkt); cbn in Hs |- *; [by injection Hs as <- <-|].
    step_M Hs. injection Hs0 as <- <-. apply lift_Ok in Hs as [-> ->]. done. }
  destruct (turned_away s pkt).
  - rewrite mon_run_nil. f_equal. symmetry. by_keep H.
  - step_M H. injection H as <- <-. by eapply timingAccess_drives.
Qed.

Lemma mon_step_dynamic d ev d' : is_dynamic d -> mon_step d ev = Ok d' -> is_dynamic d'.
Proof.
  intros [Hk [e He]] H. destruct ev as [a|]; cbn in H; [unfold mon_demand in H | unfold mon_adjust in H];
    rewrite He in H; inv_ok; (split; [exact Hk | eexists; reflexivity]).
Qed.

Lemma mon_run_dynamic evs d d' : is_dynamic d -> mon_run d evs = Ok d' -> is_dynamic d'.
Proof. intros Hd H. eapply foldM_inv; [|exact Hd | exact H]. intros. by eapply mon_step_dynamic. Qed.

Lemma dyn_step_drives op s s' :
  is_dynamic (decider s) -> dyn_step op s = Ok (tt, s') ->
  mon_run (decider s) (step_events s op) = Ok (decider s').
Proof.
  intros Hd H. destruct op; cbn [step_events dyn_step] in H |- *;
    try (rewrite mon_run_nil; f_equal; symmetry;
         unfold recvTimingResp, recvTimingSnoopReq, recvAtomicSnoop, recvFunctional, recvFunctionalSnoop,
           SplitMemSidePort_recvRetry_all, SplitMemSidePort_recvRetry, BaseCache_drain in H;
         by_keep H).
  - step_M H. injection H as <-. by eapply recvTimingReq_drives.
  - unfold recvTimingSnoopResp in H. step_M H. injection H as <-. step_M Hs. injection Hs as <- <-.
    by eapply timingAccess_drives.
  - step_M H. injection H as <-. by eapply atomicAccess_drives.
  - rewrite mon_run_one. unfold adjustPartition in H. step_M H. injection Hs as <- <-.
    pose proof Hd as [Hk _]. cbn in Hk. rewrite Hk in H. by eapply adjustPartition_drives.
Qed.

Lemma dyn_run_drives ops : forall s evs s',
  is_dynamic (decider s) -> dyn_run ops s = Ok (evs, s') -> mon_run (decider s) evs = Ok (decider s').
Proof.
  induction ops as [|op ops IH]; intros s evs s' Hd H; cbn [dyn_run] in H; inv_ok; [done|].
  pose proof (dyn_step_drives _ _ _ Hd Hx) as D. unfold mon_run in D |- *. rewrite foldM_app, D, bind_Ok_l.
  eapply IH; [|exact Hx0]. by eapply mon_run_dynamic.
Qed.

End Handlers.

(** The sizes of the two partitions. *)
Definition partition_sizes (d : Decider) : option (Z * Z) :=
  match dz_class d with IsC_DYNALRU e => Some (c_L_assoc e, c_H_assoc e) | _ => None end.

(** C2. High cannot influence the sizes of the partitions of a
    coarse-grained dynamic cache.  Take two such caches in the same deciding
    state (sizes, utility monitor, geometry, parameters) but with any contents,
    buffers and time, in any two environments, and let them handle any two
    sequences of requests, responses, snoops, retries, squashes and adjustments
    without a fault: if Low's demand accesses and the adjustments come in the
    same order, then both end in the state that the machine [mon_run] computes
    from those events alone, so with the same sizes; and a request of another
    thread than Low contributes no event. *)
Theorem high_cannot_resize env1 env2 ops1 ops2 s1 s2 evs s1' s2' :
  is_dynamic (decider s1) -> decider s2 = decider s1 ->
  dyn_run env1 ops1 s1 = Ok (evs, s1') -> dyn_run env2 ops2 s2 = Ok (evs, s2') ->
  mon_run (decider s1) evs = Ok (decider s1') /\
  decider s2' = decider s1' /\
  partition_sizes (decider s2') = partition_sizes (decider s1') /\
  (forall s pkt, pkt_threadID pkt <> 0 ->
     step_events s (DynTimingReq pkt) = [] /\ step_events s (DynAtomic pkt) = []).
Proof.
  intros Hd He H1 H2. pose proof (dyn_run_drives _ _ _ _ _ Hd H1) as D1.
  rewrite <- He in Hd. pose proof (dyn_run_drives _ _ _ _ _ Hd H2) as D2. rewrite He, D1 in D2.
  assert (decider s2' = decider s1') as E by congruence.
  split; [exact D1|]. split; [exact E|]. split; [by rewrite E|].
  intros s pkt Ht. apply Z.eqb_neq in Ht. unfold step_events, timing_demand, low_demand. rewrite Ht.
  split; by repeat case_match.
Qed.

(** Two caches with a miss curve, one empty and one in which High filled
    its ways.  Low touches four blocks of a set and then the two oldest again,
    at stack depth three; in the second run High's misses come in between. *)
Definition flow_params : CacheParams :=
  mkCacheParams KC_Dynamic 2 4 2 8 false true 8 false false false 100 4 [5; 3; 2; 2; 2].
Definition flow_addrs : list Z := [0x40; 0x50; 0x60; 0x70; 0x100; 0x110].
Definition flow_reqs : ReqHeap := list_to_map (map (fun a => (a, small_request a 4)) flow_addrs).
Definition flow_cache (ts : TagStore) : CState :=
  Cache_new flow_params ts (mkShared flow_reqs 0x1000 ∅ []) 0 8 8 0.
Definition flow_read (addr tid : Z) : DynOp :=
  DynTimingReq (Packet_fromReq (small_request addr 4) (Packet_blank addr ReadReq tid 0)).
Definition flow_low (addr : Z) : DynOp := flow_read addr 0.
Definition flow_ops1 : list DynOp :=
  map flow_low [0x40; 0x50; 0x60; 0x70; 0x40; 0x50] ++ [DynAdjust].
Definition flow_ops2 : list DynOp :=
  [flow_low 0x40; flow_read 0x100 1; flow_low 0x50; flow_low 0x60; DynWait 7; flow_low 0x70; flow_read 0x110 1;
   flow_low 0x40; flow_read 0x100 1; flow_low 0x50; DynAdjust].
Definition flow_events : list MonEvent :=
  map Demand [0x40; 0x50; 0x60; 0x70; 0x40; 0x50] ++ [Adjust].
Definition flow_end (ops : list DynOp) (ts : TagStore) : CState :=
  match dyn_run (mute_env true) ops (flow_cache ts) with Ok (_, s) => s | Err _ => flow_cache ts end.

Definition flow_trace (ops : list DynOp) (ts : TagStore) : option (list MonEvent) :=
  match dyn_run (mute_env true) ops (flow_cache ts) with Ok (evs, _) => Some evs | Err _ => None end.

Lemma flow_run_eq ops ts :
  flow_trace ops ts = Some flow_events -> dyn_run (mute_env true) ops (flow_cache ts) = Ok (flow_events, flow_end ops ts).
Proof.
  unfold flow_trace, flow_end. destruct (dyn_run (mute_env true) ops (flow_cache ts)) as [[evs s]|e].
  - intros H. injection H as ->. reflexivity.
  - intros H. discriminate H.
Qed.

Lemma flow_facts :
  flow_trace flow_ops1 coarse_store = Some flow_events /\ flow_trace flow_ops2 high_tags = Some flow_events /\
  partition_sizes (decider (flow_end flow_ops1 coarse_store)) = Some (3, 1).
Proof. split_and!; vm_compute; reflexivity. Qed.

(** Both caches give Low a third way. *)
Lemma high_cannot_resize_witness :
  partition_sizes (decider (flow_cache high_tags)) = Some (2, 2) /\
  partition_sizes (decider (flow_end flow_ops2 high_tags)) = Some (3, 1).
Proof.
  split; [vm_compute; reflexivity|]. destruct flow_facts as (F1 & F2 & F3).
  destruct (high_cannot_resize (mute_env true) (mute_env true) flow_ops1 flow_ops2 (flow_cache coarse_store)
              (flow_cache high_tags) flow_events (flow_end flow_ops1 coarse_store) (flow_end flow_ops2 high_tags))
    as (_ & _ & H & _).
  - split; [vm_compute; reflexivity|]. eexists. vm_compute. reflexivity.
  - vm_compute. reflexivity.
  - exact (flow_run_eq _ _ F1).
  - exact (flow_run_eq _ _ F2).
  - exact (eq_trans H F3).
Defined.
