(* ===== verification/CacheLogic.v ===== *)
(** A program logic for the cache: triples that keep an invariant of the
    tag store, with what an action returns.  The invariant is well-formedness,
    the place of every block, and a condition on the thread stamped on it; every
    handler of the cache keeps it, in any environment. *)

From S2P Require Import Prelude Request MemCmd Packet PacketSpec Blk CacheSet IntMath TagTypes LRU PartLRU DynaLRU Tags TagsWf TagsNew Isolation TagsSpec Resize MSHR MSHRQueue PacketQueue CacheBase CacheAccess Cache CacheBus DynamicCache CacheSpec AccessSpec DynamicSpec CacheFrame DynamicFlow.

(** * The invariant of the tag store *)

Section Logic.

(** The class of the store up to the utility monitor, its ways, the set that holds
    each block, and the stamps allowed in a set; a fill may stamp its thread. *)
Context (k0 : TagClass) (ways : Z) (place : BlkPtr -> option (Z * Z)) (allowed : Z * Z -> Z -> Prop).
Context (allowed_fill : forall s t, allowed (set_ix k0 s t) (i32 t)).

Definition fits (p : BlkPtr) (b : CacheBlk) : Prop :=
  forall ix, place p = Some ix -> blk_set b = ix_set k0 ix /\ allowed ix (blk_threadID b).

Record tinv (ts : TagStore) : Prop := {
  ti_wf : ts_wf ts;
  ti_class : kview 1 (ts_class ts) = kview 1 k0;
  ti_assoc : ts_assoc ts = ways;
  ti_place : forall ix cs p, sets_get (ts_sets ts) ix = Ok cs -> p ∈ cs_blks cs -> place p = Some ix;
  ti_fits : forall p b, ts_blks ts !! p = Some b -> fits p b
}.

Lemma fits_same p b b' : blk_set b' = blk_set b -> blk_threadID b' = blk_threadID b -> fits p b -> fits p b'.
Proof. intros H1 H2 H ix Hp. rewrite H1, H2. by apply H. Qed.

(** Blocks. *)
Lemma tinv_set_blk ts p b : tinv ts -> fits p b -> tinv (ts_set_blk ts p b).
Proof.
  intros [[G N S W M O] K A0 P F] Hb.
  constructor; [constructor; [by destruct G| exact N | | exact W | exact M | exact O] | exact K | exact A0 | exact P |].
  - intros ix cs Hg. destruct (S ix cs Hg) as [A B]. split; [exact A|]. intros q Hq.
    destruct (B q Hq) as (x & Hx & Hs). cbn. destruct (decide (p = q)) as [->|Hne].
    + exists b. rewrite list_lookup_insert_eq by (by eapply lookup_lt_Some). split; [done|].
      destruct (Hb ix (P _ _ _ Hg Hq)) as [-> _]. symmetry. by apply (kview_ix_set 1).
    + exists x. by rewrite list_lookup_insert_ne.
  - intros q x Hx. cbn in Hx. destruct (decide (p = q)) as [->|Hne].
    + assert (q < length (ts_blks ts))%nat by (apply lookup_lt_Some in Hx; by rewrite length_insert in Hx).
      rewrite list_lookup_insert_eq in Hx by done. by injection Hx as <-.
    + rewrite list_lookup_insert_ne in Hx by done. by apply F.
Qed.

Lemma tinv_upd_blk ts p f ts' :
  tinv ts -> (forall b, fits p b -> fits p (f b)) -> ts_upd_blk ts p f = Ok ts' -> tinv ts'.
Proof.
  intros I Hf H. unfold ts_upd_blk, ts_blk, blk_deref in H. inv_ok. apply tinv_set_blk; [done|].
  apply Hf. by eapply (ti_fits _ I).
Qed.

(** Steps that permute the pointers of one set. *)
Lemma tinv_local u ix a b : local_step u ix a b -> ts_blks b = ts_blks a -> tinv a -> tinv b.
Proof.
  intros L Hb [W K A0 P F]. pose proof (local_step_wf _ _ _ _ L W) as W'.
  destruct L as [C (cs & cs' & A1 & A2 & A3 & _ & A5 & _)]. specialize (C 1 ltac:(by left)). constructor; [done | | | |].
  - rewrite <- K. symmetry. apply (e_class _ _ _ C).
  - rewrite <- A0. symmetry. apply (e_assoc _ _ _ C).
  - intros ix0 c p Hg Hp. destruct (decide (ix0 = ix)) as [->|Hne].
    + assert (c = cs') as -> by congruence. rewrite A3 in Hp. by eapply P.
    + rewrite A5 in Hg by done. by eapply P.
  - by rewrite Hb.
Qed.

Lemma move_blks ts s t p ts' :
  ts_moveToHead ts s t p = Ok ts' \/ ts_moveToTail ts s t p = Ok ts' ->
  ts_blks ts' = ts_blks ts /\ ts_class ts' = ts_class ts /\ ts_setShift ts' = ts_setShift ts /\
  ts_setMask ts' = ts_setMask ts.
Proof. intros [H|H]; unfold ts_moveToHead, ts_moveToTail, put_set in H; by inv_ok. Qed.

Lemma tinv_moveToHead ts s t p ts' : tinv ts -> ts_moveToHead ts s t p = Ok ts' -> tinv ts'.
Proof.
  intros I H. eapply (tinv_local 1); [eapply ls_moveToHead; [done | apply I | done] | | done].
  by apply (move_blks ts s t p); left.
Qed.

Lemma tinv_moveToTail ts s t p ts' : tinv ts -> ts_moveToTail ts s t p = Ok ts' -> tinv ts'.
Proof.
  intros I H. eapply (tinv_local 1); [eapply ls_moveToTail; [done | apply I | done] | | done].
  by apply (move_blks ts s t p); right.
Qed.

(** A block that moves to the front of a set is in the set. *)
Lemma moveToHead_place ts0 ts s t p ts' :
  tinv ts0 -> ts_class ts = ts_class ts0 -> ts_sets ts = ts_sets ts0 ->
  ts_moveToHead ts s t p = Ok ts' -> place p = Some (set_ix k0 s t).
Proof.
  intros [W K _ P _] Hc Hs H. unfold ts_moveToHead in H. inv_ok. unfold get_set in Hx. rewrite Hc, Hs in Hx.
  destruct (moveToHead_Ok _ _ _ _ (ts_wf_cs _ _ _ W Hx) Hx0) as [Hin _].
  rewrite (kview_set_ix 1 _ _ s t K) in Hx. by eapply P.
Qed.

(** Counters. *)
Lemma tinv_counters a b :
  ts_sets b = ts_sets a -> ts_blks b = ts_blks a -> core_eq 1 a b -> tinv a -> tinv b.
Proof.
  intros Hs Hb C [[G N S W M O] K A0 P F]. pose proof (e_class _ _ _ C) as HK. constructor.
  - constructor; rewrite ?Hs.
    + by eapply core_geom.
    + done.
    + intros ix cs Hg. destruct (S ix cs Hg) as [A B]. split; [done|]. intros p Hp.
      destruct (B p Hp) as (x & Hx & Hxs). rewrite Hb. exists x. split; [done|].
      by rewrite <- (kview_ix_set 1 _ _ ix HK).
    + intros s t Hn Ht. rewrite <- (e_numSets _ _ _ C) in Hn. apply (kview_valid 1 _ _ t HK) in Ht.
      destruct (W s t Hn Ht) as (cs & Hg & Ha). exists cs. unfold get_set in *.
      rewrite <- (core_assoc 1 _ _ t C), Hs. by rewrite <- (kview_set_ix 1 _ _ s t HK).
    + rewrite <- (e_missCounter _ _ _ C), <- (e_numSets _ _ _ C). exact M.
    + rewrite <- (e_occupancies _ _ _ C), <- (e_maxMasters _ _ _ C). exact O.
  - congruence.
  - rewrite <- A0. symmetry. apply (e_assoc _ _ _ C).
  - rewrite Hs. exact P.
  - rewrite Hb. exact F.
Qed.

Lemma tinv_occ_add ts m d ts' : tinv ts -> occ_add ts m d = Ok ts' -> tinv ts'.
Proof.
  intros I H. unfold occ_add in H. inv_ok. apply arr_set_length in Hx1.
  apply (tinv_counters ts); [done | done | by constructor | exact I].
Qed.

(** * The operations of the tag store *)

Lemma tinv_insert_touch ts p b now : tinv ts -> fits p b -> tinv (insert_touch ts p b now).
Proof.
  intros I Hb. unfold insert_touch. destruct (blk_isTouched b); [done|]. cbv zeta.
  assert (tinv (ts_set_blk (with_ts_tagsInUse (ts_tagsInUse ts + 1) ts) p (with_blk_isTouched true b))) as I'.
  { apply tinv_set_blk; [|exact Hb]. apply (tinv_counters ts); [done | done | by constructor | exact I]. }
  case_match; [|exact I']. eapply tinv_counters; [| | |exact I']; [done | done | by constructor].
Qed.

Lemma tinv_insert_evict ts p ts' : tinv ts -> insert_evict ts p = Ok ts' -> tinv ts'.
Proof.
  intros I H. unfold insert_evict, ts_blk, blk_deref in H. inv_ok. destruct (isValid x); inv_ok; [|done].
  cbv zeta in H. eapply tinv_occ_add; [|exact H]. apply tinv_set_blk.
  - apply (tinv_counters ts); [done | done | by constructor | exact I].
  - exact (ti_fits _ I _ _ Hx).
Qed.

Lemma insert_prefix_sets ts p now b ts1 f ts2 m ts3 g ts4 :
  insert_evict (insert_touch ts p b now) p = Ok ts1 -> ts_upd_blk ts1 p f = Ok ts2 -> occ_add ts2 m 1 = Ok ts3 ->
  ts_upd_blk ts3 p g = Ok ts4 -> ts_class ts4 = ts_class ts /\ ts_sets ts4 = ts_sets ts.
Proof.
  intros H1 H2 H3 H4. unfold ts_upd_blk in H2, H4. unfold occ_add in H3. inv_ok. cbn.
  unfold insert_evict, occ_add in H1. inv_ok. assert (ts_class (insert_touch ts p b now) = ts_class ts /\
    ts_sets (insert_touch ts p b now) = ts_sets ts) as [E1 E2]
    by (unfold insert_touch; cbv zeta; by repeat case_match).
  rewrite <- E1, <- E2. case_in H1; inv_ok; done.
Qed.

(** The stamp of a fill is allowed where the block is, because the block
    moves to the front of the set of the thread. *)
Lemma tinv_insertBlock ts a p m t now ts' :
  tinv ts -> LRU_insertBlock ts a p m t now = Ok ts' -> tinv ts'.
Proof.
  intros I H. unfold LRU_insertBlock in H. inv_ok. unfold ts_blk, blk_deref in Hx. inv_ok.
  pose proof (tinv_insert_touch _ _ _ now I (ti_fits _ I _ _ Hx)) as I1.
  pose proof (tinv_insert_evict _ _ _ I1 Hx0) as I2.
  assert (place p = Some (set_ix k0 (extractSet x3 a) t)) as Hp.
  { destruct (insert_prefix_sets _ _ _ _ _ _ _ _ _ _ _ Hx0 Hx1 Hx2 Hx3) as [E1 E2].
    exact (moveToHead_place ts x3 _ _ _ _ I E1 E2 H). }
  assert (tinv x1) as I3.
  { eapply tinv_upd_blk; [exact I2 | | exact Hx1]. intros b Hb ix Hix. rewrite Hp in Hix. injection Hix as <-.
    cbn. split; [|apply allowed_fill]. by apply Hb. }
  pose proof (tinv_occ_add _ _ _ _ I3 Hx2) as I4.
  assert (tinv x3) as I5 by (eapply tinv_upd_blk; [exact I4 | | exact Hx3]; done).
  by eapply tinv_moveToHead.
Qed.

Lemma tinv_invalidateBlk ts o t ts' : tinv ts -> LRU_invalidateBlk ts o t = Ok ts' -> tinv ts'.
Proof.
  intros I H. destruct o as [p|]; cbn in H; inv_ok; [|done].
  eapply tinv_upd_blk; [| |exact H]; [|by intros b Hb].
  destruct (isValid x); inv_ok; [|done]. eapply tinv_moveToTail; [|exact Hx0].
  eapply tinv_upd_blk; [| |exact Hx2]; [|by intros b Hb]. eapply tinv_occ_add; [|exact Hx1].
  apply (tinv_counters ts); [done | done | by constructor | exact I].
Qed.

Lemma tinv_clearLocks ts ts' : tinv ts -> clearLocks ts = Ok ts' -> tinv ts'.
Proof.
  intros I H. unfold clearLocks, LRU_clearLocks in H. inv_ok.
  revert Hx. apply (foldM_inv (fun heap => tinv (with_ts_blks heap ts))); [|by destruct ts].
  intros heap i heap' _ Hi H. inv_ok. apply arr_get_Ok in Hx as [_ Hx]. apply arr_set_Ok in H as [_ ->].
  apply (tinv_set_blk _ (Z.to_nat i) (clearLoadLocks x0) Hi). exact (ti_fits _ Hi _ _ Hx).
Qed.

Lemma tinv_touch ts p f ts' :
  tinv ts -> (forall b, blk_set (f b) = blk_set b /\ blk_threadID (f b) = blk_threadID b) ->
  ts_upd_blk ts p f = Ok ts' -> tinv ts'.
Proof. intros I Hf. apply tinv_upd_blk; [done|]. intros b. destruct (Hf b). by apply fits_same. Qed.

Lemma tinv_LRU_access ts a m t now ts' o lat :
  tinv ts -> LRU_accessBlock ts a m t now = Ok (ts', o, lat) -> tinv ts'.
Proof.
  intros I H. unfold LRU_accessBlock in H. cbv zeta in H. inv_ok. destruct x0 as [p|]; inv_ok.
  - eapply tinv_touch; [| |exact Hx3]; [|done]. by eapply tinv_moveToHead.
  - apply arr_set_length in Hx2. apply (tinv_counters ts); [done | done | by constructor | exact I].
Qed.

Lemma tinv_umon ts e e' :
  ts_class ts = IsC_DYNALRU e ->
  c_L_assoc e' = c_L_assoc e -> c_H_assoc e' = c_H_assoc e -> c_H_min e' = c_H_min e ->
  tinv ts -> tinv (put_ext e' ts).
Proof.
  intros Hk HL HH Hm I. apply (tinv_counters ts); [done | done | | exact I].
  constructor; try done. cbn. rewrite Hk. cbn. congruence.
Qed.

Lemma tinv_accessBlock ts a m t now ts' o lat :
  tinv ts -> accessBlock ts a m t now = Ok (ts', o, lat) -> tinv ts'.
Proof.
  intros I H. unfold accessBlock in H. destruct (ts_class ts) as [| | | |e|L H'] eqn:Hk;
    try (by eapply tinv_LRU_access).
  - unfold C_DYNALRU_accessBlock in H. inv_ok. pose proof (tinv_LRU_access _ _ _ _ _ _ _ _ I Hx) as I1.
    destruct (t =? 0); inv_ok; [|done]. unfold get_ext in Hx0. destruct (ts_class t0) eqn:Hk1; inv_ok.
    destruct (umon_access_sizes _ _ _ _ _ Hx1) as (? & ? & ?). by eapply tinv_umon.
  - unfold F_DYNALRU_accessBlock in H. inv_ok. destruct o0 as [p|]; inv_ok; [|done].
    eapply tinv_touch; [| |exact Hx2]; [|done]. destruct b; inv_ok; [done|]. by eapply tinv_moveToHead.
Qed.

Lemma tinv_accessBlock_labels ts a l m r w now ts' o lat :
  tinv ts -> accessBlock_labels ts a l m r w now = Ok (ts', o, lat) -> tinv ts'.
Proof.
  intros I H. unfold accessBlock_labels in H. destruct (ts_class ts); inv_ok; try done.
  unfold DCLRU_accessBlock in H. inv_ok. destruct x as [p|]; inv_ok; [|done].
  eapply tinv_touch; [| |exact Hx3]; [|done]. by eapply tinv_moveToHead.
Qed.

(** * Triples *)

(** The parameters of the cache do not change. *)
Context (par0 : CacheParams).

Definition cinv (s : CState) : Prop := tinv (cc_tags s) /\ cc_par s = par0.

Definition triple {A} (act : M A) (Q : A -> Prop) : Prop :=
  forall s a s', cinv s -> act s = Ok (a, s') -> cinv s' /\ Q a.
Definition safe {A} (act : M A) : Prop := triple act (fun _ => True).

Lemma triple_bind {A B} (x : M A) (f : A -> M B) Q R :
  triple x Q -> (forall a, Q a -> triple (f a) R) -> triple (x ≫= f) R.
Proof.
  intros Hx Hf s b s' I H. apply mbind_Ok in H as (a & s1 & H1 & H2). destruct (Hx _ _ _ I H1) as [I1 Ha].
  by eapply Hf.
Qed.

Lemma safe_bind {A B} (x : M A) (f : A -> M B) : safe x -> (forall a, safe (f a)) -> safe (x ≫= f).
Proof. intros Hx Hf. eapply triple_bind; [exact Hx|]. intros a _. apply Hf. Qed.

Lemma triple_safe {A} (act : M A) Q : triple act Q -> safe act.
Proof. intros H s a s' I Ha. by destruct (H _ _ _ I Ha). Qed.

Lemma triple_conseq {A} (act : M A) (Q R : A -> Prop) : triple act Q -> (forall a, Q a -> R a) -> triple act R.
Proof. intros H HR s a s' I Ha. destruct (H _ _ _ I Ha) as [I' Hq]. split; [done | by apply HR]. Qed.

Lemma safe_reads {A} (x : M A) : reads x -> safe x.
Proof. intros H s a s' I Hs. by rewrite (H _ _ _ Hs). Qed.

Lemma triple_lift {A} (r : result A) Q : (forall a, r = Ok a -> Q a) -> triple (lift r) Q.
Proof. intros H s a s' I Hs. apply lift_Ok in Hs as [Hr ->]. split; [done | by apply H]. Qed.

Lemma triple_ret {A} (a : A) (Q : A -> Prop) : Q a -> triple (ret a) Q.
Proof. intros H s b s' I Hs. by injection Hs as <- <-. Qed.

Lemma safe_tagless {A} (x : M A) : tagless x -> safe x.
Proof. intros H s a s' I Hs. destruct (H _ _ _ Hs) as [Ht Hp]. unfold cinv. by rewrite Ht, Hp. Qed.

Lemma safe_modify f : (forall s, cc_tags (f s) = cc_tags s /\ cc_par (f s) = cc_par s) -> safe (modify f).
Proof. intros H. by apply safe_tagless, tagless_modify. Qed.

Lemma safe_when b x : safe x -> safe (when b x).
Proof. intros H. destruct b; [done|]. by apply safe_reads, reads_ret. Qed.

Lemma safe_forM {A} (l : list A) f : (forall a, safe (f a)) -> safe (forM l f).
Proof. intros H. induction l as [|a l IH]; cbn; [apply safe_reads, reads_ret|]. by apply safe_bind. Qed.

Lemma safe_upd_tags f : (forall ts ts', tinv ts -> f ts = Ok ts' -> tinv ts') -> safe (upd_tags f).
Proof.
  intros Hf s a s' [I Hp] H. unfold upd_tags in H. step_M H. unfold tags in Hs. apply lift_Ok in Hs as [Hs ->].
  injection H as <- <-. split; [|done]. split; [by eapply Hf | exact Hp].
Qed.

(** A block of the store, and a block that may be written back there. *)
Definition ref_fits (r : BlkRef) (b : CacheBlk) : Prop :=
  match r with InTags p => fits p b | TempBlk => True end.

Lemma ref_fits_same r b b' :
  ref_fits r b -> blk_set b' = blk_set b -> blk_threadID b' = blk_threadID b -> ref_fits r b'.
Proof. destruct r; [|done]. intros H H1 H2. by apply (fits_same _ b). Qed.

Lemma triple_blk_get r : triple (blk_get r) (ref_fits r).
Proof.
  intros s b s' I H. destruct r as [p|]; cbn [blk_get ref_fits] in *.
  - unfold tags in H. apply lift_Ok in H as [H ->]. unfold ts_blk, blk_deref in H. inv_ok.
    split; [done|]. by eapply (ti_fits _ (proj1 I)).
  - by injection H as <- <-.
Qed.

Lemma safe_blk_put r b : ref_fits r b -> safe (blk_put r b).
Proof.
  intros Hb. destruct r as [p|]; cbn [blk_put]; [|by apply safe_modify].
  apply safe_upd_tags. intros ts ts' I H. injection H as <-. by apply tinv_set_blk.
Qed.

(** A change of a block that leaves its set and its stamp alone. *)
Definition in_frame (f : CacheBlk -> CacheBlk) : Prop :=
  forall b, blk_set (f b) = blk_set b /\ blk_threadID (f b) = blk_threadID b.

Lemma safe_blk_mod r f : in_frame f -> safe (blk_mod r f).
Proof.
  intros Hf. unfold blk_mod. eapply triple_bind; [apply triple_blk_get|]. intros b Hb. apply safe_blk_put.
  destruct (Hf b). by eapply ref_fits_same.
Qed.

Lemma safe_get_bind {A} r (f : CacheBlk -> M A) : (forall b, ref_fits r b -> safe (f b)) -> safe (blk_get r ≫= f).
Proof. intros H. eapply triple_bind; [apply triple_blk_get | exact H]. Qed.

Lemma safe_put_same r b b' :
  ref_fits r b -> blk_set b' = blk_set b -> blk_threadID b' = blk_threadID b -> safe (blk_put r b').
Proof. intros H H1 H2. apply safe_blk_put. by eapply ref_fits_same. Qed.

Create HintDb safe.
#[local] Hint Resolve safe_tagless safe_upd_tags tinv_invalidateBlk tinv_insertBlock tinv_clearLocks : safe.
#[local] Hint Extern 1 (safe (blk_mod _ _)) => (apply safe_blk_mod; intros ?; split; reflexivity) : safe.
#[local] Hint Extern 1 (safe (blk_put _ _)) => (eapply safe_put_same; [eassumption | reflexivity | reflexivity]) : safe.

Ltac as_safe := match goal with |- triple ?x _ => change (safe x) end.

(** [secure] follows the structure of a program, remembering what a block
    that was read fits. *)
Ltac secure :=
  repeat first
    [ solve [eauto 4 with safe tagless]
    | match goal with |- safe (blk_get _ ≫= _) => apply safe_get_bind; intros ? ? end
    | match goal with |- safe (_ ≫= _) => apply safe_bind; [|intros ?] end
    | match goal with |- safe (when _ _) => apply safe_when end
    | match goal with |- safe (forM _ _) => apply safe_forM; intros ? end
    | match goal with |- safe (upd_tags _) => apply safe_upd_tags; intros ? ? ? ? end
    | match goal with |- safe (match ?x with _ => _ end) => destruct x end
    | match goal with |- safe (let _ := _ in _) => cbv zeta end ].

(** The rest of a run that keeps the invariant. *)
Ltac by_secure H :=
  match type of H with
  | ?x _ = Ok _ => let K := fresh in assert (safe x) as K; [solve [secure] | eapply K; [|exact H]]
  end.

(** * The access path *)

Lemma safe_blk_get r : safe (blk_get r).
Proof. eapply triple_safe, triple_blk_get. Qed.
Lemma safe_invalidateBlk r t : safe (invalidateBlk r t).
Proof. destruct r; cbn [invalidateBlk]; secure. Qed.
#[local] Hint Resolve safe_blk_get safe_invalidateBlk : safe.

Lemma safe_cmpAndSwap r p : safe (cmpAndSwap r p).
Proof. unfold cmpAndSwap. secure. Qed.
Lemma safe_satisfy_block_read p r d g : safe (satisfy_block_read p r d g).
Proof. unfold satisfy_block_read. secure. Qed.
#[local] Hint Resolve safe_cmpAndSwap safe_satisfy_block_read : safe.

Lemma checkWrite_frame h p b ok h' b' :
  checkWrite h p b = Ok (ok, h', b') -> blk_set b' = blk_set b /\ blk_threadID b' = blk_threadID b.
Proof. unfold checkWrite. intros H. case_in H; by inv_ok. Qed.

Lemma trackLoadLocked_frame h p b b' :
  trackLoadLocked h p b = Ok b' -> blk_set b' = blk_set b /\ blk_threadID b' = blk_threadID b.
Proof. unfold trackLoadLocked. intros H. by inv_ok. Qed.

Lemma safe_satisfy p r d g : safe (satisfyCpuSideRequest p r d g).
Proof.
  unfold satisfyCpuSideRequest. do 4 (apply safe_bind; [secure|intros ?]). destruct (cmd_is p SwapReq); [secure|].
  destruct (isWrite p).
  - apply safe_get_bind. intros b Hb. apply safe_bind; [secure|intros h].
    eapply triple_bind; [apply (triple_lift _ (fun x => ref_fits r x.2)); intros [[ok h'] b'] E;
      destruct (checkWrite_frame _ _ _ _ _ _ E); by eapply ref_fits_same|].
    intros [[ok h'] b'] Hb'. cbn in Hb'. as_safe. secure.
  - destruct (isRead p); [|secure]. apply safe_get_bind. intros b Hb. apply safe_bind; [secure|intros h].
    eapply (triple_bind _ _ (ref_fits r)).
    + destruct (isLLSC p); [|by apply triple_ret]. apply triple_lift. intros b' E.
      destruct (trackLoadLocked_frame _ _ _ _ E). by eapply ref_fits_same.
    + intros b' Hb'. as_safe. secure.
Qed.
#[local] Hint Resolve safe_satisfy : safe.
Lemma safe_satisfy_ptr p r d g : safe (satisfy_ptr p r d g).
Proof. unfold satisfy_ptr. secure. Qed.
Lemma safe_writebackBlk r t : safe (writebackBlk r t).
Proof. unfold writebackBlk. secure. Qed.
#[local] Hint Resolve safe_satisfy_ptr safe_writebackBlk : safe.
Lemma safe_allocateBlock a t w : safe (allocateBlock a t w).
Proof. unfold allocateBlock. secure. Qed.
#[local] Hint Resolve safe_allocateBlock : safe.

Lemma fill_status_frame bits p : in_frame (fill_status bits p).
Proof. intros b. unfold fill_status. cbv zeta. repeat case_match; by split. Qed.
#[local] Hint Extern 1 (safe (blk_mod _ (fill_status _ _))) => (apply safe_blk_mod, fill_status_frame) : safe.

Lemma safe_handleFill p o w : safe (handleFill p o w).
Proof.
  unfold handleFill, Cache_handleFill, DirtyCache_handleFill, fill_frame, fill_existing. secure.
Qed.
Lemma safe_uncacheable ops p : safe (uncacheable_tags ops p).
Proof. unfold uncacheable_tags. secure. Qed.
Lemma safe_access_writeback ops p o w : safe (access_writeback ops p o w).
Proof. unfold access_writeback. secure. Qed.
Lemma safe_getBusPacket p o b : safe (getBusPacket p o b).
Proof. unfold getBusPacket. secure. Qed.
#[local] Hint Resolve safe_handleFill safe_uncacheable safe_access_writeback safe_getBusPacket : safe.

(** Accessing the tags, by thread or by label. *)
Definition tags_safe (ops : LabelOps) : Prop := forall ts pkt a lat id t ts' o lat',
  tinv ts -> lo_access ops ts pkt a lat id t = Ok (ts', o, lat') -> tinv ts'.
Lemma thread_ops_safe : tags_safe thread_ops.
Proof. intros ts pkt a lat id t ts' o lat'. apply tinv_accessBlock. Qed.
Lemma label_ops_safe : tags_safe label_ops.
Proof. intros ts pkt a lat id t ts' o lat'. apply tinv_accessBlock_labels. Qed.
#[local] Hint Resolve thread_ops_safe label_ops_safe : safe.

Lemma safe_access_with ops p l w : tags_safe ops -> safe (access_with ops p l w).
Proof.
  intros Ho. unfold access_with. do 2 (apply safe_bind; [secure|intros ?]).
  destruct (isUncacheable a); [secure|]. do 3 (apply safe_bind; [secure|intros ?]).
  intros s b s' I H. step_M H. unfold tags in Hs. apply lift_Ok in Hs as [Hs ->]. destruct a4 as [[ts o] lat].
  step_M H. injection Hs0 as <- <-. eapply Ho in Hs; [|exact (proj1 I)]. by_secure H. split; [exact Hs | exact (proj2 I)].
Qed.

Lemma safe_access p l w : safe (access p l w).
Proof.
  unfold access, Cache_access, DirtyCache_access. apply safe_bind; [secure|].
  intros k. destruct k; by apply safe_access_with; secure.
Qed.
#[local] Hint Resolve safe_access : safe.

(** * The handlers *)

Section Handlers.
Variable env : Env.

Lemma safe_handleSnoop p r t d i : safe (handleSnoop env p r t d i).
Proof. unfold handleSnoop. secure. Qed.
Lemma safe_respond_cpu p m r f e o t : safe (respond_cpu p m r f e o t).
Proof. unfold respond_cpu. secure. Qed.
#[local] Hint Resolve safe_handleSnoop safe_respond_cpu : safe.
Lemma safe_respond_target p m r f e o : safe (respond_target env p m r f e o).
Proof. unfold respond_target. secure. Qed.
#[local] Hint Resolve safe_respond_target : safe.
Lemma safe_respond_targets n p m r f e o : safe (respond_targets env n p m r f e o).
Proof. induction n; cbn [respond_targets]; secure. Qed.
Lemma safe_apply_pending ops p m r : safe (apply_pending ops p m r).
Proof. unfold apply_pending. secure. Qed.
Lemma safe_finish_mshr p m r b : safe (finish_mshr p m r b).
Proof. unfold finish_mshr. secure. Qed.
#[local] Hint Resolve safe_respond_targets safe_apply_pending safe_finish_mshr : safe.
Lemma safe_handleResponse p : safe (handleResponse env p).
Proof. unfold handleResponse, Cache_handleResponse, DirtyCache_handleResponse, handleResponse_with. secure. Qed.
#[local] Hint Resolve safe_handleResponse : safe.
Lemma safe_timing_miss p r t : safe (timing_miss env p r t).
Proof. unfold timing_miss. secure. Qed.
Lemma safe_timing_hit p r l t b : safe (timing_hit env p r l t b).
Proof. unfold timing_hit. secure. Qed.
#[local] Hint Resolve safe_timing_miss safe_timing_hit : safe.
Lemma safe_timingAccess p : safe (timingAccess env p).
Proof. unfold timingAccess, Cache_timingAccess, DirtyCache_timingAccess, timingAccess_with. secure. Qed.
Lemma safe_atomic_miss p r l w : safe (atomic_miss env p r l w).
Proof. unfold atomic_miss. secure. Qed.
#[local] Hint Resolve safe_timingAccess safe_atomic_miss : safe.
Lemma safe_atomicAccess p : safe (atomicAccess env p).
Proof. unfold atomicAccess. secure. Qed.
Lemma safe_functionalAccess p b : safe (functionalAccess env p b).
Proof. unfold functionalAccess, or_else. secure. Qed.
Lemma safe_snoopTiming p : safe (snoopTiming env p).
Proof. unfold snoopTiming. secure. Qed.
Lemma safe_snoopAtomic p : safe (snoopAtomic env p).
Proof. unfold snoopAtomic. secure. Qed.
Lemma safe_getTimingPacket t : safe (getTimingPacket env t).
Proof. unfold getTimingPacket. secure. Qed.
#[local] Hint Resolve safe_atomicAccess safe_functionalAccess safe_snoopTiming safe_snoopAtomic
  safe_getTimingPacket : safe.
Lemma safe_sendDeferredPacket w : safe (MemSidePacketQueue_sendDeferredPacket env w).
Proof. unfold MemSidePacketQueue_sendDeferredPacket. secure. Qed.
#[local] Hint Resolve safe_sendDeferredPacket : safe.

(** Every operation but the adjustment of the partition keeps the
    invariant. *)
Lemma safe_step op : op <> DynAdjust -> safe (dyn_step env op).
Proof.
  intros Ho. destruct op; cbn [dyn_step]; try done;
    unfold recvTimingReq, SRCpuSidePort_recvTimingReq, CpuSidePort_recvTimingReq, recvTimingResp, recvTimingSnoopReq,
      recvTimingSnoopResp, recvAtomic, recvAtomicSnoop, recvFunctional, recvFunctionalSnoop,
      SplitMemSidePort_recvRetry_all, SplitMemSidePort_recvRetry; secure.
Qed.

End Handlers.

(** * The pieces of the adjustments *)

Lemma safe_flush_blk p t : safe (flush_blk p t).
Proof. unfold flush_blk. secure. Qed.
Lemma safe_reschedule : safe reschedule_adjust.
Proof. unfold reschedule_adjust. secure. Qed.
#[local] Hint Resolve safe_flush_blk safe_reschedule : safe.

(** The way of a coarse-grained store that just moved is only looked up. *)
Definition coarse (k : TagClass) : bool := match k with IsC_DYNALRU _ => true | _ => false end.

Lemma coarse_view k k' : kview 1 k = kview 1 k' -> coarse k = coarse k'.
Proof. intros H. by destruct k, k'; cbn in H |- *; try discriminate H. Qed.

Lemma get_evict_coarse t i s o s' :
  coarse (ts_class (cc_tags s)) = true -> get_evict t i s = Ok (o, s') ->
  s' = s /\ exists p, o = Some p /\ C_DYNALRU_get_evictBlk (cc_tags s) t i = Ok p.
Proof.
  intros Hk H. unfold get_evict in H. step_M H. unfold tags in Hs. apply lift_Ok in Hs as [Hs ->].
  destruct a as [ts op]. step_M H. injection Hs0 as <- <-. injection H as <- <-. unfold get_evictBlk in Hs.
  destruct (ts_class (cc_tags s)); try done. inv_ok. split; [by destruct s | eauto].
Qed.

Lemma safe_get_evict t i : coarse k0 = true -> safe (get_evict t i).
Proof.
  intros Hk s o s' I H. apply get_evict_coarse in H as [-> _]; [done|].
  by rewrite (coarse_view _ _ (ti_class _ (proj1 I))).
Qed.

(** The loop over the ways that moved to Low. *)
Lemma safe_inc_loop n :
  (forall t i, safe (get_evict t i)) ->
  safe (forM (zrange n) (fun i => op ← get_evict 0 i; p ← lift (of_option NullDeref op); flush_blk p 1)).
Proof. intros He. secure. Qed.

(** Where any stamp is allowed, the marks of the fine-grained store are
    harmless. *)
Section AnyStamp.
Context (allowed_any : forall ix t, allowed ix t).

Lemma fits_any p b t : fits p b -> fits p (with_blk_threadID t b).
Proof. intros H ix Hp. split; [by apply H | apply allowed_any]. Qed.

Lemma tinv_heap_insert ts heap p b t :
  tinv (with_ts_blks heap ts) -> heap !! p = Some b -> tinv (with_ts_blks (<[p := with_blk_threadID t b]> heap) ts).
Proof.
  intros I Hb. apply (tinv_set_blk _ p (with_blk_threadID t b) I). apply fits_any. exact (ti_fits _ I _ _ Hb).
Qed.

Lemma tinv_mark_unused ts ptrs js : forall heap heap',
  tinv (with_ts_blks heap ts) -> mark_unused ptrs heap js = Ok heap' -> tinv (with_ts_blks heap' ts).
Proof.
  induction js as [|j js IH]; intros heap heap' I H; cbn in H; inv_ok; [done|].
  unfold blk_deref in Hx0. inv_ok. case_in H; inv_ok; [by apply tinv_heap_insert | by eapply IH].
Qed.

Lemma tinv_take_marked ts ptrs js : forall heap heap' o,
  tinv (with_ts_blks heap ts) -> take_marked ptrs heap js = Ok (heap', o) -> tinv (with_ts_blks heap' ts).
Proof.
  induction js as [|j js IH]; intros heap heap' o I H; cbn in H; inv_ok; [done|].
  unfold blk_deref in Hx0. inv_ok. case_in H; inv_ok; [by apply tinv_heap_insert | by eapply IH].
Qed.

Lemma tinv_F_dec_size ts ts' n : tinv ts -> F_DYNALRU_dec_size ts = Ok (ts', n) -> tinv ts'.
Proof.
  intros I H. unfold F_DYNALRU_dec_size in H. inv_ok. revert Hx0.
  apply (foldM_inv (fun heap => tinv (with_ts_blks heap ts))); [|by destruct ts].
  intros heap i heap' _ Hi H. inv_ok. by eapply tinv_mark_unused.
Qed.

Lemma safe_get_evict_any t i : safe (get_evict t i).
Proof.
  intros s o s' I H. unfold get_evict in H. step_M H. unfold tags in Hs. apply lift_Ok in Hs as [Hs ->].
  destruct a as [ts op]. step_M H. injection Hs0 as <- <-. injection H as <- <-. split; [|done].
  destruct I as [I Hp]. split; [|exact Hp]. unfold get_evictBlk in Hs. cbn [cc_tags with_cc_tags].
  destruct (ts_class (cc_tags s)); inv_ok; try done. unfold F_DYNALRU_get_evictBlk in Hs. inv_ok.
  eapply tinv_take_marked; [|exact Hx1]. by destruct (cc_tags s).
Qed.

Lemma safe_restamp r t : safe (blk_mod r (with_blk_threadID t)).
Proof.
  unfold blk_mod. apply safe_get_bind. intros b Hb. apply safe_blk_put. destruct r; [by apply fits_any | done].
Qed.
#[local] Hint Resolve safe_get_evict_any safe_restamp : safe.

(** The scrub of a way that moved to High, and the adjustment of the
    fine-grained cache. *)
Lemma safe_scrub_way i : safe (scrub_way i).
Proof. unfold scrub_way. secure. Qed.

Lemma safe_F_adjust s u s' L H :
  ts_class (cc_tags s) = IsF_DYNALRU L H -> cinv s -> F_DynamicCache_adjustPartition s = Ok (u, s') -> cinv s'.
Proof.
  intros Hk I Hr. unfold F_DynamicCache_adjustPartition in Hr. step_M Hr. unfold tags in Hs.
  apply lift_Ok in Hs as [Hs ->]. destruct a as [ts n]. step_M Hr. injection Hs0 as <- <-.
  unfold dec_size in Hs. rewrite Hk in Hs. apply tinv_F_dec_size in Hs; [|exact (proj1 I)].
  assert (cinv (with_cc_tags ts s)) as I' by exact (conj Hs (proj2 I)). by_secure Hr. exact I'.
Qed.

End AnyStamp.

End Logic.
