(* ===== verification/CacheRun.v ===== *)
(** Runs of a whole cache: the tag store stays well formed whatever the
    cache handles, for every class of cache and of tag store, resizes of the
    partitions included. *)

From S2P Require Import Prelude Request MemCmd Packet PacketSpec Blk CacheSet IntMath TagTypes LRU PartLRU DynaLRU Tags TagsWf TagsNew Isolation TagsSpec Resize MSHR MSHRQueue PacketQueue CacheBase CacheAccess Cache CacheBus DynamicCache CacheSpec AccessSpec DynamicSpec CacheFrame DynamicFlow CacheLogic.

(** * Where a block is *)

Definition all_ix (ss : list (list CacheSet)) : list (Z * Z) :=
  concat (imap (fun x row => imap (fun i _ => (Z.of_nat x, Z.of_nat i)) row) ss).

Definition holds_ptr (ss : list (list CacheSet)) (p : BlkPtr) (ix : Z * Z) : bool :=
  match sets_get ss ix with Ok cs => bool_decide (p ∈ cs_blks cs) | Err _ => false end.

Definition place_of (ss : list (list CacheSet)) (p : BlkPtr) : option (Z * Z) :=
  List.find (holds_ptr ss p) (all_ix ss).

Lemma all_ix_elem ss ix cs : sets_get ss ix = Ok cs -> ix ∈ all_ix ss.
Proof.
  destruct ix as [x i]. rewrite sets_get_Ok. intros (Hx & Hi & row & Hr & Ho).
  apply (elem_of_concat_lookup _ (Z.to_nat x) (imap (fun i _ => (Z.of_nat (Z.to_nat x), Z.of_nat i)) row)).
  - by rewrite list_lookup_imap, Hr.
  - apply list_elem_of_lookup. exists (Z.to_nat i). rewrite list_lookup_imap, Ho. cbn. by rewrite !Z2Nat.id by lia.
Qed.

Lemma place_of_elem ss ix cs p :
  NoDup (all_ptrs ss) -> sets_get ss ix = Ok cs -> p ∈ cs_blks cs -> place_of ss p = Some ix.
Proof.
  intros Hn Hg Hp. unfold place_of. destruct (List.find (holds_ptr ss p) (all_ix ss)) as [ix'|] eqn:F.
  - apply find_some in F as [_ F]. unfold holds_ptr in F. destruct (sets_get ss ix') as [cs'|] eqn:Hg'; [|done].
    apply bool_decide_eq_true in F. destruct (decide (ix' = ix)) as [->|Hne]; [done|].
    by destruct (all_ptrs_disjoint ss ix' ix cs' cs p).
  - apply all_ix_elem in Hg as Hin. apply list_elem_of_In in Hin. apply (find_none _ _ F) in Hin.
    unfold holds_ptr in Hin. rewrite Hg in Hin. by rewrite bool_decide_eq_true_2 in Hin.
Qed.

Lemma place_of_holds ss p ix : place_of ss p = Some ix -> exists cs, sets_get ss ix = Ok cs /\ p ∈ cs_blks cs.
Proof.
  unfold place_of. intros F. apply find_some in F as [_ F]. unfold holds_ptr in F.
  destruct (sets_get ss ix) as [cs|]; [|done]. apply bool_decide_eq_true in F. eauto.
Qed.

(** A well-formed store has the invariant of the logic, for its own places
    and the stamps it has. *)
Definition store_inv (allowed : Z * Z -> Z -> Prop) (ts0 ts : TagStore) : Prop :=
  tinv (ts_class ts0) (ts_assoc ts0) (place_of (ts_sets ts0)) allowed ts.

Definition stamps_ok (allowed : Z * Z -> Z -> Prop) (ts : TagStore) : Prop :=
  forall ix cs p b, sets_get (ts_sets ts) ix = Ok cs -> p ∈ cs_blks cs -> ts_blks ts !! p = Some b ->
    allowed ix (blk_threadID b).

Lemma store_inv_init allowed ts : ts_wf ts -> stamps_ok allowed ts -> store_inv allowed ts ts.
Proof.
  intros W S. constructor; [done | done | done | |].
  - intros ix cs p. apply place_of_elem, W.
  - intros p b Hb ix Hp. apply place_of_holds in Hp as (cs & Hg & Hin).
    destruct (w_set _ W _ _ Hg) as [_ F]. destruct (F p Hin) as (b' & Hb' & Hs).
    assert (b' = b) as -> by congruence. split; [done | by eapply S].
Qed.

Lemma store_inv_stamps allowed ts0 ts : store_inv allowed ts0 ts -> stamps_ok allowed ts.
Proof.
  intros [W K A P F] ix cs p b Hg Hp Hb. by destruct (F p b Hb ix (P _ _ _ Hg Hp)).
Qed.

(** Any stamp. *)
Definition any_stamp (ix : Z * Z) (t : Z) : Prop := True.

(** * What a store promises *)

(** What a store of each class promises besides well-formedness: the sizes
    of a coarse-grained store add up. *)
Definition store_ok (ts : TagStore) : Prop :=
  ts_wf ts /\ match ts_class ts with IsC_DYNALRU e => c_wf ts e | _ => True end.

(** The class of the tag store fits the class of the cache. *)
Definition matched (s : CState) : Prop :=
  match cp_kind (cc_par s), ts_class (cc_tags s) with
  | KC_Dynamic, IsC_DYNALRU _ => True
  | KF_Dynamic, IsF_DYNALRU _ _ => True
  | (KC_Dynamic | KF_Dynamic), _ => False
  | _, _ => True
  end.

Lemma store_ok_inv ts0 ts : store_ok ts0 -> store_inv any_stamp ts0 ts -> store_ok ts.
Proof.
  intros [W0 C0] [W K A P F]. split; [done|].
  destruct (ts_class ts) as [| | | |e|] eqn:E, (ts_class ts0) as [| | | |e0|] eqn:E0; try done; cbn in K.
  destruct C0 as [_ _ T L H B]. injection K as K1 K2 K3.
  constructor; rewrite ?A, ?K1, ?K2, ?K3; done.
Qed.

Lemma store_ok_self ts : store_ok ts -> store_inv any_stamp ts ts.
Proof. intros [W _]. by apply store_inv_init. Qed.

Lemma c_wf_ok ts e : c_wf ts e -> store_ok ts.
Proof. intros C. split; [apply C|]. by rewrite (c_class _ _ C). Qed.

Lemma c_wf_inv ts0 e0 ts : c_wf ts0 e0 -> store_inv any_stamp ts0 ts -> exists e, c_wf ts e.
Proof.
  intros C I. pose proof (store_ok_inv _ _ (c_wf_ok _ _ C) I) as [_ O]. pose proof (ti_class _ _ _ _ _ I) as K.
  rewrite (c_class _ _ C) in K. destruct (ts_class ts); try done. eauto.
Qed.

Lemma any_any ix t : any_stamp ix t.
Proof. done. Qed.

(** * The adjustment of the coarse-grained cache *)

(** The invariant of the cache with the places of a store. *)
Definition run_inv (ts0 : TagStore) (s0 : CState) : CState -> Prop :=
  cinv (ts_class ts0) (ts_assoc ts0) (place_of (ts_sets ts0)) any_stamp (cc_par s0).

Lemma run_inv_start ts s : store_ok ts -> run_inv ts s (with_cc_tags ts s).
Proof. intros O. split; [by apply store_ok_self | done]. Qed.

Lemma C_inc_size_ok s e u s' :
  c_wf (cc_tags s) e -> C_DynamicCache_inc_size s = Ok (u, s') ->
  (exists e', c_wf (cc_tags s') e') /\ cc_par s' = cc_par s.
Proof.
  intros C H. unfold C_DynamicCache_inc_size in H. step_M H. unfold tags in Hs. apply lift_Ok in Hs as [Hs ->].
  destruct a as [ts n]. step_M H. injection Hs0 as <- <-.
  destruct (inc_size_total _ _ C) as (ts1 & e' & r & H1 & C' & _). rewrite Hs in H1. injection H1 as <- _.
  destruct (safe_inc_loop _ _ _ _ _ n (safe_get_evict_any _ _ _ _ _ any_any) _ _ _
              (run_inv_start ts s (c_wf_ok _ _ C')) H) as [[I Hp] _].
  split; [by eapply c_wf_inv | exact Hp].
Qed.

Lemma C_dec_size_ok s e u s' :
  c_wf (cc_tags s) e -> C_DynamicCache_dec_size s = Ok (u, s') ->
  (exists e', c_wf (cc_tags s') e') /\ cc_par s' = cc_par s.
Proof.
  intros C H. unfold C_DynamicCache_dec_size in H. step_M H. unfold tags in Hs. apply lift_Ok in Hs as [Hs ->].
  destruct a as [ts n]. step_M H. injection Hs0 as <- <-.
  destruct (dec_size_total _ _ C) as (ts1 & e' & r & H1 & C' & _). rewrite Hs in H1. injection H1 as <- _.
  destruct (safe_forM _ _ _ _ _ (zrange n) _ (safe_scrub_way _ _ _ _ _ any_any) _ _ _
              (run_inv_start ts s (c_wf_ok _ _ C')) H) as [[I Hp] _].
  split; [by eapply c_wf_inv | exact Hp].
Qed.

(** Resetting the monitor. *)
Lemma reset_umon_ok ts e ts' : c_wf ts e -> reset_umon ts = Ok ts' -> exists e', c_wf ts' e'.
Proof.
  intros C H. pose proof (c_class _ _ C) as Hk. unfold reset_umon in H. rewrite Hk in H.
  unfold C_DYNALRU_reset_umon, get_ext in H. rewrite Hk in H. inv_ok.
  eapply c_wf_inv; [exact C|]. eapply tinv_umon; [done..|]. eapply store_ok_self, c_wf_ok, C.
Qed.

Lemma C_adjust_ok s e u s' :
  c_wf (cc_tags s) e -> C_DynamicCache_adjustPartition s = Ok (u, s') ->
  (exists e', c_wf (cc_tags s') e') /\ cc_par s' = cc_par s.
Proof.
  intros C H. unfold C_DynamicCache_adjustPartition in H.
  step_M H. unfold tags in Hs. apply lift_Ok in Hs as [_ ->]. step_M H. injection Hs as <- <-.
  step_M H. injection Hs as <- <-. step_M H. unfold tags in Hs. apply lift_Ok in Hs as [_ ->].
  destruct a0 as [Uinc Udec].
  step_M H. assert ((exists e', c_wf (cc_tags s1) e') /\ cc_par s1 = cc_par s) as [[e1 C1] P1].
  { destruct ((0 <? Uinc) && (Udec <=? Uinc)); [by eapply C_inc_size_ok|].
    destruct ((0 <? Udec) && (Uinc <=? Udec)); cbn [when] in Hs; [by eapply C_dec_size_ok|].
    injection Hs as <- <-. eauto. }
  step_M H. unfold upd_tags, tags in Hs0. step_M Hs0. apply lift_Ok in Hs1 as [Hs1 ->]. injection Hs0 as <- <-.
  apply (reset_umon_ok _ _ _ C1) in Hs1.
  assert (tagless reschedule_adjust) as T by (unfold reschedule_adjust; frame). apply T in H as [-> ->]. done.
Qed.

(** * Steps and runs *)

(** Every step keeps the store well formed, and the classes matched. *)
Record cache_ok (s : CState) : Prop := {
  k_store : store_ok (cc_tags s);
  k_matched : matched s
}.

Lemma kview_matched s s' :
  kview 1 (ts_class (cc_tags s')) = kview 1 (ts_class (cc_tags s)) -> cc_par s' = cc_par s -> matched s -> matched s'.
Proof.
  intros K P M. unfold matched in *. rewrite P.
  destruct (cp_kind (cc_par s)), (ts_class (cc_tags s)), (ts_class (cc_tags s')); try done; discriminate K.
Qed.

Lemma run_inv_ok s s' : cache_ok s -> run_inv (cc_tags s) s s' -> cache_ok s'.
Proof.
  intros [O M] [I P]. constructor; [by eapply store_ok_inv|]. eapply kview_matched; [|exact P | exact M].
  exact (ti_class _ _ _ _ _ I).
Qed.

Lemma run_inv_self s : cache_ok s -> run_inv (cc_tags s) s s.
Proof. intros [O M]. split; [by apply store_ok_self | done]. Qed.

Lemma adjust_ok s u s' : cache_ok s -> adjustPartition s = Ok (u, s') -> cache_ok s'.
Proof.
  intros K H. pose proof K as [O M]. unfold adjustPartition in H. step_M H. injection Hs as <- <-.
  unfold matched in M. destruct (cp_kind (cc_par s)) eqn:Hk; try (by injection H as <- <-).
  - destruct (ts_class (cc_tags s)) as [| | | |e|] eqn:He; try done. destruct O as [W C]. rewrite He in C.
    destruct (C_adjust_ok _ _ _ _ C H) as [[e' C'] P]. constructor; [by eapply c_wf_ok|].
    unfold matched. by rewrite P, Hk, (c_class _ _ C').
  - destruct (ts_class (cc_tags s)) as [| | | | |L H'] eqn:He; try done.
    apply (run_inv_ok s _ K). eapply safe_F_adjust; [done | exact He | | exact H]. by apply run_inv_self.
Qed.

Lemma step_ok env op s u s' : cache_ok s -> dyn_step env op s = Ok (u, s') -> cache_ok s'.
Proof.
  intros K H. assert (op = DynAdjust \/ op <> DynAdjust) as [->|Ho] by (destruct op; (by left) || (by right));
    [by eapply adjust_ok|].
  apply (run_inv_ok s _ K). eapply safe_step; [| exact Ho | | exact H]; [done | by apply run_inv_self].
Qed.

Lemma run_ok env ops : forall s evs s', cache_ok s -> dyn_run env ops s = Ok (evs, s') -> cache_ok s'.
Proof.
  induction ops as [|op ops IH]; intros s evs s' K H; cbn [dyn_run] in H; inv_ok; [done|].
  eapply IH; [|exact Hx0]. by eapply step_ok.
Qed.

(** * From the builder *)

(** Sizes that a coarse-grained store may be built with. *)
Definition sizes_ok (p : TagParams) : Prop :=
  tp_c_dynamic_cache p = true ->
  1 <= tp_L_assoc p /\ 0 <= tp_H_min p <= tp_tag_assoc p - tp_L_assoc p /\ tp_tag_assoc p < 2 ^ 32.

Lemma C_DYNALRU_new_class n b a l L Hm m ts :
  C_DYNALRU_new n b a l L Hm m = Ok ts ->
  ts_assoc ts = a /\ exists e, ts_class ts = IsC_DYNALRU e /\
    c_L_assoc e = L /\ c_H_assoc e = u32 (a - L) /\ c_H_min e = Hm.
Proof.
  intros H. unfold C_DYNALRU_new, LRU_new, C_DYNALRU_init_sets, LRU_init_sets, get_ext in H. inv_ok. cbn in *. inv_ok.
  split; [|eexists; split; [reflexivity | done]]. unfold LRU_fields in Hx2. repeat case_in Hx2; by inv_ok.
Qed.

Lemma other_new_class p ts :
  tp_c_dynamic_cache p = false -> BUILD_LRU_CACHE p = Ok ts -> coarse (ts_class ts) = false.
Proof.
  intros Hc H. unfold BUILD_LRU_CACHE in H. cbv zeta in H. rewrite Hc in H.
  assert (forall n b a l m t, LRU_new n b a l m = Ok t -> ts_class t = IsLRU) as HL.
  { intros n b a l m t Ht. unfold LRU_new, LRU_init_sets in Ht. inv_ok. cbn.
    unfold LRU_fields in Hx. repeat case_in Hx; by inv_ok. }
  repeat case_in H.
  - unfold F_DYNALRU_new, F_DYNALRU_init_sets in H. by inv_ok.
  - unfold DCLRU_new, DCLRU_init_sets in H. by inv_ok.
  - unfold WPLRU_new, WPLRU_init_sets in H. by inv_ok.
  - unfold SPLRU_new, SPLRU_init_sets in H. by inv_ok.
  - by rewrite (HL _ _ _ _ _ _ H).
Qed.

Lemma BUILD_store_ok p ts : buildable p -> sizes_ok p -> BUILD_LRU_CACHE p = Ok ts -> store_ok ts.
Proof.
  intros Hb Hs H. destruct (BUILD_LRU_CACHE_wf p Hb) as (ts1 & H1 & W). rewrite H in H1. injection H1 as <-.
  split; [done|]. unfold sizes_ok in Hs. destruct (tp_c_dynamic_cache p) eqn:Hc.
  - unfold BUILD_LRU_CACHE in H. cbv zeta in H. rewrite Hc in H. destruct (C_DYNALRU_new_class _ _ _ _ _ _ _ _ H) as (Ha & e & Hk & HL & HH & Hm). rewrite Hk.
    destruct (Hs eq_refl) as (H1 & H2 & H3). rewrite u32_small in HH by lia. constructor; try done; lia.
  - apply (other_new_class p) in H; [|done]. by destruct (ts_class ts).
Qed.

Lemma Cache_new_tags p ts sh base mshrs wbufs misses :
  cc_tags (Cache_new p ts sh base mshrs wbufs misses) = ts.
Proof. unfold Cache_new. destruct (add_queue_pair _ _ _ _) as [[? ?] ?]. by destruct (if _ : bool then _ else _) as [[? ?] ?]. Qed.

(** C4. The tag store of a cache is always well formed.  Take a cache of
    any class over a tag store that the builder made from legal parameters (a
    dynamic cache over the dynamic store of its kind), in any environment: after
    any sequence of timing, atomic and functional requests, responses, snoops,
    sends, retries, squashes and adjustments of the partitions that runs without
    a fault, the address split is consistent, every block is owned by one way of
    one set and knows that set, every partition has its size, and the counters
    are in range. *)
Theorem cache_run_wf tp ts cp sh base mshrs wbufs misses env ops evs s' :
  buildable tp -> sizes_ok tp -> BUILD_LRU_CACHE tp = Ok ts ->
  let s := Cache_new cp ts sh base mshrs wbufs misses in
  matched s -> dyn_run env ops s = Ok (evs, s') -> ts_wf (cc_tags s').
Proof.
  intros Hb Hs HB s M H. apply (run_ok env ops s evs s'); [|exact H]. constructor; [|exact M].
  unfold s. rewrite Cache_new_tags. by eapply BUILD_store_ok.
Qed.

(** The run of two Low misses, a High miss and an adjustment of a
    coarse-grained cache, from its builder. *)
Definition run_tag_params : TagParams := mkTagParams true false false false false 4 4 4 2 2 1 2 8.
Definition run_ops : list DynOp := [flow_low 0x40; flow_read 0x100 1; flow_low 0x50; DynWait 3; DynAdjust].
Definition run_end (ts : TagStore) : option CState :=
  match dyn_run (mute_env true) run_ops (flow_cache ts) with Ok (_, s) => Some s | Err _ => None end.

Lemma cache_run_wf_witness :
  exists ts s', BUILD_LRU_CACHE run_tag_params = Ok ts /\ run_end ts = Some s' /\ ts_wf (cc_tags s').
Proof.
  destruct (BUILD_LRU_CACHE run_tag_params) as [ts|] eqn:HB; [|vm_compute in HB; discriminate HB]. exists ts.
  destruct (dyn_run (mute_env true) run_ops (flow_cache ts)) as [[evs s']|] eqn:HR.
  - exists s'. split; [reflexivity|]. split; [unfold run_end; rewrite HR; reflexivity|].
    apply (cache_run_wf run_tag_params ts flow_params (mkShared flow_reqs 0x1000 ∅ []) 0 8 8 0 (mute_env true)
             run_ops evs s').
    + cbn. repeat split; try reflexivity; vm_compute; congruence.
    + intros _. cbn. lia.
    + exact HB.
    + vm_compute in HB. injection HB as <-. vm_compute. exact I.
    + exact HR.
  - vm_compute in HB. injection HB as <-. vm_compute in HR. discriminate HR.
Defined.
