(* ===== verification/FlushSpec.v ===== *)
(** Dirty blocks on their way out of a dynamic cache: a write-back that is handed
    to a write buffer waits there, in a register of its own, whatever is written
    back after it; and flushing a block changes nothing in the tag store but its
    dirty bit. *)

From S2P Require Import Prelude Request MemCmd Packet PacketSpec Blk CacheSet IntMath TagTypes LRU PartLRU DynaLRU Tags MSHR MSHRQueue PacketQueue CacheBase CacheAccess Cache CacheBus DynamicCache CacheSpec AccessSpec CacheFrame.

(** * Actions that leave the buffers alone *)

Definition bufferless {A} (act : M A) : Prop :=
  forall s a s', act s = Ok (a, s') -> cc_queues s' = cc_queues s /\ sh_mshrs (cc_sh s') = sh_mshrs (cc_sh s).

Lemma bufferless_bind {A B} (x : M A) (f : A -> M B) :
  bufferless x -> (forall a, bufferless (f a)) -> bufferless (x ≫= f).
Proof.
  intros Hx Hf s b s' H. apply mbind_Ok in H as (a & s1 & H1 & H2). destruct (Hx _ _ _ H1) as [<- <-].
  by eapply Hf.
Qed.

Lemma bufferless_reads {A} (x : M A) : reads x -> bufferless x.
Proof. intros H s a s' Hs. by rewrite (H _ _ _ Hs). Qed.

Lemma bufferless_modify f :
  (forall s, cc_queues (f s) = cc_queues s /\ sh_mshrs (cc_sh (f s)) = sh_mshrs (cc_sh s)) -> bufferless (modify f).
Proof. intros H s a s' Hs. injection Hs as <- <-. apply H. Qed.

Lemma bufferless_when b x : bufferless x -> bufferless (when b x).
Proof. intros H. destruct b; [done|]. by apply bufferless_reads, reads_ret. Qed.

Create HintDb bufferless.
#[export] Hint Resolve bufferless_reads reads_lift reads_gets reads_ret reads_fail reads_state : bufferless.
#[export] Hint Extern 1 (bufferless (modify _)) => (apply bufferless_modify; intros; split; reflexivity) : bufferless.
#[export] Hint Extern 1 (reads (tags _)) => (apply reads_state) : bufferless.
#[export] Hint Extern 1 (reads (massert _)) => (apply reads_lift) : bufferless.
#[export] Hint Extern 1 (reads (par _)) => (apply reads_gets) : bufferless.
#[export] Hint Extern 1 (reads curTick) => (apply reads_gets) : bufferless.

(** By the structure of the program, as [frame] does. *)
Ltac unbuffered :=
  repeat first
    [ solve [eauto 3 with bufferless]
    | match goal with |- bufferless (_ ≫= _) => apply bufferless_bind; [|intros ?] end
    | match goal with |- bufferless (when _ _) => apply bufferless_when end
    | match goal with |- bufferless (match ?x with _ => _ end) => destruct x end
    | match goal with |- bufferless (let _ := _ in _) => cbv zeta end ].

Lemma bufferless_setBlocked c t : bufferless (setBlocked c t).
Proof.
  unfold setBlocked, SplitRPortCache_setBlocked, BaseCache_setBlocked, port_setBlocked, SRCpuSidePort_setBlocked,
    CacheSlavePort_setBlocked, stat. unbuffered.
Qed.
Lemma bufferless_requestMemSideBus c t u : bufferless (requestMemSideBus c t u).
Proof. unfold requestMemSideBus. unbuffered. Qed.
Lemma bufferless_next_order : bufferless next_order.
Proof. unfold next_order. unbuffered. Qed.
Lemma bufferless_set_tags ts : bufferless (set_tags ts).
Proof. unfold set_tags. unbuffered. Qed.
#[export] Hint Resolve bufferless_setBlocked bufferless_requestMemSideBus bufferless_next_order bufferless_set_tags : bufferless.
Lemma bufferless_upd_tags f : bufferless (upd_tags f).
Proof. unfold upd_tags. unbuffered. Qed.
#[export] Hint Resolve bufferless_upd_tags : bufferless.
Lemma bufferless_blk_get r : bufferless (blk_get r).
Proof. destruct r; cbn; unbuffered. Qed.
Lemma bufferless_blk_put r b : bufferless (blk_put r b).
Proof. destruct r; cbn; unbuffered. Qed.
Lemma bufferless_invalidateBlk r t : bufferless (invalidateBlk r t).
Proof. destruct r; cbn; unbuffered. Qed.
Lemma bufferless_new_request r : bufferless (new_request r).
Proof. intros s a s' H. rewrite new_request_eq in H. by injection H as _ <-. Qed.
#[export] Hint Resolve bufferless_blk_get bufferless_blk_put bufferless_invalidateBlk bufferless_new_request : bufferless.
Lemma bufferless_blk_mod r f : bufferless (blk_mod r f).
Proof. unfold blk_mod. unbuffered. Qed.
Lemma bufferless_writebackBlk r t : bufferless (writebackBlk r t).
Proof. unfold writebackBlk, stat. unbuffered. Qed.
Lemma bufferless_get_evict t i : bufferless (get_evict t i).
Proof. unfold get_evict. unbuffered. Qed.
Lemma bufferless_reschedule : bufferless reschedule_adjust.
Proof. unfold reschedule_adjust. unbuffered. Qed.
#[export] Hint Resolve bufferless_blk_mod bufferless_writebackBlk bufferless_get_evict bufferless_reschedule : bufferless.

(** * What waits in the write buffer of a thread *)

(** A register of the write buffer of thread [t], in use, has the packet as a target. *)
Definition waits (t : Z) (wb : Packet) (s : CState) : Prop :=
  exists q m r, arr_get (cc_queues s) (3 + 2 * t) = Ok q /\ m ∈ mq_allocatedList q /\ m ∉ mq_freeList q /\
    sh_mshrs (cc_sh s) !! m = Some r /\ wb ∈ map tgt_pkt (tl_list (mshr_targets r)).

(** No register is twice in the free list of the write buffer, as [mshr_queue_invariant]
    has it. *)
Definition free_once (t : Z) (s : CState) : Prop :=
  exists q, arr_get (cc_queues s) (3 + 2 * t) = Ok q /\ NoDup (mq_freeList q).

Lemma MSHR_allocate_target h mh m addr size pkt t o now mh' :
  MSHR_allocate h mh m addr size pkt t o now = Ok mh' ->
  exists r, mh' !! m = Some r /\ pkt ∈ map tgt_pkt (tl_list (mshr_targets r)).
Proof.
  unfold MSHR_allocate, TargetList_add, mshr_update, mshr_deref. intros H. inv_ok.
  eexists. split; [apply lookup_insert_eq|]. cbn. rewrite map_app. apply elem_of_app. right. by left.
Qed.

Lemma addToReadyList_rest mh q m q' :
  addToReadyList mh q m = Ok q' -> mq_freeList q' = mq_freeList q /\ mq_allocatedList q' = mq_allocatedList q.
Proof. unfold addToReadyList. intros H. inv_ok. case_match; inv_ok; done. Qed.

Lemma MSHRQueue_allocate_lists h mh q addr size pkt t o now mh' q' m :
  MSHRQueue_allocate h mh q addr size pkt t o now = Ok (mh', q', m) ->
  mq_freeList q = m :: mq_freeList q' /\ mq_allocatedList q' = mq_allocatedList q ++ [m] /\
  exists r, mh' !! m = Some r /\ pkt ∈ map tgt_pkt (tl_list (mshr_targets r)).
Proof.
  unfold MSHRQueue_allocate. destruct (mq_freeList q) as [|m0 free] eqn:Hf; [done|]. intros H. inv_ok.
  match goal with HA : addToReadyList _ _ _ = Ok _ |- _ => apply addToReadyList_rest in HA as [E1 E2] end.
  cbn in *. rewrite E1, E2. split; [done|]. split; [done|]. by eapply MSHR_allocate_target.
Qed.

(** The flag of an upstream register is no target. *)
Lemma only_register_targets m pkt mh mh' x r :
  only_register m pkt mh mh' -> x <> m -> mh !! x = Some r ->
  exists r', mh' !! x = Some r' /\ mshr_targets r' = mshr_targets r.
Proof.
  intros O Hx Hr. specialize (O x Hx). rewrite Hr in O. destruct (upstream pkt x); cbn in O; rewrite O; by eexists.
Qed.

(** Handing a write-back to the buffer: it waits there, and what waited still does. *)
Lemma allocateWriteBuffer_waits wb time rb s m s' :
  let t := pkt_threadID wb in
  is_split (cp_kind (cc_par s)) = true -> free_once t s -> allocateWriteBuffer wb time rb s = Ok (m, s') ->
  free_once t s' /\ waits t wb s' /\ forall wb', waits t wb' s -> waits t wb' s'.
Proof.
  intros t Hk (q & Hq & Hnd) H. unfold allocateWriteBuffer in H. step_M H. apply lift_Ok in Hs as [_ ->].
  step_M H. apply split_queue_pos in Hs as [-> ->]; [|done]. fold t in H.
  do 2 (step_M H; apply lift_Ok in Hs as [_ ->]). unfold allocateBufferInternal in H.
  step_M H. apply bufferless_next_order in Hs as [Q0 M0].
  do 2 (step_M H; injection Hs as <- <-). step_M H. unfold on_queue, queue in Hs.
  step_M Hs. apply lift_Ok in Hs0 as [Hqueue ->]. step_M Hs. injection Hs0 as <- <-. apply lift_Ok in Hs as [HA ->].
  assert (a4 = q) as -> by congruence. destruct a3 as [[mh q'] m'].
  pose proof (MSHRQueue_allocate_only _ _ _ _ _ _ _ _ _ _ _ _ HA) as [_ Ho].
  apply MSHRQueue_allocate_lists in HA as (Hf & Ha & r & Hr & Ht).
  step_M H. injection Hs as <- <-. step_M H. unfold set_queue in Hs. step_M Hs. injection Hs0 as <- <-.
  step_M Hs. apply lift_Ok in Hs0 as [Hset ->]. injection Hs as <- <-.
  apply (bufferless_bind (when _ _) _) in H as [Q1 M1];
    [| by apply bufferless_when, bufferless_setBlocked | intros []; unbuffered].
  cbn in Q1, M1. pose proof (arr_get_set_eq _ _ _ _ Hset) as Hget. rewrite <- Q1 in Hget.
  rewrite Hf in Hnd. apply NoDup_cons in Hnd as [Hm Hnd]. split; [by exists q'|]. split.
  - exists q', m', r. split_and!; [done | rewrite Ha; set_solver | done | by rewrite M1 | done].
  - intros wb' (q2 & x & rx & Hq2 & Hx & Hxf & Hrx & Htx). assert (q2 = q) as -> by congruence.
    assert (x <> m') as Hne by (intros ->; apply Hxf; rewrite Hf; left). rewrite <- M0 in Hrx.
    destruct (only_register_targets _ _ _ _ _ _ Ho Hne Hrx) as (rx' & Hrx' & E).
    exists q', x, rx'. split_and!; [done | rewrite Ha; set_solver | | by rewrite M1 | by rewrite E].
    intros Hin. apply Hxf. rewrite Hf. by right.
Qed.

(** Actions that keep what waits. *)
Definition keeps_waiting {A} (t : Z) (act : M A) : Prop :=
  forall s a s', is_split (cp_kind (cc_par s)) = true -> act s = Ok (a, s') ->
    cc_par s' = cc_par s /\
    (free_once t s -> free_once t s' /\ forall wb, waits t wb s -> waits t wb s').

Lemma waiting_bind {A B} t (x : M A) (f : A -> M B) :
  keeps_waiting t x -> (forall a, keeps_waiting t (f a)) -> keeps_waiting t (x ≫= f).
Proof.
  intros Hx Hf s b s' Hk H. apply mbind_Ok in H as (a & s1 & H1 & H2).
  destruct (Hx _ _ _ Hk H1) as [P1 W1]. rewrite <- P1 in Hk. destruct (Hf _ _ _ _ Hk H2) as [P2 W2].
  split; [congruence|]. intros F. destruct (W1 F) as [F1 K1]. destruct (W2 F1) as [F2 K2]. split; [done|]. auto.
Qed.

Lemma keeps_bufferless {A} t (act : M A) :
  (forall s a s', act s = Ok (a, s') -> cc_par s' = cc_par s) -> bufferless act -> keeps_waiting t act.
Proof.
  intros HP HB s a s' _ H. split; [by eapply HP|]. destruct (HB _ _ _ H) as [Q M].
  unfold free_once, waits. rewrite Q, M. done.
Qed.

(** * What a flush does to the tag store *)

Lemma tagless_get r : tagless (blk_get r).
Proof. destruct r; cbn; frame. Qed.

(** Only the dirty bit of the block. *)
Lemma writebackBlk_tags p t s wb s' :
  writebackBlk (InTags p) t s = Ok (wb, s') ->
  exists b, ts_blks (cc_tags s) !! p = Some b /\ cc_tags s' = ts_set_blk (cc_tags s) p (blk_clr BlkDirty b) /\
    cc_par s' = cc_par s.
Proof.
  intros H. unfold writebackBlk in H. step_M H. cbn in Hs. unfold tags in Hs. apply lift_Ok in Hs as [Hb ->].
  unfold ts_blk, blk_deref in Hb. apply of_option_Ok in Hb. exists a. split; [done|].
  assert (forall {A} (x : M A) (f : A -> M Packet) (s1 : CState), tagless x -> cc_tags s1 = cc_tags s /\ cc_par s1 = cc_par s ->
    (x ≫= f) s1 = Ok (wb, s') ->
    exists y s2, (cc_tags s2 = cc_tags s /\ cc_par s2 = cc_par s) /\ f y s2 = Ok (wb, s')) as step.
  { intros A x f s1 T [E1 E2] Hx. apply mbind_Ok in Hx as (y & s2 & H1 & H2). exists y, s2. split; [|done].
    destruct (T _ _ _ H1) as [-> ->]. done. }
  assert (cc_tags s = cc_tags s /\ cc_par s = cc_par s) as E by done.
  repeat (apply step in H as (? & ? & E1 & H); [|frame | exact E]; clear E; rename E1 into E; cbn beta zeta in H).
  destruct E as [E1 E2]. step_M H. cbn in Hs. unfold upd_tags, tags in Hs. step_M Hs. apply lift_Ok in Hs0 as [Hs0 ->].
  injection Hs0 as <-. injection Hs as <- <-. injection H as _ <-. cbn. by rewrite E1.
Qed.

Lemma flush_blk_tags p t s u s' :
  flush_blk p t s = Ok (u, s') ->
  exists b, ts_blks (cc_tags s) !! p = Some b /\ cc_par s' = cc_par s /\
    (cc_tags s' = cc_tags s \/ cc_tags s' = ts_set_blk (cc_tags s) p (blk_clr BlkDirty b)).
Proof.
  intros H. unfold flush_blk in H. step_M H. cbn in Hs. unfold tags in Hs. apply lift_Ok in Hs as [Hb ->].
  unfold ts_blk, blk_deref in Hb. apply of_option_Ok in Hb. exists a. split; [done|].
  step_M H. injection Hs as <- <-. destruct (isDirty a && isValid a); cbn [when] in H; [|by injection H as _ <-; auto].
  step_M H. apply writebackBlk_tags in Hs as (b & Hb' & HT & HP). assert (b = a) as -> by congruence.
  step_M H. apply tagless_allocateWriteBuffer in Hs as [HT' HP']. injection H as _ <-.
  rewrite HT', HP'. auto.
Qed.

Lemma writebackBlk_thread r t s wb s' : writebackBlk r t s = Ok (wb, s') -> pkt_threadID wb = t.
Proof.
  intros H. unfold writebackBlk in H. repeat step_M H. injection H as <- _. cbn.
  repeat match goal with HL : lift _ _ = Ok _ |- _ => apply lift_Ok in HL as [HL _] end.
  match goal with HA : allocate (if _ then setSupplyExclusive ?v else _) = Ok ?w,
                  HP : Packet_new_tid _ _ _ _ _ _ _ = Ok ?v |- _ =>
    assert (pkt_threadID v = t) as <-;
      [unfold Packet_new_tid, Packet_fromReq in HP; apply bind_Ok in HP as (rq & _ & [= <-]); by repeat case_match|];
    assert (pkt_threadID (if isWritable a then setSupplyExclusive v else v) = pkt_threadID v) as <- by (by case_match);
    revert HA; generalize (if isWritable a then setSupplyExclusive v else v) end.
  clear. intros p H. unfold allocate in H. destruct (pkt_data p); inv_ok; done.
Qed.

(** A flush keeps what waits. *)
Lemma keeps_flush p t : keeps_waiting t (flush_blk p t).
Proof.
  intros s u s' Hk H. pose proof (flush_blk_tags _ _ _ _ _ H) as (b & Hb & HP & _). split; [done|]. intros F.
  unfold flush_blk in H. step_M H. cbn in Hs. unfold tags in Hs. apply lift_Ok in Hs as [_ ->].
  step_M H. injection Hs as <- <-. destruct (isDirty a && isValid a); cbn [when] in H; [|by injection H as _ <-].
  step_M H. pose proof (writebackBlk_thread _ _ _ _ _ Hs) as Ht.
  pose proof (writebackBlk_tags _ _ _ _ _ Hs) as (_ & _ & _ & HP1).
  apply bufferless_writebackBlk in Hs as [Q M].
  step_M H. injection H as _ <-. apply allocateWriteBuffer_waits in Hs as (F' & _ & K).
  - rewrite Ht in *. split; [done|]. intros wb Hw. apply K. unfold waits in *. by rewrite Q, M.
  - by rewrite HP1.
  - rewrite Ht. unfold free_once in *. by rewrite Q.
Qed.

(** A flush of a dirty block: its data wait in the write buffer of the thread. *)
Lemma flush_waits k p t s u s' b :
  is_split (cp_kind (cc_par s)) = true -> holds k s p b -> isValid b = true -> isDirty b = true -> free_once t s ->
  flush_blk p t s = Ok (u, s') ->
  exists wb, writes_back wb t (regenerateBlkAddr (cc_tags s) (blk_tag b) (blk_set b)) b /\ waits t wb s'.
Proof.
  intros Hk Hh Hv Hd F H. destruct (writebackBlk_spec k s p b t Hh Hv Hd) as (wb & s1 & HW & Hwb & _ & Q & P & _ & M).
  exists wb. split; [done|]. unfold flush_blk in H. rewrite (mbind_eq _ _ s b s) in H by (by apply blk_get_tags, Hh).
  step_M H. injection Hs as <- <-. rewrite Hd, Hv in H. cbn [andb when] in H.
  rewrite (mbind_eq _ _ _ _ _ HW) in H. step_M H. injection H as _ <-. pose proof (wb_tid _ _ _ _ Hwb) as Ht.
  apply allocateWriteBuffer_waits in Hs as (_ & W & _); rewrite ?Ht in *; [done | by rewrite P |].
  unfold free_once in *. by rewrite Q.
Qed.

(** Invalidating a block leaves nothing to find. *)
Lemma invalidate_resets ts p t ts' :
  LRU_invalidateBlk ts (Some p) t = Ok ts' ->
  exists b, ts_blks ts' !! p = Some b /\ isValid b = false.
Proof.
  cbn. intros H. apply bind_Ok in H as (b & _ & H). apply bind_Ok in H as (ts1 & _ & H).
  unfold ts_upd_blk in H. apply bind_Ok in H as (b1 & Hb1 & H). unfold ts_blk, blk_deref in Hb1.
  apply of_option_Ok in Hb1. injection H as <-. exists (reset_blk b1). split; [|done].
  cbn. apply list_lookup_insert_eq. by eapply lookup_lt_Some.
Qed.
