(* ===== verification/DynamicScrub.v ===== *)
(** What High's ways hold in a coarse-grained dynamic cache: never a block
    that Low filled.  Fills stamp their thread, and a way that Low gives up is
    flushed, invalidated and stamped before High can use it: of a block of Low's
    nothing is left there to find, and its dirty data wait in Low's write buffer. *)

From S2P Require Import Prelude Request MemCmd Packet PacketSpec Blk CacheSet IntMath TagTypes LRU PartLRU DynaLRU Tags TagsWf TagsNew Isolation TagsSpec Resize MSHR MSHRQueue PacketQueue CacheBase CacheAccess Cache CacheBus DynamicCache CacheSpec AccessSpec DynamicSpec CacheFrame DynamicFlow CacheLogic CacheRun FlushSpec.

(** * The invariant *)

(** High's sets hold no block stamped with thread 0. *)
Definition not_low (ix : Z * Z) (t : Z) : Prop := ix.1 = 1 -> t <> 0.

Record scrubbed (s : CState) : Prop := {
  r_wf : exists e, c_wf (cc_tags s) e;
  r_high : stamps_ok not_low (cc_tags s);
  r_kind : cp_kind (cc_par s) = KC_Dynamic
}.

Lemma not_low_fill e s t : not_low (set_ix (IsC_DYNALRU e) s t) (i32 t).
Proof. unfold not_low. cbn. intros ->. discriminate. Qed.

(** The invariant of the logic, with the places of a store. *)
Lemma scrub_start ts e s : c_wf ts e -> stamps_ok not_low ts ->
  cinv (ts_class ts) (ts_assoc ts) (place_of (ts_sets ts)) not_low (cc_par s) (with_cc_tags ts s).
Proof. intros C S. split; [|done]. apply store_inv_init; [apply C | exact S]. Qed.

Lemma scrub_end ts e s s' : c_wf ts e ->
  cinv (ts_class ts) (ts_assoc ts) (place_of (ts_sets ts)) not_low (cc_par s) s' ->
  (exists e', c_wf (cc_tags s') e') /\ stamps_ok not_low (cc_tags s') /\ cc_par s' = cc_par s.
Proof.
  intros C [I P]. split; [|split; [by eapply store_inv_stamps | exact P]].
  eapply (c_wf_inv _ _ _ C). destruct I as [W K A Pl F]. constructor; try done.
  intros p b Hb ix Hp. split; [by eapply F | done].
Qed.

Lemma scrubbed_step env op s u s' :
  op <> DynAdjust -> scrubbed s -> dyn_step env op s = Ok (u, s') -> scrubbed s'.
Proof.
  intros Ho [[e C] S K] H. pose proof (scrub_start _ _ s C S) as I.
  assert (with_cc_tags (cc_tags s) s = s) as E by (by destruct s). rewrite E in I.
  assert (forall a t, not_low (set_ix (ts_class (cc_tags s)) a t) (i32 t)) as HF
    by (intros; rewrite (c_class _ _ C); apply not_low_fill).
  destruct (safe_step _ _ _ _ HF _ env op Ho _ _ _ I H) as [I' _].
  destruct (scrub_end _ _ _ _ C I') as (C' & S' & P). constructor; [done | done | by rewrite P].
Qed.

(** * Growing Low *)

(** High loses a way of every set and gains none. *)
Lemma inc_size_high ts e ts' n :
  c_wf ts e -> stamps_ok not_low ts -> inc_size ts = Ok (ts', n) ->
  (exists e', c_wf ts' e') /\ stamps_ok not_low ts' /\ ts_blks ts' = ts_blks ts.
Proof.
  intros C S H. unfold inc_size in H. rewrite (c_class _ _ C) in H.
  destruct (decide (c_H_assoc e = c_H_min e)) as [Heq|Hne].
  { unfold C_DYNALRU_inc_size, get_ext in H. rewrite (c_class _ _ C), bind_Ok_l, (proj2 (Z.eqb_eq _ _) Heq) in H.
    inv_ok. eauto. }
  destruct (inc_size_spec _ _ C) as (ts1 & H1 & R); [pose proof (c_high _ _ C); lia|]. rewrite H in H1.
  injection H1 as <- _. split; [eexists; apply R|].
  assert (ts_blks ts' = ts_blks ts) as HB by (rewrite (z_rest _ _ _ _ _ R); done). split; [|done].
  intros [x i] cs p b Hg Hp Hb Hx. cbn in Hx. subst x. rewrite HB in Hb.
  destruct (decide (0 <= i < ts_numSets ts)) as [Hi|Hi].
  - destruct (c_halves _ _ i C Hi) as (c0 & c1 & G0 & G1 & _).
    destruct (z_sets _ _ _ _ _ R i c0 c1 Hi G0 G1) as [_ G]. rewrite Hg in G. injection G as ->.
    cbn in Hp. apply (S (1, i) c1 p b G1); [|done..].
    rewrite <- (take_drop (Z.to_nat (c_H_assoc e - 1))). apply elem_of_app. by left.
  - rewrite (z_other _ _ _ _ _ R 1 i) in Hg by lia. by eapply (S (1, i) cs p b).
Qed.

(** * Shrinking Low *)

(** What an action may do to the tag store when it works on one block: other
    blocks, other sets and the geometry stay as they are. *)
Definition only (p : BlkPtr) (ix : Z * Z) (a b : TagStore) : Prop :=
  (forall q, q <> p -> ts_blks b !! q = ts_blks a !! q) /\
  (forall ix', ix' <> ix -> sets_get (ts_sets b) ix' = sets_get (ts_sets a) ix') /\
  (forall tag set, regenerateBlkAddr b tag set = regenerateBlkAddr a tag set).

Lemma only_trans p ix a b c : only p ix a b -> only p ix b c -> only p ix a c.
Proof. intros (A1 & A2 & A3) (B1 & B2 & B3). split_and!; intros; [rewrite B1, A1 | rewrite B2, A2 | rewrite B3, A3]; done. Qed.

Lemma only_set_blk p ix ts b : only p ix ts (ts_set_blk ts p b).
Proof. split_and!; [|done..]. intros q Hq. cbn. by rewrite list_lookup_insert_ne. Qed.

Lemma only_refl p ix ts : only p ix ts ts.
Proof. done. Qed.

Lemma only_invalidate ts p b t ts' :
  ts_blks ts !! p = Some b -> LRU_invalidateBlk ts (Some p) t = Ok ts' ->
  only p (set_ix (ts_class ts) (blk_set b) t) ts ts'.
Proof.
  intros Hb H. cbn in H. unfold ts_blk, ts_upd_blk, ts_blk, blk_deref in H. rewrite Hb in H. cbn in H.
  inv_ok. eapply only_trans; [|apply only_set_blk]. destruct (isValid b); inv_ok; [|done].
  unfold occ_add in Hx1. inv_ok. unfold ts_moveToTail, put_set in Hx. inv_ok. split_and!.
  - intros q Hq. cbn. by rewrite list_lookup_insert_ne.
  - intros ix' Hne. cbn in *. by eapply sets_get_put_ne.
  - done.
Qed.

(** Actions that work on one block. *)
Definition works_on {A} (p : BlkPtr) (ix : Z * Z) (act : M A) : Prop :=
  forall s a s', act s = Ok (a, s') -> only p ix (cc_tags s) (cc_tags s').

Lemma works_bind {A B} p ix (x : M A) (f : A -> M B) :
  works_on p ix x -> (forall a, works_on p ix (f a)) -> works_on p ix (x ≫= f).
Proof.
  intros Hx Hf s b s' H. apply mbind_Ok in H as (a & s1 & H1 & H2).
  eapply only_trans; [by eapply Hx | by eapply Hf].
Qed.

Lemma works_tagless {A} p ix (x : M A) : tagless x -> works_on p ix x.
Proof. intros H s a s' Hs. destruct (H _ _ _ Hs) as [-> _]. apply only_refl. Qed.

Lemma works_put p ix b : works_on p ix (blk_put (InTags p) b).
Proof.
  intros s a s' H. cbn in H. unfold upd_tags in H. step_M H. unfold tags in Hs. apply lift_Ok in Hs as [Hs ->].
  injection Hs as <-. injection H as <- <-. apply only_set_blk.
Qed.

Lemma tagless_blk_get r : tagless (blk_get r).
Proof. destruct r; cbn; frame. Qed.
#[local] Hint Resolve tagless_blk_get : tagless.

Ltac work :=
  repeat first
    [ apply works_put
    | solve [apply works_tagless; frame]
    | match goal with |- works_on _ _ (_ ≫= _) => apply works_bind; [|intros ?] end
    | match goal with |- works_on _ _ (when ?b _) => destruct b; cbn [when] end ].

Lemma works_flush p t ix : works_on p ix (flush_blk p t).
Proof. unfold flush_blk, writebackBlk. work. Qed.

Lemma works_stamp p t ix : works_on p ix (blk_mod (InTags p) (with_blk_threadID t)).
Proof. unfold blk_mod. work. Qed.

(** The loop over the sets. *)
Lemma forM_zrange (P : Z -> CState -> Prop) (f : Z -> M unit) n : forall s s',
  (forall i s s', 0 <= i < Z.of_nat n -> P i s -> f i s = Ok (tt, s') -> P (i + 1) s') ->
  P 0 s -> forM (zrange (Z.of_nat n)) f s = Ok (tt, s') -> P (Z.of_nat n) s'.
Proof.
  intros s s' Hf H0 H.
  assert (forall l k s, P k s -> (forall i s s', k <= i < k + Z.of_nat l -> P i s -> f i s = Ok (tt, s') -> P (i + 1) s') ->
    forM (seqZ k (Z.of_nat l)) f s = Ok (tt, s') -> P (k + Z.of_nat l) s') as G.
  { clear. induction l as [|l IH]; intros k s Hk Hf H.
    - rewrite Z.add_0_r. cbn in H. by injection H as <-.
    - rewrite Nat2Z.inj_succ, seqZ_cons in H by lia. cbn [forM] in H. step_M H. destruct a.
      replace (Z.pred (Z.succ (Z.of_nat l))) with (Z.of_nat l) in H by lia.
      replace (k + Z.of_nat (S l)) with (Z.succ k + Z.of_nat l) by lia.
      eapply IH; [|intros i s0 s0' Hi; apply Hf; lia | exact H]. eapply (Hf k); [lia | done | exact Hs]. }
  apply (G n 0 s); [done | | exact H]. intros i s0 s0' Hi. apply Hf. lia.
Qed.

Section Shrink.

(** The store after the sizes changed, in the state before, of a split cache. *)
Context (ts0 : TagStore) (e0 : C_Ext) (s0 : CState) (C0 : c_wf ts0 e0) (K0 : is_split (cp_kind (cc_par s0)) = true).
Let place := place_of (ts_sets ts0).

Lemma run_class s : run_inv ts0 s0 s -> exists e, ts_class (cc_tags s) = IsC_DYNALRU e /\ c_H_assoc e = c_H_assoc e0.
Proof.
  intros [I _]. pose proof (ti_class _ _ _ _ _ I) as K. rewrite (c_class _ _ C0) in K.
  destruct (ts_class (cc_tags s)) as [| | | |e|]; try done. cbn in K. injection K as _ K _. eauto.
Qed.

(** A block in its place knows its set. *)
Lemma run_blk_set s p b x i :
  run_inv ts0 s0 s -> place p = Some (x, i) -> ts_blks (cc_tags s) !! p = Some b -> blk_set b = i.
Proof.
  intros [I _] Hp Hb. destruct (ti_fits _ _ _ _ _ I p b Hb (x, i) Hp) as [-> _]. by rewrite (c_class _ _ C0).
Qed.

Lemma evict_same s i :
  run_inv ts0 s0 s -> sets_get (ts_sets (cc_tags s)) (1, i) = sets_get (ts_sets ts0) (1, i) ->
  C_DYNALRU_get_evictBlk (cc_tags s) 1 i = C_DYNALRU_get_evictBlk ts0 1 i.
Proof.
  intros I Hs. destruct (run_class s I) as (e & Hk & HH). unfold C_DYNALRU_get_evictBlk, get_ext.
  rewrite Hk, (c_class _ _ C0), !bind_Ok_l. cbn. by rewrite Hs, HH.
Qed.

Lemma evict_place i p : C_DYNALRU_get_evictBlk ts0 1 i = Ok p -> place p = Some (1, i).
Proof.
  unfold C_DYNALRU_get_evictBlk, get_ext. rewrite (c_class _ _ C0), bind_Ok_l. cbn. intros H. inv_ok.
  apply (place_of_elem _ _ x); [apply C0 | done|]. apply arr_get_Ok in H as [_ H]. by eapply list_elem_of_lookup_2.
Qed.

Lemma waiting_scrub_way i : keeps_waiting 0 (scrub_way i).
Proof.
  unfold scrub_way. apply waiting_bind; [|intros op; apply waiting_bind; [|intros p; apply waiting_bind; [|intros b]]].
  - apply keeps_bufferless; [|by apply bufferless_get_evict]. intros s op s' H. unfold get_evict in H.
    step_M H. unfold tags in Hs. apply lift_Ok in Hs as [_ ->]. destruct a as [ts o]. step_M H.
    injection Hs as <- <-. by injection H as _ <-.
  - apply keeps_bufferless; [|unbuffered]. intros s q s' H. by apply lift_Ok in H as [_ ->].
  - apply keeps_bufferless; [|by apply bufferless_blk_get]. intros s c s' H. by apply (tagless_get (InTags p)) in H as [_ ->].
  - destruct (blk_threadID b =? 0); cbn [when].
    + apply waiting_bind; [apply keeps_flush|]. intros _. apply waiting_bind; [|intros _].
      * apply keeps_bufferless; [|by apply bufferless_invalidateBlk]. intros s u s' H. cbn in H. unfold upd_tags in H.
        step_M H. unfold tags in Hs. apply lift_Ok in Hs as [_ ->]. by injection H as _ <-.
      * apply keeps_bufferless; [|by apply bufferless_blk_mod]. intros s u s' H. unfold blk_mod in H. step_M H.
        apply (tagless_get (InTags p)) in Hs as [_ <-]. cbn in H. unfold upd_tags in H. step_M H.
        unfold tags in Hs. apply lift_Ok in Hs as [_ ->]. by injection H as _ <-.
    + apply keeps_bufferless; [|unbuffered]. intros s u s' H. by injection H as _ <-.
Qed.

(** What the scrub leaves of the block [b] of Low at [p] in [s1]: nothing to find in
    [s2], and its data, if they were dirty, in Low's write buffer. *)
Definition flushed_out (s1 s2 : CState) (p : BlkPtr) (b : CacheBlk) : Prop :=
  (forall b', ts_blks (cc_tags s2) !! p = Some b' -> isValid b' = false) /\
  (forall k, holds k s1 p b -> isValid b = true -> isDirty b = true -> free_once 0 s1 ->
     exists wb, writes_back wb 0 (regenerateBlkAddr (cc_tags s1) (blk_tag b) (blk_set b)) b /\ waits 0 wb s2).

(** One round: the moved way of set [i] is scrubbed, nothing else
    changes. *)
Lemma scrub_way_spec s i s' :
  run_inv ts0 s0 s -> sets_get (ts_sets (cc_tags s)) (1, i) = sets_get (ts_sets ts0) (1, i) ->
  scrub_way i s = Ok (tt, s') ->
  exists p, C_DYNALRU_get_evictBlk ts0 1 i = Ok p /\ only p (1, i) (cc_tags s) (cc_tags s') /\
    (forall b, ts_blks (cc_tags s') !! p = Some b -> blk_threadID b <> 0) /\
    (forall b, ts_blks (cc_tags s) !! p = Some b -> blk_threadID b = 0 -> flushed_out s s' p b).
Proof.
  intros I Hset H. unfold scrub_way in H. step_M H. destruct (run_class s I) as (e & Hk & _).
  apply get_evict_coarse in Hs as (-> & p & -> & Hp); [|by rewrite Hk]. rewrite (evict_same s i I Hset) in Hp.
  step_M H. injection Hs as <- <-. exists p. split; [done|]. pose proof (evict_place i p Hp) as Hpl.
  step_M H. cbn in Hs. unfold tags in Hs. apply lift_Ok in Hs as [Hb ->]. unfold ts_blk, blk_deref in Hb.
  inv_ok. rename a into b. destruct (Z.eqb_spec (blk_threadID b) 0) as [Ht|Ht]; cbn [when] in H.
  2: { injection H as <-. split; [apply only_refl|]. split; intros b' Hb'; congruence. }
  step_M H. assert (is_split (cp_kind (cc_par s)) = true) as Ks by (by rewrite (proj2 I)).
  assert (forall k, holds k s p b -> isValid b = true -> isDirty b = true -> free_once 0 s ->
    exists wb, writes_back wb 0 (regenerateBlkAddr (cc_tags s) (blk_tag b) (blk_set b)) b /\ waits 0 wb s1) as Hwaits
    by (intros k Hh Hv Hd F; by eapply flush_waits).
  pose proof (works_flush p 0 (1, i) _ _ _ Hs) as W1.
  destruct (safe_flush_blk _ _ _ _ _ p 0 _ _ _ I Hs) as [I1 _].
  step_M H. cbn [invalidateBlk] in Hs0. unfold upd_tags, tags in Hs0. step_M Hs0.
  apply lift_Ok in Hs1 as [Hs1 ->]. injection Hs0 as <- <-.
  assert (exists b1, ts_blks (cc_tags s1) !! p = Some b1) as [b1 Hb1].
  { cbn in Hs1. unfold ts_blk, blk_deref in Hs1. inv_ok. eauto. }
  destruct (run_class s1 I1) as (e1 & Hk1 & _).
  pose proof (invalidate_resets _ _ _ _ Hs1) as (b2 & Hb2 & Hv2).
  pose proof (only_invalidate _ _ _ _ _ Hb1 Hs1) as W2. rewrite Hk1, (run_blk_set s1 p b1 1 i I1 Hpl Hb1) in W2.
  cbn in W2. pose proof (works_stamp p 1 (1, i) _ _ _ H) as W3.
  pose proof (bufferless_blk_mod _ _ _ _ _ H) as [Q M]. split.
  - eapply only_trans; [exact W1|]. eapply only_trans; [exact W2 | exact W3].
  - unfold blk_mod in H. step_M H. cbn in Hs0. unfold tags in Hs0. apply lift_Ok in Hs0 as [Hg ->].
    unfold ts_blk, blk_deref in Hg. inv_ok. cbn in H. injection H as <-. cbn in Q, M |- *.
    match goal with Hg : ts_blks _ !! p = Some ?x |- _ => assert (x = b2) as -> by (cbn in Hg; congruence) end.
    assert (forall b', <[p:=with_blk_threadID 1 b2]> (ts_blks a1) !! p = Some b' -> b' = with_blk_threadID 1 b2) as Hin.
    { intros b' Hb'. rewrite list_lookup_insert_eq in Hb' by (by eapply lookup_lt_Some). by injection Hb' as <-. }
    split; [intros b' ->%Hin; done|]. intros b' Hb' _. assert (b' = b) as -> by congruence. split.
    + cbn. intros c ->%Hin. exact Hv2.
    + intros k Hh Hv Hd F. destruct (Hwaits k Hh Hv Hd F) as (wb & Hw & W). exists wb. split; [done|].
      unfold waits in *. cbn. exact W.
Qed.

(** The loop: the sets still to come are untouched, and in High's ways only
    their moved blocks may still be Low's. *)
Record scrub_inv (k : Z) (s : CState) : Prop := {
  si_run : run_inv ts0 s0 s;
  si_sets : forall j, k <= j < ts_numSets ts0 ->
    sets_get (ts_sets (cc_tags s)) (1, j) = sets_get (ts_sets ts0) (1, j);
  si_high : forall p b j, place p = Some (1, j) -> ts_blks (cc_tags s) !! p = Some b ->
    ~ (k <= j < ts_numSets ts0 /\ C_DYNALRU_get_evictBlk ts0 1 j = Ok p) -> blk_threadID b <> 0;
  si_regen : forall tag set, regenerateBlkAddr (cc_tags s) tag set = regenerateBlkAddr ts0 tag set;
  si_same : forall p, (forall j, 0 <= j < k -> C_DYNALRU_get_evictBlk ts0 1 j <> Ok p) ->
    ts_blks (cc_tags s) !! p = ts_blks ts0 !! p;
  si_free : free_once 0 s0 -> free_once 0 s;
  si_moved : forall j p b, 0 <= j < k -> C_DYNALRU_get_evictBlk ts0 1 j = Ok p -> ts_blks ts0 !! p = Some b ->
    blk_threadID b = 0 -> flushed_out (with_cc_tags ts0 s0) s p b
}.

Lemma scrub_inv_step i s s' :
  0 <= i < ts_numSets ts0 -> scrub_inv i s -> scrub_way i s = Ok (tt, s') -> scrub_inv (i + 1) s'.
Proof.
  intros Hi [I HS HH HR HE HF HM] H.
  assert (is_split (cp_kind (cc_par s)) = true) as Ks by (by rewrite (proj2 I)).
  destruct (waiting_scrub_way i _ _ _ Ks H) as [_ HW].
  destruct (scrub_way_spec s i s' I (HS i ltac:(lia)) H) as (p & Hp & (O1 & O2 & O3) & Hc & Hout).
  assert (forall j q, C_DYNALRU_get_evictBlk ts0 1 j = Ok q -> j <> i -> q <> p) as Hdiff.
  { intros j q Hq Hj ->. apply evict_place in Hq, Hp. congruence. }
  constructor.
  - by eapply (safe_scrub_way _ _ _ _ _ any_any).
  - intros j Hj. rewrite O2 by (intros [=]; lia). apply HS. lia.
  - intros q b j Hq Hb Hn. destruct (decide (q = p)) as [->|Hne]; [by apply Hc|].
    rewrite O1 in Hb by done. apply (HH q b j Hq Hb). intros [Hj Hev]. apply Hn. split; [|done].
    assert (j <> i) by (intros ->; congruence). lia.
  - intros tag set. by rewrite O3.
  - intros q Hq. rewrite O1; [apply HE; intros j Hj; apply Hq; lia|]. intros ->. by apply (Hq i); [lia|].
  - intros F. by apply HW, HF.
  - intros j q b Hj Hq Hb Ht. destruct (decide (j = i)) as [->|Hne].
    + assert (q = p) as -> by congruence.
      assert (ts_blks (cc_tags s) !! p = Some b) as Hbs.
      { rewrite HE; [done|]. intros j Hj' Hev. by apply (Hdiff j p Hev); [lia|]. }
      destruct (Hout b Hbs Ht) as [V W]. split; [done|]. intros k [Hk Hs _ Hl] Hv Hd F. cbn in Hs.
      destruct (W k) as (wb & Hw & Hwait); [|done|done|by apply HF|].
      * split; try done. by rewrite (proj2 I).
      * rewrite HR in Hw. exists wb. done.
    + pose proof (Hdiff j q Hq Hne) as Hqp. destruct (HM j q b ltac:(lia) Hq Hb Ht) as [V W].
      split; [intros b' Hb'; rewrite O1 in Hb' by done; by apply V|]. intros k Hh Hv Hd F.
      destruct (W k Hh Hv Hd F) as (wb & Hw & Hwait). exists wb. split; [done|]. by apply HW; [apply HF|].
Qed.

Lemma scrub_inv_end s : scrub_inv (ts_numSets ts0) s -> stamps_ok not_low (cc_tags s) /\ cc_par s = cc_par s0.
Proof.
  intros [[I P] _ HH _ _ _ _]. split; [|done]. intros [x j] cs p b Hg Hp Hb Hx. cbn in Hx. subst x.
  apply (HH p b j); [|done | lia]. by eapply (ti_place _ _ _ _ _ I).
Qed.
End Shrink.

(** What Low had in a way that is High's afterwards is flushed out. *)
Definition gave_up (s s' : CState) : Prop :=
  forall i cs p b, sets_get (ts_sets (cc_tags s')) (1, i) = Ok cs -> p ∈ cs_blks cs ->
    ts_blks (cc_tags s) !! p = Some b -> blk_threadID b = 0 -> flushed_out s s' p b.

(** After [dec_size], the blocks of High's ways are High's but for the one
    moved way of every set. *)
Lemma dec_size_high ts e ts' n s :
  c_wf ts e -> stamps_ok not_low ts -> 1 < c_L_assoc e -> dec_size ts = Ok (ts', n) ->
  exists e', c_wf ts' e' /\ n = ts_numSets ts' /\ scrub_inv ts' s 0 (with_cc_tags ts' s) /\
    ts_blks ts' = ts_blks ts /\ forall tag set, regenerateBlkAddr ts' tag set = regenerateBlkAddr ts tag set.
Proof.
  intros C S HL H. unfold dec_size in H. rewrite (c_class _ _ C) in H.
  destruct (dec_size_spec _ _ C HL) as (ts1 & H1 & R). rewrite H in H1. injection H1 as <- ->.
  pose proof (z_wf _ _ _ _ _ R) as C'. eexists. split; [exact C'|].
  pose proof (z_rest _ _ _ _ _ R) as HR.
  assert (ts_blks ts' = ts_blks ts /\ ts_numSets ts' = ts_numSets ts) as [HB HN] by (by rewrite HR).
  split; [done|]. split; [|split; [done|]; intros; by rewrite HR].
  constructor; [by apply run_inv_start, c_wf_ok with (1 := C') | done| |done..|intros; lia].
  intros p b j Hp Hb Hn. cbn in Hb. rewrite HB in Hb. apply place_of_holds in Hp as (cs & Hg & Hin).
  destruct (decide (0 <= j < ts_numSets ts)) as [Hj|Hj].
  - destruct (c_halves _ _ j C Hj) as (c0 & c1 & G0 & G1 & _ & L0 & _ & L1).
    destruct (z_sets _ _ _ _ _ R j c0 c1 Hj G0 G1) as [_ G]. rewrite Hg in G. injection G as ->. cbn in Hin.
    apply elem_of_app in Hin as [Hin|Hin]; [by apply (S (1, j) c1 p b G1)|]. destruct Hn. split; [lia|].
    unfold C_DYNALRU_get_evictBlk, get_ext. rewrite (c_class _ _ C'), bind_Ok_l. cbn. rewrite Hg, bind_Ok_l. cbn.
    pose proof (c_bound _ _ C). pose proof (c_total _ _ C). rewrite u32_small by lia. apply arr_get_Ok. split.
    + lia.
    + rewrite lookup_app_r by lia. replace (Z.to_nat _ - _)%nat with 0%nat by lia.
      assert (length (drop (Z.to_nat (c_L_assoc e - 1)) (cs_blks c0)) = 1%nat) as L by (rewrite length_drop; lia).
      destruct (drop _ _) as [|q [|]]; cbn in L; try lia. cbn in *. by apply list_elem_of_singleton in Hin as ->.
  - rewrite (z_other _ _ _ _ _ R 1 j) in Hg by lia. by eapply (S (1, j) cs p b).
Qed.

Lemma scrubbed_inc s u s' : scrubbed s -> C_DynamicCache_inc_size s = Ok (u, s') -> scrubbed s' /\ gave_up s s'.
Proof.
  intros [[e C] S K] H. unfold C_DynamicCache_inc_size in H. step_M H. unfold tags in Hs.
  apply lift_Ok in Hs as [Hs ->]. destruct a as [ts n]. step_M H. injection Hs0 as <- <-.
  destruct (inc_size_high _ _ _ _ C S Hs) as ([e' C'] & S' & HB).
  assert (coarse (ts_class ts) = true) as Hk by (by rewrite (c_class _ _ C')).
  destruct (safe_inc_loop _ _ _ _ _ n (fun t i => safe_get_evict _ _ _ _ _ t i Hk) _ _ _ (scrub_start _ _ s C' S') H)
    as [I _].
  destruct (scrub_end _ _ _ _ C' I) as (C1 & S1 & P). split; [constructor; [done | done | by rewrite P]|].
  intros i cs p b Hg Hp Hb Ht. exfalso. pose proof (ti_place _ _ _ _ _ (proj1 I) _ _ _ Hg Hp) as Hpl.
  apply place_of_holds in Hpl as (cs0 & Hg0 & Hp0). rewrite <- HB in Hb. by apply (S' (1, i) cs0 p b Hg0 Hp0 Hb).
Qed.

(** The blocks that end up with High: those of the ways that moved. *)
Lemma moved_ways ts0 e0 s0 s p b i cs :
  c_wf ts0 e0 -> is_split (cp_kind (cc_par s0)) = true -> scrub_inv ts0 s0 0 (with_cc_tags ts0 s0) ->
  scrub_inv ts0 s0 (ts_numSets ts0) s -> sets_get (ts_sets (cc_tags s)) (1, i) = Ok cs -> p ∈ cs_blks cs ->
  ts_blks ts0 !! p = Some b -> blk_threadID b = 0 -> flushed_out (with_cc_tags ts0 s0) s p b.
Proof.
  intros C K I0 [[I P] _ _ _ _ _ HM] Hg Hp Hb Ht. pose proof (ti_place _ _ _ _ _ I _ _ _ Hg Hp) as Hpl.
  destruct (decide (0 <= i < ts_numSets ts0)) as [Hi|Hi].
  - assert (C_DYNALRU_get_evictBlk ts0 1 i = Ok p \/ C_DYNALRU_get_evictBlk ts0 1 i <> Ok p) as [Hq|Hq]
      by (destruct (C_DYNALRU_get_evictBlk ts0 1 i) as [q|]; [destruct (decide (q = p)); naive_solver | by right]).
    + by eapply HM.
    + exfalso. by apply (si_high _ _ _ _ I0 p b i Hpl Hb); [intros []|].
  - exfalso. apply (si_high _ _ _ _ I0 p b i Hpl Hb); [lia | done].
Qed.

Lemma scrubbed_dec s u s' : scrubbed s -> C_DynamicCache_dec_size s = Ok (u, s') -> scrubbed s' /\ gave_up s s'.
Proof.
  intros [[e C] S K] H. destruct (C_dec_size_ok _ _ _ _ C H) as [C1 P1].
  unfold C_DynamicCache_dec_size in H. step_M H. unfold tags in Hs.
  apply lift_Ok in Hs as [Hs ->]. destruct a as [ts n]. step_M H. injection Hs0 as <- <-.
  destruct (decide (c_L_assoc e = 1)) as [Heq|Hne].
  { unfold dec_size, C_DYNALRU_dec_size, get_ext in Hs. rewrite !(c_class _ _ C), bind_Ok_l, (proj2 (Z.eqb_eq _ _) Heq) in Hs.
    injection Hs as <- <-. change (zrange 0) with (@nil Z) in H. cbn in H. injection H as <- <-.
    split; [constructor; [exact C1 | exact S | exact K]|].
    intros i cs p b Hg Hp Hb Ht. by destruct (S (1, i) cs p b Hg Hp Hb eq_refl). }
  destruct (dec_size_high _ _ _ _ s C S ltac:(pose proof (c_low _ _ C); lia) Hs) as (e' & C' & -> & I & HB & HR).
  assert (is_split (cp_kind (cc_par s)) = true) as Ks by (by rewrite K).
  pose proof (numSets_pos _ (c_ts _ _ C')). destruct u.
  rewrite <- (Z2Nat.id (ts_numSets ts)) in H by lia.
  assert (scrub_inv ts s (Z.of_nat (Z.to_nat (ts_numSets ts))) s') as I'.
  { eapply (forM_zrange (scrub_inv ts s)); [|exact I | exact H]. intros i s1 s2 Hi. eapply scrub_inv_step; [done | done | lia]. }
  rewrite Z2Nat.id in I' by lia. destruct (scrub_inv_end _ _ _ I') as [S' P].
  split; [constructor; [exact C1 | exact S' | by rewrite P1]|].
  intros i cs p b Hg Hp Hb Ht. rewrite <- HB in Hb.
  destruct (moved_ways ts e' s s' p b i cs C' Ks I I' Hg Hp Hb Ht) as [V W]. split; [done|].
  intros k [? ? _ ?] Hv Hd F. destruct (W k) as (wb & Hw & Hwait); try done.
  cbn in Hw. rewrite HR in Hw. eauto.
Qed.

Lemma scrubbed_adjust s u s' :
  scrubbed s -> C_DynamicCache_adjustPartition s = Ok (u, s') -> scrubbed s' /\ gave_up s s'.
Proof.
  intros R H. destruct (r_wf _ R) as [e C]. destruct (C_adjust_ok _ _ _ _ C H) as [C1 P1].
  unfold C_DynamicCache_adjustPartition in H.
  step_M H. unfold tags in Hs. apply lift_Ok in Hs as [_ ->]. step_M H. injection Hs as <- <-.
  step_M H. injection Hs as <- <-. step_M H. unfold tags in Hs. apply lift_Ok in Hs as [_ ->].
  destruct a0 as [Uinc Udec]. step_M H. assert (scrubbed s1 /\ gave_up s s1) as [R1 G1].
  { destruct ((0 <? Uinc) && (Udec <=? Uinc)); [by eapply scrubbed_inc|].
    destruct ((0 <? Udec) && (Uinc <=? Udec)); cbn [when] in Hs; [by eapply scrubbed_dec|]. injection Hs as <- <-.
    split; [done|]. intros i cs p b Hg Hp Hb Ht. by destruct (r_high _ R (1, i) cs p b Hg Hp Hb eq_refl). }
  step_M H. unfold upd_tags, tags in Hs0. step_M Hs0. apply lift_Ok in Hs1 as [Hs1 ->]. injection Hs0 as <- <-.
  assert (tagless reschedule_adjust) as T by (unfold reschedule_adjust; frame).
  pose proof (bufferless_reschedule _ _ _ H) as [Q M]. apply T in H as [HT HP].
  destruct (r_wf _ R1) as [e1 D1]. unfold reset_umon in Hs1. rewrite (c_class _ _ D1) in Hs1.
  unfold C_DYNALRU_reset_umon, get_ext in Hs1. rewrite (c_class _ _ D1) in Hs1. inv_ok. split.
  - constructor; [exact C1 | | rewrite P1; apply R]. rewrite HT. exact (r_high _ R1).
  - intros i cs p b Hg Hp Hb Ht. rewrite HT in Hg. destruct (G1 i cs p b Hg Hp Hb Ht) as [V W]. split.
    + rewrite HT. exact V.
    + intros k Hh Hv Hd F. destruct (W k Hh Hv Hd F) as (wb & Hw & Hwait). exists wb. split; [done|].
      unfold waits. rewrite Q, M. exact Hwait.
Qed.

Lemma scrubbed_dyn env op s u s' :
  scrubbed s -> dyn_step env op s = Ok (u, s') -> scrubbed s' /\ (op = DynAdjust -> gave_up s s').
Proof.
  intros R H. assert (op = DynAdjust \/ op <> DynAdjust) as [->|Ho] by (destruct op; (by left) || (by right));
    [|split; [by eapply scrubbed_step | done]].
  cbn [dyn_step] in H. unfold adjustPartition in H. step_M H. injection Hs as <- <-. rewrite (r_kind _ R) in H.
  apply scrubbed_adjust in H as [R' G]; [|done]. done.
Qed.

Lemma scrubbed_run env ops : forall s evs s', scrubbed s -> dyn_run env ops s = Ok (evs, s') -> scrubbed s'.
Proof.
  induction ops as [|op ops IH]; intros s evs s' R H; cbn [dyn_run] in H; inv_ok; [done|].
  eapply IH; [|exact Hx0]. by eapply scrubbed_dyn.
Qed.

Lemma dyn_run_app env ops1 ops2 : forall s evs s',
  dyn_run env (ops1 ++ ops2) s = Ok (evs, s') ->
  exists evs1 s1 evs2, dyn_run env ops1 s = Ok (evs1, s1) /\ dyn_run env ops2 s1 = Ok (evs2, s').
Proof.
  induction ops1 as [|op ops1 IH]; intros s evs s' H; [by exists [], s, evs|]. cbn [app dyn_run] in H |- *.
  apply bind_Ok in H as ([u s1] & E1 & H). apply bind_Ok in H as ([evs1 s2] & E2 & H). injection H as _ ->.
  destruct (IH _ _ _ E2) as (l1 & s3 & l2 & E3 & E4). rewrite E1, bind_Ok_l, E3, bind_Ok_l. eauto.
Qed.

(** C3. High never finds what Low filled, and nothing of it is lost.  In a
    coarse-grained dynamic cache whose High ways hold no block stamped with Low's
    thread, as they are built, any sequence of operations in any environment,
    resizes in both directions included, leads to a well-formed cache in which a
    lookup of High's thread, at any address, finds no block stamped with Low's.  And
    at every adjustment of the sequence, each block that Low filled and that lies in
    a way of High's afterwards has been flushed out: it is invalid, and if it was
    valid and dirty a write-back of its data to its address waits in a register of
    Low's write buffer (given that this buffer's free list names no register
    twice, which its invariant says). *)
Theorem high_finds_no_low_block env ops s evs s' e :
  c_wf (cc_tags s) e -> cp_kind (cc_par s) = KC_Dynamic -> stamps_ok not_low (cc_tags s) ->
  dyn_run env ops s = Ok (evs, s') ->
  (exists e', c_wf (cc_tags s') e') /\
  (forall addr p b, findBlock (cc_tags s') addr 1 = Ok (Some p) -> ts_blks (cc_tags s') !! p = Some b ->
     blk_threadID b <> 0) /\
  (forall ops1 ops2, ops = ops1 ++ DynAdjust :: ops2 ->
     exists evs1 s1 s2, dyn_run env ops1 s = Ok (evs1, s1) /\ dyn_step env DynAdjust s1 = Ok (tt, s2) /\ gave_up s1 s2).
Proof.
  intros C K S H. pose proof (Build_scrubbed s (ex_intro _ e C) S K) as R0.
  destruct (scrubbed_run env ops s evs s' R0 H) as [[e' C'] S' _].
  split; [eauto|]. split.
  - intros addr p b Hf Hb. unfold findBlock in Hf. rewrite (c_class _ _ C') in Hf.
    unfold LRU_findBlock in Hf. inv_ok. pose proof (findBlk_elem _ _ _ _ _ _ (c_ts _ _ C') Hx Hf) as Hin.
    unfold get_set in Hx. rewrite (c_class _ _ C') in Hx. by apply (S' _ x p b Hx).
  - intros ops1 ops2 ->. apply dyn_run_app in H as (evs1 & s1 & evs2 & H1 & H2). cbn [dyn_run] in H2.
    apply bind_Ok in H2 as ([[] s2] & E & _). exists evs1, s1, s2. split; [done|]. split; [done|].
    pose proof (scrubbed_run env ops1 s evs1 s1 R0 H1) as R1. by eapply scrubbed_dyn.
Qed.

(** Low filled its two ways of set 0, both dirty; the curve makes it give
    up a way. *)
Definition low_tags : TagStore :=
  match tag_run coarse_store
          [OpFill 0x40 0 0 0 (fun b => blk_or BlkDirty (fill_valid b));
           OpFill 0x80 0 0 1 (fun b => blk_or BlkDirty (fill_valid b))] with
  | Ok (ts, _) => ts
  | Err _ => coarse_store
  end.
Definition shrink_params : CacheParams :=
  mkCacheParams KC_Dynamic 2 4 2 8 false true 8 false false false 100 4 [9; 5; 3; 2; 1].
Definition shrink_cache : CState := Cache_new shrink_params low_tags (mkShared flow_reqs 0x1000 ∅ []) 0 8 8 0.
Definition shrink_end : CState :=
  match dyn_run (mute_env true) [DynAdjust] shrink_cache with Ok (_, s) => s | Err _ => shrink_cache end.

(** The check of High's stamps, by evaluation. *)
Definition high_check (ts : TagStore) : bool :=
  forallb (fun cs => forallb (fun p => match ts_blks ts !! p with
                                       | Some b => negb (blk_threadID b =? 0)
                                       | None => true
                                       end) (cs_blks cs))
    (match ts_sets ts !! 1%nat with Some row => row | None => [] end).

Lemma high_check_ok ts : high_check ts = true -> stamps_ok not_low ts.
Proof.
  intros H [x i] cs p b Hg Hp Hb Hx. cbn in Hx. subst x. apply sets_get_Ok in Hg as (_ & _ & row & Hr & Hc).
  unfold high_check in H. change (Z.to_nat 1) with 1%nat in Hr. rewrite Hr in H. rewrite forallb_forall in H.
  apply list_elem_of_lookup_2, list_elem_of_In in Hc. apply H in Hc. rewrite forallb_forall in Hc.
  apply list_elem_of_In, Hc in Hp. rewrite Hb in Hp. by apply negb_true_iff, Z.eqb_neq in Hp.
Qed.

Definition low_ext : C_Ext := match ts_class low_tags with IsC_DYNALRU e => e | _ => coarse_ext end.

Lemma low_tags_wf : c_wf low_tags low_ext.
Proof.
  constructor; [|vm_compute; repeat split; congruence..].
  unfold low_tags. destruct (tag_run coarse_store _) as [[ts tr]|] eqn:H; [|apply coarse_store_wf].
  eapply tag_run_inv; [| apply coarse_store_wf | exact H]. vm_compute. exact I.
Qed.

Lemma shrink_run : dyn_run (mute_env true) [DynAdjust] shrink_cache = Ok ([Adjust], shrink_end).
Proof.
  assert (match dyn_run (mute_env true) [DynAdjust] shrink_cache with Ok (evs, _) => Some evs | Err _ => None end
          = Some [Adjust]) as H by (vm_compute; reflexivity).
  unfold shrink_end. destruct (dyn_run (mute_env true) [DynAdjust] shrink_cache) as [[evs s]|e].
  - injection H as ->. reflexivity.
  - discriminate H.
Qed.

(** High now has three ways of the set, and still does not find Low's block; the
    block of the moved way, number 1, waits to be written back to 0x40. *)
Definition moved_block : CacheBlk := match ts_blks low_tags !! 1%nat with Some b => b | None => CacheBlk_new end.

Lemma shrink_facts :
  match dyn_step (mute_env true) DynAdjust shrink_cache with
  | Ok (_, s) => match sets_get (ts_sets (cc_tags s)) (1, 0) with
                 | Ok cs => bool_decide (1%nat ∈ cs_blks cs)
                 | Err _ => false
                 end
  | Err _ => false
  end = true /\
  match arr_get (cc_queues shrink_cache) 3 with Ok q => bool_decide (NoDup (mq_freeList q)) | Err _ => false end = true /\
  ts_blks low_tags !! 1%nat = Some moved_block /\ holds 2 (with_cc_tags low_tags shrink_cache) 1 moved_block /\
  blk_threadID moved_block = 0 /\ isValid moved_block = true /\ isDirty moved_block = true /\
  regenerateBlkAddr low_tags (blk_tag moved_block) (blk_set moved_block) = 0x40.
Proof. split_and!; try (vm_compute; reflexivity). split; [lia | vm_compute; reflexivity..]. Qed.

Lemma high_finds_no_low_block_witness :
  partition_sizes (decider shrink_end) = Some (1, 3) /\
  (forall p b, findBlock (cc_tags shrink_end) 0x40 1 = Ok (Some p) -> ts_blks (cc_tags shrink_end) !! p = Some b ->
    blk_threadID b <> 0) /\
  exists s2 wb, dyn_step (mute_env true) DynAdjust shrink_cache = Ok (tt, s2) /\ writes_back wb 0 0x40 moved_block /\
    waits 0 wb s2.
Proof.
  assert (cc_tags shrink_cache = low_tags) as E by apply Cache_new_tags.
  destruct (high_finds_no_low_block (mute_env true) [DynAdjust] shrink_cache [Adjust] shrink_end low_ext) as (_ & F & G).
  - rewrite E. exact low_tags_wf.
  - vm_compute. reflexivity.
  - rewrite E. apply high_check_ok. vm_compute. reflexivity.
  - exact shrink_run.
  - split; [vm_compute; reflexivity|]. split; [intros p b; apply F|].
    destruct (G [] [] eq_refl) as (evs1 & s1 & s2 & H1 & H2 & Hout). cbn [dyn_run] in H1. injection H1 as _ <-.
    destruct shrink_facts as (C1 & C2 & Hb & Hh & Ht & Hv & Hd & Ha). rewrite H2 in C1.
    destruct (sets_get (ts_sets (cc_tags s2)) (1, 0)) as [cs|] eqn:Hg; [|discriminate C1].
    apply bool_decide_eq_true in C1. rewrite <- E in Hb, Ha.
    destruct (arr_get (cc_queues shrink_cache) 3) as [q|] eqn:Hq; [|discriminate C2]. apply bool_decide_eq_true in C2.
    destruct (Hout 0 cs 1%nat moved_block Hg C1 Hb Ht) as [_ W].
    destruct (W 2) as (wb & Hw & Hwait); [|exact Hv | exact Hd | exists q; change (3 + 2 * 0) with 3; split; [exact Hq | exact C2] |].
    + destruct Hh as [A B _ D]. split; [exact A | exact B | exact Hb | exact D].
    + rewrite Ha in Hw. exists s2, wb. split; [exact H2|]. split; [exact Hw | exact Hwait].
Defined.
