(* ===== verification/SnoopSpec.v ===== *)
(** What a cache does with a snoop: a modified block is supplied, and
    downgraded or invalidated. *)

From S2P Require Import Prelude Request MemCmd Packet PacketSpec Blk CacheSet IntMath TagTypes LRU PartLRU DynaLRU Tags TagsWf TagsNew Isolation TagsSpec MSHR MSHRQueue PacketQueue CacheBase CacheAccess Cache CacheBus CacheSpec AccessSpec.

(** * Flags bit by bit *)

Lemma isSet_bit f i : 0 <= i -> Flags_isSet f (2 ^ i) = Z.testbit f i.
Proof. intros Hi. unfold Flags_isSet. by apply land_pow2_testbit. Qed.

Lemma copy_flags p t : pkt_flags (Packet_copy p false t) = Z.land (pkt_flags p) 0x130F.
Proof.
  cbn. unfold Flags_set. rewrite Z.lor_0_l, <- !Z.land_lor_distr_r. f_equal.
Qed.

Lemma getAddr_bit p a : getAddr p = Ok a <-> Z.testbit (pkt_flags p) 8 = true /\ pkt_addr p = a.
Proof.
  unfold getAddr, pkt_test. rewrite (isSet_bit _ 8) by lia. destruct (Z.testbit _ 8); cbn; naive_solver.
Qed.
Lemma getSize_bit p n : getSize p = Ok n <-> Z.testbit (pkt_flags p) 9 = true /\ pkt_size p = n.
Proof.
  unfold getSize, pkt_test. rewrite (isSet_bit _ 9) by lia. destruct (Z.testbit _ 9); cbn; naive_solver.
Qed.

(** [bits H] computes a bit of flags built from flags whose bit is known
    by [H]. *)
Ltac bits H := rewrite ?Z.ldiff_spec, ?Z.lor_spec, ?Z.land_spec, ?H by lia; reflexivity.

(** A snoop carries no data of its own. *)
Record bare_request (pkt : Packet) (a n : Z) : Prop := {
  br_addr : getAddr pkt = Ok a;
  br_size : getSize pkt = Ok n;
  br_pos : 0 <= a;
  br_static : Z.testbit (pkt_flags pkt) 12 = false;
  br_cmd : pkt_cmd pkt = ReadReq \/ pkt_cmd pkt = ReadExReq
}.

(** The response to a read snoop: a copy of the request, turned around,
    with the bytes of the block. *)
Lemma supply_packet k base blk pkt a n t :
  0 <= k -> Z.of_nat (length blk) = 2 ^ k -> bare_request pkt a n -> in_block k base a n -> 0 < n ->
  let cp := Packet_copy pkt false t in
  exists p1 p2 p3, allocate cp = Ok p1 /\ makeTimingResponse p1 = Ok p2 /\ isRead p2 = true /\
    setDataFromBlock blk (2 ^ k) p2 = Ok p3 /\
    pkt_cmd p3 = responseCommand (pkt_cmd pkt) /\
    pkt_data p3 = Some (take (Z.to_nat n) (drop (Z.to_nat (a - base)) blk)) /\
    isExpressSnoop p3 = false.
Proof.
  intros Hk Hl [Ha Hn Hap Hst Hc] HB Hpos cp. apply getAddr_bit in Ha as [Fa Ea]. apply getSize_bit in Hn as [Fn En].
  pose proof (copy_flags pkt t) as HF. fold cp in HF.
  assert (pkt_data cp = None) as Hd.
  { cbn. unfold pkt_test. by rewrite (isSet_bit _ 12), Hst by lia. }
  assert (getSize cp = Ok n) as Hsz by (apply getSize_bit; rewrite HF; split; [bits Fn | exact En]).
  assert (allocate cp = Ok (pkt_set 0x6000 (with_pkt_data (Some (replicate (Z.to_nat n) 0)) cp))) as HA.
  { unfold allocate. rewrite Hd, Hsz, bind_Ok_l. unfold Flags_noneSet. rewrite cassert_true; [done|].
    rewrite HF, <- Z.land_assoc. change (Z.land 0x130F _) with (2 ^ 12).
    pose proof (land_pow2_testbit (pkt_flags pkt) 12) as H. rewrite Hst in H.
    apply negb_false_iff. by apply H. }
  set (p1 := pkt_set 0x6000 _) in HA.
  assert (exists p2, makeTimingResponse p1 = Ok p2 /\ pkt_cmd p2 = responseCommand (pkt_cmd pkt) /\
            pkt_flags p2 = Z.ldiff (Z.lor (Z.land (pkt_flags pkt) 0x130F) 0x6000) 2 /\
            pkt_data p2 = Some (replicate (Z.to_nat n) 0) /\ pkt_addr p2 = a /\ pkt_size p2 = n)
    as (p2 & HM & Hc2 & HF2 & HD2 & HA2 & HS2).
  { unfold makeTimingResponse, makeResponse. rewrite !cassert_true by (destruct Hc as [Hc|Hc];
      unfold isRequest, needsResponse; cbn; rewrite Hc; reflexivity).
    eexists. split; [reflexivity|]. cbn -[Packet_copy]. rewrite <- HF. by split_and!. }
  assert (carries p2 a n (replicate (Z.to_nat n) 0)) as CA.
  { constructor; [apply getAddr_bit | apply getSize_bit | | rewrite length_replicate; lia | lia].
    - rewrite HF2. split; [bits Fa | done].
    - rewrite HF2. split; [bits Fn | done].
    - unfold getPtr. rewrite HD2, cassert_true; [done|]. unfold pkt_test, Flags_isSet. rewrite HF2.
      apply negb_true_iff, Z.eqb_neq. intros H. apply (f_equal (fun z => Z.testbit z 13)) in H. revert H.
      rewrite Z.land_spec, Z.ldiff_spec, Z.lor_spec, orb_true_r. discriminate. }
  destruct HB as (HB0 & HB1 & HB2).
  assert (memcpy (replicate (Z.to_nat n) 0) 0 blk (a - base) n =
          Ok (take (Z.to_nat n) (drop (Z.to_nat (a - base)) blk))) as HC.
  { unfold memcpy. rewrite decide_True by (rewrite length_replicate; lia).
    rewrite (drop_ge (replicate _ _)) by (rewrite length_replicate; lia).
    change (Z.to_nat 0) with 0%nat. by rewrite take_0, app_nil_r. }
  exists p1, p2, (with_pkt_data (Some (take (Z.to_nat n) (drop (Z.to_nat (a - base)) blk))) p2).
  split_and!; [done | done | | | done | done |].
  - unfold isRead. rewrite Hc2. by destruct Hc as [-> | ->].
  - by rewrite (setDataFromBlock_eq k base blk p2 a n _ Hk CA), HC by done.
  - unfold isExpressSnoop, pkt_test. cbn [pkt_flags with_pkt_data]. rewrite (isSet_bit _ 1), HF2 by lia.
    rewrite Z.ldiff_spec. apply andb_false_r.
Qed.

Lemma bare_set m pkt a n :
  Z.testbit m 12 = false -> bare_request pkt a n -> bare_request (pkt_set m pkt) a n.
Proof.
  intros Hm [Ha Hn Hp Hs Hc]. apply getAddr_bit in Ha as [Fa Ea]. apply getSize_bit in Hn as [Fn En].
  constructor; [apply getAddr_bit | apply getSize_bit | done | | done]; cbn [pkt_flags pkt_set with_pkt_flags];
    unfold Flags_set; rewrite Z.lor_spec, ?Fa, ?Fn, ?Hs; done.
Qed.

(** The memory-side queue can take a packet now. *)
Definition mem_ready (s : CState) : Prop :=
  pq_inv (cc_now s) (cc_mem_queue s) /\ 0 <= cp_hitLatency (cc_par s) /\
  cc_now s + cp_hitLatency (cc_par s) < MaxTick.

(** A response that carries the bytes of a block is due on the memory side. *)
Definition supplied (s s' : CState) (pkt : Packet) (data : list Z) (off n : Z) : Prop :=
  exists resp,
    pq_transmitList (cc_mem_queue s') =
      insert_deferred (mkDeferredPacket (cc_now s + cp_hitLatency (cc_par s)) resp true)
        (pq_transmitList (cc_mem_queue s)) /\
    pkt_cmd resp = responseCommand (pkt_cmd pkt) /\
    pkt_data resp = Some (take (Z.to_nat n) (drop (Z.to_nat off) data)).

Lemma doTimingSupply_spec k base s data pkt a n :
  0 <= k -> cp_blkSize (cc_par s) = 2 ^ k -> Z.of_nat (length data) = 2 ^ k -> mem_ready s ->
  bare_request pkt a n -> in_block k base a n -> 0 < n ->
  isInvalidate pkt = true \/ sharedAsserted pkt = true ->
  exists q, doTimingSupplyResponse pkt data false false s = Ok (tt, with_cc_mem_queue q s) /\
    supplied s (with_cc_mem_queue q s) pkt data (a - base) n.
Proof.
  intros Hk Hbs Hl (Hq & Hh & Hm) Hb HB Hn Hsh.
  unfold sharedAsserted, pkt_test in Hsh. rewrite (isSet_bit _ 0) in Hsh by lia.
  destruct (supply_packet k base data pkt a n (cc_now s) Hk Hl Hb HB Hn)
    as (p1 & p2 & p3 & H1 & H2 & Hr & H3 & Hc & Hd & Hx).
  destruct (schedSendTiming_total (cc_now s) p3 (cc_now s + cp_hitLatency (cc_par s)) true _ Hq)
    as (q & HS & _); [lia | done |].
  pose proof (schedSendTiming_list _ _ _ _ _ _ (i_sorted _ _ Hq) HS) as HL.
  exists q. split; [|exists p3; by split_and!]. unfold doTimingSupplyResponse.
  do 3 run_M. rewrite Hbs. cbv zeta.
  erewrite mbind_eq; [|apply lift_eq, cassert_true; apply orb_true_iff;
    destruct Hsh as [-> | Hsh]; [by left | right; unfold sharedAsserted, pkt_test;
      rewrite copy_flags, (isSet_bit _ 0), Z.land_spec, Hsh by lia; reflexivity]]. cbn beta.
  erewrite mbind_eq by (by apply lift_eq). cbn beta.
  erewrite mbind_eq by (by apply lift_eq). cbn beta. rewrite Hr.
  erewrite mbind_eq by (by apply lift_eq). cbn beta. rewrite andb_false_r.
  unfold schedTimingSnoopResp. do 2 run_M.
  erewrite mbind_eq by (apply lift_eq; exact HS). done.
Qed.

Lemma test_set i m p : 0 <= i -> pkt_test (2 ^ i) (pkt_set m p) = pkt_test (2 ^ i) p || Z.testbit m i.
Proof.
  intros Hi. unfold pkt_test, pkt_set. cbn [pkt_flags with_pkt_flags]. unfold Flags_set.
  by rewrite !isSet_bit, Z.lor_spec by done.
Qed.

(** The packet a responding cache works on from the inhibit line on. *)
Definition answered (b : CacheBlk) (pkt : Packet) : Packet :=
  if isWritable b then setSupplyExclusive (assertMemInhibit pkt) else assertMemInhibit pkt.

Lemma answered_spec b pkt a n : bare_request pkt a n ->
  bare_request (answered b pkt) a n /\ memInhibitAsserted (answered b pkt) = true /\
  sharedAsserted (answered b pkt) = sharedAsserted pkt /\ pkt_cmd (answered b pkt) = pkt_cmd pkt /\
  pkt_threadID (answered b pkt) = pkt_threadID pkt.
Proof.
  intros Hb. unfold answered, memInhibitAsserted, sharedAsserted, setSupplyExclusive, assertMemInhibit.
  change MEM_INHIBIT with (2 ^ 3). change SHARED with (2 ^ 0).
  destruct (isWritable b); rewrite !test_set by lia; split_and!; try done;
    rewrite ?orb_true_r, ?orb_false_r; auto using bare_set.
Qed.

(** The answer of [handleSnoop] when the block is valid, dirty, and the
    snoop wants a response: [s1] is the state after the downgrade. *)
Lemma handleSnoop_respond env s p b pkt pkt1 s1 :
  cp_forwardSnoops (cc_par s) = false -> isRequest pkt = true -> needsResponse pkt = true ->
  ts_blks (cc_tags s) !! p = Some b -> isValid b = true -> isDirty b = true ->
  (if isRead pkt && negb (isInvalidate pkt) then
     massert (negb (needsExclusive pkt)) ;;
     blk_put (InTags p) (blk_clr BlkWritable b) ;; ret (assertShared pkt)
   else ret pkt) s = Ok (pkt1, s1) ->
  memInhibitAsserted pkt1 = false ->
  handleSnoop env pkt (Some (InTags p)) true false false s =
  (doTimingSupplyResponse (answered b pkt1) (blk_data b) false false ;;
   when (isInvalidate pkt) (invalidateBlk (InTags p) (pkt_threadID (answered b pkt1))) ;;
   ret (answered b pkt1)) s1.
Proof.
  intros Hf Hq Hr Hb Hv Hd H1 Hmi. unfold handleSnoop. do 2 run_M. rewrite Hq. run_M. run_M. rewrite Hf. run_M.
  erewrite mbind_eq by (by apply blk_get_tags). cbn beta. rewrite Hv. cbn [negb].
  rewrite Hd, Hr. cbn [andb]. erewrite mbind_eq by exact H1. cbn beta. cbv zeta.
  rewrite Hmi. fold (answered b pkt1).
  unfold mbind, M_bind. cbn -[doTimingSupplyResponse].
  by destruct (doTimingSupplyResponse _ _ _ _ s1) as [[? ?]|].
Qed.

(** C20. A snoop that finds a modified block: the cache answers for memory.
    For a [ReadReq] or a [ReadExReq] that a lookup of the snooping thread's set
    maps to a valid, dirty block of a cache that forwards no snoops,
    [handleSnoop] returns, asserts the inhibit line so that memory stays silent,
    and queues on the memory side a response of the right command with exactly
    the bytes of the block; a [ReadReq] leaves the block valid with its data but
    no longer writable, and asserts the shared line; a [ReadExReq] leaves it
    invalid. *)
Theorem snoop_supplies_dirty env k base s p b pkt a n :
  cp_forwardSnoops (cc_par s) = false -> ts_wf (cc_tags s) -> holds k s p b -> mem_ready s ->
  LRU_findBlock (cc_tags s) a (pkt_threadID pkt) = Ok (Some p) ->
  0 <= blk_srcMasterId b < ts_maxMasters (cc_tags s) ->
  isDirty b = true -> bare_request pkt a n -> memInhibitAsserted pkt = false ->
  in_block k base a n -> 0 < n ->
  exists pkt' s' b', handleSnoop env pkt (Some (InTags p)) true false false s = Ok (pkt', s') /\
    memInhibitAsserted pkt' = true /\ supplied s s' pkt (blk_data b) (a - base) n /\
    ts_blks (cc_tags s') !! p = Some b' /\
    if isInvalidate pkt then isValid b' = false
    else isValid b' = true /\ isWritable b' = false /\ blk_data b' = blk_data b /\ sharedAsserted pkt' = true.
Proof.
  intros Hf Hwf Hh Hm HF Hsrc Hd Hb Hmi HB Hn.
  destruct (find_Some _ _ _ _ Hwf HF) as (cs & l1 & l2 & b0 & Hg & Hl & _ & Hb0 & Hma).
  assert (b0 = b) as -> by (pose proof (h_blk _ _ _ _ Hh); congruence).
  assert (isValid b = true) as Hv by (unfold blk_matches in Hma; by apply andb_true_iff in Hma as [_ ?]).
  destruct (br_cmd _ _ _ Hb) as [Hc|Hc].
  - assert (isInvalidate pkt = false) as Hinv by (unfold isInvalidate; by rewrite Hc).
    pose proof (bare_set SHARED pkt a n eq_refl Hb) as Hb1. fold (assertShared pkt) in Hb1.
    destruct (answered_spec b _ _ _ Hb1) as (Ab & Am & As & Ac & _).
    assert (sharedAsserted (assertShared pkt) = true) as Hs1.
    { unfold sharedAsserted, assertShared. change SHARED with (2 ^ 0) at 1. rewrite test_set by lia. apply orb_true_r. }
    set (s1 := put_blk s p (blk_clr BlkWritable b)).
    rewrite (handleSnoop_respond env s p b pkt (assertShared pkt) s1); try done;
      [| unfold isRequest; by rewrite Hc | unfold needsResponse; by rewrite Hc | | ].
    + destruct (doTimingSupply_spec k base s1 (blk_data b) (answered b (assertShared pkt)) a n)
        as (q & Hq & resp & HS1 & HS2 & HS3); try done; try apply Hh; [right; by rewrite As|].
      rewrite (mbind_eq _ _ _ _ _ Hq), Hinv.
      exists (answered b (assertShared pkt)), (with_cc_mem_queue q s1), (blk_clr BlkWritable b).
      split_and!; [reflexivity | done | | by eapply put_blk_lookup | | | done | congruence].
      * exists resp. split_and!; [exact HS1 | by rewrite HS2, Ac | exact HS3].
      * revert Hv. autorewrite with cpp. cbn [blk_status blk_clr with_blk_status]. by rewrite Z.ldiff_spec, andb_true_r.
      * autorewrite with cpp. cbn [blk_status blk_clr with_blk_status]. rewrite Z.ldiff_spec. by rewrite andb_false_r.
    + unfold isRead. rewrite Hc, Hinv. unfold needsExclusive. rewrite Hc. reflexivity.
    + unfold memInhibitAsserted, assertShared in *. change MEM_INHIBIT with (2 ^ 3) in *.
      rewrite test_set, Hmi by lia. reflexivity.
  - assert (isInvalidate pkt = true) as Hinv by (unfold isInvalidate; by rewrite Hc).
    destruct (answered_spec b _ _ _ Hb) as (Ab & Am & As & Ac & At).
    rewrite (handleSnoop_respond env s p b pkt pkt s); try done;
      [| unfold isRequest; by rewrite Hc | unfold needsResponse; by rewrite Hc | by rewrite Hinv, andb_false_r ].
    destruct (doTimingSupply_spec k base s (blk_data b) (answered b pkt) a n)
      as (q & Hq & resp & HS1 & HS2 & HS3); try done; try apply Hh.
    { left. unfold isInvalidate. by rewrite Ac, Hc. }
    destruct (invalidate_total (cc_tags s) _ _ _ _ _ _ b Hwf Hg Hl Hb0 Hv Hsrc)
      as (ts' & cs' & b' & HI & _ & _ & Hb' & Hst & _).
    rewrite (mbind_eq _ _ _ _ _ Hq), Hinv, At. cbn [when].
    exists (answered b pkt), (with_cc_tags ts' (with_cc_mem_queue q s)), b'.
    split_and!; [| done | | exact Hb' | unfold isValid; by rewrite Hst].
    + erewrite mbind_eq; [reflexivity|]. unfold invalidateBlk, upd_tags.
      erewrite (mbind_eq (tags _)) by (unfold tags; cbn [cc_tags with_cc_mem_queue]; rewrite HI; reflexivity). done.
    + exists resp. split_and!; [exact HS1 | by rewrite HS2, Ac | exact HS3].
Qed.

(** Thread 1's modified block at 0x40 is read exclusively by another
    cache. *)
Definition snoop_pkt : Packet := small_packet 0x40 4 ReadExReq 1.

Lemma snoop_facts :
  bare_request snoop_pkt 0x40 4 /\ mem_ready dirty_cache /\
  LRU_findBlock (cc_tags dirty_cache) 0x40 1 = Ok (Some 9%nat) /\
  0 <= blk_srcMasterId dirty_victim < ts_maxMasters (cc_tags dirty_cache) /\
  isDirty dirty_victim = true /\ in_block 2 0x40 0x40 4.
Proof.
  split. { constructor; [vm_compute; reflexivity.. | lia | vm_compute; reflexivity | by right]. }
  split.
  { assert (pq_transmitList (cc_mem_queue dirty_cache) = []) as E1 by (vm_compute; reflexivity).
    assert (pq_sendEvent (cc_mem_queue dirty_cache) = None) as E2 by (vm_compute; reflexivity).
    assert (pq_waitingOnRetry (cc_mem_queue dirty_cache) = false) as E3 by (vm_compute; reflexivity).
    assert (cc_now dirty_cache = 0 /\ cp_hitLatency (cc_par dirty_cache) = 2) as [E4 E5]
      by (vm_compute; split; reflexivity).
    unfold mem_ready. rewrite E4, E5. split; [|unfold MaxTick; lia]. constructor.
    - rewrite E1. constructor.
    - rewrite E1. intros d H. inversion H.
    - unfold covered. by rewrite E1. }
  split; [vm_compute; reflexivity|]. split; [vm_compute; split; congruence|].
  split; [vm_compute; reflexivity|]. vm_compute. split; [reflexivity | split; congruence].
Qed.

Lemma snoop_supplies_dirty_witness :
  exists pkt' s' b', handleSnoop (mute_env true) snoop_pkt (Some (InTags 9%nat)) true false false dirty_cache
                     = Ok (pkt', s') /\
    memInhibitAsserted pkt' = true /\ supplied dirty_cache s' snoop_pkt [1; 2; 3; 4] 0 4 /\
    ts_blks (cc_tags s') !! 9%nat = Some b' /\ isValid b' = false.
Proof.
  destruct dirty_cache_facts as (Hwf & Hh & _ & _ & _ & _ & _ & _ & _ & HD).
  destruct snoop_facts as (Hb & Hm & HF & Hs & Hd & HB).
  pose proof (snoop_supplies_dirty (mute_env true) 2 0x40 dirty_cache 9 dirty_victim snoop_pkt 0x40 4
                eq_refl Hwf Hh Hm HF Hs Hd Hb eq_refl HB eq_refl) as (pkt' & s' & b' & H).
  rewrite HD in H. exists pkt', s', b'. exact H.
Defined.
