(* ===== verification/ClockedObject.v ===== *)
(** Objects with a clock: sim/clocked_object.hh ([ClockedObject] and its cached
    [tick] and [cycle]) over [Cycles] of base/types.hh.  The source keeps the
    last clock edge it computed and advances it lazily; the theorem says that
    the cache never shows: what [clockEdge] and [curCycle] answer is the first
    multiple of the period not before the current tick, and its number. *)

From S2P Require Import Prelude.

Record ClockedObject := mkClockedObject {
  co_tick : Z;
  co_cycle : Z;
  co_clock : Z
}.

(** The constructor. *)
Definition ClockedObject_new (clock : Z) : ClockedObject := mkClockedObject 0 0 clock.

(** [divCeil] of base/intmath.hh at the type [Tick]. *)
Definition divCeil64 (a b : Z) : Z := u64 (u64 (a + b) - 1) / b.

(** [update()]: align [cycle] and [tick] to the next clock edge. *)
Definition co_update (cur : Z) (o : ClockedObject) : ClockedObject :=
  if cur <=? co_tick o then o else
  let tick := u64 (co_tick o + co_clock o) in
  let cycle := u64 (co_cycle o + 1) in
  if cur <=? tick then mkClockedObject tick cycle (co_clock o) else
  let elapsedCycles := divCeil64 (u64 (cur - tick)) (co_clock o) in
  mkClockedObject (u64 (tick + elapsedCycles * co_clock o))
                  (u64 (cycle + elapsedCycles)) (co_clock o).

Definition clockEdge (cur cycles : Z) (o : ClockedObject) : Z * ClockedObject :=
  let o := co_update cur o in (u64 (co_tick o + co_clock o * cycles), o).

Definition curCycle (cur : Z) (o : ClockedObject) : Z * ClockedObject :=
  let o := co_update cur o in (co_cycle o, o).

Definition nextCycle (cur : Z) (o : ClockedObject) : Z * ClockedObject :=
  clockEdge cur 0 o.

Definition ticksToCycles (tick : Z) (o : ClockedObject) : Z := tick / co_clock o.

(** * The clock edge without a cache *)

(** The first multiple of [clock] that is not before [cur]. *)
Definition edge (clock cur : Z) : Z := (cur + clock - 1) / clock * clock.

Lemma edge_spec clock cur : 0 < clock ->
  cur <= edge clock cur < cur + clock /\ edge clock cur mod clock = 0.
Proof.
  intros Hc. unfold edge. split; [|by apply Z.mod_mul; lia].
  pose proof (Z.div_mod (cur + clock - 1) clock). 
  pose proof (Z.mod_pos_bound (cur + clock - 1) clock). lia.
Qed.

Lemma edge_least clock cur e : 0 < clock -> cur <= e -> e mod clock = 0 ->
  edge clock cur <= e.
Proof.
  intros Hc He Hm. pose proof (edge_spec clock cur Hc) as [H1 H2].
  apply Z.mod_divide in Hm as [q ->]; [|lia].
  apply Z.mod_divide in H2 as [p Hp]; [|lia]. rewrite Hp in *.
  apply Z.mul_le_mono_nonneg_r; [lia|].
  apply Z.lt_succ_r, (Z.mul_lt_mono_pos_r clock); lia.
Qed.

Lemma edge_unique clock cur e : 0 < clock ->
  cur <= e < cur + clock -> e mod clock = 0 -> e = edge clock cur.
Proof.
  intros Hc He Hm. pose proof (edge_least clock cur e Hc ltac:(lia) Hm).
  pose proof (edge_spec clock cur Hc) as [H1 H2].
  assert (e < edge clock cur + clock) as He' by lia.
  apply Z.mod_divide in Hm as [q ->]; [|lia].
  apply Z.mod_divide in H2 as [p Hp]; [|lia]. rewrite Hp in *.
  f_equal. apply Z.le_antisymm; [|by apply (Z.mul_le_mono_pos_r _ _ clock)].
  apply Z.lt_succ_r, (Z.mul_lt_mono_pos_r clock); lia.
Qed.

Lemma edge_aligned clock cur : 0 < clock -> cur mod clock = 0 -> edge clock cur = cur.
Proof. intros. symmetry. apply edge_unique; lia. Qed.

Lemma edge_mono clock a b : 0 < clock -> a <= b -> edge clock a <= edge clock b.
Proof.
  intros Hc Hab. apply edge_least; [done| |apply edge_spec; done].
  pose proof (edge_spec clock b Hc). lia.
Qed.

(** * The cache is sound *)

(** What the cached fields hold once time has reached [cur]: an edge not past
    the one after [cur], and its number. *)
Record co_inv (cur : Z) (o : ClockedObject) : Prop := {
  co_pos : 0 < co_clock o;
  co_lo : 0 <= co_tick o;
  co_hi : co_tick o <= edge (co_clock o) cur;
  co_num : co_tick o = co_cycle o * co_clock o
}.

Lemma co_inv_new clock : 0 < clock -> co_inv 0 (ClockedObject_new clock).
Proof. intros. split; cbn; try lia. rewrite edge_aligned; [lia|lia|by rewrite Z.mod_0_l; lia]. Qed.

Lemma co_inv_later cur cur' o : cur <= cur' -> co_inv cur o -> co_inv cur' o.
Proof.
  intros Hle [Hp Hlo Hhi Hn]. split; try done.
  etrans; [done|]. by apply edge_mono.
Qed.

Lemma co_update_spec cur o :
  0 <= cur -> cur + 2 * co_clock o < 2 ^ 64 -> co_inv cur o ->
  co_tick (co_update cur o) = edge (co_clock o) cur /\
  co_clock (co_update cur o) = co_clock o /\
  co_inv cur (co_update cur o).
Proof.
  intros H0 Hb [Hp Hlo Hhi Hn]. set (c := co_clock o) in *.
  pose proof (edge_spec c cur Hp) as [He1 He2].
  assert (Hdone : forall t k, t = k * c -> cur <= t < cur + c ->
    t = edge c cur /\ co_inv cur (mkClockedObject t k c)).
  { intros t k Ht Hr.
    assert (t = edge c cur) as He
      by (apply edge_unique; [done | done | rewrite Ht; apply Z.mod_mul; lia]).
    split; [done|]. split; cbn; lia. }
  assert (Hk : 0 <= co_cycle o <= cur + c) by nia.
  unfold co_update. fold c. destruct (cur <=? co_tick o) eqn:E1; zb.
  { destruct (Hdone (co_tick o) (co_cycle o) Hn ltac:(lia)) as [? ?].
    split_and!; [done|done|]. split; cbn; try done; lia. }
  rewrite (u64_small (co_tick o + c)), (u64_small (co_cycle o + 1)) by lia.
  destruct (cur <=? co_tick o + c) eqn:E2; zb.
  { destruct (Hdone (co_tick o + c) (co_cycle o + 1) ltac:(lia) ltac:(lia)) as [? ?].
    by split_and!. }
  unfold divCeil64.
  rewrite (u64_small (cur - _)), (u64_small (_ + c)), (u64_small (_ - 1)) by lia.
  set (t := co_tick o + c) in *. set (e := (cur - t + c - 1) / c).
  assert (He : e = edge c cur / c - (co_cycle o + 1)).
  { unfold e, edge. rewrite Z.div_mul by lia.
    replace (cur - t + c - 1) with (cur + c - 1 + - (co_cycle o + 1) * c) by lia.
    rewrite Z.div_add by lia. lia. }
  assert (Hec : edge c cur / c * c = edge c cur).
  { apply Z.mod_divide in He2 as [q ->]; [|lia]. by rewrite Z.div_mul by lia. }
  assert (Hs : t + e * c = edge c cur) by nia.
  rewrite (u64_small (t + e * c)) by lia.
  rewrite (u64_small (co_cycle o + 1 + e)) by nia.
  destruct (Hdone (t + e * c) (co_cycle o + 1 + e)) as [? ?]; [nia|lia|].
  by split_and!.
Qed.

(** ** Any history of queries *)

(** The object after answering queries at the ticks [ts]. *)
Definition co_run (ts : list Z) (o : ClockedObject) : ClockedObject :=
  foldl (fun o t => co_update t o) o ts.

(** Ticks that do not go back, from [lo] up to [hi]. *)
Fixpoint monotone_from (lo : Z) (ts : list Z) (hi : Z) : bool :=
  match ts with
  | [] => lo <=? hi
  | t :: ts' => (lo <=? t) && monotone_from t ts' hi
  end.

Lemma monotone_from_le ts : forall lo hi, monotone_from lo ts hi = true -> lo <= hi.
Proof.
  induction ts as [|t ts IH]; cbn; intros lo hi H; zb; [done|].
  match goal with H : monotone_from _ _ _ = true |- _ => apply IH in H end. lia.
Qed.

Lemma co_run_inv ts : forall lo cur o,
  0 <= lo -> cur + 2 * co_clock o < 2 ^ 64 -> monotone_from lo ts cur = true ->
  co_inv lo o -> co_inv cur (co_run ts o) /\ co_clock (co_run ts o) = co_clock o.
Proof.
  induction ts as [|t ts IH]; cbn; intros lo cur o H0 Hb Hm Hi; zb.
  { split; [|done]. by eapply co_inv_later. }
  match goal with H : monotone_from _ _ _ = true |- _ => rename H into Hm end.
  pose proof (monotone_from_le _ _ _ Hm).
  assert (Ht : co_inv t o) by (eapply co_inv_later; [|done]; lia).
  destruct (co_update_spec t o) as (_ & Hc & Hi'); [lia|lia|done|].
  destruct (IH t cur (co_update t o)) as [Hr Hrc]; [lia|rewrite Hc; lia|done|done|].
  split; [done|]. etrans; [exact Hrc | exact Hc].
Qed.

(** After any queries at non-decreasing ticks, a new object asked at [cur]
    answers with the first clock edge at or after [cur], with the number of
    that edge as its cycle, and a future edge is that many periods on: the
    lazily advanced fields never show. *)
Theorem clockEdge_exact clock ts cur cycles :
  0 < clock -> monotone_from 0 ts cur = true -> 0 <= cycles ->
  cur + 2 * clock + clock * cycles < 2 ^ 64 ->
  let o := co_run ts (ClockedObject_new clock) in
  (clockEdge cur cycles o).1 = edge clock cur + clock * cycles /\
  (nextCycle cur o).1 = edge clock cur /\
  (curCycle cur o).1 * clock = edge clock cur.
Proof.
  intros Hc Hm Hn Hb o. pose proof (monotone_from_le _ _ _ Hm).
  destruct (co_run_inv ts 0 cur (ClockedObject_new clock)) as [Hi Hcl];
    [lia | cbn; nia | done | by apply co_inv_new |]. fold o in Hi, Hcl.
  cbn in Hcl. destruct (co_update_spec cur o) as (Ht & Hcl' & [_ _ _ Hnum]);
    [lia | rewrite Hcl; nia | done |].
  pose proof (edge_spec clock cur Hc) as [? _].
  unfold nextCycle, clockEdge, curCycle. cbn. rewrite Hcl' in *.
  rewrite Ht, Hcl in *. split_and!.
  - apply u64_small. nia.
  - rewrite Z.mul_0_r, Z.add_0_r. apply u64_small. nia.
  - by rewrite <- Hnum.
Qed.

Lemma clockEdge_exact_witness :
  let o := co_run [3; 3; 10; 2500] (ClockedObject_new 1000) in
  (clockEdge 7001 2 o).1 = edge 1000 7001 + 1000 * 2 /\
  (nextCycle 7001 o).1 = edge 1000 7001 /\
  (curCycle 7001 o).1 * 1000 = edge 1000 7001.
Proof. apply (clockEdge_exact 1000 [3; 3; 10; 2500] 7001 2); [lia|reflexivity|lia|lia]. Defined.
