(* ===== verification/Bridge.v ===== *)
(** The bridge between two buses: mem/bridge.hh and bridge.cc.  The slave
    port takes requests and sends responses, the master port sends requests and
    takes responses; each holds what it has yet to send in a list with one send
    event.  Room for a response is reserved when its request is accepted.

    The answers of the far ends ([sendTimingReq], [sendTimingResp]) are
    arguments; [sendRetry], the last call of the operations that make it, is an
    output, and the request it invites is a later operation. *)

From S2P Require Import Prelude Request MemCmd Packet PacketQueue ClockedObject.

(** [Bridge::DeferredPacket] *)
Record BrPacket := mkBrPacket { bp_tick : Z; bp_pkt : Packet }.

Record Bridge := mkBridge {
  br_clk : ClockedObject;
  br_delay : Z;
  br_reqQueueLimit : Z;
  br_respQueueLimit : Z;
  br_ranges : list (Z * Z);
  br_reqs : list BrPacket;
  br_reqEvent : option Z;
  br_resps : list BrPacket;
  br_respEvent : option Z;
  br_outstandingResponses : Z;
  br_retryReq : bool
}.

Definition with_br_clk (v : ClockedObject) (r : Bridge) : Bridge :=
  mkBridge v (br_delay r) (br_reqQueueLimit r) (br_respQueueLimit r) (br_ranges r) (br_reqs r)
    (br_reqEvent r) (br_resps r) (br_respEvent r) (br_outstandingResponses r) (br_retryReq r).
Definition with_br_reqs (v : list BrPacket) (r : Bridge) : Bridge :=
  mkBridge (br_clk r) (br_delay r) (br_reqQueueLimit r) (br_respQueueLimit r) (br_ranges r) v
    (br_reqEvent r) (br_resps r) (br_respEvent r) (br_outstandingResponses r) (br_retryReq r).
Definition with_br_reqEvent (v : option Z) (r : Bridge) : Bridge :=
  mkBridge (br_clk r) (br_delay r) (br_reqQueueLimit r) (br_respQueueLimit r) (br_ranges r) (br_reqs r)
    v (br_resps r) (br_respEvent r) (br_outstandingResponses r) (br_retryReq r).
Definition with_br_resps (v : list BrPacket) (r : Bridge) : Bridge :=
  mkBridge (br_clk r) (br_delay r) (br_reqQueueLimit r) (br_respQueueLimit r) (br_ranges r) (br_reqs r)
    (br_reqEvent r) v (br_respEvent r) (br_outstandingResponses r) (br_retryReq r).
Definition with_br_respEvent (v : option Z) (r : Bridge) : Bridge :=
  mkBridge (br_clk r) (br_delay r) (br_reqQueueLimit r) (br_respQueueLimit r) (br_ranges r) (br_reqs r)
    (br_reqEvent r) (br_resps r) v (br_outstandingResponses r) (br_retryReq r).
Definition with_br_outstandingResponses (v : Z) (r : Bridge) : Bridge :=
  mkBridge (br_clk r) (br_delay r) (br_reqQueueLimit r) (br_respQueueLimit r) (br_ranges r) (br_reqs r)
    (br_reqEvent r) (br_resps r) (br_respEvent r) v (br_retryReq r).
Definition with_br_retryReq (v : bool) (r : Bridge) : Bridge :=
  mkBridge (br_clk r) (br_delay r) (br_reqQueueLimit r) (br_respQueueLimit r) (br_ranges r) (br_reqs r)
    (br_reqEvent r) (br_resps r) (br_respEvent r) (br_outstandingResponses r) v.

(** What the bridge hands to its neighbours. *)
Inductive BrOut :=
  | BrReqSent (pkt : Packet)
  | BrRespSent (pkt : Packet)
  | BrRetry.

(** The constructors; [delay] comes in ticks. *)
Definition Bridge_new (clock delay req_size resp_size : Z) (ranges : list (Z * Z)) : Bridge :=
  let clk := ClockedObject_new clock in
  mkBridge clk (ticksToCycles delay clk) (u32 req_size) (u32 resp_size) ranges [] None [] None 0 false.

(** [init]: both sides connected, with the same block size. *)
Definition Bridge_init (slaveConnected masterConnected : bool) (slaveBlock masterBlock : Z) : result unit :=
  if negb slaveConnected || negb masterConnected then Err Fatal
  else if negb (slaveBlock =? masterBlock) then Err Fatal else Ok tt.

Definition br_getAddrRanges (b : Bridge) : list (Z * Z) := br_ranges b.

Definition respQueueFull (b : Bridge) : bool := br_outstandingResponses b =? br_respQueueLimit b.
Definition reqQueueFull (b : Bridge) : bool := Z.of_nat (length (br_reqs b)) =? br_reqQueueLimit b.

(** [RequestState(pkt)] and [fixResponse]. *)
Definition push_state (pkt : Packet) : result Packet :=
  src ← getSrc pkt; Ok (with_pkt_senderState (SS_RequestState (pkt_senderState pkt) src) pkt).
Definition fixResponse (pkt : Packet) : result Packet :=
  match pkt_senderState pkt with
  | SS_RequestState orig src => Ok (with_pkt_senderState orig (setDest src pkt))
  | _ => Err AssertFail
  end.

(** [BridgeMasterPort::schedTimingReq] *)
Definition schedTimingReq (cur : Z) (pkt : Packet) (when : Z) (b : Bridge) : result Bridge :=
  pkt ← (if negb (memInhibitAsserted pkt) && needsResponse pkt then push_state pkt else Ok pkt);
  b ← match br_reqs b with
      | [] => ev ← ev_schedule cur when (br_reqEvent b); Ok (with_br_reqEvent ev b)
      | _ => Ok b
      end;
  cassert (negb (reqQueueFull b)) ;;
  Ok (with_br_reqs (br_reqs b ++ [mkBrPacket when pkt]) b).

(** [BridgeSlavePort::schedTimingResp] *)
Definition br_schedTimingResp (cur : Z) (pkt : Packet) (when : Z) (b : Bridge) : result Bridge :=
  pkt ← fixResponse pkt;
  cassert (isDestValid pkt) ;;
  b ← match br_resps b with
      | [] => ev ← ev_schedule cur when (br_respEvent b); Ok (with_br_respEvent ev b)
      | _ => Ok b
      end;
  Ok (with_br_resps (br_resps b ++ [mkBrPacket when pkt]) b).

(** [bridge.clockEdge(delay)] and [bridge.nextCycle()]. *)
Definition br_edge (cur cycles : Z) (b : Bridge) : Z * Bridge :=
  let '(t, clk) := clockEdge cur cycles (br_clk b) in (t, with_br_clk clk b).

(** [BridgeMasterPort::recvTimingResp] *)
Definition br_recvTimingResp (cur : Z) (pkt : Packet) (b : Bridge) : result Bridge :=
  let '(when, b) := br_edge cur (br_delay b) b in br_schedTimingResp cur pkt when b.

(** [BridgeSlavePort::recvTimingReq]: whether the request is accepted. *)
Definition br_recvTimingReq (cur : Z) (pkt : Packet) (b : Bridge) : result (bool * Bridge) :=
  if br_retryReq b then Ok (false, b)
  else if reqQueueFull b then Ok (false, with_br_retryReq true b)
  else if needsResponse pkt then
    if respQueueFull b then Ok (false, with_br_retryReq true b)
    else
      cassert (negb (br_outstandingResponses b =? br_respQueueLimit b)) ;;
      let b := with_br_outstandingResponses (u32 (br_outstandingResponses b + 1)) b in
      let b := with_br_retryReq false b in
      let '(when, b) := br_edge cur (br_delay b) b in
      b ← schedTimingReq cur pkt when b; Ok (true, b)
  else Ok (true, b).

(** [retryStalledReq] *)
Definition retryStalledReq (b : Bridge) : Bridge * list BrOut :=
  if br_retryReq b then (with_br_retryReq false b, [BrRetry]) else (b, []).

(** [BridgeMasterPort::trySendTiming]; [accepted] is the answer of the far
    end. *)
Definition req_trySendTiming (cur : Z) (accepted : bool) (b : Bridge) : result (Bridge * list BrOut) :=
  match br_reqs b with
  | [] => Err AssertFail
  | req :: rest =>
      cassert (bp_tick req <=? cur) ;;
      if accepted then
        let b := with_br_reqs rest b in
        b ← match rest with
            | [] => Ok b
            | req :: _ =>
                let '(next, b) := br_edge cur 0 b in
                ev ← ev_schedule cur (Z.max (bp_tick req) next) (br_reqEvent b); Ok (with_br_reqEvent ev b)
            end;
        let '(b, outs) := retryStalledReq b in
        Ok (b, BrReqSent (bp_pkt req) :: outs)
      else Ok (b, [])
  end.

(** [BridgeSlavePort::trySendTiming] *)
Definition resp_trySendTiming (cur : Z) (accepted : bool) (b : Bridge) : result (Bridge * list BrOut) :=
  match br_resps b with
  | [] => Err AssertFail
  | resp :: rest =>
      cassert (bp_tick resp <=? cur) ;;
      if accepted then
        let b := with_br_resps rest b in
        cassert (negb (br_outstandingResponses b =? 0)) ;;
        let b := with_br_outstandingResponses (u32 (br_outstandingResponses b - 1)) b in
        b ← match rest with
            | [] => Ok b
            | resp :: _ =>
                let '(next, b) := br_edge cur 0 b in
                ev ← ev_schedule cur (Z.max (bp_tick resp) next) (br_respEvent b); Ok (with_br_respEvent ev b)
            end;
        let '(b, outs) := (if negb (reqQueueFull b) && br_retryReq b
                           then (with_br_retryReq false b, [BrRetry]) else (b, [])) in
        Ok (b, BrRespSent (bp_pkt resp) :: outs)
      else Ok (b, [])
  end.

(** The send events; an event that is processed is no longer scheduled. *)
Definition req_sendEvent (cur : Z) (accepted : bool) (b : Bridge) : result (Bridge * list BrOut) :=
  req_trySendTiming cur accepted (with_br_reqEvent None b).
Definition resp_sendEvent (cur : Z) (accepted : bool) (b : Bridge) : result (Bridge * list BrOut) :=
  resp_trySendTiming cur accepted (with_br_respEvent None b).

(** [recvRetry] of the two ports; [front()] of an empty list is
    undefined. *)
Definition req_recvRetry (cur : Z) (accepted : bool) (b : Bridge) : result (Bridge * list BrOut) :=
  match br_reqs b with
  | [] => Err OutOfBounds
  | req :: _ =>
      if bp_tick req <=? cur then req_trySendTiming cur accepted b
      else ev ← ev_schedule cur (bp_tick req) (br_reqEvent b); Ok (with_br_reqEvent ev b, [])
  end.
Definition resp_recvRetry (cur : Z) (accepted : bool) (b : Bridge) : result (Bridge * list BrOut) :=
  match br_resps b with
  | [] => Err OutOfBounds
  | resp :: _ =>
      if bp_tick resp <=? cur then resp_trySendTiming cur accepted b
      else ev ← ev_schedule cur (bp_tick resp) (br_respEvent b); Ok (with_br_respEvent ev b, [])
  end.

(** [recvAtomic]: the delay of the bridge and the latency of the far end. *)
Definition br_recvAtomic (farLatency : Z) (b : Bridge) : Z :=
  u64 (br_delay b * co_clock (br_clk b) + farLatency).

(** [checkFunctional] over one of the lists. *)
Fixpoint br_check (pkt : Packet) (l : list BrPacket) : result (bool * Packet * list BrPacket) :=
  match l with
  | [] => Ok (false, pkt, [])
  | d :: l' =>
      '(found, pkt, other) ← (checkFunctional_pkt pkt (bp_pkt d) : result (bool * Packet * Packet));
      let d := mkBrPacket (bp_tick d) other in
      if (found : bool) then pkt ← makeResponse pkt; Ok (true, pkt, d :: l')
      else '(found, pkt, l') ← br_check pkt l'; Ok (found, pkt, d :: l')
  end.

(** [recvFunctional]: the responses, the requests, then the far end, which
    is asked when the first component is [false]. *)
Definition br_recvFunctional (pkt : Packet) (b : Bridge) : result (bool * Packet * Bridge) :=
  '(found, pkt, l) ← br_check pkt (br_resps b);
  let b := with_br_resps l b in
  if (found : bool) then Ok (true, pkt, b)
  else
    '(found, pkt, l) ← br_check pkt (br_reqs b);
    Ok (found, pkt, with_br_reqs l b).

(** * Theorems

    Runs of a bridge between two well-behaved buses: it never trips an
    assertion, room for responses is reserved exactly, nothing overtakes, and a
    requester that was turned away is called back. *)

(** * The bridge in its surroundings *)

(** The time, the bridge, the requests that were sent on and are not yet
    answered, and whether a far end has turned a packet away and owes a retry.
    The logs hold the requests accepted and sent, and the responses taken and
    delivered, oldest first. *)
Record BrSys := mkBrSys {
  y_now : Z;
  y_br : Bridge;
  y_flight : list Packet;
  y_reqWait : bool;
  y_respWait : bool;
  y_accepted : list Packet;
  y_sent : list Packet;
  y_taken : list Packet;
  y_delivered : list Packet
}.

Inductive BrOp :=
  | BrTick (t : Z)
  | BrReq (pkt : Packet)
  | BrResp (i : nat) (pkt : Packet)
  | BrReqEvent (accepted : bool)
  | BrRespEvent (accepted : bool)
  | BrReqRetry (accepted : bool)
  | BrRespRetry (accepted : bool).

Definition remove_nth {A} (i : nat) (l : list A) : list A := take i l ++ drop (S i) l.

(** What the outputs of a send add to the logs. *)
Definition reqs_sent (outs : list BrOut) : list Packet :=
  omap (fun o => match o with BrReqSent p => Some p | _ => None end) outs.
Definition resps_sent (outs : list BrOut) : list Packet :=
  omap (fun o => match o with BrRespSent p => Some p | _ => None end) outs.

Definition after_req (accepted : bool) (y : BrSys) (r : Bridge * list BrOut) : BrSys :=
  mkBrSys (y_now y) r.1 (y_flight y ++ reqs_sent r.2) (negb accepted) (y_respWait y)
    (y_accepted y) (y_sent y ++ reqs_sent r.2) (y_taken y) (y_delivered y).
Definition after_resp (accepted : bool) (y : BrSys) (r : Bridge * list BrOut) : BrSys :=
  mkBrSys (y_now y) r.1 (y_flight y) (y_reqWait y) (negb accepted)
    (y_accepted y) (y_sent y) (y_taken y) (y_delivered y ++ resps_sent r.2).

Definition br_do (op : BrOp) (y : BrSys) : result BrSys :=
  let b := y_br y in let now := y_now y in
  match op with
  | BrTick t => Ok (mkBrSys t b (y_flight y) (y_reqWait y) (y_respWait y) (y_accepted y) (y_sent y)
                      (y_taken y) (y_delivered y))
  | BrReq pkt =>
      '(ok, b) ← br_recvTimingReq now pkt b;
      Ok (mkBrSys now b (y_flight y) (y_reqWait y) (y_respWait y)
            (if (ok : bool) then y_accepted y ++ [pkt] else y_accepted y) (y_sent y) (y_taken y) (y_delivered y))
  | BrResp i pkt =>
      b ← br_recvTimingResp now pkt b;
      Ok (mkBrSys now b (remove_nth i (y_flight y)) (y_reqWait y) (y_respWait y) (y_accepted y) (y_sent y)
            (y_taken y ++ [pkt]) (y_delivered y))
  | BrReqEvent a => r ← req_sendEvent now a b; Ok (after_req a y r)
  | BrRespEvent a => r ← resp_sendEvent now a b; Ok (after_resp a y r)
  | BrReqRetry a => r ← req_recvRetry now a b; Ok (after_req a y r)
  | BrRespRetry a => r ← resp_recvRetry now a b; Ok (after_resp a y r)
  end.

(** What the surroundings may do: time does not pass a scheduled event and
    stays clear of the end of the clock; requests carry their source, want a
    response and have not been promised to another cache; a response belongs to
    a request in flight and carries its sender state; an event fires when it is
    due; a retry comes only when it is owed. *)
Definition not_past (t : Z) (ev : option Z) : bool := match ev with Some e => t <=? e | None => true end.

Definition br_legal (horizon : Z) (op : BrOp) (y : BrSys) : Prop :=
  match op with
  | BrTick t => y_now y <= t <= horizon /\ not_past t (br_reqEvent (y_br y)) = true /\
                not_past t (br_respEvent (y_br y)) = true
  | BrReq pkt => isSrcValid pkt = true /\ needsResponse pkt = true /\ memInhibitAsserted pkt = false
  | BrResp i pkt => exists r, y_flight y !! i = Some r /\ pkt_senderState pkt = pkt_senderState r
  | BrReqEvent _ => br_reqEvent (y_br y) = Some (y_now y)
  | BrRespEvent _ => br_respEvent (y_br y) = Some (y_now y)
  | BrReqRetry _ => y_reqWait y = true
  | BrRespRetry _ => y_respWait y = true
  end.

(** Runs, every step legal where it is taken. *)
Inductive br_run (horizon : Z) : BrSys -> list BrOp -> BrSys -> Prop :=
  | run_nil y : br_run horizon y [] y
  | run_cons y op y1 ops y2 :
      br_legal horizon op y -> br_do op y = Ok y1 -> br_run horizon y1 ops y2 ->
      br_run horizon y (op :: ops) y2.

Definition br_start (clock delay req_size resp_size : Z) (ranges : list (Z * Z)) : BrSys :=
  mkBrSys 0 (Bridge_new clock delay req_size resp_size ranges) [] false false [] [] [] [].

(** * The invariant *)

(** One of the two lists with its event: while it holds something, either
    the event is scheduled, not before the first packet is due, or the far end
    owes a retry for a packet that was due. *)
Definition armed (now : Z) (l : list BrPacket) (ev : option Z) (wait : bool) : Prop :=
  match l with
  | [] => ev = None /\ wait = false
  | d :: _ => match ev with
              | Some e => now <= e /\ bp_tick d <= e /\ wait = false
              | None => bp_tick d <= now /\ wait = true
              end
  end.

(** A packet that carries the record of one of the requests [acc]. *)
Definition recorded (acc : list Packet) (p : Packet) : Prop :=
  exists q, q ∈ acc /\ pkt_senderState p = SS_RequestState (pkt_senderState q) (pkt_src q).

(** A request as it is sent on. *)
Definition recorded_as (p : Packet) : Packet :=
  with_pkt_senderState (SS_RequestState (pkt_senderState p) (pkt_src p)) p.
(** A response as it is delivered: to the source of its request, with the
    sender state the request came with. *)
Definition restored_as (p : Packet) : Packet :=
  match pkt_senderState p with
  | SS_RequestState orig src => with_pkt_senderState orig (setDest src p)
  | _ => p
  end.

Record br_inv (horizon : Z) (y : BrSys) : Prop := {
  v_time : 0 <= y_now y <= horizon;
  v_clk : co_inv (y_now y) (br_clk (y_br y));
  v_bound : horizon + co_clock (br_clk (y_br y)) * (2 + br_delay (y_br y)) < 2 ^ 64;
  v_delay : 0 <= br_delay (y_br y);
  v_reqLimit : 0 < br_reqQueueLimit (y_br y);
  v_respLimit : 0 < br_respQueueLimit (y_br y) < 2 ^ 32;
  v_reqs : Z.of_nat (length (br_reqs (y_br y))) <= br_reqQueueLimit (y_br y);
  v_room : br_outstandingResponses (y_br y) =
           Z.of_nat (length (br_reqs (y_br y)) + length (y_flight y) + length (br_resps (y_br y)));
  v_resps : br_outstandingResponses (y_br y) <= br_respQueueLimit (y_br y);
  v_reqArmed : armed (y_now y) (br_reqs (y_br y)) (br_reqEvent (y_br y)) (y_reqWait y);
  v_respArmed : armed (y_now y) (br_resps (y_br y)) (br_respEvent (y_br y)) (y_respWait y);
  v_recorded : Forall (recorded (y_accepted y)) (y_flight y);
  v_answers : Forall (recorded (y_accepted y)) (y_taken y);
  v_accepted : map recorded_as (y_accepted y) = y_sent y ++ map bp_pkt (br_reqs (y_br y));
  v_source : Forall (fun p => pkt_src p <> InvalidPortID) (y_accepted y);
  v_taken : map restored_as (y_taken y) = y_delivered y ++ map bp_pkt (br_resps (y_br y));
  v_retry : br_retryReq (y_br y) = true -> 0 < br_outstandingResponses (y_br y)
}.

(** * The clock *)

Lemma br_edge_spec cur cycles b :
  0 <= cur -> 0 <= cycles -> cur + co_clock (br_clk b) * (2 + cycles) < 2 ^ 64 -> co_inv cur (br_clk b) ->
  exists t clk, br_edge cur cycles b = (t, with_br_clk clk b) /\ cur <= t /\ co_inv cur clk /\
    co_clock clk = co_clock (br_clk b) /\ t = edge (co_clock clk) cur + co_clock clk * cycles.
Proof.
  intros H0 Hc Hb Hi. pose proof (co_pos _ _ Hi) as Hp.
  destruct (co_update_spec cur (br_clk b)) as (Ht & Hk & Hi'); [done | nia | done|].
  pose proof (edge_spec (co_clock (br_clk b)) cur Hp) as [He _].
  exists (edge (co_clock (br_clk b)) cur + co_clock (br_clk b) * cycles), (co_update cur (br_clk b)).
  unfold br_edge, clockEdge. rewrite Hk, Ht, u64_small by nia. split; [done|]. split; [nia|]. done.
Qed.

Lemma ev_schedule_Ok cur when : cur <= when -> ev_schedule cur when None = Ok (Some when).
Proof. intros H. unfold ev_schedule. by rewrite cassert_leb. Qed.

(** A packet joins the end of a list. *)
Lemma armed_push now l ev wait d :
  armed now l ev wait -> now <= bp_tick d ->
  exists ev', match l with [] => ev_schedule now (bp_tick d) ev | _ => Ok ev end = Ok ev' /\
    armed now (l ++ [d]) ev' wait.
Proof.
  intros H Hd. destruct l as [|x l].
  - destruct H as [-> ->]. exists (Some (bp_tick d)). rewrite ev_schedule_Ok by done. split; [done|]. cbn. intuition lia.
  - exists ev. done.
Qed.

(** A packet leaves the front of a list whose event has been processed, at
    a time [next] not before now. *)
Lemma armed_pop now l next :
  now <= next -> exists ev', match l with
                             | [] => Ok None
                             | x :: _ => ev_schedule now (Z.max (bp_tick x) next) None
                             end = Ok ev' /\ armed now l ev' false.
Proof.
  intros Hn. destruct l as [|x l].
  - exists None. done.
  - rewrite ev_schedule_Ok by lia. eexists. split; [done|]. cbn. intuition lia.
Qed.

Lemma armed_later now t l ev wait :
  now <= t -> not_past t ev = true -> armed now l ev wait -> armed t l ev wait.
Proof.
  intros Ht He H. destruct l as [|d l]; [done|]. unfold armed in *.
  destruct ev as [e|]; cbn in He; zb; intuition lia.
Qed.

(** * The steps *)

Lemma step_tick h y t : br_inv h y -> br_legal h (BrTick t) y -> exists y', br_do (BrTick t) y = Ok y' /\ br_inv h y'.
Proof.
  intros [] (Ht & H1 & H2). cbn. eexists. split; [done|]. constructor; cbn; try done; [lia | | |].
  - eapply co_inv_later; [|done]. lia.
  - eapply armed_later; [|done..]. lia.
  - eapply armed_later; [|done..]. lia.
Qed.

Lemma push_state_eq p : isSrcValid p = true -> push_state p = Ok (recorded_as p).
Proof. intros H. unfold push_state, getSrc. by rewrite H. Qed.

Lemma src_valid p : isSrcValid p = true -> pkt_src p <> InvalidPortID.
Proof. unfold isSrcValid. intros H. by apply negb_true_iff, Z.eqb_neq in H. Qed.

Lemma fixResponse_eq acc p :
  Forall (fun q => pkt_src q <> InvalidPortID) acc -> recorded acc p ->
  fixResponse p = Ok (restored_as p) /\ isDestValid (restored_as p) = true.
Proof.
  intros Hv (q & Hq & E). unfold fixResponse, restored_as. rewrite E. split; [done|].
  unfold isDestValid. cbn. apply negb_true_iff, Z.eqb_neq. by eapply Forall_forall in Hv.
Qed.

(** Scheduling an event for the head of a list inside the bridge. *)
Lemma match_cons_bind {A B C} (l : list A) (f : result B) (e0 : B) (k : B -> C) (d : C) (ev : B) :
  match l with [] => f | _ => Ok e0 end = Ok ev -> k e0 = d ->
  match l with [] => e ← f; Ok (k e) | _ => Ok d end = Ok (k ev).
Proof. intros H <-. destruct l; [by rewrite H | by injection H as <-]. Qed.

Lemma reqEvent_same b : with_br_reqEvent (br_reqEvent b) b = b.
Proof. by destruct b. Qed.
Lemma respEvent_same b : with_br_respEvent (br_respEvent b) b = b.
Proof. by destruct b. Qed.

Lemma cassert_neqb a b : a <> b -> cassert (negb (a =? b)) = Ok tt.
Proof. intros H. by apply Z.eqb_neq in H as ->. Qed.

Lemma remove_nth_length {A} i (l : list A) x : l !! i = Some x -> S (length (remove_nth i l)) = length l.
Proof.
  intros H. apply lookup_lt_Some in H. unfold remove_nth. rewrite length_app, length_take, length_drop. lia.
Qed.

Lemma recorded_mono acc x l : Forall (recorded acc) l -> Forall (recorded (acc ++ [x])) l.
Proof. intros H. eapply Forall_impl; [done|]. intros p (q & Hq & E). exists q. split; [set_solver | done]. Qed.

(** A request arrives. *)
Lemma step_req h y pkt :
  br_inv h y -> br_legal h (BrReq pkt) y -> exists y', br_do (BrReq pkt) y = Ok y' /\ br_inv h y'.
Proof.
  intros I (Hs & Hr & Hm). pose proof I as [].
  cbn [br_do]. unfold br_recvTimingReq. rewrite Hr.
  assert (forall b, b = y_br y \/ (b = with_br_retryReq true (y_br y) /\ 0 < br_outstandingResponses (y_br y)) ->
    exists y', ('(ok, b) ← Ok (false, b) : result (bool * Bridge);
       Ok (mkBrSys (y_now y) b (y_flight y) (y_reqWait y) (y_respWait y)
            (if (ok : bool) then y_accepted y ++ [pkt] else y_accepted y) (y_sent y) (y_taken y) (y_delivered y)))
     = Ok y' /\ br_inv h y') as Hrej.
  { intros b Hb. eexists. split; [done|]. destruct Hb as [->|[-> Ho]].
    - by destruct y.
    - constructor; cbn; done. }
  destruct (br_retryReq (y_br y)) eqn:Er; [by apply Hrej; left|].
  destruct (reqQueueFull (y_br y)) eqn:Ef.
  { apply Hrej. right. split; [done|]. unfold reqQueueFull in Ef. zb. lia. }
  destruct (respQueueFull (y_br y)) eqn:Eq.
  { apply Hrej. right. split; [done|]. unfold respQueueFull in Eq. zb. lia. }
  unfold respQueueFull in Eq. rewrite Eq. unfold reqQueueFull in Ef. zb. cbn [cassert negb]. rewrite bind_Ok_l.
  rewrite u32_small by lia.
  set (b1 := with_br_retryReq false (with_br_outstandingResponses (br_outstandingResponses (y_br y) + 1) (y_br y))).
  destruct (br_edge_spec (y_now y) (br_delay b1) b1) as (t & clk & HE & Ht & Hc & Hk & _); [lia | done | cbn; lia | done|].
  rewrite HE. unfold schedTimingReq. rewrite Hm, Hr. cbn [negb andb]. rewrite push_state_eq, bind_Ok_l by done.
  destruct (armed_push _ _ _ _ (mkBrPacket t (recorded_as pkt)) v_reqArmed0) as (ev & Hev & Ha); [done|]. cbn in Hev.
  change (br_reqs (with_br_clk clk b1)) with (br_reqs (y_br y)).
  change (br_reqEvent (with_br_clk clk b1)) with (br_reqEvent (y_br y)).
  rewrite (match_cons_bind _ _ _ (fun e => with_br_reqEvent e (with_br_clk clk b1)) _ _ Hev)
    by apply (reqEvent_same (with_br_clk clk b1)).
  rewrite bind_Ok_l. unfold reqQueueFull. rewrite cassert_neqb by done.
  rewrite !bind_Ok_l. eexists. split; [done|].
  constructor; cbn in *; try done; try (rewrite ?length_app, ?length_cons; cbn; lia).
  - by apply recorded_mono.
  - by apply recorded_mono.
  - by rewrite !map_app, v_accepted0, <- app_assoc.
  - apply Forall_app. split; [done|]. apply Forall_singleton. by apply src_valid.
Qed.

(** A response arrives for a request in flight. *)
Lemma step_resp h y i pkt :
  br_inv h y -> br_legal h (BrResp i pkt) y -> exists y', br_do (BrResp i pkt) y = Ok y' /\ br_inv h y'.
Proof.
  intros I (r & Hi & Hst). pose proof I as [].
  assert (recorded (y_accepted y) pkt) as Hrec.
  { destruct (Forall_lookup_1 _ _ _ _ v_recorded0 Hi) as (q & Hq & E). exists q. by rewrite Hst. }
  destruct (fixResponse_eq _ _ v_source0 Hrec) as [Hf Hd].
  cbn [br_do]. unfold br_recvTimingResp.
  destruct (br_edge_spec (y_now y) (br_delay (y_br y)) (y_br y)) as (t & clk & HE & Ht & Hc & Hk & _);
    [lia | done | lia | done|].
  rewrite HE. unfold br_schedTimingResp. rewrite Hf, bind_Ok_l, Hd. cbn [cassert]. rewrite bind_Ok_l.
  destruct (armed_push _ _ _ _ (mkBrPacket t (restored_as pkt)) v_respArmed0) as (ev & Hev & Ha); [done|].
  cbn in Hev.
  change (br_resps (with_br_clk clk (y_br y))) with (br_resps (y_br y)).
  change (br_respEvent (with_br_clk clk (y_br y))) with (br_respEvent (y_br y)).
  rewrite (match_cons_bind _ _ _ (fun e => with_br_respEvent e (with_br_clk clk (y_br y))) _ _ Hev)
    by apply (respEvent_same (with_br_clk clk (y_br y))).
  rewrite !bind_Ok_l. eexists. split; [done|].
  pose proof (remove_nth_length _ _ _ Hi).
  constructor; cbn in *; try done; try (rewrite ?length_app, ?length_cons; cbn; lia).
  - unfold remove_nth. apply Forall_app. split; [by apply Forall_take | by apply Forall_drop].
  - apply Forall_app. split; [done | by apply Forall_singleton].
  - by rewrite !map_app, v_taken0, <- app_assoc.
Qed.

(** * Sending *)

(** What waits to be sent on carries its record. *)
Lemma queued_recorded h y : br_inv h y -> Forall (fun d => recorded (y_accepted y) (bp_pkt d)) (br_reqs (y_br y)).
Proof.
  intros []. assert (Forall (recorded (y_accepted y)) (map recorded_as (y_accepted y))) as H.
  { apply Forall_map, Forall_forall. intros p Hp. by exists p. }
  rewrite v_accepted0 in H. apply Forall_app in H as [_ H]. by rewrite Forall_map in H.
Qed.

(** The next send is scheduled after a packet has left; [get] and [set] are
    those of one of the two events. *)
Lemma next_send (get : Bridge -> option Z) (set : option Z -> Bridge -> Bridge) now l b :
  (forall clk, get (with_br_clk clk b) = get b) -> (forall b, set (get b) b = b) -> get b = None ->
  0 <= now -> now + co_clock (br_clk b) * 2 < 2 ^ 64 -> co_inv now (br_clk b) ->
  exists ev clk,
    match l with
    | [] => Ok b
    | x :: _ => let '(next, b) := br_edge now 0 b in
                e ← ev_schedule now (Z.max (bp_tick x) next) (get b); Ok (set e b)
    end = Ok (set ev (with_br_clk clk b)) /\
    armed now l ev false /\ co_inv now clk /\ co_clock clk = co_clock (br_clk b).
Proof.
  intros Hg Hs Hn H0 Hb Hi. destruct (br_edge_spec now 0 b) as (t & clk & HE & Ht & Hc & Hk & _); [done | lia | lia | done|].
  destruct (armed_pop now l t Ht) as (ev & Hev & Ha). exists ev. destruct l as [|x l].
  - injection Hev as <-. exists (br_clk b). split; [|done].
    replace (with_br_clk (br_clk b) b) with b by (by destruct b). by rewrite <- Hn, Hs.
  - exists clk. rewrite HE, Hg, Hn, Hev. done.
Qed.

(** The first request is offered to the far end, its event not scheduled:
    it fired, or a retry was owed. *)
Lemma req_try h y a :
  br_inv h (mkBrSys (y_now y) (y_br y) (y_flight y) true (y_respWait y) (y_accepted y) (y_sent y) (y_taken y)
              (y_delivered y)) ->
  exists r, req_trySendTiming (y_now y) a (y_br y) = Ok r /\ br_inv h (after_req a y r).
Proof.
  intros I. pose proof (queued_recorded _ _ I) as Hq. pose proof I as []. pose proof (co_pos _ _ v_clk0). cbn in *.
  unfold req_trySendTiming. destruct (br_reqs (y_br y)) as [|d l] eqn:El; [by destruct v_reqArmed0|].
  cbn in v_reqArmed0. destruct (br_reqEvent (y_br y)) as [e|] eqn:Ee; [by destruct v_reqArmed0 as (_ & _ & ?)|].
  rewrite cassert_leb, bind_Ok_l by tauto.
  destruct a; [|eexists; split; [done|]; constructor; cbn; rewrite ?El, ?Ee, ?app_nil_r; done].
  destruct (next_send br_reqEvent with_br_reqEvent (y_now y) l (with_br_reqs l (y_br y)))
    as (ev & clk & -> & Ha & Hc & Hk); [done | apply reqEvent_same | done | lia | cbn; nia | done|].
  rewrite bind_Ok_l. inv Hq.
  assert (forall outs b, reqs_sent outs = [] ->
    b = with_br_reqEvent ev (with_br_clk clk (with_br_reqs l (y_br y))) \/
    b = with_br_retryReq false (with_br_reqEvent ev (with_br_clk clk (with_br_reqs l (y_br y)))) ->
    br_inv h (after_req true y (b, BrReqSent (bp_pkt d) :: outs))) as Hdone.
  { intros outs b Ho Hb. unfold after_req, reqs_sent in *. cbn. rewrite Ho.
    destruct Hb as [-> | ->]; constructor; cbn in *; try done; rewrite ?Hk, ?length_app; cbn; try done; try lia.
    all: try (apply Forall_app; split; [done | by apply Forall_singleton]).
    all: by rewrite v_accepted0, <- app_assoc. }
  unfold retryStalledReq. destruct (br_retryReq _); eexists; (split; [done|]); apply Hdone; auto.
Qed.

(** The first response is offered to the requester. *)
Lemma resp_try h y a :
  br_inv h (mkBrSys (y_now y) (y_br y) (y_flight y) (y_reqWait y) true (y_accepted y) (y_sent y) (y_taken y)
              (y_delivered y)) ->
  exists r, resp_trySendTiming (y_now y) a (y_br y) = Ok r /\ br_inv h (after_resp a y r).
Proof.
  intros I. pose proof I as []. pose proof (co_pos _ _ v_clk0). cbn in *.
  unfold resp_trySendTiming. destruct (br_resps (y_br y)) as [|d l] eqn:El; [by destruct v_respArmed0|].
  cbn in v_respArmed0. destruct (br_respEvent (y_br y)) as [e|] eqn:Ee; [by destruct v_respArmed0 as (_ & _ & ?)|].
  rewrite cassert_leb, bind_Ok_l by tauto.
  destruct a; [|eexists; split; [done|]; constructor; cbn; rewrite ?El, ?Ee, ?app_nil_r; done].
  cbn in v_room0. rewrite cassert_neqb, bind_Ok_l by (cbn; lia).
  cbn [br_outstandingResponses with_br_resps]. rewrite u32_small by lia.
  set (b1 := with_br_outstandingResponses (br_outstandingResponses (y_br y) - 1) (with_br_resps l (y_br y))).
  destruct (next_send br_respEvent with_br_respEvent (y_now y) l b1)
    as (ev & clk & -> & Ha & Hc & Hk); [done | apply respEvent_same | done | lia | cbn; nia | done|].
  rewrite bind_Ok_l.
  assert (forall outs b, resps_sent outs = [] ->
    b = with_br_respEvent ev (with_br_clk clk b1) /\
      (br_retryReq (y_br y) = true -> 0 < br_outstandingResponses (y_br y) - 1) \/
    b = with_br_retryReq false (with_br_respEvent ev (with_br_clk clk b1)) ->
    br_inv h (after_resp true y (b, BrRespSent (bp_pkt d) :: outs))) as Hdone.
  { intros outs b Ho Hb. unfold after_resp, resps_sent in *. cbn. rewrite Ho.
    destruct Hb as [[-> ?] | ->]; constructor; cbn in *; try done; rewrite ?Hk; try done; try lia.
    all: by rewrite v_taken0, <- app_assoc. }
  destruct (negb _ && _) eqn:Er; eexists; (split; [done|]); apply Hdone; auto.
  left. split; [done|]. intros Hr. cbn in Er. rewrite Hr, andb_true_r in Er. apply negb_false_iff in Er.
  unfold reqQueueFull in Er. cbn in Er. zb. lia.
Qed.

(** * Every step *)

(** While a retry is owed the event is idle, and the first packet is due. *)
Lemma retry_owed now l ev : armed now l ev true -> exists d l', l = d :: l' /\ ev = None /\ bp_tick d <= now.
Proof. destruct l as [|d l]; cbn; [by intros [_ ?]|]. destruct ev; [by intros (_ & _ & ?)|]. intros [? _]. eauto 10. Qed.

(** An event that fires leaves the list as if a retry were owed. *)
Lemma armed_fired now l : armed now l (Some now) false -> armed now l None true.
Proof. destruct l as [|d l]; cbn; [by intros [? _] | tauto]. Qed.

Lemma armed_waits now l e wait : armed now l (Some e) wait -> wait = false.
Proof. destruct l; cbn; [by intros [? _] | tauto]. Qed.

Lemma br_step h op y : br_inv h y -> br_legal h op y -> exists y', br_do op y = Ok y' /\ br_inv h y'.
Proof.
  intros I L. destruct op as [t | pkt | i pkt | a | a | a | a].
  - by apply step_tick.
  - by apply step_req.
  - by apply step_resp.
  - pose proof I as []. cbn in L |- *. unfold req_sendEvent.
    destruct (req_try h (mkBrSys (y_now y) (with_br_reqEvent None (y_br y)) (y_flight y) (y_reqWait y) (y_respWait y)
      (y_accepted y) (y_sent y) (y_taken y) (y_delivered y)) a) as (r & Hr & Hi).
    { constructor; cbn; try done. rewrite L in v_reqArmed0. pose proof (armed_waits _ _ _ _ v_reqArmed0) as E.
      rewrite E in v_reqArmed0. by apply armed_fired. }
    cbn in Hr. rewrite Hr. eexists. by split.
  - pose proof I as []. cbn in L |- *. unfold resp_sendEvent.
    destruct (resp_try h (mkBrSys (y_now y) (with_br_respEvent None (y_br y)) (y_flight y) (y_reqWait y) (y_respWait y)
      (y_accepted y) (y_sent y) (y_taken y) (y_delivered y)) a) as (r & Hr & Hi).
    { constructor; cbn; try done. rewrite L in v_respArmed0. pose proof (armed_waits _ _ _ _ v_respArmed0) as E.
      rewrite E in v_respArmed0. by apply armed_fired. }
    cbn in Hr. rewrite Hr. eexists. by split.
  - cbn in L |- *. destruct (req_try h y a) as (r & Hr & Hi); [rewrite <- L; by destruct y|].
    pose proof (v_reqArmed _ _ I) as A. rewrite L in A. apply retry_owed in A as (d & l & El & _ & Hd).
    unfold req_recvRetry. rewrite El. apply Z.leb_le in Hd as ->. rewrite Hr. eexists. by split.
  - cbn in L |- *. destruct (resp_try h y a) as (r & Hr & Hi); [rewrite <- L; by destruct y|].
    pose proof (v_respArmed _ _ I) as A. rewrite L in A. apply retry_owed in A as (d & l & El & _ & Hd).
    unfold resp_recvRetry. rewrite El. apply Z.leb_le in Hd as ->. rewrite Hr. eexists. by split.
Qed.

Lemma run_inv h y ops y' : br_inv h y -> br_run h y ops y' -> br_inv h y'.
Proof.
  intros I R. induction R as [|? ? ? ? ? L D R IH]; [done|]. apply IH.
  destruct (br_step _ _ _ I L) as (y' & E & I'). rewrite D in E. by injection E as <-.
Qed.

(** A bridge as configured: a clock, room on both sides, and a horizon that
    keeps the delay clear of the end of time. *)
Definition br_config (horizon clock delay req_size resp_size : Z) : Prop :=
  0 < clock /\ 0 <= delay /\ 0 <= horizon /\ horizon + 3 * clock + delay < 2 ^ 64 /\
  0 < req_size < 2 ^ 31 /\ 0 < resp_size < 2 ^ 31.

Lemma start_inv h clock delay req_size resp_size ranges :
  br_config h clock delay req_size resp_size -> br_inv h (br_start clock delay req_size resp_size ranges).
Proof.
  intros (Hc & Hd & Hh & Hb & Hq & Hp). unfold br_start, Bridge_new. unfold ticksToCycles.
  pose proof (Z.div_pos delay clock Hd Hc). pose proof (Z.mul_div_le delay clock Hc).
  constructor; cbn [y_now y_br br_clk br_delay br_reqQueueLimit br_respQueueLimit br_outstandingResponses br_reqs
    br_resps br_retryReq y_flight co_clock ClockedObject_new length]; rewrite ?u32_small by lia; try done; try lia.
  - by apply co_inv_new.
Qed.

(** * The theorem *)

(** A delivered response goes to the source of a request that was accepted,
    with the sender state that request came with. *)
Definition routed (acc : list Packet) (p : Packet) : Prop :=
  exists q, q ∈ acc /\ pkt_dest p = pkt_src q /\ pkt_senderState p = pkt_senderState q.

Lemma delivered_routed h y : br_inv h y -> Forall (routed (y_accepted y)) (y_delivered y).
Proof.
  intros []. assert (Forall (routed (y_accepted y)) (map restored_as (y_taken y))) as H.
  { apply Forall_map. eapply Forall_impl; [done|]. intros p (q & Hq & E). exists q. unfold restored_as. by rewrite E. }
  rewrite v_taken0 in H. by apply Forall_app in H as [? _].
Qed.

(** C23. C39: a bridge between two buses that keep their side of the protocol,
    run for any number of steps from its construction: no step the surroundings
    may take next trips an assertion; the slots reserved for responses are
    exactly the requests queued, sent on and answered but not delivered, and
    stay within the configured limits; requests leave in the order they were
    accepted and responses in the order they were taken; every response goes
    back to the source of an accepted request with its sender state restored;
    and a requester that was turned away waits only while something is still
    under way, so that none is forgotten when the bridge drains. *)
Theorem bridge_run h clock delay req_size resp_size ranges ops y :
  br_config h clock delay req_size resp_size ->
  br_run h (br_start clock delay req_size resp_size ranges) ops y ->
  (forall op, br_legal h op y -> exists y', br_do op y = Ok y') /\
  Z.of_nat (length (br_reqs (y_br y))) <= br_reqQueueLimit (y_br y) /\
  br_outstandingResponses (y_br y) =
    Z.of_nat (length (br_reqs (y_br y)) + length (y_flight y) + length (br_resps (y_br y))) /\
  br_outstandingResponses (y_br y) <= br_respQueueLimit (y_br y) /\
  map recorded_as (y_accepted y) = y_sent y ++ map bp_pkt (br_reqs (y_br y)) /\
  map restored_as (y_taken y) = y_delivered y ++ map bp_pkt (br_resps (y_br y)) /\
  Forall (routed (y_accepted y)) (y_delivered y) /\
  (br_reqs (y_br y) = [] -> br_resps (y_br y) = [] -> y_flight y = [] -> br_retryReq (y_br y) = false).
Proof.
  intros Hc R. pose proof (run_inv _ _ _ _ (start_inv _ _ _ _ _ _ Hc) R) as I. pose proof (delivered_routed _ _ I).
  pose proof I as []. split_and!; try done.
  - intros op L. destruct (br_step _ _ _ I L) as (y' & E & _). eauto.
  - intros E1 E2 E3. rewrite E1, E2, E3 in v_room0. destruct (br_retryReq _); [|done]. specialize (v_retry0 eq_refl).
    cbn in v_room0. lia.
Qed.

(** Two requests through a bridge with one slot each way: the second is turned
    away, called back when the first is sent on, turned away again for want of a
    response slot, and called back for good when the response is delivered. *)
Definition demo_request (src : Z) : Packet := with_pkt_src src (Packet_blank 0 ReadReq 0 0).
Definition demo_ops : list BrOp :=
  [BrReq (demo_request 4); BrReq (demo_request 5); BrTick 50; BrReqEvent false; BrReqRetry true;
   BrReq (demo_request 5); BrResp 0 (recorded_as (demo_request 4)); BrTick 100; BrRespEvent true;
   BrReq (demo_request 5)].
Definition demo_end : BrSys :=
  match fold_left (fun y op => y ← y; br_do op y) demo_ops (Ok (br_start 10 50 1 1 [])) with
  | Ok y => y
  | Err _ => br_start 10 50 1 1 []
  end.

Lemma bridge_run_witness :
  br_run 1000 (br_start 10 50 1 1 []) demo_ops demo_end /\
  map pkt_dest (y_delivered demo_end) = [4] /\ Forall (routed (y_accepted demo_end)) (y_delivered demo_end).
Proof.
  assert (br_run 1000 (br_start 10 50 1 1 []) demo_ops demo_end) as R.
  { unfold demo_ops.
    repeat (eapply run_cons;
      [vm_compute; first [by repeat split | by eexists; split; reflexivity] | vm_compute; reflexivity|]).
    vm_compute. apply run_nil. }
  split; [done|]. split; [vm_compute; reflexivity|].
  apply (bridge_run 1000 10 50 1 1 [] demo_ops demo_end); [|done]. unfold br_config. lia.
Defined.

(** * What the bridge gets wrong *)

(** A request that wants no response, a write back, say, is accepted and
    then forgotten: the bridge does not change. *)
Theorem silent_request_lost cur pkt b :
  br_retryReq b = false -> reqQueueFull b = false -> needsResponse pkt = false ->
  br_recvTimingReq cur pkt b = Ok (true, b).
Proof. intros H1 H2 H3. unfold br_recvTimingReq. by rewrite H1, H2, H3. Qed.

(** A request whose response has been promised by another cache still takes
    a response slot, but carries no record: should a response come through the
    bridge all the same, it stops on the assertion of [schedTimingResp]; and if
    none does the slot is never given back. *)
Theorem inhibited_request_leaks cur pkt b b' :
  memInhibitAsserted pkt = true -> needsResponse pkt = true -> br_retryReq b = false ->
  br_recvTimingReq cur pkt b = Ok (true, b') ->
  br_outstandingResponses b' = u32 (br_outstandingResponses b + 1) /\
  exists d, br_reqs b' = br_reqs b ++ [d] /\ bp_pkt d = pkt.
Proof.
  intros Hm Hr Hq. unfold br_recvTimingReq. rewrite Hq, Hr.
  destruct (reqQueueFull b); [done|]. destruct (respQueueFull b) eqn:E; [done|].
  unfold respQueueFull in E. rewrite E. cbn [negb cassert]. rewrite bind_Ok_l.
  unfold br_edge. destruct (clockEdge _ _ _) as [t clk].
  unfold schedTimingReq. rewrite Hm. cbn [negb andb]. rewrite bind_Ok_l. cbn [br_reqs with_br_clk with_br_retryReq with_br_outstandingResponses].
  intros H. inv_ok. cbn. destruct (br_reqs b) eqn:El; inv_ok; cbn; rewrite El; (split; [done | by eexists]).
Qed.
