(* ===== verification/RRBus.v ===== *)
(** The time-multiplexed bus: mem/rr_bus.hh and rr_bus.cc.  A bus cycle belongs
    to one thread: the cycles are dealt out in turns of [tl], thread after
    thread.  This file holds the timing functions of [RRBus], and its two kinds
    of layer: [Layer], whose state, waiting ports and events are kept per
    thread, and the plain [Layer1], which [BaseBus] of bus.cc has too.

    A function reads the clock through [nextCycle()]; here that is [edge] at
    the current tick [cur] (the cached form is the subject of [ClockedObject]).
    Products of [int]s are exact and sums of [Tick]s are reduced modulo 2^64 at
    the end, which is where a [uint64_t] sum ends up too.  A layer calls out of
    the bus in two places, [sendRetry] of a waiting port and [process] of a
    drain event; both may come back to the bus before they return, so they are
    functions on the whole state [St] of which the layer is a part. *)

From S2P Require Import Prelude Request MemCmd Packet PacketQueue ClockedObject.

(** * The bus and its clock *)

(** The constants of a bus that its timing depends on. *)
Record BusParams := mkBusParams {
  bus_num_pids : Z;
  bus_headerCycles : Z;
  bus_width : Z;
  bus_clock : Z
}.

(** The checks of the constructor [RRBus::RRBus]. *)
Definition RRBus_check (b : BusParams) : result unit :=
  if bus_width b <=? 0 then Err Fatal else
  if bus_clock b <=? 0 then Err Fatal else
  if bus_headerCycles b <=? 0 then Err Fatal else Ok tt.

(** [now = nextCycle() - offset*clock], the first statements of the three
    functions below. *)
Definition rr_now (b : BusParams) (cur offset : Z) : Z :=
  u64 (edge (bus_clock b) cur - offset * bus_clock b).

Definition active_id (b : BusParams) (cur tl offset : Z) : Z :=
  let now := rr_now b cur offset in
  i32 (((now / bus_clock b) mod (bus_num_pids b * tl)) / tl).

Definition turn_begin (b : BusParams) (cur threadID tl offset : Z) : Z :=
  let now := rr_now b cur offset in
  u64 (now - (now / bus_clock b) mod (bus_num_pids b * tl) * bus_clock b
       + threadID * tl * bus_clock b + offset * bus_clock b).

Definition calcFinishTime (b : BusParams) (cur threadID data_size tl offset : Z) : Z :=
  let now := rr_now b cur offset in
  let clock := bus_clock b in
  let remaining_cycles :=
    i32 (tl - 1 - (now / clock) mod (bus_num_pids b * tl) + threadID * tl) in
  if data_size <=? remaining_cycles then
    u64 (now + data_size * clock + offset * clock)
  else
  let num_turns := Z.quot (data_size - remaining_cycles) tl in
  let remaining_data := Z.rem (data_size - remaining_cycles) tl in
  if remaining_data =? 0 then
    u64 (now + remaining_cycles * clock + bus_num_pids b * num_turns * tl * clock
         + offset * clock)
  else
    u64 (now + remaining_cycles * clock + bus_num_pids b * num_turns * tl * clock
         + (bus_num_pids b - 1) * tl * clock + remaining_data * clock + offset * clock).

(** The cycles the payload of a packet takes. *)
Definition data_cycles (b : BusParams) (pkt : Packet) : result Z :=
  if hasData pkt then
    size ← getSize pkt;
    let dataSize := i32 size in
    Ok (Z.quot dataSize (bus_width b)
        + (if Z.rem dataSize (bus_width b) =? 0 then 0 else 1))
  else Ok 0.

(** The two overloads of [calcPacketTiming]: they return the time of the header
    and the packet with its times set. *)
Definition calcPacketTiming (b : BusParams) (cur : Z) (pkt : Packet)
    (threadID tl offset : Z) : result (Z * Packet) :=
  let headerTime := calcFinishTime b cur threadID (bus_headerCycles b) tl offset in
  numCycles ← data_cycles b pkt;
  let pkt := with_pkt_firstWordTime
    (calcFinishTime b cur threadID (bus_headerCycles b + 1) tl offset) pkt in
  let pkt := with_pkt_finishTime
    (calcFinishTime b cur threadID (bus_headerCycles b + numCycles) tl offset) pkt in
  Ok (headerTime, pkt).

Definition calcPacketTiming1 (b : BusParams) (cur : Z) (pkt : Packet)
    : result (Z * Packet) :=
  let now := edge (bus_clock b) cur in
  let headerTime := u64 (now + bus_headerCycles b * bus_clock b) in
  numCycles ← data_cycles b pkt;
  let pkt := with_pkt_firstWordTime (u64 (headerTime + bus_clock b)) pkt in
  let pkt := with_pkt_finishTime (u64 (headerTime + numCycles * bus_clock b)) pkt in
  Ok (headerTime, pkt).

(** * Layers *)

Inductive LState := IDLE | BUSY | RETRY.

#[global] Instance LState_eq_dec : EqDecision LState.
Proof. solve_decision. Defined.

(** [RRBus::Layer]: arrays with an entry per thread.  A port is its id; an
    event is the tick it is scheduled for, if it is. *)
Record Layer := mkLayer {
  ly_state : list LState;
  ly_num_pids : Z;
  ly_tl : Z;
  ly_offset : Z;
  ly_clock : Z;
  ly_drainEvent : option Z;
  ly_retryList : list (list Z);
  ly_releaseEvent : list (option Z);
  ly_retryEvent : list (option Z)
}.

Definition with_ly_state (v : list LState) (r : Layer) : Layer :=
  mkLayer v (ly_num_pids r) (ly_tl r) (ly_offset r) (ly_clock r) (ly_drainEvent r)
    (ly_retryList r) (ly_releaseEvent r) (ly_retryEvent r).
Definition with_ly_drainEvent (v : option Z) (r : Layer) : Layer :=
  mkLayer (ly_state r) (ly_num_pids r) (ly_tl r) (ly_offset r) (ly_clock r) v
    (ly_retryList r) (ly_releaseEvent r) (ly_retryEvent r).
Definition with_ly_retryList (v : list (list Z)) (r : Layer) : Layer :=
  mkLayer (ly_state r) (ly_num_pids r) (ly_tl r) (ly_offset r) (ly_clock r)
    (ly_drainEvent r) v (ly_releaseEvent r) (ly_retryEvent r).
Definition with_ly_releaseEvent (v : list (option Z)) (r : Layer) : Layer :=
  mkLayer (ly_state r) (ly_num_pids r) (ly_tl r) (ly_offset r) (ly_clock r)
    (ly_drainEvent r) (ly_retryList r) v (ly_retryEvent r).
Definition with_ly_retryEvent (v : list (option Z)) (r : Layer) : Layer :=
  mkLayer (ly_state r) (ly_num_pids r) (ly_tl r) (ly_offset r) (ly_clock r)
    (ly_drainEvent r) (ly_retryList r) (ly_releaseEvent r) v.

Definition Layer_new (b : BusParams) (clock tl offset : Z) : Layer :=
  let n := Z.to_nat (bus_num_pids b) in
  mkLayer (replicate n IDLE) (bus_num_pids b) tl offset clock None
    (replicate n []) (replicate n None) (replicate n None).

(** [state[t] = s], and the list operations on [retryList[t]]; [front] and
    [pop_front] of an empty list are undefined. *)
Definition set_state (t : Z) (s : LState) (L : Layer) : result Layer :=
  v ← arr_set (ly_state L) t s; Ok (with_ly_state v L).
Definition push_back (t port : Z) (L : Layer) : result Layer :=
  q ← arr_get (ly_retryList L) t;
  v ← arr_set (ly_retryList L) t (q ++ [port]); Ok (with_ly_retryList v L).
Definition front (t : Z) (L : Layer) : result Z :=
  q ← arr_get (ly_retryList L) t; of_option NullDeref (head q).
Definition pop_front (t : Z) (L : Layer) : result Layer :=
  q ← arr_get (ly_retryList L) t;
  match q with
  | [] => Err NullDeref
  | _ :: q' => v ← arr_set (ly_retryList L) t q'; Ok (with_ly_retryList v L)
  end.

Definition occupyLayer (cur until threadID : Z) (L : Layer) : result Layer :=
  s ← arr_get (ly_state L) threadID;
  cassert (negb (bool_decide (s = IDLE))) ;;
  cassert (negb (until =? 0)) ;;
  e ← arr_get (ly_releaseEvent L) threadID;
  e' ← ev_schedule cur until e;
  v ← arr_set (ly_releaseEvent L) threadID e';
  Ok (with_ly_releaseEvent v L).

(** [tryTiming]: whether the layer takes a packet of the thread from the port
    now; if it is not the thread's turn the port waits for the turn, if the
    layer is busy it waits for the release. *)
Definition tryTiming (b : BusParams) (cur port threadID : Z) (L : Layer)
    : result (bool * Layer) :=
  let now := edge (bus_clock b) cur in
  if negb (active_id b cur (ly_tl L) (ly_offset L) =? threadID) then
    L ← push_back threadID port L;
    let retryTime := turn_begin b cur threadID (ly_tl L) (ly_offset L) in
    let retryTime := if retryTime <? now
      then u64 (retryTime + ly_clock L * ly_num_pids L * ly_tl L) else retryTime in
    e ← arr_get (ly_retryEvent L) threadID;
    if scheduled e then Ok (false, L) else
    e' ← ev_schedule cur retryTime e;
    v ← arr_set (ly_retryEvent L) threadID e';
    Ok (false, with_ly_retryEvent v L)
  else
  s ← arr_get (ly_state L) threadID;
  other ← match s with
          | RETRY => f ← front threadID L; Ok (negb (port =? f))
          | _ => Ok false
          end;
  if bool_decide (s = BUSY) || other then
    L ← push_back threadID port L; Ok (false, L)
  else
  match s with
  | IDLE => L ← set_state threadID BUSY L; Ok (true, L)
  | _ => Ok (true, L)
  end.

Definition succeededTiming (cur busy_time threadID : Z) (L : Layer) : result Layer :=
  s ← arr_get (ly_state L) threadID;
  L ← match s with
      | RETRY => L ← pop_front threadID L; set_state threadID BUSY L
      | _ => Ok L
      end;
  s ← arr_get (ly_state L) threadID;
  cassert (bool_decide (s = BUSY)) ;;
  occupyLayer cur busy_time threadID L.

Definition failedTiming (cur port busy_time threadID : Z) (L : Layer) : result Layer :=
  s ← arr_get (ly_state L) threadID;
  other ← match s with
          | RETRY => f ← front threadID L; Ok (negb (port =? f))
          | _ => Ok true
          end;
  L ← (if (other : bool) then push_back threadID port L else Ok L);
  L ← set_state threadID BUSY L;
  occupyLayer cur busy_time threadID L.

(** [drain]: looks at the first thread. *)
Definition Layer_drain (de : Z) (L : Layer) : result (Z * Layer) :=
  q ← arr_get (ly_retryList L) 0;
  s ← arr_get (ly_state L) 0;
  if negb (bool_decide (q = [])) || negb (bool_decide (s = IDLE))
  then Ok (1, with_ly_drainEvent (Some de) L) else Ok (0, L).

(** A part of a larger state. *)
Record Lens (St L : Type) := mkLens { lget : St -> L; lset : L -> St -> St }.
Arguments mkLens {St L} _ _.
Arguments lget {St L} _ _.
Arguments lset {St L} _ _ _.

Section Callbacks.

Context {St : Type} (lens : Lens St Layer).
Context (sendRetry : Z -> Z -> St -> result St).
Context (process : Z -> St -> result St).

(** [retryWaiting]: offer the layer to the first port that waits for the thread
    whose turn it is; a port that does not use the offer costs a cycle. *)
Definition retryWaiting (b : BusParams) (cur : Z) (s : St) : result St :=
  let L := lget lens s in
  let threadID := active_id b cur (ly_tl L) (ly_offset L) in
  q ← arr_get (ly_retryList L) threadID;
  cassert (negb (bool_decide (q = []))) ;;
  st ← arr_get (ly_state L) threadID;
  if negb (bool_decide (st = IDLE)) then Ok s else
  L ← set_state threadID RETRY L;
  f ← front threadID L;
  s ← sendRetry f threadID (lset lens L s);
  let L := lget lens s in
  st ← arr_get (ly_state L) threadID;
  if bool_decide (st = RETRY) then
    L ← pop_front threadID L;
    L ← set_state threadID BUSY L;
    L ← occupyLayer cur (calcFinishTime b cur threadID 1 (ly_tl L) (ly_offset L)) threadID L;
    Ok (lset lens L s)
  else Ok s.

(** [releaseLayer], the action of every release event: it works on the thread
    whose turn it is, not on the thread whose event it is. *)
Definition releaseLayer (b : BusParams) (cur : Z) (s : St) : result St :=
  let L := lget lens s in
  let threadID := active_id b cur (ly_tl L) (ly_offset L) in
  st ← arr_get (ly_state L) threadID;
  cassert (bool_decide (st = BUSY)) ;;
  e ← arr_get (ly_releaseEvent L) threadID;
  cassert (negb (scheduled e)) ;;
  L ← set_state threadID IDLE L;
  let s := lset lens L s in
  q ← arr_get (ly_retryList L) threadID;
  if negb (bool_decide (q = [])) then retryWaiting b cur s else
  match ly_drainEvent L with
  | Some de =>
      s ← process de s;
      Ok (lset lens (with_ly_drainEvent None (lget lens s)) s)
  | None => Ok s
  end.

Definition Layer_recvRetry (b : BusParams) (cur threadID : Z) (s : St) : result St :=
  let L := lget lens s in
  q ← arr_get (ly_retryList L) threadID;
  if bool_decide (q = []) then Ok s else
  st ← arr_get (ly_state L) threadID;
  if bool_decide (st = IDLE) then retryWaiting b cur s else Ok s.

End Callbacks.

(** * The plain layer *)

(** [RRBus::Layer1], the same code as [BaseBus::Layer] of bus.cc: one state for
    all threads. *)
Record Layer1 := mkLayer1 {
  l1_state : LState;
  l1_clock : Z;
  l1_drainEvent : option Z;
  l1_retryList : list Z;
  l1_releaseEvent1 : option Z
}.

Definition with_l1_state (v : LState) (r : Layer1) : Layer1 :=
  mkLayer1 v (l1_clock r) (l1_drainEvent r) (l1_retryList r) (l1_releaseEvent1 r).
Definition with_l1_drainEvent (v : option Z) (r : Layer1) : Layer1 :=
  mkLayer1 (l1_state r) (l1_clock r) v (l1_retryList r) (l1_releaseEvent1 r).
Definition with_l1_retryList (v : list Z) (r : Layer1) : Layer1 :=
  mkLayer1 (l1_state r) (l1_clock r) (l1_drainEvent r) v (l1_releaseEvent1 r).
Definition with_l1_releaseEvent1 (v : option Z) (r : Layer1) : Layer1 :=
  mkLayer1 (l1_state r) (l1_clock r) (l1_drainEvent r) (l1_retryList r) v.

Definition Layer1_new (clock : Z) : Layer1 := mkLayer1 IDLE clock None [] None.

Definition push_back1 (port : Z) (L : Layer1) : Layer1 :=
  with_l1_retryList (l1_retryList L ++ [port]) L.
Definition front1 (L : Layer1) : result Z := of_option NullDeref (head (l1_retryList L)).
Definition pop_front1 (L : Layer1) : result Layer1 :=
  match l1_retryList L with
  | [] => Err NullDeref
  | _ :: q => Ok (with_l1_retryList q L)
  end.

Definition occupyLayer1 (cur until : Z) (L : Layer1) : result Layer1 :=
  cassert (negb (bool_decide (l1_state L = IDLE))) ;;
  cassert (negb (until =? 0)) ;;
  e ← ev_schedule cur until (l1_releaseEvent1 L);
  Ok (with_l1_releaseEvent1 e L).

Definition tryTiming1 (port : Z) (L : Layer1) : result (bool * Layer1) :=
  other ← match l1_state L with
          | RETRY => f ← front1 L; Ok (negb (port =? f))
          | _ => Ok false
          end;
  if bool_decide (l1_state L = BUSY) || other then Ok (false, push_back1 port L)
  else
  match l1_state L with
  | IDLE => Ok (true, with_l1_state BUSY L)
  | _ => Ok (true, L)
  end.

Definition succeededTiming1 (cur busy_time : Z) (L : Layer1) : result Layer1 :=
  L ← match l1_state L with
      | RETRY => L ← pop_front1 L; Ok (with_l1_state BUSY L)
      | _ => Ok L
      end;
  cassert (bool_decide (l1_state L = BUSY)) ;;
  occupyLayer1 cur busy_time L.

Definition failedTiming1 (cur port busy_time : Z) (L : Layer1) : result Layer1 :=
  other ← match l1_state L with
          | RETRY => f ← front1 L; Ok (negb (port =? f))
          | _ => Ok true
          end;
  let L := if (other : bool) then push_back1 port L else L in
  occupyLayer1 cur busy_time (with_l1_state BUSY L).

Definition Layer1_drain (de : Z) (L : Layer1) : Z * Layer1 :=
  if negb (bool_decide (l1_retryList L = [])) || negb (bool_decide (l1_state L = IDLE))
  then (1, with_l1_drainEvent (Some de) L) else (0, L).

Section Callbacks1.

Context {St : Type} (lens : Lens St Layer1).
Context (sendRetry : Z -> St -> result St).
Context (process : Z -> St -> result St).

Definition retryWaiting1 (b : BusParams) (cur : Z) (s : St) : result St :=
  let L := lget lens s in
  cassert (negb (bool_decide (l1_retryList L = []))) ;;
  cassert (bool_decide (l1_state L = IDLE)) ;;
  let L := with_l1_state RETRY L in
  f ← front1 L;
  s ← sendRetry f (lset lens L s);
  let L := lget lens s in
  if bool_decide (l1_state L = RETRY) then
    L ← pop_front1 L;
    let now := edge (bus_clock b) cur in
    L ← occupyLayer1 cur (u64 (now + l1_clock L)) (with_l1_state BUSY L);
    Ok (lset lens L s)
  else Ok s.

Definition releaseLayer1 (b : BusParams) (cur : Z) (s : St) : result St :=
  let L := lget lens s in
  cassert (bool_decide (l1_state L = BUSY)) ;;
  cassert (negb (scheduled (l1_releaseEvent1 L))) ;;
  let L := with_l1_state IDLE L in
  let s := lset lens L s in
  if negb (bool_decide (l1_retryList L = [])) then retryWaiting1 b cur s else
  match l1_drainEvent L with
  | Some de =>
      s ← process de s;
      Ok (lset lens (with_l1_drainEvent None (lget lens s)) s)
  | None => Ok s
  end.

Definition Layer1_recvRetry (b : BusParams) (cur : Z) (s : St) : result St :=
  let L := lget lens s in
  if bool_decide (l1_retryList L = []) then Ok s else
  if bool_decide (l1_state L = IDLE) then retryWaiting1 b cur s else Ok s.

End Callbacks1.

(** * Theorems

    The time slots of the round-robin bus.  A bus cycle has one owner; the
    arithmetic of [calcFinishTime] and [turn_begin] is compared here with a
    reference that steps from slot to slot. *)

(** * Who owns a cycle *)

Section Slots.

Context (n tl : Z).

Definition owner (c : Z) : Z := (c mod (n * tl)) / tl.

(** The first cycle after [c] that thread [t] owns. *)
Definition next_own (t c : Z) : Z :=
  if owner (c + 1) =? t then c + 1 else c + 1 + (t * tl - (c + 1)) mod (n * tl).

(** The [i]-th cycle of thread [t], from the start. *)
Definition slot (t i : Z) : Z := i / tl * (n * tl) + t * tl + i mod tl.

Hypothesis Hn : 0 < n.
Hypothesis Ht : 0 < tl.

Lemma owner_of a t r : 0 <= t < n -> 0 <= r < tl -> owner (a * (n * tl) + t * tl + r) = t.
Proof.
  intros. unfold owner.
  rewrite <- Z.add_assoc, Z.add_comm, Z.mod_add by nia.
  rewrite Z.mod_small by nia.
  symmetry. apply (Z.div_unique _ _ _ r); lia.
Qed.

Lemma owner_decompose c : exists a r,
  c = a * (n * tl) + owner c * tl + r /\ 0 <= r < tl /\ 0 <= owner c < n.
Proof.
  exists (c / (n * tl)), ((c mod (n * tl)) mod tl). unfold owner.
  pose proof (Z.div_mod c (n * tl) ltac:(nia)).
  pose proof (Z.div_mod (c mod (n * tl)) tl ltac:(lia)).
  pose proof (Z.mod_pos_bound c (n * tl) ltac:(nia)).
  pose proof (Z.mod_pos_bound (c mod (n * tl)) tl ltac:(lia)).
  split_and!; try lia.
  - apply Z.div_pos; lia.
  - apply Z.div_lt_upper_bound; lia.
Qed.

Lemma owner_range c : 0 <= owner c < n.
Proof. destruct (owner_decompose c) as (?&?&?&?&?). done. Qed.

Lemma owner_slot t i : 0 <= t < n -> owner (slot t i) = t.
Proof. intros. apply owner_of; [done|]. apply Z.mod_pos_bound. lia. Qed.

Lemma slot_of c : exists i, c = slot (owner c) i.
Proof.
  destruct (owner_decompose c) as (a & r & Hc & Hr & _).
  exists (a * tl + r). unfold slot.
  rewrite Z.add_comm with (n := a * tl), Z.div_add, Z.mod_add by lia.
  rewrite Z.div_small, Z.mod_small by lia. lia.
Qed.

(** Consecutive slots of a thread: no cycle between them is its own. *)
Lemma slot_gap t i x : 0 <= t < n -> slot t i < x < slot t (i + 1) -> owner x <> t.
Proof.
  intros Hr Hx Ho. destruct (slot_of x) as (j & Hj). rewrite Ho in Hj. subst x.
  assert (Hmono : forall a b, a <= b -> slot t a <= slot t b).
  { intros p q Hpq. unfold slot.
    pose proof (Z.div_mod p tl ltac:(lia)). pose proof (Z.div_mod q tl ltac:(lia)).
    pose proof (Z.mod_pos_bound p tl ltac:(lia)).
    pose proof (Z.mod_pos_bound q tl ltac:(lia)).
    pose proof (Z.div_le_mono p q tl ltac:(lia) Hpq).
    destruct (decide (p / tl = q / tl)) as [E|E]; [rewrite E in *; lia|].
    assert ((q / tl - p / tl) * (n * tl) >= n * tl) by nia. nia. }
  destruct (decide (j <= i)) as [E|E].
  - specialize (Hmono j i E). lia.
  - specialize (Hmono (i + 1) j ltac:(lia)). lia.
Qed.

Lemma slot_succ_gt t i : 0 <= t < n -> slot t i < slot t (i + 1) <= slot t i + n * tl.
Proof.
  intros. unfold slot.
  pose proof (Z.div_mod i tl ltac:(lia)). pose proof (Z.div_mod (i + 1) tl ltac:(lia)).
  pose proof (Z.mod_pos_bound i tl ltac:(lia)).
  pose proof (Z.mod_pos_bound (i + 1) tl ltac:(lia)).
  assert ((i + 1) / tl = i / tl \/ (i + 1) / tl = i / tl + 1) as [E|E].
  { pose proof (Z.div_le_mono i (i + 1) tl ltac:(lia) ltac:(lia)). nia. }
  - rewrite E in *. nia.
  - rewrite E in *. nia.
Qed.

Lemma slot_add t i d : 0 <= t < n -> 0 <= d ->
  slot t i <= slot t (i + d) <= slot t i + d * (n * tl).
Proof.
  intros Hr Hd. replace d with (Z.of_nat (Z.to_nat d)) by lia.
  generalize (Z.to_nat d). intros k. induction k as [|k IH]; [rewrite Z.add_0_r; lia|].
  replace (i + Z.of_nat (S k)) with (i + Z.of_nat k + 1) by lia.
  pose proof (slot_succ_gt t (i + Z.of_nat k) Hr). lia.
Qed.

(** [next_own] is what its name says. *)
Lemma next_own_spec t c : 0 <= t < n ->
  c < next_own t c /\ owner (next_own t c) = t /\
  (forall x, c < x < next_own t c -> owner x <> t).
Proof.
  intros Hr. unfold next_own. destruct (owner (c + 1) =? t) eqn:E; zb.
  { split_and!; [lia | done | lia]. }
  set (P := n * tl). assert (0 < P) by (unfold P; nia).
  set (g := (t * tl - (c + 1)) mod P).
  pose proof (Z.mod_pos_bound (t * tl - (c + 1)) P ltac:(lia)) as Hg. fold g in Hg.
  assert (Hv : exists a, c + 1 + g = a * P + t * tl + 0).
  { exists (- ((t * tl - (c + 1)) / P)).
    pose proof (Z.div_mod (t * tl - (c + 1)) P ltac:(lia)). fold g in H0. nia. }
  destruct Hv as [a Ha].
  split_and!; [lia | |].
  - rewrite Ha. apply owner_of; lia.
  - intros x Hx Ho. destruct (owner_decompose x) as (a' & r & Hx' & Hr' & _).
    rewrite Ho in Hx'. fold P in Hx'.
    assert (tl <= P) by (unfold P; nia).
    assert (a' < a) by nia.
    assert (~ a' <= a - 2).
    { intros Hle. pose proof (Z.mul_le_mono_nonneg_r a' (a - 2) P ltac:(lia) Hle). lia. }
    assert (a' = a - 1) by lia. subst a'.
    (* then [x] and [c + 1] lie in the same earlier turn of [t] *)
    apply E. assert (c + 1 >= (a - 1) * P + t * tl + 0) by lia.
    replace (c + 1) with ((a - 1) * P + t * tl + (r - (x - (c + 1)))) by lia.
    apply owner_of; lia.
Qed.

Lemma next_own_unique t c c' : 0 <= t < n ->
  c < c' -> owner c' = t -> (forall x, c < x < c' -> owner x <> t) -> next_own t c = c'.
Proof.
  intros Hr Hlt Ho Hno. destruct (next_own_spec t c Hr) as (H1 & H2 & H3).
  destruct (Z.lt_trichotomy (next_own t c) c') as [H|[H|H]]; [|done|].
  - exfalso. apply (Hno (next_own t c)); [lia | done].
  - exfalso. apply (H3 c'); [lia | done].
Qed.

Lemma next_own_slot t i : 0 <= t < n -> next_own t (slot t i) = slot t (i + 1).
Proof.
  intros Hr. apply next_own_unique; [done| | |].
  - by apply slot_succ_gt.
  - by apply owner_slot.
  - intros x Hx. by apply (slot_gap t i).
Qed.

Lemma iter_next_own t i k : 0 <= t < n ->
  Nat.iter k (next_own t) (slot t i) = slot t (i + Z.of_nat k).
Proof.
  intros Hr. induction k as [|k IH].
  { cbn. by rewrite Z.add_0_r. }
  replace (i + Z.of_nat (S k)) with (i + Z.of_nat k + 1) by lia.
  rewrite <- next_own_slot, <- IH by done. reflexivity.
Qed.

End Slots.

#[export] Hint Resolve owner_range : cpp.

(** * The arithmetic of the source *)

(** A usable configuration of a layer: positive counts whose product is an
    [int], and an offset that is not negative. *)
Record timing (b : BusParams) (tl offset : Z) : Prop := {
  tm_n : 0 < bus_num_pids b;
  tm_tl : 0 < tl;
  tm_clock : 0 < bus_clock b;
  tm_offset : 0 <= offset;
  tm_int : bus_num_pids b * tl < 2 ^ 31
}.

(** At the tick [cur] the offset has elapsed and [d] more slots of a thread end
    before the clock wraps around. *)
Definition in_time (b : BusParams) (tl offset cur d : Z) : Prop :=
  offset * bus_clock b <= cur /\
  cur + bus_clock b + (d + 1) * (bus_num_pids b * tl) * bus_clock b < 2 ^ 64.

(** The number of the bus cycle at the tick [cur], counted from the offset, and
    the tick of a cycle. *)
Definition rr_cycle (b : BusParams) (cur offset : Z) : Z :=
  edge (bus_clock b) cur / bus_clock b - offset.
Definition cycle_tick (b : BusParams) (offset c : Z) : Z := (c + offset) * bus_clock b.

Section Timing.

Context (b : BusParams) (tl offset : Z) (Htm : timing b tl offset).

Abbreviation n := (bus_num_pids b).
Abbreviation clock := (bus_clock b).

Lemma edge_cycle cur : edge clock cur = cycle_tick b offset (rr_cycle b cur offset).
Proof.
  destruct Htm. unfold cycle_tick, rr_cycle.
  destruct (edge_spec clock cur) as [_ Hm]; [done|].
  apply Z.mod_divide in Hm as [q ->]; [|lia]. rewrite Z.div_mul by lia. lia.
Qed.

(** A tick on the clock is the edge of its own cycle. *)
Lemma cycle_tick_edge c : edge clock (cycle_tick b offset c) = cycle_tick b offset c.
Proof. destruct Htm. apply edge_aligned; [done|]. unfold cycle_tick. by apply Z.mod_mul; lia. Qed.

Lemma cycle_tick_cycle c : rr_cycle b (cycle_tick b offset c) offset = c.
Proof.
  destruct Htm. unfold rr_cycle. rewrite cycle_tick_edge. unfold cycle_tick.
  rewrite Z.div_mul by lia. lia.
Qed.

Lemma cycle_tick_lt c c' : c < c' <-> cycle_tick b offset c < cycle_tick b offset c'.
Proof. destruct Htm. unfold cycle_tick. nia. Qed.

Lemma cycle_tick_le c c' : c <= c' <-> cycle_tick b offset c <= cycle_tick b offset c'.
Proof. destruct Htm. unfold cycle_tick. nia. Qed.

Lemma in_time_bounds cur d : 0 <= d -> in_time b tl offset cur d ->
  0 <= rr_cycle b cur offset /\ 0 <= edge clock cur < 2 ^ 64 /\
  cycle_tick b offset (rr_cycle b cur offset + (d + 1) * (n * tl)) < 2 ^ 64.
Proof.
  destruct Htm. intros Hd [Hlo Hhi].
  destruct (edge_spec clock cur) as [He _]; [done|].
  pose proof (edge_cycle cur) as Hc. unfold cycle_tick in *.
  assert (0 <= offset * clock) by nia.
  assert (0 <= (d + 1) * (n * tl) * clock) by nia.
  split_and!; try lia; nia.
Qed.

Lemma rr_now_cycle cur d : 0 <= d -> in_time b tl offset cur d ->
  rr_now b cur offset = rr_cycle b cur offset * clock /\
  rr_now b cur offset / clock = rr_cycle b cur offset.
Proof.
  destruct Htm. intros Hd Ht. destruct (in_time_bounds cur d Hd Ht) as (Hc & He & _).
  assert (rr_now b cur offset = rr_cycle b cur offset * clock) as E.
  { unfold rr_now. rewrite edge_cycle in *. unfold cycle_tick in *.
    rewrite u64_small; [lia|]. nia. }
  split; [done|]. rewrite E. apply Z.div_mul. lia.
Qed.

Lemma active_id_owner cur d : 0 <= d -> in_time b tl offset cur d ->
  active_id b cur tl offset = owner n tl (rr_cycle b cur offset).
Proof.
  intros Hd Ht. unfold active_id. destruct (rr_now_cycle cur d Hd Ht) as [_ ->].
  fold (owner n tl (rr_cycle b cur offset)). destruct Htm.
  pose proof (owner_range n tl ltac:(done) ltac:(done) (rr_cycle b cur offset)).
  apply i32_small. nia.
Qed.

(** The closed form of [calcFinishTime], with the slots of the thread counted. *)
Lemma calcFinishTime_slot cur t d i : 1 <= d -> in_time b tl offset cur d ->
  0 <= t < n -> rr_cycle b cur offset = slot n tl t i ->
  calcFinishTime b cur t d tl offset = cycle_tick b offset (slot n tl t (i + d)).
Proof.
  intros Hd Ht Hr Hc. unfold calcFinishTime.
  destruct (rr_now_cycle cur d ltac:(lia) Ht) as [E1 E2]. rewrite E2, E1, Hc.
  destruct (in_time_bounds cur d ltac:(lia) Ht) as (Hc0 & He & Hb).
  rewrite Hc in Hc0, Hb. pose proof Htm as [? ? ? ? ?].
  pose proof (Z.div_mod i tl ltac:(lia)) as Hi.
  pose proof (Z.mod_pos_bound i tl ltac:(lia)) as Hri.
  set (a := i / tl) in *. set (r := i mod tl) in *.
  assert (Hs : slot n tl t i = a * (n * tl) + t * tl + r) by reflexivity.
  assert (Hm : slot n tl t i mod (n * tl) = t * tl + r).
  { rewrite Hs, <- Z.add_assoc, Z.add_comm, Z.mod_add by nia. apply Z.mod_small. nia. }
  rewrite Hm. replace (tl - 1 - (t * tl + r) + t * tl) with (tl - 1 - r) by lia.
  rewrite i32_small by nia.
  (* the formula for the sum of the own index *)
  assert (Hform : forall q w, i + d = (a + q) * tl + w -> 0 <= w < tl ->
    slot n tl t (i + d) = (a + q) * (n * tl) + t * tl + w).
  { intros q w E Hw. unfold slot. rewrite E.
    rewrite Z.add_comm with (n := (a + q) * tl), Z.div_add, Z.mod_add by lia.
    rewrite Z.div_small, Z.mod_small by lia. lia. }
  pose proof (slot_add n tl ltac:(done) ltac:(done) t i d Hr ltac:(lia)) as [Hge Hle].
  assert (Hw : 0 <= cycle_tick b offset (slot n tl t (i + d)) < 2 ^ 64).
  { unfold cycle_tick in *. nia. }
  assert (Hdone : forall z, z = cycle_tick b offset (slot n tl t (i + d)) ->
    u64 z = cycle_tick b offset (slot n tl t (i + d))).
  { intros z ->. by apply u64_small. }
  destruct (Z.leb_spec d (tl - 1 - r)).
  { apply Hdone. rewrite (Hform 0 (r + d)) by lia. unfold cycle_tick. lia. }
  rewrite Z.quot_div_nonneg, Z.rem_mod_nonneg by lia.
  set (k := d - (tl - 1 - r)).
  pose proof (Z.div_mod k tl ltac:(lia)) as Hk.
  pose proof (Z.mod_pos_bound k tl ltac:(lia)) as Hrk.
  destruct (Z.eqb_spec (k mod tl) 0) as [E|E]; apply Hdone.
  - rewrite (Hform (k / tl) (tl - 1)) by nia. unfold cycle_tick. nia.
  - rewrite (Hform (k / tl + 1) (k mod tl - 1)) by nia. unfold cycle_tick. nia.
Qed.

(** When the turn of [t] comes next, from a cycle that is not its own: the tick
    at which [tryTiming] schedules the retry. *)
Lemma retry_time_next cur t : in_time b tl offset cur 0 -> 0 <= t < n ->
  owner n tl (rr_cycle b cur offset) <> t ->
  (let retryTime := turn_begin b cur t tl offset in
   if retryTime <? edge clock cur then u64 (retryTime + clock * n * tl) else retryTime)
  = cycle_tick b offset (next_own n tl t (rr_cycle b cur offset)).
Proof.
  intros Ht Hr Ho. unfold turn_begin.
  destruct (rr_now_cycle cur 0 ltac:(lia) Ht) as [E1 E2]. rewrite E2, E1.
  destruct (in_time_bounds cur 0 ltac:(lia) Ht) as (Hc0 & He & Hb).
  rewrite edge_cycle in *. pose proof Htm as [? ? ? ? ?].
  set (c := rr_cycle b cur offset) in *.
  destruct (owner_decompose n tl ltac:(done) ltac:(done) c) as (a & r & Hc & Hrr & Hor).
  set (o := owner n tl c) in *.
  assert (Hm : c mod (n * tl) = o * tl + r).
  { rewrite Hc at 1. rewrite <- Z.add_assoc, Z.add_comm, Z.mod_add by nia.
    apply Z.mod_small. nia. }
  rewrite Hm.
  replace (c * clock - (o * tl + r) * clock + t * tl * clock + offset * clock)
    with (cycle_tick b offset (a * (n * tl) + t * tl)) by (unfold cycle_tick; nia).
  assert (Ha : 0 <= a) by nia.
  assert (a * (n * tl) + t * tl < c + n * tl) by nia.
  rewrite u64_small by (unfold cycle_tick in *; nia).
  assert (Hnext : forall a', (a' = a /\ o < t) \/ (a' = a + 1 /\ t < o) ->
    next_own n tl t c = a' * (n * tl) + t * tl).
  { intros a' Ha'. apply next_own_unique; try done.
    - nia.
    - rewrite <- (Z.add_0_r (_ + _)). apply owner_of; lia.
    - intros x Hx Hox. destruct (owner_decompose n tl ltac:(done) ltac:(done) x)
        as (ax & rx & Hx' & Hrx & _). rewrite Hox in Hx'.
      assert (ax < a') by nia. destruct Ha' as [[-> ?]|[-> ?]]; [nia|].
      assert (ax <= a) by lia. nia. }
  destruct (Z.ltb_spec (cycle_tick b offset (a * (n * tl) + t * tl)) (cycle_tick b offset c))
    as [Hlt|Hge].
  - rewrite <- cycle_tick_lt in Hlt. rewrite (Hnext (a + 1)) by nia.
    replace (cycle_tick b offset (a * (n * tl) + t * tl) + clock * n * tl)
      with (cycle_tick b offset ((a + 1) * (n * tl) + t * tl)) by (unfold cycle_tick; nia).
    apply u64_small. unfold cycle_tick in *. nia.
  - rewrite <- cycle_tick_le in Hge. rewrite (Hnext a) by nia. done.
Qed.

End Timing.

(** In its own turn, a transfer of [d] cycles that starts now ends in the
    [d]-th cycle of the thread after this one, wherever the turns fall and
    whatever the offset: the division and the remainders of [calcFinishTime]
    count exactly the thread's own slots.  So the transfer ends in the thread's
    own turn. *)
Theorem calcFinishTime_reference b tl offset cur t d :
  timing b tl offset -> 1 <= d -> in_time b tl offset cur d ->
  active_id b cur tl offset = t ->
  let finish := calcFinishTime b cur t d tl offset in
  finish = cycle_tick b offset
    (Nat.iter (Z.to_nat d) (next_own (bus_num_pids b) tl t) (rr_cycle b cur offset)) /\
  (in_time b tl offset finish 0 -> active_id b finish tl offset = t).
Proof.
  intros Htm Hd Hin Ha. pose proof Htm as [? ? ? ? ?].
  rewrite (active_id_owner b tl offset Htm cur d) in Ha by (done || lia).
  pose proof (owner_range (bus_num_pids b) tl ltac:(done) ltac:(done) (rr_cycle b cur offset)) as Hr.
  destruct (slot_of (bus_num_pids b) tl ltac:(done) ltac:(done) (rr_cycle b cur offset))
    as [i Hi]. rewrite Ha in Hi, Hr.
  cbv zeta. rewrite (calcFinishTime_slot b tl offset Htm cur t d i) by done. split.
  - rewrite Hi, iter_next_own by done. by rewrite Z2Nat.id by lia.
  - intros Hf. rewrite (active_id_owner b tl offset Htm _ 0) by (done || lia).
    rewrite (cycle_tick_cycle b tl offset Htm). by apply owner_slot.
Qed.

(** Two threads with turns of 3 cycles of 1000 ticks, offset 2: a transfer of 5
    cycles of thread 1 that starts in the middle of its turn. *)
Lemma calcFinishTime_reference_witness :
  let b := mkBusParams 2 1 8 1000 in
  let finish := calcFinishTime b 6500 1 5 3 2 in
  finish = cycle_tick b 2 (Nat.iter (Z.to_nat 5) (next_own 2 3 1) (rr_cycle b 6500 2)) /\
  (in_time b 3 2 finish 0 -> active_id b finish 3 2 = 1).
Proof.
  apply (calcFinishTime_reference (mkBusParams 2 1 8 1000) 3 2 6500 1 5).
  - split; cbn; lia.
  - lia.
  - split; cbn; lia.
  - vm_compute. reflexivity.
Defined.
