(* ===== verification/LayerTrace.v ===== *)
(** Timed executions of a round-robin layer: sends of the threads' ports at any
    tick, and the layer's own events when they are due.  Threads do not
    interfere, none of these steps fails an assertion, and no waiting port is
    forgotten.  The retry of a destination, [Layer::recvRetry], is not one of
    the steps: it can fail ([recvRetry_off_turn_faults]). *)

From S2P Require Import Prelude Request MemCmd Packet PacketQueue ClockedObject RRBus LayerSpec.

(** * Steps *)

(** A step of a layer: a port sends, or an event fires; with an event, the sends
    by which the port that is offered a retry reacts at once. *)
Inductive LOp :=
  | LSend (a : Attempt)
  | LRelease (t : Z) (rs : list Attempt)
  | LRetry (t : Z) (rs : list Attempt).

Definition op_thread (op : LOp) : Z :=
  match op with LSend a => at_thread a | LRelease t _ | LRetry t _ => t end.

(** The event queue takes an event off before it runs it. *)
Definition lstep (b : BusParams) (cur : Z) (op : LOp) (s : Layer * Log)
    : result (Layer * Log) :=
  match op with
  | LSend a => log_send b cur s a
  | LRelease t rs =>
      v ← arr_set (ly_releaseEvent s.1) t None;
      releaseLayer logged (react b cur rs) (fun _ s => Ok s) b cur
        (with_ly_releaseEvent v s.1, s.2)
  | LRetry t rs =>
      v ← arr_set (ly_retryEvent s.1) t None;
      retryWaiting logged (react b cur rs) b cur (with_ly_retryEvent v s.1, s.2)
  end.

Definition not_overdue (cur : Z) (e : option Z) : bool :=
  match e with Some k => cur <=? k | None => true end.

Definition attempt_ok (t D : Z) (a : Attempt) : bool :=
  (at_thread a =? t) && (1 <=? at_cycles a) && (at_cycles a <=? D).

(** When a step can happen at the tick [cur]: the clock is in range for
    transfers of up to [D] cycles; no event of the thread is overdue; an event
    fires when it is due, and the two events of a thread that are due together
    fire in the order of the event queue, the one scheduled last (the retry)
    first. *)
Definition op_ready (b : BusParams) (tl offset D cur : Z) (op : LOp) (c : Cell) : bool :=
  (offset * bus_clock b <=? cur) &&
  (cur + bus_clock b + (D + 1) * (bus_num_pids b * tl) * bus_clock b <? 2 ^ 64) &&
  not_overdue cur (c_release c) && not_overdue cur (c_retry c) &&
  match op with
  | LSend a => attempt_ok (at_thread a) D a
  | LRelease t rs =>
      bool_decide (c_release c = Some cur) && negb (bool_decide (c_retry c = Some cur)) &&
      forallb (attempt_ok t D) rs
  | LRetry t rs =>
      bool_decide (c_retry c = Some cur) && forallb (attempt_ok t D) rs
  end.

Inductive lexec (b : BusParams) (tl offset D : Z)
    : Layer * Log -> list (Z * LOp) -> Layer * Log -> Prop :=
  | lexec_nil s : lexec b tl offset D s [] s
  | lexec_cons s cur op c s1 tr s2 :
      cell_at (op_thread op) s.1 = Some c ->
      op_ready b tl offset D cur op c = true ->
      lstep b cur op s = Ok s1 ->
      lexec b tl offset D s1 tr s2 ->
      lexec b tl offset D s ((cur, op) :: tr) s2.

(** The step of a cell. *)
Definition cell_step (b : BusParams) (tl offset cur : Z) (op : LOp) (s : Cell * Log)
    : result (Cell * Log) :=
  let t := op_thread op in
  let own := own_now b cur tl offset t in
  let turn := turn_at b cur tl offset t in
  let fin := finish_at b cur tl offset t in
  match op with
  | LSend a => cell_log_send cur own turn fin s a
  | LRelease _ rs =>
      cell_releaseLayer cur own turn fin t rs (with_c_release None s.1, s.2)
  | LRetry _ rs =>
      cell_retryWaiting cur own turn fin t rs (with_c_retry None s.1, s.2)
  end.

(** * A step is the step of one cell *)

(** The ticks that fall in the turns of a thread, and the events of a cell that
    are scheduled for such ticks. *)
Definition own_tick (b : BusParams) (tl offset t k : Z) : Prop :=
  exists x, k = cycle_tick b offset x /\ owner (bus_num_pids b) tl x = t.

Definition own_events (b : BusParams) (tl offset t : Z) (c : Cell) : Prop :=
  (forall k, c_release c = Some k -> own_tick b tl offset t k) /\
  (forall k, c_retry c = Some k -> own_tick b tl offset t k).

Section Steps.

Context (b : BusParams) (tl offset D : Z) (Htm : timing b tl offset) (HD : 1 <= D).

Lemma in_time_le cur d : 0 <= d <= D -> in_time b tl offset cur D -> in_time b tl offset cur d.
Proof.
  intros Hd [H1 H2]. split; [done|]. destruct Htm.
  assert ((d + 1) * (bus_num_pids b * tl) * bus_clock b
          <= (D + 1) * (bus_num_pids b * tl) * bus_clock b) by nia. lia.
Qed.

Lemma own_tick_active t k : own_tick b tl offset t k -> in_time b tl offset k D ->
  active_id b k tl offset = t.
Proof.
  intros (x & -> & <-) Hin. rewrite (active_id_owner b tl offset Htm _ D) by (done || lia).
  by rewrite (cycle_tick_cycle b tl offset Htm).
Qed.

Lemma finish_own cur t d : in_time b tl offset cur D -> own_now b cur tl offset t = true ->
  1 <= d <= D ->
  own_tick b tl offset t (finish_at b cur tl offset t d) /\
  edge (bus_clock b) cur < finish_at b cur tl offset t d.
Proof.
  unfold own_now, finish_at. intros Hin Ho Hd. zb. pose proof Htm as [? ? ? ? ?].
  rewrite (active_id_owner b tl offset Htm cur D) in Ho by (done || lia).
  pose proof (owner_range (bus_num_pids b) tl ltac:(done) ltac:(done)
    (rr_cycle b cur offset)) as Hr.
  destruct (slot_of (bus_num_pids b) tl ltac:(done) ltac:(done) (rr_cycle b cur offset))
    as [i Hi]. rewrite Ho in Hi, Hr.
  rewrite (calcFinishTime_slot b tl offset Htm cur t d i)
    by first [done | lia | apply in_time_le; [lia|done]].
  split.
  - eexists. split; [done|]. by apply owner_slot.
  - rewrite (edge_cycle b tl offset Htm), <- (cycle_tick_lt b tl offset Htm), Hi.
    pose proof (slot_succ_gt (bus_num_pids b) tl ltac:(done) ltac:(done) t i Hr).
    pose proof (slot_add (bus_num_pids b) tl ltac:(done) ltac:(done) t (i + 1) (d - 1) Hr).
    replace (i + 1 + (d - 1)) with (i + d) in * by lia. lia.
Qed.

Lemma turn_own cur t : in_time b tl offset cur D -> own_now b cur tl offset t = false ->
  0 <= t < bus_num_pids b ->
  turn_at b cur tl offset t =
    cycle_tick b offset (next_own (bus_num_pids b) tl t (rr_cycle b cur offset)) /\
  own_tick b tl offset t (turn_at b cur tl offset t) /\
  edge (bus_clock b) cur < turn_at b cur tl offset t.
Proof.
  unfold own_now. intros Hin Ho Hr. zb. pose proof Htm as [? ? ? ? ?].
  rewrite (active_id_owner b tl offset Htm cur D) in Ho by (done || lia).
  pose proof (retry_time_next b tl offset Htm cur t
    ltac:(apply in_time_le; [lia|done]) Hr Ho) as E.
  change (turn_at b cur tl offset t =
    cycle_tick b offset (next_own (bus_num_pids b) tl t (rr_cycle b cur offset))) in E.
  destruct (next_own_spec (bus_num_pids b) tl ltac:(done) ltac:(done) t
    (rr_cycle b cur offset) Hr) as (Hlt & Hown & _).
  split; [done|]. rewrite E. split.
  - by eexists.
  - rewrite (edge_cycle b tl offset Htm). by rewrite <- (cycle_tick_lt b tl offset Htm).
Qed.

Lemma op_ready_in_time cur op c : op_ready b tl offset D cur op c = true ->
  in_time b tl offset cur D.
Proof. unfold op_ready. intros H. zb. by split. Qed.

Lemma op_ready_attempts cur op c rs t : op_ready b tl offset D cur op c = true ->
  op = LRelease t rs \/ op = LRetry t rs ->
  Forall (fun a => at_thread a = t /\ 1 <= at_cycles a <= D) rs.
Proof.
  unfold op_ready. intros H Hop.
  assert (forallb (attempt_ok t D) rs = true) as Hf.
  { by destruct Hop; subst; zb. }
  clear -Hf. induction rs as [|a rs IH]; cbn in *; [done|].
  unfold attempt_ok in Hf at 1. zb. constructor; [lia | by apply IH].
Qed.

(** A step of the layer is the step of the cell of its thread. *)
Lemma lstep_cell cur op L l c : layer_cfg b tl offset L ->
  cell_at (op_thread op) L = Some c -> own_events b tl offset (op_thread op) c ->
  op_ready b tl offset D cur op c = true ->
  lstep b cur op (L, l) =
  liftl (op_thread op) L (cell_step b tl offset cur op (c, l)).
Proof.
  intros Hcfg Hc [Hrel Hret] Hready. pose proof (op_ready_in_time _ _ _ Hready) as Hin.
  pose proof (fun rs t => op_ready_attempts _ _ _ rs t Hready) as Hat.
  assert (Hall : forall rs t, op = LRelease t rs \/ op = LRetry t rs ->
    Forall (fun a => at_thread a = t) rs).
  { intros rs t Hop. eapply Forall_impl; [by apply Hat|]. by intros ? []. }
  unfold op_ready in Hready. zb.
  destruct op as [a|t rs|t rs]; cbn [lstep op_thread cell_step fst snd] in *.
  - by apply log_send_cell.
  - zb. match goal with H : bool_decide _ = true |- _ => apply bool_decide_eq_true in H;
      pose proof (own_tick_active t cur (Hrel _ H) Hin) as Hact end.
    pose proof (put_release _ _ _ Hc None) as Hp. cbn in Hp.
    destruct (arr_set (ly_releaseEvent L) t None) as [v|]; [|done]. cbn in *.
    replace (with_ly_releaseEvent v L) with (put_cell t (with_c_release None c) L) by congruence.
    rewrite (releaseLayer_cell b tl offset cur t rs _ _ (with_c_release None c))
      by (done || by eapply cell_at_put || eauto). unfold liftl.
    destruct (cell_releaseLayer _ _ _ _ _ _ _) as [[]|]; cbn; [|done].
    by rewrite put_put_cell.
  - zb. match goal with H : bool_decide _ = true |- _ => apply bool_decide_eq_true in H;
      pose proof (own_tick_active t cur (Hret _ H) Hin) as Hact end.
    pose proof (put_retry _ _ _ Hc None) as Hp. cbn in Hp.
    destruct (arr_set (ly_retryEvent L) t None) as [v|]; [|done]. cbn in *.
    replace (with_ly_retryEvent v L) with (put_cell t (with_c_retry None c) L) by congruence.
    rewrite (retryWaiting_cell b tl offset cur t rs _ (with_c_retry None c))
      by (done || by eapply cell_at_put || eauto). unfold liftl.
    destruct (cell_retryWaiting _ _ _ _ _ _ _) as [[]|]; cbn; [|done].
    by rewrite put_put_cell.
Qed.

(** ** The invariant of a cell *)

(** Between steps, at the tick [now]: the layer is idle, or busy with a release
    to come; the events lie in the turns of the thread; a retry is scheduled for
    the next own cycle, for someone who waits, and not after the release; whoever
    waits has an event to come. *)
Record cinv (t now : Z) (c : Cell) : Prop := {
  ci_state : (c_state c = IDLE /\ c_release c = None) \/
             (c_state c = BUSY /\ is_Some (c_release c));
  ci_own : own_events b tl offset t c;
  ci_retry : forall T, c_retry c = Some T -> c_queue c <> [] /\
    (forall x, rr_cycle b now offset <= x -> cycle_tick b offset x < T ->
       owner (bus_num_pids b) tl x <> t);
  ci_before : forall T r, c_retry c = Some T -> c_release c = Some r -> T <= r;
  ci_wait : c_queue c <> [] -> is_Some (c_release c) \/ is_Some (c_retry c)
}.

(** While a port reacts to a retry it was offered. *)
Definition cmid (t : Z) (c : Cell) : Prop :=
  c_retry c = None /\
  ((c_state c = RETRY /\ c_queue c <> [] /\ c_release c = None) \/
   (c_state c = BUSY /\ exists r, c_release c = Some r /\ own_tick b tl offset t r)).

Lemma cmid_cinv t now c : cmid t c -> c_state c <> RETRY -> cinv t now c.
Proof.
  intros [Hr [(Hs & _)|(Hs & r & He & Ho)]] Hne; [done|].
  split; rewrite ?Hr, ?He; eauto; try done.
  split; rewrite ?Hr, ?He; naive_solver.
Qed.

Lemma rr_cycle_mono cur cur' : cur <= cur' -> rr_cycle b cur offset <= rr_cycle b cur' offset.
Proof.
  intros Hle. unfold rr_cycle. destruct Htm.
  pose proof (edge_mono (bus_clock b) cur cur' ltac:(done) Hle).
  pose proof (Z.div_le_mono _ _ (bus_clock b) ltac:(done) H). lia.
Qed.

Lemma cinv_later t now cur c : now <= cur -> cinv t now c -> cinv t cur c.
Proof.
  intros Hle [H1 H2 H3 H4 H5]. split; try done. intros T HT.
  destruct (H3 T HT) as [Hq Hx]. split; [done|]. intros x Hlo. apply Hx.
  pose proof (rr_cycle_mono now cur Hle). lia.
Qed.

Lemma cell_occupy_ok cur until c : c_state c <> IDLE -> c_release c = None ->
  0 <= cur -> edge (bus_clock b) cur < until ->
  cell_occupy cur until c = Ok (with_c_release (Some until) c).
Proof.
  intros Hs He H0 Hu. destruct Htm.
  destruct (edge_spec (bus_clock b) cur) as [Hed _]; [done|].
  unfold cell_occupy, ev_schedule. rewrite bool_decide_false, He by done. cbn.
  rewrite (proj2 (Z.eqb_neq until 0)), (proj2 (Z.leb_le cur until)) by lia. done.
Qed.

Section OneThread.

Context (t cur : Z) (Hin : in_time b tl offset cur D).

Abbreviation own := (own_now b cur tl offset t).
Abbreviation turn := (turn_at b cur tl offset t).
Abbreviation fin := (finish_at b cur tl offset t).

Lemma in_time_pos : 0 <= cur.
Proof. destruct Htm, Hin. nia. Qed.

Hypothesis Hown : own = true.

Lemma occupy_fin c d : c_state c <> IDLE -> c_release c = None -> 1 <= d <= D ->
  cell_occupy cur (fin d) c = Ok (with_c_release (Some (fin d)) c) /\
  own_tick b tl offset t (fin d).
Proof.
  intros Hs He Hd. destruct (finish_own cur t d Hin Hown Hd) as [Ho Hlt].
  split; [|done]. apply cell_occupy_ok; try done. apply in_time_pos.
Qed.

(** A send in reaction to a retry goes through. *)
Lemma cell_send_mid a c : 1 <= at_cycles a <= D -> cmid t c ->
  exists ok c', cell_send cur own turn fin a c = Ok (ok, c') /\ cmid t c'.
Proof.
  intros Hd [Hr Hm]. unfold cell_send, cell_try. rewrite Hown. cbn.
  destruct Hm as [(Hs & Hq & He)|(Hs & r & He & Ho)]; rewrite Hs; cbn.
  - destruct (c_queue c) as [|f q] eqn:Eq; [done|]. cbn.
    rewrite bool_decide_false by done. cbn.
    destruct (Z.eqb_spec (at_port a) f) as [->|Hpf]; cbn.
    + destruct (at_taken a) eqn:Et.
      * unfold cell_succeeded, cell_pop. rewrite Hs, Eq. cbn.
        destruct (occupy_fin (with_c_state BUSY (with_c_queue q c)) (at_cycles a))
          as [-> ?]; try done. cbn.
        do 2 eexists. split; [done|]. split; [done|]. right. cbn. eauto.
      * unfold cell_failed. rewrite Hs, Eq. cbn. rewrite Z.eqb_refl. cbn.
        destruct (occupy_fin (with_c_state BUSY c) (at_cycles a)) as [-> ?]; try done. cbn.
        do 2 eexists. split; [done|]. split; [done|]. right. cbn. eauto.
    + do 2 eexists. split; [done|]. split; [done|]. left. cbn. by destruct q.
  - rewrite bool_decide_true by done. cbn.
    do 2 eexists. split; [done|]. split; [done|]. right. cbn. eauto.
Qed.

Lemma cell_sends_mid rs : forall c l,
  Forall (fun a => at_thread a = t /\ 1 <= at_cycles a <= D) rs -> cmid t c ->
  exists s, foldM (cell_log_send cur own turn fin) (c, l) rs = Ok s /\ cmid t s.1.
Proof.
  induction rs as [|a rs IH]; intros c l Hall Hm; [by eexists|].
  apply Forall_cons in Hall as [[_ Ha] Hall].
  destruct (cell_send_mid a c Ha Hm) as (ok & c' & E & Hm'). cbn [foldM].
  unfold cell_log_send at 2. cbn [fst snd]. rewrite E. cbn [mbind result_bind fst snd].
  by apply IH.
Qed.

(** Offering the layer to the first port that waits. *)
Lemma cell_retryWaiting_ok rs c l :
  Forall (fun a => at_thread a = t /\ 1 <= at_cycles a <= D) rs ->
  c_retry c = None -> c_queue c <> [] -> c_state c = IDLE -> c_release c = None ->
  exists s, cell_retryWaiting cur own turn fin t rs (c, l) = Ok s /\ cinv t cur s.1.
Proof.
  intros Hall Hr Hq Hs He. unfold cell_retryWaiting. cbn.
  destruct (c_queue c) as [|f q] eqn:Eq; [done|].
  rewrite (bool_decide_false (f :: q = [])), (bool_decide_true (c_state c = IDLE)) by done.
  cbn.
  destruct (cell_sends_mid rs (with_c_state RETRY c) (l ++ [(t, LGrant f)]) Hall)
    as ([c1 l1] & -> & Hm); [split; cbn; [done|left; by rewrite Eq]|]. cbn in *.
  case_bool_decide as Hs1.
  - destruct Hm as [Hr1 [(_ & Hq1 & He1)|(? & _)]]; [|congruence].
    unfold cell_pop. destruct (c_queue c1) as [|? q1]; [done|]. cbn.
    destruct (occupy_fin (with_c_state BUSY (with_c_queue q1 c1)) 1) as [-> ?]; try done.
    cbn. eexists. split; [done|]. cbn. apply cmid_cinv; [|done].
    split; [done|]. right. cbn. eauto.
  - eexists. split; [done|]. by apply cmid_cinv.
Qed.

End OneThread.

(** ** Every step that is ready succeeds *)

Lemma own_tick_ge cur t k : cur <= k -> own_tick b tl offset t k ->
  exists x, k = cycle_tick b offset x /\ owner (bus_num_pids b) tl x = t /\
            rr_cycle b cur offset <= x.
Proof.
  intros Hle (x & -> & Ho). exists x. split_and!; [done..|].
  rewrite (cycle_tick_le b tl offset Htm), <- (edge_cycle b tl offset Htm).
  destruct Htm. apply edge_least; [done..|]. unfold cycle_tick. apply Z.mod_mul. lia.
Qed.

(** Out of turn a port waits for the turn. *)
Lemma cell_send_off t cur a c : in_time b tl offset cur D -> 0 <= t < bus_num_pids b ->
  own_now b cur tl offset t = false -> not_overdue cur (c_release c) = true ->
  cinv t cur c ->
  exists c', cell_send cur (own_now b cur tl offset t) (turn_at b cur tl offset t)
    (finish_at b cur tl offset t) a c = Ok (false, c') /\ cinv t cur c'.
Proof.
  intros Hin Hr Hoff Hdue [H1 [Ho1 Ho2] H3 H4 H5]. unfold cell_send, cell_try.
  rewrite Hoff. cbn. destruct (scheduled (c_retry c)) eqn:ES.
  - cbn. eexists. split; [done|]. split; cbn; try done.
    + intros T' HT'. destruct (H3 T' HT') as [_ Hno].
      split; [by destruct (c_queue c)|done].
    + right. by destruct (c_retry c).
  - destruct (turn_own cur t Hin Hoff Hr) as (ET' & Hown & Hlt).
    set (T := turn_at b cur tl offset t) in *.
    destruct (edge_spec (bus_clock b) cur) as [Hed _]; [apply Htm|].
    assert (ev_schedule cur T (c_retry c) = Ok (Some T)) as ->.
    { unfold ev_schedule. rewrite (proj2 (Z.leb_le cur T)) by lia.
      by destruct (c_retry c). }
    cbn. eexists. split; [done|].
    assert (Hno : forall x, rr_cycle b cur offset <= x -> cycle_tick b offset x < T ->
      owner (bus_num_pids b) tl x <> t).
    { intros x Hx HxT. rewrite ET', <- (cycle_tick_lt b tl offset Htm) in HxT.
      destruct (decide (x = rr_cycle b cur offset)) as [->|Hne].
      - unfold own_now in Hoff. zb.
        by rewrite <- (active_id_owner b tl offset Htm cur D) by (done || lia).
      - pose proof Htm as [? ? ? ? ?].
        apply (next_own_spec (bus_num_pids b) tl ltac:(done) ltac:(done) t
          (rr_cycle b cur offset) Hr). lia. }
    split; cbn; try done.
    + split; cbn; [done|]. by intros ? [= <-].
    + intros ? [= <-]. split; [by destruct (c_queue c)|done].
    + intros ? r [= <-] Hrel. rewrite Hrel in Hdue. cbn in Hdue. zb.
      destruct (own_tick_ge cur t r Hdue (Ho1 _ Hrel)) as (x & -> & Hox & Hx).
      destruct (Z.le_gt_cases T (cycle_tick b offset x)); [done|].
      exfalso. by apply (Hno x).
    + right. done.
Qed.

(** In turn it is served, or waits for the release. *)
Lemma cell_send_on t cur a c : in_time b tl offset cur D ->
  own_now b cur tl offset t = true -> 1 <= at_cycles a <= D -> cinv t cur c ->
  exists ok c', cell_send cur (own_now b cur tl offset t) (turn_at b cur tl offset t)
    (finish_at b cur tl offset t) a c = Ok (ok, c') /\ cinv t cur c'.
Proof.
  intros Hin Hon Hd [H1 [Ho1 Ho2] H3 H4 H5]. unfold cell_send, cell_try.
  rewrite Hon. cbn.
  destruct H1 as [[Hs He]|[Hs He]]; rewrite Hs; cbn.
  - rewrite bool_decide_false by done. cbn.
    destruct (finish_own cur t (at_cycles a) Hin Hon Hd) as [Hown Hlt].
    set (F := finish_at b cur tl offset t (at_cycles a)) in *.
    assert (HTF : forall T, c_retry c = Some T -> T <= F).
    { intros T HT. destruct (H3 T HT) as [_ Hno].
      destruct (Z.le_gt_cases T F) as [|HFT]; [done|]. exfalso.
      apply (Hno (rr_cycle b cur offset)); [lia| |].
      - rewrite <- (edge_cycle b tl offset Htm). lia.
      - unfold own_now in Hon. zb.
        by rewrite <- (active_id_owner b tl offset Htm cur D) by (done || lia). }
    assert (Hocc : forall q, cinv t cur (mkCell BUSY q (Some F) (c_retry c)) \/ q = []
      /\ c_queue c <> []).
    { intros q. destruct (decide (q = [] /\ c_queue c <> [])) as [|Hq]; [by right|left].
      split; cbn; try done; try by eauto.
      - split; cbn; [|done]. by intros ? [= <-].
      - intros T HT. destruct (H3 T HT) as [Hcq Hno]. split; [|done].
        intros ->. by apply Hq.
      - intros T r HT [= <-]. by apply HTF. }
    destruct (at_taken a).
    + unfold cell_succeeded. cbn. rewrite (cell_occupy_ok cur F) by
        (done || by eapply in_time_pos). cbn.
      do 2 eexists. split; [done|]. unfold with_c_release, with_c_state. cbn.
      destruct (Hocc (c_queue c)) as [|[? ?]]; done.
    + unfold cell_failed. cbn. rewrite (cell_occupy_ok cur F) by
        (done || by eapply in_time_pos). cbn.
      do 2 eexists. split; [done|]. unfold with_c_release, with_c_state, with_c_queue. cbn.
      destruct (Hocc (c_queue c ++ [at_port a])) as [|[Hn _]]; [done|].
      by destruct (c_queue c).
  - rewrite bool_decide_true by done. cbn. do 2 eexists. split; [done|].
    split; cbn; try done; [by right| |by left].
    intros T HT. destruct (H3 T HT). split; [by destruct (c_queue c)|done].
Qed.

Lemma cell_step_ok cur op c l : 0 <= op_thread op < bus_num_pids b ->
  cinv (op_thread op) cur c -> op_ready b tl offset D cur op c = true ->
  exists s, cell_step b tl offset cur op (c, l) = Ok s /\ cinv (op_thread op) cur s.1.
Proof.
  intros Hr Hinv Hready. pose proof (op_ready_in_time _ _ _ Hready) as Hin.
  pose proof (fun rs t => op_ready_attempts _ _ _ rs t Hready) as Hat.
  pose proof Hinv as [H1 [Ho1 Ho2] H3 H4 H5]. unfold op_ready in Hready. zb.
  destruct op as [a|t rs|t rs]; cbn [op_thread cell_step fst snd] in *; zb;
    repeat match goal with
    | H : bool_decide _ = true |- _ => apply bool_decide_eq_true in H
    | H : bool_decide _ = false |- _ => apply bool_decide_eq_false in H
    end.
  - unfold cell_log_send. cbn [fst snd]. unfold attempt_ok in *. zb.
    destruct (own_now b cur tl offset (at_thread a)) eqn:Hon; rewrite <- Hon.
    + destruct (cell_send_on (at_thread a) cur a c) as (ok & c' & -> & ?); try done.
      cbn. by eexists.
    + destruct (cell_send_off (at_thread a) cur a c) as (c' & -> & ?); try done.
      cbn. by eexists.
  - assert (Hown : own_now b cur tl offset t = true).
    { unfold own_now. apply Z.eqb_eq. apply own_tick_active; auto. }
    destruct H1 as [[_ He]|[Hs _]]; [congruence|].
    assert (Hnr : c_retry c = None).
    { destruct (c_retry c) as [T|] eqn:ET; [|done]. exfalso.
      pose proof (H4 T cur eq_refl ltac:(done)). cbn in *. zb.
      assert (T = cur) by lia. congruence. }
    unfold cell_releaseLayer. cbn [fst snd c_state c_release with_c_release].
    rewrite (bool_decide_true (c_state c = BUSY)) by done. cbn [cassert mbind result_bind scheduled negb].
    destruct (bool_decide _) eqn:Eq; cbn [negb];
      [apply bool_decide_eq_true in Eq | apply bool_decide_eq_false in Eq].
    + eexists. split; [done|]. cbn in *. split; cbn; rewrite ?Hnr; try done;
        first [by left | split; cbn; intros; congruence].
    + apply cell_retryWaiting_ok; eauto.
  - assert (Hown : own_now b cur tl offset t = true).
    { unfold own_now. apply Z.eqb_eq. apply own_tick_active; auto. }
    destruct (H3 cur ltac:(done)) as [Hq _].
    destruct H1 as [[Hs He]|[Hs He]].
    + apply cell_retryWaiting_ok; eauto.
    + unfold cell_retryWaiting. cbn. rewrite !bool_decide_false by (done || congruence).
      cbn. eexists. split; [done|]. split; cbn; try done;
        first [by right | by left | split; cbn; [done | intros; congruence]].
Qed.

End Steps.

(** * What a step adds to the log *)

(** [f] only appends to the log, entries of the thread [t], and does not look at
    it. *)
Definition appends {A} (t : Z) (f : A * Log -> result (A * Log)) : Prop :=
  forall c l, exists r,
    (forall x, r = Ok x -> Forall (fun e => e.1 = t) x.2) /\
    f (c, l) = (x ← r; Ok (x.1, l ++ x.2)) /\ f (c, []) = r.

Lemma appends_intro {A} t (f : A * Log -> result (A * Log)) :
  (forall c l, f (c, l) = (x ← f (c, []); Ok (x.1, l ++ x.2))) ->
  (forall c x, f (c, []) = Ok x -> Forall (fun e => e.1 = t) x.2) -> appends t f.
Proof. intros H1 H2 c l. exists (f (c, [])). split_and!; eauto. Qed.

Lemma appends_bind {A} t (f g : A * Log -> result (A * Log)) :
  appends t f -> appends t g -> appends t (fun s => s ← f s; g s).
Proof.
  intros Hf Hg. apply appends_intro.
  - intros c l. destruct (Hf c l) as (r & _ & -> & ->).
    destruct r as [[c1 l1]|]; cbn; [|done].
    destruct (Hg c1 (l ++ l1)) as (r1 & _ & -> & Hr1).
    destruct (Hg c1 l1) as (r2 & _ & -> & Hr2). rewrite Hr1 in Hr2. subst r2.
    destruct r1 as [[c2 l2]|]; cbn; [|done]. by rewrite app_assoc.
  - intros c x H. apply bind_Ok in H as ([c1 l1] & H1 & H2).
    destruct (Hf c []) as (r & Hr & _ & Hr0). rewrite H1 in Hr0. subst r.
    specialize (Hr _ eq_refl). cbn in Hr.
    destruct (Hg c1 l1) as (r2 & Hr2 & Hg2 & _). rewrite Hg2 in H2.
    apply bind_Ok in H2 as ([c2 l2] & -> & [= <-]). cbn.
    apply Forall_app. split; [done | by apply (Hr2 (c2, l2))].
Qed.

Lemma appends_foldM {A B} t (f : A * Log -> B -> result (A * Log)) l :
  Forall (fun b => appends t (fun s => f s b)) l -> appends t (fun s => foldM f s l).
Proof.
  induction 1 as [|b l Hb _ IH].
  - apply appends_intro; cbn.
    + intros c l. by rewrite app_nil_r.
    + by intros c x [= <-].
  - exact (appends_bind t _ _ Hb IH).
Qed.

(** Work that does not touch the log, and a fixed entry. *)
Lemma appends_pure {A} t (f : A -> result A) :
  appends t (fun s : A * Log => c ← f s.1; Ok (c, s.2)).
Proof.
  apply appends_intro; cbn.
  - intros c l. destruct (f c); cbn; [|done]. by rewrite app_nil_r.
  - intros c x H. by apply bind_Ok in H as (c' & _ & [= <-]).
Qed.

Lemma appends_ext {A} t (f g : A * Log -> result (A * Log)) :
  (forall s, f s = g s) -> appends t g -> appends t f.
Proof.
  intros He Hg c l. destruct (Hg c l) as (r & ? & ? & ?). exists r. by rewrite !He.
Qed.

Lemma appends_send cur own turn fin t a : at_thread a = t ->
  appends t (fun s => cell_log_send cur own turn fin s a).
Proof.
  intros Ha. apply appends_intro; unfold cell_log_send; cbn.
  - intros c l. by destruct (cell_send _ _ _ _ _ _).
  - intros c x H. apply bind_Ok in H as (y & _ & [= <-]). cbn. by constructor.
Qed.

(** A test on the cell before one of two continuations. *)
Lemma appends_if {A} t (p : A -> bool) (f g : A * Log -> result (A * Log)) :
  appends t f -> appends t g -> appends t (fun s => if p s.1 then f s else g s).
Proof. intros Hf Hg c l. cbn. destruct (p c); [apply Hf | apply Hg]. Qed.

Lemma appends_pre {A} t (h : A -> A) (f : A * Log -> result (A * Log)) :
  appends t f -> appends t (fun s => f (h s.1, s.2)).
Proof. intros Hf c l. cbn. apply Hf. Qed.

Lemma appends_Ok {A} t : appends t (fun s : A * Log => Ok s).
Proof.
  apply (appends_ext _ _ (fun s => c ← Ok s.1; Ok (c, s.2))); [by intros []|].
  apply (appends_pure t (fun c => Ok c)).
Qed.

Definition st_is (s : LState) (c : Cell) : bool := bool_decide (c_state c = s).
Definition no_queue (c : Cell) : bool := bool_decide (c_queue c = []).

Lemma appends_retryWaiting cur own turn fin t rs :
  Forall (fun a => at_thread a = t) rs ->
  appends t (cell_retryWaiting cur own turn fin t rs).
Proof.
  intros Hall.
  set (grant := fun s : Cell * Log =>
    f ← of_option NullDeref (head (c_queue s.1));
    Ok (with_c_state RETRY s.1, s.2 ++ [(t, LGrant f)])).
  set (rest := fun s : Cell * Log =>
    if st_is RETRY s.1 then
      c ← (c ← cell_pop s.1; cell_occupy cur (fin 1) (with_c_state BUSY c)); Ok (c, s.2)
    else Ok s).
  assert (Hgrant : appends t grant).
  { apply appends_intro; unfold grant; cbn.
    - intros c l. by destruct (head _).
    - intros c x H. apply bind_Ok in H as (f & _ & [= <-]). cbn. by constructor. }
  assert (Hrest : appends t rest).
  { apply (appends_if t (st_is RETRY)); [|apply appends_Ok].
    apply (appends_pure t (fun c => c ← cell_pop c;
      cell_occupy cur (fin 1) (with_c_state BUSY c))). }
  apply (appends_ext _ _ (fun s =>
    s ← (c ← (cassert (negb (no_queue s.1)) ;; Ok s.1); Ok (c, s.2));
    if negb (st_is IDLE s.1) then Ok s else
    s ← grant s; s ← foldM (cell_log_send cur own turn fin) s rs; rest s)).
  - intros [c l]. unfold cell_retryWaiting, grant, rest, st_is, no_queue. cbn.
    destruct (cassert _); cbn; [|done].
    destruct (negb _); [done|]. destruct (head _); cbn; [|done].
    destruct (foldM _ _ _) as [[c2 l2]|]; cbn; [|done].
    destruct (bool_decide _); [|done]. by destruct (cell_pop c2).
  - apply (appends_bind t (fun s : Cell * Log => c ← _; Ok (c, s.2))).
    { apply (appends_pure t (fun c => cassert (negb (no_queue c)) ;; Ok c)). }
    apply (appends_if t (fun c => negb (st_is IDLE c))).
    { apply appends_Ok. }
    apply (appends_bind t grant); [done|].
    apply (appends_bind t (fun s => foldM _ s rs)); [|done].
    apply appends_foldM. eapply Forall_impl; [done|]. intros a Ha. by apply appends_send.
Qed.

Lemma appends_step b tl offset D cur op c : op_ready b tl offset D cur op c = true ->
  appends (op_thread op) (cell_step b tl offset cur op).
Proof.
  intros Hready. pose proof (fun rs t => op_ready_attempts b tl offset D cur op c rs t Hready)
    as Hat.
  assert (Hall : forall rs t, op = LRelease t rs \/ op = LRetry t rs ->
    Forall (fun a => at_thread a = t) rs).
  { intros rs t Hop. eapply Forall_impl; [by apply Hat|]. by intros ? []. }
  destruct op as [a|t rs|t rs]; cbn [op_thread cell_step].
  - by apply appends_send.
  - apply (appends_pre t (with_c_release None)
      (cell_releaseLayer cur (own_now b cur tl offset t) (turn_at b cur tl offset t)
        (finish_at b cur tl offset t) t rs)).
    apply (appends_ext _ _ (fun s =>
      s ← (c ← (cassert (st_is BUSY s.1) ;;
                cassert (negb (scheduled (c_release s.1))) ;;
                Ok (with_c_state IDLE s.1)); Ok (c, s.2));
      if negb (no_queue s.1)
      then cell_retryWaiting cur (own_now b cur tl offset t) (turn_at b cur tl offset t)
             (finish_at b cur tl offset t) t rs s
      else Ok s)).
    { intros [c0 l]. unfold cell_releaseLayer, st_is, no_queue. cbn.
      destruct (cassert (bool_decide _)); cbn; [|done].
      destruct (cassert _); cbn; done. }
    apply (appends_bind t (fun s : Cell * Log => c ← _; Ok (c, s.2))).
    { apply (appends_pure t (fun c => cassert (st_is BUSY c) ;;
        cassert (negb (scheduled (c_release c))) ;; Ok (with_c_state IDLE c))). }
    apply (appends_if t (fun c => negb (no_queue c))).
    + apply appends_retryWaiting. eauto.
    + apply appends_Ok.
  - apply (appends_pre t (with_c_retry None)
      (cell_retryWaiting cur (own_now b cur tl offset t) (turn_at b cur tl offset t)
        (finish_at b cur tl offset t) t rs)).
    apply appends_retryWaiting. eauto.
Qed.

(** * Executions *)

(** The invariant of a layer: one cell per thread, each with its own. *)
Record linv (b : BusParams) (tl offset now : Z) (L : Layer) : Prop := {
  li_cfg : layer_cfg b tl offset L;
  li_cells : forall t, is_Some (cell_at t L) <-> 0 <= t < bus_num_pids b;
  li_inv : forall t c, cell_at t L = Some c -> cinv b tl offset t now c
}.

Lemma cell_at_new b tl offset t :
  cell_at t (Layer_new b (bus_clock b) tl offset) =
  if decide (0 <= t < bus_num_pids b) then Some (mkCell IDLE [] None None) else None.
Proof.
  unfold cell_at, Layer_new. cbn. case_decide.
  - destruct (decide (0 <= t < bus_num_pids b)).
    + rewrite !lookup_replicate_2 by lia. done.
    + rewrite (proj1 (lookup_replicate_None _ IDLE _)) by lia. done.
  - destruct (decide (0 <= t < bus_num_pids b)); [lia | done].
Qed.

Lemma linv_new b tl offset now : linv b tl offset now (Layer_new b (bus_clock b) tl offset).
Proof.
  split.
  - done.
  - intros t. rewrite cell_at_new. case_decide; split; try done.
  - intros t c. rewrite cell_at_new. case_decide; [|done]. intros [= <-].
    split; cbn; try done. by left.
Qed.

Section Exec.

Context (b : BusParams) (tl offset D : Z) (Htm : timing b tl offset) (HD : 1 <= D).

Lemma linv_later now cur L : now <= cur -> linv b tl offset now L -> linv b tl offset cur L.
Proof.
  intros Hle [H1 H2 H3]. split; [done..|]. intros t c Hc.
  eapply (cinv_later b tl offset Htm); [done | by apply H3].
Qed.

Lemma linv_put now t c c' L : cell_at t L = Some c -> cinv b tl offset t now c' ->
  linv b tl offset now L -> linv b tl offset now (put_cell t c' L).
Proof.
  intros Hc Hc' [H1 H2 H3]. assert (0 <= t) by (apply cell_at_Some in Hc; tauto).
  split; [done| |].
  - intros u. destruct (decide (u = t)) as [->|].
    + rewrite <- H2, Hc. erewrite cell_at_put by done. split; by eexists.
    + rewrite cell_at_put_ne by done. apply H2.
  - intros u cu. destruct (decide (u = t)) as [->|].
    + erewrite cell_at_put by done. by intros [= <-].
    + rewrite cell_at_put_ne by done. apply H3.
Qed.

(** A ready step of a layer: the cell of the thread makes it, and the invariant
    is kept. *)
Lemma lstep_ok cur op L l c : linv b tl offset cur L ->
  cell_at (op_thread op) L = Some c -> op_ready b tl offset D cur op c = true ->
  exists c' ext,
    lstep b cur op (L, l) = Ok (put_cell (op_thread op) c' L, l ++ ext) /\
    cell_step b tl offset cur op (c, []) = Ok (c', ext) /\
    Forall (fun e => e.1 = op_thread op) ext /\
    linv b tl offset cur (put_cell (op_thread op) c' L).
Proof.
  intros Hinv Hc Hready. pose proof (li_inv _ _ _ _ _ Hinv _ _ Hc) as Hci.
  assert (0 <= op_thread op < bus_num_pids b) as Hr.
  { apply (li_cells _ _ _ _ _ Hinv). by eexists. }
  destruct (cell_step_ok b tl offset D Htm HD cur op c l Hr Hci Hready) as ([c' l'] & Hs & Hi).
  destruct (appends_step b tl offset D cur op c Hready c l) as (r & Hall & Hl & H0).
  rewrite Hs in Hl. symmetry in Hl. apply bind_Ok in Hl as ([c2 ext] & -> & [= -> <-]).
  exists c', ext. split_and!; [|done| |].
  - erewrite (lstep_cell b tl offset D Htm HD cur op L l c);
      [|apply Hinv|done|apply Hci|done]. by rewrite Hs.
  - by apply (Hall (c', ext)).
  - by eapply linv_put.
Qed.

Lemma lexec_linv s tr s' : lexec b tl offset D s tr s' -> forall now cur,
  monotone_from now (tr.*1) cur = true -> linv b tl offset now s.1 ->
  linv b tl offset cur s'.1.
Proof.
  induction 1 as [s|[L l] k op c s1 tr s2 Hc Hready Hstep _ IH]; intros now cur Hm Hi;
    cbn in Hm; zb.
  { by eapply linv_later. }
  destruct (lstep_ok k op L l c) as (c' & ext & Hs & _ & _ & Hi'); try done.
  { by eapply linv_later. }
  rewrite Hs in Hstep. injection Hstep as <-. by apply (IH k).
Qed.

End Exec.

(** C29. Sends, reactions, release events and retry events of a round-robin layer
    fail no assertion and forget no waiting port.  In any execution of a new layer
    made of these, with any sends by any ports of any threads at any ticks and any
    reactions to the retries, every further step of these kinds that is ready
    succeeds (a send, a release, a retry), and a port that waits for a thread has a
    release or a retry of that thread to come.  [Layer::recvRetry], which a bus calls
    for every thread when a destination retries, is not among the steps:
    [recvRetry_off_turn_faults] shows that it can fail where these do not. *)
Theorem layer_never_faults b tl offset D tr s cur :
  timing b tl offset -> 1 <= D ->
  lexec b tl offset D (Layer_new b (bus_clock b) tl offset, []) tr s ->
  monotone_from 0 (tr.*1) cur = true ->
  (forall op, 0 <= op_thread op < bus_num_pids b -> exists c,
     cell_at (op_thread op) s.1 = Some c /\
     (op_ready b tl offset D cur op c = true -> exists s', lstep b cur op s = Ok s')) /\
  (forall t c, cell_at t s.1 = Some c -> c_queue c <> [] ->
     is_Some (c_release c) \/ is_Some (c_retry c)).
Proof.
  intros Htm HD Hex Hm.
  pose proof (lexec_linv b tl offset D Htm HD _ _ _ Hex 0 cur Hm (linv_new b tl offset 0))
    as Hi.
  split.
  - intros op Hr. apply (li_cells _ _ _ _ _ Hi) in Hr as [c Hc]. exists c. split; [done|].
    intros Hready. destruct s as [L l].
    destruct (lstep_ok b tl offset D Htm HD cur op L l c Hi Hc Hready)
      as (c' & ext & Hs & _). by eexists.
  - intros t c Hc. apply (li_inv _ _ _ _ _ Hi _ _ Hc).
Qed.

(** The steps of one thread, and what was said to it. *)
Definition steps_of (t : Z) (tr : list (Z * LOp)) : list (Z * LOp) :=
  filter (fun p => op_thread p.2 = t) tr.
Definition said_to (t : Z) (l : Log) : Log := filter (fun e => e.1 = t) l.

Lemma steps_of_cons t k op tr : steps_of t ((k, op) :: tr) =
  if decide (op_thread op = t) then (k, op) :: steps_of t tr else steps_of t tr.
Proof. unfold steps_of. rewrite filter_cons. done. Qed.

Lemma said_to_other t u ext : t <> u -> Forall (fun e => e.1 = u) ext -> said_to t ext = [].
Proof.
  intros Hne. induction 1 as [|[v o] ext Hv _ IH]; [done|]. cbn in Hv. subst v.
  unfold said_to. rewrite filter_cons_False by (cbn; congruence). apply IH.
Qed.

Lemma said_to_own t ext : Forall (fun e => e.1 = t) ext -> said_to t ext = ext.
Proof.
  induction 1 as [|[v o] ext Hv _ IH]; [done|]. cbn in Hv. subst v.
  unfold said_to. rewrite filter_cons_True by done. f_equal. apply IH.
Qed.

(** The two runs in step: the run of all threads, and that of [t] alone. *)
Lemma lexec_simulated b tl offset D t : timing b tl offset -> 1 <= D ->
  forall s tr s2, lexec b tl offset D s tr s2 -> forall now cur s',
  monotone_from now (tr.*1) cur = true ->
  linv b tl offset now s.1 -> linv b tl offset now s'.1 ->
  cell_at t s'.1 = cell_at t s.1 -> s'.2 = said_to t s.2 ->
  exists s2', lexec b tl offset D s' (steps_of t tr) s2' /\
    cell_at t s2'.1 = cell_at t s2.1 /\ s2'.2 = said_to t s2.2.
Proof.
  intros Htm HD s tr s2.
  induction 1 as [s|[L l] k op c s1 tr s2 Hc Hready Hstep _ IH];
    intros now cur [L' l'] Hm Hi Hi' Hcell Hlog; cbn in Hm, Hcell, Hlog.
  { exists (L', l'). split_and!; [constructor | done..]. }
  zb. match goal with H : monotone_from k _ _ = true |- _ => rename H into Hm' end.
  pose proof (linv_later b tl offset Htm now k L ltac:(done) Hi) as Hik.
  pose proof (linv_later b tl offset Htm now k L' ltac:(done) Hi') as Hik'.
  destruct (lstep_ok b tl offset D Htm HD k op L l c Hik Hc Hready)
    as (c' & ext & Hs & Hcs & Hext & Hin). cbn in Hc.
  rewrite Hs in Hstep. injection Hstep as <-.
  assert (0 <= op_thread op) as H0 by (apply cell_at_Some in Hc; tauto).
  rewrite (steps_of_cons t k op tr). destruct (decide (op_thread op = t)) as [E|E].
  - pose proof Hc as Hc'. rewrite <- E, Hc in Hcell.
    destruct (lstep_ok b tl offset D Htm HD k op L' l' c Hik' Hcell Hready)
      as (c2 & ext2 & Hs2 & Hcs2 & _ & Hin2). rewrite Hcs in Hcs2. injection Hcs2 as <- <-.
    destruct (IH k cur (put_cell (op_thread op) c' L', l' ++ ext)) as (s2' & Hex & ? & ?);
      cbn; try done.
    + rewrite <- E. by erewrite !cell_at_put by done.
    + unfold said_to in *. rewrite filter_app, <- Hlog. f_equal. symmetry.
      apply said_to_own. by rewrite <- E.
    + exists s2'. split_and!; [|done..]. by econstructor.
  - apply (IH k cur (L', l')); cbn; try done.
    + by rewrite cell_at_put_ne by done.
    + unfold said_to in *. rewrite filter_app, <- Hlog.
      fold (said_to t ext). rewrite (said_to_other t _ _ (not_eq_sym E) Hext).
      by rewrite app_nil_r.
Qed.

(** C6. The threads of a round-robin layer do not interfere.  Take any execution
    of a new layer, with any interleaving of the threads' sends, reactions and
    events.  With the steps of all threads but [t] deleted it is an execution
    again, at the same ticks, in which [t] is answered and offered retries
    exactly as before, and the layer ends with the same state, queue and
    scheduled events for [t]. *)
Theorem layer_noninterference b tl offset D t tr s cur :
  timing b tl offset -> 1 <= D ->
  lexec b tl offset D (Layer_new b (bus_clock b) tl offset, []) tr s ->
  monotone_from 0 (tr.*1) cur = true ->
  exists s', lexec b tl offset D (Layer_new b (bus_clock b) tl offset, []) (steps_of t tr) s' /\
    cell_at t s'.1 = cell_at t s.1 /\ s'.2 = said_to t s.2.
Proof.
  intros Htm HD Hex Hm.
  apply (lexec_simulated b tl offset D t Htm HD _ _ _ Hex 0 cur); try done;
    apply linv_new.
Qed.

(** * Running a trace *)

(** The executable form of [lexec]. *)
Fixpoint lrun (b : BusParams) (tl offset D : Z) (tr : list (Z * LOp)) (s : Layer * Log)
    : result (Layer * Log) :=
  match tr with
  | [] => Ok s
  | (cur, op) :: tr' =>
      c ← of_option OutOfBounds (cell_at (op_thread op) s.1);
      cassert (op_ready b tl offset D cur op c) ;;
      s ← lstep b cur op s;
      lrun b tl offset D tr' s
  end.

Lemma lrun_lexec b tl offset D tr : forall s s',
  lrun b tl offset D tr s = Ok s' -> lexec b tl offset D s tr s'.
Proof.
  induction tr as [|[cur op] tr IH]; cbn; intros s s' H.
  - injection H as <-. constructor.
  - apply bind_Ok in H as (c & Hc & H). apply bind_Ok in H as ([] & Ha & H).
    apply bind_Ok in H as (s1 & Hs & H). apply of_option_Ok in Hc. apply cassert_Ok in Ha.
    econstructor; eauto.
Qed.

(** Two threads with turns of 3 cycles: thread 0 transfers over two turns; a
    port of thread 1 comes out of turn and gets its retry when the turn begins;
    another port of thread 0 waits for the release, is refused by its
    destination, and waits again. *)
Definition demo_bus : BusParams := mkBusParams 2 1 8 1000.
Definition demo_trace : list (Z * LOp) :=
  [ (0, LSend (mkAttempt 0 0 4 true));
    (500, LSend (mkAttempt 5 1 1 true));
    (1500, LSend (mkAttempt 2 0 2 true));
    (3000, LRetry 1 [mkAttempt 5 1 1 true]);
    (4000, LRelease 1 []);
    (7000, LRelease 0 [mkAttempt 2 0 2 false]) ].

Lemma demo_timing : timing demo_bus 3 0.
Proof. split; cbn; lia. Qed.

Lemma demo_runs : exists s,
  lrun demo_bus 3 0 8 demo_trace (Layer_new demo_bus 1000 3 0, []) = Ok s.
Proof. apply is_ok_true. vm_compute. reflexivity. Qed.

Lemma layer_never_faults_witness : exists s,
  lexec demo_bus 3 0 8 (Layer_new demo_bus 1000 3 0, []) demo_trace s /\
  (forall op, 0 <= op_thread op < 2 -> exists c,
     cell_at (op_thread op) s.1 = Some c /\
     (op_ready demo_bus 3 0 8 7500 op c = true ->
      exists s', lstep demo_bus 7500 op s = Ok s')) /\
  (forall t c, cell_at t s.1 = Some c -> c_queue c <> [] ->
     is_Some (c_release c) \/ is_Some (c_retry c)).
Proof.
  destruct demo_runs as [s Hs]. apply lrun_lexec in Hs. exists s. split; [exact Hs|].
  apply (layer_never_faults demo_bus 3 0 8 demo_trace s 7500 demo_timing ltac:(lia) Hs).
  reflexivity.
Defined.

Lemma layer_noninterference_witness : exists s s',
  lexec demo_bus 3 0 8 (Layer_new demo_bus 1000 3 0, []) demo_trace s /\
  lexec demo_bus 3 0 8 (Layer_new demo_bus 1000 3 0, []) (steps_of 0 demo_trace) s' /\
  cell_at 0 s'.1 = cell_at 0 s.1 /\ s'.2 = said_to 0 s.2.
Proof.
  destruct demo_runs as [s Hs]. apply lrun_lexec in Hs. exists s.
  destruct (layer_noninterference demo_bus 3 0 8 0 demo_trace s 7000 demo_timing
    ltac:(lia) Hs ltac:(reflexivity)) as [s' Hs'].
  exists s'. split; [exact Hs | exact Hs'].
Defined.

(** What thread 0 hears in that run: its first packet goes, the next waits, is
    offered a retry at the release and refused. *)
Example demo_heard :
  (s ← lrun demo_bus 3 0 8 demo_trace (Layer_new demo_bus 1000 3 0, []);
   Ok (said_to 0 s.2)) =
  Ok [(0, LAnswer 0 true); (0, LAnswer 2 false); (0, LGrant 2); (0, LAnswer 2 false)].
Proof. vm_compute. reflexivity. Qed.

(** * A retry from a peer, out of turn *)

(** C40. [recvRetry] of a thread that waits while another thread's turn is on
    offers the layer to that other thread: if nobody waits there, the assertion
    of [retryWaiting] ends the simulation. *)
Theorem recvRetry_off_turn_faults b cur t u L c cu l rs :
  cell_at t L = Some c -> cell_at u L = Some cu ->
  active_id b cur (ly_tl L) (ly_offset L) = u ->
  c_queue c <> [] -> c_state c = IDLE -> c_queue cu = [] ->
  Layer_recvRetry logged (react b cur rs) b cur t (L, l) = Err AssertFail.
Proof.
  intros Hc Hcu Hact Hq Hs Hqu. unfold Layer_recvRetry. cbn [lget logged fst].
  rewrite (get_queue _ _ _ Hc). cbn. rewrite bool_decide_false by done.
  rewrite (get_state _ _ _ Hc). cbn. rewrite bool_decide_true by done.
  unfold retryWaiting. cbn. rewrite Hact, (get_queue _ _ _ Hcu), Hqu. done.
Qed.

(** Thread 1 waits for its turn, and the destination of an earlier packet sends
    its retry in the turn of thread 0. *)
Lemma recvRetry_off_turn_faults_witness : exists L l,
  lrun demo_bus 3 0 8 [(500, LSend (mkAttempt 5 1 1 true))]
    (Layer_new demo_bus 1000 3 0, []) = Ok (L, l) /\
  Layer_recvRetry logged (react demo_bus 1000 []) demo_bus 1000 1 (L, l) = Err AssertFail.
Proof.
  do 2 eexists. split; [vm_compute; reflexivity|].
  eapply (recvRetry_off_turn_faults demo_bus 1000 1 0); vm_compute; done.
Defined.
