(* ===== verification/PortMap.v ===== *)
(** Routing by address: base/range.hh ([Range]), base/range_map.hh
    ([range_map], a std::map from ranges to values ordered by the start), and the
    address decoding that [RRBus] and [BaseBus] share: [findPort] with its cache
    of three entries, [recvRangeChange], [getAddrRanges] and [findBlockSize]. *)

From S2P Require Import Prelude Packet.

(** * Ranges: both ends included *)

Record Range := mkRange { r_start : Z; r_end : Z }.

#[global] Instance Range_eq_dec : EqDecision Range.
Proof. solve_decision. Defined.

Definition RangeSize (start size : Z) : Range := mkRange start (u64 (start + size - 1)).
Definition Range_lt (r1 r2 : Range) : bool := r_start r1 <? r_start r2.
(** [range == pos] *)
Definition Range_contains (r : Range) (pos : Z) : bool :=
  (r_start r <=? pos) && (pos <=? r_end r).

(** * Range maps *)

(** The tree of a [range_map], in the order of its keys. *)
Abbreviation range_map := (list (Range * Z)).

(** How many keys are not above [r]: the position of [tree.upper_bound(r)]. *)
Fixpoint upper_bound (r : Range) (m : range_map) : nat :=
  match m with
  | [] => 0%nat
  | e :: m' => if Range_lt r e.1 then 0%nat else S (upper_bound r m')
  end.

Definition overlaps (e r : Range) : bool :=
  (r_start e <=? r_end r) && (r_start r <=? r_end e).

(** [find(r)].  In an empty map [upper_bound] is both [begin()] and [end()], and
    the code compares through it before it returns it: what it returns is
    [end()] whatever it read there. *)
Definition rm_find (r : Range) (m : range_map) : option (Range * Z) :=
  match upper_bound r m with
  | O => e ← head m; if overlaps e.1 r then Some e else None
  | S j => e ← m !! j; if overlaps e.1 r then Some e else None
  end.

Definition rm_intersect (r : Range) (m : range_map) : bool :=
  match rm_find r m with Some _ => true | None => false end.

(** [tree.insert]: a key with the same start is kept. *)
Fixpoint tree_insert (r : Range) (d : Z) (m : range_map) : range_map :=
  match m with
  | [] => [(r, d)]
  | e :: m' =>
      if Range_lt r e.1 then (r, d) :: m
      else if Range_lt e.1 r then e :: tree_insert r d m'
      else m
  end.

(** [insert(r, d)]: [None] is [end()]. *)
Definition rm_insert (r : Range) (d : Z) (m : range_map) : option range_map :=
  if rm_intersect r m then None else Some (tree_insert r d m).

(** * The address decoder of a bus *)

Record PortCache := mkPortCache {
  pc_valid : bool;
  pc_id : Z;
  pc_start : Z;
  pc_end : Z
}.

Record Ports := mkPorts {
  po_portMap : range_map;
  po_defaultRange : list Range;
  po_portCache : PortCache * PortCache * PortCache;
  po_inRecvRangeChange : gset Z;
  po_numSlave : Z;
  po_numMaster : Z;
  po_defaultPortID : Z;
  po_useDefaultRange : bool;
  po_defaultBlockSize : Z;
  po_cachedBlockSize : option Z
}.

Definition with_po_portMap (v : range_map) (r : Ports) : Ports :=
  mkPorts v (po_defaultRange r) (po_portCache r) (po_inRecvRangeChange r) (po_numSlave r)
    (po_numMaster r) (po_defaultPortID r) (po_useDefaultRange r) (po_defaultBlockSize r)
    (po_cachedBlockSize r).
Definition with_po_defaultRange (v : list Range) (r : Ports) : Ports :=
  mkPorts (po_portMap r) v (po_portCache r) (po_inRecvRangeChange r) (po_numSlave r)
    (po_numMaster r) (po_defaultPortID r) (po_useDefaultRange r) (po_defaultBlockSize r)
    (po_cachedBlockSize r).
Definition with_po_portCache (v : PortCache * PortCache * PortCache) (r : Ports) : Ports :=
  mkPorts (po_portMap r) (po_defaultRange r) v (po_inRecvRangeChange r) (po_numSlave r)
    (po_numMaster r) (po_defaultPortID r) (po_useDefaultRange r) (po_defaultBlockSize r)
    (po_cachedBlockSize r).
Definition with_po_inRecvRangeChange (v : gset Z) (r : Ports) : Ports :=
  mkPorts (po_portMap r) (po_defaultRange r) (po_portCache r) v (po_numSlave r)
    (po_numMaster r) (po_defaultPortID r) (po_useDefaultRange r) (po_defaultBlockSize r)
    (po_cachedBlockSize r).
Definition with_po_cachedBlockSize (v : option Z) (r : Ports) : Ports :=
  mkPorts (po_portMap r) (po_defaultRange r) (po_portCache r) (po_inRecvRangeChange r)
    (po_numSlave r) (po_numMaster r) (po_defaultPortID r) (po_useDefaultRange r)
    (po_defaultBlockSize r) v.

Definition pc_hit (e : PortCache) (addr : Z) : bool :=
  pc_valid e && (pc_start e <=? addr) && (addr <? pc_end e).

Definition checkPortCache (addr : Z) (p : Ports) : Z :=
  let '(e0, e1, e2) := po_portCache p in
  if pc_hit e0 addr then pc_id e0 else
  if pc_hit e1 addr then pc_id e1 else
  if pc_hit e2 addr then pc_id e2 else InvalidPortID.

Definition updatePortCache (id start end_ : Z) (p : Ports) : Ports :=
  let '(e0, e1, e2) := po_portCache p in
  with_po_portCache (mkPortCache true id start end_, e0, e1) p.

Definition invalid_entry (e : PortCache) : PortCache :=
  mkPortCache false (pc_id e) (pc_start e) (pc_end e).

Definition clearPortCache (p : Ports) : Ports :=
  let '(e0, e1, e2) := po_portCache p in
  with_po_portCache (invalid_entry e0, invalid_entry e1, invalid_entry e2) p.

(** The ports a bus constructor makes: [nm] master ports, one more for the
    default if it is connected, and [ns] slave ports. *)
Definition Ports_new (nm ns : Z) (has_default useDefaultRange : bool) (block_size : Z)
    : Ports :=
  let e := mkPortCache false 0 0 0 in
  mkPorts [] [] (e, e, e) ∅ ns (if has_default then nm + 1 else nm)
    (if has_default then nm else InvalidPortID) useDefaultRange block_size None.

Definition findPort (addr : Z) (p : Ports) : result (Z * Ports) :=
  let dest_id := checkPortCache addr p in
  if negb (dest_id =? InvalidPortID) then Ok (dest_id, p) else
  match rm_find (RangeSize addr 1) (po_portMap p) with
  | Some (r, dest_id) => Ok (dest_id, updatePortCache dest_id (r_start r) (r_end r) p)
  | None =>
      if po_useDefaultRange p then
        if existsb (fun r => Range_contains r addr) (po_defaultRange p)
        then Ok (po_defaultPortID p, p) else Err Fatal
      else if negb (po_defaultPortID p =? InvalidPortID)
      then Ok (po_defaultPortID p, p)
      else Err Fatal
  end.

Section Neighbours.

(** The ranges the device behind a master port answers to, and what a neighbour
    does when it is told that the bus's ranges have changed; it may come back to
    the bus. *)
Context (peerRanges : Z -> list Range).
Context (sendRangeChange : Z -> Ports -> result Ports).

Definition add_ranges (id : Z) (rs : list Range) (m : range_map) : result range_map :=
  foldM (fun m r => of_option Fatal (rm_insert r id m)) m rs.

Definition recvRangeChange (id : Z) (p : Ports) : result Ports :=
  if bool_decide (id ∈ po_inRecvRangeChange p) then Ok p else
  let p := with_po_inRecvRangeChange ({[id]} ∪ po_inRecvRangeChange p) p in
  let p := clearPortCache p in
  p ← (if id =? po_defaultPortID p then
         let p := with_po_defaultRange [] p in
         Ok (if po_useDefaultRange p then with_po_defaultRange (peerRanges id) p else p)
       else
         cassert ((id <? po_numMaster p) && (0 <=? id)) ;;
         let m := filter (fun e => e.2 <> id) (po_portMap p) in
         m ← add_ranges id (peerRanges id) m;
         Ok (with_po_portMap m p));
  p ← foldM (fun p s => sendRangeChange s p) p (zrange (po_numSlave p));
  Ok (with_po_inRecvRangeChange (po_inRecvRangeChange p ∖ {[id]}) p).

End Neighbours.

(** [getAddrRanges]: the default ranges, then the mapped ones that no default
    range covers; one that cuts a default range is fatal. *)
Definition cuts (r d : Range) : bool :=
  ((r_start r <? r_start d) && (r_start d <=? r_end r)) ||
  ((r_start r <? r_end d) && (r_end d <=? r_end r)).
Definition subset_of (r d : Range) : bool :=
  (r_start d <=? r_start r) && (r_end r <=? r_end d).

Definition getAddrRanges (p : Ports) : result (list Range) :=
  foldM (fun ranges e =>
    subset ← foldM (fun subset d =>
      if cuts e.1 d then Err Fatal else Ok (subset || subset_of e.1 d))
      false (po_defaultRange p);
    Ok (if (subset : bool) then ranges else ranges ++ [e.1]))
    (po_defaultRange p) (po_portMap p).

(** [findBlockSize]: the largest block size of a neighbour. *)
Definition findBlockSize (masterBS slaveBS : Z -> Z) (p : Ports) : Z * Ports :=
  match po_cachedBlockSize p with
  | Some bs => (bs, p)
  | None =>
      let mx := foldl (fun m i => if m <? masterBS i then masterBS i else m) 0
                  (zrange (po_numMaster p)) in
      let mx := foldl (fun m i => if m <? slaveBS i then slaveBS i else m) mx
                  (zrange (po_numSlave p)) in
      let mx := if mx =? 0 then po_defaultBlockSize p else mx in
      (mx, with_po_cachedBlockSize (Some mx) p)
  end.

(** * Theorems

    The address decoder of a bus implements the announcements of its devices:
    after any sequence of announcements and lookups, an address goes to the
    device that announced it, or to the default.  Neither the tree nor the cache
    of recent ports shows, as long as the announced ranges are disjoint; when
    they are not, the overlap check of [range_map] may miss it. *)

(** * Ordered, disjoint ranges *)

(** The keys of a map from [lo] on: valid ranges, each past the one before. *)
Fixpoint rm_wf (lo : Z) (m : range_map) : Prop :=
  match m with
  | [] => True
  | e :: m' => lo <= r_start e.1 /\ r_start e.1 <= r_end e.1 /\ rm_wf (r_end e.1 + 1) m'
  end.

(** Two ranges without a common address. *)
Definition apart (a b : Range) : Prop := r_end a < r_start b \/ r_end b < r_start a.

Lemma rm_wf_le lo lo' m : lo <= lo' -> rm_wf lo' m -> rm_wf lo m.
Proof. destruct m; cbn; [done|]. intros ? (? & ? & ?). split_and!; [lia | done..]. Qed.

Lemma rm_wf_elem m : forall lo e, rm_wf lo m -> e ∈ m ->
  lo <= r_start e.1 <= r_end e.1.
Proof.
  induction m as [|x m IH]; cbn; intros lo e Hwf He; [by apply elem_of_nil in He|].
  destruct Hwf as (H1 & H2 & H3). apply elem_of_cons in He as [->|He]; [lia|].
  pose proof (IH _ _ H3 He). lia.
Qed.

(** The entry of an address in a map without a tree. *)
Definition route (m : range_map) (addr : Z) : option (Range * Z) :=
  find (fun e => Range_contains e.1 addr) m.

Lemma route_None_below m lo addr : rm_wf lo m -> addr < lo -> route m addr = None.
Proof.
  intros Hwf Hlt. destruct (route m addr) as [e|] eqn:E; [|done].
  apply find_some in E as [He Hc]. apply list_elem_of_In in He.
  pose proof (rm_wf_elem m lo e Hwf He). unfold Range_contains in Hc. zb. lia.
Qed.

Lemma upper_bound_first addr m lo : rm_wf lo m -> addr < lo ->
  upper_bound (mkRange addr addr) m = 0%nat.
Proof.
  destruct m as [|e m]; cbn; [done|]. intros (H & _) Hlt. unfold Range_lt. cbn.
  by rewrite (proj2 (Z.ltb_lt _ _)) by lia.
Qed.

(** Searching the tree for one address finds the entry that contains it. *)
Lemma rm_find_point m : forall lo addr, rm_wf lo m ->
  rm_find (mkRange addr addr) m = route m addr.
Proof.
  induction m as [|e m IH]; intros lo addr Hwf; [done|].
  destruct Hwf as (H1 & H2 & H3). pose proof (IH _ addr H3) as IHm. clear IH.
  unfold rm_find in *. cbn [upper_bound route find]. unfold Range_lt. cbn [r_start].
  fold (route m addr). destruct (Z.ltb_spec addr (r_start e.1)) as [Hlt|Hge].
  - cbn. unfold overlaps, Range_contains. cbn.
    rewrite (proj2 (Z.leb_gt _ _)) by lia. cbn.
    symmetry. eapply route_None_below; [done | lia].
  - destruct (upper_bound (mkRange addr addr) m) as [|j] eqn:Eu.
    + cbn. unfold overlaps, Range_contains. cbn.
      rewrite (proj2 (Z.leb_le _ _)) by lia. cbn.
      destruct (Z.leb_spec addr (r_end e.1)); [done|].
      destruct m as [|x m]; [done|]. cbn in Eu. unfold Range_lt in Eu. cbn in Eu.
      destruct (Z.ltb_spec addr (r_start x.1)); [|done].
      symmetry. apply (route_None_below _ (r_start x.1)); [|done].
      destruct H3 as (? & ? & ?). by split_and!.
    + change ((e :: m) !! S j) with (m !! j). rewrite IHm. unfold Range_contains.
      destruct (Z.leb_spec addr (r_end e.1)) as [Hle|]; [|by rewrite andb_false_r].
      rewrite (upper_bound_first addr m (r_end e.1 + 1)) in Eu by (done || lia). done.
Qed.

(** With disjoint ranges the entry is the only one. *)
Lemma route_Some m addr : forall lo e, rm_wf lo m -> e ∈ m ->
  Range_contains e.1 addr = true -> route m addr = Some e.
Proof.
  induction m as [|x m IH]; cbn; intros lo e Hwf He Hc; [by apply elem_of_nil in He|].
  destruct Hwf as (H1 & H2 & H3). apply elem_of_cons in He as [->|He].
  { by rewrite Hc. }
  pose proof (rm_wf_elem m _ e H3 He). destruct (Range_contains x.1 addr) eqn:Hx.
  - unfold Range_contains in *. zb. lia.
  - by apply (IH _ e H3).
Qed.

Lemma rm_wf_filter P `{!forall x, Decision (P x)} m : forall lo,
  rm_wf lo m -> rm_wf lo (filter P m).
Proof.
  induction m as [|e m IH]; intros lo Hwf; [done|].
  destruct Hwf as (H1 & H2 & H3). rewrite filter_cons. case_decide.
  - split_and!; [done..|]. by apply IH.
  - eapply rm_wf_le; [|by apply IH]. lia.
Qed.

(** ** Adding a range that is apart from all *)

Lemma rm_find_apart r m : Forall (fun e => apart e.1 r) m -> rm_find r m = None.
Proof.
  intros Hall. assert (Hno : forall e, e ∈ m -> overlaps e.1 r = false).
  { intros e He. rewrite Forall_forall in Hall. pose proof (Hall e He) as Ha.
    unfold overlaps, apart in *. apply andb_false_iff.
    destruct Ha; [right | left]; apply Z.leb_gt; lia. }
  unfold rm_find. destruct (upper_bound r m) as [|j].
  - destruct m as [|e m]; [done|]. cbn. rewrite Hno; [done | left].
  - destruct (m !! j) as [e|] eqn:Ej; [|done]. cbn.
    rewrite Hno; [done | by eapply list_elem_of_lookup_2].
Qed.

Lemma map_insert_apart r d m : forall lo, rm_wf lo m -> lo <= r_start r <= r_end r ->
  Forall (fun e => apart e.1 r) m ->
  rm_wf lo (tree_insert r d m) /\ (forall x, x ∈ tree_insert r d m <-> x ∈ m \/ x = (r, d)).
Proof.
  induction m as [|e m IH]; intros lo Hwf Hr Hall; cbn.
  { split; [split_and!; cbn; (done || lia)|]. set_solver. }
  destruct Hwf as (H1 & H2 & H3). apply Forall_cons in Hall as [Ha Hall].
  unfold apart in Ha. unfold Range_lt.
  destruct (Z.ltb_spec (r_start r) (r_start e.1)).
  { split; [cbn; split_and!; (done || lia)|]. set_solver. }
  destruct (Z.ltb_spec (r_start e.1) (r_start r)); [|lia].
  destruct (IH (r_end e.1 + 1)) as [Hw Hx]; [done | lia | done |].
  split; [split_and!; (done || lia)|]. intros x. rewrite !elem_of_cons, Hx. tauto.
Qed.

Lemma add_ranges_apart id rs : forall m lo, rm_wf lo m ->
  Forall (fun r => lo <= r_start r <= r_end r) rs -> ForallOrdPairs apart rs ->
  (forall r e, r ∈ rs -> e ∈ m -> apart e.1 r) ->
  exists m', add_ranges id rs m = Ok m' /\ rm_wf lo m' /\
    (forall x, x ∈ m' <-> x ∈ m \/ (x.2 = id /\ x.1 ∈ rs)).
Proof.
  induction rs as [|r rs IH]; intros m lo Hwf Hall Hpair Hm.
  { exists m. split_and!; [done..|]. set_solver. }
  apply Forall_cons in Hall as [Hr Hall]. inversion Hpair as [|? ? Hr1 Hr2]; subst.
  assert (Hap : Forall (fun e => apart e.1 r) m).
  { apply Forall_forall. intros e He. apply Hm; [left | done]. }
  unfold add_ranges. cbn [foldM]. unfold rm_insert, rm_intersect.
  rewrite rm_find_apart by done. cbn.
  destruct (map_insert_apart r id m lo Hwf Hr Hap) as [Hw Hx].
  destruct (IH (tree_insert r id m) lo) as (m' & Hm' & Hw' & Hx'); [done..| |].
  { intros r' e Hr' He. apply Hx in He as [He | ->]; [apply Hm; [by right | done]|].
    cbn. rewrite Forall_forall in Hr1. by apply Hr1. }
  exists m'. split_and!; [done..|]. intros x. rewrite Hx', Hx, elem_of_cons.
  destruct x as [rx ix]. cbn. naive_solver.
Qed.

(** * What a decoder promises *)

(** The abstract state: the ranges each device has announced last, and those of
    the default device. *)
Record Announced := mkAnnounced {
  an_ports : gmap Z (list Range);
  an_default : list Range
}.

Definition announce (p : Ports) (id : Z) (rs : list Range) (a : Announced) : Announced :=
  if id =? po_defaultPortID p
  then mkAnnounced (an_ports a) (if po_useDefaultRange p then rs else [])
  else mkAnnounced (<[id := rs]> (an_ports a)) (an_default a).

Definition served (a : Announced) (addr id : Z) : Prop :=
  exists rs r, an_ports a !! id = Some rs /\ r ∈ rs /\ Range_contains r addr = true.

(** The announced ranges are valid and apart. *)
Record apart_ann (a : Announced) : Prop := {
  aa_valid : forall id rs, an_ports a !! id = Some rs ->
    Forall (fun r => 0 <= r_start r <= r_end r) rs /\ ForallOrdPairs apart rs;
  aa_apart : forall id1 id2 rs1 rs2 r1 r2, id1 <> id2 ->
    an_ports a !! id1 = Some rs1 -> an_ports a !! id2 = Some rs2 ->
    r1 ∈ rs1 -> r2 ∈ rs2 -> apart r1 r2
}.

(** What a lookup must answer. *)
Definition decodes (p : Ports) (a : Announced) (addr : Z) (res : result (Z * Ports)) : Prop :=
  match res with
  | Ok (id, _) =>
      served a addr id \/
      ((forall i, ~ served a addr i) /\ id = po_defaultPortID p /\
       (if po_useDefaultRange p
        then exists r, r ∈ an_default a /\ Range_contains r addr = true
        else po_defaultPortID p <> InvalidPortID))
  | Err e =>
      e = Fatal /\ (forall i, ~ served a addr i) /\
      (if po_useDefaultRange p
       then forall r, r ∈ an_default a -> Range_contains r addr = false
       else po_defaultPortID p = InvalidPortID)
  end.

(** Operations on a decoder; the neighbours take note of a change of ranges and
    leave the decoder alone. *)
Inductive POp :=
  | PLookup (addr : Z)
  | PAnnounce (id : Z) (rs : list Range).

Definition pstep (p : Ports) (op : POp) : result Ports :=
  match op with
  | PLookup addr => r ← findPort addr p; Ok r.2
  | PAnnounce id rs => recvRangeChange (fun _ => rs) (fun _ p => Ok p) id p
  end.

Definition astep (p : Ports) (a : Announced) (op : POp) : Announced :=
  match op with PLookup _ => a | PAnnounce id rs => announce p id rs a end.

(** Addresses have 64 bits; a device is one of the bus's, and announces ranges
    apart from those of the others. *)
Definition pvalid (p : Ports) (a : Announced) (op : POp) : Prop :=
  match op with
  | PLookup addr => 0 <= addr < 2 ^ 64
  | PAnnounce id rs => 0 <= id < po_numMaster p /\ apart_ann (announce p id rs a)
  end.

Fixpoint ptrace (p : Ports) (a : Announced) (ops : list POp) : Prop :=
  match ops with
  | [] => True
  | op :: ops' => pvalid p a op /\ ptrace p (astep p a op) ops'
  end.

(** ** The invariant that ties the two *)

Definition cache_ok (m : range_map) (e : PortCache) : Prop :=
  pc_valid e = true -> (mkRange (pc_start e) (pc_end e), pc_id e) ∈ m.

(** The constants a decoder keeps. *)
Definition same_cfg (p p' : Ports) : Prop :=
  po_numMaster p' = po_numMaster p /\ po_numSlave p' = po_numSlave p /\
  po_defaultPortID p' = po_defaultPortID p /\
  po_useDefaultRange p' = po_useDefaultRange p.

Record decoder (p0 : Ports) (a : Announced) (p : Ports) : Prop := {
  de_cfg : same_cfg p0 p;
  de_apart : apart_ann a;
  de_wf : rm_wf 0 (po_portMap p);
  de_ids : forall id rs, an_ports a !! id = Some rs -> 0 <= id;
  de_map : forall r id, (r, id) ∈ po_portMap p <->
    exists rs, an_ports a !! id = Some rs /\ r ∈ rs;
  de_default : po_defaultRange p = an_default a;
  de_cache : let '(e0, e1, e2) := po_portCache p in
    cache_ok (po_portMap p) e0 /\ cache_ok (po_portMap p) e1 /\ cache_ok (po_portMap p) e2;
  de_free : po_inRecvRangeChange p = ∅
}.

Section Decoder.

Context (p0 : Ports) (a : Announced) (p : Ports) (Hd : decoder p0 a p).

Lemma entry_served r id addr : (r, id) ∈ po_portMap p -> Range_contains r addr = true ->
  served a addr id /\ id <> InvalidPortID.
Proof.
  intros Hin Hc. apply (de_map _ _ _ Hd) in Hin as (rs & Hrs & Hr).
  pose proof (de_ids _ _ _ Hd _ _ Hrs). split; [by exists rs, r|]. unfold InvalidPortID. lia.
Qed.

Lemma route_served addr :
  match route (po_portMap p) addr with
  | Some (r, id) => (r, id) ∈ po_portMap p /\ served a addr id
  | None => forall i, ~ served a addr i
  end.
Proof.
  destruct (route _ addr) as [[r id]|] eqn:E.
  - apply find_some in E as [Hin Hc]. apply list_elem_of_In in Hin.
    split; [done|]. by eapply entry_served.
  - intros i (rs & r & Hrs & Hr & Hc).
    assert ((r, i) ∈ po_portMap p) as Hin by (apply (de_map _ _ _ Hd); eauto).
    by rewrite (route_Some _ addr 0 (r, i) (de_wf _ _ _ Hd) Hin Hc) in E.
Qed.

Lemma cache_hit_served addr : let id := checkPortCache addr p in
  id <> InvalidPortID -> served a addr id.
Proof.
  pose proof (de_cache _ _ _ Hd) as Hc. unfold checkPortCache.
  destruct (po_portCache p) as [[e0 e1] e2]. destruct Hc as (H0 & H1 & H2).
  assert (Hone : forall e, cache_ok (po_portMap p) e -> pc_hit e addr = true ->
    served a addr (pc_id e)).
  { intros e He Hh. unfold pc_hit in Hh. zb.
    apply (entry_served (mkRange (pc_start e) (pc_end e))); [by apply He|].
    unfold Range_contains. cbn. apply andb_true_iff. split; apply Z.leb_le; lia. }
  destruct (pc_hit e0 addr) eqn:E0; [intros _; by apply Hone|].
  destruct (pc_hit e1 addr) eqn:E1; [intros _; by apply Hone|].
  destruct (pc_hit e2 addr) eqn:E2; [intros _; by apply Hone|]. done.
Qed.

(** A lookup answers as it must, and leaves a decoder of the same
    announcements. *)
Lemma findPort_decodes addr : 0 <= addr < 2 ^ 64 ->
  decodes p0 a addr (findPort addr p) /\
  (forall id p', findPort addr p = Ok (id, p') -> decoder p0 a p').
Proof.
  intros Ha. unfold findPort. pose proof (de_cfg _ _ _ Hd) as (_ & _ & Hdp & Hud).
  destruct (Z.eqb_spec (checkPortCache addr p) InvalidPortID) as [E|E]; cbn [negb].
  2: { split; [left; by apply cache_hit_served|]. by intros ? ? [= <- <-]. }
  unfold RangeSize. replace (addr + 1 - 1) with addr by lia. rewrite u64_small by done.
  rewrite (rm_find_point _ 0 addr) by apply (de_wf _ _ _ Hd).
  pose proof (route_served addr) as Hr. destruct (route _ addr) as [[r id]|].
  - destruct Hr as [Hin Hs]. split; [by left|]. intros ? ? [= <- <-].
    pose proof Hd as [H1 H2 H3 H4 H5 H6 H7 H8]. unfold updatePortCache.
    destruct (po_portCache p) as [[e0 e1] e2] eqn:Ec. destruct H7 as (? & ? & ?).
    split; try done. cbn. split_and!; [|done..]. intros _. cbn. by destruct r.
  - rewrite Hud, Hdp, (de_default _ _ _ Hd). destruct (po_useDefaultRange p0) eqn:Eu.
    + destruct (existsb _ _) eqn:Ex; cbn; rewrite Eu.
      * split; [|by intros ? ? [= <- <-]]. right. split_and!; [done..|].
        apply existsb_exists in Ex as (r & Hin & Hc). apply list_elem_of_In in Hin. eauto.
      * split; [|done]. split_and!; [done..|]. intros r Hin.
        destruct (Range_contains r addr) eqn:Hc; [|done].
        assert (existsb (fun r => Range_contains r addr) (an_default a) = true) by
          (apply existsb_exists; exists r; by rewrite <- list_elem_of_In). congruence.
    + destruct (Z.eqb_spec (po_defaultPortID p0) InvalidPortID); cbn; rewrite Eu.
      * by split.
      * split; [|by intros ? ? [= <- <-]]. right. by split_and!.
Qed.

(** An announcement of ranges apart from the others is taken. *)
Lemma announce_taken id rs : 0 <= id < po_numMaster p0 ->
  apart_ann (announce p0 id rs a) ->
  exists p', recvRangeChange (fun _ => rs) (fun _ p => Ok p) id p = Ok p' /\
    decoder p0 (announce p0 id rs a) p'.
Proof.
  intros Hid Hap. pose proof Hd as [(Hnm & Hns & Hdp & Hud) H2 H3 H4 H5 H6 H7 H8].
  unfold recvRangeChange. rewrite H8, bool_decide_false by set_solver.
  unfold clearPortCache. cbn [po_portCache with_po_inRecvRangeChange].
  destruct (po_portCache p) as [[e0 e1] e2] eqn:Ec. cbn.
  assert (Hcb : forall l q, foldM (fun (p : Ports) (_ : Z) => Ok p) q l = Ok q).
  { induction l; cbn; auto. }
  assert (Hfree : ({[id]} ∪ ∅) ∖ {[id]} = (∅ : gset Z)) by set_solver.
  assert (Hinv : forall m e, cache_ok m (invalid_entry e)) by done.
  unfold announce in *. rewrite Hdp. destruct (Z.eqb_spec id (po_defaultPortID p0)) as [->|Hne].
  - cbn. rewrite Hcb. cbn. eexists. split; [done|].
    rewrite Hud. split; cbn; try done.
    all: destruct (po_useDefaultRange p0) eqn:Eu; cbn; first [done | apply Hfree | split_and!; cbn; congruence].
  - rewrite Hnm, (proj2 (Z.ltb_lt _ _)), (proj2 (Z.leb_le _ _)) by lia. cbn.
    destruct (aa_valid _ Hap id rs) as [Hval Hpair]; [apply lookup_insert_eq|].
    destruct (add_ranges_apart id rs (filter (fun e => e.2 <> id) (po_portMap p)) 0)
      as (m' & -> & Hw & Hx); [by apply rm_wf_filter | done | done | |].
    { intros r [r1 i1] Hr He. apply list_elem_of_filter in He as [Hn He]. cbn in Hn.
      apply H5 in He as (rs1 & Hrs1 & Hr1).
      apply (aa_apart _ Hap i1 id rs1 rs); [done| |by apply lookup_insert_eq|done|done].
      cbn. by rewrite lookup_insert_ne by done. }
    cbn. rewrite Hcb. cbn. eexists. split; [done|].
    split; cbn; try done.
    + intros i rs'. destruct (decide (i = id)) as [->|]; [lia|].
      rewrite lookup_insert_ne by done. apply H4.
    + intros r i. rewrite Hx, list_elem_of_filter. cbn. rewrite H5.
      destruct (decide (i = id)) as [->|].
      * rewrite lookup_insert_eq. naive_solver.
      * rewrite lookup_insert_ne by done. naive_solver.
Qed.

End Decoder.

Lemma decoder_new nm ns hd ud bs :
  let p := Ports_new nm ns hd ud bs in decoder p (mkAnnounced ∅ []) p.
Proof. cbn. split; cbn; try done; set_solver. Qed.

(** ** Any sequence *)

Lemma decoder_run p0 ops : forall a p p', decoder p0 a p -> ptrace p0 a ops ->
  foldM pstep p ops = Ok p' -> decoder p0 (foldl (astep p0) a ops) p'.
Proof.
  induction ops as [|op ops IH]; cbn; intros a p p' Hd Htr Hrun; [by injection Hrun as <-|].
  destruct Htr as [Hv Htr]. apply bind_Ok in Hrun as (p1 & H1 & Hrun).
  eapply IH; [|done..]. destruct op as [addr|id rs]; cbn in *.
  - apply bind_Ok in H1 as ([i q] & Hf & [= <-]).
    by eapply (findPort_decodes p0 a p Hd addr Hv).
  - destruct Hv as [Hid Hap]. destruct (announce_taken p0 a p Hd id rs Hid Hap)
      as (p2 & H2 & Hd2). rewrite H2 in H1. by injection H1 as <-.
Qed.

(** C28. Routing implements the announcements.  On a new bus, after any sequence
    of lookups and of announcements that keep the devices' ranges apart, every
    64-bit address is sent to the device that announced a range with it; if there
    is none, to the default port if the bus has one for it, and otherwise the
    lookup is fatal.  The order of announcements, the tree and the port cache do
    not show.  And a further announcement that keeps the ranges apart is
    taken. *)
Theorem routing_refines nm ns hd ud bs ops p :
  let p0 := Ports_new nm ns hd ud bs in
  let a := foldl (astep p0) (mkAnnounced ∅ []) ops in
  ptrace p0 (mkAnnounced ∅ []) ops -> foldM pstep p0 ops = Ok p ->
  (forall addr, 0 <= addr < 2 ^ 64 -> decodes p0 a addr (findPort addr p)) /\
  (forall id rs, pvalid p0 a (PAnnounce id rs) -> is_ok (pstep p (PAnnounce id rs)) = true).
Proof.
  intros p0 a Htr Hrun.
  pose proof (decoder_run p0 ops _ _ _ (decoder_new nm ns hd ud bs) Htr Hrun) as Hd.
  fold a in Hd. split.
  - intros addr Ha. by apply (findPort_decodes p0 a p Hd addr Ha).
  - intros id rs [Hid Hap]. destruct (announce_taken p0 a p Hd id rs Hid Hap)
      as (p' & Hp & _). cbn. by rewrite Hp.
Qed.

(** Two devices and a default; the second device moves. *)
Definition demo_ops : list POp :=
  [ PAnnounce 1 [mkRange 4096 8191]; PAnnounce 0 [mkRange 0 1023; mkRange 2048 4095];
    PLookup 4095; PLookup 5000; PAnnounce 1 [mkRange 8192 16383]; PLookup 5000 ].

Lemma demo_apart (m : gmap Z (list Range)) d rs0 rs1 :
  m = <[0 := rs0]> (<[1 := rs1]> ∅) \/ m = <[1 := rs1]> ∅ ->
  forallb (fun r => (0 <=? r_start r) && (r_start r <=? r_end r)) (rs0 ++ rs1) = true ->
  ForallOrdPairs apart (rs0 ++ rs1) -> apart_ann (mkAnnounced m d).
Proof.
  intros Hm Hval Hpair.
  assert (Hv : Forall (fun r => 0 <= r_start r <= r_end r) (rs0 ++ rs1)).
  { apply Forall_forall. intros r Hr. rewrite forallb_forall in Hval.
    apply list_elem_of_In in Hr. apply Hval in Hr. zb. lia. }
  apply Forall_app in Hv as [Hv0 Hv1].
  assert (Hsplit : forall l1 l2 : list Range, ForallOrdPairs apart (l1 ++ l2) ->
    ForallOrdPairs apart l1 /\ ForallOrdPairs apart l2 /\
    (forall x y, x ∈ l1 -> y ∈ l2 -> apart x y)).
  { induction l1 as [|x l1 IH]; cbn; intros l2 H; [split_and!; [constructor|done|set_solver]|].
    inversion H as [|? ? Hx H']; subst. apply Forall_app in Hx as [Hx1 Hx2].
    destruct (IH l2 H') as (H1 & H2 & H3). split_and!; [by constructor|done|].
    intros y z Hy Hz. apply elem_of_cons in Hy as [->|Hy]; [|by apply H3].
    rewrite Forall_forall in Hx2. by apply Hx2. }
  destruct (Hsplit _ _ Hpair) as (Hp0 & Hp1 & Hx).
  assert (Hcase : forall id rs, m !! id = Some rs -> (id = 0 /\ rs = rs0) \/ (id = 1 /\ rs = rs1)).
  { intros id rs Hl. destruct Hm as [-> | ->];
      repeat rewrite lookup_insert_Some in Hl; rewrite ?lookup_empty in Hl; naive_solver. }
  split; cbn.
  - intros id rs Hl. destruct (Hcase _ _ Hl) as [[-> ->]|[-> ->]]; by split.
  - intros i1 i2 s1 s2 r1 r2 Hne Hl1 Hl2 Hr1 Hr2.
    destruct (Hcase _ _ Hl1) as [[-> ->]|[-> ->]], (Hcase _ _ Hl2) as [[-> ->]|[-> ->]];
      try done; [by apply Hx|].
    destruct (Hx r2 r1 Hr2 Hr1); [by right | by left].
Qed.

Lemma routing_refines_witness :
  let p0 := Ports_new 2 1 true false 64 in
  exists p, foldM pstep p0 demo_ops = Ok p /\
    decodes p0 (foldl (astep p0) (mkAnnounced ∅ []) demo_ops) 4095 (findPort 4095 p).
Proof.
  intros p0. destruct (is_ok_true (foldM pstep p0 demo_ops)) as [p Hp];
    [vm_compute; reflexivity|].
  exists p. split; [exact Hp|].
  apply (routing_refines 2 1 true false 64 demo_ops p); [|exact Hp|lia].
  cbn. split_and!; try lia; try done.
  - apply (demo_apart _ _ [] [mkRange 4096 8191]);
      [by right | reflexivity | repeat constructor; cbv; lia].
  - apply (demo_apart _ _ [mkRange 0 1023; mkRange 2048 4095] [mkRange 4096 8191]);
      [by left | reflexivity |].
    repeat constructor; unfold apart; cbn; lia.
  - apply (demo_apart _ _ [mkRange 0 1023; mkRange 2048 4095] [mkRange 8192 16383]).
    + left. by rewrite insert_insert_ne, insert_insert_eq by done.
    + reflexivity.
    + repeat constructor; unfold apart; cbn; lia.
Defined.

(** * Ranges that are not apart *)

(** The overlap check looks at one neighbour.  A range that starts after an
    entry ends but reaches into the next entry is taken, so two devices answer to
    the same addresses, and where such an address goes depends on which of them
    was looked up before. *)
Theorem overlap_missed a b r ia ib ir :
  r_start a <= r_end a -> r_end a < r_start r -> r_start r < r_start b ->
  r_start b <= r_end r ->
  rm_insert r ir [(a, ia); (b, ib)] = Some [(a, ia); (r, ir); (b, ib)].
Proof.
  intros H1 H2 H3 H4. unfold rm_insert, rm_intersect, rm_find. cbn. unfold Range_lt. cbn.
  rewrite (proj2 (Z.ltb_ge (r_start r) (r_start a))) by lia.
  rewrite (proj2 (Z.ltb_lt (r_start r) (r_start b))) by lia. cbn.
  unfold overlaps. cbn. rewrite (proj2 (Z.leb_gt (r_start r) (r_end a))) by lia.
  rewrite andb_false_r. cbn.
  by rewrite (proj2 (Z.ltb_lt (r_start a) (r_start r))) by lia.
Qed.

(** After three such announcements the address 24 goes to device 1 or to device 2
    depending on a lookup of 16. *)
Lemma overlap_missed_witness :
  rm_insert (mkRange 15 25) 2 [(mkRange 0 9, 0); (mkRange 20 29, 1)] =
    Some [(mkRange 0 9, 0); (mkRange 15 25, 2); (mkRange 20 29, 1)] /\
  let ops := [PAnnounce 0 [mkRange 0 9]; PAnnounce 1 [mkRange 20 29];
              PAnnounce 2 [mkRange 15 25]] in
  let dest ops := (p ← foldM pstep (Ports_new 3 1 false false 64) ops;
                   r ← findPort 24 p; Ok r.1) in
  dest ops = Ok 1 /\ dest (ops ++ [PLookup 16]) = Ok 2.
Proof.
  split; [|split; vm_compute; reflexivity].
  apply (overlap_missed (mkRange 0 9) (mkRange 20 29) (mkRange 15 25) 0 1 2); cbn; lia.
Defined.
