(* ===== verification/CoherentBus.v ===== *)
(** The coherent buses: mem/rr_coherent_bus.hh and rr_coherent_bus.cc
    ([RR_CoherentBus]), mem/coherent_bus.hh and coherent_bus.cc ([CoherentBus]).

    The two classes have the same code over different layers, so it is written
    once, over the interface [BusLayer] of what a bus asks of a layer: whether a
    packet is taken now, how long it takes, and what follows.  The round-robin
    and the plain layer are its two instances.

    The far ends of the ports are a [BusEnv] over a state [W] of theirs.  They
    get the packet by pointer, so they give back what they made of it.  A port
    that is offered a retry reacts with a finite tree of sends ([Reaction]). *)

From S2P Require Import Prelude Request MemCmd Packet PacketQueue ClockedObject RRBus PortMap.

(** * What a bus asks of a layer *)

(** The timing parameters of a call: turn length and offset, for the layers that
    have turns. *)
Abbreviation TurnPar := (Z * Z)%type.

Class BusLayer (L : Type) := {
  bl_try : BusParams -> Z -> Z -> Z -> L -> result (bool * L);
  bl_timing : BusParams -> Z -> TurnPar -> Packet -> result (Z * Packet);
  bl_succeeded : Z -> Z -> Z -> L -> result L;
  bl_failed : Z -> Z -> Z -> Z -> L -> result L;
  bl_drain : Z -> L -> result (Z * L);
  bl_recvRetry : forall {St}, Lens St L -> (Z -> Z -> St -> result St) ->
    BusParams -> Z -> St -> result St;
  bl_release : forall {St}, Lens St L -> (Z -> Z -> St -> result St) ->
    (Z -> St -> result St) -> BusParams -> Z -> St -> result St
}.

(** [RR_CoherentBus::recvRetry] asks the layer for every thread in turn. *)
#[global] Instance RR_layer : BusLayer Layer := {
  bl_try := tryTiming;
  bl_timing b cur par pkt :=
    calcPacketTiming b cur pkt (i32 (pkt_threadID pkt)) par.1 par.2;
  bl_succeeded := succeededTiming;
  bl_failed := failedTiming;
  bl_drain := Layer_drain;
  bl_recvRetry St lens sendRetry b cur s :=
    foldM (fun s i => Layer_recvRetry lens sendRetry b cur i s) s
      (zrange (bus_num_pids b));
  bl_release St lens sendRetry process b cur s := releaseLayer lens sendRetry process b cur s
}.

#[global] Instance plain_layer : BusLayer Layer1 := {
  bl_try b cur port t L := tryTiming1 port L;
  bl_timing b cur par pkt := calcPacketTiming1 b cur pkt;
  bl_succeeded cur busy t L := succeededTiming1 cur busy L;
  bl_failed cur port busy t L := failedTiming1 cur port busy L;
  bl_drain de L := Ok (Layer1_drain de L);
  bl_recvRetry St lens sendRetry b cur s :=
    Layer1_recvRetry lens (fun port => sendRetry port 0) b cur s;
  bl_release St lens sendRetry process b cur s :=
    releaseLayer1 lens (fun port => sendRetry port 0) process b cur s
}.

(** * The far ends of the ports *)

Record BusEnv (W : Type) := mkBusEnv {
  e_reqs : W -> ReqHeap;
  e_sendTimingReq : Z -> Packet -> W -> bool * Packet * W;
  e_sendTimingResp : Z -> Packet -> W -> bool * Packet * W;
  e_sendTimingSnoopReq : Z -> Packet -> W -> Packet * W;
  e_sendTimingSnoopResp : Z -> Packet -> W -> bool * Packet * W;
  e_sendAtomic : Z -> Packet -> W -> Z * Packet * W;
  e_sendAtomicSnoop : Z -> Packet -> W -> Z * Packet * W;
  e_sendFunctional : Z -> Packet -> W -> Packet * W;
  e_sendFunctionalSnoop : Z -> Packet -> W -> Packet * W
}.
Arguments e_reqs {W}.
Arguments e_sendTimingReq {W}.
Arguments e_sendTimingResp {W}.
Arguments e_sendTimingSnoopReq {W}.
Arguments e_sendTimingSnoopResp {W}.
Arguments e_sendAtomic {W}.
Arguments e_sendAtomicSnoop {W}.
Arguments e_sendFunctional {W}.
Arguments e_sendFunctionalSnoop {W}.

(** What a port does when it is offered a retry: nothing, or send a packet and go
    on depending on the answer. *)
Inductive Reaction :=
  | RDone
  | RSend (pkt : Packet) (k : bool -> Reaction).

(** * The bus *)

Record CBus (L : Type) := mkCBus {
  cb_params : BusParams;
  cb_ports : Ports;
  cb_reqLayer : L;
  cb_respLayer : L;
  cb_snoopRespLayer : L;
  cb_req_par : TurnPar;
  cb_resp_par : TurnPar;
  cb_snoopPorts : list Z;
  cb_outstandingReq : gset Z
}.
Arguments mkCBus {L}.
Arguments cb_params {L}.
Arguments cb_ports {L}.
Arguments cb_reqLayer {L}.
Arguments cb_respLayer {L}.
Arguments cb_snoopRespLayer {L}.
Arguments cb_req_par {L}.
Arguments cb_resp_par {L}.
Arguments cb_snoopPorts {L}.
Arguments cb_outstandingReq {L}.

Section With.

Context {L : Type}.

Definition with_cb_ports (v : Ports) (r : CBus L) : CBus L :=
  mkCBus (cb_params r) v (cb_reqLayer r) (cb_respLayer r) (cb_snoopRespLayer r)
    (cb_req_par r) (cb_resp_par r) (cb_snoopPorts r) (cb_outstandingReq r).
Definition with_cb_reqLayer (v : L) (r : CBus L) : CBus L :=
  mkCBus (cb_params r) (cb_ports r) v (cb_respLayer r) (cb_snoopRespLayer r)
    (cb_req_par r) (cb_resp_par r) (cb_snoopPorts r) (cb_outstandingReq r).
Definition with_cb_respLayer (v : L) (r : CBus L) : CBus L :=
  mkCBus (cb_params r) (cb_ports r) (cb_reqLayer r) v (cb_snoopRespLayer r)
    (cb_req_par r) (cb_resp_par r) (cb_snoopPorts r) (cb_outstandingReq r).
Definition with_cb_snoopRespLayer (v : L) (r : CBus L) : CBus L :=
  mkCBus (cb_params r) (cb_ports r) (cb_reqLayer r) (cb_respLayer r) v
    (cb_req_par r) (cb_resp_par r) (cb_snoopPorts r) (cb_outstandingReq r).
Definition with_cb_snoopPorts (v : list Z) (r : CBus L) : CBus L :=
  mkCBus (cb_params r) (cb_ports r) (cb_reqLayer r) (cb_respLayer r) (cb_snoopRespLayer r)
    (cb_req_par r) (cb_resp_par r) v (cb_outstandingReq r).
Definition with_cb_outstandingReq (v : gset Z) (r : CBus L) : CBus L :=
  mkCBus (cb_params r) (cb_ports r) (cb_reqLayer r) (cb_respLayer r) (cb_snoopRespLayer r)
    (cb_req_par r) (cb_resp_par r) (cb_snoopPorts r) v.

End With.

(** The constructors, and [init], which asks the masters behind the slave ports
    whether they snoop. *)
Definition RR_CoherentBus_new (b : BusParams) (ports : Ports)
    (req_tl req_offset resp_tl resp_offset : Z) : result (CBus Layer) :=
  RRBus_check b ;;
  Ok (mkCBus b (clearPortCache ports)
       (Layer_new b (bus_clock b) req_tl req_offset)
       (Layer_new b (bus_clock b) resp_tl resp_offset)
       (Layer_new b (bus_clock b) resp_tl resp_offset)
       (req_tl, req_offset) (resp_tl, resp_offset) [] ∅).

Definition CoherentBus_new (b : BusParams) (ports : Ports) : result (CBus Layer1) :=
  RRBus_check b ;;
  Ok (mkCBus b (clearPortCache ports) (Layer1_new (bus_clock b)) (Layer1_new (bus_clock b))
       (Layer1_new (bus_clock b)) (0, 0) (0, 0) [] ∅).

Definition cb_init {L} (isSnooping : Z -> bool) (bus : CBus L) : CBus L :=
  with_cb_snoopPorts
    (cb_snoopPorts bus ++ filter (fun p => isSnooping p = true)
       (zrange (po_numSlave (cb_ports bus)))) bus.

(** A subscript of the vectors of ports. *)
Definition port_in (id n : Z) : result unit :=
  if (0 <=? id) && (id <? n) then Ok tt else Err OutOfBounds.

Section Bus.

Context {L : Type} {BL : BusLayer L} {W : Type} (E : BusEnv W).

Abbreviation St := (CBus L * W)%type.

(** The snoopers that a packet goes to: all but the one it came from. *)
Definition snoopers (bus : CBus L) (exclude : Z) : list Z :=
  filter (fun p => exclude = InvalidPortID \/ p <> exclude) (cb_snoopPorts bus).

Definition cb_forwardTiming (bus : CBus L) (pkt : Packet) (exclude : Z) (w : W) : Packet * W :=
  foldl (fun s p => e_sendTimingSnoopReq E p s.1 s.2) (pkt, w) (snoopers bus exclude).

Definition cb_recvTimingReq (cur : Z) (pkt : Packet) (slave_port_id : Z) (s : St)
    : result (bool * Packet * St) :=
  let '(bus, w) := s in
  let b := cb_params bus in
  port_in slave_port_id (po_numSlave (cb_ports bus)) ;;
  let is_express_snoop := isExpressSnoop pkt in
  r ← (if is_express_snoop then Ok (true, bus) else
       r ← bl_try b cur slave_port_id (i32 (pkt_threadID pkt)) (cb_reqLayer bus);
       Ok (r.1, with_cb_reqLayer r.2 bus));
  let bus := r.2 in
  if negb r.1 then Ok (false, pkt, (bus, w)) else
  let pkt := setSrc slave_port_id pkt in
  t ← (if is_express_snoop then Ok (0, pkt)
       else bl_timing b cur (cb_req_par bus) pkt);
  let headerFinishTime := t.1 in
  let pkt := t.2 in
  let packetFinishTime := if is_express_snoop then 0 else pkt_finishTime pkt in
  req ← req_deref (e_reqs E w) (pkt_req pkt);
  let '(pkt, w) := if isUncacheable req then (pkt, w)
                   else cb_forwardTiming bus pkt slave_port_id w in
  let add_outstanding := negb is_express_snoop && needsResponse pkt in
  bus ← (if add_outstanding then
           cassert (bool_decide (pkt_req pkt ∉ cb_outstandingReq bus)) ;;
           Ok (with_cb_outstandingReq ({[pkt_req pkt]} ∪ cb_outstandingReq bus) bus)
         else Ok bus);
  addr ← getAddr pkt;
  d ← findPort addr (cb_ports bus);
  let bus := with_cb_ports d.2 bus in
  port_in d.1 (po_numMaster (cb_ports bus)) ;;
  let '(success, pkt, w) := e_sendTimingReq E d.1 pkt w in
  if is_express_snoop then cassert success ;; Ok (success, pkt, (bus, w)) else
  if negb success then
    cassert (negb (memInhibitAsserted pkt)) ;;
    let bus := if add_outstanding
      then with_cb_outstandingReq (cb_outstandingReq bus ∖ {[pkt_req pkt]}) bus else bus in
    l ← bl_failed cur slave_port_id headerFinishTime (i32 (pkt_threadID pkt))
          (cb_reqLayer bus);
    Ok (false, pkt, (with_cb_reqLayer l bus, w))
  else
    l ← bl_succeeded cur packetFinishTime (i32 (pkt_threadID pkt)) (cb_reqLayer bus);
    Ok (true, pkt, (with_cb_reqLayer l bus, w)).

Definition cb_recvTimingResp (cur : Z) (pkt : Packet) (master_port_id : Z) (s : St)
    : result (bool * Packet * St) :=
  let '(bus, w) := s in
  let b := cb_params bus in
  port_in master_port_id (po_numMaster (cb_ports bus)) ;;
  r ← bl_try b cur master_port_id (i32 (pkt_threadID pkt)) (cb_respLayer bus);
  let bus := with_cb_respLayer r.2 bus in
  if negb r.1 then Ok (false, pkt, (bus, w)) else
  t ← bl_timing b cur (cb_resp_par bus) pkt;
  let pkt := t.2 in
  let packetFinishTime := pkt_finishTime pkt in
  cassert (bool_decide (pkt_req pkt ∈ cb_outstandingReq bus)) ;;
  let bus := with_cb_outstandingReq (cb_outstandingReq bus ∖ {[pkt_req pkt]}) bus in
  dest ← getDest pkt;
  port_in dest (po_numSlave (cb_ports bus)) ;;
  let '(success, pkt, w) := e_sendTimingResp E dest pkt w in
  cassert success ;;
  l ← bl_succeeded cur packetFinishTime (i32 (pkt_threadID pkt)) (cb_respLayer bus);
  Ok (true, pkt, (with_cb_respLayer l bus, w)).

Definition cb_recvTimingSnoopReq (pkt : Packet) (master_port_id : Z) (s : St)
    : result (Packet * St) :=
  let '(bus, w) := s in
  cassert (isExpressSnoop pkt) ;;
  let pkt := setSrc master_port_id pkt in
  let '(pkt, w) := cb_forwardTiming bus pkt InvalidPortID w in
  addr ← getAddr pkt;
  d ← findPort addr (cb_ports bus);
  cassert (master_port_id =? d.1) ;;
  Ok (pkt, (with_cb_ports d.2 bus, w)).

Definition cb_recvTimingSnoopResp (cur : Z) (pkt : Packet) (slave_port_id : Z) (s : St)
    : result (bool * Packet * St) :=
  let '(bus, w) := s in
  let b := cb_params bus in
  port_in slave_port_id (po_numSlave (cb_ports bus)) ;;
  r ← bl_try b cur slave_port_id (i32 (pkt_threadID pkt)) (cb_snoopRespLayer bus);
  let bus := with_cb_snoopRespLayer r.2 bus in
  if negb r.1 then Ok (false, pkt, (bus, w)) else
  dest ← getDest pkt;
  cassert (negb (isExpressSnoop pkt)) ;;
  (* the parameters of the request layer *)
  t ← bl_timing b cur (cb_req_par bus) pkt;
  let pkt := t.2 in
  let packetFinishTime := pkt_finishTime pkt in
  r ← (if bool_decide (pkt_req pkt ∉ cb_outstandingReq bus) then
         port_in dest (po_numMaster (cb_ports bus)) ;;
         Ok (e_sendTimingSnoopResp E dest pkt w, bus)
       else
         cassert (negb (slave_port_id =? dest)) ;;
         port_in dest (po_numSlave (cb_ports bus)) ;;
         Ok (e_sendTimingResp E dest pkt w,
             with_cb_outstandingReq (cb_outstandingReq bus ∖ {[pkt_req pkt]}) bus));
  let '(success, pkt, w) := r.1 in
  let bus := r.2 in
  cassert success ;;
  l ← bl_succeeded cur packetFinishTime (i32 (pkt_threadID pkt)) (cb_snoopRespLayer bus);
  Ok (true, pkt, (with_cb_snoopRespLayer l bus, w)).

(** ** Atomic and functional accesses *)

(** [cb_forwardAtomic]: all snoopers see the packet with its own command; the
    response of the one that answers is kept. *)
Definition cb_forwardAtomic_step (orig_cmd : Command) (s : (Command * Z) * (Packet * W))
    (p : Z) : result ((Command * Z) * (Packet * W)) :=
  let '((cmd, lat), (pkt, w)) := s in
  let '(latency, pkt, w) := e_sendAtomicSnoop E p pkt w in
  if isResponse pkt then
    cassert (negb (Command_eqb (pkt_cmd pkt) orig_cmd)) ;;
    cassert (memInhibitAsserted pkt) ;;
    cassert (Command_eqb cmd InvalidCmd) ;;
    Ok ((pkt_cmd pkt, latency), (with_pkt_cmd orig_cmd pkt, w))
  else Ok ((cmd, lat), (pkt, w)).

Definition cb_forwardAtomic (bus : CBus L) (pkt : Packet) (exclude : Z) (w : W)
    : result ((Command * Z) * (Packet * W)) :=
  foldM (cb_forwardAtomic_step (pkt_cmd pkt)) ((InvalidCmd, 0), (pkt, w))
    (snoopers bus exclude).

Definition cb_recvAtomic (cur : Z) (pkt : Packet) (slave_port_id : Z) (s : St)
    : result (Z * Packet * St) :=
  let '(bus, w) := s in
  req ← req_deref (e_reqs E w) (pkt_req pkt);
  r ← (if isUncacheable req then Ok ((InvalidCmd, 0), (pkt, w))
       else cb_forwardAtomic bus pkt slave_port_id w);
  let '((snoop_response_cmd, snoop_response_latency), (pkt, w)) := r in
  addr ← getAddr pkt;
  d ← findPort addr (cb_ports bus);
  let bus := with_cb_ports d.2 bus in
  port_in d.1 (po_numMaster (cb_ports bus)) ;;
  let '(response_latency, pkt, w) := e_sendAtomic E d.1 pkt w in
  r ← (if negb (Command_eqb snoop_response_cmd InvalidCmd) then
         cassert (negb (isResponse pkt)) ;;
         Ok (snoop_response_latency, with_pkt_cmd snoop_response_cmd pkt)
       else Ok (response_latency, pkt));
  Ok (r.1, with_pkt_finishTime (u64 (cur + r.1)) r.2, (bus, w)).

Definition cb_recvAtomicSnoop (cur : Z) (pkt : Packet) (s : St) : result (Z * Packet * St) :=
  let '(bus, w) := s in
  r ← cb_forwardAtomic bus pkt InvalidPortID w;
  let '((snoop_response_cmd, snoop_response_latency), (pkt, w)) := r in
  let pkt := if negb (Command_eqb snoop_response_cmd InvalidCmd)
             then with_pkt_cmd snoop_response_cmd pkt else pkt in
  Ok (snoop_response_latency,
      with_pkt_finishTime (u64 (cur + snoop_response_latency)) pkt, (bus, w)).

(** [cb_forwardFunctional] stops at the first response. *)
Fixpoint cb_forwardFunctional_loop (ports : list Z) (exclude : Z) (pkt : Packet) (w : W)
    : Packet * W :=
  match ports with
  | [] => (pkt, w)
  | p :: ports' =>
      let '(pkt, w) :=
        if bool_decide (exclude = InvalidPortID \/ p <> exclude)
        then e_sendFunctionalSnoop E p pkt w else (pkt, w) in
      if isResponse pkt then (pkt, w) else cb_forwardFunctional_loop ports' exclude pkt w
  end.

Definition cb_forwardFunctional (bus : CBus L) (pkt : Packet) (exclude : Z) (w : W)
    : Packet * W :=
  cb_forwardFunctional_loop (cb_snoopPorts bus) exclude pkt w.

Definition cb_recvFunctional (pkt : Packet) (slave_port_id : Z) (s : St)
    : result (Packet * St) :=
  let '(bus, w) := s in
  req ← req_deref (e_reqs E w) (pkt_req pkt);
  let '(pkt, w) := if isUncacheable req then (pkt, w)
                   else cb_forwardFunctional bus pkt slave_port_id w in
  if isResponse pkt then Ok (pkt, (bus, w)) else
  addr ← getAddr pkt;
  d ← findPort addr (cb_ports bus);
  let bus := with_cb_ports d.2 bus in
  port_in d.1 (po_numMaster (cb_ports bus)) ;;
  let '(pkt, w) := e_sendFunctional E d.1 pkt w in
  Ok (pkt, (bus, w)).

Definition cb_recvFunctionalSnoop (pkt : Packet) (s : St) : Packet * St :=
  let '(bus, w) := s in
  let '(pkt, w) := cb_forwardFunctional bus pkt InvalidPortID w in
  (pkt, (bus, w)).

(** ** Retries, releases and draining *)

(** The three layers as parts of the state. *)
Definition req_lens : Lens St L :=
  mkLens (fun s => cb_reqLayer s.1) (fun l s => (with_cb_reqLayer l s.1, s.2)).
Definition resp_lens : Lens St L :=
  mkLens (fun s => cb_respLayer s.1) (fun l s => (with_cb_respLayer l s.1, s.2)).
Definition snoopResp_lens : Lens St L :=
  mkLens (fun s => cb_snoopRespLayer s.1) (fun l s => (with_cb_snoopRespLayer l s.1, s.2)).

(** The sends of a reaction, through the function of the port that was offered
    the retry. *)
Fixpoint run_reaction (send : Packet -> St -> result (bool * Packet * St)) (r : Reaction)
    (s : St) : result St :=
  match r with
  | RDone => Ok s
  | RSend pkt k => x ← send pkt s; run_reaction send (k x.1.1) x.2
  end.

(** How the ports behind each layer react to a retry, given the thread the retry
    names. *)
Context (reactReq reactResp reactSnoopResp : Z -> Z -> W -> Reaction * W).
Context (process : Z -> St -> result St).

Definition retry_req (cur port t : Z) (s : St) : result St :=
  let '(r, w) := reactReq port t s.2 in
  run_reaction (fun pkt s => cb_recvTimingReq cur pkt port s) r (s.1, w).
Definition retry_resp (cur port t : Z) (s : St) : result St :=
  let '(r, w) := reactResp port t s.2 in
  run_reaction (fun pkt s => cb_recvTimingResp cur pkt port s) r (s.1, w).
Definition retry_snoopResp (cur port t : Z) (s : St) : result St :=
  let '(r, w) := reactSnoopResp port t s.2 in
  run_reaction (fun pkt s => cb_recvTimingSnoopResp cur pkt port s) r (s.1, w).

Definition cb_recvRetry (cur : Z) (s : St) : result St :=
  bl_recvRetry req_lens (retry_req cur) (cb_params s.1) cur s.

(** The release events of the three layers. *)
Definition release_req (cur : Z) (s : St) : result St :=
  bl_release req_lens (retry_req cur) process (cb_params s.1) cur s.
Definition release_resp (cur : Z) (s : St) : result St :=
  bl_release resp_lens (retry_resp cur) process (cb_params s.1) cur s.
Definition release_snoopResp (cur : Z) (s : St) : result St :=
  bl_release snoopResp_lens (retry_snoopResp cur) process (cb_params s.1) cur s.

Definition cb_drain (de : Z) (bus : CBus L) : result (Z * CBus L) :=
  r1 ← bl_drain de (cb_reqLayer bus);
  r2 ← bl_drain de (cb_respLayer bus);
  r3 ← bl_drain de (cb_snoopRespLayer bus);
  Ok (r1.1 + r2.1 + r3.1,
      with_cb_snoopRespLayer r3.2 (with_cb_respLayer r2.2 (with_cb_reqLayer r1.2 bus))).

End Bus.

(** * The plain coherent bus *)

Definition CoherentBus_recvTimingReq {W} (E : BusEnv W) := cb_recvTimingReq (L := Layer1) E.
Definition CoherentBus_recvTimingResp {W} (E : BusEnv W) := cb_recvTimingResp (L := Layer1) E.
Definition CoherentBus_recvTimingSnoopReq {W} (E : BusEnv W) :=
  cb_recvTimingSnoopReq (L := Layer1) E.
Definition CoherentBus_recvTimingSnoopResp {W} (E : BusEnv W) :=
  cb_recvTimingSnoopResp (L := Layer1) E.
Definition CoherentBus_forwardTiming {W} (E : BusEnv W) := cb_forwardTiming (L := Layer1) E.
Definition CoherentBus_recvRetry {W} (E : BusEnv W) := cb_recvRetry (L := Layer1) E.
Definition CoherentBus_recvAtomic {W} (E : BusEnv W) := cb_recvAtomic (L := Layer1) E.
Definition CoherentBus_recvAtomicSnoop {W} (E : BusEnv W) := cb_recvAtomicSnoop (L := Layer1) E.
Definition CoherentBus_forwardAtomic {W} (E : BusEnv W) := cb_forwardAtomic (L := Layer1) E.
Definition CoherentBus_recvFunctional {W} (E : BusEnv W) := cb_recvFunctional (L := Layer1) E.
Definition CoherentBus_recvFunctionalSnoop {W} (E : BusEnv W) :=
  cb_recvFunctionalSnoop (L := Layer1) E.
Definition CoherentBus_forwardFunctional {W} (E : BusEnv W) :=
  cb_forwardFunctional (L := Layer1) E.
Definition CoherentBus_drain := cb_drain (L := Layer1).

(** * The bus without snooping *)

(** [RR_NoncoherentBus] and [NoncoherentBus]: two layers, no snoopers, and no
    record of the requests. *)
Record NBus (L : Type) := mkNBus {
  nb_params : BusParams;
  nb_ports : Ports;
  nb_reqLayer : L;
  nb_respLayer : L;
  nb_req_par : TurnPar;
  nb_resp_par : TurnPar
}.
Arguments mkNBus {L}.
Arguments nb_params {L}.
Arguments nb_ports {L}.
Arguments nb_reqLayer {L}.
Arguments nb_respLayer {L}.
Arguments nb_req_par {L}.
Arguments nb_resp_par {L}.

Definition RR_NoncoherentBus_new (b : BusParams) (ports : Ports)
    (req_tl req_offset resp_tl resp_offset : Z) : result (NBus Layer) :=
  RRBus_check b ;;
  Ok (mkNBus b (clearPortCache ports)
       (Layer_new b (bus_clock b) req_tl req_offset)
       (Layer_new b (bus_clock b) resp_tl resp_offset)
       (req_tl, req_offset) (resp_tl, resp_offset)).

Definition NoncoherentBus_new (b : BusParams) (ports : Ports) : result (NBus Layer1) :=
  RRBus_check b ;;
  Ok (mkNBus b (clearPortCache ports) (Layer1_new (bus_clock b)) (Layer1_new (bus_clock b))
       (0, 0) (0, 0)).

Section NBus.

Context {L : Type} {BL : BusLayer L} {W : Type} (E : BusEnv W).

Abbreviation NSt := (NBus L * W)%type.

Definition with_nb_ports (v : Ports) (r : NBus L) : NBus L :=
  mkNBus (nb_params r) v (nb_reqLayer r) (nb_respLayer r) (nb_req_par r) (nb_resp_par r).
Definition with_nb_reqLayer (v : L) (r : NBus L) : NBus L :=
  mkNBus (nb_params r) (nb_ports r) v (nb_respLayer r) (nb_req_par r) (nb_resp_par r).
Definition with_nb_respLayer (v : L) (r : NBus L) : NBus L :=
  mkNBus (nb_params r) (nb_ports r) (nb_reqLayer r) v (nb_req_par r) (nb_resp_par r).

Definition nb_recvTimingReq (cur : Z) (pkt : Packet) (slave_port_id : Z) (s : NSt)
    : result (bool * Packet * NSt) :=
  let '(bus, w) := s in
  let b := nb_params bus in
  port_in slave_port_id (po_numSlave (nb_ports bus)) ;;
  cassert (negb (isExpressSnoop pkt)) ;;
  r ← bl_try b cur slave_port_id (i32 (pkt_threadID pkt)) (nb_reqLayer bus);
  let bus := with_nb_reqLayer r.2 bus in
  if negb r.1 then Ok (false, pkt, (bus, w)) else
  let pkt := setSrc slave_port_id pkt in
  t ← bl_timing b cur (nb_req_par bus) pkt;
  let headerFinishTime := t.1 in
  let pkt := t.2 in
  let packetFinishTime := pkt_finishTime pkt in
  addr ← getAddr pkt;
  d ← findPort addr (nb_ports bus);
  let bus := with_nb_ports d.2 bus in
  port_in d.1 (po_numMaster (nb_ports bus)) ;;
  let '(success, pkt, w) := e_sendTimingReq E d.1 pkt w in
  if negb success then
    cassert (negb (memInhibitAsserted pkt)) ;;
    l ← bl_failed cur slave_port_id headerFinishTime (i32 (pkt_threadID pkt))
          (nb_reqLayer bus);
    Ok (false, pkt, (with_nb_reqLayer l bus, w))
  else
    l ← bl_succeeded cur packetFinishTime (i32 (pkt_threadID pkt)) (nb_reqLayer bus);
    Ok (true, pkt, (with_nb_reqLayer l bus, w)).

Definition nb_recvTimingResp (cur : Z) (pkt : Packet) (master_port_id : Z) (s : NSt)
    : result (bool * Packet * NSt) :=
  let '(bus, w) := s in
  let b := nb_params bus in
  port_in master_port_id (po_numMaster (nb_ports bus)) ;;
  r ← bl_try b cur master_port_id (i32 (pkt_threadID pkt)) (nb_respLayer bus);
  let bus := with_nb_respLayer r.2 bus in
  if negb r.1 then Ok (false, pkt, (bus, w)) else
  t ← bl_timing b cur (nb_resp_par bus) pkt;
  let pkt := t.2 in
  let packetFinishTime := pkt_finishTime pkt in
  dest ← getDest pkt;
  port_in dest (po_numSlave (nb_ports bus)) ;;
  let '(success, pkt, w) := e_sendTimingResp E dest pkt w in
  cassert success ;;
  l ← bl_succeeded cur packetFinishTime (i32 (pkt_threadID pkt)) (nb_respLayer bus);
  Ok (true, pkt, (with_nb_respLayer l bus, w)).

Definition nb_recvAtomic (cur : Z) (pkt : Packet) (s : NSt) : result (Z * Packet * NSt) :=
  let '(bus, w) := s in
  addr ← getAddr pkt;
  d ← findPort addr (nb_ports bus);
  let bus := with_nb_ports d.2 bus in
  port_in d.1 (po_numMaster (nb_ports bus)) ;;
  let '(response_latency, pkt, w) := e_sendAtomic E d.1 pkt w in
  Ok (response_latency, with_pkt_finishTime (u64 (cur + response_latency)) pkt, (bus, w)).

Definition nb_recvFunctional (pkt : Packet) (s : NSt) : result (Packet * NSt) :=
  let '(bus, w) := s in
  addr ← getAddr pkt;
  d ← findPort addr (nb_ports bus);
  let bus := with_nb_ports d.2 bus in
  port_in d.1 (po_numMaster (nb_ports bus)) ;;
  let '(pkt, w) := e_sendFunctional E d.1 pkt w in
  Ok (pkt, (bus, w)).

Definition nb_req_lens : Lens NSt L :=
  mkLens (fun s => nb_reqLayer s.1) (fun l s => (with_nb_reqLayer l s.1, s.2)).
Definition nb_resp_lens : Lens NSt L :=
  mkLens (fun s => nb_respLayer s.1) (fun l s => (with_nb_respLayer l s.1, s.2)).

Fixpoint nb_run_reaction (send : Packet -> NSt -> result (bool * Packet * NSt))
    (r : Reaction) (s : NSt) : result NSt :=
  match r with
  | RDone => Ok s
  | RSend pkt k => x ← send pkt s; nb_run_reaction send (k x.1.1) x.2
  end.

Context (reactReq reactResp : Z -> Z -> W -> Reaction * W).
Context (process : Z -> NSt -> result NSt).

Definition nb_retry_req (cur port t : Z) (s : NSt) : result NSt :=
  let '(r, w) := reactReq port t s.2 in
  nb_run_reaction (fun pkt s => nb_recvTimingReq cur pkt port s) r (s.1, w).
Definition nb_retry_resp (cur port t : Z) (s : NSt) : result NSt :=
  let '(r, w) := reactResp port t s.2 in
  nb_run_reaction (fun pkt s => nb_recvTimingResp cur pkt port s) r (s.1, w).

Definition nb_recvRetry (cur : Z) (s : NSt) : result NSt :=
  bl_recvRetry nb_req_lens (nb_retry_req cur) (nb_params s.1) cur s.
Definition nb_release_req (cur : Z) (s : NSt) : result NSt :=
  bl_release nb_req_lens (nb_retry_req cur) process (nb_params s.1) cur s.
Definition nb_release_resp (cur : Z) (s : NSt) : result NSt :=
  bl_release nb_resp_lens (nb_retry_resp cur) process (nb_params s.1) cur s.

Definition nb_drain (de : Z) (bus : NBus L) : result (Z * NBus L) :=
  r1 ← bl_drain de (nb_reqLayer bus);
  r2 ← bl_drain de (nb_respLayer bus);
  Ok (r1.1 + r2.1, with_nb_respLayer r2.2 (with_nb_reqLayer r1.2 bus)).

End NBus.

Definition NoncoherentBus_recvTimingReq {W} (E : BusEnv W) := nb_recvTimingReq (L := Layer1) E.
Definition NoncoherentBus_recvTimingResp {W} (E : BusEnv W) :=
  nb_recvTimingResp (L := Layer1) E.
Definition NoncoherentBus_recvRetry {W} (E : BusEnv W) := nb_recvRetry (L := Layer1) E.
Definition NoncoherentBus_recvAtomic {W} (E : BusEnv W) := nb_recvAtomic (L := Layer1) E.
Definition NoncoherentBus_recvFunctional {W} (E : BusEnv W) := nb_recvFunctional (L := Layer1) E.
Definition NoncoherentBus_drain := nb_drain (L := Layer1).
