(* ===== verification/CoherentBusSpec.v ===== *)
(** What the coherent buses do with their layers and with the requests that pass:
    every packet is one send of a layer, so the theorems on layers are theorems
    on buses; every answered request was taken before and is answered once. *)

From S2P Require Import Prelude Request MemCmd Packet PacketQueue ClockedObject RRBus LayerSpec LayerTrace PortMap CoherentBus.

(** * Neighbours that leave a packet's identity alone *)

Record keeps {W} (E : BusEnv W) : Prop := {
  ke_req : forall p pkt w, let r := e_sendTimingReq E p pkt w in
    pkt_threadID r.1.2 = pkt_threadID pkt /\ pkt_req r.1.2 = pkt_req pkt;
  ke_resp : forall p pkt w, let r := e_sendTimingResp E p pkt w in
    pkt_threadID r.1.2 = pkt_threadID pkt /\ pkt_req r.1.2 = pkt_req pkt;
  ke_snoopResp : forall p pkt w, let r := e_sendTimingSnoopResp E p pkt w in
    pkt_threadID r.1.2 = pkt_threadID pkt /\ pkt_req r.1.2 = pkt_req pkt;
  ke_snoopReq : forall p pkt w, let r := e_sendTimingSnoopReq E p pkt w in
    pkt_threadID r.1 = pkt_threadID pkt /\ pkt_req r.1 = pkt_req pkt /\
    pkt_cmd r.1 = pkt_cmd pkt
}.

Arguments cb_forwardTiming : simpl never.
Arguments needsResponse : simpl never.
Arguments isUncacheable : simpl never.

Lemma forwardTiming_keeps {L W} (E : BusEnv W) (bus : CBus L) pkt ex w : keeps E ->
  let r := cb_forwardTiming E bus pkt ex w in
  pkt_threadID r.1 = pkt_threadID pkt /\ pkt_req r.1 = pkt_req pkt /\
  pkt_cmd r.1 = pkt_cmd pkt.
Proof.
  intros HE. unfold cb_forwardTiming. generalize (snoopers bus ex).
  intros l. revert pkt w. induction l as [|p l IH]; intros pkt w; [done|]. cbn.
  destruct (e_sendTimingSnoopReq E p pkt w) as [pkt1 w1] eqn:Ep.
  pose proof (ke_snoopReq E HE p pkt w) as Hk. rewrite Ep in Hk. cbn in Hk.
  destruct Hk as (H1 & H2 & H3). specialize (IH pkt1 w1). cbn in IH.
  rewrite H1, H2, H3 in IH. done.
Qed.

Lemma calcPacketTiming_Ok b cur pkt t tl off r :
  calcPacketTiming b cur pkt t tl off = Ok r ->
  exists k, data_cycles b pkt = Ok k /\
    r.1 = calcFinishTime b cur t (bus_headerCycles b) tl off /\
    pkt_finishTime r.2 = calcFinishTime b cur t (bus_headerCycles b + k) tl off /\
    pkt_threadID r.2 = pkt_threadID pkt /\ pkt_req r.2 = pkt_req pkt /\
    pkt_cmd r.2 = pkt_cmd pkt /\ pkt_dest r.2 = pkt_dest pkt /\ pkt_flags r.2 = pkt_flags pkt.
Proof.
  unfold calcPacketTiming. intros H. apply bind_Ok in H as (k & Hk & [= <-]).
  exists k. by split_and!.
Qed.

Lemma data_cycles_nonneg b pkt k : 0 < bus_width b -> data_cycles b pkt = Ok k ->
  0 <= pkt_size pkt < 2 ^ 31 -> 0 <= k.
Proof.
  intros Hw H Hs. unfold data_cycles in H. destruct (hasData pkt); [|by injection H as <-].
  apply bind_Ok in H as (z & Hz & [= <-]). unfold getSize in Hz.
  apply bind_Ok in Hz as (? & _ & [= <-]). rewrite i32_small by lia.
  pose proof (Z.quot_pos (pkt_size pkt) (bus_width b) ltac:(lia) ltac:(lia)).
  destruct (_ =? _); lia.
Qed.

(** * A packet on the bus is a send of a layer *)

(** The send that a packet amounts to: refused packets occupy the layer for the
    header only. *)
Definition attempt_of (port : Z) (b : BusParams) (k : Z) (taken : bool) (pkt : Packet)
    : Attempt :=
  mkAttempt port (i32 (pkt_threadID pkt))
    (if taken then bus_headerCycles b + k else bus_headerCycles b) taken.

(** The turns a call computes with are the turns of the layer. *)
Definition par_of (L : Layer) : TurnPar := (ly_tl L, ly_offset L).

Lemma tryTiming_par b cur port t L ok L' :
  tryTiming b cur port t L = Ok (ok, L') -> par_of L' = par_of L.
Proof.
  assert (Hp : forall u q K K', push_back u q K = Ok K' -> par_of K' = par_of K).
  { intros u q K K' H. unfold push_back in H.
    apply bind_Ok in H as (? & _ & H). by apply bind_Ok in H as (? & _ & [= <-]). }
  unfold tryTiming. intros H. destruct (negb _).
  - apply bind_Ok in H as (K & HK & H). apply bind_Ok in H as (e & _ & H).
    destruct (scheduled e); [injection H as _ <-; by eapply Hp|].
    apply bind_Ok in H as (e' & _ & H). apply bind_Ok in H as (v & _ & [= _ <-]).
    unfold par_of. cbn. by apply Hp in HK.
  - apply bind_Ok in H as (st & _ & H). apply bind_Ok in H as (o & _ & H).
    destruct (bool_decide _ || o).
    + apply bind_Ok in H as (K & HK & [= _ <-]). by eapply Hp.
    + destruct st; try by injection H as _ <-.
      apply bind_Ok in H as (K & HK & [= _ <-]). unfold set_state in HK.
      by apply bind_Ok in HK as (v & _ & [= <-]).
Qed.

Section LayerSends.

Context {W : Type} (E : BusEnv W) (HE : keeps E).

Lemma recvTimingReq_send cur pkt port bus w ok pkt' bus' w' :
  isExpressSnoop pkt = false -> cb_req_par bus = par_of (cb_reqLayer bus) ->
  cb_recvTimingReq E cur pkt port (bus, w) = Ok (ok, pkt', (bus', w')) ->
  exists k, layer_send (cb_params bus) cur (attempt_of port (cb_params bus) k ok pkt)
    (cb_reqLayer bus) = Ok (ok, cb_reqLayer bus') /\
  (ok = true -> data_cycles (cb_params bus) pkt = Ok k) /\
  cb_respLayer bus' = cb_respLayer bus /\ cb_snoopRespLayer bus' = cb_snoopRespLayer bus.
Proof.
  intros Hx Hpar H. unfold cb_recvTimingReq in H. rewrite Hx in H.
  apply bind_Ok in H as (_ & _ & H). cbn in H.
  apply bind_Ok in H as (r & Hr & H). apply bind_Ok in Hr as ([try L1] & Htry & Hr).
  injection Hr as <-. cbn in H. unfold layer_send, attempt_of. cbn.
  destruct try; cbn in H.
  2: { injection H as <- <- <- <-. exists 0. rewrite Htry. cbn. by split_and!. }
  pose proof (tryTiming_par _ _ _ _ _ _ _ Htry) as Hp1.
  apply bind_Ok in H as (t & Ht & H). apply calcPacketTiming_Ok in Ht
    as (k & Hk & Hh & Hf & Htid & Hreq & _). cbn in Htid.
  apply bind_Ok in H as (req & _ & H).
  destruct (if isUncacheable req then _ else _) as [pkt1 w1] eqn:Efw.
  assert (Htid1 : pkt_threadID pkt1 = pkt_threadID pkt).
  { rewrite <- Htid. destruct (isUncacheable req); [by injection Efw as <- <-|].
    pose proof (forwardTiming_keeps E (with_cb_reqLayer L1 bus) t.2 port w HE) as Hk1.
    rewrite Efw in Hk1. by destruct Hk1. }
  apply bind_Ok in H as (bus2 & Hbus2 & H).
  assert (Hb2 : cb_reqLayer bus2 = L1 /\ cb_respLayer bus2 = cb_respLayer bus /\
    cb_snoopRespLayer bus2 = cb_snoopRespLayer bus).
  { destruct (needsResponse pkt1); cbn in Hbus2.
    - by apply bind_Ok in Hbus2 as (_ & _ & [= <-]).
    - by injection Hbus2 as <-. }
  destruct Hb2 as (Hb2a & Hb2b & Hb2c).
  apply bind_Ok in H as (addr & _ & H). apply bind_Ok in H as (d & _ & H).
  apply bind_Ok in H as (_ & _ & H).
  destruct (e_sendTimingReq E d.1 pkt1 w1) as [[success pkt2] w2] eqn:Es.
  pose proof (ke_req E HE d.1 pkt1 w1) as Hk2. rewrite Es in Hk2. cbn in Hk2.
  destruct Hk2 as [Htid2 _]. rewrite Htid1 in Htid2.
  rewrite Hpar in *. exists k. rewrite Htry. cbn. unfold par_of in Hp1. injection Hp1 as -> ->.
  destruct success; cbn in H.
  - apply bind_Ok in H as (l & Hl & [= <- <- <- <-]). cbn in *.
    rewrite Hb2a, Htid2 in Hl. rewrite Hf in Hl. cbn in Hl. rewrite Hl. by split_and!.
  - apply bind_Ok in H as (_ & _ & H).
    apply bind_Ok in H as (l & Hl & [= <- <- <- <-]).
    destruct (needsResponse pkt1); cbn in *; rewrite Hb2a, Htid2, Hh in Hl; cbn in Hl;
      rewrite Hl; by split_and!.
Qed.

Lemma recvTimingResp_send cur pkt port bus w ok pkt' bus' w' :
  cb_resp_par bus = par_of (cb_respLayer bus) ->
  cb_recvTimingResp E cur pkt port (bus, w) = Ok (ok, pkt', (bus', w')) ->
  exists k, layer_send (cb_params bus) cur (attempt_of port (cb_params bus) k ok pkt)
    (cb_respLayer bus) = Ok (ok, cb_respLayer bus') /\
  (ok = true -> data_cycles (cb_params bus) pkt = Ok k) /\
  cb_reqLayer bus' = cb_reqLayer bus /\ cb_snoopRespLayer bus' = cb_snoopRespLayer bus.
Proof.
  intros Hpar H. unfold cb_recvTimingResp in H.
  apply bind_Ok in H as (_ & _ & H). cbn in H.
  apply bind_Ok in H as ([try L1] & Htry & H). cbn in H.
  unfold layer_send, attempt_of. cbn. destruct try; cbn in H.
  2: { injection H as <- <- <- <-. exists 0. rewrite Htry. cbn. by split_and!. }
  pose proof (tryTiming_par _ _ _ _ _ _ _ Htry) as Hp1.
  apply bind_Ok in H as (t & Ht & H). apply calcPacketTiming_Ok in Ht
    as (k & Hk & _ & Hf & Htid & _).
  apply bind_Ok in H as (_ & _ & H). apply bind_Ok in H as (dest & _ & H).
  apply bind_Ok in H as (_ & _ & H).
  destruct (e_sendTimingResp E dest t.2 w) as [[success pkt2] w2] eqn:Es.
  pose proof (ke_resp E HE dest t.2 w) as Hk2. rewrite Es in Hk2. cbn in Hk2.
  destruct Hk2 as [Htid2 _]. rewrite Htid in Htid2.
  apply bind_Ok in H as (_ & _ & H). apply bind_Ok in H as (l & Hl & [= <- <- <- <-]).
  rewrite Hpar in *. exists k. rewrite Htry. cbn. unfold par_of in Hp1. injection Hp1 as -> ->.
  rewrite Htid2, Hf in Hl. cbn in Hl. rewrite Hl. by split_and!.
Qed.

Lemma recvTimingSnoopResp_send cur pkt port bus w ok pkt' bus' w' :
  cb_req_par bus = par_of (cb_snoopRespLayer bus) ->
  cb_recvTimingSnoopResp E cur pkt port (bus, w) = Ok (ok, pkt', (bus', w')) ->
  exists k, layer_send (cb_params bus) cur (attempt_of port (cb_params bus) k ok pkt)
    (cb_snoopRespLayer bus) = Ok (ok, cb_snoopRespLayer bus') /\
  (ok = true -> data_cycles (cb_params bus) pkt = Ok k) /\
  cb_reqLayer bus' = cb_reqLayer bus /\ cb_respLayer bus' = cb_respLayer bus.
Proof.
  intros Hpar H. unfold cb_recvTimingSnoopResp in H.
  apply bind_Ok in H as (_ & _ & H). cbn in H.
  apply bind_Ok in H as ([try L1] & Htry & H). cbn in H.
  unfold layer_send, attempt_of. cbn. destruct try; cbn in H.
  2: { injection H as <- <- <- <-. exists 0. rewrite Htry. cbn. by split_and!. }
  pose proof (tryTiming_par _ _ _ _ _ _ _ Htry) as Hp1.
  apply bind_Ok in H as (dest & _ & H). apply bind_Ok in H as (_ & _ & H).
  apply bind_Ok in H as (t & Ht & H). apply calcPacketTiming_Ok in Ht
    as (k & Hk & _ & Hf & Htid & _).
  apply bind_Ok in H as ([sent bus2] & Hsent & H). cbn in H.
  assert (Hs : pkt_threadID sent.1.2 = pkt_threadID pkt /\
    cb_snoopRespLayer bus2 = L1 /\ cb_reqLayer bus2 = cb_reqLayer bus /\
    cb_respLayer bus2 = cb_respLayer bus).
  { rewrite <- Htid. destruct (bool_decide _).
    - apply bind_Ok in Hsent as (_ & _ & [= <- <-]). split; [|done].
      apply (ke_snoopResp E HE).
    - apply bind_Ok in Hsent as (_ & _ & Hsent).
      apply bind_Ok in Hsent as (_ & _ & [= <- <-]). split; [|done]. apply (ke_resp E HE). }
  destruct sent as [[success pkt2] w2]. cbn in Hs. destruct Hs as (Htid2 & Hl2 & Hq & Hp).
  apply bind_Ok in H as (_ & _ & H). apply bind_Ok in H as (l & Hl & [= <- <- <- <-]).
  rewrite Hpar in *. exists k. rewrite Htry. cbn. unfold par_of in Hp1. injection Hp1 as -> ->.
  rewrite Htid2, Hf, Hl2 in Hl. cbn in Hl. rewrite Hl. by split_and!.
Qed.

(** A packet that overtakes: no layer sees it. *)
Lemma express_leaves_layers cur pkt port (bus : CBus Layer) w ok pkt' bus' w' :
  isExpressSnoop pkt = true -> cb_recvTimingReq E cur pkt port (bus, w) = Ok (ok, pkt', (bus', w')) ->
  cb_reqLayer bus' = cb_reqLayer bus /\ cb_respLayer bus' = cb_respLayer bus /\
  cb_snoopRespLayer bus' = cb_snoopRespLayer bus.
Proof.
  intros Hx H. unfold cb_recvTimingReq in H. rewrite Hx in H.
  apply bind_Ok in H as (_ & _ & H). cbn in H. apply bind_Ok in H as (req & _ & H).
  destruct (if isUncacheable req then _ else _) as [pkt1 w1].
  apply bind_Ok in H as (addr & _ & H). apply bind_Ok in H as (d & _ & H). apply bind_Ok in H as (_ & _ & H).
  destruct (e_sendTimingReq E d.1 pkt1 w1) as [[success pkt2] w2].
  by apply bind_Ok in H as (_ & _ & [= _ _ <- _]).
Qed.

Lemma snoopReq_bus pkt port (bus : CBus Layer) w pkt' bus' w' :
  cb_recvTimingSnoopReq E pkt port (bus, w) = Ok (pkt', (bus', w')) -> exists ports, bus' = with_cb_ports ports bus.
Proof.
  intros H. unfold cb_recvTimingSnoopReq in H. apply bind_Ok in H as (_ & _ & H).
  destruct (cb_forwardTiming _ _ _ _ _) as [q w1]. apply bind_Ok in H as (addr & _ & H).
  apply bind_Ok in H as (d & _ & H). apply bind_Ok in H as (_ & _ & [= _ <- _]). by eexists.
Qed.

End LayerSends.

(** C25. What a packet does to the layers of a round-robin coherent bus.  A request
    that is not an express snoop, a response, and (where the turns of requests and
    responses are the same) a snoop response is one send of its layer: the layer
    changes exactly as [layer_send] says, with the answer the sender gets.  The send
    lasts the header and the cycles of the payload if the packet is taken, and the
    header alone if it is refused.  The other two layers stay as they are, and an
    express snoop, from either side, leaves all three alone.  This is about the
    packets; what a bus does with a layer when a destination retries
    ([Layer::recvRetry]) is the subject of [recvRetry_off_turn_faults]. *)
Theorem bus_packets_are_sends {W} (E : BusEnv W) cur pkt port bus w ok pkt' bus' w' :
  keeps E -> 0 < bus_headerCycles (cb_params bus) -> 0 < bus_width (cb_params bus) ->
  0 <= pkt_size pkt < 2 ^ 31 ->
  cb_req_par bus = par_of (cb_reqLayer bus) -> cb_resp_par bus = par_of (cb_respLayer bus) ->
  let header := bus_headerCycles (cb_params bus) in
  let send_of L L' := exists a,
    layer_send (cb_params bus) cur a L = Ok (ok, L') /\ at_port a = port /\
    at_thread a = i32 (pkt_threadID pkt) /\ at_taken a = ok /\ 1 <= at_cycles a /\
    (if ok then exists k, data_cycles (cb_params bus) pkt = Ok k /\ 0 <= k /\ at_cycles a = header + k
     else at_cycles a = header) in
  (cb_recvTimingReq E cur pkt port (bus, w) = Ok (ok, pkt', (bus', w')) ->
   (if isExpressSnoop pkt then cb_reqLayer bus' = cb_reqLayer bus
    else send_of (cb_reqLayer bus) (cb_reqLayer bus')) /\
   cb_respLayer bus' = cb_respLayer bus /\ cb_snoopRespLayer bus' = cb_snoopRespLayer bus) /\
  (cb_recvTimingResp E cur pkt port (bus, w) = Ok (ok, pkt', (bus', w')) ->
   send_of (cb_respLayer bus) (cb_respLayer bus') /\
   cb_reqLayer bus' = cb_reqLayer bus /\ cb_snoopRespLayer bus' = cb_snoopRespLayer bus) /\
  (cb_req_par bus = par_of (cb_snoopRespLayer bus) ->
   cb_recvTimingSnoopResp E cur pkt port (bus, w) = Ok (ok, pkt', (bus', w')) ->
   send_of (cb_snoopRespLayer bus) (cb_snoopRespLayer bus') /\
   cb_reqLayer bus' = cb_reqLayer bus /\ cb_respLayer bus' = cb_respLayer bus) /\
  (cb_recvTimingSnoopReq E pkt port (bus, w) = Ok (pkt', (bus', w')) ->
   cb_reqLayer bus' = cb_reqLayer bus /\ cb_respLayer bus' = cb_respLayer bus /\
   cb_snoopRespLayer bus' = cb_snoopRespLayer bus).
Proof.
  intros HE Hh Hw Hs Hreq Hresp header send_of.
  assert (Hsend : forall k L L',
    layer_send (cb_params bus) cur (attempt_of port (cb_params bus) k ok pkt) L = Ok (ok, L') ->
    (ok = true -> data_cycles (cb_params bus) pkt = Ok k) -> send_of L L').
  { intros k L L' Hls Hk. eexists. split; [exact Hls|]. cbn. split_and!; [done..| |].
    - destruct ok; [|lia]. pose proof (data_cycles_nonneg _ _ k Hw (Hk eq_refl) Hs). lia.
    - destruct ok; [|done]. exists k. split_and!; [auto | | done].
      by eapply data_cycles_nonneg; [exact Hw | apply Hk |]. }
  split_and!.
  - intros H. destruct (isExpressSnoop pkt) eqn:Hx; [by eapply express_leaves_layers|].
    destruct (recvTimingReq_send E HE _ _ _ _ _ _ _ _ _ Hx Hreq H) as (k & Hls & Hk & Ho). split; [|done]. by apply (Hsend k).
  - intros H. destruct (recvTimingResp_send E HE _ _ _ _ _ _ _ _ _ Hresp H) as (k & Hls & Hk & Ho).
    split; [|done]. by apply (Hsend k).
  - intros Hsn H. destruct (recvTimingSnoopResp_send E HE _ _ _ _ _ _ _ _ _ Hsn H) as (k & Hls & Hk & Ho).
    split; [|done]. by apply (Hsend k).
  - intros H. by apply snoopReq_bus in H as (ports & ->).
Qed.

(** * Requests under way *)

(** What the protocol below needs of a layer: computing the times of a packet
    leaves the rest of it alone. *)
Class LayerLaws (L : Type) {BL : BusLayer L} := {
  ll_timing : forall b cur par pkt r, bl_timing (L := L) b cur par pkt = Ok r ->
    pkt_req r.2 = pkt_req pkt /\ pkt_cmd r.2 = pkt_cmd pkt /\ pkt_dest r.2 = pkt_dest pkt
}.

#[global] Instance RR_laws : LayerLaws Layer.
Proof. split. intros b cur par pkt r H. apply calcPacketTiming_Ok in H. naive_solver. Qed.

#[global] Instance plain_laws : LayerLaws Layer1.
Proof.
  split. intros b cur par pkt r H. unfold bl_timing, plain_layer, calcPacketTiming1 in H.
  by apply bind_Ok in H as (k & _ & [= <-]).
Qed.

(** An observer between the bus and its neighbours writes down the packets that
    are accepted: by the slaves below as requests, by the masters above as
    responses.  The neighbours are as they were otherwise. *)
Inductive Sent :=
  | SentReq (pkt : Packet)
  | SentResp (pkt : Packet).

Definition note {W} (f : Packet -> Sent) (pkt : Packet) (log : list Sent) (r : bool * Packet * W)
    : bool * Packet * (W * list Sent) :=
  (r.1.1, r.1.2, (r.2, if r.1.1 then log ++ [f pkt] else log)).
Definition unseen {W A} (log : list Sent) (r : A * W) : A * (W * list Sent) := (r.1, (r.2, log)).

Definition observed {W} (E : BusEnv W) : BusEnv (W * list Sent) :=
  mkBusEnv _ (fun w => e_reqs E w.1)
    (fun p pkt w => note SentReq pkt w.2 (e_sendTimingReq E p pkt w.1))
    (fun p pkt w => note SentResp pkt w.2 (e_sendTimingResp E p pkt w.1))
    (fun p pkt w => unseen w.2 (e_sendTimingSnoopReq E p pkt w.1))
    (fun p pkt w => unseen w.2 (e_sendTimingSnoopResp E p pkt w.1))
    (fun p pkt w => unseen w.2 (e_sendAtomic E p pkt w.1))
    (fun p pkt w => unseen w.2 (e_sendAtomicSnoop E p pkt w.1))
    (fun p pkt w => unseen w.2 (e_sendFunctional E p pkt w.1))
    (fun p pkt w => unseen w.2 (e_sendFunctionalSnoop E p pkt w.1)).

Lemma observed_keeps {W} (E : BusEnv W) : keeps E -> keeps (observed E).
Proof.
  intros [H1 H2 H3 H4]. split; intros p pkt w; cbn; [apply H1 | apply H2 | apply H3 | apply H4].
Qed.

(** Snoop requests are not written down. *)
Lemma forwardTiming_unseen {L W} (E : BusEnv W) (bus : CBus L) pkt ex w :
  (cb_forwardTiming (observed E) bus pkt ex w).2.2 = w.2.
Proof.
  unfold cb_forwardTiming. generalize (snoopers bus ex). intros l. revert pkt w.
  induction l as [|p l IH]; intros pkt w; [done|]. cbn [foldl].
  exact (IH (e_sendTimingSnoopReq E p pkt w.1).1 ((e_sendTimingSnoopReq E p pkt w.1).2, w.2)).
Qed.

(** The events that matter: a request that expects an answer is taken, a request is
    answered. *)
Inductive BEvent :=
  | Taken (req : Z)
  | Answered (req : Z).

(** What was written down, by what it means; an express snoop expects no answer
    through the bus. *)
Definition events_of (express : bool) (log : list Sent) : list BEvent :=
  log ≫= fun x => match x with
                  | SentReq pkt => if negb express && needsResponse pkt then [Taken (pkt_req pkt)] else []
                  | SentResp pkt => [Answered (pkt_req pkt)]
                  end.

(** The requests under way after some events; [None] if a request is taken while
    it is under way, or answered while it is not. *)
Fixpoint under_way (open : gset Z) (evs : list BEvent) : option (gset Z) :=
  match evs with
  | [] => Some open
  | Taken r :: evs' =>
      if decide (r ∈ open) then None else under_way ({[r]} ∪ open) evs'
  | Answered r :: evs' =>
      if decide (r ∈ open) then under_way (open ∖ {[r]}) evs' else None
  end.

Lemma under_way_app evs evs' : forall open, under_way open (evs ++ evs') =
  (open' ← under_way open evs; under_way open' evs').
Proof.
  induction evs as [|[r|r] evs IH]; intros open; [done|..]; cbn; by case_decide.
Qed.

(** The timing traffic of a bus. *)
Inductive BOp :=
  | BReq (cur : Z) (pkt : Packet) (port : Z)
  | BResp (cur : Z) (pkt : Packet) (port : Z)
  | BSnoopReq (pkt : Packet) (port : Z)
  | BSnoopResp (cur : Z) (pkt : Packet) (port : Z).

Section UnderWay.

Context {L : Type} {BL : BusLayer L} {LL : LayerLaws L} {W : Type} (E : BusEnv W) (HE : keeps E).

Definition watched (s : CBus L * W) : CBus L * (W * list Sent) := (s.1, (s.2, [])).
Definition unwatched (s : CBus L * (W * list Sent)) : CBus L * W := (s.1, s.2.1).

(** One operation of the bus, and what the observer saw meanwhile. *)
Definition bstep (s : (CBus L * W) * list BEvent) (op : BOp)
    : result ((CBus L * W) * list BEvent) :=
  let seen express s' := Ok (unwatched s', s.2 ++ events_of express s'.2.2) in
  match op with
  | BReq cur pkt port =>
      r ← cb_recvTimingReq (observed E) cur pkt port (watched s.1); seen (isExpressSnoop pkt) r.2
  | BResp cur pkt port => r ← cb_recvTimingResp (observed E) cur pkt port (watched s.1); seen false r.2
  | BSnoopReq pkt port => r ← cb_recvTimingSnoopReq (observed E) pkt port (watched s.1); seen false r.2
  | BSnoopResp cur pkt port =>
      r ← cb_recvTimingSnoopResp (observed E) cur pkt port (watched s.1); seen false r.2
  end.

Lemma recvTimingReq_open cur pkt port bus w ok pkt' bus' w' :
  cb_recvTimingReq (observed E) cur pkt port (bus, (w, [])) = Ok (ok, pkt', (bus', w')) ->
  under_way (cb_outstandingReq bus) (events_of (isExpressSnoop pkt) w'.2) = Some (cb_outstandingReq bus').
Proof.
  pose proof (observed_keeps E HE) as HO. intros H. unfold cb_recvTimingReq in H. apply bind_Ok in H as (_ & _ & H).
  apply bind_Ok in H as ([try bus1] & Hr & H).
  assert (Hb1 : cb_outstandingReq bus1 = cb_outstandingReq bus).
  { destruct (isExpressSnoop pkt); [by injection Hr as _ <-|].
    by apply bind_Ok in Hr as (x & _ & [= _ <-]). }
  cbn [fst snd] in H. destruct try; cbn [negb] in H.
  2: { injection H as <- _ <- <-. cbn. by rewrite Hb1. }
  apply bind_Ok in H as (t & Ht & H).
  assert (Htr : pkt_req t.2 = pkt_req pkt /\ pkt_cmd t.2 = pkt_cmd pkt).
  { destruct (isExpressSnoop pkt); [by injection Ht as <-|].
    by apply ll_timing in Ht as (-> & -> & _). }
  apply bind_Ok in H as (req & _ & H).
  destruct (if isUncacheable req then _ else _) as [pkt1 w1] eqn:Efw.
  assert (Hp1 : pkt_req pkt1 = pkt_req pkt /\ needsResponse pkt1 = needsResponse pkt /\ w1.2 = []).
  { unfold needsResponse. destruct Htr as [<- <-].
    destruct (isUncacheable req); [by injection Efw as <- <-|].
    pose proof (forwardTiming_keeps (observed E) bus1 t.2 port (w, []) HO) as Hk1.
    pose proof (forwardTiming_unseen E bus1 t.2 port (w, [])) as Hk2.
    rewrite Efw in Hk1, Hk2. cbn in Hk1. by destruct Hk1 as (_ & -> & ->). }
  destruct Hp1 as (Hreq & Hneed & Hw1). clear Htr Ht Efw Hr.
  apply bind_Ok in H as (bus2 & Hb2 & H).
  apply bind_Ok in H as (addr & _ & H). apply bind_Ok in H as (d & _ & H).
  apply bind_Ok in H as (_ & _ & H).
  destruct (e_sendTimingReq (observed E) d.1 pkt1 w1) as [[success pkt2] w2] eqn:Es.
  assert (Hw2 : w2.2 = if success then [SentReq pkt1] else []).
  { cbn in Es. unfold note in Es. rewrite Hw1 in Es. by injection Es as <- _ <-. }
  assert (Hp2 : pkt_req pkt2 = pkt_req pkt1).
  { pose proof (ke_req _ HO d.1 pkt1 w1) as Hk. rewrite Es in Hk. apply Hk. }
  rewrite Hp2 in H. clear Es Hp2 Hreq Hneed.
  destruct (isExpressSnoop pkt); cbn [negb andb] in *.
  { apply bind_Ok in H as (_ & _ & [= <- _ <- <-]). injection Hb2 as <-.
    rewrite Hw2. destruct success; cbn; by rewrite Hb1. }
  destruct (needsResponse pkt1) eqn:Hneed; cbn [andb] in *.
  - apply bind_Ok in Hb2 as ([] & Hno & [= <-]).
    apply cassert_Ok, bool_decide_eq_true in Hno. rewrite Hb1 in Hno. cbn in H.
    destruct success; cbn [negb] in H.
    + apply bind_Ok in H as (l & _ & [= <- _ <- <-]). rewrite Hw2. cbn. rewrite Hneed. cbn.
      rewrite decide_False by done. by rewrite Hb1.
    + apply bind_Ok in H as (_ & _ & H). apply bind_Ok in H as (l & _ & [= <- _ <- <-]).
      rewrite Hw2. cbn. f_equal. rewrite Hb1. set_solver.
  - injection Hb2 as <-. destruct success; cbn [negb] in H.
    + apply bind_Ok in H as (l & _ & [= <- _ <- <-]). rewrite Hw2. cbn. rewrite Hneed. cbn. by rewrite Hb1.
    + apply bind_Ok in H as (_ & _ & H). apply bind_Ok in H as (l & _ & [= <- _ <- <-]).
      rewrite Hw2. cbn. by rewrite Hb1.
Qed.

Lemma recvTimingResp_open cur pkt port bus w ok pkt' bus' w' :
  cb_recvTimingResp (observed E) cur pkt port (bus, (w, [])) = Ok (ok, pkt', (bus', w')) ->
  under_way (cb_outstandingReq bus) (events_of false w'.2) = Some (cb_outstandingReq bus').
Proof.
  intros H. unfold cb_recvTimingResp in H. apply bind_Ok in H as (_ & _ & H).
  apply bind_Ok in H as ([try L1] & _ & H). cbn [fst snd] in H.
  destruct try; cbn [negb] in H; [|by injection H as <- _ <- <-].
  apply bind_Ok in H as (t & Ht & H).
  apply bind_Ok in H as ([] & Hin & H). apply cassert_Ok, bool_decide_eq_true in Hin.
  apply bind_Ok in H as (dest & _ & H). apply bind_Ok in H as (_ & _ & H).
  destruct (e_sendTimingResp (observed E) dest t.2 (w, [])) as [[success pkt2] w2] eqn:Es.
  assert (Hw2 : w2.2 = if success then [SentResp t.2] else []) by (by injection Es as <- _ <-).
  apply bind_Ok in H as ([] & ->%cassert_Ok & H). apply bind_Ok in H as (l & _ & [= <- _ <- <-]).
  rewrite Hw2. cbn in *. by rewrite decide_True by done.
Qed.

(** A snooper's response to a request under way is delivered to the master; one to
    another bus's request goes down and is none of this bus's answers. *)
Lemma recvTimingSnoopResp_open cur pkt port bus w ok pkt' bus' w' :
  cb_recvTimingSnoopResp (observed E) cur pkt port (bus, (w, [])) = Ok (ok, pkt', (bus', w')) ->
  under_way (cb_outstandingReq bus) (events_of false w'.2) = Some (cb_outstandingReq bus').
Proof.
  intros H. unfold cb_recvTimingSnoopResp in H. apply bind_Ok in H as (_ & _ & H).
  apply bind_Ok in H as ([try L1] & _ & H). cbn [fst snd] in H.
  destruct try; cbn [negb] in H; [|by injection H as <- _ <- <-].
  apply bind_Ok in H as (dest & _ & H). apply bind_Ok in H as (_ & _ & H).
  apply bind_Ok in H as (t & Ht & H).
  apply bind_Ok in H as ([sent bus2] & Hsent & H). cbn [fst snd] in H.
  destruct sent as [[success pkt2] w2].
  apply bind_Ok in H as ([] & ->%cassert_Ok & H). apply bind_Ok in H as (l & _ & [= <- _ <- <-]).
  destruct (decide (pkt_req t.2 ∈ cb_outstandingReq bus)) as [Hin|Hin].
  - rewrite bool_decide_false in Hsent by (cbn; tauto).
    apply bind_Ok in Hsent as (_ & _ & Hsent). apply bind_Ok in Hsent as (_ & _ & Hsent).
    injection Hsent as Hok _ <- <-. cbn. rewrite Hok. cbn. by rewrite decide_True by done.
  - rewrite bool_decide_true in Hsent by done.
    by apply bind_Ok in Hsent as (_ & _ & [= _ <- <-]).
Qed.

Lemma recvTimingSnoopReq_open pkt port (bus : CBus L) w pkt' bus' w' :
  cb_recvTimingSnoopReq (observed E) pkt port (bus, (w, [])) = Ok (pkt', (bus', w')) ->
  under_way (cb_outstandingReq bus) (events_of false w'.2) = Some (cb_outstandingReq bus').
Proof.
  intros H. unfold cb_recvTimingSnoopReq in H. apply bind_Ok in H as (_ & _ & H).
  destruct (cb_forwardTiming _ _ _ _ _) as [q w1] eqn:Ef.
  pose proof (forwardTiming_unseen E bus (setSrc port pkt) InvalidPortID (w, [])) as Hw. rewrite Ef in Hw.
  apply bind_Ok in H as (addr & _ & H). apply bind_Ok in H as (d & _ & H).
  apply bind_Ok in H as (_ & _ & [= _ <- <-]). cbn in *. by rewrite Hw.
Qed.

End UnderWay.

(** C31. Requests and answers on a coherent bus, with either kind of layer, as an
    observer between the bus and its neighbours sees them: a request is taken when
    the slave below accepts the packet and it expects a response through the bus, and
    answered when the bus delivers a response to a master (from below, or from a
    snooper).  Along any traffic that the bus survives, a request is taken only when
    it is not under way, answered only when it is, and [outstandingReq] is exactly
    the set of requests taken and not yet answered; so no request is answered twice,
    and refusing a request leaves no trace. *)
Theorem outstanding_exact {L} {BL : BusLayer L} {LL : LayerLaws L} {W} (E : BusEnv W) ops s s' :
  keeps E -> foldM (bstep E) (s, []) ops = Ok s' ->
  under_way (cb_outstandingReq s.1) s'.2 = Some (cb_outstandingReq s'.1.1).
Proof.
  intros HE Hrun.
  assert (Hinv : under_way (cb_outstandingReq s.1) (s, @nil BEvent).2 =
    Some (cb_outstandingReq (s, @nil BEvent).1.1)) by done.
  revert Hinv Hrun. generalize (s, @nil BEvent) at 1 2 3. intros s1 Hinv Hrun.
  revert s1 Hinv Hrun. induction ops as [|op ops IH]; cbn; intros s1 Hinv Hrun.
  { by injection Hrun as <-. }
  apply bind_Ok in Hrun as (s2 & Hstep & Hrun). apply (IH s2); [|done].
  destruct s1 as [[bus w] evs], op; cbn [bstep fst snd] in *;
    apply bind_Ok in Hstep as (r & Hr & [= <-]); cbn [fst snd].
  - destruct r as [[ok q] [bus' w']]. rewrite under_way_app, Hinv. cbn. by eapply recvTimingReq_open.
  - destruct r as [[ok q] [bus' w']]. rewrite under_way_app, Hinv. cbn. by eapply recvTimingResp_open.
  - destruct r as [q [bus' w']]. rewrite under_way_app, Hinv. cbn. by eapply recvTimingSnoopReq_open.
  - destruct r as [[ok q] [bus' w']]. rewrite under_way_app, Hinv. cbn. by eapply recvTimingSnoopResp_open.
Qed.

(** * Concrete runs *)

(** Neighbours that take everything: the worlds hold the requests. *)
Definition demo_env : BusEnv ReqHeap :=
  mkBusEnv _ (fun w => w) (fun _ pkt w => (true, pkt, w)) (fun _ pkt w => (true, pkt, w))
    (fun _ pkt w => (pkt, w)) (fun _ pkt w => (true, pkt, w)) (fun _ pkt w => (0, pkt, w))
    (fun _ pkt w => (0, pkt, w)) (fun _ pkt w => (pkt, w)) (fun _ pkt w => (pkt, w)).

Lemma demo_keeps : keeps demo_env.
Proof. by split. Qed.

(** A bus with one device at the addresses below 4096 and two masters; turns of
    [req_tl] cycles for requests and [resp_tl] for responses. *)
Definition demo_ports : Ports :=
  with_po_portMap [(mkRange 0 4095, 0)] (Ports_new 1 2 false false 64).
Definition demo_cbus (req_tl resp_tl : Z) : CBus Layer :=
  let b := mkBusParams 2 1 8 1000 in
  mkCBus b demo_ports (Layer_new b 1000 req_tl 0) (Layer_new b 1000 resp_tl 0)
    (Layer_new b 1000 resp_tl 0) (req_tl, 0) (resp_tl, 0) [0; 1] ∅.

Definition demo_req : Request := mkRequest 64 8 0 0 0 0 0 0 0 0 0 0.
Definition demo_heap : ReqHeap := {[ 7 := demo_req ]}.
Definition demo_pkt (c : Command) (dest : Z) : Packet :=
  mkPacket 0x300 c 7 (Some (replicate 8 0)) 64 8 0 dest InvalidCmd 0 0 0 0 0 SS_NULL 0 0 0.

(** It is the bus that the constructor and [init] make, once the device has
    announced its range. *)
Example demo_cbus_new :
  (bus ← RR_CoherentBus_new (mkBusParams 2 1 8 1000) (Ports_new 1 2 false false 64) 1 0 3 0;
   ports ← recvRangeChange (fun _ => [mkRange 0 4095]) (fun _ p => Ok p) 0 (cb_ports bus);
   Ok (cb_init (fun _ => true) (with_cb_ports ports bus))) = Ok (demo_cbus 1 3).
Proof. vm_compute. reflexivity. Qed.

Lemma bus_packets_are_sends_witness : exists ok pkt' bus' w',
  cb_recvTimingReq demo_env 0 (demo_pkt ReadReq (-1)) 1 (demo_cbus 1 3, demo_heap) =
    Ok (ok, pkt', (bus', w')) /\
  exists a, layer_send (mkBusParams 2 1 8 1000) 0 a (cb_reqLayer (demo_cbus 1 3)) =
    Ok (ok, cb_reqLayer bus') /\ at_port a = 1 /\ at_thread a = 0 /\ at_cycles a = 1.
Proof.
  destruct (is_ok_true (cb_recvTimingReq demo_env 0 (demo_pkt ReadReq (-1)) 1
    (demo_cbus 1 3, demo_heap))) as [[[ok pkt'] [bus' w']] H]; [vm_compute; reflexivity|].
  exists ok, pkt', bus', w'. split; [exact H|].
  destruct (bus_packets_are_sends demo_env 0 (demo_pkt ReadReq (-1)) 1 (demo_cbus 1 3)
    demo_heap ok pkt' bus' w' demo_keeps ltac:(cbn; lia) ltac:(cbn; lia) ltac:(cbn; lia)
    eq_refl eq_refl) as [Hreq _].
  destruct (Hreq H) as [(a & Hs & Hp & Ht & _ & _ & Hc) _]. exists a. split; [exact Hs|]. split; [exact Hp|].
  split; [exact Ht|]. destruct ok; [|exact Hc]. destruct Hc as (k & Hk & _ & Hc). vm_compute in Hk. injection Hk as <-. exact Hc.
Defined.

(** A read is taken at tick 0 and answered at tick 6000; an answer that nobody
    waits for ends the simulation. *)
Definition demo_traffic : list BOp :=
  [ BReq 0 (demo_pkt ReadReq (-1)) 1; BResp 6000 (demo_pkt ReadResp 1) 0 ].

Lemma outstanding_exact_witness : exists s',
  foldM (bstep demo_env) ((demo_cbus 1 3, demo_heap), []) demo_traffic = Ok s' /\
  under_way (cb_outstandingReq (demo_cbus 1 3)) s'.2 = Some (cb_outstandingReq s'.1.1).
Proof.
  destruct (is_ok_true (foldM (bstep demo_env) ((demo_cbus 1 3, demo_heap), []) demo_traffic))
    as [s' H]; [vm_compute; reflexivity|].
  exists s'. split; [exact H|].
  apply (outstanding_exact demo_env demo_traffic (demo_cbus 1 3, demo_heap) s' demo_keeps H).
Defined.

Example demo_traffic_events :
  (s ← foldM (bstep demo_env) ((demo_cbus 1 3, demo_heap), []) demo_traffic; Ok s.2) =
    Ok [Taken 7; Answered 7] /\
  bstep demo_env ((demo_cbus 1 3, demo_heap), []) (BResp 0 (demo_pkt ReadResp 1) 0) =
    Err AssertFail.
Proof. split; vm_compute; reflexivity. Qed.

(** * Faults *)

(** A snoop response is timed with the turns of the request layer but holds
    the snoop response layer, which has the turns of responses.  With turns of 1
    and of 3 cycles, a snoop response of thread 0 that is taken at tick 0 has its
    release scheduled for tick 4000, in a turn of thread 1 of that layer; there
    the assertion of [releaseLayer] ends the simulation. *)
Theorem snoopResp_release_faults :
  let s := (demo_cbus 1 3, demo_heap) in
  let pkt := demo_pkt ReadResp 0 in
  exists pkt' bus' w',
    cb_recvTimingSnoopResp demo_env 0 pkt 1 s = Ok (true, pkt', (bus', w')) /\
    ly_releaseEvent (cb_snoopRespLayer bus') = [Some 4000; None] /\
    active_id (cb_params bus') 4000 3 0 = 1 /\
    release_snoopResp demo_env (fun _ _ w => (RDone, w)) (fun _ s => Ok s) 4000
      (with_cb_snoopRespLayer
         (with_ly_releaseEvent [None; None] (cb_snoopRespLayer bus')) bus', w') =
      Err AssertFail.
Proof.
  cbv zeta. do 3 eexists. split; [vm_compute; reflexivity|].
  split_and!; vm_compute; reflexivity.
Qed.

(** Draining looks at the first thread: a layer in which thread 0 is idle
    reports that it is drained, whatever the other threads do or wait for. *)
Theorem drain_ignores_other_threads de L c :
  cell_at 0 L = Some c -> c_state c = IDLE -> c_queue c = [] ->
  Layer_drain de L = Ok (0, L).
Proof.
  intros Hc Hs Hq. unfold Layer_drain.
  rewrite (get_queue _ _ _ Hc). cbn. rewrite (get_state _ _ _ Hc), Hs, Hq. done.
Qed.

(** Thread 1 holds the layer and another of its ports waits. *)
Lemma drain_ignores_other_threads_witness : exists L l,
  lrun demo_bus 3 0 8 [(3000, LSend (mkAttempt 5 1 4 true)); (3500, LSend (mkAttempt 6 1 1 true))]
    (Layer_new demo_bus 1000 3 0, []) = Ok (L, l) /\
  cell_at 1 L = Some (mkCell BUSY [6] (Some 10000) None) /\
  Layer_drain 1 L = Ok (0, L).
Proof.
  do 2 eexists. split; [vm_compute; reflexivity|].
  split; [vm_compute; reflexivity|].
  eapply (drain_ignores_other_threads 1); vm_compute; reflexivity.
Defined.
