(* ===== verification/EventQ.v ===== *)
(** The event queue: sim/eventq.hh and eventq.cc.  Events are objects linked by
    two pointers: [nextBin] leads from the top event of a bin to the next bin,
    [nextInBin] down the stack of a bin, which holds the events of one tick and
    priority.  Only the top event's [nextBin] is kept up to date, so the heap may
    hold stale pointers.  The loops over pointers take fuel; one round per event
    of the heap is enough ([EventQSpec]). *)

From S2P Require Import Prelude Request.

(** * Events *)

Definition Ev_PublicWrite : Z := 0x001d.
Definition Ev_Squashed : Z := 0x0001.
Definition Ev_Scheduled : Z := 0x0002.
Definition Ev_AutoDelete : Z := 0x0004.
Definition Ev_IsExitEvent : Z := 0x0010.
Definition Ev_IsMainQueue : Z := 0x0020.
Definition Ev_Initialized : Z := 0x7a40.
Definition Ev_InitMask : Z := 0xffc0.

Record Event := mkEvent {
  ev_nextBin : option Z;
  ev_nextInBin : option Z;
  ev_when : Z;
  ev_priority : Z;
  ev_flags : Z
}.

Definition with_ev_nextBin (v : option Z) (e : Event) : Event :=
  mkEvent v (ev_nextInBin e) (ev_when e) (ev_priority e) (ev_flags e).
Definition with_ev_nextInBin (v : option Z) (e : Event) : Event :=
  mkEvent (ev_nextBin e) v (ev_when e) (ev_priority e) (ev_flags e).
Definition with_ev_when (v : Z) (e : Event) : Event :=
  mkEvent (ev_nextBin e) (ev_nextInBin e) v (ev_priority e) (ev_flags e).
Definition with_ev_flags (v : Z) (e : Event) : Event :=
  mkEvent (ev_nextBin e) (ev_nextInBin e) (ev_when e) (ev_priority e) v.

(** The constructor. *)
Definition Event_new (p f : Z) : result Event :=
  cassert (Flags_noneSet f (Z.lnot Ev_PublicWrite)) ;;
  Ok (mkEvent None None 0 p (Z.lor Ev_Initialized f)).

Definition ev_scheduled (e : Event) : bool := Flags_isSet (ev_flags e) Ev_Scheduled.
Definition ev_squashed (e : Event) : bool := Flags_isSet (ev_flags e) Ev_Squashed.
Definition ev_isExitEvent (e : Event) : bool := Flags_isSet (ev_flags e) Ev_IsExitEvent.
Definition ev_initialized (e : Event) : bool :=
  Z.land (ev_flags e) Ev_InitMask =? Ev_Initialized.
Definition ev_set (m : Z) (e : Event) : Event := with_ev_flags (Flags_set (ev_flags e) m) e.
Definition ev_clear (m : Z) (e : Event) : Event := with_ev_flags (Flags_clear (ev_flags e) m) e.
Definition ev_squash (e : Event) : Event := ev_set Ev_Squashed e.

(** The comparisons: by tick, then by priority. *)
Definition ev_lt (l r : Event) : bool :=
  (ev_when l <? ev_when r) ||
  ((ev_when l =? ev_when r) && (ev_priority l <? ev_priority r)).
Definition ev_le (l r : Event) : bool :=
  (ev_when l <? ev_when r) ||
  ((ev_when l =? ev_when r) && (ev_priority l <=? ev_priority r)).
Definition ev_eq (l r : Event) : bool :=
  (ev_when l =? ev_when r) && (ev_priority l =? ev_priority r).
Definition ev_ne (l r : Event) : bool :=
  negb (ev_when l =? ev_when r) || negb (ev_priority l =? ev_priority r).

(** * The queue *)

Abbreviation EvHeap := (gmap Z Event).

Record EventQueue := mkEventQueue {
  eq_head : option Z;
  eq_heap : EvHeap
}.

Definition ev_get (h : EvHeap) (e : Z) : result Event := of_option NullDeref (h !! e).
Definition ev_upd (f : Event -> Event) (e : Z) (h : EvHeap) : result EvHeap :=
  ev ← ev_get h e; Ok (<[e := f ev]> h).

(** [Event::insertBefore]; the event itself is what it returns. *)
Definition insertBefore (event : Z) (curr : option Z) (h : EvHeap) : result EvHeap :=
  ev ← ev_get h event;
  match curr with
  | None => Ok (<[event := with_ev_nextInBin None (with_ev_nextBin None ev)]> h)
  | Some c =>
      cv ← ev_get h c;
      Ok (<[event := if ev_lt ev cv
                     then with_ev_nextInBin None (with_ev_nextBin (Some c) ev)
                     else with_ev_nextInBin (Some c) (with_ev_nextBin (ev_nextBin cv) ev)]> h)
  end.

(** The loop of [insert] and [remove]: the first bin that is not below [event],
    and the top of the bin before it. *)
Fixpoint find_bin (fuel : nat) (event : Event) (prev : Z) (curr : option Z) (h : EvHeap)
    : result (Z * option Z) :=
  match curr with
  | None => Ok (prev, None)
  | Some c =>
      match fuel with
      | O => Err OutOfFuel
      | S fuel' =>
          cv ← ev_get h c;
          if ev_lt cv event then find_bin fuel' event c (ev_nextBin cv) h
          else Ok (prev, Some c)
      end
  end.

Definition eq_fuel (h : EvHeap) : nat := S (size h).

Definition eq_insert (event : Z) (q : EventQueue) : result EventQueue :=
  let h := eq_heap q in
  ev ← ev_get h event;
  match eq_head q with
  | None => h ← insertBefore event None h; Ok (mkEventQueue (Some event) h)
  | Some hd =>
      hv ← ev_get h hd;
      if ev_le ev hv then
        h ← insertBefore event (Some hd) h; Ok (mkEventQueue (Some event) h)
      else
        pc ← find_bin (eq_fuel h) ev hd (ev_nextBin hv) h;
        h ← insertBefore event pc.2 h;
        h ← ev_upd (with_ev_nextBin (Some event)) pc.1 h;
        Ok (mkEventQueue (Some hd) h)
  end.

(** The loop of [Event::removeItem] down a bin. *)
Fixpoint removeItem_loop (fuel : nat) (event curr : Z) (next : option Z) (h : EvHeap)
    : result EvHeap :=
  match next with
  | None => Err Panic
  | Some n =>
      match fuel with
      | O => Err OutOfFuel
      | S fuel' =>
          nv ← ev_get h n;
          if event =? n then ev_upd (with_ev_nextInBin (ev_nextInBin nv)) curr h
          else removeItem_loop fuel' event n (ev_nextInBin nv) h
      end
  end.

(** [Event::removeItem]: the new top of the bin, or what follows the bin. *)
Definition removeItem (event top : Z) (h : EvHeap) : result (option Z * EvHeap) :=
  tv ← ev_get h top;
  if event =? top then
    match ev_nextInBin tv with
    | None => Ok (ev_nextBin tv, h)
    | Some n => h ← ev_upd (with_ev_nextBin (ev_nextBin tv)) n h; Ok (Some n, h)
    end
  else
    h ← removeItem_loop (eq_fuel h) event top (ev_nextInBin tv) h; Ok (Some top, h).

Definition eq_remove (event : Z) (q : EventQueue) : result EventQueue :=
  let h := eq_heap q in
  ev ← ev_get h event;
  match eq_head q with
  | None => Err Panic
  | Some hd =>
      hv ← ev_get h hd;
      if ev_eq hv ev then
        r ← removeItem event hd h; Ok (mkEventQueue r.1 r.2)
      else
        pc ← find_bin (eq_fuel h) ev hd (ev_nextBin hv) h;
        match pc.2 with
        | None => Err Panic
        | Some c =>
            cv ← ev_get h c;
            if ev_ne cv ev then Err Panic else
            r ← removeItem event c h;
            h ← ev_upd (with_ev_nextBin r.1) pc.1 r.2;
            Ok (mkEventQueue (Some hd) h)
        end
  end.

(** A flag update on one event of a queue.  The queue below is the main one, so
    [schedule] and [reschedule] set [IsMainQueue]. *)
Definition eq_upd (f : Event -> Event) (e : Z) (q : EventQueue) : result EventQueue :=
  h ← ev_upd f e (eq_heap q); Ok (mkEventQueue (eq_head q) h).

Definition eq_schedule (cur event when : Z) (q : EventQueue) : result EventQueue :=
  ev ← ev_get (eq_heap q) event;
  cassert (cur <=? when) ;;
  cassert (negb (ev_scheduled ev)) ;;
  cassert (ev_initialized ev) ;;
  q ← eq_upd (with_ev_when when) event q;
  q ← eq_insert event q;
  eq_upd (fun e => ev_set Ev_IsMainQueue (ev_set Ev_Scheduled e)) event q.

(** An [AutoDelete] event is freed. *)
Definition eq_deschedule (event : Z) (q : EventQueue) : result EventQueue :=
  ev ← ev_get (eq_heap q) event;
  cassert (ev_scheduled ev) ;;
  cassert (ev_initialized ev) ;;
  q ← eq_remove event q;
  q ← eq_upd (fun e => ev_clear Ev_Scheduled (ev_clear Ev_Squashed e)) event q;
  Ok (if Flags_isSet (ev_flags ev) Ev_AutoDelete
      then mkEventQueue (eq_head q) (delete event (eq_heap q)) else q).

Definition eq_reschedule (cur event when : Z) (always : bool) (q : EventQueue)
    : result EventQueue :=
  ev ← ev_get (eq_heap q) event;
  cassert (cur <=? when) ;;
  cassert (always || ev_scheduled ev) ;;
  cassert (ev_initialized ev) ;;
  q ← (if ev_scheduled ev then eq_remove event q else Ok q);
  q ← eq_upd (with_ev_when when) event q;
  q ← eq_insert event q;
  eq_upd (fun e => ev_set Ev_IsMainQueue (ev_set Ev_Scheduled (ev_clear Ev_Squashed e)))
    event q.

(** The pointer work of [serviceOne]: the head event, off the queue. *)
Definition eq_pop (q : EventQueue) : result (Z * EventQueue) :=
  event ← of_option NullDeref (eq_head q);
  let h := eq_heap q in
  hv ← ev_get h event;
  let h := <[event := ev_clear Ev_Scheduled hv]> h in
  match ev_nextInBin hv with
  | Some n =>
      h ← ev_upd (with_ev_nextBin (ev_nextBin hv)) n h;
      Ok (event, mkEventQueue (Some n) h)
  | None => Ok (event, mkEventQueue (ev_nextBin hv) h)
  end.

Section Service.

(** The action of an event, which may schedule and deschedule. *)
Context (process : Z -> EventQueue -> result EventQueue).

Definition serviceOne (q : EventQueue) : result (option Z * EventQueue) :=
  r ← eq_pop q;
  let event := r.1 in
  let q := r.2 in
  ev ← ev_get (eq_heap q) event;
  let delete_it q :=
    ev ← ev_get (eq_heap q) event;
    Ok (None, if Flags_isSet (ev_flags ev) Ev_AutoDelete && negb (ev_scheduled ev)
              then mkEventQueue (eq_head q) (delete event (eq_heap q)) else q) in
  if negb (ev_squashed ev) then
    q ← process event q;
    ev ← ev_get (eq_heap q) event;
    if ev_isExitEvent ev then
      cassert (negb (Flags_isSet (ev_flags ev) Ev_AutoDelete)) ;; Ok (Some event, q)
    else delete_it q
  else
    q ← eq_upd (ev_clear Ev_Squashed) event q;
    delete_it q.

(** [serviceEvents(when)], for as many events as the fuel has rounds. *)
Fixpoint serviceEvents (fuel : nat) (when : Z) (q : EventQueue) : result EventQueue :=
  match eq_head q with
  | None => Ok q
  | Some hd =>
      match fuel with
      | O => Err OutOfFuel
      | S fuel' =>
          hv ← ev_get (eq_heap q) hd;
          if when <? ev_when hv then Ok q else
          r ← serviceOne q; serviceEvents fuel' when r.2
      end
  end.

End Service.

(** [debugVerify]: walks the queue in service order; [time] and [priority] start
    at 0. *)
Fixpoint debugVerify_loop (fuel : nat) (nextBin nextInBin : option Z) (time priority : Z)
    (seen : gset Z) (h : EvHeap) : result bool :=
  match fuel with
  | O => Err OutOfFuel
  | S fuel' =>
      match nextInBin with
      | Some n =>
          nv ← ev_get h n;
          if ev_when nv <? time then Ok false else
          if (ev_when nv =? time) && (ev_priority nv <? priority) then Ok false else
          if bool_decide (n ∈ seen) then Ok false else
          debugVerify_loop fuel' nextBin (ev_nextInBin nv) (ev_when nv) (ev_priority nv)
            ({[n]} ∪ seen) h
      | None =>
          match nextBin with
          | None => Ok true
          | Some b =>
              bv ← ev_get h b;
              debugVerify_loop fuel' (ev_nextBin bv) (ev_nextBin bv) time priority seen h
          end
      end
  end.

Definition debugVerify (fuel : nat) (q : EventQueue) : result bool :=
  debugVerify_loop fuel (eq_head q) (eq_head q) 0 0 ∅ (eq_heap q).
