(* ===== verification/EventQSpec.v ===== *)
(** The linked bins of the event queue implement a priority queue that is last in,
    first out among equals.  [bins] is what the pointers of the heap mean, stale
    ones ignored; the operations are compared with the operations on the list of
    the events in the order in which they will be serviced. *)

From S2P Require Import Prelude Request EventQ.

(** * Keys *)

(** When an event is due: the tick, then the priority. *)
Abbreviation Key := (Z * Z)%type.

Definition ev_key (e : Event) : Key := (ev_when e, ev_priority e).
Definition klt (a b : Key) : bool := (a.1 <? b.1) || ((a.1 =? b.1) && (a.2 <? b.2)).

Lemma klt_spec a b : klt a b = true <-> a.1 < b.1 \/ (a.1 = b.1 /\ a.2 < b.2).
Proof.
  unfold klt. rewrite orb_true_iff, andb_true_iff, !Z.ltb_lt, Z.eqb_eq. done.
Qed.

Lemma klt_false a b : klt a b = false <-> b.1 < a.1 \/ (a.1 = b.1 /\ b.2 <= a.2).
Proof.
  rewrite <- not_true_iff_false, klt_spec. lia.
Qed.

Lemma ev_lt_key l r : ev_lt l r = klt (ev_key l) (ev_key r).
Proof. done. Qed.

Lemma ev_le_key l r : ev_le l r = negb (klt (ev_key r) (ev_key l)).
Proof.
  unfold ev_le, klt, ev_key. cbn. destruct (Z.ltb_spec (ev_when l) (ev_when r)), 
    (Z.ltb_spec (ev_when r) (ev_when l)), (Z.eqb_spec (ev_when l) (ev_when r)),
    (Z.eqb_spec (ev_when r) (ev_when l)), (Z.leb_spec (ev_priority l) (ev_priority r)),
    (Z.ltb_spec (ev_priority r) (ev_priority l)); cbn; try done; lia.
Qed.

Lemma ev_eq_key l r : ev_eq l r = true <-> ev_key l = ev_key r.
Proof.
  unfold ev_eq, ev_key. rewrite andb_true_iff, !Z.eqb_eq. split; [intros [-> ->] | intros [=]]; auto.
Qed.

Lemma ev_ne_key l r : ev_ne l r = negb (ev_eq l r).
Proof. unfold ev_ne, ev_eq. by rewrite negb_andb. Qed.

(** * What the pointers mean *)

(** A bin: its key and its stack. *)
Abbreviation Bin := (Key * list Z)%type.

(** The stack below a pointer, all of one key. *)
Fixpoint chain (h : EvHeap) (k : Key) (p : option Z) (l : list Z) : Prop :=
  match l with
  | [] => p = None
  | x :: l' => p = Some x /\ exists ev, h !! x = Some ev /\ ev_key ev = k /\
               chain h k (ev_nextInBin ev) l'
  end.

Fixpoint bins (h : EvHeap) (p : option Z) (bs : list Bin) : Prop :=
  match bs with
  | [] => p = None
  | (k, l) :: bs' => exists top rest ev,
      l = top :: rest /\ p = Some top /\ h !! top = Some ev /\ ev_key ev = k /\
      chain h k (ev_nextInBin ev) rest /\ bins h (ev_nextBin ev) bs'
  end.

Definition ids (bs : list Bin) : list Z := concat (bs.*2).

Lemma ids_cons k l bs : ids ((k, l) :: bs) = l ++ ids bs.
Proof. done. Qed.

(** What the two predicates read of an event. *)
Definition links (e : Event) : option Z * option Z * Key :=
  (ev_nextBin e, ev_nextInBin e, ev_key e).
Definition same_links (h h' : EvHeap) (x : Z) : Prop := links <$> h' !! x = links <$> h !! x.

Lemma same_links_inv h h' x ev : same_links h h' x -> h !! x = Some ev ->
  exists ev', h' !! x = Some ev' /\ ev_nextBin ev' = ev_nextBin ev /\
    ev_nextInBin ev' = ev_nextInBin ev /\ ev_key ev' = ev_key ev.
Proof.
  unfold same_links. intros Hs Hx. rewrite Hx in Hs. cbn in Hs.
  apply fmap_Some in Hs as (ev' & Hev' & He). unfold links in He. exists ev'.
  split_and!; congruence.
Qed.

(** A stack does not look at [nextBin]. *)
Definition same_stack (h h' : EvHeap) (x : Z) : Prop :=
  (fun e => (ev_nextInBin e, ev_key e)) <$> h' !! x =
  (fun e => (ev_nextInBin e, ev_key e)) <$> h !! x.

Lemma same_links_stack h h' x : same_links h h' x -> same_stack h h' x.
Proof.
  unfold same_links, same_stack. destruct (h !! x), (h' !! x); cbn; try done.
  unfold links. intros. congruence.
Qed.

Lemma chain_frame h h' k l : forall p, (forall x, x ∈ l -> same_stack h h' x) ->
  chain h k p l -> chain h' k p l.
Proof.
  induction l as [|x l IH]; intros p Hs H; [done|].
  destruct H as (-> & ev & Hx & Hk & Hc). split; [done|].
  pose proof (Hs x ltac:(left)) as Hsx. unfold same_stack in Hsx. rewrite Hx in Hsx.
  apply fmap_Some in Hsx as (ev' & Hx' & He). exists ev'.
  assert (ev_nextInBin ev' = ev_nextInBin ev) as -> by congruence.
  split_and!; [done|congruence|]. apply IH; [|done].
  intros y Hy. apply Hs. by right.
Qed.

Lemma bins_frame h h' bs : forall p, (forall x, x ∈ ids bs -> same_links h h' x) ->
  bins h p bs -> bins h' p bs.
Proof.
  induction bs as [|[k l] bs IH]; intros p Hs H; [done|].
  destruct H as (top & rest & ev & -> & -> & Hx & Hk & Hc & Hb).
  rewrite ids_cons in Hs.
  destruct (same_links_inv h h' top ev) as (ev' & Hx' & Hn & Hi & Hk');
    [apply Hs; set_solver | done |].
  exists top, rest, ev'. rewrite Hi, Hn. split_and!; [done..|congruence| |].
  - eapply chain_frame; [|done]. intros x Hx0. apply same_links_stack, Hs. set_solver.
  - apply IH; [|done]. intros x Hx0. apply Hs. set_solver.
Qed.

Lemma bins_top h p k l bs : bins h p ((k, l) :: bs) -> exists top rest, l = top :: rest /\
  p = Some top.
Proof. intros (top & rest & ev & -> & -> & _). eauto. Qed.

(** The pointer to the bins after some first ones is the [nextBin] of the last top
    of those: changing it changes what follows, and nothing else. *)
Lemma bins_splice h h' pre k prev rest post p c' post' :
  bins h p (pre ++ (k, prev :: rest) :: post) ->
  NoDup (ids (pre ++ [(k, prev :: rest)])) ->
  (forall x, x ∈ ids (pre ++ [(k, prev :: rest)]) -> x <> prev -> same_links h h' x) ->
  (exists ev ev', h !! prev = Some ev /\ h' !! prev = Some ev' /\
     ev_nextInBin ev' = ev_nextInBin ev /\ ev_key ev' = ev_key ev /\ ev_nextBin ev' = c') ->
  bins h' c' post' -> bins h' p (pre ++ (k, prev :: rest) :: post').
Proof.
  intros Hb Hnd Hs Hprev Hpost. revert p Hb Hnd Hs.
  induction pre as [|[k0 l0] pre IH]; intros p Hb Hnd Hs; cbn [app] in *.
  - destruct Hb as (top & r & ev & [= <- <-] & -> & Hx & Hk & Hc & _).
    destruct Hprev as (ev0 & ev' & Hx0 & Hx' & Hi & Hk' & Hn).
    rewrite Hx in Hx0. injection Hx0 as <-.
    exists prev, rest, ev'. rewrite Hi, Hn. split_and!; [done..|congruence| |done].
    eapply chain_frame; [|done]. intros x Hxr. apply same_links_stack, Hs; [set_solver|].
    intros ->. rewrite ids_cons in Hnd. cbn in Hnd. rewrite app_nil_r in Hnd.
    by apply NoDup_cons in Hnd as [Hnd _].
  - destruct Hb as (top & r & ev & -> & -> & Hx & Hk & Hc & Hb).
    rewrite ids_cons in Hnd, Hs. apply NoDup_app in Hnd as (Hnd1 & Hdisj & Hnd2).
    assert (Hin : prev ∈ ids (pre ++ [(k, prev :: rest)])).
    { unfold ids. rewrite fmap_app, concat_app. cbn. set_solver. }
    assert (Hne : forall x, x ∈ top :: r -> x <> prev).
    { intros x Hx0 ->. by apply (Hdisj prev). }
    destruct (same_links_inv h h' top ev) as (ev' & Hx' & Hn & Hi & Hk');
      [apply Hs; [set_solver | apply Hne; left] | done |].
    exists top, r, ev'. rewrite Hi, Hn. split_and!; [done..|congruence| |].
    + eapply chain_frame; [|done]. intros x Hx0. apply same_links_stack, Hs; [set_solver|].
      apply Hne. by right.
    + apply IH; [done..|]. intros x Hx0 Hx1. apply Hs; [set_solver | done].
Qed.

(** * Ordered bins *)

Fixpoint bsorted (bs : list Bin) : Prop :=
  match bs with
  | [] => True
  | b :: bs' => Forall (fun b' => klt b.1 b'.1 = true) bs' /\ bsorted bs'
  end.

Lemma klt_trans a b c : klt a b = true -> klt b c = true -> klt a c = true.
Proof. rewrite !klt_spec. lia. Qed.

Lemma klt_le_trans a b c : klt a b = true -> klt c b = false -> klt a c = true.
Proof. rewrite !klt_spec, klt_false. lia. Qed.

Lemma klt_total a b : klt a b = false -> klt b a = false -> a = b.
Proof. rewrite !klt_false. destruct a, b. cbn. intros. f_equal; lia. Qed.

(** Insertion into bins: a new bin, or the top of the bin of the key. *)
Fixpoint binsert (k : Key) (e : Z) (bs : list Bin) : list Bin :=
  match bs with
  | [] => [(k, [e])]
  | (k', l) :: bs' =>
      if klt k' k then (k', l) :: binsert k e bs'
      else if klt k k' then (k, [e]) :: bs
      else (k', e :: l) :: bs'
  end.

Lemma binsert_app k e pre post : Forall (fun b : Bin => klt b.1 k = true) pre ->
  binsert k e (pre ++ post) = pre ++ binsert k e post.
Proof.
  induction 1 as [|[k' l] pre Hk _ IH]; [done|]. cbn in *. by rewrite Hk, IH.
Qed.

Lemma binsert_ids k e bs : ids (binsert k e bs) ≡ₚ e :: ids bs.
Proof.
  induction bs as [|[k' l] bs IH]; [done|]. cbn [binsert].
  destruct (klt k' k); [|destruct (klt k k')].
  - rewrite !ids_cons, IH. by rewrite Permutation_middle.
  - by rewrite !ids_cons.
  - by rewrite !ids_cons.
Qed.

Lemma binsert_keys k e bs (P : Key -> Prop) : P k -> Forall (fun b => P b.1) bs ->
  Forall (fun b => P b.1) (binsert k e bs).
Proof.
  intros Hk. induction 1 as [|[k' l] bs Hb Hbs IH]; cbn; [by constructor|].
  destruct (klt k' k); [|destruct (klt k k')]; by repeat constructor.
Qed.

Lemma binsert_sorted k e bs : bsorted bs -> bsorted (binsert k e bs).
Proof.
  induction bs as [|[k' l] bs IH]; cbn; [by split|]. intros [Hall Hs].
  destruct (klt k' k) eqn:E1; [|destruct (klt k k') eqn:E2]; cbn.
  - split; [|by apply IH]. by apply (binsert_keys k e bs (fun x => klt k' x = true)).
  - split_and!; [|done..]. constructor; [done|].
    eapply Forall_impl; [done|]. intros b Hb. by eapply klt_trans.
  - done.
Qed.

Lemma chain_elem h k l : forall p x, chain h k p l -> x ∈ l ->
  exists ev, h !! x = Some ev /\ ev_key ev = k.
Proof.
  induction l as [|y l IH]; intros p x Hc Hx; [by apply elem_of_nil in Hx|].
  destruct Hc as (_ & ev & Hy & Hk & Hc). apply elem_of_cons in Hx as [->|Hx]; eauto.
Qed.

Lemma bins_elem h bs : forall p x, bins h p bs -> x ∈ ids bs ->
  exists k l ev, (k, l) ∈ bs /\ x ∈ l /\ h !! x = Some ev /\ ev_key ev = k.
Proof.
  induction bs as [|[k l] bs IH]; intros p x Hb Hx; [by apply elem_of_nil in Hx|].
  destruct Hb as (top & rest & ev & -> & -> & Hev & Hk & Hc & Hb).
  rewrite ids_cons in Hx. apply elem_of_app in Hx as [Hx|Hx].
  - apply elem_of_cons in Hx as [->|Hx].
    + exists k, (top :: rest), ev. split_and!; [left|left|done..].
    + destruct (chain_elem _ _ _ _ _ Hc Hx) as (ev' & ? & ?).
      exists k, (top :: rest), ev'. split_and!; [left|by right|done..].
  - destruct (IH _ _ Hb Hx) as (k' & l' & ev' & ? & ? & ? & ?).
    exists k', l', ev'. split_and!; [by right|done..].
Qed.

(** The heap has a round of fuel for every bin and every event. *)
Lemma bins_fuel h p bs : bins h p bs -> NoDup (ids bs) ->
  (length bs <= length (ids bs))%nat /\ (length (ids bs) <= size h)%nat.
Proof.
  intros Hb Hnd. split.
  - clear Hnd. revert p Hb. induction bs as [|[k l] bs IH]; intros p Hb; [done|].
    destruct Hb as (top & rest & ev & -> & _ & _ & _ & _ & Hb).
    rewrite ids_cons, length_app. cbn. specialize (IH _ Hb). lia.
  - rewrite <- (size_list_to_set (C := gset Z)) by done.
    rewrite <- (size_dom (D := gset Z)). apply subseteq_size.
    intros x Hx. apply elem_of_list_to_set in Hx.
    destruct (bins_elem _ _ _ _ Hb Hx) as (_ & _ & ev & _ & _ & Hx' & _).
    by apply elem_of_dom_2 in Hx'.
Qed.

(** ** The search for a bin *)

Lemma find_bin_spec h ev fuel : forall bs k0 prev rest hv,
  bins h (Some prev) ((k0, prev :: rest) :: bs) -> h !! prev = Some hv ->
  klt k0 (ev_key ev) = true -> (length bs < fuel)%nat ->
  exists pre k prev' rest' post c,
    find_bin fuel ev prev (ev_nextBin hv) h = Ok (prev', c) /\
    (k0, prev :: rest) :: bs = pre ++ (k, prev' :: rest') :: post /\
    Forall (fun b => klt b.1 (ev_key ev) = true) (pre ++ [(k, prev' :: rest')]) /\
    (forall b post', post = b :: post' -> klt b.1 (ev_key ev) = false) /\
    bins h c post.
Proof.
  induction fuel as [|fuel IH]; intros bs k0 prev rest hv Hb Hhv Hk Hf; [lia|].
  destruct Hb as (top & r & ev0 & [= <- <-] & _ & Hx & Hk0 & Hc & Hb).
  rewrite Hhv in Hx. injection Hx as <-.
  destruct bs as [|[k1 l1] bs].
  { exists [], k0, prev, rest, [], None. cbn in Hb. rewrite Hb.
    split_and!; [done..| by repeat constructor | done | done]. }
  pose proof Hb as (t1 & r1 & ev1 & -> & Hp1 & Hx1 & Hk1 & Hc1 & Hb1).
  rewrite Hp1. cbn [find_bin]. unfold ev_get. rewrite Hx1. cbn.
  rewrite ev_lt_key, Hk1. destruct (klt k1 (ev_key ev)) eqn:E.
  - destruct (IH bs k1 t1 r1 ev1) as (pre & k & prev' & rest' & post & c & Hfind & Heq
      & Hall & Hpost & Hbins); [by rewrite <- Hp1 | done | done | cbn in Hf; lia |].
    exists ((k0, prev :: rest) :: pre), k, prev', rest', post, c.
    rewrite Heq. split_and!; [done..| by constructor | done | done].
  - exists [], k0, prev, rest, ((k1, t1 :: r1) :: bs), (Some t1).
    split_and!; [done..| by repeat constructor | | by rewrite <- Hp1].
    by intros b post' [= <- <-].
Qed.

(** ** Insertion *)

(** What insertion and removal keep of every event. *)
Definition meta (e : Event) : Key * Z := (ev_key e, ev_flags e).
Definition same_meta (h h' : EvHeap) : Prop := forall x, meta <$> h' !! x = meta <$> h !! x.

Lemma ev_get_Some h x ev : h !! x = Some ev -> ev_get h x = Ok ev.
Proof. unfold ev_get. by intros ->. Qed.

Lemma insertBefore_spec h c post e ev :
  bins h c post -> h !! e = Some ev -> e ∉ ids post ->
  (forall b post', post = b :: post' -> klt b.1 (ev_key ev) = false) ->
  exists ev', insertBefore e c h = Ok (<[e := ev']> h) /\ meta ev' = meta ev /\
    bins (<[e := ev']> h) (Some e) (binsert (ev_key ev) e post).
Proof.
  intros Hb He Hnin Hfirst. unfold insertBefore, ev_get. rewrite He. cbn.
  assert (Hframe : forall ev', bins (<[e := ev']> h) c post).
  { intros ev'. eapply bins_frame; [|done]. intros x Hx. unfold same_links.
    rewrite lookup_insert_ne; [done | by intros ->]. }
  destruct post as [|[k1 l1] post].
  { cbn in Hb. subst c. eexists. split_and!; [done..|]. cbn.
    do 3 eexists. split_and!; [done..| apply lookup_insert_eq | done | done | done]. }
  pose proof Hb as (t1 & r1 & ev1 & -> & -> & Hx1 & Hk1 & Hc1 & Hb1).
  cbn. rewrite Hx1. cbn. rewrite ev_lt_key, Hk1.
  specialize (Hfirst _ _ eq_refl) as Hle. cbn in Hle. rewrite Hle.
  destruct (klt (ev_key ev) k1) eqn:E.
  - eexists. split_and!; [done..|].
    do 3 eexists. split_and!; [done..| apply lookup_insert_eq | done | done |].
    apply Hframe.
  - pose proof (klt_total _ _ Hle E) as Hkk.
    eexists. split_and!; [done..|].
    exists e, (t1 :: r1). eexists.
    split_and!; [done..| apply lookup_insert_eq | done | |].
    + cbn. specialize (Hframe (with_ev_nextInBin (Some t1) (with_ev_nextBin (ev_nextBin ev1) ev))).
      destruct Hframe as (t & r & ev2 & [= <- <-] & _ & Hx2 & Hk2 & Hc2 & _).
      split; [done|]. eauto.
    + cbn. eapply bins_frame; [|done]. intros x Hx. unfold same_links.
      rewrite lookup_insert_ne; [done|]. intros ->. apply Hnin. rewrite ids_cons. set_solver.
Qed.

Lemma ids_app pre post : ids (pre ++ post) = ids pre ++ ids post.
Proof. unfold ids. by rewrite fmap_app, concat_app. Qed.

(** The bins [pre] and the one of [prev] as a prefix of all. *)
Lemma ids_split pre (b : Bin) post :
  ids (pre ++ b :: post) = ids (pre ++ [b]) ++ ids post.
Proof. rewrite (cons_middle b pre post), app_assoc. apply ids_app. Qed.

Lemma prev_in_prefix pre k prev rest : prev ∈ ids (pre ++ [(k, prev :: rest)]).
Proof. rewrite ids_app, ids_cons. apply elem_of_app. right. left. Qed.

(** The last step of [insert] and of [remove]: after work in the bins behind
    [prev], [prev->nextBin] is set to what they have become. *)
Lemma relink_spec h h1 hd pre k prev rest post c' post' :
  bins h hd (pre ++ (k, prev :: rest) :: post) ->
  NoDup (ids (pre ++ [(k, prev :: rest)])) ->
  (forall x, x ∈ ids (pre ++ [(k, prev :: rest)]) -> h1 !! x = h !! x) ->
  same_meta h h1 -> bins h1 c' post' -> prev ∉ ids post' ->
  exists h2, ev_upd (with_ev_nextBin c') prev h1 = Ok h2 /\
    bins h2 hd (pre ++ (k, prev :: rest) :: post') /\ same_meta h h2.
Proof.
  intros Hb Hnd Hfr Hm Hb' Hnin. pose proof (prev_in_prefix pre k prev rest) as Hprev.
  destruct (bins_elem h _ _ prev Hb) as (_ & _ & pv & _ & _ & Hpv & _).
  { rewrite ids_split. apply elem_of_app. by left. }
  unfold ev_upd. rewrite (ev_get_Some h1 prev pv) by (by rewrite Hfr).
  cbn [mbind result_bind]. eexists. split; [done|]. split.
  - eapply (bins_splice h); [exact Hb | exact Hnd | | |].
    + intros x Hx Hxp. unfold same_links. rewrite lookup_insert_ne by done. by rewrite Hfr.
    + exists pv, (with_ev_nextBin c' pv). rewrite lookup_insert_eq. by split_and!.
    + eapply bins_frame; [|exact Hb']. intros x Hx. unfold same_links.
      rewrite lookup_insert_ne; [done|]. by intros ->.
  - intros x. destruct (decide (x = prev)) as [->|].
    + by rewrite lookup_insert_eq, Hpv.
    + rewrite lookup_insert_ne by done. apply Hm.
Qed.

Lemma eq_insert_spec h hd bs e ev :
  bins h hd bs -> bsorted bs -> NoDup (ids bs) -> e ∉ ids bs -> h !! e = Some ev ->
  exists q', eq_insert e (mkEventQueue hd h) = Ok q' /\
    bins (eq_heap q') (eq_head q') (binsert (ev_key ev) e bs) /\
    same_meta h (eq_heap q').
Proof.
  intros Hb Hs Hnd Hnin He. unfold eq_insert. cbn [eq_heap eq_head].
  rewrite (ev_get_Some _ _ _ He), bind_Ok_l.
  assert (Hmeta : forall ev', meta ev' = meta ev -> same_meta h (<[e := ev']> h)).
  { intros ev' Hm x. destruct (decide (x = e)) as [->|].
    - rewrite lookup_insert_eq, He. cbn. by rewrite Hm.
    - by rewrite lookup_insert_ne by done. }
  destruct bs as [|[k0 l0] bs].
  { cbn in Hb. subst hd.
    destruct (insertBefore_spec h None [] e ev) as (ev' & -> & Hm & Hb'); try done.
    cbn. eexists. split_and!; [done | done | by apply Hmeta]. }
  pose proof Hb as (t0 & r0 & ev0 & -> & -> & Hx0 & Hk0 & Hc0 & Hb0).
  rewrite (ev_get_Some _ _ _ Hx0), bind_Ok_l, ev_le_key, Hk0.
  destruct (klt k0 (ev_key ev)) eqn:E0; cbn [negb].
  - destruct (bins_fuel _ _ _ Hb Hnd) as [Hf1 Hf2].
    destruct (find_bin_spec h ev (eq_fuel h) bs k0 t0 r0 ev0 Hb Hx0 E0) as
      (pre & k & prev & rest & post & c & Hfind & Heq & Hall & Hpost & Hbins).
    { unfold eq_fuel. cbn [length] in Hf1. lia. }
    rewrite Hfind. cbn [mbind result_bind fst snd]. rewrite Heq in Hb, Hnd, Hnin |- *.
    rewrite ids_split in Hnd, Hnin. apply not_elem_of_app in Hnin as [Hnpre Hnpost].
    apply NoDup_app in Hnd as (Hnd1 & Hdisj & _).
    destruct (insertBefore_spec h c post e ev Hbins He Hnpost Hpost) as (ev' & -> & Hm & Hb').
    cbn [mbind result_bind].
    destruct (relink_spec h (<[e := ev']> h) (Some t0) pre k prev rest post (Some e)
      (binsert (ev_key ev) e post)) as (h2 & -> & Hb2 & Hm2); try done.
    + intros x Hx. apply lookup_insert_ne. by intros ->.
    + by apply Hmeta.
    + rewrite binsert_ids. pose proof (prev_in_prefix pre k prev rest) as Hprev.
      apply not_elem_of_cons. split; [by intros -> | by apply Hdisj].
    + eexists. split; [done|]. split; [|done].
      rewrite (cons_middle (k, prev :: rest) pre post), app_assoc, binsert_app by done.
      rewrite <- app_assoc. exact Hb2.
  - destruct (insertBefore_spec h (Some t0) ((k0, t0 :: r0) :: bs) e ev Hb He Hnin)
      as (ev' & -> & Hm & Hb'); [by intros b post' [= <- <-]|].
    cbn [mbind result_bind]. eexists. split_and!; [done | done | by apply Hmeta].
Qed.

(** ** Removal *)

Definition others (e : Z) (l : list Z) : list Z := filter (fun x => x <> e) l.

Lemma others_notin e l : e ∉ l -> others e l = l.
Proof.
  induction l as [|x l IH]; intros Hn; [done|]. unfold others. rewrite filter_cons_True.
  - f_equal. apply IH. set_solver.
  - set_solver.
Qed.

Lemma others_head e l : e ∉ l -> others e (e :: l) = l.
Proof.
  intros Hn. unfold others. rewrite filter_cons_False by auto. by apply others_notin.
Qed.

Lemma others_skip e x l : x <> e -> others e (x :: l) = x :: others e l.
Proof. intros Hne. unfold others. by rewrite filter_cons_True. Qed.

(** Removing from a stack below its top relinks one event. *)
Lemma removeItem_loop_spec e k fuel : forall l curr cv h,
  h !! curr = Some cv -> ev_key cv = k -> chain h k (ev_nextInBin cv) l -> e ∈ l ->
  NoDup (curr :: l) -> (length l <= fuel)%nat ->
  exists c xv n, removeItem_loop fuel e curr (ev_nextInBin cv) h =
      Ok (<[c := with_ev_nextInBin n xv]> h) /\
    c ∈ curr :: l /\ h !! c = Some xv /\
    chain (<[c := with_ev_nextInBin n xv]> h) k (Some curr) (curr :: others e l).
Proof.
  induction fuel as [|fuel IH]; intros l curr cv h Hcv Hk Hc He Hnd Hf.
  { destruct l; [by apply elem_of_nil in He|]. cbn in Hf. lia. }
  destruct l as [|x l]; [by apply elem_of_nil in He|].
  destruct Hc as (Hp & xv & Hx & Hkx & Hc). rewrite Hp. cbn [removeItem_loop].
  rewrite (ev_get_Some _ _ _ Hx), bind_Ok_l.
  apply NoDup_cons in Hnd as [Hcurr Hnd]. pose proof Hnd as Hnd'.
  apply NoDup_cons in Hnd' as [Hxl Hndl].
  destruct (Z.eqb_spec e x) as [<-|Hne].
  - unfold ev_upd. rewrite (ev_get_Some _ _ _ Hcv), bind_Ok_l.
    exists curr, cv, (ev_nextInBin xv). split_and!; [done | left | done |].
    rewrite others_head by done. split; [done|]. eexists.
    split_and!; [apply lookup_insert_eq | done |]. cbn.
    eapply chain_frame; [|done]. intros y Hy. unfold same_stack.
    rewrite lookup_insert_ne; [done|]. intros ->. apply Hcurr. by right.
  - destruct (IH l x xv h Hx Hkx Hc) as (c & yv & n & Hl & Hcin & Hy & Hch);
      [set_solver | done | cbn in Hf; lia |].
    rewrite Hl. exists c, yv, n. split_and!; [done | by right | done |].
    rewrite others_skip by done. split; [done|]. exists cv.
    rewrite lookup_insert_ne by (intros ->; done). rewrite Hp. by split_and!.
Qed.

(** A bin without one of its events. *)
Definition bin_without (e : Z) (b : Bin) (post : list Bin) : list Bin :=
  match others e b.2 with [] => post | l => (b.1, l) :: post end.

Lemma removeItem_spec h top k rest post e :
  bins h (Some top) ((k, top :: rest) :: post) -> NoDup (ids ((k, top :: rest) :: post)) ->
  e ∈ top :: rest ->
  exists p' h', removeItem e top h = Ok (p', h') /\
    bins h' p' (bin_without e (k, top :: rest) post) /\ same_meta h h' /\
    (forall x, x ∉ top :: rest -> h' !! x = h !! x).
Proof.
  intros Hb Hnd He. pose proof (bins_fuel _ _ _ Hb Hnd) as [_ Hfuel].
  pose proof Hb as (t & r & tv & [= <- <-] & _ & Ht & Hk & Hc & Hpost).
  rewrite ids_cons in Hnd, Hfuel. apply NoDup_app in Hnd as (Hnd & Hdisj & Hndp).
  pose proof Hnd as Hnd'. apply NoDup_cons in Hnd' as [Htr Hndr].
  unfold removeItem, bin_without. cbn [fst snd]. rewrite (ev_get_Some _ _ _ Ht), bind_Ok_l.
  destruct (Z.eqb_spec e top) as [->|Hne].
  - rewrite others_head by done. destruct rest as [|n rest].
    { cbn in Hc. rewrite Hc. exists (ev_nextBin tv), h. by split_and!. }
    destruct Hc as (Hp & nv & Hn & Hkn & Hc). rewrite Hp.
    unfold ev_upd. rewrite (ev_get_Some _ _ _ Hn), bind_Ok_l. cbn [mbind result_bind].
    eexists _, _. split; [done|].
    assert (Hfr : forall x, x <> n ->
      (<[n := with_ev_nextBin (ev_nextBin tv) nv]> h : EvHeap) !! x = h !! x).
    { intros x Hx. by apply lookup_insert_ne. }
    split_and!.
    + do 3 eexists. split_and!; [done..| apply lookup_insert_eq | done | |].
      * cbn. eapply chain_frame; [|done]. intros x Hx. unfold same_stack.
        rewrite Hfr; [done|]. intros ->. apply NoDup_cons in Hndr as [? _]. done.
      * cbn. eapply bins_frame; [|done]. intros x Hx. unfold same_links. rewrite Hfr; [done|].
        intros ->. apply (Hdisj n); [right; left | done].
    + intros x. destruct (decide (x = n)) as [->|]; [|by rewrite Hfr].
      by rewrite lookup_insert_eq, Hn.
    + intros x Hx. apply Hfr. intros ->. apply Hx. right. left.
  - assert (He' : e ∈ rest) by set_solver.
    destruct (removeItem_loop_spec e k (eq_fuel h) rest top tv h Ht Hk Hc He' Hnd)
      as (c & xv & n & -> & Hcin & Hxv & Hch).
    { unfold eq_fuel. cbn [app length] in Hfuel. rewrite length_app in Hfuel. lia. }
    cbn [mbind result_bind]. eexists _, _. split; [done|].
    rewrite others_skip by done. destruct Hch as (_ & tv' & Ht' & Hk' & Hch).
    split_and!.
    + exists top, (others e rest), tv'. split_and!; [done..|].
      assert (ev_nextBin tv' = ev_nextBin tv) as ->.
      { destruct (decide (c = top)) as [->|].
        - rewrite lookup_insert_eq in Ht'. injection Ht' as <-. cbn. congruence.
        - rewrite lookup_insert_ne in Ht' by done. congruence. }
      eapply bins_frame; [|done]. intros x Hx. unfold same_links.
      rewrite lookup_insert_ne; [done|]. intros ->. by apply (Hdisj x).
    + intros x. destruct (decide (x = c)) as [->|]; [|by rewrite lookup_insert_ne].
      by rewrite lookup_insert_eq, Hxv.
    + intros x Hx. apply lookup_insert_ne. by intros ->.
Qed.

(** Removal of an event of key [k]. *)
Fixpoint bremove (k : Key) (e : Z) (bs : list Bin) : list Bin :=
  match bs with
  | [] => []
  | b :: bs' => if klt b.1 k then b :: bremove k e bs' else bin_without e b bs'
  end.

Lemma bremove_app k e pre post : Forall (fun b : Bin => klt b.1 k = true) pre ->
  bremove k e (pre ++ post) = pre ++ bremove k e post.
Proof. induction 1 as [|b pre Hk _ IH]; [done|]. cbn. by rewrite Hk, IH. Qed.

Lemma elem_ids x bs : x ∈ ids bs <-> exists b, b ∈ bs /\ x ∈ b.2.
Proof.
  induction bs as [|[k l] bs IH].
  - split; [by intros ?%elem_of_nil | by intros (? & ?%elem_of_nil & _)].
  - rewrite ids_cons, elem_of_app, IH. split.
    + intros [Hx|(b & Hb & Hx)]; [exists (k, l); split; [left|done] | exists b; split; [by right|done]].
    + intros (b & [->|Hb]%elem_of_cons & Hx); [by left | right; eauto].
Qed.

Lemma bins_bin h bs : forall p b x, bins h p bs -> b ∈ bs -> x ∈ b.2 ->
  exists ev, h !! x = Some ev /\ ev_key ev = b.1.
Proof.
  induction bs as [|[k l] bs IH]; intros p b x Hb Hin Hx; [by apply elem_of_nil in Hin|].
  destruct Hb as (top & rest & ev & -> & -> & Hev & Hk & Hc & Hb).
  apply elem_of_cons in Hin as [->|Hin]; [|by eapply IH].
  cbn in Hx. apply elem_of_cons in Hx as [->|Hx]; [by exists ev|].
  by eapply chain_elem.
Qed.

(** The bin of an event is the one of its key. *)
Lemma bin_of_key h p bs e ev k l post : bins h p bs -> bsorted bs ->
  e ∈ ids bs -> h !! e = Some ev -> bs = (k, l) :: post ->
  klt k (ev_key ev) = false -> k = ev_key ev /\ e ∈ l.
Proof.
  intros Hb Hs He Hev -> Hk. destruct (bins_elem _ _ _ _ Hb He) as (k' & l' & ev' & Hin & Hl & Hx & Hk').
  rewrite Hev in Hx. injection Hx as <-. apply elem_of_cons in Hin as [[= -> ->]|Hin]; [done|].
  exfalso. destruct Hs as [Hall _]. rewrite Forall_forall in Hall. specialize (Hall _ Hin).
  cbn in Hall. congruence.
Qed.

Lemma bin_without_sub x e b post : x ∈ ids (bin_without e b post) -> x ∈ ids (b :: post).
Proof.
  destruct b as [k l]. unfold bin_without. cbn [fst snd]. rewrite ids_cons.
  destruct (others e l) as [|y ys] eqn:Eo; [intros Hx; apply elem_of_app; by right|].
  rewrite ids_cons, <- Eo, !elem_of_app. intros [Hx|Hx]; [left | by right].
  by apply list_elem_of_filter in Hx as [_ Hx].
Qed.

(** An event is in no bin of a lower key. *)
Lemma not_in_earlier h p pre post e ev : bins h p (pre ++ post) -> h !! e = Some ev ->
  Forall (fun b => klt b.1 (ev_key ev) = true) pre -> e ∉ ids pre.
Proof.
  intros Hb Hev Hall Hin. apply elem_ids in Hin as (b & Hbin & Hl).
  rewrite Forall_forall in Hall. specialize (Hall b Hbin).
  destruct (bins_bin h _ _ b e Hb) as (ev' & Hx & Hk');
    [apply elem_of_app; by left | done |].
  rewrite Hev in Hx. injection Hx as <-. rewrite <- Hk' in Hall.
  apply klt_spec in Hall. lia.
Qed.

Lemma bsorted_suffix pre post : bsorted (pre ++ post) -> bsorted post.
Proof. induction pre as [|b pre IH]; [done|]. intros [_ Hs]. by apply IH. Qed.

Lemma eq_remove_spec h hd bs e ev :
  bins h hd bs -> bsorted bs -> NoDup (ids bs) -> e ∈ ids bs -> h !! e = Some ev ->
  exists q', eq_remove e (mkEventQueue hd h) = Ok q' /\
    bins (eq_heap q') (eq_head q') (bremove (ev_key ev) e bs) /\
    same_meta h (eq_heap q').
Proof.
  intros Hb Hs Hnd He Hev. unfold eq_remove. cbn [eq_heap eq_head].
  rewrite (ev_get_Some _ _ _ Hev), bind_Ok_l.
  destruct bs as [|[k0 l0] bs]; [by apply elem_of_nil in He|].
  pose proof Hb as (t0 & r0 & ev0 & -> & -> & Hx0 & Hk0 & Hc0 & Hb0).
  rewrite (ev_get_Some _ _ _ Hx0), bind_Ok_l.
  destruct (klt k0 (ev_key ev)) eqn:E0.
  - assert (ev_eq ev0 ev = false) as ->.
    { apply not_true_iff_false. rewrite ev_eq_key, Hk0. intros ->.
      apply klt_spec in E0. lia. }
    destruct (bins_fuel _ _ _ Hb Hnd) as [Hf1 Hf2].
    destruct (find_bin_spec h ev (eq_fuel h) bs k0 t0 r0 ev0 Hb Hx0 E0) as
      (pre & k & prev & rest & post & c & Hfind & Heq & Hall & Hpost & Hbins).
    { unfold eq_fuel. cbn [length] in Hf1. lia. }
    rewrite Hfind. cbn [mbind result_bind fst snd]. rewrite Heq in Hb, Hs, Hnd, He |- *.
    (* the event is in the bins that follow *)
    rewrite ids_split in Hnd, He.
    assert (Hpre : e ∉ ids (pre ++ [(k, prev :: rest)])).
    { apply (not_in_earlier h (Some t0) _ post e ev); try done.
      by rewrite <- app_assoc. }
    apply elem_of_app in He as [He|He']; [done|].
    apply NoDup_app in Hnd as (Hnd1 & Hdisj & Hnd2).
    destruct post as [|[k1 l1] post]; [by apply elem_of_nil in He'|].
    pose proof Hbins as (t1 & r1 & ev1 & -> & -> & Hx1 & Hk1 & Hc1 & Hb1).
    assert (Hs' : bsorted ((k1, t1 :: r1) :: post)).
    { apply (bsorted_suffix (pre ++ [(k, prev :: rest)])). by rewrite <- app_assoc. }
    destruct (bin_of_key h _ _ e ev k1 (t1 :: r1) post Hbins Hs' He' Hev eq_refl)
      as [-> Hel]; [by eapply (Hpost (k1, t1 :: r1))|].
    rewrite (ev_get_Some _ _ _ Hx1), bind_Ok_l, ev_ne_key.
    rewrite (proj2 (ev_eq_key ev1 ev)) by done. cbn [negb].
    destruct (removeItem_spec h t1 (ev_key ev) r1 post e Hbins Hnd2 Hel)
      as (p' & h' & -> & Hb' & Hm & Hfr). cbn [mbind result_bind fst snd].
    destruct (relink_spec h h' (Some t0) pre k prev rest ((ev_key ev, t1 :: r1) :: post) p'
      (bin_without e (ev_key ev, t1 :: r1) post)) as (h2 & -> & Hb2 & Hm2); try done.
    + intros x Hx. apply Hfr. intros Hx'. apply (Hdisj x Hx). rewrite ids_cons.
      apply elem_of_app. by left.
    + intros Hin. apply bin_without_sub in Hin.
      apply (Hdisj prev); [apply prev_in_prefix | exact Hin].
    + eexists. split; [done|]. split; [|done]. cbn [eq_heap eq_head].
      rewrite (cons_middle (k, prev :: rest) pre), app_assoc, bremove_app by done.
      rewrite <- app_assoc. cbn [app bremove fst].
      pose proof (Hpost _ _ eq_refl) as Hk0'. cbn in Hk0'. by rewrite Hk0'.
  - destruct (bin_of_key h _ _ e ev k0 (t0 :: r0) bs Hb Hs He Hev eq_refl E0) as [-> Hel].
    rewrite (proj2 (ev_eq_key ev0 ev)) by done.
    destruct (removeItem_spec h t0 (ev_key ev) r0 bs e Hb Hnd Hel)
      as (p' & h' & -> & Hb' & Hm & _). cbn [mbind result_bind fst snd].
    eexists. split; [done|]. cbn [eq_heap eq_head bremove fst]. rewrite E0. by split.
Qed.
