(* ===== verification/EventQRefine.v ===== *)
(** The event queue as a priority queue: [holds q l] says that the queue [q] will
    service the events of [l] in that order.  Scheduling, descheduling and
    rescheduling an event, and taking the head off, do to [l] what they should,
    without faults and with the fuel they have. *)

From S2P Require Import Prelude Request EventQ EventQSpec.

(** * The abstract queue *)

Abbreviation PQ := (list (Z * Key)).

(** Insertion before the first event that is not due earlier. *)
Fixpoint pq_insert (x : Z * Key) (l : PQ) : PQ :=
  match l with
  | [] => [x]
  | y :: l' => if klt y.2 x.2 then y :: pq_insert x l' else x :: l
  end.

Definition pq_remove (e : Z) (l : PQ) : PQ := filter (fun x => x.1 <> e) l.

Fixpoint agenda_sorted (l : PQ) : Prop :=
  match l with
  | [] => True
  | x :: l' => Forall (fun y => klt y.2 x.2 = false) l' /\ agenda_sorted l'
  end.

(** The service order of bins. *)
Definition order (bs : list Bin) : PQ := concat ((fun b : Bin => (fun x => (x, b.1)) <$> b.2) <$> bs).

Lemma order_cons b bs : order (b :: bs) = ((fun x => (x, b.1)) <$> b.2) ++ order bs.
Proof. done. Qed.

Lemma order_ids bs : (order bs).*1 = ids bs.
Proof.
  induction bs as [|[k l] bs IH]; [done|].
  rewrite order_cons, ids_cons, fmap_app, IH. f_equal. cbn.
  rewrite <- list_fmap_compose. by apply list_fmap_id.
Qed.

(** ** Insertion and removal on bins are insertion and removal on the order *)

Lemma pq_insert_app x l l' : Forall (fun y => klt y.2 x.2 = true) l ->
  pq_insert x (l ++ l') = l ++ pq_insert x l'.
Proof. induction 1 as [|y l Hy _ IH]; [done|]. cbn. by rewrite Hy, IH. Qed.

Lemma order_insert k e bs : Forall (fun b => b.2 <> []) bs ->
  order (binsert k e bs) = pq_insert (e, k) (order bs).
Proof.
  induction 1 as [|[k' l] bs Hl _ IH]; [done|]. cbn [binsert]. rewrite order_cons.
  cbn [fst snd]. destruct (klt k' k) eqn:E1.
  - rewrite order_cons, IH. cbn [fst snd]. rewrite pq_insert_app; [done|].
    apply Forall_fmap, Forall_true. intros x. done.
  - cbn in Hl. destruct l as [|y l]; [done|]. cbn [fmap list_fmap app pq_insert fst snd].
    rewrite E1. destruct (klt k k') eqn:E2; [done|].
    by rewrite (klt_total _ _ E1 E2).
Qed.

Lemma pq_remove_app e l l' : pq_remove e (l ++ l') = pq_remove e l ++ pq_remove e l'.
Proof. apply filter_app. Qed.

Lemma pq_remove_fmap e (k : Key) l :
  pq_remove e ((fun x => (x, k)) <$> l) = (fun x => (x, k)) <$> others e l.
Proof.
  induction l as [|x l IH]; [done|]. unfold pq_remove, others in *. cbn [fmap list_fmap].
  rewrite !filter_cons. cbn. case_decide; cbn; by rewrite IH.
Qed.

Lemma pq_remove_notin e l : e ∉ l.*1 -> pq_remove e l = l.
Proof.
  induction l as [|[x k] l IH]; [done|]. cbn [fmap list_fmap fst]. intros Hn.
  apply not_elem_of_cons in Hn as [Hne Hn]. unfold pq_remove.
  rewrite filter_cons_True by (cbn; congruence). f_equal. by apply IH.
Qed.

(** [e] is in the bin of its key and in no other. *)
Lemma order_remove k e bs : bsorted bs -> NoDup (ids bs) ->
  (forall b, b ∈ bs -> e ∈ b.2 -> b.1 = k) -> e ∈ ids bs ->
  order (bremove k e bs) = pq_remove e (order bs).
Proof.
  induction bs as [|[k' l] bs IH]; intros Hs Hnd Hk He; [done|]. cbn [bremove fst].
  destruct Hs as [Hall Hs]. rewrite ids_cons in Hnd, He.
  apply NoDup_app in Hnd as (Hnd1 & Hdisj & Hnd2).
  rewrite order_cons, pq_remove_app, pq_remove_fmap. cbn [fst snd].
  assert (Hin : e ∈ l -> k' = k) by (intros Hl; apply (Hk (k', l)); [left | done]).
  destruct (klt k' k) eqn:E.
  - assert (e ∉ l) as Hl.
    { intros Hl. rewrite (Hin Hl) in E. apply klt_spec in E. lia. }
    rewrite order_cons, others_notin by done. cbn [fst snd]. f_equal.
    apply IH; [done..| |].
    + intros b Hb. apply Hk. by right.
    + apply elem_of_app in He as [He|He]; done.
  - assert (e ∈ l) as Hl.
    { apply elem_of_app in He as [He|He]; [done|]. exfalso.
      apply elem_ids in He as (b & Hb & Heb).
      rewrite Forall_forall in Hall. specialize (Hall b Hb). cbn in Hall.
      rewrite (Hk b) in Hall; [congruence | by right | done]. }
    rewrite (pq_remove_notin e (order bs)) by (rewrite order_ids; by apply Hdisj).
    unfold bin_without. cbn [fst snd]. destruct (others e l); done.
Qed.

Lemma bin_without_ids e b bs : e ∉ ids bs -> ids (bin_without e b bs) = others e (b.2 ++ ids bs).
Proof.
  intros Hn. unfold bin_without, others. rewrite filter_app.
  fold (others e b.2) (others e (ids bs)). rewrite (others_notin e (ids bs)) by done.
  destruct (others e b.2); [done|]. by rewrite ids_cons.
Qed.

Lemma bremove_sub k e bs b : b ∈ bremove k e bs -> exists b', b' ∈ bs /\ b'.1 = b.1.
Proof.
  induction bs as [|[k' l] bs IH]; cbn [bremove fst]; [by intros ?%elem_of_nil|].
  destruct (klt k' k).
  - intros [->|Hb]%elem_of_cons; [exists (k', l); split; [left|done]|].
    destruct (IH Hb) as (b' & ? & ?). exists b'. split; [by right|done].
  - unfold bin_without. cbn [fst snd]. destruct (others e l) as [|y ys].
    + intros Hb. exists b. split; [by right | done].
    + intros [->|Hb]%elem_of_cons; [exists (k', l); split; [left|done]|].
      exists b. split; [by right | done].
Qed.

Lemma bremove_sorted k e bs : bsorted bs -> bsorted (bremove k e bs).
Proof.
  induction bs as [|[k' l] bs IH]; [done|]. cbn [bremove fst]. intros [Hall Hs].
  destruct (klt k' k).
  - split; [|by apply IH]. apply Forall_forall. intros b Hb.
    destruct (bremove_sub _ _ _ _ Hb) as (b' & Hb' & <-).
    rewrite Forall_forall in Hall. by apply Hall.
  - unfold bin_without. cbn [fst snd]. by destruct (others e l).
Qed.

Lemma order_sorted bs : bsorted bs -> agenda_sorted (order bs).
Proof.
  induction bs as [|[k l] bs IH]; [done|]. intros [Hall Hs]. rewrite order_cons. cbn [fst snd].
  assert (Hord : Forall (fun y => klt y.2 k = false) (order bs)).
  { apply Forall_forall. intros [x kx] Hx.
    assert (exists b, b ∈ bs /\ b.1 = kx) as (b & Hb & <-).
    { clear -Hx. induction bs as [|b bs IH]; [by apply elem_of_nil in Hx|].
      rewrite order_cons in Hx. apply elem_of_app in Hx as [Hx|Hx].
      - apply list_elem_of_fmap in Hx as (y & [= _ ->] & _). exists b. split; [left|done].
      - destruct (IH Hx) as (b' & ? & ?). exists b'. split; [by right|done]. }
    rewrite Forall_forall in Hall. specialize (Hall b Hb). cbn in *.
    apply klt_false. apply klt_spec in Hall. lia. }
  induction l as [|x l IHl]; [by apply IH|].
  cbn [fmap list_fmap app agenda_sorted snd]. split; [|by apply IHl].
  apply Forall_app. split; [|done].
  apply Forall_fmap, Forall_true. intros y. cbn. apply klt_false. lia.
Qed.

(** * What a queue holds *)

Record holds (q : EventQueue) (l : PQ) : Prop := {
  ho_bins : exists bs, bins (eq_heap q) (eq_head q) bs /\ bsorted bs /\
    NoDup (ids bs) /\ order bs = l;
  ho_flags : forall x ev, eq_heap q !! x = Some ev -> (ev_scheduled ev = true <-> x ∈ l.*1)
}.

(** A queue services in the order of the keys. *)
Lemma holds_sorted q l : holds q l -> agenda_sorted l.
Proof. intros [(bs & _ & Hs & _ & <-) _]. by apply order_sorted. Qed.

Lemma bins_nonempty h bs : forall p, bins h p bs -> Forall (fun b => b.2 <> []) bs.
Proof.
  induction bs as [|[k l] bs IH]; intros p Hb; [constructor|].
  destruct Hb as (top & rest & ev & -> & _ & _ & _ & _ & Hb). constructor; [done|]. eauto.
Qed.

(** Flag updates and other events do not change what is held. *)
Lemma bins_upd h e f ev p bs : bins h p bs -> h !! e = Some ev ->
  links (f ev) = links ev -> bins (<[e := f ev]> h) p bs.
Proof.
  intros Hb He Hl. eapply bins_frame; [|done]. intros x _. unfold same_links.
  destruct (decide (x = e)) as [->|]; [|by rewrite lookup_insert_ne].
  rewrite lookup_insert_eq, He. cbn. by rewrite Hl.
Qed.

Lemma ev_scheduled_bit e : ev_scheduled e = Z.testbit (ev_flags e) 1.
Proof. apply (land_pow2_testbit (ev_flags e) 1). lia. Qed.

Lemma same_meta_get h h' x ev : same_meta h h' -> h !! x = Some ev ->
  exists ev', h' !! x = Some ev' /\ ev_key ev' = ev_key ev /\ ev_flags ev' = ev_flags ev.
Proof.
  intros Hm Hx. specialize (Hm x). rewrite Hx in Hm. cbn in Hm.
  apply fmap_Some in Hm as (ev' & Hx' & He). unfold meta in He. exists ev'.
  split_and!; congruence.
Qed.

(** Being scheduled is a matter of the flags, which linking keeps. *)
Lemma same_meta_scheduled h h' x ev' : same_meta h h' -> h' !! x = Some ev' ->
  exists ev, h !! x = Some ev /\ ev_scheduled ev' = ev_scheduled ev /\
    ev_key ev' = ev_key ev /\ ev_flags ev' = ev_flags ev.
Proof.
  intros Hm Hx. specialize (Hm x). rewrite Hx in Hm. cbn in Hm. symmetry in Hm.
  apply fmap_Some in Hm as (ev & Hx' & He). unfold meta in He. exists ev.
  unfold ev_scheduled. split_and!; congruence.
Qed.

(** The list after an event of it has been taken out of the bins. *)
Lemma remove_held q l e ev : holds q l -> eq_heap q !! e = Some ev -> ev_scheduled ev = true ->
  exists q' bs', eq_remove e q = Ok q' /\
    bins (eq_heap q') (eq_head q') bs' /\ bsorted bs' /\ NoDup (ids bs') /\
    order bs' = pq_remove e l /\ same_meta (eq_heap q) (eq_heap q').
Proof.
  intros [(bs & Hb & Hs & Hnd & <-) Hfl] He Hsch.
  assert (Hin : e ∈ ids bs).
  { rewrite <- order_ids. by apply (Hfl e ev He). }
  destruct q as [hd h]. cbn in *.
  destruct (eq_remove_spec h hd bs e ev Hb Hs Hnd Hin He) as (q' & Hq' & Hb' & Hm).
  assert (Hord : order (bremove (ev_key ev) e bs) = pq_remove e (order bs)).
  { apply order_remove; [done..| |done]. intros b Hbin Heb.
    destruct (bins_bin h _ _ b e Hb Hbin Heb) as (ev' & Hx & <-). congruence. }
  exists q', (bremove (ev_key ev) e bs). split_and!; [done..|by apply bremove_sorted| |done|done].
  rewrite <- order_ids, Hord. rewrite <- order_ids in Hnd. unfold pq_remove.
  clear -Hnd. induction (order bs) as [|[x k] l IH]; [done|]. cbn in Hnd.
  apply NoDup_cons in Hnd as [Hx Hnd]. rewrite filter_cons. case_decide; [|by apply IH].
  cbn. apply NoDup_cons. split; [|by apply IH]. intros Hin. apply Hx.
  apply list_elem_of_fmap in Hin as (y & -> & Hy). apply list_elem_of_filter in Hy as [_ Hy].
  apply list_elem_of_fmap. eauto.
Qed.

(** Setting the tick of an event that is on no bin and inserting it. *)
Lemma insert_held h hd bs e ev when : bins h hd bs -> bsorted bs -> NoDup (ids bs) ->
  e ∉ ids bs -> h !! e = Some ev ->
  exists q', (q ← eq_upd (with_ev_when when) e (mkEventQueue hd h); eq_insert e q) = Ok q' /\
    (exists bs', bins (eq_heap q') (eq_head q') bs' /\ bsorted bs' /\ NoDup (ids bs') /\
       order bs' = pq_insert (e, (when, ev_priority ev)) (order bs)) /\
    same_meta (<[e := with_ev_when when ev]> h) (eq_heap q').
Proof.
  intros Hb Hs Hnd Hn He. unfold eq_upd, ev_upd. cbn [eq_heap eq_head].
  rewrite (ev_get_Some _ _ _ He). cbn [mbind result_bind].
  assert (Hb1 : bins (<[e := with_ev_when when ev]> h) hd bs).
  { eapply bins_frame; [|done]. intros x Hx. unfold same_links.
    rewrite lookup_insert_ne; [done|]. by intros ->. }
  destruct (eq_insert_spec (<[e := with_ev_when when ev]> h) hd bs e (with_ev_when when ev)
    Hb1 Hs Hnd Hn (lookup_insert_eq _ _ _)) as (q' & -> & Hb' & Hm).
  exists q'. split; [done|]. split; [|done].
  exists (binsert (ev_key (with_ev_when when ev)) e bs). split_and!; [done|by apply binsert_sorted| |].
  - rewrite binsert_ids. by apply NoDup_cons.
  - apply order_insert. by eapply bins_nonempty.
Qed.

(** Updating flags of one event: the others keep theirs. *)
Lemma holds_after_flag h0 q bs l e ev0 f :
  bins (eq_heap q) (eq_head q) bs -> bsorted bs -> NoDup (ids bs) -> order bs = l ->
  same_meta h0 (eq_heap q) -> h0 !! e = Some ev0 ->
  (forall ev, links (f ev) = links ev) ->
  (forall ev, ev_flags ev = ev_flags ev0 -> ev_scheduled (f ev) = true <-> e ∈ l.*1) ->
  (forall x ev, x <> e -> h0 !! x = Some ev -> (ev_scheduled ev = true <-> x ∈ l.*1)) ->
  exists q', eq_upd f e q = Ok q' /\ holds q' l.
Proof.
  intros Hb Hs Hnd Hord Hm He Hlf Hfe Hfo.
  destruct (same_meta_get _ _ _ _ Hm He) as (ev & Hev & Hk & Hf).
  unfold eq_upd, ev_upd. rewrite (ev_get_Some _ _ _ Hev). cbn [mbind result_bind].
  eexists. split; [done|]. split; cbn [eq_heap eq_head].
  - exists bs. split_and!; [|done..]. apply bins_upd; auto.
  - intros x evx. destruct (decide (x = e)) as [->|Hne].
    + rewrite lookup_insert_eq. intros [= <-]. by apply Hfe.
    + rewrite lookup_insert_ne by done. intros Hx.
      destruct (same_meta_scheduled _ _ _ _ Hm Hx) as (ev1 & Hx1 & -> & _). by apply Hfo.
Qed.

Lemma pq_insert_elem x y l : y ∈ (pq_insert x l).*1 <-> y = x.1 \/ y ∈ l.*1.
Proof.
  induction l as [|z l IH]; cbn; [set_solver|].
  destruct (klt z.2 x.2); cbn; rewrite !elem_of_cons; [rewrite IH|]; tauto.
Qed.

Lemma pq_remove_elem e y l : y ∈ (pq_remove e l).*1 <-> y <> e /\ y ∈ l.*1.
Proof.
  rewrite !list_elem_of_fmap. split.
  - intros (z & -> & Hz). apply list_elem_of_filter in Hz as [Hne Hz]. eauto.
  - intros [Hne (z & -> & Hz)]. exists z. split; [done|]. by apply list_elem_of_filter.
Qed.

(** * The operations *)

Lemma set_scheduled_bit e : ev_scheduled (ev_set Ev_IsMainQueue (ev_set Ev_Scheduled e)) = true.
Proof.
  rewrite ev_scheduled_bit. unfold ev_set, Flags_set. cbn [ev_flags with_ev_flags].
  by rewrite !Z.lor_spec, orb_true_r.
Qed.

Lemma clear_scheduled_bit e f : f = ev_clear Ev_Scheduled e -> ev_scheduled f = false.
Proof.
  intros ->. rewrite ev_scheduled_bit. unfold ev_clear, Flags_clear.
  cbn [ev_flags with_ev_flags]. rewrite Z.ldiff_spec. by rewrite andb_false_r.
Qed.

Lemma schedule_held cur q l e ev when : holds q l -> eq_heap q !! e = Some ev ->
  ev_scheduled ev = false -> ev_initialized ev = true -> cur <= when ->
  exists q', eq_schedule cur e when q = Ok q' /\
    holds q' (pq_insert (e, (when, ev_priority ev)) l).
Proof.
  intros Hq He Hsch Hini Hle. unfold eq_schedule.
  rewrite (ev_get_Some _ _ _ He), bind_Ok_l, (cassert_leb _ _ Hle), Hsch, Hini.
  cbn [negb cassert mbind result_bind].
  pose proof Hq as [(bs & Hb & Hs & Hnd & <-) Hfl].
  assert (Hn : e ∉ (order bs).*1) by (intros Hin; apply (Hfl e ev He) in Hin; congruence).
  destruct q as [hd h]. cbn [eq_heap eq_head] in *. rewrite order_ids in Hn.
  destruct (insert_held h hd bs e ev when Hb Hs Hnd Hn He)
    as (q1 & Hq1 & (bs' & Hb' & Hs' & Hnd' & Hord) & Hm).
  apply bind_Ok in Hq1 as (q0 & Hq0 & Hq1). rewrite Hq0. cbn [mbind result_bind]. rewrite Hq1.
  cbn [mbind result_bind].
  apply (holds_after_flag (<[e := with_ev_when when ev]> h) q1 bs' _ e (with_ev_when when ev));
    try done.
  - apply lookup_insert_eq.
  - intros ev' _. rewrite pq_insert_elem. split; [by left | intros _; apply set_scheduled_bit].
  - intros x evx Hne Hx. rewrite lookup_insert_ne in Hx by done.
    rewrite pq_insert_elem, (Hfl x evx Hx). cbn. naive_solver.
Qed.

Lemma deschedule_held q l e ev : holds q l -> eq_heap q !! e = Some ev ->
  ev_scheduled ev = true -> ev_initialized ev = true ->
  exists q', eq_deschedule e q = Ok q' /\ holds q' (pq_remove e l).
Proof.
  intros Hq He Hsch Hini. unfold eq_deschedule.
  rewrite (ev_get_Some _ _ _ He), bind_Ok_l, Hsch, Hini. cbn [cassert mbind result_bind].
  destruct (remove_held q l e ev Hq He Hsch) as (q1 & bs' & -> & Hb' & Hs' & Hnd' & Hord & Hm).
  pose proof Hq as [_ Hfl]. cbn [mbind result_bind].
  destruct (holds_after_flag (eq_heap q) q1 bs' (pq_remove e l) e ev
    (fun e => ev_clear Ev_Scheduled (ev_clear Ev_Squashed e))) as (q2 & -> & Hq2); try done.
  - intros ev' _. rewrite pq_remove_elem, (clear_scheduled_bit (ev_clear Ev_Squashed ev') _ eq_refl).
    naive_solver.
  - intros x evx Hne Hx. rewrite pq_remove_elem, (Hfl x evx Hx). naive_solver.
  - cbn [mbind result_bind]. destruct (Flags_isSet _ _); eexists; (split; [done|]); [|done].
    destruct Hq2 as [(bs & Hb & Hs & Hnd & Ho) Hf]. split; cbn.
    + exists bs. split_and!; [|done..]. eapply bins_frame; [|done].
      intros x Hx. unfold same_links. rewrite lookup_delete_ne; [done|]. intros ->.
      rewrite <- order_ids, Ho in Hx. by apply pq_remove_elem in Hx as [? _].
    + intros x evx Hx. apply lookup_delete_Some in Hx as [_ Hx]. by apply Hf.
Qed.

Lemma reschedule_held cur q l e ev when always : holds q l -> eq_heap q !! e = Some ev ->
  always || ev_scheduled ev = true -> ev_initialized ev = true -> cur <= when ->
  exists q', eq_reschedule cur e when always q = Ok q' /\
    holds q' (pq_insert (e, (when, ev_priority ev)) (pq_remove e l)).
Proof.
  intros Hq He Hsch Hini Hle. unfold eq_reschedule.
  rewrite (ev_get_Some _ _ _ He), bind_Ok_l, (cassert_leb _ _ Hle), Hsch, Hini.
  cbn [cassert mbind result_bind]. pose proof Hq as [Hbins Hfl].
  (* the queue without the event *)
  assert (Hq1 : exists q1 bs', (if ev_scheduled ev then eq_remove e q else Ok q) = Ok q1 /\
    bins (eq_heap q1) (eq_head q1) bs' /\ bsorted bs' /\ NoDup (ids bs') /\
    order bs' = pq_remove e l /\ same_meta (eq_heap q) (eq_heap q1)).
  { destruct (ev_scheduled ev) eqn:Es; [by apply (remove_held q l e ev)|].
    destruct Hbins as (bs & Hb & Hs & Hnd & <-). exists q, bs. split_and!; try done.
    symmetry. apply pq_remove_notin. intros Hin. apply (Hfl e ev He) in Hin. congruence. }
  destruct Hq1 as (q1 & bs1 & -> & Hb1 & Hs1 & Hnd1 & Ho1 & Hm1). cbn [mbind result_bind].
  destruct (same_meta_get _ _ _ _ Hm1 He) as (ev1 & He1 & Hk1 & Hf1).
  assert (Hp : ev_priority ev1 = ev_priority ev) by (unfold ev_key in Hk1; congruence).
  assert (Hn : e ∉ ids bs1).
  { rewrite <- order_ids, Ho1, pq_remove_elem. tauto. }
  destruct q1 as [hd1 h1]. cbn [eq_heap eq_head] in *.
  destruct (insert_held h1 hd1 bs1 e ev1 when Hb1 Hs1 Hnd1 Hn He1)
    as (q2 & Hq2 & (bs2 & Hb2 & Hs2 & Hnd2 & Ho2) & Hm2).
  apply bind_Ok in Hq2 as (q0 & Hq0 & Hq2). rewrite Hq0. cbn [mbind result_bind]. rewrite Hq2.
  cbn [mbind result_bind]. rewrite Ho1, Hp in Ho2.
  apply (holds_after_flag (<[e := with_ev_when when ev1]> h1) q2 bs2 _ e (with_ev_when when ev1));
    try done.
  - apply lookup_insert_eq.
  - intros ev' _. rewrite pq_insert_elem. split; [by left | intros _; apply set_scheduled_bit].
  - intros x evx Hne Hx. rewrite lookup_insert_ne in Hx by done.
    destruct (same_meta_scheduled _ _ _ _ Hm1 Hx) as (ev0 & Hx0 & -> & _).
    rewrite pq_insert_elem, pq_remove_elem, (Hfl x ev0 Hx0). cbn. naive_solver.
Qed.

Lemma pop_held q e k l : holds q ((e, k) :: l) ->
  exists q', eq_pop q = Ok (e, q') /\ holds q' l.
Proof.
  intros [(bs & Hb & Hs & Hnd & Ho) Hfl]. destruct q as [hd h]. cbn [eq_heap eq_head] in *.
  destruct bs as [|[k0 l0] bs]; [done|].
  pose proof Hb as (t & r & tv & -> & -> & Ht & Hk & Hc & Hpost).
  rewrite order_cons in Ho. cbn [fst snd fmap list_fmap app] in Ho. injection Ho as <- <- <-.
  rewrite ids_cons in Hnd. cbn [app] in Hnd. apply NoDup_cons in Hnd as [Hnt Hnd].
  unfold eq_pop. cbn [eq_heap eq_head of_option mbind result_bind].
  rewrite (ev_get_Some _ _ _ Ht). cbn [mbind result_bind].
  assert (Hcl : ev_scheduled (ev_clear Ev_Scheduled tv) = false)
    by by apply (clear_scheduled_bit tv).
  assert (Hfr : forall x, x <> t -> (<[t := ev_clear Ev_Scheduled tv]> h : EvHeap) !! x = h !! x).
  { intros x Hx. by apply lookup_insert_ne. }
  assert (Hord : (((fun x => (x, k0)) <$> r) ++ order bs).*1 = r ++ ids bs).
  { rewrite fmap_app, order_ids. f_equal. rewrite <- list_fmap_compose. by apply list_fmap_id. }
  assert (Hflags : forall h' : EvHeap, (forall x, x <> t -> ev_flags <$> h' !! x = ev_flags <$> h !! x) ->
    h' !! t = Some (ev_clear Ev_Scheduled tv) ->
    forall x ev, h' !! x = Some ev ->
      (ev_scheduled ev = true <-> x ∈ (((fun x => (x, k0)) <$> r) ++ order bs).*1)).
  { intros h' Hsame Ht' x ev Hx. rewrite Hord. destruct (decide (x = t)) as [->|Hne].
    - rewrite Ht' in Hx. injection Hx as <-. rewrite Hcl. split; [done|]. tauto.
    - specialize (Hsame x Hne). rewrite Hx in Hsame. symmetry in Hsame.
      apply fmap_Some in Hsame as (ev0 & Hx0 & Hf).
      assert (ev_scheduled ev = ev_scheduled ev0) as -> by (unfold ev_scheduled; congruence).
      rewrite (Hfl x ev0 Hx0). cbn [fmap list_fmap fst]. rewrite elem_of_cons.
      rewrite Hord. tauto. }
  destruct r as [|n r].
  - cbn in Hc. rewrite Hc. eexists. split; [done|]. split; cbn [eq_heap eq_head].
    + exists bs. split_and!; [|apply Hs|done|done]. eapply bins_frame; [|done].
      intros x Hx. unfold same_links. rewrite Hfr; [done|]. intros ->. by apply Hnt.
    + apply Hflags; [intros x Hx; by rewrite Hfr | apply lookup_insert_eq].
  - destruct Hc as (Hp & nv & Hn & Hkn & Hc). rewrite Hp.
    assert (Hnet : n <> t) by (intros ->; apply Hnt; left).
    unfold ev_upd. rewrite (ev_get_Some _ n nv) by by rewrite Hfr.
    cbn [mbind result_bind]. eexists. split; [done|]. split; cbn [eq_heap eq_head].
    + exists ((k0, n :: r) :: bs). split_and!; [|done|done|done].
      do 3 eexists. split_and!; [done..| apply lookup_insert_eq | done | |].
      * cbn. eapply chain_frame; [|done]. intros x Hx. unfold same_stack.
        rewrite lookup_insert_ne, Hfr; [done| |].
        -- intros ->. apply Hnt. apply elem_of_app. left. by right.
        -- intros ->. cbn in Hnd. apply NoDup_cons in Hnd as [Hnd%not_elem_of_app _]. tauto.
      * cbn. eapply bins_frame; [|done]. intros x Hx. unfold same_links.
        rewrite lookup_insert_ne, Hfr; [done| |].
        -- intros ->. apply Hnt. apply elem_of_app. by right.
        -- intros ->. cbn in Hnd. apply NoDup_cons in Hnd as [Hnd%not_elem_of_app _]. tauto.
    + apply Hflags.
      * intros x Hx. destruct (decide (x = n)) as [->|].
        -- by rewrite lookup_insert_eq, Hn.
        -- by rewrite lookup_insert_ne, Hfr.
      * rewrite lookup_insert_ne by done. apply lookup_insert_eq.
Qed.

(** An inserted event goes after the events due earlier, and before all others:
    among events of one tick and priority the last one scheduled is first. *)
Lemma pq_insert_split x l : agenda_sorted l -> exists l1 l2, l = l1 ++ l2 /\
  pq_insert x l = l1 ++ x :: l2 /\ Forall (fun y => klt y.2 x.2 = true) l1 /\
  Forall (fun y => klt y.2 x.2 = false) l2.
Proof.
  induction l as [|y l IH]; cbn; intros Hs; [exists [], []; by split_and!|].
  destruct Hs as [Hall Hs]. destruct (klt y.2 x.2) eqn:E.
  - destruct (IH Hs) as (l1 & l2 & -> & -> & H1 & H2).
    exists (y :: l1), l2. split_and!; [done..|by constructor|done].
  - exists [], (y :: l). split_and!; [done..|]. constructor; [done|].
    eapply Forall_impl; [done|]. intros z Hz. apply klt_false.
    apply klt_false in E, Hz. lia.
Qed.

(** C26. The event queue is a priority queue.  A queue that will service the events
    [l], in that order, keeps them sorted by tick and priority; scheduling an
    event puts it after the events due strictly earlier and before all others
    (last in, first out among equals); descheduling takes it out and changes
    nothing else; rescheduling does both; and the pointer work of [serviceOne]
    takes the first one off.
    None of these faults or runs out of rounds, however stale the pointers inside
    the bins are. *)
Theorem eventq_refines q l :
  holds q l ->
  agenda_sorted l /\
  (forall cur e ev when, eq_heap q !! e = Some ev -> ev_scheduled ev = false ->
     ev_initialized ev = true -> cur <= when ->
     exists q' l1 l2, eq_schedule cur e when q = Ok q' /\ l = l1 ++ l2 /\
       holds q' (l1 ++ (e, (when, ev_priority ev)) :: l2) /\
       Forall (fun y => klt y.2 (when, ev_priority ev) = true) l1 /\
       Forall (fun y => klt y.2 (when, ev_priority ev) = false) l2) /\
  (forall e ev, eq_heap q !! e = Some ev -> ev_scheduled ev = true ->
     ev_initialized ev = true ->
     exists q', eq_deschedule e q = Ok q' /\ holds q' (pq_remove e l)) /\
  (forall cur e ev when always, eq_heap q !! e = Some ev ->
     always || ev_scheduled ev = true -> ev_initialized ev = true -> cur <= when ->
     exists q', eq_reschedule cur e when always q = Ok q' /\
       holds q' (pq_insert (e, (when, ev_priority ev)) (pq_remove e l))) /\
  (forall e k l', l = (e, k) :: l' -> exists q', eq_pop q = Ok (e, q') /\ holds q' l').
Proof.
  intros Hq. pose proof (holds_sorted _ _ Hq) as Hs. split_and!; [done|..].
  - intros cur e ev when He Hsch Hini Hle.
    destruct (schedule_held cur q l e ev when Hq He Hsch Hini Hle) as (q' & Hq' & Hh).
    destruct (pq_insert_split (e, (when, ev_priority ev)) l Hs) as (l1 & l2 & E & Hi & H1 & H2).
    exists q', l1, l2. rewrite <- Hi. by split_and!.
  - intros e ev. by apply deschedule_held.
  - intros cur e ev when always. by apply reschedule_held.
  - intros e k l' ->. by apply pop_held with (k := k).
Qed.

(** Three events, of which two are due together. *)
Definition demo_events : EvHeap :=
  list_to_map [(1, mkEvent None None 0 0 Ev_Initialized);
               (2, mkEvent None None 0 0 Ev_Initialized);
               (3, mkEvent None None 0 50 Ev_Initialized)].

Lemma holds_empty h : (forall x ev, h !! x = Some ev -> ev_scheduled ev = false) ->
  holds (mkEventQueue None h) [].
Proof.
  intros Hh. split; cbn.
  - exists []. split_and!; [done..|constructor|done].
  - intros x ev Hx. rewrite (Hh x ev Hx). split; [done | by intros ?%elem_of_nil].
Qed.

Lemma demo_empty : holds (mkEventQueue None demo_events) [].
Proof.
  apply holds_empty. intros x ev Hx. unfold demo_events in Hx.
  apply elem_of_list_to_map_2 in Hx.
  repeat (apply elem_of_cons in Hx as [[= -> ->]|Hx]; [reflexivity|]). by apply elem_of_nil in Hx.
Qed.

Lemma eventq_refines_witness : exists q' l1 l2,
  eq_schedule 0 1 5 (mkEventQueue None demo_events) = Ok q' /\ [] = l1 ++ l2 /\
  holds q' (l1 ++ (1, (5, 0)) :: l2).
Proof.
  destruct (eventq_refines (mkEventQueue None demo_events) [] demo_empty) as (_ & Hsch & _).
  destruct (Hsch 0 1 (mkEvent None None 0 0 Ev_Initialized) 5) as (q' & l1 & l2 & H1 & H2 & H3 & _);
    [reflexivity | reflexivity | reflexivity | lia |].
  exists q', l1, l2. split_and!; [exact H1 | exact H2 | exact H3].
Defined.

(** Two events of one tick are serviced last in, first out; a lower priority goes
    first. *)
Example demo_lifo :
  (q ← eq_schedule 0 1 5 (mkEventQueue None demo_events);
   q ← eq_schedule 0 3 5 q; q ← eq_schedule 0 2 5 q;
   a ← eq_pop q; b ← eq_pop a.2; c ← eq_pop b.2; Ok (a.1, b.1, c.1)) = Ok (2, 1, 3).
Proof. vm_compute. reflexivity. Qed.

(** * The self check *)

Section Verify.

Context (h : EvHeap).

Lemma dv_chain top k l : forall p fuel time prio seen,
  chain h k p l -> NoDup l -> (forall x, x ∈ l -> x ∉ seen) -> klt k (time, prio) = false ->
  exists time' prio' seen', (l = [] /\ (time', prio') = (time, prio) \/ (time', prio') = k) /\
    (forall x, x ∈ seen' <-> x ∈ seen \/ x ∈ l) /\
    debugVerify_loop (length l + fuel) top p time prio seen h =
    debugVerify_loop fuel top None time' prio' seen' h.
Proof.
  induction l as [|x l IH]; intros p fuel time prio seen Hc Hnd Hseen Hk.
  { cbn in Hc. subst p. exists time, prio, seen. split_and!; [by left | set_solver | done]. }
  destruct Hc as (-> & ev & Hx & Hkx & Hc). apply NoDup_cons in Hnd as [Hxl Hnd].
  cbn [length Nat.add debugVerify_loop]. rewrite (ev_get_Some _ _ _ Hx), bind_Ok_l.
  pose proof (proj1 (klt_false _ _) Hk) as Hk'. rewrite <- Hkx in Hk'. cbn in Hk'.
  rewrite (proj2 (Z.ltb_ge (ev_when ev) time)) by lia.
  assert ((ev_when ev =? time) && (ev_priority ev <? prio) = false) as ->.
  { apply andb_false_iff. destruct (Z.eqb_spec (ev_when ev) time); [right|by left].
    apply Z.ltb_ge. lia. }
  rewrite bool_decide_false by (apply Hseen; left).
  destruct (IH (ev_nextInBin ev) fuel (ev_when ev) (ev_priority ev) ({[x]} ∪ seen))
    as (t' & p' & s' & Hend & Hs' & Hl); [done|done| | |].
  { intros y Hy. apply not_elem_of_union. split.
    - rewrite elem_of_singleton. by intros ->.
    - apply Hseen. by right. }
  { rewrite <- Hkx. apply klt_false. cbn. lia. }
  exists t', p', s'. split_and!; [|set_solver|done]. right.
  destruct Hend as [[_ E]|E]; [by rewrite E, <- Hkx | done].
Qed.

Lemma dv_bins bs : forall p fuel time prio seen,
  bins h p bs -> bsorted bs -> NoDup (ids bs) -> (forall x, x ∈ ids bs -> x ∉ seen) ->
  (forall b bs', bs = b :: bs' -> klt b.1 (time, prio) = false) ->
  (length (ids bs) + length bs < fuel)%nat ->
  debugVerify_loop fuel p p time prio seen h = Ok true.
Proof.
  induction bs as [|[k l] bs IH]; intros p fuel time prio seen Hb Hs Hnd Hseen Hk Hf.
  { cbn in Hb. subst p. destruct fuel; [cbn in Hf; lia | done]. }
  destruct Hb as (top & rest & ev & -> & -> & Hx & Hkx & Hc & Hb).
  rewrite ids_cons in Hnd, Hseen, Hf. apply NoDup_app in Hnd as (Hnd1 & Hdisj & Hnd2).
  rewrite length_app in Hf. cbn [length] in Hf.
  replace fuel with (length (top :: rest) + (fuel - length (top :: rest)))%nat
    by (cbn [length]; lia).
  destruct (dv_chain (Some top) k (top :: rest) (Some top) (fuel - length (top :: rest))
    time prio seen) as (t' & p' & s' & Hend & Hs' & ->); [|done| | |].
  { split; [done|]. eauto. }
  { intros x Hxin. apply Hseen. apply elem_of_app. by left. }
  { by eapply (Hk (k, top :: rest)). }
  destruct Hend as [[? _]|Hend]; [done|].
  destruct (fuel - length (top :: rest))%nat as [|f] eqn:Ef; [cbn [length] in Ef; lia|].
  cbn [debugVerify_loop]. rewrite (ev_get_Some _ _ _ Hx), bind_Ok_l.
  destruct Hs as [Hall Hs].
  apply IH; [done..| | |].
  - intros x Hxin. rewrite Hs'. intros [Hsn|Hl].
    + apply (Hseen x); [|done]. apply elem_of_app. by right.
    + by apply (Hdisj x).
  - intros b bs' ->. apply Forall_cons in Hall as [Hkb _]. rewrite Hend.
    apply klt_false. apply klt_spec in Hkb. cbn in Hkb. lia.
  - cbn [length] in Ef. lia.
Qed.

End Verify.

(** [debugVerify] accepts every queue, except one: since it starts from tick 0
    and priority 0, it reports a priority inversion when the first event is due at
    tick 0 with a negative priority, though the queue is in order. *)
Theorem debugVerify_exact q l fuel :
  holds q l -> Forall (fun x => 0 <= x.2.1) l -> (2 * length l + 1 < fuel)%nat ->
  debugVerify fuel q =
  Ok match l with (_, (t, p)) :: _ => negb ((t =? 0) && (p <? 0)) | [] => true end.
Proof.
  intros [(bs & Hb & Hs & Hnd & <-) _] Hpos Hf. unfold debugVerify.
  pose proof (bins_fuel _ _ _ Hb Hnd) as [Hlen _].
  assert (Hlo : length (order bs) = length (ids bs)).
  { by rewrite <- order_ids, length_fmap. }
  destruct bs as [|[[t p] l] bs].
  { apply dv_bins with (bs := []); first [done | cbn in *; lia]. }
  pose proof Hb as (top & rest & ev & -> & Hhd & Hx & Hkx & Hc & Hb').
  rewrite order_cons in Hpos |- *. cbn [fst snd fmap list_fmap app] in Hpos |- *.
  apply Forall_cons in Hpos as [Ht _]. cbn in Ht.
  destruct ((t =? 0) && (p <? 0)) eqn:E; cbn [negb].
  - zb. subst t. rewrite Hhd. destruct fuel as [|fuel]; [lia|]. cbn [debugVerify_loop].
    rewrite (ev_get_Some _ _ _ Hx), bind_Ok_l. injection Hkx as -> ->.
    rewrite (proj2 (Z.ltb_ge 0 0)) by lia.
    by rewrite Z.eqb_refl, (proj2 (Z.ltb_lt p 0)) by lia.
  - apply dv_bins with (bs := ((t, p), top :: rest) :: bs); try done; [|lia].
    intros b bs' [= <- <-]. apply klt_false. cbn.
    apply andb_false_iff in E as [E|E]; zb; lia.
Qed.

(** One event at tick 0, of priority -1. *)
Definition demo_early : EventQueue :=
  mkEventQueue (Some 1) {[ 1 := mkEvent None None 0 (-1) (Z.lor Ev_Initialized Ev_Scheduled) ]}.

Lemma demo_early_holds : holds demo_early [(1, (0, -1))].
Proof.
  split.
  - exists [((0, -1), [1])]. split_and!; cbn; try done; [|repeat constructor; set_solver].
    do 3 eexists. by split_and!.
  - intros x ev Hx. cbn [eq_heap demo_early] in Hx.
    apply lookup_singleton_Some in Hx as [<- <-]. split; [intros _; left | done].
Qed.

Lemma debugVerify_exact_witness : debugVerify 8 demo_early = Ok false.
Proof.
  apply (debugVerify_exact demo_early [(1, (0, -1))] 8 demo_early_holds).
  - repeat constructor; cbn; lia.
  - cbn. lia.
Defined.
