(* ===== verification/EventQService.v ===== *)
(** The service loop of the event queue.  What the events do is left open, but for
    a contract: an event's action keeps the queue in order, schedules nothing in
    the past, and makes progress in some measure.  Then [serviceEvents] returns,
    has serviced the events in the order of time, and leaves nothing that is due. *)

From S2P Require Import Prelude Request EventQ EventQSpec EventQRefine.
From Stdlib Require Import Sorted.

(** * One event *)

(** An exit event is never deleted by the queue: [serviceOne] asserts it. *)
Definition exits_kept (h : EvHeap) : Prop := forall x ev, h !! x = Some ev ->
  ev_isExitEvent ev && Flags_isSet (ev_flags ev) Ev_AutoDelete = false.

(** The flags that [exits_kept] looks at. *)
Definition kept_flags (e : Event) : bool * bool :=
  (ev_isExitEvent e, Flags_isSet (ev_flags e) Ev_AutoDelete).

Lemma exits_kept_frame h h' : exits_kept h ->
  (forall x ev', h' !! x = Some ev' -> exists ev, h !! x = Some ev /\ kept_flags ev' = kept_flags ev) ->
  exits_kept h'.
Proof.
  intros Hk Hf x ev' Hx. destruct (Hf x ev' Hx) as (ev & Hev & [= -> ->]). by eapply Hk.
Qed.

Lemma exits_kept_insert h x ev ev' : exits_kept h -> h !! x = Some ev ->
  kept_flags ev' = kept_flags ev -> exits_kept (<[x := ev']> h).
Proof.
  intros Hk Hx Hf. apply (exits_kept_frame h); [done|]. intros y evy Hy.
  apply lookup_insert_Some in Hy as [[<- <-]|[_ Hy]]; eauto.
Qed.

Lemma exit_bit e : ev_isExitEvent e = Z.testbit (ev_flags e) 4.
Proof. apply (land_pow2_testbit (ev_flags e) 4). lia. Qed.
Lemma autodelete_bit e : Flags_isSet (ev_flags e) Ev_AutoDelete = Z.testbit (ev_flags e) 2.
Proof. apply (land_pow2_testbit (ev_flags e) 2). lia. Qed.

(** Setting and clearing other flags. *)
Lemma kept_flags_clear m e : Z.testbit m 4 = false -> Z.testbit m 2 = false ->
  kept_flags (ev_clear m e) = kept_flags e.
Proof.
  intros H4 H2. unfold kept_flags. rewrite !exit_bit, !autodelete_bit.
  unfold ev_clear, Flags_clear. cbn [ev_flags with_ev_flags].
  by rewrite !Z.ldiff_spec, H4, H2, !andb_true_r.
Qed.
Lemma kept_flags_set m e : Z.testbit m 4 = false -> Z.testbit m 2 = false ->
  kept_flags (ev_set m e) = kept_flags e.
Proof.
  intros H4 H2. unfold kept_flags. rewrite !exit_bit, !autodelete_bit.
  unfold ev_set, Flags_set. cbn [ev_flags with_ev_flags].
  by rewrite !Z.lor_spec, H4, H2, !orb_false_r.
Qed.

Lemma scheduled_clear_squashed e : ev_scheduled (ev_clear Ev_Squashed e) = ev_scheduled e.
Proof.
  rewrite !ev_scheduled_bit. unfold ev_clear, Flags_clear. cbn [ev_flags with_ev_flags].
  by rewrite Z.ldiff_spec, andb_true_r.
Qed.

(** The head of the queue is the head of the agenda. *)
Lemma holds_nil q : holds q [] -> eq_head q = None.
Proof.
  intros [(bs & Hb & _ & _ & Ho) _]. destruct bs as [|[k l] bs]; [done|].
  destruct Hb as (t & r & ev & -> & _). by rewrite order_cons in Ho.
Qed.

Lemma holds_head q e k l : holds q ((e, k) :: l) ->
  exists ev, eq_head q = Some e /\ eq_heap q !! e = Some ev /\ ev_key ev = k.
Proof.
  intros [(bs & Hb & _ & _ & Ho) _]. destruct bs as [|[k0 l0] bs]; [done|].
  destruct Hb as (t & r & ev & -> & Hh & Ht & Hk & _). rewrite order_cons in Ho.
  cbn [fst snd fmap list_fmap app] in Ho. injection Ho as <- <- _. eauto.
Qed.

(** Taking the head off touches no flag but its own. *)
Lemma pop_heap q e q' ev : eq_pop q = Ok (e, q') -> eq_heap q !! e = Some ev ->
  exits_kept (eq_heap q) ->
  exits_kept (eq_heap q') /\ exists ev', eq_heap q' !! e = Some ev' /\
    ev_when ev' = ev_when ev /\ ev_flags ev' = ev_flags (ev_clear Ev_Scheduled ev).
Proof.
  intros Hp He Hk. unfold eq_pop in Hp. inv_ok. unfold ev_get in *. inv_ok.
  assert (Hk1 : exits_kept (<[e := ev_clear Ev_Scheduled ev]> (eq_heap q))).
  { eapply exits_kept_insert; [done..|by apply kept_flags_clear]. }
  destruct (ev_nextInBin _) as [n|] eqn:En; inv_ok; simplify_eq; cbn [eq_heap].
  2:{ split; [done|]. eexists. by rewrite lookup_insert_eq. }
  unfold ev_upd, ev_get in *. inv_ok. simplify_eq. cbn [eq_heap]. split.
  - by eapply exits_kept_insert.
  - destruct (decide (n = e)) as [->|Hne].
    + rewrite lookup_insert_eq in *. simplify_eq. eauto.
    + rewrite lookup_insert_ne, lookup_insert_eq by done. eauto.
Qed.

(** An event that is off the queue may be deleted, or lose its squash mark. *)
Lemma holds_delete q l e ev : holds q l -> eq_heap q !! e = Some ev -> ev_scheduled ev = false ->
  holds (mkEventQueue (eq_head q) (delete e (eq_heap q))) l.
Proof.
  intros [(bs & Hb & Hs & Hnd & Ho) Hf] He Hn. split; cbn.
  - exists bs. split_and!; [|done..]. eapply bins_frame; [|done].
    intros x Hx. unfold same_links. rewrite lookup_delete_ne; [done|]. intros ->.
    rewrite <- order_ids, Ho, <- (Hf x ev He) in Hx. congruence.
  - intros x evx Hx. apply lookup_delete_Some in Hx as [_ Hx]. by apply Hf.
Qed.

Lemma holds_unsquash q l e ev : holds q l -> eq_heap q !! e = Some ev ->
  holds (mkEventQueue (eq_head q) (<[e := ev_clear Ev_Squashed ev]> (eq_heap q))) l.
Proof.
  intros [(bs & Hb & Hs & Hnd & Ho) Hf] He. split; cbn.
  - exists bs. split_and!; [|done..]. by apply bins_upd.
  - intros x evx Hx. apply lookup_insert_Some in Hx as [[<- <-]|[_ Hx]]; [|by apply Hf].
    rewrite scheduled_clear_squashed. by apply Hf.
Qed.

(** * The contract of the actions *)

(** [Behaved process when mu]: the action of an event [e] that is due by [when]
    leaves a queue in order; what it schedules is not due before [e]; and [mu]
    decreases, as it does when a squashed event is dropped. *)
Record Behaved (process : Z -> EventQueue -> result EventQueue) (when : Z) (mu : PQ -> nat)
    : Prop := {
  bh_drop : forall x l, x.2.1 <= when -> (mu l < mu (x :: l))%nat;
  bh_step : forall q l e ev, holds q l -> exits_kept (eq_heap q) ->
    eq_heap q !! e = Some ev -> ev_scheduled ev = false -> ev_when ev <= when ->
    exists q' l', process e q = Ok q' /\ holds q' l' /\ exits_kept (eq_heap q') /\
      is_Some (eq_heap q' !! e) /\
      (forall y, y ∈ l' -> y ∈ l \/ ev_when ev <= y.2.1) /\
      forall p, (mu l' < mu ((e, (ev_when ev, p)) :: l))%nat
}.

Section Loop.

Context (process : Z -> EventQueue -> result EventQueue) (when : Z) (mu : PQ -> nat).
Context (Hbh : Behaved process when mu).

(** What the end of [serviceOne] does. *)
Lemma delete_held q l e : holds q l -> exits_kept (eq_heap q) -> is_Some (eq_heap q !! e) ->
  exists q', (ev ← ev_get (eq_heap q) e;
    Ok (None : option Z, if Flags_isSet (ev_flags ev) Ev_AutoDelete && negb (ev_scheduled ev)
              then mkEventQueue (eq_head q) (delete e (eq_heap q)) else q)) = Ok (None, q') /\
    holds q' l /\ exits_kept (eq_heap q').
Proof.
  intros Hq Hk [ev He]. rewrite (ev_get_Some _ _ _ He), bind_Ok_l.
  destruct (_ && _) eqn:E; eexists; (split; [done|]); [|done].
  apply andb_true_iff in E as [_ E%negb_true_iff]. split; [by eapply holds_delete|].
  intros x evx Hx. cbn in Hx. apply lookup_delete_Some in Hx as [_ Hx]. by eapply Hk.
Qed.

(** One round: the first event is serviced, and the agenda is the rest, with what
    the action changed. *)
Lemma serviceOne_held q e t p l :
  holds q ((e, (t, p)) :: l) -> exits_kept (eq_heap q) -> t <= when ->
  exists r q' l', serviceOne process q = Ok (r, q') /\ holds q' l' /\ exits_kept (eq_heap q') /\
    (forall y, y ∈ l' -> y ∈ l \/ t <= y.2.1) /\ (mu l' < mu ((e, (t, p)) :: l))%nat.
Proof.
  intros Hq Hk Ht. destruct (holds_head _ _ _ _ Hq) as (ev & Hhd & He & [= Hw Hp]).
  destruct (pop_held _ _ _ _ Hq) as (q1 & Hpop & Hq1).
  destruct (pop_heap _ _ _ _ Hpop He Hk) as (Hk1 & ev1 & He1 & Hw1 & Hf1).
  assert (Hs1 : ev_scheduled ev1 = false).
  { unfold ev_scheduled. rewrite Hf1. by apply (clear_scheduled_bit ev). }
  unfold serviceOne. rewrite Hpop, bind_Ok_l. cbn [fst snd].
  rewrite (ev_get_Some _ _ _ He1), bind_Ok_l. destruct (ev_squashed ev1); cbn [negb].
  - unfold eq_upd, ev_upd. rewrite (ev_get_Some _ _ _ He1), !bind_Ok_l.
    destruct (delete_held (mkEventQueue (eq_head q1) (<[e := ev_clear Ev_Squashed ev1]> (eq_heap q1)))
      l e) as (q' & -> & Hq' & Hk').
    + by apply holds_unsquash.
    + cbn. eapply exits_kept_insert; [done..|by apply kept_flags_clear].
    + cbn. rewrite lookup_insert_eq. eauto.
    + exists None, q', l. split_and!; [done..|by auto|]. by apply (bh_drop _ _ _ Hbh).
  - destruct (bh_step _ _ _ Hbh q1 l e ev1) as (q2 & l' & -> & Hq2 & Hk2 & Hin & Hy & Hmu);
      [done..|lia|].
    rewrite bind_Ok_l. pose proof Hin as [ev2 He2].
    rewrite (ev_get_Some _ _ _ He2), bind_Ok_l. pose proof (Hk2 _ _ He2) as Hx.
    assert (Hmu' : (mu l' < mu ((e, (t, p)) :: l))%nat) by (rewrite <- Hw, <- Hw1; apply Hmu).
    assert (Hy' : forall y, y ∈ l' -> y ∈ l \/ t <= y.2.1) by (rewrite <- Hw, <- Hw1; apply Hy).
    destruct (ev_isExitEvent ev2); cbn [andb] in Hx.
    + rewrite Hx. cbn [negb cassert mbind result_bind]. exists (Some e), q2, l'. by split_and!.
    + destruct (delete_held q2 l' e Hq2 Hk2 Hin) as (q' & Hd & Hq' & Hk').
      exists None, q', l'. split_and!; [by rewrite (ev_get_Some _ _ _ He2) in Hd|done|done|exact Hy'|exact Hmu'].
Qed.

(** The events that a run of the loop services, with their ticks. *)
Inductive served : EventQueue -> list (Z * Z) -> EventQueue -> Prop :=
  | served_done q : served q [] q
  | served_next q e ev r q1 tr q' :
      eq_head q = Some e -> eq_heap q !! e = Some ev -> serviceOne process q = Ok (r, q1) ->
      served q1 tr q' -> served q ((e, ev_when ev) :: tr) q'.

Lemma serviceEvents_run fuel : forall q l lb,
  holds q l -> exits_kept (eq_heap q) -> (mu l < fuel)%nat ->
  Forall (fun x => lb <= x.2.1) l ->
  exists tr q' l', serviceEvents process fuel when q = Ok q' /\ served q tr q' /\
    holds q' l' /\ StronglySorted (fun a b => a.2 <= b.2) tr /\
    Forall (fun x => lb <= x.2 <= when) tr /\ Forall (fun x => when < x.2.1) l'.
Proof.
  induction fuel as [|fuel IH]; intros q l lb Hq Hk Hmu Hlb; [lia|].
  destruct l as [|[e [t p]] l].
  { exists [], q, []. cbn [serviceEvents]. rewrite (holds_nil _ Hq).
    split_and!; try done; constructor. }
  pose proof (holds_sorted _ _ Hq) as [Hall _]. apply Forall_cons in Hlb as [Hlb0 Hlb].
  destruct (holds_head _ _ _ _ Hq) as (ev & Hhd & He & [= Hw Hp]).
  cbn [serviceEvents]. rewrite Hhd, (ev_get_Some _ _ _ He), bind_Ok_l, Hw.
  assert (Hge : Forall (fun x => t <= x.2.1) l).
  { eapply Forall_impl; [exact Hall|]. intros x. cbn. rewrite klt_false. cbn. lia. }
  destruct (Z.ltb_spec when t) as [Hlt|Hle].
  { exists [], q, ((e, (t, p)) :: l). split_and!; try done; try constructor; [done|].
    eapply Forall_impl; [exact Hge|]. cbn. lia. }
  destruct (serviceOne_held q e t p l Hq Hk Hle) as (r & q1 & l1 & Hso & Hq1 & Hk1 & Hy & Hm).
  rewrite Hso, bind_Ok_l. cbn [fst snd] in *.
  destruct (IH q1 l1 t) as (tr & q' & l' & Hrun & Hsv & Hq' & Hsrt & Hb & Hrest); [done..|lia| |].
  { apply Forall_forall. intros y Hin. destruct (Hy y Hin) as [Hin'|]; [|done].
    rewrite Forall_forall in Hge. by apply Hge. }
  exists ((e, t) :: tr), q', l'. split_and!; try done.
  - rewrite <- Hw. by eapply served_next.
  - constructor; [done|]. eapply Forall_impl; [exact Hb|]. cbn. lia.
  - constructor; [cbn; lia|]. eapply Forall_impl; [exact Hb|]. cbn. lia.
Qed.

End Loop.

(** C27. The simulation loop is causal.  Whatever the events do, as long as their
    actions keep the queue in order, schedule nothing before the event that runs
    and make progress, [serviceEvents(when)] returns without a fault; it has
    serviced events in the order of their ticks, none of them later than [when],
    and every event that is left is due after [when]. *)
Theorem serviceEvents_causal process when mu fuel q l :
  Behaved process when mu -> holds q l -> exits_kept (eq_heap q) -> (mu l < fuel)%nat ->
  exists tr q' l', serviceEvents process fuel when q = Ok q' /\ served process q tr q' /\
    holds q' l' /\ StronglySorted (fun a b => a.2 <= b.2) tr /\
    Forall (fun x => x.2 <= when) tr /\ Forall (fun x => when < x.2.1) l'.
Proof.
  intros Hbh Hq Hk Hf. pose proof (holds_sorted _ _ Hq) as Hs.
  destruct (serviceEvents_run process when mu Hbh fuel q l
    match l with x :: _ => x.2.1 | [] => 0 end Hq Hk Hf)
    as (tr & q' & l' & H1 & H2 & H3 & H4 & H5 & H6).
  { destruct l as [|x l]; constructor; [lia|]. destruct Hs as [Hall _].
    eapply Forall_impl; [exact Hall|]. intros y. rewrite klt_false. lia. }
  exists tr, q', l'. split_and!; try done. eapply Forall_impl; [exact H5|]. cbn. lia.
Qed.

(** ** A clock

    An event that schedules itself again ten ticks later, as a clocked component
    does; its measure counts the rounds that are left. *)

Definition tick_action (e : Z) (q : EventQueue) : result EventQueue :=
  ev ← ev_get (eq_heap q) e;
  if ev_initialized ev then eq_schedule (ev_when ev) e (ev_when ev + 10) q else Ok q.

Definition rounds (when : Z) (x : Z * Key) : nat := Z.to_nat ((when + 10 - x.2.1) / 10).
Definition tick_measure (when : Z) (l : PQ) : nat := sum_list (rounds when <$> l).

Lemma tick_measure_insert when x l : tick_measure when (pq_insert x l) = tick_measure when (x :: l).
Proof.
  unfold tick_measure. induction l as [|y l IH]; [done|]. cbn [pq_insert].
  destruct (klt y.2 x.2); [|done]. cbn in *. rewrite IH. lia.
Qed.

Lemma pq_insert_in x y l : y ∈ pq_insert x l -> y = x \/ y ∈ l.
Proof.
  induction l as [|z l IH]; cbn; [rewrite elem_of_cons; tauto|].
  destruct (klt z.2 x.2); rewrite !elem_of_cons; [|tauto]. intros [->|H]; [tauto|].
  destruct (IH H); tauto.
Qed.

(** Scheduling keeps the flags that matter for deletion. *)
Lemma schedule_heap cur q l e ev when q' : holds q l -> eq_heap q !! e = Some ev ->
  ev_scheduled ev = false -> eq_schedule cur e when q = Ok q' -> exits_kept (eq_heap q) ->
  exits_kept (eq_heap q') /\ is_Some (eq_heap q' !! e).
Proof.
  intros [(bs & Hb & Hs & Hnd & <-) Hfl] He Hsch Hrun Hk. unfold eq_schedule in Hrun. inv_ok.
  assert (Hn : e ∉ (order bs).*1) by (intros Hin; apply (Hfl e ev He) in Hin; congruence).
  rewrite order_ids in Hn. destruct q as [hd h]. cbn [eq_heap eq_head] in *.
  destruct (insert_held h hd bs e ev when Hb Hs Hnd Hn He) as (q1 & Hq1 & _ & Hm).
  apply bind_Ok in Hq1 as (q0 & Hq0 & Hq1).
  rewrite Hx3 in Hq0. injection Hq0 as <-. rewrite Hx4 in Hq1. injection Hq1 as <-.
  assert (Hk1 : exits_kept (eq_heap x4)).
  { apply (exits_kept_frame (<[e := with_ev_when when ev]> h)).
    - by eapply exits_kept_insert.
    - intros z evz Hz. destruct (same_meta_scheduled _ _ _ _ Hm Hz) as (ev1 & Hz1 & _ & _ & Hf).
      exists ev1. split; [done|]. unfold kept_flags, ev_isExitEvent. by rewrite Hf. }
  unfold eq_upd, ev_upd, ev_get in Hrun. inv_ok. simplify_eq. cbn [eq_heap]. split.
  - eapply exits_kept_insert; [done..|]. by rewrite !kept_flags_set.
  - rewrite lookup_insert_eq. eauto.
Qed.

Lemma tick_behaved when : Behaved tick_action when (tick_measure when).
Proof.
  split.
  - intros x l Hx. unfold tick_measure, rounds. cbn.
    assert (1 <= (when + 10 - x.2.1) / 10) by (apply Z.div_le_lower_bound; lia). lia.
  - intros q l e ev Hq Hk He Hs Hle. unfold tick_action.
    rewrite (ev_get_Some _ _ _ He), bind_Ok_l.
    assert (Hr : (1 <= rounds when (e, (ev_when ev, 0%Z)))%nat).
    { unfold rounds. cbn.
      assert (1 <= (when + 10 - ev_when ev) / 10) by (apply Z.div_le_lower_bound; lia). lia. }
    destruct (ev_initialized ev) eqn:Hi.
    2:{ exists q, l. split_and!; try done; [by auto|]. intros p.
        unfold tick_measure, rounds in *. cbn in *. lia. }
    destruct (schedule_held (ev_when ev) q l e ev (ev_when ev + 10)) as (q' & Hq' & Hh);
      [done..|lia|].
    destruct (schedule_heap _ _ _ _ _ _ _ Hq He Hs Hq' Hk) as [Hk' Hin].
    exists q'. eexists. split_and!; [done..| |].
    + intros y Hy. apply pq_insert_in in Hy as [->|Hy]; [right; cbn; lia | by left].
    + intros p. rewrite tick_measure_insert. unfold tick_measure, rounds in *. cbn in *.
      replace ((when + 10 - ev_when ev) / 10) with (1 + (when + 10 - (ev_when ev + 10)) / 10) in *
        by (rewrite <- Z.div_add_l by lia; f_equal; lia).
      destruct (Z.le_gt_cases 0 ((when + 10 - (ev_when ev + 10)) / 10)); lia.
Qed.

(** One clock, first due at tick 5. *)
Definition demo_clock : EventQueue :=
  mkEventQueue (Some 1) {[ 1 := mkEvent None None 5 0 (Z.lor Ev_Initialized Ev_Scheduled) ]}.

Lemma demo_clock_holds : holds demo_clock [(1, (5, 0))] /\ exits_kept (eq_heap demo_clock).
Proof.
  split.
  - split.
    + exists [((5, 0), [1])]. split_and!; cbn; try done; [|repeat constructor; set_solver].
      do 3 eexists. by split_and!.
    + intros x ev Hx. cbn [eq_heap demo_clock] in Hx.
      apply lookup_singleton_Some in Hx as [<- <-]. split; [intros _; left | done].
  - intros x ev Hx. cbn [eq_heap demo_clock] in Hx.
    by apply lookup_singleton_Some in Hx as [<- <-].
Qed.

Lemma serviceEvents_causal_witness : exists tr q' l',
  serviceEvents tick_action 20 100 demo_clock = Ok q' /\ served tick_action demo_clock tr q' /\
  holds q' l' /\ Forall (fun x => 100 < x.2.1) l'.
Proof.
  destruct (serviceEvents_causal tick_action 100 (tick_measure 100) 20 demo_clock [(1, (5, 0))])
    as (tr & q' & l' & H1 & H2 & H3 & _ & _ & H6).
  - apply tick_behaved.
  - apply demo_clock_holds.
  - apply demo_clock_holds.
  - vm_compute. lia.
  - exists tr, q', l'. split_and!; [exact H1 | exact H2 | exact H3 | exact H6].
Defined.
