(* ===== verification/DramTypes.v ===== *)
(** The memory behind the buses: DRAMSim2, under ext/DRAMSim2, with the timing
    protection this repository adds to it.  This file holds the configuration
    (SystemConfiguration.h), commands and transactions (BusPacket.h,
    Transaction.h), the state of a bank (BankState.h) and the map from addresses
    to ranks, banks, rows and columns (AddressMapping.cpp).

    The delays are [unsigned] expressions of the configuration and are reduced
    modulo 2^32.  Clock cycles are [uint64_t] counters that start at 0 and advance
    by one; sums of a cycle and a delay are exact here.  The storage is compiled
    out (NO_STORAGE), so a command carries no data; the return times that the
    fixed-timing controller stamps on commands are left out with it. *)

From S2P Require Import Prelude.

(** * Configuration *)

Inductive RowBufferPolicy := OpenPage | ClosePage.
Inductive QueuingStructure := PerRank | PerRankPerBank | PerRankPerThread.
Inductive SchedulingPolicy := RankThenBankRoundRobin | BankThenRankRoundRobin.
Inductive AddressMappingScheme :=
  | Scheme1 | Scheme2 | Scheme3 | Scheme4 | Scheme5 | Scheme6 | Scheme7 | Scheme8.

#[global] Instance RowBufferPolicy_eq_dec : EqDecision RowBufferPolicy.
Proof. solve_decision. Defined.
#[global] Instance QueuingStructure_eq_dec : EqDecision QueuingStructure.
Proof. solve_decision. Defined.
#[global] Instance SchedulingPolicy_eq_dec : EqDecision SchedulingPolicy.
Proof. solve_decision. Defined.
#[global] Instance AddressMappingScheme_eq_dec : EqDecision AddressMappingScheme.
Proof. solve_decision. Defined.

(** The globals the code reads.  The three refresh values are quotients by the
    clock period [tCK], a [float]: [REFRESH_PERIOD/tCK] (the period of a rank),
    [(int)((REFRESH_PERIOD/tCK)/NUM_RANKS)] (the stagger between ranks) and
    [int(REFRESH_PERIOD/NUM_RANKS/tCK)] (what the turn logic takes for it). *)
Record DramCfg := mkDramCfg {
  NUM_BANKS : Z; NUM_RANKS : Z; NUM_CHANS : Z; NUM_ROWS : Z; NUM_COLS : Z;
  JEDEC_DATA_BUS_BITS : Z;
  CL : Z; AL : Z; BL : Z;
  tRAS : Z; tRCD : Z; tRRD : Z; tRC : Z; tRP : Z; tCCD : Z; tRTP : Z; tWTR : Z; tWR : Z;
  tRTRS : Z; tRFC : Z; tFAW : Z; tCKE : Z; tXP : Z; tCMD : Z;
  TRANS_QUEUE_DEPTH : Z; CMD_QUEUE_DEPTH : Z; TOTAL_ROW_ACCESSES : Z;
  rowBufferPolicy : RowBufferPolicy; schedulingPolicy : SchedulingPolicy;
  addressMappingScheme : AddressMappingScheme; queuingStructure : QueuingStructure;
  USE_LOW_POWER : bool;
  refresh_period : Z; refresh_stagger : Z; anyr_refresh : Z
}.

Section Delays.

Context (c : DramCfg).

Definition RL : Z := u32 (CL c + AL c).
Definition WL : Z := u32 (RL - 1).
Definition READ_TO_PRE_DELAY : Z :=
  u32 (AL c + BL c / 2 + Z.max (tRTP c) (tCCD c) - tCCD c).
Definition WRITE_TO_PRE_DELAY : Z := u32 (WL + BL c / 2 + tWR c).
Definition READ_TO_WRITE_DELAY : Z := u32 (RL + BL c / 2 + tRTRS c - WL).
Definition READ_AUTOPRE_DELAY : Z := u32 (AL c + tRTP c + tRP c).
Definition WRITE_AUTOPRE_DELAY : Z := u32 (WL + BL c / 2 + tWR c + tRP c).
Definition WRITE_TO_READ_DELAY_B : Z := u32 (WL + BL c / 2 + tWTR c).
Definition WRITE_TO_READ_DELAY_R : Z := u32 (WL + BL c / 2 + tRTRS c - RL).
Definition WORST_CASE_DELAY : Z := u32 (WL + BL c / 2 + tWR c + tRP c + tRCD c).
Definition TP_BUFFER_TIME : Z := u32 (WL + BL c / 2 + tWR c + tRP c + tRCD c + tRFC c).
Definition FIX_WORST_CASE_DELAY : Z := u32 (tFAW c - 3 * tRRD c).
Definition FIX_TP_BUFFER_TIME : Z := u32 (tFAW c - 3 * tRRD c + tRFC c).

End Delays.

(** * Commands, transactions and banks *)

Inductive BusPacketType :=
  | READ | READ_P | WRITE | WRITE_P | ACTIVATE | PRECHARGE | REFRESH | DATA.

#[global] Instance BusPacketType_eq_dec : EqDecision BusPacketType.
Proof. solve_decision. Defined.

Record BusPacket := mkBusPacket {
  bp_type : BusPacketType;
  bp_physicalAddress : Z;
  bp_column : Z;
  bp_row : Z;
  bp_rank : Z;
  bp_bank : Z;
  bp_threadID : Z
}.

(** The two constructors; the first, for refreshes and precharges, leaves
    [threadID] unset. *)
Definition BusPacket_new (packtype : BusPacketType) (addr col rw r b pid : Z) : BusPacket :=
  mkBusPacket packtype addr col rw r b pid.

Definition with_bp_type (v : BusPacketType) (p : BusPacket) : BusPacket :=
  mkBusPacket v (bp_physicalAddress p) (bp_column p) (bp_row p) (bp_rank p) (bp_bank p)
    (bp_threadID p).

Inductive TransactionType := DATA_READ | DATA_WRITE | RETURN_DATA.

#[global] Instance TransactionType_eq_dec : EqDecision TransactionType.
Proof. solve_decision. Defined.

Record Transaction := mkTransaction {
  tr_type : TransactionType;
  tr_address : Z;
  tr_threadID : Z;
  tr_timeAdded : Z
}.

(** [Transaction::getBusPacketType]. *)
Definition getBusPacketType (c : DramCfg) (t : Transaction) : result BusPacketType :=
  match tr_type t, rowBufferPolicy c with
  | DATA_READ, ClosePage => Ok READ_P
  | DATA_READ, OpenPage => Ok READ
  | DATA_WRITE, ClosePage => Ok WRITE_P
  | DATA_WRITE, OpenPage => Ok WRITE
  | RETURN_DATA, _ => Err Panic
  end.

Inductive CurrentBankState := Idle | RowActive | Precharging | Refreshing | PowerDown.

#[global] Instance CurrentBankState_eq_dec : EqDecision CurrentBankState.
Proof. solve_decision. Defined.

Record BankState := mkBankState {
  bs_state : CurrentBankState;
  bs_openRow : Z;
  bs_nextRead : Z;
  bs_nextWrite : Z;
  bs_nextActivate : Z;
  bs_nextPrecharge : Z;
  bs_nextPowerUp : Z;
  bs_lastCommand : BusPacketType;
  bs_countdown : Z
}.

Definition BankState_new : BankState := mkBankState Idle 0 0 0 0 0 0 READ 0.

Definition with_bs_state (v : CurrentBankState) (b : BankState) : BankState :=
  mkBankState v (bs_openRow b) (bs_nextRead b) (bs_nextWrite b) (bs_nextActivate b)
    (bs_nextPrecharge b) (bs_nextPowerUp b) (bs_lastCommand b) (bs_countdown b).
Definition with_bs_openRow (v : Z) (b : BankState) : BankState :=
  mkBankState (bs_state b) v (bs_nextRead b) (bs_nextWrite b) (bs_nextActivate b)
    (bs_nextPrecharge b) (bs_nextPowerUp b) (bs_lastCommand b) (bs_countdown b).
Definition with_bs_nextRead (v : Z) (b : BankState) : BankState :=
  mkBankState (bs_state b) (bs_openRow b) v (bs_nextWrite b) (bs_nextActivate b)
    (bs_nextPrecharge b) (bs_nextPowerUp b) (bs_lastCommand b) (bs_countdown b).
Definition with_bs_nextWrite (v : Z) (b : BankState) : BankState :=
  mkBankState (bs_state b) (bs_openRow b) (bs_nextRead b) v (bs_nextActivate b)
    (bs_nextPrecharge b) (bs_nextPowerUp b) (bs_lastCommand b) (bs_countdown b).
Definition with_bs_nextActivate (v : Z) (b : BankState) : BankState :=
  mkBankState (bs_state b) (bs_openRow b) (bs_nextRead b) (bs_nextWrite b) v
    (bs_nextPrecharge b) (bs_nextPowerUp b) (bs_lastCommand b) (bs_countdown b).
Definition with_bs_nextPrecharge (v : Z) (b : BankState) : BankState :=
  mkBankState (bs_state b) (bs_openRow b) (bs_nextRead b) (bs_nextWrite b) (bs_nextActivate b)
    v (bs_nextPowerUp b) (bs_lastCommand b) (bs_countdown b).
Definition with_bs_nextPowerUp (v : Z) (b : BankState) : BankState :=
  mkBankState (bs_state b) (bs_openRow b) (bs_nextRead b) (bs_nextWrite b) (bs_nextActivate b)
    (bs_nextPrecharge b) v (bs_lastCommand b) (bs_countdown b).
Definition with_bs_lastCommand (v : BusPacketType) (b : BankState) : BankState :=
  mkBankState (bs_state b) (bs_openRow b) (bs_nextRead b) (bs_nextWrite b) (bs_nextActivate b)
    (bs_nextPrecharge b) (bs_nextPowerUp b) v (bs_countdown b).
Definition with_bs_countdown (v : Z) (b : BankState) : BankState :=
  mkBankState (bs_state b) (bs_openRow b) (bs_nextRead b) (bs_nextWrite b) (bs_nextActivate b)
    (bs_nextPrecharge b) (bs_nextPowerUp b) (bs_lastCommand b) v.

(** * Address mapping *)

(** [dramsim_log2]: the number of bits that index [value] things. *)
Fixpoint log2_loop (fuel : nat) (value logbase2 : Z) : Z :=
  match fuel with
  | O => logbase2
  | S fuel' => if 0 <? value then log2_loop fuel' (Z.shiftr value 1) (logbase2 + 1) else logbase2
  end.

Definition dramsim_log2 (value : Z) : Z :=
  let logbase2 := log2_loop 32 (Z.shiftr value 1) 0 in
  if Z.shiftl 1 logbase2 <? value then logbase2 + 1 else logbase2.

(** The step all schemes repeat: the low [width] bits of the address, which are
    then shifted off. *)
Definition take_field (width physicalAddress : Z) : Z * Z :=
  let tempA := physicalAddress in
  let physicalAddress := Z.shiftr physicalAddress width in
  let tempB := Z.shiftl physicalAddress width in
  (u32 (Z.lxor tempA tempB), physicalAddress).

Record DramAddr := mkDramAddr {
  da_chan : Z; da_rank : Z; da_bank : Z; da_row : Z; da_column : Z
}.

Section Mapping.

Context (c : DramCfg).

Definition transactionSize : Z := u32 (JEDEC_DATA_BUS_BITS c / 8 * BL c).
Definition channelBitWidth : Z := dramsim_log2 (NUM_CHANS c).
Definition rankBitWidth : Z := dramsim_log2 (NUM_RANKS c).
Definition bankBitWidth : Z := dramsim_log2 (NUM_BANKS c).
Definition rowBitWidth : Z := dramsim_log2 (NUM_ROWS c).
Definition colBitWidth : Z := dramsim_log2 (NUM_COLS c).
Definition byteOffsetWidth : Z := dramsim_log2 (JEDEC_DATA_BUS_BITS c / 8).
Definition colLowBitWidth : Z := u32 (dramsim_log2 transactionSize - byteOffsetWidth).
Definition colHighBitWidth : Z := u32 (colBitWidth - colLowBitWidth).

Definition addressMapping (physicalAddress : Z) : DramAddr :=
  let a := Z.shiftr physicalAddress byteOffsetWidth in
  let a := Z.shiftr a colLowBitWidth in
  match addressMappingScheme c with
  | Scheme1 =>
      let '(bank, a) := take_field bankBitWidth a in
      let '(col, a) := take_field colHighBitWidth a in
      let '(row, a) := take_field rowBitWidth a in
      let '(rank, a) := take_field rankBitWidth a in
      let '(chan, _) := take_field channelBitWidth a in
      mkDramAddr chan rank bank row col
  | Scheme2 =>
      let '(rank, a) := take_field rankBitWidth a in
      let '(bank, a) := take_field bankBitWidth a in
      let '(col, a) := take_field colHighBitWidth a in
      let '(row, a) := take_field rowBitWidth a in
      let '(chan, _) := take_field channelBitWidth a in
      mkDramAddr chan rank bank row col
  | Scheme8 =>
      let '(rank, a) := take_field rankBitWidth a in
      let '(bank, a) := take_field (u32 (bankBitWidth - 1)) a in
      let bank :=
        if Z.shiftr 0x20000000
             (colLowBitWidth + byteOffsetWidth + rankBitWidth + bankBitWidth - 1) <? a
        then u32 (bank + Z.shiftl 1 (bankBitWidth - 1)) else bank in
      let '(col, a) := take_field colHighBitWidth a in
      let '(row, a) := take_field rowBitWidth a in
      let '(chan, _) := take_field channelBitWidth a in
      mkDramAddr chan rank bank row col
  | Scheme3 =>
      let '(row, a) := take_field rowBitWidth a in
      let '(col, a) := take_field colHighBitWidth a in
      let '(bank, a) := take_field bankBitWidth a in
      let '(rank, a) := take_field rankBitWidth a in
      let '(chan, _) := take_field channelBitWidth a in
      mkDramAddr chan rank bank row col
  | Scheme4 =>
      let '(col, a) := take_field colHighBitWidth a in
      let '(row, a) := take_field rowBitWidth a in
      let '(bank, a) := take_field bankBitWidth a in
      let '(rank, a) := take_field rankBitWidth a in
      let '(chan, _) := take_field channelBitWidth a in
      mkDramAddr chan rank bank row col
  | Scheme5 =>
      let '(bank, a) := take_field bankBitWidth a in
      let '(rank, a) := take_field rankBitWidth a in
      let '(col, a) := take_field colHighBitWidth a in
      let '(row, a) := take_field rowBitWidth a in
      let '(chan, _) := take_field channelBitWidth a in
      mkDramAddr chan rank bank row col
  | Scheme6 =>
      let '(col, a) := take_field colHighBitWidth a in
      let '(rank, a) := take_field rankBitWidth a in
      let '(bank, a) := take_field bankBitWidth a in
      let '(row, a) := take_field rowBitWidth a in
      let '(chan, _) := take_field channelBitWidth a in
      mkDramAddr chan rank bank row col
  | Scheme7 =>
      let '(chan, a) := take_field channelBitWidth a in
      let '(bank, a) := take_field bankBitWidth a in
      let '(rank, a) := take_field rankBitWidth a in
      let '(col, a) := take_field colHighBitWidth a in
      let '(row, _) := take_field rowBitWidth a in
      mkDramAddr chan rank bank row col
  end.

End Mapping.

(** * An example *)

(** DDR3_micron_32M_8B_x8_sg15.ini with system_tp.ini and two ranks. *)
Definition ddr3 : DramCfg :=
  mkDramCfg 8 2 1 32768 1024 64 10 0 8 24 10 4 34 10 4 5 5 10 1 107 20 4 4 1
    1000 32 4 ClosePage RankThenBankRoundRobin Scheme2 PerRankPerThread false 5200 2600 2600.
