(* ===== verification/DramQueue.v ===== *)
(** The command queues of the memory controller: CommandQueue.cpp and its
    subclasses CommandQueueTP.cpp, CommandQueueTPD.cpp and CommandQueueFA.cpp,
    which give each thread a queue of its own and turns in which its commands may
    be issued.  A queue reads the bank states of the controller by reference;
    they are an argument here.  The virtual methods dispatch on [q_kind]. *)

From S2P Require Import Prelude DramTypes.

(** * State *)

Inductive QKind := Q_Base | Q_TP | Q_TPD | Q_FA.

#[global] Instance QKind_eq_dec : EqDecision QKind.
Proof. solve_decision. Defined.

(** What the constructor fixes: the class, the number of threads, and the turns
    ([tpTurnLength] is the logarithm of a turn, unless [diffPeriod]). *)
Record QCfg := mkQCfg {
  q_kind : QKind;
  q_num_pids : Z;
  q_tpTurnLength : Z;
  q_diffPeriod : bool;
  q_p0Period : Z;
  q_p1Period : Z;
  q_offset : Z
}.

Record CommandQueue := mkCommandQueue {
  cq_clock : Z;
  cq_queues : list (list (list BusPacket));
  cq_nextBank : Z;
  cq_nextRank : Z;
  cq_nextBankPRE : Z;
  cq_nextRankPRE : Z;
  cq_refreshRank : Z;
  cq_refreshWaiting : bool;
  cq_tFAW : list (list Z);
  cq_rowAccess : list (list Z);
  cq_sendAct : bool;
  cq_lastPID : Z;
  cq_lastPID1 : Z
}.

Definition with_cq_clock (v : Z) (q : CommandQueue) : CommandQueue :=
  mkCommandQueue v (cq_queues q) (cq_nextBank q) (cq_nextRank q) (cq_nextBankPRE q)
    (cq_nextRankPRE q) (cq_refreshRank q) (cq_refreshWaiting q) (cq_tFAW q) (cq_rowAccess q)
    (cq_sendAct q) (cq_lastPID q) (cq_lastPID1 q).
Definition with_cq_queues (v : list (list (list BusPacket))) (q : CommandQueue) : CommandQueue :=
  mkCommandQueue (cq_clock q) v (cq_nextBank q) (cq_nextRank q) (cq_nextBankPRE q)
    (cq_nextRankPRE q) (cq_refreshRank q) (cq_refreshWaiting q) (cq_tFAW q) (cq_rowAccess q)
    (cq_sendAct q) (cq_lastPID q) (cq_lastPID1 q).
Definition with_cq_next (rank bank : Z) (q : CommandQueue) : CommandQueue :=
  mkCommandQueue (cq_clock q) (cq_queues q) bank rank (cq_nextBankPRE q)
    (cq_nextRankPRE q) (cq_refreshRank q) (cq_refreshWaiting q) (cq_tFAW q) (cq_rowAccess q)
    (cq_sendAct q) (cq_lastPID q) (cq_lastPID1 q).
Definition with_cq_nextPRE (rank bank : Z) (q : CommandQueue) : CommandQueue :=
  mkCommandQueue (cq_clock q) (cq_queues q) (cq_nextBank q) (cq_nextRank q) bank
    rank (cq_refreshRank q) (cq_refreshWaiting q) (cq_tFAW q) (cq_rowAccess q)
    (cq_sendAct q) (cq_lastPID q) (cq_lastPID1 q).
Definition with_cq_refresh (rank : Z) (waiting : bool) (q : CommandQueue) : CommandQueue :=
  mkCommandQueue (cq_clock q) (cq_queues q) (cq_nextBank q) (cq_nextRank q) (cq_nextBankPRE q)
    (cq_nextRankPRE q) rank waiting (cq_tFAW q) (cq_rowAccess q)
    (cq_sendAct q) (cq_lastPID q) (cq_lastPID1 q).
Definition with_cq_tFAW (v : list (list Z)) (q : CommandQueue) : CommandQueue :=
  mkCommandQueue (cq_clock q) (cq_queues q) (cq_nextBank q) (cq_nextRank q) (cq_nextBankPRE q)
    (cq_nextRankPRE q) (cq_refreshRank q) (cq_refreshWaiting q) v (cq_rowAccess q)
    (cq_sendAct q) (cq_lastPID q) (cq_lastPID1 q).
Definition with_cq_rowAccess (v : list (list Z)) (q : CommandQueue) : CommandQueue :=
  mkCommandQueue (cq_clock q) (cq_queues q) (cq_nextBank q) (cq_nextRank q) (cq_nextBankPRE q)
    (cq_nextRankPRE q) (cq_refreshRank q) (cq_refreshWaiting q) (cq_tFAW q) v
    (cq_sendAct q) (cq_lastPID q) (cq_lastPID1 q).
Definition with_cq_sendAct (v : bool) (q : CommandQueue) : CommandQueue :=
  mkCommandQueue (cq_clock q) (cq_queues q) (cq_nextBank q) (cq_nextRank q) (cq_nextBankPRE q)
    (cq_nextRankPRE q) (cq_refreshRank q) (cq_refreshWaiting q) (cq_tFAW q) (cq_rowAccess q)
    v (cq_lastPID q) (cq_lastPID1 q).
Definition with_cq_lastPID (v v1 : Z) (q : CommandQueue) : CommandQueue :=
  mkCommandQueue (cq_clock q) (cq_queues q) (cq_nextBank q) (cq_nextRank q) (cq_nextBankPRE q)
    (cq_nextRankPRE q) (cq_refreshRank q) (cq_refreshWaiting q) (cq_tFAW q) (cq_rowAccess q)
    (cq_sendAct q) v v1.

(** The bank states: a row per rank. *)
Abbreviation BankTable := (list (list BankState)).

Definition bank_at (bs : BankTable) (rank bank : Z) : result BankState :=
  row ← arr_get bs rank; arr_get row bank.

Section Queue.

Context (c : DramCfg) (qc : QCfg).

(** The constructor.  The vector of queues that is copied for a rank is not emptied
    before the next rank, so rank [r] gets [r+1] times as many queues as it uses.
    [lastPID] of the turn-based queues is not initialised. *)
Definition numBankQueues : Z :=
  match queuingStructure c with
  | PerRank => 1
  | PerRankPerBank => NUM_BANKS c
  | PerRankPerThread => q_num_pids qc
  end.

Definition CommandQueue_new (lastPID : Z) : CommandQueue :=
  mkCommandQueue 0
    ((fun r => replicate (Z.to_nat ((r + 1) * numBankQueues)) []) <$> zrange (NUM_RANKS c))
    0 0 0 0 0 false (replicate (Z.to_nat (NUM_RANKS c)) [])
    (replicate (Z.to_nat (NUM_RANKS c)) (replicate (Z.to_nat (NUM_BANKS c)) 0)) true
    (if bool_decide (q_kind qc = Q_FA) then 0 else lastPID) 0.

Definition queue_at (q : CommandQueue) (rank k : Z) : result (list BusPacket) :=
  row ← arr_get (cq_queues q) rank; arr_get row k.
Definition set_bankQueue (rank k : Z) (l : list BusPacket) (q : CommandQueue)
    : result CommandQueue :=
  row ← arr_get (cq_queues q) rank;
  row ← arr_set row k l;
  qs ← arr_set (cq_queues q) rank row;
  Ok (with_cq_queues qs q).

(** Which queue of a rank [getCommandQueue(rank, k)] refers to. *)
Definition queue_index (k : Z) : result Z :=
  match q_kind qc with
  | Q_Base => match queuingStructure c with
              | PerRankPerBank => Ok k
              | PerRank => Ok 0
              | PerRankPerThread => Err Panic
              end
  | _ => Ok k
  end.

Definition getCommandQueue (q : CommandQueue) (rank k : Z) : result (list BusPacket) :=
  i ← queue_index k; queue_at q rank i.
Definition setCommandQueue (rank k : Z) (l : list BusPacket) (q : CommandQueue)
    : result CommandQueue :=
  i ← queue_index k; set_bankQueue rank i l q.

(** [enqueue]: by bank, or by thread in the subclasses. *)
Definition enqueue (p : BusPacket) (q : CommandQueue) : result CommandQueue :=
  i ← match q_kind qc, queuingStructure c with
      | Q_Base, PerRank => Ok 0
      | Q_Base, PerRankPerBank => Ok (bp_bank p)
      | Q_Base, PerRankPerThread => Err Fatal
      | _, _ => Ok (bp_threadID p)
      end;
  l ← queue_at q (bp_rank p) i;
  if CMD_QUEUE_DEPTH c <? Z.of_nat (length (l ++ [p])) then Err Fatal else
  set_bankQueue (bp_rank p) i (l ++ [p]) q.

Definition hasRoomFor (numberToEnqueue rank bank pid : Z) (q : CommandQueue) : result bool :=
  l ← getCommandQueue q rank (if bool_decide (q_kind qc = Q_Base) then bank else pid);
  Ok (numberToEnqueue <=? u64 (CMD_QUEUE_DEPTH c - Z.of_nat (length l))).

(** All queues of a rank, as far as the class uses them. *)
Fixpoint all_empty (q : CommandQueue) (rank : Z) (ks : list Z) : result bool :=
  match ks with
  | [] => Ok true
  | k :: ks' => l ← queue_at q rank k; if bool_decide (l = []) then all_empty q rank ks' else Ok false
  end.

Definition isEmpty (rank : Z) (q : CommandQueue) : result bool :=
  match q_kind qc, queuingStructure c with
  | Q_Base, PerRank => all_empty q rank [0]
  | Q_Base, PerRankPerBank => all_empty q rank (zrange (NUM_BANKS c))
  | Q_Base, PerRankPerThread => Err Panic
  | _, _ => all_empty q rank (zrange (q_num_pids qc))
  end.

Definition needRefresh (rank : Z) (q : CommandQueue) : CommandQueue :=
  with_cq_refresh rank true q.

Definition nextRankAndBank (pos : Z * Z) : Z * Z :=
  let '(rank, bank) := pos in
  match schedulingPolicy c with
  | RankThenBankRoundRobin =>
      let rank := u32 (rank + 1) in
      if rank =? NUM_RANKS c then
        let bank := u32 (bank + 1) in (0, if bank =? NUM_BANKS c then 0 else bank)
      else (rank, bank)
  | BankThenRankRoundRobin =>
      let bank := u32 (bank + 1) in
      if bank =? NUM_BANKS c then
        let rank := u32 (rank + 1) in (if rank =? NUM_RANKS c then 0 else rank, 0)
      else (rank, bank)
  end.

(** [isIssuable]. *)
Definition isIssuable (bs : BankTable) (q : CommandQueue) (p : BusPacket) : result bool :=
  b ← bank_at bs (bp_rank p) (bp_bank p);
  match bp_type p with
  | REFRESH => Ok false
  | ACTIVATE =>
      if (bool_decide (bs_state b = Idle) || bool_decide (bs_state b = Refreshing))
         && (bs_nextActivate b <=? cq_clock q)
      then w ← arr_get (cq_tFAW q) (bp_rank p); Ok (Z.of_nat (length w) <? 4)
      else Ok false
  | WRITE | WRITE_P =>
      if bool_decide (bs_state b = RowActive) && (bs_nextWrite b <=? cq_clock q)
         && (bp_row p =? bs_openRow b)
      then row ← arr_get (cq_rowAccess q) (bp_rank p); n ← arr_get row (bp_bank p);
           Ok (n <? TOTAL_ROW_ACCESSES c)
      else Ok false
  | READ_P | READ =>
      if bool_decide (bs_state b = RowActive) && (bs_nextRead b <=? cq_clock q)
         && (bp_row p =? bs_openRow b)
      then row ← arr_get (cq_rowAccess q) (bp_rank p); n ← arr_get row (bp_bank p);
           Ok (n <? TOTAL_ROW_ACCESSES c)
      else Ok false
  | PRECHARGE =>
      Ok (bool_decide (bs_state b = RowActive) && (bs_nextPrecharge b <=? cq_clock q))
  | DATA => Err Fatal
  end.

(** * Turns *)

(** [_currentClockCycle], an [int]. *)
Definition turn_clock (q : CommandQueue) : Z := i32 (cq_clock q - q_offset qc).

Definition getCurrentPID (q : CommandQueue) : result Z :=
  let cur := turn_clock q in
  let n := q_num_pids qc in
  let p0 := q_p0Period qc in
  let p1 := q_p1Period qc in
  if q_diffPeriod qc then
    if n =? 2 then Ok (u32 (Z.quot (Z.rem cur (p0 + p1)) p0)) else
    if n =? 3 then
      let remainder := u64 (Z.rem cur (p0 + 2 * p1)) in
      Ok (if remainder <? u64 p0 then 0 else if remainder <? u64 (p0 + p1) then 1 else 2)
    else if n =? 4 then
      let remainder := u64 (Z.rem cur (p0 + 3 * p1)) in
      Ok (if remainder <? u64 p0 then 0 else if remainder <? u64 (p0 + p1) then 1
          else if remainder <? u64 (p0 + 2 * p1) then 2 else 3)
    else Err Panic
  else Ok (u32 (Z.rem (Z.shiftr cur (q_tpTurnLength qc)) n)).

(** The two dead times; the constants are [unsigned], so a turn shorter than they
    are wraps around. *)
Definition normal_deadtime (tlength : Z) : Z :=
  match q_kind qc with
  | Q_TPD => i32 (WORST_CASE_DELAY c)
  | Q_FA => i32 (tlength - u32 (tlength - FIX_WORST_CASE_DELAY c) / 10)
  | _ => i32 (tlength - u32 (tlength - WORST_CASE_DELAY c) / 10)
  end.
Definition refresh_deadtime (tlength : Z) : Z :=
  match q_kind qc with
  | Q_TPD => i32 (TP_BUFFER_TIME c)
  | Q_FA => i32 (tlength - u32 (tlength - FIX_TP_BUFFER_TIME c) / 10)
  | _ => i32 (tlength - u32 (tlength - TP_BUFFER_TIME c) / 10)
  end.

Definition isBufferTime (q : CommandQueue) : result bool :=
  let cur := turn_clock q in
  let n := q_num_pids qc in
  let p0 := q_p0Period qc in
  let p1 := q_p1Period qc in
  pid ← (if q_diffPeriod qc then getCurrentPID q else Ok 0);
  let tlength := if q_diffPeriod qc then u32 (if pid =? 0 then p0 else p1)
                 else u32 (Z.shiftl 1 (q_tpTurnLength qc)) in
  let turnBegin :=
    if q_diffPeriod qc then
      if pid =? 0 then u64 (cur - Z.rem cur (p0 + (n - 1) * p1))
      else u32 (cur - (Z.rem cur (p0 + (n - 1) * p1) - (p0 + (pid - 1) * p1)))
    else u64 (Z.land cur (Z.shiftl (-1) (q_tpTurnLength qc))) in
  let _turnBegin := u64 (turnBegin + q_offset qc) in
  let dead_time :=
    u64 (if i32 (_turnBegin / u64 (anyr_refresh c)) <?
            i32 (u64 (_turnBegin + tlength - 1) / u64 (anyr_refresh c))
         then refresh_deadtime (i32 tlength) else normal_deadtime (i32 tlength)) in
  if q_diffPeriod qc then Ok (u64 (tlength - (cur - turnBegin)) <=? dead_time)
  else Ok (u32 (tlength - Z.land (u32 cur) (u32 (tlength - 1))) <=? dead_time).

(** * Choosing a command *)

(** [i > 0 && queue[i-1] is the activate of queue[i]]. *)
Definition paired (prev : option BusPacket) (p : BusPacket) : bool :=
  match prev with
  | Some a => bool_decide (bp_type a = ACTIVATE)
              && (bp_physicalAddress a =? bp_physicalAddress p)
  | None => false
  end.

(** The search from the beginning of a queue for the first command that passes a
    test, which may look at the command before it; the command and the rest. *)
Fixpoint scan (ok : option BusPacket -> BusPacket -> result bool) (prev : option BusPacket)
    (l : list BusPacket) : result (option (BusPacket * list BusPacket)) :=
  match l with
  | [] => Ok None
  | p :: l' =>
      b ← ok prev p;
      if (b : bool) then Ok (Some (p, l')) else
      r ← scan ok (Some p) l';
      Ok match r with Some (x, rest) => Some (x, p :: rest) | None => None end
  end.

(** What [normalPopClosePage] of each class accepts.  [activating] of
    [CommandQueueTPD] is set only on the way out of the loops, so it is false where
    it is tested. *)
Definition base_eligible (bs : BankTable) (q : CommandQueue) (prev : option BusPacket)
    (p : BusPacket) : result bool :=
  i ← isIssuable bs q p; Ok (i && negb (paired prev p)).

Definition tp_eligible (bs : BankTable) (q : CommandQueue) (prev : option BusPacket)
    (p : BusPacket) : result bool :=
  i ← isIssuable bs q p;
  if negb i then Ok false else
  d ← isBufferTime q;
  Ok (negb (d && bool_decide (bp_type p = ACTIVATE)) && negb (paired prev p)).

Definition tpd_eligible (bs : BankTable) (q : CommandQueue) (prev : option BusPacket)
    (p : BusPacket) : result bool :=
  let activating := false in
  e ← tp_eligible bs q prev p;
  Ok (e && negb (bool_decide (bp_type p = ACTIVATE) && activating)).

Definition fa_eligible_last (bs : BankTable) (q : CommandQueue) (prev : option BusPacket)
    (p : BusPacket) : result bool :=
  i ← isIssuable bs q p; Ok (i && negb (bool_decide (bp_type p = ACTIVATE))).

Definition fa_eligible (bs : BankTable) (q : CommandQueue) (prev : option BusPacket)
    (p : BusPacket) : result bool :=
  i ← isIssuable bs q p;
  if negb i then Ok false else
  d ← isBufferTime q;
  Ok (negb (d && bool_decide (bp_type p = ACTIVATE))).

(** Searching one queue, and taking the command out of it. *)
Definition take_from (ok : option BusPacket -> BusPacket -> result bool) (rank k : Z)
    (q : CommandQueue) : result (option (BusPacket * CommandQueue)) :=
  l ← getCommandQueue q rank k;
  r ← scan ok None l;
  match r with
  | None => Ok None
  | Some (p, l') => q' ← setCommandQueue rank k l' q; Ok (Some (p, q'))
  end.

(** A rank that waits for its refresh is left alone. *)
Definition rank_waits (q : CommandQueue) (rank : Z) : bool :=
  (rank =? cq_refreshRank q) && cq_refreshWaiting q.

(** The body of the loop of [normalPopClosePage] at a rank and bank. *)
Definition try_pos (bs : BankTable) (pid : Z) (pos : Z * Z) (q : CommandQueue)
    : result (option (BusPacket * CommandQueue)) :=
  let '(rank, bank) := pos in
  match q_kind qc with
  | Q_Base =>
      if rank_waits q rank then Ok None else
      match queuingStructure c with
      | PerRank => take_from (base_eligible bs q) rank bank q
      | _ =>
          l ← getCommandQueue q rank bank;
          match l with
          | [] => Ok None
          | p :: l' =>
              i ← isIssuable bs q p;
              if (i : bool) then q' ← setCommandQueue rank bank l' q; Ok (Some (p, q'))
              else Ok None
          end
      end
  | Q_TP =>
      if rank_waits q rank then Ok None else take_from (tp_eligible bs q) rank pid q
  | Q_TPD =>
      if rank_waits q rank then Ok None else take_from (tpd_eligible bs q) rank pid q
  | Q_FA =>
      if rank_waits q rank then Ok None else
      r ← take_from (fa_eligible_last bs q) rank (cq_lastPID1 q) q;
      match r with
      | Some x => Ok (Some x)
      | None => take_from (fa_eligible bs q) rank pid q
      end
  end.

(** The rank and bank after a position, and whether the search is back where it
    started. *)
Definition advance (pos : Z * Z) : Z * Z :=
  match q_kind qc, queuingStructure c with
  | Q_Base, PerRank => ((pos.1 + 1) mod NUM_RANKS c, pos.2)
  | _, _ => nextRankAndBank pos
  end.
Definition back_at (start pos : Z * Z) : bool :=
  match q_kind qc, queuingStructure c with
  | Q_Base, PerRank => start.1 =? pos.1
  | _, _ => (start.1 =? pos.1) && (start.2 =? pos.2)
  end.

Fixpoint search (fuel : nat) (bs : BankTable) (pid : Z) (start : Z * Z) (q : CommandQueue)
    : result (option (BusPacket * CommandQueue) * CommandQueue) :=
  match fuel with
  | O => Err OutOfFuel
  | S fuel' =>
      let pos := (cq_nextRank q, cq_nextBank q) in
      r ← try_pos bs pid pos q;
      match r with
      | Some x => Ok (Some x, q)
      | None =>
          let pos' := advance pos in
          let q := with_cq_next pos'.1 pos'.2 q in
          if back_at start pos' then Ok (None, q) else search fuel' bs pid start q
      end
  end.

Definition search_fuel : nat := Z.to_nat (NUM_RANKS c * NUM_BANKS c).

(** [normalPopClosePage]: the turn-based classes start over when the turn has
    changed; [CommandQueueFA] also remembers whose turn it was. *)
Definition normalPopClosePage (bs : BankTable) (q : CommandQueue)
    : result (option BusPacket * CommandQueue) :=
  pid ← (if bool_decide (q_kind qc = Q_Base) then Ok 0 else getCurrentPID q);
  let q :=
    if bool_decide (q_kind qc = Q_Base) then q else
    let turn_changed := negb (cq_lastPID q =? pid) in
    let q := if turn_changed then with_cq_next 0 0 q else q in
    with_cq_lastPID pid
      (if turn_changed && bool_decide (q_kind qc = Q_FA) then cq_lastPID q else cq_lastPID1 q) q in
  r ← search search_fuel bs pid (cq_nextRank q, cq_nextBank q) q;
  match r with
  | (Some (p, q'), _) => Ok (Some p, q')
  | (None, q') => Ok (None, q')
  end.

(** ** Refreshes *)

(** The first command for the open row of bank [b]: it is sent if it is not an
    activate and can be issued. *)
Fixpoint open_row_command (bs : BankTable) (q : CommandQueue) (b row : Z) (l : list BusPacket)
    : result (option (BusPacket * list BusPacket)) :=
  match l with
  | [] => Ok None
  | p :: l' =>
      if (bp_row p =? row) && (bp_bank p =? b) then
        if bool_decide (bp_type p = ACTIVATE) then Ok None else
        i ← isIssuable bs q p;
        Ok (if (i : bool) then Some (p, l') else None)
      else
        r ← open_row_command bs q b row l';
        Ok match r with Some (x, rest) => Some (x, p :: rest) | None => None end
  end.

(** The loop over the banks of [refreshPopClosePage]: the refresh may go, or a bank
    stands in its way, perhaps with a command that lets it close. *)
Inductive RefreshScan := AllClosed | NotYet (sent : option (BusPacket * CommandQueue)).

Fixpoint refresh_scan (bs : BankTable) (pid : Z) (banks : list Z) (q : CommandQueue)
    : result RefreshScan :=
  match banks with
  | [] => Ok AllClosed
  | b :: banks' =>
      let k := if bool_decide (q_kind qc = Q_Base) then b else pid in
      l ← getCommandQueue q (cq_refreshRank q) k;
      st ← bank_at bs (cq_refreshRank q) b;
      if bool_decide (bs_state st = RowActive) then
        r ← open_row_command bs q b (bs_openRow st) l;
        match r with
        | None => Ok (NotYet None)
        | Some (p, l') =>
            q' ← setCommandQueue (cq_refreshRank q) k l' q; Ok (NotYet (Some (p, q')))
        end
      else if cq_clock q <? bs_nextActivate st then Ok (NotYet None)
      else refresh_scan bs pid banks' q
  end.

(** [refreshPopClosePage]: the command it sends, if any. *)
Definition refreshPopClosePage (bs : BankTable) (q : CommandQueue)
    : result (option BusPacket * CommandQueue) :=
  pid ← (if bool_decide (q_kind qc = Q_Base) then Ok 0 else getCurrentPID q);
  r ← refresh_scan bs pid (zrange (NUM_BANKS c)) q;
  match r with
  | NotYet None => Ok (None, q)
  | NotYet (Some (p, q')) => Ok (Some p, q')
  | AllClosed =>
      st ← bank_at bs (cq_refreshRank q) 0;
      if bool_decide (bs_state st = PowerDown) then Ok (None, q) else
      Ok (Some (BusPacket_new REFRESH 0 0 0 (cq_refreshRank q) 0 0),
          with_cq_refresh (2 ^ 32 - 1) false q)
  end.

(** * [pop] with closed pages *)

(** The window of four activates: every counter of a rank counts down, and the
    oldest leaves at zero. *)
Definition tick_tFAW (w : list Z) : list Z :=
  let w := (fun x => u32 (x - 1)) <$> w in
  match w with
  | 0 :: w' => w'
  | _ => w
  end.

(** The end of [pop]: [sendAct] for posted column accesses, the next position, and
    a new counter for an activate. *)
Definition pop_finish (p : BusPacket) (q : CommandQueue) : result CommandQueue :=
  let q :=
    if (0 <? AL c) && cq_sendAct q then with_cq_sendAct false q
    else let pos := nextRankAndBank (cq_nextRank q, cq_nextBank q) in
         with_cq_next pos.1 pos.2 (with_cq_sendAct true q) in
  if bool_decide (bp_type p = ACTIVATE) then
    w ← arr_get (cq_tFAW q) (bp_rank p);
    v ← arr_set (cq_tFAW q) (bp_rank p) (w ++ [tFAW c]);
    Ok (with_cq_tFAW v q)
  else Ok q.

Definition pop_close (bs : BankTable) (q : CommandQueue)
    : result (option BusPacket * CommandQueue) :=
  let q := with_cq_tFAW (tick_tFAW <$> cq_tFAW q) q in
  r ← (if cq_refreshWaiting q then refreshPopClosePage bs q else Ok (None, q));
  r ← match r with
      | (Some p, q) => Ok (Some p, q)
      | (None, q) => normalPopClosePage bs q
      end;
  match r with
  | (None, q) => Ok (None, q)
  | (Some p, q) => q ← pop_finish p q; Ok (Some p, q)
  end.

(** * [pop] with open pages *)

(** The search for commands that go to the open row of bank [b]: whether the row
    may be closed, and the command that is sent. *)
Fixpoint open_row_search (bs : BankTable) (q : CommandQueue) (b row : Z) (l : list BusPacket)
    : result (bool * option (BusPacket * list BusPacket)) :=
  match l with
  | [] => Ok (true, None)
  | p :: l' =>
      if (row =? bp_row p) && (b =? bp_bank p) then
        if bool_decide (bp_type p = ACTIVATE) then Ok (true, None) else
        i ← isIssuable bs q p;
        Ok (false, if (i : bool) then Some (p, l') else None)
      else
        r ← open_row_search bs q b row l';
        Ok (r.1, match r.2 with Some (x, rest) => Some (x, p :: rest) | None => None end)
  end.

Definition reset_rowAccess (rank bank : Z) (q : CommandQueue) : result CommandQueue :=
  row ← arr_get (cq_rowAccess q) rank;
  row ← arr_set row bank 0;
  v ← arr_set (cq_rowAccess q) rank row;
  Ok (with_cq_rowAccess v q).

Definition precharge_packet (rank bank : Z) : BusPacket :=
  BusPacket_new PRECHARGE 0 0 0 rank bank 0.

Fixpoint refresh_scan_open (bs : BankTable) (banks : list Z) (q : CommandQueue)
    : result RefreshScan :=
  match banks with
  | [] => Ok AllClosed
  | b :: banks' =>
      let rank := cq_refreshRank q in
      st ← bank_at bs rank b;
      if bool_decide (bs_state st = RowActive) then
        l ← getCommandQueue q rank b;
        r ← open_row_search bs q b (bs_openRow st) l;
        match r with
        | (_, Some (p, l')) => q' ← setCommandQueue rank b l' q; Ok (NotYet (Some (p, q')))
        | (closeRow, None) =>
            if closeRow && (bs_nextPrecharge st <=? cq_clock q) then
              q' ← reset_rowAccess rank b q; Ok (NotYet (Some (precharge_packet rank b, q')))
            else Ok (NotYet None)
        end
      else if cq_clock q <? bs_nextActivate st then Ok (NotYet None)
      else refresh_scan_open bs banks' q
  end.

Definition refreshPop_open (bs : BankTable) (q : CommandQueue)
    : result (option BusPacket * CommandQueue) :=
  r ← refresh_scan_open bs (zrange (NUM_BANKS c)) q;
  match r with
  | NotYet None => Ok (None, q)
  | NotYet (Some (p, q')) => Ok (Some p, q')
  | AllClosed =>
      st ← bank_at bs (cq_refreshRank q) 0;
      if bool_decide (bs_state st = PowerDown) then Ok (None, q) else
      Ok (Some (BusPacket_new REFRESH 0 0 0 (cq_refreshRank q) 0 0),
          with_cq_refresh (2 ^ 32 - 1) false q)
  end.

(** An earlier column access to the same row goes first. *)
Definition depends (before : list BusPacket) (p : BusPacket) : bool :=
  existsb (fun a => negb (bool_decide (bp_type a = ACTIVATE)) && (bp_bank a =? bp_bank p)
                    && (bp_row a =? bp_row p)) before.

(** The first command that can be issued and waits for none before it; [before] is
    what has been passed, the last one first. *)
Fixpoint scan_open (bs : BankTable) (q : CommandQueue) (before l : list BusPacket)
    : result (option (BusPacket * list BusPacket * list BusPacket)) :=
  match l with
  | [] => Ok None
  | p :: l' =>
      i ← isIssuable bs q p;
      if i && negb (depends before p) then Ok (Some (p, before, l'))
      else scan_open bs q (p :: before) l'
  end.

(** A command that is taken takes the activate before it along, which counts as an
    access to the open row. *)
Definition take_open (bs : BankTable) (rank bank : Z) (q : CommandQueue)
    : result (option (BusPacket * CommandQueue)) :=
  l ← getCommandQueue q rank bank;
  r ← scan_open bs q [] l;
  match r with
  | None => Ok None
  | Some (p, before, after) =>
      match before with
      | a :: before' =>
          if bool_decide (bp_type a = ACTIVATE) then
            row ← arr_get (cq_rowAccess q) (bp_rank p);
            n ← arr_get row (bp_bank p);
            row ← arr_set row (bp_bank p) (u32 (n + 1));
            v ← arr_set (cq_rowAccess q) (bp_rank p) row;
            q ← setCommandQueue rank bank (rev before' ++ after) (with_cq_rowAccess v q);
            Ok (Some (p, q))
          else q ← setCommandQueue rank bank (rev before ++ after) q; Ok (Some (p, q))
      | [] => q ← setCommandQueue rank bank after q; Ok (Some (p, q))
      end
  end.

Fixpoint search_open (fuel : nat) (bs : BankTable) (start : Z * Z) (q : CommandQueue)
    : result (option (BusPacket * CommandQueue) * CommandQueue) :=
  match fuel with
  | O => Err OutOfFuel
  | S fuel' =>
      let pos := (cq_nextRank q, cq_nextBank q) in
      r ← (if rank_waits q pos.1 then Ok None else take_open bs pos.1 pos.2 q);
      match r with
      | Some x => Ok (Some x, q)
      | None =>
          let pos' := if bool_decide (queuingStructure c = PerRank)
                      then ((pos.1 + 1) mod NUM_RANKS c, pos.2) else nextRankAndBank pos in
          let q := with_cq_next pos'.1 pos'.2 q in
          if (start.1 =? pos'.1)
             && (bool_decide (queuingStructure c = PerRank) || (start.2 =? pos'.2))
          then Ok (None, q) else search_open fuel' bs start q
      end
  end.

(** The search for a bank to close, when nothing else can be issued. *)
Fixpoint search_PRE (fuel : nat) (bs : BankTable) (start : Z * Z) (q : CommandQueue)
    : result (option BusPacket * CommandQueue) :=
  match fuel with
  | O => Err OutOfFuel
  | S fuel' =>
      let rank := cq_nextRankPRE q in
      let bank := cq_nextBankPRE q in
      l ← getCommandQueue q rank bank;
      st ← bank_at bs rank bank;
      row ← arr_get (cq_rowAccess q) rank;
      n ← arr_get row bank;
      let found := existsb (fun p => (bp_bank p =? bank) && (bp_row p =? bs_openRow st)) l in
      if bool_decide (bs_state st = RowActive) && (negb found || (n =? TOTAL_ROW_ACCESSES c))
         && (bs_nextPrecharge st <=? cq_clock q)
      then q ← reset_rowAccess rank bank q; Ok (Some (precharge_packet rank bank), q)
      else
        let pos' := nextRankAndBank (rank, bank) in
        let q := with_cq_nextPRE pos'.1 pos'.2 q in
        if (start.1 =? pos'.1) && (start.2 =? pos'.2) then Ok (None, q)
        else search_PRE fuel' bs start q
  end.

Definition pop_open (bs : BankTable) (q : CommandQueue)
    : result (option BusPacket * CommandQueue) :=
  let q := with_cq_tFAW (tick_tFAW <$> cq_tFAW q) q in
  r ← (if cq_refreshWaiting q then refreshPop_open bs q else Ok (None, q));
  r ← match r with
      | (Some p, q) => Ok (Some p, q)
      | (None, q) =>
          s ← search_open search_fuel bs (cq_nextRank q, cq_nextBank q) q;
          match s with
          | (Some (p, q), _) => Ok (Some p, q)
          | (None, q) => search_PRE search_fuel bs (cq_nextRankPRE q, cq_nextBankPRE q) q
          end
      end;
  match r with
  | (None, q) => Ok (None, q)
  | (Some p, q) => q ← pop_finish p q; Ok (Some p, q)
  end.

Definition pop (bs : BankTable) (q : CommandQueue) : result (option BusPacket * CommandQueue) :=
  match rowBufferPolicy c with
  | ClosePage => pop_close bs q
  | OpenPage => pop_open bs q
  end.

End Queue.
