(* ===== verification/DramRank.v ===== *)
(** A rank of DRAM chips: Rank.cpp.  A rank keeps bank states of its own, checks
    every command it receives against them, and ends the simulation when one comes
    too early.  The read data it returns to the controller are the output of
    [Rank_update]. *)

From S2P Require Import Prelude DramTypes.

(** [readReturnPacket] and [readReturnCountdown] are parallel vectors. *)
Record Rank := mkRank {
  rk_clock : Z;
  rk_isPowerDown : bool;
  rk_refreshWaiting : bool;
  rk_banks : list BankState;
  rk_readReturn : list (BusPacket * Z);
  rk_outgoing : option BusPacket;
  rk_dataCyclesLeft : Z
}.

Definition with_rk_clock (v : Z) (r : Rank) : Rank :=
  mkRank v (rk_isPowerDown r) (rk_refreshWaiting r) (rk_banks r) (rk_readReturn r)
    (rk_outgoing r) (rk_dataCyclesLeft r).
Definition with_rk_isPowerDown (v : bool) (r : Rank) : Rank :=
  mkRank (rk_clock r) v (rk_refreshWaiting r) (rk_banks r) (rk_readReturn r)
    (rk_outgoing r) (rk_dataCyclesLeft r).
Definition with_rk_refreshWaiting (v : bool) (r : Rank) : Rank :=
  mkRank (rk_clock r) (rk_isPowerDown r) v (rk_banks r) (rk_readReturn r)
    (rk_outgoing r) (rk_dataCyclesLeft r).
Definition with_rk_banks (v : list BankState) (r : Rank) : Rank :=
  mkRank (rk_clock r) (rk_isPowerDown r) (rk_refreshWaiting r) v (rk_readReturn r)
    (rk_outgoing r) (rk_dataCyclesLeft r).
Definition with_rk_readReturn (v : list (BusPacket * Z)) (r : Rank) : Rank :=
  mkRank (rk_clock r) (rk_isPowerDown r) (rk_refreshWaiting r) (rk_banks r) v
    (rk_outgoing r) (rk_dataCyclesLeft r).
Definition with_rk_outgoing (v : option BusPacket) (left : Z) (r : Rank) : Rank :=
  mkRank (rk_clock r) (rk_isPowerDown r) (rk_refreshWaiting r) (rk_banks r) (rk_readReturn r)
    v left.

(** One bank of a row of banks. *)
Definition upd_bank (f : BankState -> BankState) (bank : Z) (l : list BankState)
    : result (list BankState) :=
  b ← arr_get l bank; arr_set l bank (f b).

Section Rank.

Context (c : DramCfg).

Definition Rank_new : Rank :=
  mkRank 0 false false (replicate (Z.to_nat (NUM_BANKS c)) BankState_new) [] None 0.

(** A column access is allowed: the row is open and the bank ready. *)
Definition column_allowed (next : BankState -> Z) (now : Z) (p : BusPacket) (b : BankState) : bool :=
  bool_decide (bs_state b = RowActive) && (next b <=? now) && (bp_row p =? bs_openRow b).

(** What a read and a write do to every bank of the rank. *)
Definition after_read (now : Z) (b : BankState) : BankState :=
  with_bs_nextWrite (Z.max (bs_nextWrite b) (now + READ_TO_WRITE_DELAY c))
    (with_bs_nextRead (Z.max (bs_nextRead b) (now + Z.max (BL c / 2) (tCCD c))) b).
Definition after_write (now : Z) (b : BankState) : BankState :=
  with_bs_nextRead (Z.max (bs_nextRead b) (now + WRITE_TO_READ_DELAY_B c))
    (with_bs_nextWrite (Z.max (bs_nextWrite b) (now + Z.max (BL c / 2) (tCCD c))) b).

(** The bank that is opened, and one that is closed. *)
Definition rank_open (now row : Z) (b : BankState) : BankState :=
  let ready := now + u32 (tRCD c - AL c) in
  with_bs_nextPrecharge (now + tRAS c) (with_bs_nextRead ready (with_bs_nextWrite ready
    (with_bs_openRow row (with_bs_nextActivate (now + tRC c) (with_bs_state RowActive b))))).
Definition rank_close (now delay : Z) (b : BankState) : BankState :=
  with_bs_nextActivate (Z.max (bs_nextActivate b) (now + delay)) (with_bs_state Idle b).

(** [Rank::receiveFromBus]. *)
Definition Rank_receiveFromBus (p : BusPacket) (r : Rank) : result Rank :=
  let now := rk_clock r in
  let bank := bp_bank p in
  match bp_type p with
  | READ =>
      b ← arr_get (rk_banks r) bank;
      if negb (column_allowed bs_nextRead now p b) then Err Fatal else
      v ← upd_bank (fun b => with_bs_nextPrecharge
             (Z.max (bs_nextPrecharge b) (now + READ_TO_PRE_DELAY c)) b) bank (rk_banks r);
      let r := with_rk_banks (after_read now <$> v) r in
      Ok (with_rk_readReturn (rk_readReturn r ++ [(with_bp_type DATA p, RL c)]) r)
  | READ_P =>
      b ← arr_get (rk_banks r) bank;
      if negb (column_allowed bs_nextRead now p b) then Err Fatal else
      v ← upd_bank (rank_close now (READ_AUTOPRE_DELAY c)) bank (rk_banks r);
      let r := with_rk_banks (after_read now <$> v) r in
      Ok (with_rk_readReturn (rk_readReturn r ++ [(with_bp_type DATA p, RL c)]) r)
  | WRITE =>
      b ← arr_get (rk_banks r) bank;
      if negb (column_allowed bs_nextWrite now p b) then Err Fatal else
      v ← upd_bank (fun b => with_bs_nextPrecharge
             (Z.max (bs_nextPrecharge b) (now + WRITE_TO_PRE_DELAY c)) b) bank (rk_banks r);
      Ok (with_rk_banks (after_write now <$> v) r)
  | WRITE_P =>
      b ← arr_get (rk_banks r) bank;
      if negb (column_allowed bs_nextWrite now p b) then Err Fatal else
      v ← upd_bank (rank_close now (WRITE_AUTOPRE_DELAY c)) bank (rk_banks r);
      Ok (with_rk_banks (after_write now <$> v) r)
  | ACTIVATE =>
      b ← arr_get (rk_banks r) bank;
      if negb (bool_decide (bs_state b = Idle) && (bs_nextActivate b <=? now)) then Err Fatal else
      v ← upd_bank (rank_open now (bp_row p)) bank (rk_banks r);
      Ok (with_rk_banks (imap (fun i b => if Z.of_nat i =? bank then b else
             with_bs_nextActivate (Z.max (bs_nextActivate b) (now + tRRD c)) b) v) r)
  | PRECHARGE =>
      b ← arr_get (rk_banks r) bank;
      if negb (bool_decide (bs_state b = RowActive) && (bs_nextPrecharge b <=? now))
      then Err Fatal else
      v ← upd_bank (rank_close now (tRP c)) bank (rk_banks r);
      Ok (with_rk_banks v r)
  | REFRESH =>
      let r := with_rk_refreshWaiting false r in
      if forallb (fun b => bool_decide (bs_state b = Idle)) (rk_banks r)
      then Ok (with_rk_banks (with_bs_nextActivate (now + tRFC c) <$> rk_banks r) r)
      else Err Fatal
  | DATA => Ok r
  end.

(** [Rank::update]: the packet that is done on the data bus goes to the controller;
    the oldest read whose latency has passed goes on the bus. *)
Definition Rank_update (r : Rank) : option BusPacket * Rank :=
  let '(sent, r) :=
    match rk_outgoing r with
    | None => (None, r)
    | Some p =>
        let left := u32 (rk_dataCyclesLeft r - 1) in
        if left =? 0 then (Some p, with_rk_outgoing None left r)
        else (None, with_rk_outgoing (Some p) left r)
    end in
  let r := with_rk_readReturn ((fun x => (x.1, u32 (x.2 - 1))) <$> rk_readReturn r) r in
  (sent,
   match rk_readReturn r with
   | (p, 0) :: rest => with_rk_readReturn rest (with_rk_outgoing (Some p) (BL c / 2) r)
   | _ => r
   end).

Definition Rank_powerDown (r : Rank) : result Rank :=
  if forallb (fun b => bool_decide (bs_state b = Idle)) (rk_banks r) then
    Ok (with_rk_isPowerDown true
          (with_rk_banks ((fun b => with_bs_state PowerDown
             (with_bs_nextPowerUp (rk_clock r + tCKE c) b)) <$> rk_banks r) r))
  else Err Fatal.

Definition Rank_powerUp (r : Rank) : result Rank :=
  if negb (rk_isPowerDown r) then Err Fatal else
  if forallb (fun b => bs_nextPowerUp b <=? rk_clock r) (rk_banks r) then
    Ok (with_rk_isPowerDown false
          (with_rk_banks ((fun b => with_bs_state Idle
             (with_bs_nextActivate (rk_clock r + tXP c) b)) <$> rk_banks r) r))
  else Err Fatal.

Definition Rank_step (r : Rank) : Rank := with_rk_clock (rk_clock r + 1) r.

End Rank.
