(* ===== verification/DramController.v ===== *)
(** The memory controller and the memory system: MemoryController.cpp,
    MemoryControllerTP.cpp (whose subclasses only choose another command queue) and
    MemorySystem.cpp.  The two callbacks into the simulator, for a finished write
    and for returned read data, are the output of an update.  Energy and latency
    statistics are left out, and so is the list of transactions that wait outside
    the controller, which only another simulator fills. *)

From S2P Require Import Prelude DramTypes DramQueue DramRank.

(** * State *)

(** [writeDataToSend] and [writeDataCountdown] are parallel vectors.  The base class
    has one transaction queue, [MemoryControllerTP] an array of four. *)
Record MemoryController := mkMemoryController {
  mc_clock : Z;
  mc_banks : BankTable;
  mc_queue : CommandQueue;
  mc_transactionQueue : list Transaction;
  mc_transactionQueues : list (list Transaction);
  mc_refreshCountdown : list Z;
  mc_refreshRank : Z;
  mc_writeData : list (BusPacket * Z);
  mc_returnTransaction : list Transaction;
  mc_pendingReads : list Transaction;
  mc_powerDown : list bool;
  mc_outgoingCmd : option BusPacket;
  mc_cmdCyclesLeft : Z;
  mc_outgoingData : option BusPacket;
  mc_dataCyclesLeft : Z
}.

Definition with_mc_clock (v : Z) (m : MemoryController) : MemoryController :=
  mkMemoryController v (mc_banks m) (mc_queue m) (mc_transactionQueue m)
    (mc_transactionQueues m) (mc_refreshCountdown m) (mc_refreshRank m) (mc_writeData m)
    (mc_returnTransaction m) (mc_pendingReads m) (mc_powerDown m) (mc_outgoingCmd m)
    (mc_cmdCyclesLeft m) (mc_outgoingData m) (mc_dataCyclesLeft m).
Definition with_mc_banks (v : BankTable) (m : MemoryController) : MemoryController :=
  mkMemoryController (mc_clock m) v (mc_queue m) (mc_transactionQueue m)
    (mc_transactionQueues m) (mc_refreshCountdown m) (mc_refreshRank m) (mc_writeData m)
    (mc_returnTransaction m) (mc_pendingReads m) (mc_powerDown m) (mc_outgoingCmd m)
    (mc_cmdCyclesLeft m) (mc_outgoingData m) (mc_dataCyclesLeft m).
Definition with_mc_queue (v : CommandQueue) (m : MemoryController) : MemoryController :=
  mkMemoryController (mc_clock m) (mc_banks m) v (mc_transactionQueue m)
    (mc_transactionQueues m) (mc_refreshCountdown m) (mc_refreshRank m) (mc_writeData m)
    (mc_returnTransaction m) (mc_pendingReads m) (mc_powerDown m) (mc_outgoingCmd m)
    (mc_cmdCyclesLeft m) (mc_outgoingData m) (mc_dataCyclesLeft m).
Definition with_mc_transactionQueue (v : list Transaction) (m : MemoryController)
    : MemoryController :=
  mkMemoryController (mc_clock m) (mc_banks m) (mc_queue m) v
    (mc_transactionQueues m) (mc_refreshCountdown m) (mc_refreshRank m) (mc_writeData m)
    (mc_returnTransaction m) (mc_pendingReads m) (mc_powerDown m) (mc_outgoingCmd m)
    (mc_cmdCyclesLeft m) (mc_outgoingData m) (mc_dataCyclesLeft m).
Definition with_mc_transactionQueues (v : list (list Transaction)) (m : MemoryController)
    : MemoryController :=
  mkMemoryController (mc_clock m) (mc_banks m) (mc_queue m) (mc_transactionQueue m)
    v (mc_refreshCountdown m) (mc_refreshRank m) (mc_writeData m)
    (mc_returnTransaction m) (mc_pendingReads m) (mc_powerDown m) (mc_outgoingCmd m)
    (mc_cmdCyclesLeft m) (mc_outgoingData m) (mc_dataCyclesLeft m).
Definition with_mc_refresh (cd : list Z) (rank : Z) (m : MemoryController) : MemoryController :=
  mkMemoryController (mc_clock m) (mc_banks m) (mc_queue m) (mc_transactionQueue m)
    (mc_transactionQueues m) cd rank (mc_writeData m)
    (mc_returnTransaction m) (mc_pendingReads m) (mc_powerDown m) (mc_outgoingCmd m)
    (mc_cmdCyclesLeft m) (mc_outgoingData m) (mc_dataCyclesLeft m).
Definition with_mc_writeData (v : list (BusPacket * Z)) (m : MemoryController)
    : MemoryController :=
  mkMemoryController (mc_clock m) (mc_banks m) (mc_queue m) (mc_transactionQueue m)
    (mc_transactionQueues m) (mc_refreshCountdown m) (mc_refreshRank m) v
    (mc_returnTransaction m) (mc_pendingReads m) (mc_powerDown m) (mc_outgoingCmd m)
    (mc_cmdCyclesLeft m) (mc_outgoingData m) (mc_dataCyclesLeft m).
Definition with_mc_returnTransaction (v : list Transaction) (m : MemoryController)
    : MemoryController :=
  mkMemoryController (mc_clock m) (mc_banks m) (mc_queue m) (mc_transactionQueue m)
    (mc_transactionQueues m) (mc_refreshCountdown m) (mc_refreshRank m) (mc_writeData m)
    v (mc_pendingReads m) (mc_powerDown m) (mc_outgoingCmd m)
    (mc_cmdCyclesLeft m) (mc_outgoingData m) (mc_dataCyclesLeft m).
Definition with_mc_pendingReads (v : list Transaction) (m : MemoryController)
    : MemoryController :=
  mkMemoryController (mc_clock m) (mc_banks m) (mc_queue m) (mc_transactionQueue m)
    (mc_transactionQueues m) (mc_refreshCountdown m) (mc_refreshRank m) (mc_writeData m)
    (mc_returnTransaction m) v (mc_powerDown m) (mc_outgoingCmd m)
    (mc_cmdCyclesLeft m) (mc_outgoingData m) (mc_dataCyclesLeft m).
Definition with_mc_powerDown (v : list bool) (m : MemoryController) : MemoryController :=
  mkMemoryController (mc_clock m) (mc_banks m) (mc_queue m) (mc_transactionQueue m)
    (mc_transactionQueues m) (mc_refreshCountdown m) (mc_refreshRank m) (mc_writeData m)
    (mc_returnTransaction m) (mc_pendingReads m) v (mc_outgoingCmd m)
    (mc_cmdCyclesLeft m) (mc_outgoingData m) (mc_dataCyclesLeft m).
Definition with_mc_outgoingCmd (v : option BusPacket) (left : Z) (m : MemoryController)
    : MemoryController :=
  mkMemoryController (mc_clock m) (mc_banks m) (mc_queue m) (mc_transactionQueue m)
    (mc_transactionQueues m) (mc_refreshCountdown m) (mc_refreshRank m) (mc_writeData m)
    (mc_returnTransaction m) (mc_pendingReads m) (mc_powerDown m) v
    left (mc_outgoingData m) (mc_dataCyclesLeft m).
Definition with_mc_outgoingData (v : option BusPacket) (left : Z) (m : MemoryController)
    : MemoryController :=
  mkMemoryController (mc_clock m) (mc_banks m) (mc_queue m) (mc_transactionQueue m)
    (mc_transactionQueues m) (mc_refreshCountdown m) (mc_refreshRank m) (mc_writeData m)
    (mc_returnTransaction m) (mc_pendingReads m) (mc_powerDown m) (mc_outgoingCmd m)
    (mc_cmdCyclesLeft m) v left.

(** The two callbacks, with the address, the cycle and the thread. *)
Inductive MemOut :=
  | ReturnReadData (addr cycle tid : Z)
  | WriteDataDone (addr cycle tid : Z).

Section Controller.

Context (c : DramCfg) (qc : QCfg).

Definition MemoryController_new (lastPID : Z) : MemoryController :=
  let n := Z.to_nat (NUM_RANKS c) in
  mkMemoryController 0 (replicate n (replicate (Z.to_nat (NUM_BANKS c)) BankState_new))
    (CommandQueue_new c qc lastPID) [] (replicate 4 [])
    ((fun i => u32 (refresh_stagger c * (i + 1))) <$> zrange (NUM_RANKS c)) 0
    [] [] [] (replicate n false) None 0 None 0.

(** * The parts of [update] *)

(** The state changes that take time. *)
Definition tick_bank (b : BankState) : BankState :=
  if 0 <? bs_countdown b then
    let b := with_bs_countdown (bs_countdown b - 1) b in
    if bs_countdown b =? 0 then
      match bs_lastCommand b with
      | WRITE_P | READ_P =>
          with_bs_countdown (tRP c) (with_bs_lastCommand PRECHARGE (with_bs_state Precharging b))
      | REFRESH | PRECHARGE => with_bs_state Idle b
      | _ => b
      end
    else b
  else b.

Definition to_rank (f : Rank -> result Rank) (rank : Z) (ranks : list Rank)
    : result (list Rank) :=
  r ← arr_get ranks rank; r ← f r; arr_set ranks rank r.

(** The command bus, then the data bus. *)
Definition send_cmd (m : MemoryController) (ranks : list Rank)
    : result (MemoryController * list Rank) :=
  match mc_outgoingCmd m with
  | None => Ok (m, ranks)
  | Some p =>
      let left := u32 (mc_cmdCyclesLeft m - 1) in
      if left =? 0 then
        ranks ← to_rank (Rank_receiveFromBus c p) (bp_rank p) ranks;
        Ok (with_mc_outgoingCmd None left m, ranks)
      else Ok (with_mc_outgoingCmd (Some p) left m, ranks)
  end.

Definition send_data (m : MemoryController) (ranks : list Rank)
    : result (MemoryController * list Rank * list MemOut) :=
  match mc_outgoingData m with
  | None => Ok (m, ranks, [])
  | Some p =>
      let left := u32 (mc_dataCyclesLeft m - 1) in
      if left =? 0 then
        ranks ← to_rank (Rank_receiveFromBus c p) (bp_rank p) ranks;
        Ok (with_mc_outgoingData None left m, ranks,
            [WriteDataDone (bp_physicalAddress p) (mc_clock m) (bp_threadID p)])
      else Ok (with_mc_outgoingData (Some p) left m, ranks, [])
  end.

(** Write data whose latency has passed go on the data bus. *)
Definition issue_write_data (m : MemoryController) : result MemoryController :=
  let wd := (fun x => (x.1, u32 (x.2 - 1))) <$> mc_writeData m in
  let m := with_mc_writeData wd m in
  match wd with
  | (p, 0) :: rest =>
      match mc_outgoingData m with
      | Some _ => Err Fatal
      | None => Ok (with_mc_writeData rest (with_mc_outgoingData (Some p) (BL c / 2) m))
      end
  | _ => Ok m
  end.

(** A rank is due for a refresh; a rank that is powered down is woken in time. *)
Definition start_refresh (m : MemoryController) (ranks : list Rank)
    : result (MemoryController * list Rank) :=
  let rank := mc_refreshRank m in
  cd ← arr_get (mc_refreshCountdown m) rank;
  if cd =? 0 then
    let m := with_mc_queue (needRefresh rank (mc_queue m)) m in
    ranks ← to_rank (fun r => Ok (with_rk_refreshWaiting true r)) rank ranks;
    v ← arr_set (mc_refreshCountdown m) rank (refresh_period c);
    let next := u32 (rank + 1) in
    Ok (with_mc_refresh v (if next =? NUM_RANKS c then 0 else next) m, ranks)
  else
    pd ← arr_get (mc_powerDown m) rank;
    if pd && (cd <=? tXP c) then
      ranks ← to_rank (fun r => Ok (with_rk_refreshWaiting true r)) rank ranks; Ok (m, ranks)
    else Ok (m, ranks).

(** ** What a command does to the bank states *)

Definition upd_table (f : BankState -> BankState) (rank bank : Z) (bs : BankTable)
    : result BankTable :=
  row ← arr_get bs rank; row ← upd_bank f bank row; arr_set bs rank row.

(** [same] on the banks of the rank, [other] on the open banks of the others. *)
Definition upd_ranks (same other : BankState -> BankState) (rank : Z) (bs : BankTable)
    : BankTable :=
  imap (fun i row => if Z.of_nat i =? rank then same <$> row else
    (fun b => if bool_decide (bs_state b = RowActive) then other b else b) <$> row) bs.

Definition set_after_precharge (b : BankState) : BankState :=
  with_bs_nextWrite (bs_nextActivate b) (with_bs_nextRead (bs_nextActivate b) b).

(** A read and a write, for the banks of the same rank and of the others. *)
Definition read_same (now : Z) (b : BankState) : BankState :=
  with_bs_nextWrite (Z.max (now + READ_TO_WRITE_DELAY c) (bs_nextWrite b))
    (with_bs_nextRead (Z.max (now + Z.max (tCCD c) (BL c / 2)) (bs_nextRead b)) b).
Definition read_other (now : Z) (b : BankState) : BankState :=
  with_bs_nextWrite (Z.max (now + READ_TO_WRITE_DELAY c) (bs_nextWrite b))
    (with_bs_nextRead (Z.max (now + BL c / 2 + tRTRS c) (bs_nextRead b)) b).
Definition write_same (now : Z) (b : BankState) : BankState :=
  with_bs_nextRead (Z.max (now + WRITE_TO_READ_DELAY_B c) (bs_nextRead b))
    (with_bs_nextWrite (Z.max (now + Z.max (BL c / 2) (tCCD c)) (bs_nextWrite b)) b).
Definition write_other (now : Z) (b : BankState) : BankState :=
  with_bs_nextRead (Z.max (now + WRITE_TO_READ_DELAY_R c) (bs_nextRead b))
    (with_bs_nextWrite (Z.max (now + BL c / 2 + tRTRS c) (bs_nextWrite b)) b).

(** A read and a write that close the row, for the bank they go to. *)
Definition read_close (now : Z) (b : BankState) : BankState :=
  with_bs_countdown (READ_TO_PRE_DELAY c) (with_bs_lastCommand READ_P
    (with_bs_nextActivate (Z.max (now + READ_AUTOPRE_DELAY c) (bs_nextActivate b)) b)).
Definition write_close (now : Z) (b : BankState) : BankState :=
  with_bs_countdown (WRITE_TO_PRE_DELAY c) (with_bs_lastCommand WRITE_P
    (with_bs_nextActivate (Z.max (now + WRITE_AUTOPRE_DELAY c) (bs_nextActivate b)) b)).

(** An activate and a refresh. *)
Definition open_row (now row : Z) (b : BankState) : BankState :=
  let ready := now + u32 (tRCD c - AL c) in
  with_bs_nextWrite (Z.max ready (bs_nextWrite b))
    (with_bs_nextRead (Z.max ready (bs_nextRead b))
    (with_bs_nextPrecharge (Z.max (now + tRAS c) (bs_nextPrecharge b))
    (with_bs_nextActivate (Z.max (now + tRC c) (bs_nextActivate b))
    (with_bs_openRow row (with_bs_lastCommand ACTIVATE (with_bs_state RowActive b)))))).
Definition activate_other (now : Z) (b : BankState) : BankState :=
  with_bs_nextActivate (Z.max (now + tRRD c) (bs_nextActivate b)) b.
Definition refresh_bank (now : Z) (b : BankState) : BankState :=
  with_bs_countdown (tRFC c) (with_bs_lastCommand REFRESH
    (with_bs_state Refreshing (with_bs_nextActivate (now + tRFC c) b))).

Definition apply_command (now : Z) (p : BusPacket) (bs : BankTable) : result BankTable :=
  let rank := bp_rank p in
  let bank := bp_bank p in
  match bp_type p with
  | READ_P =>
      bs ← upd_table (read_close now) rank bank bs;
      upd_table set_after_precharge rank bank (upd_ranks (read_same now) (read_other now) rank bs)
  | READ =>
      bs ← upd_table (fun b => with_bs_lastCommand READ
             (with_bs_nextPrecharge (Z.max (now + READ_TO_PRE_DELAY c) (bs_nextPrecharge b)) b))
             rank bank bs;
      Ok (upd_ranks (read_same now) (read_other now) rank bs)
  | WRITE_P =>
      bs ← upd_table (write_close now) rank bank bs;
      upd_table set_after_precharge rank bank
        (upd_ranks (write_same now) (write_other now) rank bs)
  | WRITE =>
      bs ← upd_table (fun b => with_bs_lastCommand WRITE
             (with_bs_nextPrecharge (Z.max (now + WRITE_TO_PRE_DELAY c) (bs_nextPrecharge b)) b))
             rank bank bs;
      Ok (upd_ranks (write_same now) (write_other now) rank bs)
  | ACTIVATE =>
      bs ← upd_table (open_row now (bp_row p)) rank bank bs;
      row ← arr_get bs rank;
      arr_set bs rank (imap (fun i b => if Z.of_nat i =? bank then b else activate_other now b) row)
  | PRECHARGE =>
      upd_table (fun b => with_bs_nextActivate (Z.max (now + tRP c) (bs_nextActivate b))
             (with_bs_countdown (tRP c) (with_bs_lastCommand PRECHARGE
             (with_bs_state Precharging b)))) rank bank bs
  | REFRESH =>
      row ← arr_get bs rank; arr_set bs rank (refresh_bank now <$> row)
  | DATA => Err Fatal
  end.

(** The command that is popped: its data are queued, the bank states follow it, and
    it goes on the command bus. *)
Definition issue_command (m : MemoryController) : result MemoryController :=
  r ← pop c qc (mc_banks m) (mc_queue m);
  let m := with_mc_queue r.2 m in
  match r.1 with
  | None => Ok m
  | Some p =>
      let m := match bp_type p with
               | WRITE | WRITE_P =>
                   with_mc_writeData (mc_writeData m ++ [(with_bp_type DATA p, WL c)]) m
               | _ => m
               end in
      bs ← apply_command (mc_clock m) p (mc_banks m);
      match mc_outgoingCmd m with
      | Some _ => Err Fatal
      | None => Ok (with_mc_outgoingCmd (Some p) (tCMD c) (with_mc_banks bs m))
      end
  end.

(** ** Transactions *)

(** The commands of a transaction. *)
Definition commands_of (t : Transaction) : result (BusPacket * BusPacket) :=
  let a := addressMapping c (tr_address t) in
  ty ← getBusPacketType c t;
  let cmd ty := BusPacket_new ty (tr_address t) (da_column a) (da_row a) (da_rank a) (da_bank a)
    (tr_threadID t) in
  Ok (cmd ACTIVATE, cmd ty).

(** The first transaction of a list for which there is room becomes commands. *)
Fixpoint place_first (pid : Transaction -> Z) (l : list Transaction) (q : CommandQueue)
    : result (option (Transaction * list Transaction * CommandQueue)) :=
  match l with
  | [] => Ok None
  | t :: l' =>
      let a := addressMapping c (tr_address t) in
      room ← hasRoomFor c qc 2 (da_rank a) (da_bank a) (pid t) q;
      if (room : bool) then
        cmds ← commands_of t;
        q ← enqueue c qc cmds.1 q;
        q ← enqueue c qc cmds.2 q;
        Ok (Some (t, l', q))
      else
        r ← place_first pid l' q;
        Ok match r with Some (x, rest, q') => Some (x, t :: rest, q') | None => None end
  end.

Definition add_pending (t : Transaction) (m : MemoryController) : MemoryController :=
  if bool_decide (tr_type t = DATA_READ)
  then with_mc_pendingReads (mc_pendingReads m ++ [t]) m else m.

(** [MemoryControllerTP::updateTransactionQueue], for one thread. *)
Definition update_thread_queue (m : MemoryController) (j : Z) : result MemoryController :=
  l ← arr_get (mc_transactionQueues m) j;
  r ← place_first (fun _ => j) l (mc_queue m);
  match r with
  | None => Ok m
  | Some (t, l', q) =>
      v ← arr_set (mc_transactionQueues m) j l';
      Ok (add_pending t (with_mc_queue q (with_mc_transactionQueues v m)))
  end.

Definition updateTransactionQueue (m : MemoryController) : result MemoryController :=
  match q_kind qc with
  | Q_Base =>
      r ← place_first tr_threadID (mc_transactionQueue m) (mc_queue m);
      match r with
      | None => Ok m
      | Some (t, l', q) => Ok (add_pending t (with_mc_queue q (with_mc_transactionQueue l' m)))
      end
  | _ => foldM update_thread_queue m (zrange (q_num_pids qc))
  end.

(** [addTransaction] and [WillAcceptTransaction]. *)
Definition addTransaction (t : Transaction) (m : MemoryController)
    : result (bool * MemoryController) :=
  match q_kind qc with
  | Q_Base =>
      if Z.of_nat (length (mc_transactionQueue m)) <? TRANS_QUEUE_DEPTH c
      then Ok (true, with_mc_transactionQueue (mc_transactionQueue m ++ [t]) m)
      else Ok (false, m)
  | _ =>
      l ← arr_get (mc_transactionQueues m) (tr_threadID t);
      if Z.of_nat (length l) <? TRANS_QUEUE_DEPTH c then
        v ← arr_set (mc_transactionQueues m) (tr_threadID t) (l ++ [t]);
        Ok (true, with_mc_transactionQueues v m)
      else Ok (false, m)
  end.

(** [receiveFromBus] of the controller. *)
Definition mc_receiveFromBus (p : BusPacket) (m : MemoryController) : result MemoryController :=
  if bool_decide (bp_type p = DATA) then
    Ok (with_mc_returnTransaction (mc_returnTransaction m ++
      [mkTransaction RETURN_DATA (bp_physicalAddress p) (bp_threadID p) 0]) m)
  else Err Fatal.

(** The first pending read of an address. *)
Fixpoint take_pending (addr : Z) (l : list Transaction)
    : option (Transaction * list Transaction) :=
  match l with
  | [] => None
  | t :: l' =>
      if tr_address t =? addr then Some (t, l') else
      match take_pending addr l' with Some (x, rest) => Some (x, t :: rest) | None => None end
  end.

Definition updateReturnTransactions (m : MemoryController)
    : result (MemoryController * list MemOut) :=
  match mc_returnTransaction m with
  | [] => Ok (m, [])
  | t :: rest =>
      match take_pending (tr_address t) (mc_pendingReads m) with
      | None => Err Panic
      | Some (x, pend) =>
          Ok (with_mc_returnTransaction rest (with_mc_pendingReads pend m),
              [ReturnReadData (tr_address x) (mc_clock m) (tr_threadID x)])
      end
  end.

(** ** Power *)

Definition update_power (s : MemoryController * list Rank) (i : Z)
    : result (MemoryController * list Rank) :=
  let '(m, ranks) := s in
  if negb (USE_LOW_POWER c) then Ok (m, ranks) else
  e ← isEmpty c qc i (mc_queue m);
  r ← arr_get ranks i;
  row ← arr_get (mc_banks m) i;
  if e && negb (rk_refreshWaiting r) then
    if forallb (fun b => bool_decide (bs_state b = Idle)) row then
      pd ← arr_set (mc_powerDown m) i true;
      ranks ← to_rank (Rank_powerDown c) i ranks;
      bs ← arr_set (mc_banks m) i ((fun b => with_bs_nextPowerUp (mc_clock m + tCKE c)
             (with_bs_state PowerDown b)) <$> row);
      Ok (with_mc_banks bs (with_mc_powerDown pd m), ranks)
    else Ok (m, ranks)
  else
    b0 ← arr_get row 0;
    pd ← arr_get (mc_powerDown m) i;
    if (bs_nextPowerUp b0 <=? mc_clock m) && pd then
      v ← arr_set (mc_powerDown m) i false;
      ranks ← to_rank (Rank_powerUp c) i ranks;
      bs ← arr_set (mc_banks m) i ((fun b => with_bs_nextActivate (mc_clock m + tXP c)
             (with_bs_state Idle b)) <$> row);
      Ok (with_mc_banks bs (with_mc_powerDown v m), ranks)
    else Ok (m, ranks).

(** * [update] *)

Definition tick_banks (bs : BankTable) : BankTable := (fun row : list BankState => tick_bank <$> row) <$> bs.

(** The buses, the refreshes and the command of the cycle. *)
Definition update_issue (m : MemoryController) (ranks : list Rank)
    : result (MemoryController * list Rank * list MemOut) :=
  s1 ← send_cmd (with_mc_banks (tick_banks (mc_banks m)) m) ranks;
  s2 ← send_data s1.1 s1.2;
  m ← issue_write_data s2.1.1;
  s3 ← start_refresh m s2.1.2;
  m ← issue_command s3.1;
  Ok (m, s3.2, s2.2).

(** Everything else. *)
Definition update_queues (m : MemoryController) (ranks : list Rank)
    : result (MemoryController * list Rank * list MemOut) :=
  m ← updateTransactionQueue m;
  s1 ← foldM update_power (m, ranks) (zrange (NUM_RANKS c));
  s2 ← updateReturnTransactions s1.1;
  let m := s2.1 in
  let m := with_mc_refresh ((fun x => u32 (x - 1)) <$> mc_refreshCountdown m)
    (mc_refreshRank m) m in
  let q := mc_queue m in
  Ok (with_mc_queue (with_cq_clock (cq_clock q + 1) q) m, s1.2, s2.2).

Definition mc_update (m : MemoryController) (ranks : list Rank)
    : result (MemoryController * list Rank * list MemOut) :=
  s1 ← update_issue m ranks;
  s2 ← update_queues s1.1.1 s1.1.2;
  Ok (s2.1, s1.2 ++ s2.2).

Record MemorySystem := mkMemorySystem { ms_mc : MemoryController; ms_ranks : list Rank }.

Definition MemorySystem_new (lastPID : Z) : MemorySystem :=
  mkMemorySystem (MemoryController_new lastPID)
    (replicate (Z.to_nat (NUM_RANKS c)) (Rank_new c)).

(** [MemorySystem::update]: the ranks, which may hand read data to the controller,
    then the controller, then all clocks. *)
Definition update_rank (s : MemoryController * list Rank) (i : Z)
    : result (MemoryController * list Rank) :=
  let '(m, ranks) := s in
  r ← arr_get ranks i;
  let '(sent, r) := Rank_update c r in
  m ← match sent with Some p => mc_receiveFromBus p m | None => Ok m end;
  ranks ← arr_set ranks i r;
  Ok (m, ranks).

Definition MemorySystem_update (s : MemorySystem) : result (MemorySystem * list MemOut) :=
  r ← foldM update_rank (ms_mc s, ms_ranks s) (zrange (NUM_RANKS c));
  u ← mc_update r.1 r.2;
  let '(m, ranks, out) := u in
  Ok (mkMemorySystem (with_mc_clock (mc_clock m + 1) m) (Rank_step <$> ranks), out).

Definition MemorySystem_addTransaction (t : Transaction) (s : MemorySystem)
    : result (bool * MemorySystem) :=
  r ← addTransaction t (ms_mc s); Ok (r.1, mkMemorySystem r.2 (ms_ranks s)).

End Controller.
