(* ===== verification/DramQueueSpec.v ===== *)
(** The command queues, with closed pages: [pop] returns, what it returns was
    waiting and can be issued, and it finds a command whenever there is one. *)

From S2P Require Import Prelude DramTypes DramQueue.

(** * Searching a queue *)

(** The command before a position. *)
Definition last_or (prev : option BusPacket) (l : list BusPacket) : option BusPacket :=
  match last l with Some x => Some x | None => prev end.

Lemma last_or_cons prev p l : last_or prev (p :: l) = last_or (Some p) l.
Proof. unfold last_or. rewrite last_cons. by destruct (last l). Qed.

(** A search stops at the first command that passes, with nothing else changed. *)
Lemma scan_spec ok l : forall prev,
  (forall prev' p, p ∈ l -> exists b, ok prev' p = Ok b) ->
  exists r, scan ok prev l = Ok r /\
    match r with
    | None => forall l1 p l2, l = l1 ++ p :: l2 -> ok (last_or prev l1) p = Ok false
    | Some (p, rest) => exists l1 l2, l = l1 ++ p :: l2 /\ rest = l1 ++ l2 /\
        ok (last_or prev l1) p = Ok true
    end.
Proof.
  induction l as [|p l IH]; intros prev Hok; cbn [scan].
  { exists None. split; [done|]. by intros [|? l1] p l2 E. }
  destruct (Hok prev p) as [b Hb]; [left|]. rewrite Hb, bind_Ok_l. destruct b.
  { exists (Some (p, l)). split; [done|]. exists [], l. done. }
  destruct (IH (Some p)) as (r & Hr & Hspec); [intros; apply Hok; by right|].
  rewrite Hr, bind_Ok_l. eexists. split; [done|]. destruct r as [[x rest]|].
  - destruct Hspec as (l1 & l2 & -> & -> & Hx). exists (p :: l1), l2.
    by rewrite last_or_cons.
  - intros l1 y l2 E. destruct l1 as [|z l1].
    + cbn in E. by injection E as <- <-.
    + injection E as <- E. rewrite last_or_cons. by eapply Hspec.
Qed.

(** * Well-formed queues *)

Section Spec.

Context (c : DramCfg) (qc : QCfg).

(** What the configuration must satisfy. *)
Record queue_cfg : Prop := {
  qk_close : rowBufferPolicy c = ClosePage;
  qk_ranks : 0 < NUM_RANKS c < 2 ^ 31;
  qk_banks : 0 < NUM_BANKS c < 2 ^ 31;
  qk_pids : 0 < q_num_pids qc;
  qk_struct : if bool_decide (q_kind qc = Q_Base) then queuingStructure c <> PerRankPerThread
              else queuingStructure c = PerRankPerThread
}.

(** A command that a queue of rank [r] may hold. *)
Definition packet_ok (r : Z) (p : BusPacket) : Prop :=
  bp_rank p = r /\ 0 <= bp_bank p < NUM_BANKS c /\
  (bp_type p = ACTIVATE \/ bp_type p = READ_P \/ bp_type p = WRITE_P).

Record queue_wf (q : CommandQueue) : Prop := {
  qw_ranks : length (cq_queues q) = Z.to_nat (NUM_RANKS c);
  qw_rows : forall r row, cq_queues q !! r = Some row ->
    (numBankQueues c qc <= Z.of_nat (length row))%Z;
  qw_packets : forall r k row l, cq_queues q !! r = Some row -> row !! k = Some l ->
    Forall (packet_ok (Z.of_nat r)) l;
  qw_tFAW : length (cq_tFAW q) = Z.to_nat (NUM_RANKS c);
  qw_access : length (cq_rowAccess q) = Z.to_nat (NUM_RANKS c);
  qw_access_rows : forall r row, cq_rowAccess q !! r = Some row ->
    length row = Z.to_nat (NUM_BANKS c);
  qw_next : 0 <= cq_nextRank q < NUM_RANKS c /\ 0 <= cq_nextBank q < NUM_BANKS c;
  qw_refresh : cq_refreshWaiting q = true -> 0 <= cq_refreshRank q < NUM_RANKS c;
  qw_last : q_kind qc = Q_FA ->
    0 <= cq_lastPID q < q_num_pids qc /\ 0 <= cq_lastPID1 q < q_num_pids qc
}.

Record table_wf (bs : BankTable) : Prop := {
  tw_ranks : length bs = Z.to_nat (NUM_RANKS c);
  tw_banks : forall r row, bs !! r = Some row -> length row = Z.to_nat (NUM_BANKS c)
}.

(** The turn logic returns a thread. *)
Definition turn_ok (q : CommandQueue) : Prop :=
  q_kind qc <> Q_Base ->
  (exists pid, getCurrentPID qc q = Ok pid /\ 0 <= pid < q_num_pids qc) /\
  (exists d, isBufferTime c qc q = Ok d).

Context (Hcfg : queue_cfg).

Lemma bank_at_total bs r b : table_wf bs -> 0 <= r < NUM_RANKS c -> 0 <= b < NUM_BANKS c ->
  exists st, bank_at bs r b = Ok st.
Proof.
  intros [Hr Hb] Hrr Hbb. unfold bank_at.
  destruct (arr_get_total bs r) as [row Hrow]; [lia|]. rewrite Hrow, bind_Ok_l.
  apply arr_get_Ok in Hrow as [_ Hrow]. apply arr_get_total. rewrite (Hb _ _ Hrow). lia.
Qed.

Lemma queue_at_total q r k : queue_wf q -> 0 <= r < NUM_RANKS c -> 0 <= k < numBankQueues c qc ->
  exists l, queue_at q r k = Ok l /\ Forall (packet_ok r) l.
Proof.
  intros Hq Hr Hk. unfold queue_at.
  destruct (arr_get_total (cq_queues q) r) as [row Hrow].
  { rewrite (qw_ranks _ Hq). lia. }
  rewrite Hrow, bind_Ok_l. apply arr_get_Ok in Hrow as [_ Hrow].
  pose proof (qw_rows _ Hq _ _ Hrow) as Hlen.
  destruct (arr_get_total row k) as [l Hl]; [lia|]. exists l. split; [done|].
  apply arr_get_Ok in Hl as [_ Hl]. pose proof (qw_packets _ Hq _ _ _ _ Hrow Hl) as Hf.
  rewrite Z2Nat.id in Hf by lia. done.
Qed.

(** What [set_bankQueue] with good packets gives. *)
Lemma set_queue_total q r k l : queue_wf q -> 0 <= r < NUM_RANKS c ->
  0 <= k < numBankQueues c qc -> Forall (packet_ok r) l ->
  exists q', set_bankQueue r k l q = Ok q' /\ queue_wf q'.
Proof.
  intros Hq Hr Hk Hl. unfold set_bankQueue.
  destruct (arr_get_total (cq_queues q) r) as [row Hrow].
  { rewrite (qw_ranks _ Hq). lia. }
  rewrite Hrow, bind_Ok_l. pose proof Hrow as Hrow'. apply arr_get_Ok in Hrow' as [_ Hrow'].
  pose proof (qw_rows _ Hq _ _ Hrow') as Hlen.
  destruct (arr_set_total row k l) as [row' Hset]; [lia|]. rewrite Hset, bind_Ok_l.
  destruct (arr_set_total (cq_queues q) r row') as [qs Hqs].
  { rewrite (qw_ranks _ Hq). lia. }
  rewrite Hqs, bind_Ok_l. eexists. split; [done|].
  apply arr_set_Ok in Hset as [_ ->]. apply arr_set_Ok in Hqs as [_ ->].
  destruct Hq. split; cbn; try done.
  - by rewrite length_insert.
  - intros r0 row0 H0. apply list_lookup_insert_Some in H0 as [(<- & <- & _)|[_ H0]]; [|eauto].
    rewrite length_insert. eauto.
  - intros r0 k0 row0 l0 H0 H1.
    apply list_lookup_insert_Some in H0 as [(<- & <- & _)|[_ H0]]; [|eauto].
    apply list_lookup_insert_Some in H1 as [(<- & <- & _)|[_ H1]]; [|eauto].
    by rewrite Z2Nat.id by lia.
Qed.

(** [isIssuable] does not fail on a command of a queue. *)
Lemma isIssuable_total bs q r p : table_wf bs -> queue_wf q -> 0 <= r < NUM_RANKS c ->
  packet_ok r p -> exists b, isIssuable c bs q p = Ok b.
Proof.
  intros Hbs Hq Hr (Hpr & Hpb & Hty). unfold isIssuable. rewrite Hpr.
  destruct (bank_at_total bs r (bp_bank p) Hbs Hr Hpb) as [st ->]. rewrite bind_Ok_l.
  destruct (arr_get_total (cq_tFAW q) r) as [w Hw].
  { rewrite (qw_tFAW _ Hq). lia. }
  destruct (arr_get_total (cq_rowAccess q) r) as [row Hrow].
  { rewrite (qw_access _ Hq). lia. }
  destruct (arr_get_total row (bp_bank p)) as [n Hn].
  { apply arr_get_Ok in Hrow as [_ Hrow]. rewrite (qw_access_rows _ Hq _ _ Hrow). lia. }
  destruct Hty as [-> | [-> | ->]]; case_match; rewrite ?Hw, ?Hrow, ?bind_Ok_l, ?Hn, ?bind_Ok_l;
    eauto.
Qed.

(** * What a search takes *)

(** [p] is taken out of queue [k] of its rank. *)
Definition removed (q : CommandQueue) (k : Z) (p : BusPacket) (q' : CommandQueue) : Prop :=
  exists l1 l2, queue_at q (bp_rank p) k = Ok (l1 ++ p :: l2) /\
    set_bankQueue (bp_rank p) k (l1 ++ l2) q = Ok q' /\
    0 <= bp_rank p < NUM_RANKS c /\ 0 <= k < numBankQueues c qc /\
    Forall (packet_ok (bp_rank p)) (l1 ++ p :: l2).

(** The queue a class may take [p] from: the turn-based ones take from the thread
    whose turn it is, and no activate in dead time; [CommandQueueFA] also takes
    column accesses of the thread that was on before. *)
Definition allowed (q : CommandQueue) (pid k : Z) (p : BusPacket) : Prop :=
  match q_kind qc with
  | Q_Base => True
  | Q_TP | Q_TPD => k = pid /\ (bp_type p = ACTIVATE -> isBufferTime c qc q = Ok false)
  | Q_FA => (k = cq_lastPID1 q /\ bp_type p <> ACTIVATE) \/
            (k = pid /\ (bp_type p = ACTIVATE -> isBufferTime c qc q = Ok false))
  end.

Definition took (bs : BankTable) (q : CommandQueue) (pid : Z) (p : BusPacket)
    (q' : CommandQueue) : Prop :=
  exists k, removed q k p q' /\ isIssuable c bs q p = Ok true /\ allowed q pid k p /\
    rank_waits q (bp_rank p) = false /\ queue_wf q'.

Lemma removed_wf q k p q' : queue_wf q -> removed q k p q' -> queue_wf q'.
Proof.
  intros Hq (l1 & l2 & _ & Hset & Hr & Hk & Hf).
  destruct (set_queue_total q (bp_rank p) k (l1 ++ l2) Hq Hr Hk) as (q2 & Hq2 & Hwf).
  - apply Forall_app in Hf as [H1 H2]. apply Forall_cons in H2 as [_ H2]. by apply Forall_app.
  - congruence.
Qed.

Lemma queue_at_scan ok q r k : queue_wf q -> 0 <= r < NUM_RANKS c -> 0 <= k < numBankQueues c qc ->
  (forall prev p, packet_ok r p -> exists b, ok prev p = Ok b) ->
  exists l x, queue_at q r k = Ok l /\ scan ok None l = Ok x /\ Forall (packet_ok r) l /\
    match x with
    | None => forall l1 p l2, l = l1 ++ p :: l2 -> ok (last_or None l1) p = Ok false
    | Some (p, rest) => exists l1 l2, l = l1 ++ p :: l2 /\ rest = l1 ++ l2 /\
        ok (last_or None l1) p = Ok true
    end.
Proof.
  intros Hq Hr Hk Hok. destruct (queue_at_total q r k Hq Hr Hk) as (l & Hl & Hf).
  destruct (scan_spec ok l None) as (x & Hx & Hspec).
  { intros prev p Hp. apply Hok. rewrite Forall_forall in Hf. by apply Hf. }
  by exists l, x.
Qed.

(** [take_from] on a queue that [getCommandQueue] refers to. *)
Lemma take_from_spec ok q r k i : queue_wf q -> 0 <= r < NUM_RANKS c ->
  queue_index c qc k = Ok i -> 0 <= i < numBankQueues c qc ->
  (forall prev p, packet_ok r p -> exists b, ok prev p = Ok b) ->
  exists x, take_from c qc ok r k q = Ok x /\
    match x with
    | None => forall l1 p l2, queue_at q r i = Ok (l1 ++ p :: l2) ->
        ok (last_or None l1) p = Ok false
    | Some (p, q') => removed q i p q' /\ bp_rank p = r /\ exists prev, ok prev p = Ok true
    end.
Proof.
  intros Hq Hr Hi Hik Hok. unfold take_from, getCommandQueue, setCommandQueue.
  rewrite Hi, !bind_Ok_l.
  destruct (queue_at_scan ok q r i Hq Hr Hik Hok) as (l & x & Hl & Hx & Hf & Hspec).
  rewrite Hl, bind_Ok_l, Hx, bind_Ok_l. destruct x as [[p rest]|].
  - destruct Hspec as (l1 & l2 & -> & -> & Hp).
    assert (Hpr : bp_rank p = r).
    { apply Forall_app in Hf as [_ Hf]. apply Forall_cons in Hf as [[? _] _]. done. }
    destruct (set_queue_total q r i (l1 ++ l2) Hq Hr Hik) as (q' & Hset & _).
    { apply Forall_app in Hf as [H1 H2]. apply Forall_cons in H2 as [_ H2]. by apply Forall_app. }
    rewrite bind_Ok_l, Hset, bind_Ok_l. eexists. split; [done|]. cbn.
    split_and!; [|done|eauto]. exists l1, l2. rewrite Hpr. split_and!; try done; lia.
  - exists None. split; [done|]. intros l1 p l2 E. injection E as E.
    by apply Hspec with l2.
Qed.

(** The tests of the classes do not fail, and imply that the command can go. *)
Lemma eligible_issuable bs q prev p :
  (base_eligible c bs q prev p = Ok true -> isIssuable c bs q p = Ok true) /\
  (fa_eligible_last c bs q prev p = Ok true ->
     isIssuable c bs q p = Ok true /\ bp_type p <> ACTIVATE) /\
  (tp_eligible c qc bs q prev p = Ok true -> isIssuable c bs q p = Ok true /\
     (bp_type p = ACTIVATE -> isBufferTime c qc q = Ok false)) /\
  (tpd_eligible c qc bs q prev p = Ok true -> isIssuable c bs q p = Ok true /\
     (bp_type p = ACTIVATE -> isBufferTime c qc q = Ok false)) /\
  (fa_eligible c qc bs q prev p = Ok true -> isIssuable c bs q p = Ok true /\
     (bp_type p = ACTIVATE -> isBufferTime c qc q = Ok false)).
Proof.
  unfold base_eligible, fa_eligible_last, tpd_eligible, tp_eligible, fa_eligible.
  destruct (isIssuable c bs q p) as [[|]|]; cbn; [|naive_solver..].
  destruct (bool_decide (bp_type p = ACTIVATE)) eqn:Ea; cbn;
    [apply bool_decide_eq_true in Ea | apply bool_decide_eq_false in Ea];
    destruct (isBufferTime c qc q) as [[|]|]; cbn; destruct (paired prev p); naive_solver.
Qed.

Lemma eligible_total bs q r prev p : table_wf bs -> queue_wf q -> turn_ok q ->
  0 <= r < NUM_RANKS c -> packet_ok r p ->
  (exists b, base_eligible c bs q prev p = Ok b) /\
  (exists b, fa_eligible_last c bs q prev p = Ok b) /\
  (q_kind qc <> Q_Base ->
    (exists b, tp_eligible c qc bs q prev p = Ok b) /\
    (exists b, tpd_eligible c qc bs q prev p = Ok b) /\
    (exists b, fa_eligible c qc bs q prev p = Ok b)).
Proof.
  intros Hbs Hq Ht Hr Hp. destruct (isIssuable_total bs q r p Hbs Hq Hr Hp) as [b Hb].
  unfold base_eligible, fa_eligible_last, tpd_eligible, tp_eligible, fa_eligible.
  rewrite Hb, !bind_Ok_l. split_and!; [eauto..|]. intros Hk.
  destruct (Ht Hk) as [_ [d ->]]. destruct b; cbn; split_and!; eauto.
Qed.

(** A class looks at queues that exist. *)
Lemma index_bank bank : q_kind qc = Q_Base -> 0 <= bank < NUM_BANKS c ->
  exists i, queue_index c qc bank = Ok i /\ 0 <= i < numBankQueues c qc.
Proof.
  intros Hk Hb. pose proof (qk_struct Hcfg) as Hs. unfold queue_index, numBankQueues.
  rewrite Hk in *. rewrite bool_decide_true in Hs by done.
  destruct (queuingStructure c); [exists 0|exists bank|done]; (split; [done|lia]).
Qed.

Lemma index_pid pid : q_kind qc <> Q_Base -> 0 <= pid < q_num_pids qc ->
  queue_index c qc pid = Ok pid /\ 0 <= pid < numBankQueues c qc.
Proof.
  intros Hk Hp. pose proof (qk_struct Hcfg) as Hs. rewrite bool_decide_false in Hs by done.
  unfold queue_index, numBankQueues. rewrite Hs. destruct (q_kind qc); done.
Qed.

(** One position of the search. *)
Lemma try_pos_spec bs q pid pos : table_wf bs -> queue_wf q -> turn_ok q ->
  0 <= pos.1 < NUM_RANKS c -> 0 <= pos.2 < NUM_BANKS c ->
  (q_kind qc <> Q_Base -> 0 <= pid < q_num_pids qc) ->
  exists r, try_pos c qc bs pid pos q = Ok r /\
    forall p q', r = Some (p, q') -> took bs q pid p q'.
Proof.
  intros Hbs Hq Ht Hr Hb Hpid. destruct pos as [rank bank]. cbn [fst snd] in *.
  unfold try_pos. destruct (rank_waits q rank) eqn:Hw.
  { destruct (q_kind qc); exists None; (split; [done|]); naive_solver. }
  pose proof (fun prev p Hp => eligible_total bs q rank prev p Hbs Hq Ht Hr Hp) as Htot.
  assert (Hdone : forall i p q', removed q i p q' -> bp_rank p = rank ->
    isIssuable c bs q p = Ok true -> allowed q pid i p -> took bs q pid p q').
  { intros i p q' Hrem Hpr Hi Ha. exists i. rewrite Hpr. split_and!; try done.
    by eapply removed_wf. }
  unfold allowed in Hdone. destruct (q_kind qc) eqn:Hk.
  - destruct (index_bank bank Hk Hb) as (i & Hi & Hir).
    destruct (queuingStructure c) eqn:Hs.
    + destruct (take_from_spec (base_eligible c bs q) q rank bank i Hq Hr Hi Hir)
        as (x & -> & Hx); [intros; by apply Htot|].
      exists x. split; [done|]. intros p q' ->. destruct Hx as (Hrem & Hpr & prev & He).
      eapply Hdone; [done|done| |done]. by apply (proj1 (eligible_issuable bs q prev p)).
    + destruct (queue_at_total q rank i Hq Hr Hir) as (l & Hl & Hf).
      unfold getCommandQueue, setCommandQueue. rewrite Hi, !bind_Ok_l, Hl, bind_Ok_l.
      destruct l as [|p l]; [exists None; naive_solver|].
      apply Forall_cons in Hf as [Hp Hf].
      destruct (isIssuable_total bs q rank p Hbs Hq Hr Hp) as [b Hbi]. rewrite Hbi, bind_Ok_l.
      destruct b; [|exists None; naive_solver].
      destruct (set_queue_total q rank i l Hq Hr Hir Hf) as (q' & Hset & _).
      rewrite bind_Ok_l, Hset, bind_Ok_l. eexists. split; [done|]. intros p0 q0 [= <- <-].
      pose proof Hp as [Hpr _].
      apply (Hdone i); try done. exists [], l. rewrite Hpr. cbn.
      split_and!; try done; try lia. by constructor.
    + pose proof (qk_struct Hcfg) as Hq'. rewrite bool_decide_true in Hq'; done.
  - destruct (index_pid pid) as [Hi Hir]; [by rewrite Hk|by apply Hpid|].
    destruct (take_from_spec (tp_eligible c qc bs q) q rank pid pid Hq Hr Hi Hir)
      as (x & -> & Hx); [intros; apply Htot; by rewrite ?Hk|].
    exists x. split; [done|]. intros p q' ->. destruct Hx as (Hrem & Hpr & prev & He).
    destruct (eligible_issuable bs q prev p) as (_ & _ & Hel & _); destruct (Hel He). by eapply Hdone.
  - destruct (index_pid pid) as [Hi Hir]; [by rewrite Hk|by apply Hpid|].
    destruct (take_from_spec (tpd_eligible c qc bs q) q rank pid pid Hq Hr Hi Hir)
      as (x & -> & Hx); [intros; apply Htot; by rewrite ?Hk|].
    exists x. split; [done|]. intros p q' ->. destruct Hx as (Hrem & Hpr & prev & He).
    destruct (eligible_issuable bs q prev p) as (_ & _ & _ & Hel & _); destruct (Hel He). by eapply Hdone.
  - destruct (qw_last _ Hq Hk) as [_ Hl1].
    destruct (index_pid (cq_lastPID1 q)) as [Hi1 Hir1]; [by rewrite Hk|done|].
    destruct (take_from_spec (fa_eligible_last c bs q) q rank _ _ Hq Hr Hi1 Hir1)
      as (x & -> & Hx); [intros; by apply Htot|]. rewrite bind_Ok_l.
    destruct x as [[p q']|].
    { eexists. split; [done|]. intros p0 q0 [= <- <-]. destruct Hx as (Hrem & Hpr & prev & He).
      destruct (eligible_issuable bs q prev p) as (_ & Hel & _); destruct (Hel He). eapply Hdone; [done..|]. by left. }
    destruct (index_pid pid) as [Hi Hir]; [by rewrite Hk|by apply Hpid|].
    destruct (take_from_spec (fa_eligible c qc bs q) q rank pid pid Hq Hr Hi Hir)
      as (x & -> & Hx'); [intros; apply Htot; by rewrite ?Hk|].
    exists x. split; [done|]. intros p q' ->. destruct Hx' as (Hrem & Hpr & prev & He).
    destruct (eligible_issuable bs q prev p) as (_ & _ & _ & _ & Hel); destruct (Hel He). eapply Hdone; [done..|]. by right.
Qed.


(** * The search goes round once *)

(** The positions are numbered in the order in which they are visited. *)
Definition pos_ok (pos : Z * Z) : Prop := 0 <= pos.1 < NUM_RANKS c /\ 0 <= pos.2 < NUM_BANKS c.
Definition by_rank : bool :=
  match q_kind qc, queuingStructure c with Q_Base, PerRank => true | _, _ => false end.
Definition cycle : Z := if by_rank then NUM_RANKS c else NUM_RANKS c * NUM_BANKS c.
Definition idx (pos : Z * Z) : Z :=
  if by_rank then pos.1 else
  match schedulingPolicy c with
  | RankThenBankRoundRobin => pos.2 * NUM_RANKS c + pos.1
  | BankThenRankRoundRobin => pos.1 * NUM_BANKS c + pos.2
  end.

Lemma cycle_pos : 0 < cycle <= NUM_RANKS c * NUM_BANKS c.
Proof. pose proof (qk_ranks Hcfg). pose proof (qk_banks Hcfg). unfold cycle. destruct by_rank; nia. Qed.

Lemma idx_range pos : pos_ok pos -> 0 <= idx pos < cycle.
Proof.
  intros [H1 H2]. unfold idx, cycle. destruct by_rank; [lia|].
  destruct (schedulingPolicy c); nia.
Qed.

Lemma nextRankAndBank_ok pos : pos_ok pos -> pos_ok (nextRankAndBank c pos).
Proof.
  destruct pos as [r b]. intros [H1 H2]. cbn [fst snd] in *.
  pose proof (qk_ranks Hcfg). pose proof (qk_banks Hcfg).
  unfold nextRankAndBank, pos_ok. rewrite !u32_small by lia.
  destruct (schedulingPolicy c); repeat case_match; zb; cbn; lia.
Qed.

(** The next position has the next number, and the search is back when the number
    is that of the start. *)
Lemma advance_idx pos : pos_ok pos -> pos_ok (advance c qc pos) /\
  idx (advance c qc pos) = (idx pos + 1) mod cycle.
Proof.
  intros Hp. pose proof Hp as [H1 H2]. pose proof (qk_ranks Hcfg). pose proof (qk_banks Hcfg).
  pose proof (nextRankAndBank_ok pos Hp) as Hn. revert Hn.
  unfold advance, idx, cycle, by_rank.
  assert (Hgen : pos_ok (nextRankAndBank c pos) -> pos_ok (nextRankAndBank c pos) /\
    match schedulingPolicy c with
    | RankThenBankRoundRobin =>
        (nextRankAndBank c pos).2 * NUM_RANKS c + (nextRankAndBank c pos).1
    | BankThenRankRoundRobin =>
        (nextRankAndBank c pos).1 * NUM_BANKS c + (nextRankAndBank c pos).2
    end = (match schedulingPolicy c with
           | RankThenBankRoundRobin => pos.2 * NUM_RANKS c + pos.1
           | BankThenRankRoundRobin => pos.1 * NUM_BANKS c + pos.2
           end + 1) mod (NUM_RANKS c * NUM_BANKS c)).
  { intros Hn. split; [done|]. destruct pos as [r b]. cbn [fst snd] in *.
    unfold nextRankAndBank. rewrite !u32_small by lia.
    destruct (schedulingPolicy c); repeat case_match; zb; cbn [fst snd].
    - subst. rewrite Z.mod_eq by nia.
      replace (b * NUM_RANKS c + r + 1) with (1 * (NUM_RANKS c * NUM_BANKS c)) by nia.
      rewrite Z.div_mul by nia. lia.
    - rewrite Z.mod_small by nia. nia.
    - rewrite Z.mod_small by nia. nia.
    - rewrite Z.mod_eq by nia.
      replace (r * NUM_BANKS c + b + 1) with (1 * (NUM_RANKS c * NUM_BANKS c)) by nia.
      rewrite Z.div_mul by nia. lia.
    - rewrite Z.mod_small by nia. nia.
    - rewrite Z.mod_small by nia. nia. }
  destruct (q_kind qc); [destruct (queuingStructure c)|..]; try apply Hgen.
  intros _. split; [|done]. split; [|done]. cbn. apply Z.mod_pos_bound. lia.
Qed.

Lemma back_at_idx start pos : pos_ok start -> pos_ok pos ->
  back_at c qc start pos = true <-> idx start = idx pos.
Proof.
  intros [H1 H2] [H3 H4]. pose proof (qk_ranks Hcfg). pose proof (qk_banks Hcfg).
  unfold back_at, idx, by_rank.
  assert (Hgen : (start.1 =? pos.1) && (start.2 =? pos.2) = true <->
    match schedulingPolicy c with
    | RankThenBankRoundRobin => start.2 * NUM_RANKS c + start.1
    | BankThenRankRoundRobin => start.1 * NUM_BANKS c + start.2
    end = match schedulingPolicy c with
    | RankThenBankRoundRobin => pos.2 * NUM_RANKS c + pos.1
    | BankThenRankRoundRobin => pos.1 * NUM_BANKS c + pos.2
    end).
  { rewrite andb_true_iff, !Z.eqb_eq. split; [by intros [-> ->]|].
    destruct (schedulingPolicy c); intros E.
    - destruct (Z.div_mod_unique (NUM_RANKS c) start.2 pos.2 start.1 pos.1); lia.
    - destruct (Z.div_mod_unique (NUM_BANKS c) start.1 pos.1 start.2 pos.2); lia. }
  destruct (q_kind qc); [destruct (queuingStructure c)|..]; try apply Hgen.
  apply Z.eqb_eq.
Qed.


Lemma with_next_wf q pos : queue_wf q -> pos_ok pos -> queue_wf (with_cq_next pos.1 pos.2 q).
Proof. intros [] Hp. by split. Qed.

Lemma turn_ok_same q q' : cq_clock q' = cq_clock q -> turn_ok q -> turn_ok q'.
Proof.
  intros Hc Ht Hk. specialize (Ht Hk). revert Ht.
  unfold getCurrentPID, isBufferTime, getCurrentPID, turn_clock. by rewrite Hc.
Qed.

(** [try_pos] does not look at where the search is. *)
Lemma try_pos_next bs pid pos pos' q : 
  try_pos c qc bs pid pos (with_cq_next pos'.1 pos'.2 q) = Ok None <->
  try_pos c qc bs pid pos q = Ok None.
Proof.
  assert (Hset : forall r k l, set_bankQueue r k l (with_cq_next pos'.1 pos'.2 q) =
    (q' ← set_bankQueue r k l q; Ok (with_cq_next pos'.1 pos'.2 q'))).
  { intros r k l. unfold set_bankQueue. cbn. destruct (arr_get _ _) as [row|]; [|done]. cbn.
    destruct (arr_set _ _ _) as [row'|]; [|done]. cbn. by destruct (arr_set _ _ _). }
  assert (Htf : forall ok r k, take_from c qc ok r k (with_cq_next pos'.1 pos'.2 q) =
    (x ← take_from c qc ok r k q;
     Ok match x with Some (p, q') => Some (p, with_cq_next pos'.1 pos'.2 q') | None => None end)).
  { intros ok r k. unfold take_from, getCommandQueue, setCommandQueue, queue_at. cbn.
    destruct (queue_index c qc k); [|done]. cbn. destruct (arr_get _ _) as [row|]; [|done]. cbn.
    destruct (arr_get row _) as [l|]; [|done]. cbn. destruct (scan ok None l) as [[[p l']|]|]; [|done..].
    cbn. rewrite Hset. by destruct (set_bankQueue _ _ _ q). }
  destruct pos as [rank bank]. unfold try_pos.
  change (rank_waits (with_cq_next pos'.1 pos'.2 q) rank) with (rank_waits q rank).
  change (cq_lastPID1 (with_cq_next pos'.1 pos'.2 q)) with (cq_lastPID1 q).
  destruct (rank_waits q rank); [by destruct (q_kind qc)|]. destruct (q_kind qc).
  - destruct (queuingStructure c).
    { rewrite Htf. change (base_eligible c bs (with_cq_next pos'.1 pos'.2 q))
        with (base_eligible c bs q). destruct (take_from _ _ _ _ _ _) as [[[]|]|]; cbn; naive_solver. }
    all: unfold getCommandQueue, setCommandQueue, queue_at; cbn;
      destruct (queue_index c qc bank); [|done]; cbn;
      destruct (arr_get _ _) as [row|]; [|done]; cbn;
      destruct (arr_get row _) as [[|p l]|]; [done| |done]; cbn;
      change (isIssuable c bs (with_cq_next pos'.1 pos'.2 q) p) with (isIssuable c bs q p);
      destruct (isIssuable c bs q p) as [[|]|]; [|done..]; cbn; rewrite Hset;
      destruct (set_bankQueue _ _ _ q); cbn; naive_solver.
  - rewrite Htf. change (tp_eligible c qc bs (with_cq_next pos'.1 pos'.2 q))
      with (tp_eligible c qc bs q). destruct (take_from _ _ _ _ _ _) as [[[]|]|]; cbn; naive_solver.
  - rewrite Htf. change (tpd_eligible c qc bs (with_cq_next pos'.1 pos'.2 q))
      with (tpd_eligible c qc bs q). destruct (take_from _ _ _ _ _ _) as [[[]|]|]; cbn; naive_solver.
  - rewrite !Htf. change (fa_eligible_last c bs (with_cq_next pos'.1 pos'.2 q))
      with (fa_eligible_last c bs q). change (fa_eligible c qc bs (with_cq_next pos'.1 pos'.2 q))
      with (fa_eligible c qc bs q).
    destruct (take_from _ _ (fa_eligible_last c bs q) _ _ _) as [[[]|]|]; cbn; [naive_solver| |done].
    destruct (take_from _ _ _ _ _ _) as [[[]|]|]; cbn; naive_solver.
Qed.


(** How many positions are left before the search is back at the start. *)
Definition left_of (start pos : Z * Z) : Z := (idx start - idx pos - 1) mod cycle + 1.

Lemma mod_dec_1 a n : 0 < n -> a mod n <> 0 -> (a - 1) mod n = a mod n - 1.
Proof.
  intros Hn Ha. pose proof (Z.mod_pos_bound a n Hn).
  rewrite <- Zminus_mod_idemp_l. apply Z.mod_small. lia.
Qed.

Lemma left_advance start pos : pos_ok start -> pos_ok pos ->
  idx start <> idx (advance c qc pos) ->
  left_of start (advance c qc pos) = left_of start pos - 1.
Proof.
  intros Hs Hp Hne. destruct (advance_idx pos Hp) as [Hok Hi]. pose proof cycle_pos as Hc.
  pose proof (idx_range _ Hs) as Hr1. pose proof (idx_range _ Hok) as Hr2.
  unfold left_of. rewrite Hi in *.
  assert (E : (idx start - (idx pos + 1) mod cycle - 1) mod cycle =
              (idx start - idx pos - 1 - 1) mod cycle).
  { replace (idx start - (idx pos + 1) mod cycle - 1) with
      (idx start - 1 - (idx pos + 1) mod cycle) by lia.
    rewrite Zminus_mod_idemp_r. f_equal. lia. }
  rewrite E, mod_dec_1; [lia|lia|]. intros H0.
  apply Hne. replace (idx start - idx pos - 1) with (idx start - (idx pos + 1)) in H0 by lia.
  rewrite <- Zminus_mod_idemp_r in H0.
  apply Z.mod_divide in H0 as [z Hz]; [|lia].
  assert (z = 0) by nia. lia.
Qed.

Lemma same_idx pos pos' : pos_ok pos -> pos_ok pos' -> by_rank = false ->
  (idx pos - idx pos') mod cycle < 1 -> pos = pos'.
Proof.
  intros Hp Hp' Hb Hlt. pose proof cycle_pos as Hc.
  pose proof (Z.mod_pos_bound (idx pos - idx pos') cycle (proj1 Hc)).
  assert (H0 : (idx pos - idx pos') mod cycle = 0) by lia.
  apply Z.mod_divide in H0 as [z Hz]; [|lia].
  pose proof (idx_range _ Hp). pose proof (idx_range _ Hp'). assert (z = 0) by nia.
  assert (Hi : idx pos = idx pos') by lia. apply back_at_idx in Hi; [|done..].
  unfold back_at, by_rank in *. destruct pos, pos'. cbn [fst snd] in *.
  destruct (q_kind qc); [destruct (queuingStructure c)|..]; zb; congruence.
Qed.

(** The search: it returns with the fuel it has; it has taken a command, or gone
    past every position left. *)
Lemma search_spec bs pid start fuel : table_wf bs -> pos_ok start ->
  (q_kind qc <> Q_Base -> 0 <= pid < q_num_pids qc) ->
  forall q, queue_wf q -> turn_ok q ->
  left_of start (cq_nextRank q, cq_nextBank q) <= Z.of_nat fuel ->
  exists r q1 pos, search c qc fuel bs pid start q = Ok (r, q1) /\ pos_ok pos /\
    q1 = with_cq_next pos.1 pos.2 q /\
    match r with
    | Some (p, q') => took bs q1 pid p q'
    | None => forall pos', pos_ok pos' ->
        (idx pos' - idx (cq_nextRank q, cq_nextBank q)) mod cycle <
          left_of start (cq_nextRank q, cq_nextBank q) ->
        by_rank = false -> try_pos c qc bs pid pos' q = Ok None
    end.
Proof.
  intros Hbs Hs Hpid. induction fuel as [|fuel IH]; intros q Hq Ht Hf.
  { unfold left_of in Hf. pose proof cycle_pos.
    pose proof (Z.mod_pos_bound (idx start - idx (cq_nextRank q, cq_nextBank q) - 1) cycle). lia. }
  cbn [search]. set (pos := (cq_nextRank q, cq_nextBank q)) in *.
  assert (Hpos : pos_ok pos) by (destruct (qw_next _ Hq); by split).
  destruct (try_pos_spec bs q pid pos Hbs Hq Ht (proj1 Hpos) (proj2 Hpos) Hpid) as (r & Hr & Hspec).
  rewrite Hr, bind_Ok_l. destruct r as [[p q']|].
  { exists (Some (p, q')), q, pos. split_and!; try done; [apply Hpos..|by destruct q|by apply Hspec]. }
  destruct (advance_idx pos Hpos) as [Hok Hi]. set (pos1 := advance c qc pos) in *.
  destruct (back_at c qc start pos1) eqn:Hb.
  - apply back_at_idx in Hb; [|done..].
    exists None, (with_cq_next pos1.1 pos1.2 q), pos1. split_and!; try done; [apply Hok..|].
    intros pos' Hp' Hlt Hnb. assert (Hl1 : left_of start pos = 1).
    { unfold left_of. rewrite Hb, Hi. rewrite <- Z.sub_add_distr, Zminus_mod_idemp_l.
      by rewrite Z.sub_diag. }
    rewrite (same_idx pos' pos Hp' Hpos); [done|done|lia].
  - assert (Hne : idx start <> idx pos1).
    { intros E. apply back_at_idx in E; [congruence|done..]. }
    pose proof (left_advance start pos Hs Hpos Hne) as Hl. fold pos1 in Hl.
    destruct (IH (with_cq_next pos1.1 pos1.2 q)) as (r & q1 & pos2 & Hrun & Hok2 & -> & Hr2).
    + by apply with_next_wf.
    + by apply (turn_ok_same q).
    + cbn. rewrite <- surjective_pairing. lia.
    + exists r, (with_cq_next pos2.1 pos2.2 q), pos2. split_and!; try done; [apply Hok2..|].
      destruct r as [[p q']|]; [done|]. intros pos' Hp' Hlt Hnb.
      destruct (decide (idx pos' = idx pos)) as [E|Hd].
      { rewrite (same_idx pos' pos Hp' Hpos); [done|done|]. rewrite E, Z.sub_diag.
        by rewrite Zmod_0_l. }
      apply (try_pos_next bs pid pos' pos1), Hr2; [done| |done].
      cbn. rewrite <- surjective_pairing, Hl, Hi.
      rewrite Zminus_mod_idemp_r. rewrite Z.sub_add_distr, mod_dec_1; [lia|apply cycle_pos|].
      intros H0. apply Hd. pose proof (idx_range _ Hp'). pose proof (idx_range _ Hpos).
      apply Z.mod_divide in H0 as [z Hz]; [|pose proof cycle_pos; lia].
      assert (z = 0) by nia. lia.
Qed.


(** * [pop] *)

(** What the bank of a command must look like for it to go. *)
Definition bank_ready (now : Z) (p : BusPacket) (st : BankState) : Prop :=
  match bp_type p with
  | ACTIVATE => (bs_state st = Idle \/ bs_state st = Refreshing) /\ bs_nextActivate st <= now
  | READ_P | READ => bs_state st = RowActive /\ bs_nextRead st <= now /\ bp_row p = bs_openRow st
  | WRITE_P | WRITE => bs_state st = RowActive /\ bs_nextWrite st <= now /\ bp_row p = bs_openRow st
  | PRECHARGE => bs_state st = RowActive /\ bs_nextPrecharge st <= now
  | _ => False
  end.

Lemma isIssuable_ready bs q p : isIssuable c bs q p = Ok true ->
  exists st, bank_at bs (bp_rank p) (bp_bank p) = Ok st /\ bank_ready (cq_clock q) p st.
Proof.
  unfold isIssuable, bank_ready. intros H. apply bind_Ok in H as (st & Hst & H). exists st.
  split; [done|]. destruct (bp_type p); try discriminate.
  6: injection H as H.
  1-5: match type of H with context [if ?b then _ else _] => destruct b eqn:E; [|discriminate] end;
    clear H; rename E into H.
  all: rewrite ?andb_true_iff, ?orb_true_iff, ?bool_decide_eq_true, ?Z.leb_le, ?Z.eqb_eq in H; tauto.
Qed.

(** Issuing does not depend on the position of the search or the last thread. *)
Lemma took_ready bs q pid p q' : took bs q pid p q' ->
  exists st, bank_at bs (bp_rank p) (bp_bank p) = Ok st /\ bank_ready (cq_clock q) p st.
Proof. intros (k & _ & Hi & _). by apply isIssuable_ready in Hi. Qed.

(** [q'] has the queues of [q] but for [p], which is taken out of queue [k]. *)
Definition unqueued (q : CommandQueue) (k : Z) (p : BusPacket) (q' : CommandQueue) : Prop :=
  exists q1, removed q k p q1 /\ cq_queues q' = cq_queues q1.

(** The fields that [pop] leaves alone. *)
Definition same_rest (q q' : CommandQueue) : Prop :=
  cq_clock q' = cq_clock q /\ cq_rowAccess q' = cq_rowAccess q /\
  cq_nextRankPRE q' = cq_nextRankPRE q /\ cq_nextBankPRE q' = cq_nextBankPRE q.

Definition same_refresh (q q' : CommandQueue) : Prop :=
  cq_refreshWaiting q' = cq_refreshWaiting q /\ cq_refreshRank q' = cq_refreshRank q.

(** The queues of a new queue depend only on the queues of the old one. *)
Lemma removed_same q1 q k p q' : cq_queues q1 = cq_queues q -> removed q1 k p q' ->
  exists q2, removed q k p q2 /\ cq_queues q2 = cq_queues q'.
Proof.
  intros E (l1 & l2 & Hl & Hset & Hr & Hk & Hf).
  unfold set_bankQueue in Hset. rewrite E in Hset. inv_ok.
  eexists. split.
  - exists l1, l2. unfold queue_at in Hl. rewrite E in Hl. split; [done|].
    split; [|done]. unfold set_bankQueue. rewrite Hx. cbn. rewrite Hx0. cbn. by rewrite Hx1.
  - done.
Qed.

Lemma set_queue_fields q r k l q' : set_bankQueue r k l q = Ok q' ->
  q' = with_cq_queues (cq_queues q') q.
Proof. unfold set_bankQueue. intros H. inv_ok. done. Qed.

Lemma removed_fields q k p q' : removed q k p q' -> q' = with_cq_queues (cq_queues q') q.
Proof. intros (l1 & l2 & _ & Hset & _). by eapply set_queue_fields. Qed.

(** The thread whose commands the class looks at. *)
Definition pid_of (q : CommandQueue) (pid : Z) : Prop :=
  q_kind qc <> Q_Base -> getCurrentPID qc q = Ok pid /\ 0 <= pid < q_num_pids qc.

Lemma pid_total q : turn_ok q -> exists pid,
  (if bool_decide (q_kind qc = Q_Base) then Ok 0 else getCurrentPID qc q) = Ok pid /\ pid_of q pid.
Proof.
  intros Ht. case_bool_decide as Hk; [exists 0; split; [done|]; intros Hn; by destruct (Hn Hk)|].
  destruct (Ht Hk) as [(pid & Hg & Hp) _]. exists pid. by split.
Qed.

(** What the class may take in the state [normalPopClosePage] leaves behind; the
    thread that was on before is the old [lastPID] if the turn has just changed. *)
Definition before_last (q : CommandQueue) (pid : Z) : Z :=
  if negb (cq_lastPID q =? pid) then cq_lastPID q else cq_lastPID1 q.

Definition allowed_pop (q : CommandQueue) (pid k : Z) (p : BusPacket) : Prop :=
  match q_kind qc with
  | Q_Base => True
  | Q_TP | Q_TPD => k = pid /\ (bp_type p = ACTIVATE -> isBufferTime c qc q = Ok false)
  | Q_FA => (k = before_last q pid /\ bp_type p <> ACTIVATE) \/
            (k = pid /\ (bp_type p = ACTIVATE -> isBufferTime c qc q = Ok false))
  end.

Lemma normalPop_spec bs q pid : table_wf bs -> queue_wf q -> turn_ok q -> pid_of q pid ->
  exists r q', normalPopClosePage c qc bs q = Ok (r, q') /\ queue_wf q' /\ same_rest q q' /\
    same_refresh q q' /\ cq_tFAW q' = cq_tFAW q /\
    match r with
    | None => cq_queues q' = cq_queues q /\
        (q_kind qc <> Q_Base -> forall pos, pos_ok pos -> exists q0,
          queue_wf q0 /\ cq_queues q0 = cq_queues q /\ cq_clock q0 = cq_clock q /\ cq_tFAW q0 = cq_tFAW q /\
          cq_rowAccess q0 = cq_rowAccess q /\ same_refresh q q0 /\
          try_pos c qc bs pid pos q0 = Ok None)
    | Some p => exists k, unqueued q k p q' /\ allowed_pop q pid k p /\
        isIssuable c bs q p = Ok true /\ rank_waits q (bp_rank p) = false
    end.
Proof.
  intros Hbs Hq Ht Hpid. unfold normalPopClosePage.
  destruct (pid_total q Ht) as (pid' & Hp & Hpid'). rewrite Hp, bind_Ok_l.
  assert (Epid : q_kind qc <> Q_Base -> pid' = pid).
  { intros Hk. destruct (Hpid Hk), (Hpid' Hk). congruence. }
  set (q0 := if bool_decide (q_kind qc = Q_Base) then q else _).
  assert (Hq0 : queue_wf q0 /\ cq_queues q0 = cq_queues q /\ cq_clock q0 = cq_clock q /\
    cq_tFAW q0 = cq_tFAW q /\ cq_rowAccess q0 = cq_rowAccess q /\ same_rest q q0 /\
    same_refresh q q0 /\ (q_kind qc = Q_FA -> cq_lastPID1 q0 = before_last q pid)).
  { subst q0. unfold before_last. case_bool_decide as Hk.
    - split_and!; try done. by rewrite Hk.
    - rewrite <- (Epid Hk). destruct (Hpid' Hk) as [_ Hr]. destruct Hq.
      pose proof (qk_ranks Hcfg). pose proof (qk_banks Hcfg).
      destruct (cq_lastPID q =? pid'); cbn [negb andb]; (split; [split|]); cbn; try done; try lia.
      + intros Hfa. destruct (qw_last0 Hfa). done.
      + intros Hfa. rewrite bool_decide_true by done. by destruct (qw_last0 Hfa).
      + split_and!; try done. intros Hfa. by rewrite bool_decide_true. }
  destruct Hq0 as (Hwf0 & Equ & Ecl & Efaw & Eacc & Hrest & Href & Hl1). clearbody q0.
  assert (Ht0 : turn_ok q0) by by apply (turn_ok_same q).
  assert (Hs0 : pos_ok (cq_nextRank q0, cq_nextBank q0)) by (destruct (qw_next _ Hwf0); by split).
  destruct (search_spec bs pid' (cq_nextRank q0, cq_nextBank q0) (search_fuel c) Hbs Hs0
    ltac:(intros; by apply Hpid') q0 Hwf0 Ht0) as (r & q1 & pos & Hrun & Hok & -> & Hr).
  { unfold left_of, search_fuel. rewrite Z.sub_diag. pose proof cycle_pos.
    replace (0 - 1) with (-1) by lia.
    pose proof (Z.mod_pos_bound (-1) cycle). lia. }
  rewrite Hrun, bind_Ok_l. destruct r as [[p q']|].
  - destruct Hr as (k & Hrem & Hi & Ha & Hw & Hwf').
    pose proof (removed_fields _ _ _ _ Hrem) as Ef.
    exists (Some p), q'. split; [done|]. split; [done|].
    split; [by rewrite Ef|]. split; [by rewrite Ef|]. split; [by rewrite Ef|].
    destruct (removed_same (with_cq_next pos.1 pos.2 q0) q k p q' Equ Hrem) as (q2 & Hrem2 & E2).
    exists k. split_and!; [by exists q2| | |].
    + revert Ha. unfold allowed, allowed_pop. cbn [cq_lastPID1 with_cq_next].
      change (isBufferTime c qc (with_cq_next pos.1 pos.2 q0)) with (isBufferTime c qc q0).
      replace (isBufferTime c qc q0) with (isBufferTime c qc q)
        by (unfold isBufferTime, getCurrentPID, turn_clock; by rewrite Ecl).
      destruct (q_kind qc) eqn:Hk; rewrite ?Epid by done; try done. by rewrite Hl1.
    + rewrite <- Hi. unfold isIssuable. cbn [cq_clock cq_tFAW cq_rowAccess with_cq_next].
      by rewrite Ecl, Efaw, Eacc.
    + rewrite <- Hw. unfold rank_waits. cbn. destruct Href as [-> ->]. done.
  - exists None, (with_cq_next pos.1 pos.2 q0). split; [done|].
    split; [by apply with_next_wf|]. split; [done|]. split; [done|]. split; [done|].
    split; [done|]. intros Hnb pos' Hp'. exists q0. split_and!; try done.
    rewrite <- Epid by done. apply Hr; [done| |by unfold by_rank; destruct (q_kind qc)].
    unfold left_of. rewrite Z.sub_diag. pose proof cycle_pos as Hc.
    replace (0 - 1) with (-1) by lia. rewrite <- (Z.mod_unique (-1) cycle (-1) (cycle - 1)) by lia.
    pose proof (Z.mod_pos_bound (idx pos' - idx (cq_nextRank q0, cq_nextBank q0)) cycle). lia.
Qed.


(** ** Refreshes *)

Lemma open_row_command_spec bs q r b row l : table_wf bs -> queue_wf q -> 0 <= r < NUM_RANKS c ->
  Forall (packet_ok r) l ->
  exists x, open_row_command c bs q b row l = Ok x /\
    forall p rest, x = Some (p, rest) -> exists l1 l2, l = l1 ++ p :: l2 /\ rest = l1 ++ l2 /\
      isIssuable c bs q p = Ok true /\ bp_type p <> ACTIVATE.
Proof.
  intros Hbs Hq Hr. induction 1 as [|p l Hp _ IH]; cbn [open_row_command].
  { exists None. split; [done|]. by intros. }
  destruct ((bp_row p =? row) && (bp_bank p =? b)).
  - case_bool_decide as Ha; [exists None; split; [done|]; by intros|].
    destruct (isIssuable_total bs q r p Hbs Hq Hr Hp) as [i Hi]. rewrite Hi, bind_Ok_l.
    eexists. split; [done|]. intros p0 rest E. destruct i; [|done]. injection E as <- <-.
    by exists [], l.
  - destruct IH as (x & -> & Hx). rewrite bind_Ok_l. eexists. split; [done|].
    intros p0 rest E. destruct x as [[p1 r1]|]; [|done]. injection E as <- <-.
    destruct (Hx _ _ eq_refl) as (l1 & l2 & -> & -> & ?). by exists (p :: l1), l2.
Qed.

(** The command that clears the way for a refresh. *)
Definition clears (bs : BankTable) (q : CommandQueue) (pid : Z) (p : BusPacket)
    (q' : CommandQueue) : Prop :=
  exists k, removed q k p q' /\ isIssuable c bs q p = Ok true /\ bp_type p <> ACTIVATE /\
    (q_kind qc <> Q_Base -> k = pid) /\ bp_rank p = cq_refreshRank q.

Lemma refresh_scan_spec bs q pid banks : table_wf bs -> queue_wf q ->
  0 <= cq_refreshRank q < NUM_RANKS c -> pid_of q pid ->
  Forall (fun b => 0 <= b < NUM_BANKS c) banks ->
  exists x, refresh_scan c qc bs pid banks q = Ok x /\
    match x with
    | AllClosed => forall b, b ∈ banks -> exists st, bank_at bs (cq_refreshRank q) b = Ok st /\
        bs_state st <> RowActive /\ bs_nextActivate st <= cq_clock q
    | NotYet None => True
    | NotYet (Some (p, q')) => clears bs q pid p q'
    end.
Proof.
  intros Hbs Hq Hr Hpid. induction 1 as [|b banks Hb _ IH]; cbn [refresh_scan].
  { exists AllClosed. split; [done|]. by intros b ?%elem_of_nil. }
  set (k := if bool_decide (q_kind qc = Q_Base) then b else pid).
  assert (Hi : exists i, queue_index c qc k = Ok i /\ 0 <= i < numBankQueues c qc /\
    (q_kind qc <> Q_Base -> i = pid)).
  { subst k. case_bool_decide as Hk.
    - destruct (index_bank b Hk Hb) as (i & ? & ?). exists i. split_and!; try done; lia.
    - destruct (Hpid Hk) as [_ Hp]. destruct (index_pid pid Hk Hp). exists pid. split_and!; try done; lia. }
  destruct Hi as (i & Hi & Hir & Hip).
  destruct (queue_at_total q (cq_refreshRank q) i Hq Hr Hir) as (l & Hl & Hf).
  unfold getCommandQueue, setCommandQueue. rewrite Hi, !bind_Ok_l, Hl, bind_Ok_l.
  destruct (bank_at_total bs (cq_refreshRank q) b Hbs Hr Hb) as [st Hst]. rewrite Hst, bind_Ok_l.
  case_bool_decide as Ha.
  - destruct (open_row_command_spec bs q (cq_refreshRank q) b (bs_openRow st) l Hbs Hq Hr Hf)
      as (x & -> & Hx). rewrite bind_Ok_l. destruct x as [[p rest]|]; [|by exists (NotYet None)].
    destruct (Hx _ _ eq_refl) as (l1 & l2 & -> & -> & Hiss & Hty).
    assert (Hpr : bp_rank p = cq_refreshRank q).
    { apply Forall_app in Hf as [_ Hf]. apply Forall_cons in Hf as [[? _] _]. done. }
    destruct (set_queue_total q (cq_refreshRank q) i (l1 ++ l2) Hq Hr Hir) as (q' & Hset & _).
    { apply Forall_app in Hf as [H1 H2]. apply Forall_cons in H2 as [_ H2]. by apply Forall_app. }
    rewrite bind_Ok_l, Hset, bind_Ok_l. eexists. split; [done|]. exists i.
    split; [|by split_and!; try done; eauto]. exists l1, l2. rewrite Hpr.
    split_and!; try done; lia.
  - destruct (Z.ltb_spec (cq_clock q) (bs_nextActivate st)); [by exists (NotYet None)|].
    destruct IH as (x & -> & Hx). exists x. split; [done|].
    destruct x as [|[[p q']|]]; [|done..]. intros b' [->|Hb']%elem_of_cons; [|by apply Hx].
    exists st. by split_and!.
Qed.

(** [p] is the refresh of the rank that is due, whose banks are all closed and ready. *)
Definition refresh_ready (bs : BankTable) (q : CommandQueue) (p : BusPacket) : Prop :=
  cq_refreshWaiting q = true /\
  p = BusPacket_new REFRESH 0 0 0 (cq_refreshRank q) 0 0 /\
  (forall b, 0 <= b < NUM_BANKS c -> exists st, bank_at bs (cq_refreshRank q) b = Ok st /\
     bs_state st <> RowActive /\ bs_nextActivate st <= cq_clock q) /\
  exists st, bank_at bs (cq_refreshRank q) 0 = Ok st /\ bs_state st <> PowerDown.

Lemma refreshPop_spec bs q pid : table_wf bs -> queue_wf q -> turn_ok q -> pid_of q pid ->
  cq_refreshWaiting q = true ->
  exists r q', refreshPopClosePage c qc bs q = Ok (r, q') /\ queue_wf q' /\
    match r with
    | None => q' = q
    | Some p => clears bs q pid p q' \/
        (refresh_ready bs q p /\ q' = with_cq_refresh (2 ^ 32 - 1) false q)
    end.
Proof.
  intros Hbs Hq Ht Hpid Hw. unfold refreshPopClosePage.
  destruct (pid_total q Ht) as (pid' & Hp & Hpid'). rewrite Hp, bind_Ok_l.
  pose proof (qw_refresh _ Hq Hw) as Hr.
  destruct (refresh_scan_spec bs q pid' (zrange (NUM_BANKS c)) Hbs Hq Hr Hpid') as (x & -> & Hx).
  { apply Forall_forall. intros b Hb. apply elem_of_seqZ in Hb. lia. }
  rewrite bind_Ok_l. destruct x as [|[[p q']|]].
  - destruct (bank_at_total bs (cq_refreshRank q) 0 Hbs Hr) as [st Hst].
    { pose proof (qk_banks Hcfg). lia. }
    rewrite Hst, bind_Ok_l. clear Hp.
    case_bool_decide as Hpd; [exists None, q; by split_and!|].
    eexists _, _. split; [done|]. split.
    { destruct Hq. split; cbn; try done. }
    right. split; [|done]. split_and!; try done.
    + intros b Hb. apply Hx. apply elem_of_seqZ. lia.
    + by exists st.
  - destruct Hx as (k & Hrem & ?). exists (Some p), q'. split; [done|].
    split; [by eapply removed_wf|]. left. exists k. split; [done|].
    split_and!; try naive_solver. intros Hk. destruct (Hpid Hk), (Hpid' Hk).
    destruct H as (_ & _ & Hkk & _). rewrite (Hkk Hk). congruence.
  - exists None, q. by split_and!.
Qed.

(** ** The whole of [pop] *)

Definition ticked (q : CommandQueue) : CommandQueue :=
  with_cq_tFAW (tick_tFAW <$> cq_tFAW q) q.

Lemma ticked_wf q : queue_wf q -> queue_wf (ticked q).
Proof. intros []. split; cbn; try done. by rewrite length_fmap. Qed.

(** The window of rank [r] after a command. *)
Definition faw_after (p : BusPacket) (w : list (list Z)) : list (list Z) :=
  if bool_decide (bp_type p = ACTIVATE)
  then alter (fun l => l ++ [tFAW c]) (Z.to_nat (bp_rank p)) w else w.

Lemma pop_finish_spec p q : queue_wf q -> 0 <= bp_rank p < NUM_RANKS c ->
  exists q', pop_finish c p q = Ok q' /\ queue_wf q' /\ cq_queues q' = cq_queues q /\
    same_rest q q' /\ same_refresh q q' /\ cq_tFAW q' = faw_after p (cq_tFAW q).
Proof.
  intros Hq Hr. unfold pop_finish.
  set (q1 := if (0 <? AL c) && cq_sendAct q then _ else _).
  assert (H1 : queue_wf q1 /\ cq_queues q1 = cq_queues q /\ same_rest q q1 /\
    same_refresh q q1 /\ cq_tFAW q1 = cq_tFAW q).
  { subst q1. destruct ((0 <? AL c) && cq_sendAct q).
    - split_and!; try done. destruct Hq. by split.
    - split_and!; try done.
      apply (with_next_wf (with_cq_sendAct true q)); [destruct Hq; by split|].
      apply nextRankAndBank_ok. apply (qw_next _ Hq). }
  destruct H1 as (Hwf & Hqs & Hrest & Href & Hfaw). clearbody q1. unfold faw_after.
  case_bool_decide; [|exists q1; by split_and!].
  destruct (arr_get_total (cq_tFAW q1) (bp_rank p)) as [w Hw]; [rewrite (qw_tFAW _ Hwf); lia|].
  destruct (arr_set_total (cq_tFAW q1) (bp_rank p) (w ++ [tFAW c])) as [v Hv];
    [rewrite (qw_tFAW _ Hwf); lia|].
  rewrite Hw, bind_Ok_l, Hv, bind_Ok_l. eexists. split; [done|].
  apply arr_get_Ok in Hw as [_ Hw]. apply arr_set_Ok in Hv as [_ ->]. split.
  - destruct Hwf. split; cbn; try done. by rewrite length_insert.
  - split_and!; try done; cbn. rewrite <- Hfaw, list_insert_alter. apply list_alter_ext; [|done].
    intros x Hx. congruence.
Qed.

(** How [pop] may choose a command of queue [k]: as the class searches, or to clear
    the way for a refresh. *)
Definition chosen (q : CommandQueue) (pid k : Z) (p : BusPacket) : Prop :=
  (allowed_pop q pid k p /\ rank_waits q (bp_rank p) = false) \/
  (bp_type p <> ACTIVATE /\ (q_kind qc <> Q_Base -> k = pid) /\ cq_refreshWaiting q = true /\
   bp_rank p = cq_refreshRank q).

(** No position has a command for the class to take. *)
Definition nothing_to_take (bs : BankTable) (q : CommandQueue) (pid : Z) : Prop :=
  q_kind qc <> Q_Base -> forall pos, pos_ok pos -> exists q0,
    queue_wf q0 /\ cq_queues q0 = cq_queues q /\ cq_clock q0 = cq_clock q /\ cq_tFAW q0 = cq_tFAW q /\
    cq_rowAccess q0 = cq_rowAccess q /\ same_refresh q q0 /\
    try_pos c qc bs pid pos q0 = Ok None.

Definition pop_result (bs : BankTable) (q : CommandQueue) (pid : Z) (r : option BusPacket)
    (q' : CommandQueue) : Prop :=
  match r with
  | None => cq_queues q' = cq_queues q /\ same_refresh q q' /\ cq_tFAW q' = cq_tFAW q /\
      nothing_to_take bs q pid
  | Some p => cq_tFAW q' = faw_after p (cq_tFAW q) /\
      ((refresh_ready bs q p /\ cq_queues q' = cq_queues q /\ cq_refreshWaiting q' = false) \/
       (exists k, unqueued q k p q' /\ chosen q pid k p /\ isIssuable c bs q p = Ok true /\
          same_refresh q q'))
  end.

(** The end of [pop], after a search that left everything but the queues, the position
    and the refresh alone. *)
Lemma finish_spec q1 q2 p : queue_wf q2 -> 0 <= bp_rank p < NUM_RANKS c ->
  same_rest q1 q2 -> cq_tFAW q2 = cq_tFAW q1 ->
  exists q', pop_finish c p q2 = Ok q' /\ queue_wf q' /\ same_rest q1 q' /\
    cq_queues q' = cq_queues q2 /\ same_refresh q2 q' /\
    cq_tFAW q' = faw_after p (cq_tFAW q1).
Proof.
  intros Hw Hr (?&?&?&?) Ef. destruct (pop_finish_spec p q2 Hw Hr)
    as (q' & ? & ? & ? & (?&?&?&?) & ? & ?). exists q'.
  rewrite <- Ef. unfold same_rest. split_and!; try done; congruence.
Qed.

Lemma removed_rank q k p q' : removed q k p q' -> 0 <= bp_rank p < NUM_RANKS c.
Proof. by intros (?&?&?&?&?&_). Qed.

Lemma normal_finish bs q pid : table_wf bs -> queue_wf q -> turn_ok q -> pid_of q pid ->
  exists r q', (r ← normalPopClosePage c qc bs q;
     match r with
     | (None, q) => Ok (None, q)
     | (Some p, q) => q ← pop_finish c p q; Ok (Some p, q)
     end) = Ok (r, q') /\ queue_wf q' /\ same_rest q q' /\ pop_result bs q pid r q'.
Proof.
  intros Hbs Hq Ht Hpid. destruct (normalPop_spec bs q pid Hbs Hq Ht Hpid)
    as (r & q2 & Hn & Hwf & Hrest & Href & Hf & Hr). rewrite Hn, bind_Ok_l. destruct r as [p|].
  - destruct Hr as (k & (q3 & Hrem & Eq) & Ha & Hi & Hw).
    destruct (finish_spec q q2 p Hwf (removed_rank _ _ _ _ Hrem) Hrest Hf)
      as (q' & -> & Hwf' & Hrest' & Eq' & Href' & Hf').
    exists (Some p), q'. split_and!; try done. split; [done|]. right. exists k. split_and!; try done.
    + exists q3. split; [done|congruence].
    + by left.
    + unfold same_refresh in *. destruct Href, Href'. split; congruence.
  - exists None, q2. split_and!; try done. by destruct Hr as [Hqs Hnone].
Qed.

Lemma pop_spec bs q pid : table_wf bs -> queue_wf q -> turn_ok q -> pid_of q pid ->
  exists r q', pop c qc bs q = Ok (r, q') /\ queue_wf q' /\ same_rest q q' /\
    pop_result bs (ticked q) pid r q'.
Proof.
  intros Hbs Hq Ht Hpid. unfold pop. rewrite (qk_close Hcfg). unfold pop_close.
  fold (ticked q). pose proof (ticked_wf _ Hq) as Hq1.
  assert (Ht1 : turn_ok (ticked q)) by done. assert (Hp1 : pid_of (ticked q) pid) by done.
  change (same_rest q) with (same_rest (ticked q)). set (q1 := ticked q) in *. clearbody q1.
  pose proof (normal_finish bs q1 pid Hbs Hq1 Ht1 Hp1) as Hgo.
  destruct (cq_refreshWaiting q1) eqn:Hw; [|exact Hgo].
  destruct (refreshPop_spec bs q1 pid Hbs Hq1 Ht1 Hp1 Hw) as (r & q2 & Hr & Hwf & Hspec).
  rewrite Hr, bind_Ok_l. destruct r as [p|]; [|subst q2; exact Hgo]. rewrite bind_Ok_l.
  destruct Hspec as [(k & Hrem & Hi & Hty & Hk & Hrk)|[Hrdy ->]].
  - pose proof (removed_fields _ _ _ _ Hrem) as Ef.
    destruct (finish_spec q1 q2 p Hwf (removed_rank _ _ _ _ Hrem))
      as (q' & -> & Hwf' & Hrest' & Eq' & Href' & Hf'); [by rewrite Ef..|].
    exists (Some p), q'. split_and!; try done. split; [done|]. right. exists k. split_and!; try done.
    + by exists q2.
    + right. by split_and!.
    + rewrite Ef in Href'. done.
  - pose proof Hrdy as (_ & -> & _).
    destruct (finish_spec q1 (with_cq_refresh (2 ^ 32 - 1) false q1)
      (BusPacket_new REFRESH 0 0 0 (cq_refreshRank q1) 0 0) Hwf)
      as (q' & -> & Hwf' & Hrest' & Eq' & Href' & Hf'); try done; [by apply (qw_refresh _ Hq1)|].
    eexists _, q'. split_and!; try done. split; [done|]. left. split_and!; try done.
    by destruct Href'.
Qed.

(** * Filling *)

Lemma queue_at_set q r k l q' : set_bankQueue r k l q = Ok q' ->
  queue_at q' r k = Ok l /\ forall r' k', (r', k') <> (r, k) -> queue_at q' r' k' = queue_at q r' k'.
Proof.
  unfold set_bankQueue. intros Hset. inv_ok. unfold queue_at. cbn. split.
  - rewrite (arr_get_set_eq _ _ _ _ Hx1), bind_Ok_l. by eapply arr_get_set_eq.
  - intros r' k' Hne. destruct (decide (r' = r)) as [->|Hr].
    + rewrite (arr_get_set_eq _ _ _ _ Hx1), Hx, !bind_Ok_l. eapply arr_get_set_ne; [|done].
      congruence.
    + by rewrite (arr_get_set_ne _ _ _ _ _ (not_eq_sym Hr) Hx1).
Qed.

(** Taking a command out of a queue leaves the other queues as they are. *)
Lemma unqueued_exact q k p q' : unqueued q k p q' ->
  exists l1 l2, queue_at q (bp_rank p) k = Ok (l1 ++ p :: l2) /\
    queue_at q' (bp_rank p) k = Ok (l1 ++ l2) /\
    forall r i, (r, i) <> (bp_rank p, k) -> queue_at q' r i = queue_at q r i.
Proof.
  intros (q1 & (l1 & l2 & Hl & Hset & _) & Eq). exists l1, l2. split; [done|].
  destruct (queue_at_set _ _ _ _ _ Hset) as [H1 H2]. unfold queue_at in *. by rewrite Eq.
Qed.

(** No queue is longer than its depth, and with turns each holds commands of its own
    thread. *)
Record queue_fill (q : CommandQueue) : Prop := {
  qf_depth : forall r k l, queue_at q r k = Ok l -> Z.of_nat (length l) <= CMD_QUEUE_DEPTH c;
  qf_thread : q_kind qc <> Q_Base -> forall r k l, queue_at q r k = Ok l ->
    Forall (fun p => bp_threadID p = k) l
}.

(** The queue that [enqueue] puts a command into. *)
Definition home (p : BusPacket) : Z :=
  if bool_decide (q_kind qc = Q_Base)
  then match queuingStructure c with PerRank => 0 | _ => bp_bank p end
  else bp_threadID p.

Lemma enqueue_spec q p l : queue_wf q -> queue_fill q ->
  packet_ok (bp_rank p) p -> 0 <= bp_rank p < NUM_RANKS c ->
  (q_kind qc <> Q_Base -> 0 <= bp_threadID p < q_num_pids qc) ->
  queue_at q (bp_rank p) (home p) = Ok l -> Z.of_nat (length l) < CMD_QUEUE_DEPTH c ->
  exists q', enqueue c qc p q = Ok q' /\ queue_wf q' /\ queue_fill q' /\
    q' = with_cq_queues (cq_queues q') q /\
    queue_at q' (bp_rank p) (home p) = Ok (l ++ [p]) /\
    forall r k, (r, k) <> (bp_rank p, home p) -> queue_at q' r k = queue_at q r k.
Proof.
  intros Hq Hfill Hp Hr Hth Hl Hlen. pose proof (qk_struct Hcfg) as Hst.
  assert (Hk : 0 <= home p < numBankQueues c qc).
  { unfold home, numBankQueues. destruct Hp as (_ & Hb & _).
    destruct (bool_decide (q_kind qc = Q_Base)) eqn:Ek.
    - destruct (queuingStructure c); [lia|lia|done].
    - rewrite bool_decide_eq_false in Ek. rewrite Hst. by apply Hth. }
  assert (He : enqueue c qc p q =
    (l ← queue_at q (bp_rank p) (home p);
     if CMD_QUEUE_DEPTH c <? Z.of_nat (length (l ++ [p])) then Err Fatal else
     set_bankQueue (bp_rank p) (home p) (l ++ [p]) q)).
  { unfold enqueue, home. revert Hst.
    destruct (q_kind qc), (queuingStructure c); cbn; try done. }
  rewrite He, Hl, bind_Ok_l, length_app. cbn [length].
  destruct (Z.ltb_spec (CMD_QUEUE_DEPTH c) (Z.of_nat (length l + 1))); [lia|].
  destruct (queue_at_total q (bp_rank p) (home p) Hq Hr Hk) as (l0 & Hl0 & Hf).
  assert (l0 = l) by congruence. subst l0.
  destruct (set_queue_total q (bp_rank p) (home p) (l ++ [p]) Hq Hr Hk) as (q' & Hset & Hwf).
  { apply Forall_app. split; [done|]. by constructor. }
  destruct (queue_at_set _ _ _ _ _ Hset) as [H1 H2].
  exists q'. split_and!; try done; [|by eapply set_queue_fields].
  destruct Hfill as [Hd Ht]. split.
  - intros r k l1 Hl1. destruct (decide ((r, k) = (bp_rank p, home p))) as [E|N].
    + injection E as -> ->. rewrite H1 in Hl1. injection Hl1 as <-. rewrite length_app. cbn. lia.
    + rewrite H2 in Hl1 by done. eauto.
  - intros Hkb r k l1 Hl1. destruct (decide ((r, k) = (bp_rank p, home p))) as [E|N].
    + injection E as -> ->. rewrite H1 in Hl1. injection Hl1 as <-. apply Forall_app.
      split; [by apply (Ht Hkb _ _ _ Hl)|]. constructor; [|done]. unfold home.
      by rewrite bool_decide_false.
    + rewrite H2 in Hl1 by done. eauto.
Qed.

(** [pop] keeps the queues within their bounds. *)
Lemma unqueued_fill q k p q' : queue_fill q -> unqueued q k p q' -> queue_fill q'.
Proof.
  intros [Hd Ht] Hun. destruct (unqueued_exact _ _ _ _ Hun) as (l1 & l2 & H1 & H2 & H3). split.
  - intros r i l Hl. destruct (decide ((r, i) = (bp_rank p, k))) as [E|N].
    + injection E as -> ->. rewrite H2 in Hl. injection Hl as <-.
      specialize (Hd _ _ _ H1). rewrite length_app in *. cbn in Hd. lia.
    + rewrite H3 in Hl by done. eauto.
  - intros Hk r i l Hl. destruct (decide ((r, i) = (bp_rank p, k))) as [E|N].
    + injection E as -> ->. rewrite H2 in Hl. injection Hl as <-.
      pose proof (Ht Hk _ _ _ H1) as Hf. apply Forall_app in Hf as [? Hf].
      apply Forall_cons in Hf as [_ ?]. by apply Forall_app.
    + rewrite H3 in Hl by done. eauto.
Qed.

(** A new queue. *)
Lemma CommandQueue_new_queue_at lastPID r k l :
  queue_at (CommandQueue_new c qc lastPID) r k = Ok l -> l = [].
Proof.
  unfold queue_at, CommandQueue_new. cbn. intros H. apply bind_Ok in H as (row & Hrow & Hl).
  apply arr_get_Ok in Hrow as [_ Hrow]. apply arr_get_Ok in Hl as [_ Hl].
  apply list_lookup_fmap_Some in Hrow as (x & -> & _).
  by apply lookup_replicate in Hl as [-> _].
Qed.

Lemma CommandQueue_new_wf lastPID : 0 <= CMD_QUEUE_DEPTH c ->
  queue_wf (CommandQueue_new c qc lastPID) /\ queue_fill (CommandQueue_new c qc lastPID).
Proof.
  intros Hd. pose proof (qk_ranks Hcfg). pose proof (qk_banks Hcfg). pose proof (qk_pids Hcfg).
  assert (0 < numBankQueues c qc) by (unfold numBankQueues; case_match; lia). split; split; cbn.
  - rewrite length_fmap. unfold zrange. rewrite length_seqZ. done.
  - intros r row Hr. apply list_lookup_fmap_Some in Hr as (x & -> & Hx).
    apply lookup_seqZ in Hx as [-> Hx]. rewrite length_replicate. nia.
  - intros r k row l Hr Hl. apply list_lookup_fmap_Some in Hr as (x & -> & _).
    by apply lookup_replicate in Hl as [-> _].
  - by rewrite length_replicate.
  - by rewrite length_replicate.
  - intros r row Hr. apply lookup_replicate in Hr as [-> _]. by rewrite length_replicate.
  - lia.
  - done.
  - intros ->. rewrite bool_decide_true by done. lia.
  - intros r k l Hl%CommandQueue_new_queue_at. by subst.
  - intros _ r k l Hl%CommandQueue_new_queue_at. by subst.
Qed.

End Spec.
