(* ===== verification/DramTurns.v ===== *)
(** The turns of the timing-partitioned command queues: whose turn it is, how much
    of it is left when an activate may still go, whose commands [pop] takes, and
    that it takes one whenever there is one. *)

From S2P Require Import Prelude DramTypes DramQueue DramQueueSpec.

(** * The schedule *)

(** The turn of thread [pid] within a period of the schedule: where it starts and
    how long it is. *)
Definition turn_length (qc : QCfg) (pid : Z) : Z :=
  if q_diffPeriod qc then if pid =? 0 then q_p0Period qc else q_p1Period qc
  else 2 ^ q_tpTurnLength qc.
Definition turn_start (qc : QCfg) (pid : Z) : Z :=
  if q_diffPeriod qc then if pid =? 0 then 0 else q_p0Period qc + (pid - 1) * q_p1Period qc
  else pid * 2 ^ q_tpTurnLength qc.
Definition period (qc : QCfg) : Z :=
  if q_diffPeriod qc then q_p0Period qc + (q_num_pids qc - 1) * q_p1Period qc
  else q_num_pids qc * 2 ^ q_tpTurnLength qc.

(** The cycles of the period that have passed, and what is left of a turn. *)
Definition phase (qc : QCfg) (now : Z) : Z := (now - q_offset qc) mod period qc.
Definition turn_left (qc : QCfg) (pid now : Z) : Z :=
  turn_start qc pid + turn_length qc pid - phase qc now.

(** Schedules that the code computes without overflow: a number of threads that it
    handles, and turns no longer than 2^30; with two turn lengths and two threads,
    the first turn is the longer one. *)
Record sched_ok (qc : QCfg) : Prop := {
  so_pids : 0 < q_num_pids qc <= 4;
  so_offset : - 2 ^ 20 <= q_offset qc <= 0;
  so_turn : if q_diffPeriod qc
    then 1 < q_num_pids qc /\ 0 < q_p0Period qc < 2 ^ 20 /\ 0 < q_p1Period qc < 2 ^ 20 /\
         (q_num_pids qc = 2 -> q_p1Period qc <= q_p0Period qc)
    else 0 <= q_tpTurnLength qc <= 24
}.

(** The clocks for which [currentClockCycle - offset] fits an [int]. *)
Definition in_int (qc : QCfg) (q : CommandQueue) : Prop :=
  0 <= cq_clock q < 2 ^ 31 - 2 ^ 28.

Section Turns.

Context (c : DramCfg) (qc : QCfg) (Hs : sched_ok qc).

Lemma period_pos : 0 < period qc < 2 ^ 27.
Proof.
  destruct Hs as [Hn Ho Ht]. unfold period. destruct (q_diffPeriod qc); [nia|].
  assert (0 < 2 ^ q_tpTurnLength qc <= 2 ^ 24)
    by (split; [apply Z.pow_pos_nonneg; lia|apply Z.pow_le_mono_r; lia]). nia.
Qed.

Lemma turn_clock_exact q : in_int qc q ->
  turn_clock qc q = cq_clock q - q_offset qc /\ 0 <= turn_clock qc q < 2 ^ 31.
Proof.
  intros Hc. destruct Hs as [_ Ho _]. unfold in_int in Hc.
  assert (E : turn_clock qc q = cq_clock q - q_offset qc).
  { unfold turn_clock, i32. rewrite Z.mod_small by lia. case_match; zb; lia. }
  rewrite E. lia.
Qed.

Lemma phase_range now : 0 <= phase qc now < period qc.
Proof. apply Z.mod_pos_bound, period_pos. Qed.

(** [getCurrentPID] follows the schedule. *)
Lemma getCurrentPID_spec q : in_int qc q ->
  exists pid, getCurrentPID qc q = Ok pid /\ 0 <= pid < q_num_pids qc /\
    turn_start qc pid <= phase qc (cq_clock q) < turn_start qc pid + turn_length qc pid.
Proof.
  intros Hc. destruct (turn_clock_exact q Hc) as [E Hr]. pose proof period_pos as Hp.
  pose proof (phase_range (cq_clock q)) as Hph. unfold phase in *. rewrite <- E in *.
  unfold getCurrentPID. set (cur := turn_clock qc q) in *. clearbody cur.
  destruct Hs as [Hn _ Ht]. unfold turn_start, turn_length, period in *.
  destruct (q_diffPeriod qc).
  - destruct Ht as (Hn1 & H0 & H1 & H2).
    destruct (Z.eqb_spec (q_num_pids qc) 2) as [E2|N2].
    { rewrite E2 in *. replace (q_p0Period qc + (2 - 1) * q_p1Period qc)
        with (q_p0Period qc + q_p1Period qc) in * by lia.
      rewrite Z.rem_mod_nonneg by lia. set (m := cur mod _) in *. clearbody m.
      rewrite Z.quot_div_nonneg by lia. specialize (H2 eq_refl).
      destruct (Z.lt_ge_cases m (q_p0Period qc)).
      - exists 0. rewrite Z.div_small by lia. cbn. split; [done|]. lia.
      - exists 1. rewrite <- (Z.div_unique m (q_p0Period qc) 1 (m - q_p0Period qc)) by lia.
        cbn. split; [done|]. lia. }
    destruct (Z.eqb_spec (q_num_pids qc) 3) as [E3|N3].
    { rewrite E3 in *. replace (q_p0Period qc + (3 - 1) * q_p1Period qc)
        with (q_p0Period qc + 2 * q_p1Period qc) in * by lia.
      rewrite Z.rem_mod_nonneg by lia. set (m := cur mod _) in *. clearbody m.
      rewrite !u64_small by lia.
      repeat case_match; zb; eexists; (split; [done|]); cbn; lia. }
    destruct (Z.eqb_spec (q_num_pids qc) 4) as [E4|N4]; [|lia].
    rewrite E4 in *. replace (q_p0Period qc + (4 - 1) * q_p1Period qc)
      with (q_p0Period qc + 3 * q_p1Period qc) in * by lia.
    rewrite Z.rem_mod_nonneg by lia. set (m := cur mod _) in *. clearbody m.
    rewrite !u64_small by lia.
    repeat case_match; zb; eexists; (split; [done|]); cbn; lia.
  - set (n := q_num_pids qc) in *. set (t := 2 ^ q_tpTurnLength qc) in *.
    assert (Ht0 : 0 < t) by (apply Z.pow_pos_nonneg; lia).
    rewrite Z.shiftr_div_pow2 by lia. fold t.
    assert (Hd : 0 <= cur / t) by (apply Z.div_pos; lia).
    rewrite Z.rem_mod_nonneg by lia.
    pose proof (Z.mod_pos_bound (cur / t) n ltac:(lia)) as Hm.
    exists ((cur / t) mod n). rewrite u32_small by lia. split; [done|]. split; [done|].
    rewrite (Z.mul_comm n t), Z.rem_mul_r by lia.
    pose proof (Z.mod_pos_bound cur t Ht0). lia.
Qed.

(** Only one thread has the turn. *)
Lemma turn_unique pid pid' now : 0 <= pid < q_num_pids qc -> 0 <= pid' < q_num_pids qc ->
  turn_start qc pid <= phase qc now < turn_start qc pid + turn_length qc pid ->
  turn_start qc pid' <= phase qc now < turn_start qc pid' + turn_length qc pid' -> pid = pid'.
Proof.
  unfold turn_start, turn_length. destruct Hs as [Hn _ Ht]. generalize (phase qc now).
  intros m H1 H2. destruct (q_diffPeriod qc).
  - destruct Ht as (_ & Hp0 & Hp1 & _).
    destruct (Z.eqb_spec pid 0), (Z.eqb_spec pid' 0); intros ??; try nia.
  - assert (0 < 2 ^ q_tpTurnLength qc) by (apply Z.pow_pos_nonneg; lia). nia.
Qed.

Lemma land_high a k : 0 <= k -> Z.land a (Z.shiftl (-1) k) = a - a mod 2 ^ k.
Proof.
  intros Hk. replace (Z.shiftl (-1) k) with (Z.lnot (Z.ones k)).
  - rewrite <- Z.ldiff_land, Z.ldiff_ones_r, Z.shiftl_mul_pow2, Z.shiftr_div_pow2 by done.
    pose proof (Z.div_mod a (2 ^ k) ltac:(pose proof (Z.pow_pos_nonneg 2 k); lia)). lia.
  - rewrite Z.shiftl_mul_pow2, Z.ones_equiv by done. unfold Z.lnot. lia.
Qed.

(** ** Dead time *)

(** The cycle in which the turn of [pid] began, and whether the code expects a refresh
    in the turn. *)
Definition dram_turn_begin (q : CommandQueue) (pid : Z) : Z :=
  cq_clock q - (phase qc (cq_clock q) - turn_start qc pid).
Definition refresh_in_turn (q : CommandQueue) (pid : Z) : bool :=
  i32 (u64 (dram_turn_begin q pid) / u64 (anyr_refresh c)) <?
  i32 (u64 (dram_turn_begin q pid + turn_length qc pid - 1) / u64 (anyr_refresh c)).
Definition dead_time (q : CommandQueue) (pid : Z) : Z :=
  if refresh_in_turn q pid then refresh_deadtime c qc (turn_length qc pid)
  else normal_deadtime c qc (turn_length qc pid).

Lemma turn_length_pos pid : 0 < turn_length qc pid <= 2 ^ 24.
Proof.
  unfold turn_length. destruct Hs as [_ _ Ht]. destruct (q_diffPeriod qc).
  - case_match; lia.
  - split; [apply Z.pow_pos_nonneg; lia|apply Z.pow_le_mono_r; lia].
Qed.


Lemma u64_add_l a b : u64 (u64 a + b) = u64 (a + b).
Proof. unfold u64. apply Zplus_mod_idemp_l. Qed.

Lemma isBufferTime_spec q pid : in_int qc q -> getCurrentPID qc q = Ok pid ->
  isBufferTime c qc q = Ok (turn_left qc pid (cq_clock q) <=? u64 (dead_time q pid)).
Proof.
  intros Hc Hg. destruct (getCurrentPID_spec q Hc) as (pid' & Hg' & Hpr & Hpos).
  assert (pid' = pid) by congruence. subst pid'. clear Hg'.
  pose proof (turn_length_pos pid) as Hlen. pose proof period_pos as Hper.
  destruct (turn_clock_exact q Hc) as [E Hr]. unfold isBufferTime, dead_time, refresh_in_turn.
  set (cur := turn_clock qc q) in *. pose proof so_offset qc Hs as Ho. red in Hc.
  assert (Htb : cur - (phase qc (cq_clock q) - turn_start qc pid) + q_offset qc =
    dram_turn_begin q pid) by (unfold dram_turn_begin; lia).
  assert (Hb : 0 <= phase qc (cq_clock q) <= cur).
  { split; [apply phase_range|]. unfold phase. rewrite <- E. apply Z.mod_le; lia. }
  assert (Hst : 0 <= turn_start qc pid).
  { unfold turn_start. destruct Hs as [_ _ Ht]. destruct (q_diffPeriod qc); [case_match; zb; nia|nia]. }
  set (len := turn_length qc pid) in *. set (b := dram_turn_begin q pid) in *.
  destruct (q_diffPeriod qc) eqn:Hd.
  - rewrite Hg, bind_Ok_l.
    assert (Hlen' : (if pid =? 0 then q_p0Period qc else q_p1Period qc) = len)
      by (unfold len, turn_length; by rewrite Hd).
    rewrite Hlen', (u32_small len) by lia. rewrite (i32_small len) by lia.
    assert (Hrem : Z.rem cur (q_p0Period qc + (q_num_pids qc - 1) * q_p1Period qc) =
      phase qc (cq_clock q)).
    { unfold phase, period. rewrite Hd, <- E. apply Z.rem_mod_nonneg; [lia|].
      unfold period in Hper. rewrite Hd in Hper. lia. }
    rewrite Hrem.
    set (tb := if pid =? 0 then u64 _ else u32 _).
    assert (Htb' : tb = cur - (phase qc (cq_clock q) - turn_start qc pid)).
    { subst tb. unfold turn_start in *. rewrite Hd in *.
      destruct (Z.eqb_spec pid 0); rewrite ?u64_small, ?u32_small; lia. }
    rewrite Htb', Htb, <- Z.add_sub_assoc, u64_add_l, Z.add_sub_assoc.
    replace (len - (cur - (cur - (phase qc (cq_clock q) - turn_start qc pid))))
      with (turn_left qc pid (cq_clock q)) by (unfold turn_left; fold len; lia).
    rewrite (u64_small (turn_left _ _ _)) by (unfold turn_left; fold len; lia).
    by destruct (i32 _ <? i32 _).
  - rewrite bind_Ok_l. destruct Hs as [Hn _ Ht]. rewrite Hd in Ht.
    assert (Hlen' : Z.shiftl 1 (q_tpTurnLength qc) = len)
      by (unfold len, turn_length; rewrite Hd, Z.shiftl_1_l; done).
    rewrite Hlen', (u32_small len) by lia. rewrite (i32_small len) by lia.
    assert (Hpow : len = 2 ^ q_tpTurnLength qc) by (unfold len, turn_length; by rewrite Hd).
    assert (Hmod : cur mod len = phase qc (cq_clock q) - turn_start qc pid).
    { symmetry. apply Z.mod_unique_pos with (q := turn_start qc pid / len + 
        (cur / period qc) * q_num_pids qc); [unfold len in *; lia|].
      assert (turn_start qc pid = pid * len) as -> by (unfold turn_start; by rewrite Hd, Hpow).
      rewrite Z.div_mul by lia. assert (Hpe : period qc = q_num_pids qc * len)
        by (unfold period; by rewrite Hd, Hpow).
      unfold phase. rewrite <- E. pose proof (Z.div_mod cur (period qc)).
      rewrite Hpe in *. lia. }
    rewrite land_high, <- Hpow by lia.
    rewrite (u64_small (cur - _)) by (rewrite Hmod; lia).
    rewrite Hmod, Htb, <- Z.add_sub_assoc, u64_add_l, Z.add_sub_assoc.
    rewrite (u32_small cur), (u32_small (len - 1)) by lia.
    assert (Hl : Z.land cur (len - 1) = cur mod len) by (rewrite Hpow; apply land_ones_mod; lia).
    rewrite Hl, Hmod.
    replace (len - (phase qc (cq_clock q) - turn_start qc pid))
      with (turn_left qc pid (cq_clock q)) by (unfold turn_left; fold len; lia).
    rewrite (u32_small (turn_left _ _ _)) by (unfold turn_left; fold len; lia).
    by destruct (i32 _ <? i32 _).
Qed.

(** The dead time is never shorter than the delay it stands for; it covers the whole
    turn when the turn is too short for that. *)
Lemma dead_wrap len w x : 0 < len <= 2 ^ 24 -> 0 <= w < 2 ^ 31 -> x <= len ->
  u64 (i32 (len - u32 (len - w) / 10)) < x -> w < x.
Proof.
  intros Hl Hw Hx Hd. destruct (Z.le_gt_cases w len).
  - rewrite (u32_small (len - w)) in Hd by lia.
    assert (0 <= (len - w) / 10 <= len - w).
    { split; [apply Z.div_pos; lia|]. apply Z.div_le_upper_bound; lia. }
    rewrite i32_small, u64_small in Hd by lia. lia.
  - exfalso. assert (Eu : u32 (len - w) = 2 ^ 32 + (len - w)).
    { symmetry. apply (Z.mod_unique_pos _ _ (-1)); lia. }
    rewrite Eu in Hd. set (d := (2 ^ 32 + (len - w)) / 10) in *.
    assert (2 ^ 31 / 10 <= d <= 2 ^ 32 / 10) by (split; apply Z.div_le_mono; lia).
    change (2 ^ 31 / 10) with 214748364 in *. change (2 ^ 32 / 10) with 429496729 in *.
    assert (Ei : i32 (len - d) = len - d).
    { unfold i32. rewrite <- (Z.mod_unique_pos (len - d) (2 ^ 32) (-1) (2 ^ 32 + (len - d))) by lia.
      case_match; zb; lia. }
    rewrite Ei in Hd. revert Hd. unfold u64.
    rewrite <- (Z.mod_unique_pos (len - d) (2 ^ 64) (-1) (2 ^ 64 + (len - d))) by lia. lia.
Qed.

Definition delays_small : Prop :=
  0 <= WORST_CASE_DELAY c < 2 ^ 31 /\ 0 <= TP_BUFFER_TIME c < 2 ^ 31.

Lemma dead_time_covers q pid : delays_small -> in_int qc q ->
  q_kind qc = Q_TP \/ q_kind qc = Q_TPD -> getCurrentPID qc q = Ok pid ->
  isBufferTime c qc q = Ok false ->
  (if refresh_in_turn q pid then TP_BUFFER_TIME c else WORST_CASE_DELAY c) <
    turn_left qc pid (cq_clock q).
Proof.
  intros [Hw Hb] Hc Hk Hg Hd. rewrite (isBufferTime_spec q pid Hc Hg) in Hd.
  injection Hd as Hd. apply Z.leb_gt in Hd. unfold dead_time in Hd.
  destruct (getCurrentPID_spec q Hc) as (pid' & Hg' & _ & Hpos).
  assert (pid' = pid) by congruence. subst pid'. pose proof (turn_length_pos pid) as Hl.
  assert (Hx : turn_left qc pid (cq_clock q) <= turn_length qc pid) by (unfold turn_left; lia).
  unfold normal_deadtime, refresh_deadtime in Hd.
  destruct Hk as [Hk|Hk]; rewrite Hk in Hd; destruct (refresh_in_turn q pid).
  - by eapply dead_wrap.
  - by eapply dead_wrap.
  - by rewrite i32_small, u64_small in Hd by lia.
  - by rewrite i32_small, u64_small in Hd by lia.
Qed.

Lemma turn_ok_sched q : in_int qc q -> turn_ok c qc q.
Proof.
  intros Hc _. destruct (getCurrentPID_spec q Hc) as (pid & Hg & Hp & _). split; [eauto|].
  eexists. by apply isBufferTime_spec.
Qed.

End Turns.

(** * Whose commands [pop] takes *)

Definition turn_based (qc : QCfg) : Prop := q_kind qc = Q_TP \/ q_kind qc = Q_TPD.

(** With turns, [pop] takes commands only from the thread whose turn it is: what it
    returns is a refresh, with all queues as they were, or the one command missing
    from that thread's queue of the command's rank; and an activate is only taken
    when more than the worst case of an access, or of an access and a refresh where
    one falls into the turn, is left of the turn. *)
Theorem tp_pop_own_turn (c : DramCfg) (qc : QCfg) (bs : BankTable) (q q' : CommandQueue)
    (r : option BusPacket) :
  queue_cfg c qc -> sched_ok qc -> delays_small c -> turn_based qc ->
  table_wf c bs -> queue_wf c qc q -> in_int qc q ->
  pop c qc bs q = Ok (r, q') ->
  exists pid, getCurrentPID qc q = Ok pid /\
    turn_start qc pid <= phase qc (cq_clock q) < turn_start qc pid + turn_length qc pid /\
    match r with
    | None => cq_queues q' = cq_queues q
    | Some p =>
        (bp_type p = REFRESH /\ cq_queues q' = cq_queues q) \/
        (exists l1 l2, queue_at q (bp_rank p) pid = Ok (l1 ++ p :: l2) /\
           queue_at q' (bp_rank p) pid = Ok (l1 ++ l2) /\
           (forall r i, (r, i) <> (bp_rank p, pid) -> queue_at q' r i = queue_at q r i) /\
           (bp_type p = ACTIVATE ->
            (if refresh_in_turn c qc q pid then TP_BUFFER_TIME c else WORST_CASE_DELAY c) <
              turn_left qc pid (cq_clock q)))
    end.
Proof.
  intros Hcfg Hs Hd Hk Hbs Hq Hc Hpop. unfold turn_based in Hk.
  destruct (getCurrentPID_spec qc Hs q Hc) as (pid & Hg & Hp & Hpos).
  exists pid. split; [done|]. split; [done|].
  destruct (pop_spec c qc Hcfg bs q pid Hbs Hq (turn_ok_sched c qc Hs q Hc)) as
    (r' & q2 & Hpop' & _ & _ & Hr); [by intros _|].
  rewrite Hpop in Hpop'. injection Hpop' as <- <-. destruct r as [p|].
  - destruct Hr as [_ [(Hrdy & Eq & _)|(k & Hun & Hch & _)]].
    { left. destruct Hrdy as (_ & -> & _). done. }
    right.
    assert (Hkp : k = pid /\ (bp_type p = ACTIVATE -> isBufferTime c qc q = Ok false)).
    { destruct Hch as [[Ha _]|(Hty & Hkk & _)].
      - unfold allowed_pop in Ha. destruct Hk as [Hk|Hk]; by rewrite Hk in Ha.
      - split; [apply Hkk; destruct Hk; congruence|done]. }
    destruct Hkp as [-> Hdead]. destruct (unqueued_exact c qc _ _ _ _ Hun) as (l1 & l2 & H1 & H2 & H3).
    exists l1, l2. split_and!; try done. intros Hact. by apply dead_time_covers; auto.
  - by destruct Hr as [? _].
Qed.

(** ** Work conservation *)

Lemma tp_eligible_false c qc bs q prev p : tp_eligible c qc bs q prev p = Ok false ->
  isIssuable c bs q p = Ok false \/
  (bp_type p = ACTIVATE /\ isBufferTime c qc q = Ok true) \/ paired prev p = true.
Proof.
  unfold tp_eligible. destruct (isIssuable c bs q p) as [[|]|]; cbn; [|tauto|done].
  destruct (isBufferTime c qc q) as [[|]|]; cbn; [| |done].
  - case_bool_decide; cbn; [tauto|]. destruct (paired prev p); [tauto|done].
  - destruct (paired prev p); [tauto|done].
Qed.

Lemma tpd_is_tp c qc bs q prev p : tpd_eligible c qc bs q prev p = tp_eligible c qc bs q prev p.
Proof.
  unfold tpd_eligible. destruct (tp_eligible c qc bs q prev p); [|done]. cbn.
  by rewrite andb_false_r, andb_true_r.
Qed.

Lemma scan_ext f g l : (forall prev p, f prev p = g prev p) ->
  forall prev, scan f prev l = scan g prev l.
Proof.
  intros E. induction l as [|p l IH]; intros prev; cbn [scan]; [done|].
  rewrite E. destruct (g prev p) as [[|]|]; [done| |done]. cbn. by rewrite IH.
Qed.

(** What a failed search of a rank says about the queue of the thread. *)
Lemma try_pos_none c qc bs q pid rank bank : queue_cfg c qc -> turn_based qc ->
  table_wf c bs -> queue_wf c qc q -> turn_ok c qc q ->
  0 <= rank < NUM_RANKS c -> 0 <= pid < q_num_pids qc ->
  try_pos c qc bs pid (rank, bank) q = Ok None -> rank_waits q rank = false ->
  forall l1 p l2, queue_at q rank pid = Ok (l1 ++ p :: l2) ->
    tp_eligible c qc bs q (last_or None l1) p = Ok false.
Proof.
  intros Hcfg Hk Hbs Hq Ht Hr Hp Htry Hw l1 p l2 Hl.
  assert (Hb : q_kind qc <> Q_Base) by (destruct Hk; congruence).
  destruct (index_pid c qc Hcfg pid Hb Hp) as [Hi Hir].
  destruct (take_from_spec c qc (tp_eligible c qc bs q) q rank pid pid Hq Hr Hi Hir)
    as (x & Hx & Hspec).
  { intros prev p0 Hp0. by apply (eligible_total c qc bs q rank prev p0 Hbs Hq Ht Hr Hp0). }
  assert (Ex : x = None).
  { unfold try_pos in Htry. rewrite Hw in Htry.
    destruct Hk as [Hk|Hk]; rewrite Hk in Htry; [congruence|].
    unfold take_from in Htry, Hx. destruct (getCommandQueue c qc q rank pid) as [l|]; [|done].
    rewrite bind_Ok_l, (scan_ext _ (tp_eligible c qc bs q)) in Htry by apply tpd_is_tp.
    rewrite bind_Ok_l in Hx. congruence. }
  subst x. by eapply Hspec.
Qed.

(** C13. [pop] returns, and it finds a command whenever the thread whose turn it is has
    one that may go: if it returns none, then every command of the thread's queue of
    a rank that does not wait for a refresh cannot be issued, or is an activate in
    dead time, or directly follows its own activate. *)
Theorem tp_pop_work_conserving (c : DramCfg) (qc : QCfg) (bs : BankTable) (q : CommandQueue) :
  queue_cfg c qc -> sched_ok qc -> turn_based qc ->
  table_wf c bs -> queue_wf c qc q -> in_int qc q ->
  exists pid r q', getCurrentPID qc q = Ok pid /\ pop c qc bs q = Ok (r, q') /\
    (r = None -> forall rank l1 p l2, 0 <= rank < NUM_RANKS c -> rank_waits q rank = false ->
       queue_at q rank pid = Ok (l1 ++ p :: l2) ->
       isIssuable c bs (ticked q) p = Ok false \/
       (bp_type p = ACTIVATE /\ isBufferTime c qc q = Ok true) \/
       paired (last_or None l1) p = true).
Proof.
  intros Hcfg Hs Hk Hbs Hq Hc.
  destruct (getCurrentPID_spec qc Hs q Hc) as (pid & Hg & Hp & _). exists pid.
  destruct (pop_spec c qc Hcfg bs q pid Hbs Hq (turn_ok_sched c qc Hs q Hc)) as
    (r & q' & Hpop & _ & _ & Hr); [by intros _|].
  exists r, q'. split_and!; try done. intros -> rank l1 p l2 Hrk Hw Hl.
  destruct Hr as (_ & _ & _ & Hnone).
  assert (Hb : q_kind qc <> Q_Base) by (destruct Hk; congruence).
  destruct (Hnone Hb (rank, 0)) as (q0 & Hq0 & E1 & E2 & E3 & E4 & [E5 E6] & Htry).
  { pose proof (qk_banks _ _ Hcfg). split; cbn; lia. }
  assert (Hissue : isIssuable c bs q0 p = isIssuable c bs (ticked q) p).
  { unfold isIssuable. by rewrite E2, E3, E4. }
  assert (Hbuf : isBufferTime c qc q0 = isBufferTime c qc q).
  { unfold isBufferTime, getCurrentPID, turn_clock. by rewrite E2. }
  rewrite <- Hissue, <- Hbuf. apply tp_eligible_false.
  eapply (try_pos_none c qc bs q0 pid rank 0); try done.
  - eapply turn_ok_same; [exact E2|]. exact (turn_ok_sched c qc Hs q Hc).
  - unfold rank_waits in *. by rewrite E5, E6.
  - unfold queue_at in *. by rewrite E1.
Qed.

(** * An example *)

(** Two threads with turns of 128 cycles. *)
Definition tp2 : QCfg := mkQCfg Q_TP 2 7 false 0 0 0.

Lemma ddr3_cfg : queue_cfg ddr3 tp2.
Proof. split; cbn; try done; lia. Qed.
Lemma tp2_sched : sched_ok tp2.
Proof. split; cbn; lia. Qed.
Lemma ddr3_delays : delays_small ddr3.
Proof. split; by vm_compute. Qed.

Definition closed_banks : BankTable := replicate 2 (replicate 8 BankState_new).

Lemma closed_banks_wf : table_wf ddr3 closed_banks.
Proof.
  split; [done|]. intros r row Hr. unfold closed_banks in Hr.
  apply lookup_replicate in Hr as [-> _]. by rewrite length_replicate.
Qed.

(** Thread 1 has a read waiting, at the beginning of its first turn. *)
Definition demo_cmd (ty : BusPacketType) : BusPacket := BusPacket_new ty 0x40 0 3 1 0 1.
Definition demo_queue : CommandQueue :=
  match (q ← enqueue ddr3 tp2 (demo_cmd ACTIVATE) (CommandQueue_new ddr3 tp2 0);
         enqueue ddr3 tp2 (demo_cmd READ_P) q) with
  | Ok q => with_cq_clock 128 q
  | Err _ => CommandQueue_new ddr3 tp2 0
  end.

Lemma demo_queue_wf : queue_wf ddr3 tp2 demo_queue.
Proof.
  destruct (CommandQueue_new_wf ddr3 tp2 ddr3_cfg 0) as [Hw Hf]; [done|].
  destruct (enqueue_spec ddr3 tp2 ddr3_cfg _ (demo_cmd ACTIVATE) [] Hw Hf)
    as (q1 & E1 & Hw1 & Hf1 & _ & Hl & _); try done; [split_and!; try done; by left|].
  destruct (enqueue_spec ddr3 tp2 ddr3_cfg q1 (demo_cmd READ_P) [demo_cmd ACTIVATE] Hw1 Hf1)
    as (q2 & E2 & Hw2 & _); try done; [split_and!; try done; by right; left|].
  unfold demo_queue. rewrite E1, bind_Ok_l, E2. destruct Hw2. by split.
Qed.

Lemma tp_pop_own_turn_witness :
  exists q' pid, pop ddr3 tp2 closed_banks demo_queue = Ok (Some (demo_cmd ACTIVATE), q') /\
    getCurrentPID tp2 demo_queue = Ok pid.
Proof.
  destruct (pop ddr3 tp2 closed_banks demo_queue) as [[r q']|] eqn:E; [|by vm_compute in E].
  destruct (tp_pop_own_turn ddr3 tp2 closed_banks demo_queue q' r ddr3_cfg tp2_sched ddr3_delays
    (or_introl eq_refl) closed_banks_wf demo_queue_wf ltac:(by vm_compute) E) as (pid & Hpid & _).
  exists q', pid. split; [|done]. vm_compute in E. by injection E as <- <-.
Defined.

Lemma tp_pop_work_conserving_witness :
  exists pid r q', getCurrentPID tp2 demo_queue = Ok pid /\
    pop ddr3 tp2 closed_banks demo_queue = Ok (r, q').
Proof.
  destruct (tp_pop_work_conserving ddr3 tp2 closed_banks demo_queue ddr3_cfg tp2_sched
    (or_introl eq_refl) closed_banks_wf demo_queue_wf ltac:(by vm_compute)) as (pid & r & q' & H & H' & _).
  by exists pid, r, q'.
Defined.

(** Past 2^31 cycles the [int] that holds the clock is negative, so is the remainder,
    and [pop] reads outside the queues of a rank. *)
Lemma turn_clock_overflows :
  getCurrentPID tp2 (with_cq_clock (2 ^ 31 + 128) demo_queue) = Ok (2 ^ 32 - 1) /\
  is_ok (pop ddr3 tp2 closed_banks (with_cq_clock (2 ^ 31 + 128) demo_queue)) = false.
Proof. split; [by vm_compute|]. lazy. reflexivity. Qed.

(** With two threads and a second turn longer than the first, the second turn is given
    to threads that do not exist. *)
Lemma second_turn_longer_faults :
  getCurrentPID (mkQCfg Q_TP 2 7 true 64 256 0) (with_cq_clock 200 demo_queue) = Ok 3 /\
  is_ok (pop ddr3 (mkQCfg Q_TP 2 7 true 64 256 0) closed_banks (with_cq_clock 200 demo_queue))
    = false.
Proof. split; by vm_compute. Qed.
