(* ===== verification/DramAddr.v ===== *)
(** Address mapping: every address has a rank and a bank that exist, and two
    addresses of different transactions differ in their channel, rank, bank, row or
    column. *)

From S2P Require Import Prelude DramTypes.

(** * Fields *)

Lemma take_field_spec w a : 0 <= w <= 32 -> 0 <= a ->
  take_field w a = (a mod 2 ^ w, a / 2 ^ w).
Proof.
  intros Hw Ha. unfold take_field. rewrite Z.shiftr_div_pow2 by lia. f_equal.
  assert (Hp : 0 < 2 ^ w <= 2 ^ 32)
    by (split; [apply Z.pow_pos_nonneg; lia|apply Z.pow_le_mono_r; lia]).
  assert (E : Z.lxor a (Z.shiftl (a / 2 ^ w) w) = a mod 2 ^ w).
  { rewrite <- Z.shiftr_div_pow2 by lia. apply Z.bits_inj'. intros i Hi.
    rewrite Z.lxor_spec. destruct (Z.lt_ge_cases i w).
    - rewrite Z.shiftl_spec_low, Z.mod_pow2_bits_low, xorb_false_r by lia. done.
    - rewrite Z.shiftl_spec, Z.shiftr_spec, Z.mod_pow2_bits_high by lia.
      replace (i - w + w) with i by lia. apply xorb_nilpotent. }
  rewrite E. pose proof (Z.mod_pos_bound a (2 ^ w)). apply u32_small. lia.
Qed.

Lemma field_lt w a : 0 <= w -> 0 <= a mod 2 ^ w < 2 ^ w.
Proof. intros. apply Z.mod_pos_bound, Z.pow_pos_nonneg; lia. Qed.

Lemma dramsim_log2_pow k : 0 <= k <= 31 -> dramsim_log2 (2 ^ k) = k.
Proof.
  intros Hk. assert (Hall : forallb (fun k => dramsim_log2 (2 ^ k) =? k) (seqZ 0 32) = true)
    by by vm_compute.
  rewrite forallb_forall in Hall. apply Z.eqb_eq, Hall.
  apply list_elem_of_In, elem_of_seqZ. lia.
Qed.

(** * The mapping *)

(** A geometry: the numbers of the configuration are powers of two. *)
Record geometry := mkGeometry {
  gm_chan : Z; gm_rank : Z; gm_bank : Z; gm_row : Z; gm_col : Z; gm_byte : Z; gm_burst : Z
}.
Record geometry_ok (c : DramCfg) (g : geometry) : Prop := {
  go_chan : NUM_CHANS c = 2 ^ gm_chan g /\ 0 <= gm_chan g <= 30;
  go_rank : NUM_RANKS c = 2 ^ gm_rank g /\ 0 <= gm_rank g <= 30;
  go_bank : NUM_BANKS c = 2 ^ gm_bank g /\ 0 <= gm_bank g <= 30;
  go_row : NUM_ROWS c = 2 ^ gm_row g /\ 0 <= gm_row g <= 30;
  go_col : NUM_COLS c = 2 ^ gm_col g /\ 0 <= gm_col g <= 30;
  go_byte : JEDEC_DATA_BUS_BITS c / 8 = 2 ^ gm_byte g /\ 0 <= gm_byte g;
  go_burst : BL c = 2 ^ gm_burst g /\ 0 <= gm_burst g <= gm_col g /\ gm_byte g + gm_burst g <= 30;
  go_scheme : addressMappingScheme c = Scheme8 -> 1 <= gm_bank g
}.

(** The bits of an address below the fields, and those of the fields. *)
Definition low_bits (g : geometry) : Z := gm_byte g + gm_burst g.
Definition field_bits (g : geometry) : Z :=
  gm_chan g + gm_rank g + gm_bank g + gm_row g + (gm_col g - gm_burst g).

(** Two numbers with the same digit and the same quotient are the same. *)
Lemma digits_inj w x y : 0 <= w -> x mod 2 ^ w = y mod 2 ^ w -> x / 2 ^ w = y / 2 ^ w -> x = y.
Proof.
  intros Hw H1 H2. assert (0 < 2 ^ w) by (apply Z.pow_pos_nonneg; lia).
  rewrite (Z.div_mod x (2 ^ w)), (Z.div_mod y (2 ^ w)) by lia. by rewrite H1, H2.
Qed.

Lemma top_zero w n x : 0 <= w -> 0 <= n -> 0 <= x < 2 ^ (w + n) -> 0 <= x / 2 ^ w < 2 ^ n.
Proof.
  intros Hw Hn Hx. rewrite Z.pow_add_r in Hx by lia.
  assert (0 < 2 ^ w) by (apply Z.pow_pos_nonneg; lia).
  split; [apply Z.div_pos; lia|]. apply Z.div_lt_upper_bound; lia.
Qed.

(** Five digits determine a number that has no more. *)
Lemma five_digits w1 w2 w3 w4 w5 n x y :
  0 <= w1 -> 0 <= w2 -> 0 <= w3 -> 0 <= w4 -> 0 <= w5 ->
  n = w1 + (w2 + (w3 + (w4 + w5))) -> 0 <= x < 2 ^ n -> 0 <= y < 2 ^ n ->
  x mod 2 ^ w1 = y mod 2 ^ w1 ->
  x / 2 ^ w1 mod 2 ^ w2 = y / 2 ^ w1 mod 2 ^ w2 ->
  x / 2 ^ w1 / 2 ^ w2 mod 2 ^ w3 = y / 2 ^ w1 / 2 ^ w2 mod 2 ^ w3 ->
  x / 2 ^ w1 / 2 ^ w2 / 2 ^ w3 mod 2 ^ w4 = y / 2 ^ w1 / 2 ^ w2 / 2 ^ w3 mod 2 ^ w4 ->
  x / 2 ^ w1 / 2 ^ w2 / 2 ^ w3 / 2 ^ w4 mod 2 ^ w5 = y / 2 ^ w1 / 2 ^ w2 / 2 ^ w3 / 2 ^ w4 mod 2 ^ w5 ->
  x = y.
Proof.
  intros H1 H2 H3 H4 H5 -> Hx Hy E1 E2 E3 E4 E5.
  apply (digits_inj w1); [done..|]. apply (digits_inj w2); [done..|].
  apply (digits_inj w3); [done..|]. apply (digits_inj w4); [done..|].
  do 4 (apply top_zero in Hx; [|lia..]). do 4 (apply top_zero in Hy; [|lia..]).
  rewrite !Z.mod_small in E5 by done. done.
Qed.

Section Geometry.

Context (c : DramCfg) (g : geometry) (Hg : geometry_ok c g).

Lemma widths : channelBitWidth c = gm_chan g /\ rankBitWidth c = gm_rank g /\
  bankBitWidth c = gm_bank g /\ rowBitWidth c = gm_row g /\
  colHighBitWidth c = gm_col g - gm_burst g /\ byteOffsetWidth c = gm_byte g /\
  colLowBitWidth c = gm_burst g.
Proof.
  destruct Hg as [[E1 ?] [E2 ?] [E3 ?] [E4 ?] [E5 ?] [E6 ?] [E7 ?] _].
  unfold channelBitWidth, rankBitWidth, bankBitWidth, rowBitWidth.
  assert (Hb : byteOffsetWidth c = gm_byte g)
    by (unfold byteOffsetWidth; rewrite E6; apply dramsim_log2_pow; lia).
  assert (Ht : transactionSize c = 2 ^ (gm_byte g + gm_burst g)).
  { unfold transactionSize. rewrite E6, E7, <- Z.pow_add_r by lia. apply u32_small.
    split; [apply Z.pow_nonneg; lia|]. apply Z.pow_lt_mono_r; lia. }
  assert (Hcl : colLowBitWidth c = gm_burst g).
  { unfold colLowBitWidth. rewrite Ht, Hb, dramsim_log2_pow by lia. rewrite u32_small; lia. }
  unfold colHighBitWidth, colBitWidth. rewrite Hcl, E1, E2, E3, E4, E5, !dramsim_log2_pow by lia.
  rewrite u32_small by lia. by split_and!.
Qed.

(** The address above the transaction. *)
Lemma address_block a : 0 <= a ->
  Z.shiftr (Z.shiftr a (byteOffsetWidth c)) (colLowBitWidth c) = a / 2 ^ low_bits g.
Proof.
  intros Ha. destruct widths as (_ & _ & _ & _ & _ & -> & ->).
  destruct Hg as [_ _ _ _ _ [_ ?] [_ ?] _]. unfold low_bits.
  rewrite Z.shiftr_shiftr, Z.shiftr_div_pow2 by lia. done.
Qed.

(** A field, and what is left. *)
Lemma fields_of w x : 0 <= w <= 32 -> 0 <= x ->
  take_field w x = (x mod 2 ^ w, x / 2 ^ w) /\ 0 <= x mod 2 ^ w < 2 ^ w /\ 0 <= x / 2 ^ w.
Proof.
  intros Hw Hx. split; [by apply take_field_spec|]. split; [apply field_lt; lia|].
  apply Z.div_pos; [lia|]. apply Z.pow_pos_nonneg; lia.
Qed.

(** The rank and the bank of an address exist. *)
Lemma addressMapping_range a : 0 <= a ->
  0 <= da_rank (addressMapping c a) < NUM_RANKS c /\
  0 <= da_bank (addressMapping c a) < NUM_BANKS c.
Proof.
  intros Ha. unfold addressMapping. rewrite address_block by done.
  destruct widths as (-> & -> & -> & -> & -> & _ & _).
  destruct Hg as [[_ H1] [-> H2] [-> H3] [_ H4] [_ H5] _ [_ [H6 _]] H8].
  assert (Hx : 0 <= a / 2 ^ low_bits g).
  { apply Z.div_pos; [done|]. apply Z.pow_pos_nonneg; [lia|]. unfold low_bits.
    destruct Hg as [_ _ _ _ _ [_ ?] [_ ?] _]. lia. }
  revert Hx. generalize (a / 2 ^ low_bits g). intros x Hx.
  destruct (addressMappingScheme c).
  8: { specialize (H8 eq_refl). rewrite (u32_small (gm_bank g - 1)) by lia.
    destruct (fields_of (gm_rank g) x ltac:(lia) Hx) as (-> & Hf1 & Hx1).
    destruct (fields_of (gm_bank g - 1) _ ltac:(lia) Hx1) as (-> & Hf2 & Hx2).
    repeat (rewrite take_field_spec; [|lia|
      repeat first [done|apply Z.div_pos; [|apply Z.pow_pos_nonneg; lia]]]).
    cbn [da_rank da_bank]. split; [done|].
    rewrite Z.shiftl_1_l. set (v := _ mod 2 ^ (gm_bank g - 1)) in *.
    assert (E : 2 ^ gm_bank g = 2 * 2 ^ (gm_bank g - 1))
      by (rewrite <- Z.pow_succ_r by lia; f_equal; lia).
    assert (2 ^ (gm_bank g - 1) <= 2 ^ 29) by (apply Z.pow_le_mono_r; lia).
    case_match; [rewrite u32_small by lia|]; lia. }
  all: repeat (rewrite take_field_spec; [|lia|
      repeat first [done|apply Z.div_pos; [|apply Z.pow_pos_nonneg; lia]]]);
    cbn [da_rank da_bank]; split; apply field_lt; lia.
Qed.

(** The channel of an address exists. *)
Lemma addressMapping_channel a : 0 <= a -> 0 <= da_chan (addressMapping c a) < NUM_CHANS c.
Proof.
  intros Ha. unfold addressMapping. rewrite address_block by done.
  destruct widths as (-> & -> & -> & -> & -> & _ & _).
  destruct Hg as [[-> H1] [_ H2] [_ H3] [_ H4] [_ H5] _ [_ [H6 _]] H8].
  assert (Hx : 0 <= a / 2 ^ low_bits g).
  { apply Z.div_pos; [done|]. apply Z.pow_pos_nonneg; [lia|]. unfold low_bits.
    destruct Hg as [_ _ _ _ _ [_ ?] [_ ?] _]. lia. }
  revert Hx. generalize (a / 2 ^ low_bits g). intros x Hx.
  destruct (addressMappingScheme c) eqn:Es; try specialize (H8 eq_refl);
    rewrite ?(u32_small (gm_bank g - 1)) by lia;
    repeat (rewrite take_field_spec; [|lia|
      repeat first [done|apply Z.div_pos; [|apply Z.pow_pos_nonneg; lia]]]);
    cbn [da_chan]; apply field_lt; lia.
Qed.

End Geometry.

(** C17. The address map loses nothing: under the schemes 1 to 7, two addresses of the
    memory that are mapped to the same channel, rank, bank, row and column lie in the
    same transaction. *)
Theorem addressMapping_injective (c : DramCfg) (g : geometry) (a a' : Z) :
  geometry_ok c g -> addressMappingScheme c <> Scheme8 ->
  0 <= a < 2 ^ (low_bits g + field_bits g) -> 0 <= a' < 2 ^ (low_bits g + field_bits g) ->
  addressMapping c a = addressMapping c a' -> a / 2 ^ low_bits g = a' / 2 ^ low_bits g.
Proof.
  intros Hg Hs Ha Ha' E. unfold addressMapping in E.
  rewrite !(address_block c g Hg) in E by lia.
  destruct (widths c g Hg) as (W1 & W2 & W3 & W4 & W5 & _ & _).
  rewrite W1, W2, W3, W4, W5 in E.
  destruct Hg as [[_ H1] [_ H2] [_ H3] [_ H4] [_ H5] [_ H6] [_ [H7 H8]] _].
  set (n := field_bits g) in *.
  assert (Hn : n = gm_chan g + gm_rank g + gm_bank g + gm_row g + (gm_col g - gm_burst g)) by done.
  apply top_zero in Ha; [|unfold low_bits; lia|lia]. apply top_zero in Ha'; [|unfold low_bits; lia|lia].
  revert E Ha Ha'. generalize (a / 2 ^ low_bits g), (a' / 2 ^ low_bits g). intros x y E Hx Hy.
  destruct (addressMappingScheme c); [..|done].
  all: repeat (rewrite take_field_spec in E; [|lia|
      repeat first [lia|apply Z.div_pos; [|apply Z.pow_pos_nonneg; lia]]]);
    injection E as E1 E2 E3 E4 E5.
  - eapply (five_digits (gm_bank g) (gm_col g - gm_burst g) (gm_row g) (gm_rank g) (gm_chan g)
      n); try done; lia.
  - eapply (five_digits (gm_rank g) (gm_bank g) (gm_col g - gm_burst g) (gm_row g) (gm_chan g)
      n); try done; lia.
  - eapply (five_digits (gm_row g) (gm_col g - gm_burst g) (gm_bank g) (gm_rank g) (gm_chan g)
      n); try done; lia.
  - eapply (five_digits (gm_col g - gm_burst g) (gm_row g) (gm_bank g) (gm_rank g) (gm_chan g)
      n); try done; lia.
  - eapply (five_digits (gm_bank g) (gm_rank g) (gm_col g - gm_burst g) (gm_row g) (gm_chan g)
      n); try done; lia.
  - eapply (five_digits (gm_col g - gm_burst g) (gm_rank g) (gm_bank g) (gm_row g) (gm_chan g)
      n); try done; lia.
  - eapply (five_digits (gm_chan g) (gm_bank g) (gm_rank g) (gm_col g - gm_burst g) (gm_row g)
      n); try done; lia.
Qed.

Definition ddr3_geometry : geometry := mkGeometry 0 1 3 15 10 3 3.

Lemma ddr3_geometry_ok : geometry_ok ddr3 ddr3_geometry.
Proof. split; cbn; (done || lia). Qed.

Lemma addressMapping_injective_witness :
  addressMapping ddr3 0x12345640 = addressMapping ddr3 0x12345678 /\
  0x12345640 / 2 ^ low_bits ddr3_geometry = 0x12345678 / 2 ^ low_bits ddr3_geometry.
Proof.
  split; [by vm_compute|].
  apply (addressMapping_injective ddr3 ddr3_geometry 0x12345640 0x12345678 ddr3_geometry_ok);
    by vm_compute.
Defined.
