(* ===== verification/DramBanks.v ===== *)
(** The two copies of the bank states.  The controller keeps a table and the ranks
    keep states of their own, which they check every command against.  This file
    relates the copies ([bank_rel]) and shows that a command that can be issued is
    accepted by its rank a cycle later, with the copies still related. *)

From S2P Require Import Prelude DramTypes DramQueue DramRank DramController DramQueueSpec.

(** * Tables, bank by bank *)

Definition tmap (g : nat -> nat -> BankState -> BankState) (bs : BankTable) : BankTable :=
  imap (fun r row => imap (g r) row) bs.

Lemma tmap_ext f g bs : (forall r i b, f r i b = g r i b) -> tmap f bs = tmap g bs.
Proof. intros E. apply imap_ext. intros r row _. apply imap_ext. intros. apply E. Qed.

Lemma imap_imap {A B C} (f : nat -> B -> C) (g : nat -> A -> B) l :
  imap f (imap g l) = imap (fun i x => f i (g i x)) l.
Proof.
  apply list_eq. intros i. rewrite !list_lookup_imap. by destruct (l !! i).
Qed.

Lemma imap_id {A} (f : nat -> A -> A) l : (forall i x, f i x = x) -> imap f l = l.
Proof. intros E. apply list_eq. intros i. rewrite list_lookup_imap. destruct (l !! i); cbn; by rewrite ?E. Qed.

Lemma tmap_tmap f g bs : tmap f (tmap g bs) = tmap (fun r i b => f r i (g r i b)) bs.
Proof. unfold tmap. rewrite imap_imap. apply imap_ext. intros. apply imap_imap. Qed.

Lemma tmap_row g bs r row : bs !! r = Some row -> tmap g bs !! r = Some (imap (g r) row).
Proof. intros H. unfold tmap. by rewrite list_lookup_imap, H. Qed.

Lemma tmap_wf c g bs : table_wf c bs -> table_wf c (tmap g bs).
Proof.
  intros [H1 H2]. split; [by unfold tmap; rewrite length_imap|].
  intros r row Hr. unfold tmap in Hr. rewrite list_lookup_imap in Hr.
  apply fmap_Some in Hr as (row0 & Hr & ->). rewrite length_imap. eauto.
Qed.

(** Whether a place is the one a command names. *)
Definition at_z (z : Z) (i : nat) : bool := Z.of_nat i =? z.

Lemma insert_imap {A} (f : A -> A) l i x : l !! i = Some x ->
  <[i := f x]> l = imap (fun j y => if at_z (Z.of_nat i) j then f y else y) l.
Proof.
  intros Hx. apply list_eq. intros j. rewrite list_lookup_imap. unfold at_z.
  destruct (decide (i = j)) as [->|Hne].
  - rewrite list_lookup_insert_eq by (by eapply lookup_lt_Some). rewrite Hx. cbn.
    by rewrite Z.eqb_refl.
  - rewrite list_lookup_insert_ne by done. destruct (l !! j); cbn; [|done].
    destruct (Z.eqb_spec (Z.of_nat j) (Z.of_nat i)); [lia|done].
Qed.

Lemma upd_bank_imap f bank l : 0 <= bank < Z.of_nat (length l) ->
  upd_bank f bank l = Ok (imap (fun i b => if at_z bank i then f b else b) l).
Proof.
  intros Hb. unfold upd_bank. destruct (arr_get_total l bank Hb) as [b Hg]. rewrite Hg, bind_Ok_l.
  apply arr_set_Ok. split; [done|]. apply arr_get_Ok in Hg as [_ Hg].
  rewrite (insert_imap f _ _ _ Hg). by rewrite Z2Nat.id by lia.
Qed.

Lemma set_row_tmap bs rank row h : arr_get bs rank = Ok row ->
  arr_set bs rank (imap h row) = Ok (tmap (fun r i b => if at_z rank r then h i b else b) bs).
Proof.
  intros Hg. pose proof (arr_get_lt _ _ _ Hg) as Hlt. apply arr_set_Ok. split; [done|].
  apply arr_get_Ok in Hg as [Hr Hg]. apply list_eq. intros r. unfold tmap.
  rewrite list_lookup_imap. unfold at_z. destruct (decide (Z.to_nat rank = r)) as [<-|Hne].
  - rewrite list_lookup_insert_eq by (by eapply lookup_lt_Some). rewrite Hg. cbn.
    rewrite Z2Nat.id, Z.eqb_refl by lia. done.
  - rewrite list_lookup_insert_ne by done. destruct (bs !! r); cbn; [|done].
    destruct (Z.eqb_spec (Z.of_nat r) rank); [lia|]. by rewrite imap_id.
Qed.

Lemma fmap_imap {A B} (f : A -> B) l : f <$> l = imap (fun _ => f) l.
Proof. apply list_eq. intros i. by rewrite list_lookup_fmap, list_lookup_imap. Qed.

Section Table.

Context (c : DramCfg).

Lemma upd_table_tmap f rank bank bs : table_wf c bs -> 0 <= rank < NUM_RANKS c ->
  0 <= bank < NUM_BANKS c ->
  upd_table f rank bank bs =
    Ok (tmap (fun r i b => if at_z rank r then if at_z bank i then f b else b else b) bs).
Proof.
  intros [H1 H2] Hr Hb. unfold upd_table.
  destruct (arr_get_total bs rank) as [row Hg]; [lia|]. rewrite Hg, bind_Ok_l.
  pose proof Hg as Hg'. apply arr_get_Ok in Hg' as [_ Hg'].
  rewrite upd_bank_imap by (rewrite (H2 _ _ Hg'); lia). rewrite bind_Ok_l.
  by apply set_row_tmap.
Qed.

Lemma upd_ranks_tmap same other rank bs :
  upd_ranks same other rank bs =
    tmap (fun r _ b => if at_z rank r then same b else
                       if bool_decide (bs_state b = RowActive) then other b else b) bs.
Proof.
  unfold upd_ranks, tmap. apply imap_ext. intros r row _. unfold at_z.
  by destruct (Z.of_nat r =? rank); rewrite fmap_imap.
Qed.

Lemma tick_banks_tmap bs : tick_banks c bs = tmap (fun _ _ => tick_bank c) bs.
Proof. unfold tick_banks, tmap. rewrite fmap_imap. apply imap_ext. intros. apply fmap_imap. Qed.

(** ** What a command does to each bank of the controller and of its rank *)

Definition mc_effect (now : Z) (p : BusPacket) (r i : nat) (b : BankState) : BankState :=
  let same := at_z (bp_rank p) r in
  let here := at_z (bp_bank p) i in
  match bp_type p with
  | READ_P =>
      if same then
        if here then set_after_precharge (read_same c now (read_close c now b))
        else read_same c now b
      else if bool_decide (bs_state b = RowActive) then read_other c now b else b
  | WRITE_P =>
      if same then
        if here then set_after_precharge (write_same c now (write_close c now b))
        else write_same c now b
      else if bool_decide (bs_state b = RowActive) then write_other c now b else b
  | ACTIVATE =>
      if same then if here then open_row c now (bp_row p) b else activate_other c now b else b
  | REFRESH => if same then refresh_bank c now b else b
  | _ => b
  end.

Definition is_close_command (p : BusPacket) : Prop :=
  bp_type p = ACTIVATE \/ bp_type p = READ_P \/ bp_type p = WRITE_P \/ bp_type p = REFRESH.

Lemma apply_command_tmap now p bs : table_wf c bs -> is_close_command p ->
  0 <= bp_rank p < NUM_RANKS c -> 0 <= bp_bank p < NUM_BANKS c ->
  apply_command c now p bs = Ok (tmap (mc_effect now p) bs).
Proof.
  intros Hbs Hty Hr Hb. unfold apply_command, mc_effect.
  destruct Hty as [Hty|[Hty|[Hty|Hty]]]; rewrite Hty.
  - rewrite upd_table_tmap, bind_Ok_l by done.
    destruct (arr_get_total (tmap (fun r i b => if at_z (bp_rank p) r
      then if at_z (bp_bank p) i then open_row c now (bp_row p) b else b else b) bs) (bp_rank p))
      as [row Hrow]; [rewrite (tw_ranks _ _ (tmap_wf c _ bs Hbs)); lia|].
    rewrite Hrow, bind_Ok_l. unfold at_z at 1. rewrite (set_row_tmap _ _ _ _ Hrow), tmap_tmap.
    f_equal. apply tmap_ext. intros r i b. unfold at_z.
    by destruct (Z.of_nat r =? bp_rank p), (Z.of_nat i =? bp_bank p).
  - rewrite upd_table_tmap, bind_Ok_l, upd_ranks_tmap, tmap_tmap, upd_table_tmap, tmap_tmap
      by (done || by apply tmap_wf).
    f_equal. apply tmap_ext. intros r i b.
    by destruct (at_z (bp_rank p) r), (at_z (bp_bank p) i).
  - rewrite upd_table_tmap, bind_Ok_l, upd_ranks_tmap, tmap_tmap, upd_table_tmap, tmap_tmap
      by (done || by apply tmap_wf).
    f_equal. apply tmap_ext. intros r i b.
    by destruct (at_z (bp_rank p) r), (at_z (bp_bank p) i).
  - destruct (arr_get_total bs (bp_rank p)) as [row Hrow]; [rewrite (tw_ranks _ _ Hbs); lia|].
    rewrite Hrow, bind_Ok_l, fmap_imap. by apply set_row_tmap.
Qed.

(** The rank: whether it accepts the command, and what it does to a bank then. *)
Definition accepts (now : Z) (p : BusPacket) (l : list BankState) : Prop :=
  match bp_type p with
  | ACTIVATE => exists d, l !! Z.to_nat (bp_bank p) = Some d /\ bs_state d = Idle /\
      bs_nextActivate d <= now
  | READ_P => exists d, l !! Z.to_nat (bp_bank p) = Some d /\ bs_state d = RowActive /\
      bs_nextRead d <= now /\ bp_row p = bs_openRow d
  | WRITE_P => exists d, l !! Z.to_nat (bp_bank p) = Some d /\ bs_state d = RowActive /\
      bs_nextWrite d <= now /\ bp_row p = bs_openRow d
  | REFRESH => Forall (fun d => bs_state d = Idle) l
  | _ => False
  end.

Definition dev_effect (now : Z) (p : BusPacket) (i : nat) (d : BankState) : BankState :=
  let here := at_z (bp_bank p) i in
  match bp_type p with
  | READ_P => after_read c now (if here then rank_close now (READ_AUTOPRE_DELAY c) d else d)
  | WRITE_P => after_write c now (if here then rank_close now (WRITE_AUTOPRE_DELAY c) d else d)
  | ACTIVATE => if here then rank_open c now (bp_row p) d else
      with_bs_nextActivate (Z.max (bs_nextActivate d) (now + tRRD c)) d
  | REFRESH => with_bs_nextActivate (now + tRFC c) d
  | _ => d
  end.

(** The read data that a command adds to a rank. *)
Definition read_data (p : BusPacket) : list (BusPacket * Z) :=
  if bool_decide (bp_type p = READ_P) then [(with_bp_type DATA p, RL c)] else [].

Lemma Rank_receive_accepts p rk : 0 <= bp_bank p -> accepts (rk_clock rk) p (rk_banks rk) ->
  exists rk', Rank_receiveFromBus c p rk = Ok rk' /\
    rk_banks rk' = imap (dev_effect (rk_clock rk) p) (rk_banks rk) /\
    rk_readReturn rk' = rk_readReturn rk ++ read_data p /\
    rk_clock rk' = rk_clock rk /\ rk_isPowerDown rk' = rk_isPowerDown rk /\
    rk_outgoing rk' = rk_outgoing rk /\ rk_dataCyclesLeft rk' = rk_dataCyclesLeft rk.
Proof.
  intros Hb Ha. unfold Rank_receiveFromBus, accepts, dev_effect, read_data in *.
  destruct (bp_type p) eqn:Hty; try done.
  - destruct Ha as (d & Hd & Hs & Hn & Hrow).
    assert (Hg : arr_get (rk_banks rk) (bp_bank p) = Ok d) by by apply arr_get_Ok.
    pose proof (arr_get_lt _ _ _ Hg). rewrite Hg, bind_Ok_l. unfold column_allowed.
    rewrite Hs, Hrow, Z.eqb_refl, bool_decide_true by done.
    rewrite (proj2 (Z.leb_le _ _) Hn). cbn [negb andb].
    rewrite upd_bank_imap, bind_Ok_l by done. eexists. split; [done|]. cbn.
    split_and!; try done. by rewrite fmap_imap, imap_imap.
  - destruct Ha as (d & Hd & Hs & Hn & Hrow).
    assert (Hg : arr_get (rk_banks rk) (bp_bank p) = Ok d) by by apply arr_get_Ok.
    pose proof (arr_get_lt _ _ _ Hg). rewrite Hg, bind_Ok_l. unfold column_allowed.
    rewrite Hs, Hrow, Z.eqb_refl, bool_decide_true by done.
    rewrite (proj2 (Z.leb_le _ _) Hn). cbn [negb andb].
    rewrite upd_bank_imap, bind_Ok_l by done. eexists. split; [done|]. cbn.
    rewrite app_nil_r. split_and!; try done. by rewrite fmap_imap, imap_imap.
  - destruct Ha as (d & Hd & Hs & Hn).
    assert (Hg : arr_get (rk_banks rk) (bp_bank p) = Ok d) by by apply arr_get_Ok.
    pose proof (arr_get_lt _ _ _ Hg). rewrite Hg, bind_Ok_l, Hs, bool_decide_true by done.
    rewrite (proj2 (Z.leb_le _ _) Hn). cbn [negb andb].
    rewrite upd_bank_imap, bind_Ok_l by done. eexists. split; [done|]. cbn.
    rewrite app_nil_r. split_and!; try done. rewrite imap_imap. apply imap_ext.
    intros i x _. unfold at_z. by destruct (Z.of_nat i =? bp_bank p).
  - cbn. rewrite (proj2 (forallb_forall _ _)).
    + eexists. split; [done|]. cbn. rewrite app_nil_r. split_and!; try done. apply fmap_imap.
    + intros x Hx. apply bool_decide_eq_true. rewrite Forall_forall in Ha. apply Ha.
      by apply list_elem_of_In.
Qed.

End Table.

(** * The relation *)

Section Rel.

Context (c : DramCfg).

(** The delays that closing a row relies on. *)
Record close_cfg : Prop := {
  cc_read : 0 < READ_TO_PRE_DELAY c <= READ_AUTOPRE_DELAY c;
  cc_write : 0 < WRITE_TO_PRE_DELAY c <= WRITE_AUTOPRE_DELAY c;
  cc_tRP : 0 <= tRP c;
  cc_tRFC : 0 <= tRFC c
}.

(** A bank of the controller at cycle [now], and the same bank of the rank, with every
    command that was issued up to [now] received.  An open bank is open in both,
    unless its row is closing: the rank closes it at once, the controller when the
    countdown ends. *)
Definition bank_rel (now : Z) (b d : BankState) : Prop :=
  bs_nextActivate d <= bs_nextActivate b + 1 /\
  match bs_state b with
  | Idle => bs_state d = Idle /\ bs_countdown b = 0
  | Refreshing => bs_state d = Idle /\ bs_lastCommand b = REFRESH /\ 0 <= bs_countdown b /\
      (0 < bs_countdown b -> now + bs_countdown b <= bs_nextActivate b)
  | Precharging => bs_state d = Idle /\ bs_lastCommand b = PRECHARGE /\ 0 <= bs_countdown b
  | PowerDown => bs_state d = PowerDown /\ bs_countdown b = 0
  | RowActive =>
      (bs_state d = RowActive /\ bs_countdown b = 0 /\ bs_openRow d = bs_openRow b /\
       bs_nextRead d <= bs_nextRead b + 1 /\ bs_nextWrite d <= bs_nextWrite b + 1) \/
      (bs_state d = Idle /\ (bs_lastCommand b = READ_P \/ bs_lastCommand b = WRITE_P) /\
       0 < bs_countdown b /\ now + bs_countdown b <= bs_nextRead b /\
       now + bs_countdown b <= bs_nextWrite b)
  end.

(** A bank that a command can be issued to, seen from the rank a cycle later. *)
Lemma ready_open now p b d : bank_rel now b d -> bank_ready now p b ->
  bp_type p = READ_P \/ bp_type p = WRITE_P ->
  bs_state b = RowActive /\ bs_state d = RowActive /\ bp_row p = bs_openRow d /\
  bs_countdown b = 0 /\
  (bp_type p = READ_P -> bs_nextRead d <= now + 1) /\
  (bp_type p = WRITE_P -> bs_nextWrite d <= now + 1).
Proof.
  unfold bank_rel, bank_ready. intros [_ Hrel] Hrdy Hty.
  destruct Hty as [Hty|Hty]; rewrite Hty in *; destruct Hrdy as (Hs & Hn & Hrow);
    rewrite Hs in Hrel; destruct Hrel as [(?&?&?&?&?)|(?&?&?&?&?)]; try lia;
    split_and!; try done; try congruence; lia.
Qed.

Lemma ready_closed now p b d : bank_rel now b d -> bank_ready now p b -> bp_type p = ACTIVATE ->
  bs_state d = Idle /\ bs_nextActivate d <= now + 1 /\ bs_countdown b = 0.
Proof.
  unfold bank_rel, bank_ready. intros [Ha Hrel] Hrdy Hty. rewrite Hty in Hrdy.
  destruct Hrdy as ([Hs|Hs] & Hn); rewrite Hs in Hrel.
  - destruct Hrel. split_and!; try done; lia.
  - destruct Hrel as (? & ? & ? & ?). split_and!; try done; lia.
Qed.

(** ** Preservation, bank by bank *)

Lemma rel_tick now b d : close_cfg -> bank_rel now b d -> bank_rel (now + 1) (tick_bank c b) d.
Proof.
  intros Hc [Ha Hrel]. unfold tick_bank. pose proof (cc_tRP Hc).
  destruct (bs_state b) eqn:Hs.
  - destruct Hrel as [Hd Hz]. rewrite Hz. cbn. split; [done|]. by rewrite Hs.
  - destruct Hrel as [(? & Hz & ?)|(Hd & Hl & Hpos & Hr & Hw)].
    + rewrite Hz. cbn. split; [done|]. rewrite Hs. left. tauto.
    + rewrite (proj2 (Z.ltb_lt _ _) Hpos). cbn.
      destruct (Z.eqb_spec (bs_countdown b - 1) 0).
      * destruct Hl as [Hl|Hl]; rewrite Hl; (split; [done|]); cbn; split_and!; (done || lia).
      * split; [done|]. cbn. rewrite Hs. right. split_and!; (done || lia).
  - destruct Hrel as (Hd & Hl & Hpos). destruct (Z.ltb_spec 0 (bs_countdown b)).
    + cbn. destruct (Z.eqb_spec (bs_countdown b - 1) 0).
      * rewrite Hl. split; [done|]. by cbn.
      * split; [done|]. cbn. rewrite Hs. split_and!; (done || lia).
    + split; [done|]. by rewrite Hs.
  - destruct Hrel as (Hd & Hl & Hpos & Hn). destruct (Z.ltb_spec 0 (bs_countdown b)).
    + cbn. destruct (Z.eqb_spec (bs_countdown b - 1) 0).
      * rewrite Hl. split; [done|]. by cbn.
      * split; [done|]. cbn. rewrite Hs. split_and!; (done || lia).
    + split; [done|]. rewrite Hs. split_and!; (done || lia).
  - destruct Hrel as [Hd Hz]. rewrite Hz. cbn. split; [done|]. by rewrite Hs.
Qed.

(** A column access to the bank itself closes it. *)
Lemma rel_column_here now p b d : close_cfg -> bank_rel now b d -> bank_ready now p b ->
  bp_type p = READ_P \/ bp_type p = WRITE_P ->
  forall r i, at_z (bp_rank p) r = true -> at_z (bp_bank p) i = true ->
  bank_rel now (mc_effect c now p r i b) (dev_effect c (now + 1) p i d).
Proof.
  intros Hc Hrel Hrdy Hty r i Hr Hi.
  destruct (ready_open _ _ _ _ Hrel Hrdy Hty) as (Hs & _). destruct Hrel as [Ha _].
  pose proof (cc_read Hc). pose proof (cc_write Hc).
  unfold bank_rel, mc_effect, dev_effect. rewrite Hr, Hi.
  destruct Hty as [Hty|Hty]; rewrite Hty; cbn; rewrite Hs;
    (split; [lia|]); right; split_and!; try done; try lia; [by left|by right].
Qed.

(** A column access to another bank of the rank, or of another rank. *)
Lemma rel_column_same now p b d : bank_rel now b d ->
  bp_type p = READ_P \/ bp_type p = WRITE_P ->
  forall r i, at_z (bp_rank p) r = true -> at_z (bp_bank p) i = false ->
  bank_rel now (mc_effect c now p r i b) (dev_effect c (now + 1) p i d).
Proof.
  intros [Ha Hrel] Hty r i Hr Hi. unfold bank_rel, mc_effect, dev_effect. rewrite Hr, Hi.
  destruct Hty as [Hty|Hty]; rewrite Hty; cbn; (split; [done|]); destruct (bs_state b); try done;
    destruct Hrel as [(?&?&?&?&?)|(?&?&?&?&?)]; [left|right|left|right]; split_and!; (done || lia).
Qed.

Lemma rel_column_other now p b d : bank_rel now b d ->
  bp_type p = READ_P \/ bp_type p = WRITE_P ->
  forall r i, at_z (bp_rank p) r = false ->
  bank_rel now (mc_effect c now p r i b) d.
Proof.
  intros Hrel Hty r i Hr. unfold mc_effect. rewrite Hr.
  destruct Hty as [Hty|Hty]; rewrite Hty; case_bool_decide as Hs; try done;
    destruct Hrel as [Ha Hrel]; (split; [done|]); cbn; rewrite Hs in *;
    destruct Hrel as [(?&?&?&?&?)|(?&?&?&?&?)]; [left|right|left|right]; split_and!; (done || lia).
Qed.

Lemma rel_activate now p b d : bank_rel now b d -> bp_type p = ACTIVATE ->
  forall r i, at_z (bp_rank p) r = true ->
  (at_z (bp_bank p) i = true -> bank_ready now p b) ->
  bank_rel now (mc_effect c now p r i b) (dev_effect c (now + 1) p i d).
Proof.
  intros Hrel Hty r i Hr Hrdy. unfold mc_effect, dev_effect. rewrite Hty, Hr.
  destruct (at_z (bp_bank p) i) eqn:Hi.
  - destruct (ready_closed _ _ _ _ Hrel (Hrdy eq_refl) Hty) as (Hd & Hn & Hz).
    destruct Hrel as [Ha _]. split; cbn; [lia|]. left. split_and!; (done || lia).
  - destruct Hrel as [Ha Hrel]. split; cbn; [lia|].
    destruct (bs_state b); try done. destruct Hrel as (?&?&?&?). split_and!; try done. lia.
Qed.

Lemma rel_refresh now p b d : close_cfg -> bank_rel now b d -> bp_type p = REFRESH ->
  bs_state d = Idle -> forall r i, at_z (bp_rank p) r = true ->
  bank_rel now (mc_effect c now p r i b) (dev_effect c (now + 1) p i d).
Proof.
  intros Hc Hrel Hty Hd r i Hr. pose proof (cc_tRFC Hc). unfold mc_effect, dev_effect.
  rewrite Hty, Hr. split; cbn; [lia|]. split_and!; (done || lia).
Qed.

(** ** Rows and tables *)

(** A rank, with whether it is powered down. *)
Record row_rel (now : Z) (pd : bool) (row drow : list BankState) : Prop := {
  rr_banks : Forall2 (bank_rel now) row drow;
  rr_power : if pd
    then exists v, Forall (fun b => bs_state b = PowerDown /\ bs_nextPowerUp b = v) row /\
           Forall (fun d => bs_nextPowerUp d = v) drow
    else Forall (fun b => bs_state b <> PowerDown) row
}.

Definition table_rel (now : Z) (pds : list bool) (bs devs : BankTable) : Prop :=
  forall r row drow pd, bs !! r = Some row -> devs !! r = Some drow -> pds !! r = Some pd ->
    row_rel now pd row drow.

Lemma Forall2_imap {A B C D} (R : A -> B -> Prop) (R' : C -> D -> Prop) f g l k :
  Forall2 R l k ->
  (forall i x y, l !! i = Some x -> k !! i = Some y -> R x y -> R' (f i x) (g i y)) ->
  Forall2 R' (imap f l) (imap g k).
Proof.
  rewrite !Forall2_lookup. intros HR Himp i. rewrite !list_lookup_imap.
  specialize (HR i). destruct (l !! i) eqn:E1, (k !! i) eqn:E2; inversion HR; subst; constructor.
  by apply Himp.
Qed.

Lemma Forall_imap_lookup {A B} (P : A -> Prop) (Q : B -> Prop) f l :
  Forall P l -> (forall i x, l !! i = Some x -> P x -> Q (f i x)) -> Forall Q (imap f l).
Proof.
  rewrite !Forall_lookup. intros HP Himp i y. rewrite list_lookup_imap.
  intros (x & Hx & ->)%fmap_Some. eauto.
Qed.

Lemma table_rel_tick now pds bs devs : close_cfg -> table_rel now pds bs devs ->
  table_rel (now + 1) pds (tick_banks c bs) devs.
Proof.
  intros Hc Hrel r row drow pd Hrow Hd Hpd. rewrite tick_banks_tmap in Hrow.
  unfold tmap in Hrow. rewrite list_lookup_imap in Hrow. apply fmap_Some in Hrow as (row0 & Hr & ->).
  destruct (Hrel r row0 drow pd Hr Hd Hpd) as [H1 H2]. split.
  - rewrite <- (imap_id (fun _ x => x) drow) by done. eapply Forall2_imap; [exact H1|].
    intros i b d _ _ Hbd. by apply rel_tick.
  - assert (Hp : forall b d, bank_rel now b d -> bs_state (tick_bank c b) = PowerDown <->
      bs_state b = PowerDown).
    { intros b d [_ Hb]. unfold tick_bank. destruct (bs_state b) eqn:Hs; cbn in *.
      all: repeat (case_match; cbn in *; try congruence); try (split; congruence).
      all: destruct Hb; zb; try lia. }
    destruct pd.
    + destruct H2 as (v & Hf & Hg). exists v. split; [|done].
      eapply Forall_imap_lookup; [exact Hf|]. intros i b Hb [Hs Hv].
      pose proof H1 as H1'. rewrite Forall2_lookup in H1'. specialize (H1' i). rewrite Hb in H1'.
      inversion H1' as [x y Hxy|]; subst. split; [by apply (Hp b y)|].
      unfold tick_bank. destruct Hxy as [_ Hx]. rewrite Hs in Hx. destruct Hx as [_ ->]. done.
    + eapply Forall_imap_lookup; [exact H2|]. intros i b Hb Hs.
      pose proof H1 as H1'. rewrite Forall2_lookup in H1'. specialize (H1' i). rewrite Hb in H1'.
      inversion H1' as [x y Hxy|]; subst. by rewrite (Hp b y).
Qed.

(** ** Issuing a command *)

(** What the controller has checked of a command it issues. *)
Definition issue_ready (now : Z) (bs : BankTable) (p : BusPacket) : Prop :=
  0 <= bp_rank p < NUM_RANKS c /\ 0 <= bp_bank p < NUM_BANKS c /\
  ((bp_type p = REFRESH /\
    (forall row b, bs !! Z.to_nat (bp_rank p) = Some row -> b ∈ row -> bs_state b <> RowActive) /\
    (forall row b, bs !! Z.to_nat (bp_rank p) = Some row -> row !! 0%nat = Some b ->
       bs_state b <> PowerDown)) \/
   ((bp_type p = ACTIVATE \/ bp_type p = READ_P \/ bp_type p = WRITE_P) /\
    forall row b, bs !! Z.to_nat (bp_rank p) = Some row -> row !! Z.to_nat (bp_bank p) = Some b ->
      bank_ready now p b)).

(** The rank's banks once it has received the command. *)
Definition received (now : Z) (p : BusPacket) (devs : BankTable) : BankTable :=
  imap (fun r drow => if at_z (bp_rank p) r then imap (dev_effect c now p) drow else drow) devs.

Lemma at_z_nat z i : 0 <= z -> at_z z i = true <-> i = Z.to_nat z.
Proof. intros Hz. unfold at_z. rewrite Z.eqb_eq. lia. Qed.

(** A rank that gets a command is not powered down. *)
Lemma issue_powered now pd bs p row drow : table_wf c bs -> issue_ready now bs p ->
  0 < NUM_BANKS c -> bs !! Z.to_nat (bp_rank p) = Some row -> row_rel now pd row drow -> pd = false.
Proof.
  intros Hbs (Hr & Hb & Hrdy) Hnb Hrow [_ Hp]. destruct pd; [|done]. exfalso.
  destruct Hp as (v & Hf & _). pose proof (tw_banks _ _ Hbs _ _ Hrow) as Hlen.
  rewrite Forall_lookup in Hf. destruct Hrdy as [(_ & _ & H0)|[Hty Hrdy]].
  - destruct (lookup_lt_is_Some_2 row 0) as [b Hbk]; [lia|].
    apply (H0 row b Hrow Hbk). by eapply Hf.
  - destruct (lookup_lt_is_Some_2 row (Z.to_nat (bp_bank p))) as [b Hbk]; [lia|].
    specialize (Hrdy row b Hrow Hbk). destruct (Hf _ _ Hbk) as [Hs _].
    unfold bank_ready in Hrdy. destruct Hty as [E|[E|E]]; rewrite E in Hrdy; intuition congruence.
Qed.

Lemma mc_effect_awake now p r i b : bs_state b <> PowerDown ->
  bs_state (mc_effect c now p r i b) <> PowerDown.
Proof. intros Hs. unfold mc_effect. repeat case_match; by cbn. Qed.

Lemma mc_effect_asleep now p r i b : at_z (bp_rank p) r = false -> bs_state b = PowerDown ->
  mc_effect c now p r i b = b.
Proof.
  intros Hr Hs. unfold mc_effect. rewrite Hr, Hs. by destruct (bp_type p).
Qed.

(** The rank accepts it a cycle later. *)
Lemma issue_accepted now pd bs p row drow : table_wf c bs -> 0 < NUM_BANKS c ->
  issue_ready now bs p -> bs !! Z.to_nat (bp_rank p) = Some row -> row_rel now pd row drow ->
  accepts (now + 1) p drow.
Proof.
  intros Hbs Hnb Hi Hrow Hrel. pose proof (issue_powered _ _ _ _ _ _ Hbs Hi Hnb Hrow Hrel) as ->.
  destruct Hi as (Hr & Hb & Hrdy), Hrel as [Hrel Hpw]. pose proof (tw_banks _ _ Hbs _ _ Hrow) as Hlen.
  unfold accepts. destruct Hrdy as [(Hty & Hna & _)|[Hty Hrdy]].
  - rewrite Hty. apply Forall_lookup. intros i d Hd.
    rewrite Forall2_lookup in Hrel. specialize (Hrel i). rewrite Hd in Hrel.
    destruct (row !! i) as [b|] eqn:Hbi; inversion Hrel as [b' d' Hbd|]; subst.
    pose proof (Hna row b Hrow (list_elem_of_lookup_2 _ _ _ Hbi)) as Hs1.
    rewrite Forall_lookup in Hpw. pose proof (Hpw _ _ Hbi) as Hs2.
    destruct Hbd as [_ Hbd]. destruct (bs_state b); try done; naive_solver.
  - destruct (lookup_lt_is_Some_2 row (Z.to_nat (bp_bank p))) as [b Hbk]; [lia|].
    rewrite Forall2_lookup in Hrel. specialize (Hrel (Z.to_nat (bp_bank p))). rewrite Hbk in Hrel.
    destruct (drow !! Z.to_nat (bp_bank p)) as [d|] eqn:Hd; inversion Hrel as [b' d' Hbd|]; subst.
    specialize (Hrdy row b Hrow Hbk). destruct Hty as [Hty|Hty].
    + rewrite Hty. exists d. destruct (ready_closed _ _ _ _ Hbd Hrdy Hty). tauto.
    + destruct (ready_open _ _ _ _ Hbd Hrdy Hty) as (? & ? & ? & ? & H1 & H2).
      destruct Hty as [Hty|Hty]; rewrite Hty; exists d; split_and!; auto.
Qed.

(** And the copies stay related. *)
Lemma table_rel_issue now pds bs devs p : close_cfg -> table_wf c bs -> 0 < NUM_BANKS c ->
  issue_ready now bs p -> table_rel now pds bs devs ->
  table_rel now pds (tmap (mc_effect c now p) bs) (received (now + 1) p devs).
Proof.
  intros Hc Hbs Hnb Hi Hrel r row drow pd Hrow Hdrow Hpd.
  unfold tmap, received in *. rewrite list_lookup_imap in Hrow, Hdrow.
  apply fmap_Some in Hrow as (row0 & Hrow & ->). apply fmap_Some in Hdrow as (drow0 & Hdrow & ->).
  pose proof (Hrel _ _ _ _ Hrow Hdrow Hpd) as Hrr. destruct (at_z (bp_rank p) r) eqn:Hr.
  - pose proof Hr as Er. rewrite at_z_nat in Er by apply Hi. subst r.
    pose proof (issue_powered _ _ _ _ _ _ Hbs Hi Hnb Hrow Hrr) as ->.
    pose proof (issue_accepted _ _ _ _ _ _ Hbs Hnb Hi Hrow Hrr) as Hacc.
    destruct Hrr as [Hf Hpw]. split.
    + eapply Forall2_imap; [exact Hf|]. intros i b d Hb Hd Hbd.
      destruct Hi as (? & Hbk & [(Hty & _ & _)|[Hty Hrdy]]).
      * apply rel_refresh; try done. unfold accepts in Hacc. rewrite Hty, Forall_lookup in Hacc. eauto.
      * assert (Hrdy' : at_z (bp_bank p) i = true -> bank_ready now p b).
        { intros Hz. rewrite at_z_nat in Hz by lia. subst i. by eapply Hrdy. }
        destruct Hty as [Hty|Hty]; [by apply rel_activate|].
        destruct (at_z (bp_bank p) i) eqn:Hz; [apply rel_column_here|apply rel_column_same]; auto.
    + eapply Forall_imap_lookup; [exact Hpw|]. intros i b _. apply mc_effect_awake.
  - destruct Hrr as [Hf Hpw]. split.
    + rewrite <- (imap_id (fun _ x => x) drow0) by done. eapply Forall2_imap; [exact Hf|].
      intros i b d _ _ Hbd. destruct Hi as (_ & _ & [(Hty & _)|[[Hty|Hty] _]]).
      * unfold mc_effect. by rewrite Hty, Hr.
      * unfold mc_effect. by rewrite Hty, Hr.
      * by apply rel_column_other.
    + destruct pd.
      * destruct Hpw as (v & Hs & Hv). exists v. split; [|done].
        eapply Forall_imap_lookup; [exact Hs|]. intros i b _ [Hb Hn].
        rewrite mc_effect_asleep by done. done.
      * eapply Forall_imap_lookup; [exact Hpw|]. intros i b _. apply mc_effect_awake.
Qed.

End Rel.
