(* ===== verification/DramLanes.v ===== *)
(** Data on their way to a bus: the read data of a rank and the write data of the
    controller wait for their latency and are then on the bus for half a burst.
    Accesses that are far enough apart never meet on the bus, and no data are lost. *)

From S2P Require Import Prelude DramTypes DramQueue DramRank DramController.

(** * Lanes *)

(** What is on the bus, with the cycles it has left, and what waits. *)
Record lane := mkLane {
  ln_out : option BusPacket;
  ln_left : Z;
  ln_items : list (BusPacket * Z)
}.

(** All that is in a lane, and when it will be free. *)
Definition ln_packets (w : lane) : list BusPacket := option_list (ln_out w) ++ (fst <$> ln_items w).
Definition ln_busy (w : lane) : Z := match ln_out w with Some _ => ln_left w | None => 0 end.

Fixpoint spaced (gap lat prev : Z) (l : list (BusPacket * Z)) : Prop :=
  match l with
  | [] => True
  | (_, x) :: l' => Z.max 1 prev <= x <= lat /\ spaced gap lat (x + gap) l'
  end.
Fixpoint lane_end (gap prev : Z) (l : list (BusPacket * Z)) : Z :=
  match l with
  | [] => prev
  | (_, x) :: l' => lane_end gap (x + gap) l'
  end.

Definition ln_end (gap : Z) (w : lane) : Z := lane_end gap (ln_busy w) (ln_items w).

Record lane_ok (gap lat : Z) (w : lane) : Prop := {
  lo_out : ln_out w <> None -> 1 <= ln_left w <= gap;
  lo_spaced : spaced gap lat (ln_busy w) (ln_items w)
}.

(** One cycle of a lane, and data that are added to it. *)
Definition ln_update (gap : Z) (w : lane) : option BusPacket * lane :=
  let '(sent, out, k) :=
    match ln_out w with
    | None => (None, None, ln_left w)
    | Some p =>
        let k := u32 (ln_left w - 1) in
        if k =? 0 then (Some p, None, k) else (None, Some p, k)
    end in
  let items := (fun x => (x.1, u32 (x.2 - 1))) <$> ln_items w in
  (sent, match items with
         | (p, 0) :: rest => mkLane (Some p) gap rest
         | _ => mkLane out k items
         end).
Definition ln_add (p : BusPacket) (lat : Z) (w : lane) : lane :=
  mkLane (ln_out w) (ln_left w) (ln_items w ++ [(p, lat)]).

Section Lane.

Context (gap lat : Z) (Hgap : 1 <= gap < 2 ^ 31) (Hlat : 1 <= lat < 2 ^ 32).

Lemma spaced_dec l : forall prev prev', spaced gap lat prev l -> prev' <= Z.max 1 (prev - 1) ->
  (forall p x l', l = (p, x) :: l' -> 1 < x) ->
  spaced gap lat prev' ((fun x => (x.1, u32 (x.2 - 1))) <$> l) /\
  (l <> [] -> lane_end gap prev' ((fun x => (x.1, u32 (x.2 - 1))) <$> l) = lane_end gap prev l - 1).
Proof.
  induction l as [|[p x] l IH]; intros prev prev' Hs Hp Hx; [by split|].
  cbn [spaced fmap list_fmap lane_end fst snd] in *. destruct Hs as [Hr Hs].
  pose proof (Hx _ _ _ eq_refl). rewrite u32_small by lia.
  destruct (IH (x + gap) (x - 1 + gap) Hs) as [H1 H2]; [lia| |].
  { intros p' x' l' ->. cbn in Hs. lia. }
  split; [split; [lia|done]|]. intros _. destruct l as [|y l]; [cbn; lia|]. by apply H2.
Qed.

Lemma spaced_weaken l prev prev' : prev' <= prev -> spaced gap lat prev l -> spaced gap lat prev' l.
Proof. destruct l as [|[p x] l]; cbn; [done|]. intros ? [? ?]. split; [lia|done]. Qed.

Lemma lane_end_ge l : forall prev, spaced gap lat prev l -> prev <= lane_end gap prev l.
Proof.
  induction l as [|[p x] l IH]; intros prev Hs; cbn in *; [lia|]. destruct Hs as [? Hs].
  specialize (IH _ Hs). lia.
Qed.

Lemma lane_end_le l : forall prev, prev <= lat + gap -> spaced gap lat prev l ->
  lane_end gap prev l <= lat + gap.
Proof.
  induction l as [|[p x] l IH]; intros prev Hp Hs; cbn in *; [lia|]. destruct Hs as [? Hs].
  apply IH; [lia|done].
Qed.

(** A cycle: nothing is lost, and the lane is free a cycle earlier. *)
Lemma ln_update_spec w sent w' : lane_ok gap lat w -> ln_update gap w = (sent, w') ->
  lane_ok gap lat w' /\ ln_packets w ≡ₚ option_list sent ++ ln_packets w' /\
  ln_end gap w' <= Z.max 0 (ln_end gap w - 1).
Proof.
  destruct w as [out k0 items]. intros [Ho Hs]. unfold ln_update, ln_packets, ln_end, ln_busy in *.
  cbn [ln_out ln_left ln_items] in *.
  set (s := match out with None => (None, None, k0) | Some p => _ end).
  assert (Hsent : exists sent1 out1 left1, s = (sent1, out1, left1) /\
    option_list out = option_list sent1 ++ option_list out1 /\
    (out1 <> None -> 1 <= left1 <= gap) /\
    match out1 with Some _ => left1 | None => 0 end =
      Z.max 0 (match out with Some _ => k0 | None => 0 end - 1)).
  { subst s. destruct out as [p|]; [|exists None, None, k0; by split_and!].
    pose proof (Ho ltac:(done)). rewrite u32_small by lia.
    destruct (Z.eqb_spec (k0 - 1) 0).
    - exists (Some p), None, (k0 - 1). split_and!; (done || lia).
    - exists None, (Some p), (k0 - 1). split_and!; (done || lia). }
  destruct Hsent as (sent1 & out1 & left1 & -> & Hout & Hl1 & Hb).
  set (busy := match out with Some _ => k0 | None => 0 end) in *.
  intros [= <- <-]. destruct items as [|[p x] l].
  { cbn. rewrite !app_nil_r. split; [by split|]. split; [by rewrite Hout|]. lia. }
  cbn [spaced] in Hs. destruct Hs as [Hx Hs]. rewrite fmap_cons. cbn [fst snd].
  rewrite (u32_small (x - 1)) by lia. destruct (decide (x = 1)) as [->|Hne].
  - change (1 - 1) with 0. cbn -[lane_end].
    destruct (spaced_dec l (1 + gap) gap Hs) as [H1 H2]; [lia| |].
    { intros p' x' l' ->. cbn in Hs. lia. }
    assert (Hout1 : out1 = None) by (destruct out1 as [y|]; [pose proof (Hl1 ltac:(done)); lia|done]).
    split; [split; cbn; [intros _; lia|done]|]. split.
    + rewrite Hout, Hout1, app_nil_r. cbn. rewrite <- list_fmap_compose. done.
    + change (lane_end gap busy ((p, 1) :: l)) with (lane_end gap (1 + gap) l).
      destruct l as [|y l]; [cbn; lia|]. rewrite H2 by done. lia.
  - assert (Hm : match x - 1 with 0 => mkLane (Some p) gap ((fun x => (x.1, u32 (x.2 - 1))) <$> l)
      | _ => mkLane out1 left1 ((p, x - 1) :: ((fun x => (x.1, u32 (x.2 - 1))) <$> l)) end =
      mkLane out1 left1 ((p, x - 1) :: ((fun x => (x.1, u32 (x.2 - 1))) <$> l))).
    { destruct (x - 1) eqn:E; [lia|done|done]. }
    rewrite Hm. clear Hm.
    destruct (spaced_dec l (x + gap) (x - 1 + gap) Hs) as [H1 H2]; [lia| |].
    { intros p' x' l' ->. cbn in Hs. lia. }
    split; [split; cbn; [done|]|].
    + split; [unfold ln_busy; cbn; lia|done].
    + split.
      * cbn. rewrite Hout, <- app_assoc. f_equiv. f_equiv. rewrite <- list_fmap_compose. done.
      * cbn [ln_items ln_out ln_left lane_end]. destruct l as [|y l]; [cbn; lia|].
        rewrite H2 by done. lia.
Qed.

(** When the first data are due, the bus is free. *)
Lemma ln_update_free w p x rest : lane_ok gap lat w -> ln_items w = (p, x) :: rest ->
  u32 (x - 1) = 0 -> ln_out w <> None -> ln_left w = 1.
Proof.
  intros [Ho Hs] Hi Hx Hne. pose proof (Ho Hne). unfold ln_busy in Hs. rewrite Hi in Hs. cbn in Hs.
  destruct (ln_out w); [|done]. rewrite u32_small in Hx by lia. lia.
Qed.

(** Data can be added when the lane will be free in time. *)
Lemma spaced_app l p : forall prev, spaced gap lat prev l -> lane_end gap prev l <= lat ->
  spaced gap lat prev (l ++ [(p, lat)]) /\ lane_end gap prev (l ++ [(p, lat)]) = lat + gap.
Proof.
  induction l as [|[q x] l IH]; intros prev Hs He; cbn in *.
  - split; [|done]. split; [lia|done].
  - destruct Hs as [Hr Hs]. destruct (IH _ Hs He). tauto.
Qed.

Lemma ln_add_spec w p : lane_ok gap lat w -> ln_end gap w <= lat ->
  lane_ok gap lat (ln_add p lat w) /\ ln_end gap (ln_add p lat w) = lat + gap /\
  ln_packets (ln_add p lat w) = ln_packets w ++ [p].
Proof.
  intros [Ho Hs] He. destruct (spaced_app _ p _ Hs He) as [H1 H2]. split; [by split|].
  split; [done|]. unfold ln_packets. cbn. by rewrite fmap_app, app_assoc.
Qed.

Lemma ln_end_bound w : lane_ok gap lat w -> ln_end gap w <= lat + gap.
Proof.
  intros [Ho Hs]. apply lane_end_le; [|done]. unfold ln_busy. destruct (ln_out w); [|lia].
  pose proof (Ho ltac:(done)). lia.
Qed.

End Lane.

(** * The two users *)

Section Users.

Context (c : DramCfg).

(** The read data of a rank. *)
Definition rank_lane (rk : Rank) : lane :=
  mkLane (rk_outgoing rk) (rk_dataCyclesLeft rk) (rk_readReturn rk).

Lemma Rank_update_lane rk sent rk' : Rank_update c rk = (sent, rk') ->
  ln_update (BL c / 2) (rank_lane rk) = (sent, rank_lane rk') /\
  rk_clock rk' = rk_clock rk /\ rk_isPowerDown rk' = rk_isPowerDown rk /\
  rk_refreshWaiting rk' = rk_refreshWaiting rk /\ rk_banks rk' = rk_banks rk.
Proof.
  destruct rk as [clk pd rw banks ret out k]. unfold Rank_update, ln_update, rank_lane. cbn.
  destruct out as [p|]; [destruct (u32 (k - 1) =? 0)|]; intros E; injection E as <- <-;
    (destruct ret as [|[p' x] l]; [by split_and!|]); cbn;
    destruct (u32 (x - 1)) eqn:Ex; cbn; rewrite ?Ex; by split_and!.
Qed.

(** The write data of the controller. *)
Definition mc_lane (m : MemoryController) : lane :=
  mkLane (mc_outgoingData m) (mc_dataCyclesLeft m) (mc_writeData m).

End Users.
