(* ===== verification/DramFlow.v ===== *)
(** The steps of a memory cycle, one by one: each returns under the conditions that
    the invariant of the memory system provides, with the state it leaves behind
    written out, and commands and data are conserved. *)

From S2P Require Import Prelude DramTypes DramQueue DramRank DramController DramQueueSpec DramBanks DramLanes DramAddr.

(** * Commands in the queues *)

Definition queued (q : CommandQueue) : list BusPacket :=
  concat ((fun row : list (list BusPacket) => concat row) <$> cq_queues q).

Lemma concat_insert {A} (l : list (list A)) i x y : l !! i = Some x ->
  concat (<[i := y]> l) ++ x ≡ₚ y ++ concat l.
Proof.
  intros Hx. pose proof (lookup_lt_Some _ _ _ Hx). rewrite insert_take_drop by done.
  rewrite <- (take_drop_middle _ _ _ Hx) at 3. rewrite !concat_app. cbn. solve_Permutation.
Qed.

Lemma queued_set q r k l l' q' : queue_at q r k = Ok l -> set_bankQueue r k l' q = Ok q' ->
  queued q' ++ l ≡ₚ l' ++ queued q.
Proof.
  unfold queue_at, set_bankQueue. intros Hq Hs. apply bind_Ok in Hq as (row & Hrow & Hl).
  rewrite Hrow in Hs. cbn in Hs. inv_ok. unfold queued. cbn.
  apply arr_set_Ok in Hx as [_ ->]. apply arr_set_Ok in Hx0 as [_ ->].
  apply arr_get_Ok in Hrow as [_ Hrow]. apply arr_get_Ok in Hl as [_ Hl].
  rewrite list_fmap_insert.
  pose proof (concat_insert row _ _ l' Hl) as H1.
  pose proof (concat_insert ((fun row : list (list BusPacket) => concat row) <$> cq_queues q)
    (Z.to_nat r) (concat row) (concat (<[Z.to_nat k:=l']> row))) as H2.
  rewrite list_lookup_fmap, Hrow in H2. specialize (H2 eq_refl).
  apply (Permutation_app_inv_r (concat row)).
  rewrite <- (app_assoc l'). rewrite <- app_assoc, (Permutation_app_comm l), app_assoc.
  rewrite H2, <- app_assoc, (Permutation_app_comm (concat ((fun row => concat row) <$> cq_queues q))).
  rewrite app_assoc, H1. solve_Permutation.
Qed.

Lemma queued_unqueued c qc q k p q' : unqueued c qc q k p q' -> queued q ≡ₚ p :: queued q'.
Proof.
  intros (q1 & (l1 & l2 & Hl & Hs & _) & E). pose proof (queued_set _ _ _ _ _ _ Hl Hs) as H.
  assert (E' : queued q' = queued q1) by (unfold queued; by rewrite E). rewrite E'.
  apply (Permutation_app_inv_l (l1 ++ l2)). rewrite <- H. solve_Permutation.
Qed.

Lemma queued_enqueue c qc p q q' : enqueue c qc p q = Ok q' -> queued q' ≡ₚ p :: queued q.
Proof.
  unfold enqueue. intros H. apply bind_Ok in H as (i & _ & H). apply bind_Ok in H as (l & Hl & H).
  case_match; [done|]. pose proof (queued_set _ _ _ _ _ _ Hl H) as Hp.
  apply (Permutation_app_inv_r l). rewrite Hp. solve_Permutation.
Qed.

(** The addresses of reads among commands. *)
Definition read_addrs (l : list BusPacket) : list Z :=
  bp_physicalAddress <$> filter (fun p => bp_type p = READ_P) l.

#[global] Instance read_addrs_Permutation : Proper ((≡ₚ) ==> (≡ₚ)) read_addrs.
Proof. intros l k E. unfold read_addrs. by rewrite E. Qed.

Lemma read_addrs_cons p l :
  read_addrs (p :: l) = (if bool_decide (bp_type p = READ_P) then [bp_physicalAddress p] else [])
    ++ read_addrs l.
Proof.
  unfold read_addrs. rewrite filter_cons. case_bool_decide; [rewrite decide_True by done|
    rewrite decide_False by done]; done.
Qed.

Section Flow.

Context (c : DramCfg) (qc : QCfg).

(** * The ranks *)

Definition return_of (p : BusPacket) : Transaction :=
  mkTransaction RETURN_DATA (bp_physicalAddress p) (bp_threadID p) 0.
Definition sent_data (rk : Rank) : list BusPacket := option_list (Rank_update c rk).1.

Lemma update_rank_all todo : forall m done,
  Forall (fun rk => forall p, (Rank_update c rk).1 = Some p -> bp_type p = DATA) todo ->
  foldM (update_rank c) (m, done ++ todo) (seqZ (Z.of_nat (length done)) (Z.of_nat (length todo))) =
  Ok (with_mc_returnTransaction (mc_returnTransaction m ++ (return_of <$> (todo ≫= sent_data))) m,
      done ++ ((fun rk => (Rank_update c rk).2) <$> todo)).
Proof.
  induction todo as [|rk todo IH]; intros m done Hty.
  { cbn. rewrite !app_nil_r. by destruct m. }
  apply Forall_cons in Hty as [Hrk Hty]. cbn [length].
  rewrite seqZ_cons by lia. cbn [foldM].
  replace (Z.succ (Z.of_nat (length done))) with (Z.of_nat (length (done ++ [(Rank_update c rk).2])))
    by (rewrite length_app; cbn; lia).
  replace (Z.pred (Z.of_nat (S (length todo)))) with (Z.of_nat (length todo)) by lia.
  assert (Hg : arr_get (done ++ rk :: todo) (Z.of_nat (length done)) = Ok rk).
  { apply arr_get_Ok. split; [lia|]. rewrite Nat2Z.id. by apply list_lookup_middle. }
  assert (Hset : arr_set (done ++ rk :: todo) (Z.of_nat (length done)) (Rank_update c rk).2 =
    Ok ((done ++ [(Rank_update c rk).2]) ++ todo)).
  { apply arr_set_Ok. split; [rewrite length_app; cbn; lia|]. rewrite Nat2Z.id.
    rewrite insert_app_r_alt, Nat.sub_diag by lia. cbn. by rewrite <- app_assoc. }
  unfold update_rank at 2. rewrite Hg, bind_Ok_l. cbn [mbind list_bind]. unfold sent_data at 1.
  destruct (Rank_update c rk) as [sent rk'] eqn:E. cbn [fst snd] in *. destruct sent as [p|].
  - unfold mc_receiveFromBus. rewrite bool_decide_true by by apply Hrk. rewrite bind_Ok_l, Hset, bind_Ok_l.
    rewrite bind_Ok_l. rewrite IH by done. cbn. rewrite <- !app_assoc. cbn. rewrite E. done.
  - rewrite bind_Ok_l, Hset, bind_Ok_l, bind_Ok_l, IH by done. cbn. rewrite <- !app_assoc, E. done.
Qed.

(** * The buses *)

Lemma to_rank_at f ranks rank rk rk' : ranks !! Z.to_nat rank = Some rk -> 0 <= rank ->
  f rk = Ok rk' -> to_rank f rank ranks = Ok (<[Z.to_nat rank := rk']> ranks).
Proof.
  intros Hrk Hr Hf. unfold to_rank.
  assert (Hg : arr_get ranks rank = Ok rk) by by apply arr_get_Ok.
  pose proof (arr_get_lt _ _ _ Hg). rewrite Hg, bind_Ok_l, Hf, bind_Ok_l. by apply arr_set_Ok.
Qed.

(** The command bus with a command that its rank accepts. *)
Lemma send_cmd_accepted m ranks p rk : mc_outgoingCmd m = Some p -> mc_cmdCyclesLeft m = 1 ->
  0 <= bp_rank p -> 0 <= bp_bank p -> ranks !! Z.to_nat (bp_rank p) = Some rk ->
  accepts (rk_clock rk) p (rk_banks rk) ->
  exists rk', send_cmd c m ranks =
      Ok (with_mc_outgoingCmd None 0 m, <[Z.to_nat (bp_rank p) := rk']> ranks) /\
    rk_banks rk' = imap (dev_effect c (rk_clock rk) p) (rk_banks rk) /\
    rk_readReturn rk' = rk_readReturn rk ++ read_data c p /\
    rk_clock rk' = rk_clock rk /\ rk_isPowerDown rk' = rk_isPowerDown rk /\
    rk_outgoing rk' = rk_outgoing rk /\ rk_dataCyclesLeft rk' = rk_dataCyclesLeft rk.
Proof.
  intros Hp Hl Hr Hb Hrk Ha. destruct (Rank_receive_accepts c p rk Hb Ha) as (rk' & Hrcv & Hrest).
  exists rk'. split; [|done]. unfold send_cmd. rewrite Hp, Hl. cbn.
  by rewrite (to_rank_at _ _ _ _ _ Hrk Hr Hrcv), bind_Ok_l.
Qed.

(** The data bus and the write data: a cycle of the controller's lane. *)
Definition writes_done (now : Z) (sent : option BusPacket) : list MemOut :=
  (fun p => WriteDataDone (bp_physicalAddress p) now (bp_threadID p)) <$> option_list sent.

Definition with_mc_lane (w : lane) (m : MemoryController) : MemoryController :=
  with_mc_writeData (ln_items w) (with_mc_outgoingData (ln_out w) (ln_left w) m).

Lemma data_bus_lane lat m ranks : 1 <= BL c / 2 < 2 ^ 31 -> 1 <= lat < 2 ^ 32 ->
  lane_ok (BL c / 2) lat (mc_lane m) ->
  Forall (fun p => bp_type p = DATA /\ 0 <= bp_rank p < Z.of_nat (length ranks)) (ln_packets (mc_lane m)) ->
  exists sent w m1, ln_update (BL c / 2) (mc_lane m) = (sent, w) /\
    send_data c m ranks = Ok (m1, ranks, writes_done (mc_clock m) sent) /\
    issue_write_data c m1 = Ok (with_mc_lane w m).
Proof.
  intros Hg Hlat Hok Hty.
  destruct m as [clk bs q tq tqs rc rr wd ret pend pd cmd cl out k].
  unfold mc_lane in *. cbn in *.
  assert (Hto : forall p, out = Some p -> to_rank (Rank_receiveFromBus c p) (bp_rank p) ranks = Ok ranks).
  { intros p ->. apply Forall_app in Hty as [Hty _]. cbn in Hty. apply Forall_cons in Hty as [[Ht Hr] _].
    destruct (lookup_lt_is_Some_2 ranks (Z.to_nat (bp_rank p))) as [rk Hrk]; [lia|].
    rewrite (to_rank_at _ _ _ rk rk Hrk); [by rewrite list_insert_id|lia|].
    unfold Rank_receiveFromBus. by rewrite Ht. }
  unfold ln_update, send_data. cbn. destruct out as [p|].
  - specialize (Hto p eq_refl). destruct (u32 (k - 1) =? 0) eqn:Ek.
    + rewrite Hto, bind_Ok_l. eexists _, _, _. split; [done|]. split; [done|].
      unfold issue_write_data. cbn. apply Z.eqb_eq in Ek. rewrite Ek.
      destruct ((fun x : BusPacket * Z => (x.1, u32 (x.2 - 1))) <$> wd) as [|[p' [|x|x]] l]; done.
    + eexists _, _, _. split; [done|]. split; [done|]. unfold issue_write_data. cbn.
      destruct wd as [|[p' x] l]; [done|]. cbn. destruct (u32 (x - 1)) eqn:Ex; try done.
      exfalso. pose proof (ln_update_free (BL c / 2) lat Hlat _ p' x l Hok eq_refl Ex ltac:(done)) as E1.
      cbn in E1. subst k. done.
  - eexists _, _, _. split; [done|]. split; [done|]. unfold issue_write_data. cbn.
    destruct ((fun x : BusPacket * Z => (x.1, u32 (x.2 - 1))) <$> wd) as [|[p' [|x|x]] l]; done.
Qed.

(** * Refreshes *)

(** A refresh that is due only marks the queue and the rank. *)
Lemma start_refresh_spec m ranks : length ranks = length (mc_refreshCountdown m) ->
  length ranks = length (mc_powerDown m) -> Z.of_nat (length ranks) = NUM_RANKS c ->
  NUM_RANKS c < 2 ^ 31 -> 0 <= mc_refreshRank m < NUM_RANKS c ->
  exists q cd rank ranks', start_refresh c m ranks =
      Ok (with_mc_refresh cd rank (with_mc_queue q m), ranks') /\
    length cd = length (mc_refreshCountdown m) /\ 0 <= rank < NUM_RANKS c /\
    (q = mc_queue m \/ q = needRefresh (mc_refreshRank m) (mc_queue m)) /\
    Forall2 (fun rk rk' => exists v, rk' = with_rk_refreshWaiting v rk) ranks ranks'.
Proof.
  intros Hl1 Hl2 Hn Hlt Hr. unfold start_refresh.
  destruct (arr_get_total (mc_refreshCountdown m) (mc_refreshRank m)) as [cd Hcd]; [lia|].
  rewrite Hcd, bind_Ok_l.
  assert (Hsame : Forall2 (fun rk rk' => exists v, rk' = with_rk_refreshWaiting v rk) ranks ranks).
  { apply Forall2_same_length_lookup_2; [done|]. intros i x y Hx Hy. exists (rk_refreshWaiting x).
    assert (y = x) as -> by congruence. by destruct x. }
  destruct (lookup_lt_is_Some_2 ranks (Z.to_nat (mc_refreshRank m))) as [rk Hrk]; [lia|].
  assert (Hto : to_rank (fun r => Ok (with_rk_refreshWaiting true r)) (mc_refreshRank m) ranks =
    Ok (<[Z.to_nat (mc_refreshRank m) := with_rk_refreshWaiting true rk]> ranks))
    by (eapply to_rank_at; [done|lia|done]).
  assert (Hins : Forall2 (fun rk rk' => exists v, rk' = with_rk_refreshWaiting v rk) ranks
    (<[Z.to_nat (mc_refreshRank m) := with_rk_refreshWaiting true rk]> ranks)).
  { rewrite <- (list_insert_id ranks _ rk Hrk) at 1. apply Forall2_insert; [done|by eexists]. }
  destruct (cd =? 0).
  - rewrite Hto, bind_Ok_l.
    destruct (arr_set_total (mc_refreshCountdown m) (mc_refreshRank m) (refresh_period c)) as [v Hv]; [lia|].
    cbn. rewrite Hv. cbn. eexists _, v, _, _. split; [done|].
    split; [by eapply arr_set_length|]. split; [|by split; [right|]].
    rewrite u32_small by lia. case_match; zb; lia.
  - destruct (arr_get_total (mc_powerDown m) (mc_refreshRank m)) as [pd Hpd]; [lia|].
    rewrite Hpd, bind_Ok_l. destruct (pd && (cd <=? tXP c)).
    + rewrite Hto, bind_Ok_l. exists (mc_queue m), (mc_refreshCountdown m), (mc_refreshRank m).
      eexists. split; [by destruct m|]. split_and!; try done; try lia. by left.
    + exists (mc_queue m), (mc_refreshCountdown m), (mc_refreshRank m), ranks.
      split; [by destruct m|]. split_and!; try done; try lia. by left.
Qed.

End Flow.

(** * Theorems

    Transactions: they become commands when the queues have room, with nothing lost
    and no queue overrun, and returned data find the read they answer. *)

Section Trans.

Context (c : DramCfg) (qc : QCfg) (g : geometry).
Context (Hcfg : queue_cfg c qc) (Hg : geometry_ok c g) (Hdepth : 0 <= CMD_QUEUE_DEPTH c < 2 ^ 31).

(** What the simulator may send: a read or a write. *)
Definition trans_ok (t : Transaction) : Prop :=
  0 <= tr_address t /\ (tr_type t = DATA_READ \/ tr_type t = DATA_WRITE).

(** The addresses of reads among transactions. *)
Definition trans_reads (l : list Transaction) : list Z :=
  tr_address <$> filter (fun t => tr_type t = DATA_READ) l.

#[global] Instance trans_reads_Permutation : Proper ((≡ₚ) ==> (≡ₚ)) trans_reads.
Proof. intros l k E. unfold trans_reads. by rewrite E. Qed.

Lemma trans_reads_cons t l :
  trans_reads (t :: l) = (if bool_decide (tr_type t = DATA_READ) then [tr_address t] else [])
    ++ trans_reads l.
Proof.
  unfold trans_reads. rewrite filter_cons. case_bool_decide; [rewrite decide_True by done|
    rewrite decide_False by done]; done.
Qed.

Lemma trans_reads_app l k : trans_reads (l ++ k) = trans_reads l ++ trans_reads k.
Proof. unfold trans_reads. by rewrite filter_app, fmap_app. Qed.

(** The commands of a transaction go to the same queue. *)
Lemma commands_of_spec t : trans_ok t ->
  exists act col, commands_of c t = Ok (act, col) /\
    bp_type act = ACTIVATE /\ bp_rank act = bp_rank col /\ bp_bank act = bp_bank col /\
    bp_threadID act = tr_threadID t /\ bp_threadID col = tr_threadID t /\
    bp_rank col = da_rank (addressMapping c (tr_address t)) /\
    bp_bank col = da_bank (addressMapping c (tr_address t)) /\
    packet_ok c (bp_rank act) act /\ packet_ok c (bp_rank col) col /\
    0 <= bp_rank col < NUM_RANKS c /\
    read_addrs [act; col] = trans_reads [t].
Proof.
  intros [Ha Ht]. unfold commands_of, getBusPacketType. rewrite (qk_close _ _ Hcfg).
  destruct (addressMapping_range c g Hg (tr_address t) Ha) as [Hr Hb].
  unfold packet_ok.
  destruct Ht as [Ht|Ht]; rewrite Ht, bind_Ok_l; eexists _, _; (split; [done|]);
    rewrite !read_addrs_cons, trans_reads_cons, Ht; cbn; split_and!; try done; try lia; auto.
Qed.

Lemma home_of t p : trans_ok t -> bp_threadID p = tr_threadID t ->
  bp_bank p = da_bank (addressMapping c (tr_address t)) -> forall pid,
  (q_kind qc <> Q_Base -> pid = tr_threadID t) ->
  queue_index c qc (if bool_decide (q_kind qc = Q_Base)
    then da_bank (addressMapping c (tr_address t)) else pid) = Ok (home c qc p).
Proof.
  intros Hok Hth Hb pid Hpid. unfold queue_index, home. pose proof (qk_struct _ _ Hcfg) as Hs.
  destruct (q_kind qc); cbn in *; rewrite ?Hb, ?Hth, ?(Hpid ltac:(done)); try done.
  by destruct (queuingStructure c).
Qed.

(** The first transaction with room leaves the list for the queues. *)
Lemma place_first_spec pid l q : queue_wf c qc q -> queue_fill c qc q -> Forall trans_ok l ->
  (q_kind qc <> Q_Base -> Forall (fun t => pid t = tr_threadID t /\ 0 <= tr_threadID t < q_num_pids qc) l) ->
  exists r, place_first c qc pid l q = Ok r /\
    match r with
    | None => True
    | Some (t, l', q') => trans_ok t /\ l ≡ₚ t :: l' /\ (forall t', t' ∈ l' -> t' ∈ l) /\
        queue_wf c qc q' /\ queue_fill c qc q' /\ q' = with_cq_queues (cq_queues q') q /\
        read_addrs (queued q') ≡ₚ trans_reads [t] ++ read_addrs (queued q)
    end.
Proof.
  intros Hq Hf Hl Hpid. induction Hl as [|t l Ht Hl IH]; [by exists None|]. cbn [place_first].
  destruct (commands_of_spec t Ht) as
    (act & col & Hcmds & Hact & Hr & Hb & Hta & Htc & Er & Eb & Hp1 & Hp2 & Hrange & Hreads).
  assert (Hpid' : q_kind qc <> Q_Base -> pid t = tr_threadID t /\ 0 <= tr_threadID t < q_num_pids qc)
    by (intros Hk; specialize (Hpid Hk); by apply Forall_cons in Hpid as [? _]).
  assert (Hhome : home c qc act = home c qc col) by (unfold home; by rewrite Hb, Hta, Htc).
  assert (Hk : 0 <= home c qc col < numBankQueues c qc).
  { unfold home, numBankQueues. pose proof (qk_struct _ _ Hcfg) as Hs. destruct Hp2 as (_ & ? & _).
    case_bool_decide as Hkb; [destruct (queuingStructure c); [lia|lia|done]|].
    rewrite Hs, Htc. by apply Hpid'. }
  destruct (queue_at_total c qc q (bp_rank col) (home c qc col) Hq Hrange Hk) as (lq & Hlq & _).
  unfold hasRoomFor, getCommandQueue.
  rewrite (home_of t col Ht Htc Eb (pid t)) by (intros Hk'; by apply Hpid').
  rewrite bind_Ok_l, <- Er, Hlq, !bind_Ok_l.
  pose proof (qf_depth _ _ _ Hf _ _ _ Hlq) as Hd. rewrite u64_small by lia.
  destruct (Z.leb_spec 2 (CMD_QUEUE_DEPTH c - Z.of_nat (length lq))) as [Hroom|_].
  - rewrite Hcmds, bind_Ok_l. cbn [fst snd].
    destruct (enqueue_spec c qc Hcfg q act lq Hq Hf Hp1) as (q1 & E1 & Hq1 & Hf1 & Eq1 & Hat1 & _);
      [by rewrite Hr|intros Hkb; rewrite Hta; by apply Hpid'|by rewrite Hr, Hhome|lia|].
    rewrite Hr, Hhome in Hat1.
    destruct (enqueue_spec c qc Hcfg q1 col (lq ++ [act]) Hq1 Hf1 Hp2)
      as (q2 & E2 & Hq2 & Hf2 & Eq2 & Hat2 & _);
      [done|intros Hkb; rewrite Htc; by apply Hpid'|done|rewrite length_app; cbn; lia|].
    rewrite E1, bind_Ok_l, E2, bind_Ok_l. eexists. split; [done|].
    split_and!; try done.
    + intros t' Ht'. by right.
    + rewrite Eq2, Eq1. by destruct q.
    + rewrite (queued_enqueue _ _ _ _ _ E2), (queued_enqueue _ _ _ _ _ E1).
      rewrite <- Hreads. unfold read_addrs. rewrite <- fmap_app, <- filter_app.
      cbn [app]. by rewrite (Permutation_swap col act).
  - destruct IH as (r & -> & Hr'); [intros Hk'; specialize (Hpid Hk'); by apply Forall_cons in Hpid as [_ ?]|].
    rewrite bind_Ok_l. eexists. split; [done|]. destruct r as [[[x rest] q']|]; [|done].
    destruct Hr' as (? & Hperm & Hsub & ? & ? & ? & ?). split_and!; try done.
    + rewrite Hperm. apply Permutation_swap.
    + intros t' [->|Ht']%elem_of_cons; [left|right; auto].
Qed.

(** * The transaction queues *)

Definition waiting (m : MemoryController) : list Transaction :=
  mc_transactionQueue m ++ concat (mc_transactionQueues m).

Record trans_inv (m : MemoryController) : Prop := {
  tv_single : Forall trans_ok (mc_transactionQueue m);
  tv_four : length (mc_transactionQueues m) = 4%nat;
  tv_queues : forall j l, mc_transactionQueues m !! j = Some l ->
    Forall trans_ok l /\ Forall (fun t => tr_threadID t = Z.of_nat j) l
}.

(** Transactions have gone from the transaction queues of [m] to the command queues
    of [m'], reads also to the list of pending reads; the rest is the same. *)
Record moved (m m' : MemoryController) : Prop := {
  mv_rest : m' = with_mc_pendingReads (mc_pendingReads m') (with_mc_queue (mc_queue m')
    (with_mc_transactionQueue (mc_transactionQueue m')
    (with_mc_transactionQueues (mc_transactionQueues m') m)));
  mv_queue : mc_queue m' = with_cq_queues (cq_queues (mc_queue m')) (mc_queue m);
  mv_reads : exists addrs,
    tr_address <$> mc_pendingReads m' ≡ₚ addrs ++ (tr_address <$> mc_pendingReads m) /\
    trans_reads (waiting m) ≡ₚ addrs ++ trans_reads (waiting m') /\
    read_addrs (queued (mc_queue m')) ≡ₚ addrs ++ read_addrs (queued (mc_queue m))
}.

Lemma moved_refl m : moved m m.
Proof. split; [by destruct m|by destruct (mc_queue m)|by exists []]. Qed.

Lemma moved_trans m1 m2 m3 : moved m1 m2 -> moved m2 m3 -> moved m1 m3.
Proof.
  intros [R1 Q1 (a1 & P1 & T1 & C1)] [R2 Q2 (a2 & P2 & T2 & C2)]. split.
  - rewrite R2. rewrite R1. by destruct m1.
  - rewrite Q2, Q1. done.
  - exists (a1 ++ a2). rewrite P2, P1, T1, T2, C2, C1. split_and!; solve_Permutation.
Qed.

(** What all lemmas below need of the queues. *)
Definition queues_inv (m : MemoryController) : Prop :=
  queue_wf c qc (mc_queue m) /\ queue_fill c qc (mc_queue m) /\ trans_inv m.

Lemma add_pending_addrs t m : trans_ok t ->
  tr_address <$> mc_pendingReads (add_pending t m) ≡ₚ
    trans_reads [t] ++ (tr_address <$> mc_pendingReads m).
Proof.
  intros _. unfold add_pending. rewrite trans_reads_cons. case_bool_decide; cbn; [|done].
  rewrite fmap_app. cbn. solve_Permutation.
Qed.

Lemma add_pending_rest t m :
  add_pending t m = with_mc_pendingReads (mc_pendingReads (add_pending t m)) m.
Proof. unfold add_pending. case_bool_decide; by destruct m. Qed.

(** The move of one transaction. *)
Lemma move_one m t q tq tqs : trans_ok t ->
  q = with_cq_queues (cq_queues q) (mc_queue m) ->
  read_addrs (queued q) ≡ₚ trans_reads [t] ++ read_addrs (queued (mc_queue m)) ->
  waiting m ≡ₚ t :: (tq ++ concat tqs) ->
  moved m (add_pending t (with_mc_queue q (with_mc_transactionQueue tq
    (with_mc_transactionQueues tqs m)))).
Proof.
  intros Ht Hq Hr Hw. set (m1 := with_mc_queue q _).
  pose proof (add_pending_rest t m1) as Er.
  split.
  - rewrite Er. subst m1. by destruct m.
  - rewrite Er. done.
  - exists (trans_reads [t]). split; [by rewrite (add_pending_addrs t m1 Ht)|].
    rewrite Er. split; [|done]. rewrite Hw, trans_reads_cons, trans_reads_cons.
    unfold waiting. cbn. by rewrite app_nil_r.
Qed.

Lemma update_thread_spec m j : q_kind qc <> Q_Base -> 0 <= j < q_num_pids qc ->
  q_num_pids qc <= 4 -> queues_inv m ->
  exists m', update_thread_queue c qc m j = Ok m' /\ moved m m' /\ queues_inv m'.
Proof.
  intros Hk Hj Hn (Hq & Hf & Ht). unfold update_thread_queue.
  destruct (arr_get_total (mc_transactionQueues m) j) as [l Hl]; [rewrite (tv_four _ Ht); lia|].
  pose proof Hl as Hl'. apply arr_get_Ok in Hl' as [_ Hl']. rewrite Hl, bind_Ok_l.
  destruct (tv_queues _ Ht _ _ Hl') as [Hok Hth]. rewrite Z2Nat.id in Hth by lia.
  destruct (place_first_spec (fun _ => j) l (mc_queue m) Hq Hf Hok) as (r & -> & Hr).
  { intros _. eapply Forall_impl; [exact Hth|]. intros t <-. done. }
  rewrite bind_Ok_l. destruct r as [[[t l'] q]|]; [|exists m; split_and!; [done|apply moved_refl|done..]].
  destruct Hr as (Htok & Hperm & Hsub & Hq' & Hf' & Eq & Hreads).
  destruct (arr_set_total (mc_transactionQueues m) j l') as [v Hv]; [rewrite (tv_four _ Ht); lia|].
  rewrite Hv, bind_Ok_l. eexists. split; [done|]. apply arr_set_Ok in Hv as [_ ->].
  assert (Em : with_mc_queue q (with_mc_transactionQueues (<[Z.to_nat j:=l']> (mc_transactionQueues m)) m)
    = with_mc_queue q (with_mc_transactionQueue (mc_transactionQueue m)
        (with_mc_transactionQueues (<[Z.to_nat j:=l']> (mc_transactionQueues m)) m))) by by destruct m.
  rewrite Em. split.
  - apply move_one; [done|done|done|]. unfold waiting.
    pose proof (concat_insert _ _ _ l' Hl') as Hc. rewrite Hperm in Hc.
    apply (Permutation_app_inv_l l').
    transitivity (mc_transactionQueue m ++ (l' ++ concat (mc_transactionQueues m)));
      [solve_Permutation|]. rewrite <- Hc. solve_Permutation.
  - rewrite add_pending_rest. split; [done|]. split; [done|]. destruct Ht as [T1 T2 T3].
    split; cbn; [done|by rewrite length_insert|]. intros j' k Hk'.
    apply list_lookup_insert_Some in Hk' as [(<- & <- & _)|[_ Hk']]; [|by apply T3].
    rewrite Z2Nat.id by lia. rewrite Forall_forall in Hok, Hth |- *. rewrite Forall_forall. auto.
Qed.

Lemma updateTransactionQueue_spec m : queues_inv m ->
  (q_kind qc <> Q_Base -> q_num_pids qc <= 4) ->
  exists m', updateTransactionQueue c qc m = Ok m' /\ moved m m' /\ queues_inv m'.
Proof.
  intros Hm Hn. unfold updateTransactionQueue. destruct (decide (q_kind qc = Q_Base)) as [Hk|Hk].
  - rewrite Hk. destruct Hm as (Hq & Hf & Ht).
    destruct (place_first_spec tr_threadID (mc_transactionQueue m) (mc_queue m) Hq Hf)
      as (r & -> & Hr); [apply Ht|by intros Hn'|]. rewrite bind_Ok_l.
    destruct r as [[[t l'] q]|]; [|exists m; split_and!; [done|apply moved_refl|done..]].
    destruct Hr as (Htok & Hperm & Hsub & Hq' & Hf' & Eq & Hreads). eexists. split; [done|].
    assert (Em : with_mc_queue q (with_mc_transactionQueue l' m) = with_mc_queue q
      (with_mc_transactionQueue l' (with_mc_transactionQueues (mc_transactionQueues m) m)))
      by by destruct m.
    rewrite Em. split.
    + apply move_one; [done..|]. unfold waiting. by rewrite Hperm.
    + rewrite add_pending_rest. split; [done|]. split; [done|]. destruct Ht as [T1 T2 T3].
      split; cbn; try done. rewrite Forall_forall in *. auto.
  - destruct (foldM_total (fun m' => moved m m' /\ queues_inv m') (update_thread_queue c qc)
      (zrange (q_num_pids qc)) m) as (m' & Hm' & ? & ?).
    + intros m1 j Hj [Hmv Hi]. apply elem_of_seqZ in Hj.
      destruct (update_thread_spec m1 j Hk ltac:(lia) (Hn Hk) Hi) as (m2 & ? & ? & ?).
      exists m2. split_and!; try done. by eapply moved_trans.
    + split; [apply moved_refl|done].
    + exists m'. split; [|done]. by destruct (q_kind qc).
Qed.

(** * Returned data *)

Lemma take_pending_spec addr l : addr ∈ tr_address <$> l ->
  exists t rest, take_pending addr l = Some (t, rest) /\ l ≡ₚ t :: rest /\ tr_address t = addr.
Proof.
  induction l as [|t l IH]; intros Ha; [by apply elem_of_nil in Ha|]. cbn [take_pending].
  destruct (Z.eqb_spec (tr_address t) addr) as [E|N]; [by exists t, l|].
  cbn in Ha. apply elem_of_cons in Ha as [->|Ha]; [done|].
  destruct (IH Ha) as (t' & rest & -> & Hp & Ht). exists t', (t :: rest). split; [done|].
  split; [|done]. rewrite Hp. apply Permutation_swap.
Qed.

(** The answer of an update, and what it leaves pending. *)
Lemma updateReturn_spec m others : 
  tr_address <$> mc_pendingReads m ≡ₚ others ++ (tr_address <$> mc_returnTransaction m) ->
  exists pend rest outs, updateReturnTransactions m =
      Ok (with_mc_returnTransaction rest (with_mc_pendingReads pend m), outs) /\
    tr_address <$> pend ≡ₚ others ++ (tr_address <$> rest) /\
    exists answered, tr_address <$> mc_pendingReads m ≡ₚ answered ++ (tr_address <$> pend) /\
      Forall2 (fun a o => exists tid, o = ReturnReadData a (mc_clock m) tid) answered outs.
Proof.
  intros Hp. unfold updateReturnTransactions.
  destruct (mc_returnTransaction m) as [|t rest] eqn:Er.
  { exists (mc_pendingReads m), [], []. rewrite <- Er. split; [by destruct m|]. split; [by rewrite Er|].
    exists []. by split. }
  destruct (take_pending_spec (tr_address t) (mc_pendingReads m)) as (x & pend & -> & Hx & Ea).
  { rewrite Hp. cbn. apply elem_of_app. right. left. }
  exists pend, rest. eexists. split; [done|]. rewrite Hx in Hp. cbn in Hp. rewrite Ea in Hp.
  split.
  - apply (Permutation_app_inv_l [tr_address t]). cbn. rewrite Hp. solve_Permutation.
  - exists [tr_address t]. rewrite Hx. cbn. rewrite Ea. split; [done|].
    constructor; [|constructor]. by eexists.
Qed.

End Trans.
