(* ===== verification/DramPower.v ===== *)
(** The invariant that ties the controller's bank states to those of the ranks
    through a whole cycle, with the command on the bus and the power states, and its
    preservation by the command bus, the issue of a command and the power switch. *)

From S2P Require Import Prelude DramTypes DramQueue DramRank DramController DramQueueSpec DramBanks DramLanes DramFlow.

Section Power.

Context (c : DramCfg) (qc : QCfg).

(** The banks of the ranks once the command on the bus has been received, at [T]. *)
Definition in_flight (T : Z) (o : option BusPacket) (devs : BankTable) : BankTable :=
  match o with Some p => received c T p devs | None => devs end.

Definition cmd_ok (T : Z) (bs : BankTable) (ranks : list Rank) (p : BusPacket) : Prop :=
  0 <= bp_rank p < NUM_RANKS c /\ 0 <= bp_bank p /\
  (forall rk, ranks !! Z.to_nat (bp_rank p) = Some rk -> accepts T p (rk_banks rk)) /\
  (forall row, bs !! Z.to_nat (bp_rank p) = Some row ->
     exists b, b ∈ row /\ bs_state b <> Idle /\ bs_state b <> PowerDown).

(** The commands issued before [T] have been received, but for one that is on the bus
    and will be accepted at [T]. *)
Record banks_inv (T : Z) (m : MemoryController) (ranks : list Rank) : Prop := {
  bi_len : length ranks = Z.to_nat (NUM_RANKS c);
  bi_wf : table_wf c (mc_banks m);
  bi_pd : length (mc_powerDown m) = Z.to_nat (NUM_RANKS c);
  bi_power : forall r rk pd, ranks !! r = Some rk -> mc_powerDown m !! r = Some pd ->
    rk_isPowerDown rk = pd;
  bi_rel : table_rel (T - 1) (mc_powerDown m) (mc_banks m)
    (in_flight T (mc_outgoingCmd m) (rk_banks <$> ranks));
  bi_left : mc_outgoingCmd m <> None -> mc_cmdCyclesLeft m = 1;
  bi_cmd : forall p, mc_outgoingCmd m = Some p -> cmd_ok T (mc_banks m) ranks p
}.

(** ** Updating a rank *)

Lemma table_rel_insert now pds bs devs i pd row drow : table_rel now pds bs devs ->
  row_rel now pd row drow ->
  table_rel now (<[i := pd]> pds) (<[i := row]> bs) (<[i := drow]> devs).
Proof.
  intros Hrel Hrow r row' drow' pd' H1 H2 H3.
  apply list_lookup_insert_Some in H1 as [(<- & <- & _)|[Hne H1]].
  - apply list_lookup_insert_Some in H2 as [(_ & <- & _)|[? _]]; [|done].
    apply list_lookup_insert_Some in H3 as [(_ & <- & _)|[? _]]; [|done]. done.
  - rewrite list_lookup_insert_ne in H2 by done. rewrite list_lookup_insert_ne in H3 by done.
    by eapply Hrel.
Qed.

Lemma in_flight_insert T o devs i drow : (forall p, o = Some p -> at_z (bp_rank p) i = false) ->
  in_flight T o (<[i := drow]> devs) = <[i := drow]> (in_flight T o devs).
Proof.
  intros Hne. destruct o as [p|]; [|done]. cbn. specialize (Hne p eq_refl). unfold received.
  apply list_eq. intros j. rewrite list_lookup_imap.
  destruct (decide (i = j)) as [<-|Hij].
  - destruct (decide (i < length devs)%nat).
    + rewrite !list_lookup_insert_eq by (try rewrite length_imap; lia). cbn. by rewrite Hne.
    + rewrite !lookup_ge_None_2; [done|..]; rewrite length_insert, ?length_imap; lia.
  - rewrite !list_lookup_insert_ne, list_lookup_imap by done. done.
Qed.

Lemma in_flight_other T o devs i : (forall p, o = Some p -> at_z (bp_rank p) i = false) ->
  in_flight T o devs !! i = devs !! i.
Proof.
  intros Hne. destruct o as [p|]; [|done]. cbn. unfold received. rewrite list_lookup_imap.
  specialize (Hne p eq_refl). rewrite Hne. by destruct (devs !! i).
Qed.

(** The rows of a rank that the bus does not hold a command for. *)
Lemma banks_inv_row T m ranks i rk row pd : banks_inv T m ranks -> ranks !! i = Some rk ->
  mc_banks m !! i = Some row -> mc_powerDown m !! i = Some pd ->
  (Forall (fun b => bs_state b = Idle) row \/ pd = true) ->
  (forall p, mc_outgoingCmd m = Some p -> at_z (bp_rank p) i = false) /\
  row_rel (T - 1) pd row (rk_banks rk).
Proof.
  intros Hi Hrk Hrow Hpd Hq.
  assert (Hne : forall p, mc_outgoingCmd m = Some p -> at_z (bp_rank p) i = false).
  { intros p Hp. destruct (at_z (bp_rank p) i) eqn:Hz; [|done]. exfalso.
    destruct (bi_cmd _ _ _ Hi p Hp) as (Hr & _ & _ & Hb).
    rewrite at_z_nat in Hz by lia. subst i. destruct (Hb row Hrow) as (b & Hin & Hs1 & Hs2).
    destruct Hq as [Hq| ->].
    - rewrite Forall_forall in Hq. by apply Hs1, Hq.
    - destruct (in_flight T (mc_outgoingCmd m) (rk_banks <$> ranks) !! Z.to_nat (bp_rank p))
        as [drow|] eqn:Hd.
      + destruct (bi_rel _ _ _ Hi _ _ _ _ Hrow Hd Hpd) as [_ (v & Hf & _)].
        rewrite Forall_forall in Hf. by destruct (Hf b Hin).
      + rewrite Hp in Hd. cbn in Hd. unfold received in Hd.
        rewrite list_lookup_imap, list_lookup_fmap, Hrk in Hd. done. }
  split; [done|]. eapply (bi_rel _ _ _ Hi); [done| |done].
  rewrite in_flight_other by done. by rewrite list_lookup_fmap, Hrk.
Qed.

(** Replacing such a row keeps the invariant. *)
Lemma banks_inv_set T m ranks i rk' row' pd' : banks_inv T m ranks ->
  (i < length ranks)%nat ->
  (forall p, mc_outgoingCmd m = Some p -> at_z (bp_rank p) i = false) ->
  row_rel (T - 1) pd' row' (rk_banks rk') -> length row' = Z.to_nat (NUM_BANKS c) ->
  rk_isPowerDown rk' = pd' ->
  banks_inv T (with_mc_banks (<[i := row']> (mc_banks m))
    (with_mc_powerDown (<[i := pd']> (mc_powerDown m)) m)) (<[i := rk']> ranks).
Proof.
  intros Hi Hlt Hne Hrel Hlen Hpd. destruct Hi as [H1 H2 H3 H4 H5 H6 H7]. split; cbn.
  - by rewrite length_insert.
  - destruct H2 as [T1 T2]. split; [by rewrite length_insert|]. intros r row Hr.
    apply list_lookup_insert_Some in Hr as [(_ & <- & _)|[_ Hr]]; eauto.
  - by rewrite length_insert.
  - intros r rk pd Hr Hp. apply list_lookup_insert_Some in Hr as [(<- & <- & _)|[Hn Hr]].
    + rewrite list_lookup_insert_eq in Hp by lia. congruence.
    + rewrite list_lookup_insert_ne in Hp by done. eauto.
  - rewrite list_fmap_insert, in_flight_insert by done. by apply table_rel_insert.
  - done.
  - intros p Hp. specialize (Hne p Hp). destruct (H7 p Hp) as (Hr & Hb & Ha & Hs).
    assert (i <> Z.to_nat (bp_rank p)).
    { intros ->. rewrite (proj2 (at_z_nat _ _ (proj1 Hr)) eq_refl) in Hne. done. }
    split; [done|]. split; [done|]. split.
    + intros rk Hrk. rewrite list_lookup_insert_ne in Hrk by done. auto.
    + intros row Hrow. rewrite list_lookup_insert_ne in Hrow by done. auto.
Qed.

(** ** The power switch *)

(** Properties of the open banks. *)
Definition open_banks (P : BankState -> Prop) (bs : BankTable) : Prop :=
  forall r row b, bs !! r = Some row -> b ∈ row -> bs_state b = RowActive -> P b.

(** A rank whose data and open banks are as they were. *)
Definition rank_still (rk rk' : Rank) : Prop :=
  rank_lane rk' = rank_lane rk /\ rk_clock rk' = rk_clock rk /\
  forall d, d ∈ rk_banks rk' -> bs_state d = RowActive -> d ∈ rk_banks rk.

#[global] Instance rank_still_preorder : PreOrder rank_still.
Proof.
  split; [by intros rk; split_and!|]. intros a b d (H1 & H2 & H3) (H4 & H5 & H6).
  split; [congruence|]. split; [congruence|]. auto.
Qed.

(** What the power switch does to the state. *)
Definition powered (m m' : MemoryController) (ranks ranks' : list Rank) : Prop :=
  m' = with_mc_banks (mc_banks m') (with_mc_powerDown (mc_powerDown m') m) /\
  Forall2 rank_still ranks ranks' /\
  forall P, open_banks P (mc_banks m) -> open_banks P (mc_banks m').

Lemma all_empty_total q r ks : queue_wf c qc q -> 0 <= r < NUM_RANKS c ->
  (forall k, k ∈ ks -> 0 <= k < numBankQueues c qc) -> exists e, all_empty q r ks = Ok e.
Proof.
  intros Hq Hr. induction ks as [|k ks IH]; intros Hk; [by exists true|]. cbn.
  destruct (queue_at_total c qc q r k Hq Hr) as (l & -> & _); [apply Hk; left|].
  rewrite bind_Ok_l. case_bool_decide; [|by exists false]. apply IH. intros. apply Hk. by right.
Qed.

Lemma isEmpty_total q r : queue_cfg c qc -> queue_wf c qc q -> 0 <= r < NUM_RANKS c ->
  exists e, isEmpty c qc r q = Ok e.
Proof.
  intros Hcfg Hq Hr. pose proof (qk_struct _ _ Hcfg) as Hs. pose proof (qk_pids _ _ Hcfg).
  pose proof (fun ks => all_empty_total q r ks Hq Hr) as Hall. unfold isEmpty, numBankQueues in *.
  destruct (q_kind qc); cbn in Hs; [destruct (queuingStructure c); [| |done]|rewrite Hs in *..];
    apply Hall; intros k Hk; try apply elem_of_seqZ in Hk; try lia.
  apply list_elem_of_singleton in Hk. lia.
Qed.

(** Setting a row that has no open banks. *)
Lemma powered_set m ranks i row rk' rk pd' : ranks !! i = Some rk -> rank_still rk rk' ->
  Forall (fun b => bs_state b <> RowActive) row ->
  powered m (with_mc_banks (<[i := row]> (mc_banks m))
    (with_mc_powerDown (<[i := pd']> (mc_powerDown m)) m)) ranks (<[i := rk']> ranks).
Proof.
  intros Hrk Hst Hrow. split; [done|]. split.
  - rewrite <- (list_insert_id ranks i rk Hrk) at 1. apply Forall2_insert; [|done].
    reflexivity.
  - intros P HP r row' b Hr Hb Hs. cbn in Hr.
    apply list_lookup_insert_Some in Hr as [(_ & <- & _)|[_ Hr]]; [|by eapply HP].
    rewrite Forall_forall in Hrow. by destruct (Hrow b Hb).
Qed.

Lemma row_power_down now row rk pd : row_rel now pd row (rk_banks rk) ->
  Forall (fun b => bs_state b = Idle) row ->
  exists rk', Rank_powerDown c rk = Ok rk' /\ rk_isPowerDown rk' = true /\ rank_still rk rk' /\
    row_rel now true ((fun b => with_bs_nextPowerUp (rk_clock rk + tCKE c)
      (with_bs_state PowerDown b)) <$> row) (rk_banks rk').
Proof.
  intros [Hrel _] Hidle. unfold Rank_powerDown.
  assert (Hd : Forall (fun d => bs_state d = Idle) (rk_banks rk)).
  { apply Forall_lookup. intros i d Hd. destruct (Forall2_lookup_r _ _ _ _ _ Hrel Hd) as (b & Hb & [_ Hbd]).
    rewrite Forall_lookup in Hidle. rewrite (Hidle _ _ Hb) in Hbd. by destruct Hbd. }
  rewrite (proj2 (forallb_forall _ _)).
  2: { intros d Hin. apply bool_decide_eq_true. rewrite Forall_forall in Hd.
       by apply Hd, list_elem_of_In. }
  eexists. split; [done|]. cbn. split; [done|]. split; [split_and!; try done; cbn|split; cbn].
  - intros d Hin Hs. apply list_elem_of_fmap in Hin as (x & -> & _). done.
  - apply Forall2_fmap. apply Forall2_lookup. intros i. rewrite Forall2_lookup in Hrel.
    specialize (Hrel i). destruct (row !! i) as [b|] eqn:Hb; inversion Hrel as [b' d [Ha Hbd]|];
      constructor; subst. split; cbn; [done|]. rewrite Forall_lookup in Hidle.
    rewrite (Hidle _ _ Hb) in Hbd. by destruct Hbd.
  - exists (rk_clock rk + tCKE c). split; apply Forall_fmap; apply Forall_true; by intros.
Qed.

Lemma row_power_up now row rk v : row_rel now true row (rk_banks rk) -> rk_isPowerDown rk = true ->
  (forall b, row !! 0%nat = Some b -> bs_nextPowerUp b = v) -> row <> [] -> v <= rk_clock rk ->
  exists rk', Rank_powerUp c rk = Ok rk' /\ rk_isPowerDown rk' = false /\ rank_still rk rk' /\
    row_rel now false ((fun b => with_bs_nextActivate (rk_clock rk + tXP c)
      (with_bs_state Idle b)) <$> row) (rk_banks rk').
Proof.
  intros [Hrel (v' & Hf & Hv)] Hpd H0 Hne Hle. unfold Rank_powerUp. rewrite Hpd. cbn [negb].
  assert (v' = v).
  { destruct row as [|b row]; [done|]. apply Forall_cons in Hf as [[_ <-] _]. by apply H0. }
  subst v'. rewrite (proj2 (forallb_forall _ _)).
  2: { intros d Hin. apply Z.leb_le. rewrite Forall_forall in Hv.
       by rewrite Hv by by apply list_elem_of_In. }
  eexists. split; [done|]. cbn. split; [done|]. split; [split_and!; try done; cbn|split; cbn].
  - intros d Hin Hs. apply list_elem_of_fmap in Hin as (x & -> & _). done.
  - apply Forall2_fmap. apply Forall2_lookup. intros i. rewrite Forall2_lookup in Hrel.
    specialize (Hrel i). destruct (row !! i) as [b|] eqn:Hb; inversion Hrel as [b' d [Ha Hbd]|];
      constructor; subst. split; cbn; [lia|]. rewrite Forall_lookup in Hf.
    destruct (Hf _ _ Hb) as [Hs _]. rewrite Hs in Hbd. by destruct Hbd.
  - apply Forall_fmap, Forall_true. by intros.
Qed.

Lemma update_power_spec T m ranks i : queue_cfg c qc -> queue_wf c qc (mc_queue m) ->
  banks_inv T m ranks -> (forall rk, rk ∈ ranks -> rk_clock rk = mc_clock m) ->
  0 <= i < NUM_RANKS c ->
  exists m' ranks', update_power c qc (m, ranks) i = Ok (m', ranks') /\
    banks_inv T m' ranks' /\ powered m m' ranks ranks'.
Proof.
  intros Hcfg Hq Hi Hclk Hr. unfold update_power.
  assert (Hsame : banks_inv T m ranks /\ powered m m ranks ranks).
  { split; [done|]. split; [by destruct m|]. by split. }
  destruct (USE_LOW_POWER c); cbn [negb]; [|by exists m, ranks].
  destruct (isEmpty_total (mc_queue m) i Hcfg Hq Hr) as [e ->]. rewrite bind_Ok_l.
  destruct (arr_get_total ranks i) as [rk Hrk]; [rewrite (bi_len _ _ _ Hi); lia|].
  destruct (arr_get_total (mc_banks m) i) as [row Hrow]; [rewrite (tw_ranks _ _ (bi_wf _ _ _ Hi)); lia|].
  destruct (arr_get_total (mc_powerDown m) i) as [pd Hpd]; [rewrite (bi_pd _ _ _ Hi); lia|].
  rewrite Hrk, Hrow, !bind_Ok_l.
  pose proof Hrk as Hrk'. apply arr_get_Ok in Hrk' as [_ Hrk'].
  pose proof Hrow as Hrow'. apply arr_get_Ok in Hrow' as [_ Hrow'].
  pose proof Hpd as Hpd'. apply arr_get_Ok in Hpd' as [_ Hpd'].
  pose proof (tw_banks _ _ (bi_wf _ _ _ Hi) _ _ Hrow') as Hlen.
  assert (Hck : rk_clock rk = mc_clock m) by (by eapply Hclk, list_elem_of_lookup_2).
  assert (Hset : forall {A} (l : list A) x, length l = Z.to_nat (NUM_RANKS c) ->
    arr_set l i x = Ok (<[Z.to_nat i := x]> l)) by (intros A l x Hl; apply arr_set_Ok; split; [lia|done]).
  assert (Hlt : (Z.to_nat i < length ranks)%nat) by (rewrite (bi_len _ _ _ Hi); lia).
  destruct (e && negb (rk_refreshWaiting rk)).
  - destruct (forallb (fun b => bool_decide (bs_state b = Idle)) row) eqn:Hall; [|by exists m, ranks].
    assert (Hidle : Forall (fun b => bs_state b = Idle) row).
    { apply Forall_forall. intros b Hb. rewrite forallb_forall in Hall.
      apply list_elem_of_In, Hall in Hb. by apply bool_decide_eq_true in Hb. }
    destruct (banks_inv_row T m ranks _ rk row pd Hi Hrk' Hrow' Hpd' (or_introl Hidle)) as [Hne Hrel].
    destruct (row_power_down _ _ _ _ Hrel Hidle) as (rk' & Hdown & Hpw & Hst & Hrel').
    rewrite (Hset _ (mc_powerDown m)), bind_Ok_l by apply (bi_pd _ _ _ Hi).
    rewrite (to_rank_at _ _ _ _ _ Hrk' ltac:(lia) Hdown), bind_Ok_l.
    rewrite (Hset _ (mc_banks m)), bind_Ok_l by apply (tw_ranks _ _ (bi_wf _ _ _ Hi)).
    rewrite <- Hck. eexists _, _. split; [done|]. split.
    + apply banks_inv_set; try done. by rewrite length_fmap.
    + apply (powered_set _ _ _ _ _ rk); try done. apply Forall_fmap, Forall_true. by intros.
  - destruct (arr_get_total row 0) as [b0 Hb0]; [pose proof (qk_banks _ _ Hcfg); lia|].
    rewrite Hb0, Hpd, !bind_Ok_l.
    destruct ((bs_nextPowerUp b0 <=? mc_clock m) && pd) eqn:Hup; [|by exists m, ranks].
    apply andb_true_iff in Hup as [Hup ->]. apply Z.leb_le in Hup. apply arr_get_Ok in Hb0 as [_ Hb0].
    destruct (banks_inv_row T m ranks _ rk row true Hi Hrk' Hrow' Hpd' (or_intror eq_refl)) as [Hne Hrel].
    destruct (row_power_up (T - 1) row rk (bs_nextPowerUp b0) Hrel) as (rk' & Hon & Hpw & Hst & Hrel').
    { by eapply bi_power. }
    { intros b Hb. change (Z.to_nat 0) with 0%nat in Hb0. congruence. }
    { by intros ->. }
    { by rewrite Hck. }
    rewrite (Hset _ (mc_powerDown m)), bind_Ok_l by apply (bi_pd _ _ _ Hi).
    rewrite (to_rank_at _ _ _ _ _ Hrk' ltac:(lia) Hon), bind_Ok_l.
    rewrite (Hset _ (mc_banks m)), bind_Ok_l by apply (tw_ranks _ _ (bi_wf _ _ _ Hi)).
    rewrite <- Hck. eexists _, _. split; [done|]. split.
    + apply banks_inv_set; try done. by rewrite length_fmap.
    + apply (powered_set _ _ _ _ _ rk); try done. apply Forall_fmap, Forall_true. by intros.
Qed.

End Power.
