(* ===== verification/DramSafe.v ===== *)
(** The memory system never stops on one of its own checks: the invariant of a
    cycle, its preservation, and the theorem about runs of any length the turn clock
    can count. *)

From S2P Require Import Prelude DramTypes DramQueue DramRank DramController DramQueueSpec DramTurns DramAddr DramBanks DramLanes DramFlow DramPower.

(** * Configurations *)

Record mem_cfg (c : DramCfg) (qc : QCfg) (g : geometry) : Prop := {
  mk_queue : queue_cfg c qc;
  mk_sched : q_kind qc <> Q_Base -> sched_ok qc;
  mk_geometry : geometry_ok c g;
  mk_close : close_cfg c;
  mk_tCMD : tCMD c = 1;
  mk_depth : 0 <= CMD_QUEUE_DEPTH c < 2 ^ 31;
  mk_burst : 1 <= BL c / 2 < 2 ^ 31;
  mk_RL : 1 <= RL c;
  mk_WL : 1 <= WL c;
  mk_ready : BL c / 2 <= u32 (tRCD c - AL c);
  mk_tRTRS : 0 <= tRTRS c
}.

Section Safe.

Context (c : DramCfg) (qc : QCfg) (g : geometry) (Hc : mem_cfg c qc g).

Let gap : Z := BL c / 2.

Lemma RL_range : 1 <= RL c < 2 ^ 32.
Proof. split; [apply (mk_RL _ _ _ Hc)|]. unfold RL, u32. apply Z.mod_pos_bound. lia. Qed.
Lemma WL_range : 1 <= WL c < 2 ^ 32.
Proof. split; [apply (mk_WL _ _ _ Hc)|]. unfold WL, u32. apply Z.mod_pos_bound. lia. Qed.

(** * The invariant *)

(** The read data of a rank: [T] is the next cycle in which the rank is updated. *)
Record read_inv (T : Z) (rk : Rank) : Prop := {
  ri_lane : lane_ok gap (RL c) (rank_lane rk);
  ri_data : Forall (fun p => bp_type p = DATA) (ln_packets (rank_lane rk));
  ri_open : forall d, d ∈ rk_banks rk -> bs_state d = RowActive ->
    T + ln_end gap (rank_lane rk) - 1 <= Z.max (bs_nextRead d) T + RL c
}.

(** The write data of the controller. *)
Definition write_data_ok (m : MemoryController) : Prop :=
  lane_ok gap (WL c) (mc_lane m) /\
  Forall (fun p => bp_type p = DATA /\ 0 <= bp_rank p < NUM_RANKS c) (ln_packets (mc_lane m)).
Definition write_inv (T : Z) (m : MemoryController) : Prop :=
  write_data_ok m /\
  open_banks (fun b => bs_countdown b = 0 ->
    T + ln_end gap (mc_lane m) - 1 <= Z.max (bs_nextWrite b) T + WL c) (mc_banks m).

(** Every pending read is somewhere between the queues and the return of its data. *)
Definition lane_reads (rk : Rank) : list Z := bp_physicalAddress <$> ln_packets (rank_lane rk).
Definition rank_reads (ranks : list Rank) : list Z := concat (lane_reads <$> ranks).
Definition pending_ok (m : MemoryController) (ranks : list Rank) : Prop :=
  tr_address <$> mc_pendingReads m ≡ₚ
    (read_addrs (queued (mc_queue m)) ++ read_addrs (option_list (mc_outgoingCmd m)) ++
     rank_reads ranks) ++ (tr_address <$> mc_returnTransaction m).

(** All but the write data; the clocks show [now]. *)
Record core_inv (now T : Z) (m : MemoryController) (ranks : list Rank) : Prop := {
  ci_banks : banks_inv c T m ranks;
  ci_queues : queues_inv c qc m;
  ci_clock : mc_clock m = now;
  ci_qclock : cq_clock (mc_queue m) = now;
  ci_rclock : forall rk, rk ∈ ranks -> rk_clock rk = now;
  ci_countdown : length (mc_refreshCountdown m) = Z.to_nat (NUM_RANKS c);
  ci_refresh : 0 <= mc_refreshRank m < NUM_RANKS c;
  ci_reads : forall rk, rk ∈ ranks -> read_inv T rk;
  ci_pending : pending_ok m ranks
}.

(** * Read data *)

(** A cycle of a rank: the lane is free a cycle earlier. *)
Definition read_mid (T : Z) (rk : Rank) : Prop :=
  lane_ok gap (RL c) (rank_lane rk) /\
  Forall (fun p => bp_type p = DATA) (ln_packets (rank_lane rk)) /\
  forall d, d ∈ rk_banks rk -> bs_state d = RowActive ->
    T + ln_end gap (rank_lane rk) <= Z.max (bs_nextRead d) T + RL c.

Lemma Rank_update_read T rk sent rk' : read_inv T rk -> Rank_update c rk = (sent, rk') ->
  read_mid T rk' /\ (forall p, sent = Some p -> bp_type p = DATA) /\
  ln_packets (rank_lane rk) ≡ₚ option_list sent ++ ln_packets (rank_lane rk').
Proof.
  intros [Hl Hd Ho] Hup. destruct (Rank_update_lane c rk sent rk' Hup) as (Hln & _ & _ & _ & Eb).
  pose proof RL_range. pose proof (mk_burst _ _ _ Hc).
  destruct (ln_update_spec gap (RL c)) with (w := rank_lane rk) (sent := sent) (w' := rank_lane rk')
    as (Hl' & Hp & He); try done.
  rewrite Hp in Hd. apply Forall_app in Hd as [Hd1 Hd2]. split_and!; try done.
  - split_and!; try done. intros d Hin Hs. rewrite Eb in Hin. specialize (Ho d Hin Hs). lia.
  - intros p ->. by apply Forall_cons in Hd1 as [? _].
Qed.

(** A rank that gets no command, or one that it accepts. *)
Lemma read_mid_idle T rk : read_mid T rk -> read_inv (T + 1) rk.
Proof.
  intros (Hl & Hd & Ho). split; try done. intros d Hin Hs. specialize (Ho d Hin Hs). lia.
Qed.

Lemma read_mid_received T p rk rk' : read_mid T rk -> accepts T p (rk_banks rk) ->
  rk_banks rk' = imap (dev_effect c T p) (rk_banks rk) ->
  rank_lane rk' = mkLane (rk_outgoing rk) (rk_dataCyclesLeft rk) (rk_readReturn rk ++ read_data c p) ->
  0 <= bp_bank p ->
  read_inv (T + 1) rk' /\
  bp_physicalAddress <$> ln_packets (rank_lane rk') ≡ₚ
    read_addrs [p] ++ (bp_physicalAddress <$> ln_packets (rank_lane rk)).
Proof.
  intros (Hl & Hd & Ho) Ha Eb Elane Hbk. pose proof RL_range as HR. pose proof (mk_burst _ _ _ Hc) as HB.
  pose proof (mk_ready _ _ _ Hc) as Hrdy.
  assert (Hold : bp_type p <> READ_P -> rank_lane rk' = rank_lane rk).
  { intros Hne. rewrite Elane. unfold read_data. rewrite bool_decide_false by done.
    by rewrite app_nil_r. }
  rewrite read_addrs_cons. cbn [app]. rewrite app_nil_r.
  assert (Hopen : forall d, d ∈ rk_banks rk' -> bs_state d = RowActive ->
    exists i d0, rk_banks rk !! i = Some d0 /\ d = dev_effect c T p i d0).
  { intros d Hin _. rewrite Eb in Hin. apply list_elem_of_lookup in Hin as [i Hi].
    rewrite list_lookup_imap in Hi. apply fmap_Some in Hi as (d0 & Hi & ->). eauto. }
  unfold accepts in Ha. destruct (bp_type p) eqn:Hty; try done.
  - (* READ_P *)
    destruct Ha as (d & Hdl & Hs & Hn & _). rewrite bool_decide_true by done.
    assert (Hend : ln_end gap (rank_lane rk) <= RL c).
    { pose proof (Ho d ltac:(by eapply list_elem_of_lookup_2) Hs). lia. }
    assert (El : rank_lane rk' = ln_add (with_bp_type DATA p) (RL c) (rank_lane rk)).
    { rewrite Elane. unfold read_data. by rewrite Hty, bool_decide_true by done. }
    destruct (ln_add_spec gap (RL c) HB HR (rank_lane rk) (with_bp_type DATA p) Hl Hend)
      as (Hl' & He' & Hp'). rewrite <- El in Hl', He', Hp'. split.
    + split; [done| |].
      * rewrite Hp'. apply Forall_app. split; [done|]. by repeat constructor.
      * intros d' Hin Hs'. rewrite He'. destruct (Hopen d' Hin Hs') as (i & d0 & Hi & ->).
        unfold dev_effect. rewrite Hty. destruct (at_z (bp_bank p) i) eqn:Hz.
        -- unfold dev_effect in Hs'. rewrite Hty, Hz in Hs'. done.
        -- cbn. unfold gap in *. lia.
    + rewrite Hp', fmap_app. cbn. solve_Permutation.
  - (* WRITE_P *)
    rewrite bool_decide_false by done. rewrite (Hold ltac:(done)). split; [|done].
    split; rewrite ?(Hold ltac:(done)); try done. intros d' Hin Hs'.
    destruct (Hopen d' Hin Hs') as (i & d0 & Hi & ->). unfold dev_effect in Hs' |- *.
    rewrite Hty in Hs' |- *. destruct (at_z (bp_bank p) i); [done|].
    pose proof (Ho d0 ltac:(by eapply list_elem_of_lookup_2) Hs').
    cbn -[ln_end]. lia.
  - (* ACTIVATE *)
    rewrite bool_decide_false by done. rewrite (Hold ltac:(done)). split; [|done].
    split; rewrite ?(Hold ltac:(done)); try done. intros d' Hin Hs'.
    destruct (Hopen d' Hin Hs') as (i & d0 & Hi & ->). unfold dev_effect in Hs' |- *.
    rewrite Hty in Hs' |- *. pose proof (ln_end_bound gap (RL c) HB HR (rank_lane rk) Hl).
    destruct (at_z (bp_bank p) i).
    + cbn -[ln_end]. unfold gap in *. lia.
    + pose proof (Ho d0 ltac:(by eapply list_elem_of_lookup_2) Hs').
      cbn -[ln_end]. lia.
  - (* REFRESH *)
    rewrite bool_decide_false by done. rewrite (Hold ltac:(done)). split; [|done].
    split; rewrite ?(Hold ltac:(done)); try done. intros d' Hin Hs'.
    destruct (Hopen d' Hin Hs') as (i & d0 & Hi & ->). unfold dev_effect in Hs'.
    rewrite Hty in Hs'. rewrite Forall_lookup in Ha. cbn in Hs'. specialize (Ha _ _ Hi). congruence.
Qed.

(** * The ranks' part of a cycle *)

Definition same_banks (rk rk1 : Rank) : Prop :=
  rk_banks rk1 = rk_banks rk /\ rk_clock rk1 = rk_clock rk /\
  rk_isPowerDown rk1 = rk_isPowerDown rk.

Lemma update_ranks_step T ranks : (forall rk, rk ∈ ranks -> read_inv T rk) ->
  Forall (fun rk => forall p, (Rank_update c rk).1 = Some p -> bp_type p = DATA) ranks /\
  Forall2 same_banks ranks ((fun rk => (Rank_update c rk).2) <$> ranks) /\
  Forall (read_mid T) ((fun rk => (Rank_update c rk).2) <$> ranks) /\
  rank_reads ranks ≡ₚ (bp_physicalAddress <$> (ranks ≫= sent_data c)) ++
    rank_reads ((fun rk => (Rank_update c rk).2) <$> ranks).
Proof.
  induction ranks as [|rk ranks IH]; intros Hr; [by split_and!|].
  destruct IH as (H1 & H2 & H3 & H4); [intros; apply Hr; by right|].
  pose proof (Hr rk ltac:(left)) as Hrk. unfold rank_reads in *.
  cbn [fmap list_fmap mbind list_bind concat]. unfold sent_data at 1.
  destruct (Rank_update c rk) as [sent rk'] eqn:E. cbn [fst snd].
  destruct (Rank_update_read T rk sent rk' Hrk E) as (Hm & Hs & Hp).
  destruct (Rank_update_lane c rk sent rk' E) as (_ & ? & ? & _ & ?).
  split_and!.
  - constructor; [|done]. intros p. rewrite E. apply Hs.
  - constructor; [|done]. by split_and!.
  - by constructor.
  - unfold lane_reads at 1 3. rewrite Hp, H4, !fmap_app. solve_Permutation.
Qed.

(** The command on the bus, if any, is received. *)
Lemma rank_reads_insert ranks i rk rk' extra : ranks !! i = Some rk ->
  lane_reads rk' ≡ₚ extra ++ lane_reads rk ->
  rank_reads (<[i := rk']> ranks) ≡ₚ extra ++ rank_reads ranks.
Proof.
  intros Hrk Hl. unfold rank_reads. rewrite list_fmap_insert.
  pose proof (concat_insert (lane_reads <$> ranks) i (lane_reads rk) (lane_reads rk')) as H.
  rewrite list_lookup_fmap, Hrk in H. specialize (H eq_refl).
  apply (Permutation_app_inv_r (lane_reads rk)). rewrite H, Hl. solve_Permutation.
Qed.

Lemma tick_wf bs : table_wf c bs -> table_wf c (tick_banks c bs).
Proof. intros H. rewrite tick_banks_tmap. by apply tmap_wf. Qed.

Lemma received_insert T p (ranks : list Rank) rk rk' : 0 <= bp_rank p ->
  ranks !! Z.to_nat (bp_rank p) = Some rk ->
  rk_banks rk' = imap (dev_effect c T p) (rk_banks rk) ->
  rk_banks <$> <[Z.to_nat (bp_rank p) := rk']> ranks = received c T p (rk_banks <$> ranks).
Proof.
  intros Hr Hrk Eb. unfold received. apply list_eq. intros i.
  rewrite list_fmap_insert, list_lookup_imap. destruct (decide (Z.to_nat (bp_rank p) = i)) as [<-|Hne].
  - rewrite list_lookup_insert_eq by (rewrite length_fmap; by eapply lookup_lt_Some).
    rewrite list_lookup_fmap, Hrk. cbn. rewrite (proj2 (at_z_nat _ _ Hr) eq_refl). by rewrite Eb.
  - rewrite list_lookup_insert_ne by done. destruct ((rk_banks <$> ranks) !! i); [|done]. cbn.
    destruct (at_z (bp_rank p) i) eqn:Hz; [|done]. rewrite at_z_nat in Hz by done. by subst.
Qed.

(** After the command bus: nothing is on it, and every rank is ready for its next
    update. *)
Lemma send_cmd_step T m ranks : banks_inv c T m ranks ->
  (forall rk, rk ∈ ranks -> rk_clock rk = T) -> Forall (read_mid T) ranks ->
  exists v ranks', let m1 := with_mc_banks (tick_banks c (mc_banks m)) m in
    let m' := with_mc_outgoingCmd None v m1 in
    send_cmd c m1 ranks = Ok (m', ranks') /\
    banks_inv c (T + 1) m' ranks' /\ (forall rk, rk ∈ ranks' -> rk_clock rk = T) /\
    (forall rk, rk ∈ ranks' -> read_inv (T + 1) rk) /\
    rank_reads ranks' ≡ₚ read_addrs (option_list (mc_outgoingCmd m)) ++ rank_reads ranks.
Proof.
  intros Hb Hclk Hmid. destruct Hb as [H1 H2 H3 H4 H5 H6 H7].
  pose proof (table_rel_tick c _ _ _ _ (mk_close _ _ _ Hc) H5) as Ht.
  replace (T - 1 + 1) with (T + 1 - 1) in Ht by lia. rewrite Forall_forall in Hmid.
  destruct (mc_outgoingCmd m) as [p|] eqn:Hp.
  - destruct (H7 p eq_refl) as (Hr & Hbk & Hacc & _).
    destruct (lookup_lt_is_Some_2 ranks (Z.to_nat (bp_rank p))) as [rk Hrk]; [lia|].
    pose proof (list_elem_of_lookup_2 _ _ _ Hrk) as Hin. specialize (Hacc rk Hrk).
    destruct (send_cmd_accepted c (with_mc_banks (tick_banks c (mc_banks m)) m) ranks p rk)
      as (rk' & Hs & Eb & Er & Ec & Epd & Eo & El); try done; try lia.
    { by apply H6. }
    { by rewrite (Hclk rk Hin). }
    rewrite (Hclk rk Hin) in Eb.
    destruct (read_mid_received T p rk rk' (Hmid rk Hin) Hacc Eb) as [Hri Hperm]; [|done|].
    { unfold rank_lane. by rewrite Er, Eo, El. }
    exists 0, (<[Z.to_nat (bp_rank p) := rk']> ranks). cbn zeta. split; [exact Hs|].
    assert (Hcase : forall x, x ∈ <[Z.to_nat (bp_rank p) := rk']> ranks -> x = rk' \/ x ∈ ranks).
    { intros x Hx. apply list_elem_of_lookup in Hx as [i Hx].
      apply list_lookup_insert_Some in Hx as [(_ & <- & _)|[_ Hx]]; [by left|right].
      by eapply list_elem_of_lookup_2. }
    split_and!.
    + split; cbn; try done.
      * by rewrite length_insert.
      * by apply tick_wf.
      * intros r x pd Hx Hpd. apply list_lookup_insert_Some in Hx as [(<- & <- & _)|[_ Hx]]; [|eauto].
        rewrite Epd. eauto.
      * rewrite (received_insert T p ranks rk rk'); [done|lia|done|done].
    + intros x [->|Hx]%Hcase; [by rewrite Ec, Hclk|by apply Hclk].
    + intros x [->|Hx]%Hcase; [done|by apply read_mid_idle, Hmid].
    + by apply (rank_reads_insert _ _ rk).
  - exists (mc_cmdCyclesLeft m), ranks. cbn zeta. split.
    { unfold send_cmd. cbn. rewrite Hp. destruct m. cbn in *. by rewrite Hp. }
    split_and!; try done.
    + split; cbn; try done. by apply tick_wf.
    + intros x Hx. by apply read_mid_idle, Hmid.
Qed.

(** * Write data *)

Lemma banks_inv_bank T m ranks r row b : banks_inv c T m ranks ->
  mc_banks m !! r = Some row -> b ∈ row -> exists d, bank_rel (T - 1) b d.
Proof.
  intros Hb Hrow Hin. pose proof (lookup_lt_Some _ _ _ Hrow) as Hlt.
  rewrite (tw_ranks _ _ (bi_wf _ _ _ _ Hb)) in Hlt.
  destruct (lookup_lt_is_Some_2 (mc_powerDown m) r) as [pd Hpd]; [by rewrite (bi_pd _ _ _ _ Hb)|].
  destruct (lookup_lt_is_Some_2 (in_flight c T (mc_outgoingCmd m) (rk_banks <$> ranks)) r) as [drow Hd].
  { destruct (mc_outgoingCmd m); cbn; unfold received; rewrite ?length_imap, length_fmap;
      by rewrite (bi_len _ _ _ _ Hb). }
  destruct (bi_rel _ _ _ _ Hb _ _ _ _ Hrow Hd Hpd) as [Hf _].
  apply list_elem_of_lookup in Hin as [i Hi].
  destruct (Forall2_lookup_l _ _ _ _ _ Hf Hi) as (d & _ & Hbd). eauto.
Qed.

Lemma tick_open now b d : bank_rel now b d -> bs_state (tick_bank c b) = RowActive ->
  bs_countdown (tick_bank c b) = 0 -> tick_bank c b = b.
Proof.
  intros [_ Hb]. unfold tick_bank. destruct (Z.ltb_spec 0 (bs_countdown b)); [|done]. cbn.
  destruct (Z.eqb_spec (bs_countdown b - 1) 0).
  - intros Hs. exfalso. revert Hb Hs. destruct (bs_state b) eqn:Es.
    + intros [_ ?]; lia.
    + intros [(_ & ? & _)|(_ & [Hl|Hl] & _)]; [lia|rewrite Hl; cbn; discriminate..].
    + intros (_ & Hl & _). rewrite Hl; cbn; discriminate.
    + intros (_ & Hl & _). rewrite Hl; cbn; discriminate.
    + intros [_ ?]; lia.
  - cbn. intros _ ?. lia.
Qed.

Lemma open_banks_tick T m ranks (P : BankState -> Prop) : banks_inv c T m ranks ->
  open_banks (fun b => bs_countdown b = 0 -> P b) (mc_banks m) ->
  open_banks (fun b => bs_countdown b = 0 -> P b) (tick_banks c (mc_banks m)).
Proof.
  intros Hb HP r row' b' Hr Hin Hs Hz. rewrite tick_banks_tmap in Hr. unfold tmap in Hr.
  rewrite list_lookup_imap in Hr. apply fmap_Some in Hr as (row & Hrow & ->).
  apply list_elem_of_lookup in Hin as [i Hi]. rewrite list_lookup_imap in Hi.
  apply fmap_Some in Hi as (b & Hbi & ->). pose proof (list_elem_of_lookup_2 _ _ _ Hbi) as Hin.
  destruct (banks_inv_bank _ _ _ _ _ _ Hb Hrow Hin) as [d Hd].
  pose proof (tick_open _ _ _ Hd Hs Hz) as E. rewrite E in Hs, Hz |- *.
  exact (HP r row b Hrow Hin Hs Hz).
Qed.

Definition write_mid (T : Z) (m : MemoryController) : Prop :=
  write_data_ok m /\
  open_banks (fun b => bs_countdown b = 0 ->
    T + ln_end gap (mc_lane m) <= Z.max (bs_nextWrite b) T + WL c) (mc_banks m).

(** The data bus, for a state with the banks and the lane of one in the invariant. *)
Lemma data_bus_step T m ranks m1 ranks1 : banks_inv c T m ranks -> write_inv T m ->
  mc_lane m1 = mc_lane m -> mc_banks m1 = tick_banks c (mc_banks m) ->
  length ranks1 = Z.to_nat (NUM_RANKS c) ->
  exists w m2 sent, send_data c m1 ranks1 = Ok (m2, ranks1, writes_done (mc_clock m1) sent) /\
    issue_write_data c m2 = Ok (with_mc_lane w m1) /\ write_mid T (with_mc_lane w m1).
Proof.
  intros Hb [[Hl Hd] Ho] El Eb Hlen. pose proof WL_range as HW. pose proof (mk_burst _ _ _ Hc) as HB.
  pose proof (qk_ranks _ _ (mk_queue _ _ _ Hc)).
  destruct (data_bus_lane c (WL c) m1 ranks1 HB HW) as (sent & w & m2 & Hup & Hs & Hi).
  { by rewrite El. }
  { rewrite El. eapply Forall_impl; [exact Hd|]. intros p [? ?]. split; [done|]. lia. }
  rewrite El in Hup. destruct (ln_update_spec gap (WL c)) with (w := mc_lane m) (sent := sent) (w' := w)
    as (Hl' & Hp & He); try done.
  exists w, m2, sent. split; [done|]. split; [done|].
  assert (Ew : mc_lane (with_mc_lane w m1) = w) by by destruct w.
  split; rewrite ?Ew.
  - split; rewrite ?Ew; [done|]. rewrite Hp in Hd. by apply Forall_app in Hd as [_ ?].
  - unfold with_mc_lane. cbn [mc_banks with_mc_writeData with_mc_outgoingData]. rewrite Eb.
    apply (open_banks_tick T m ranks _ Hb). intros r row b Hr Hin Hst Hz.
    specialize (Ho r row b Hr Hin Hst Hz). lia.
Qed.

(** * Issuing a command *)

(** The open banks after a command: the one it opens, or one that was open and whose
    next write is not earlier than it was, nor too early for the data of a write. *)
Lemma mc_effect_open T p r i b : is_close_command p ->
  bs_state (mc_effect c T p r i b) = RowActive -> bs_countdown (mc_effect c T p r i b) = 0 ->
  (bp_type p = ACTIVATE /\ T + gap <= bs_nextWrite (mc_effect c T p r i b)) \/
  (bs_state b = RowActive /\ bs_countdown b = 0 /\
   bs_nextWrite b <= bs_nextWrite (mc_effect c T p r i b) /\
   (bp_type p = WRITE_P -> T + gap <= bs_nextWrite (mc_effect c T p r i b))).
Proof.
  intros Hty. pose proof (cc_read _ (mk_close _ _ _ Hc)). pose proof (cc_write _ (mk_close _ _ _ Hc)).
  pose proof (mk_ready _ _ _ Hc). pose proof (mk_tRTRS _ _ _ Hc). unfold gap in *.
  unfold mc_effect. destruct Hty as [Hty|[Hty|[Hty|Hty]]]; rewrite Hty.
  - destruct (at_z (bp_rank p) r), (at_z (bp_bank p) i); cbn; intros; [left|right..]; split_and!;
      try done; lia.
  - destruct (at_z (bp_rank p) r), (at_z (bp_bank p) i); cbn;
      try (case_bool_decide; cbn); intros; try lia; right; split_and!; try done; try lia.
  - destruct (at_z (bp_rank p) r), (at_z (bp_bank p) i); cbn;
      try (case_bool_decide; cbn); intros; try lia; right; split_and!; try done; try lia.
  - destruct (at_z (bp_rank p) r); cbn; intros; [done|]. right. split_and!; try done; lia.
Qed.

(** A command that is popped is ready, and its queue has it no longer. *)
Lemma popped_ready bs q pid p q' : table_wf c bs -> queue_wf c qc q ->
  pop_result c qc bs q pid (Some p) q' ->
  issue_ready c (cq_clock q) bs p /\ is_close_command p /\
  (bp_type p <> REFRESH -> exists k, unqueued c qc q k p q') /\
  (bp_type p = REFRESH -> cq_queues q' = cq_queues q).
Proof.
  intros Hbs Hq [_ [(Hrdy & Eq & _)|(k & Hun & _ & Hiss & _)]]; pose proof (mk_queue _ _ _ Hc) as Hcfg.
  - destruct Hrdy as (Hw & -> & Hall & st & Hst & Hpd). pose proof (qw_refresh _ _ _ Hq Hw) as Hr.
    pose proof (qk_banks _ _ Hcfg). cbn. split_and!; try done; try by right; right; right.
    split_and!; cbn; try done; try lia. left. split; [done|]. split.
    + intros row b Hrow Hin. apply list_elem_of_lookup in Hin as [i Hi].
      pose proof (lookup_lt_Some _ _ _ Hi) as Hlt. rewrite (tw_banks _ _ Hbs _ _ Hrow) in Hlt.
      destruct (Hall (Z.of_nat i)) as (st' & Hst' & Hs & _); [lia|].
      unfold bank_at in Hst'. apply bind_Ok in Hst' as (row' & Hrow' & Hst').
      apply arr_get_Ok in Hrow' as [_ Hrow']. apply arr_get_Ok in Hst' as [_ Hst'].
      rewrite Nat2Z.id in Hst'. congruence.
    + intros row b Hrow Hb. unfold bank_at in Hst. apply bind_Ok in Hst as (row' & Hrow' & Hst').
      apply arr_get_Ok in Hrow' as [_ Hrow']. apply arr_get_Ok in Hst' as [_ Hst'].
      change (Z.to_nat 0) with 0%nat in Hst'. congruence.
  - pose proof Hun as (q1 & (l1 & l2 & _ & _ & Hr & _ & Hf) & _).
    apply Forall_app in Hf as [_ Hf]. apply Forall_cons in Hf as [(_ & Hb & Hty) _].
    split; [|split; [unfold is_close_command; tauto|split; [by exists k|by destruct Hty as [E|[E|E]]; rewrite E]]].
    split; [done|]. split; [done|]. right. split; [done|].
    intros row b Hrow Hbk. destruct (isIssuable_ready c bs q p Hiss) as (st & Hst & Hrdy).
    unfold bank_at in Hst. apply bind_Ok in Hst as (row' & Hrow' & Hst').
    apply arr_get_Ok in Hrow' as [_ Hrow']. apply arr_get_Ok in Hst' as [_ Hst'].
    assert (st = b) by congruence. by subst st.
Qed.

(** The bank a command goes to is in use after it. *)
Lemma mc_effect_busy T bs p row b : issue_ready c T bs p -> bs !! Z.to_nat (bp_rank p) = Some row ->
  row !! Z.to_nat (bp_bank p) = Some b ->
  bs_state (mc_effect c T p (Z.to_nat (bp_rank p)) (Z.to_nat (bp_bank p)) b) <> Idle /\
  bs_state (mc_effect c T p (Z.to_nat (bp_rank p)) (Z.to_nat (bp_bank p)) b) <> PowerDown.
Proof.
  intros (Hr & Hb & Hrdy) Hrow Hbk. unfold mc_effect.
  rewrite (proj2 (at_z_nat _ _ (proj1 Hr)) eq_refl), (proj2 (at_z_nat _ _ (proj1 Hb)) eq_refl).
  destruct Hrdy as [(Hty & _)|[Hty Hrdy]]; [by rewrite Hty|].
  specialize (Hrdy row b Hrow Hbk). unfold bank_ready in Hrdy.
  destruct Hty as [Hty|[Hty|Hty]]; rewrite Hty in *; [done|..];
    destruct Hrdy as [Hs _]; cbn; by rewrite Hs.
Qed.

Lemma banks_inv_issue T m ranks p : banks_inv c (T + 1) m ranks -> mc_outgoingCmd m = None ->
  issue_ready c T (mc_banks m) p ->
  banks_inv c (T + 1) (with_mc_outgoingCmd (Some p) (tCMD c)
    (with_mc_banks (tmap (mc_effect c T p) (mc_banks m)) m)) ranks.
Proof.
  intros [H1 H2 H3 H4 H5 H6 H7] Hnone Hrdy. rewrite Hnone in *. cbn in H5.
  replace (T + 1 - 1) with T in H5 by lia. pose proof (mk_queue _ _ _ Hc) as Hcfg.
  pose proof (qk_banks _ _ Hcfg) as Hnb. split; cbn; try done.
  - by apply tmap_wf.
  - replace (T + 1 - 1) with T by lia. apply table_rel_issue; try done; [apply Hc|lia].
  - intros _. apply (mk_tCMD _ _ _ Hc).
  - intros p' [= <-]. pose proof Hrdy as (Hr & Hb & _). split; [done|]. split; [lia|]. 
    destruct (lookup_lt_is_Some_2 (mc_banks m) (Z.to_nat (bp_rank p))) as [row Hrow];
      [rewrite (tw_ranks _ _ H2); lia|].
    destruct (lookup_lt_is_Some_2 (mc_powerDown m) (Z.to_nat (bp_rank p))) as [pd Hpd]; [lia|].
    split.
    + intros rk Hrk. eapply issue_accepted; try done; [lia|].
      eapply H5; [done| |done]. by rewrite list_lookup_fmap, Hrk.
    + intros row' Hrow'. rewrite (tmap_row _ _ _ _ Hrow) in Hrow'. injection Hrow' as <-.
      destruct (lookup_lt_is_Some_2 row (Z.to_nat (bp_bank p))) as [b Hbk];
        [rewrite (tw_banks _ _ H2 _ _ Hrow); lia|].
      eexists. split; [|by eapply mc_effect_busy].
      eapply list_elem_of_lookup_2. by rewrite list_lookup_imap, Hbk.
Qed.

(** The write data of a command that is issued. *)
Definition with_write (p : BusPacket) (m : MemoryController) : MemoryController :=
  match bp_type p with
  | WRITE | WRITE_P => with_mc_writeData (mc_writeData m ++ [(with_bp_type DATA p, WL c)]) m
  | _ => m
  end.

Lemma write_target T m ranks p : banks_inv c (T + 1) m ranks -> write_mid T m ->
  issue_ready c T (mc_banks m) p -> bp_type p = WRITE_P -> ln_end gap (mc_lane m) <= WL c.
Proof.
  intros Hb [_ Ho] (Hr & Hbk & Hrdy) Hty. pose proof (bi_wf _ _ _ _ Hb) as Hwf.
  destruct Hrdy as [(? & _)|[_ Hrdy]]; [congruence|].
  destruct (lookup_lt_is_Some_2 (mc_banks m) (Z.to_nat (bp_rank p))) as [row Hrow];
    [rewrite (tw_ranks _ _ Hwf); lia|].
  destruct (lookup_lt_is_Some_2 row (Z.to_nat (bp_bank p))) as [b Hbi];
    [rewrite (tw_banks _ _ Hwf _ _ Hrow); lia|].
  pose proof (list_elem_of_lookup_2 _ _ _ Hbi) as Hin. specialize (Hrdy row b Hrow Hbi).
  destruct (banks_inv_bank _ _ _ _ _ _ Hb Hrow Hin) as [d Hd].
  replace (T + 1 - 1) with T in Hd by lia.
  destruct (ready_open _ _ _ _ Hd Hrdy (or_intror Hty)) as (Hs & _ & _ & Hz & _).
  specialize (Ho _ _ _ Hrow Hin Hs Hz). unfold bank_ready in Hrdy. rewrite Hty in Hrdy. lia.
Qed.

Lemma write_mid_issue T m ranks p v : banks_inv c (T + 1) m ranks -> write_mid T m ->
  issue_ready c T (mc_banks m) p -> is_close_command p ->
  write_inv (T + 1) (with_mc_outgoingCmd (Some p) v
    (with_mc_banks (tmap (mc_effect c T p) (mc_banks m)) (with_write p m))).
Proof.
  intros Hb [[Hl Hd] Ho] Hrdy Hty. pose proof WL_range as HW. pose proof (mk_burst _ _ _ Hc) as HB.
  set (m' := with_mc_outgoingCmd _ _ _).
  assert (Hlane : write_data_ok m' /\
    ln_end gap (mc_lane m') = (if bool_decide (bp_type p = WRITE_P) then WL c + gap
                               else ln_end gap (mc_lane m))).
  { case_bool_decide as Hw.
    - assert (El : mc_lane m' = ln_add (with_bp_type DATA p) (WL c) (mc_lane m))
        by (subst m'; unfold with_write; by rewrite Hw).
      destruct (ln_add_spec gap (WL c) HB HW (mc_lane m) (with_bp_type DATA p) Hl) as (H1 & H2 & H3).
      { by eapply write_target. }
      unfold write_data_ok. rewrite El. split_and!; try done. rewrite H3. apply Forall_app.
      split; [done|]. repeat constructor; apply Hrdy.
    - assert (El : mc_lane m' = mc_lane m)
        by (subst m'; unfold with_write; by destruct Hty as [E|[E|[E|E]]]; rewrite E in *).
      unfold write_data_ok. by rewrite El. }
  pose proof (ln_end_bound gap (WL c) HB HW (mc_lane m) Hl) as Hbd.
  destruct Hlane as [Hok Hend]. split; [done|].
  intros r row' b' Hr Hin Hs Hz. change (mc_banks m') with (tmap (mc_effect c T p) (mc_banks m)) in Hr.
  unfold tmap in Hr. rewrite list_lookup_imap in Hr. apply fmap_Some in Hr as (row & Hrow & ->).
  apply list_elem_of_lookup in Hin as [i Hi]. rewrite list_lookup_imap in Hi.
  apply fmap_Some in Hi as (b & Hbi & ->). pose proof (list_elem_of_lookup_2 _ _ _ Hbi) as Hin.
  destruct (mc_effect_open T p r i b Hty Hs Hz) as [[Ht Hn]|(Hs0 & Hz0 & Hn & Hw)].
  - rewrite bool_decide_false in Hend by congruence. lia.
  - case_bool_decide as Hwr; rewrite Hend.
    + specialize (Hw Hwr). lia.
    + specialize (Ho r row b Hrow Hin Hs0 Hz0). cbv beta in Ho. lia.
Qed.

Definition same_trans (m m' : MemoryController) : Prop :=
  mc_pendingReads m' = mc_pendingReads m /\ mc_transactionQueue m' = mc_transactionQueue m /\
  mc_transactionQueues m' = mc_transactionQueues m.

Lemma trans_inv_same m m' : same_trans m m' -> trans_inv m -> trans_inv m'.
Proof. intros (_ & E1 & E2) []. split; by rewrite ?E1, ?E2. Qed.

Lemma queue_fill_same q q' : cq_queues q' = cq_queues q -> queue_fill c qc q -> queue_fill c qc q'.
Proof. intros E []. split; unfold queue_at in *; by rewrite E. Qed.

Lemma banks_inv_queue T m ranks q : banks_inv c T m ranks -> banks_inv c T (with_mc_queue q m) ranks.
Proof. intros []. by split. Qed.

Lemma write_mid_idle T m : write_mid T m -> write_inv (T + 1) m.
Proof.
  intros [Hd Ho]. split; [done|]. intros r row b Hr Hin Hs Hz. specialize (Ho r row b Hr Hin Hs Hz).
  cbv beta in Ho. lia.
Qed.

(** The queue after [pop]. *)
Lemma popped_queues bs q pid r q' : queue_fill c qc q ->
  pop_result c qc bs (ticked q) pid r q' -> (forall p, r = Some p -> is_close_command p /\
    (bp_type p <> REFRESH -> exists k, unqueued c qc (ticked q) k p q') /\
    (bp_type p = REFRESH -> cq_queues q' = cq_queues (ticked q))) ->
  queue_fill c qc q' /\ read_addrs (queued q) ≡ₚ read_addrs (option_list r) ++ read_addrs (queued q').
Proof.
  intros Hf Hr Hp. assert (Hf1 : queue_fill c qc (ticked q)) by by apply (queue_fill_same q).
  change (queued q) with (queued (ticked q)). destruct r as [p|].
  - destruct (Hp p eq_refl) as (_ & Hun & Hre). change (option_list (Some p)) with [p].
    destruct (decide (bp_type p = REFRESH)) as [E|N].
    + split; [by apply (queue_fill_same (ticked q)); [apply Hre|]|].
      rewrite read_addrs_cons, bool_decide_false by congruence. unfold queued. by rewrite (Hre E).
    + destruct (Hun N) as (k & Hk). split; [by eapply unqueued_fill|].
      rewrite (queued_unqueued _ _ _ _ _ _ Hk), !read_addrs_cons. by rewrite <- app_assoc.
  - destruct Hr as [E _]. split; [by apply (queue_fill_same (ticked q))|]. unfold queued. by rewrite E.
Qed.

Lemma issue_step T m ranks : core_inv T (T + 1) m ranks -> mc_outgoingCmd m = None ->
  write_mid T m -> turn_ok c qc (mc_queue m) ->
  exists m', issue_command c qc m = Ok m' /\ core_inv T (T + 1) m' ranks /\ write_inv (T + 1) m' /\
    same_trans m m'.
Proof.
  intros [Hb (Hq & Hf & Ht) C1 C2 C3 C4 C5 C6 C7] Hnone Hw Hturn. unfold issue_command.
  pose proof (mk_queue _ _ _ Hc) as Hcfg. pose proof (bi_wf _ _ _ _ Hb) as Hwf.
  destruct (pid_total c qc (mc_queue m) Hturn) as (pid & _ & Hpid).
  destruct (pop_spec c qc Hcfg (mc_banks m) (mc_queue m) pid Hwf Hq Hturn Hpid)
    as (r & q' & Hpop & Hq' & (Ecl & _) & Hr). rewrite Hpop, bind_Ok_l. cbn [fst snd].
  assert (Hpr : forall p, r = Some p -> issue_ready c T (mc_banks m) p /\ is_close_command p /\
    (bp_type p <> REFRESH -> exists k, unqueued c qc (ticked (mc_queue m)) k p q') /\
    (bp_type p = REFRESH -> cq_queues q' = cq_queues (ticked (mc_queue m)))).
  { intros p ->. rewrite <- C2.
    apply (popped_ready (mc_banks m) (ticked (mc_queue m)) pid p q'); [done| |done].
    by apply ticked_wf. }
  destruct (popped_queues _ _ _ _ _ Hf Hr) as [Hf' Hreads]; [by intros; eapply Hpr|].
  unfold pending_ok in C7. rewrite Hnone in C7. change (option_list None) with (@nil BusPacket) in C7.
  destruct r as [p|].
  - destruct (Hpr p eq_refl) as (Hrdy & Hty & _). fold (with_write p (with_mc_queue q' m)).
    assert (Ew : with_write p (with_mc_queue q' m) = with_mc_queue q' (with_write p m))
      by (unfold with_write; by destruct (bp_type p)).
    assert (Ebm : mc_banks (with_mc_queue q' (with_write p m)) = mc_banks m)
      by (unfold with_write; by destruct (bp_type p)).
    assert (Hst : same_trans m (with_write p m)) by (unfold with_write; by destruct (bp_type p)).
    assert (Hcl : mc_clock (with_mc_queue q' (with_write p m)) = T)
      by (unfold with_write; by destruct (bp_type p)).
    assert (Hout : mc_outgoingCmd (with_mc_queue q' (with_write p m)) = None)
      by (unfold with_write; by destruct (bp_type p)).
    rewrite Ew, Hcl, Ebm.
    destruct Hrdy as (Hrk & Hbk & Hrdy') eqn:Eh. clear Eh.
    rewrite (apply_command_tmap c T p (mc_banks m) Hwf Hty Hrk Hbk), bind_Ok_l, Hout.
    eexists. split; [done|].
    pose proof (banks_inv_issue T m ranks p Hb Hnone (conj Hrk (conj Hbk Hrdy'))) as Hb'.
    pose proof (write_mid_issue T m ranks p (tCMD c) Hb Hw (conj Hrk (conj Hbk Hrdy')) Hty) as Hw'.
    assert (Hsame : forall {A} (f : MemoryController -> A), (forall x w, f (with_mc_writeData w x) = f x) ->
      f (with_write p m) = f m) by (intros A f Hx; unfold with_write; destruct (bp_type p); auto).
    split; [|split].
    + split; cbn.
      * destruct Hb' as [B1 B2 B3 B4 B5 B6 B7]. by split; cbn; rewrite ?(Hsame _ mc_powerDown).
      * split; [done|]. split; [done|]. by eapply trans_inv_same.
      * done.
      * by rewrite Ecl.
      * done.
      * by rewrite (Hsame _ mc_refreshCountdown).
      * by rewrite (Hsame _ mc_refreshRank).
      * done.
      * unfold pending_ok. cbn. destruct Hst as [Ep _].
        rewrite Ep, (Hsame _ mc_returnTransaction) by done.
        change (option_list (Some p)) with [p]. rewrite C7, Hreads.
        change (option_list (Some p)) with [p]. solve_Permutation.
    + destruct Hw' as [[W1 W2] W3]. by split.
    + done.
  - eexists. split; [done|]. split; [|split; [|done]].
    + split; cbn; try done.
      * by apply banks_inv_queue.
      * split; [done|]. split; [done|]. by apply (trans_inv_same m).
      * by rewrite Ecl.
      * unfold pending_ok. cbn. rewrite Hnone. cbn.
        by rewrite C7, Hreads.
    + by apply write_mid_idle.
Qed.

(** * The rest of the cycle *)

(** The reads that the memory has accepted and not answered, and those it answers. *)
Definition outstanding_reads (m : MemoryController) : list Z :=
  trans_reads (waiting m) ++ (tr_address <$> mc_pendingReads m).
Definition answers (outs : list MemOut) : list Z :=
  omap (fun o => match o with ReturnReadData a _ _ => Some a | WriteDataDone _ _ _ => None end) outs.

Lemma answers_app l k : answers (l ++ k) = answers l ++ answers k.
Proof. apply omap_app. Qed.

Lemma core_inv_moved T m m' ranks : core_inv T (T + 1) m ranks -> moved m m' ->
  queues_inv c qc m' -> core_inv T (T + 1) m' ranks /\ outstanding_reads m' ≡ₚ outstanding_reads m.
Proof.
  intros [Hb _ C1 C2 C3 C4 C5 C6 C7] [Hrest Hq (addrs & P1 & P2 & P3)] Hqi.
  assert (E : mc_banks m' = mc_banks m /\ mc_powerDown m' = mc_powerDown m /\
    mc_outgoingCmd m' = mc_outgoingCmd m /\ mc_cmdCyclesLeft m' = mc_cmdCyclesLeft m /\
    mc_clock m' = mc_clock m /\ mc_refreshCountdown m' = mc_refreshCountdown m /\
    mc_refreshRank m' = mc_refreshRank m /\ mc_returnTransaction m' = mc_returnTransaction m)
    by (rewrite Hrest; by split_and!).
  destruct E as (E1 & E2 & E3 & E4 & E5 & E6 & E7 & E8). split; [split; try done|].
  - destruct Hb as [B1 B2 B3 B4 B5 B6 B7]. split; rewrite ?E1, ?E2, ?E3, ?E4; done.
  - congruence.
  - by rewrite Hq.
  - by rewrite E6.
  - by rewrite E7.
  - unfold pending_ok in *. rewrite E3, E8, P1, P3, C7. solve_Permutation.
  - unfold outstanding_reads. rewrite P1, P2. solve_Permutation.
Qed.

Lemma rank_reads_still ranks ranks' : Forall2 rank_still ranks ranks' ->
  rank_reads ranks' = rank_reads ranks.
Proof.
  unfold rank_reads. induction 1 as [|rk rk' l l' (El & _) _ IH]; [done|]. cbn.
  unfold lane_reads at 1 3. by rewrite El, IH.
Qed.

Lemma core_inv_powered T m m' ranks ranks' : core_inv T (T + 1) m ranks -> write_inv (T + 1) m ->
  banks_inv c (T + 1) m' ranks' -> powered m m' ranks ranks' ->
  core_inv T (T + 1) m' ranks' /\ write_inv (T + 1) m' /\ same_trans m m'.
Proof.
  intros [Hb Hq C1 C2 C3 C4 C5 C6 C7] [[W1 W2] W3] Hb' (Em & Hst & Hop).
  assert (Hr : forall rk', rk' ∈ ranks' -> exists rk, rk ∈ ranks /\ rank_still rk rk').
  { intros rk' Hin. apply list_elem_of_lookup in Hin as [i Hi].
    destruct (Forall2_lookup_r _ _ _ _ _ Hst Hi) as (rk & Hrk & ?). exists rk.
    split; [by eapply list_elem_of_lookup_2|done]. }
  assert (Hs : same_trans m m') by (rewrite Em; by split_and!).
  split; [|split; [split|done]].
  - split; try (rewrite Em; done); try done.
    + destruct Hq as (Q1 & Q2 & Q3). split; [by rewrite Em|]. split; [by rewrite Em|].
      by apply (trans_inv_same m).
    + intros rk' (rk & Hrk & (_ & -> & _))%Hr. auto.
    + intros rk' (rk & Hrk & (El & _ & Ho))%Hr. destruct (C6 rk Hrk) as [R1 R2 R3].
      split; rewrite ?El; try done. intros d Hd Hsd. apply R3; [by apply Ho|done].
    + unfold pending_ok in *. rewrite (rank_reads_still _ _ Hst), Em. done.
  - rewrite Em. by split.
  - rewrite Em in *. cbn in *. apply Hop, W3.
Qed.

Lemma power_step T m ranks : core_inv T (T + 1) m ranks -> write_inv (T + 1) m ->
  exists m' ranks', foldM (update_power c qc) (m, ranks) (zrange (NUM_RANKS c)) = Ok (m', ranks') /\
    core_inv T (T + 1) m' ranks' /\ write_inv (T + 1) m' /\ same_trans m m'.
Proof.
  intros Hi Hw.
  destruct (foldM_total (fun s => core_inv T (T + 1) s.1 s.2 /\ write_inv (T + 1) s.1 /\
    same_trans m s.1) (update_power c qc) (zrange (NUM_RANKS c)) (m, ranks))
    as ([m' ranks'] & Hrun & ?).
  - intros [m1 ranks1] i Hin (Hi1 & Hw1 & Hs1). cbn in *. apply elem_of_seqZ in Hin.
    destruct (update_power_spec c qc (T + 1) m1 ranks1 i (mk_queue _ _ _ Hc))
      as (m2 & ranks2 & H2 & Hb2 & Hp2); [apply Hi1|apply Hi1| |lia|].
    + intros rk Hrk. rewrite (ci_clock _ _ _ _ Hi1). by apply (ci_rclock _ _ _ _ Hi1).
    + exists (m2, ranks2). split; [done|].
      destruct (core_inv_powered _ _ _ _ _ Hi1 Hw1 Hb2 Hp2) as (? & ? & (E1 & E2 & E3)). cbn.
      split_and!; try done. destruct Hs1 as (F1 & F2 & F3). split_and!; congruence.
  - by split_and!.
  - by exists m', ranks'.
Qed.

(** A refresh that falls due. *)
Lemma core_inv_refresh T m ranks q cd rank ranks' : core_inv T (T + 1) m ranks ->
  length cd = length (mc_refreshCountdown m) -> 0 <= rank < NUM_RANKS c ->
  (q = mc_queue m \/ q = needRefresh (mc_refreshRank m) (mc_queue m)) ->
  Forall2 (fun rk rk' => exists v, rk' = with_rk_refreshWaiting v rk) ranks ranks' ->
  core_inv T (T + 1) (with_mc_refresh cd rank (with_mc_queue q m)) ranks'.
Proof.
  intros [Hb (Q1 & Q2 & Q3) C1 C2 C3 C4 C5 C6 C7] Hcd Hrank Hq Hf.
  assert (Hr : forall rk', rk' ∈ ranks' -> exists rk v, rk ∈ ranks /\ rk' = with_rk_refreshWaiting v rk).
  { intros rk' Hin. apply list_elem_of_lookup in Hin as [i Hi].
    destruct (Forall2_lookup_r _ _ _ _ _ Hf Hi) as (rk & Hrk & v & ?). exists rk, v.
    split; [by eapply list_elem_of_lookup_2|done]. }
  assert (Eb : rk_banks <$> ranks' = rk_banks <$> ranks).
  { clear - Hf. induction Hf as [|rk rk' l l' (v & ->) _ IH]; [done|]. cbn. by rewrite IH. }
  assert (Er : rank_reads ranks' = rank_reads ranks).
  { unfold rank_reads. f_equal. clear - Hf.
    induction Hf as [|rk rk' l l' (v & ->) _ IH]; [done|]. cbn. by rewrite IH. }
  pose proof (Forall2_length _ _ _ Hf) as Hlen.
  assert (Hqq : queue_wf c qc q /\ queue_fill c qc q /\ cq_clock q = T /\ queued q = queued (mc_queue m)).
  { destruct Hq as [->| ->]; [by split_and!|]. split_and!; [| |done..].
    - by destruct Q1; split.
    - by apply (queue_fill_same (mc_queue m)). }
  destruct Hqq as (K1 & K2 & K3 & K4). split; cbn; try done; try lia.
  - destruct Hb as [B1 B2 B3 B4 B5 B6 B7]. split; cbn; rewrite <- ?Hlen, ?Eb; try done.
    + intros r rk' pd Hrk Hpd. destruct (Forall2_lookup_r _ _ _ _ _ Hf Hrk) as (rk & Hrk' & v & ->).
      cbn. eauto.
    + intros p Hp. destruct (B7 p Hp) as (? & ? & Ha & ?). split_and!; try done; try lia.
      intros rk' Hrk. destruct (Forall2_lookup_r _ _ _ _ _ Hf Hrk) as (rk & Hrk' & v & ->). cbn. auto.
  - split; [done|]. split; [done|]. by apply (trans_inv_same m).
  - intros rk' (rk & v & Hrk & ->)%Hr. cbn. auto.
  - intros rk' (rk & v & Hrk & ->)%Hr. destruct (C6 rk Hrk) as [R1 R2 R3]. by split.
  - unfold pending_ok in *. cbn. by rewrite Er, K4.
Qed.

Lemma banks_inv_same T m ranks ranks1 ret : banks_inv c T m ranks -> Forall2 same_banks ranks ranks1 ->
  (forall rk, rk ∈ ranks -> rk_clock rk = T) ->
  banks_inv c T (with_mc_returnTransaction ret m) ranks1 /\ (forall rk, rk ∈ ranks1 -> rk_clock rk = T).
Proof.
  intros [B1 B2 B3 B4 B5 B6 B7] Hf Hclk.
  assert (Eb : rk_banks <$> ranks1 = rk_banks <$> ranks).
  { clear - Hf. induction Hf as [|rk rk' l l' (E & _) _ IH]; [done|]. cbn. by rewrite IH, E. }
  pose proof (Forall2_length _ _ _ Hf) as Hlen. split.
  - split; cbn; rewrite <- ?Hlen, ?Eb; try done.
    + intros r rk' pd Hrk Hpd. destruct (Forall2_lookup_r _ _ _ _ _ Hf Hrk) as (rk & Hrk' & (_ & _ & ->)).
      eauto.
    + intros p Hp. destruct (B7 p Hp) as (? & ? & Ha & ?). split_and!; try done; try lia.
      intros rk' Hrk. destruct (Forall2_lookup_r _ _ _ _ _ Hf Hrk) as (rk & Hrk' & (-> & _)). auto.
  - intros rk' Hin. apply list_elem_of_lookup in Hin as [i Hi].
    destruct (Forall2_lookup_r _ _ _ _ _ Hf Hi) as (rk & Hrk & (_ & -> & _)).
    apply Hclk. by eapply list_elem_of_lookup_2.
Qed.

(** The ranks, the buses and the command of a cycle. *)
Lemma first_half T m ranks : core_inv T T m ranks -> write_inv T m -> turn_ok c qc (mc_queue m) ->
  exists m1 ranks1 m2 ranks2 sent,
    foldM (update_rank c) (m, ranks) (zrange (NUM_RANKS c)) = Ok (m1, ranks1) /\
    update_issue c qc m1 ranks1 = Ok (m2, ranks2, writes_done T sent) /\
    core_inv T (T + 1) m2 ranks2 /\ write_inv (T + 1) m2 /\ same_trans m m2.
Proof.
  intros Hi Hw Ht. pose proof Hi as [Hb (Q1 & Q2 & Q3) C1 C2 C3 C4 C5 C6 C7].
  pose proof (qk_ranks _ _ (mk_queue _ _ _ Hc)) as HNR.
  destruct (update_ranks_step T ranks C6) as (Hd & Hsb & Hmid & Hp).
  set (ranks1 := (fun rk => (Rank_update c rk).2) <$> ranks) in *.
  set (m1 := with_mc_returnTransaction
    (mc_returnTransaction m ++ (return_of <$> (ranks ≫= sent_data c))) m).
  exists m1, ranks1.
  assert (Hfold : foldM (update_rank c) (m, ranks) (zrange (NUM_RANKS c)) = Ok (m1, ranks1)).
  { pose proof (update_rank_all c ranks m [] Hd) as H. cbn in H.
    rewrite (bi_len _ _ _ _ Hb), Z2Nat.id in H by lia. exact H. }
  assert (Hb1 : banks_inv c T m1 ranks1 /\ (forall rk, rk ∈ ranks1 -> rk_clock rk = T)).
  { by apply (banks_inv_same T m ranks). }
  destruct Hb1 as [Hb1 Hclk1].
  destruct (send_cmd_step T m1 ranks1 Hb1 Hclk1 Hmid) as (v & ranks2 & Hs & Hb2 & Hclk2 & Hri2 & Hp2).
  cbn zeta in Hs, Hb2. set (m2 := with_mc_outgoingCmd None v _) in *.
  destruct (data_bus_step T m ranks m2 ranks2 Hb Hw) as (w & m3 & sent & Hsd & Hiw & Hwm);
    [done|done|apply (bi_len _ _ _ _ Hb2)|].
  assert (Hi2 : core_inv T (T + 1) (with_mc_lane w m2) ranks2).
  { split; try done.
    - destruct Hb2 as [B1 B2 B3 B4 B5 B6 B7]. by split.
    - split; [done|]. split; [done|]. by apply (trans_inv_same m).
    - unfold pending_ok in *. cbn. rewrite Hp2, fmap_app, C7, Hp.
      rewrite <- list_fmap_compose. cbn. solve_Permutation. }
  destruct (start_refresh_spec c (with_mc_lane w m2) ranks2) as (q & cd & rank & ranks3 & Hsr & Hcd & Hrk & Hq & Hf).
  { rewrite (bi_len _ _ _ _ Hb2). done. }
  { rewrite (bi_len _ _ _ _ Hb2). by rewrite (bi_pd _ _ _ _ (ci_banks _ _ _ _ Hi2)). }
  { rewrite (bi_len _ _ _ _ Hb2). lia. }
  { lia. }
  { done. }
  pose proof (core_inv_refresh _ _ _ _ _ _ _ Hi2 Hcd Hrk Hq Hf) as Hi3.
  destruct (issue_step T _ ranks3 Hi3) as (m5 & Hic & Hi5 & Hw5 & Hs5); [done| | |].
  { destruct Hwm as [[W1 W2] W3]. by split. }
  { destruct Hq as [->| ->]; by apply (turn_ok_same c qc (mc_queue m)). }
  exists m5, ranks3, sent. split; [done|]. split.
  { unfold update_issue. rewrite Hs, bind_Ok_l. cbn [fst snd]. rewrite Hsd, bind_Ok_l. cbn [fst snd].
    rewrite Hiw, bind_Ok_l, Hsr, bind_Ok_l. cbn [fst snd]. rewrite Hic, bind_Ok_l.
    by rewrite <- C1. }
  split; [done|]. split; [done|]. destruct Hs5 as (E1 & E2 & E3). by split_and!.
Qed.

(** Transactions, power, answers and counters. *)
Lemma second_half T m ranks : core_inv T (T + 1) m ranks -> write_inv (T + 1) m ->
  exists m' ranks' outs, update_queues c qc m ranks = Ok (m', ranks', outs) /\
    core_inv (T + 1) (T + 1) (with_mc_clock (mc_clock m' + 1) m') (Rank_step <$> ranks') /\
    write_inv (T + 1) (with_mc_clock (mc_clock m' + 1) m') /\
    outstanding_reads m ≡ₚ answers outs ++ outstanding_reads m'.
Proof.
  intros Hi Hw. unfold update_queues.
  destruct (updateTransactionQueue_spec c qc g (mk_queue _ _ _ Hc) (mk_geometry _ _ _ Hc)
    (mk_depth _ _ _ Hc) m (ci_queues _ _ _ _ Hi)) as (m1 & -> & Hmv & Hq1).
  { intros Hk. apply (so_pids _ (mk_sched _ _ _ Hc Hk)). }
  rewrite bind_Ok_l. destruct (core_inv_moved _ _ _ _ Hi Hmv Hq1) as [Hi1 Ho1].
  assert (Hw1 : write_inv (T + 1) m1).
  { destruct Hmv as [-> _ _]. destruct Hw as [[W1 W2] W3]. by split. }
  destruct (power_step T m1 ranks Hi1 Hw1) as (m2 & ranks2 & -> & Hi2 & Hw2 & Hs2).
  rewrite bind_Ok_l. cbn [fst snd].
  destruct Hi2 as [Hb (Q1 & Q2 & Q3) C1 C2 C3 C4 C5 C6 C7].
  destruct (updateReturn_spec m2 _ C7) as (pend & rest & outs & -> & Hpend & ans & Hans & Houts).
  rewrite bind_Ok_l. cbn [fst snd]. eexists _, ranks2, outs. split; [done|].
  assert (Eb : rk_banks <$> (Rank_step <$> ranks2) = rk_banks <$> ranks2)
    by (rewrite <- list_fmap_compose; done).
  assert (Er : rank_reads (Rank_step <$> ranks2) = rank_reads ranks2)
    by (unfold rank_reads; rewrite <- list_fmap_compose; done).
  split; [split; cbn|split].
  - destruct Hb as [B1 B2 B3 B4 B5 B6 B7]. split; cbn; rewrite ?Eb, ?length_fmap; try done.
    + intros r rk pd Hr Hpd. rewrite list_lookup_fmap in Hr. apply fmap_Some in Hr as (rk0 & Hr & ->).
      cbn. eauto.
    + intros p Hp. destruct (B7 p Hp) as (? & ? & Ha & ?). split_and!; try done; try lia.
      intros rk Hrk. rewrite list_lookup_fmap in Hrk. apply fmap_Some in Hrk as (rk0 & Hrk & ->).
      cbn. auto.
  - split; [by destruct Q1; split|]. split; [by apply (queue_fill_same (mc_queue m2))|].
    destruct Q3. by split.
  - by rewrite C1.
  - by rewrite C2.
  - intros rk Hin. apply list_elem_of_fmap in Hin as (rk0 & -> & Hin). cbn. by rewrite C3.
  - by rewrite length_fmap.
  - done.
  - intros rk Hin. apply list_elem_of_fmap in Hin as (rk0 & -> & Hin).
    destruct (C6 rk0 Hin) as [R1 R2 R3]. by split.
  - unfold pending_ok. cbn. rewrite Er. exact Hpend.
  - destruct Hw2 as [[W1 W2] W3]. by split.
  - rewrite <- Ho1. unfold outstanding_reads, waiting. cbn. destruct Hs2 as (E1 & E2 & E3).
    rewrite E1 in Hans. rewrite E2, E3, Hans.
    assert (Ea : answers outs = ans).
    { clear - Houts. induction Houts as [|a o l k (tid & ->) _ IH]; [done|].
      unfold answers in *. cbn. by rewrite IH. }
    rewrite Ea. solve_Permutation.
Qed.

(** * The theorem *)

Definition mem_inv (T : Z) (s : MemorySystem) : Prop :=
  core_inv T T (ms_mc s) (ms_ranks s) /\ write_inv T (ms_mc s).

(** The cycles that the turn clock counts; without turns there is no limit. *)
Definition countable (T : Z) : Prop := q_kind qc <> Q_Base -> T < 2 ^ 31 - 2 ^ 28.

Lemma system_step T s : mem_inv T s -> 0 <= T -> countable T ->
  exists s' outs, MemorySystem_update c qc s = Ok (s', outs) /\ mem_inv (T + 1) s' /\
    outstanding_reads (ms_mc s) ≡ₚ answers outs ++ outstanding_reads (ms_mc s').
Proof.
  intros [Hi Hw] HT Hcnt.
  assert (Hturn : turn_ok c qc (mc_queue (ms_mc s))).
  { intros Hk. apply turn_ok_sched; [by apply (mk_sched _ _ _ Hc)| |done].
    red. rewrite (ci_qclock _ _ _ _ Hi). specialize (Hcnt Hk). lia. }
  destruct (first_half T _ _ Hi Hw Hturn) as (m1 & r1 & m2 & r2 & sent & Hf & Hu & Hi2 & Hw2 & Hs2).
  destruct (second_half T m2 r2 Hi2 Hw2) as (m3 & r3 & outs & Hq & Hi3 & Hw3 & Hp).
  unfold MemorySystem_update, mc_update. rewrite Hf, bind_Ok_l. cbn [fst snd].
  rewrite Hu, bind_Ok_l. cbn [fst snd]. rewrite Hq, bind_Ok_l, bind_Ok_l. cbn [fst snd].
  eexists _, _. split; [done|]. split; [by split|]. cbn.
  rewrite answers_app. assert (Ea : answers (writes_done T sent) = []) by by destruct sent.
  rewrite Ea. cbn. rewrite <- Hp. destruct Hs2 as (E1 & E2 & E3).
  unfold outstanding_reads, waiting. by rewrite E1, E2, E3.
Qed.

(** ** Runs *)

Lemma mem_inv_new lastPID : mem_inv 0 (MemorySystem_new c qc lastPID).
Proof.
  pose proof (mk_queue _ _ _ Hc) as Hcfg. pose proof (qk_ranks _ _ Hcfg) as Hr.
  pose proof (qk_banks _ _ Hcfg) as Hb.
  destruct (CommandQueue_new_wf c qc Hcfg lastPID (proj1 (mk_depth _ _ _ Hc))) as [Hq Hf].
  assert (Hrk : forall rk, rk ∈ replicate (Z.to_nat (NUM_RANKS c)) (Rank_new c) -> rk = Rank_new c)
    by (intros rk Hin; by apply elem_of_replicate in Hin as [? _]).
  assert (Hqd : queued (CommandQueue_new c qc lastPID) = []).
  { assert (Hn : forall n, concat (replicate n (@nil BusPacket)) = []) by (induction n; done).
    unfold queued, CommandQueue_new. cbn [cq_queues]. rewrite <- list_fmap_compose.
    induction (zrange (NUM_RANKS c)) as [|z l IH]; [done|].
    rewrite fmap_cons. cbn [concat]. rewrite IH, app_nil_r. apply Hn. }
  assert (Hreads : rank_reads (replicate (Z.to_nat (NUM_RANKS c)) (Rank_new c)) = []).
  { clear Hrk. unfold rank_reads. induction (Z.to_nat (NUM_RANKS c)) as [|n IH]; [done|]. cbn. exact IH. }
  split; [split|]; cbn.
  - split; cbn; try done.
    + by rewrite length_replicate.
    + split; [by rewrite length_replicate|]. intros r row Hrow.
      apply lookup_replicate in Hrow as [-> _]. by rewrite length_replicate.
    + by rewrite length_replicate.
    + intros r rk pd Hx Hpd. apply lookup_replicate in Hx as [-> _].
      by apply lookup_replicate in Hpd as [-> _].
    + intros r row drow pd Hx Hd Hpd. apply lookup_replicate in Hx as [-> _].
      apply lookup_replicate in Hpd as [-> _]. rewrite fmap_replicate in Hd.
      apply lookup_replicate in Hd as [-> _]. cbn. split.
      * apply Forall2_replicate. split; cbn; [lia|done].
      * by apply Forall_replicate.
  - split; [done|]. split; [done|]. split; [done|done|]. intros j l Hj.
    apply (lookup_replicate_1 4) in Hj as [-> _]. done.
  - done.
  - done.
  - intros rk ->%Hrk. done.
  - rewrite length_fmap. unfold zrange. by rewrite length_seqZ.
  - lia.
  - intros rk ->%Hrk. split; cbn.
    + by split.
    + done.
    + intros d Hd. by apply elem_of_replicate in Hd as [-> _].
  - unfold pending_ok.
    change (mc_queue (MemoryController_new c qc lastPID)) with (CommandQueue_new c qc lastPID).
    rewrite Hqd, Hreads. done.
  - split; [split; [by split|done]|]. intros r row b Hrow Hin Hs.
    apply lookup_replicate in Hrow as [-> _]. apply elem_of_replicate in Hin as [-> _]. done.
Qed.

(** What the simulator does: a cycle, or a transaction. *)
Inductive mem_op := MTick | MAdd (t : Transaction).

Definition op_ok (o : mem_op) : Prop :=
  match o with
  | MTick => True
  | MAdd t => trans_ok t /\ (q_kind qc <> Q_Base -> 0 <= tr_threadID t < q_num_pids qc)
  end.

(** The state, the answers, and the transactions that were accepted. *)
Definition mem_step (o : mem_op) (s : MemorySystem)
    : result (MemorySystem * list MemOut * list Transaction) :=
  match o with
  | MTick => r ← MemorySystem_update c qc s; Ok (r.1, r.2, [])
  | MAdd t => r ← MemorySystem_addTransaction c qc t s;
              Ok (r.2, [], if (r.1 : bool) then [t] else [])
  end.

Fixpoint mem_run (ops : list mem_op) (s : MemorySystem)
    : result (MemorySystem * list MemOut * list Transaction) :=
  match ops with
  | [] => Ok (s, [], [])
  | o :: ops' =>
      r1 ← mem_step o s;
      r2 ← mem_run ops' r1.1.1;
      Ok (r2.1.1, r1.1.2 ++ r2.1.2, r1.2 ++ r2.2)
  end.

Fixpoint ticks (ops : list mem_op) : Z :=
  match ops with [] => 0 | MTick :: l => 1 + ticks l | MAdd _ :: l => ticks l end.

Lemma ticks_pos ops : 0 <= ticks ops.
Proof. clear. induction ops as [|[] l IH]; cbn -[Z.add]; lia. Qed.

Lemma mem_inv_trans T s tq tqs : mem_inv T s ->
  trans_inv (with_mc_transactionQueue tq (with_mc_transactionQueues tqs (ms_mc s))) ->
  mem_inv T (mkMemorySystem (with_mc_transactionQueue tq
    (with_mc_transactionQueues tqs (ms_mc s))) (ms_ranks s)).
Proof.
  intros [[[B1 B2 B3 B4 B5 B6 B7] (Q1 & Q2 & _) C1 C2 C3 C4 C5 C6 C7] [[W1 W2] W3]] Ht.
  split; [split; try done; by split|]. by split.
Qed.

(** The reads after transactions [new] have joined the queues. *)
Lemma outstanding_added m tq tqs new :
  waiting (with_mc_transactionQueue tq (with_mc_transactionQueues tqs m)) ≡ₚ new ++ waiting m ->
  outstanding_reads (with_mc_transactionQueue tq (with_mc_transactionQueues tqs m)) ≡ₚ
    trans_reads new ++ outstanding_reads m.
Proof.
  intros Hp. unfold outstanding_reads. rewrite Hp, trans_reads_app. by rewrite <- app_assoc.
Qed.

Definition added (T : Z) (s : MemorySystem) (t : Transaction) (b : bool) (s' : MemorySystem) : Prop :=
  mem_inv T s' /\ outstanding_reads (ms_mc s') ≡ₚ (if b then trans_reads [t] else []) ++
    outstanding_reads (ms_mc s).

Lemma add_step_base T s t : mem_inv T s -> trans_ok t -> q_kind qc = Q_Base ->
  exists b s', MemorySystem_addTransaction c qc t s = Ok (b, s') /\ added T s t b s'.
Proof.
  intros Hi Ht Hk. pose proof (ci_queues _ _ _ _ (proj1 Hi)) as (_ & _ & [T1 T2 T3]).
  unfold MemorySystem_addTransaction, addTransaction. rewrite Hk.
  destruct s as [m ranks]. cbn [ms_mc ms_ranks] in *.
  destruct (Z.of_nat (length (mc_transactionQueue m)) <? TRANS_QUEUE_DEPTH c);
    [|exists false, (mkMemorySystem m ranks); by split_and!].
  rewrite bind_Ok_l. cbn [fst snd]. eexists true, _. split; [done|].
  assert (E : with_mc_transactionQueue (mc_transactionQueue m ++ [t]) m =
    with_mc_transactionQueue (mc_transactionQueue m ++ [t])
      (with_mc_transactionQueues (mc_transactionQueues m) m)) by by destruct m.
  rewrite E. split.
  - apply (mem_inv_trans T (mkMemorySystem m ranks)); [done|]. split; cbn; try done.
    apply Forall_app. split; [done|]. by constructor.
  - apply (outstanding_added _ _ _ [t]). unfold waiting. cbn. solve_Permutation.
Qed.

Lemma add_step_thread T s t : mem_inv T s -> trans_ok t -> q_kind qc <> Q_Base ->
  0 <= tr_threadID t < q_num_pids qc ->
  exists b s', MemorySystem_addTransaction c qc t s = Ok (b, s') /\ added T s t b s'.
Proof.
  intros Hi Ht Hk Hth. pose proof (ci_queues _ _ _ _ (proj1 Hi)) as (_ & _ & [T1 T2 T3]).
  pose proof (so_pids _ (mk_sched _ _ _ Hc Hk)) as Hn.
  destruct s as [m ranks]. cbn [ms_mc ms_ranks] in *.
  destruct (arr_get_total (mc_transactionQueues m) (tr_threadID t)) as [l Hl]; [lia|].
  destruct (arr_set_total (mc_transactionQueues m) (tr_threadID t) (l ++ [t])) as [v Hv]; [lia|].
  assert (Ha : addTransaction c qc t m = if Z.of_nat (length l) <? TRANS_QUEUE_DEPTH c
    then Ok (true, with_mc_transactionQueues v m) else Ok (false, m)).
  { unfold addTransaction.
    destruct (q_kind qc); [done|..]; by rewrite Hl, bind_Ok_l, Hv, bind_Ok_l. }
  unfold MemorySystem_addTransaction. cbn [ms_mc]. rewrite Ha.
  destruct (Z.of_nat (length l) <? TRANS_QUEUE_DEPTH c);
    [|exists false, (mkMemorySystem m ranks); by split_and!].
  rewrite bind_Ok_l. cbn [fst snd]. eexists true, _. split; [done|].
  assert (E : with_mc_transactionQueues v m = with_mc_transactionQueue (mc_transactionQueue m)
    (with_mc_transactionQueues v m)) by by destruct m.
  rewrite E. apply arr_set_Ok in Hv as [_ ->]. apply arr_get_Ok in Hl as [_ Hl]. split.
  - apply (mem_inv_trans T (mkMemorySystem m ranks)); [done|]. split; cbn; try done.
    + by rewrite length_insert.
    + intros j k Hj. apply list_lookup_insert_Some in Hj as [(<- & <- & _)|[_ Hj]]; [|by apply T3].
      destruct (T3 _ _ Hl) as [F1 F2]. rewrite Z2Nat.id in * by lia.
      split; apply Forall_app; (split; [done|]); by constructor.
  - apply (outstanding_added _ _ _ [t]). unfold waiting. cbn.
    pose proof (concat_insert _ _ _ (l ++ [t]) Hl) as Hcc. apply (Permutation_app_inv_r l).
    rewrite <- app_assoc, Hcc. solve_Permutation.
Qed.

Lemma add_step T s t : mem_inv T s -> op_ok (MAdd t) ->
  exists b s', MemorySystem_addTransaction c qc t s = Ok (b, s') /\ added T s t b s'.
Proof.
  intros Hi [Ht Hth]. destruct (decide (q_kind qc = Q_Base)) as [Hk|Hk].
  - by apply add_step_base.
  - by apply add_step_thread; [..|apply Hth].
Qed.

Lemma mem_run_spec ops : forall T s, mem_inv T s -> 0 <= T -> Forall op_ok ops ->
  countable (T + ticks ops) ->
  exists s' outs acc, mem_run ops s = Ok (s', outs, acc) /\ mem_inv (T + ticks ops) s' /\
    trans_reads acc ++ outstanding_reads (ms_mc s) ≡ₚ answers outs ++ outstanding_reads (ms_mc s').
Proof.
  induction ops as [|o ops IH]; intros T s Hi HT Hok Hcnt.
  { exists s, [], []. cbn in *. rewrite Z.add_0_r. by split_and!. }
  apply Forall_cons in Hok as [Ho Hok]. cbn [mem_run]. destruct o as [|t]; cbn [mem_step].
  - cbn [ticks] in *. pose proof (ticks_pos ops) as Hpos.
    destruct (system_step T s Hi HT) as (s1 & o1 & -> & Hi1 & Hp1).
    { intros Hk. specialize (Hcnt Hk). lia. }
    rewrite !bind_Ok_l. cbn [fst snd].
    destruct (IH (T + 1) s1 Hi1 ltac:(lia) Hok) as (s2 & o2 & acc & -> & Hi2 & Hp2).
    { by replace (T + 1 + ticks ops) with (T + (1 + ticks ops)) by lia. }
    rewrite bind_Ok_l. cbn [fst snd]. eexists _, _, _. split; [done|]. split.
    { by replace (T + (1 + ticks ops)) with (T + 1 + ticks ops) by lia. }
    rewrite answers_app, Hp1. cbn [app]. rewrite <- app_assoc, <- Hp2. solve_Permutation.
  - destruct (add_step T s t Hi Ho) as (b & s1 & -> & Hi1 & Hp1). rewrite !bind_Ok_l. cbn [fst snd].
    destruct (IH T s1 Hi1 HT Hok Hcnt) as (s2 & o2 & acc & -> & Hi2 & Hp2).
    rewrite bind_Ok_l. cbn [fst snd]. eexists _, _, _. split; [done|]. split; [done|].
    cbn [app]. rewrite <- Hp2, Hp1. destruct b; [rewrite trans_reads_app|]; solve_Permutation.
Qed.

End Safe.

(** C7. The memory system never stops on one of its own checks.  From power-up, for any
    sequence of cycles and of reads and writes of existing threads, with closed pages
    and any of the four queue classes, every update returns: no rank receives a
    command before it is ready for it, nothing collides on the command or data bus,
    no queue overflows, no index is out of range, and the data of every read find
    the read they answer. *)
Theorem memory_never_faults (c : DramCfg) (qc : QCfg) (g : geometry) (lastPID : Z)
    (ops : list mem_op) :
  mem_cfg c qc g -> Forall (op_ok qc) ops -> countable qc (ticks ops) ->
  exists s outs acc, mem_run c qc ops (MemorySystem_new c qc lastPID) = Ok (s, outs, acc) /\
    mem_inv c qc (ticks ops) s.
Proof.
  intros Hc Hok Hcnt.
  destruct (mem_run_spec c qc g Hc ops 0 _ (mem_inv_new c qc g Hc lastPID) ltac:(done) Hok Hcnt)
    as (s & outs & acc & Hrun & Hi & _). by exists s, outs, acc.
Qed.

(** No read is lost and none is answered twice: after any run, the addresses of the
    reads that were accepted are those of the answers given and of the reads still
    under way. *)
Theorem reads_conserved (c : DramCfg) (qc : QCfg) (g : geometry) (lastPID : Z)
    (ops : list mem_op) (s : MemorySystem) (outs : list MemOut) (acc : list Transaction) :
  mem_cfg c qc g -> Forall (op_ok qc) ops -> countable qc (ticks ops) ->
  mem_run c qc ops (MemorySystem_new c qc lastPID) = Ok (s, outs, acc) ->
  trans_reads acc ≡ₚ answers outs ++ outstanding_reads (ms_mc s).
Proof.
  intros Hc Hok Hcnt Hrun.
  destruct (mem_run_spec c qc g Hc ops 0 _ (mem_inv_new c qc g Hc lastPID) ltac:(done) Hok Hcnt)
    as (s' & outs' & acc' & Hrun' & _ & Hp). rewrite Hrun in Hrun'. injection Hrun' as <- <- <-.
  rewrite <- Hp. unfold outstanding_reads, waiting. cbn. by rewrite app_nil_r.
Qed.

(** * An example *)

Lemma ddr3_mem_cfg : mem_cfg ddr3 tp2 ddr3_geometry.
Proof.
  split; [apply ddr3_cfg|intros _; apply tp2_sched|apply ddr3_geometry_ok|..].
  - split; by vm_compute.
  - done.
  - done.
  - by vm_compute.
  - by vm_compute.
  - by vm_compute.
  - by vm_compute.
  - by vm_compute.
Qed.

(** A read of thread 0, and 30 cycles. *)
Definition demo_ops : list mem_op := MAdd (mkTransaction DATA_READ 0x12340 0 0) :: replicate 30 MTick.

Lemma demo_ops_ok : Forall (op_ok tp2) demo_ops.
Proof.
  constructor; [split; [split; [done|by left]|done]|]. apply Forall_replicate. done.
Qed.

Lemma memory_never_faults_witness :
  exists s outs acc, mem_run ddr3 tp2 demo_ops (MemorySystem_new ddr3 tp2 7) = Ok (s, outs, acc).
Proof.
  destruct (memory_never_faults ddr3 tp2 ddr3_geometry 7 demo_ops ddr3_mem_cfg demo_ops_ok
    ltac:(intros _; by vm_compute)) as (s & outs & acc & H & _).
  by exists s, outs, acc.
Defined.

Lemma reads_conserved_witness :
  exists s outs acc, mem_run ddr3 tp2 demo_ops (MemorySystem_new ddr3 tp2 7) = Ok (s, outs, acc) /\
    answers outs = [0x12340] /\
    trans_reads acc ≡ₚ answers outs ++ outstanding_reads (ms_mc s).
Proof.
  destruct (mem_run ddr3 tp2 demo_ops (MemorySystem_new ddr3 tp2 7)) as [[[s outs] acc]|] eqn:E;
    [|by vm_compute in E].
  exists s, outs, acc. split; [done|]. split.
  - vm_compute in E. by injection E as <- <- <-.
  - by apply (reads_conserved ddr3 tp2 ddr3_geometry 7 demo_ops s outs acc ddr3_mem_cfg demo_ops_ok
      ltac:(intros _; by vm_compute) E).
Defined.
