(* ===== verification/DramIso.v ===== *)
(** Isolation within a turn: two memories that agree on everything but the waiting
    commands and transactions of the other threads stay in agreement, and show the
    thread whose turn it is the same answers at the same cycles, whatever the other
    threads send meanwhile. *)

From S2P Require Import Prelude DramTypes DramQueue DramRank DramController DramQueueSpec DramTurns DramAddr DramBanks DramLanes DramFlow DramPower DramSafe.

(** * Command queues *)

Section QueueSim.

Context (c : DramCfg) (qc : QCfg) (t : Z) (Hk : q_kind qc = Q_TP \/ q_kind qc = Q_TPD).

(** Queues that agree but for the commands of other threads. *)
Definition sim_queue (q1 q2 : CommandQueue) : Prop :=
  q2 = with_cq_queues (cq_queues q2) q1 /\ forall r, queue_at q2 r t = queue_at q1 r t.

#[export] Instance sim_queue_equivalence : Equivalence sim_queue.
Proof.
  split.
  - intros q. split; [by destruct q|done].
  - intros q1 q2 [E H]. split; [rewrite E; by destruct q1|done].
  - intros q1 q2 q3 [E1 H1] [E2 H2]. split; [rewrite E2, E1; done|]. intros r. by rewrite H2, H1.
Qed.

Lemma sim_field {A} (f : CommandQueue -> A) q1 q2 : sim_queue q1 q2 ->
  (forall q v, f (with_cq_queues v q) = f q) -> f q2 = f q1.
Proof. intros [E _] Hf. rewrite E. apply Hf. Qed.

(** Any change that leaves the queues alone and commutes with them. *)
Lemma sim_map (f : CommandQueue -> CommandQueue) q1 q2 : sim_queue q1 q2 ->
  (forall q v, f (with_cq_queues v q) = with_cq_queues v (f q)) ->
  (forall q, cq_queues (f q) = cq_queues q) -> sim_queue (f q1) (f q2).
Proof.
  intros [E H] Hf Hq. split.
  - rewrite Hq. rewrite E at 1. by rewrite Hf.
  - intros r. unfold queue_at in *. by rewrite !Hq.
Qed.

Lemma sim_set_queue q1 q2 r l q1' q2' : sim_queue q1 q2 ->
  set_bankQueue r t l q1 = Ok q1' -> set_bankQueue r t l q2 = Ok q2' -> sim_queue q1' q2'.
Proof.
  intros [E H] H1 H2. pose proof (set_queue_fields _ _ _ _ _ H1) as E1.
  pose proof (set_queue_fields _ _ _ _ _ H2) as E2.
  destruct (queue_at_set _ _ _ _ _ H1) as [A1 B1]. destruct (queue_at_set _ _ _ _ _ H2) as [A2 B2].
  split; [rewrite E2, E, E1; done|]. intros r'. destruct (decide (r' = r)) as [->|N]; [congruence|].
  rewrite B1, B2 by congruence. apply H.
Qed.

(** Results of searches that agree. *)
Definition sim_found (x1 x2 : option (BusPacket * CommandQueue)) : Prop :=
  match x1, x2 with
  | None, None => True
  | Some (p1, q1), Some (p2, q2) => p1 = p2 /\ sim_queue q1 q2
  | _, _ => False
  end.

Lemma queue_index_thread k : queue_index c qc k = Ok k.
Proof. unfold queue_index. by destruct Hk as [E|E]; rewrite E. Qed.

Lemma take_from_sim ok1 ok2 r q1 q2 x1 x2 : sim_queue q1 q2 ->
  (forall prev p, ok1 prev p = ok2 prev p) ->
  take_from c qc ok1 r t q1 = Ok x1 -> take_from c qc ok2 r t q2 = Ok x2 -> sim_found x1 x2.
Proof.
  intros Hs Hok. unfold take_from, getCommandQueue, setCommandQueue.
  rewrite queue_index_thread, !bind_Ok_l, (proj2 Hs).
  destruct (queue_at q1 r t) as [l|]; [|done]. rewrite !bind_Ok_l, (scan_ext ok1 ok2) by done.
  destruct (scan ok2 None l) as [[[p l']|]|]; [|cbn; intros [= <-] [= <-]; exact I|done].
  rewrite !bind_Ok_l. intros H1 H2. apply bind_Ok in H1 as (a & H1 & E1).
  apply bind_Ok in H2 as (b & H2 & E2). injection E1 as <-. injection E2 as <-. split; [done|].
  by eapply sim_set_queue.
Qed.

(** The tests do not look at the queues. *)
Lemma isIssuable_sim bs q1 q2 p : sim_queue q1 q2 -> isIssuable c bs q2 p = isIssuable c bs q1 p.
Proof. intros Hs. by apply (sim_field (fun q => isIssuable c bs q p)). Qed.
Lemma getCurrentPID_sim q1 q2 : sim_queue q1 q2 -> getCurrentPID qc q2 = getCurrentPID qc q1.
Proof. intros Hs. by apply (sim_field (getCurrentPID qc)). Qed.
Lemma eligible_sim bs q1 q2 prev p : sim_queue q1 q2 ->
  tp_eligible c qc bs q2 prev p = tp_eligible c qc bs q1 prev p /\
  tpd_eligible c qc bs q2 prev p = tpd_eligible c qc bs q1 prev p.
Proof.
  intros Hs. split.
  - by apply (sim_field (fun q => tp_eligible c qc bs q prev p)).
  - by apply (sim_field (fun q => tpd_eligible c qc bs q prev p)).
Qed.

Lemma try_pos_sim bs pos q1 q2 x1 x2 : sim_queue q1 q2 ->
  try_pos c qc bs t pos q1 = Ok x1 -> try_pos c qc bs t pos q2 = Ok x2 -> sim_found x1 x2.
Proof.
  intros Hs. destruct pos as [rank bank]. unfold try_pos.
  rewrite (sim_field (fun q => rank_waits q rank) q1 q2 Hs) by done.
  destruct Hk as [E|E]; rewrite E; (destruct (rank_waits q1 rank); [intros [= <-] [= <-]; exact I|]);
    intros H1 H2; eapply take_from_sim; [exact Hs| |exact H1|exact H2|exact Hs| |exact H1|exact H2];
    intros prev p; symmetry; by apply eligible_sim.
Qed.

Definition sim_search (x1 x2 : option (BusPacket * CommandQueue) * CommandQueue) : Prop :=
  sim_found x1.1 x2.1 /\ sim_queue x1.2 x2.2.

Lemma search_sim bs start fuel : forall q1 q2 x1 x2, sim_queue q1 q2 ->
  search c qc fuel bs t start q1 = Ok x1 -> search c qc fuel bs t start q2 = Ok x2 -> sim_search x1 x2.
Proof.
  induction fuel as [|fuel IH]; intros q1 q2 x1 x2 Hs; [done|]. cbn [search].
  rewrite (sim_field cq_nextRank q1 q2 Hs), (sim_field cq_nextBank q1 q2 Hs) by done.
  set (pos := (cq_nextRank q1, cq_nextBank q1)). intros H1 H2.
  apply bind_Ok in H1 as (r1 & R1 & H1). apply bind_Ok in H2 as (r2 & R2 & H2).
  pose proof (try_pos_sim bs pos q1 q2 r1 r2 Hs R1 R2) as Hf.
  destruct r1 as [[p1 q1']|], r2 as [[p2 q2']|]; try done.
  - simplify_eq. by split.
  - assert (Hn : sim_queue (with_cq_next (advance c qc pos).1 (advance c qc pos).2 q1)
      (with_cq_next (advance c qc pos).1 (advance c qc pos).2 q2)) by by apply sim_map.
    destruct (back_at c qc start (advance c qc pos)); [simplify_eq; by split|]. by eapply IH.
Qed.

Definition sim_popped (x1 x2 : option BusPacket * CommandQueue) : Prop :=
  x1.1 = x2.1 /\ sim_queue x1.2 x2.2.

Lemma not_base : bool_decide (q_kind qc = Q_Base) = false.
Proof. apply bool_decide_eq_false. destruct Hk; congruence. Qed.

(** The state the search starts from. *)
Definition search_from (q : CommandQueue) : CommandQueue :=
  let turn_changed := negb (cq_lastPID q =? t) in
  let q := if turn_changed then with_cq_next 0 0 q else q in
  with_cq_lastPID t
    (if turn_changed && bool_decide (q_kind qc = Q_FA) then cq_lastPID q else cq_lastPID1 q) q.

Lemma search_from_sim q1 q2 : sim_queue q1 q2 -> sim_queue (search_from q1) (search_from q2).
Proof.
  intros Hs. apply sim_map; [done|..]; intros; unfold search_from; cbn;
    destruct (cq_lastPID q =? t), (bool_decide (q_kind qc = Q_FA)); done.
Qed.

Lemma normalPop_sim bs q1 q2 x1 x2 : sim_queue q1 q2 -> getCurrentPID qc q1 = Ok t ->
  normalPopClosePage c qc bs q1 = Ok x1 -> normalPopClosePage c qc bs q2 = Ok x2 -> sim_popped x1 x2.
Proof.
  intros Hs Ht. unfold normalPopClosePage. rewrite not_base, (getCurrentPID_sim _ _ Hs), Ht, !bind_Ok_l.
  fold (search_from q1) (search_from q2). pose proof (search_from_sim _ _ Hs) as Hs'.
  rewrite (sim_field cq_nextRank _ _ Hs'), (sim_field cq_nextBank _ _ Hs') by done.
  intros H1 H2. apply bind_Ok in H1 as (r1 & R1 & H1). apply bind_Ok in H2 as (r2 & R2 & H2).
  pose proof (search_sim _ _ _ _ _ _ _ Hs' R1 R2) as [Hf Hq].
  destruct r1 as [[[p1 a1]|] b1], r2 as [[[p2 a2]|] b2]; cbn in Hf, Hq; try done;
    injection H1 as <-; injection H2 as <-; by destruct Hf; split; cbn; congruence || done.
Qed.

(** ** Refreshes *)

Definition sim_scan (x1 x2 : RefreshScan) : Prop :=
  match x1, x2 with
  | AllClosed, AllClosed => True
  | NotYet y1, NotYet y2 => sim_found y1 y2
  | _, _ => False
  end.

Lemma open_row_command_sim bs q1 q2 b row l : sim_queue q1 q2 ->
  open_row_command c bs q2 b row l = open_row_command c bs q1 b row l.
Proof.
  intros Hs. induction l as [|p l IH]; [done|]. cbn. by rewrite (isIssuable_sim _ _ _ _ Hs), IH.
Qed.

Lemma refresh_scan_sim bs banks q1 q2 : sim_queue q1 q2 -> forall x1 x2,
  refresh_scan c qc bs t banks q1 = Ok x1 -> refresh_scan c qc bs t banks q2 = Ok x2 -> sim_scan x1 x2.
Proof.
  intros Hs. induction banks as [|b banks IH]; intros x1 x2; cbn [refresh_scan].
  { by intros [= <-] [= <-]. }
  rewrite not_base, (sim_field cq_refreshRank _ _ Hs), (sim_field cq_clock _ _ Hs) by done.
  unfold getCommandQueue, setCommandQueue. rewrite queue_index_thread, !bind_Ok_l, (proj2 Hs).
  destruct (queue_at q1 (cq_refreshRank q1) t) as [l|]; [|done]. rewrite !bind_Ok_l.
  destruct (bank_at bs (cq_refreshRank q1) b) as [st|]; [|done]. rewrite !bind_Ok_l.
  case_bool_decide.
  - rewrite (open_row_command_sim _ _ _ _ _ _ Hs).
    destruct (open_row_command c bs q1 b (bs_openRow st) l) as [[[p l']|]|]; [| |done]; rewrite !bind_Ok_l.
    + intros H1 H2. apply bind_Ok in H1 as (a & H1 & E1).
      apply bind_Ok in H2 as (d & H2 & E2). injection E1 as <-. injection E2 as <-.
      split; [done|]. by eapply sim_set_queue.
    + by intros [= <-] [= <-].
  - destruct (cq_clock q1 <? bs_nextActivate st); [by intros [= <-] [= <-]|]. apply IH.
Qed.

Lemma refreshPop_sim bs q1 q2 x1 x2 : sim_queue q1 q2 -> getCurrentPID qc q1 = Ok t ->
  refreshPopClosePage c qc bs q1 = Ok x1 -> refreshPopClosePage c qc bs q2 = Ok x2 -> sim_popped x1 x2.
Proof.
  intros Hs Ht. unfold refreshPopClosePage. rewrite not_base, (getCurrentPID_sim _ _ Hs), Ht, !bind_Ok_l.
  intros H1 H2. apply bind_Ok in H1 as (r1 & R1 & H1). apply bind_Ok in H2 as (r2 & R2 & H2).
  pose proof (refresh_scan_sim _ _ _ _ Hs _ _ R1 R2) as Hf.
  rewrite (sim_field cq_refreshRank _ _ Hs) in H2 by done.
  destruct r1 as [|[[p1 a1]|]], r2 as [|[[p2 a2]|]]; cbn in Hf; try done.
  - destruct (bank_at bs (cq_refreshRank q1) 0) as [st|]; [|done]. cbn in H1, H2.
    case_bool_decide; simplify_eq; (split; [done|]); [done|]. by apply sim_map.
  - simplify_eq. by destruct Hf as [-> ?].
  - simplify_eq. by split.
Qed.

Lemma refreshPop_none bs q q' : refreshPopClosePage c qc bs q = Ok (None, q') -> q' = q.
Proof.
  unfold refreshPopClosePage. intros H. apply bind_Ok in H as (pid & _ & H).
  apply bind_Ok in H as (r & _ & H). destruct r as [|[[p a]|]]; [|done|by injection H as <-].
  apply bind_Ok in H as (st & _ & H). case_bool_decide; [by injection H as <-|done].
Qed.

(** ** [pop] *)

Lemma pop_finish_sim p q1 q2 x1 x2 : sim_queue q1 q2 ->
  pop_finish c p q1 = Ok x1 -> pop_finish c p q2 = Ok x2 -> sim_queue x1 x2.
Proof.
  intros Hs. unfold pop_finish.
  set (f q := if (0 <? AL c) && cq_sendAct q then with_cq_sendAct false q
    else with_cq_next (nextRankAndBank c (cq_nextRank q, cq_nextBank q)).1
      (nextRankAndBank c (cq_nextRank q, cq_nextBank q)).2 (with_cq_sendAct true q)).
  change (if (0 <? AL c) && cq_sendAct q1 then _ else _) with (f q1).
  change (if (0 <? AL c) && cq_sendAct q2 then _ else _) with (f q2).
  assert (Hf : sim_queue (f q1) (f q2)).
  { apply sim_map; [done|..]; intros; subst f; cbn; by destruct ((0 <? AL c) && cq_sendAct q). }
  case_bool_decide; [|by intros [= <-] [= <-]].
  rewrite (sim_field cq_tFAW _ _ Hf) by done.
  destruct (arr_get (cq_tFAW (f q1)) (bp_rank p)) as [w|]; [|done]. rewrite !bind_Ok_l.
  destruct (arr_set (cq_tFAW (f q1)) (bp_rank p) (w ++ [tFAW c])) as [v|]; [|done]. rewrite !bind_Ok_l.
  intros [= <-] [= <-]. by apply sim_map.
Qed.

Lemma pop_sim bs q1 q2 x1 x2 : rowBufferPolicy c = ClosePage -> sim_queue q1 q2 ->
  getCurrentPID qc q1 = Ok t -> pop c qc bs q1 = Ok x1 -> pop c qc bs q2 = Ok x2 -> sim_popped x1 x2.
Proof.
  intros Hcl Hs Ht. unfold pop. rewrite Hcl. unfold pop_close. fold (ticked q1) (ticked q2).
  assert (Hs' : sim_queue (ticked q1) (ticked q2)) by by apply sim_map.
  assert (Ht' : getCurrentPID qc (ticked q1) = Ok t) by done.
  rewrite (sim_field cq_refreshWaiting _ _ Hs') by done.
  intros H1 H2. apply bind_Ok in H1 as (r1 & R1 & H1). apply bind_Ok in H2 as (r2 & R2 & H2).
  assert (Hr : sim_popped r1 r2).
  { destruct (cq_refreshWaiting (ticked q1)); [by eapply refreshPop_sim|].
    injection R1 as <-. injection R2 as <-. by split. }
  apply bind_Ok in H1 as (n1 & N1 & H1). apply bind_Ok in H2 as (n2 & N2 & H2).
  assert (Hn : sim_popped n1 n2).
  { destruct r1 as [o1 a1], r2 as [o2 a2], Hr as [Ho Hq]. cbn in Ho, Hq. subst o2.
    destruct o1 as [p|]; [simplify_eq; by split|]. eapply normalPop_sim; [exact Hq| |done|done].
    destruct (cq_refreshWaiting (ticked q1)); [|by injection R1 as <-].
    by rewrite (refreshPop_none _ _ _ R1). }
  destruct n1 as [o1 a1], n2 as [o2 a2], Hn as [Ho Hq]. cbn in Ho, Hq. subst o2.
  destruct o1 as [p|]; [|simplify_eq; by split].
  apply bind_Ok in H1 as (f1 & F1 & H1). apply bind_Ok in H2 as (f2 & F2 & H2). simplify_eq.
  split; [done|]. by eapply pop_finish_sim.
Qed.

End QueueSim.

(** * The controller *)

(** A state with the parts that belong to the threads replaced. *)
Definition reframe (pend : list Transaction) (q : CommandQueue) (tq : list Transaction)
    (tqs : list (list Transaction)) (m : MemoryController) : MemoryController :=
  with_mc_pendingReads pend (with_mc_queue q (with_mc_transactionQueue tq
    (with_mc_transactionQueues tqs m))).

Definition mine (t : Z) (l : list Transaction) : list Transaction :=
  filter (fun x => tr_threadID x = t) l.

Record sim_mc (t : Z) (m1 m2 : MemoryController) : Prop := {
  sm_frame : m2 = reframe (mc_pendingReads m2) (mc_queue m2) (mc_transactionQueue m2)
    (mc_transactionQueues m2) m1;
  sm_queue : sim_queue t (mc_queue m1) (mc_queue m2);
  sm_trans : arr_get (mc_transactionQueues m2) t = arr_get (mc_transactionQueues m1) t;
  sm_pending : mine t (mc_pendingReads m2) = mine t (mc_pendingReads m1)
}.

Section Sim.

Context (c : DramCfg) (qc : QCfg) (t : Z) (Hk : q_kind qc = Q_TP \/ q_kind qc = Q_TPD).

#[export] Instance sim_mc_equivalence : Equivalence (sim_mc t).
Proof.
  split.
  - intros m. split; [by destruct m|reflexivity|done|done].
  - intros m1 m2 [F Q T P]. split; [rewrite F; by destruct m1|by symmetry|done|done].
  - intros m1 m2 m3 [F1 Q1 T1 P1] [F2 Q2 T2 P2].
    split; [rewrite F2, F1; done|by etransitivity|congruence|congruence].
Qed.

(** An operation that does not touch those parts gives the same on both sides. *)
Definition framed {Y} (op : MemoryController -> result (MemoryController * Y)) : Prop :=
  forall pend q tq tqs m, op (reframe pend q tq tqs m) =
    (r ← op m; Ok (reframe pend q tq tqs r.1, r.2)).

Lemma reframe_self m :
  reframe (mc_pendingReads m) (mc_queue m) (mc_transactionQueue m) (mc_transactionQueues m) m = m.
Proof. by destruct m. Qed.

Lemma framed_step {Y} (op : MemoryController -> result (MemoryController * Y)) m1 m2 r1 r2 :
  framed op -> sim_mc t m1 m2 -> op m1 = Ok r1 -> op m2 = Ok r2 ->
  sim_mc t r1.1 r2.1 /\ r1.2 = r2.2 /\ mc_queue r1.1 = mc_queue m1 /\
  mc_pendingReads r1.1 = mc_pendingReads m1 /\ mc_transactionQueues r1.1 = mc_transactionQueues m1 /\
  mc_pendingReads r2.1 = mc_pendingReads m2 /\ mc_transactionQueues r2.1 = mc_transactionQueues m2.
Proof.
  intros Hop [F Q T P] H1 H2.
  pose proof (Hop (mc_pendingReads m1) (mc_queue m1) (mc_transactionQueue m1)
    (mc_transactionQueues m1) m1) as E1. rewrite reframe_self, H1 in E1. cbn in E1. injection E1 as E1.
  rewrite F, Hop, H1 in H2. cbn in H2. injection H2 as <-.
  assert (K : mc_queue r1.1 = mc_queue m1 /\ mc_pendingReads r1.1 = mc_pendingReads m1 /\
    mc_transactionQueues r1.1 = mc_transactionQueues m1)
    by (rewrite E1; by split_and!).
  destruct K as (K1 & K2 & K3). cbn [fst snd]. split; [|by split_and!].
  split; cbn; rewrite ?K1, ?K2, ?K3; try done.
Qed.

Lemma send_cmd_framed ranks : framed (fun m => send_cmd c m ranks).
Proof.
  intros pend q tq tqs m. unfold send_cmd. cbn. destruct (mc_outgoingCmd m) as [p|]; [|done].
  destruct (u32 (mc_cmdCyclesLeft m - 1) =? 0); [|done]. by destruct (to_rank _ _ ranks).
Qed.

Lemma send_data_framed ranks :
  framed (fun m => r ← send_data c m ranks; Ok (r.1.1, (r.1.2, r.2))).
Proof.
  intros pend q tq tqs m. unfold send_data. cbn. destruct (mc_outgoingData m) as [p|]; [|done].
  destruct (u32 (mc_dataCyclesLeft m - 1) =? 0); [|done]. by destruct (to_rank _ _ ranks).
Qed.

Lemma issue_write_data_framed : framed (fun m => r ← issue_write_data c m; Ok (r, tt)).
Proof.
  intros pend q tq tqs m. unfold issue_write_data. cbn.
  destruct ((fun x : BusPacket * Z => (x.1, u32 (x.2 - 1))) <$> mc_writeData m) as [|[p [|x|x]] l];
    try done. by destruct (mc_outgoingData m).
Qed.

Lemma update_rank_framed ranks i : framed (fun m => update_rank c (m, ranks) i).
Proof.
  intros pend q tq tqs m. unfold update_rank. destruct (arr_get ranks i) as [rk|]; [|done]. cbn.
  destruct (Rank_update c rk) as [[p|] rk']; cbn.
  - unfold mc_receiveFromBus. case_bool_decide; [|done]. cbn. by destruct (arr_set ranks i rk').
  - by destruct (arr_set ranks i rk').
Qed.

Lemma update_ranks_framed l : forall ranks, framed (fun m => foldM (update_rank c) (m, ranks) l).
Proof.
  induction l as [|i l IH]; intros ranks pend q tq tqs m; [done|]. cbn [foldM].
  rewrite update_rank_framed. destruct (update_rank c (m, ranks) i) as [[m' ranks']|]; [|done].
  rewrite !bind_Ok_l. apply IH.
Qed.

(** ** Issuing *)

Lemma sim_mc_queue m1 m2 q1 q2 : sim_mc t m1 m2 -> sim_queue t q1 q2 ->
  sim_mc t (with_mc_queue q1 m1) (with_mc_queue q2 m2).
Proof. intros [F Q T P] Hq. split; try done. cbn. rewrite F at 1. done. Qed.

(** Changes of the shared part. *)
Lemma sim_mc_map (f : MemoryController -> MemoryController) m1 m2 : sim_mc t m1 m2 ->
  (forall pend q tq tqs m, f (reframe pend q tq tqs m) = reframe pend q tq tqs (f m)) ->
  sim_mc t (f m1) (f m2).
Proof.
  intros Hs Hf.
  destruct (framed_step (fun m => Ok (f m, tt)) m1 m2 (f m1, tt) (f m2, tt)) as (H & _); try done.
  intros pend q tq tqs m. by rewrite Hf.
Qed.

Lemma sim_mc_field {A} (f : MemoryController -> A) m1 m2 : sim_mc t m1 m2 ->
  (forall pend q tq tqs m, f (reframe pend q tq tqs m) = f m) -> f m2 = f m1.
Proof. intros [F _ _ _] Hf. rewrite F. apply Hf. Qed.

Lemma start_refresh_sim m1 m2 ranks r1 r2 : sim_mc t m1 m2 ->
  start_refresh c m1 ranks = Ok r1 -> start_refresh c m2 ranks = Ok r2 ->
  sim_mc t r1.1 r2.1 /\ r1.2 = r2.2.
Proof.
  intros Hs. unfold start_refresh.
  rewrite (sim_mc_field mc_refreshRank m1 m2 Hs), (sim_mc_field mc_refreshCountdown m1 m2 Hs),
    (sim_mc_field mc_powerDown m1 m2 Hs) by done.
  destruct (arr_get (mc_refreshCountdown m1) (mc_refreshRank m1)) as [cd|]; [|done]. rewrite !bind_Ok_l.
  destruct (cd =? 0).
  - destruct (to_rank _ _ ranks) as [ranks'|]; [|done]. rewrite !bind_Ok_l. cbn [mc_refreshCountdown with_mc_queue].
    rewrite (sim_mc_field mc_refreshCountdown m1 m2 Hs) by done.
    destruct (arr_set (mc_refreshCountdown m1) (mc_refreshRank m1) (refresh_period c)) as [v|]; [|done].
    rewrite !bind_Ok_l. intros [= <-] [= <-]. split; [|done]. cbn [fst].
    match goal with |- sim_mc t (with_mc_refresh v ?nr _) _ =>
      apply (sim_mc_map (with_mc_refresh v nr)); [|done] end.
    apply sim_mc_queue; [done|]. apply sim_map; [apply Hs|done|done].
  - destruct (arr_get (mc_powerDown m1) (mc_refreshRank m1)) as [pd|]; [|done]. rewrite !bind_Ok_l.
    destruct (pd && (cd <=? tXP c)).
    + destruct (to_rank _ _ ranks) as [ranks'|]; [|done]. rewrite !bind_Ok_l.
      by intros [= <-] [= <-].
    + by intros [= <-] [= <-].
Qed.

Lemma start_refresh_pid m ranks m' ranks' : start_refresh c m ranks = Ok (m', ranks') ->
  getCurrentPID qc (mc_queue m') = getCurrentPID qc (mc_queue m).
Proof. unfold start_refresh. intros H. inv_ok; repeat (case_in H; inv_ok); done. Qed.

Lemma issue_command_sim m1 m2 r1 r2 : rowBufferPolicy c = ClosePage -> sim_mc t m1 m2 ->
  getCurrentPID qc (mc_queue m1) = Ok t ->
  issue_command c qc m1 = Ok r1 -> issue_command c qc m2 = Ok r2 -> sim_mc t r1 r2.
Proof.
  intros Hcl Hs Ht. unfold issue_command. intros H1 H2.
  rewrite (sim_mc_field mc_banks m1 m2 Hs) in H2 by done.
  apply bind_Ok in H1 as ([o1 a1] & P1 & H1). apply bind_Ok in H2 as ([o2 a2] & P2 & H2).
  destruct (pop_sim c qc t Hk _ _ _ _ _ Hcl (sm_queue _ _ _ Hs) Ht P1 P2) as [Ho Hq].
  cbn in Ho, Hq, H1, H2. subst o2. pose proof (sim_mc_queue _ _ _ _ Hs Hq) as Hs'.
  destruct o1 as [p|]; [|by simplify_eq].
  set (n1 := with_mc_queue a1 m1) in *. set (n2 := with_mc_queue a2 m2) in *.
  set (f m := match bp_type p with
    | WRITE | WRITE_P => with_mc_writeData (mc_writeData m ++ [(with_bp_type DATA p, WL c)]) m
    | _ => m end).
  change (match bp_type p with WRITE | WRITE_P => _ | _ => n1 end) with (f n1) in H1.
  change (match bp_type p with WRITE | WRITE_P => _ | _ => n2 end) with (f n2) in H2.
  assert (Hf : sim_mc t (f n1) (f n2)).
  { apply sim_mc_map; [done|]. intros. subst f. cbn. by destruct (bp_type p). }
  rewrite (sim_mc_field mc_clock _ _ Hf), (sim_mc_field mc_banks _ _ Hf),
    (sim_mc_field mc_outgoingCmd _ _ Hf) in H2 by done.
  destruct (apply_command c (mc_clock (f n1)) p (mc_banks (f n1))) as [bs|]; [|done].
  cbn in H1, H2. destruct (mc_outgoingCmd (f n1)); [done|]. simplify_eq.
  by apply (sim_mc_map (fun m => with_mc_outgoingCmd (Some p) (tCMD c) (with_mc_banks bs m))).
Qed.

Lemma update_issue_sim m1 m2 ranks r1 r2 : rowBufferPolicy c = ClosePage -> sim_mc t m1 m2 ->
  getCurrentPID qc (mc_queue m1) = Ok t ->
  update_issue c qc m1 ranks = Ok r1 -> update_issue c qc m2 ranks = Ok r2 ->
  sim_mc t r1.1.1 r2.1.1 /\ r1.1.2 = r2.1.2 /\ r1.2 = r2.2.
Proof.
  intros Hcl Hs Ht H1 H2. unfold update_issue in *.
  assert (Hs0 : sim_mc t (with_mc_banks (tick_banks c (mc_banks m1)) m1)
    (with_mc_banks (tick_banks c (mc_banks m2)) m2))
    by by apply (sim_mc_map (fun m => with_mc_banks (tick_banks c (mc_banks m)) m)).
  apply bind_Ok in H1 as ([a1 k1] & A1 & H1). apply bind_Ok in H2 as ([a2 k2] & A2 & H2).
  destruct (framed_step _ _ _ _ _ (send_cmd_framed ranks) Hs0 A1 A2) as (Sa & Ea & Qa & _).
  cbn [fst snd] in *. subst k2.
  apply bind_Ok in H1 as ([[b1 l1] o1] & B1 & H1). apply bind_Ok in H2 as ([[b2 l2] o2] & B2 & H2).
  destruct (framed_step (fun m => r ← send_data c m k1; Ok (r.1.1, (r.1.2, r.2))) a1 a2
    (b1, (l1, o1)) (b2, (l2, o2)) (send_data_framed k1) Sa) as (Sb & Eb & Qb & _);
    [by rewrite B1|by rewrite B2|]. cbn [fst snd] in *. injection Eb as -> ->.
  apply bind_Ok in H1 as (d1 & D1 & H1). apply bind_Ok in H2 as (d2 & D2 & H2).
  destruct (framed_step (fun m => r ← issue_write_data c m; Ok (r, tt)) b1 b2 (d1, tt) (d2, tt)
    issue_write_data_framed Sb) as (Sd & _ & Qd & _); [by rewrite D1|by rewrite D2|]. cbn [fst snd] in *.
  apply bind_Ok in H1 as ([e1 n1] & E1 & H1). apply bind_Ok in H2 as ([e2 n2] & E2 & H2).
  destruct (start_refresh_sim _ _ _ _ _ Sd E1 E2) as [Se En]. cbn [fst snd] in *. subst n2.
  apply bind_Ok in H1 as (g1 & G1 & H1). apply bind_Ok in H2 as (g2 & G2 & H2).
  injection H1 as <-. injection H2 as <-. cbn. split; [|done].
  eapply issue_command_sim; [done|exact Se| |exact G1|exact G2].
  rewrite (start_refresh_pid _ _ _ _ E1), Qd, Qb, Qa. exact Ht.
Qed.

(** ** Transactions *)

Lemma enqueue_thread p q : enqueue c qc p q =
  (l ← queue_at q (bp_rank p) (bp_threadID p);
   if CMD_QUEUE_DEPTH c <? Z.of_nat (length (l ++ [p])) then Err Fatal else
   set_bankQueue (bp_rank p) (bp_threadID p) (l ++ [p]) q).
Proof. unfold enqueue. by destruct Hk as [E|E]; rewrite E. Qed.

Lemma enqueue_sim p q1 q2 q1' q2' : bp_threadID p = t -> sim_queue t q1 q2 ->
  enqueue c qc p q1 = Ok q1' -> enqueue c qc p q2 = Ok q2' -> sim_queue t q1' q2'.
Proof.
  intros Hp Hs. rewrite !enqueue_thread, Hp, (proj2 Hs).
  destruct (queue_at q1 (bp_rank p) t) as [l|]; [|done]. rewrite !bind_Ok_l.
  case_match; [done|]. by apply sim_set_queue.
Qed.

Lemma enqueue_other p q q' : bp_threadID p <> t -> enqueue c qc p q = Ok q' -> sim_queue t q q'.
Proof.
  intros Hp. rewrite enqueue_thread. intros H. apply bind_Ok in H as (l & _ & H).
  case_match; [done|]. pose proof (set_queue_fields _ _ _ _ _ H).
  destruct (queue_at_set _ _ _ _ _ H) as [_ Hat]. split; [done|].
  intros r. apply Hat. congruence.
Qed.

Lemma commands_thread x cmds : commands_of c x = Ok cmds ->
  bp_threadID cmds.1 = tr_threadID x /\ bp_threadID cmds.2 = tr_threadID x.
Proof. unfold commands_of. intros H. inv_ok. done. Qed.

Definition sim_placed (x1 x2 : option (Transaction * list Transaction * CommandQueue)) : Prop :=
  match x1, x2 with
  | None, None => True
  | Some (a1, l1, q1), Some (a2, l2, q2) => a1 = a2 /\ l1 = l2 /\ sim_queue t q1 q2
  | _, _ => False
  end.

Lemma place_first_sim l q1 q2 : sim_queue t q1 q2 -> Forall (fun x => tr_threadID x = t) l ->
  forall x1 x2, place_first c qc (fun _ => t) l q1 = Ok x1 ->
    place_first c qc (fun _ => t) l q2 = Ok x2 -> sim_placed x1 x2.
Proof.
  intros Hs. induction 1 as [|x l Hx _ IH]; intros x1 x2; cbn [place_first].
  { by intros [= <-] [= <-]. }
  unfold hasRoomFor, getCommandQueue. rewrite (not_base qc Hk), (queue_index_thread c qc Hk), !bind_Ok_l.
  rewrite (proj2 Hs). destruct (queue_at q1 _ t) as [lq|]; [|done]. rewrite !bind_Ok_l.
  destruct (2 <=? _).
  - destruct (commands_of c x) as [cmds|] eqn:Ec; [|done]. rewrite !bind_Ok_l.
    destruct (commands_thread x cmds Ec) as [T1 T2]. rewrite Hx in T1, T2. intros H1 H2.
    apply bind_Ok in H1 as (a1 & A1 & H1). apply bind_Ok in H2 as (a2 & A2 & H2).
    apply bind_Ok in H1 as (b1 & B1 & H1). apply bind_Ok in H2 as (b2 & B2 & H2).
    injection H1 as <-. injection H2 as <-. split_and!; try done.
    apply (enqueue_sim _ a1 a2 _ _ T2); [|done|done]. apply (enqueue_sim _ q1 q2 _ _ T1); done.
  - intros H1 H2. apply bind_Ok in H1 as (y1 & Y1 & H1). apply bind_Ok in H2 as (y2 & Y2 & H2).
    specialize (IH _ _ Y1 Y2). injection H1 as <-. injection H2 as <-.
    destruct y1 as [[[a1 l1] b1]|], y2 as [[[a2 l2] b2]|]; try done.
    destruct IH as (-> & -> & ?). by split_and!.
Qed.

Lemma place_first_other j l q : j <> t -> Forall (fun x => tr_threadID x = j) l -> forall x,
  place_first c qc (fun _ => j) l q = Ok x ->
  match x with None => True | Some (a, l', q') =>
    tr_threadID a = j /\ a ∈ l /\ (forall y, y ∈ l' -> y ∈ l) /\ sim_queue t q q' end.
Proof.
  intros Hj. induction 1 as [|x l Hx _ IH]; intros r; cbn [place_first]; [by intros [= <-]|].
  intros H. apply bind_Ok in H as (room & _ & H). destruct room.
  - destruct (commands_of c x) as [cmds|] eqn:Ec; [|done]. rewrite bind_Ok_l in H.
    destruct (commands_thread x cmds Ec) as [T1 T2].
    apply bind_Ok in H as (a & A & H). apply bind_Ok in H as (b & B & H). injection H as <-.
    split_and!; [done|left|by intros; right|]. etransitivity; [eapply enqueue_other|eapply enqueue_other];
      [|exact A| |exact B]; congruence.
  - apply bind_Ok in H as (y & Y & H). specialize (IH _ Y). injection H as <-.
    destruct y as [[[a l'] q']|]; [|done]. destruct IH as (? & ? & Hsub & ?).
    split_and!; try done; [by right|]. intros z [->|Hz]%elem_of_cons; [left|right; auto].
Qed.

(** The addresses of the thread are its own: [own] tells them from those of the
    others. *)
Context (own : Z -> bool).

Definition owned (x : Transaction) : Prop := own (tr_address x) = bool_decide (tr_threadID x = t).

Definition own_inv (m : MemoryController) : Prop :=
  Forall owned (mc_pendingReads m) /\
  forall j l, mc_transactionQueues m !! j = Some l ->
    Forall (fun x => owned x /\ tr_threadID x = Z.of_nat j) l.

Lemma mine_add_pending x m : mine t (mc_pendingReads (add_pending x m)) =
  mine t (mc_pendingReads m) ++
    (if bool_decide (tr_type x = DATA_READ) then mine t [x] else []).
Proof.
  unfold add_pending, mine. case_bool_decide; cbn [mc_pendingReads with_mc_pendingReads];
    [apply filter_app|by rewrite app_nil_r].
Qed.

Lemma own_add_pending x m : owned x -> own_inv m -> own_inv (add_pending x m).
Proof.
  intros Hx [H1 H2]. unfold add_pending. case_bool_decide; [|done]. split; [|done]. cbn.
  apply Forall_app. split; [done|]. by constructor.
Qed.

Lemma own_inv_set m j l q : 0 <= j -> own_inv m -> Forall (fun x => owned x /\ tr_threadID x = j) l ->
  own_inv (with_mc_queue q (with_mc_transactionQueues (<[Z.to_nat j := l]> (mc_transactionQueues m)) m)).
Proof.
  intros Hj [H1 H2] Hl. split; [done|]. cbn. intros i k Hi.
  apply list_lookup_insert_Some in Hi as [(<- & <- & _)|[_ Hi]]; [|by apply H2].
  by rewrite Z2Nat.id by lia.
Qed.

(** What a thread's queue holds. *)
Lemma own_inv_get m j l : own_inv m -> arr_get (mc_transactionQueues m) j = Ok l ->
  0 <= j /\ mc_transactionQueues m !! Z.to_nat j = Some l /\
  Forall (fun x => owned x /\ tr_threadID x = j) l.
Proof.
  intros [_ H2] Hl. apply arr_get_Ok in Hl as [Hj Hl]. split_and!; try done.
  specialize (H2 _ _ Hl). by rewrite Z2Nat.id in H2.
Qed.

Lemma place_first_subset pid l q a l' q' : place_first c qc pid l q = Ok (Some (a, l', q')) ->
  a ∈ l /\ forall y, y ∈ l' -> y ∈ l.
Proof.
  revert a l' q'. induction l as [|x l IH]; intros a l' q'; cbn [place_first]; [done|].
  intros H. apply bind_Ok in H as (room & _ & H). destruct room.
  - inv_ok. split; [left|by intros; right].
  - apply bind_Ok in H as (y & Y & H). injection H as H. destruct y as [[[b k] q'']|]; [|done].
    injection H as -> <- ->. destruct (IH _ _ _ Y) as [Ha Hsub].
    split; [by right|]. intros z [->|Hz]%elem_of_cons; [left|right; auto].
Qed.

Lemma update_thread_own m j m' : own_inv m -> update_thread_queue c qc m j = Ok m' -> own_inv m'.
Proof.
  intros Hi. unfold update_thread_queue. intros H. apply bind_Ok in H as (l & Hl & H).
  destruct (own_inv_get _ _ _ Hi Hl) as (Hj & _ & Hf).
  apply bind_Ok in H as (r & Hr & H). destruct r as [[[a l'] q]|]; [|by injection H as <-].
  destruct (place_first_subset _ _ _ _ _ _ Hr) as [Ha Hsub]. rewrite Forall_forall in Hf.
  apply bind_Ok in H as (v & Hv & H). injection H as <-. apply arr_set_Ok in Hv as [_ ->].
  apply own_add_pending; [by apply Hf|]. apply own_inv_set; [done|done|].
  rewrite Forall_forall. auto.
Qed.

Lemma update_thread_other m j m' : own_inv m -> j <> t -> update_thread_queue c qc m j = Ok m' ->
  sim_mc t m m'.
Proof.
  intros Hi Hj. unfold update_thread_queue. intros H. apply bind_Ok in H as (l & Hl & H).
  destruct (own_inv_get _ _ _ Hi Hl) as (Hj0 & _ & Hf).
  apply bind_Ok in H as (r & Hr & H).
  assert (Hth : Forall (fun x => tr_threadID x = j) l) by (eapply Forall_impl; [exact Hf|]; by intros x []).
  pose proof (place_first_other j l (mc_queue m) Hj Hth _ Hr) as Hs.
  destruct r as [[[a l'] q]|]; [|injection H as <-; reflexivity]. destruct Hs as (Ha & _ & _ & Hs).
  apply bind_Ok in H as (v & Hv & H). injection H as <-.
  set (m1 := with_mc_queue q (with_mc_transactionQueues v m)).
  pose proof (add_pending_rest a m1) as Er. split.
  - rewrite Er. subst m1. by destruct m.
  - rewrite Er. done.
  - rewrite Er. cbn. eapply arr_get_set_ne; [|exact Hv]. done.
  - rewrite mine_add_pending.
    assert (mine t [a] = []) as -> by (unfold mine; by rewrite filter_cons_False by congruence).
    case_bool_decide; by rewrite app_nil_r.
Qed.

Lemma update_thread_mine m1 m2 r1 r2 : own_inv m1 -> sim_mc t m1 m2 ->
  update_thread_queue c qc m1 t = Ok r1 -> update_thread_queue c qc m2 t = Ok r2 -> sim_mc t r1 r2.
Proof.
  intros Hi Hs. pose proof Hs as [F Q T P]. unfold update_thread_queue. rewrite T.
  destruct (arr_get (mc_transactionQueues m1) t) as [l|] eqn:Hl; [|done]. rewrite !bind_Ok_l.
  destruct (own_inv_get _ _ _ Hi Hl) as (Hj0 & _ & Hf).
  assert (Hth : Forall (fun x => tr_threadID x = t) l) by (eapply Forall_impl; [exact Hf|]; by intros x []).
  intros H1 H2. apply bind_Ok in H1 as (y1 & Y1 & H1). apply bind_Ok in H2 as (y2 & Y2 & H2).
  pose proof (place_first_sim l _ _ Q Hth _ _ Y1 Y2) as Hp.
  destruct y1 as [[[a1 l1] q1]|], y2 as [[[a2 l2] q2]|]; try done; [|by simplify_eq].
  destruct Hp as (<- & <- & Hq). apply bind_Ok in H1 as (v1 & V1 & H1).
  apply bind_Ok in H2 as (v2 & V2 & H2). injection H1 as <-. injection H2 as <-.
  set (n1 := with_mc_queue q1 _). set (n2 := with_mc_queue q2 _).
  pose proof (add_pending_rest a1 n1) as E1. pose proof (add_pending_rest a1 n2) as E2. split.
  - rewrite E1, E2. subst n1 n2. clear - F. destruct m1, m2. cbn in F. injection F. intros. by subst.
  - rewrite E1, E2. done.
  - rewrite E1, E2. cbn. by rewrite (arr_get_set_eq _ _ _ _ V1), (arr_get_set_eq _ _ _ _ V2).
  - rewrite !mine_add_pending. subst n1 n2.
    cbn [mc_pendingReads with_mc_queue with_mc_transactionQueues]. by rewrite P.
Qed.

Lemma update_threads_sim l : forall m1 m2 r1 r2, own_inv m1 -> own_inv m2 -> sim_mc t m1 m2 ->
  foldM (update_thread_queue c qc) m1 l = Ok r1 -> foldM (update_thread_queue c qc) m2 l = Ok r2 ->
  sim_mc t r1 r2 /\ own_inv r1 /\ own_inv r2.
Proof.
  induction l as [|j l IH]; intros m1 m2 r1 r2 O1 O2 Hs; cbn [foldM].
  { intros [= <-] [= <-]. by split_and!. }
  intros H1 H2. apply bind_Ok in H1 as (a1 & A1 & H1). apply bind_Ok in H2 as (a2 & A2 & H2).
  pose proof (update_thread_own _ _ _ O1 A1) as P1. pose proof (update_thread_own _ _ _ O2 A2) as P2.
  eapply IH; [exact P1|exact P2| |exact H1|exact H2]. destruct (decide (j = t)) as [->|Hj].
  - exact (update_thread_mine _ _ _ _ O1 Hs A1 A2).
  - pose proof (update_thread_other _ _ _ O1 Hj A1). pose proof (update_thread_other _ _ _ O2 Hj A2).
    transitivity m1; [by symmetry|]. by transitivity m2.
Qed.

(** ** Answers *)

(** What the thread sees of the output. *)
Definition out_thread (o : MemOut) : Z :=
  match o with ReturnReadData _ _ tid | WriteDataDone _ _ tid => tid end.
Definition sees (outs : list MemOut) : list MemOut := filter (fun o => out_thread o = t) outs.

Lemma take_pending_mine a l x rest : Forall owned l -> own a = true ->
  take_pending a l = Some (x, rest) ->
  take_pending a (mine t l) = Some (x, mine t rest) /\ tr_threadID x = t.
Proof.
  intros Hf Ha. revert x rest. induction Hf as [|y l Hy _ IH]; intros x rest; cbn [take_pending]; [done|].
  unfold owned in Hy. destruct (Z.eqb_spec (tr_address y) a) as [E|N].
  - intros [= <- <-]. rewrite E, Ha in Hy. symmetry in Hy. apply bool_decide_eq_true in Hy.
    unfold mine. rewrite filter_cons_True by done. cbn [take_pending]. by rewrite (proj2 (Z.eqb_eq _ _) E).
  - destruct (take_pending a l) as [[x' r']|] eqn:Et; [|done]. intros [= <- <-].
    destruct (IH _ _ eq_refl) as [H1 H2]. split; [|done]. unfold mine in *.
    destruct (decide (tr_threadID y = t)).
    + rewrite !filter_cons_True by done. cbn [take_pending].
      rewrite (proj2 (Z.eqb_neq _ _) N). by rewrite H1.
    + by rewrite !filter_cons_False by done.
Qed.

Lemma take_pending_theirs a l x rest : Forall owned l -> own a = false ->
  take_pending a l = Some (x, rest) -> mine t rest = mine t l /\ tr_threadID x <> t.
Proof.
  intros Hf Ha. revert x rest. induction Hf as [|y l Hy _ IH]; intros x rest; cbn [take_pending]; [done|].
  unfold owned in Hy. destruct (Z.eqb_spec (tr_address y) a) as [E|N].
  - intros [= <- <-]. rewrite E, Ha in Hy. symmetry in Hy. apply bool_decide_eq_false in Hy.
    unfold mine. by rewrite filter_cons_False by done.
  - destruct (take_pending a l) as [[x' r']|] eqn:Et; [|done]. intros [= <- <-].
    destruct (IH _ _ eq_refl) as [H1 H2]. split; [|done]. unfold mine in *.
    destruct (decide (tr_threadID y = t)); [rewrite !filter_cons_True by done; by rewrite H1|].
    by rewrite !filter_cons_False by done.
Qed.

Lemma take_pending_rest a l x rest (P : Transaction -> Prop) : Forall P l ->
  take_pending a l = Some (x, rest) -> Forall P rest /\ tr_address x = a.
Proof.
  intros Hf. revert x rest. induction Hf as [|y l Hy Hf IH]; intros x rest; cbn [take_pending]; [done|].
  destruct (Z.eqb_spec (tr_address y) a); [by intros [= <- <-]|].
  destruct (take_pending a l) as [[x' r']|]; [|done]. intros [= <- <-].
  destruct (IH _ _ eq_refl). split; [by constructor|done].
Qed.

Lemma updateReturn_sim m1 m2 r1 r2 : own_inv m1 -> own_inv m2 -> sim_mc t m1 m2 ->
  updateReturnTransactions m1 = Ok r1 -> updateReturnTransactions m2 = Ok r2 ->
  sim_mc t r1.1 r2.1 /\ own_inv r1.1 /\ own_inv r2.1 /\ sees r1.2 = sees r2.2.
Proof.
  intros O1 O2 Hs. unfold updateReturnTransactions.
  rewrite (sim_mc_field mc_returnTransaction m1 m2 Hs), (sim_mc_field mc_clock m1 m2 Hs) by done.
  destruct (mc_returnTransaction m1) as [|x rest]; [by intros [= <-] [= <-]|].
  destruct (take_pending (tr_address x) (mc_pendingReads m1)) as [[x1 p1]|] eqn:E1; [|done].
  destruct (take_pending (tr_address x) (mc_pendingReads m2)) as [[x2 p2]|] eqn:E2; [|done].
  intros [= <-] [= <-]. cbn [fst snd]. destruct O1 as [F1 G1], O2 as [F2 G2].
  destruct (take_pending_rest _ _ _ _ _ F1 E1) as [F1' A1].
  destruct (take_pending_rest _ _ _ _ _ F2 E2) as [F2' A2].
  assert (Hp : mine t p2 = mine t p1 /\ sees [ReturnReadData (tr_address x1) (mc_clock m1) (tr_threadID x1)]
    = sees [ReturnReadData (tr_address x2) (mc_clock m1) (tr_threadID x2)]).
  { destruct (own (tr_address x)) eqn:Ho.
    - destruct (take_pending_mine _ _ _ _ F1 Ho E1) as [M1 T1].
      destruct (take_pending_mine _ _ _ _ F2 Ho E2) as [M2 T2].
      rewrite (sm_pending _ _ _ Hs), M1 in M2. injection M2 as <- <-. done.
    - destruct (take_pending_theirs _ _ _ _ F1 Ho E1) as [M1 T1].
      destruct (take_pending_theirs _ _ _ _ F2 Ho E2) as [M2 T2].
      split; [by rewrite M1, M2, (sm_pending _ _ _ Hs)|]. unfold sees.
      by rewrite !filter_cons_False by done. }
  destruct Hp as [Hp Ho]. split_and!; try done.
  destruct Hs as [F Q T P]. split; try done.
  clear - F. destruct m1, m2. cbn in F. injection F. intros. by subst.
Qed.

(** ** A cycle *)

Lemma update_issue_trans m ranks r : update_issue c qc m ranks = Ok r ->
  mc_pendingReads r.1.1 = mc_pendingReads m /\ mc_transactionQueues r.1.1 = mc_transactionQueues m.
Proof.
  intros H. unfold update_issue in H.
  assert (Hk' : forall m0 : MemoryController, sim_mc t m0 m0) by reflexivity.
  apply bind_Ok in H as ([a k] & A & H). cbn [fst snd] in H.
  destruct (framed_step _ _ _ _ _ (send_cmd_framed ranks) (Hk' _) A A) as (_ & _ & _ & P1 & T1 & _).
  apply bind_Ok in H as ([[b l] o] & B & H). cbn [fst snd] in H.
  destruct (framed_step (fun m => r ← send_data c m k; Ok (r.1.1, (r.1.2, r.2))) a a
    (b, (l, o)) (b, (l, o)) (send_data_framed k) (Hk' a)) as (_ & _ & _ & P2 & T2 & _);
    [by rewrite B|by rewrite B|].
  apply bind_Ok in H as (d & D & H).
  destruct (framed_step (fun m => r ← issue_write_data c m; Ok (r, tt)) b b (d, tt) (d, tt)
    issue_write_data_framed (Hk' b)) as (_ & _ & _ & P3 & T3 & _); [by rewrite D|by rewrite D|].
  cbn [fst snd] in *. apply bind_Ok in H as ([e n] & E & H).
  assert (HE : mc_pendingReads e = mc_pendingReads d /\ mc_transactionQueues e = mc_transactionQueues d).
  { clear - E. unfold start_refresh in E. inv_ok; repeat (case_in E; inv_ok); done. }
  apply bind_Ok in H as (g & G & H). injection H as <-. cbn [fst snd] in *.
  assert (HG : mc_pendingReads g = mc_pendingReads e /\ mc_transactionQueues g = mc_transactionQueues e).
  { clear - G. unfold issue_command in G. apply bind_Ok in G as ([o q] & _ & G). cbn [fst snd] in G.
    destruct o as [p|]; [|by injection G as <-].
    apply bind_Ok in G as (bs & _ & G).
    destruct (bp_type p); cbn in G; destruct (mc_outgoingCmd e); try done; by injection G as <-. }
  destruct HE, HG. cbn in P1, T1. split; congruence.
Qed.

Lemma power_off l m ranks : USE_LOW_POWER c = false ->
  foldM (update_power c qc) (m, ranks) l = Ok (m, ranks).
Proof.
  intros Hp. induction l as [|i l IH]; [done|]. cbn [foldM]. unfold update_power at 2.
  rewrite Hp. cbn [negb]. by rewrite bind_Ok_l.
Qed.

Lemma own_inv_same m m' : mc_pendingReads m' = mc_pendingReads m ->
  mc_transactionQueues m' = mc_transactionQueues m -> own_inv m -> own_inv m'.
Proof. intros E1 E2 [H1 H2]. split; rewrite ?E1, ?E2; done. Qed.

Definition sim_sys (s1 s2 : MemorySystem) : Prop :=
  sim_mc t (ms_mc s1) (ms_mc s2) /\ ms_ranks s2 = ms_ranks s1.

Lemma cycle_sim s1 s2 r1 r2 : rowBufferPolicy c = ClosePage -> USE_LOW_POWER c = false ->
  sim_sys s1 s2 -> own_inv (ms_mc s1) -> own_inv (ms_mc s2) ->
  getCurrentPID qc (mc_queue (ms_mc s1)) = Ok t ->
  MemorySystem_update c qc s1 = Ok r1 -> MemorySystem_update c qc s2 = Ok r2 ->
  sim_sys r1.1 r2.1 /\ own_inv (ms_mc r1.1) /\ own_inv (ms_mc r2.1) /\ sees r1.2 = sees r2.2.
Proof.
  intros Hcl Hpw [Hs Er] O1 O2 Ht. unfold MemorySystem_update, mc_update. rewrite Er. intros H1 H2.
  apply bind_Ok in H1 as ([a1 k1] & A1 & H1). apply bind_Ok in H2 as ([a2 k2] & A2 & H2).
  destruct (framed_step _ _ _ _ _ (update_ranks_framed (zrange (NUM_RANKS c)) (ms_ranks s1)) Hs A1 A2)
    as (Sa & Ea & Qa & P1 & T1 & P2 & T2). cbn [fst snd] in *. subst k2.
  pose proof (own_inv_same _ _ P1 T1 O1) as Oa1. pose proof (own_inv_same _ _ P2 T2 O2) as Oa2.
  apply bind_Ok in H1 as ([[d1 n1] o1] & U1 & H1). apply bind_Ok in U1 as (b1 & B1 & U1).
  apply bind_Ok in H2 as ([[d2 n2] o2] & U2 & H2). apply bind_Ok in U2 as (b2 & B2 & U2).
  destruct (update_issue_sim a1 a2 k1 b1 b2 Hcl Sa) as (Sb & Eb & Eo); [by rewrite Qa|done..|].
  destruct (update_issue_trans _ _ _ B1) as [P3 T3]. destruct (update_issue_trans _ _ _ B2) as [P4 T4].
  pose proof (own_inv_same _ _ P3 T3 Oa1) as Ob1. pose proof (own_inv_same _ _ P4 T4 Oa2) as Ob2.
  apply bind_Ok in U1 as ([[e1 l1] x1] & E1 & U1). apply bind_Ok in U2 as ([[e2 l2] x2] & E2 & U2).
  cbn [fst snd] in U1, U2. injection U1 as <- <- <-. injection U2 as <- <- <-.
  unfold update_queues in E1, E2. rewrite <- Eb in E2. clear Eb.
  apply bind_Ok in E1 as (f1 & F1 & E1). apply bind_Ok in E2 as (f2 & F2 & E2).
  rewrite power_off, bind_Ok_l in E1, E2 by done. cbn [fst snd] in E1, E2.
  assert (Hf : sim_mc t f1 f2 /\ own_inv f1 /\ own_inv f2).
  { unfold updateTransactionQueue in F1, F2.
    eapply (update_threads_sim (zrange (q_num_pids qc))); [exact Ob1|exact Ob2|exact Sb| |];
      by destruct Hk as [Ek|Ek]; rewrite Ek in F1, F2. }
  destruct Hf as (Sf & Of1 & Of2).
  apply bind_Ok in E1 as ([g1 y1] & G1 & E1). apply bind_Ok in E2 as ([g2 y2] & G2 & E2).
  destruct (updateReturn_sim _ _ _ _ Of1 Of2 Sf G1 G2) as (Sg & Og1 & Og2 & Hsee).
  cbn [fst snd] in *. injection E1 as <- <- <-. injection E2 as <- <- <-.
  injection H1 as <-. injection H2 as <-. cbn [fst snd ms_mc ms_ranks].
  split; [split|split; [|split]].
  - cbn [ms_mc]. destruct Sg as [F Q T P]. split; try done.
    + clear - F. destruct g1, g2. cbn in F. injection F. intros. by subst.
    + cbn. apply (sim_map t (fun q => with_cq_clock (cq_clock q + 1) q)); done.
  - done.
  - by apply (own_inv_same g1).
  - by apply (own_inv_same g2).
  - unfold sees. rewrite !filter_app, Eo. f_equal. exact Hsee.
Qed.

(** ** Transactions that arrive *)

Definition own_op (o : mem_op) : Prop := match o with MTick => True | MAdd x => owned x end.

Lemma add_eq x m : 
  addTransaction c qc x m =
  (l ← arr_get (mc_transactionQueues m) (tr_threadID x);
   if Z.of_nat (length l) <? TRANS_QUEUE_DEPTH c then
     v ← arr_set (mc_transactionQueues m) (tr_threadID x) (l ++ [x]);
     Ok (true, with_mc_transactionQueues v m)
   else Ok (false, m)).
Proof. unfold addTransaction. by destruct Hk as [E|E]; rewrite E. Qed.

Lemma add_own x m r : own_inv m -> owned x -> addTransaction c qc x m = Ok r -> own_inv r.2.
Proof.
  intros Hi Hx. rewrite add_eq. intros H. apply bind_Ok in H as (l & Hl & H).
  case_match; [|by injection H as <-]. apply bind_Ok in H as (v & Hv & H). injection H as <-.
  destruct (own_inv_get _ _ _ Hi Hl) as (Hj & _ & Hf). apply arr_set_Ok in Hv as [_ ->].
  apply (own_inv_same (with_mc_queue (mc_queue m) (with_mc_transactionQueues
    (<[Z.to_nat (tr_threadID x) := l ++ [x]]> (mc_transactionQueues m)) m))); [done|done|].
  apply own_inv_set; [done|done|]. apply Forall_app. split; [done|]. by constructor.
Qed.

Lemma add_other x m r : tr_threadID x <> t -> addTransaction c qc x m = Ok r -> sim_mc t m r.2.
Proof.
  intros Hx. rewrite add_eq. intros H. apply bind_Ok in H as (l & Hl & H).
  case_match; [|injection H as <-; reflexivity]. apply bind_Ok in H as (v & Hv & H). injection H as <-.
  split; cbn; [by destruct m|reflexivity| |done]. eapply arr_get_set_ne; [|exact Hv]. done.
Qed.

Lemma add_mine x m1 m2 r1 r2 : tr_threadID x = t -> sim_mc t m1 m2 ->
  addTransaction c qc x m1 = Ok r1 -> addTransaction c qc x m2 = Ok r2 ->
  r1.1 = r2.1 /\ sim_mc t r1.2 r2.2.
Proof.
  intros Hx Hs. pose proof Hs as [F Q T P]. rewrite !add_eq, Hx, T.
  destruct (arr_get (mc_transactionQueues m1) t) as [l|]; [|done]. rewrite !bind_Ok_l.
  case_match; [|intros [= <-] [= <-]; by split]. intros H1 H2.
  apply bind_Ok in H1 as (v1 & V1 & H1). apply bind_Ok in H2 as (v2 & V2 & H2).
  injection H1 as <-. injection H2 as <-. split; [done|]. split; cbn; try done.
  - clear - F. destruct m1, m2. cbn in F. injection F. intros. by subst.
  - by rewrite (arr_get_set_eq _ _ _ _ V1), (arr_get_set_eq _ _ _ _ V2).
Qed.

End Sim.

(** * Runs within a turn *)

(** Two sequences of operations that differ only in the transactions of other threads. *)
Inductive obs_eq (t : Z) : list mem_op -> list mem_op -> Prop :=
  | OE_nil : obs_eq t [] []
  | OE_tick l1 l2 : obs_eq t l1 l2 -> obs_eq t (MTick :: l1) (MTick :: l2)
  | OE_mine x l1 l2 : tr_threadID x = t -> obs_eq t l1 l2 -> obs_eq t (MAdd x :: l1) (MAdd x :: l2)
  | OE_left x l1 l2 : tr_threadID x <> t -> obs_eq t l1 l2 -> obs_eq t (MAdd x :: l1) l2
  | OE_right x l1 l2 : tr_threadID x <> t -> obs_eq t l1 l2 -> obs_eq t l1 (MAdd x :: l2).

Lemma obs_eq_refl t l : obs_eq t l l.
Proof.
  induction l as [|[|x] l IH]; [constructor|by constructor|].
  destruct (decide (tr_threadID x = t)); [by constructor|]. by apply OE_left, OE_right.
Qed.

Lemma obs_eq_ticks t l1 l2 : obs_eq t l1 l2 -> ticks l2 = ticks l1.
Proof. induction 1; cbn -[Z.add]; lia. Qed.

Section Turn.

Context (c : DramCfg) (qc : QCfg) (g : geometry) (t : Z) (own : Z -> bool).
Context (Hc : mem_cfg c qc g) (Hk : turn_based qc) (Hlow : USE_LOW_POWER c = false).
Context (Ht : 0 <= t < q_num_pids qc).

Lemma sched_here : sched_ok qc.
Proof. apply (mk_sched _ _ _ Hc). destruct Hk; congruence. Qed.

(** The turn is [t]'s for the next [n] cycles. *)
Definition turn_for (T n : Z) : Prop :=
  0 < n -> turn_start qc t <= phase qc T /\ n <= turn_left qc t T.

Lemma turn_for_pid T n q : turn_for T n -> 0 < n -> cq_clock q = T -> in_int qc q ->
  getCurrentPID qc q = Ok t.
Proof.
  intros Hn Hpos Hq Hi. destruct (Hn Hpos) as [H1 H2]. pose proof sched_here as Hs.
  destruct (getCurrentPID_spec qc Hs q Hi) as (pid & Hg & Hp & Hr). rewrite Hg. f_equal.
  rewrite Hq in Hr. unfold turn_left in H2.
  eapply (turn_unique qc Hs pid t T); [done|done|done|lia].
Qed.

Lemma turn_end : turn_start qc t + turn_length qc t <= period qc.
Proof.
  pose proof sched_here as [Hn _ Hd]. unfold turn_start, turn_length, period.
  destruct (q_diffPeriod qc); [case_match; zb; nia|].
  assert (0 < 2 ^ q_tpTurnLength qc) by (apply Z.pow_pos_nonneg; lia). nia.
Qed.

Lemma turn_for_next T n : turn_for T (1 + n) -> 0 <= n -> turn_for (T + 1) n.
Proof.
  intros H Hn Hpos. destruct H as [H1 H2]; [lia|]. pose proof (period_pos qc sched_here) as Hp.
  pose proof turn_end as He. unfold turn_left in *.
  assert (E : phase qc (T + 1) = phase qc T + 1).
  { unfold phase in *. replace (T + 1 - q_offset qc) with (T - q_offset qc + 1) by lia.
    pose proof (Z.mod_pos_bound (T - q_offset qc) (period qc)).
    rewrite <- Zplus_mod_idemp_l. apply Z.mod_small. lia. }
  rewrite E. lia.
Qed.

Lemma add_sys x s b s' : MemorySystem_addTransaction c qc x s = Ok (b, s') ->
  addTransaction c qc x (ms_mc s) = Ok (b, ms_mc s') /\ ms_ranks s' = ms_ranks s.
Proof.
  unfold MemorySystem_addTransaction. intros H. apply bind_Ok in H as ([b' m'] & -> & H).
  by injection H as <- <-.
Qed.

Lemma turn_run ops1 ops2 : obs_eq t ops1 ops2 -> forall T s1 s2,
  mem_inv c qc T s1 -> mem_inv c qc T s2 -> 0 <= T -> countable qc (T + ticks ops1) ->
  turn_for T (ticks ops1) ->
  Forall (op_ok qc) ops1 -> Forall (op_ok qc) ops2 ->
  Forall (own_op t own) ops1 -> Forall (own_op t own) ops2 ->
  sim_sys t s1 s2 -> own_inv t own (ms_mc s1) -> own_inv t own (ms_mc s2) ->
  exists s1' o1 a1 s2' o2 a2,
    mem_run c qc ops1 s1 = Ok (s1', o1, a1) /\ mem_run c qc ops2 s2 = Ok (s2', o2, a2) /\
    sees t o1 = sees t o2 /\ mine t a1 = mine t a2 /\ sim_sys t s1' s2'.
Proof.
  induction 1 as [|l1 l2 _ IH|x l1 l2 Hx _ IH|x l1 l2 Hx _ IH|x l1 l2 Hx _ IH];
    intros T s1 s2 I1 I2 HT Hcnt Htf K1 K2 W1 W2 Hs O1 O2.
  - exists s1, [], [], s2, [], []. by split_and!.
  - apply Forall_cons in K1 as [_ K1]. apply Forall_cons in K2 as [_ K2].
    apply Forall_cons in W1 as [_ W1]. apply Forall_cons in W2 as [_ W2].
    cbn [ticks] in Hcnt, Htf. pose proof (ticks_pos l1) as Hp.
    assert (Hct : countable qc T) by (intros Hn; specialize (Hcnt Hn); lia).
    destruct (system_step c qc g Hc T s1 I1 HT Hct) as (n1 & y1 & U1 & J1 & _).
    destruct (system_step c qc g Hc T s2 I2 HT Hct) as (n2 & y2 & U2 & J2 & _).
    assert (Hpid : getCurrentPID qc (mc_queue (ms_mc s1)) = Ok t).
    { destruct I1 as [I1 _]. pose proof (ci_qclock _ _ _ _ _ _ I1) as Eq.
      eapply turn_for_pid; [exact Htf|lia|exact Eq|].
      red. rewrite Eq. specialize (Hct ltac:(destruct Hk; congruence)). lia. }
    destruct (cycle_sim c qc t Hk own s1 s2 _ _ (qk_close _ _ (mk_queue _ _ _ Hc)) Hlow Hs O1 O2 Hpid U1 U2)
      as (Sn & On1 & On2 & Hsee). cbn [fst snd] in *.
    destruct (IH (T + 1) n1 n2) as (s1' & o1 & a1 & s2' & o2 & a2 & R1 & R2 & E1 & E2 & E3); try done;
      [lia|by replace (T + 1 + ticks l1) with (T + (1 + ticks l1)) by lia|by apply turn_for_next|].
    exists s1', (y1 ++ o1), a1, s2', (y2 ++ o2), a2. cbn [mem_run mem_step].
    rewrite U1, U2, !bind_Ok_l. cbn [fst snd]. rewrite R1, R2, !bind_Ok_l. cbn [fst snd].
    split_and!; try done. unfold sees in *. by rewrite !filter_app, Hsee, E1.
  - apply Forall_cons in K1 as [A1 K1]. apply Forall_cons in K2 as [_ K2].
    apply Forall_cons in W1 as [B1 W1]. apply Forall_cons in W2 as [_ W2].
    destruct (add_step c qc g Hc T s1 x I1 A1) as (b1 & n1 & U1 & J1 & _).
    destruct (add_step c qc g Hc T s2 x I2 A1) as (b2 & n2 & U2 & J2 & _).
    destruct (add_sys x s1 b1 n1 U1) as (V1 & R1). destruct (add_sys x s2 b2 n2 U2) as (V2 & R2).
    destruct (add_mine c qc t Hk x _ _ _ _ Hx (proj1 Hs) V1 V2) as [Eb Sn]. cbn in Eb, Sn. subst b2.
    destruct (IH T n1 n2) as (s1' & o1 & a1 & s2' & o2 & a2 & M1 & M2 & E1 & E2 & E3); try done.
    { split; [done|]. destruct Hs as [_ Er]. congruence. }
    { exact (add_own c qc t Hk own _ _ _ O1 B1 V1). }
    { exact (add_own c qc t Hk own _ _ _ O2 B1 V2). }
    eexists s1', o1, _, s2', o2, _. cbn [mem_run mem_step].
    rewrite U1, U2, !bind_Ok_l. cbn [fst snd]. rewrite M1, M2, !bind_Ok_l. cbn [fst snd app].
    split_and!; try done. unfold mine in *. by rewrite !filter_app, E2.
  - apply Forall_cons in K1 as [A1 K1]. apply Forall_cons in W1 as [B1 W1].
    destruct (add_step c qc g Hc T s1 x I1 A1) as (b1 & n1 & U1 & J1 & _).
    destruct (add_sys x s1 b1 n1 U1) as (V1 & R1). pose proof (add_other c qc t Hk x _ _ Hx V1) as Sn.
    destruct (IH T n1 s2) as (s1' & o1 & a1 & s2' & o2 & a2 & M1 & M2 & E1 & E2 & E3); try done.
    { destruct Hs as [Hs Er]. split; [|congruence]. cbn in Sn.
      etransitivity; [symmetry; exact Sn|exact Hs]. }
    { exact (add_own c qc t Hk own _ _ _ O1 B1 V1). }
    eexists s1', o1, _, s2', o2, a2. cbn [mem_run mem_step].
    rewrite U1, !bind_Ok_l. cbn [fst snd]. rewrite M1, !bind_Ok_l. cbn [fst snd app].
    split_and!; try done. rewrite <- E2. unfold mine. rewrite filter_app.
    destruct b1; [by rewrite filter_cons_False by done|done].
  - apply Forall_cons in K2 as [A1 K2]. apply Forall_cons in W2 as [B1 W2].
    destruct (add_step c qc g Hc T s2 x I2 A1) as (b1 & n2 & U2 & J2 & _).
    destruct (add_sys x s2 b1 n2 U2) as (V2 & R2). pose proof (add_other c qc t Hk x _ _ Hx V2) as Sn.
    destruct (IH T s1 n2) as (s1' & o1 & a1 & s2' & o2 & a2 & M1 & M2 & E1 & E2 & E3); try done.
    { destruct Hs as [Hs Er]. split; [|congruence]. cbn in Sn. etransitivity; [exact Hs|exact Sn]. }
    { exact (add_own c qc t Hk own _ _ _ O2 B1 V2). }
    eexists s1', o1, a1, s2', o2, _. cbn [mem_run mem_step].
    rewrite U2, !bind_Ok_l. cbn [fst snd]. rewrite M2, !bind_Ok_l. cbn [fst snd app].
    split_and!; try done. rewrite E2. unfold mine. rewrite filter_app.
    destruct b1; [by rewrite filter_cons_False by done|done].
Qed.

End Turn.

(** C8. Isolation within a turn: take two memories that agree on everything but the
    waiting commands and transactions of threads other than [t], and a stretch of
    cycles in which it is [t]'s turn.  Whatever transactions the other threads send in
    the two runs, if [t] sends the same ones at the same cycles, then both runs return,
    [t] has the same transactions accepted and gets the same answers at the same
    cycles, and the memories still agree at the end.  The queues are those with turns
    and the low-power mode is off; no other thread uses an address of [t]. *)
Theorem turn_isolation (c : DramCfg) (qc : QCfg) (g : geometry) (t : Z) (own : Z -> bool)
    (T : Z) (s1 s2 : MemorySystem) (ops1 ops2 : list mem_op) :
  mem_cfg c qc g -> turn_based qc -> USE_LOW_POWER c = false -> 0 <= t < q_num_pids qc ->
  mem_inv c qc T s1 -> mem_inv c qc T s2 -> 0 <= T -> countable qc (T + ticks ops1) ->
  turn_start qc t <= phase qc T -> ticks ops1 <= turn_left qc t T ->
  Forall (op_ok qc) ops1 -> Forall (op_ok qc) ops2 ->
  Forall (own_op t own) ops1 -> Forall (own_op t own) ops2 ->
  sim_sys t s1 s2 -> own_inv t own (ms_mc s1) -> own_inv t own (ms_mc s2) ->
  obs_eq t ops1 ops2 ->
  exists s1' o1 a1 s2' o2 a2,
    mem_run c qc ops1 s1 = Ok (s1', o1, a1) /\ mem_run c qc ops2 s2 = Ok (s2', o2, a2) /\
    sees t o1 = sees t o2 /\ mine t a1 = mine t a2 /\ sim_sys t s1' s2'.
Proof.
  intros Hc Hk Hlow Ht I1 I2 HT Hcnt Hst Hleft K1 K2 W1 W2 Hs O1 O2 Hobs.
  by apply (turn_run c qc g t own Hc Hk Hlow Ht ops1 ops2 Hobs T).
Qed.

(** ** An example *)

(** Thread 0 reads in its first turn; in the second run thread 1 sends two writes. *)
Definition quiet_ops : list mem_op := MAdd (mkTransaction DATA_READ 0x12340 0 0) :: replicate 40 MTick.
Definition noisy_ops : list mem_op :=
  MAdd (mkTransaction DATA_WRITE 0x40 1 0) :: MAdd (mkTransaction DATA_READ 0x12340 0 0) ::
  MAdd (mkTransaction DATA_WRITE 0x80 1 0) :: replicate 40 MTick.
Definition demo_own (a : Z) : bool := a =? 0x12340.

Lemma turn_isolation_witness :
  exists s1 o1 a1 s2 o2 a2,
    mem_run ddr3 tp2 quiet_ops (MemorySystem_new ddr3 tp2 7) = Ok (s1, o1, a1) /\
    mem_run ddr3 tp2 noisy_ops (MemorySystem_new ddr3 tp2 7) = Ok (s2, o2, a2) /\
    sees 0 o1 = sees 0 o2 /\ mine 0 a1 = mine 0 a2 /\ sim_sys 0 s1 s2.
Proof.
  pose proof (mem_inv_new ddr3 tp2 ddr3_geometry ddr3_mem_cfg 7) as Hi.
  assert (Ho : own_inv 0 demo_own (ms_mc (MemorySystem_new ddr3 tp2 7))).
  { split; [done|]. intros j l Hj. cbn in Hj. apply (lookup_replicate_1 4) in Hj as [-> _]. done. }
  assert (Ht : forall x, trans_ok x -> 0 <= tr_threadID x < 2 -> op_ok tp2 (MAdd x)) by by intros.
  apply (turn_isolation ddr3 tp2 ddr3_geometry 0 demo_own 0 _ _ quiet_ops noisy_ops);
    try done; try exact ddr3_mem_cfg.
  - by left.
  - apply Forall_cons. split; [apply Ht; [split; [done|by left]|done]|by apply Forall_replicate].
  - apply Forall_cons. split; [apply Ht; [split; [done|by right]|done]|].
    apply Forall_cons. split; [apply Ht; [split; [done|by left]|done]|].
    apply Forall_cons. split; [apply Ht; [split; [done|by right]|done]|by apply Forall_replicate].
  - apply Forall_cons. split; [done|by apply Forall_replicate].
  - do 3 (apply Forall_cons; split; [done|]). by apply Forall_replicate.
  - apply OE_right; [done|]. apply OE_mine; [done|]. apply OE_right; [done|]. apply obs_eq_refl.
Defined.

(** The low-power mode is not isolated: a rank is powered down when the queues of all
    threads are empty, so that a waiting write of thread 1 decides when a read of
    thread 0 is answered. *)
Definition ddr3_low_power : DramCfg :=
  mkDramCfg 8 2 1 32768 1024 64 10 0 8 24 10 4 34 10 4 5 5 10 1 107 20 4 4 1
    1000 32 4 ClosePage RankThenBankRoundRobin Scheme2 PerRankPerThread true 5200 2600 2600.
Definition late_read : list mem_op :=
  replicate 3 MTick ++ MAdd (mkTransaction DATA_READ 0x12340 0 0) :: replicate 60 MTick.
Definition seen_by_0 (ops : list mem_op) : option (list MemOut) :=
  match mem_run ddr3_low_power tp2 ops (MemorySystem_new ddr3_low_power tp2 7) with
  | Ok (_, o, _) => Some (sees 0 o)
  | Err _ => None
  end.

Lemma low_power_leaks :
  seen_by_0 late_read = Some [] /\
  seen_by_0 (MAdd (mkTransaction DATA_WRITE 0x40 1 0) :: late_read) =
    Some [ReturnReadData 0x12340 29 0].
Proof. split; by vm_compute. Qed.
