(* ===== verification/DramWindow.v ===== *)
(** The window of four activates: however commands are queued, refreshes requested and
    banks change, with open or closed pages and in every queue class, no rank is sent
    more than four activates in any [tFAW] consecutive cycles.  The ranks do not check
    this themselves; it rests on the counters of the command queue alone. *)

From S2P Require Import Prelude DramTypes DramQueue DramQueueSpec DramTurns.

Section Window.

Context (c : DramCfg) (qc : QCfg).

(** * What a command that is sent has passed *)

(** The counters are as before, and an activate found fewer than four of them. *)
Definition sent_ok (q : CommandQueue) (p : BusPacket) : Prop :=
  bp_type p = ACTIVATE ->
  exists w, arr_get (cq_tFAW q) (bp_rank p) = Ok w /\ (length w < 4)%nat.

Definition picked (q : CommandQueue) (r : option BusPacket * CommandQueue) : Prop :=
  cq_tFAW r.2 = cq_tFAW q /\ forall p, r.1 = Some p -> sent_ok q p.

Definition found (q : CommandQueue) (r : option (BusPacket * CommandQueue)) : Prop :=
  forall p q', r = Some (p, q') -> cq_tFAW q' = cq_tFAW q /\ sent_ok q p.

Lemma issuable_sent bs q p : isIssuable c bs q p = Ok true -> sent_ok q p.
Proof.
  intros H Hp. unfold isIssuable in H. rewrite Hp in H. inv_ok. case_in H; [|done].
  inv_ok. eexists. split; [done|]. zb. lia.
Qed.

Lemma sent_other q p : bp_type p <> ACTIVATE -> sent_ok q p.
Proof. by intros H ?. Qed.

Lemma setCommandQueue_tFAW rank k l q q' :
  setCommandQueue c qc rank k l q = Ok q' -> cq_tFAW q' = cq_tFAW q.
Proof. unfold setCommandQueue, set_bankQueue. intros H. by inv_ok. Qed.

Lemma enqueue_tFAW p q q' : enqueue c qc p q = Ok q' -> cq_tFAW q' = cq_tFAW q.
Proof. unfold enqueue, set_bankQueue. intros H. inv_ok. case_in H; by inv_ok. Qed.

Lemma reset_rowAccess_tFAW rank bank q q' :
  reset_rowAccess rank bank q = Ok q' -> cq_tFAW q' = cq_tFAW q.
Proof. unfold reset_rowAccess. intros H. by inv_ok. Qed.

Lemma scan_passed ok l : forall prev p l', scan ok prev l = Ok (Some (p, l')) ->
  exists prev', ok prev' p = Ok true.
Proof.
  induction l as [|a l IH]; intros prev p l' H; cbn in H; [done|].
  inv_ok. destruct x; [inv_ok; eauto|]. inv_ok. destruct x as [[? ?]|]; [|done].
  simplify_eq. eauto.
Qed.

Lemma take_from_found ok rank k q r :
  (forall prev p, ok prev p = Ok true -> sent_ok q p) ->
  take_from c qc ok rank k q = Ok r -> found q r.
Proof.
  intros Hok H p q' ->. unfold take_from in H. inv_ok.
  destruct x0 as [[p0 l']|]; [|done]. inv_ok. simplify_eq.
  split; [by eapply setCommandQueue_tFAW|].
  apply scan_passed in Hx0 as [prev Hp]. eauto.
Qed.

Lemma base_sent bs q prev p : base_eligible c bs q prev p = Ok true -> sent_ok q p.
Proof.
  unfold base_eligible. intros H. inv_ok. destruct x; [|done]. by eapply issuable_sent.
Qed.
Lemma tp_sent bs q prev p : tp_eligible c qc bs q prev p = Ok true -> sent_ok q p.
Proof.
  unfold tp_eligible. intros H. inv_ok. destruct x; [|done]. by eapply issuable_sent.
Qed.
Lemma tpd_sent bs q prev p : tpd_eligible c qc bs q prev p = Ok true -> sent_ok q p.
Proof.
  unfold tpd_eligible. intros H. inv_ok. destruct x; [|done]. by eapply tp_sent.
Qed.
Lemma fa_last_sent bs q prev p : fa_eligible_last c bs q prev p = Ok true -> sent_ok q p.
Proof.
  unfold fa_eligible_last. intros H. inv_ok. destruct x; [|done]. by eapply issuable_sent.
Qed.
Lemma fa_sent bs q prev p : fa_eligible c qc bs q prev p = Ok true -> sent_ok q p.
Proof.
  unfold fa_eligible. intros H. inv_ok. destruct x; [|done]. by eapply issuable_sent.
Qed.

Lemma try_pos_found bs pid pos q r : try_pos c qc bs pid pos q = Ok r -> found q r.
Proof.
  intros H. unfold try_pos in H. destruct pos as [rank bank].
  destruct (rank_waits q rank); [destruct (q_kind qc); by inv_ok|].
  destruct (q_kind qc).
  - destruct (queuingStructure c); [eapply take_from_found; [apply base_sent|exact H]| |];
      inv_ok; (destruct x as [|p l']; inv_ok; [done|]);
      (destruct x; inv_ok; [|done]); intros ? ? [= <- <-];
      (split; [by eapply setCommandQueue_tFAW|by eapply issuable_sent]).
  - by eapply take_from_found; [apply tp_sent|].
  - by eapply take_from_found; [apply tpd_sent|].
  - inv_ok. destruct x as [[p q0]|]; inv_ok.
    + by eapply take_from_found; [apply fa_last_sent|].
    + by eapply take_from_found; [apply fa_sent|].
Qed.

(** The searches only move the position, which the counters do not depend on. *)
Lemma search_picked bs pid start fuel : forall q r,
  search c qc fuel bs pid start q = Ok r -> found q r.1 /\ cq_tFAW r.2 = cq_tFAW q.
Proof.
  induction fuel as [|fuel IH]; intros q r H; [done|]. cbn [search] in H.
  apply bind_Ok in H as (x & Hx & H). destruct x as [x|].
  - injection H as <-. split; [|done]. by eapply try_pos_found.
  - destruct (back_at _ _ _ _) in H; [by injection H as <-|]. by apply IH in H.
Qed.

Lemma normalPop_picked bs q r : normalPopClosePage c qc bs q = Ok r -> picked q r.
Proof.
  unfold normalPopClosePage. intros H. apply bind_Ok in H as (pid & Hpid & H).
  match type of H with context [search _ _ _ _ _ _ ?q1] =>
    assert (Hq1 : cq_tFAW q1 = cq_tFAW q) by (by repeat case_match); set (qs := q1) in H, Hq1 end.
  apply bind_Ok in H as ([o qe] & Hx & H). apply search_picked in Hx as [Hf Ht].
  destruct o as [[p q']|]; injection H as <-; [|by split; [rewrite <- Hq1|]].
  destruct (Hf p q' eq_refl) as [Hp Hs]. unfold sent_ok in Hs. rewrite Hq1 in Hp, Hs.
  split; [done|]. by intros ? [= <-].
Qed.

(** ** Refreshes *)

Lemma open_row_command_kind bs q b row l : forall p l',
  open_row_command c bs q b row l = Ok (Some (p, l')) -> bp_type p <> ACTIVATE.
Proof.
  induction l as [|a l IH]; intros p l' H; cbn in H; [done|].
  case_in H.
  - case_bool_decide; [done|]. inv_ok. destruct x; [by simplify_eq|done].
  - inv_ok. destruct x as [[? ?]|]; [|done]. simplify_eq. eauto.
Qed.

Lemma refresh_scan_kind bs pid banks q : forall p q',
  refresh_scan c qc bs pid banks q = Ok (NotYet (Some (p, q'))) ->
  cq_tFAW q' = cq_tFAW q /\ bp_type p <> ACTIVATE.
Proof.
  induction banks as [|b banks IH]; intros p q' H; cbn in H; [done|]. inv_ok.
  case_bool_decide.
  - inv_ok. destruct x1 as [[p1 l']|]; [|done]. inv_ok. simplify_eq.
    split; [by eapply setCommandQueue_tFAW|by eapply open_row_command_kind].
  - case_in H; [done|eauto].
Qed.

Lemma refreshPop_picked bs q r : refreshPopClosePage c qc bs q = Ok r -> picked q r.
Proof.
  unfold refreshPopClosePage. intros H. apply bind_Ok in H as (pid & Hpid & H). inv_ok.
  destruct x as [|[[p q']|]]; inv_ok.
  - case_bool_decide; inv_ok; [done|]. split; [done|].
    intros p [= <-]. by apply sent_other.
  - apply refresh_scan_kind in Hx as [Ht Hk]. split; [done|]. intros ? [= <-]. by apply sent_other.
  - done.
Qed.

Lemma open_row_search_kind bs q b row l : forall cl p l',
  open_row_search c bs q b row l = Ok (cl, Some (p, l')) -> bp_type p <> ACTIVATE.
Proof.
  induction l as [|a l IH]; intros cl p l' H; [done|].
  cbn [open_row_search] in H. destruct (_ && _) in H.
  - case_bool_decide; [done|]. inv_ok. destruct x; [by simplify_eq|done].
  - apply bind_Ok in H as ([cl' [[x rest]|]] & Hr & H); simplify_eq/=. eauto.
Qed.

Lemma refresh_scan_open_kind bs banks q : forall p q',
  refresh_scan_open c qc bs banks q = Ok (NotYet (Some (p, q'))) ->
  cq_tFAW q' = cq_tFAW q /\ bp_type p <> ACTIVATE.
Proof.
  induction banks as [|b banks IH]; intros p q' H; cbn in H; [done|]. inv_ok.
  case_bool_decide.
  - inv_ok. destruct o as [[p1 l']|]; inv_ok.
    + simplify_eq. split; [by eapply setCommandQueue_tFAW|by eapply open_row_search_kind].
    + case_in H; [|done]. inv_ok. simplify_eq. split; [by eapply reset_rowAccess_tFAW|done].
  - case_in H; [done|eauto].
Qed.

Lemma refreshPop_open_picked bs q r : refreshPop_open c qc bs q = Ok r -> picked q r.
Proof.
  unfold refreshPop_open. intros H. inv_ok. destruct x as [|[[p q']|]]; inv_ok.
  - case_bool_decide; inv_ok; [done|]. split; [done|]. intros p [= <-]. by apply sent_other.
  - apply refresh_scan_open_kind in Hx as [Ht Hk]. split; [done|].
    intros ? [= <-]. by apply sent_other.
  - done.
Qed.

(** ** Open pages *)

Lemma scan_open_passed bs q l : forall before p b a,
  scan_open c bs q before l = Ok (Some (p, b, a)) -> isIssuable c bs q p = Ok true.
Proof.
  induction l as [|x l IH]; intros before p b a H; cbn in H; [done|]. inv_ok.
  destruct x0; cbn in H; [|eauto]. case_in H; [by simplify_eq|eauto].
Qed.

Lemma take_open_found bs rank bank q r : take_open c qc bs rank bank q = Ok r -> found q r.
Proof.
  unfold take_open. intros H p q' ->. inv_ok. destruct x0 as [[[p0 b] a]|]; [|done].
  apply scan_open_passed, issuable_sent in Hx0.
  destruct b as [|y b]; [|case_bool_decide]; inv_ok; simplify_eq;
    (split; [|done]);
    match goal with Hs : setCommandQueue _ _ _ _ _ _ = Ok _ |- _ =>
      by apply setCommandQueue_tFAW in Hs end.
Qed.

Lemma search_open_picked bs start fuel : forall q r,
  search_open c qc fuel bs start q = Ok r -> found q r.1 /\ cq_tFAW r.2 = cq_tFAW q.
Proof.
  induction fuel as [|fuel IH]; intros q r H; [done|]. cbn [search_open] in H.
  apply bind_Ok in H as (x & Hx & H). destruct x as [x|].
  - injection H as <-. split; [|done]. case_in Hx; [done|]. by eapply take_open_found.
  - destruct (_ && _) in H; [by injection H as <-|]. by apply IH in H.
Qed.

Lemma search_PRE_picked bs start fuel : forall q r,
  search_PRE c qc fuel bs start q = Ok r -> picked q r.
Proof.
  induction fuel as [|fuel IH]; intros q r H; [done|]. cbn [search_PRE] in H.
  do 4 (apply bind_Ok in H as (? & ? & H)). case_in H.
  - inv_ok. split; [by eapply reset_rowAccess_tFAW|]. intros ? [= <-]. by apply sent_other.
  - case_in H; [by inv_ok|]. by apply IH in H.
Qed.

(** * The counters after [pop] *)

Definition counted (w : list (list Z)) (r : option BusPacket) (w' : list (list Z)) : Prop :=
  match r with
  | Some p =>
      if bool_decide (bp_type p = ACTIVATE) then
        exists x, arr_get w (bp_rank p) = Ok x /\ (length x < 4)%nat /\
          arr_set w (bp_rank p) (x ++ [tFAW c]) = Ok w'
      else w' = w
  | None => w' = w
  end.

Lemma pop_finish_counted p q q' : sent_ok q p -> pop_finish c p q = Ok q' ->
  counted (cq_tFAW q) (Some p) (cq_tFAW q').
Proof.
  intros Hs H. unfold pop_finish in H. cbv zeta in H.
  match type of H with context [arr_get (cq_tFAW ?x)] =>
    assert (Hq : cq_tFAW x = cq_tFAW q) by (by destruct (_ && _)); revert H Hq; generalize x end.
  intros q1 H Hq.
  unfold counted. case_bool_decide as Ht; [|inv_ok; done].
  destruct (Hs Ht) as (w & Hw & Hl). inv_ok.
  rewrite Hq in Hx, Hx0. exists w. split_and!; [done..|]. by replace w with x by congruence.
Qed.

Lemma finish_counted q (r : option BusPacket * CommandQueue) res q' :
  picked q r ->
  match r with
  | (None, q) => Ok (None, q)
  | (Some p, q) => q ← pop_finish c p q; Ok (Some p, q)
  end = Ok (res, q') ->
  counted (cq_tFAW q) res (cq_tFAW q').
Proof.
  intros [Ht Hs] H. destruct r as [[p|] q1]; cbn in Ht, Hs; [|by injection H as <- <-].
  inv_ok. rewrite <- Ht. apply pop_finish_counted; [|done].
  unfold sent_ok in *. rewrite Ht. by apply Hs.
Qed.

Lemma pop_counted bs q r q' : pop c qc bs q = Ok (r, q') ->
  counted (tick_tFAW <$> cq_tFAW q) r (cq_tFAW q').
Proof.
  intros H. unfold pop in H. destruct (rowBufferPolicy c).
  - unfold pop_open in H. apply bind_Ok in H as (r1 & H1 & H). apply bind_Ok in H as (r2 & H2 & H).
    set (q0 := with_cq_tFAW _ q) in *.
    refine (finish_counted q0 r2 r q' _ H). clear H.
    assert (P1 : picked q0 r1) by (case_in H1; [by eapply refreshPop_open_picked|by inv_ok]).
    destruct r1 as [[p|] q1]; [by inv_ok|]. destruct P1 as [Ht _]. cbn in Ht.
    apply bind_Ok in H2 as ([f qs] & Hf & H2). apply search_open_picked in Hf as [Hf Hfs].
    cbn in Hf, Hfs. destruct f as [[p q2]|].
    + destruct (Hf p q2 eq_refl) as [? Hs]. injection H2 as <-. split; [cbn; congruence|].
      intros ? [= <-]. unfold sent_ok in *. by rewrite Ht in Hs.
    + apply search_PRE_picked in H2 as [Ht2 Hs2]. split; [by rewrite Ht2, Hfs, Ht|].
      intros p Hp. specialize (Hs2 p Hp). unfold sent_ok in *. by rewrite Hfs, Ht in Hs2.
  - unfold pop_close in H. apply bind_Ok in H as (r1 & H1 & H). apply bind_Ok in H as (r2 & H2 & H).
    set (q0 := with_cq_tFAW _ q) in *.
    refine (finish_counted q0 r2 r q' _ H). clear H.
    assert (P1 : picked q0 r1) by (case_in H1; [by eapply refreshPop_picked|by inv_ok]).
    destruct r1 as [[p|] q1]; [by inv_ok|]. destruct P1 as [Ht _]. cbn in Ht.
    apply normalPop_picked in H2 as [Ht2 Hs2]. split; [by rewrite Ht2, Ht|].
    intros p Hp. specialize (Hs2 p Hp). unfold sent_ok in *. by rewrite Ht in Hs2.
Qed.

(** * Runs *)

(** What the controller does to its command queue: commands come in, a rank falls due
    for a refresh, and once a cycle a command is popped, for any state of the banks. *)
Inductive dq_op :=
  | QEnqueue (p : BusPacket)
  | QNeedRefresh (rank : Z)
  | QCycle (bs : BankTable).

(** The commands sent, one entry per cycle. *)
Fixpoint dq_run (ops : list dq_op) (q : CommandQueue)
    : result (CommandQueue * list (option BusPacket)) :=
  match ops with
  | [] => Ok (q, [])
  | QEnqueue p :: ops' => q ← enqueue c qc p q; dq_run ops' q
  | QNeedRefresh rank :: ops' => dq_run ops' (needRefresh rank q)
  | QCycle bs :: ops' =>
      r ← pop c qc bs q;
      s ← dq_run ops' (with_cq_clock (cq_clock r.2 + 1) r.2);
      Ok (s.1, r.1 :: s.2)
  end.

Definition is_act (rank : Z) (o : option BusPacket) : bool :=
  match o with
  | Some p => bool_decide (bp_type p = ACTIVATE) && (bp_rank p =? rank)
  | None => false
  end.

Definition acts (rank : Z) (l : list (option BusPacket)) : nat :=
  length (filter (fun o => is_act rank o = true) l).

Lemma acts_cons rank o l : acts rank (o :: l) = ((if is_act rank o then 1 else 0) + acts rank l)%nat.
Proof. unfold acts. rewrite filter_cons. by destruct (is_act rank o); case_decide. Qed.
Lemma acts_app rank l1 l2 : acts rank (l1 ++ l2) = (acts rank l1 + acts rank l2)%nat.
Proof. unfold acts. by rewrite filter_app, length_app. Qed.
Lemma acts_rev rank l : acts rank (rev l) = acts rank l.
Proof. induction l as [|o l IH]; [done|]. cbn [rev]. rewrite acts_app, IH, !acts_cons. cbn. lia. Qed.

Lemma acts_take_le rank l : forall n m, (n <= m)%nat -> (acts rank (take n l) <= acts rank (take m l))%nat.
Proof.
  induction l as [|o l IH]; intros n m Hnm; [by rewrite !take_nil|].
  destruct n as [|n]; [apply Nat.le_0_l|]. destruct m as [|m]; [lia|].
  cbn [take]. rewrite !acts_cons. specialize (IH n m ltac:(lia)). lia.
Qed.

(** The counters of a rank, from what was sent in the past, the last cycle first. *)
Fixpoint window (rank k : Z) (past : list (option BusPacket)) : list Z :=
  match past with
  | [] => []
  | o :: past' =>
      window rank (k + 1) past' ++ if is_act rank o && (k <? tFAW c) then [tFAW c - k] else []
  end.

Lemma window_over rank past : forall k, tFAW c <= k -> window rank k past = [].
Proof.
  induction past as [|o past IH]; intros k Hk; [done|]. cbn. rewrite IH by lia.
  destruct (Z.ltb_spec k (tFAW c)); [lia|]. by rewrite andb_false_r.
Qed.

Lemma window_length rank past : forall k, 0 <= k ->
  length (window rank k past) = acts rank (take (Z.to_nat (tFAW c - k)) past).
Proof.
  induction past as [|o past IH]; intros k Hk; [by rewrite take_nil|].
  destruct (Z.ltb_spec k (tFAW c)).
  - cbn [window]. rewrite length_app, IH by lia.
    replace (Z.to_nat (tFAW c - k)) with (S (Z.to_nat (tFAW c - (k + 1)))) by lia.
    cbn [take]. rewrite acts_cons. destruct (Z.ltb_spec k (tFAW c)); [|lia].
    destruct (is_act rank o); cbn; lia.
  - rewrite window_over by lia. by replace (Z.to_nat (tFAW c - k)) with 0%nat by lia.
Qed.

Context (Hfaw : 0 < tFAW c < 2 ^ 32).

Lemma tick_snoc l x : 1 <= x < 2 ^ 32 -> (x = 1 -> l = []) ->
  tick_tFAW (l ++ [x]) = tick_tFAW l ++ if x =? 1 then [] else [x - 1].
Proof.
  intros Hx H1. unfold tick_tFAW. rewrite fmap_app. cbn [fmap list_fmap].
  rewrite (u32_small (x - 1)) by lia. destruct (Z.eqb_spec x 1) as [->|Hne].
  - by rewrite H1.
  - destruct l as [|y l]; cbn [fmap list_fmap app]; [by destruct (x - 1) eqn:?; [lia|..]|].
    by destruct (u32 (y - 1)).
Qed.

Lemma tick_window rank past : forall k, 0 <= k ->
  tick_tFAW (window rank k past) = window rank (k + 1) past.
Proof.
  induction past as [|o past IH]; intros k Hk; [done|]. cbn [window].
  destruct (is_act rank o && (k <? tFAW c)) eqn:E.
  - apply andb_true_iff in E as [Ha Ek]. zb. rewrite tick_snoc.
    + rewrite IH by lia. f_equal. rewrite Ha. cbn [andb].
      destruct (Z.eqb_spec (tFAW c - k) 1), (Z.ltb_spec (k + 1) (tFAW c)); try lia; [done|].
      f_equal. lia.
    + lia.
    + intros ?. apply window_over. lia.
  - rewrite app_nil_r, IH by lia. replace (is_act rank o && (k + 1 <? tFAW c)) with false;
      [by rewrite app_nil_r|]. symmetry. apply andb_false_iff in E as [->|E]; [done|].
    apply andb_false_iff. right. zb. apply Z.ltb_ge. lia.
Qed.

(** The counters tell the past, and no stretch of [tFAW] past cycles has more than four
    activates. *)
Record window_inv (past : list (option BusPacket)) (q : CommandQueue) : Prop := {
  wi_counters : forall r w, cq_tFAW q !! r = Some w -> w = window (Z.of_nat r) 0 past;
  wi_bound : forall rank i, (acts rank (take (Z.to_nat (tFAW c)) (drop i past)) <= 4)%nat
}.

Lemma window_quiet rank o past : is_act rank o = false ->
  window rank 0 (o :: past) = window rank 1 past.
Proof. intros H. cbn [window]. by rewrite H, app_nil_r. Qed.

Lemma acts_step rank o past :
  (is_act rank o = true -> (length (window rank 1 past) < 4)%nat) ->
  (forall i, (acts rank (take (Z.to_nat (tFAW c)) (drop i past)) <= 4)%nat) ->
  forall i, (acts rank (take (Z.to_nat (tFAW c)) (drop i (o :: past))) <= 4)%nat.
Proof.
  intros Ho Hp [|i]; [|apply Hp]. cbn [drop].
  replace (Z.to_nat (tFAW c)) with (S (Z.to_nat (tFAW c - 1))) by lia. cbn [take].
  rewrite acts_cons. destruct (is_act rank o).
  - specialize (Ho eq_refl). rewrite window_length in Ho by lia. lia.
  - specialize (Hp 0%nat). cbn [drop] in Hp. etrans; [|exact Hp].
    apply acts_take_le. lia.
Qed.

Lemma counted_rank (w w' : list (list Z)) o rank : counted w o w' ->
  (is_act rank o = false /\ forall r, Z.of_nat r = rank -> w' !! r = w !! r) \/
  (is_act rank o = true /\ exists x, arr_get w rank = Ok x /\ (length x < 4)%nat /\
     arr_set w rank (x ++ [tFAW c]) = Ok w').
Proof.
  intros Hc. destruct o as [p|]; cbn in *; [|by left; rewrite Hc].
  case_bool_decide; cbn; [|by left; rewrite Hc].
  destruct Hc as (x & Hx & Hl & Hs). destruct (Z.eqb_spec (bp_rank p) rank) as [<-|Hne]; [right; eauto|].
  left. split; [done|]. intros r <-. apply arr_set_Ok in Hs as [Hi ->].
  apply list_lookup_insert_ne. lia.
Qed.

Lemma window_step past q q' o :
  window_inv past q -> counted (tick_tFAW <$> cq_tFAW q) o (cq_tFAW q') ->
  window_inv (o :: past) q'.
Proof.
  intros [Hw Hb] Hc.
  assert (Ht : forall r w, (tick_tFAW <$> cq_tFAW q) !! r = Some w -> w = window (Z.of_nat r) 1 past).
  { intros r w. rewrite list_lookup_fmap. intros (w0 & H0 & ->)%fmap_Some.
    rewrite (Hw _ _ H0). by apply tick_window. }
  split.
  - intros r w Hr. destruct (counted_rank _ _ _ (Z.of_nat r) Hc) as [[Hn He]|(Ha & x & Hx & _ & Hs)].
    + rewrite window_quiet by done. apply Ht. by rewrite <- He.
    + apply arr_set_Ok in Hs as [Hi Hs]. rewrite Hs, Nat2Z.id in Hr.
      rewrite list_lookup_insert_eq in Hr by lia. simplify_eq. apply arr_get_Ok in Hx as [_ Hx].
      rewrite Nat2Z.id in Hx. rewrite (Ht _ _ Hx). cbn [window]. rewrite Ha.
      destruct (Z.ltb_spec 0 (tFAW c)); [|lia]. by rewrite Z.sub_0_r.
  - intros rank. apply acts_step; [|apply Hb]. intros Ha.
    destruct (counted_rank _ _ _ rank Hc) as [[Hn _]|(_ & x & Hx & Hl & _)]; [congruence|].
    apply arr_get_Ok in Hx as [Hr Hx]. rewrite (Ht _ _ Hx), Z2Nat.id in Hl by lia. done.
Qed.

Lemma dq_run_window ops : forall past q q' tr,
  window_inv past q -> dq_run ops q = Ok (q', tr) -> window_inv (rev tr ++ past) q'.
Proof.
  induction ops as [|[p|rank|bs] ops IH]; intros past q q' tr Hi H; cbn [dq_run] in H.
  - by injection H as <- <-.
  - apply bind_Ok in H as (q1 & H1 & H). apply (IH _ q1); [|done].
    destruct Hi. split; [|done]. by rewrite (enqueue_tFAW _ _ _ H1).
  - apply (IH past) in H; [done|]. destruct Hi. by split.
  - apply bind_Ok in H as ([o q1] & H1 & H). apply bind_Ok in H as ([q2 tr2] & H2 & H).
    injection H as <- <-. cbn in *. apply pop_counted in H1.
    rewrite <- app_assoc. apply (IH (o :: past)) in H2; [done|].
    eapply window_step in Hi; [|exact H1]. destruct Hi. by split.
Qed.

Lemma new_window lastPID : window_inv [] (CommandQueue_new c qc lastPID).
Proof.
  split; cbn.
  - intros r w Hr. by apply lookup_replicate in Hr as [-> _].
  - intros. by rewrite drop_nil, take_nil; cbn; lia.
Qed.

(** A stretch of the trace, seen from its end. *)
Lemma acts_stretch rank n (tr : list (option BusPacket)) :
  (forall i, (acts rank (take n (drop i (rev tr))) <= 4)%nat) ->
  forall i, (acts rank (take n (drop i tr)) <= 4)%nat.
Proof.
  intros H i.
  assert (E : exists pre rest, tr = pre ++ take n (drop i tr) ++ rest).
  { exists (take i tr), (drop n (drop i tr)). by rewrite !take_drop. }
  assert (Hl : (length (take n (drop i tr)) <= n)%nat) by (rewrite length_take; lia).
  revert E Hl. generalize (take n (drop i tr)). intros seg (pre & rest & ->) Hl.
  specialize (H (length rest)). rewrite !rev_app_distr, <- !app_assoc in H.
  rewrite drop_app_length' in H by (by rewrite length_rev).
  rewrite take_app, acts_app, take_ge, acts_rev in H by (by rewrite length_rev). lia.
Qed.

End Window.

(** C14. Never more than four activates in a window: in any run of a command queue, of any
    class, with open or closed pages, over any states of the banks, any [tFAW]
    consecutive cycles send at most four activates to a rank. *)
Theorem four_activate_window (c : DramCfg) (qc : QCfg) (lastPID : Z) (ops : list dq_op)
    (q : CommandQueue) (tr : list (option BusPacket)) (rank : Z) (start : nat) :
  0 < tFAW c < 2 ^ 32 ->
  dq_run c qc ops (CommandQueue_new c qc lastPID) = Ok (q, tr) ->
  (acts rank (take (Z.to_nat (tFAW c)) (drop start tr)) <= 4)%nat.
Proof.
  intros Hf H. apply acts_stretch. intros i.
  apply (dq_run_window c qc Hf ops []) in H; [|apply new_window].
  rewrite app_nil_r in H. apply H.
Qed.

(** Six activates to banks of one rank, ready at once: four go out in the first four
    cycles, the fifth 20 cycles after the first. *)
Definition tpd2 : QCfg := mkQCfg Q_TPD 2 7 false 0 0 0.
Definition burst : list dq_op :=
  ((fun b => QEnqueue (BusPacket_new ACTIVATE (64 * b) 0 3 0 b 0)) <$> zrange 6) ++
  replicate 24 (QCycle closed_banks).

Lemma four_activate_window_witness :
  exists q tr, dq_run ddr3 tpd2 burst (CommandQueue_new ddr3 tpd2 0) = Ok (q, tr) /\
    is_act 0 <$> tr = replicate 4 true ++ replicate 16 false ++ [true; true; false; false] /\
    (acts 0 (take 20 (drop 1 tr)) <= 4)%nat.
Proof.
  destruct (dq_run ddr3 tpd2 burst (CommandQueue_new ddr3 tpd2 0)) as [[q tr]|] eqn:E;
    [|by vm_compute in E].
  exists q, tr. split; [done|]. split; [vm_compute in E; by injection E as _ <-|].
  assert (Hf : 0 < tFAW ddr3 < 2 ^ 32) by (cbn; lia).
  pose proof (four_activate_window ddr3 tpd2 0 burst q tr 0 1 Hf E) as H. exact H.
Defined.
