(* ===== verification/Memory.v ===== *)
(** The memories of the simulator: mem/abstract_mem.cc (contents, load-locked
    reservations, atomic and functional accesses), the simple timing port of
    mem/tport.cc and the fixed-latency memory of mem/simple_mem.cc.

    The host memory is a list of bytes, or none for a memory without contents
    ([null]).  A memory keeps a queue of responses ([PacketQueue]); the packets that
    wait to be deleted are kept since functional checks and later calls see them.
    The counters of the statistics are left out. *)

From S2P Require Import Prelude Request MemCmd Packet PacketQueue PortMap CacheAccess PacketSpec.

(** * [AbstractMemory] *)

Record LockedAddr := mkLockedAddr { la_addr : Z; la_contextId : Z }.

#[global] Instance LockedAddr_eq_dec : EqDecision LockedAddr.
Proof. solve_decision. Defined.

Definition Addr_Mask : Z := 0xf.
Definition LockedAddr_mask (paddr : Z) : Z := Z.ldiff paddr Addr_Mask.

Definition matchesContext (r : Request) (l : LockedAddr) : result bool :=
  ctx ← contextId r; Ok (la_contextId l =? ctx).

Definition LockedAddr_new (r : Request) : result LockedAddr :=
  a ← getPaddr r; ctx ← contextId r; Ok (mkLockedAddr (LockedAddr_mask a) ctx).

Record AbstractMemory := mkAbstractMemory {
  am_range : Range;
  am_pmem : option (list Z);
  am_locked : list LockedAddr
}.

Definition with_am_pmem (v : option (list Z)) (m : AbstractMemory) : AbstractMemory :=
  mkAbstractMemory (am_range m) v (am_locked m).
Definition with_am_locked (v : list LockedAddr) (m : AbstractMemory) : AbstractMemory :=
  mkAbstractMemory (am_range m) (am_pmem m) v.

Definition Range_size (r : Range) : Z := u64 (r_end r - r_start r + 1).

(** The constructor, for a memory that is not backed by a file. *)
Definition AbstractMemory_new (range : Range) (PageBytes : Z) (null : bool)
    : result AbstractMemory :=
  if negb (Range_size range mod PageBytes =? 0) then Err Panic else
  Ok (mkAbstractMemory range
        (if null then None else Some (replicate (Z.to_nat (Range_size range)) 0)) []).

(** [trackLoadLocked]: a context has one record, which moves to the new address. *)
Fixpoint move_lock (r : Request) (paddr : Z) (l : list LockedAddr)
    : result (option (list LockedAddr)) :=
  match l with
  | [] => Ok None
  | x :: l' =>
      b ← matchesContext r x;
      if (b : bool) then Ok (Some (mkLockedAddr paddr (la_contextId x) :: l')) else
      o ← move_lock r paddr l';
      Ok match o with Some l'' => Some (x :: l'') | None => None end
  end.

Definition mem_trackLoadLocked (h : ReqHeap) (pkt : Packet) (m : AbstractMemory)
    : result AbstractMemory :=
  r ← req_deref h (pkt_req pkt);
  a ← getPaddr r;
  o ← move_lock r (LockedAddr_mask a) (am_locked m);
  match o with
  | Some l => Ok (with_am_locked l m)
  | None => x ← LockedAddr_new r; Ok (with_am_locked (x :: am_locked m) m)
  end.

(** [checkLockedAddrList]: the search of a store conditional, and the removal of the
    records of the address. *)
Fixpoint has_lock (r : Request) (paddr : Z) (l : list LockedAddr) : result bool :=
  match l with
  | [] => Ok false
  | x :: l' =>
      if la_addr x =? paddr then
        b ← matchesContext r x; if (b : bool) then Ok true else has_lock r paddr l'
      else has_lock r paddr l'
  end.

Definition drop_locks (paddr : Z) (l : list LockedAddr) : list LockedAddr :=
  filter (fun x => la_addr x <> paddr) l.

Definition checkLockedAddrList (h : ReqHeap) (pkt : Packet) (m : AbstractMemory)
    : result (bool * ReqHeap * AbstractMemory) :=
  r ← req_deref h (pkt_req pkt);
  a ← getPaddr r;
  let paddr := LockedAddr_mask a in
  s ← (if isLLSC pkt then
         ok ← has_lock r paddr (am_locked m);
         h ← req_update h (pkt_req pkt) (setExtraData (if (ok : bool) then 1 else 0));
         Ok (ok, h)
       else Ok (true, h));
  Ok (s.1, s.2,
      if (s.1 : bool) then with_am_locked (drop_locks paddr (am_locked m)) m else m).

Definition writeOK (h : ReqHeap) (pkt : Packet) (m : AbstractMemory)
    : result (bool * ReqHeap * AbstractMemory) :=
  match am_locked m with
  | [] =>
      if isLLSC pkt then
        h ← req_update h (pkt_req pkt) (setExtraData 0); Ok (false, h, m)
      else Ok (true, h, m)
  | _ => checkLockedAddrList h pkt m
  end.

(** The bounds that [access] and [mem_functionalAccess] assert, and the offset of the
    packet in the host memory. *)
Definition mem_offset (pkt : Packet) (m : AbstractMemory) : result Z :=
  a ← getAddr pkt; n ← getSize pkt;
  cassert ((r_start (am_range m) <=? a) && (u64 (a + n - 1) <=? r_end (am_range m))) ;;
  Ok (a - r_start (am_range m)).

Definition mem_read (off : Z) (pkt : Packet) (m : AbstractMemory) : result Packet :=
  match am_pmem m with Some d => setData d off pkt | None => Ok pkt end.
Definition mem_write (off : Z) (pkt : Packet) (m : AbstractMemory) : result AbstractMemory :=
  match am_pmem m with
  | Some d => d' ← writeData d off pkt; Ok (with_am_pmem (Some d') m)
  | None => Ok m
  end.

(** The swap of [access]; a register of the simulated machine has 8 bytes. *)
Definition mem_swap (off : Z) (h : ReqHeap) (pkt : Packet) (m : AbstractMemory)
    : result (Packet * AbstractMemory) :=
  match am_pmem m with
  | None => Err Panic
  | Some d =>
      n ← getSize pkt;
      cassert (n <=? 8) ;;
      overwrite_val ← writeData (replicate 8 0) 0 pkt;
      pkt ← setData d off pkt;
      r ← req_deref h (pkt_req pkt);
      overwrite_mem ← swap_condition r n off d;
      m ← (if (overwrite_mem : bool) then
             d' ← memcpy d off overwrite_val 0 n; Ok (with_am_pmem (Some d') m)
           else Ok m);
      cassert (negb (isInstFetch r)) ;;
      Ok (pkt, m)
  end.

Definition mem_access (h : ReqHeap) (pkt : Packet) (m : AbstractMemory)
    : result (ReqHeap * Packet * AbstractMemory) :=
  off ← mem_offset pkt m;
  if memInhibitAsserted pkt then Ok (h, pkt, m) else
  s ← (if cmd_is pkt SwapReq then
         s ← mem_swap off h pkt m; Ok (h, s.1, s.2)
       else if isRead pkt then
         cassert (negb (isWrite pkt)) ;;
         m ← (if isLLSC pkt then mem_trackLoadLocked h pkt m else Ok m);
         pkt ← mem_read off pkt m;
         _ ← req_deref h (pkt_req pkt);
         Ok (h, pkt, m)
       else if isWrite pkt then
         w ← writeOK h pkt m;
         let '(ok, h, m) := w in
         if (ok : bool) then
           m ← mem_write off pkt m;
           r ← req_deref h (pkt_req pkt);
           cassert (negb (isInstFetch r)) ;;
           Ok (h, pkt, m)
         else Ok (h, pkt, m)
       else if isInvalidate pkt then Ok (h, pkt, m)
       else Err Panic);
  let '(h, pkt, m) := s in
  if needsResponse pkt then pkt ← makeResponse pkt; Ok (h, pkt, m) else Ok (h, pkt, m).

(** A print request shows the byte at its address. *)
Definition mem_functionalAccess (pkt : Packet) (m : AbstractMemory)
    : result (Packet * AbstractMemory) :=
  off ← mem_offset pkt m;
  if isRead pkt then
    pkt ← mem_read off pkt m; pkt ← makeResponse pkt; Ok (pkt, m)
  else if isWrite pkt then
    m ← mem_write off pkt m; pkt ← makeResponse pkt; Ok (pkt, m)
  else if isPrint pkt then
    cassert (match pkt_senderState pkt with SS_PrintReq => true | _ => false end) ;;
    d ← of_option NullDeref (am_pmem m); _ ← arr_get d off; Ok (pkt, m)
  else Err Panic.

(** * [SimpleMemory] and its port *)

Inductive SimState := Running | Draining | Drained.

Record SimpleMemory := mkSimpleMemory {
  sm_mem : AbstractMemory;
  sm_queue : PacketQueue;
  sm_pendingDelete : list Packet;
  sm_lat : Z;
  sm_lat_var : Z;
  sm_state : SimState
}.

Definition with_sm_mem (v : AbstractMemory) (s : SimpleMemory) : SimpleMemory :=
  mkSimpleMemory v (sm_queue s) (sm_pendingDelete s) (sm_lat s) (sm_lat_var s) (sm_state s).
Definition with_sm_queue (v : PacketQueue) (s : SimpleMemory) : SimpleMemory :=
  mkSimpleMemory (sm_mem s) v (sm_pendingDelete s) (sm_lat s) (sm_lat_var s) (sm_state s).
Definition with_sm_pendingDelete (v : list Packet) (s : SimpleMemory) : SimpleMemory :=
  mkSimpleMemory (sm_mem s) (sm_queue s) v (sm_lat s) (sm_lat_var s) (sm_state s).
Definition with_sm_state (v : SimState) (s : SimpleMemory) : SimpleMemory :=
  mkSimpleMemory (sm_mem s) (sm_queue s) (sm_pendingDelete s) (sm_lat s) (sm_lat_var s) v.

(** [calculateLatency]; [rnd] is what the random generator returns between 0 and
    [lat_var]. *)
Definition calculateLatency (lat lat_var rnd : Z) (pkt : Packet) : Z :=
  if memInhibitAsserted pkt then 0
  else if negb (lat_var =? 0) then u64 (lat + rnd) else lat.

Definition doAtomicAccess (rnd : Z) (h : ReqHeap) (pkt : Packet) (s : SimpleMemory)
    : result (Z * ReqHeap * Packet * SimpleMemory) :=
  x ← mem_access h pkt (sm_mem s);
  let '(h, pkt, m) := x in
  Ok (calculateLatency (sm_lat s) (sm_lat_var s) rnd pkt, h, pkt, with_sm_mem m s).

(** [SimpleTimingPort::recvTimingReq], over [recvAtomic] of the memory. *)
Definition sm_recvTimingReq (curTick rnd : Z) (h : ReqHeap) (pkt : Packet) (s : SimpleMemory)
    : result (bool * ReqHeap * SimpleMemory) :=
  let s := with_sm_pendingDelete [] s in
  if memInhibitAsserted pkt then Ok (true, h, s) else
  let needs := needsResponse pkt in
  x ← doAtomicAccess rnd h pkt s;
  let '(latency, h, pkt, s) := x in
  if (needs : bool) then
    cassert (isResponse pkt) ;;
    q ← schedSendTiming curTick pkt (u64 (curTick + latency)) false (sm_queue s);
    Ok (true, h, with_sm_queue q s)
  else Ok (true, h, with_sm_pendingDelete (sm_pendingDelete s ++ [pkt]) s).

(** [MemoryPort::recvFunctional]: the queued responses first, then the memory. *)
Definition sm_recvFunctional (pkt : Packet) (s : SimpleMemory)
    : result (Packet * SimpleMemory) :=
  x ← PacketQueue_checkFunctional pkt (sm_queue s);
  let '(found, pkt, q) := x in
  let s := with_sm_queue q s in
  if (found : bool) then Ok (pkt, s) else
  y ← mem_functionalAccess pkt (sm_mem s); Ok (y.1, with_sm_mem y.2 s).

Definition SimpleMemory_drain (de : Z) (s : SimpleMemory) : Z * SimpleMemory :=
  let '(q, count) := PacketQueue_drain de (sm_queue s) in
  (count, with_sm_state (if negb (count =? 0) then Draining else Drained) (with_sm_queue q s)).

(** * Theorems

    The memory of mem/abstract_mem.cc against an abstract one: a function from
    addresses to bytes and, for every context, the line it has reserved.
    [spec_access] says what the code does: a store takes from all contexts the line of
    its request's address, a swap takes none.  [meant_access] says what load-locked
    and store-conditional mean: whatever writes a byte of a line takes the line.  The
    two agree where every write stays within what the code clears
    ([memory_refines_spec]); where it does not, they part
    ([swap_keeps_reservation], [wide_write_keeps_reservation]). *)

(** * The abstract memory *)

Record MemSpec := mkMemSpec { sp_bytes : Z -> Z; sp_resv : gmap Z Z }.

Definition spec_load (a n : Z) (s : MemSpec) : list Z := sp_bytes s <$> seqZ a n.
Definition spec_store (a n : Z) (v : list Z) (s : MemSpec) : Z -> Z :=
  fun x => if decide (a <= x < a + n) then v !!! Z.to_nat (x - a) else sp_bytes s x.

(** Whether a swap of [n] bytes writes, given what the memory holds. *)
Definition spec_swaps (r : Request) (n : Z) (old : list Z) : bool :=
  if isCondSwap r then bool_decide (le_bytes (Z.to_nat n) (_extraData r mod 2 ^ (8 * n)) = old)
  else true.

Definition line_of (r : Request) : Z := LockedAddr_mask (_paddr r).

Definition is_sc (pkt : Packet) : bool :=
  negb (cmd_is pkt SwapReq) && negb (isRead pkt) && isWrite pkt && isLLSC pkt.

(** What an access does, the bytes it leaves in the packet, and whether a
    store-conditional succeeds. *)
Definition spec_access (pkt : Packet) (r : Request) (s : MemSpec) : MemSpec * list Z * bool :=
  let a := pkt_addr pkt in
  let n := pkt_size pkt in
  let d := default [] (pkt_data pkt) in
  let old := spec_load a n s in
  if cmd_is pkt SwapReq then
    (mkMemSpec (if spec_swaps r n old then spec_store a n d s else sp_bytes s) (sp_resv s), old, true)
  else if isRead pkt then
    (mkMemSpec (sp_bytes s)
       (if isLLSC pkt then <[_contextId r := line_of r]> (sp_resv s) else sp_resv s), old, true)
  else if isWrite pkt then
    if negb (isLLSC pkt) || bool_decide (sp_resv s !! _contextId r = Some (line_of r))
    then (mkMemSpec (spec_store a n d s) (filter (fun '(_, l) => l <> line_of r) (sp_resv s)),
          take (Z.to_nat n) d, true)
    else (s, take (Z.to_nat n) d, false)
  else (s, take (Z.to_nat n) d, true).

(** What it is meant to do.  [n] bytes from [a] overlap the 16-byte line [l]. *)
Definition touches (a n l : Z) : bool := (a <? l + 16) && (l <? a + n).

Definition drop_touched (a n : Z) (resv : gmap Z Z) : gmap Z Z :=
  filter (fun '(_, l) => touches a n l = false) resv.

(** Every write takes the lines it touches from all contexts: a store, a
    store-conditional that succeeds, a swap that writes. *)
Definition meant_access (pkt : Packet) (r : Request) (s : MemSpec) : MemSpec * list Z * bool :=
  let a := pkt_addr pkt in
  let n := pkt_size pkt in
  let d := default [] (pkt_data pkt) in
  let old := spec_load a n s in
  let written := mkMemSpec (spec_store a n d s) (drop_touched a n (sp_resv s)) in
  if cmd_is pkt SwapReq then (if spec_swaps r n old then written else s, old, true)
  else if isRead pkt then
    (if isLLSC pkt then mkMemSpec (sp_bytes s) (<[_contextId r := line_of r]> (sp_resv s)) else s, old, true)
  else if isWrite pkt then
    if negb (isLLSC pkt) || bool_decide (sp_resv s !! _contextId r = Some (line_of r))
    then (written, take (Z.to_nat n) d, true)
    else (s, take (Z.to_nat n) d, false)
  else (s, take (Z.to_nat n) d, true).

(** The accesses whose writes the code accounts for: a swap that writes touches no
    reserved line, and of the reserved lines a store touches exactly that of its
    request's address. *)
Definition orderly (pkt : Packet) (r : Request) (s : MemSpec) : bool :=
  let touched := touches (pkt_addr pkt) (pkt_size pkt) in
  if cmd_is pkt SwapReq then
    negb (spec_swaps r (pkt_size pkt) (spec_load (pkt_addr pkt) (pkt_size pkt) s)) ||
    bool_decide (map_Forall (fun _ l => touched l = false) (sp_resv s))
  else if negb (isRead pkt) && isWrite pkt then
    bool_decide (map_Forall (fun _ l => touched l = bool_decide (l = line_of r)) (sp_resv s))
  else true.

Lemma drop_touched_none a n resv :
  map_Forall (fun _ l => touches a n l = false) resv -> drop_touched a n resv = resv.
Proof. intros H. apply map_filter_id. exact H. Qed.

Lemma drop_touched_line a n line (resv : gmap Z Z) :
  map_Forall (fun _ l => touches a n l = bool_decide (l = line)) resv ->
  drop_touched a n resv = filter (fun '(_, l) => l <> line) resv.
Proof.
  intros H. unfold drop_touched. apply map_filter_strong_ext_1. intros ctx l.
  split; intros [Hl E]; (split; [|done]); specialize (H ctx l E); cbn in *; rewrite H in *.
  - by apply bool_decide_eq_false in Hl.
  - by apply bool_decide_eq_false.
Qed.

Lemma orderly_meant pkt r s : orderly pkt r s = true -> spec_access pkt r s = meant_access pkt r s.
Proof.
  unfold orderly, spec_access, meant_access. destruct s as [f resv]. cbn [sp_bytes sp_resv].
  destruct (cmd_is pkt SwapReq).
  - destruct (spec_swaps _ _ _); cbn [negb orb]; [|done]. intros H%bool_decide_eq_true.
    by rewrite drop_touched_none.
  - destruct (isRead pkt); cbn [negb andb]; [by destruct (isLLSC pkt)|].
    destruct (isWrite pkt); [|done]. intros H%bool_decide_eq_true. by rewrite (drop_touched_line _ _ (line_of r)).
Qed.

(** * The relation *)

Lemma Range_size_exact r : 0 <= r_start r <= r_end r -> r_end r < 2 ^ 64 - 1 ->
  Range_size r = r_end r - r_start r + 1.
Proof. intros. unfold Range_size, u64. apply Z.mod_small. lia. Qed.

Definition locks_rel (l : list LockedAddr) (resv : gmap Z Z) : Prop :=
  NoDup (la_contextId <$> l) /\ forall ctx a, resv !! ctx = Some a <-> mkLockedAddr a ctx ∈ l.

Definition bytes_rel (start : Z) (d : list Z) (f : Z -> Z) : Prop :=
  forall i v, d !! i = Some v -> v = f (start + Z.of_nat i).

Record mem_rel (m : AbstractMemory) (s : MemSpec) : Prop := {
  mr_range : 0 <= r_start (am_range m) <= r_end (am_range m) /\ r_end (am_range m) < 2 ^ 64 - 1;
  mr_bytes : exists d, am_pmem m = Some d /\
    Z.of_nat (length d) = Range_size (am_range m) /\ bytes_rel (r_start (am_range m)) d (sp_bytes s);
  mr_locks : locks_rel (am_locked m) (sp_resv s)
}.

(** A packet for this memory: it carries its bytes, its request has an address and a
    context, it lies in the range, and it asks for something a memory does. *)
Record mem_pkt (range : Range) (pkt : Packet) (r : Request) : Prop := {
  mp_data : exists d, carries pkt (pkt_addr pkt) (pkt_size pkt) d;
  mp_size : 0 < pkt_size pkt;
  mp_range : r_start range <= pkt_addr pkt /\ pkt_addr pkt + pkt_size pkt - 1 <= r_end range;
  mp_paddr : hasPaddr r = true;
  mp_ctx : hasContextId r = true;
  mp_kind : cmd_is pkt SwapReq = true \/ (isRead pkt = true /\ isWrite pkt = false) \/
    isRead pkt = false /\ (isWrite pkt = true \/ isInvalidate pkt = true);
  mp_fetch : isRead pkt = false \/ cmd_is pkt SwapReq = true -> isInstFetch r = false;
  mp_swap : cmd_is pkt SwapReq = true -> pkt_size pkt <= 8 /\
    (isCondSwap r = true ->
     (pkt_size pkt = 4 \/ pkt_size pkt = 8) /\ extraDataValid r = true /\ 0 <= _extraData r < 2 ^ 64);
  mp_request : needsResponse pkt = true -> isRequest pkt = true;
  mp_inhibit : memInhibitAsserted pkt = false
}.

(** * Reservations *)

Lemma getPaddr_ok r : hasPaddr r = true -> getPaddr r = Ok (_paddr r).
Proof. unfold hasPaddr, getPaddr. by intros ->. Qed.
Lemma contextId_ok r : hasContextId r = true -> contextId r = Ok (_contextId r).
Proof. unfold hasContextId, contextId. by intros ->. Qed.

Lemma move_lock_spec r a l : hasContextId r = true -> NoDup (la_contextId <$> l) ->
  (_contextId r ∉ la_contextId <$> l /\ move_lock r a l = Ok None) \/
  exists l', move_lock r a l = Ok (Some l') /\ la_contextId <$> l' = la_contextId <$> l /\
    forall x, x ∈ l' <-> (x = mkLockedAddr a (_contextId r) \/
                          (x ∈ l /\ la_contextId x <> _contextId r)).
Proof.
  intros Hc. induction l as [|x l IH]; intros Hd; [left; split; [apply not_elem_of_nil|done]|].
  cbn in Hd. apply NoDup_cons in Hd as [Hx Hd]. cbn [move_lock].
  unfold matchesContext. rewrite contextId_ok by done. cbn.
  destruct (Z.eqb_spec (la_contextId x) (_contextId r)) as [E|E].
  - right. eexists. split; [done|]. cbn. split; [done|]. intros y. rewrite !elem_of_cons. split.
    + intros [->|Hy]; [left; congruence|]. right. split; [by right|]. intros Hc'. apply Hx.
      apply list_elem_of_fmap. exists y. split; [congruence|done].
    + intros [->|[[->|Hy] Hne]]; [left; congruence|done|by right].
  - destruct (IH Hd) as [[Hn ->]|(l' & -> & Hl & Hin)]; cbn.
    + left. split; [|done]. rewrite elem_of_cons. intros [?|?]; [congruence|done].
    + right. eexists. split; [done|]. cbn. rewrite Hl. split; [done|]. intros y.
      rewrite !elem_of_cons, Hin. naive_solver.
Qed.

Lemma track_rel h pkt m r resv : h !! pkt_req pkt = Some r ->
  hasPaddr r = true -> hasContextId r = true -> locks_rel (am_locked m) resv ->
  exists l, mem_trackLoadLocked h pkt m = Ok (with_am_locked l m) /\
    locks_rel l (<[_contextId r := line_of r]> resv).
Proof.
  intros Hr Hp Hc [Hd Hl]. unfold mem_trackLoadLocked, req_deref. rewrite Hr. cbn [of_option].
  rewrite bind_Ok_l, getPaddr_ok, bind_Ok_l by done. fold (line_of r).
  destruct (move_lock_spec r (line_of r) (am_locked m) Hc Hd) as [[Hn ->]|(l' & -> & Hl' & Hin)];
    rewrite bind_Ok_l.
  - unfold LockedAddr_new. rewrite getPaddr_ok, contextId_ok by done. cbn. eexists. split; [done|].
    split; cbn; [by apply NoDup_cons|]. intros ctx a. rewrite lookup_insert_Some, elem_of_cons, Hl.
    split; [intros [[<- <-]|[? ?]]; [by left|by right]|].
    intros [[= -> ->]|H]; [by left|]. right. split; [|done]. intros <-. apply Hn.
    exact (list_elem_of_fmap_2 la_contextId _ _ H).
  - eexists. split; [done|]. split; [by rewrite Hl'|]. intros ctx a.
    rewrite lookup_insert_Some, Hin, Hl. split.
    + intros [[<- <-]|[Hne H]]; [by left|right; split; [done|by cbn]].
    + intros [[= -> ->]|[H Hne]]; [by left|]. right. by split; [cbn in Hne|].
Qed.

Lemma has_lock_spec r a l : hasContextId r = true ->
  has_lock r a l = Ok (bool_decide (mkLockedAddr a (_contextId r) ∈ l)).
Proof.
  intros Hc. induction l as [|[la lc] l IH]; [by rewrite bool_decide_false by apply not_elem_of_nil|].
  cbn [has_lock la_addr]. destruct (Z.eqb_spec la a) as [->|Hne].
  - unfold matchesContext. rewrite contextId_ok by done. cbn.
    destruct (Z.eqb_spec lc (_contextId r)) as [->|Hne]; [by rewrite bool_decide_true by (by left)|].
    rewrite IH. f_equal. apply bool_decide_ext. rewrite elem_of_cons. naive_solver.
  - rewrite IH. f_equal. apply bool_decide_ext. rewrite elem_of_cons. naive_solver.
Qed.

Lemma drop_locks_rel a l resv : locks_rel l resv ->
  locks_rel (drop_locks a l) (filter (fun '(_, l) => l <> a) resv).
Proof.
  intros [Hd Hl]. split.
  - unfold drop_locks. apply (sublist_NoDup _ _ Hd). apply fmap_sublist, sublist_filter.
  - intros ctx b. unfold drop_locks. rewrite map_lookup_filter_Some, list_elem_of_filter, Hl. cbn. naive_solver.
Qed.

(** [writeOK] on both of its paths. *)
Lemma writeOK_rel h pkt m r resv : h !! pkt_req pkt = Some r ->
  hasPaddr r = true -> hasContextId r = true -> locks_rel (am_locked m) resv ->
  let ok := negb (isLLSC pkt) || bool_decide (resv !! _contextId r = Some (line_of r)) in
  exists l, writeOK h pkt m =
      Ok (ok, if isLLSC pkt then <[pkt_req pkt := setExtraData (if ok then 1 else 0) r]> h else h,
          with_am_locked l m) /\
    locks_rel l (if ok then filter (fun '(_, l) => l <> line_of r) resv else resv).
Proof.
  intros Hr Hp Hc Hl ok. assert (Hm : with_am_locked (am_locked m) m = m) by (by destruct m).
  assert (Hu : forall f, req_update h (pkt_req pkt) f = Ok (<[pkt_req pkt := f r]> h))
    by (intros f; unfold req_update, req_deref; by rewrite Hr).
  assert (He : bool_decide (resv !! _contextId r = Some (line_of r)) =
               bool_decide (mkLockedAddr (line_of r) (_contextId r) ∈ am_locked m))
    by (apply bool_decide_ext, Hl).
  pose proof (drop_locks_rel (line_of r) _ _ Hl) as Hdrop.
  unfold writeOK. destruct (am_locked m) as [|x locks] eqn:El.
  - exists []. rewrite Hm. subst ok. rewrite He, bool_decide_false by apply not_elem_of_nil.
    rewrite orb_false_r. destruct (isLLSC pkt); cbn; [by rewrite Hu|done].
  - unfold checkLockedAddrList, req_deref. rewrite Hr. cbn [of_option].
    rewrite bind_Ok_l, getPaddr_ok, bind_Ok_l by done. fold (line_of r). rewrite El.
    subst ok. rewrite He. destruct (isLLSC pkt).
    + rewrite has_lock_spec, bind_Ok_l, Hu, bind_Ok_l by done. cbn [negb orb fst snd]. clear He.
      rewrite bind_Ok_l. cbn [fst snd]. destruct (bool_decide _); [eexists; split; [done|exact Hdrop]|]. exists (x :: locks). by rewrite Hm.
    + eexists. split; [done|exact Hdrop].
Qed.

(** * Bytes *)

Lemma spec_load_length a n s : length (spec_load a n s) = Z.to_nat n.
Proof. unfold spec_load. by rewrite length_fmap, length_seqZ. Qed.

Lemma spec_load_lookup a n s i : (i < Z.to_nat n)%nat ->
  spec_load a n s !! i = Some (sp_bytes s (a + Z.of_nat i)).
Proof.
  intros Hi. unfold spec_load. rewrite list_lookup_fmap, lookup_seqZ_lt by lia. done.
Qed.

Section Bytes.

Context (start a n : Z) (d : list Z) (s : MemSpec).
Context (Hb : bytes_rel start d (sp_bytes s)).
Context (Hr : start <= a) (Hn : 0 < n) (He : a - start + n <= Z.of_nat (length d)).

Lemma segment_load : take (Z.to_nat n) (drop (Z.to_nat (a - start)) d) = spec_load a n s.
Proof.
  apply list_eq. intros i. destruct (decide (i < Z.to_nat n)%nat) as [Hi|Hi].
  - rewrite lookup_take_lt, lookup_drop, spec_load_lookup by done.
    destruct (lookup_lt_is_Some_2 d (Z.to_nat (a - start) + i)) as [v Hv]; [lia|].
    rewrite Hv. f_equal. rewrite (Hb _ _ Hv). f_equal. lia.
  - rewrite lookup_take_ge by lia. symmetry. apply lookup_ge_None_2. rewrite spec_load_length. lia.
Qed.

Lemma read_bytes pd : n <= Z.of_nat (length pd) ->
  memcpy pd 0 d (a - start) n = Ok (spec_load a n s ++ drop (Z.to_nat n) pd).
Proof.
  intros Hp. unfold memcpy. rewrite decide_True by lia. by rewrite segment_load.
Qed.

Lemma write_bytes v : n <= Z.of_nat (length v) ->
  exists d', memcpy d (a - start) v 0 n = Ok d' /\ length d' = length d /\
    forall v', take (Z.to_nat n) v' = take (Z.to_nat n) v ->
      bytes_rel start d' (spec_store a n v' s).
Proof.
  intros Hv. destruct (memcpy_total d (a - start) v 0 n) as [d' Hd']; [lia..|].
  exists d'. split; [done|]. destruct (memcpy_lookup _ _ _ _ _ _ Hd') as (Hl & _ & _ & _ & _ & _ & Hg).
  split; [done|]. intros v' Ev i x Hx. rewrite Hg in Hx. unfold spec_store.
  case_decide as Hi; case_decide as Hi'; try lia; [|by apply Hb].
  symmetry. apply list_lookup_total_correct.
  rewrite <- (lookup_take_lt v' (Z.to_nat n)), Ev, lookup_take_lt by lia.
  rewrite <- Hx. f_equal. lia.
Qed.

End Bytes.

(** * One access *)

Definition reply (p : Packet) : Packet :=
  if needsResponse p then
    clearSrc (with_pkt_dest (pkt_src p) (pkt_clear EXPRESS_SNOOP
      (with_pkt_cmd (responseCommand (pkt_cmd p)) (with_pkt_origCmd (pkt_cmd p) p))))
  else p.

Lemma reply_eq {A B} (h : A) (m : B) p : (needsResponse p = true -> isRequest p = true) ->
  (if needsResponse p then p ← makeResponse p; Ok (h, p, m) else Ok (h, p, m)) = Ok (h, reply p, m).
Proof.
  intros H. unfold reply, makeResponse. destruct (needsResponse p); [|done].
  by rewrite (H eq_refl).
Qed.

Lemma reply_data p : pkt_data (reply p) = pkt_data p.
Proof. unfold reply. by case_match. Qed.
Lemma reply_req p : pkt_req (reply p) = pkt_req p.
Proof. unfold reply. by case_match. Qed.

(** The packet with the bytes of the memory in it. *)
Definition loaded (bytes : list Z) (p : Packet) : Packet :=
  with_pkt_data (Some (bytes ++ drop (length bytes) (default [] (pkt_data p)))) p.

Section Access.

Context (h : ReqHeap) (pkt : Packet) (m : AbstractMemory) (s : MemSpec) (r : Request).
Context (Hm : mem_rel m s) (Hreq : h !! pkt_req pkt = Some r) (Hp : mem_pkt (am_range m) pkt r).

Let a := pkt_addr pkt.
Let n := pkt_size pkt.
Let off := a - r_start (am_range m).

Lemma mem_offset_ok : mem_offset pkt m = Ok off.
Proof.
  destruct Hp as [[d [Ha Hn _ _ _]] Hs [H1 H2] _ _ _ _ _ _ _].
  destruct Hm as [[Hr1 Hr2] _ _]. unfold mem_offset. rewrite Ha, Hn, !bind_Ok_l.
  rewrite u64_small by lia. rewrite cassert_true; [done|].
  apply andb_true_iff. split; apply Z.leb_le; lia.
Qed.

Lemma pkt_bytes : exists pd, pkt_data pkt = Some pd /\ getPtr pkt = Ok pd /\ n <= Z.of_nat (length pd).
Proof.
  destruct (mp_data _ _ _ Hp) as [pd [_ _ Hd Hl _]]. exists pd. split_and!; try done.
  unfold getPtr in Hd. by inv_ok.
Qed.

Lemma pkt_size_ok : getSize pkt = Ok n.
Proof. by destruct (mp_data _ _ _ Hp) as [pd [_ Hs _ _ _]]. Qed.

(** The host memory, and that the packet lies in it. *)
Lemma host_bytes : exists d, am_pmem m = Some d /\ bytes_rel (r_start (am_range m)) d (sp_bytes s) /\
  Z.of_nat (length d) = Range_size (am_range m) /\
  r_start (am_range m) <= a /\ 0 < n /\ off + n <= Z.of_nat (length d).
Proof.
  destruct (mr_bytes _ _ Hm) as (d & Hd & Hl & Hb). exists d. destruct Hp as [_ Hs [H1 H2] _ _ _ _ _ _ _].
  split_and!; try done. destruct (mr_range _ _ Hm). rewrite Hl, Range_size_exact by done.
  unfold off, a, n. lia.
Qed.

Lemma mem_read_ok m' : am_pmem m' = am_pmem m ->
  mem_read off pkt m' = Ok (loaded (spec_load a n s) pkt).
Proof.
  intros Em. destruct host_bytes as (d & Hd & Hb & Hl & H1 & Hn & H2).
  destruct pkt_bytes as (pd & Hpd & Hptr & Hlen). unfold mem_read. rewrite Em, Hd.
  unfold setData. rewrite Hptr, pkt_size_ok, !bind_Ok_l. unfold off.
  rewrite (read_bytes _ _ _ _ _ Hb H1 Hn H2 pd Hlen), bind_Ok_l.
  unfold loaded. by rewrite Hpd, spec_load_length.
Qed.

Lemma mem_write_ok m' : am_pmem m' = am_pmem m ->
  exists d', mem_write off pkt m' = Ok (with_am_pmem (Some d') m') /\
    Z.of_nat (length d') = Range_size (am_range m) /\
    bytes_rel (r_start (am_range m)) d' (spec_store a n (default [] (pkt_data pkt)) s).
Proof.
  intros Em. destruct host_bytes as (d & Hd & Hb & Hl & H1 & Hn & H2).
  destruct pkt_bytes as (pd & Hpd & Hptr & Hlen). unfold mem_write. rewrite Em, Hd.
  unfold writeData. rewrite Hptr, pkt_size_ok, !bind_Ok_l.
  destruct (write_bytes _ _ _ _ _ Hb H1 Hn H2 pd Hlen) as (d' & Hw & Hl' & Hb').
  exists d'. unfold off. rewrite Hw, Hpd. split_and!; [done|lia|by apply Hb'].
Qed.

Lemma swap_condition_ok d : am_pmem m = Some d -> cmd_is pkt SwapReq = true ->
  swap_condition r n off d = Ok (spec_swaps r n (spec_load a n s)).
Proof.
  intros Hd Hk. destruct host_bytes as (d0 & Hd0 & Hb & Hl & H1 & Hn & H2). simplify_eq.
  destruct (mp_swap _ _ _ Hp Hk) as [_ Hc]. unfold swap_condition, spec_swaps.
  destruct (isCondSwap r); [|done]. destruct (Hc eq_refl) as (Hs & Hx & _).
  unfold getExtraData. unfold extraDataValid in Hx. rewrite Hx. cbn [cassert mbind result_bind].
  fold n in Hs. pose proof (segment_load _ _ _ _ _ Hb H1 Hn H2) as Hseg. fold off in Hseg.
  assert (Hm2 : forall bs, length bs = Z.to_nat n -> memcmp_eq bs d off n =
    Ok (bool_decide (bs = spec_load a n s))).
  { intros bs Hbs. unfold memcmp_eq. rewrite decide_True by (unfold off; lia).
    by rewrite Hseg, take_ge by lia. }
  destruct Hs as [Hs|Hs]; rewrite Hs in *; cbn [Z.eqb Pos.eqb]; rewrite Hm2 by done; done.
Qed.

Lemma mem_swap_ok : cmd_is pkt SwapReq = true ->
  exists m', mem_swap off h pkt m = Ok (loaded (spec_load a n s) pkt, m') /\
    am_range m' = am_range m /\ mem_rel m' (spec_access pkt r s).1.1.
Proof.
  intros Hk. destruct host_bytes as (d & Hd & Hb & Hl & H1 & Hn & H2).
  destruct pkt_bytes as (pd & Hpd & Hptr & Hlen). destruct (mp_swap _ _ _ Hp Hk) as [H8 _]. fold n in H8.
  unfold mem_swap. rewrite Hd, pkt_size_ok, bind_Ok_l, cassert_leb, bind_Ok_l by done.
  unfold writeData. rewrite Hptr, pkt_size_ok, !bind_Ok_l.
  destruct (memcpy_total (replicate 8 0) 0 pd 0 n) as [ov Hov]; [cbn; lia..|].
  destruct (memcpy_lookup _ _ _ _ _ _ Hov) as (Hlo & _ & _ & _ & _ & _ & Hgo). rewrite Hov, bind_Ok_l.
  pose proof (mem_read_ok m eq_refl) as Hread. unfold mem_read in Hread. rewrite Hd in Hread.
  rewrite Hread, bind_Ok_l. unfold req_deref. cbn [pkt_req loaded with_pkt_data]. rewrite Hreq. cbn [of_option].
  rewrite bind_Ok_l, swap_condition_ok, bind_Ok_l by done.
  destruct (write_bytes _ _ _ _ _ Hb H1 Hn H2 ov) as (d' & Hw & Hl' & Hb'); [rewrite Hlo; cbn; lia|].
  assert (Ht : take (Z.to_nat n) pd = take (Z.to_nat n) ov).
  { apply list_eq. intros i. destruct (decide (i < Z.to_nat n)%nat) as [Hi|Hi];
      [|by rewrite !lookup_take_ge by lia].
    rewrite !lookup_take_lt, Hgo, decide_True by lia. f_equal. lia. }
  destruct Hm as [Hr _ Hlk]. fold off in Hw. unfold spec_access. rewrite Hk, Hpd. fold a n.
  destruct (spec_swaps r n (spec_load a n s)); cbn [fst].
  - rewrite Hw, !bind_Ok_l. rewrite (mp_fetch _ _ _ Hp) by (by right). eexists. split; [done|].
    split; [done|]. split; [done| |done]. exists d'. split_and!; [done|cbn; lia|by apply Hb'].
  - rewrite !bind_Ok_l. rewrite (mp_fetch _ _ _ Hp) by (by right). eexists. split; [done|].
    split; [done|]. split; [done| |done]. by exists d.
Qed.

Lemma loaded_bytes bytes : length bytes = Z.to_nat n ->
  take (Z.to_nat n) (default [] (pkt_data (reply (loaded bytes pkt)))) = bytes.
Proof. intros H. rewrite reply_data. cbn. by rewrite take_app_length' by done. Qed.

(** The access: what it returns and what it leaves in the memory are those of the
    abstract one. *)
Definition access_result (res : result (ReqHeap * Packet * AbstractMemory))
    (o : MemSpec * list Z * bool) : Prop :=
  let '(s', out, ok) := o in
  exists pkt' m', res =
      Ok (if is_sc pkt then <[pkt_req pkt := setExtraData (if ok then 1 else 0) r]> h else h, pkt', m') /\
    am_range m' = am_range m /\ mem_rel m' s' /\
    take (Z.to_nat n) (default [] (pkt_data pkt')) = out /\ pkt_req pkt' = pkt_req pkt /\
    (needsResponse pkt = true -> isResponse pkt' = true).

Lemma reply_response p : pkt_cmd p = pkt_cmd pkt -> needsResponse pkt = true ->
  isResponse (reply p) = true.
Proof.
  intros E H. unfold reply, needsResponse, isResponse in *. rewrite E, H. cbn.
  revert H. by destruct (pkt_cmd pkt).
Qed.

Lemma read_access : cmd_is pkt SwapReq = false -> isRead pkt = true -> isWrite pkt = false ->
  access_result (mem_access h pkt m) (spec_access pkt r s).
Proof.
  intros Hk Hrd Hwr. unfold access_result, mem_access, spec_access, is_sc.
  rewrite mem_offset_ok, bind_Ok_l, (mp_inhibit _ _ _ Hp), Hk, Hrd, Hwr. cbn [negb andb].
  change (cassert true) with (Ok tt). rewrite bind_Ok_l. fold a n.
  assert (Ht : exists m', (if isLLSC pkt then mem_trackLoadLocked h pkt m else Ok m) = Ok m' /\
    am_range m' = am_range m /\ am_pmem m' = am_pmem m /\
    mem_rel m' (mkMemSpec (sp_bytes s) (if isLLSC pkt then <[_contextId r:=line_of r]> (sp_resv s)
                                        else sp_resv s))).
  { destruct Hm as [Hr Hb Hl]. destruct (isLLSC pkt); [|by exists m].
    destruct (track_rel h pkt m r _ Hreq (mp_paddr _ _ _ Hp) (mp_ctx _ _ _ Hp) Hl) as (l & -> & Hl').
    eexists. by split_and!. }
  destruct Ht as (m' & -> & Hmr & Hmp & Hrel). rewrite bind_Ok_l, mem_read_ok, bind_Ok_l by done.
  unfold req_deref. cbn [pkt_req loaded with_pkt_data]. rewrite Hreq. cbn [of_option].
  rewrite !bind_Ok_l, reply_eq by apply (mp_request _ _ _ Hp).
  eexists _, _. split; [done|]. split_and!; try done.
  - apply loaded_bytes, spec_load_length.
  - by rewrite reply_req.
  - by apply reply_response.
Qed.

Lemma write_access : cmd_is pkt SwapReq = false -> isRead pkt = false -> isWrite pkt = true ->
  access_result (mem_access h pkt m) (spec_access pkt r s).
Proof.
  intros Hk Hrd Hwr. unfold access_result, mem_access, spec_access, is_sc.
  rewrite mem_offset_ok, bind_Ok_l, (mp_inhibit _ _ _ Hp), Hk, Hrd, Hwr. cbn [negb andb].
  destruct Hm as [Hr Hb Hl]. destruct pkt_bytes as (pd & Hpd & Hptr & Hlen).
  destruct (writeOK_rel h pkt m r _ Hreq (mp_paddr _ _ _ Hp) (mp_ctx _ _ _ Hp) Hl) as (l & Hw & Hl').
  rewrite Hw, bind_Ok_l. cbn zeta in Hl' |- *. fold a n.
  set (ok := negb (isLLSC pkt) || _) in *.
  set (h' := if isLLSC pkt then _ else h).
  assert (Hh' : exists r', h' !! pkt_req pkt = Some r' /\ isInstFetch r' = isInstFetch r).
  { unfold h'. destruct (isLLSC pkt); [|by exists r]. rewrite lookup_insert_eq. by eexists. }
  assert (Htake : take (Z.to_nat n) (default [] (pkt_data (reply pkt))) =
                  take (Z.to_nat n) (default [] (pkt_data pkt))) by (by rewrite reply_data).
  destruct ok.
  - destruct (mem_write_ok (with_am_locked l m) eq_refl) as (d' & -> & Hl1 & Hb').
    destruct Hh' as (r' & Hr' & Hf). unfold req_deref. rewrite bind_Ok_l, Hr'. cbn [of_option].
    rewrite bind_Ok_l, Hf, (mp_fetch _ _ _ Hp) by (by left). cbn [negb]. change (cassert true) with (Ok tt).
    rewrite !bind_Ok_l, reply_eq by apply (mp_request _ _ _ Hp).
    eexists _, _. split; [done|]. split_and!; try done; [|by rewrite reply_req|by apply reply_response].
    split; cbn; [done| |done]. by exists d'.
  - rewrite bind_Ok_l, reply_eq by apply (mp_request _ _ _ Hp).
    eexists _, _. split; [done|]. split_and!; try done; [by rewrite reply_req|by apply reply_response].
Qed.

Lemma mem_access_ok : access_result (mem_access h pkt m) (spec_access pkt r s).
Proof.
  destruct (cmd_is pkt SwapReq) eqn:Hk.
  - destruct (mem_swap_ok Hk) as (m' & Hs & Hr & Hrel). unfold access_result, mem_access, is_sc.
    rewrite mem_offset_ok, bind_Ok_l, (mp_inhibit _ _ _ Hp), Hk, Hs. cbn [negb andb].
    unfold spec_access in Hrel |- *. rewrite Hk in Hrel |- *. fold a n in Hrel |- *.
    rewrite !bind_Ok_l. cbn [fst snd] in *. rewrite reply_eq by apply (mp_request _ _ _ Hp).
    eexists _, _. split; [done|]. split_and!; try done; [|by rewrite reply_req|by apply reply_response].
    apply loaded_bytes, spec_load_length.
  - destruct (mp_kind _ _ _ Hp) as [?|[[? ?]|[Hrd [Hwr|Hin]]]]; [congruence|by apply read_access|by apply write_access|].
    destruct (isWrite pkt) eqn:Hwr; [by apply write_access|].
    unfold access_result, mem_access, spec_access, is_sc.
    rewrite mem_offset_ok, bind_Ok_l, (mp_inhibit _ _ _ Hp), Hk, Hrd, Hwr, Hin. cbn [negb andb].
    rewrite bind_Ok_l, reply_eq by apply (mp_request _ _ _ Hp).
    eexists _, _. split; [done|]. split_and!; try done; [by rewrite reply_data|by rewrite reply_req|by apply reply_response].
Qed.

End Access.

(** * Any sequence of accesses *)

(** The bytes each access leaves in its packet, and whether the store-conditionals
    among them succeeded, as their requests say. *)
Fixpoint mem_accesses (pkts : list Packet) (h : ReqHeap) (m : AbstractMemory)
    : result (list (list Z * bool)) :=
  match pkts with
  | [] => Ok []
  | pkt :: pkts' =>
      x ← mem_access h pkt m;
      let '(h, pkt', m) := x in
      r ← req_deref h (pkt_req pkt);
      l ← mem_accesses pkts' h m;
      Ok ((take (Z.to_nat (pkt_size pkt)) (default [] (pkt_data pkt')),
           if is_sc pkt then _extraData r =? 1 else true) :: l)
  end.

Fixpoint spec_accesses (pkts : list (Packet * Request)) (s : MemSpec) : list (list Z * bool) :=
  match pkts with
  | [] => []
  | (pkt, r) :: pkts' =>
      let '(s', out, ok) := spec_access pkt r s in (out, ok) :: spec_accesses pkts' s'
  end.

Fixpoint meant_accesses (pkts : list (Packet * Request)) (s : MemSpec) : list (list Z * bool) :=
  match pkts with
  | [] => []
  | (pkt, r) :: pkts' =>
      let '(s', out, ok) := meant_access pkt r s in (out, ok) :: meant_accesses pkts' s'
  end.

(** Along the run of the memory that is meant. *)
Fixpoint orderly_run (pkts : list (Packet * Request)) (s : MemSpec) : bool :=
  match pkts with
  | [] => true
  | (pkt, r) :: pkts' => orderly pkt r s && orderly_run pkts' (meant_access pkt r s).1.1
  end.

Lemma orderly_run_meant pkts : forall s, orderly_run pkts s = true -> spec_accesses pkts s = meant_accesses pkts s.
Proof.
  induction pkts as [|[pkt r] pkts IH]; intros s H; [done|]. cbn in *. apply andb_true_iff in H as [H1 H2].
  rewrite orderly_meant by done. destruct (meant_access pkt r s) as [[s' out] ok]. by rewrite IH.
Qed.

Lemma spec_access_sc pkt r s : is_sc pkt = false -> (spec_access pkt r s).2 = true.
Proof.
  unfold is_sc, spec_access. destruct (cmd_is pkt SwapReq); [done|]. destruct (isRead pkt); [done|].
  destruct (isWrite pkt); [|done]. by destruct (isLLSC pkt).
Qed.

Lemma mem_accesses_rel pkts : forall h m s,
  mem_rel m s -> NoDup ((fun x => pkt_req x.1) <$> pkts) ->
  Forall (fun x => h !! pkt_req x.1 = Some x.2 /\ mem_pkt (am_range m) x.1 x.2) pkts ->
  mem_accesses pkts.*1 h m = Ok (spec_accesses pkts s).
Proof.
  induction pkts as [|[pkt r] pkts IH]; intros h m s Hm Hd Hall; [done|].
  apply Forall_cons in Hall as [[Hreq Hp] Hall]. cbn in Hd. apply NoDup_cons in Hd as [Hn Hd].
  pose proof (mem_access_ok h pkt m s r Hm Hreq Hp) as Ha.
  pose proof (spec_access_sc pkt r s) as Hsc.
  cbn [mem_accesses spec_accesses fmap list_fmap]. change ((pkt, r).1) with pkt in *.
  unfold access_result in Ha. destruct (spec_access pkt r s) as [[s' out] ok].
  destruct Ha as (pkt' & m' & -> & Hr' & Hm' & Hout & _ & _). rewrite bind_Ok_l.
  set (h' := if is_sc pkt then _ else h).
  assert (Hh : h' !! pkt_req pkt = Some (if is_sc pkt then setExtraData (if ok then 1 else 0) r else r))
    by (unfold h'; destruct (is_sc pkt); [by rewrite lookup_insert_eq|done]).
  unfold req_deref. rewrite Hh. cbn [of_option]. rewrite bind_Ok_l.
  rewrite (IH h' m' s'); [|done..|].
  - rewrite bind_Ok_l, Hout. do 3 f_equal. cbn in Hsc. destruct (is_sc pkt); [by destruct ok|].
    by rewrite Hsc.
  - rewrite Hr'. apply Forall_forall. intros [p2 r2] Hin. rewrite Forall_forall in Hall.
    destruct (Hall _ Hin) as [H1 H2]. split; [|done]. unfold h'. destruct (is_sc pkt); [|done].
    rewrite lookup_insert_ne; [done|]. intros E. apply Hn. cbn in E. rewrite E.
    exact (list_elem_of_fmap_2 (fun x => pkt_req x.1) _ _ Hin).
Qed.

Lemma new_mem_rel range PageBytes m : 0 <= r_start range <= r_end range -> r_end range < 2 ^ 64 - 1 ->
  AbstractMemory_new range PageBytes false = Ok m -> mem_rel m (mkMemSpec (fun _ => 0) ∅) /\ am_range m = range.
Proof.
  intros H1 H2 H. unfold AbstractMemory_new in H. case_in H; [done|]. inv_ok. split; [|done].
  split; cbn; [done| |].
  - eexists. split_and!; [done| |].
    + rewrite length_replicate, Range_size_exact by done. lia.
    + intros i v Hv. by apply lookup_replicate in Hv as [-> _].
  - split; [apply NoDup_nil_2|]. intros ctx a. rewrite lookup_empty.
    split; [done|]. intros []%not_elem_of_nil.
Qed.

(** C15. A memory is its bytes and its reservations.  On a new memory, any sequence of
    reads, writes, load-locked, store-conditional and swap packets within its range
    runs without a fault and gives what is meant: every read and swap returns the
    bytes last written to its addresses (zeros if none were), and a store-conditional
    succeeds exactly when its context's last load-locked was to the same 16-byte line
    and nothing has been written to that line since, by a store, a store-conditional
    or a swap.  The writes must be such that the code accounts for them: no swap
    writes to a reserved line, and the reserved lines a store touches are those of
    its request's address (the code clears that one line for a store and none for a
    swap, and is wrong otherwise: see the findings). *)
Theorem memory_refines_spec (range : Range) (PageBytes : Z) (m : AbstractMemory) (h : ReqHeap)
    (pkts : list (Packet * Request)) :
  0 <= r_start range <= r_end range -> r_end range < 2 ^ 64 - 1 ->
  AbstractMemory_new range PageBytes false = Ok m ->
  NoDup ((fun x => pkt_req x.1) <$> pkts) ->
  Forall (fun x => h !! pkt_req x.1 = Some x.2 /\ mem_pkt range x.1 x.2) pkts ->
  orderly_run pkts (mkMemSpec (fun _ => 0) ∅) = true ->
  mem_accesses pkts.*1 h m = Ok (meant_accesses pkts (mkMemSpec (fun _ => 0) ∅)).
Proof.
  intros H1 H2 Hnew Hd Hall Ho. destruct (new_mem_rel _ _ _ H1 H2 Hnew) as [Hm Hr].
  rewrite <- orderly_run_meant by done. apply mem_accesses_rel; [done..|]. by rewrite Hr.
Qed.

(** Two contexts reserve a line; the first to store has it, the other fails, and then
    reads what the first stored. *)
Definition ctx_request (ctx : Z) : Request :=
  mkRequest 0x1008 4 0 0 (Z.lor VALID_PADDR VALID_CONTEXT_ID) 0 0 0 0 ctx 0 0.
Definition word_packet (req : RequestPtr) (c : Command) (d : list Z) : Packet :=
  with_pkt_flags (Z.lor (Z.lor VALID_ADDR VALID_SIZE) STATIC_DATA) (with_pkt_addr 0x1008
    (with_pkt_size 4 (with_pkt_data (Some d) (Packet_blank req c 0 0)))).
Definition contest : list (Packet * Request) :=
  [(word_packet 0 LoadLockedReq [0; 0; 0; 0], ctx_request 0);
   (word_packet 1 LoadLockedReq [0; 0; 0; 0], ctx_request 1);
   (word_packet 2 StoreCondReq [1; 2; 3; 4], ctx_request 0);
   (word_packet 3 StoreCondReq [5; 6; 7; 8], ctx_request 1);
   (word_packet 4 ReadReq [0; 0; 0; 0], ctx_request 1)].
Definition contest_heap : ReqHeap := list_to_map ((fun x => (pkt_req x.1, x.2)) <$> contest).

Lemma memory_refines_spec_witness :
  exists m, AbstractMemory_new (mkRange 0x1000 0x103f) 64 false = Ok m /\
    mem_accesses contest.*1 contest_heap m =
      Ok [([0; 0; 0; 0], true); ([0; 0; 0; 0], true); ([1; 2; 3; 4], true);
          ([5; 6; 7; 8], false); ([1; 2; 3; 4], true)].
Proof.
  eexists. split; [by vm_compute|].
  etrans; [eapply (memory_refines_spec (mkRange 0x1000 0x103f) 64)|].
  - cbn. lia.
  - cbn. lia.
  - by vm_compute.
  - by apply (bool_decide_unpack _), I.
  - unfold contest. repeat apply Forall_cons_2; [..|by apply Forall_nil_2];
      (split; [by vm_compute|]); (split; [by eexists; split; [..|done]; vm_compute|done| | | |
        first [by right; left|by right; right; split; [|left]]|..]); try done;
      first [by left|by intros [|]|split; cbn; lia].
  - by vm_compute.
  - by vm_compute.
Defined.

(** Context 0 reserves a line; context 1 swaps a word of it, or writes the whole
    64-byte block it lies in; context 0 stores conditionally.  On the memory that is
    meant the store fails; the code lets it through. *)
Definition block_packet (req : RequestPtr) : Packet :=
  with_pkt_addr 0x1000 (with_pkt_size 64 (with_pkt_data (Some (replicate 64 9)) (word_packet req WriteReq []))).
Definition block_request (ctx : Z) : Request := with__size 64 (with__paddr 0x1000 (ctx_request ctx)).

Definition wide_line_request (ctx : Z) : Request := with__paddr 0x1018 (ctx_request ctx).
Definition wide_line_packet (req : RequestPtr) (c : Command) (d : list Z) : Packet := with_pkt_addr 0x1018 (word_packet req c d).

Definition swap_between : list (Packet * Request) :=
  [(word_packet 0 LoadLockedReq [0; 0; 0; 0], ctx_request 0);
   (word_packet 1 SwapReq [1; 2; 3; 4], ctx_request 1);
   (word_packet 2 StoreCondReq [5; 6; 7; 8], ctx_request 0)].
Definition block_between : list (Packet * Request) :=
  [(wide_line_packet 0 LoadLockedReq [0; 0; 0; 0], wide_line_request 0);
   (block_packet 1, block_request 1);
   (wide_line_packet 2 StoreCondReq [5; 6; 7; 8], wide_line_request 0)].
Definition heap_of (pkts : list (Packet * Request)) : ReqHeap := list_to_map ((fun x => (pkt_req x.1, x.2)) <$> pkts).

(** Whether the last access succeeded, in the code and as it is meant. *)
Definition last_ok (l : list (list Z * bool)) : option bool := snd <$> last l.
Definition code_and_meant (pkts : list (Packet * Request)) : result (option bool * option bool) :=
  m ← AbstractMemory_new (mkRange 0x1000 0x103f) 64 false;
  l ← mem_accesses pkts.*1 (heap_of pkts) m;
  Ok (last_ok l, last_ok (meant_accesses pkts (mkMemSpec (fun _ => 0) ∅))).

Theorem swap_keeps_reservation : code_and_meant swap_between = Ok (Some true, Some false).
Proof. by vm_compute. Qed.

Theorem wide_write_keeps_reservation : code_and_meant block_between = Ok (Some true, Some false).
Proof. by vm_compute. Qed.
