(* ===== verification/ChunkGen.v ===== *)
(** The chunk generator of base/chunk_generator.hh, which splits a memory region at
    the multiples of a chunk size, and the loop
    [for (ChunkGenerator gen(..); !gen.done(); gen.next())] that its clients write. *)

From S2P Require Import Prelude IntMath.

Record ChunkGenerator := mkChunkGenerator {
  curAddr : Z;
  nextAddr : Z;
  curSize : Z;
  sizeLeft : Z;
  startAddr : Z;
  chunkSize : Z
}.

(** [roundUp] and [roundDown] of base/intmath.hh at the 64-bit address type. *)
Definition addr_roundUp (val align : Z) : Z :=
  let mask := u64 (align - 1) in Z.ldiff (u64 (val + mask)) mask.
Definition addr_roundDown (val align : Z) : Z :=
  let mask := u64 (align - 1) in Z.ldiff val mask.

(** The constructor; [totalSize >= 0] holds of every [unsigned]. *)
Definition ChunkGenerator_new (_startAddr totalSize _chunkSize : Z) : result ChunkGenerator :=
  cassert ((_chunkSize =? 0) || isPowerOf2 _chunkSize) ;;
  let nextAddr :=
    if _chunkSize =? 0 then u64 (_startAddr + totalSize)
    else let up := addr_roundUp _startAddr _chunkSize in
         if _startAddr =? up then u64 (up + _chunkSize) else up in
  let left_in_chunk := u32 (nextAddr - _startAddr) in
  let cur := Z.min totalSize left_in_chunk in
  Ok (mkChunkGenerator _startAddr nextAddr cur (u32 (totalSize - cur)) _startAddr _chunkSize).

Definition cg_done (g : ChunkGenerator) : bool := curSize g =? 0.
Definition cg_complete (g : ChunkGenerator) : Z := u32 (curAddr g - startAddr g).

Definition cg_next (g : ChunkGenerator) : bool * ChunkGenerator :=
  if sizeLeft g =? 0 then
    (false, mkChunkGenerator (curAddr g) (nextAddr g) 0 (sizeLeft g) (startAddr g) (chunkSize g))
  else
    let cur := Z.min (sizeLeft g) (chunkSize g) in
    (true, mkChunkGenerator (nextAddr g) (u64 (nextAddr g + cur)) cur
             (u32 (sizeLeft g - cur)) (startAddr g) (chunkSize g)).

(** The loop: the body sees the address and size of a chunk, and leaves the loop with
    [false].  Every round takes at least one byte. *)
Fixpoint for_chunks {S} (fuel : nat) (body : Z -> Z -> S -> result (bool * S))
    (g : ChunkGenerator) (s : S) : result (bool * S) :=
  match fuel with
  | O => Err OutOfFuel
  | Datatypes.S fuel' =>
      if cg_done g then Ok (true, s) else
      x ← body (curAddr g) (curSize g) s;
      if (x.1 : bool) then for_chunks fuel' body (cg_next g).2 x.2 else Ok (false, x.2)
  end.

Definition chunk_loop {S} (addr size chunk : Z) (body : Z -> Z -> S -> result (bool * S))
    (s : S) : result (bool * S) :=
  g ← ChunkGenerator_new addr (u32 size) (u32 chunk);
  for_chunks (Datatypes.S (Z.to_nat (u32 size))) body g s.

(** * The chunks of a region *)

(** Consecutive pieces that make up a region, none of which crosses a multiple of the
    chunk size. *)
Inductive covers (c : Z) : Z -> Z -> list (Z * Z) -> Prop :=
  | covers_nil a : covers c a 0 []
  | covers_cons a k m cs :
      0 < k -> (c <> 0 -> (a + k - 1) / c = a / c) -> covers c (a + k) m cs ->
      covers c a (k + m) ((a, k) :: cs).

(** The body run on each of them. *)
Fixpoint run_chunks {S} (body : Z -> Z -> S -> result (bool * S)) (cs : list (Z * Z)) (s : S)
    : result (bool * S) :=
  match cs with
  | [] => Ok (true, s)
  | (a, k) :: cs' =>
      x ← body a k s; if (x.1 : bool) then run_chunks body cs' x.2 else Ok (false, x.2)
  end.

(** What the generator has still to hand out. *)
Record gen_at (c : Z) (g : ChunkGenerator) (left : Z) : Prop := {
  ga_chunk : chunkSize g = c;
  ga_sum : curSize g + sizeLeft g = left;
  ga_size : 0 < curSize g;
  ga_left : 0 <= sizeLeft g < 2 ^ 32;
  ga_block : c <> 0 -> (curAddr g + curSize g - 1) / c = curAddr g / c;
  ga_next : sizeLeft g <> 0 ->
            c <> 0 /\ nextAddr g = curAddr g + curSize g /\ nextAddr g mod c = 0
}.

Lemma gen_next_at c g left :
  0 <= c -> gen_at c g left -> curAddr g + left < 2 ^ 64 -> 0 <= curAddr g ->
  sizeLeft g <> 0 ->
  gen_at c (cg_next g).2 (sizeLeft g) /\ curAddr (cg_next g).2 = curAddr g + curSize g.
Proof.
  intros Hc [Hch Hsum Hcs Hl Hb Hn] Hmax H0 Hne. destruct (Hn Hne) as (Hc0 & Hnx & Hmod).
  unfold cg_next. rewrite (proj2 (Z.eqb_neq _ _) Hne). cbn. split; [|done].
  assert (Hmin : 0 < Z.min (sizeLeft g) (chunkSize g)) by lia.
  split; cbn; try lia.
  - rewrite u32_small; lia.
  - rewrite u32_small; lia.
  - intros _. rewrite Hch. apply Z.mod_divide in Hmod as [q Hq]; [|done]. rewrite Hq.
    rewrite Z.div_mul by done. symmetry. apply (Z.div_unique_pos _ _ _ (Z.min (sizeLeft g) c - 1)); lia.
  - rewrite u32_small by lia. intros Hr. assert (Z.min (sizeLeft g) (chunkSize g) = c) as -> by lia.
    split; [done|]. rewrite u64_small by lia. split; [done|].
    rewrite <- (Z.mul_1_l c) at 1. by rewrite Z.mod_add.
Qed.

Lemma for_chunks_run {S} c (body : Z -> Z -> S -> result (bool * S)) fuel : forall g left,
  0 <= c -> gen_at c g left -> 0 <= curAddr g -> curAddr g + left < 2 ^ 64 ->
  (Z.to_nat left < fuel)%nat ->
  exists cs, covers c (curAddr g) left cs /\
             forall s, for_chunks fuel body g s = run_chunks body cs s.
Proof.
  induction fuel as [|fuel IH]; intros g left Hc Hg H0 Hmax Hf; [lia|].
  pose proof Hg as [Hch Hsum Hcs Hl Hb Hn].
  assert (Hd : cg_done g = false) by (apply Z.eqb_neq; lia).
  destruct (decide (sizeLeft g = 0)) as [Hz|Hz].
  - exists [(curAddr g, curSize g)]. split.
    { replace left with (curSize g + 0) by lia. constructor; [lia|done|constructor]. }
    intros s. cbn. rewrite Hd. destruct (body _ _ s) as [[[] s']|]; cbn; [|done..].
    unfold cg_next. rewrite Hz. cbn. destruct fuel; [lia|]. reflexivity.
  - destruct (gen_next_at c g left) as [Hg' Ha']; [done..|].
    destruct (IH (cg_next g).2 (sizeLeft g)) as (cs & Hcov & Hrun); [done| |lia..|].
    { exact Hg'. }
    exists ((curAddr g, curSize g) :: cs). split.
    + rewrite <- Hsum. constructor; [lia|done|]. by rewrite <- Ha'.
    + intros s. cbn. rewrite Hd. destruct (body _ _ s) as [[[] s']|]; cbn; [|done..].
      apply Hrun.
Qed.

Lemma roundDown_pow a k : 0 <= k <= 63 -> 0 <= a -> addr_roundDown a (2 ^ k) = a / 2 ^ k * 2 ^ k.
Proof.
  intros Hk Ha. pose proof (Z.pow_pos_nonneg 2 k ltac:(lia) ltac:(lia)).
  pose proof (Z.pow_le_mono_r 2 k 63 ltac:(lia) ltac:(lia)).
  unfold addr_roundDown. rewrite u64_small by lia.
  by rewrite ldiff_ones_mul by lia.
Qed.

Lemma roundUp_pow a k :
  0 <= k <= 63 -> 0 <= a -> a + 2 ^ k < 2 ^ 64 ->
  addr_roundUp a (2 ^ k) = (a + 2 ^ k - 1) / 2 ^ k * 2 ^ k.
Proof.
  intros Hk Ha Hs. pose proof (Z.pow_pos_nonneg 2 k ltac:(lia) ltac:(lia)).
  unfold addr_roundUp. rewrite (u64_small (2 ^ k - 1)) by lia.
  rewrite u64_small by lia.
  rewrite <- (roundDown_pow (a + 2 ^ k - 1) k) by lia.
  unfold addr_roundDown. rewrite u64_small by lia. f_equal. lia.
Qed.

Lemma gen_new_at addr total c :
  0 <= addr -> 0 < total < 2 ^ 32 -> addr + total + c < 2 ^ 64 ->
  c = 0 \/ (exists k, 0 <= k < 32 /\ c = 2 ^ k) ->
  exists g, ChunkGenerator_new addr total c = Ok g /\ curAddr g = addr /\ gen_at c g total.
Proof.
  intros Ha Ht Hm Hc. unfold ChunkGenerator_new. destruct Hc as [->|(k & Hk & ->)].
  - cbn. eexists. split; [done|]. split; [done|]. rewrite u64_small by lia.
    replace (addr + total - addr) with total by lia. rewrite (u32_small total), Z.min_id by lia.
    replace (total - total) with 0 by lia. rewrite (u32_small 0) by lia.
    split; cbn; (done || lia).
  - pose proof (Z.pow_pos_nonneg 2 k ltac:(lia) ltac:(lia)).
    pose proof (Z.pow_lt_mono_r 2 k 32 ltac:(lia) ltac:(lia) ltac:(lia)).
    assert (HP : isPowerOf2 (2 ^ k) = true).
    { apply isPowerOf2_spec; [lia|]. by rewrite Z.log2_pow2 by lia. }
    rewrite HP, orb_true_r. cbn [cassert mbind result_bind].
    rewrite (proj2 (Z.eqb_neq (2 ^ k) 0)) by lia.
    rewrite roundUp_pow by lia.
    set (c := 2 ^ k) in *.
    assert (Hnx : (if addr =? (addr + c - 1) / c * c then u64 ((addr + c - 1) / c * c + c)
                   else (addr + c - 1) / c * c) = (addr / c + 1) * c).
    { pose proof (Z.div_mod addr c ltac:(lia)) as Hdm.
      pose proof (Z.mod_pos_bound addr c ltac:(lia)) as Hmb.
      destruct (decide (addr mod c = 0)) as [E|E].
      - assert ((addr + c - 1) / c = addr / c) as ->.
        { symmetry. apply (Z.div_unique_pos _ _ _ (c - 1)); lia. }
        rewrite (proj2 (Z.eqb_eq _ _)) by lia. rewrite u64_small by lia. lia.
      - assert ((addr + c - 1) / c = addr / c + 1) as ->.
        { symmetry. apply (Z.div_unique_pos _ _ _ (addr mod c - 1)); lia. }
        rewrite (proj2 (Z.eqb_neq _ _)) by lia. done. }
    rewrite Hnx. clear Hnx. eexists. split; [done|]. split; [done|].
    pose proof (Z.div_mod addr c ltac:(lia)) as Hdm.
    pose proof (Z.mod_pos_bound addr c ltac:(lia)) as Hmb.
    assert (Hleft : (addr / c + 1) * c - addr = c - addr mod c) by lia.
    rewrite Hleft, (u32_small (c - addr mod c)) by lia.
    set (cur := Z.min total (c - addr mod c)).
    assert (0 < cur <= total) by lia.
    rewrite u32_small by lia. split; cbn; try lia.
    + intros _. symmetry. apply (Z.div_unique_pos _ _ _ (addr mod c + cur - 1)); lia.
    + intros Hne. split; [lia|]. assert (cur = c - addr mod c) as -> by lia.
      split; [lia|]. apply Z.mod_mul. lia.
Qed.

(** The loop visits the chunks of the region in order, and ends. *)
Lemma chunk_loop_run {S} addr size c (body : Z -> Z -> S -> result (bool * S)) :
  0 <= addr -> 0 <= size < 2 ^ 32 -> addr + size + c < 2 ^ 64 ->
  c = 0 \/ (exists k, 0 <= k < 32 /\ c = 2 ^ k) ->
  exists cs, covers c addr size cs /\
             forall s, chunk_loop addr size c body s = run_chunks body cs s.
Proof.
  intros Ha Hs Hm Hc. unfold chunk_loop. rewrite (u32_small size) by lia.
  assert (Hc32 : 0 <= c < 2 ^ 32).
  { destruct Hc as [->|(k & Hk & ->)]; [lia|].
    pose proof (Z.pow_lt_mono_r 2 k 32 ltac:(lia) ltac:(lia) ltac:(lia)). lia. }
  rewrite (u32_small c) by done.
  destruct (decide (size = 0)) as [->|Hne].
  - exists []. split; [constructor|]. intros s. unfold ChunkGenerator_new.
    assert (HP : (c =? 0) || isPowerOf2 c = true).
    { destruct Hc as [->|(k & Hk & ->)]; [done|]. apply orb_true_intro. right.
      apply isPowerOf2_spec; [done|]. by rewrite Z.log2_pow2 by lia. }
    rewrite HP. cbn [cassert mbind result_bind].
    match goal with |- context [u32 (?n - addr)] => set (left := u32 (n - addr)) end.
    assert (0 <= left) by (apply Z.mod_pos_bound; lia).
    rewrite Z.min_l by done. reflexivity.
  - destruct (gen_new_at addr size c) as (g & -> & Hca & Hg); [lia..|done|].
    destruct (for_chunks_run c body (Datatypes.S (Z.to_nat size)) g size) as (cs & Hcov & Hrun);
      [lia|done|lia..|].
    exists cs. rewrite <- Hca. split; [done|]. intros s. apply Hrun.
Qed.
