(* ===== verification/PageTable.v ===== *)
(** The page table of a process in system-call emulation (mem/page_table.cc and .hh):
    a map from virtual pages to the entries of the translation buffer, with a cache of
    the last three pages in front of it.

    The entry is a type of the instruction set; what the table uses of it is the class
    [TlbEntryOps], with the entries of Alpha and x86 as instances.  An entry made by
    the default constructor is not initialised: [blank] is whatever it holds.  The hash
    map is a [gmap]; the order in which [serialize] walks it is an argument. *)

From S2P Require Import Prelude IntMath Request.

(** * Entries of the translation buffer *)

Class TlbEntryOps (E : Type) := {
  TlbEntry_new : Z -> Z -> Z -> E;
  updateVaddr : Z -> E -> E;
  pageStart : E -> Z
}.

(** What the table relies on: an entry keeps the physical page it was made with. *)
Class TlbEntryLaws (E : Type) `{TlbEntryOps E} (shift limit : Z) := {
  new_pageStart asn v p :
    0 <= p < limit -> p mod 2 ^ shift = 0 -> pageStart (TlbEntry_new asn v p) = p;
  update_pageStart v e : pageStart (updateVaddr v e) = pageStart e
}.

Record AlphaTlbEntry := mkAlphaTlbEntry {
  al_tag : Z;
  al_ppn : Z;
  al_xre : Z;
  al_xwe : Z;
  al_asn : Z;
  al_asma : bool;
  al_fonr : bool;
  al_fonw : bool;
  al_valid : bool
}.

Definition AlphaPageShift : Z := 13.
Definition ImplBits : Z := 43.
Definition vpn (a : Z) : Z := Z.shiftr (Z.land a (2 ^ ImplBits - 1)) AlphaPageShift.

#[global] Instance AlphaTlbOps : TlbEntryOps AlphaTlbEntry := {
  TlbEntry_new asn vaddr paddr :=
    mkAlphaTlbEntry (vpn vaddr) (vpn paddr) 15 15 (u8 asn) false false false true;
  updateVaddr new_vaddr e :=
    mkAlphaTlbEntry (vpn new_vaddr) (al_ppn e) (al_xre e) (al_xwe e) (al_asn e) (al_asma e)
      (al_fonr e) (al_fonw e) (al_valid e);
  pageStart e := u64 (Z.shiftl (al_ppn e) AlphaPageShift)
}.

(** [lruSeq] and [trieHandle] are not initialised and not used by the page table. *)
Record X86TlbEntry := mkX86TlbEntry {
  x86_paddr : Z;
  x86_vaddr : Z;
  x86_logBytes : Z;
  x86_writable : bool;
  x86_user : bool;
  x86_uncacheable : bool;
  x86_global : bool;
  x86_patBit : bool;
  x86_noExec : bool
}.

Definition X86PageShift : Z := 12.

#[global] Instance X86TlbOps : TlbEntryOps X86TlbEntry := {
  TlbEntry_new asn vaddr paddr :=
    mkX86TlbEntry paddr vaddr X86PageShift true true false false false false;
  updateVaddr new_vaddr e :=
    mkX86TlbEntry (x86_paddr e) new_vaddr (x86_logBytes e) (x86_writable e) (x86_user e)
      (x86_uncacheable e) (x86_global e) (x86_patBit e) (x86_noExec e);
  pageStart e := x86_paddr e
}.

(** * The table *)

(** Conversion to [int64_t]. *)
Definition i64 (z : Z) : Z :=
  let m := z mod 2 ^ 64 in if m <? 2 ^ 63 then m else m - 2 ^ 64.

(** [floorLog2] and [isPowerOf2] at 64 bits, and [mask] of base/bitfield.hh. *)
Definition floorLog2_64 (x : Z) : result Z :=
  cassert (0 <? x) ;;
  let s := log2_step 0xffffffff00000000 32 (0, x) in
  let s := log2_step 0x00000000ffff0000 16 s in
  let s := log2_step 0x000000000000ff00 8 s in
  let s := log2_step 0x00000000000000f0 4 s in
  let s := log2_step 0x000000000000000c 2 s in
  Ok (if negb (Z.land s.2 0x0000000000000002 =? 0) then s.1 + 1 else s.1).
Definition isPowerOf2_64 (n : Z) : bool := negb (n =? 0) && (Z.ldiff n (u64 (n - 1)) =? n).
Definition bit_mask (nbits : Z) : Z := if nbits =? 64 then 2 ^ 64 - 1 else u64 (Z.shiftl 1 nbits - 1).

Section Table.

Context {E : Type} `{!TlbEntryOps E} (blank : E).

Record PageTable := mkPageTable {
  pTable : gmap Z E;
  pTableCache : list (Z * E);
  pageSize : Z;
  offsetMask : Z;
  pt_pid : Z
}.

Definition with_pTable (v : gmap Z E) (t : PageTable) : PageTable :=
  mkPageTable v (pTableCache t) (pageSize t) (offsetMask t) (pt_pid t).
Definition with_pTableCache (v : list (Z * E)) (t : PageTable) : PageTable :=
  mkPageTable (pTable t) v (pageSize t) (offsetMask t) (pt_pid t).

(** The constructor: the cached addresses are 0, the cached entries are not
    initialised. *)
Definition PageTable_new (_pid _pageSize : Z) : result PageTable :=
  k ← floorLog2_64 _pageSize;
  cassert (isPowerOf2_64 _pageSize) ;;
  Ok (mkPageTable ∅ (replicate 3 (0, blank)) _pageSize (bit_mask k) _pid).

Definition pageAlign (a : Z) (t : PageTable) : Z := Z.ldiff a (offsetMask t).
Definition pageOffset (a : Z) (t : PageTable) : Z := Z.land a (offsetMask t).

Definition updateCache (vaddr : Z) (entry : E) (t : PageTable) : PageTable :=
  with_pTableCache ((vaddr, entry) :: take 2 (pTableCache t)) t.

(** The loops over the pages of a region take a page off [size] every round. *)
Definition page_rounds (size : Z) (t : PageTable) : nat :=
  S (Z.to_nat (size / pageSize t + 1)).

(** [map] *)
Fixpoint map_loop (fuel : nat) (vaddr paddr size : Z) (clobber : bool) (t : PageTable)
    : result PageTable :=
  match fuel with
  | O => Err OutOfFuel
  | S fuel' =>
      if size <=? 0 then Ok t else
      if negb clobber && bool_decide (is_Some (pTable t !! vaddr)) then Err Fatal else
      let entry := TlbEntry_new (pt_pid t) vaddr paddr in
      let t := with_pTable (<[vaddr := entry]> (pTable t)) t in
      let t := updateCache vaddr entry t in
      map_loop fuel' (u64 (vaddr + pageSize t)) (u64 (paddr + pageSize t))
        (i64 (size - pageSize t)) clobber t
  end.

Definition pt_map (vaddr paddr size : Z) (clobber : bool) (t : PageTable) : result PageTable :=
  cassert (pageOffset vaddr t =? 0) ;;
  map_loop (page_rounds size t) vaddr paddr size clobber t.

(** [remap]: [pTable[new_vaddr]] makes a new entry if the page that was erased is the
    one it was copied to. *)
Fixpoint remap_loop (fuel : nat) (vaddr size new_vaddr : Z) (t : PageTable)
    : result PageTable :=
  match fuel with
  | O => Err OutOfFuel
  | S fuel' =>
      if size <=? 0 then Ok t else
      e ← of_option AssertFail (pTable t !! vaddr);
      let pt := delete vaddr (<[new_vaddr := e]> (pTable t)) in
      let entry := updateVaddr new_vaddr (default blank (pt !! new_vaddr)) in
      let t := with_pTable (<[new_vaddr := entry]> pt) t in
      let t := updateCache new_vaddr entry t in
      remap_loop fuel' (u64 (vaddr + pageSize t)) (i64 (size - pageSize t))
        (u64 (new_vaddr + pageSize t)) t
  end.

Definition pt_remap (vaddr size new_vaddr : Z) (t : PageTable) : result PageTable :=
  cassert (pageOffset vaddr t =? 0) ;;
  cassert (pageOffset new_vaddr t =? 0) ;;
  remap_loop (page_rounds size t) vaddr size new_vaddr t.

(** [unmap] *)
Fixpoint unmap_loop (fuel : nat) (vaddr size : Z) (t : PageTable) : result PageTable :=
  match fuel with
  | O => Err OutOfFuel
  | S fuel' =>
      if size <=? 0 then Ok t else
      _ ← of_option AssertFail (pTable t !! vaddr);
      let t := with_pTable (delete vaddr (pTable t)) t in
      unmap_loop fuel' (u64 (vaddr + pageSize t)) (i64 (size - pageSize t)) t
  end.

Definition pt_unmap (vaddr size : Z) (t : PageTable) : result PageTable :=
  cassert (pageOffset vaddr t =? 0) ;;
  unmap_loop (page_rounds size t) vaddr size t.

(** [isUnmapped] *)
Fixpoint isUnmapped_loop (fuel : nat) (vaddr size : Z) (t : PageTable) : result bool :=
  match fuel with
  | O => Err OutOfFuel
  | S fuel' =>
      if size <=? 0 then Ok true else
      if bool_decide (is_Some (pTable t !! vaddr)) then Ok false else
      isUnmapped_loop fuel' (u64 (vaddr + pageSize t)) (i64 (size - pageSize t)) t
  end.

Definition isUnmapped (vaddr size : Z) (t : PageTable) : result bool :=
  cassert (pageOffset vaddr t =? 0) ;;
  isUnmapped_loop (page_rounds size t) vaddr size t.

(** [lookup]: the cache from its newest entry, then the table. *)
Fixpoint cache_find (page_addr : Z) (l : list (Z * E)) : option E :=
  match l with
  | [] => None
  | (a, e) :: l' => if a =? page_addr then Some e else cache_find page_addr l'
  end.

Definition pt_lookup (vaddr : Z) (t : PageTable) : option E * PageTable :=
  let page_addr := pageAlign vaddr t in
  match cache_find page_addr (pTableCache t) with
  | Some e => (Some e, t)
  | None =>
      match pTable t !! page_addr with
      | None => (None, t)
      | Some e => (Some e, updateCache page_addr e t)
      end
  end.

(** [translate(vaddr, paddr)] *)
Definition pt_translate (vaddr : Z) (t : PageTable) : option Z * PageTable :=
  let '(o, t) := pt_lookup vaddr t in
  match o with
  | None => (None, t)
  | Some e => (Some (u64 (pageOffset vaddr t + pageStart e)), t)
  end.

(** [translate(req)]: the address of the page fault, if there is one. *)
Definition pt_translate_req (r : Request) (t : PageTable)
    : result (option Z * Request * PageTable) :=
  va ← getVaddr r;
  n ← req_getSize r;
  cassert (pageAlign (u64 (va + n - 1)) t =? pageAlign va t) ;;
  let '(o, t) := pt_translate va t in
  match o with
  | None => Ok (Some va, r, t)
  | Some paddr =>
      r ← setPaddr paddr r;
      if pageSize t <? u64 (Z.land paddr (pageSize t - 1) + n) then Err Panic
      else Ok (None, r, t)
  end.

(** [serialize] writes the pages in the order [l] of the hash map, and the number of
    them; [unserialize] reads as many pages as the number says. *)
Definition pt_serialize (l : list (Z * E)) (t : PageTable) : result (Z * list (Z * E)) :=
  cassert (Z.of_nat (length l) =? Z.of_nat (size (pTable t))) ;;
  Ok (Z.of_nat (size (pTable t)), l).

Fixpoint unserialize_loop (cp : list (Z * E)) (ks : list Z) (m : gmap Z E) : result (gmap Z E) :=
  match ks with
  | [] => Ok m
  | i :: ks' =>
      x ← (if decide (0 <= i) then of_option Fatal (cp !! Z.to_nat i) else Err Fatal);
      unserialize_loop cp ks' (<[x.1 := x.2]> m)
  end.

Definition pt_unserialize (cp : Z * list (Z * E)) (t : PageTable) : result PageTable :=
  m ← unserialize_loop cp.2 (zrange (i32 cp.1)) ∅;
  Ok (with_pTable m t).

End Table.

Arguments PageTable E : clear implicits.

(** * Theorems

    The page table is a map: whatever is mapped, moved and unmapped, a page that is
    mapped is looked up with the entry it has, and the loops over pages end.  The cache
    is not cleared when a page leaves the table, so a page that has been unmapped or
    moved away may still be found, and page 0 is found before anything is mapped. *)

#[global] Instance AlphaTlbLaws : TlbEntryLaws AlphaTlbEntry AlphaPageShift (2 ^ ImplBits).
Proof.
  split; [|done]. unfold AlphaPageShift, ImplBits. intros asn v p Hp Hm. cbn. unfold vpn, AlphaPageShift, ImplBits.
  rewrite land_ones_mod by lia. rewrite (Z.mod_small p) by done.
  rewrite Z.shiftl_mul_pow2, Z.shiftr_div_pow2 by lia.
  pose proof (Z.div_mod p (2 ^ 13) ltac:(lia)) as Hq.
  replace (p / 2 ^ 13 * 2 ^ 13) with p by lia. apply u64_small. lia.
Qed.

#[global] Instance X86TlbLaws : TlbEntryLaws X86TlbEntry X86PageShift (2 ^ 64).
Proof. split; done. Qed.

Lemma floorLog2_64_pow k : 0 <= k < 64 -> floorLog2_64 (2 ^ k) = Ok k.
Proof.
  intros Hk.
  assert (H : forallb (fun i => match floorLog2_64 (2 ^ i) with Ok j => j =? i | _ => false end)
                (seqZ 0 64) = true) by (vm_compute; reflexivity).
  rewrite forallb_forall in H. specialize (H k). destruct (floorLog2_64 (2 ^ k)) as [j|].
  - f_equal. apply Z.eqb_eq, H, list_elem_of_In, elem_of_seqZ. lia.
  - discriminate H. apply list_elem_of_In, elem_of_seqZ. lia.
Qed.

Lemma isPowerOf2_64_pow k : 0 <= k < 64 -> isPowerOf2_64 (2 ^ k) = true.
Proof.
  intros Hk.
  assert (H : forallb (fun i => isPowerOf2_64 (2 ^ i)) (seqZ 0 64) = true)
    by (vm_compute; reflexivity).
  rewrite forallb_forall in H. apply H, list_elem_of_In, elem_of_seqZ. lia.
Qed.

Lemma bit_mask_pow k : 0 <= k < 64 -> bit_mask k = 2 ^ k - 1.
Proof.
  intros Hk. unfold bit_mask. rewrite (proj2 (Z.eqb_neq k 64)) by lia.
  rewrite Z.shiftl_mul_pow2 by lia.
  pose proof (Z.pow_pos_nonneg 2 k ltac:(lia) ltac:(lia)).
  pose proof (Z.pow_lt_mono_r 2 k 64 ltac:(lia) ltac:(lia) ltac:(lia)).
  rewrite u64_small; lia.
Qed.

Lemma i64_small z : - 2 ^ 63 <= z < 2 ^ 63 -> i64 z = z.
Proof.
  intros Hz. unfold i64. destruct (decide (0 <= z)) as [H|H].
  - rewrite Z.mod_small by lia. by rewrite (proj2 (Z.ltb_lt _ _)) by lia.
  - replace (z mod 2 ^ 64) with (z + 2 ^ 64).
    + rewrite (proj2 (Z.ltb_ge _ _)) by lia. lia.
    + rewrite <- (Z.mod_small (z + 2 ^ 64) (2 ^ 64)) by lia.
      rewrite <- (Z.mul_1_l (2 ^ 64)) at 1. by rewrite Z.mod_add by lia.
Qed.

Section Map.

Context {E : Type} `{!TlbEntryOps E} (blank : E) (k : Z) (Hk : 0 <= k < 63).

(** * Shape *)

Definition geom (t : PageTable E) : Prop := pageSize t = 2 ^ k /\ offsetMask t = 2 ^ k - 1.

Lemma psize_pos : 0 < 2 ^ k < 2 ^ 63.
Proof.
  split; [apply Z.pow_pos_nonneg; lia|].
  apply Z.pow_lt_mono_r; lia.
Qed.

Lemma PageTable_new_ok pid :
  PageTable_new blank pid (2 ^ k)
  = Ok (mkPageTable ∅ (replicate 3 (0, blank)) (2 ^ k) (2 ^ k - 1) pid).
Proof.
  unfold PageTable_new. rewrite floorLog2_64_pow by lia. cbn [mbind result_bind].
  rewrite isPowerOf2_64_pow, bit_mask_pow by lia. done.
Qed.

Lemma pageAlign_eq t a : geom t -> pageAlign a t = a / 2 ^ k * 2 ^ k.
Proof. intros [_ H]. unfold pageAlign. rewrite H. apply ldiff_ones_mul. lia. Qed.

Lemma pageOffset_eq t a : geom t -> pageOffset a t = a mod 2 ^ k.
Proof. intros [_ H]. unfold pageOffset. rewrite H. apply land_ones_mod. lia. Qed.

(** * The cache agrees with the table *)

(** A page that is in the table is not cached with another entry. *)
Definition fresh_cache (t : PageTable E) : Prop :=
  forall a e e', pTable t !! a = Some e -> cache_find a (pTableCache t) = Some e' -> e' = e.

(** Nothing but page 0 is cached that is not in the table. *)
Definition no_stale (t : PageTable E) : Prop :=
  forall a e, cache_find a (pTableCache t) = Some e -> a = 0 \/ pTable t !! a = Some e.

Lemma cache_find_take a n l e : cache_find a (take n l) = Some e -> @cache_find E a l = Some e.
Proof.
  revert n. induction l as [|[b e'] l IH]; intros [|n]; cbn; try done.
  destruct (b =? a); [done|]. apply IH.
Qed.

Lemma cached_find v (e : E) t a :
  cache_find a (pTableCache (updateCache v e t))
  = if v =? a then Some e else cache_find a (take 2 (pTableCache t)).
Proof. done. Qed.

Lemma fresh_insert v e t :
  fresh_cache t -> fresh_cache (updateCache v e (with_pTable (<[v := e]> (pTable t)) t)).
Proof.
  intros H a x y Hx Hy. rewrite cached_find in Hy. cbn in Hx, Hy.
  destruct (Z.eqb_spec v a) as [->|Hne].
  - rewrite lookup_insert_eq in Hx. congruence.
  - rewrite lookup_insert_ne in Hx by done. eapply H; [done|]. by eapply cache_find_take.
Qed.

Lemma fresh_delete v t : fresh_cache t -> fresh_cache (with_pTable (delete v (pTable t)) t).
Proof.
  intros H a x y Hx Hy. cbn in *. apply lookup_delete_Some in Hx as [_ Hx]. by eapply H.
Qed.

Lemma fresh_cached v e t : pTable t !! v = Some e -> fresh_cache t -> fresh_cache (updateCache v e t).
Proof.
  intros Hv H a x y Hx Hy. rewrite cached_find in Hy. cbn in Hx.
  destruct (Z.eqb_spec v a) as [->|Hne]; [congruence|].
  eapply H; [done|]. by eapply cache_find_take.
Qed.

Lemma stale_insert v e t :
  no_stale t -> no_stale (updateCache v e (with_pTable (<[v := e]> (pTable t)) t)).
Proof.
  intros H a x Hx. rewrite cached_find in Hx. cbn in Hx |- *.
  destruct (Z.eqb_spec v a) as [->|Hne].
  - rewrite lookup_insert_eq. by right.
  - rewrite lookup_insert_ne by done. apply H. by eapply cache_find_take.
Qed.

Lemma stale_cached v e t : pTable t !! v = Some e -> no_stale t -> no_stale (updateCache v e t).
Proof.
  intros Hv H a x Hx. rewrite cached_find in Hx. cbn.
  destruct (Z.eqb_spec v a) as [->|Hne]; [right; congruence|].
  apply H. by eapply cache_find_take.
Qed.

(** * Looking up *)

Lemma lookup_mapped va e t :
  fresh_cache t -> pTable t !! pageAlign va t = Some e ->
  exists c, pt_lookup va t = (Some e, with_pTableCache c t) /\
            (c = pTableCache t \/ c = pTableCache (updateCache (pageAlign va t) e t)).
Proof.
  intros Hf He. unfold pt_lookup. destruct (cache_find _ _) as [e'|] eqn:Hc.
  - exists (pTableCache t). rewrite (Hf _ _ _ He Hc). split; [|by left]. by destruct t.
  - rewrite He. eexists. split; [done|by right].
Qed.

Lemma lookup_unmapped va t :
  no_stale t -> pageAlign va t <> 0 -> pTable t !! pageAlign va t = None -> pt_lookup va t = (None, t).
Proof.
  intros Hs H0 He. unfold pt_lookup. destruct (cache_find _ _) as [e'|] eqn:Hc.
  - destruct (Hs _ _ Hc); congruence.
  - by rewrite He.
Qed.

(** * Loops over pages *)

(** The pages of a region of [n] pages. *)
Definition pages_of (v : Z) (n : nat) : list Z := (fun i => v + Z.of_nat i * 2 ^ k) <$> seq 0 n.

Lemma pages_of_S v n : pages_of v (S n) = v :: pages_of (v + 2 ^ k) n.
Proof.
  unfold pages_of. cbn [seq fmap list_fmap]. f_equal; [lia|].
  rewrite <- fmap_S_seq, <- list_fmap_compose. apply list_fmap_ext. intros i x _. cbn. lia.
Qed.

(** How many pages [size] bytes take. *)
Definition npages_of (size : Z) : nat := Z.to_nat ((size + 2 ^ k - 1) / 2 ^ k).

Lemma npages_0 size : size <= 0 -> npages_of size = 0%nat.
Proof.
  intros H. pose proof psize_pos. unfold npages_of.
  pose proof (Z.div_lt_upper_bound (size + 2 ^ k - 1) (2 ^ k) 1 ltac:(lia) ltac:(lia)). lia.
Qed.

Lemma npages_S size : 0 < size -> npages_of size = S (npages_of (size - 2 ^ k)).
Proof.
  intros H. pose proof psize_pos. unfold npages_of.
  replace (size + 2 ^ k - 1) with ((size - 2 ^ k + 2 ^ k - 1) + 1 * 2 ^ k) by lia.
  rewrite Z.div_add by lia.
  assert (0 <= (size - 2 ^ k + 2 ^ k - 1) / 2 ^ k) by (apply Z.div_pos; lia). lia.
Qed.

Lemma page_rounds_ok size t : geom t -> (npages_of size < page_rounds size t)%nat.
Proof.
  intros [Hg _]. pose proof psize_pos. unfold page_rounds, npages_of. rewrite Hg.
  assert ((size + 2 ^ k - 1) / 2 ^ k <= size / 2 ^ k + 1).
  { rewrite <- (Z.div_add size 1) by lia. apply Z.div_le_mono; lia. }
  lia.
Qed.

(** What mapping a list of pages to consecutive frames does. *)
Fixpoint map_pages (clobber : bool) (vs : list Z) (p : Z) (t : PageTable E) : result (PageTable E) :=
  match vs with
  | [] => Ok t
  | v :: vs' =>
      if negb clobber && bool_decide (is_Some (pTable t !! v)) then Err Fatal else
      let e := TlbEntry_new (pt_pid t) v p in
      map_pages clobber vs' (p + 2 ^ k) (updateCache v e (with_pTable (<[v := e]> (pTable t)) t))
  end.

Lemma map_loop_pages fuel : forall vaddr paddr size clobber t,
  geom t -> size < 2 ^ 63 -> 0 <= vaddr -> 0 <= paddr ->
  vaddr + Z.of_nat (npages_of size) * 2 ^ k < 2 ^ 64 ->
  paddr + Z.of_nat (npages_of size) * 2 ^ k < 2 ^ 64 ->
  (npages_of size < fuel)%nat ->
  map_loop fuel vaddr paddr size clobber t
  = map_pages clobber (pages_of vaddr (npages_of size)) paddr t.
Proof.
  induction fuel as [|fuel IH]; intros vaddr paddr size clobber t Hg Hs Hv Hp Hvm Hpm Hf; [lia|].
  cbn [map_loop]. pose proof psize_pos. pose proof Hg as [Hps _].
  destruct (Z.leb_spec size 0) as [Hz|Hz]; [by rewrite npages_0|].
  rewrite (npages_S size), pages_of_S in * by done. cbn [map_pages].
  destruct (negb clobber && _); [done|]. cbn. rewrite Hps.
  rewrite (u64_small (vaddr + _)), (u64_small (paddr + _)), i64_small by lia.
  apply IH; [done|lia..].
Qed.

Lemma pt_map_pages vaddr paddr size clobber t :
  geom t -> size < 2 ^ 63 -> 0 <= vaddr -> vaddr mod 2 ^ k = 0 -> 0 <= paddr ->
  vaddr + Z.of_nat (npages_of size) * 2 ^ k < 2 ^ 64 ->
  paddr + Z.of_nat (npages_of size) * 2 ^ k < 2 ^ 64 ->
  pt_map vaddr paddr size clobber t
  = map_pages clobber (pages_of vaddr (npages_of size)) paddr t.
Proof.
  intros Hg Hs Hv Ha Hp Hvm Hpm. unfold pt_map. rewrite pageOffset_eq, Ha by done.
  cbn [cassert mbind result_bind Z.eqb]. apply map_loop_pages; try done. by apply page_rounds_ok.
Qed.

(** * The table as a map from pages to frames *)

Context (limit : Z) `{!TlbEntryLaws E k limit} (Hlim : limit <= 2 ^ 64).

Inductive pt_op :=
  | PMap (vaddr paddr size : Z) (clobber : bool)
  | PRemap (vaddr size new_vaddr : Z)
  | PUnmap (vaddr size : Z)
  | PIsUnmapped (vaddr size : Z)
  | PTranslate (vaddr : Z).

Inductive pt_out := OUnit | OBool (b : bool) | OAddr (a : option Z).

Definition pt_step (op : pt_op) (t : PageTable E) : result (pt_out * PageTable E) :=
  match op with
  | PMap v p n cl => t ← pt_map v p n cl t; Ok (OUnit, t)
  | PRemap v n nv => t ← pt_remap blank v n nv t; Ok (OUnit, t)
  | PUnmap v n => t ← pt_unmap v n t; Ok (OUnit, t)
  | PIsUnmapped v n => b ← isUnmapped v n t; Ok (OBool b, t)
  | PTranslate v => let '(o, t) := pt_translate v t in Ok (OAddr o, t)
  end.

Fixpoint pt_run (ops : list pt_op) (t : PageTable E) : result (list pt_out * PageTable E) :=
  match ops with
  | [] => Ok ([], t)
  | op :: ops' => x ← pt_step op t; y ← pt_run ops' x.2; Ok (x.1 :: y.1, y.2)
  end.

(** The specification.  A region must be page-aligned and lie below the end of the
    address space; a page is mapped once, unless it may be overwritten; only mapped
    pages are moved, unmapped or translated, and no page is moved onto itself. *)
Fixpoint sp_map (clobber : bool) (vs : list Z) (f : Z) (m : gmap Z Z) : option (gmap Z Z) :=
  match vs with
  | [] => Some m
  | v :: vs' =>
      if negb clobber && bool_decide (is_Some (m !! v)) then None
      else sp_map clobber vs' (f + 2 ^ k) (<[v := f]> m)
  end.

Fixpoint sp_move (vs : list Z) (d : Z) (m : gmap Z Z) : option (gmap Z Z) :=
  match vs with
  | [] => Some m
  | v :: vs' => f ← m !! v; sp_move vs' d (<[v + d := f]> (delete v m))
  end.

Fixpoint sp_unmap (vs : list Z) (m : gmap Z Z) : option (gmap Z Z) :=
  match vs with
  | [] => Some m
  | v :: vs' => _ ← m !! v; sp_unmap vs' (delete v m)
  end.

Definition region_ok (v size : Z) : bool :=
  (0 <=? v) && (v mod 2 ^ k =? 0) && (size <? 2 ^ 63) &&
  (v + Z.of_nat (npages_of size) * 2 ^ k <? 2 ^ 64).
Definition frames_ok (p size : Z) : bool :=
  (0 <=? p) && (p mod 2 ^ k =? 0) && (p + Z.of_nat (npages_of size) * 2 ^ k <? limit).

Definition sp_step (op : pt_op) (m : gmap Z Z) : option (pt_out * gmap Z Z) :=
  match op with
  | PMap v p n cl =>
      guard (region_ok v n && frames_ok p n) ;; m ← sp_map cl (pages_of v (npages_of n)) p m;
      Some (OUnit, m)
  | PRemap v n nv =>
      guard (region_ok v n && region_ok nv n && negb (v =? nv)) ;;
      m ← sp_move (pages_of v (npages_of n)) (nv - v) m; Some (OUnit, m)
  | PUnmap v n =>
      guard (region_ok v n) ;; m ← sp_unmap (pages_of v (npages_of n)) m; Some (OUnit, m)
  | PIsUnmapped v n =>
      guard (region_ok v n) ;;
      Some (OBool (forallb (fun a => bool_decide (m !! a = None)) (pages_of v (npages_of n))), m)
  | PTranslate v =>
      f ← m !! (v / 2 ^ k * 2 ^ k); Some (OAddr (Some (f + v mod 2 ^ k)), m)
  end.

Fixpoint sp_run (ops : list pt_op) (m : gmap Z Z) : option (list pt_out * gmap Z Z) :=
  match ops with
  | [] => Some ([], m)
  | op :: ops' => x ← sp_step op m; y ← sp_run ops' x.2; Some (x.1 :: y.1, y.2)
  end.

(** The table holds the map. *)
Record pt_holds (m : gmap Z Z) (t : PageTable E) : Prop := {
  ho_geom : geom t;
  ho_fresh : fresh_cache t;
  ho_map : pageStart <$> pTable t = m;
  ho_frames : forall v f, m !! v = Some f -> 0 <= f /\ f + 2 ^ k <= limit
}.

Lemma pt_holds_lookup m t v : pt_holds m t -> pageStart <$> (pTable t !! v) = m !! v.
Proof. intros [_ _ <- _]. by rewrite lookup_fmap. Qed.

Lemma pt_holds_mapped m t v :
  pt_holds m t -> bool_decide (is_Some (pTable t !! v)) = bool_decide (is_Some (m !! v)).
Proof.
  intros H. apply bool_decide_ext. rewrite <- (pt_holds_lookup _ _ v H).
  destruct (pTable t !! v); cbn; split; intros [? ?]; (done || eauto).
Qed.

Lemma pt_holds_insert m t v e f :
  pt_holds m t -> pageStart e = f -> 0 <= f -> f + 2 ^ k <= limit ->
  pt_holds (<[v := f]> m) (updateCache v e (with_pTable (<[v := e]> (pTable t)) t)).
Proof.
  intros [Hg Hf Hm Hfr] He H1 H2. split; [done|by apply fresh_insert| |].
  - cbn. by rewrite fmap_insert, He, Hm.
  - intros a x. destruct (decide (a = v)) as [->|Hne].
    + rewrite lookup_insert_eq. intros [= <-]. done.
    + rewrite lookup_insert_ne by done. apply Hfr.
Qed.

Lemma pt_holds_delete m t v : pt_holds m t -> pt_holds (delete v m) (with_pTable (delete v (pTable t)) t).
Proof.
  intros [Hg Hf Hm Hfr]. split; [done|by apply fresh_delete| |].
  - cbn. by rewrite fmap_delete, Hm.
  - intros a x [_ Hx]%lookup_delete_Some. by eapply Hfr.
Qed.

Lemma map_pages_holds cl vs : forall p m m' t,
  pt_holds m t -> 0 <= p -> p mod 2 ^ k = 0 -> p + Z.of_nat (length vs) * 2 ^ k <= limit ->
  sp_map cl vs p m = Some m' ->
  exists t', map_pages cl vs p t = Ok t' /\ pt_holds m' t'.
Proof.
  pose proof psize_pos. induction vs as [|v vs IH]; intros p m m' t Hh Hp Ha Hl; cbn.
  { intros [= <-]. eauto. }
  rewrite (pt_holds_mapped _ _ v Hh). destruct (negb cl && _); [done|].
  cbn [length] in Hl. intros Hs. eapply IH; [|lia| |lia|exact Hs].
  - apply pt_holds_insert; [done| |done|lia]. apply (new_pageStart (limit := limit)); lia || done.
  - rewrite <- (Z.mul_1_l (2 ^ k)) at 1. by rewrite Z.mod_add by lia.
Qed.

Lemma remap_holds fuel : forall v size nv m m' t,
  pt_holds m t -> size < 2 ^ 63 -> 0 <= v -> 0 <= nv -> v <> nv ->
  v + Z.of_nat (npages_of size) * 2 ^ k < 2 ^ 64 ->
  nv + Z.of_nat (npages_of size) * 2 ^ k < 2 ^ 64 -> (npages_of size < fuel)%nat ->
  sp_move (pages_of v (npages_of size)) (nv - v) m = Some m' ->
  exists t', remap_loop blank fuel v size nv t = Ok t' /\ pt_holds m' t'.
Proof.
  pose proof psize_pos.
  induction fuel as [|fuel IH]; intros v size nv m m' t Hh Hs Hv Hnv Hne Hvm Hnm Hf; [lia|].
  cbn [remap_loop]. destruct (Z.leb_spec size 0) as [Hz|Hz].
  { rewrite npages_0 by done. intros [= <-]. eauto. }
  rewrite (npages_S size), pages_of_S in * by done. cbn [sp_move].
  destruct (m !! v) as [f|] eqn:Hm; [|done]. cbn [mbind option_bind].
  rewrite <- (pt_holds_lookup _ _ v Hh) in Hm. destruct (pTable t !! v) as [e|] eqn:He; [|done].
  injection Hm as <-. cbn [of_option mbind result_bind].
  replace (v + (nv - v)) with nv by lia.
  rewrite (lookup_delete_ne _ v nv), lookup_insert_eq by done. cbn [default].
  rewrite (delete_insert_ne _ v nv), insert_insert_eq by done.
  destruct (ho_frames _ _ Hh v (pageStart e)) as [Hf0 Hf1].
  { by rewrite <- (pt_holds_lookup _ _ v Hh), He. }
  pose proof (pt_holds_insert _ _ nv (updateVaddr nv e) (pageStart e) (pt_holds_delete _ _ v Hh)
                (update_pageStart nv e) Hf0 Hf1) as Hh'.
  pose proof (proj1 (ho_geom _ _ Hh)) as Hps. cbn. rewrite Hps.
  rewrite (u64_small (v + _)), (u64_small (nv + _)), i64_small by lia. intros Hmv.
  eapply IH; [exact Hh'|lia..|].
  replace (nv + 2 ^ k - (v + 2 ^ k)) with (nv - v) by lia. done.
Qed.

Lemma unmap_holds fuel : forall v size m m' t,
  pt_holds m t -> size < 2 ^ 63 -> 0 <= v ->
  v + Z.of_nat (npages_of size) * 2 ^ k < 2 ^ 64 -> (npages_of size < fuel)%nat ->
  sp_unmap (pages_of v (npages_of size)) m = Some m' ->
  exists t', unmap_loop fuel v size t = Ok t' /\ pt_holds m' t'.
Proof.
  pose proof psize_pos.
  induction fuel as [|fuel IH]; intros v size m m' t Hh Hs Hv Hvm Hf; [lia|].
  cbn [unmap_loop]. destruct (Z.leb_spec size 0) as [Hz|Hz].
  { rewrite npages_0 by done. intros [= <-]. eauto. }
  rewrite (npages_S size), pages_of_S in * by done. cbn [sp_unmap].
  destruct (m !! v) as [f|] eqn:Hm; [|done]. cbn [mbind option_bind].
  rewrite <- (pt_holds_lookup _ _ v Hh) in Hm. destruct (pTable t !! v) as [e|] eqn:He; [|done].
  cbn. rewrite (proj1 (ho_geom _ _ Hh)).
  rewrite (u64_small (v + _)), i64_small by lia. intros Hu.
  eapply IH; [by apply pt_holds_delete|lia..|exact Hu].
Qed.

Lemma isUnmapped_holds fuel : forall v size m t,
  pt_holds m t -> size < 2 ^ 63 -> 0 <= v ->
  v + Z.of_nat (npages_of size) * 2 ^ k < 2 ^ 64 -> (npages_of size < fuel)%nat ->
  isUnmapped_loop fuel v size t
  = Ok (forallb (fun a => bool_decide (m !! a = None)) (pages_of v (npages_of size))).
Proof.
  pose proof psize_pos.
  induction fuel as [|fuel IH]; intros v size m t Hh Hs Hv Hvm Hf; [lia|].
  cbn [isUnmapped_loop]. destruct (Z.leb_spec size 0) as [Hz|Hz]; [by rewrite npages_0|].
  rewrite (npages_S size), pages_of_S in * by done. cbn [forallb].
  rewrite (pt_holds_mapped _ _ v Hh). destruct (m !! v) as [f|]; cbn; [done|].
  rewrite (proj1 (ho_geom _ _ Hh)), (u64_small (v + _)), i64_small by lia.
  apply IH; [done|lia..].
Qed.

Lemma translate_holds m t va f :
  pt_holds m t -> m !! (va / 2 ^ k * 2 ^ k) = Some f ->
  exists t', pt_translate va t = (Some (f + va mod 2 ^ k), t') /\ pt_holds m t'.
Proof.
  intros Hh Hf. pose proof psize_pos. pose proof Hh as [Hg Hfr Hm Hl].
  pose proof Hf as Hf'. rewrite <- (pt_holds_lookup _ _ _ Hh) in Hf'.
  rewrite <- (pageAlign_eq t) in Hf' by done.
  destruct (pTable t !! pageAlign va t) as [e|] eqn:He; [|done]. injection Hf' as <-.
  destruct (lookup_mapped va e t Hfr He) as (c & Hlk & Hc). unfold pt_translate. rewrite Hlk.
  destruct (Hl _ _ Hf). pose proof (Z.mod_pos_bound va (2 ^ k) ltac:(lia)).
  eexists. split.
  - do 2 f_equal. rewrite pageOffset_eq by done. rewrite u64_small by lia. lia.
  - destruct Hc as [->| ->]; [by destruct t|].
    split; [done| |done..]. by apply fresh_cached.
Qed.

Lemma pt_step_holds op m m' o t :
  pt_holds m t -> sp_step op m = Some (o, m') -> exists t', pt_step op t = Ok (o, t') /\ pt_holds m' t'.
Proof.
  intros Hh. pose proof (ho_geom _ _ Hh) as Hg. destruct op as [v p n cl|v n nv|v n|v n|v]; cbn.
  - case_guard as G; [|done]. cbn. destruct (sp_map _ _ _ m) as [m1|] eqn:Hs; [|done].
    cbn. intros [= <- <-]. unfold region_ok, frames_ok in G. apply Is_true_eq_true in G. zb.
    destruct (map_pages_holds cl (pages_of v (npages_of n)) p m m1 t) as (t' & Ht' & Hh'); try done.
    { unfold pages_of. rewrite length_fmap, length_seq. lia. }
    exists t'. rewrite pt_map_pages by (done || lia). by rewrite Ht'.
  - case_guard as G; [|done]. cbn. destruct (sp_move _ _ m) as [m1|] eqn:Hs; [|done].
    cbn. intros [= <- <-]. unfold region_ok in G. apply Is_true_eq_true in G. zb.
    unfold pt_remap. rewrite !pageOffset_eq by done.
    rewrite (proj2 (Z.eqb_eq (v mod _) 0)), (proj2 (Z.eqb_eq (nv mod _) 0)) by done.
    destruct (remap_holds (page_rounds n t) v n nv m m1 t) as (t' & Ht' & Hh'); try done.
    { by apply page_rounds_ok. }
    exists t'. cbn [cassert mbind result_bind]. by rewrite Ht'.
  - case_guard as G; [|done]. cbn. destruct (sp_unmap _ m) as [m1|] eqn:Hs; [|done].
    cbn. intros [= <- <-]. unfold region_ok in G. apply Is_true_eq_true in G. zb.
    unfold pt_unmap. rewrite pageOffset_eq by done.
    rewrite (proj2 (Z.eqb_eq (v mod _) 0)) by done.
    destruct (unmap_holds (page_rounds n t) v n m m1 t) as (t' & Ht' & Hh'); try done.
    { by apply page_rounds_ok. }
    exists t'. cbn [cassert mbind result_bind]. by rewrite Ht'.
  - case_guard as G; [|done]. cbn. intros [= <- <-]. unfold region_ok in G.
    apply Is_true_eq_true in G. zb. exists t. split; [|done].
    unfold isUnmapped. rewrite pageOffset_eq by done.
    rewrite (proj2 (Z.eqb_eq (v mod _) 0)) by done. cbn [cassert mbind result_bind].
    rewrite (isUnmapped_holds _ _ _ m); [done..|]. by apply page_rounds_ok.
  - destruct (m !! _) as [f|] eqn:Hf; [|done]. cbn. intros [= <- <-].
    destruct (translate_holds m t v f Hh Hf) as (t' & -> & Hh'). eauto.
Qed.

Lemma pt_run_holds ops : forall m m' os t,
  pt_holds m t -> sp_run ops m = Some (os, m') -> exists t', pt_run ops t = Ok (os, t') /\ pt_holds m' t'.
Proof.
  induction ops as [|op ops IH]; intros m m' os t Hh; cbn.
  { intros [= <- <-]. eauto. }
  destruct (sp_step op m) as [[o m1]|] eqn:Hs; [|done]. cbn.
  destruct (sp_run ops m1) as [[os1 m2]|] eqn:Hr; [|done]. cbn. intros [= <- <-].
  destruct (pt_step_holds _ _ _ _ _ Hh Hs) as (t1 & -> & Hh1). cbn.
  destruct (IH _ _ _ _ Hh1 Hr) as (t2 & -> & Hh2). eauto.
Qed.

Lemma new_holds pid t : PageTable_new blank pid (2 ^ k) = Ok t -> pt_holds ∅ t.
Proof.
  rewrite PageTable_new_ok. intros [= <-]. split; cbn; [done| |by rewrite fmap_empty|].
  - intros a e e'. cbn. by rewrite lookup_empty.
  - intros v f. by rewrite lookup_empty.
Qed.

End Map.

(** C30. The page table with its cache is a map from pages to frames: whenever the
    specification allows a sequence of maps, moves, unmaps, queries and translations of
    mapped pages, the code runs it to the end with the same answers. *)
Theorem page_table_refines {E} `{!TlbEntryOps E} (blank : E) (k limit pid : Z)
    `{!TlbEntryLaws E k limit} (t : PageTable E) (ops : list pt_op) os m :
  0 <= k < 63 -> limit <= 2 ^ 64 ->
  PageTable_new blank pid (2 ^ k) = Ok t ->
  sp_run k limit ops ∅ = Some (os, m) ->
  exists t', pt_run blank ops t = Ok (os, t') /\ (pageStart <$> pTable t') = m.
Proof.
  intros Hk Hl Hn Hs. pose proof (new_holds blank k Hk limit pid t Hn) as Hh.
  destruct (pt_run_holds blank k Hk limit Hl ops _ _ _ _ Hh Hs) as (t' & Hr & [_ _ Hm _]). eauto.
Qed.

Definition x86_blank : X86TlbEntry := mkX86TlbEntry 0xdead000 0 0 false false false false false false.

Definition demo_pt_ops : list pt_op :=
  [PMap 0x10000 0x4000 0x3000 false; PTranslate 0x11234; PRemap 0x11000 0x2000 0x20000;
   PTranslate 0x20345; PTranslate 0x21001; PUnmap 0x10000 0x1000; PIsUnmapped 0x10000 0x2000;
   PMap 0x10000 0x9000 0x1800 false; PTranslate 0x11fff; PTranslate 0x10000].

Definition demo_pt_outs : list pt_out :=
  [OUnit; OAddr (Some 0x5234); OUnit; OAddr (Some 0x5345); OAddr (Some 0x6001); OUnit; OBool true;
   OUnit; OAddr (Some 0xafff); OAddr (Some 0x9000)].

(** Pages of x86 are mapped, moved, unmapped and mapped again. *)
Lemma page_table_refines_witness :
  exists t t', PageTable_new x86_blank 1 (2 ^ X86PageShift) = Ok t /\
               pt_run x86_blank demo_pt_ops t = Ok (demo_pt_outs, t').
Proof.
  destruct (PageTable_new x86_blank 1 (2 ^ X86PageShift)) as [t|] eqn:Ht; [|discriminate Ht].
  destruct (sp_run X86PageShift (2 ^ 64) demo_pt_ops ∅) as [[os m]|] eqn:Hs;
    [|vm_compute in Hs; discriminate Hs].
  assert (Hos : os = demo_pt_outs).
  { transitivity (from_option fst [] (Some (os, m))); [done|]. rewrite <- Hs. vm_compute. done. }
  destruct (page_table_refines x86_blank X86PageShift (2 ^ 64) 1 t demo_pt_ops os m)
    as (t' & Hr & _); [unfold X86PageShift; lia|lia|exact Ht|exact Hs|].
  rewrite Hos in Hr. eauto.
Defined.

(** A table that is written to a checkpoint is read back, whatever order the hash map
    is walked in. *)
Lemma unserialize_loop_foldl {E} (cp : list (Z * E)) n : forall j m,
  (j + n = length cp)%nat ->
  unserialize_loop cp (seqZ (Z.of_nat j) (Z.of_nat n)) m
  = Ok (foldl (fun m x => <[x.1 := x.2]> m) m (drop j cp)).
Proof.
  induction n as [|n IH]; intros j m Hj.
  { cbn. by rewrite drop_ge by lia. }
  rewrite seqZ_cons by lia. cbn [unserialize_loop]. rewrite decide_True by lia.
  destruct (lookup_lt_is_Some_2 cp j) as [x Hx]; [lia|].
  rewrite Nat2Z.id, Hx. cbn [of_option mbind result_bind].
  rewrite (drop_S cp x j Hx). cbn [foldl].
  replace (Z.succ (Z.of_nat j)) with (Z.of_nat (S j)) by lia.
  replace (Z.pred (Z.of_nat (S n))) with (Z.of_nat n) by lia. apply IH. lia.
Qed.

Lemma foldl_inserts {E} (l : list (Z * E)) : forall m : gmap Z E,
  NoDup l.*1 -> foldl (fun m x => <[x.1 := x.2]> m) m l = list_to_map l ∪ m.
Proof.
  induction l as [|[a e] l IH]; intros m; cbn.
  { intros _. by rewrite (left_id_L ∅ (∪)). }
  intros [Ha Hd]%NoDup_cons. rewrite IH by done.
  apply map_eq. intros b. rewrite !lookup_union.
  destruct (decide (b = a)) as [->|Hne].
  - rewrite !lookup_insert_eq. rewrite not_elem_of_list_to_map_1 by done. by destruct (m !! a).
  - by rewrite !lookup_insert_ne by done.
Qed.

Theorem checkpoint_restores {E} (t t0 : PageTable E) (l : list (Z * E)) :
  l ≡ₚ map_to_list (pTable t) -> Z.of_nat (length l) < 2 ^ 31 ->
  exists cp t', pt_serialize l t = Ok cp /\ pt_unserialize cp t0 = Ok t' /\ pTable t' = pTable t.
Proof.
  intros Hp Hn. assert (Hlen : length l = size (pTable t)).
  { rewrite Hp. by rewrite length_map_to_list. }
  exists (Z.of_nat (size (pTable t)), l). eexists. split; [|split].
  - unfold pt_serialize. rewrite (proj2 (Z.eqb_eq _ _)) by lia. done.
  - unfold pt_unserialize, zrange. cbn [fst snd]. rewrite i32_small by lia.
    rewrite (unserialize_loop_foldl l (size (pTable t)) 0) by lia. done.
  - cbn. assert (Hd : NoDup l.*1) by (rewrite Hp; apply NoDup_fst_map_to_list).
    rewrite drop_0, foldl_inserts by done. rewrite (right_id_L ∅ (∪)).
    rewrite <- (list_to_map_to_list (pTable t)). by apply list_to_map_proper.
Qed.

(** A page that is unmapped can still be translated, to the frame it had; a page that
    is moved can be translated at both places; and in a new table page 0 is translated
    with an entry that nobody made. *)
Definition run_new (ops : list pt_op) : option (list pt_out) :=
  match PageTable_new x86_blank 1 (2 ^ X86PageShift) with
  | Ok t => match pt_run x86_blank ops t with Ok (os, _) => Some os | Err _ => None end
  | Err _ => None
  end.

Theorem stale_translations :
  run_new [PMap 0x10000 0x4000 0x1000 false; PUnmap 0x10000 0x1000; PIsUnmapped 0x10000 0x1000;
           PTranslate 0x10008]
  = Some [OUnit; OUnit; OBool true; OAddr (Some 0x4008)] /\
  run_new [PMap 0x10000 0x4000 0x1000 false; PRemap 0x10000 0x1000 0x20000;
           PTranslate 0x10008; PTranslate 0x20008]
  = Some [OUnit; OUnit; OAddr (Some 0x4008); OAddr (Some 0x4008)] /\
  run_new [PTranslate 8] = Some [OAddr (Some 0xdead008)].
Proof. vm_compute. done. Qed.
