(* ===== verification/VirtMem.v ===== *)
(** The memory of a process in system-call emulation: the frames that the system hands
    out (sim/system.cc), the pages of a process (sim/process.cc and [mremap] of
    sim/syscall_emul.hh), and the proxies through which the simulator reads and writes
    them (mem/port_proxy.cc and mem/se_translating_port_proxy.cc).

    The memory behind a proxy is the class [FunctionalPort]; the request of a blob
    access is a local object of [blobHelper].  A buffer of the caller is a list of
    bytes with an offset for the pointer into it. *)

From S2P Require Import Prelude IntMath Request MemCmd Packet ChunkGen PageTable.

(** * Frames *)

Record System := mkSystem {
  sys_totalSize : Z;
  sys_numPids : Z;
  sys_fixAddr : bool;
  pagePtr : list Z
}.

Definition with_pagePtr (v : list Z) (s : System) : System :=
  mkSystem (sys_totalSize s) (sys_numPids s) (sys_fixAddr s) v.

Section Frames.

(** [LogVMPageSize] and [VMPageSize] of the instruction set. *)
Context (LogVMPageSize : Z).
Definition VMPageSize : Z := Z.shiftl 1 LogVMPageSize.

(** The part of the constructor that divides the memory. *)
Definition System_new (totalSize numPids : Z) (fixAddr : bool) : System :=
  let mem_end := i32 (Z.shiftr totalSize LogVMPageSize) in
  let partition_size := Z.quot mem_end numPids in
  mkSystem totalSize numPids fixAddr
    ((fun i => u64 (i32 (i * partition_size))) <$> zrange numPids).

Definition allocPhysPages (npages pid : Z) (s : System) : result (Z * System) :=
  let i := if sys_fixAddr s then pid else 0 in
  p ← arr_get (pagePtr s) i;
  let return_addr := u64 (Z.shiftl p LogVMPageSize) in
  let p' := u64 (p + npages) in
  ptrs ← arr_set (pagePtr s) i p';
  let limit := if sys_fixAddr s
               then u64 (sys_totalSize s * u64 (pid + 1)) / u64 (sys_numPids s)
               else sys_totalSize s in
  if limit <? u64 (Z.shiftl p' LogVMPageSize) then Err Fatal
  else Ok (return_addr, with_pagePtr ptrs s).

(** The products of [partition_size] are [int]s. *)
Definition freeMemSize (s : System) : result Z :=
  if sys_fixAddr s then
    let partition_size := i32 (sys_totalSize s / u64 (sys_numPids s)) in
    foldM (fun freeMem i =>
             p ← arr_get (pagePtr s) i;
             Ok (u64 (freeMem + u64 (i32 (partition_size * (i + 1)) -
                                     u64 (Z.shiftl p LogVMPageSize)))))
      0 (zrange (sys_numPids s))
  else p ← arr_get (pagePtr s) 0; Ok (u64 (sys_totalSize s - u64 (Z.shiftl p LogVMPageSize))).

End Frames.

(** * Processes *)

Record Process (E : Type) := mkProcess {
  pr_pid : Z;
  stack_base : Z;
  stack_min : Z;
  max_stack_size : Z;
  mmap_end : Z;
  pr_pTable : PageTable E
}.
Arguments mkProcess {E}.
Arguments pr_pid {E}.
Arguments stack_base {E}.
Arguments stack_min {E}.
Arguments max_stack_size {E}.
Arguments mmap_end {E}.
Arguments pr_pTable {E}.

Definition with_pr_pTable {E} (v : PageTable E) (p : Process E) : Process E :=
  mkProcess (pr_pid p) (stack_base p) (stack_min p) (max_stack_size p) (mmap_end p) v.
Definition with_stack_min {E} (v : Z) (p : Process E) : Process E :=
  mkProcess (pr_pid p) (stack_base p) v (max_stack_size p) (mmap_end p) (pr_pTable p).
Definition with_mmap_end {E} (v : Z) (p : Process E) : Process E :=
  mkProcess (pr_pid p) (stack_base p) (stack_min p) (max_stack_size p) v (pr_pTable p).

(** The memory at the other end of a port, and the block size it announces. *)
Class FunctionalPort (M : Type) := {
  peerBlockSize : Z;
  sendFunctional : ReqHeap -> Packet -> M -> result (Packet * M)
}.

Inductive AllocType := Always | Never | NextPage.

Section Pages.

Context {E : Type} `{!TlbEntryOps E} (blank : E) (LogVMPageSize : Z).
#[local] Abbreviation VMPageSize := (VMPageSize LogVMPageSize).

Definition allocateMem (vaddr size : Z) (clobber : bool) (s : System) (p : Process E)
    : result (System * Process E) :=
  let npages := i32 (Z.quot (size + VMPageSize - 1) VMPageSize) in
  x ← allocPhysPages LogVMPageSize npages (i32 (pr_pid p)) s;
  let '(paddr, s) := x in
  t ← pt_map vaddr paddr size clobber (pr_pTable p);
  Ok (s, with_pr_pTable t p).

Definition process_map (vaddr paddr size : Z) (p : Process E) : result (Process E) :=
  t ← pt_map vaddr paddr size false (pr_pTable p); Ok (with_pr_pTable t p).

(** [fixupStackFault]; the second limit on the stack ends the loop. *)
Definition stack_limit : Z := 8 * 1024 * 1024.

Fixpoint extend_stack (fuel : nat) (vaddr : Z) (s : System) (p : Process E)
    : result (System * Process E) :=
  match fuel with
  | O => Err OutOfFuel
  | S fuel' =>
      if negb (vaddr <? stack_min p) then Ok (s, p) else
      let p := with_stack_min (u64 (stack_min p - VMPageSize)) p in
      if max_stack_size p <? u64 (stack_base p - stack_min p) then Err Fatal else
      if stack_limit <? u64 (stack_base p - stack_min p) then Err Fatal else
      x ← allocateMem (stack_min p) VMPageSize false s p;
      extend_stack fuel' vaddr x.1 x.2
  end.

Definition stack_rounds : nat := Z.to_nat (stack_limit / VMPageSize + 3).

Definition fixupStackFault (vaddr : Z) (s : System) (p : Process E)
    : result (bool * (System * Process E)) :=
  if (stack_min p <=? vaddr) && (vaddr <? stack_base p) then
    x ← allocateMem (addr_roundDown vaddr VMPageSize) VMPageSize false s p;
    Ok (true, x)
  else if (vaddr <? stack_min p) && (u64 (stack_base p - max_stack_size p) <=? vaddr) then
    x ← extend_stack stack_rounds vaddr s p; Ok (true, x)
  else Ok (false, (s, p)).

(** [mremapFunc]: the value of the system call. *)
Definition EINVAL : Z := 22.
Definition ENOMEM : Z := 12.

Definition mremapFunc (start old_length new_length flags : Z) (s : System) (p : Process E)
    : result (Z * (System * Process E)) :=
  if negb (start mod VMPageSize =? 0) || negb (new_length mod VMPageSize =? 0)
  then Ok (- EINVAL, (s, p)) else
  if old_length <? new_length then
    if u64 (start + old_length) =? mmap_end p then
      let diff := u64 (new_length - old_length) in
      x ← allocateMem (mmap_end p) (i64 diff) false s p;
      Ok (start, (x.1, with_mmap_end (u64 (mmap_end p + diff)) x.2))
    else if Z.land flags 1 =? 0 then Ok (- ENOMEM, (s, p))
    else
      t ← pt_remap blank start (i64 old_length) (mmap_end p) (pr_pTable p);
      let p := with_pr_pTable t p in
      let start := mmap_end p in
      x ← allocateMem (u64 (start + old_length)) (i64 (u64 (new_length - old_length))) false s p;
      Ok (start, (x.1, with_mmap_end (u64 (mmap_end p + new_length)) x.2))
  else
    t ← pt_unmap (u64 (start + new_length)) (i64 (u64 (old_length - new_length))) (pr_pTable p);
    Ok (start, (s, with_pr_pTable t p)).

(** * Proxies *)

Context {M : Type} `{!FunctionalPort M} (junk : Request) (curTick : Z).

(** [PortProxy::blobHelper], from offset [off] of the buffer. *)
Definition blob_chunk (cmd : Command) (a k : Z) (x : list Z * Z * Request * M)
    : result (bool * (list Z * Z * Request * M)) :=
  let '(buf, off, r, m) := x in
  r ← setPhys a k 0 funcMasterId curTick r;
  pkt ← Packet_new {[0 := r]} 0 cmd curTick;
  pkt ← dataStatic (take (Z.to_nat k) (drop (Z.to_nat off) buf)) pkt;
  y ← sendFunctional {[0 := r]} pkt m;
  bytes ← getPtr y.1;
  buf ← memcpy buf off bytes 0 k;
  Ok (true, (buf, off + k, r, y.2)).

Definition blobHelper (cmd : Command) (addr : Z) (buf : list Z) (off size : Z) (m : M)
    : result (list Z * M) :=
  x ← chunk_loop addr size peerBlockSize (blob_chunk cmd) (buf, off, Request_new junk, m);
  let '(_, (buf, _, _, m)) := x in Ok (buf, m).

Definition pp_readBlob := blobHelper ReadReq.
Definition pp_writeBlob := blobHelper WriteReq.
Definition pp_memsetBlob (addr v size : Z) (m : M) : result M :=
  x ← blobHelper WriteReq addr (replicate (Z.to_nat size) v) 0 size m; Ok x.2.

(** [read<T>] and [write<T>] of an object of [n] bytes, which are given as they lie in
    memory. *)
Definition pp_read (addr : Z) (n : Z) (m : M) : result (list Z * M) :=
  pp_readBlob addr (replicate (Z.to_nat n) 0) 0 n m.
Definition pp_write (addr : Z) (data : list Z) (m : M) : result M :=
  x ← pp_writeBlob addr data 0 (Z.of_nat (length data)) m; Ok x.2.

(** What a translating proxy reaches: the system, its process and the memory. *)
Record Virt := mkVirt { v_sys : System; v_proc : Process E; v_mem : M }.

Definition with_v_mem (m : M) (v : Virt) : Virt := mkVirt (v_sys v) (v_proc v) m.
Definition with_v_table (t : PageTable E) (v : Virt) : Virt :=
  mkVirt (v_sys v) (with_pr_pTable t (v_proc v)) (v_mem v).

Definition v_translate (va : Z) (v : Virt) : option Z * Virt :=
  let '(o, t) := pt_translate va (pr_pTable (v_proc v)) in (o, with_v_table t v).

(** [tryReadBlob] *)
Definition read_chunk (a k : Z) (x : list Z * Z * Virt) : result (bool * (list Z * Z * Virt)) :=
  let '(buf, prevSize, v) := x in
  let '(o, v) := v_translate a v in
  match o with
  | None => Ok (false, (buf, prevSize, v))
  | Some paddr =>
      y ← pp_readBlob paddr buf prevSize (i32 k) (v_mem v);
      Ok (true, (y.1, i32 (prevSize + k), with_v_mem y.2 v))
  end.

Definition tryReadBlob (addr : Z) (buf : list Z) (size : Z) (v : Virt)
    : result (bool * (list Z * Virt)) :=
  x ← chunk_loop addr size VMPageSize read_chunk (buf, 0, v);
  let '(ok, (buf, _, v)) := x in Ok (ok, (buf, v)).

Definition se_readBlob (addr : Z) (buf : list Z) (size : Z) (v : Virt) : result (list Z * Virt) :=
  x ← tryReadBlob addr buf size v; if (x.1 : bool) then Ok x.2 else Err Fatal.

(** [tryWriteBlob]: a page that is missing is allocated as [allocating] says, and the
    address is translated again.  The result of that is not looked at: were there no
    translation, [paddr] would be indeterminate, for which [no_paddr] stands. *)
Definition no_paddr (o : option Z) : result Z := of_option Panic o.

Definition write_fault (allocating : AllocType) (a : Z) (v : Virt) : result (bool * Virt) :=
  match allocating with
  | Always =>
      x ← allocateMem (addr_roundDown a VMPageSize) VMPageSize false (v_sys v) (v_proc v);
      Ok (true, mkVirt x.1 x.2 (v_mem v))
  | NextPage =>
      x ← fixupStackFault a (v_sys v) (v_proc v);
      if negb x.1 then Err Panic else Ok (true, mkVirt x.2.1 x.2.2 (v_mem v))
  | Never => Ok (false, v)
  end.

Definition write_chunk (allocating : AllocType) (a k : Z) (x : list Z * Z * Virt)
    : result (bool * (list Z * Z * Virt)) :=
  let '(buf, prevSize, v) := x in
  let '(o, v) := v_translate a v in
  y ← match o with
      | Some paddr => Ok (true, (paddr, v))
      | None =>
          z ← write_fault allocating a v;
          if negb z.1 then Ok (false, (0, z.2)) else
          let '(o, v) := v_translate a z.2 in
          paddr ← no_paddr o; Ok (true, (paddr, v))
      end;
  let '(ok, (paddr, v)) := y in
  if negb ok then Ok (false, (buf, prevSize, v)) else
  w ← pp_writeBlob paddr buf prevSize (i32 k) (v_mem v);
  Ok (true, (w.1, i32 (prevSize + k), with_v_mem w.2 v)).

Definition tryWriteBlob (allocating : AllocType) (addr : Z) (buf : list Z) (size : Z) (v : Virt)
    : result (bool * Virt) :=
  x ← chunk_loop addr size VMPageSize (write_chunk allocating) (buf, 0, v);
  let '(ok, (_, _, v)) := x in Ok (ok, v).

Definition se_writeBlob (allocating : AllocType) (addr : Z) (buf : list Z) (size : Z) (v : Virt)
    : result Virt :=
  x ← tryWriteBlob allocating addr buf size v; if (x.1 : bool) then Ok x.2 else Err Fatal.

(** [tryMemsetBlob] allocates only under [Always]. *)
Definition memset_chunk (allocating : AllocType) (val a k : Z) (v : Virt) : result (bool * Virt) :=
  let '(o, v) := v_translate a v in
  y ← match o with
      | Some paddr => Ok (true, (paddr, v))
      | None =>
          match allocating with
          | Always =>
              z ← write_fault Always a v;
              let '(o, v) := v_translate a z.2 in
              paddr ← no_paddr o; Ok (true, (paddr, v))
          | _ => Ok (false, (0, v))
          end
      end;
  let '(ok, (paddr, v)) := y in
  if negb ok then Ok (false, v) else
  m ← pp_memsetBlob paddr val (i32 k) (v_mem v);
  Ok (true, with_v_mem m v).

Definition tryMemsetBlob (allocating : AllocType) (addr val size : Z) (v : Virt)
    : result (bool * Virt) :=
  chunk_loop addr size VMPageSize (memset_chunk allocating val) v.

Definition se_memsetBlob (allocating : AllocType) (addr val size : Z) (v : Virt) : result Virt :=
  x ← tryMemsetBlob allocating addr val size v; if (x.1 : bool) then Ok x.2 else Err Fatal.

(** [tryWriteString]: [str] is the array the pointer walks over, its final 0 included. *)
Fixpoint tryWriteString (vaddr : Z) (str : list Z) (v : Virt) : result (bool * Virt) :=
  match str with
  | [] => Err OutOfBounds
  | c :: str' =>
      let '(o, v) := v_translate vaddr v in
      match o with
      | None => Ok (false, v)
      | Some paddr =>
          w ← pp_writeBlob paddr [c] 0 1 (v_mem v);
          let v := with_v_mem w.2 v in
          if c =? 0 then Ok (true, v) else tryWriteString (u64 (vaddr + 1)) str' v
      end
  end.

Definition se_writeString (addr : Z) (str : list Z) (v : Virt) : result Virt :=
  x ← tryWriteString addr str v; if (x.1 : bool) then Ok x.2 else Err Fatal.

(** [tryReadString] appends to [str] until it reads a 0. *)
Fixpoint tryReadString (fuel : nat) (str : list Z) (vaddr : Z) (v : Virt)
    : result (bool * (list Z * Virt)) :=
  match fuel with
  | O => Err OutOfFuel
  | S fuel' =>
      let '(o, v) := v_translate vaddr v in
      match o with
      | None => Ok (false, (str, v))
      | Some paddr =>
          y ← pp_readBlob paddr [0] 0 1 (v_mem v);
          c ← arr_get y.1 0;
          let v := with_v_mem y.2 v in
          if c =? 0 then Ok (true, (str, v))
          else tryReadString fuel' (str ++ [c]) (u64 (vaddr + 1)) v
      end
  end.

Definition se_readString (fuel : nat) (str : list Z) (addr : Z) (v : Virt)
    : result (list Z * Virt) :=
  x ← tryReadString fuel str addr v; if (x.1 : bool) then Ok x.2 else Err Fatal.

End Pages.

Arguments Virt E M : clear implicits.
