(* ===== verification/VirtMemSpec.v ===== *)
(** What a proxy relies on: a memory that answers a functional read with the bytes at
    the addresses and keeps the bytes of a functional write.  The blobs of [PortProxy]
    are then loads and stores of byte ranges, however the port splits them, and
    mem/simple_mem.cc is such a memory. *)

From S2P Require Import Prelude IntMath Request MemCmd Packet PacketSpec PacketQueue PortMap CacheAccess Memory ChunkGen PageTable VirtMem.

(** * Byte ranges *)

Definition load (f : Z -> Z) (a n : Z) : list Z := f <$> seqZ a n.
Definition store (f : Z -> Z) (a : Z) (d : list Z) : Z -> Z :=
  fun x => if decide (a <= x < a + Z.of_nat (length d)) then d !!! Z.to_nat (x - a) else f x.

(** A buffer with bytes put at an offset. *)
Definition put (buf : list Z) (off : Z) (d : list Z) : list Z :=
  take (Z.to_nat off) buf ++ d ++ drop (Z.to_nat (off + Z.of_nat (length d))) buf.

Lemma load_length f a n : length (load f a n) = Z.to_nat n.
Proof. unfold load. by rewrite length_fmap, length_seqZ. Qed.

Lemma load_app f a n m : 0 <= n -> 0 <= m -> load f a (n + m) = load f a n ++ load f (a + n) m.
Proof. intros Hn Hm. unfold load. rewrite seqZ_app by lia. by rewrite fmap_app. Qed.

Lemma load_ext f g a n : (forall x, a <= x < a + n -> f x = g x) -> load f a n = load g a n.
Proof.
  intros H. unfold load. apply list_fmap_ext. intros i x Hx.
  apply list_elem_of_lookup_2, elem_of_seqZ in Hx. by apply H.
Qed.

Lemma store_nil f a x : store f a [] x = f x.
Proof. unfold store. rewrite decide_False; [done|]. cbn. lia. Qed.

Lemma store_app f a d d' x :
  store (store f a d) (a + Z.of_nat (length d)) d' x = store f a (d ++ d') x.
Proof.
  unfold store. rewrite length_app. repeat case_decide; try lia; try done.
  - rewrite lookup_total_app_r by lia. f_equal. lia.
  - rewrite lookup_total_app_l by lia. done.
Qed.

Lemma put_length buf off d :
  0 <= off -> off + Z.of_nat (length d) <= Z.of_nat (length buf) -> length (put buf off d) = length buf.
Proof. intros H1 H2. unfold put. rewrite !length_app, length_take, length_drop. lia. Qed.

Lemma put_put buf off d d' :
  0 <= off -> off + Z.of_nat (length d) + Z.of_nat (length d') <= Z.of_nat (length buf) ->
  put (put buf off d) (off + Z.of_nat (length d)) d' = put buf off (d ++ d').
Proof.
  intros H1 H2. unfold put at 1.
  assert (Hl : length (take (Z.to_nat off) buf ++ d) = Z.to_nat (off + Z.of_nat (length d)))
    by (rewrite length_app, length_take; lia).
  unfold put. rewrite (app_assoc (take _ _) d), take_app_length' by done.
  rewrite drop_app_ge by lia. rewrite drop_drop, Hl, length_app. rewrite <- !app_assoc.
  do 4 f_equal. lia.
Qed.

Lemma put_self buf off n :
  0 <= off -> 0 <= n -> off + n <= Z.of_nat (length buf) ->
  put buf off (take (Z.to_nat n) (drop (Z.to_nat off) buf)) = buf.
Proof.
  intros H1 H2 H3. unfold put. rewrite length_take, length_drop.
  replace (Z.to_nat (off + Z.of_nat (Z.to_nat n `min` (length buf - Z.to_nat off))))
    with (Z.to_nat off + Z.to_nat n)%nat by lia.
  rewrite <- drop_drop, take_drop. apply take_drop.
Qed.

Lemma put_nil buf off : put buf off [] = buf.
Proof. unfold put. cbn. rewrite Z.add_0_r. apply take_drop. Qed.

Lemma memcpy_put buf off d :
  0 <= off -> off + Z.of_nat (length d) <= Z.of_nat (length buf) ->
  memcpy buf off d 0 (Z.of_nat (length d)) = Ok (put buf off d).
Proof.
  intros H1 H2. unfold memcpy. rewrite decide_True by lia. unfold put.
  rewrite Nat2Z.id. cbn [Z.to_nat drop]. by rewrite firstn_all.
Qed.

(** * Ports *)

Class FunctionalLaws (M : Type) `{!FunctionalPort M} := {
  fp_view : M -> Z -> Z;
  fp_good : M -> Prop;
  fp_limit : M -> Z;
  fp_block : peerBlockSize = 0 \/ exists k, 0 <= k < 32 /\ peerBlockSize = 2 ^ k;
  fp_read h p m a k d :
    fp_good m -> pkt_cmd p = ReadReq -> carries p a k d -> Z.of_nat (length d) = k -> 0 < k ->
    a + k <= fp_limit m ->
    exists p' m', sendFunctional h p m = Ok (p', m') /\ getPtr p' = Ok (load (fp_view m) a k) /\
      fp_good m' /\ fp_limit m' = fp_limit m /\ forall x, fp_view m' x = fp_view m x;
  fp_write h p m a k d :
    fp_good m -> pkt_cmd p = WriteReq -> carries p a k d -> Z.of_nat (length d) = k -> 0 < k ->
    a + k <= fp_limit m ->
    exists p' m', sendFunctional h p m = Ok (p', m') /\ getPtr p' = Ok d /\
      fp_good m' /\ fp_limit m' = fp_limit m /\ forall x, fp_view m' x = store (fp_view m) a d x
}.

Section Blobs.

Context {M : Type} `{!FunctionalPort M} `{!FunctionalLaws M} (junk : Request) (curTick : Z).

Lemma flag_kept f m i : Z.testbit f i = true -> Z.testbit m i = true -> Flags_isSet f m = true.
Proof.
  intros Hf Hm. apply negb_true_iff, Z.eqb_neq. intros E0.
  assert (Hb : Z.testbit (Z.land f m) i = false) by (rewrite E0; apply Z.bits_0).
  by rewrite Z.land_spec, Hf, Hm in Hb.
Qed.

Lemma flag_added f m i : Z.testbit m i = true -> Z.testbit (Flags_set f m) i = true.
Proof. intros Hm. unfold Flags_set. rewrite Z.lor_spec, Hm. apply orb_true_r. Qed.

(** The packet of a chunk. *)
Lemma blob_packet cmd a k r d :
  0 <= a -> 0 <= k -> Z.of_nat (length d) = k ->
  exists r' pkt pkt',
    setPhys a k 0 funcMasterId curTick r = Ok r' /\ Packet_new {[0 := r']} 0 cmd curTick = Ok pkt /\
    dataStatic d pkt = Ok pkt' /\ pkt_cmd pkt' = cmd /\ carries pkt' a k d.
Proof.
  intros Ha Hk Hd. unfold setPhys. rewrite cassert_leb by done. cbn [mbind result_bind].
  set (r' := with_privateFlags _ _).
  assert (Hp : hasPaddr r' = true).
  { apply (flag_kept _ _ 1); [|done]. apply flag_added. done. }
  assert (Hs : hasSize r' = true).
  { apply (flag_kept _ _ 0); [|done]. apply flag_added. done. }
  exists r'. assert (Hra : _paddr r' = a) by done. assert (Hrs : _size r' = k) by done.
  clearbody r'. eexists _, _. split; [done|].
  unfold Packet_new, req_deref. rewrite lookup_singleton_eq. cbn [of_option mbind result_bind].
  unfold Packet_fromReq. rewrite Hp, Hs. split; [done|]. split; [done|]. split; [done|].
  split; cbn; [by rewrite Hra|by rewrite Hrs|done|lia|lia].
Qed.

(** What a chunk leaves as it was. *)
Definition same_mem (m m' : M) : Prop :=
  fp_good m' /\ fp_limit m' = fp_limit m /\ forall x, fp_view m' x = fp_view m x.

Lemma read_chunk_ok a k buf off r m :
  fp_good m -> 0 <= a -> 0 < k -> a + k <= fp_limit m -> 0 <= off ->
  off + k <= Z.of_nat (length buf) ->
  exists r' m', blob_chunk curTick ReadReq a k (buf, off, r, m)
      = Ok (true, (put buf off (load (fp_view m) a k), off + k, r', m')) /\ same_mem m m'.
Proof.
  intros Hg Ha Hk Hl Ho Hb. set (d := take (Z.to_nat k) (drop (Z.to_nat off) buf)).
  assert (Hd : Z.of_nat (length d) = k) by (unfold d; rewrite length_take, length_drop; lia).
  destruct (blob_packet ReadReq a k r d) as (r' & pkt & pkt' & H1 & H2 & H3 & Hc & Hcar); [lia..|].
  destruct (fp_read {[0 := r']} pkt' m a k d) as (p2 & m' & Hs & Hp2 & Hg' & Hl' & Hv'); [done..|].
  exists r', m'. split; [|done]. unfold blob_chunk. rewrite H1. cbn [mbind result_bind].
  rewrite H2. cbn [mbind result_bind]. fold d. rewrite H3. cbn [mbind result_bind].
  rewrite Hs. cbn [mbind result_bind fst snd]. rewrite Hp2. cbn [mbind result_bind].
  pose proof (load_length (fp_view m) a k) as Hll.
  replace k with (Z.of_nat (length (load (fp_view m) a k))) at 2 by lia.
  rewrite memcpy_put by lia. done.
Qed.

Lemma write_chunk_ok a k buf off r m :
  fp_good m -> 0 <= a -> 0 < k -> a + k <= fp_limit m -> 0 <= off ->
  off + k <= Z.of_nat (length buf) ->
  exists r' m', blob_chunk curTick WriteReq a k (buf, off, r, m) = Ok (true, (buf, off + k, r', m')) /\
    fp_good m' /\ fp_limit m' = fp_limit m /\
    forall x, fp_view m' x
              = store (fp_view m) a (take (Z.to_nat k) (drop (Z.to_nat off) buf)) x.
Proof.
  intros Hg Ha Hk Hl Ho Hb. set (d := take (Z.to_nat k) (drop (Z.to_nat off) buf)).
  assert (Hd : Z.of_nat (length d) = k) by (unfold d; rewrite length_take, length_drop; lia).
  destruct (blob_packet WriteReq a k r d) as (r' & pkt & pkt' & H1 & H2 & H3 & Hc & Hcar); [lia..|].
  destruct (fp_write {[0 := r']} pkt' m a k d) as (p2 & m' & Hs & Hp2 & Hg' & Hl' & Hv'); [done..|].
  exists r', m'. split; [|done]. unfold blob_chunk. rewrite H1. cbn [mbind result_bind].
  rewrite H2. cbn [mbind result_bind]. fold d. rewrite H3. cbn [mbind result_bind].
  rewrite Hs. cbn [mbind result_bind fst snd]. rewrite Hp2. cbn [mbind result_bind].
  replace k with (Z.of_nat (length d)) at 1 by lia. rewrite memcpy_put by lia. cbn.
  unfold d at 1. rewrite put_self by lia. done.
Qed.

Lemma read_run_ok c a n cs : covers c a n cs -> forall buf off r m,
  fp_good m -> 0 <= a -> a + n <= fp_limit m -> 0 <= off -> off + n <= Z.of_nat (length buf) ->
  exists r' m', run_chunks (blob_chunk curTick ReadReq) cs (buf, off, r, m)
      = Ok (true, (put buf off (load (fp_view m) a n), off + n, r', m')) /\ same_mem m m'.
Proof.
  assert (Hnn : forall c a n cs, covers c a n cs -> 0 <= n) by (induction 1; lia).
  induction 1 as [a|a k n cs Hk _ Hcov IH]; intros buf off r m Hg Ha Hl Ho Hb.
  { exists r, m. cbn. by rewrite put_nil, Z.add_0_r. }
  pose proof (Hnn _ _ _ _ Hcov).
  destruct (read_chunk_ok a k buf off r m) as (r1 & m1 & H1 & Hg1 & Hl1 & Hv1); [done|lia..|].
  pose proof (load_length (fp_view m) a k) as Hll.
  destruct (IH (put buf off (load (fp_view m) a k)) (off + k) r1 m1) as (r2 & m2 & H2 & Hg2 & Hl2 & Hv2);
    [done|lia..| |].
  { rewrite put_length by lia. lia. }
  exists r2, m2. split.
  - cbn [run_chunks]. rewrite H1. cbn [mbind result_bind fst snd]. rewrite H2, load_app by lia.
    rewrite <- put_put by (rewrite ?load_length; lia). rewrite Hll, Z2Nat.id by lia.
    rewrite (load_ext (fp_view m1) (fp_view m)), Z.add_assoc by done. done.
  - split; [done|]. split; [lia|]. intros x. by rewrite Hv2.
Qed.

Lemma write_run_ok c a n cs : covers c a n cs -> forall buf off r m,
  fp_good m -> 0 <= a -> a + n <= fp_limit m -> 0 <= off -> off + n <= Z.of_nat (length buf) ->
  exists r' m', run_chunks (blob_chunk curTick WriteReq) cs (buf, off, r, m)
      = Ok (true, (buf, off + n, r', m')) /\ fp_good m' /\ fp_limit m' = fp_limit m /\
    forall x, fp_view m' x
              = store (fp_view m) a (take (Z.to_nat n) (drop (Z.to_nat off) buf)) x.
Proof.
  assert (Hnn : forall c a n cs, covers c a n cs -> 0 <= n) by (induction 1; lia).
  induction 1 as [a|a k n cs Hk _ Hcov IH]; intros buf off r m Hg Ha Hl Ho Hb.
  { exists r, m. cbn. rewrite Z.add_0_r. split; [done|]. split; [done|]. split; [done|].
    intros x. change (take (Z.to_nat 0) (drop (Z.to_nat off) buf)) with (@nil Z). by rewrite store_nil. }
  pose proof (Hnn _ _ _ _ Hcov).
  destruct (write_chunk_ok a k buf off r m) as (r1 & m1 & H1 & Hg1 & Hl1 & Hv1); [done|lia..|].
  destruct (IH buf (off + k) r1 m1) as (r2 & m2 & H2 & Hg2 & Hl2 & Hv2); [done|lia..|].
  exists r2, m2. split; [|split; [done|split; [lia|]]].
  - cbn [run_chunks]. rewrite H1. cbn [mbind result_bind fst snd]. rewrite H2, Z.add_assoc. done.
  - intros x. rewrite Hv2.
    set (d1 := take (Z.to_nat k) (drop (Z.to_nat off) buf)) in *.
    assert (Hd1 : Z.of_nat (length d1) = k) by (unfold d1; rewrite length_take, length_drop; lia).
    replace (Z.to_nat (k + n)) with (Z.to_nat k + Z.to_nat n)%nat by lia.
    rewrite <- take_take_drop. fold d1. rewrite <- store_app, Hd1, drop_drop.
    replace (Z.to_nat (off + k)) with (Z.to_nat off + Z.to_nat k)%nat by lia.
    unfold store at 1 2. case_decide; [done|]. by rewrite Hv1.
Qed.

Definition blob_bounds (a n : Z) : Prop := 0 <= a /\ 0 <= n < 2 ^ 31 /\ a + n + peerBlockSize < 2 ^ 64.

Lemma readBlob_ok a buf off n m :
  fp_good m -> blob_bounds a n -> a + n <= fp_limit m -> 0 <= off ->
  off + n <= Z.of_nat (length buf) ->
  exists m', pp_readBlob junk curTick a buf off n m = Ok (put buf off (load (fp_view m) a n), m') /\
             same_mem m m'.
Proof.
  intros Hg (H1 & H2 & H3) Hl Ho Hb.
  destruct (chunk_loop_run a n peerBlockSize (blob_chunk (M := M) curTick ReadReq)) as (cs & Hcov & Hrun);
    [lia..|apply fp_block|].
  destruct (read_run_ok _ _ _ _ Hcov buf off (Request_new junk) m) as (r' & m' & Hr & Hs); [done..|].
  exists m'. split; [|done]. unfold pp_readBlob, blobHelper. rewrite Hrun, Hr. done.
Qed.

Lemma writeBlob_ok a buf off n m :
  fp_good m -> blob_bounds a n -> a + n <= fp_limit m -> 0 <= off ->
  off + n <= Z.of_nat (length buf) ->
  exists m', pp_writeBlob junk curTick a buf off n m = Ok (buf, m') /\
    fp_good m' /\ fp_limit m' = fp_limit m /\
    forall x, fp_view m' x = store (fp_view m) a (take (Z.to_nat n) (drop (Z.to_nat off) buf)) x.
Proof.
  intros Hg (H1 & H2 & H3) Hl Ho Hb.
  destruct (chunk_loop_run a n peerBlockSize (blob_chunk (M := M) curTick WriteReq)) as (cs & Hcov & Hrun);
    [lia..|apply fp_block|].
  destruct (write_run_ok _ _ _ _ Hcov buf off (Request_new junk) m) as (r' & m' & Hr & Hs); [done..|].
  exists m'. split; [|done]. unfold pp_writeBlob, blobHelper. rewrite Hrun, Hr. done.
Qed.

End Blobs.

(** * The fixed-latency memory *)

(** A port of this class announces no block size. *)
#[global] Instance SimpleMemoryPort : FunctionalPort SimpleMemory := {
  peerBlockSize := 0;
  sendFunctional h pkt s := sm_recvFunctional pkt s
}.

Definition host_byte (s : SimpleMemory) (x : Z) : Z :=
  if decide (0 <= x) then default 0 (default [] (am_pmem (sm_mem s)) !! Z.to_nat x) else 0.

(** It has contents, starts at address 0, and has no response to send. *)
Record idle_mem (s : SimpleMemory) : Prop := {
  im_queue : pq_transmitList (sm_queue s) = [];
  im_start : r_start (am_range (sm_mem s)) = 0;
  im_end : 0 <= r_end (am_range (sm_mem s)) < 2 ^ 64 - 1;
  im_bytes : exists d, am_pmem (sm_mem s) = Some d /\
                       Z.of_nat (length d) = r_end (am_range (sm_mem s)) + 1
}.

Lemma makeResponse_ptr p d :
  getPtr p = Ok d -> needsResponse p = true -> isRequest p = true ->
  exists p', makeResponse p = Ok p' /\ getPtr p' = Ok d.
Proof.
  intros Hd Hn Hr. unfold makeResponse. rewrite Hn, Hr. cbn [cassert mbind result_bind].
  eexists. split; [done|]. revert Hd. unfold getPtr, pkt_test. cbn.
  assert (Hf : forall f, Flags_isSet (Flags_clear f EXPRESS_SNOOP) (Z.lor STATIC_DATA DYNAMIC_DATA)
                         = Flags_isSet f (Z.lor STATIC_DATA DYNAMIC_DATA)).
  { intros f. unfold Flags_isSet, Flags_clear. do 2 f_equal. apply Z.bits_inj'. intros n Hn0.
    rewrite !Z.land_spec, Z.ldiff_spec. destruct (Z.eqb_spec n 1) as [->|Hne].
    - by rewrite !andb_false_r.
    - assert (Z.testbit EXPRESS_SNOOP n = false) as ->; [|by rewrite andb_true_r].
      unfold EXPRESS_SNOOP. change 2 with (2 ^ 1). rewrite Z.pow2_bits_eqb by lia.
      by apply Z.eqb_neq. }
  by rewrite Hf.
Qed.

Lemma idle_offset p a k d s :
  idle_mem s -> carries p a k d -> 0 < k -> a + k <= r_end (am_range (sm_mem s)) + 1 ->
  PacketQueue_checkFunctional p (sm_queue s) = Ok (false, p, sm_queue s) /\
  mem_offset p (sm_mem s) = Ok a.
Proof.
  intros [Hq H0 He _] [Ha Hn _ _ [Hp1 Hp2]] Hk Hl. split.
  - unfold PacketQueue_checkFunctional. rewrite Hq. cbn. do 2 f_equal.
    destruct (sm_queue s). cbn in *. by rewrite Hq.
  - unfold mem_offset. rewrite Ha, Hn, !bind_Ok_l, H0. rewrite u64_small by lia.
    rewrite cassert_true; [by rewrite Z.sub_0_r|]. apply andb_true_iff; split; apply Z.leb_le; lia.
Qed.

Lemma getPtr_with_data p d d' : getPtr p = Ok d -> getPtr (with_pkt_data (Some d') p) = Ok d'.
Proof. unfold getPtr, pkt_test. cbn. by destruct (Flags_isSet _ _). Qed.

Lemma host_load m s a k :
  am_pmem (sm_mem s) = Some m -> 0 <= a -> 0 <= k -> a + k <= Z.of_nat (length m) ->
  take (Z.to_nat k) (drop (Z.to_nat a) m) = load (host_byte s) a k.
Proof.
  intros Hm Ha Hk Hl. apply list_eq. intros i. destruct (decide (i < Z.to_nat k)%nat) as [Hik|Hik].
  - rewrite lookup_take_lt, lookup_drop by done. unfold load.
    rewrite list_lookup_fmap, lookup_seqZ_lt by lia. cbn. unfold host_byte.
    rewrite decide_True by lia. rewrite Hm. cbn.
    destruct (lookup_lt_is_Some_2 m (Z.to_nat a + i)) as [v Hv]; [lia|].
    replace (Z.to_nat (a + Z.of_nat i)) with (Z.to_nat a + i)%nat by lia. by rewrite Hv.
  - rewrite lookup_take_ge by lia. symmetry. apply lookup_ge_None_2. rewrite load_length. lia.
Qed.

Lemma host_store m s s' a d x :
  am_pmem (sm_mem s) = Some m -> am_pmem (sm_mem s') = Some (put m a d) ->
  0 <= a -> a + Z.of_nat (length d) <= Z.of_nat (length m) ->
  host_byte s' x = store (host_byte s) a d x.
Proof.
  intros Hm Hm' Ha Hl. unfold host_byte. rewrite Hm, Hm'. cbn [default from_option id]. unfold id, store, put.
  destruct (decide (0 <= x)) as [H0|H0]; [|by rewrite decide_False by lia].
  assert (Ht : length (take (Z.to_nat a) m) = Z.to_nat a) by (rewrite length_take; lia).
  case_decide as Hx.
  - rewrite lookup_app_r by lia. rewrite lookup_app_l by lia. rewrite Ht.
    replace (Z.to_nat x - Z.to_nat a)%nat with (Z.to_nat (x - a)) by lia.
    destruct (lookup_lt_is_Some_2 d (Z.to_nat (x - a))) as [v Hv]; [lia|].
    by rewrite (list_lookup_total_correct _ _ _ Hv), Hv.
  - f_equal. destruct (decide (x < a)) as [Hxa|Hxa].
    + rewrite lookup_app_l by lia. by rewrite lookup_take_lt by lia.
    + rewrite lookup_app_r by lia. rewrite lookup_app_r by lia. rewrite lookup_drop, Ht. f_equal. lia.
Qed.

Lemma idle_read h p s a k d :
  idle_mem s -> pkt_cmd p = ReadReq -> carries p a k d -> Z.of_nat (length d) = k -> 0 < k ->
  a + k <= r_end (am_range (sm_mem s)) + 1 ->
  exists p', sendFunctional h p s = Ok (p', s) /\ getPtr p' = Ok (load (host_byte s) a k).
Proof.
  intros Hi Hc Hcar Hd Hk Hl. cbn [sendFunctional SimpleMemoryPort].
  destruct (idle_offset p a k d s Hi Hcar Hk Hl) as [Hq Ho].
  destruct Hi as [Hq0 H0 He (m & Hm & Hlm)]. destruct Hcar as [Ha Hn Hp _ [Hp1 Hp2]].
  unfold sm_recvFunctional. rewrite Hq. cbn [mbind result_bind].
  unfold mem_functionalAccess. cbn [sm_mem with_sm_queue]. rewrite Ho. cbn [mbind result_bind].
  unfold isRead. rewrite Hc. cbn [cmd_isRead]. unfold mem_read. rewrite Hm. unfold setData.
  rewrite Hp, Hn. cbn [mbind result_bind]. unfold memcpy. rewrite decide_True by lia.
  rewrite (host_load m s) by (done || lia). rewrite drop_ge, app_nil_r by lia.
  change (take (Z.to_nat 0) d) with (@nil Z). cbn [app mbind result_bind].
  destruct (makeResponse_ptr (with_pkt_data (Some (load (host_byte s) a k)) p)
              (load (host_byte s) a k)) as (p' & -> & Hp').
  { by eapply getPtr_with_data. }
  { unfold needsResponse. cbn. by rewrite Hc. }
  { unfold isRequest. cbn. by rewrite Hc. }
  exists p'. split; [|done]. cbn. by destruct s.
Qed.

Lemma idle_write h p s a k d :
  idle_mem s -> pkt_cmd p = WriteReq -> carries p a k d -> Z.of_nat (length d) = k -> 0 < k ->
  a + k <= r_end (am_range (sm_mem s)) + 1 ->
  exists p' m m', am_pmem (sm_mem s) = Some m /\ m' = put m a d /\
    sendFunctional h p s = Ok (p', with_sm_mem (with_am_pmem (Some m') (sm_mem s)) s) /\
    getPtr p' = Ok d.
Proof.
  intros Hi Hc Hcar Hd Hk Hl. cbn [sendFunctional SimpleMemoryPort].
  destruct (idle_offset p a k d s Hi Hcar Hk Hl) as [Hq Ho].
  destruct Hi as [Hq0 H0 He (m & Hm & Hlm)]. destruct Hcar as [Ha Hn Hp _ [Hp1 Hp2]].
  destruct (makeResponse_ptr p d) as (p' & Hmr & Hp'); [done|..].
  { unfold needsResponse. by rewrite Hc. }
  { unfold isRequest. by rewrite Hc. }
  exists p', m, (put m a d). split; [done|]. split; [done|]. split; [|done].
  unfold sm_recvFunctional. rewrite Hq. cbn [mbind result_bind].
  unfold mem_functionalAccess. cbn [sm_mem with_sm_queue]. rewrite Ho. cbn [mbind result_bind].
  unfold isRead, isWrite. rewrite Hc. cbn [cmd_isRead cmd_isWrite]. unfold mem_write. rewrite Hm.
  unfold writeData. rewrite Hp, Hn. cbn [mbind result_bind]. rewrite <- Hd.
  rewrite memcpy_put by lia. cbn [mbind result_bind]. rewrite Hmr. done.
Qed.

#[global] Instance SimpleMemoryLaws : FunctionalLaws SimpleMemory.
Proof.
  refine {| fp_view := host_byte; fp_good := idle_mem;
            fp_limit := fun s => r_end (am_range (sm_mem s)) + 1 |}.
  - by left.
  - intros h p s a k d Hi Hc Hcar Hd Hk Hl.
    destruct (idle_read h p s a k d) as (p' & Hs & Hp'); [done..|]. eauto 8.
  - intros h p s a k d Hi Hc Hcar Hd Hk Hl.
    destruct (idle_write h p s a k d) as (p' & m & m' & Hm & -> & Hs & Hp'); [done..|].
    exists p', (with_sm_mem (with_am_pmem (Some (put m a d)) (sm_mem s)) s).
    split; [done|]. split; [done|]. destruct Hi as [Hq0 H0 He (m0 & Hm0 & Hlm)].
    rewrite Hm in Hm0. injection Hm0 as <-. destruct Hcar as [_ _ _ _ [Ha _]].
    split; [|split; [done|]].
    + split; [done..|]. eexists. split; [done|]. cbn. rewrite put_length by lia. done.
    + intros x. apply (host_store m); (done || lia).
Defined.
