(* ===== verification/VirtMemRun.v ===== *)
(** The address spaces of processes that share a memory: what a process reads through
    its proxy is what it wrote there last, whatever the other processes do, and pages
    that are new are zero.

    The specification has no frames, no page tables and no chunks: an address space
    maps addresses to bytes, and there is a number of pages that can still be
    allocated.  Sizes of pages are at most [2^30], memories hold less than [2^31] pages,
    and with [fixAddr] the number of threads divides the number of pages. *)

From S2P Require Import Prelude IntMath Request MemCmd Packet PortMap Memory ChunkGen PageTable VirtMem VirtMemSpec.

Lemma mod_add_mul a b c : c <> 0 -> (a + b * c) mod c = a mod c.
Proof. intros H. by apply Z.mod_add. Qed.

Lemma aligned_step f f' c : 0 < c -> f mod c = 0 -> f' mod c = 0 -> f < f' -> f + c <= f'.
Proof.
  intros Hc H1 H2 Hlt. apply Z.mod_divide in H1 as [q ->]; [|lia].
  apply Z.mod_divide in H2 as [q' ->]; [|lia]. assert (q + 1 <= q') by nia. nia.
Qed.

Section Frames.

Context (lg : Z) (Hlg : 0 <= lg < 31).
#[local] Abbreviation ps := (2 ^ lg).

Lemma ps_bound : 0 < ps <= 2 ^ 30.
Proof. split; [apply Z.pow_pos_nonneg; lia|apply Z.pow_le_mono_r; lia]. Qed.

Lemma VMPageSize_eq : VMPageSize lg = ps.
Proof. unfold VMPageSize. rewrite Z.shiftl_mul_pow2 by lia. lia. Qed.

(** * Frames *)

(** The pages of the memory, of a thread's part of it, and where the frames of a
    region end. *)
Definition mem_pages (s : System) : Z := sys_totalSize s / ps.
Definition part_pages (s : System) : Z := mem_pages s / sys_numPids s.
Definition region (s : System) (pid : Z) : Z := if sys_fixAddr s then pid else 0.
Definition lo_page (s : System) (i : Z) : Z := if sys_fixAddr s then i * part_pages s else 0.
Definition hi_page (s : System) (i : Z) : Z :=
  if sys_fixAddr s then (i + 1) * part_pages s else mem_pages s.

Record sys_ok (s : System) : Prop := {
  so_pids : 0 < sys_numPids s < 2 ^ 31;
  so_total : 0 <= sys_totalSize s;
  so_pages : mem_pages s < 2 ^ 31;
  so_prod : sys_totalSize s * (sys_numPids s + 1) < 2 ^ 62;
  so_div : sys_fixAddr s = true -> sys_totalSize s = sys_numPids s * part_pages s * ps;
  so_ptrs : Z.of_nat (length (pagePtr s)) = sys_numPids s;
  so_range : forall i p, pagePtr s !! i = Some p -> (sys_fixAddr s = false -> i = 0%nat) ->
             lo_page s (Z.of_nat i) <= p <= hi_page s (Z.of_nat i)
}.

(** A frame that nobody has been given. *)
Definition free (s : System) (f : Z) : Prop :=
  exists i p, pagePtr s !! i = Some p /\ (sys_fixAddr s = false -> i = 0%nat) /\
              f mod ps = 0 /\ p * ps <= f < hi_page s (Z.of_nat i) * ps.

(** The frames left for a thread. *)
Definition frames_left (pid : Z) (s : System) : Z :=
  hi_page s (region s pid) - default 0 (pagePtr s !! Z.to_nat (region s pid)).

Lemma part_pos s : sys_ok s -> 0 <= part_pages s.
Proof.
  intros [H1 H2 _ _ _ _ _]. pose proof ps_bound. unfold part_pages, mem_pages.
  apply Z.div_pos; [|lia]. apply Z.div_pos; lia.
Qed.

(** The regions of two threads do not meet. *)
Lemma regions_apart s i j f :
  sys_ok s -> (sys_fixAddr s = false -> i = 0%nat) -> (sys_fixAddr s = false -> j = 0%nat) ->
  lo_page s (Z.of_nat i) * ps <= f < hi_page s (Z.of_nat i) * ps ->
  lo_page s (Z.of_nat j) * ps <= f < hi_page s (Z.of_nat j) * ps -> i = j.
Proof.
  intros Hs Hi Hj H1 H2. pose proof (part_pos _ Hs). pose proof ps_bound.
  unfold lo_page, hi_page in *. destruct (sys_fixAddr s); [|by rewrite Hi, Hj].
  assert (0 < part_pages s) by nia.
  assert (Z.of_nat i * part_pages s < (Z.of_nat j + 1) * part_pages s) by nia.
  assert (Z.of_nat j * part_pages s < (Z.of_nat i + 1) * part_pages s) by nia. nia.
Qed.

Lemma hi_total s i p :
  sys_ok s -> pagePtr s !! i = Some p -> (sys_fixAddr s = false -> i = 0%nat) ->
  hi_page s (Z.of_nat i) * ps <= sys_totalSize s /\ hi_page s (Z.of_nat i) < 2 ^ 31.
Proof.
  intros Hs Hp Hi. pose proof (part_pos _ Hs). pose proof ps_bound.
  pose proof Hs as [H1 H2 H3 H4 H5 H6 H7]. apply lookup_lt_Some in Hp. unfold hi_page.
  destruct (sys_fixAddr s) eqn:Hf.
  - specialize (H5 eq_refl).
    assert ((Z.of_nat i + 1) * part_pages s <= sys_numPids s * part_pages s) by nia.
    split; [nia|]. unfold mem_pages in H3. rewrite H5, Z.div_mul in H3 by lia. lia.
  - split; [|done]. unfold mem_pages. pose proof (Z.mul_div_le (sys_totalSize s) ps ltac:(lia)). lia.
Qed.

Lemma alloc_ok s pid n :
  sys_ok s -> 0 <= pid < sys_numPids s -> 0 <= n < 2 ^ 31 ->
  exists p, pagePtr s !! Z.to_nat (region s pid) = Some p /\
    frames_left pid s = hi_page s (region s pid) - p /\ 0 <= p /\
    allocPhysPages lg n pid s
    = if frames_left pid s <? n then Err Fatal
      else Ok (p * ps, with_pagePtr (<[Z.to_nat (region s pid) := p + n]> (pagePtr s)) s).
Proof.
  intros Hs Hpid Hn. pose proof ps_bound. pose proof (part_pos _ Hs).
  pose proof Hs as [H1 H2 H3 H4 H5 H6 H7].
  assert (Hr : 0 <= region s pid < sys_numPids s) by (unfold region; destruct (sys_fixAddr s); lia).
  assert (Hfx : sys_fixAddr s = false -> Z.to_nat (region s pid) = 0%nat)
    by (unfold region; intros ->; done).
  destruct (lookup_lt_is_Some_2 (pagePtr s) (Z.to_nat (region s pid))) as [p Hp]; [lia|].
  pose proof (H7 _ _ Hp Hfx) as Hrange. pose proof (hi_total _ _ _ Hs Hp Hfx) as Hhi.
  rewrite Z2Nat.id in Hrange, Hhi by lia.
  assert (0 <= lo_page s (region s pid)) by (unfold lo_page; destruct (sys_fixAddr s); nia).
  exists p. split; [done|]. unfold frames_left. rewrite Hp. cbn [default]. split; [done|].
  split; [lia|]. unfold allocPhysPages. fold (region s pid).
  unfold arr_get. rewrite decide_True by lia. rewrite Hp. cbn [of_option mbind result_bind].
  unfold arr_set. rewrite decide_True by lia. cbn [mbind result_bind].
  assert (Hp31 : p < 2 ^ 31) by lia.
  rewrite (u64_small (p + n)) by lia. rewrite !Z.shiftl_mul_pow2 by lia.
  rewrite (u64_small (p * ps)), (u64_small ((p + n) * ps)) by nia.
  match goal with |- (if ?a then _ else _) = (if ?b then _ else _) => assert (a = b) as ->; [|done] end.
  apply eq_true_iff_eq. rewrite !Z.ltb_lt. unfold id. unfold region, hi_page in *.
  destruct (sys_fixAddr s) eqn:Hf.
  - specialize (H5 eq_refl). rewrite (u64_small (pid + 1)), (u64_small (sys_numPids s)) by lia.
    rewrite u64_small by nia. rewrite H5.
    replace (sys_numPids s * part_pages s * ps * (pid + 1))
      with ((pid + 1) * part_pages s * ps * sys_numPids s) by lia.
    rewrite Z.div_mul by lia. nia.
  - unfold mem_pages in *. pose proof (Z.div_mod (sys_totalSize s) ps ltac:(lia)).
    pose proof (Z.mod_pos_bound (sys_totalSize s) ps ltac:(lia)). split; intros Hlt.
    + assert (sys_totalSize s / ps < p + n); [|lia]. apply Z.div_lt_upper_bound; lia.
    + assert (sys_totalSize s / ps + 1 <= p + n) by lia. nia.
Qed.
(** The frames that were handed out are no longer free, and the others still are. *)
Definition take_frames (pid p n : Z) (s : System) : System :=
  with_pagePtr (<[Z.to_nat (region s pid) := p + n]> (pagePtr s)) s.

Lemma region_range s pid : 0 <= pid < sys_numPids s -> 0 <= region s pid < sys_numPids s.
Proof. unfold region. destruct (sys_fixAddr s); lia. Qed.

Lemma region_fix s pid : sys_fixAddr s = false -> Z.to_nat (region s pid) = 0%nat.
Proof. unfold region. by intros ->. Qed.

Section Taking.

Context (s : System) (pid p n : Z).
Context (Hs : sys_ok s) (Hpid : 0 <= pid < sys_numPids s).
Context (Hp : pagePtr s !! Z.to_nat (region s pid) = Some p).
Context (Hn : 0 <= n <= hi_page s (region s pid) - p).

Lemma ptr_range : lo_page s (region s pid) <= p.
Proof.
  pose proof (so_range _ Hs _ _ Hp (region_fix s pid)) as H.
  rewrite Z2Nat.id in H; [lia|]. apply region_range in Hpid. lia.
Qed.

Lemma take_sys_ok : sys_ok (take_frames pid p n s).
Proof.
  pose proof Hs as [H1 H2 H3 H4 H5 H6 H7]. pose proof ptr_range. pose proof (region_range s pid Hpid).
  split; try done; cbn.
  - by rewrite length_insert.
  - intros i q Hq Hi. apply list_lookup_insert_Some in Hq as [(<- & <- & _)|[_ Hq]].
    + rewrite Z2Nat.id by lia. change (lo_page s (region s pid) <= p + n <= hi_page s (region s pid)). lia.
    + by apply H7.
Qed.

Lemma take_left q :
  0 <= q < sys_numPids s ->
  frames_left q (take_frames pid p n s)
  = if region s q =? region s pid then frames_left q s - n else frames_left q s.
Proof.
  intros Hq. pose proof (region_range s pid Hpid). pose proof (region_range s q Hq).
  pose proof (so_ptrs _ Hs). unfold frames_left, take_frames. cbn.
  change (region (with_pagePtr _ s) q) with (region s q).
  change (hi_page (with_pagePtr _ s)) with (hi_page s).
  destruct (Z.eqb_spec (region s q) (region s pid)) as [E0|E0].
  - rewrite E0, list_lookup_insert_eq by lia. rewrite Hp. cbn. unfold id. lia.
  - rewrite list_lookup_insert_ne; [done|]. lia.
Qed.

Lemma taken_free f : f mod ps = 0 -> p * ps <= f < (p + n) * ps ->
  free s f /\ f + ps <= sys_totalSize s.
Proof.
  intros Hf Hr. pose proof ps_bound. pose proof (region_range s pid Hpid).
  pose proof (hi_total _ _ _ Hs Hp (region_fix s pid)) as [Hh _]. rewrite Z2Nat.id in Hh by lia.
  split.
  - exists (Z.to_nat (region s pid)), p. split; [done|]. split; [apply region_fix|].
    rewrite Z2Nat.id by lia. split; [done|]. nia.
  - apply Z.mod_divide in Hf as [q ->]; [|lia]. assert (q + 1 <= p + n) by nia. nia.
Qed.

Lemma take_free f :
  free (take_frames pid p n s) f <-> free s f /\ ~ (p * ps <= f < (p + n) * ps).
Proof.
  pose proof ps_bound. pose proof (region_range s pid Hpid). pose proof ptr_range as Hlo.
  pose proof (so_ptrs _ Hs). unfold free, take_frames. cbn.
  change (hi_page (with_pagePtr _ s)) with (hi_page s). split.
  - intros (i & q & Hq & Hi & Hm & Hr).
    apply list_lookup_insert_Some in Hq as [(<- & <- & _)|[Hne Hq]].
    + rewrite Z2Nat.id in Hr by lia. split; [|nia]. exists (Z.to_nat (region s pid)), p.
      split; [done|]. split; [done|]. split; [done|]. rewrite Z2Nat.id by lia. nia.
    + split; [eauto 10|]. intros Hin. apply Hne.
      pose proof (so_range _ Hs _ _ Hq Hi).
      apply (regions_apart s _ _ f Hs (region_fix s pid) Hi); [|nia].
      rewrite Z2Nat.id by lia. nia.
  - intros [(i & q & Hq & Hi & Hm & Hr) Hni].
    destruct (decide (i = Z.to_nat (region s pid))) as [->|Hne].
    + exists (Z.to_nat (region s pid)), (p + n). rewrite Hp in Hq. injection Hq as <-.
      split; [apply list_lookup_insert_eq; lia|]. split; [done|]. split; [done|]. nia.
    + exists i, q. rewrite list_lookup_insert_ne by done. eauto.
Qed.

End Taking.

End Frames.

(** * The specification *)

Section Spec.

Context (lg : Z).
#[local] Abbreviation ps := (2 ^ lg).

(** What a process sees: the pages it can still get, its bytes, the bottom of its stack. *)
Record PSpec := mkPSpec { sp_left : Z; sp_byte : Z -> option Z; sp_smin : Z }.

Definition sp_mapped (va : Z) (σ : PSpec) : bool := bool_decide (is_Some (sp_byte σ va)).
Definition sp_set (va b : Z) (σ : PSpec) : PSpec :=
  mkPSpec (sp_left σ) (fun a => if a =? va then Some b else sp_byte σ a) (sp_smin σ).
Definition sp_add_page (va : Z) (σ : PSpec) : PSpec :=
  mkPSpec (sp_left σ) (fun a => if a / ps =? va / ps then Some 0 else sp_byte σ a) (sp_smin σ).
Definition sp_take (n : Z) (σ : PSpec) : PSpec := mkPSpec (sp_left σ - n) (sp_byte σ) (sp_smin σ).
Definition sp_lower (σ : PSpec) : PSpec := mkPSpec (sp_left σ) (sp_byte σ) (sp_smin σ - ps).

(** New pages are zero, and must not be there yet. *)
Fixpoint sp_pages (n : nat) (va : Z) (σ : PSpec) : result PSpec :=
  match n with
  | O => Ok σ
  | S n' => if sp_mapped va σ then Err Fatal else sp_pages n' (va + ps) (sp_add_page va σ)
  end.

Definition sp_alloc (n : nat) (va : Z) (σ : PSpec) : result PSpec :=
  if sp_left σ <? Z.of_nat n then Err Fatal else sp_pages n va (sp_take (Z.of_nat n) σ).

(** A missing page: one that lies on the stack is added, one below the stack extends it
    down to that page, unless that makes it too large. *)
Fixpoint sp_down (n : nat) (σ : PSpec) : result PSpec :=
  match n with
  | O => Ok σ
  | S n' => σ ← sp_alloc 1 (sp_smin σ - ps) (sp_lower σ); sp_down n' σ
  end.

Definition sp_grow (base smax va : Z) (σ : PSpec) : result (bool * PSpec) :=
  let bottom := va / ps * ps in
  if (sp_smin σ <=? va) && (va <? base) then
    σ ← sp_alloc 1 bottom σ; Ok (true, σ)
  else if (va <? sp_smin σ) && (base - smax <=? va) then
    if Z.min smax stack_limit <? base - bottom then Err Fatal else
    σ ← sp_down (Z.to_nat ((sp_smin σ - bottom) / ps)) σ; Ok (true, σ)
  else Ok (false, σ).

Definition sp_fault (mode : AllocType) (base smax va : Z) (σ : PSpec) : result (bool * PSpec) :=
  match mode with
  | Never => Ok (false, σ)
  | Always => σ ← sp_alloc 1 (va / ps * ps) σ; Ok (true, σ)
  | NextPage =>
      x ← sp_grow base smax va σ; if (x.1 : bool) then Ok x else Err Panic
  end.

(** Bytes, one at a time, up to the first that is not mapped. *)
Fixpoint sp_write (mode : AllocType) (base smax va : Z) (bs : list Z) (σ : PSpec)
    : result (bool * PSpec) :=
  match bs with
  | [] => Ok (true, σ)
  | b :: bs' =>
      x ← (if sp_mapped va σ then Ok (true, σ) else sp_fault mode base smax va σ);
      if (x.1 : bool) then sp_write mode base smax (va + 1) bs' (sp_set va b x.2) else Ok x
  end.

Fixpoint sp_read (n : nat) (va : Z) (σ : PSpec) : bool * list Z :=
  match n with
  | O => (true, [])
  | S n' =>
      match sp_byte σ va with
      | None => (false, [])
      | Some b => let '(ok, bs) := sp_read n' (va + 1) σ in (ok, b :: bs)
      end
  end.

(** A string ends at its first zero byte. *)
Fixpoint sp_string (fuel : nat) (va : Z) (σ : PSpec) : result (bool * list Z) :=
  match fuel with
  | O => Err OutOfFuel
  | S fuel' =>
      match sp_byte σ va with
      | None => Ok (false, [])
      | Some b =>
          if b =? 0 then Ok (true, []) else
          x ← sp_string fuel' (va + 1) σ; Ok (x.1, b :: x.2)
      end
  end.

(** The operations of a process and what they show. *)
Inductive vop :=
  | VAlloc (va size : Z)
  | VRead (va n : Z)
  | VWrite (va : Z) (bs : list Z)
  | VMemset (va val n : Z)
  | VWriteString (va : Z) (s : list Z)
  | VReadString (fuel : nat) (va : Z).

Inductive vout := VUnit | VDone (ok : bool) | VBytes (ok : bool) (bs : list Z).

Definition sp_op (mode : AllocType) (base smax : Z) (op : vop) (σ : PSpec) : result (vout * PSpec) :=
  match op with
  | VAlloc va size => σ ← sp_alloc (npages_of lg size) va σ; Ok (VUnit, σ)
  | VRead va n =>
      let '(ok, bs) := sp_read (Z.to_nat n) va σ in
      Ok (VBytes ok (bs ++ replicate (Z.to_nat n - length bs) 0), σ)
  | VWrite va bs => x ← sp_write mode base smax va bs σ; Ok (VDone x.1, x.2)
  | VMemset va val n =>
      x ← sp_write (match mode with Always => Always | _ => Never end) base smax va
            (replicate (Z.to_nat n) val) σ;
      Ok (VDone x.1, x.2)
  | VWriteString va s => x ← sp_write Never base smax va (s ++ [0]) σ; Ok (VDone x.1, x.2)
  | VReadString fuel va => x ← sp_string fuel va σ; Ok (VBytes x.1 x.2, σ)
  end.

(** Operations stay above page 0 and below the upper half of the address space, sizes
    are those of an [int], and a string has no zero byte before its end. *)
Definition vop_ok (op : vop) : Prop :=
  match op with
  | VAlloc va size => ps <= va /\ va mod ps = 0 /\ 0 < size < 2 ^ 31 /\ va + size + ps < 2 ^ 63
  | VRead va n | VMemset va _ n => ps <= va /\ 0 <= n < 2 ^ 31 /\ va + n < 2 ^ 62
  | VWrite va bs => ps <= va /\ Z.of_nat (length bs) < 2 ^ 31 /\ va + Z.of_nat (length bs) < 2 ^ 62
  | VWriteString va s =>
      ps <= va /\ va + Z.of_nat (length s) + 1 < 2 ^ 62 /\ Forall (fun c => c <> 0) s
  | VReadString fuel va => ps <= va /\ va + Z.of_nat fuel < 2 ^ 62
  end.

End Spec.

(** A computation of the code against one of the specification: the same fault, or
    related results. *)
Definition simR {A B} (r : result A) (ρ : result B) (Q : A -> B -> Prop) : Prop :=
  match ρ with Ok b => exists a, r = Ok a /\ Q a b | Err e => r = Err e end.

Lemma simR_bind {A B A' B'} (r : result A) (ρ : result B) (f : A -> result A') (g : B -> result B') Q R :
  simR r ρ Q -> (forall a b, Q a b -> simR (f a) (g b) R) -> simR (r ≫= f) (ρ ≫= g) R.
Proof. destruct ρ as [b|e]; cbn; [intros (a & -> & Hq) H; by apply H|by intros ->]. Qed.

Lemma simR_left {A B A'} (r : result A) (ρ : result B) (f : A -> result A') Q (R : A' -> B -> Prop) :
  simR r ρ Q -> (forall a b, Q a b -> simR (f a) (Ok b) R) -> simR (r ≫= f) ρ R.
Proof. destruct ρ as [b|e]; cbn; [intros (a & -> & Hq) H; by apply H|by intros ->]. Qed.

Lemma simR_ret {A B} (a : A) (b : B) (Q : A -> B -> Prop) : Q a b -> simR (Ok a) (Ok b) Q.
Proof. cbn. eauto. Qed.

Lemma simR_weaken {A B} r ρ (Q R : A -> B -> Prop) :
  simR r ρ Q -> (forall a b, Q a b -> R a b) -> simR r ρ R.
Proof. destruct ρ as [b|e]; cbn; [intros (a & -> & Hq) H; eauto|done]. Qed.

(** * Address spaces *)

Section Space.

Context {E : Type} `{!TlbEntryOps E} (lg limit : Z) (Hlg : 0 <= lg < 31).
Context `{!TlbEntryLaws E lg limit} (Hlim : limit <= 2 ^ 64).
#[local] Abbreviation ps := (2 ^ lg).

(** The bytes of a table over a memory. *)
Definition space (t : PageTable E) (g : Z -> Z) (va : Z) : option Z :=
  (fun e => g (pageStart e + va mod ps)) <$> pTable t !! (va / ps * ps).

Definition own (t : PageTable E) (f : Z) : Prop := exists v e, pTable t !! v = Some e /\ pageStart e = f.

Record tab_ok (total : Z) (t : PageTable E) : Prop := {
  to_geom : geom lg t;
  to_fresh : fresh_cache t;
  to_stale : no_stale t;
  to_entry : forall v e, pTable t !! v = Some e ->
             pageStart e mod ps = 0 /\ 0 <= pageStart e /\ pageStart e + ps <= total;
  to_inj : forall v v' e e', pTable t !! v = Some e -> pTable t !! v' = Some e' ->
           pageStart e = pageStart e' -> v = v'
}.

Lemma page_base va : 0 < ps -> va mod ps = 0 -> va / ps * ps = va.
Proof. intros Hp H. pose proof (Z.div_mod va ps ltac:(lia)). lia. Qed.

Lemma space_mapped t g va :
  is_Some (space t g va) <-> is_Some (pTable t !! (va / ps * ps)).
Proof. unfold space. by rewrite fmap_is_Some. Qed.

Lemma tab_insert total t v e :
  tab_ok total t -> pageStart e mod ps = 0 -> 0 <= pageStart e -> pageStart e + ps <= total ->
  ~ own t (pageStart e) ->
  tab_ok total (updateCache v e (with_pTable (<[v := e]> (pTable t)) t)).
Proof.
  intros [H1 H2 H3 H4 H5] He1 He2 He3 Hno. split; [done|by apply fresh_insert|by apply stale_insert|..].
  - cbn. intros v' e' [[<- <-]|[_ Hl]]%lookup_insert_Some; [done|by apply (H4 v')].
  - cbn. intros a b x y [[<- <-]|[Ha Hx]]%lookup_insert_Some [[<- <-]|[Hb Hy]]%lookup_insert_Some Hxy.
    + done.
    + destruct Hno. exists b, y. by split.
    + destruct Hno. exists a, x. by split.
    + by eapply H5.
Qed.

Lemma map_pages_sim total (g : Z -> Z) n : forall va f σ t,
  total <= limit -> tab_ok total t -> va mod ps = 0 -> f mod ps = 0 -> 0 <= f ->
  f + Z.of_nat n * ps <= total ->
  (forall f', f <= f' < f + Z.of_nat n * ps -> ~ own t f') ->
  (forall x, f <= x < f + Z.of_nat n * ps -> g x = 0) ->
  (forall a, sp_byte σ a = space t g a) ->
  simR (map_pages lg false (pages_of lg va n) f t) (sp_pages lg n va σ) (fun t' σ' =>
    tab_ok total t' /\ (forall a, sp_byte σ' a = space t' g a) /\
    (forall f', own t' f' <-> own t f' \/ (f' mod ps = 0 /\ f <= f' < f + Z.of_nat n * ps)) /\
    sp_left σ' = sp_left σ /\ sp_smin σ' = sp_smin σ /\ (forall v, is_Some (pTable t !! v) -> is_Some (pTable t' !! v))
    /\ (n = 1%nat -> is_Some (pTable t' !! va))).
Proof.
  pose proof (ps_bound lg Hlg). induction n as [|n IH]; intros va f σ t Htl Ht Hva Hf Hf0 Hft Hno Hz Hsp.
  { apply simR_ret. split; [done|]. split; [done|]. split; [|split; [done|split; [done|split; [done|done]]]]. intros f'.
    split; [by left|]. intros [?|[_ ?]]; [done|lia]. }
  rewrite pages_of_S. cbn [map_pages sp_pages negb andb].
  assert (0 <= Z.of_nat n * ps) by nia.
  assert (Hmap : sp_mapped va σ = bool_decide (is_Some (pTable t !! va))).
  { unfold sp_mapped. apply bool_decide_ext. rewrite Hsp, space_mapped, page_base by (done || lia). done. }
  rewrite Hmap. case_bool_decide as Hb; [done|].
  set (e := TlbEntry_new (pt_pid t) va f).
  assert (He : pageStart e = f) by (apply (new_pageStart (limit := limit)); [lia|done]).
  assert (Ht' : tab_ok total (updateCache va e (with_pTable (<[va := e]> (pTable t)) t))).
  { apply tab_insert; rewrite ?He; try done; [lia|]. apply Hno. lia. }
  set (t1 := updateCache va e (with_pTable (<[va := e]> (pTable t)) t)) in *.
  assert (Hown : forall f', own t1 f' <-> own t f' \/ f' = f).
  { intros f'. split.
    - intros (v & x & Hx & <-). cbn in Hx.
      apply lookup_insert_Some in Hx as [[<- <-]|[Hne Hx]]; [by right|left; by exists v, x].
    - intros [(v & x & Hx & <-)| ->].
      + exists v, x. split; [|done]. cbn. rewrite lookup_insert_ne; [done|]. intros ->.
        apply Hb. eauto.
      + exists va, e. split; [|done]. cbn. apply lookup_insert_eq. }
  eapply simR_weaken; [apply (IH (va + ps) (f + ps) (sp_add_page lg va σ) t1); try done|].
  - replace (va + ps) with (va + 1 * ps) by lia. rewrite mod_add_mul; lia.
  - replace (f + ps) with (f + 1 * ps) by lia. rewrite mod_add_mul; lia.
  - lia.
  - lia.
  - intros f' Hf'. rewrite Hown. intros [Hx| ->]; [|lia]. apply (Hno f'); [lia|done].
  - intros x Hx. apply Hz. lia.
  - intros a. cbn. rewrite Hsp. unfold space. cbn.
    destruct (Z.eqb_spec (a / ps) (va / ps)) as [Ha|Ha].
    + rewrite Ha, (page_base va), lookup_insert_eq by (done || lia). cbn.
      rewrite He, Hz; [done|]. pose proof (Z.mod_pos_bound a ps ltac:(lia)). lia.
    + rewrite lookup_insert_ne; [done|]. intros Hc. apply Ha.
      rewrite Hc, Z.div_mul by lia. done.
  - cbn beta. intros t' σ' (Ht2 & Hsp' & Hown' & Hl & Hm & Hpres & _).
    split; [done|]. split; [done|]. split; [|split; [done|split; [done|split]]].
    + intros f'. rewrite Hown', Hown. split.
      * intros [[Hx| ->]|[Hm' Hr]]; [by left|right; split; [done|lia]|right; split; [done|lia]].
      * intros [Hx|[Hm' Hr]]; [by left; left|]. destruct (decide (f' = f)) as [->|Hne]; [left; by right|].
        right. split; [done|]. split; [|lia].
        apply aligned_step; (done || lia).
    + intros v Hv. apply Hpres. cbn. destruct (decide (v = va)) as [->|Hne].
      * rewrite lookup_insert_eq. eauto.
      * by rewrite lookup_insert_ne.
    + intros _. apply Hpres. cbn. rewrite lookup_insert_eq. eauto.
Qed.

End Space.

(** * Theorems

    One process against the specification: allocation, stack growth, blobs and
    strings through the proxy, each against the same operation on an address space, and
    what they leave alone in the system and in the memory. *)

Section Proc.

Context {E : Type} `{!TlbEntryOps E} (lg limit : Z) (Hlg : 0 <= lg < 31).
Context `{!TlbEntryLaws E lg limit} (Hlim : limit <= 2 ^ 64).
Context {M : Type} `{!FunctionalPort M} `{!FunctionalLaws M} (junk : Request) (curTick : Z).
#[local] Abbreviation ps := (2 ^ lg).
#[local] Abbreviation Virt := (Virt E M).

Definition v_table (v : Virt) : PageTable E := pr_pTable (v_proc v).
Definition v_view (v : Virt) : Z -> Z := fp_view (v_mem v).

(** * The invariant, and what an operation may change *)

Record vinv (v : Virt) : Prop := {
  vi_sys : sys_ok lg (v_sys v);
  vi_tab : tab_ok lg (sys_totalSize (v_sys v)) (v_table v);
  vi_total : sys_totalSize (v_sys v) <= limit /\ sys_totalSize (v_sys v) <= fp_limit (v_mem v);
  vi_good : fp_good (v_mem v);
  vi_pid : 0 <= pr_pid (v_proc v) < sys_numPids (v_sys v);
  vi_own : forall f, own (v_table v) f -> ~ free lg (v_sys v) f;
  vi_zero : forall f x, free lg (v_sys v) f -> f <= x < f + ps -> v_view v x = 0;
  vi_stack : stack_min (v_proc v) mod ps = 0 /\ ps <= stack_min (v_proc v) <= stack_base (v_proc v) /\
             stack_base (v_proc v) < 2 ^ 63 /\ 0 <= max_stack_size (v_proc v) <= stack_base (v_proc v)
}.

Record vrel (v : Virt) (σ : PSpec) : Prop := {
  vr_left : sp_left σ = frames_left lg (pr_pid (v_proc v)) (v_sys v);
  vr_byte : forall a, sp_byte σ a = space lg (v_table v) (v_view v) a;
  vr_smin : sp_smin σ = stack_min (v_proc v)
}.

(** Frames are only taken from those that are free, and bytes only change in the frames
    of the process. *)
Record vstep (v v' : Virt) : Prop := {
  st_sys : sys_totalSize (v_sys v') = sys_totalSize (v_sys v) /\
           sys_numPids (v_sys v') = sys_numPids (v_sys v) /\
           sys_fixAddr (v_sys v') = sys_fixAddr (v_sys v);
  st_proc : pr_pid (v_proc v') = pr_pid (v_proc v) /\
            stack_base (v_proc v') = stack_base (v_proc v) /\
            max_stack_size (v_proc v') = max_stack_size (v_proc v);
  st_limit : fp_limit (v_mem v') = fp_limit (v_mem v);
  st_free : forall f, free lg (v_sys v') f -> free lg (v_sys v) f;
  st_mono : forall f, own (v_table v) f -> own (v_table v') f;
  st_own : forall f, own (v_table v') f -> own (v_table v) f \/ free lg (v_sys v) f;
  st_view : forall x, (forall f, own (v_table v') f -> ~ f <= x < f + ps) ->
            v_view v' x = v_view v x;
  st_left : forall q, 0 <= q < sys_numPids (v_sys v) ->
            frames_left lg q (v_sys v')
            = if region (v_sys v) q =? region (v_sys v) (pr_pid (v_proc v))
              then frames_left lg q (v_sys v) + (frames_left lg (pr_pid (v_proc v)) (v_sys v')
                                                 - frames_left lg (pr_pid (v_proc v)) (v_sys v))
              else frames_left lg q (v_sys v)
}.

Lemma vstep_refl v : vstep v v.
Proof. split; try done; eauto. intros q _. case_match; lia. Qed.

Lemma vstep_trans v1 v2 v3 : vstep v1 v2 -> vstep v2 v3 -> vstep v1 v3.
Proof.
  intros [(a1 & a2 & a3) (b1 & b2 & b3) c1 d1 e1 f1 g1 h1]
         [(a1' & a2' & a3') (b1' & b2' & b3') c2 d2 e2 f2 g2 h2].
  split; [repeat split; congruence|repeat split; congruence|congruence|eauto|eauto|..].
  - intros f [Hf|Hf]%f2; [by apply f1|right; by apply d1].
  - intros x Hx. rewrite g2 by done. apply g1. intros f Hf. apply Hx, e2, Hf.
  - intros q Hq. pose proof (h1 q Hq) as Hq1. pose proof (h2 q ltac:(rewrite a2; exact Hq)) as Hq2.
    assert (Hr : forall x, region (v_sys v2) x = region (v_sys v1) x)
      by (intros x; unfold region; by rewrite a3).
    rewrite !Hr, b1 in Hq2. destruct (_ =? _); lia.
Qed.

(** What relates a run of the code to one of the specification. *)
Definition vgoes (v v' : Virt) (σ' : PSpec) : Prop := vinv v' /\ vrel v' σ' /\ vstep v v'.

Lemma vgoes_trans v v1 v2 σ1 σ2 : vgoes v v1 σ1 -> vgoes v1 v2 σ2 -> vgoes v v2 σ2.
Proof. intros (_ & _ & H1) (H2 & H3 & H4). split; [done|]. split; [done|]. by eapply vstep_trans. Qed.

(** * Allocation *)

Lemma npages_quot size :
  0 < size < 2 ^ 31 ->
  i32 (Z.quot (size + VMPageSize lg - 1) (VMPageSize lg)) = Z.of_nat (npages_of lg size) /\
  0 <= Z.of_nat (npages_of lg size) < 2 ^ 31.
Proof.
  intros Hs. pose proof (ps_bound lg Hlg). rewrite VMPageSize_eq by done.
  unfold npages_of. rewrite Z.quot_div_nonneg by lia.
  assert (0 <= (size + ps - 1) / ps) by (apply Z.div_pos; lia).
  assert ((size + ps - 1) / ps <= size).
  { apply Z.div_le_upper_bound; [lia|]. nia. }
  rewrite Z2Nat.id by lia. rewrite i32_small by lia. lia.
Qed.

Lemma allocateMem_sim v σ va size :
  vinv v -> vrel v σ -> va mod ps = 0 -> 0 <= va -> 0 < size < 2 ^ 31 ->
  va + Z.of_nat (npages_of lg size) * ps < 2 ^ 64 ->
  simR (allocateMem lg va size false (v_sys v) (v_proc v)) (sp_alloc lg (npages_of lg size) va σ)
    (fun x σ' => vgoes v (mkVirt x.1 x.2 (v_mem v)) σ' /\
                 stack_min x.2 = stack_min (v_proc v) /\
                 (npages_of lg size = 1%nat -> is_Some (pTable (pr_pTable x.2) !! va))).
Proof.
  intros Hi [Hl Hb Hsm] Hva Hva0 Hsz Hend. pose proof (ps_bound lg Hlg) as Hps.
  destruct Hi as [Hsys Htab [Ht1 Ht2] Hgood Hpid Hown Hzero Hst].
  destruct (npages_quot size Hsz) as [Hq Hn31]. set (n := npages_of lg size) in *.
  set (s := v_sys v) in *. set (p := v_proc v) in *.
  pose proof (so_pids _ _ Hsys) as Hnp.
  destruct (alloc_ok lg Hlg s (pr_pid p) (Z.of_nat n)) as (f & Hf & Hleft & Hf0 & Halloc);
    [done..|lia|].
  unfold allocateMem, sp_alloc. rewrite Hq, (i32_small (pr_pid p)), Halloc, Hl by lia.
  destruct (Z.ltb_spec (frames_left lg (pr_pid p) s) (Z.of_nat n)) as [Hlt|Hge]; [done|].
  cbn [mbind result_bind]. fold (take_frames (pr_pid p) f (Z.of_nat n) s).
  assert (Hnb : 0 <= Z.of_nat n <= hi_page lg s (region s (pr_pid p)) - f) by lia.
  assert (Hr : Z.of_nat n * ps = (f + Z.of_nat n) * ps - f * ps) by lia.
  assert (Hff : forall x, x mod ps = 0 -> f * ps <= x < (f + Z.of_nat n) * ps ->
                free lg s x /\ x + ps <= sys_totalSize s)
    by (intros x; eapply (taken_free lg Hlg); done).
  assert (Hend' : f * ps + Z.of_nat n * ps <= sys_totalSize s).
  { destruct (decide (n = 0%nat)) as [->|Hn0].
    - pose proof (hi_total lg Hlg s _ _ Hsys Hf (region_fix s (pr_pid p))) as [Hh _].
      pose proof (region_range s _ Hpid). rewrite Z2Nat.id in Hh by lia. nia.
    - destruct (Hff ((f + Z.of_nat n - 1) * ps)) as [_ ?]; [by apply Z.mod_mul; lia|nia|lia]. }
  assert (Hbase : forall x, f * ps <= x < f * ps + Z.of_nat n * ps ->
            exists b, b mod ps = 0 /\ b <= x < b + ps /\ f * ps <= b < (f + Z.of_nat n) * ps).
  { intros x Hx. exists (x / ps * ps). pose proof (Z.div_mod x ps ltac:(lia)).
    pose proof (Z.mod_pos_bound x ps ltac:(lia)). split; [apply Z.mod_mul; lia|].
    split; [lia|]. assert (f <= x / ps < f + Z.of_nat n); [|nia]. split.
    - apply Z.div_le_lower_bound; lia.
    - apply Z.div_lt_upper_bound; lia. }
  rewrite (pt_map_pages lg); [|lia|apply Htab|lia|done|done|nia|done|].
  2:{ pose proof (so_prod _ _ Hsys). fold n. nia. }
  fold n. eapply simR_left.
  { eapply (map_pages_sim lg limit Hlg (sys_totalSize s) (v_view v));
      [done|exact Htab|done|by apply Z.mod_mul; lia|nia|lia|..].
    - intros f' Hf' Hof'. destruct Hof' as (w & e & Hw & <-).
      apply (Hown (pageStart e)); [by exists w, e|].
      apply Hff; [apply (to_entry _ _ _ Htab _ _ Hw)|lia].
    - intros x Hx. destruct (Hbase x Hx) as (b & Hbm & Hbx & Hbr).
      eapply Hzero; [|exact Hbx]. by apply Hff.
    - exact Hb. }
  intros t' σ' (Ht' & Hsp & Hown' & Hsl & Hsms & Hpres & Hone). apply simR_ret. cbn [fst snd].
  assert (Hfree' : forall x, free lg (take_frames (pr_pid p) f (Z.of_nat n) s) x <->
                    free lg s x /\ ~ (f * ps <= x < (f + Z.of_nat n) * ps))
    by (intros x; by apply take_free).
  split; [|split; [done|by intros Hn1; apply Hone]].
  assert (Hleft' : forall q, 0 <= q < sys_numPids s ->
    frames_left lg q (take_frames (pr_pid p) f (Z.of_nat n) s)
    = if region s q =? region s (pr_pid p) then frames_left lg q s - Z.of_nat n else frames_left lg q s)
    by (intros q Hq'; by apply take_left).
  split; [|split].
  - split; cbn; try done.
    + by apply take_sys_ok.
    + intros g Hg [Hgf Hnr]%Hfree'. apply Hown' in Hg as [Hg|[_ Hg]].
      * by apply (Hown g).
      * apply Hnr. lia.
    + intros g x [Hgf _]%Hfree' Hx. by eapply Hzero.
  - split; cbn; [|done|by rewrite Hsms]. rewrite Hsl. cbn. rewrite Hleft', Z.eqb_refl by done.
    fold s p in Hl. lia.
  - split; cbn; try done.
    + intros x [Hx _]%Hfree'. done.
    + intros g Hg. apply Hown'. by left.
    + intros g [Hg|[Hgm Hgr]]%Hown'; [by left|]. right. apply Hff; [done|lia].
    + intros q Hq'. fold s p. rewrite !Hleft', Z.eqb_refl by done.
      case_match; lia.
Qed.

(** * Translation *)

Lemma cache_goes v σ c :
  vinv v -> vrel v σ ->
  fresh_cache (with_pTableCache c (v_table v)) -> no_stale (with_pTableCache c (v_table v)) ->
  vgoes v (with_v_table (with_pTableCache c (v_table v)) v) σ.
Proof.
  intros [H1 [H2a _ _ H2b H2c] H3 H4 H5 H6 H7 H8] [R1 R2 R3] Hf Hs.
  split; [split; try done; by split|]. split; [by split|]. split; try done; eauto.
  intros q _. cbn. case_match; lia.
Qed.

Lemma page_nonzero a : ps <= a -> a / ps * ps <> 0.
Proof.
  intros Ha. pose proof (ps_bound lg Hlg). assert (1 <= a / ps); [|nia].
  apply Z.div_le_lower_bound; lia.
Qed.

Lemma translate_unmapped v a :
  vinv v -> ps <= a -> pTable (v_table v) !! (a / ps * ps) = None -> v_translate a v = (None, v).
Proof.
  intros Hi Ha Hn. pose proof (vi_tab _ Hi) as [Hg _ Hs _ _].
  unfold v_translate, pt_translate. fold (v_table v).
  rewrite (lookup_unmapped a); [by destruct v as [? [] ?]|done|..];
    rewrite (pageAlign_eq lg) by (done || lia); [by apply page_nonzero|done].
Qed.

Lemma translate_mapped v σ a e :
  vinv v -> vrel v σ -> pTable (v_table v) !! (a / ps * ps) = Some e ->
  exists v', v_translate a v = (Some (pageStart e + a mod ps), v') /\ vgoes v v' σ /\
             v_mem v' = v_mem v /\ v_sys v' = v_sys v /\ pTable (v_table v') = pTable (v_table v) /\
             stack_min (v_proc v') = stack_min (v_proc v).
Proof.
  intros Hi Hr He. pose proof (vi_tab _ Hi) as [Hg Hf Hs Hen _]. pose proof (ps_bound lg Hlg).
  destruct (lookup_mapped a e (v_table v) Hf) as (c & Hlk & Hc).
  { rewrite (pageAlign_eq lg) by (done || lia). done. }
  exists (with_v_table (with_pTableCache c (v_table v)) v). split; [|split; [|done]].
  - unfold v_translate, pt_translate. fold (v_table v). rewrite Hlk.
    destruct (Hen _ _ He) as (_ & Hp0 & Hp1). destruct (vi_total _ Hi).
    pose proof (Z.mod_pos_bound a ps ltac:(lia)).
    rewrite (pageOffset_eq lg) by (done || lia). rewrite u64_small by lia.
    by rewrite Z.add_comm.
  - apply cache_goes; [done..| |]; destruct Hc as [->| ->]; try (by destruct (v_table v)).
    + apply fresh_cached; [|done]. rewrite (pageAlign_eq lg) by (done || lia). done.
    + apply stale_cached; [|done]. rewrite (pageAlign_eq lg) by (done || lia). done.
Qed.

(** * The stack *)

Lemma sp_pages_err n : forall va σ e, sp_pages lg n va σ = Err e -> e = Fatal.
Proof.
  induction n as [|n IH]; intros va σ e; cbn; [done|]. destruct (sp_mapped va σ); [by intros [= <-]|].
  apply IH.
Qed.

Lemma sp_alloc_err n va σ e : sp_alloc lg n va σ = Err e -> e = Fatal.
Proof. unfold sp_alloc. destruct (_ <? _); [by intros [= <-]|apply sp_pages_err]. Qed.

Lemma lower_goes v σ :
  vinv v -> vrel v σ -> 2 * ps <= stack_min (v_proc v) ->
  let v' := mkVirt (v_sys v) (with_stack_min (stack_min (v_proc v) - ps) (v_proc v)) (v_mem v) in
  vinv v' /\ vrel v' (sp_lower lg σ) /\ vstep v v'.
Proof.
  intros [H1 H2 H3 H4 H5 H6 H7 (S1 & S2 & S3 & S4)] [R1 R2 R3] Hge v'. pose proof (ps_bound lg Hlg).
  split; [|split].
  - split; try done. cbn. split; [|lia].
    replace (stack_min (v_proc v) - ps) with (stack_min (v_proc v) + (-1) * ps) by lia.
    rewrite mod_add_mul; lia.
  - split; try done. cbn. by rewrite R3.
  - split; try done; eauto. intros q _. cbn. case_match; lia.
Qed.

Lemma npages_one : npages_of lg ps = 1%nat.
Proof.
  pose proof (ps_bound lg Hlg). unfold npages_of.
  replace (ps + ps - 1) with (ps - 1 + 1 * ps) by lia.
  rewrite Z.div_add, Z.div_small by lia. done.
Qed.

(** One page. *)
Lemma alloc_page_sim v σ va :
  vinv v -> vrel v σ -> va mod ps = 0 -> 0 <= va < 2 ^ 63 ->
  simR (allocateMem lg va (VMPageSize lg) false (v_sys v) (v_proc v)) (sp_alloc lg 1 va σ)
    (fun x σ' => vgoes v (mkVirt x.1 x.2 (v_mem v)) σ' /\
                 stack_min x.2 = stack_min (v_proc v) /\
                 is_Some (pTable (pr_pTable x.2) !! va)).
Proof.
  intros Hi Hr Ha Hb. pose proof (ps_bound lg Hlg). rewrite VMPageSize_eq by done.
  pose proof npages_one as Hn. rewrite <- Hn at 1.
  eapply simR_weaken; [apply allocateMem_sim; try done; rewrite ?Hn; lia|].
  cbn beta. rewrite Hn. naive_solver.
Qed.

Section Stack.

Context (va bottom : Z) (Hb : bottom = va / ps * ps) (Hva : ps <= va).

Lemma bottom_range : ps <= bottom <= va /\ va < bottom + ps /\ bottom mod ps = 0.
Proof.
  pose proof (ps_bound lg Hlg). pose proof (Z.div_mod va ps ltac:(lia)).
  pose proof (Z.mod_pos_bound va ps ltac:(lia)).
  assert (1 <= va / ps) by (apply Z.div_le_lower_bound; lia).
  split; [nia|]. split; [lia|]. rewrite Hb. apply Z.mod_mul. lia.
Qed.

(** How far the loop can still go. *)
Definition rounds_left (fuel : nat) (v : Virt) : Prop :=
  stack_limit + ps < stack_base (v_proc v) - stack_min (v_proc v) + Z.of_nat fuel * ps.

Lemma lower_wraps v : vinv v -> bottom + ps <= stack_min (v_proc v) ->
  u64 (stack_min (v_proc v) - VMPageSize lg) = stack_min (v_proc v) - ps /\
  u64 (stack_base (v_proc v) - (stack_min (v_proc v) - ps))
  = stack_base (v_proc v) - (stack_min (v_proc v) - ps).
Proof.
  intros Hi Hs. pose proof bottom_range. pose proof (ps_bound lg Hlg).
  destruct (vi_stack _ Hi) as (S1 & S2 & S3 & S4). rewrite VMPageSize_eq by done.
  split; apply u64_small; lia.
Qed.

Lemma extend_sim n : forall fuel v σ,
  vinv v -> vrel v σ -> stack_min (v_proc v) = bottom + Z.of_nat n * ps ->
  stack_base (v_proc v) - bottom <= Z.min (max_stack_size (v_proc v)) stack_limit ->
  rounds_left fuel v -> n <> 0%nat \/ is_Some (pTable (v_table v) !! bottom) ->
  simR (extend_stack lg fuel va (v_sys v) (v_proc v)) (sp_down lg n σ)
    (fun x σ' => vgoes v (mkVirt x.1 x.2 (v_mem v)) σ' /\ is_Some (pTable (pr_pTable x.2) !! bottom)).
Proof.
  pose proof bottom_range. pose proof (ps_bound lg Hlg).
  induction n as [|n IH]; intros fuel v σ Hi Hr Hsm Hlimit Hfuel Hn.
  - unfold rounds_left in Hfuel. destruct fuel as [|fuel]; [lia|]. cbn.
    rewrite (proj2 (Z.ltb_ge _ _)) by lia. eexists. split; [done|]. split; [|naive_solver].
    split; [by destruct v|]. split; [by destruct v|]. destruct v. apply vstep_refl.
  - unfold rounds_left in Hfuel. destruct fuel as [|fuel]; [lia|]. cbn [extend_stack sp_down].
    assert (0 <= Z.of_nat n * ps) by nia.
    rewrite (proj2 (Z.ltb_lt _ _)) by lia. cbn [negb].
    destruct (lower_wraps v Hi ltac:(lia)) as [Hw1 Hw2]. rewrite Hw1. cbn [stack_min stack_base max_stack_size with_stack_min].
    rewrite Hw2. rewrite !(proj2 (Z.ltb_ge _ _)) by lia.
    destruct (lower_goes v σ Hi Hr ltac:(lia)) as (Hi' & Hr' & Hst'). set (v' := mkVirt _ _ _) in *.
    rewrite (vr_smin _ _ Hr). eapply simR_bind.
    { apply (alloc_page_sim v' (sp_lower lg σ)); [done|done| |].
      - by destruct (vi_stack _ Hi') as (S1 & _).
      - destruct (vi_stack _ Hi') as (S1 & S2 & S3 & S4). cbn in *. lia. }
    intros [s1 p1] σ1 ((Hi1 & Hr1 & Hst1) & Hsm1 & Hm1). cbn [fst snd] in *.
    destruct (st_proc _ _ Hst1) as (_ & Hb1 & Hx1). cbn in Hb1, Hx1, Hsm1.
    eapply simR_weaken.
    + apply (IH fuel (mkVirt s1 p1 (v_mem v)) σ1); try done; cbn.
      * rewrite Hsm1. lia.
      * rewrite Hb1, Hx1. done.
      * unfold rounds_left. cbn. rewrite Hb1, Hsm1. lia.
      * destruct n; [right|by left]. cbn in Hm1. cbn in Hsm.
        replace (stack_min (v_proc v) - ps) with bottom in Hm1 by lia. done.
    + intros [s2 p2] σ2 (Hg & Hm). split; [|done]. eapply vgoes_trans; [|exact Hg].
      split; [done|]. split; [done|]. eapply vstep_trans; [exact Hst'|exact Hst1].
Qed.

Lemma extend_fails fuel : forall v σ,
  vinv v -> vrel v σ -> bottom <= stack_min (v_proc v) ->
  Z.min (max_stack_size (v_proc v)) stack_limit < stack_base (v_proc v) - bottom ->
  va < stack_min (v_proc v) -> rounds_left fuel v -> (0 < fuel)%nat ->
  extend_stack lg fuel va (v_sys v) (v_proc v) = Err Fatal.
Proof.
  pose proof bottom_range as (Hbr & Hbv & Hbm). pose proof (ps_bound lg Hlg).
  induction fuel as [|fuel IH]; intros v σ Hi Hr Hge Hlimit Hlt Hfuel Hf; [lia|].
  destruct (vi_stack _ Hi) as (S1 & S2 & S3 & S4).
  assert (Hstep : bottom + ps <= stack_min (v_proc v)) by (apply aligned_step; (done || lia)).
  unfold rounds_left in Hfuel. cbn [extend_stack].
  rewrite (proj2 (Z.ltb_lt _ _)) by lia. cbn [negb].
  destruct (lower_wraps v Hi Hstep) as [Hw1 Hw2]. rewrite Hw1.
  cbn [stack_min stack_base max_stack_size with_stack_min]. rewrite Hw2.
  destruct (Z.ltb_spec (max_stack_size (v_proc v)) (stack_base (v_proc v) - (stack_min (v_proc v) - ps)))
    as [|Hc1]; [done|].
  destruct (Z.ltb_spec stack_limit (stack_base (v_proc v) - (stack_min (v_proc v) - ps))) as [|Hc2]; [done|].
  destruct (lower_goes v σ Hi Hr ltac:(lia)) as (Hi' & Hr' & Hst'). set (v' := mkVirt _ _ _) in *.
  pose proof (alloc_page_sim v' (sp_lower lg σ) (stack_min (v_proc v) - ps) Hi' Hr') as Hsim.
  destruct (sp_alloc lg 1 (stack_min (v_proc v) - ps) (sp_lower lg σ)) as [σ1|e] eqn:Hsp.
  - destruct Hsim as ([s1 p1] & Hok & (Hi1 & Hr1 & Hst1) & Hsm1 & _).
    { by destruct (vi_stack _ Hi') as (T1 & _). }
    { lia. }
    cbn [v_sys v_proc v'] in Hok. rewrite Hok. cbn [mbind result_bind fst snd] in *.
    destruct (st_proc _ _ Hst1) as (_ & Hb1 & Hx1). cbn in Hb1, Hx1, Hsm1.
    assert (Hns : va < stack_min p1).
    { rewrite Hsm1. assert (bottom + ps <= stack_min (v_proc v) - ps); [|lia].
      apply aligned_step; [lia|done|by destruct (vi_stack _ Hi') as (T1 & _)|lia]. }
    apply (IH (mkVirt s1 p1 (v_mem v)) σ1); try done; cbn.
    + lia.
    + rewrite Hx1, Hb1. done.
    + unfold rounds_left. cbn. rewrite Hb1, Hsm1. lia.
    + assert (ps < Z.of_nat fuel * ps) by lia. destruct fuel; lia.
  - apply sp_alloc_err in Hsp as ->. cbn [simR] in Hsim. cbn [v_sys v_proc v'] in Hsim.
    rewrite Hsim; [done| |lia]. by destruct (vi_stack _ Hi') as (T1 & _).
Qed.

End Stack.

Lemma stack_rounds_ok v : vinv v -> rounds_left (stack_rounds lg) v /\ (0 < stack_rounds lg)%nat.
Proof.
  intros Hi. pose proof (ps_bound lg Hlg). destruct (vi_stack _ Hi) as (_ & S2 & _).
  unfold rounds_left, stack_rounds. rewrite VMPageSize_eq by done.
  pose proof (Z.div_mod stack_limit ps ltac:(lia)). pose proof (Z.mod_pos_bound stack_limit ps ltac:(lia)).
  assert (0 <= stack_limit / ps) by (apply Z.div_pos; [done|lia]).
  rewrite Z2Nat.id by lia. split; [|lia]. nia.
Qed.

Lemma round_page va : 0 <= va -> addr_roundDown va (VMPageSize lg) = va / ps * ps.
Proof. intros Hva. rewrite VMPageSize_eq by done. apply roundDown_pow; lia. Qed.

Lemma fixup_sim v σ va :
  vinv v -> vrel v σ -> ps <= va ->
  simR (fixupStackFault lg va (v_sys v) (v_proc v))
       (sp_grow lg (stack_base (v_proc v)) (max_stack_size (v_proc v)) va σ)
    (fun x y => x.1 = y.1 /\ vgoes v (mkVirt x.2.1 x.2.2 (v_mem v)) y.2 /\
                (x.1 = true -> is_Some (pTable (pr_pTable x.2.2) !! (va / ps * ps)))).
Proof.
  intros Hi Hr Hva. pose proof (ps_bound lg Hlg). destruct (vi_stack _ Hi) as (S1 & S2 & S3 & S4).
  destruct (bottom_range va _ eq_refl Hva) as (Hb1 & Hb2 & Hb3).
  unfold fixupStackFault, sp_grow. rewrite (vr_smin _ _ Hr), (u64_small (_ - max_stack_size _)) by lia.
  destruct ((_ <=? va) && (va <? _)) eqn:Hc1.
  - zb. rewrite round_page by lia.
    eapply simR_bind; [apply (alloc_page_sim v σ (va / ps * ps)); [done..|lia]|].
    intros x σ' (Hg & _ & Hm). apply simR_ret. done.
  - destruct ((va <? _) && (_ <=? va)) eqn:Hc2.
    + zb. destruct (stack_rounds_ok v Hi) as [Hro Hr0].
      destruct (Z.ltb_spec (Z.min (max_stack_size (v_proc v)) stack_limit)
                  (stack_base (v_proc v) - va / ps * ps)) as [Hlt|Hge].
      * cbn. rewrite (extend_fails va _ eq_refl Hva _ v σ); [done|done|done|lia|done|done|done|done].
      * set (bottom := va / ps * ps) in *.
        assert (Hsm : stack_min (v_proc v)
                      = bottom + Z.of_nat (Z.to_nat ((stack_min (v_proc v) - bottom) / ps)) * ps).
        { pose proof (aligned_step bottom (stack_min (v_proc v)) ps ltac:(lia) Hb3 S1).
          rewrite Z2Nat.id by (apply Z.div_pos; lia).
          apply Z.mod_divide in S1 as [q Hq]; [|lia]. apply Z.mod_divide in Hb3 as [q' Hq']; [|lia].
          rewrite Hq, Hq', <- Z.mul_sub_distr_r, Z.div_mul by lia. lia. }
        eapply simR_bind; [apply (extend_sim va bottom eq_refl Hva _ _ v σ); [done..|]|].
        { left. intros Hn0. rewrite Hn0 in Hsm. lia. }
        intros x σ' (Hg & Hm). apply simR_ret. done.
    + apply simR_ret. split; [done|]. split; [|done]. destruct v.
      split; [done|]. split; [done|]. apply vstep_refl.
Qed.

Lemma write_fault_sim mode v σ va :
  vinv v -> vrel v σ -> ps <= va < 2 ^ 63 ->
  simR (write_fault lg mode va v)
       (sp_fault lg mode (stack_base (v_proc v)) (max_stack_size (v_proc v)) va σ)
    (fun x y => x.1 = y.1 /\ vgoes v x.2 y.2 /\
                (x.1 = true -> is_Some (pTable (v_table x.2) !! (va / ps * ps)))).
Proof.
  intros Hi Hr Hva. pose proof (ps_bound lg Hlg).
  destruct (bottom_range va _ eq_refl (proj1 Hva)) as (Hb1 & Hb2 & Hb3).
  destruct mode; cbn [write_fault sp_fault].
  - rewrite round_page by lia.
    eapply simR_bind; [apply (alloc_page_sim v σ (va / ps * ps)); [done..|lia]|].
    intros x σ' (Hg & _ & Hm). apply simR_ret. done.
  - apply simR_ret. split; [done|]. split; [|done]. split; [done|]. split; [done|]. apply vstep_refl.
  - eapply simR_bind; [apply fixup_sim; [done..|lia]|].
    intros [b [s1 p1]] [b' σ'] (Hbb & Hg & Hm). cbn [fst snd] in *. subst b'. destruct b; [|done].
    apply simR_ret. done.
Qed.

(** * Bytes of a chunk *)

(** The addresses of a chunk lie in one page. *)
Lemma chunk_page a k x :
  (a + k - 1) / ps = a / ps -> a <= x < a + k -> x / ps = a / ps /\ x mod ps = a mod ps + (x - a).
Proof.
  intros Hc Hx. pose proof (ps_bound lg Hlg).
  assert (Hd : x / ps = a / ps).
  { pose proof (Z.div_le_mono a x ps ltac:(lia) ltac:(lia)).
    pose proof (Z.div_le_mono x (a + k - 1) ps ltac:(lia) ltac:(lia)). lia. }
  split; [done|]. rewrite !Z.mod_eq by lia. rewrite Hd. lia.
Qed.

Lemma chunk_fits a k : 0 < k -> (a + k - 1) / ps = a / ps -> a mod ps + k <= ps.
Proof.
  intros Hk Hc. pose proof (ps_bound lg Hlg).
  destruct (chunk_page a k (a + k - 1) Hc ltac:(lia)) as [_ Hm].
  pose proof (Z.mod_pos_bound (a + k - 1) ps ltac:(lia)). lia.
Qed.

Lemma space_chunk v σ a k e x :
  vrel v σ -> pTable (v_table v) !! (a / ps * ps) = Some e -> (a + k - 1) / ps = a / ps ->
  a <= x < a + k -> sp_byte σ x = Some (v_view v (pageStart e + a mod ps + (x - a))).
Proof.
  intros Hr He Hc Hx. rewrite (vr_byte _ _ Hr). unfold space.
  destruct (chunk_page a k x Hc Hx) as [-> ->]. rewrite He. cbn. do 2 f_equal. lia.
Qed.

Lemma sp_read_chunk σ g n : forall pa a m,
  (forall x, a <= x < a + Z.of_nat n -> sp_byte σ x = Some (g (pa + (x - a)))) ->
  sp_read (n + m) a σ
  = let '(ok, bs) := sp_read m (a + Z.of_nat n) σ in (ok, load g pa (Z.of_nat n) ++ bs).
Proof.
  induction n as [|n IH]; intros pa a m H.
  { cbn. rewrite Z.add_0_r. by destruct (sp_read m a σ). }
  cbn [sp_read Nat.add]. rewrite H by lia. rewrite (IH (pa + 1)).
  - replace (a + 1 + Z.of_nat n) with (a + Z.of_nat (S n)) by lia.
    destruct (sp_read m _ σ). f_equal. unfold load.
    rewrite (seqZ_cons pa) by lia. cbn [fmap list_fmap app]. f_equal; [f_equal; lia|].
    do 3 f_equal; lia.
  - intros x Hx. rewrite H by lia. do 2 f_equal. lia.
Qed.

(** The memory behind a proxy is replaced by one with the same bytes. *)
Lemma mem_goes v σ m' : vinv v -> vrel v σ -> same_mem (v_mem v) m' -> vgoes v (with_v_mem m' v) σ.
Proof.
  intros [H1 H2 [H3 H3'] H4 H5 H6 H7 H8] [R1 R2 R3] (Hg & Hl & Hv).
  assert (Hview : forall x, v_view (with_v_mem m' v) x = v_view v x) by done.
  split; [|split].
  - split; try done; cbn.
    + split; [done|]. by rewrite Hl.
    + intros f x Hf Hx. rewrite Hview. by eapply H7.
  - split; [done| |done]. intros a. rewrite R2. unfold space. cbn.
    change (v_table (with_v_mem m' v)) with (v_table v).
    destruct (pTable (v_table v) !! _); cbn; [|done]. by rewrite Hview.
  - split; try done; eauto. intros q _. cbn. case_match; lia.
Qed.

Lemma blob_ok v a k :
  vinv v -> 0 < k -> k <= ps -> 0 <= a -> a + k <= sys_totalSize (v_sys v) ->
  blob_bounds a k /\ a + k <= fp_limit (v_mem v) /\ i32 k = k.
Proof.
  intros Hi Hk Hkp Ha Hl. pose proof (ps_bound lg Hlg). destruct (vi_total _ Hi) as [_ Ht].
  pose proof (so_prod _ _ (vi_sys _ Hi)). pose proof (so_pids _ _ (vi_sys _ Hi)).
  pose proof (so_total _ _ (vi_sys _ Hi)).
  assert (Hbs : 0 <= peerBlockSize <= 2 ^ 32).
  { destruct fp_block as [->|(j & Hj & ->)]; [lia|].
    pose proof (Z.pow_le_mono_r 2 j 32 ltac:(lia) ltac:(lia)). pose proof (Z.pow_nonneg 2 j ltac:(lia)). lia. }
  split; [|split; [lia|apply i32_small; lia]]. split; [done|]. split; [lia|]. nia.
Qed.

Lemma read_run_sim a n cs : covers ps a n cs -> forall v σ buf off,
  vinv v -> vrel v σ -> ps <= a -> 0 <= off -> off + n <= Z.of_nat (length buf) < 2 ^ 31 ->
  exists v', run_chunks (read_chunk junk curTick) cs (buf, off, v)
    = Ok ((sp_read (Z.to_nat n) a σ).1,
          (put buf off (sp_read (Z.to_nat n) a σ).2,
           off + Z.of_nat (length (sp_read (Z.to_nat n) a σ).2), v')) /\ vgoes v v' σ.
Proof.
  pose proof (ps_bound lg Hlg) as Hps.
  assert (Hnn : forall c a n cs, covers c a n cs -> 0 <= n) by (induction 1; lia).
  induction 1 as [a|a k n cs Hk Hpg Hcov IH]; intros v σ buf off Hi Hr Ha Ho Hb.
  { exists v. cbn. rewrite put_nil, Z.add_0_r. split; [done|]. split; [done|]. split; [done|apply vstep_refl]. }
  pose proof (Hnn _ _ _ _ Hcov). specialize (Hpg ltac:(lia)).
  pose proof (chunk_fits a k Hk Hpg). pose proof (Z.mod_pos_bound a ps ltac:(lia)).
  cbn [run_chunks read_chunk]. destruct (pTable (v_table v) !! (a / ps * ps)) as [e|] eqn:He.
  - destruct (translate_mapped v σ a e Hi Hr He) as (v1 & Htr & (Hi1 & Hr1 & Hs1) & Hm1 & Hsys1 & Ht1 & _).
    rewrite Htr. destruct (to_entry _ _ _ (vi_tab _ Hi) _ _ He) as (_ & He0 & He1).
    destruct (blob_ok v1 (pageStart e + a mod ps) k) as (Hbb & Hlim1 & Hk32);
      [done|done|lia|lia|rewrite Hsys1; lia|]. rewrite Hk32.
    destruct (readBlob_ok junk curTick (pageStart e + a mod ps) buf off k (v_mem v1))
      as (m2 & Hrd & Hsame); [apply (vi_good _ Hi1)|done|done|lia|lia|].
    rewrite Hrd. cbn [mbind result_bind fst snd].
    destruct (mem_goes v1 σ m2 Hi1 Hr1 Hsame) as (Hi2 & Hr2 & Hs2).
    set (bs := load (fp_view (v_mem v1)) (pageStart e + a mod ps) k) in *.
    assert (Hbs : Z.of_nat (length bs) = k) by (unfold bs; rewrite load_length; lia).
    rewrite i32_small by lia.
    destruct (IH (with_v_mem m2 v1) σ (put buf off bs) (off + k)) as (v3 & Hrun & Hg3);
      [done|done|lia|lia|rewrite put_length by lia; lia|].
    exists v3. rewrite Hrun.
    assert (Hsp : sp_read (Z.to_nat (k + n)) a σ
      = ((sp_read (Z.to_nat n) (a + k) σ).1, bs ++ (sp_read (Z.to_nat n) (a + k) σ).2)).
    { rewrite Z2Nat.inj_add by lia.
      rewrite (sp_read_chunk σ (v_view v) _ (pageStart e + a mod ps)).
      - rewrite Z2Nat.id by lia. destruct (sp_read _ (a + k) σ). unfold bs. by rewrite Hm1.
      - rewrite Z2Nat.id by lia. intros x Hx. by eapply space_chunk. }
    rewrite Hsp. cbn [fst snd]. split.
    + rewrite length_app, Nat2Z.inj_add, Hbs. rewrite <- put_put; [by rewrite Hbs, Z.add_assoc|lia|].
      assert (Hlr : forall m b, (length (sp_read m b σ).2 <= m)%nat).
      { induction m as [|m IHm]; intros b; cbn; [lia|]. destruct (sp_byte σ b); [|cbn; lia].
        specialize (IHm (b + 1)). destruct (sp_read m (b + 1) σ). cbn in *. lia. }
      specialize (Hlr (Z.to_nat n) (a + k)). lia.
    + eapply vgoes_trans; [|exact Hg3]. split; [done|]. split; [done|]. by eapply vstep_trans.
  - exists v. rewrite translate_unmapped by done.
    assert (Hsp : sp_read (Z.to_nat (k + n)) a σ = (false, [])).
    { destruct (Z.to_nat (k + n)) eqn:Hkn; [lia|]. cbn. rewrite (vr_byte _ _ Hr). unfold space.
      by rewrite He. }
    rewrite Hsp. cbn. rewrite put_nil, Z.add_0_r. split; [done|].
    split; [done|]. split; [done|apply vstep_refl].
Qed.

(** * Writing *)

Fixpoint sp_put (a : Z) (d : list Z) (σ : PSpec) : PSpec :=
  match d with [] => σ | b :: d' => sp_put (a + 1) d' (sp_set a b σ) end.

Lemma sp_put_spec d : forall a σ,
  sp_left (sp_put a d σ) = sp_left σ /\ sp_smin (sp_put a d σ) = sp_smin σ /\
  forall x, sp_byte (sp_put a d σ) x
            = if decide (a <= x < a + Z.of_nat (length d)) then Some (d !!! Z.to_nat (x - a))
              else sp_byte σ x.
Proof.
  induction d as [|b d IH]; intros a σ; cbn [sp_put].
  { split; [done|]. split; [done|]. intros x. rewrite decide_False; [done|]. cbn. lia. }
  destruct (IH (a + 1) (sp_set a b σ)) as (H1 & H2 & H3). rewrite H1, H2.
  split; [done|]. split; [done|]. intros x. rewrite H3. cbn [length sp_set sp_byte].
  destruct (decide (x = a)) as [->|Hne].
  - rewrite decide_False, Z.eqb_refl, decide_True by lia. rewrite Z.sub_diag. done.
  - rewrite (proj2 (Z.eqb_neq x a)) by done. do 2 case_decide; try lia; [|done].
    replace (Z.to_nat (x - a)) with (S (Z.to_nat (x - (a + 1)))) by lia. done.
Qed.

Lemma store_goes v σ a e d m' :
  vinv v -> vrel v σ -> pTable (v_table v) !! (a / ps * ps) = Some e -> d <> [] ->
  (a + Z.of_nat (length d) - 1) / ps = a / ps ->
  fp_good m' -> fp_limit m' = fp_limit (v_mem v) ->
  (forall x, fp_view m' x = store (v_view v) (pageStart e + a mod ps) d x) ->
  vgoes v (with_v_mem m' v) (sp_put a d σ).
Proof.
  intros [H1 H2 [H3 H3'] H4 H5 H6 H7 H8] [R1 R2 R3] He Hd Hc Hg Hl Hv.
  pose proof (ps_bound lg Hlg). assert (0 < Z.of_nat (length d)) by (destruct d; [done|cbn; lia]).
  pose proof (chunk_fits a _ ltac:(eassumption) Hc) as Hfit. pose proof (Z.mod_pos_bound a ps ltac:(lia)).
  destruct (sp_put_spec d a σ) as (P1 & P2 & P3).
  assert (Hout : forall x, ~ pageStart e <= x < pageStart e + ps -> fp_view m' x = v_view v x).
  { intros x Hx. rewrite Hv. unfold store. rewrite decide_False; [done|]. lia. }
  assert (Hoe : own (v_table v) (pageStart e)) by (by exists (a / ps * ps), e).
  assert (Hal : forall f, own (v_table v) f -> f mod ps = 0)
    by (intros f (w & y & Hy & <-); apply (to_entry _ _ _ H2 _ _ Hy)).
  split; [|split].
  - split; try done; cbn.
    + split; [done|]. by rewrite Hl.
    + intros f x Hf Hx. unfold v_view. cbn. rewrite Hout; [by eapply H7|]. intros Hin.
      assert (f = pageStart e); [|subst; by eapply H6].
      assert (Hfm : f mod ps = 0) by (by destruct Hf as (? & ? & _ & _ & ? & _)).
      pose proof (Hal _ Hoe) as Hem. destruct (Z.lt_trichotomy f (pageStart e)) as [Hlt|[?|Hlt]]; [|done|].
      * pose proof (aligned_step _ _ ps ltac:(lia) Hfm Hem Hlt). lia.
      * pose proof (aligned_step _ _ ps ltac:(lia) Hem Hfm Hlt). lia.
  - split; [by rewrite P1|intros x; rewrite P3|by rewrite P2].
    rewrite R2. unfold space. change (v_table (with_v_mem m' v)) with (v_table v).
    unfold v_view at 2. cbn [with_v_mem v_mem].
    case_decide as Hx.
    + destruct (chunk_page a _ x Hc Hx) as [-> Hm]. rewrite He. cbn. rewrite Hv, Hm.
      unfold store. rewrite decide_True by lia. do 2 f_equal. lia.
    + destruct (pTable (v_table v) !! (x / ps * ps)) as [y|] eqn:Hy; [|done]. cbn. f_equal.
      pose proof (Z.mod_pos_bound x ps ltac:(lia)).
      destruct (decide (pageStart y = pageStart e)) as [Heq|Hne].
      * assert (Hpg : x / ps * ps = a / ps * ps) by (by eapply (to_inj _ _ _ H2)).
        rewrite Hv. unfold store. rewrite decide_False; [done|]. intros Hin. apply Hx.
        assert (x / ps = a / ps) by nia. rewrite (Z.div_mod x ps), (Z.div_mod a ps) by lia. lia.
      * symmetry. apply Hout. intros Hin. apply Hne.
        pose proof (Hal _ Hoe) as Hem. assert (Hym : pageStart y mod ps = 0) by (apply Hal; by exists (x / ps * ps), y).
        destruct (Z.lt_trichotomy (pageStart y) (pageStart e)) as [Hlt|[?|Hlt]]; [|done|].
        -- pose proof (aligned_step _ _ ps ltac:(lia) Hym Hem Hlt). lia.
        -- pose proof (aligned_step _ _ ps ltac:(lia) Hem Hym Hlt). lia.
  - split; try done; eauto.
    intros q _. cbn. case_match; lia.
Qed.

Lemma sp_write_chunk mode base smax d rest : forall a σ,
  (forall x, a <= x < a + Z.of_nat (length d) -> is_Some (sp_byte σ x)) ->
  sp_write lg mode base smax a (d ++ rest) σ
  = sp_write lg mode base smax (a + Z.of_nat (length d)) rest (sp_put a d σ).
Proof.
  induction d as [|b d IH]; intros a σ H; cbn [app sp_put length].
  { by rewrite Z.add_0_r. }
  cbn [sp_write]. unfold sp_mapped. rewrite bool_decide_true by (apply H; cbn; lia).
  cbn [mbind result_bind fst snd]. rewrite IH.
  - f_equal. lia.
  - intros x Hx. cbn. destruct (x =? a); [eauto|]. apply H. cbn. lia.
Qed.

(** The page of a chunk is there, or is made so. *)
Definition ensure (mode : AllocType) (a : Z) (v : Virt) : result (bool * (Z * Virt)) :=
  let '(o, v) := v_translate a v in
  match o with
  | Some paddr => Ok (true, (paddr, v))
  | None =>
      z ← write_fault lg mode a v;
      if negb z.1 then Ok (false, (0, z.2)) else
      let '(o, v) := v_translate a z.2 in
      paddr ← no_paddr o; Ok (true, (paddr, v))
  end.

Definition sp_ensure (mode : AllocType) (base smax a : Z) (σ : PSpec) : result (bool * PSpec) :=
  if sp_mapped a σ then Ok (true, σ) else sp_fault lg mode base smax a σ.

Definition mapped_at (a pa : Z) (v : Virt) : Prop :=
  exists e, pTable (v_table v) !! (a / ps * ps) = Some e /\ pa = pageStart e + a mod ps.

Lemma ensure_sim mode v σ a :
  vinv v -> vrel v σ -> ps <= a < 2 ^ 63 ->
  simR (ensure mode a v) (sp_ensure mode (stack_base (v_proc v)) (max_stack_size (v_proc v)) a σ)
    (fun x y => x.1 = y.1 /\ vgoes v x.2.2 y.2 /\ (x.1 = true -> mapped_at a x.2.1 x.2.2)).
Proof.
  intros Hi Hr Ha. unfold ensure, sp_ensure, sp_mapped. rewrite (vr_byte _ _ Hr).
  destruct (pTable (v_table v) !! (a / ps * ps)) as [e|] eqn:He.
  - destruct (translate_mapped v σ a e Hi Hr He) as (v1 & -> & Hg1 & _ & _ & Ht1 & _).
    rewrite bool_decide_true by (rewrite space_mapped, He; eauto). apply simR_ret.
    split; [done|]. split; [done|]. intros _. exists e. cbn [fst snd]. by rewrite Ht1.
  - rewrite translate_unmapped by (done || lia).
    rewrite bool_decide_false by (rewrite space_mapped, He; by intros [? ?]).
    eapply simR_left; [by apply write_fault_sim|].
    intros [ok v1] [ok' σ1] (Hok & Hg1 & Hm1). cbn [fst snd] in *. subst ok'.
    destruct ok; cbn [negb].
    + destruct (Hm1 eq_refl) as [e1 He1]. destruct Hg1 as (Hi1 & Hr1 & Hs1).
      destruct (translate_mapped v1 σ1 a e1 Hi1 Hr1 He1) as (v2 & -> & Hg2 & _ & _ & Ht2 & _).
      cbn [no_paddr of_option mbind result_bind]. apply simR_ret. split; [done|].
      split; [|intros _; exists e1; cbn [fst snd]; by rewrite Ht2].
      eapply vgoes_trans; [|exact Hg2]. done.
    + apply simR_ret. done.
Qed.

(** [sp_write] after the first byte's page has been seen to. *)
Lemma sp_write_ensure mode base smax a bs σ :
  bs <> [] ->
  sp_write lg mode base smax a bs σ
  = (x ← sp_ensure mode base smax a σ;
     if (x.1 : bool) then
       match bs with [] => Ok x | b :: bs' => sp_write lg mode base smax (a + 1) bs' (sp_set a b x.2) end
     else Ok x).
Proof. destruct bs as [|b bs]; [done|]. intros _. reflexivity. Qed.

Lemma mapped_bytes v σ a k pa x :
  vrel v σ -> mapped_at a pa v -> (a + k - 1) / ps = a / ps -> a <= x < a + k ->
  is_Some (sp_byte σ x).
Proof. intros Hr (e & He & _) Hc Hx. rewrite (space_chunk v σ a k e x) by done. eauto. Qed.

Lemma sp_write_mapped mode base smax a bs σ :
  bs <> [] -> is_Some (sp_byte σ a) ->
  match bs with [] => Ok (true, σ) | b :: bs' => sp_write lg mode base smax (a + 1) bs' (sp_set a b σ) end
  = sp_write lg mode base smax a bs σ.
Proof.
  intros Hne Hm. destruct bs as [|b bs]; [done|]. cbn. unfold sp_mapped.
  by rewrite bool_decide_true.
Qed.

(** The bytes of a chunk are written to a page that is there. *)
Lemma put_chunk_ok v σ a k pa buf off :
  vinv v -> vrel v σ -> mapped_at a pa v -> 0 < k -> (a + k - 1) / ps = a / ps -> 0 <= off ->
  off + k <= Z.of_nat (length buf) ->
  exists m', pp_writeBlob junk curTick pa buf off (i32 k) (v_mem v) = Ok (buf, m') /\
    vgoes v (with_v_mem m' v) (sp_put a (take (Z.to_nat k) (drop (Z.to_nat off) buf)) σ).
Proof.
  intros Hi Hr (e & He & ->) Hk Hc Ho Hb. pose proof (ps_bound lg Hlg).
  pose proof (chunk_fits a k Hk Hc). pose proof (Z.mod_pos_bound a ps ltac:(lia)).
  destruct (to_entry _ _ _ (vi_tab _ Hi) _ _ He) as (_ & He0 & He1).
  destruct (blob_ok v (pageStart e + a mod ps) k) as (Hbb & Hl & ->); [done|lia..|].
  destruct (writeBlob_ok junk curTick (pageStart e + a mod ps) buf off k (v_mem v))
    as (m' & Hw & Hg & Hl' & Hv); [apply (vi_good _ Hi)|done|done|lia|lia|].
  exists m'. split; [done|].
  set (d := take (Z.to_nat k) (drop (Z.to_nat off) buf)) in *.
  assert (Hd : Z.of_nat (length d) = k) by (unfold d; rewrite length_take, length_drop; lia).
  apply (store_goes v σ a e d m'); try done.
  - intros ->. cbn in Hd. lia.
  - by rewrite Hd.
Qed.

Lemma write_run_sim mode base smax a n cs : covers ps a n cs -> forall v σ buf off,
  vinv v -> vrel v σ -> ps <= a -> a + n < 2 ^ 63 -> 0 <= off ->
  off + n <= Z.of_nat (length buf) < 2 ^ 31 ->
  stack_base (v_proc v) = base -> max_stack_size (v_proc v) = smax ->
  simR (run_chunks (write_chunk lg junk curTick mode) cs (buf, off, v))
       (sp_write lg mode base smax a (take (Z.to_nat n) (drop (Z.to_nat off) buf)) σ)
       (fun x y => x.1 = y.1 /\ vgoes v x.2.2 y.2).
Proof.
  pose proof (ps_bound lg Hlg) as Hps.
  assert (Hnn : forall c a n cs, covers c a n cs -> 0 <= n) by (induction 1; lia).
  induction 1 as [a|a k n cs Hk Hpg Hcov IH]; intros v σ buf off Hi Hr Ha Ham Ho Hb Hsb Hsx.
  { cbn. eexists. split; [done|]. split; [done|]. split; [done|]. split; [done|apply vstep_refl]. }
  pose proof (Hnn _ _ _ _ Hcov). specialize (Hpg ltac:(lia)).
  set (d := take (Z.to_nat k) (drop (Z.to_nat off) buf)).
  assert (Hd : Z.of_nat (length d) = k) by (unfold d; rewrite length_take, length_drop; lia).
  assert (Hsplit : take (Z.to_nat (k + n)) (drop (Z.to_nat off) buf)
                   = d ++ take (Z.to_nat n) (drop (Z.to_nat (off + k)) buf)).
  { rewrite Z2Nat.inj_add by lia. rewrite <- take_take_drop, drop_drop. unfold d. do 3 f_equal. lia. }
  assert (Hdn : d <> []) by (intros E0; rewrite E0 in Hd; cbn in Hd; lia).
  rewrite Hsplit, sp_write_ensure by (destruct d; done).
  cbn [run_chunks]. unfold write_chunk.
  assert (Hens : forall (Z0 : Type) (K : bool * (Z * Virt) -> result Z0),
    (let '(o, v0) := v_translate a v in
     y ← match o with
         | Some paddr => Ok (true, (paddr, v0))
         | None =>
             z ← write_fault lg mode a v0;
             if negb z.1 then Ok (false, (0, z.2)) else
             let '(o, v) := v_translate a z.2 in
             paddr ← no_paddr o; Ok (true, (paddr, v))
         end; K y) = (y ← ensure mode a v; K y)).
  { intros Z0 K. unfold ensure. by destruct (v_translate a v). }
  rewrite Hens. clear Hens.
  subst base smax. pose proof (ensure_sim mode v σ a Hi Hr ltac:(lia)) as Hsim.
  destruct (sp_ensure mode _ _ a σ) as [[ok σ1]|e]; cbn [simR] in Hsim;
    [|by rewrite Hsim].
  destruct Hsim as ([ok' [pa v1]] & -> & Hok & (Hi1 & Hr1 & Hs1) & Hm). cbn [fst snd] in *. subst ok'.
  cbn [mbind result_bind fst snd]. destruct ok; cbn [negb].
  - specialize (Hm eq_refl).
    destruct (put_chunk_ok v1 σ1 a k pa buf off) as (m2 & Hw & Hg2); [done..|lia|].
    rewrite Hw. cbn [mbind result_bind fst snd]. rewrite i32_small by lia.
    fold d in Hg2. destruct Hg2 as (Hi2 & Hr2 & Hs2).
    rewrite sp_write_mapped; [|by destruct d|].
    2:{ apply (mapped_bytes v1 σ1 a k pa a); [done..|lia]. }
    rewrite sp_write_chunk.
    2:{ intros x Hx. apply (mapped_bytes v1 σ1 a k pa x); [done..|lia]. }
    rewrite Hd. destruct (st_proc _ _ Hs1) as (_ & Hb1 & Hx1).
    eapply simR_weaken.
    + apply (IH (with_v_mem m2 v1) (sp_put a d σ1)); try done; lia.
    + intros [okx [bx vx]] [oky σy] (Hoo & Hg). split; [done|]. eapply vgoes_trans; [|exact Hg].
      split; [done|]. split; [done|]. by eapply vstep_trans.
  - apply simR_ret. done.
Qed.

(** [memset] is a write of the same byte. *)
Lemma memset_run_sim mode base smax val a n cs : covers ps a n cs -> forall v σ,
  vinv v -> vrel v σ -> ps <= a -> a + n < 2 ^ 63 ->
  stack_base (v_proc v) = base -> max_stack_size (v_proc v) = smax ->
  simR (run_chunks (memset_chunk lg junk curTick mode val) cs v)
       (sp_write lg (match mode with Always => Always | _ => Never end) base smax a (replicate (Z.to_nat n) val) σ)
       (fun x y => x.1 = y.1 /\ vgoes v x.2 y.2).
Proof.
  pose proof (ps_bound lg Hlg) as Hps.
  assert (Hnn : forall c a n cs, covers c a n cs -> 0 <= n) by (induction 1; lia).
  induction 1 as [a|a k n cs Hk Hpg Hcov IH]; intros v σ Hi Hr Ha Ham Hsb Hsx.
  { cbn. eexists. split; [done|]. split; [done|]. split; [done|]. split; [done|apply vstep_refl]. }
  pose proof (Hnn _ _ _ _ Hcov). specialize (Hpg ltac:(lia)).
  pose proof (chunk_fits a k Hk Hpg). pose proof (Z.mod_pos_bound a ps ltac:(lia)).
  set (d := replicate (Z.to_nat k) val).
  assert (Hd : Z.of_nat (length d) = k) by (unfold d; rewrite length_replicate; lia).
  assert (Hdn : d <> []) by (intros E0; rewrite E0 in Hd; cbn in Hd; lia).
  rewrite Z2Nat.inj_add, replicate_add by lia. fold d.
  set (mode' := match mode with Always => Always | _ => Never end).
  rewrite sp_write_ensure by (destruct d; done). cbn [run_chunks]. unfold memset_chunk.
  assert (Hens : forall (Z0 : Type) (K : bool * (Z * Virt) -> result Z0),
    (let '(o, v0) := v_translate a v in
     y ← match o with
         | Some paddr => Ok (true, (paddr, v0))
         | None =>
             match mode with
             | Always =>
                 z ← write_fault lg Always a v0;
                 let '(o, v) := v_translate a z.2 in
                 paddr ← no_paddr o; Ok (true, (paddr, v))
             | _ => Ok (false, (0, v0))
             end
         end; K y) = (y ← ensure mode' a v; K y)).
  { intros Z0 K. unfold ensure, mode'. destruct (v_translate a v) as [[pa|] v0]; [done|].
    destruct mode; cbn; try done. by destruct (allocateMem _ _ _ _ _ _). }
  rewrite Hens. clear Hens.
  subst base smax. pose proof (ensure_sim mode' v σ a Hi Hr ltac:(lia)) as Hsim.
  destruct (sp_ensure mode' _ _ a σ) as [[ok σ1]|e]; cbn [simR] in Hsim;
    [|by rewrite Hsim].
  destruct Hsim as ([ok' [pa v1]] & -> & Hok & (Hi1 & Hr1 & Hs1) & Hm). cbn [fst snd] in *. subst ok'.
  cbn [mbind result_bind fst snd]. destruct ok; cbn [negb].
  - specialize (Hm eq_refl). assert (Hk32 : i32 k = k) by (apply i32_small; lia).
    destruct (put_chunk_ok v1 σ1 a k pa d 0) as (m2 & Hw & Hg2); [done..|lia|lia|].
    unfold pp_memsetBlob. unfold pp_writeBlob in Hw. rewrite Hk32 in Hw |- *. fold d. rewrite Hw.
    cbn [mbind result_bind fst snd].
    assert (Htk : take (Z.to_nat k) (drop (Z.to_nat 0) d) = d) by (change (drop (Z.to_nat 0) d) with d; apply take_ge; lia).
    rewrite Htk in Hg2. destruct Hg2 as (Hi2 & Hr2 & Hs2).
    rewrite sp_write_mapped; [|by destruct d|].
    2:{ apply (mapped_bytes v1 σ1 a k pa a); [done..|lia]. }
    rewrite sp_write_chunk.
    2:{ intros x Hx. apply (mapped_bytes v1 σ1 a k pa x); [done..|lia]. }
    rewrite Hd. destruct (st_proc _ _ Hs1) as (_ & Hb1 & Hx1).
    eapply simR_weaken.
    + apply (IH (with_v_mem m2 v1) (sp_put a d σ1)); try done; lia.
    + intros [okx vx] [oky σy] (Hoo & Hg). split; [done|]. eapply vgoes_trans; [|exact Hg].
      split; [done|]. split; [done|]. by eapply vstep_trans.
  - apply simR_ret. done.
Qed.

(** * Operations *)

Definition v_op (mode : AllocType) (op : vop) (v : Virt) : result (vout * Virt) :=
  match op with
  | VAlloc va size =>
      x ← allocateMem lg va size false (v_sys v) (v_proc v); Ok (VUnit, mkVirt x.1 x.2 (v_mem v))
  | VRead va n =>
      x ← tryReadBlob lg junk curTick va (replicate (Z.to_nat n) 0) n v;
      Ok (VBytes x.1 x.2.1, x.2.2)
  | VWrite va bs =>
      x ← tryWriteBlob lg junk curTick mode va bs (Z.of_nat (length bs)) v; Ok (VDone x.1, x.2)
  | VMemset va val n =>
      x ← tryMemsetBlob lg junk curTick mode va val n v; Ok (VDone x.1, x.2)
  | VWriteString va s => x ← tryWriteString junk curTick va (s ++ [0]) v; Ok (VDone x.1, x.2)
  | VReadString fuel va =>
      x ← tryReadString junk curTick fuel [] va v; Ok (VBytes x.1 x.2.1, x.2.2)
  end.

Lemma page_chunks {S} a n (body : Z -> Z -> S -> result (bool * S)) :
  0 <= a -> 0 <= n < 2 ^ 31 -> a + n < 2 ^ 62 ->
  exists cs, covers ps a n cs /\
             forall s, chunk_loop a n (VMPageSize lg) body s = run_chunks body cs s.
Proof.
  intros Ha Hn Hm. pose proof (ps_bound lg Hlg). rewrite VMPageSize_eq by done.
  apply chunk_loop_run; [done|lia|lia|]. right. exists lg. split; [lia|done].
Qed.

Lemma one_byte_page a : (a + 1 - 1) / ps = a / ps.
Proof. f_equal. lia. Qed.

Lemma write_string_sim base smax s : forall a v σ,
  Forall (fun c => c <> 0) s -> vinv v -> vrel v σ -> ps <= a ->
  a + Z.of_nat (length s) + 1 < 2 ^ 62 ->
  stack_base (v_proc v) = base -> max_stack_size (v_proc v) = smax ->
  simR (tryWriteString junk curTick a (s ++ [0]) v) (sp_write lg Never base smax a (s ++ [0]) σ)
       (fun x y => x.1 = y.1 /\ vgoes v x.2 y.2).
Proof.
  intros a v σ Hall. revert a v σ.
  assert (Hone : forall c rest K a v σ, vinv v -> vrel v σ -> ps <= a -> a + 1 < 2 ^ 62 ->
    (forall v1 σ1, vgoes v v1 σ1 -> simR (K v1) (sp_write lg Never base smax (a + 1) rest σ1)
                                      (fun x y => x.1 = y.1 /\ vgoes v1 x.2 y.2)) ->
    simR (let '(o, v0) := v_translate a v in
          match o with
          | None => Ok (false, v0)
          | Some paddr => w ← pp_writeBlob junk curTick paddr [c] 0 1 (v_mem v0); K (with_v_mem w.2 v0)
          end) (sp_write lg Never base smax a (c :: rest) σ) (fun x y => x.1 = y.1 /\ vgoes v x.2 y.2)).
  { intros c rest K a v σ Hi Hr Ha Ham HK. cbn [sp_write]. unfold sp_mapped. rewrite (vr_byte _ _ Hr).
    destruct (pTable (v_table v) !! (a / ps * ps)) as [e|] eqn:He.
    - destruct (translate_mapped v σ a e Hi Hr He) as (v1 & -> & (Hi1 & Hr1 & Hs1) & _ & _ & Ht1 & _).
      rewrite bool_decide_true by (rewrite space_mapped, He; eauto). cbn [mbind result_bind fst snd].
      destruct (put_chunk_ok v1 σ a 1 (pageStart e + a mod ps) [c] 0) as (m2 & Hw & Hg2);
        [done|done| |lia|apply one_byte_page|lia|cbn; lia|].
      { exists e. by rewrite Ht1. }
      change (i32 1) with 1 in Hw. rewrite Hw. cbn [mbind result_bind snd].
      assert (Hgo : vgoes v (with_v_mem m2 v1) (sp_set a c σ)).
      { eapply vgoes_trans; [|exact Hg2]. done. }
      eapply simR_weaken; [by apply HK|]. intros x y [Hok Hg]. split; [done|]. by eapply vgoes_trans.
    - rewrite translate_unmapped by done.
      rewrite bool_decide_false by (rewrite space_mapped, He; by intros [? ?]).
      cbn. eexists. split; [done|]. split; [done|]. split; [done|]. split; [done|apply vstep_refl]. }
  induction Hall as [|c s Hc _ IH]; intros a v σ Hi Hr Ha Ham Hb Hx; cbn [length app] in *.
  - cbn [tryWriteString]. rewrite Z.eqb_refl.
    apply (Hone 0 [] (fun v => Ok (true, v)) a v σ); [done..|lia|].
    intros v1 σ1 (Hi1 & Hr1 & _). cbn. eexists. split; [done|]. split; [done|].
    split; [done|]. split; [done|apply vstep_refl].
  - cbn [tryWriteString]. rewrite (proj2 (Z.eqb_neq c 0)) by done.
    apply (Hone c (s ++ [0]) (tryWriteString junk curTick (u64 (a + 1)) (s ++ [0])) a v σ);
      [done..|lia|].
    intros v1 σ1 (Hi1 & Hr1 & Hs1). destruct (st_proc _ _ Hs1) as (_ & Hb1 & Hx1).
    rewrite u64_small by (pose proof (ps_bound lg Hlg); lia).
    apply IH; try done; try lia; congruence.
Qed.

Lemma read_string_sim fuel : forall a v σ str,
  vinv v -> vrel v σ -> ps <= a -> a + Z.of_nat fuel < 2 ^ 62 ->
  simR (tryReadString junk curTick fuel str a v) (sp_string fuel a σ)
       (fun x y => x.1 = y.1 /\ x.2.1 = str ++ y.2 /\ vgoes v x.2.2 σ).
Proof.
  pose proof (ps_bound lg Hlg) as Hps.
  induction fuel as [|fuel IH]; intros a v σ str Hi Hr Ha Ham; [done|].
  cbn [tryReadString sp_string]. rewrite (vr_byte _ _ Hr).
  destruct (pTable (v_table v) !! (a / ps * ps)) as [e|] eqn:He; unfold space; rewrite He; cbn [fmap option_fmap option_map].
  - destruct (translate_mapped v σ a e Hi Hr He) as (v1 & -> & (Hi1 & Hr1 & Hs1) & Hm1 & Hsys1 & Ht1 & _).
    destruct (to_entry _ _ _ (vi_tab _ Hi) _ _ He) as (_ & He0 & He1).
    pose proof (Z.mod_pos_bound a ps ltac:(lia)).
    destruct (blob_ok v1 (pageStart e + a mod ps) 1) as (Hbb & Hlim1 & _);
      [done|lia..|rewrite Hsys1; lia|].
    destruct (readBlob_ok junk curTick (pageStart e + a mod ps) [0] 0 1 (v_mem v1))
      as (m2 & Hrd & Hsame); [apply (vi_good _ Hi1)|done|done|lia|cbn; lia|].
    rewrite Hrd. cbn [mbind result_bind fst snd].
    destruct (mem_goes v1 σ m2 Hi1 Hr1 Hsame) as (Hi2 & Hr2 & Hs2).
    assert (Hc : arr_get (put [0] 0 (load (fp_view (v_mem v1)) (pageStart e + a mod ps) 1)) 0
                 = Ok (v_view v (pageStart e + a mod ps))).
    { rewrite Hm1. cbn. done. }
    rewrite Hc. cbn [mbind result_bind].
    assert (Hg2 : vgoes v (with_v_mem m2 v1) σ).
    { split; [done|]. split; [done|]. by eapply vstep_trans. }
    destruct (_ =? 0); [apply simR_ret; cbn; by rewrite app_nil_r|].
    rewrite u64_small by lia. set (c := v_view v _).
    pose proof (IH (a + 1) (with_v_mem m2 v1) σ (str ++ [c]) Hi2 Hr2 ltac:(lia) ltac:(lia)) as Hsim.
    destruct (sp_string fuel (a + 1) σ) as [[ok bs]|er]; cbn [simR mbind result_bind fst snd] in *; [|done].
    destruct Hsim as ([okx [sx vx]] & -> & Hok & Hstr & Hg). cbn [fst snd] in *.
    eexists. split; [done|]. cbn. split; [done|]. rewrite Hstr, <- app_assoc. split; [done|].
    by eapply vgoes_trans.
  - rewrite translate_unmapped by done. apply simR_ret. cbn. rewrite app_nil_r.
    split; [done|]. split; [done|]. split; [done|]. split; [done|apply vstep_refl].
Qed.

Lemma v_op_sim mode op v σ :
  vop_ok lg op -> vinv v -> vrel v σ ->
  simR (v_op mode op v) (sp_op lg mode (stack_base (v_proc v)) (max_stack_size (v_proc v)) op σ)
       (fun x y => x.1 = y.1 /\ vgoes v x.2 y.2).
Proof.
  intros Hop Hi Hr. pose proof (ps_bound lg Hlg) as Hps.
  destruct op as [va size|va n|va bs|va val n|va s|fuel va]; cbn [v_op sp_op vop_ok] in *.
  - destruct Hop as (H1 & H2 & H3 & H4). eapply simR_bind.
    + apply allocateMem_sim; [done..|lia|done|].
      unfold npages_of. pose proof (Z.mul_div_le (size + ps - 1) ps ltac:(lia)).
      rewrite Z2Nat.id by (apply Z.div_pos; lia). lia.
    + intros x σ' (Hg & _). apply simR_ret. done.
  - destruct Hop as (H1 & H2 & H3). unfold tryReadBlob.
    destruct (page_chunks va n (read_chunk (M := M) (E := E) junk curTick)) as (cs & Hcov & Hrun); [lia..|].
    rewrite Hrun. destruct (read_run_sim va n cs Hcov v σ (replicate (Z.to_nat n) 0) 0) as (v' & -> & Hg);
      [done|done|lia|lia|rewrite length_replicate; lia|].
    destruct (sp_read (Z.to_nat n) va σ) as [ok bs]. apply simR_ret. cbn. split; [|done].
    f_equal. unfold put. cbn [Z.to_nat take app]. rewrite Z.add_0_l, Nat2Z.id, drop_replicate. done.
  - destruct Hop as (H1 & H2 & H3). unfold tryWriteBlob.
    destruct (page_chunks va (Z.of_nat (length bs)) (write_chunk (M := M) (E := E) lg junk curTick mode))
      as (cs & Hcov & Hrun); [lia..|].
    rewrite Hrun. pose proof (write_run_sim mode _ _ va _ cs Hcov v σ bs 0 Hi Hr H1 ltac:(lia)
      ltac:(lia) ltac:(lia) eq_refl eq_refl) as Hsim.
    change (drop (Z.to_nat 0) bs) with bs in Hsim. rewrite Nat2Z.id, firstn_all in Hsim.
    destruct (sp_write _ _ _ _ _ _ _) as [[ok σ']|e]; cbn [simR] in *; [|by rewrite Hsim].
    destruct Hsim as ([okx [[bx ox] vx]] & -> & Hok & Hg). cbn in *. subst. eexists. split; [done|]. done.
  - destruct Hop as (H1 & H2 & H3). unfold tryMemsetBlob.
    destruct (page_chunks va n (memset_chunk (M := M) (E := E) lg junk curTick mode val))
      as (cs & Hcov & Hrun); [lia..|].
    rewrite Hrun. eapply simR_bind.
    + eapply memset_run_sim; [exact Hcov|done|done|lia|lia|done|done].
    + intros [okx vx] [oky σy] [Hok Hg]. apply simR_ret. cbn in *. by subst.
  - destruct Hop as (H1 & H2 & H3). eapply simR_bind.
    + apply write_string_sim; [done|done|done|lia|lia|done|done].
    + intros [okx vx] [oky σy] [Hok Hg]. apply simR_ret. cbn in *. by subst.
  - destruct Hop as (H1 & H2). eapply simR_bind.
    + by apply read_string_sim.
    + intros [okx [sx vx]] [oky bs] (Hok & Hstr & Hg). apply simR_ret. cbn in *. by subst.
Qed.

End Proc.
