(* ===== verification/VirtMemSpaces.v ===== *)
(** Processes that share one system and one memory: each has an address space of its
    own, as if the others were not there, except for the frames they use up. *)

From S2P Require Import Prelude IntMath Request MemCmd Packet PacketQueue PortMap Memory ChunkGen PageTable VirtMem VirtMemSpec VirtMemRun.

Section Spaces.

Context {E : Type} `{!TlbEntryOps E} (blank : E) (lg limit : Z) (Hlg : 0 <= lg < 31).
Context `{!TlbEntryLaws E lg limit} (Hlim : limit <= 2 ^ 64).
Context {M : Type} `{!FunctionalPort M} `{!FunctionalLaws M} (junk : Request) (curTick : Z).
#[local] Abbreviation ps := (2 ^ lg).

(** * The machine *)

Record Machine := mkMachine { ma_sys : System; ma_procs : list (Process E); ma_mem : M }.

Definition ma_virt (g : Machine) (p : Process E) : Virt E M := mkVirt (ma_sys g) p (ma_mem g).

Definition ma_step (x : nat * AllocType * vop) (g : Machine) : result (vout * Machine) :=
  let '(i, mode, op) := x in
  p ← of_option NullDeref (ma_procs g !! i);
  y ← v_op lg junk curTick mode op (ma_virt g p);
  Ok (y.1, mkMachine (v_sys y.2) (<[i := v_proc y.2]> (ma_procs g)) (v_mem y.2)).

Fixpoint ma_run (xs : list (nat * AllocType * vop)) (g : Machine) : result (list vout * Machine) :=
  match xs with
  | [] => Ok ([], g)
  | x :: xs' => y ← ma_step x g; z ← ma_run xs' y.2; Ok (y.1 :: z.1, z.2)
  end.

(** * Its specification *)

(** What is fixed about a process: its frames' region, and the limits of its stack. *)
Record PConst := mkPConst { pc_region : nat; pc_base : Z; pc_max : Z }.

Record Spaces := mkSpaces { ss_left : list Z; ss_procs : list (PConst * (Z -> option Z) * Z) }.

Definition ss_view (γ : Spaces) (i : nat) : option (PConst * PSpec) :=
  '(c, b, m) ← ss_procs γ !! i; l ← ss_left γ !! pc_region c; Some (c, mkPSpec l b m).

Definition ss_step (x : nat * AllocType * vop) (γ : Spaces) : result (vout * Spaces) :=
  let '(i, mode, op) := x in
  y ← of_option NullDeref (ss_view γ i);
  let '(c, σ) := y in
  z ← sp_op lg mode (pc_base c) (pc_max c) op σ;
  Ok (z.1, mkSpaces (<[pc_region c := sp_left z.2]> (ss_left γ))
             (<[i := (c, sp_byte z.2, sp_smin z.2)]> (ss_procs γ))).

Fixpoint ss_run (xs : list (nat * AllocType * vop)) (γ : Spaces) : result (list vout * Spaces) :=
  match xs with
  | [] => Ok ([], γ)
  | x :: xs' => y ← ss_step x γ; z ← ss_run xs' y.2; Ok (y.1 :: z.1, z.2)
  end.

(** * The relation *)

Definition const_of (s : System) (p : Process E) : PConst :=
  mkPConst (Z.to_nat (region s (pr_pid p))) (stack_base p) (max_stack_size p).

Record ma_rel (g : Machine) (γ : Spaces) : Prop := {
  mr_inv : forall i p, ma_procs g !! i = Some p -> vinv lg limit (ma_virt g p);
  mr_apart : forall i j p q f, ma_procs g !! i = Some p -> ma_procs g !! j = Some q -> i <> j ->
             own (pr_pTable p) f -> own (pr_pTable q) f -> False;
  mr_length : length (ss_procs γ) = length (ma_procs g);
  mr_procs : forall i p, ma_procs g !! i = Some p -> exists b,
             ss_procs γ !! i = Some (const_of (ma_sys g) p, b, stack_min p) /\
             forall a, b a = space lg (pr_pTable p) (fp_view (ma_mem g)) a;
  mr_left : forall q, 0 <= q < sys_numPids (ma_sys g) ->
            ss_left γ !! Z.to_nat (region (ma_sys g) q) = Some (frames_left lg q (ma_sys g))
}.

Lemma ma_view g γ i p :
  ma_rel g γ -> ma_procs g !! i = Some p ->
  exists σ, ss_view γ i = Some (const_of (ma_sys g) p, σ) /\ vrel lg (ma_virt g p) σ.
Proof.
  intros Hr Hp. destruct (mr_procs _ _ Hr _ _ Hp) as (b & Hb & Hsp). unfold ss_view. rewrite Hb. cbn.
  pose proof (vi_pid _ _ _ (mr_inv _ _ Hr _ _ Hp)) as Hpid. cbn in Hpid.
  rewrite (mr_left _ _ Hr _ Hpid). cbn. eexists. split; [done|]. by split.
Qed.

(** A process that does nothing keeps its bytes. *)
Lemma other_keeps v v' (q : Process E) :
  vinv lg limit v -> vinv lg limit v' -> vstep lg v v' -> vinv lg limit (mkVirt (v_sys v) q (v_mem v)) ->
  (forall f, own (v_table v) f -> own (pr_pTable q) f -> False) ->
  vinv lg limit (mkVirt (v_sys v') q (v_mem v')) /\
  (forall f, own (v_table v') f -> own (pr_pTable q) f -> False) /\
  (forall a, space lg (pr_pTable q) (fp_view (v_mem v')) a
             = space lg (pr_pTable q) (fp_view (v_mem v)) a).
Proof.
  intros Hi Hi' Hs [Q1 Q2 [Q3 Q3'] Q4 Q5 Q6 Q7 Q8] Hap. pose proof (ps_bound lg Hlg).
  destruct (st_sys _ _ _ Hs) as (S1 & S2 & S3).
  assert (Hap' : forall f, own (v_table v') f -> own (pr_pTable q) f -> False).
  { intros f [Hf|Hf]%(st_own _ _ _ Hs) Hq; [by eapply Hap|]. by apply (Q6 f). }
  assert (Hview : forall w y x, pTable (pr_pTable q) !! w = Some y ->
            pageStart y <= x < pageStart y + ps -> fp_view (v_mem v') x = fp_view (v_mem v) x).
  { intros w y x Hy Hx. apply (st_view _ _ _ Hs). intros f Hf Hin.
    destruct Hf as (w' & y' & Hy' & <-).
    destruct (to_entry _ _ _ (vi_tab _ _ _ Hi') _ _ Hy') as [Hm _].
    destruct (to_entry _ _ _ Q2 _ _ Hy) as [Hm' _].
    apply (Hap' (pageStart y')); [by exists w', y'|]. exists w, y. split; [done|].
    destruct (Z.lt_trichotomy (pageStart y) (pageStart y')) as [Hlt|[?|Hlt]]; [|done|].
    - pose proof (aligned_step _ _ ps ltac:(lia) Hm' Hm Hlt). lia.
    - pose proof (aligned_step _ _ ps ltac:(lia) Hm Hm' Hlt). lia. }
  split; [|split; [done|]].
  - split; cbn; try (rewrite ?S1, ?S2; done).
    + apply (vi_sys _ _ _ Hi').
    + rewrite S1. by rewrite (st_limit _ _ _ Hs).
    + apply (vi_good _ _ _ Hi').
    + intros f Hf Hfr. apply (Q6 f Hf). by apply (st_free _ _ _ Hs).
    + intros f x Hf Hx. by eapply (vi_zero _ _ _ Hi').
  - intros a. unfold space. destruct (pTable (pr_pTable q) !! _) as [y|] eqn:Hy; [|done]. cbn. f_equal.
    eapply Hview; [done|]. pose proof (Z.mod_pos_bound a ps ltac:(lia)). lia.
Qed.

Lemma ma_step_sim x g γ :
  ma_rel g γ -> vop_ok lg x.2 ->
  simR (ma_step x g) (ss_step x γ) (fun y z => y.1 = z.1 /\ ma_rel y.2 z.2).
Proof.
  destruct x as [[i mode] op]. cbn [snd]. intros Hr Hop. unfold ma_step, ss_step.
  destruct (ma_procs g !! i) as [p|] eqn:Hp.
  2:{ assert (ss_view γ i = None) as ->; [|done]. unfold ss_view.
      rewrite (proj2 (lookup_ge_None _ _)); [done|]. rewrite (mr_length _ _ Hr).
      by apply lookup_ge_None. }
  destruct (ma_view g γ i p Hr Hp) as (σ & -> & Hv). cbn [of_option mbind result_bind].
  pose proof (mr_inv _ _ Hr _ _ Hp) as Hi.
  eapply simR_bind; [by apply (v_op_sim lg limit Hlg Hlim junk curTick mode op (ma_virt g p) σ)|].
  intros [o v'] [o' σ'] (Ho & Hi' & Hv' & Hs). cbn [fst snd] in *. subst o'.
  apply simR_ret. cbn [fst snd]. split; [done|].
  destruct (st_sys _ _ _ Hs) as (S1 & S2 & S3). destruct (st_proc _ _ _ Hs) as (P1 & P2 & P3).
  cbn in S1, S2, S3, P1, P2, P3.
  assert (Hreg : forall q, region (v_sys v') q = region (ma_sys g) q)
    by (intros q; unfold region; by rewrite S3).
  assert (Hoth : forall j q, ma_procs g !! j = Some q -> j <> i ->
    vinv lg limit (mkVirt (v_sys v') q (v_mem v')) /\
    (forall f, own (v_table v') f -> own (pr_pTable q) f -> False) /\
    (forall a, space lg (pr_pTable q) (fp_view (v_mem v')) a
               = space lg (pr_pTable q) (fp_view (ma_mem g)) a)).
  { intros j q Hq Hne. apply (other_keeps (ma_virt g p) v' q); [done..| |].
    - by apply (mr_inv _ _ Hr _ _ Hq).
    - intros f Hf Hf'. by apply (mr_apart _ _ Hr i j p q f). }
  assert (Hconst : forall q, const_of (v_sys v') q = const_of (ma_sys g) q)
    by (intros q; unfold const_of; by rewrite Hreg).
  split; cbn.
  - intros j q [(<- & <- & _)|[Hne Hq]]%list_lookup_insert_Some; [by destruct v'|].
    by apply (Hoth j q Hq).
  - intros j k a b f [(<- & <- & _)|[Hj Ha]]%list_lookup_insert_Some
      [(<- & <- & _)|[Hk Hb]]%list_lookup_insert_Some Hne Hfa Hfb.
    + done.
    + destruct (Hoth k b Hb) as (_ & Hap & _); [done|]. by apply (Hap f).
    + destruct (Hoth j a Ha) as (_ & Hap & _); [done|]. by apply (Hap f).
    + by apply (mr_apart _ _ Hr j k a b f).
  - rewrite !length_insert. apply (mr_length _ _ Hr).
  - intros j q [(<- & <- & _)|[Hne Hq]]%list_lookup_insert_Some.
    + exists (sp_byte σ'). rewrite list_lookup_insert_eq.
      2:{ rewrite (mr_length _ _ Hr). by apply lookup_lt_Some in Hp. }
      split; [|apply (vr_byte _ _ _ Hv')]. rewrite Hconst. unfold const_of.
      rewrite P1, P2, P3. by rewrite (vr_smin _ _ _ Hv').
    + destruct (mr_procs _ _ Hr _ _ Hq) as (b & Hb & Hsp). exists b.
      rewrite list_lookup_insert_ne by done. rewrite Hconst. split; [done|]. intros a. rewrite Hsp.
      by destruct (Hoth j q Hq) as (_ & _ & Hk).
  - intros q Hq. rewrite S2 in Hq. rewrite Hreg. cbn [pc_region const_of].
    pose proof (mr_left _ _ Hr _ Hq) as Hlq. pose proof (vi_pid _ _ _ Hi) as Hpid. cbn in Hpid.
    pose proof (mr_left _ _ Hr _ Hpid) as Hlp.
    pose proof (st_left _ _ _ Hs q) as Hsl. cbn in Hsl. specialize (Hsl Hq).
    pose proof (vr_left _ _ _ Hv') as Hvl. rewrite P1 in Hvl.
    pose proof (region_range (ma_sys g) q Hq). pose proof (region_range (ma_sys g) _ Hpid).
    rewrite Hsl. destruct (Z.eqb_spec (region (ma_sys g) q) (region (ma_sys g) (pr_pid p))) as [E0|E0].
    + rewrite E0, list_lookup_insert_eq by (by eapply lookup_lt_Some). f_equal. rewrite Hvl.
      rewrite E0 in Hlq. rewrite Hlp in Hlq. injection Hlq as ->. lia.
    + rewrite list_lookup_insert_ne by lia. done.
Qed.

Lemma ma_run_sim xs : forall g γ,
  ma_rel g γ -> Forall (fun x => vop_ok lg x.2) xs ->
  simR (ma_run xs g) (ss_run xs γ) (fun y z => y.1 = z.1).
Proof.
  induction xs as [|x xs IH]; intros g γ Hr Hall; cbn [ma_run ss_run].
  { by apply simR_ret. }
  inversion Hall as [|? ? Hx Hxs]; subst.
  eapply simR_bind; [by apply ma_step_sim|]. intros [o g'] [o' γ'] [Ho Hr']. cbn [fst snd] in *. subst.
  eapply simR_bind; [by apply IH|]. intros [os g2] [os' γ2] Hos. cbn in Hos. subst.
  cbn. eexists. split; [done|]. done.
Qed.

(** * The beginning *)

Definition ss_new (s : System) (procs : list (Process E)) : Spaces :=
  mkSpaces (if sys_fixAddr s then replicate (Z.to_nat (sys_numPids s)) (part_pages lg s)
            else [mem_pages lg s])
    ((fun p => (const_of s p, fun _ => None, stack_min p)) <$> procs).

(** A process whose page table is new, with an empty stack at a page boundary. *)
Definition proc_new (s : System) (p : Process E) : Prop :=
  PageTable_new blank (pt_pid (pr_pTable p)) ps = Ok (pr_pTable p) /\
  0 <= pr_pid p < sys_numPids s /\ stack_min p mod ps = 0 /\
  ps <= stack_min p <= stack_base p /\ stack_base p < 2 ^ 63 /\ 0 <= max_stack_size p <= stack_base p.

(** A memory with less than [2^31] pages, which the threads can share evenly if each
    has its part of it. *)
Definition share_ok (totalSize numPids : Z) (fixAddr : bool) : Prop :=
  0 < numPids < 2 ^ 31 /\ 0 <= totalSize /\ totalSize / ps < 2 ^ 31 /\
  totalSize * (numPids + 1) < 2 ^ 62 /\
  (fixAddr = true -> totalSize = numPids * (totalSize / ps / numPids) * ps).

Lemma System_new_ptrs total n fix_ i :
  share_ok total n fix_ -> 0 <= i < n ->
  pagePtr (System_new lg total n fix_) !! Z.to_nat i = Some (i * (total / ps / n)).
Proof.
  intros (H1 & H2 & H3 & H4 & H5) Hi. pose proof (ps_bound lg Hlg).
  unfold System_new, zrange. cbn. rewrite list_lookup_fmap, lookup_seqZ_lt by lia. cbn. f_equal.
  rewrite Z.shiftr_div_pow2 by lia.
  assert (0 <= total / ps) by (apply Z.div_pos; lia). rewrite (i32_small (total / ps)) by lia.
  rewrite Z.quot_div_nonneg by lia.
  assert (0 <= total / ps / n) by (apply Z.div_pos; lia).
  pose proof (Z.mul_div_le (total / ps) n ltac:(lia)).
  assert (Hin : 0 <= i * (total / ps / n) < 2 ^ 31) by nia.
  replace (Z.of_nat (Z.to_nat i) + 0) with i by lia.
  replace (0 + Z.of_nat (Z.to_nat i)) with i by lia.
  rewrite i32_small, u64_small by lia. done.
Qed.

Lemma System_new_ok total n fix_ : share_ok total n fix_ -> sys_ok lg (System_new lg total n fix_).
Proof.
  intros Hs. pose proof Hs as (H1 & H2 & H3 & H4 & H5). pose proof (ps_bound lg Hlg).
  assert (0 <= total / ps) by (apply Z.div_pos; lia).
  assert (0 <= total / ps / n) by (apply Z.div_pos; lia).
  split; try done.
  - unfold System_new, zrange. cbn. rewrite length_fmap, length_seqZ. lia.
  - intros i p Hp Hf. assert (Hin : 0 <= Z.of_nat i < n).
    { apply lookup_lt_Some in Hp. unfold System_new, zrange in Hp. cbn in Hp.
      rewrite length_fmap, length_seqZ in Hp. lia. }
    rewrite <- (Nat2Z.id i), (System_new_ptrs total n fix_ (Z.of_nat i)) in Hp by done.
    injection Hp as <-. unfold lo_page, hi_page, part_pages, mem_pages in *. cbn in *.
    destruct fix_; [lia|]. rewrite Hf by done. lia.
Qed.

Lemma System_new_left total n fix_ q :
  share_ok total n fix_ -> 0 <= q < n ->
  frames_left lg q (System_new lg total n fix_)
  = if fix_ then total / ps / n else total / ps.
Proof.
  intros Hs Hq. unfold frames_left. unfold region, hi_page, part_pages, mem_pages. cbn [sys_fixAddr System_new].
  destruct fix_.
  - rewrite System_new_ptrs by done. cbn. unfold id. lia.
  - rewrite System_new_ptrs by (done || (destruct Hs; lia)). cbn. unfold id. lia.
Qed.

Lemma ma_rel_new total n fix_ procs m :
  share_ok total n fix_ -> total <= limit -> total <= fp_limit m -> fp_good m ->
  (forall x, fp_view m x = 0) -> Forall (proc_new (System_new lg total n fix_)) procs ->
  ma_rel (mkMachine (System_new lg total n fix_) procs m) (ss_new (System_new lg total n fix_) procs).
Proof.
  intros Hs Hl Hf Hg Hz Hall. rewrite Forall_forall in Hall. pose proof (System_new_ok _ _ _ Hs) as Hok.
  assert (Hempty : forall p, p ∈ procs ->
    pr_pTable p = mkPageTable ∅ (replicate 3 (0, blank)) ps (ps - 1) (pt_pid (pr_pTable p))).
  { intros p Hp. destruct (Hall p Hp) as [Hn _].
    rewrite PageTable_new_ok in Hn by lia. injection Hn as <-. done. }
  assert (Hno : forall p f, p ∈ procs -> ~ own (pr_pTable p) f).
  { intros p f Hp (w & e & He & _). rewrite (Hempty p Hp) in He. cbn in He. by rewrite lookup_empty in He. }
  split; cbn.
  - intros i p Hp. apply list_elem_of_lookup_2 in Hp. destruct (Hall p Hp) as (_ & H1 & H2 & H3 & H4 & H5).
    split; cbn; try done.
    + unfold v_table. cbn. rewrite (Hempty p Hp). split; cbn.
      * done.
      * intros a e e'. cbn. by rewrite lookup_empty.
      * intros a e He. left. cbn in He. destruct a; [done|discriminate He..].
      * intros v e. by rewrite lookup_empty.
      * intros v v' e e'. by rewrite lookup_empty.
    + intros f Hof. by destruct (Hno p f Hp).
    + intros f x _ _. apply Hz.
  - intros i j p q f Hp. apply list_elem_of_lookup_2 in Hp. intros _ _ Hof. by destruct (Hno p f Hp).
  - by rewrite length_fmap.
  - intros i p Hp. exists (fun _ => None). rewrite list_lookup_fmap, Hp. cbn. split; [done|].
    intros a. apply list_elem_of_lookup_2 in Hp. unfold space. rewrite (Hempty p Hp). cbn.
    by rewrite lookup_empty.
  - intros q Hq. cbn in Hq. rewrite System_new_left by done. unfold region, ss_new. cbn.
    destruct fix_; [|done]. apply lookup_replicate. split; [done|]. lia.
Qed.

End Spaces.

(** C16. Processes that share a memory have address spaces of their own: whatever they
    allocate, write, fill and read through their proxies, in any order, every answer and
    every fault is the one of a specification in which each process has its own map from
    addresses to bytes, new pages are zero, and only the number of pages left is shared.
    This holds of any memory that keeps the bytes of functional accesses and for any
    entry that keeps its frame; the threads' parts of the memory must come out even. *)
Theorem processes_have_own_spaces {E} `{!TlbEntryOps E} (blank : E) (lg limit : Z)
    `{!TlbEntryLaws E lg limit} {M} `{!FunctionalPort M} `{!FunctionalLaws M}
    (junk : Request) (curTick total numPids : Z) (fixAddr : bool) (procs : list (Process E)) (m : M)
    (ops : list (nat * AllocType * vop)) :
  0 <= lg < 31 -> limit <= 2 ^ 64 -> share_ok lg total numPids fixAddr ->
  total <= limit -> total <= fp_limit m -> fp_good m -> (forall x, fp_view m x = 0) ->
  Forall (proc_new blank lg (System_new lg total numPids fixAddr)) procs ->
  Forall (fun x => vop_ok lg x.2) ops ->
  match ss_run lg ops (ss_new lg (System_new lg total numPids fixAddr) procs) with
  | Ok (outs, _) =>
      exists g, ma_run lg junk curTick ops (mkMachine (System_new lg total numPids fixAddr) procs m)
                = Ok (outs, g)
  | Err e => ma_run lg junk curTick ops (mkMachine (System_new lg total numPids fixAddr) procs m) = Err e
  end.
Proof.
  intros Hlg Hlim Hs H1 H2 H3 H4 H5 H6.
  pose proof (ma_rel_new blank lg limit Hlg total numPids fixAddr procs m Hs H1 H2 H3 H4 H5) as Hr.
  pose proof (ma_run_sim lg limit Hlg Hlim junk curTick ops _ _ Hr H6) as Hsim.
  destruct (ss_run _ _ _) as [[outs γ]|e]; cbn [simR] in Hsim; [|done].
  destruct Hsim as ([os g] & -> & Ho). cbn in Ho. subst. eauto.
Qed.

(** * An example *)

(** Two threads of x86 with eight pages each. *)
Definition demo_total : Z := 16 * 4096.
Definition demo_sys : System := System_new X86PageShift demo_total 2 true.
Definition demo_table : PageTable X86TlbEntry :=
  mkPageTable ∅ (replicate 3 (0, x86_blank)) (2 ^ X86PageShift) (2 ^ X86PageShift - 1) 7.
Definition demo_proc (pid : Z) : Process X86TlbEntry :=
  mkProcess pid 0x80000 0x80000 0x10000 0x90000 demo_table.
Definition demo_memory : SimpleMemory :=
  mkSimpleMemory
    (mkAbstractMemory (mkRange 0 (demo_total - 1)) (Some (replicate (Z.to_nat demo_total) 0)) [])
    (mkPacketQueue [] None None 0 false) [] 0 0 Running.
Definition demo_request : Request := mkRequest 0 0 0 0 0 0 0 0 0 0 0 0.

Definition demo_vops : list (nat * AllocType * vop) :=
  [(0%nat, Always, VWrite 0x10ffe [1; 2; 3; 4]); (1%nat, Never, VAlloc 0x10000 0x1800);
   (1%nat, NextPage, VRead 0x10ffe 4); (1%nat, NextPage, VWriteString 0x10ffd [72; 105]);
   (0%nat, Never, VRead 0x10ffd 5); (1%nat, Never, VReadString 9 0x10ffd);
   (1%nat, NextPage, VWrite 0x7e008 [5; 6]); (1%nat, Never, VRead 0x7ffff 2);
   (0%nat, Always, VMemset 0x20000 9 3); (0%nat, NextPage, VMemset 0x30000 9 3);
   (0%nat, NextPage, VRead 0x20001 3); (1%nat, Never, VWrite 0x11fff [7; 8])].

Definition demo_vouts : list vout :=
  [VDone true; VUnit; VBytes true [0; 0; 0; 0]; VDone true; VBytes true [0; 1; 2; 3; 4];
   VBytes true [72; 105]; VDone true; VBytes false [0; 0]; VDone true; VDone false;
   VBytes true [9; 9; 0]; VDone false].

Lemma processes_have_own_spaces_witness :
  exists g, ma_run X86PageShift demo_request 0 demo_vops
              (mkMachine demo_sys [demo_proc 0; demo_proc 1] demo_memory) = Ok (demo_vouts, g).
Proof.
  assert (Hout : match ss_run X86PageShift demo_vops
                         (ss_new X86PageShift demo_sys [demo_proc 0; demo_proc 1]) with
                 | Ok (os, _) => os | Err _ => [] end = demo_vouts) by (vm_compute; reflexivity).
  pose proof (processes_have_own_spaces x86_blank X86PageShift (2 ^ 64) demo_request 0 demo_total 2 true
                [demo_proc 0; demo_proc 1] demo_memory demo_vops) as H.
  fold demo_sys in H. revert H Hout.
  destruct (ss_run X86PageShift demo_vops _) as [[os γ]|e]; [|intros _ Hn; discriminate Hn].
  intros H <-. apply H; clear H.
  - unfold X86PageShift. lia.
  - lia.
  - vm_compute. repeat split; try discriminate; reflexivity.
  - vm_compute. discriminate.
  - vm_compute. discriminate.
  - split; [reflexivity|reflexivity|vm_compute; split; [discriminate|reflexivity]|].
    eexists. split; [reflexivity|]. rewrite length_replicate, Z2Nat.id; [reflexivity|vm_compute; discriminate].
  - intros x. change (host_byte demo_memory x = 0). unfold host_byte. case_decide as Hx; [|reflexivity].
    cbn [am_pmem sm_mem demo_memory default from_option id].
    destruct (replicate (Z.to_nat demo_total) 0 !! Z.to_nat x) eqn:Hl; [|reflexivity].
    apply lookup_replicate in Hl as [-> _]. reflexivity.
  - repeat constructor; vm_compute; (discriminate || reflexivity).
  - repeat constructor; vm_compute; try discriminate; reflexivity.
Defined.

(** * Where the address spaces are not separate *)

(** Three threads that share eight pages: the parts begin every two pages, but a thread
    may go on to a third of the bytes, so the second and the third get the same page. *)
Theorem uneven_parts_overlap :
  (x ← allocPhysPages X86PageShift 3 1 (System_new X86PageShift (8 * 4096) 3 true);
   y ← allocPhysPages X86PageShift 1 2 x.2; Ok (x.1, y.1)) = Ok (2 * 4096, 4 * 4096).
Proof. vm_compute. reflexivity. Qed.

(** With parts of 4 GB the free memory is that of parts of no bytes. *)
Theorem free_memory_overflows :
  freeMemSize X86PageShift (System_new X86PageShift (2 ^ 33) 2 true) = Ok (2 ^ 64 - 2 ^ 32) /\
  freeMemSize X86PageShift (System_new X86PageShift (2 ^ 33) 2 false) = Ok (2 ^ 33).
Proof. split; vm_compute; reflexivity. Qed.

(** [mremap] moves a page whose translation stays cached: a write to the old address
    succeeds and changes what the process reads at the new one. *)
Definition run_mremap : result (vout * vout) :=
  let v := mkVirt demo_sys (demo_proc 0) demo_memory in
  x ← v_op X86PageShift demo_request 0 Always (VWrite 0x10000 [1; 2]) v;
  let v := x.2 in
  y ← mremapFunc x86_blank X86PageShift 0x10000 0x1000 0x2000 1 (v_sys v) (v_proc v);
  let v := mkVirt y.2.1 y.2.2 (v_mem v) in
  x ← v_op X86PageShift demo_request 0 Never (VWrite 0x10001 [9]) v;
  z ← v_op X86PageShift demo_request 0 Never (VRead y.1 2) x.2;
  Ok (x.1, z.1).

Theorem mremap_leaves_alias : run_mremap = Ok (VDone true, VBytes true [1; 9]).
Proof. vm_compute. reflexivity. Qed.

(** The old length is not checked: one that is not a number of pages moves the pages and
    then fails the assertion of [map]. *)
Theorem mremap_unaligned_asserts :
  match allocateMem X86PageShift 0x10000 0x1000 false demo_sys (demo_proc 0) with
  | Ok (s, p) => mremapFunc x86_blank X86PageShift 0x10000 0x800 0x1000 1 s p = Err AssertFail
  | Err _ => False
  end.
Proof. vm_compute. reflexivity. Qed.
