(* ===== verification/DramAdapter.v ===== *)
(** The memory as the caches see it: the channels of
    ext/DRAMSim2/MultiChannelMemorySystem.cpp with the clock crossing of
    ClockDomain.cpp, and the adapter of mem/DRAMSim2.cc and DRAMSim2Wrapper.cc that
    turns packets into transactions and the answers back into responses.

    The adapter keeps packets by pointer, since its list of accesses under way, its
    list of packets to delete and its callers share them: [ad_pkts] holds the packets
    that may still be touched.  A packet handed to a response queue belongs to the
    queue from then on and leaves the heap, so touching it again is a fault.

    [tCK] is a [float] in nanoseconds.  The model has [(Tick)(tCK * 1000)], the ticks of
    a cycle, and takes the two comparisons made in floating point as parameters: the
    wrapper's [(double)cycle <= (double)tick / 1000.0 / tCK], and the main loop's
    [(cycle - 1) * tCK * 1000 < tick], which is in single precision. *)

From S2P Require Import Prelude Request MemCmd Packet PacketQueue PortMap Memory DramTypes DramQueue DramRank DramController.

(** * Clock crossing *)

Record ClockDomainCrosser := mkCrosser {
  cd_clock1 : Z; cd_clock2 : Z; cd_counter1 : Z; cd_counter2 : Z
}.

Definition ClockDomainCrosser_new (clock1 clock2 : Z) : ClockDomainCrosser :=
  mkCrosser clock1 clock2 0 0.

(** The loop of [update]: how often it calls back, and the second counter. *)
Fixpoint crosser_loop (fuel : nat) (clock2 counter1 counter2 : Z) : result (nat * Z) :=
  match fuel with
  | O => Err OutOfFuel
  | S fuel' =>
      if counter2 <? counter1 then
        r ← crosser_loop fuel' clock2 counter1 (u64 (counter2 + clock2)); Ok (S r.1, r.2)
      else Ok (O, counter2)
  end.

Definition crosser_update (x : ClockDomainCrosser) : result (nat * ClockDomainCrosser) :=
  if cd_clock1 x =? cd_clock2 x then Ok (1%nat, x) else
  let counter1 := u64 (cd_counter1 x + cd_clock1 x) in
  r ← crosser_loop (S (Z.to_nat (counter1 - cd_counter2 x))) (cd_clock2 x) counter1 (cd_counter2 x);
  Ok (r.1, if counter1 =? r.2 then mkCrosser (cd_clock1 x) (cd_clock2 x) 0 0
           else mkCrosser (cd_clock1 x) (cd_clock2 x) counter1 r.2).

(** * Channels *)

Record MultiChannel := mkMultiChannel {
  mc_channels : list MemorySystem;
  mc_cycle : Z;
  mc_crosser : ClockDomainCrosser
}.

Section Channels.

Context (c : DramCfg) (qc : QCfg).

Definition isPowerOfTwo (x : Z) : bool := u64 (Z.shiftl 1 (dramsim_log2 x)) =? x.

(** The constructor, with the clocks that [setCPUClockSpeed(0)] sets. *)
Definition MultiChannel_new (lastPID freq : Z) : result MultiChannel :=
  if NUM_CHANS c =? 0 then Err Panic else
  Ok (mkMultiChannel (replicate (Z.to_nat (NUM_CHANS c)) (MemorySystem_new c qc lastPID)) 0
        (ClockDomainCrosser_new freq freq)).

Definition findChannelNumber (addr : Z) : result Z :=
  if NUM_CHANS c =? 1 then Ok 0 else
  if negb (isPowerOfTwo (NUM_CHANS c)) then Err Panic else
  let channelNumber := da_chan (addressMapping c addr) in
  if NUM_CHANS c <=? channelNumber then Err Panic else Ok channelNumber.

Definition mcs_addTransaction (t : Transaction) (s : MultiChannel) : result (bool * MultiChannel) :=
  i ← findChannelNumber (tr_address t);
  ch ← arr_get (mc_channels s) i;
  r ← MemorySystem_addTransaction c qc t ch;
  l ← arr_set (mc_channels s) i r.2;
  Ok (r.1, mkMultiChannel l (mc_cycle s) (mc_crosser s)).

(** [actual_update]: all channels, in order; the callbacks they make. *)
Definition update_channel (x : list MemorySystem * list MemOut) (i : Z)
    : result (list MemorySystem * list MemOut) :=
  ch ← arr_get x.1 i;
  r ← MemorySystem_update c qc ch;
  l ← arr_set x.1 i r.1;
  Ok (l, x.2 ++ r.2).

Definition actual_update (s : MultiChannel) : result (MultiChannel * list MemOut) :=
  r ← foldM update_channel (mc_channels s, []) (zrange (NUM_CHANS c));
  Ok (mkMultiChannel r.1 (mc_cycle s + 1) (mc_crosser s), r.2).

Fixpoint actual_updates (n : nat) (s : MultiChannel) : result (MultiChannel * list MemOut) :=
  match n with
  | O => Ok (s, [])
  | S n' => r1 ← actual_update s; r2 ← actual_updates n' r1.1; Ok (r2.1, r1.2 ++ r2.2)
  end.

Definition mcs_update (s : MultiChannel) : result (MultiChannel * list MemOut) :=
  r ← crosser_update (mc_crosser s);
  actual_updates r.1 (mkMultiChannel (mc_channels s) (mc_cycle s) r.2).

End Channels.

(** * The adapter *)

Definition PktPtr := Z.

(** The parameters of the memory object. *)
Record AdapterCfg := mkAdapterCfg {
  ac_split_ports : bool;
  ac_num_pids : Z;
  ac_tCK : Z;
  ac_due : Z -> Z -> bool;
  ac_behind : Z -> Z -> bool;
  ac_ms : Z;
  ac_lat : Z;
  ac_lat_var : Z
}.

Record Adapter := mkAdapter {
  ad_mem : AbstractMemory;
  ad_sys : MultiChannel;
  ad_ongoing : list (Z * PktPtr);
  ad_pkts : gmap Z Packet;
  ad_reqs : ReqHeap;
  ad_pendingDelete : list PktPtr;
  ad_queue : PacketQueue;
  ad_respQueues : list PacketQueue
}.

Definition with_ad_access (m : AbstractMemory) (h : ReqHeap) (pkts : gmap Z Packet) (a : Adapter)
    : Adapter :=
  mkAdapter m (ad_sys a) (ad_ongoing a) pkts h (ad_pendingDelete a) (ad_queue a) (ad_respQueues a).
Definition with_ad_sys (v : MultiChannel) (a : Adapter) : Adapter :=
  mkAdapter (ad_mem a) v (ad_ongoing a) (ad_pkts a) (ad_reqs a) (ad_pendingDelete a) (ad_queue a)
    (ad_respQueues a).
Definition with_ad_ongoing (v : list (Z * PktPtr)) (a : Adapter) : Adapter :=
  mkAdapter (ad_mem a) (ad_sys a) v (ad_pkts a) (ad_reqs a) (ad_pendingDelete a) (ad_queue a)
    (ad_respQueues a).
Definition with_ad_pkts (v : gmap Z Packet) (a : Adapter) : Adapter :=
  mkAdapter (ad_mem a) (ad_sys a) (ad_ongoing a) v (ad_reqs a) (ad_pendingDelete a) (ad_queue a)
    (ad_respQueues a).
Definition with_ad_pendingDelete (v : list PktPtr) (a : Adapter) : Adapter :=
  mkAdapter (ad_mem a) (ad_sys a) (ad_ongoing a) (ad_pkts a) (ad_reqs a) v (ad_queue a)
    (ad_respQueues a).
Definition with_ad_queues (q : PacketQueue) (rq : list PacketQueue) (a : Adapter) : Adapter :=
  mkAdapter (ad_mem a) (ad_sys a) (ad_ongoing a) (ad_pkts a) (ad_reqs a) (ad_pendingDelete a) q rq.

(** A response handed to a queue: the packet, when it is due, and for which thread. *)
Record Response := mkResponse { rs_ptr : PktPtr; rs_pkt : Packet; rs_when : Z; rs_tid : Z }.

Section Adapter.

Context (c : DramCfg) (qc : QCfg) (ac : AdapterCfg).

Definition Adapter_new (m : AbstractMemory) (sys : MultiChannel) (h : ReqHeap) : Adapter :=
  mkAdapter m sys [] ∅ h [] (PacketQueue_new 0) (PacketQueue_new <$> zrange (ac_num_pids ac)).

Definition pkt_deref (p : PktPtr) (a : Adapter) : result Packet :=
  of_option NullDeref (ad_pkts a !! p).

(** [removePendingDelete] and [addPendingDelete] of the port. *)
Definition removePendingDelete (a : Adapter) : Adapter :=
  with_ad_pendingDelete []
    (with_ad_pkts (foldr (fun p h => delete p h) (ad_pkts a) (ad_pendingDelete a)) a).
Definition addPendingDelete (p : PktPtr) (a : Adapter) : Adapter :=
  with_ad_pendingDelete (ad_pendingDelete a ++ [p]) a.

(** [doAtomicAccess] *)
Definition ad_doAtomicAccess (rnd : Z) (p : PktPtr) (a : Adapter) : result (Z * Adapter) :=
  pkt ← pkt_deref p a;
  x ← mem_access (ad_reqs a) pkt (ad_mem a);
  let '(h, pkt, m) := x in
  Ok (calculateLatency (ac_lat ac) (ac_lat_var ac) rnd pkt,
      with_ad_access m h (<[p := pkt]> (ad_pkts a)) a).

(** [schedTimingResp]: the queue of the port, or of the thread with split ports. *)
Definition ad_schedTimingResp (curTick : Z) (p : PktPtr) (when tid : Z) (a : Adapter)
    : result (Adapter * list Response) :=
  pkt ← pkt_deref p a;
  qs ← (if ac_split_ports ac then
          q ← arr_get (ad_respQueues a) tid;
          q ← schedSendTiming curTick pkt when false q;
          l ← arr_set (ad_respQueues a) tid q;
          Ok (ad_queue a, l)
        else
          q ← schedSendTiming curTick pkt when false (ad_queue a);
          Ok (q, ad_respQueues a));
  Ok (with_ad_queues qs.1 qs.2 (with_ad_pkts (delete p (ad_pkts a)) a), [mkResponse p pkt when tid]).

(** The accesses under way, a multimap: the oldest entry of an index. *)
Fixpoint find_ongoing (index : Z) (l : list (Z * PktPtr)) : option (PktPtr * list (Z * PktPtr)) :=
  match l with
  | [] => None
  | (i, p) :: l' =>
      if i =? index then Some (p, l') else
      match find_ongoing index l' with Some (x, rest) => Some (x, (i, p) :: rest) | None => None end
  end.

(** The tick of a response: not in the past, and less than a millisecond away. *)
Definition to_schedule (curTick raw : Z) : Z :=
  let t := u64 raw in
  let t := if t <=? curTick then u64 (curTick + 1) else t in
  if u64 (curTick + ac_ms ac) <=? t then u64 (curTick + ac_ms ac - 1) else t.

(** [read_complete] and [write_complete], which differ in the index and the tick. *)
Definition complete (curTick rnd index raw tid : Z) (a : Adapter)
    : result (Adapter * list Response) :=
  match find_ongoing index (ad_ongoing a) with
  | None => Ok (a, [])
  | Some (p, rest) =>
      let a := removePendingDelete a in
      pkt ← pkt_deref p a;
      if needsResponse pkt then
        x ← ad_doAtomicAccess rnd p a;
        pkt ← pkt_deref p x.2;
        cassert (isResponse pkt) ;;
        y ← ad_schedTimingResp curTick p (to_schedule curTick raw) tid x.2;
        Ok (with_ad_ongoing rest y.1, y.2)
      else Ok (with_ad_ongoing rest (addPendingDelete p a), [])
  end.

Definition read_complete (curTick rnd address clock_cycle tid : Z) (a : Adapter)
    : result (Adapter * list Response) :=
  complete curTick rnd (u64 (Z.shiftl address 1)) (u64 (clock_cycle + 1) * ac_tCK ac) tid a.
Definition write_complete (curTick rnd address clock_cycle tid : Z) (a : Adapter)
    : result (Adapter * list Response) :=
  complete curTick rnd (Z.lor (u64 (Z.shiftl address 1)) 1) (clock_cycle * ac_tCK ac) tid a.

Definition callback (curTick rnd : Z) (x : Adapter * list Response) (o : MemOut)
    : result (Adapter * list Response) :=
  y ← match o with
      | ReturnReadData addr cycle tid => read_complete curTick rnd addr cycle tid x.1
      | WriteDataDone addr cycle tid => write_complete curTick rnd addr cycle tid x.1
      end;
  Ok (y.1, x.2 ++ y.2).

(** One [dramsim2->update()], with the callbacks it makes. *)
Definition dram_update (curTick rnd : Z) (a : Adapter) : result (Adapter * list Response) :=
  r ← mcs_update c qc (ad_sys a);
  foldM (callback curTick rnd) (with_ad_sys r.1 a, []) r.2.

Fixpoint dram_updates (fuel : nat) (due : Z -> bool) (curTick rnd : Z) (a : Adapter)
    : result (Adapter * list Response) :=
  match fuel with
  | O => Err OutOfFuel
  | S fuel' =>
      if due (mc_cycle (ad_sys a)) then
        r1 ← dram_update curTick rnd a;
        r2 ← dram_updates fuel' due curTick rnd r1.1;
        Ok (r2.1, r1.2 ++ r2.2)
      else Ok (a, [])
  end.

(** [updateDRAMSim2] of the wrapper, and the loop of [simulate] before it services the
    next event; there the cycle less one is unsigned.  Both run until the memory has
    caught up with a tick, so any fuel beyond the cycles of that tick is enough. *)
Definition updateDRAMSim2 (fuel : nat) (curTick rnd : Z) (a : Adapter)
    : result (Adapter * list Response) :=
  dram_updates fuel (fun cycle => ac_due ac cycle curTick) curTick rnd a.

Definition simulate_catch_up (fuel : nat) (curTick nextTick rnd : Z) (a : Adapter)
    : result (Adapter * list Response) :=
  dram_updates fuel (fun cycle => ac_behind ac (u64 (cycle - 1)) nextTick) curTick rnd a.

Definition thread_of (pkt : Packet) : Z :=
  if ac_num_pids ac <=? pkt_threadID pkt then 0 else pkt_threadID pkt.

(** The transaction of a request that wants a response: the access is recorded before
    it is offered to the memory, whether or not that takes it. *)
Definition request_transaction (ty : TransactionType) (addr : Z) (p : PktPtr) (pkt : Packet)
    (a : Adapter) : result (bool * Adapter) :=
  let index := u64 (Z.shiftl addr 1) in
  let index := if bool_decide (ty = DATA_WRITE) then Z.lor index 1 else index in
  let a := with_ad_ongoing (ad_ongoing a ++ [(index, p)]) a in
  r ← mcs_addTransaction c qc (mkTransaction ty addr (thread_of pkt) (mc_cycle (ad_sys a))) (ad_sys a);
  Ok (r.1, with_ad_sys r.2 a).

(** [MemoryPort::recvTimingReq], after the first update of the memory. *)
Definition recv_request (curTick rnd : Z) (p : PktPtr) (pkt : Packet) (addr : Z) (a : Adapter)
    : result (bool * Adapter * list Response) :=
  if needsResponse pkt then
    if isRead pkt then r ← request_transaction DATA_READ addr p pkt a; Ok (r, [])
    else if isWrite pkt then r ← request_transaction DATA_WRITE addr p pkt a; Ok (r, [])
    else
      x ← ad_doAtomicAccess rnd p a;
      pkt' ← pkt_deref p x.2;
      cassert (isResponse pkt') ;;
      y ← ad_schedTimingResp curTick p (u64 (curTick + 1)) (pkt_threadID pkt') x.2;
      Ok (true, y.1, y.2)
  else if isWrite pkt then
    r ← mcs_addTransaction c qc (mkTransaction DATA_WRITE addr (thread_of pkt) (mc_cycle (ad_sys a)))
          (ad_sys a);
    let a := with_ad_sys r.2 a in
    if (r.1 : bool) then
      x ← ad_doAtomicAccess rnd p a; Ok (true, addPendingDelete p x.2, [])
    else Ok (false, a, [])
  else
    x ← ad_doAtomicAccess rnd p a; Ok (negb (x.1 =? 0), addPendingDelete p x.2, []).

Definition ad_recvTimingReq (fuel : nat) (curTick rnd : Z) (p : PktPtr) (a : Adapter)
    : result (bool * Adapter * list Response) :=
  let a := removePendingDelete a in
  pkt ← pkt_deref p a;
  if memInhibitAsserted pkt then
    u ← updateDRAMSim2 fuel curTick rnd (with_ad_pkts (delete p (ad_pkts a)) a);
    Ok (true, u.1, u.2)
  else
    addr ← getAddr pkt;
    u1 ← updateDRAMSim2 fuel curTick rnd a;
    x ← recv_request curTick rnd p pkt addr u1.1;
    let '(retVal, a, resp) := x in
    u2 ← updateDRAMSim2 fuel curTick rnd a;
    Ok (retVal, u2.1, u1.2 ++ resp ++ u2.2).

(** [recvAtomic], [recvFunctional] and [drain]: the last two look at the queue of the
    port only. *)
Definition ad_recvAtomic (rnd : Z) (p : PktPtr) (a : Adapter) : result (Z * Adapter) :=
  ad_doAtomicAccess rnd p a.

Definition ad_recvFunctional (pkt : Packet) (a : Adapter) : result (Packet * Adapter) :=
  x ← PacketQueue_checkFunctional pkt (ad_queue a);
  let '(found, pkt, q) := x in
  let a := with_ad_queues q (ad_respQueues a) a in
  if (found : bool) then Ok (pkt, a) else
  y ← mem_functionalAccess pkt (ad_mem a);
  Ok (y.1, with_ad_access y.2 (ad_reqs a) (ad_pkts a) a).

Definition ad_drain (de : Z) (a : Adapter) : Z * SimState * Adapter :=
  let '(q, count) := PacketQueue_drain de (ad_queue a) in
  (count, if negb (count =? 0) then Draining else Drained, with_ad_queues q (ad_respQueues a) a).

(** [recvRetry(threadID)] of the two kinds of port, for a far end of the port. *)
Definition ad_recvRetry (sendTiming : Packet -> bool -> PacketQueue -> result (PacketQueue * bool))
    (curTick tid : Z) (a : Adapter) : result Adapter :=
  if ac_split_ports ac then
    q ← arr_get (ad_respQueues a) tid;
    r ← PacketQueue_retry sendTiming curTick q;
    l ← arr_set (ad_respQueues a) tid r.1;
    Ok (with_ad_queues (ad_queue a) l a)
  else
    r ← PacketQueue_retry sendTiming curTick (ad_queue a);
    Ok (with_ad_queues r.1 (ad_respQueues a) a).

End Adapter.
