(* ===== verification/DramJobs.v ===== *)
(** Reads and writes by address and thread: what the memory system has accepted is
    what it has reported finished, each to the thread that asked, and what is still
    under way. *)

From S2P Require Import Prelude DramTypes DramQueue DramRank DramController DramQueueSpec DramTurns DramBanks DramAddr DramLanes DramFlow DramSafe.

(** Whether it is a write, the address and the thread. *)
Definition job : Type := bool * Z * Z.

Definition tr_job (t : Transaction) : job :=
  (bool_decide (tr_type t = DATA_WRITE), tr_address t, tr_threadID t).
Definition read_job (t : Transaction) : job := (false, tr_address t, tr_threadID t).
Definition bp_job (p : BusPacket) : job := (true, bp_physicalAddress p, bp_threadID p).
Definition out_job (o : MemOut) : job :=
  match o with
  | ReturnReadData a _ tid => (false, a, tid)
  | WriteDataDone a _ tid => (true, a, tid)
  end.

Definition is_write_cmd (p : BusPacket) : bool :=
  match bp_type p with WRITE | WRITE_P => true | _ => false end.

(** Writes wait as transactions, as commands, and as data on their way to the bus;
    reads as transactions and in the list of pending reads. *)
Definition write_jobs (l : list BusPacket) : list job := bp_job <$> filter is_write_cmd l.
Definition data_jobs (m : MemoryController) : list job :=
  bp_job <$> ((mc_writeData m).*1 ++ option_list (mc_outgoingData m)).
Definition jobs (m : MemoryController) : list job :=
  (tr_job <$> waiting m) ++ (read_job <$> mc_pendingReads m) ++ write_jobs (queued (mc_queue m)) ++
  data_jobs m.

#[global] Instance write_jobs_Permutation : Proper ((≡ₚ) ==> (≡ₚ)) write_jobs.
Proof. intros l k E. unfold write_jobs. by rewrite E. Qed.

Lemma write_jobs_cons p l :
  write_jobs (p :: l) = (if is_write_cmd p then [bp_job p] else []) ++ write_jobs l.
Proof.
  unfold write_jobs. rewrite filter_cons. by destruct (is_write_cmd p).
Qed.

(** Both sides as sums of the same lists. *)
Ltac jobs_perm :=
  unfold jobs, data_jobs, waiting; cbn [mc_transactionQueue mc_transactionQueues mc_pendingReads mc_queue
    mc_writeData mc_outgoingData with_mc_outgoingData with_mc_writeData with_mc_outgoingCmd with_mc_banks
    with_mc_queue with_mc_transactionQueue with_mc_transactionQueues with_mc_pendingReads
    with_mc_returnTransaction option_list out_job fst snd fmap list_fmap app];
  rewrite ?fmap_app; cbn [fmap list_fmap app]; solve_Permutation.

Section Jobs.

Context (c : DramCfg) (qc : QCfg) (g : geometry) (Hc : mem_cfg c qc g).

(** * The steps of a cycle *)

(** What the choice of a command depends on. *)
Definition same_view (m m' : MemoryController) : Prop :=
  mc_queue m' = mc_queue m /\ mc_banks m' = mc_banks m /\ mc_refreshRank m' = mc_refreshRank m.

Lemma update_rank_jobs s i s' : update_rank c s i = Ok s' -> jobs s'.1 = jobs s.1 /\ same_view s.1 s'.1.
Proof.
  destruct s as [m ranks]. unfold update_rank, mc_receiveFromBus. intros H. inv_ok.
  destruct (Rank_update c x) as [[p|] r]; inv_ok; [|done]. case_bool_decide; inv_ok. done.
Qed.

Lemma send_cmd_jobs m ranks r : send_cmd c m ranks = Ok r -> jobs r.1 = jobs m /\ same_view m r.1.
Proof.
  unfold send_cmd. destruct (mc_outgoingCmd m); intros H; [case_in H|]; by inv_ok.
Qed.

Lemma send_data_jobs m ranks r : send_data c m ranks = Ok r ->
  jobs m ≡ₚ (out_job <$> r.2) ++ jobs r.1.1 /\ same_view m r.1.1.
Proof.
  unfold send_data. destruct (mc_outgoingData m) as [p|] eqn:E; intros H; [case_in H|]; inv_ok;
    cbn [fst snd fmap list_fmap out_job].
  - split; [|done]. change (true, _, _) with (bp_job p).
    assert (Ed : data_jobs m = bp_job <$> ((mc_writeData m).*1 ++ [p])) by (unfold data_jobs; by rewrite E).
    unfold jobs. rewrite Ed. jobs_perm.
  - split; [|done]. unfold jobs, data_jobs, waiting. cbn. by rewrite E.
  - done.
Qed.

Lemma issue_write_data_jobs m m' : issue_write_data c m = Ok m' -> jobs m ≡ₚ jobs m' /\ same_view m m'.
Proof.
  unfold issue_write_data. intros H.
  assert (E : ((fun x : BusPacket * Z => (x.1, u32 (x.2 - 1))) <$> mc_writeData m).*1 = (mc_writeData m).*1)
    by (rewrite <- list_fmap_compose; done).
  set (wd := (fun x : BusPacket * Z => (x.1, u32 (x.2 - 1))) <$> mc_writeData m) in *. clearbody wd.
  assert (Hsame : jobs (with_mc_writeData wd m) = jobs m).
  { unfold jobs, data_jobs. cbn. by rewrite E. }
  assert (Hkeep : jobs m ≡ₚ jobs (with_mc_writeData wd m) /\ same_view m (with_mc_writeData wd m)) by by rewrite Hsame.
  destruct wd as [|[p n] rest]; [by inv_ok|]. destruct n; [|by inv_ok..]. cbn in H.
  destruct (mc_outgoingData m) eqn:Eo; inv_ok. split; [|done].
  assert (Ed : data_jobs m = bp_job <$> (p :: rest.*1)).
  { unfold data_jobs. rewrite Eo, <- E. cbn. by rewrite app_nil_r. }
  unfold jobs. rewrite Ed. jobs_perm.
Qed.

Lemma start_refresh_jobs m ranks r : start_refresh c m ranks = Ok r -> jobs r.1 = jobs m /\
  mc_banks r.1 = mc_banks m /\
  (mc_queue r.1 = mc_queue m \/ mc_queue r.1 = needRefresh (mc_refreshRank m) (mc_queue m)).
Proof.
  unfold start_refresh. intros H. apply bind_Ok in H as (cd & _ & H). case_in H.
  - inv_ok. cbn. by split_and!; [..|right].
  - apply bind_Ok in H as (pd & _ & H). case_in H; inv_ok; cbn; by split_and!; [..|left].
Qed.

(** The command that is popped takes its data along. *)
Lemma issue_command_jobs m m' : table_wf c (mc_banks m) -> queue_wf c qc (mc_queue m) ->
  turn_ok c qc (mc_queue m) -> issue_command c qc m = Ok m' -> jobs m' ≡ₚ jobs m.
Proof.
  intros Hb Hq Ht. pose proof (mk_queue _ _ _ Hc) as Hcfg.
  destruct (pid_total c qc (mc_queue m) Ht) as (pid & _ & Hpid).
  destruct (pop_spec c qc Hcfg (mc_banks m) (mc_queue m) pid Hb Hq Ht Hpid)
    as (r & q' & Hpop & _ & _ & Hr). unfold issue_command. rewrite Hpop, bind_Ok_l. cbn [fst snd].
  assert (Hqd : queued (ticked (mc_queue m)) = queued (mc_queue m)) by done.
  destruct r as [p|]; intros H.
  - destruct (popped_ready c qc g Hc _ _ _ _ _ Hb (ticked_wf _ _ _ Hq) Hr) as (_ & _ & Hun & Hre).
    assert (Hw : write_jobs (queued (mc_queue m)) ≡ₚ write_jobs [p] ++ write_jobs (queued q')).
    { rewrite <- Hqd. destruct (decide (bp_type p = REFRESH)) as [E|N].
      - rewrite write_jobs_cons. unfold is_write_cmd. rewrite E.
        unfold queued. by rewrite (Hre E).
      - destruct (Hun N) as (k & Hk). rewrite (queued_unqueued _ _ _ _ _ _ Hk), !write_jobs_cons.
        by rewrite <- app_assoc. }
    apply bind_Ok in H as (bs & _ & H). case_match; [done|]. inv_ok.
    unfold jobs at 2. rewrite Hw, write_jobs_cons. unfold is_write_cmd. destruct (bp_type p); jobs_perm.
  - destruct Hr as [E _]. inv_ok. unfold jobs, data_jobs, waiting, queued. cbn. by rewrite E.
Qed.

(** ** Transactions *)

Lemma commands_of_jobs t x : commands_of c t = Ok x ->
  write_jobs [x.1; x.2] = if bool_decide (tr_type t = DATA_WRITE) then [tr_job t] else [].
Proof.
  unfold commands_of, getBusPacketType. intros H. rewrite !write_jobs_cons. unfold is_write_cmd, tr_job.
  rewrite (qk_close _ _ (mk_queue _ _ _ Hc)) in H. destruct (tr_type t); inv_ok; done.
Qed.

Lemma place_first_jobs pid l q r : place_first c qc pid l q = Ok (Some r) ->
  let '(t, l', q') := r in l ≡ₚ t :: l' /\ write_jobs (queued q') ≡ₚ
    (if bool_decide (tr_type t = DATA_WRITE) then [tr_job t] else []) ++ write_jobs (queued q).
Proof.
  revert r. induction l as [|t l IH]; intros r H; [by cbn in H; inv_ok|]. cbn [place_first] in H.
  apply bind_Ok in H as (room & _ & H). destruct room.
  - apply bind_Ok in H as (x & Hx & H). apply bind_Ok in H as (q1 & E1 & H).
    apply bind_Ok in H as (q2 & E2 & H). injection H as <-. split; [done|].
    rewrite (queued_enqueue _ _ _ _ _ E2), (queued_enqueue _ _ _ _ _ E1).
    rewrite <- (commands_of_jobs _ _ Hx), !write_jobs_cons. cbn. solve_Permutation.
  - apply bind_Ok in H as (o & Ho & H). destruct o as [[[x rest] q']|]; [|done]. injection H as <-.
    destruct (IH _ Ho) as [Hp Hw]. split; [|done]. rewrite Hp. apply Permutation_swap.
Qed.

Lemma moved_jobs m t q' tq tqs : waiting m ≡ₚ t :: (tq ++ concat tqs) ->
  write_jobs (queued q') ≡ₚ (if bool_decide (tr_type t = DATA_WRITE) then [tr_job t] else []) ++
    write_jobs (queued (mc_queue m)) ->
  tr_type t <> RETURN_DATA ->
  jobs (add_pending t (with_mc_queue q' (with_mc_transactionQueue tq
    (with_mc_transactionQueues tqs m)))) ≡ₚ jobs m.
Proof.
  intros Hw Hq Ht. unfold jobs at 2. rewrite Hw. unfold add_pending.
  destruct (tr_type t) eqn:Et; [..|done]; [rewrite bool_decide_false in Hq by done; rewrite bool_decide_true by done|
    rewrite bool_decide_true in Hq by done; rewrite bool_decide_false by done];
    cbn [app] in Hq; unfold jobs; cbn [mc_queue with_mc_queue with_mc_pendingReads]; rewrite Hq; [|jobs_perm].
  assert (E : tr_job t = read_job t) by (unfold tr_job; by rewrite Et).
  cbn [fmap list_fmap]. rewrite E. jobs_perm.
Qed.

Lemma update_thread_jobs m j m' : Forall trans_ok (waiting m) -> update_thread_queue c qc m j = Ok m' ->
  jobs m' ≡ₚ jobs m /\ Forall trans_ok (waiting m').
Proof.
  unfold update_thread_queue. intros Hok H. apply bind_Ok in H as (l & Hl & H).
  apply bind_Ok in H as (r & Hr & H). destruct r as [[[t l'] q]|]; [|by inv_ok].
  apply bind_Ok in H as (v & Hv & H). injection H as <-. destruct (place_first_jobs _ _ _ _ Hr) as [Hp Hw].
  apply arr_get_Ok in Hl as [_ Hl]. apply arr_set_Ok in Hv as [_ ->].
  set (tqs := <[Z.to_nat j:=l']> (mc_transactionQueues m)).
  assert (Hwait : waiting m ≡ₚ t :: (mc_transactionQueue m ++ concat tqs)).
  { pose proof (concat_insert _ _ _ l' Hl) as Hi. rewrite Hp in Hi. unfold waiting, tqs.
    apply (Permutation_app_inv_l l').
    transitivity (mc_transactionQueue m ++ (l' ++ concat (mc_transactionQueues m)));
      [solve_Permutation|]. rewrite <- Hi. solve_Permutation. }
  assert (Em : with_mc_transactionQueues tqs m = with_mc_transactionQueue (mc_transactionQueue m)
    (with_mc_transactionQueues tqs m)) by by destruct m.
  rewrite Em. rewrite Hwait in Hok. apply Forall_cons in Hok as [Ht Hok]. split.
  - apply moved_jobs; [done..|]. destruct Ht as [_ [-> | ->]]; done.
  - rewrite add_pending_rest. exact Hok.
Qed.

Lemma updateTransactionQueue_jobs m m' : Forall trans_ok (waiting m) ->
  updateTransactionQueue c qc m = Ok m' -> jobs m' ≡ₚ jobs m.
Proof.
  intros Hok H. unfold updateTransactionQueue in H.
  assert (Hfold : forall l, foldM (update_thread_queue c qc) m l = Ok m' -> jobs m' ≡ₚ jobs m).
  { intros l Hl.
    refine (proj1 (foldM_inv (fun x => jobs x ≡ₚ jobs m /\ Forall trans_ok (waiting x)) _ _ _ _ _ _ Hl));
      [|done]. intros x j y _ [E Hx] Hj.
    destruct (update_thread_jobs _ _ _ Hx Hj) as [E' ?]. split; [by rewrite E'|done]. }
  destruct (q_kind qc); eauto. apply bind_Ok in H as (r & Hr & H).
  destruct r as [[[t l'] q]|]; [|by inv_ok]. injection H as <-.
  destruct (place_first_jobs _ _ _ _ Hr) as [Hp Hw].
  assert (Em : with_mc_transactionQueue l' m = with_mc_transactionQueue l'
    (with_mc_transactionQueues (mc_transactionQueues m) m)) by by destruct m.
  rewrite Em. apply moved_jobs; [|done|].
  - unfold waiting. by rewrite Hp.
  - unfold waiting in Hok. rewrite Hp in Hok. apply Forall_cons in Hok as [[_ [-> | ->]] _]; done.
Qed.

Lemma update_power_jobs s i s' : update_power c qc s i = Ok s' -> jobs s'.1 = jobs s.1.
Proof.
  destruct s as [m ranks]. unfold update_power. intros H. case_in H; [by inv_ok|].
  apply bind_Ok in H as (e & _ & H). apply bind_Ok in H as (r & _ & H).
  apply bind_Ok in H as (row & _ & H). case_in H; [case_in H; by inv_ok|].
  apply bind_Ok in H as (b0 & _ & H). apply bind_Ok in H as (pd & _ & H). case_in H; by inv_ok.
Qed.

Lemma take_pending_perm addr l t rest : take_pending addr l = Some (t, rest) -> l ≡ₚ t :: rest.
Proof.
  revert rest. induction l as [|x l IH]; intros rest H; [done|]. cbn in H.
  case_match; [by simplify_eq|]. destruct (take_pending addr l) as [[y k]|]; [|done]. simplify_eq.
  rewrite (IH _ eq_refl). apply Permutation_swap.
Qed.

Lemma updateReturn_jobs m r : updateReturnTransactions m = Ok r ->
  jobs m ≡ₚ (out_job <$> r.2) ++ jobs r.1.
Proof.
  unfold updateReturnTransactions. intros H. case_match; [by inv_ok|]. case_match; [|done].
  case_match; subst. injection H as <-. cbn [fst snd].
  match goal with H : take_pending _ _ = Some _ |- _ => apply take_pending_perm in H as Hp end.
  unfold jobs at 1. rewrite Hp. cbn [fmap list_fmap out_job]. fold (read_job t0). jobs_perm.
Qed.

(** * A cycle, a transaction *)

Lemma needRefresh_wf rank q : 0 <= rank < NUM_RANKS c -> queue_wf c qc q -> queue_wf c qc (needRefresh rank q).
Proof. intros Hr []. by split. Qed.

Lemma update_ranks_jobs m ranks r l : foldM (update_rank c) (m, ranks) l = Ok r ->
  jobs r.1 = jobs m /\ same_view m r.1.
Proof.
  intros H. refine (foldM_inv (fun s => jobs s.1 = jobs m /\ same_view m s.1) _ _ _ _ _ _ H); [|done].
  intros s i s' _ (E1 & E2 & E3 & E4) Hi. destruct (update_rank_jobs _ _ _ Hi) as (F1 & F2 & F3 & F4).
  unfold same_view. split_and!; congruence.
Qed.

Lemma update_issue_jobs m ranks r : table_wf c (mc_banks m) -> queue_wf c qc (mc_queue m) ->
  turn_ok c qc (mc_queue m) -> 0 <= mc_refreshRank m < NUM_RANKS c -> update_issue c qc m ranks = Ok r ->
  jobs m ≡ₚ (out_job <$> r.2) ++ jobs r.1.1.
Proof.
  intros Hb Hq Ht Hrk H. unfold update_issue in H. apply bind_Ok in H as (s1 & H1 & H).
  apply bind_Ok in H as (s2 & H2 & H). apply bind_Ok in H as (m3 & H3 & H).
  apply bind_Ok in H as (s4 & H4 & H). apply bind_Ok in H as (m5 & H5 & H). injection H as <-.
  destruct (send_cmd_jobs _ _ _ H1) as (J1 & Q1 & B1 & R1).
  destruct (send_data_jobs _ _ _ H2) as (J2 & Q2 & B2 & R2).
  destruct (issue_write_data_jobs _ _ H3) as (J3 & Q3 & B3 & R3).
  destruct (start_refresh_jobs _ _ _ H4) as (J4 & B4 & Q4). cbn [fst snd].
  assert (Eq : mc_queue m3 = mc_queue m) by (rewrite Q3, Q2, Q1; done).
  assert (Er : mc_refreshRank m3 = mc_refreshRank m) by (rewrite R3, R2, R1; done).
  assert (Eb : mc_banks s4.1 = tick_banks c (mc_banks m)) by (rewrite B4, B3, B2, B1; done).
  rewrite Eq, Er in Q4. rewrite (issue_command_jobs s4.1 m5); [|..|done].
  - rewrite J4, <- J3, <- J2, J1. done.
  - rewrite Eb. by apply tick_wf.
  - destruct Q4 as [-> | ->]; [done|]. by apply needRefresh_wf.
  - destruct Q4 as [-> | ->]; by apply (turn_ok_same c qc (mc_queue m)).
Qed.

Lemma update_queues_jobs m ranks r : Forall trans_ok (waiting m) -> update_queues c qc m ranks = Ok r ->
  jobs m ≡ₚ (out_job <$> r.2) ++ jobs r.1.1.
Proof.
  intros Hok H. unfold update_queues in H. apply bind_Ok in H as (m1 & H1 & H).
  apply bind_Ok in H as (s & Hs & H). apply bind_Ok in H as (u & Hu & H). injection H as <-. cbn [fst snd].
  assert (Ep : jobs s.1 = jobs m1).
  { refine (foldM_inv (fun x => jobs x.1 = jobs m1) _ _ _ _ _ _ Hs); [|done].
    intros x i y _ E Hi. rewrite <- E. by eapply update_power_jobs. }
  rewrite <- (updateTransactionQueue_jobs _ _ Hok H1), <- Ep. rewrite (updateReturn_jobs _ _ Hu). done.
Qed.

Lemma waiting_ok m : trans_inv m -> Forall trans_ok (waiting m).
Proof.
  intros [T1 _ T3]. unfold waiting. apply Forall_app. split; [done|]. apply Forall_concat, Forall_forall.
  intros l (j & Hj)%list_elem_of_lookup. by apply (T3 j).
Qed.

Lemma system_jobs T s s' outs : mem_inv c qc T s -> 0 <= T -> countable qc T ->
  MemorySystem_update c qc s = Ok (s', outs) ->
  jobs (ms_mc s) ≡ₚ (out_job <$> outs) ++ jobs (ms_mc s').
Proof.
  intros Hi HT Hcnt H. destruct Hi as [Hi Hw].
  assert (Hturn : turn_ok c qc (mc_queue (ms_mc s))).
  { intros Hk. apply turn_ok_sched; [by apply (mk_sched _ _ _ Hc)| |done].
    red. rewrite (ci_qclock _ _ _ _ _ _ Hi). specialize (Hcnt Hk). lia. }
  destruct (first_half c qc g Hc T _ _ Hi Hw Hturn) as (m1 & r1 & m2 & r2 & sent & Hf & Hu & Hi2 & _ & _).
  unfold MemorySystem_update, mc_update in H. rewrite Hf, bind_Ok_l in H. cbn [fst snd] in H.
  rewrite Hu, bind_Ok_l in H. cbn [fst snd] in H. apply bind_Ok in H as (u & H & E).
  apply bind_Ok in H as (q & Hq & Eu). injection Eu as <-. cbn [fst snd] in E. 
  destruct (update_ranks_jobs _ _ _ _ Hf) as (J1 & Q1 & B1 & R1). cbn [fst] in *.
  pose proof (update_issue_jobs m1 r1 _ ltac:(rewrite B1; apply Hi) ltac:(rewrite Q1; apply Hi)
    ltac:(by rewrite Q1) ltac:(rewrite R1; apply Hi) Hu) as J2. cbn [fst snd] in J2.
  pose proof (update_queues_jobs m2 r2 _ (waiting_ok m2 ltac:(apply Hi2)) Hq) as J3.
  rewrite <- J1, J2, J3. destruct q as [[m3 r3] o3]. cbn [fst snd] in *. injection E as <- <-.
  rewrite fmap_app. cbn [ms_mc]. by rewrite <- app_assoc.
Qed.

Lemma add_jobs t s b s' : MemorySystem_addTransaction c qc t s = Ok (b, s') ->
  jobs (ms_mc s') ≡ₚ (if b then [tr_job t] else []) ++ jobs (ms_mc s).
Proof.
  unfold MemorySystem_addTransaction. intros H. apply bind_Ok in H as ([b' m'] & H & E).
  injection E as <- <-. cbn [fst snd ms_mc]. destruct s as [m ranks]. cbn [ms_mc] in *.
  assert (Hthread : forall l v, arr_get (mc_transactionQueues m) (tr_threadID t) = Ok l ->
    arr_set (mc_transactionQueues m) (tr_threadID t) (l ++ [t]) = Ok v ->
    jobs (with_mc_transactionQueues v m) ≡ₚ [tr_job t] ++ jobs m).
  { intros l v Hl Hv. apply arr_get_Ok in Hl as [_ Hl]. apply arr_set_Ok in Hv as [_ ->].
    pose proof (concat_insert _ _ _ (l ++ [t]) Hl) as Hi.
    assert (Hw : waiting (with_mc_transactionQueues (<[Z.to_nat (tr_threadID t):=l ++ [t]]>
      (mc_transactionQueues m)) m) ≡ₚ t :: waiting m).
    { unfold waiting. cbn. apply (Permutation_app_inv_r l). rewrite <- app_assoc, Hi. solve_Permutation. }
    unfold jobs at 1. rewrite Hw. unfold jobs, data_jobs. done. }
  unfold addTransaction in H. destruct (q_kind qc);
    [case_in H; inv_ok; [jobs_perm|done]|..];
    apply bind_Ok in H as (l & Hl & H); (case_in H; [|by inv_ok]);
    apply bind_Ok in H as (v & Hv & H); injection H as <- <-; by apply (Hthread l v).
Qed.

Lemma jobs_new lastPID : jobs (ms_mc (MemorySystem_new c qc lastPID)) = [].
Proof.
  assert (Hqd : queued (CommandQueue_new c qc lastPID) = []).
  { assert (Hn : forall n, concat (replicate n (@nil BusPacket)) = []) by (induction n; done).
    unfold queued, CommandQueue_new. cbn [cq_queues]. rewrite <- list_fmap_compose.
    induction (zrange (NUM_RANKS c)) as [|z l IH]; [done|].
    rewrite fmap_cons. cbn [concat]. rewrite IH, app_nil_r. apply Hn. }
  unfold jobs. cbn [ms_mc MemorySystem_new MemoryController_new mc_queue]. by rewrite Hqd.
Qed.

Lemma mem_run_jobs ops : forall T s s' outs acc, mem_inv c qc T s -> 0 <= T -> Forall (op_ok qc) ops ->
  countable qc (T + ticks ops) -> mem_run c qc ops s = Ok (s', outs, acc) ->
  (tr_job <$> acc) ++ jobs (ms_mc s) ≡ₚ (out_job <$> outs) ++ jobs (ms_mc s').
Proof.
  induction ops as [|o ops IH]; intros T s s' outs acc Hi HT Hok Hcnt Hrun; [by cbn in Hrun; inv_ok|].
  apply Forall_cons in Hok as [Ho Hok]. cbn [mem_run] in Hrun.
  apply bind_Ok in Hrun as (r1 & H1 & Hrun). apply bind_Ok in Hrun as (r2 & H2 & Hrun).
  injection Hrun as <- <- <-. destruct r2 as [[s2 o2] a2]. cbn [fst snd] in *.
  rewrite !fmap_app. destruct o as [|t]; cbn [mem_step ticks] in *.
  - pose proof (ticks_pos ops). assert (HcT : countable qc T) by (intros Hk; specialize (Hcnt Hk); lia).
    destruct (system_step c qc g Hc T s Hi HT HcT) as (s1 & o1 & E1 & Hi1 & _).
    rewrite E1, bind_Ok_l in H1. injection H1 as <-. cbn [fst snd] in *.
    rewrite (system_jobs T s s1 o1 Hi HT HcT E1). cbn [fmap list_fmap app].
    rewrite <- app_assoc, <- (IH (T + 1) s1 s2 o2 a2); [solve_Permutation|done|lia|done| |done].
    by replace (T + 1 + ticks ops) with (T + (1 + ticks ops)) by lia.
  - destruct (add_step c qc g Hc T s t Hi Ho) as (b & s1 & E1 & Hi1 & _).
    rewrite E1, bind_Ok_l in H1. injection H1 as <-. cbn [fst snd] in *.
    cbn [fmap list_fmap app]. rewrite <- (IH T s1 s2 o2 a2 Hi1 HT Hok Hcnt H2), (add_jobs _ _ _ _ E1).
    destruct b; cbn [fmap list_fmap app]; solve_Permutation.
Qed.

End Jobs.

(** C9. Nothing is lost, answered twice or answered to the wrong thread: after any run
    of the memory system, with closed pages and any of the four queue classes, the
    accepted transactions (read or write, address, thread) are those reported
    finished and those still under way. *)
Theorem transactions_conserved (c : DramCfg) (qc : QCfg) (g : geometry) (lastPID : Z)
    (ops : list mem_op) (s : MemorySystem) (outs : list MemOut) (acc : list Transaction) :
  mem_cfg c qc g -> Forall (op_ok qc) ops -> countable qc (ticks ops) ->
  mem_run c qc ops (MemorySystem_new c qc lastPID) = Ok (s, outs, acc) ->
  tr_job <$> acc ≡ₚ (out_job <$> outs) ++ jobs (ms_mc s).
Proof.
  intros Hc Hok Hcnt Hrun.
  rewrite <- (mem_run_jobs c qc g Hc ops 0 _ _ _ _ (mem_inv_new c qc g Hc lastPID) ltac:(done) Hok Hcnt Hrun).
  by rewrite jobs_new, app_nil_r.
Qed.

(** A write and a read of two threads, until the write is done. *)
Definition two_jobs : list mem_op :=
  MAdd (mkTransaction DATA_WRITE 0x12340 0 0) :: MAdd (mkTransaction DATA_READ 0x55500 1 0) ::
  replicate 30 MTick.

Lemma two_jobs_ok : Forall (op_ok tp2) two_jobs.
Proof.
  constructor; [split; [split; [done|by right]|done]|].
  constructor; [split; [split; [done|by left]|done]|]. apply Forall_replicate. done.
Qed.

Lemma transactions_conserved_witness :
  exists s outs acc, mem_run ddr3 tp2 two_jobs (MemorySystem_new ddr3 tp2 0) = Ok (s, outs, acc) /\
    tr_job <$> acc = [(true, 0x12340, 0); (false, 0x55500, 1)] /\
    out_job <$> outs = [(true, 0x12340, 0)] /\
    tr_job <$> acc ≡ₚ (out_job <$> outs) ++ jobs (ms_mc s).
Proof.
  destruct (mem_run ddr3 tp2 two_jobs (MemorySystem_new ddr3 tp2 0)) as [[[s outs] acc]|] eqn:E;
    [|by vm_compute in E].
  exists s, outs, acc. split; [done|].
  assert (E' : mem_run ddr3 tp2 two_jobs (MemorySystem_new ddr3 tp2 0) = Ok (s, outs, acc)) by exact E.
  split; [by vm_compute in E; injection E as <- <- <-|].
  split; [by vm_compute in E; injection E as <- <- <-|].
  pose proof (transactions_conserved ddr3 tp2 ddr3_geometry 0 two_jobs s outs acc ddr3_mem_cfg two_jobs_ok
    ltac:(intros _; by vm_compute) E') as H. exact H.
Defined.
