(* ===== verification/DramChannels.v ===== *)
(** The clock crossing and the channels of the memory: an update calls back at the
    exact rate of the two clocks, and the channels together keep what one memory
    system keeps. *)

From S2P Require Import Prelude DramTypes DramQueue DramRank DramController DramQueueSpec DramAddr DramFlow DramSafe DramJobs PacketQueue PortMap Memory DramAdapter.

(** * Clock crossing *)

(** A number of updates: how often they call back in all. *)
Fixpoint crosser_run (n : nat) (x : ClockDomainCrosser) : result (nat * ClockDomainCrosser) :=
  match n with
  | O => Ok (O, x)
  | S n' => r1 ← crosser_update x; r2 ← crosser_run n' r1.2; Ok ((r1.1 + r2.1)%nat, r2.2)
  end.

Lemma crosser_loop_spec clock2 t : forall fuel s, 0 < clock2 -> 0 <= s < t + clock2 ->
  t + clock2 <= 2 ^ 64 -> t - s < Z.of_nat fuel -> 0 < Z.of_nat fuel ->
  exists k, crosser_loop fuel clock2 t s = Ok (k, s + Z.of_nat k * clock2) /\
    t <= s + Z.of_nat k * clock2 < t + clock2.
Proof.
  induction fuel as [|fuel IH]; intros s Hc Hs Ht Hf Hp; [lia|].
  cbn [crosser_loop]. destruct (Z.ltb_spec s t) as [Hlt|Hge].
  - rewrite u64_small by lia. destruct (IH (s + clock2)) as (k & -> & Hk); [lia..|].
    exists (S k). rewrite bind_Ok_l. cbn [fst snd]. split; [|lia]. do 2 f_equal. lia.
  - exists O. split; [|lia]. do 2 f_equal. lia.
Qed.

(** The counters since they last met, after [j] updates and [i] calls. *)
Record crossing (c1 c2 n k : Z) (x : ClockDomainCrosser) : Prop := {
  cr_clocks : cd_clock1 x = c1 /\ cd_clock2 x = c2;
  cr_met : exists J K j i, J * c1 = K * c2 /\ n = J + j /\ k = K + i /\ 0 <= j < c2 /\ 0 <= i /\
    cd_counter1 x = j * c1 /\ cd_counter2 x = i * c2 /\ j * c1 <= i * c2 < j * c1 + c2
}.

Lemma crossing_step c1 c2 n k x : 0 < c1 -> 0 < c2 -> c1 <> c2 -> c1 * c2 + c2 <= 2 ^ 64 ->
  crossing c1 c2 n k x ->
  exists d x', crosser_update x = Ok (d, x') /\ crossing c1 c2 (n + 1) (k + Z.of_nat d) x'.
Proof.
  intros H1 H2 Hne Hb [[E1 E2] (J & K & j & i & HJ & Hn & Hk & Hj & Hi & Ea & Eb & Hji)].
  unfold crosser_update. rewrite E1, E2, (proj2 (Z.eqb_neq _ _) Hne), Ea, Eb.
  assert (Hlt : (j + 1) * c1 <= c1 * c2) by nia.
  rewrite u64_small by nia. replace (j * c1 + c1) with ((j + 1) * c1) by lia.
  destruct (crosser_loop_spec c2 ((j + 1) * c1) (S (Z.to_nat ((j + 1) * c1 - i * c2))) (i * c2))
    as (d & -> & Hd); [lia|nia|lia|lia|lia|].
  rewrite bind_Ok_l. cbn [fst snd]. exists d. eexists. split; [done|].
  replace (i * c2 + Z.of_nat d * c2) with ((i + Z.of_nat d) * c2) in * by lia.
  destruct (Z.eqb_spec ((j + 1) * c1) ((i + Z.of_nat d) * c2)) as [Em|Nm].
  - split; [done|]. exists (J + (j + 1)), (K + (i + Z.of_nat d)), 0, 0. cbn.
    split_and!; try lia; nia.
  - split; [done|]. exists J, K, (j + 1), (i + Z.of_nat d). cbn. split_and!; try lia.
    assert (j + 1 <> c2); [|lia]. intros E. subst c2. apply Nm.
    assert (i + Z.of_nat d = c1) by nia. nia.
Qed.

Lemma crossing_calls c1 c2 n k x : 0 < c2 -> crossing c1 c2 n k x -> k = (n * c1 + c2 - 1) / c2.
Proof.
  intros H2 [_ (J & K & j & i & HJ & -> & -> & Hj & Hi & _ & _ & Hji)].
  apply (Z.div_unique _ _ _ (j * c1 + c2 - 1 - i * c2)); [lia|]. nia.
Qed.

Lemma crosser_run_spec c1 c2 : 0 < c1 -> 0 < c2 -> c1 <> c2 -> c1 * c2 + c2 <= 2 ^ 64 ->
  forall m n k x, crossing c1 c2 n k x ->
  exists d x', crosser_run m x = Ok (d, x') /\ crossing c1 c2 (n + Z.of_nat m) (k + Z.of_nat d) x'.
Proof.
  intros H1 H2 Hne Hb. induction m as [|m IH]; intros n k x Hx.
  { exists O, x. split; [done|]. by rewrite !Z.add_0_r. }
  destruct (crossing_step _ _ _ _ _ H1 H2 Hne Hb Hx) as (d1 & x1 & E1 & Hx1).
  destruct (IH _ _ _ Hx1) as (d2 & x2 & E2 & Hx2). cbn [crosser_run]. rewrite E1, bind_Ok_l. cbn [fst snd].
  rewrite E2, bind_Ok_l. exists (d1 + d2)%nat, x2. split; [done|].
  replace (n + Z.of_nat (S m)) with (n + 1 + Z.of_nat m) by lia.
  replace (k + Z.of_nat (d1 + d2)) with (k + Z.of_nat d1 + Z.of_nat d2) by lia. done.
Qed.

Lemma crosser_run_same c : forall m x, cd_clock1 x = c -> cd_clock2 x = c ->
  crosser_run m x = Ok (m, x).
Proof.
  induction m as [|m IH]; intros x E1 E2; [done|]. cbn [crosser_run]. unfold crosser_update.
  rewrite E1, E2, Z.eqb_refl, bind_Ok_l. cbn [fst snd]. by rewrite IH, bind_Ok_l.
Qed.

(** C11. The clock crossing keeps the exact ratio of the two clocks: after [n] updates of
    the first clock, the second has been called [n * clock1 / clock2] times, rounded
    up, without drift however long it runs, as long as the product of the two
    frequencies fits into 64 bits. *)
Theorem crosser_exact (clock1 clock2 : Z) (n : nat) :
  0 < clock1 -> 0 < clock2 -> clock1 * clock2 + clock2 <= 2 ^ 64 ->
  exists k x, crosser_run n (ClockDomainCrosser_new clock1 clock2) = Ok (k, x) /\
    Z.of_nat k = (Z.of_nat n * clock1 + clock2 - 1) / clock2.
Proof.
  intros H1 H2 Hb. destruct (decide (clock1 = clock2)) as [<-|Hne].
  - rewrite (crosser_run_same clock1) by done. exists n. eexists. split; [done|].
    replace (Z.of_nat n * clock1 + clock1 - 1) with (Z.of_nat n * clock1 + (clock1 - 1)) by lia.
    rewrite Z.div_add_l, (Z.div_small (clock1 - 1)) by lia. lia.
  - destruct (crosser_run_spec clock1 clock2 H1 H2 Hne Hb n 0 0 (ClockDomainCrosser_new clock1 clock2))
      as (k & x & E & Hx).
    + split; [done|]. exists 0, 0, 0, 0. cbn. lia.
    + exists k, x. split; [done|]. by apply (crossing_calls _ _ _ _ _ H2) in Hx.
Qed.

(** A memory at 667 MHz under a processor at 2 GHz: a third of the updates get through. *)
Lemma crosser_exact_witness :
  exists k x, crosser_run 3000 (ClockDomainCrosser_new 666666666 2000000000) = Ok (k, x) /\
    Z.of_nat k = 1000.
Proof.
  destruct (crosser_exact 666666666 2000000000 3000) as (k & x & E & Hk); [lia..|].
  exists k, x. split; [exact E|]. rewrite Hk. reflexivity.
Defined.

(** * The channels *)

(** What the adapter relies on: every cycle returns, jobs are conserved, and an
    accepted transaction is a new job.  [limit] bounds the cycles. *)
Class DramContract (c : DramCfg) (qc : QCfg) := {
  dc_inv : Z -> MultiChannel -> Prop;
  dc_jobs : MultiChannel -> list job;
  dc_limit : Z -> Prop;
  dc_cycle T s : dc_inv T s -> mc_cycle s = T /\ 0 <= T;
  dc_update T s : dc_inv T s -> dc_limit T ->
    exists s' outs, mcs_update c qc s = Ok (s', outs) /\ dc_inv (T + 1) s' /\
      dc_jobs s ≡ₚ (out_job <$> outs) ++ dc_jobs s';
  dc_add T s t : dc_inv T s -> op_ok qc (MAdd t) ->
    exists b s', mcs_addTransaction c qc t s = Ok (b, s') /\ dc_inv T s' /\
      dc_jobs s' ≡ₚ (if (b : bool) then [tr_job t] else []) ++ dc_jobs s
}.

Section Channels.

Context (c : DramCfg) (qc : QCfg) (g : geometry) (Hc : mem_cfg c qc g).

Definition mcs_jobs (s : MultiChannel) : list job := concat ((fun ch => jobs (ms_mc ch)) <$> mc_channels s).

(** The clocks are equal, as [setCPUClockSpeed(0)] makes them. *)
Record mcs_inv (T : Z) (s : MultiChannel) : Prop := {
  mi_len : Z.of_nat (length (mc_channels s)) = NUM_CHANS c;
  mi_channels : Forall (mem_inv c qc T) (mc_channels s);
  mi_cycle : mc_cycle s = T;
  mi_nonneg : 0 <= T;
  mi_clocks : cd_clock1 (mc_crosser s) = cd_clock2 (mc_crosser s)
}.

Lemma update_channels T todo : forall ups outs, 0 <= T -> countable qc T ->
  Forall (mem_inv c qc T) todo ->
  exists todo' outs', foldM (update_channel c qc) (ups ++ todo, outs)
      (seqZ (Z.of_nat (length ups)) (Z.of_nat (length todo))) = Ok (ups ++ todo', outs ++ outs') /\
    length todo' = length todo /\ Forall (mem_inv c qc (T + 1)) todo' /\
    concat ((fun ch => jobs (ms_mc ch)) <$> todo) ≡ₚ
      (out_job <$> outs') ++ concat ((fun ch => jobs (ms_mc ch)) <$> todo').
Proof.
  induction todo as [|ch todo IH]; intros ups outs HT Hcnt Hall.
  { exists [], []. cbn. rewrite !app_nil_r. by split_and!. }
  apply Forall_cons in Hall as [Hch Hall]. cbn [length]. rewrite seqZ_cons by lia. cbn [foldM].
  destruct (system_step c qc g Hc T ch Hch HT Hcnt) as (ch' & o & E & Hch' & _).
  pose proof (system_jobs c qc g Hc T ch ch' o Hch HT Hcnt E) as Hj.
  assert (Hg : arr_get (ups ++ ch :: todo) (Z.of_nat (length ups)) = Ok ch).
  { apply arr_get_Ok. split; [lia|]. rewrite Nat2Z.id. by apply list_lookup_middle. }
  assert (Hset : arr_set (ups ++ ch :: todo) (Z.of_nat (length ups)) ch' = Ok ((ups ++ [ch']) ++ todo)).
  { apply arr_set_Ok. split; [rewrite length_app; cbn; lia|]. rewrite Nat2Z.id.
    rewrite insert_app_r_alt, Nat.sub_diag by lia. cbn. by rewrite <- app_assoc. }
  unfold update_channel at 2. cbn [fst snd]. rewrite Hg, bind_Ok_l, E, bind_Ok_l. cbn [fst snd].
  rewrite Hset, !bind_Ok_l.
  replace (Z.succ (Z.of_nat (length ups))) with (Z.of_nat (length (ups ++ [ch'])))
    by (rewrite length_app; cbn; lia).
  replace (Z.pred (Z.of_nat (S (length todo)))) with (Z.of_nat (length todo)) by lia.
  destruct (IH (ups ++ [ch']) (outs ++ o) HT Hcnt Hall) as (todo' & outs' & -> & Hl & Hall' & Hp).
  exists (ch' :: todo'), (o ++ outs'). rewrite <- !app_assoc. split; [done|]. split; [cbn; lia|].
  split; [by constructor|]. cbn. rewrite Hj, Hp, fmap_app. solve_Permutation.
Qed.

Lemma mcs_update_ok T s : mcs_inv T s -> countable qc T ->
  exists s' outs, mcs_update c qc s = Ok (s', outs) /\ mcs_inv (T + 1) s' /\
    mcs_jobs s ≡ₚ (out_job <$> outs) ++ mcs_jobs s'.
Proof.
  intros [Hl Hch Hcy HT Hck] Hcnt. unfold mcs_update, crosser_update. rewrite Hck, Z.eqb_refl, bind_Ok_l.
  cbn [fst snd actual_updates]. unfold actual_update. cbn [mc_channels mc_cycle mc_crosser].
  destruct (update_channels T (mc_channels s) [] [] HT Hcnt Hch) as (chs & outs & Hf & Hl' & Hch' & Hp).
  cbn [app length] in Hf. change (Z.of_nat 0) with 0 in Hf. rewrite Hl in Hf. unfold zrange.
  rewrite Hf, !bind_Ok_l. cbn [fst snd]. rewrite app_nil_r. eexists _, outs. split; [done|]. split.
  - split; cbn; [lia|done|lia|lia|done].
  - exact Hp.
Qed.

Lemma findChannelNumber_ok a : 0 <= a ->
  exists i, findChannelNumber c a = Ok i /\ 0 <= i < NUM_CHANS c.
Proof.
  intros Ha. unfold findChannelNumber. destruct (Z.eqb_spec (NUM_CHANS c) 1) as [E|N]; [exists 0; split; [done|lia]|].
  pose proof (mk_geometry _ _ _ Hc) as Hg. pose proof (addressMapping_channel c g Hg a Ha) as Hr.
  destruct (go_chan _ _ Hg) as [Hn Hk]. unfold isPowerOfTwo. rewrite Hn, dramsim_log2_pow by lia.
  rewrite Z.shiftl_1_l, u64_small, Z.eqb_refl.
  2:{ split; [apply Z.pow_nonneg; lia|]. apply Z.pow_lt_mono_r; lia. }
  cbn [negb]. rewrite <- Hn. destruct (Z.leb_spec (NUM_CHANS c) (da_chan (addressMapping c a))); [lia|].
  by eexists.
Qed.

Lemma mcs_add_ok T s t : mcs_inv T s -> op_ok qc (MAdd t) ->
  exists b s', mcs_addTransaction c qc t s = Ok (b, s') /\ mcs_inv T s' /\
    mcs_jobs s' ≡ₚ (if (b : bool) then [tr_job t] else []) ++ mcs_jobs s.
Proof.
  intros [Hl Hch Hcy HT Hck] Ho. pose proof Ho as [[Ha _] _]. unfold mcs_addTransaction.
  destruct (findChannelNumber_ok _ Ha) as (i & -> & Hi). rewrite bind_Ok_l.
  destruct (arr_get_total (mc_channels s) i) as [ch Hg]; [lia|]. rewrite Hg, bind_Ok_l.
  apply arr_get_Ok in Hg as [_ Hg].
  assert (Hm : mem_inv c qc T ch) by by eapply (Forall_lookup_1 _ _ _ _ Hch).
  destruct (add_step c qc g Hc T ch t Hm Ho) as (b & ch' & E & Hm' & _).
  pose proof (add_jobs c qc t ch b ch' E) as Hj. rewrite E, bind_Ok_l. cbn [fst snd].
  destruct (arr_set_total (mc_channels s) i ch') as [l Hset]; [lia|]. rewrite Hset, bind_Ok_l.
  apply arr_set_Ok in Hset as [_ ->]. exists b. eexists. split; [done|]. split.
  - split; cbn; [by rewrite length_insert|by apply Forall_insert|done..].
  - unfold mcs_jobs. cbn. rewrite list_fmap_insert.
    pose proof (DramFlow.concat_insert ((fun ch => jobs (ms_mc ch)) <$> mc_channels s) (Z.to_nat i)
      (jobs (ms_mc ch)) (jobs (ms_mc ch'))) as Hi'. rewrite list_lookup_fmap, Hg in Hi'.
    specialize (Hi' eq_refl). apply (Permutation_app_inv_r (jobs (ms_mc ch))). rewrite Hi', Hj.
    solve_Permutation.
Qed.

Lemma mcs_new lastPID freq s : MultiChannel_new c qc lastPID freq = Ok s ->
  mcs_inv 0 s /\ mcs_jobs s = [].
Proof.
  unfold MultiChannel_new. intros H. case_in H; [done|]. inv_ok.
  pose proof (go_chan _ _ (mk_geometry _ _ _ Hc)) as [Hn Hk].
  assert (0 < NUM_CHANS c) by (rewrite Hn; apply Z.pow_pos_nonneg; lia). split.
  - split; cbn; [rewrite length_replicate; lia| |done..]. apply Forall_replicate. by apply (mem_inv_new c qc g Hc).
  - unfold mcs_jobs. cbn. rewrite fmap_replicate, jobs_new.
    induction (Z.to_nat (NUM_CHANS c)) as [|n IH]; [done|]. exact IH.
Qed.

#[export] Instance mcs_contract : DramContract c qc.
Proof.
  refine {| dc_inv := mcs_inv; dc_jobs := mcs_jobs; dc_limit := countable qc |}.
  - intros T s []. done.
  - apply mcs_update_ok.
  - apply mcs_add_ok.
Defined.

End Channels.
