(* ===== verification/DramAdapterSpec.v ===== *)
(** The adapter answers every request it accepts exactly once.  Its theorems are proved
    against [DramContract], which the channels of [DramChannels] fulfil. *)

From S2P Require Import Prelude Request MemCmd Packet PacketSpec PacketQueue PortMap CacheAccess Memory DramTypes DramQueue DramRank DramController DramTurns DramAddr DramFlow DramSafe DramJobs DramAdapter DramChannels.

(** * Indices of accesses under way *)

Definition access_index (write : bool) (addr : Z) : Z :=
  if write then Z.lor (u64 (Z.shiftl addr 1)) 1 else u64 (Z.shiftl addr 1).
Definition job_index (j : job) : Z := access_index j.1.1 j.1.2.

Lemma access_index_eq w a : 0 <= a < 2 ^ 63 -> access_index w a = 2 * a + (if w then 1 else 0).
Proof.
  intros Ha. unfold access_index. rewrite Z.shiftl_mul_pow2, u64_small by lia.
  destruct w; [|lia]. rewrite (lor_mul_pow2 a 1 1) by lia. lia.
Qed.

Lemma access_index_inj w w' a a' : 0 <= a < 2 ^ 63 -> 0 <= a' < 2 ^ 63 ->
  access_index w a = access_index w' a' -> w = w' /\ a = a'.
Proof. intros Ha Ha'. rewrite !access_index_eq by done. destruct w, w'; lia. Qed.

Lemma access_index_odd w a : 0 <= a < 2 ^ 63 -> Z.odd (access_index w a) = w.
Proof.
  intros Ha. rewrite access_index_eq by done. rewrite Z.odd_add, Z.odd_mul. by destruct w.
Qed.

Lemma find_ongoing_Some i l p rest : find_ongoing i l = Some (p, rest) ->
  l ≡ₚ (i, p) :: rest /\ (i, p) ∈ l /\ forall x, x ∈ rest -> x ∈ l.
Proof.
  revert rest. induction l as [|[j q] l IH]; intros rest H; [done|]. cbn in H.
  destruct (Z.eqb_spec j i) as [->|N].
  - simplify_eq. split; [done|]. split; [left|]. intros x Hx. by right.
  - destruct (find_ongoing i l) as [[y k]|]; [|done]. simplify_eq.
    destruct (IH _ eq_refl) as (Hp & Hin & Hsub). split; [by rewrite Hp; apply Permutation_swap|].
    split; [by right|]. intros x [->|Hx]%elem_of_cons; [left|right; auto].
Qed.

Lemma find_ongoing_None i l : find_ongoing i l = None -> i ∉ l.*1.
Proof.
  induction l as [|[j q] l IH]; intros H; [apply not_elem_of_nil|]. cbn in H |- *.
  destruct (Z.eqb_spec j i) as [->|N]; [done|]. destruct (find_ongoing i l) as [[y k]|]; [done|].
  intros [?|Hin]%elem_of_cons; [done|]. by apply IH.
Qed.

(** * The access to the contents *)

(** What an access does to the packet apart from its data. *)
Definition access_kept (pkt pkt' : Packet) : Prop :=
  pkt_threadID pkt' = pkt_threadID pkt /\ pkt_addr pkt' = pkt_addr pkt /\
  (needsResponse pkt = true -> isExpressSnoop pkt' = false).

Lemma isSet_clear f m : Flags_isSet (Flags_clear f m) m = false.
Proof. unfold Flags_isSet, Flags_clear. by rewrite Z.land_ldiff. Qed.
Lemma isSet_set f x m : Flags_isSet f m = true -> Flags_isSet (Flags_set f x) m = true.
Proof.
  unfold Flags_isSet, Flags_set. rewrite Z.land_lor_distr_l, !negb_true_iff, !Z.eqb_neq.
  rewrite Z.lor_eq_0_iff. tauto.
Qed.
Lemma isSet_set_self f m : m <> 0 -> Flags_isSet (Flags_set f m) m = true.
Proof.
  unfold Flags_isSet, Flags_set. rewrite Z.land_lor_distr_l, Z.land_diag, negb_true_iff, Z.eqb_neq.
  rewrite Z.lor_eq_0_iff. tauto.
Qed.

Lemma setData_kept d off pkt pkt' : setData d off pkt = Ok pkt' ->
  pkt_threadID pkt' = pkt_threadID pkt /\ pkt_addr pkt' = pkt_addr pkt /\ pkt_cmd pkt' = pkt_cmd pkt.
Proof. unfold setData. intros H. by inv_ok. Qed.

Lemma makeResponse_kept pkt pkt' : makeResponse pkt = Ok pkt' ->
  pkt_threadID pkt' = pkt_threadID pkt /\ pkt_addr pkt' = pkt_addr pkt /\ isExpressSnoop pkt' = false.
Proof.
  unfold makeResponse. intros H. inv_ok. split_and!; try done. apply isSet_clear.
Qed.

Lemma mem_access_kept h pkt m h' pkt' m' : mem_access h pkt m = Ok (h', pkt', m') ->
  memInhibitAsserted pkt = false -> access_kept pkt pkt'.
Proof.
  unfold mem_access. intros H Hi. apply bind_Ok in H as (off & _ & H). rewrite Hi in H.
  apply bind_Ok in H as ([[h1 p1] m1] & H1 & H).
  assert (Hk : pkt_threadID p1 = pkt_threadID pkt /\ pkt_addr p1 = pkt_addr pkt /\ pkt_cmd p1 = pkt_cmd pkt).
  { case_in H1.
    { apply bind_Ok in H1 as ([p2 m2] & H2 & H1). injection H1 as <- <- <-. unfold mem_swap in H2.
      destruct (am_pmem m); [|done]. apply bind_Ok in H2 as (n & _ & H2). apply bind_Ok in H2 as ([] & _ & H2).
      apply bind_Ok in H2 as (ov & _ & H2). apply bind_Ok in H2 as (p3 & H3 & H2).
      apply setData_kept in H3. inv_ok. done. }
    case_in H1.
    { apply bind_Ok in H1 as ([] & _ & H1). apply bind_Ok in H1 as (m2 & _ & H1).
      apply bind_Ok in H1 as (p3 & H3 & H1). apply bind_Ok in H1 as (r & _ & H1). injection H1 as <- <- <-.
      unfold mem_read in H3. destruct (am_pmem m2); [by apply setData_kept in H3|by inv_ok]. }
    case_in H1.
    { apply bind_Ok in H1 as ([[ok h2] m2] & _ & H1). destruct ok; by inv_ok. }
    case_in H1; by inv_ok. }
  destruct Hk as (K1 & K2 & K3). assert (En : needsResponse p1 = needsResponse pkt)
    by (unfold needsResponse; by rewrite K3).
  rewrite En in H. destruct (needsResponse pkt) eqn:E.
  - apply bind_Ok in H as (p2 & H2 & H). injection H as <- <- <-.
    apply makeResponse_kept in H2 as (M1 & M2 & M3). split_and!; [congruence..|done].
  - injection H as <- <- <-. unfold access_kept. rewrite E. by split_and!.
Qed.

(** A request on which a store-conditional has reported its outcome serves as before. *)
Lemma mem_pkt_setExtraData range pkt r v : 0 <= v < 2 ^ 64 -> mem_pkt range pkt r ->
  mem_pkt range pkt (setExtraData v r).
Proof.
  intros Hv [M1 M2 M3 M4 M5 M6 M7 M8 M9 M10]. split; try done; try by apply isSet_set.
  intros Hs. destruct (M8 Hs) as [H1 H2]. split; [done|]. intros Hcs. destruct (H2 Hcs) as (H3 & _ & _).
  split_and!; [done| |apply Hv..]. by apply isSet_set_self.
Qed.

(** Requests only gain such outcomes. *)
Definition req_ext (range : Range) (h h' : ReqHeap) : Prop :=
  forall (q : RequestPtr) r, h !! q = Some r -> exists r', h' !! q = Some r' /\
    forall pkt, mem_pkt range pkt r -> mem_pkt range pkt r'.

Lemma req_ext_refl range h : req_ext range h h.
Proof. intros q r Hr. by exists r. Qed.
Lemma req_ext_trans range h1 h2 h3 : req_ext range h1 h2 -> req_ext range h2 h3 -> req_ext range h1 h3.
Proof.
  intros H1 H2 q r Hr. destruct (H1 _ _ Hr) as (r2 & Hr2 & E2). destruct (H2 _ _ Hr2) as (r3 & Hr3 & E3).
  exists r3. split; [done|]. auto.
Qed.

(** * The invariant *)

Record adapter_cfg (qc : QCfg) (ac : AdapterCfg) : Prop := {
  ak_pids : ac_num_pids ac = q_num_pids qc;
  ak_pos : 0 < ac_num_pids ac;
  ak_ms : 2 <= ac_ms ac
}.

Section Adapter.

Context (c : DramCfg) (qc : QCfg) `{Hdc : !DramContract c qc} (ac : AdapterCfg) (Hac : adapter_cfg qc ac).
Context (range : Range) (Hrange : r_end range < 2 ^ 63).

(** Which thread may use which address; any relation that all requests respect. *)
Context (P : Z -> Z -> Prop).

Definition thread_ok (tid : Z) : Prop := 0 <= tid < ac_num_pids ac.

Record good_pkt (pkt : Packet) (r : Request) : Prop := {
  gp_mem : mem_pkt range pkt r;
  gp_thread : thread_ok (pkt_threadID pkt);
  gp_owner : P (pkt_addr pkt) (pkt_threadID pkt)
}.

Definition job_ok (j : job) : Prop := 0 <= j.1.2 < 2 ^ 63 /\ thread_ok j.2 /\ P j.1.2 j.2.

(** An access under way: its packet is alive, wants a response, and has its index. *)
Definition under_way (a : Adapter) (x : Z * PktPtr) : Prop :=
  exists pkt r, ad_pkts a !! x.2 = Some pkt /\ ad_reqs a !! pkt_req pkt = Some r /\ good_pkt pkt r /\
    needsResponse pkt = true /\ x.1 = access_index (negb (isRead pkt)) (pkt_addr pkt).

Definition queues_ok (now : Z) (q : PacketQueue) (rq : list PacketQueue) : Prop :=
  pq_inv now q /\ Forall (pq_inv now) rq /\ Z.of_nat (length rq) = ac_num_pids ac.

Definition matched (js stale ongoing : list Z) : Prop :=
  exists extra, js ++ stale ≡ₚ ongoing ++ extra /\ Forall (fun i => Z.odd i = true) extra.

(** [outs] are reports of the memory that are still to be handled, and [stale] the
    indices of requests that were recorded and then refused.  Every other access
    under way has its job in the memory, and the other jobs are writebacks. *)
Record ad_inv (T now : Z) (stale : list Z) (outs : list MemOut) (a : Adapter) : Prop := {
  ai_sys : dc_inv T (ad_sys a);
  ai_mem : exists sp, mem_rel (ad_mem a) sp;
  ai_range : am_range (ad_mem a) = range;
  ai_ongoing : Forall (under_way a) (ad_ongoing a);
  ai_nodup : NoDup (ad_ongoing a).*2;
  ai_pending : forall p, p ∈ ad_pendingDelete a -> p ∉ (ad_ongoing a).*2;
  ai_jobs : matched (job_index <$> ((out_job <$> outs) ++ dc_jobs (ad_sys a))) stale (ad_ongoing a).*1;
  ai_owned : Forall job_ok ((out_job <$> outs) ++ dc_jobs (ad_sys a));
  ai_queues : queues_ok now (ad_queue a) (ad_respQueues a)
}.

(** Packets the adapter does not hold are left alone. *)
Definition frame (a a' : Adapter) : Prop :=
  (forall p, p ∉ (ad_ongoing a).*2 -> p ∉ ad_pendingDelete a ->
     ad_pkts a' !! p = ad_pkts a !! p /\ p ∉ (ad_ongoing a').*2 /\ p ∉ ad_pendingDelete a') /\
  req_ext range (ad_reqs a) (ad_reqs a').

Lemma frame_refl a : frame a a.
Proof. split; [done|apply req_ext_refl]. Qed.
Lemma frame_trans a1 a2 a3 : frame a1 a2 -> frame a2 a3 -> frame a1 a3.
Proof.
  intros [H1 E1] [H2 E2]. split; [|by eapply req_ext_trans].
  intros p Ho Hp. destruct (H1 p Ho Hp) as (<- & Ho2 & Hp2). by apply H2.
Qed.

(** A response goes to the queue of a thread that may use its address, later than now. *)
Definition resp_ok (now : Z) (x : Response) : Prop :=
  isResponse (rs_pkt x) = true /\ P (pkt_addr (rs_pkt x)) (rs_tid x) /\ now < rs_when x.

(** What became of the accesses under way. *)
Definition answered (now : Z) (a : Adapter) (new : list Response) (a' : Adapter) : Prop :=
  frame a a' /\ (ad_ongoing a).*2 ≡ₚ (rs_ptr <$> new) ++ (ad_ongoing a').*2 /\ Forall (resp_ok now) new.

Lemma answered_none now a : answered now a [] a.
Proof. split; [apply frame_refl|done]. Qed.
Lemma answered_trans now a1 a2 a3 new new' : answered now a1 new a2 -> answered now a2 new' a3 ->
  answered now a1 (new ++ new') a3.
Proof.
  intros (F1 & P1 & R1) (F2 & P2 & R2). split; [by eapply frame_trans|].
  split; [by rewrite P1, P2, fmap_app, <- app_assoc|]. by apply Forall_app.
Qed.

Definition tick_ok (now : Z) : Prop := 0 <= now /\ now + ac_ms ac <= MaxTick.

(** * Steps *)

Lemma pkt_deref_ok p a pkt : ad_pkts a !! p = Some pkt -> pkt_deref p a = Ok pkt.
Proof. unfold pkt_deref. by intros ->. Qed.

Lemma mem_pkt_addr pkt r : mem_pkt range pkt r -> 0 <= pkt_addr pkt < 2 ^ 63.
Proof. intros [[d [_ _ _ _ [H0 _]]] Hs [_ H1] _ _ _ _ _ _ _]. lia. Qed.

Lemma atomic_ok rnd p pkt r a : ad_pkts a !! p = Some pkt -> ad_reqs a !! pkt_req pkt = Some r ->
  mem_pkt range pkt r -> (exists sp, mem_rel (ad_mem a) sp) -> am_range (ad_mem a) = range ->
  exists lat m' h' pkt', ad_doAtomicAccess ac rnd p a =
      Ok (lat, with_ad_access m' h' (<[p := pkt']> (ad_pkts a)) a) /\
    (exists sp, mem_rel m' sp) /\ am_range m' = range /\ access_kept pkt pkt' /\
    (needsResponse pkt = true -> isResponse pkt' = true) /\ req_ext range (ad_reqs a) h'.
Proof.
  intros Hp Hr Hm [sp Hsp] Hrg. unfold ad_doAtomicAccess, pkt_deref. rewrite Hp. cbn [of_option].
  rewrite bind_Ok_l. rewrite <- Hrg in Hm.
  pose proof (mem_access_ok (ad_reqs a) pkt (ad_mem a) sp r Hsp Hr Hm) as Hacc. unfold access_result in Hacc.
  destruct (spec_access pkt r sp) as [[sp' out] ok].
  destruct Hacc as (pkt' & m' & E & Em & Hrel & _ & _ & Hresp).
  pose proof (mem_access_kept _ _ _ _ _ _ E (mp_inhibit _ _ _ Hm)) as Hk.
  rewrite E, bind_Ok_l. eexists _, m', _, pkt'. split; [done|]. split; [by exists sp'|].
  split; [congruence|]. split_and!; try done. destruct (is_sc pkt); [|apply req_ext_refl].
  intros q r' Hq. destruct (decide (q = pkt_req pkt)) as [->|N].
  - rewrite lookup_insert_eq. eexists. split; [done|]. intros pk. assert (r' = r) by congruence. subst r'.
    apply mem_pkt_setExtraData. by destruct ok.
  - rewrite lookup_insert_ne by done. by exists r'.
Qed.

Lemma pq_send_ok now pkt when q : pq_inv now q -> now <= when < MaxTick -> isExpressSnoop pkt = false ->
  exists q', schedSendTiming now pkt when false q = Ok q' /\ pq_inv now q'.
Proof.
  intros Hq Hw Hx. destruct (schedSendTiming_total now pkt when false q Hq Hw Hx) as (q' & E & _).
  exists q'. split; [done|]. by apply (pq_step_inv (now, q) (now, q') (step_send _ _ _ _ _ _ Hw Hx E)).
Qed.

Lemma sched_ok now p pkt when tid a : ad_pkts a !! p = Some pkt -> isExpressSnoop pkt = false ->
  now <= when < MaxTick -> thread_ok tid -> queues_ok now (ad_queue a) (ad_respQueues a) ->
  exists q rq, ad_schedTimingResp ac now p when tid a =
      Ok (with_ad_queues q rq (with_ad_pkts (delete p (ad_pkts a)) a), [mkResponse p pkt when tid]) /\
    queues_ok now q rq.
Proof.
  intros Hp Hx Hw Ht (Q1 & Q2 & Q3). unfold ad_schedTimingResp, pkt_deref. rewrite Hp. cbn [of_option].
  rewrite bind_Ok_l. unfold thread_ok in Ht. destruct (ac_split_ports ac).
  - destruct (arr_get_total (ad_respQueues a) tid) as [q Hq]; [lia|]. rewrite Hq, bind_Ok_l.
    apply arr_get_Ok in Hq as [_ Hq]. pose proof (Forall_lookup_1 _ _ _ _ Q2 Hq) as Hqi.
    destruct (pq_send_ok now pkt when q Hqi Hw Hx) as (q' & E & Hq'). rewrite E, bind_Ok_l.
    destruct (arr_set_total (ad_respQueues a) tid q') as [l Hl]; [lia|]. rewrite Hl, !bind_Ok_l.
    apply arr_set_Ok in Hl as [_ ->]. eexists _, _. split; [done|].
    cbn [fst snd]. split; [done|]. split; [by apply Forall_insert|by rewrite length_insert].
  - destruct (pq_send_ok now pkt when _ Q1 Hw Hx) as (q' & E & Hq'). rewrite E, !bind_Ok_l.
    eexists _, _. split; [done|]. by split_and!.
Qed.

Lemma to_schedule_ok now raw : tick_ok now -> now < to_schedule ac now raw < MaxTick.
Proof.
  intros [H0 H1]. pose proof (ak_ms _ _ Hac) as Hms. unfold to_schedule, MaxTick in *.
  assert (Hu : 0 <= u64 raw < 2 ^ 64) by (unfold u64; apply Z.mod_pos_bound; lia).
  rewrite !(u64_small (now + _)), (u64_small (now + ac_ms ac - 1)) by lia.
  destruct (Z.leb_spec (u64 raw) now); case_match; zb; lia.
Qed.

Lemma deleted_lookup (p : PktPtr) l (h : gmap Z Packet) : p ∉ l ->
  foldr (fun p h => delete p h) h l !! p = h !! p.
Proof.
  induction l as [|q l IH]; intros Hp; [done|]. apply not_elem_of_cons in Hp as [N Hp]. cbn.
  rewrite lookup_delete_ne by done. auto.
Qed.

(** A report concerns an access under way, or it is a writeback. *)
Lemma report_split T now stale o outs a : ad_inv T now stale (o :: outs) a ->
  matched (job_index <$> ((out_job <$> outs) ++ dc_jobs (ad_sys a))) stale
    match find_ongoing (job_index (out_job o)) (ad_ongoing a) with
    | None => (ad_ongoing a).*1
    | Some (p, rest) => rest.*1
    end.
Proof.
  intros Hi. destruct (ai_jobs _ _ _ _ _ Hi) as (extra & Hp & Ho). cbn in Hp.
  destruct (find_ongoing _ _) as [[p rest]|] eqn:E.
  - apply find_ongoing_Some in E as (Hl & _). exists extra. split; [|done].
    rewrite Hl in Hp. cbn in Hp. by apply Permutation_cons_inv in Hp.
  - apply find_ongoing_None in E.
    assert (Hin : job_index (out_job o) ∈ extra).
    { assert (H : job_index (out_job o) ∈ (ad_ongoing a).*1 ++ extra) by (rewrite <- Hp; left).
      by apply elem_of_app in H as [?|?]. }
    apply elem_of_Permutation in Hin as (extra' & He). exists extra'. rewrite He in Hp, Ho.
    apply Forall_cons in Ho as [_ Ho]. split; [|done].
    apply (Permutation_cons_inv (a := job_index (out_job o))). rewrite Hp. solve_Permutation.
Qed.

(** Accesses under way survive what leaves their packets alone. *)
Lemma under_way_frame a a' x : under_way a x -> ad_pkts a' !! x.2 = ad_pkts a !! x.2 ->
  req_ext range (ad_reqs a) (ad_reqs a') -> under_way a' x.
Proof.
  intros (pkt & r & Hp & Hr & [G1 G2 G3] & Hn & Hx) Hk He. destruct (He _ _ Hr) as (r' & Hr' & Hm).
  exists pkt, r'. split_and!; try done; [by rewrite Hk|]. split; auto.
Qed.

Lemma complete_ok T now rnd stale o outs a raw : ad_inv T now stale (o :: outs) a -> tick_ok now ->
  exists a' new, complete ac now rnd (job_index (out_job o)) raw (out_job o).2 a = Ok (a', new) /\
    ad_inv T now stale outs a' /\ answered now a new a'.
Proof.
  intros Hi Ht. pose proof (report_split _ _ _ _ _ _ Hi) as Hs.
  destruct Hi as [I1 I2 I3 I4 I5 I6 _ I8 I9]. cbn in I8. apply Forall_cons in I8 as [(Ja & Jt & Jp) I8].
  unfold complete. destruct (find_ongoing _ _) as [[p rest]|] eqn:E.
  2:{ exists a, []. split; [done|]. split; [by split|]. apply answered_none. }
  apply find_ongoing_Some in E as (Hl & Hin & Hsub).
  rewrite Forall_forall in I4. pose proof (I4 _ Hin) as (pkt & r & Hp & Hr & [G1 G2 G3] & Hn & Hx).
  cbn [fst snd] in *. rewrite Hl in I5. cbn in I5. apply NoDup_cons in I5 as [Hnp Hnd].
  assert (Hpp : p ∉ ad_pendingDelete a).
  { intros H. apply (I6 _ H). by apply (list_elem_of_fmap_2 snd _ (job_index (out_job o), p)). }
  assert (Hp1 : ad_pkts (removePendingDelete a) !! p = Some pkt) by (cbn; by rewrite deleted_lookup).
  rewrite (pkt_deref_ok _ _ _ Hp1), bind_Ok_l, Hn.
  destruct (atomic_ok rnd p pkt r (removePendingDelete a) Hp1 Hr G1 I2 I3)
    as (lat & m' & h' & pkt' & Ea & Hm' & Hrg & (K1 & K2 & K3) & Hresp & Hext).
  rewrite Ea, bind_Ok_l. cbn [fst snd]. rewrite (pkt_deref_ok p _ pkt') by apply lookup_insert_eq.
  rewrite bind_Ok_l, cassert_true, bind_Ok_l by auto.
  destruct (sched_ok now p pkt' (to_schedule ac now raw) (out_job o).2
    (with_ad_access m' h' (<[p:=pkt']> (ad_pkts (removePendingDelete a))) (removePendingDelete a)))
    as (q & rq & Es & Hq); [by cbn; rewrite lookup_insert_eq|auto| |done|done|].
  { pose proof (to_schedule_ok now raw Ht). lia. }
  rewrite Es, bind_Ok_l. cbn [fst snd]. eexists _, _. split; [done|].
  assert (Hpk : forall p2, p2 <> p -> p2 ∉ ad_pendingDelete a ->
    delete p (<[p:=pkt']> (ad_pkts (removePendingDelete a))) !! p2 = ad_pkts a !! p2).
  { intros p2 N H2. rewrite lookup_delete_ne, lookup_insert_ne by done. cbn. by rewrite deleted_lookup. }
  assert (Hrest : forall x, x ∈ rest -> x.2 <> p /\ x.2 ∉ ad_pendingDelete a).
  { intros x Hxr. split.
    - intros E. apply Hnp. rewrite <- E. by apply list_elem_of_fmap_2.
    - intros H. apply (I6 _ H). by apply list_elem_of_fmap_2, Hsub. }
  split; [|split; [|split]].
  - split; cbn; try done.
    + apply Forall_forall. intros x Hxr. destruct (Hrest x Hxr) as [N H2].
      apply (under_way_frame a); [by apply I4, Hsub| |done]. by apply Hpk.
    + intros p2 H2. by apply elem_of_nil in H2.
  - split; [|done]. intros p2 Ho H2. rewrite Hl in Ho. cbn in Ho.
    apply not_elem_of_cons in Ho as [N Ho]. cbn. split; [by apply Hpk|]. split; [done|apply not_elem_of_nil].
  - cbn. by rewrite Hl.
  - apply Forall_singleton. split; [|split]; cbn; [auto| |by apply to_schedule_ok].
    rewrite K2. by destruct (access_index_inj _ _ _ _ Ja (mem_pkt_addr _ _ G1) Hx) as [_ <-].
Qed.

Lemma callback_eq now rnd x o : exists raw, callback ac now rnd x o =
  (y ← complete ac now rnd (job_index (out_job o)) raw (out_job o).2 x.1; Ok (y.1, x.2 ++ y.2)).
Proof. destruct o; by eexists. Qed.

Lemma callbacks_ok T now rnd stale : tick_ok now -> forall outs a resp, ad_inv T now stale outs a ->
  exists a' new, foldM (callback ac now rnd) (a, resp) outs = Ok (a', resp ++ new) /\
    ad_inv T now stale [] a' /\ answered now a new a'.
Proof.
  intros Ht. induction outs as [|o outs IH]; intros a resp Hi.
  { exists a, []. rewrite app_nil_r. split; [done|]. split; [done|]. apply answered_none. }
  cbn [foldM]. destruct (callback_eq now rnd (a, resp) o) as (raw & ->). cbn [fst snd].
  destruct (complete_ok T now rnd stale o outs a raw Hi Ht) as (a1 & new1 & -> & Hi1 & Ha1).
  rewrite bind_Ok_l, bind_Ok_l. cbn [fst snd].
  destruct (IH a1 (resp ++ new1) Hi1) as (a2 & new2 & -> & Hi2 & Ha2).
  exists a2, (new1 ++ new2). rewrite <- app_assoc. split; [done|]. split; [done|]. by eapply answered_trans.
Qed.

Lemma dram_update_ok T now rnd stale a : tick_ok now -> ad_inv T now stale [] a -> dc_limit T ->
  exists a' new, dram_update c qc ac now rnd a = Ok (a', new) /\
    ad_inv (T + 1) now stale [] a' /\ answered now a new a'.
Proof.
  intros Ht [I1 I2 I3 I4 I5 I6 I7 I8 I9] Hlim. unfold dram_update.
  destruct (dc_update T (ad_sys a) I1 Hlim) as (s' & outs & -> & Hs' & Hp). rewrite bind_Ok_l. cbn [fst snd].
  apply (callbacks_ok (T + 1) now rnd stale Ht outs (with_ad_sys s' a) []).
  split; try done.
  - destruct I7 as (extra & Hx & Ho). exists extra. split; [|done]. rewrite <- Hx. cbn. by rewrite Hp.
  - cbn in I8 |- *. by rewrite Hp in I8.
Qed.

(** Both loops stop when the memory has caught up, at cycle [N]. *)
Lemma dram_updates_ok now rnd stale due N : tick_ok now -> due N = false ->
  (forall cyc, 0 <= cyc < N -> dc_limit cyc) -> forall fuel T a, ad_inv T now stale [] a ->
  T <= N -> N - T < Z.of_nat fuel -> (0 < fuel)%nat ->
  exists a' new T', dram_updates c qc ac fuel due now rnd a = Ok (a', new) /\
    ad_inv T' now stale [] a' /\ T' <= N /\ answered now a new a'.
Proof.
  intros Ht Hdue Hlim. induction fuel as [|fuel IH]; intros T a Hi HTN Hf Hpos; [lia|].
  cbn [dram_updates]. destruct (dc_cycle T _ (ai_sys _ _ _ _ _ Hi)) as [-> HT].
  destruct (due T) eqn:E; [|exists a, [], T; split_and!; [done..|apply answered_none]].
  assert (HN : T < N).
  { destruct (decide (T = N)) as [->|?]; [congruence|lia]. }
  destruct (dram_update_ok T now rnd stale a Ht Hi (Hlim T ltac:(lia))) as (a1 & n1 & -> & Hi1 & Ha1).
  rewrite bind_Ok_l. cbn [fst snd].
  destruct (IH (T + 1) a1 Hi1 ltac:(lia) ltac:(lia) ltac:(lia)) as (a2 & n2 & T2 & -> & Hi2 & HT2 & Ha2).
  rewrite bind_Ok_l. exists a2, (n1 ++ n2), T2. split_and!; [done..|]. by eapply answered_trans.
Qed.

(** ** A request *)

Lemma removePending_ok T now stale a : ad_inv T now stale [] a ->
  ad_inv T now stale [] (removePendingDelete a) /\ frame a (removePendingDelete a).
Proof.
  intros [I1 I2 I3 I4 I5 I6 I7 I8 I9].
  assert (Hk : forall p, p ∉ ad_pendingDelete a -> ad_pkts (removePendingDelete a) !! p = ad_pkts a !! p)
    by (intros p Hp; cbn; by rewrite deleted_lookup).
  split.
  - split; cbn; try done; [|intros p Hp; by apply elem_of_nil in Hp].
    rewrite Forall_forall in *. intros x Hx. apply (under_way_frame a); [auto| |apply req_ext_refl].
    apply Hk. intros H. apply (I6 _ H). by apply list_elem_of_fmap_2.
  - split; [|apply req_ext_refl]. intros p Ho Hp. split; [by apply Hk|]. split; [done|apply not_elem_of_nil].
Qed.

Lemma thread_of_ok pkt : thread_ok (pkt_threadID pkt) -> thread_of ac pkt = pkt_threadID pkt.
Proof. intros Ht. unfold thread_of, thread_ok in *. case_match; zb; lia. Qed.

(** A transaction for a packet. *)
Lemma transaction_ok T ty a pkt r : dc_inv T (ad_sys a) -> good_pkt pkt r -> ty <> RETURN_DATA ->
  exists b s', mcs_addTransaction c qc (mkTransaction ty (pkt_addr pkt) (thread_of ac pkt)
      (mc_cycle (ad_sys a))) (ad_sys a) = Ok (b, s') /\ dc_inv T s' /\
    dc_jobs s' ≡ₚ (if (b : bool) then [(bool_decide (ty = DATA_WRITE), pkt_addr pkt, pkt_threadID pkt)]
                   else []) ++ dc_jobs (ad_sys a).
Proof.
  intros Hs [G1 G2 G3] Hty. rewrite thread_of_ok by done. apply dc_add; [done|].
  split; [split; [apply (mem_pkt_addr _ _ G1)|destruct ty; cbn; auto; done]|].
  intros _. cbn. rewrite <- (ak_pids _ _ Hac). done.
Qed.

Lemma job_ok_pkt pkt r w : good_pkt pkt r -> job_ok (w, pkt_addr pkt, pkt_threadID pkt).
Proof. intros [G1 G2 G3]. split; [by apply (mem_pkt_addr _ _ G1)|done]. Qed.

Section Request.

Context (T now rnd : Z) (stale : list Z) (a : Adapter) (p : PktPtr) (pkt : Packet) (r : Request).
Context (Ht : tick_ok now) (Hi : ad_inv T now stale [] a).
Context (Hp : ad_pkts a !! p = Some pkt) (Hr : ad_reqs a !! pkt_req pkt = Some r) (Hg : good_pkt pkt r).
Context (Ho : p ∉ (ad_ongoing a).*2) (Hpd : p ∉ ad_pendingDelete a).

(** Its outcome: the requests that want a response are answered or under way. *)
Definition received (b : bool) (a' : Adapter) (resp : list Response) : Prop :=
  exists stale', ad_inv T now stale' [] a' /\
    length stale' = (length stale + if b then 0 else if needsResponse pkt then 1 else 0)%nat /\
    (ad_ongoing a).*2 ++ (if needsResponse pkt then [p] else []) ≡ₚ
      (rs_ptr <$> resp) ++ (ad_ongoing a').*2 /\ Forall (resp_ok now) resp.

Lemma request_ok : needsResponse pkt = true -> 
  let ty := if isRead pkt then DATA_READ else DATA_WRITE in
  exists b a', request_transaction c qc ac ty (pkt_addr pkt) p pkt a = Ok (b, a') /\ received b a' [].
Proof.
  intros Hn ty. set (i := access_index (negb (isRead pkt)) (pkt_addr pkt)).
  assert (Ei : (let index := u64 (Z.shiftl (pkt_addr pkt) 1) in
    if bool_decide (ty = DATA_WRITE) then Z.lor index 1 else index) = i)
    by (unfold i, ty; by destruct (isRead pkt)).
  unfold request_transaction. cbn zeta in *. rewrite Ei.
  pose proof Hi as [I1 I2 I3 I4 I5 I6 I7 I8 I9].
  destruct (transaction_ok T ty (with_ad_ongoing (ad_ongoing a ++ [(i, p)]) a) pkt r)
    as (b & s' & -> & Hs & Hj); [done|done|by unfold ty; destruct (isRead pkt)|].
  rewrite bind_Ok_l. cbn [fst snd] in *. exists b. eexists. split; [done|].
  assert (Ej : job_index (bool_decide (ty = DATA_WRITE), pkt_addr pkt, pkt_threadID pkt) = i)
    by (unfold i, ty; by destruct (isRead pkt)).
  exists (if b then stale else i :: stale). split_and!.
  - split; cbn [ad_sys ad_mem ad_ongoing ad_pkts ad_reqs ad_pendingDelete ad_queue ad_respQueues
      with_ad_sys with_ad_ongoing]; try done.
    + apply Forall_app. split; [exact I4|].
      apply Forall_singleton. exists pkt, r. by split_and!.
    + rewrite fmap_app. apply NoDup_app. split; [done|]. split; [|apply NoDup_singleton].
      intros q Hq Hq'. cbn in Hq'. apply list_elem_of_singleton in Hq' as ->. done.
    + intros q Hq. rewrite fmap_app, not_elem_of_app. split; [auto|]. cbn.
      intros Hq'%list_elem_of_singleton. by subst q.
    + destruct I7 as (extra & Hx & Hod). exists extra. split; [|done]. cbn in Hx |- *. rewrite fmap_app. cbn.
      rewrite Hj. destruct b; cbn; [rewrite Ej|]; rewrite ?Hx, <- ?Permutation_middle, ?Hx; solve_Permutation.
    + cbn. rewrite Hj. cbn in I8. destruct b; [|done]. cbn. constructor; [by eapply job_ok_pkt|done].
  - rewrite Hn. destruct b; cbn; lia.
  - rewrite Hn. cbn. rewrite fmap_app. cbn. done.
  - done.
Qed.

(** What happens to the packet itself leaves the accesses under way alone. *)
Lemma ad_inv_change a0 m' h' pk pd q rq : ad_inv T now stale [] a0 -> p ∉ (ad_ongoing a0).*2 ->
  (exists sp, mem_rel m' sp) -> am_range m' = range -> req_ext range (ad_reqs a0) h' ->
  (forall p', p' <> p -> pk !! p' = ad_pkts a0 !! p') ->
  (forall p', p' ∈ pd -> p' = p \/ p' ∈ ad_pendingDelete a0) -> queues_ok now q rq ->
  ad_inv T now stale [] (mkAdapter m' (ad_sys a0) (ad_ongoing a0) pk h' pd q rq).
Proof.
  intros [I1 I2 I3 I4 I5 I6 I7 I8 I9] Hn Hm Hrg Hext Hpk Hsub Hq. split; cbn; try done.
  - rewrite Forall_forall in *. intros x Hx. apply (under_way_frame a0); [by apply I4| |done].
    apply Hpk. intros E. apply Hn. rewrite <- E. by apply list_elem_of_fmap_2.
  - intros p' Hp'. destruct (Hsub p' Hp') as [->|?]; auto.
Qed.

(** Performed at once, and nothing more to do. *)
Lemma atomic_received a0 : ad_inv T now stale [] a0 -> ad_pkts a0 !! p = Some pkt ->
  ad_reqs a0 = ad_reqs a -> ad_ongoing a0 = ad_ongoing a -> needsResponse pkt = false ->
  forall b, exists x, ad_doAtomicAccess ac rnd p a0 = Ok x /\ received b (addPendingDelete p x.2) [].
Proof.
  intros Hi0 Hp0 Er Eo Hn b. rewrite <- Er in Hr.
  destruct (atomic_ok rnd p pkt r a0 Hp0 Hr (gp_mem _ _ Hg) (ai_mem _ _ _ _ _ Hi0) (ai_range _ _ _ _ _ Hi0))
    as (lat & m' & h' & pkt' & -> & Hm' & Hrg & _ & _ & Hext).
  eexists. split; [done|]. exists stale. rewrite Hn. split_and!; [|by destruct b; lia| |done].
  - rewrite <- Eo in Ho.
    refine (ad_inv_change a0 m' h' _ _ _ _ Hi0 Ho Hm' Hrg Hext _ _ (ai_queues _ _ _ _ _ Hi0)).
    + intros p' N. cbn. by rewrite lookup_insert_ne.
    + cbn. intros p' [?|?%list_elem_of_singleton]%elem_of_app; auto.
  - cbn. by rewrite Eo, app_nil_r.
Qed.

(** Performed and answered at once. *)
Lemma upgrade_received : needsResponse pkt = true ->
  exists x pkt' y, ad_doAtomicAccess ac rnd p a = Ok x /\ pkt_deref p x.2 = Ok pkt' /\
    isResponse pkt' = true /\
    ad_schedTimingResp ac now p (u64 (now + 1)) (pkt_threadID pkt') x.2 = Ok y /\ received true y.1 y.2.
Proof.
  intros Hn. pose proof Hg as [G1 G2 G3]. pose proof (ak_ms _ _ Hac) as Hms. destruct Ht as [H0 H1].
  destruct (atomic_ok rnd p pkt r a Hp Hr G1 (ai_mem _ _ _ _ _ Hi) (ai_range _ _ _ _ _ Hi))
    as (lat & m' & h' & pkt' & -> & Hm' & Hrg & (K1 & K2 & K3) & Hresp & Hext).
  assert (Hw : now < u64 (now + 1) < MaxTick) by (unfold MaxTick in *; rewrite u64_small by lia; lia).
  destruct (sched_ok now p pkt' (u64 (now + 1)) (pkt_threadID pkt')
    (with_ad_access m' h' (<[p:=pkt']> (ad_pkts a)) a)) as (q & rq & Es & Hq);
    [apply lookup_insert_eq|auto|lia|by rewrite K1|apply Hi|].
  eexists _, pkt', _. split; [done|]. split; [apply pkt_deref_ok, lookup_insert_eq|]. split; [auto|].
  split; [exact Es|]. exists stale. rewrite Hn. split_and!; [| |cbn; solve_Permutation|].
  - refine (ad_inv_change a m' h' _ _ _ _ Hi Ho Hm' Hrg Hext _ _ Hq).
    + intros p' N. cbn. by rewrite lookup_delete_ne, lookup_insert_ne.
    + by right.
  - by rewrite Nat.add_0_r.
  - apply Forall_singleton. split; [cbn; auto|]. cbn. rewrite K1, K2. split; [done|lia].
Qed.

Lemma recv_request_ok : exists b a' resp,
  recv_request c qc ac now rnd p pkt (pkt_addr pkt) a = Ok (b, a', resp) /\ received b a' resp.
Proof.
  unfold recv_request. destruct (needsResponse pkt) eqn:Hn.
  - destruct (isRead pkt) eqn:Hrd; [|destruct (isWrite pkt) eqn:Hwr].
    + destruct (request_ok Hn) as (b & a' & E & Hres). rewrite Hrd in E. rewrite E, bind_Ok_l.
      by eexists _, _, _.
    + destruct (request_ok Hn) as (b & a' & E & Hres). rewrite Hrd in E. rewrite E, bind_Ok_l.
      by eexists _, _, _.
    + destruct (upgrade_received Hn) as (x & pkt' & y & -> & E1 & E2 & E3 & Hres).
      rewrite bind_Ok_l, E1, bind_Ok_l, cassert_true, bind_Ok_l, E3, bind_Ok_l by done.
      by eexists _, _, _.
  - destruct (isWrite pkt) eqn:Hwr.
    + destruct (transaction_ok T DATA_WRITE a pkt r) as (b & s' & E & Hs & Hj); [apply Hi|done|done|].
      rewrite E, bind_Ok_l. cbn [fst snd].
      assert (Hi' : ad_inv T now stale [] (with_ad_sys s' a)).
      { pose proof Hi as [I1 I2 I3 I4 I5 I6 (extra & Hx & Hod) I8 I9]. split; try done.
        - cbn in Hx |- *. exists (if b then access_index true (pkt_addr pkt) :: extra else extra). rewrite Hj.
          destruct b; cbn; [|done]. split; [rewrite Hx; solve_Permutation|]. constructor; [|done].
          exact (access_index_odd true _ (mem_pkt_addr _ _ (gp_mem _ _ Hg))).
        - cbn in I8 |- *. rewrite Hj. destruct b; [|done]. cbn. constructor; [by eapply job_ok_pkt|done]. }
      destruct b.
      * destruct (atomic_received (with_ad_sys s' a) Hi' Hp eq_refl eq_refl Hn true) as (x & -> & Hres).
        rewrite bind_Ok_l. by eexists _, _, _.
      * eexists _, _, _. split; [done|]. exists stale. rewrite Hn. split_and!; [done|lia| |done].
        cbn. by rewrite app_nil_r.
    + assert (Hall : forall b, exists x, ad_doAtomicAccess ac rnd p a = Ok x /\ received b (addPendingDelete p x.2) []).
      { by apply (atomic_received a Hi Hp eq_refl eq_refl Hn). }
      destruct (Hall true) as (x & E & _). destruct (Hall (negb (x.1 =? 0))) as (x' & E' & Hres).
      assert (x' = x) by congruence. subst x'. rewrite E, bind_Ok_l. by eexists _, _, _.
Qed.

End Request.

(** ** The handlers *)

(** The memory has caught up with every tick at cycle [N]. *)
Context (N : Z) (HN : forall cyc, 0 <= cyc < N -> dc_limit cyc) (fuel : nat) (Hfuel : 0 <= N < Z.of_nat fuel).

Definition due_by (t : Z) : Prop := ac_due ac N t = false.
Definition behind_by (t : Z) : Prop := ac_behind ac (u64 (N - 1)) t = false.

Definition wants (pkt : Packet) : bool := negb (memInhibitAsserted pkt) && needsResponse pkt.

Lemma update_ok T now stale a rnd : tick_ok now -> due_by now -> ad_inv T now stale [] a -> T <= N ->
  exists a' new T', updateDRAMSim2 c qc ac fuel now rnd a = Ok (a', new) /\
    ad_inv T' now stale [] a' /\ T' <= N /\ answered now a new a'.
Proof.
  intros Ht Hd Hi HTN. destruct (dc_cycle T _ (ai_sys _ _ _ _ _ Hi)) as [_ HT].
  apply (dram_updates_ok now rnd stale _ N Ht Hd HN fuel T a Hi); lia.
Qed.

Lemma catch_up_ok T now stale a rnd next : tick_ok now -> behind_by next -> ad_inv T now stale [] a -> T <= N ->
  exists a' new T', simulate_catch_up c qc ac fuel now next rnd a = Ok (a', new) /\
    ad_inv T' now stale [] a' /\ T' <= N /\ answered now a new a'.
Proof.
  intros Ht Hd Hi HTN. destruct (dc_cycle T _ (ai_sys _ _ _ _ _ Hi)) as [_ HT].
  apply (dram_updates_ok now rnd stale _ N Ht Hd HN fuel T a Hi); lia.
Qed.

Lemma recv_ok T now rnd stale a p pkt : tick_ok now -> due_by now -> ad_inv T now stale [] a -> T <= N ->
  ad_pkts a !! p = Some pkt -> p ∉ (ad_ongoing a).*2 -> p ∉ ad_pendingDelete a ->
  (memInhibitAsserted pkt = true \/ exists r, ad_reqs a !! pkt_req pkt = Some r /\ good_pkt pkt r) ->
  exists b a' resp, ad_recvTimingReq c qc ac fuel now rnd p a = Ok (b, a', resp) /\
    exists T' stale', T' <= N /\ ad_inv T' now stale' [] a' /\
      length stale' = (length stale + if negb b && wants pkt then 1 else 0)%nat /\
      (ad_ongoing a).*2 ++ (if wants pkt then [p] else []) ≡ₚ (rs_ptr <$> resp) ++ (ad_ongoing a').*2 /\
      Forall (resp_ok now) resp.
Proof.
  intros Ht Hd Hi HTN Hp Ho Hpd Hpkt. unfold ad_recvTimingReq.
  destruct (removePending_ok _ _ _ _ Hi) as [Hi1 [Hf1 _]]. destruct (Hf1 p Ho Hpd) as (Hp1 & Ho1 & Hpd1).
  change (ad_ongoing a) with (ad_ongoing (removePendingDelete a)).
  change (ad_reqs a) with (ad_reqs (removePendingDelete a)) in Hpkt. rewrite Hp in Hp1.
  set (a1 := removePendingDelete a) in *. clearbody a1. rewrite (pkt_deref_ok _ _ _ Hp1), bind_Ok_l. unfold wants.
  destruct (memInhibitAsserted pkt) eqn:Hinh; cbn [negb andb].
  { assert (Hi2 : ad_inv T now stale [] (with_ad_pkts (delete p (ad_pkts a1)) a1)).
    { pose proof Hi1 as [I1 I2 I3 _ _ _ _ _ I9].
      refine (ad_inv_change T now stale p a1 _ _ _ _ _ _ Hi1 Ho1 I2 I3 (req_ext_refl _ _) _ _ I9); [|by right].
      intros p' Hne. by rewrite lookup_delete_ne. }
    destruct (update_ok T now stale _ rnd Ht Hd Hi2 HTN) as (a' & new & T' & -> & Hi' & HT' & (_ & Hperm & Hall)).
    rewrite bind_Ok_l. eexists _, _, _. split; [done|]. exists T', stale. rewrite andb_false_r, app_nil_r.
    split_and!; [done|done|lia|done|done]. }
  destruct Hpkt as [?|(r & Hr & Hg)]; [done|].
  destruct (mp_data _ _ _ (gp_mem _ _ Hg)) as (d & Hca). rewrite (ca_addr _ _ _ _ Hca), bind_Ok_l.
  destruct (update_ok T now stale a1 rnd Ht Hd Hi1 HTN) as (a2 & n2 & T2 & -> & Hi2 & HT2 & ([Hk He] & P2 & R2)).
  rewrite bind_Ok_l. cbn [fst snd]. destruct (Hk p Ho1 Hpd1) as (Hp2 & Ho2 & Hpd2). rewrite Hp1 in Hp2.
  destruct (He _ _ Hr) as (r2 & Hr2 & Hm2).
  assert (Hg2 : good_pkt pkt r2) by (destruct Hg; split; auto).
  destruct (recv_request_ok T2 now rnd stale a2 p pkt r2 Ht Hi2 Hp2 Hr2 Hg2 Ho2 Hpd2)
    as (b & a3 & n3 & -> & (stale3 & Hi3 & Hs3 & P3 & R3)). rewrite bind_Ok_l.
  destruct (update_ok T2 now stale3 a3 rnd Ht Hd Hi3 HT2) as (a4 & n4 & T4 & -> & Hi4 & HT4 & (_ & P4 & R4)).
  rewrite bind_Ok_l. eexists _, _, _. split; [done|]. exists T4, stale3. split_and!.
  - done.
  - done.
  - rewrite Hs3. by destruct b, (needsResponse pkt).
  - cbn [fst snd]. rewrite P2, <- app_assoc, P3, P4, !fmap_app. solve_Permutation.
  - cbn [fst snd]. by repeat (apply Forall_app; split).
Qed.

(** * Runs *)

Record AState := mkAState {
  st_now : Z;
  st_adapter : Adapter;
  st_accepted : list PktPtr;
  st_refused : list PktPtr;
  st_responses : list Response
}.

(** The sender hands a packet over with its request. *)
Definition with_packet (p : PktPtr) (pkt : Packet) (r : Request) (a : Adapter) : Adapter :=
  with_ad_access (ad_mem a) (<[pkt_req pkt := r]> (ad_reqs a)) (<[p := pkt]> (ad_pkts a)) a.

Definition may_send (a : Adapter) (p : PktPtr) (pkt : Packet) (r : Request) : Prop :=
  p ∉ (ad_ongoing a).*2 /\ p ∉ ad_pendingDelete a /\
  (ad_reqs a !! pkt_req pkt = None \/ ad_reqs a !! pkt_req pkt = Some r) /\
  (memInhibitAsserted pkt = true \/ good_pkt pkt r).

(** Packets arrive, the simulator lets the memory catch up with its next event, and
    time passes while the response queues do their work. *)
Inductive ad_reach (t0 : Z) (a0 : Adapter) : AState -> Prop :=
  | reach_new : ad_reach t0 a0 (mkAState t0 a0 [] [] [])
  | reach_recv s rnd p pkt r b a' resp :
      ad_reach t0 a0 s -> tick_ok (st_now s) -> due_by (st_now s) -> may_send (st_adapter s) p pkt r ->
      ad_recvTimingReq c qc ac fuel (st_now s) rnd p (with_packet p pkt r (st_adapter s)) = Ok (b, a', resp) ->
      ad_reach t0 a0 (mkAState (st_now s) a'
        (st_accepted s ++ if b && wants pkt then [p] else [])
        (st_refused s ++ if negb b && wants pkt then [p] else []) (st_responses s ++ resp))
  | reach_sim s rnd next a' resp :
      ad_reach t0 a0 s -> tick_ok (st_now s) -> behind_by next ->
      simulate_catch_up c qc ac fuel (st_now s) next rnd (st_adapter s) = Ok (a', resp) ->
      ad_reach t0 a0 (mkAState (st_now s) a' (st_accepted s) (st_refused s) (st_responses s ++ resp))
  | reach_queues s now' q rq :
      ad_reach t0 a0 s ->
      rtc pq_step (st_now s, ad_queue (st_adapter s)) (now', q) ->
      Forall2 (fun x y => rtc pq_step (st_now s, x) (now', y)) (ad_respQueues (st_adapter s)) rq ->
      ad_reach t0 a0 (mkAState now' (with_ad_queues q rq (st_adapter s))
        (st_accepted s) (st_refused s) (st_responses s)).

Lemma with_packet_ok T now stale a p pkt r : ad_inv T now stale [] a -> may_send a p pkt r ->
  ad_inv T now stale [] (with_packet p pkt r a).
Proof.
  intros Hi (Ho & Hpd & Hreq & _). pose proof Hi as [I1 I2 I3 _ _ _ _ _ I9].
  refine (ad_inv_change T now stale p a _ _ _ _ _ _ Hi Ho I2 I3 _ _ _ I9); [| |by right].
  - intros q r' Hq. destruct (decide (q = pkt_req pkt)) as [->|Hne].
    + rewrite lookup_insert_eq. exists r. split; [done|]. destruct Hreq as [E|E]; congruence.
    + rewrite lookup_insert_ne by done. by exists r'.
  - intros p' Hne. by rewrite lookup_insert_ne.
Qed.

Lemma rtc_pq_inv st st' : rtc pq_step st st' -> pq_inv st.1 st.2 -> pq_inv st'.1 st'.2.
Proof. induction 1; [done|]. eauto using pq_step_inv. Qed.

Definition st_inv (s : AState) : Prop :=
  (exists T stale, T <= N /\ ad_inv T (st_now s) stale [] (st_adapter s) /\ length stale = length (st_refused s)) /\
  st_accepted s ++ st_refused s ≡ₚ (rs_ptr <$> st_responses s) ++ (ad_ongoing (st_adapter s)).*2 /\
  Forall (fun x => isResponse (rs_pkt x) = true /\ P (pkt_addr (rs_pkt x)) (rs_tid x)) (st_responses s).

Lemma resp_ok_weaken now l : Forall (resp_ok now) l ->
  Forall (fun x => isResponse (rs_pkt x) = true /\ P (pkt_addr (rs_pkt x)) (rs_tid x)) l.
Proof. intros H. eapply Forall_impl; [exact H|]. by intros x (? & ? & _). Qed.

Lemma ad_reach_inv t0 a0 s : ad_inv 0 t0 [] [] a0 -> ad_ongoing a0 = [] -> ad_reach t0 a0 s -> st_inv s.
Proof.
  intros H0 E0. induction 1 as [|s rnd p pkt r b a' resp _ IH Ht Hd Hs E|s rnd next a' resp _ IH Ht Hb E
    |s now' q rq _ IH Hq Hrq].
  - split; [exists 0, []; split_and!; [lia|done..]|]. cbn. by rewrite E0.
  - destruct IH as [(T & stale & HTN & Hi & Hl) [Hp Hr]]. cbn [st_now st_adapter st_accepted st_refused st_responses].
    destruct (recv_ok T (st_now s) rnd stale _ p pkt Ht Hd (with_packet_ok _ _ _ _ _ _ _ Hi Hs) HTN)
      as (b' & a2 & resp' & E' & (T' & stale' & HT' & Hi' & Hl' & Hp' & Hr')).
    { apply lookup_insert_eq. }
    { apply Hs. }
    { apply Hs. }
    { destruct Hs as (_ & _ & _ & [?|?]); [by left|right]. exists r. split; [apply lookup_insert_eq|done]. }
    rewrite E in E'. injection E' as <- <- <-. split; [|split].
    + exists T', stale'. split; [done|]. split; [done|]. cbn [st_refused]. rewrite length_app, Hl', Hl. by destruct (negb b && wants pkt).
    + cbn [st_accepted st_refused st_responses st_adapter].
      change (ad_ongoing (with_packet p pkt r (st_adapter s))) with (ad_ongoing (st_adapter s)) in Hp'.
      rewrite fmap_app, <- !app_assoc, <- Hp'.
      rewrite (app_assoc (rs_ptr <$> _)), <- Hp. destruct b, (wants pkt); cbn; rewrite ?app_nil_r; solve_Permutation.
    + apply Forall_app. split; [done|]. by eapply resp_ok_weaken.
  - destruct IH as [(T & stale & HTN & Hi & Hl) [Hp Hr]]. cbn [st_now st_adapter st_accepted st_refused st_responses].
    destruct (catch_up_ok T (st_now s) stale _ rnd next Ht Hb Hi HTN)
      as (a2 & new & T' & E' & Hi' & HT' & (_ & Hp' & Hr')).
    rewrite E in E'. injection E' as <- <-. split; [by exists T', stale|]. split.
    + cbn. rewrite Hp, Hp', fmap_app. solve_Permutation.
    + apply Forall_app. split; [done|]. by eapply resp_ok_weaken.
  - destruct IH as [(T & stale & HTN & [I1 I2 I3 I4 I5 I6 I7 I8 (Q1 & Q2 & Q3)] & Hl) [Hp Hr]].
    split; [|done]. exists T, stale. split; [done|]. split; [|done]. split; try done. split; [by apply (rtc_pq_inv _ _ Hq)|].
    split; [|cbn; by rewrite <- (Forall2_length _ _ _ Hrq)]. apply Forall_lookup_2. intros i y Hy.
    destruct (Forall2_lookup_r _ _ _ _ _ Hrq Hy) as (x & Hx & Hxy). apply (rtc_pq_inv _ _ Hxy).
    by apply (Forall_lookup_1 _ _ _ _ Q2 Hx).
Qed.

End Adapter.

Lemma pq_inv_new now ID : pq_inv now (PacketQueue_new ID).
Proof. constructor; cbn; [constructor|by intros d Hd%elem_of_nil|done]. Qed.

(** The adapter over a new memory, as the constructors leave it. *)
Lemma adapter_new_inv c qc g (Hc : mem_cfg c qc g) ac range P PageBytes mem lastPID freq sys t0 :
  adapter_cfg qc ac -> 0 <= r_start range <= r_end range -> r_end range < 2 ^ 63 ->
  AbstractMemory_new range PageBytes false = Ok mem -> MultiChannel_new c qc lastPID freq = Ok sys ->
  ad_inv c qc (Hdc := mcs_contract c qc g Hc) ac range P 0 t0 [] [] (Adapter_new ac mem sys ∅).
Proof.
  intros Hac H1 H2 Hm Hs. destruct (new_mem_rel range PageBytes mem H1 ltac:(lia) Hm) as [Hrel Hr].
  destruct (mcs_new c qc g Hc lastPID freq sys Hs) as [Hi Hj]. split; cbn; try done.
  - by eexists.
  - apply NoDup_nil_2.
  - intros p Hp. by apply elem_of_nil in Hp.
  - rewrite Hj. by exists [].
  - by rewrite Hj.
  - split; [apply pq_inv_new|]. pose proof (ak_pos _ _ Hac). split.
    + apply Forall_fmap, Forall_forall. intros i _. apply pq_inv_new.
    + rewrite length_fmap. unfold zrange. rewrite length_seqZ. lia.
Qed.


(** * An example *)

(** A memory with a cycle of 1500 ticks behind split ports; a read of thread 1. *)
Definition demo_adapter : AdapterCfg :=
  mkAdapterCfg true 2 1500 (fun cyc t => cyc <=? t / 1500) (fun cyc t => cyc * 1500 <? t) (10 ^ 9) 0 0.
Definition demo_range : Range := mkRange 0x12000 0x123ff.
Definition demo_read : Packet :=
  with_pkt_flags (Z.lor (Z.lor VALID_ADDR VALID_SIZE) STATIC_DATA) (with_pkt_addr 0x12340
    (with_pkt_size 4 (with_pkt_data (Some [7; 7; 7; 7]) (Packet_blank 5 ReadReq 1 0)))).
Definition demo_request : Request :=
  mkRequest 0x12340 4 0 0 (Z.lor VALID_PADDR VALID_CONTEXT_ID) 0 0 0 0 1 0 0.
Definition demo_start : result Adapter :=
  m ← AbstractMemory_new demo_range 1024 false;
  sys ← MultiChannel_new ddr3 tp2 0 666666666;
  Ok (Adapter_new demo_adapter m sys ∅).
Definition demo_sent : result (bool * Adapter * list Response) :=
  a ← demo_start;
  ad_recvTimingReq ddr3 tp2 demo_adapter 301 0 0 77 (with_packet 77 demo_read demo_request a).
Definition demo_later : result (Adapter * list Response) :=
  x ← demo_sent; simulate_catch_up ddr3 tp2 demo_adapter 301 0 300000 0 x.1.2.


Lemma demo_cfg : adapter_cfg tp2 demo_adapter.
Proof. split; cbn; lia. Qed.

Definition own_thread (a t : Z) : Prop := t = if a <? 0x12200 then 0 else 1.

Lemma demo_good : good_pkt demo_adapter demo_range own_thread demo_read demo_request.
Proof.
  split; [|by split|done].
  split; [eexists; split; [done..|split; cbn; lia]|done|split; cbn; lia|done|done|by right; left| |done|done|done].
  by intros [|].
Qed.

Lemma demo_accepted : (x ← demo_sent; Ok (x.1.1, x.2)) = Ok (true, []).
Proof. by vm_compute. Qed.
Definition demo_view (y : Adapter * list Response) : list PktPtr * list Z * list (option (list Z)) :=
  (rs_ptr <$> y.2, rs_tid <$> y.2, (fun x => pkt_data (rs_pkt x)) <$> y.2).
Lemma demo_answered : (y ← demo_later; Ok (demo_view y)) = Ok ([77], [1], [Some [0; 0; 0; 0]]).
Proof. by vm_compute. Qed.

Lemma demo_reached : exists m sys x y,
  AbstractMemory_new demo_range 1024 false = Ok m /\ MultiChannel_new ddr3 tp2 0 666666666 = Ok sys /\
  demo_sent = Ok x /\ demo_later = Ok y /\
  ad_reach ddr3 tp2 demo_adapter demo_range own_thread 300 301 0 (Adapter_new demo_adapter m sys ∅)
    (mkAState 0 y.1 [77] [] y.2).
Proof.
  destruct (AbstractMemory_new demo_range 1024 false) as [m|] eqn:Em; [|by vm_compute in Em].
  destruct (MultiChannel_new ddr3 tp2 0 666666666) as [sys|] eqn:Es; [|by vm_compute in Es].
  pose proof demo_accepted as Hx. pose proof demo_answered as Hy.
  destruct demo_sent as [[[b a1] r1]|] eqn:Ex; [|discriminate Hx].
  destruct demo_later as [[a2 r2]|] eqn:Ey; [|discriminate Hy]. clear Hy.
  cbn [mbind result_bind fst snd] in Hx. injection Hx as -> ->.
  exists m, sys, (true, a1, []), (a2, r2). do 4 (split; [reflexivity|]).
  unfold demo_sent, demo_start in Ex. rewrite Em, bind_Ok_l, Es, !bind_Ok_l in Ex.
  unfold demo_later, demo_sent, demo_start in Ey. rewrite Em, bind_Ok_l, Es, !bind_Ok_l, Ex, bind_Ok_l in Ey.
  refine (reach_sim _ _ _ _ _ _ _ _ _ (mkAState 0 a1 [77] [] []) 0 300000 a2 r2 _ _ _ Ey);
    [|by split; vm_compute|reflexivity].
  refine (reach_recv _ _ _ _ _ _ _ _ _ (mkAState 0 (Adapter_new demo_adapter m sys ∅) [] [] []) 0 77
    demo_read demo_request true a1 [] (reach_new _ _ _ _ _ _ _ _ _) _ _ _ Ex);
    [by split; vm_compute|reflexivity|].
  split; [apply not_elem_of_nil|]. split; [apply not_elem_of_nil|]. split; [by left|]. right. apply demo_good.
Qed.

